(* ===== verification/_CoqProject ===== *)
-Q . S2P
Prelude.v
Data.v
Codec.v
BasePage.v
Iter.v
LinkedList.v
Latch.v
Shutdown.v
Notify.v
Float64.v
CacheHandle.v
LruCache.v
Ring.v
LruHeap.v
LruList.v
LruFiles.v
LruCore.v
LruLaws.v
LruSafe.v
CacheLaws.v
ClockWord.v
ClockCache.v
ClockProbe.v
ClockSlots.v
ClockOps.v
ClockFree.v
ClockInsert.v
ClockLaws.v
ClockSafe.v
Bitmap.v
BTree.v
PageGroup.v
Env.v
FileBuilder.v
FileWriter.v
MapFile.v
FileReader.v
FileRead.v
FileBlocks.v
FileRoundtrip.v
Directory.v
Manifest.v
PageFiles.v
PageFilesLaws.v
ManifestLog.v
SortedPage.v
PageTable.v
WriteBuffer.v
BufferSet.v
Stall.v
Version.v
Strategy.v
Flush.v
FlushLaws.v
FlushFile.v
Reclaim.v
VersionLife.v
VersionChain.v
VersionBuffers.v
Recover.v
RecoverLaws.v
StoreLog.v
StoreSafe.v
VersionSafe.v
VersionLaws.v
StoreRun.v
CompactFile.v
FlushStep.v
PageTxn.v
PageHeap.v
TreePage.v
Tree.v
TreeLaws.v
TreeRefine.v
TreeConsolidate.v
TreeWrite.v
TreeSplit.v
TreeReconcile.v
Table.v
TableLaws.v
