(* ===== verification/Prelude.v ===== *)
(** * PhotonDB: a verification development

    PhotonDB ([src/photondb]) is a key-value store: a Bw-tree of logical pages over
    a log-structured page store. This library translates the core of it into
    executable definitions and proves what makes it correct. This file is the root
    and the shared prelude; the sections below document the whole library.

    ** The program and its parts

    - [tree/mod.rs], [tree/page.rs]: the tree. A logical page has an id; the page
      table maps the id to the address of the head of a chain of immutable pages.
      A write prepends a delta page with a compare-and-swap in the table; a split
      prepends a split delta and raises the epoch of the page, which the next
      descent notices and reconciles with the parent; a consolidation merges a
      chain into one page. Keys carry an LSN: readers see the newest version at or
      below their own LSN, and versions no reader at or above the safe LSN can see
      are dropped by consolidations.
    - [page/*.rs]: the bytes of a page. A 16-byte header, then for sorted pages an
      array of offsets and the encoded items; iterators over pages and their merge.
    - [page_store/page_table.rs], [write_buffer.rs], [buffer_set.rs], [page_txn.rs]:
      the page store as the tree sees it. A transaction allocates pages in the
      active write buffer, links them in the table, and commits, or is dropped and
      leaves tombstones; full buffers are sealed and flushed to files by jobs.
    - [page_store/page_file/*.rs]: page files. A file has groups of pages, each with
      an index and a table from page addresses to page ids, then the addresses of
      the pages it deallocates, and a footer; pages may be compressed and checked.
    - [page_store/version.rs], [jobs/*.rs]: a version is a snapshot of the page groups
      (their active pages) and files. A flush writes a buffer to a file and installs
      the next version; a compaction copies the active pages of several files to a
      new one; the files a version obsoletes are removed when nobody has a version that
      may read them. The jobs are loops that wait for each other, for the writers and
      for the shutdown on latches and notifications ([util/*.rs]).
    - [page_store/manifest.rs], [meta.rs], [recover.rs]: the log of version edits, and
      the first version and page table rebuilt from it when a store is opened.
    - [page_store/cache/*.rs], [page_file/{mod,cache}.rs]: the facade of the page files
      keeps open readers in one LRU cache and pages in another; a cache is divided
      into shards, each with its handles in memory, linked in the order of their use
      and by file, and counted by the entries that clients have. A second cache, which
      the store does not use, keeps its handles in a table of fixed size with packed
      atomic words and evicts with a clock hand.
    - [page_store/strategy/mod.rs]: scores the files by what compacting them gains.
    - [raw/table.rs]: what users call: reads, writes and deletes at an LSN, and the safe LSN.

    ** Files

    - [Prelude]: outcomes ([res]: a value, an error of [page_store/error.rs], or a
      panic), the state monad [St], words and little-endian bytes, lists, tactics
      and the hint database [photon].
    - [Data] ([page/data.rs]): [Key], [Value], [Index], [Range] and their orders.
    - [Codec] ([page/codec.rs]): encoder and decoder, and the class [CodecLaws] of
      what sorted pages need of a codec.
    - [BasePage] ([page/base_page.rs]): the header as bytes, against the record
      [Header].
    - [Iter] ([page/iter.rs]): the iterator traits as classes; [denotes] says which
      items an iterator yields, and [merging_iter_correct] that a merging iterator
      yields the sorted merge of its parts.
    - [Float64]: binary64 numbers, for the ratios of the caches and the scores.
    - [CacheHandle] ([cache/mod.rs], [CacheOption]), [LruCache] ([cache/lru.rs]): the
      handles with their packed flags, and the operations of a shard and of the cache
      on a memory of handles; following a pointer that was freed is a [Panic].
    - [Ring], [LruHeap], [LruList], [LruFiles], [LruCore], [LruLaws], [LruSafe]: the
      invariant of a shard ([shard_rep]), in parts: rings of pointers, the memory as
      maps, the list in three parts, the rings of the files, and what the handles hold
      against the multiset of entries that clients have; each operation keeps it.
    - [CacheLaws]: what a cache promises ([cache_spec]), clients as sequences of
      operations ([client_run]), and the proof that the LRU cache keeps the promise.
    - [ClockWord], [ClockCache] ([cache/clock.rs]): the packed word of a slot, and the
      operations of a table, a shard and the cache on slots. [ClockProbe] (the probe
      sequence visits every slot), [ClockSlots], [ClockOps], [ClockFree], [ClockInsert],
      [ClockLaws]: the invariant of a table (words, displacements, usage and occupancy
      against the entries that clients have) and that each operation keeps it;
      [ClockSafe]: the cache for its clients.
    - [PageFiles], [PageFilesLaws] ([page_file/{mod,cache}.rs]): the facade with its two
      caches, and their transparency.
    - [Strategy] ([strategy/mod.rs]): the scores of the files and the order of the picks.
    - [SortedPage] ([page/sorted_page.rs]): building, reading, binary search, split.
    - [PageTable] ([page_store/page_table.rs]): three levels of cells, the free
      list threaded through them, recovery; [table_inv] is its invariant.
    - [WriteBuffer] ([page_store/write_buffer.rs]): the packed 64-bit state and the
      records; [wb_repr] relates a buffer to its list of records.
    - [BufferSet] ([page_store/buffer_set.rs]): versions of the set of buffers and
      the permits for new ones.
    - [Notify] ([util/notify.rs]): futures that wait for a wake-up, with the packed word
      and the list of waiters. [Stall]: the tasks that wait for a permit on it, with
      their steps interleaved ([wait_step]) and the invariant [permits_inv].
    - [LinkedList] ([util/linked_list.rs]): the list of waiters as pointers in memory,
      against a list. [Latch] ([util/latch.rs]), [Shutdown] ([util/shutdown.rs]): the other
      futures, with the wakers they owe to their tasks.
    - [Bitmap] ([util/bitmap.rs]), [BTree] (ordered maps as sorted lists), [PageGroup]
      ([page_file/types.rs]): the active pages of a group, as a bitmap and against
      the map [pg_repr].
    - [Env], [Directory] ([env/mod.rs]): writers, readers and directories as classes
      with laws that allow short and interrupted I/O; instances in memory.
    - [FileBuilder], [FileWriter], [MapFile], [FileReader], [FileRead], [FileBlocks],
      [FileRoundtrip] ([page_file/*.rs]): the operations that write and read a page
      file, and the proofs that reading gives back what was written.
    - [Manifest], [ManifestLog] ([page_store/{meta,manifest}.rs]): the log of edits.
    - [Version] ([page_store/version.rs]): the chain of versions.
    - [VersionLife] ([version.rs], [buffer_set.rs], [jobs/*.rs], [page_store/mod.rs]): the
      loops of the flush, cleanup and reclaim jobs and of the clients that pin, seal,
      flush and wait, as steps from one [await] to the next on one state ([Life]), with
      who has which version and when a version is dropped. [VersionChain] and
      [VersionBuffers] have the two halves of its invariant, [VersionSafe] the proof that
      every step keeps it, [VersionLaws] what the tasks can rely on.
    - [Flush], [FlushLaws], [FlushFile] ([jobs/flush.rs]): flushing a write buffer.
    - [Reclaim], [CompactFile] ([jobs/{reclaim,cleanup}.rs]): compaction, clean-up.
    - [Recover], [RecoverLaws] ([page_store/recover.rs]): replaying the log.
    - [StoreLog], [StoreSafe], [StoreRun], [FlushStep]: the jobs together. The state
      [Store] of [StoreLog] has the versions, the log, the files on disk and a running
      compaction; [store_step] are the flushes, compactions, rolls of the manifest,
      clean-ups and restarts, built from the definitions of the jobs; [Pages] is the
      ghost state, the live pages and the newest address of each page id.
    - [PageTxn] ([page_store/page_txn.rs]): [Store] joins table, buffers and the
      pages in files; guards and transactions on it.
    - [PageHeap]: the abstract store, a map from ids to addresses and a map from
      addresses to pages; [heap_inv] relates a [Store] to it, and each operation of
      a transaction is an update of the maps.
    - [TreePage] ([tree/page.rs]): the iterators that read or consolidate a chain.
    - [Tree] ([tree/mod.rs]): every operation of [TreeTxn], and [TreeIter].
    - [TreeLaws]: the closures of the tree on the chain of one page.
    - [TreeRefine], [TreeConsolidate], [TreeWrite], [TreeSplit], [TreeReconcile]: the
      abstract tree ([route], [tree_reads]) and the proofs that reading, writing (with
      and without a consolidation), creating, consolidating a leaf, splitting the root
      and splitting a leaf below it implement their specification on it
      ([TreeConsolidate] also has the consolidations that stop before a large base page).
    - [Table], [TableLaws] ([raw/table.rs]): the operations of a table, the multi-version
      map that specifies them, and the proof, from [open] on, for tables whose entries
      fit into one page.

    ** What the theorems show

    - A table is a multi-version map ([table_refines]): from an empty store on, any
      sequence of reads, writes, deletes and moves of the safe LSN gives what the map
      gives, while the entries fit into one page; the consolidations of the page, in
      whole or in part, are covered as long as no delete is at or below the safe LSN.
    - The tree is a multi-version map: [tree_get] returns the abstract value;
      [tree_write] changes it for readers of the key at or after its LSN and nobody
      else; [consolidate_page] changes nothing for readers at or after the safe LSN,
      [split_page] of the root nothing for anybody. A write that makes the chain of
      its leaf too long consolidates it ([tree_write_consolidates]); the split of a
      leaf below the root is completed by the first descent that finds its new epoch,
      which changes nothing for anybody ([split_leaf_refines]). These theorems give
      success (the operation returns [Ok]), not only partial correctness. They cover
      the path without conflicts: the buffer has room, and no other thread moves the
      page.
    - Pages: chains are searched newest first and agree with the merged chain; leaf
      consolidation keeps what readers at or after the safe LSN see, and drops what
      they cannot; inner consolidation keeps the child of every key; a reconciled
      split routes each key to the right half; a split keeps all versions of a key
      together; sorted pages round-trip through bytes, and binary search finds the
      rank.
    - The store: allocated ids are fresh, freed ids come back once, recovery rebuilds
      the table; allocated records do not overlap, stay in the buffer and are all
      found by the record iterator; an aborted transaction restores the table and
      turns its records into tombstones.
    - Files: a page file read back gives the metadata, tables, deallocations and page
      contents that were written, for every compression and checksum, with buffered
      and direct I/O and any short reads and writes; a page whose checksum does not
      match is refused.
    - The caches: from a new cache, clients that drop each entry once can do nothing
      that makes the LRU cache follow a dangling pointer or loop; it is a partial map
      that may forget, entries keep their values, and it exceeds its capacity only by
      what clients have ([lru_cache_refines], [lru_cache_bounded], [evict_terminates];
      all for caches without a low priority part, as those of the store). Reading a page
      through the facade gives what the file has, cached or not
      ([read_page_transparent]), and from new caches, whatever was read, inserted and
      evicted before, the page that was written ([written_page_read]); removing files
      leaves no reader of them.
    - The clock cache, for fewer than 2^29 operations and positive charges: clients that drop each entry once
      get the values that were inserted, and no assertion fails ([clock_cache_refines]);
      the words and counters stay well formed, and usage and occupancy are what the slots
      say ([clock_cache_typed]); a probe visits every slot ([find_slot_probes_every_slot]);
      an unused cache can be dropped.
    - The tasks of a store: whatever the jobs and clients do, no assertion of theirs
      fails, and whoever has a version finds its files and its buffers
      ([version_readers_safe]); when a flush returns, the version with its page group and
      its file was installed, and the unflushed buffers are bounded
      ([flush_waits_for_version]).
    - The strategy hands out the files from the greatest score on and keeps the last.
    - The manifest is a log of edits across rolls and reopening; a crash loses at
      most the record being written, and reopening removes temporary files and older
      manifests, and files whose name is a smaller number ([manifest_reopen]).
    - The store: in every state reachable by flushes, compactions (with flushes in
      between), rolls, clean-ups and restarts, the current version finds every live
      page in a file on the disk ([store_keeps_live_pages]), a restart finds all of
      them again with their newest addresses ([crash_recovers_live_pages]), and a
      flush can always install ([flush_always_installs]). [flush_file_is_step] and
      [compaction_copies_live_pages] say that the jobs, down to the bytes of the
      files, do what these steps assume.
    - Interleavings: any sequence of atomic attempts on a buffer keeps its state
      well formed, and a sealed buffer is handed to the flush exactly once; permits
      are conserved; the safe LSN only grows, to the maximum asked for; no wake-up of
      a [Notify] is lost ([notify_wakes]), nor of a latch or the shutdown signal
      ([latch_wakes], [shutdown_wakes]), and a stalled writer never sleeps while a
      permit is available ([stalled_writer_wakes]). The list of waiters in memory is a
      list ([linked_list_refines]).
    - Theorems that show behaviours that look unintended:
      [reclaiming_wait_lost] (a version that the reclaim job skips is never marked as
      reclaimed, so [wait_for_reclaiming] on it waits for ever),
      [has_permits_wait_lost] (a flush that waits for a permit is not woken by the
      release of one unless a writer has stalled),
      [unsplittable_leaf_write_livelock] (a write to a large leaf of one key is
      retried for ever, as a split that did nothing counts as a split),
      [partial_consolidation_reads] (a consolidation that stops before a large
      base page drops a tombstone whose older versions stay, so a deleted key is
      read again; exactly which readers see what) and [alloc_size_in_bounds] (with a
      buffer of 2^31 bytes, or a request close to 2^32, the sums wrap past the capacity
      check; in all other cases they do not). Examples show more:
      [recovery_revives_dead_page] and [compaction_revives_dead_page], a restart or a
      compaction can make a deallocated page active again, so its space and its
      page id leak; [low_part_inverted], a cache with a low priority part, which
      the store does not use, that evicts a recent page before an older one; and for the
      clock cache [clock_insert_duplicates] (a key that is inserted twice has two slots),
      [clock_no_countdown] (a visible entry is evicted at the first pass of the hand),
      [near_overflow_loses_refs] (correcting the counters of a slot can lose references) and
      [zero_charge_panics] (erasing an entry without a charge can violate an assertion); for
      the manifest [bare_number_removed] (any number is taken for the name of a manifest).

    ** Conventions

    - The model is that of a release build on a 64-bit little-endian machine:
      arithmetic on stored words wraps where the code's does and the wrap is
      written out, [debug_assert] is left out. [Panic] is an [assert], an [expect],
      an index or pointer out of bounds, and fuel that ran out. Words and addresses
      are [Z] with their bounds, lengths and indices of data in memory are [nat].
    - Loops over chains, descents and retries take [fuel]. The theorems ask for the
      length of the chain, the depth of the path or the number of items, and a
      result other than [Panic] shows the fuel was enough. Binary search, record
      iteration and table recovery run on a fuel computed from their input.
    - Compare-and-swap loops are split into attempts: the definitions that read
      like the code run the loop of one thread, and the step relations interleave
      the attempts of many.
    - The binary heap of the merging iterator is a list from which the greatest
      element is taken. The child arrays of the page table are one sparse map.
    - A device fails only by short transfers and interrupts, fewer in a row than the
      fuel [io_fuel] of the loops that retry; where the code reports or asserts other
      errors, the definitions do, and the theorems exclude them by the laws.
    - Hash maps are [gmap]s; where the order of iteration could matter it is that of
      [map_to_list], and no theorem depends on it.
    - In [PageTxn], pages in files are two maps of the store ([st_file_pages], [st_file_infos]);
      memory of a new write buffer is arbitrary (the parameter [fresh_mem]).
      Starting a transaction while the active buffer is sealed, where the code
      waits, is a [Panic].
    - A shard of a cache runs under its lock, so its operations are steps; its memory
      is its own, and the address that an allocation returns is an argument, fresh in
      the theorems. The loops of a shard run on the number of its handles as fuel.
      The operations of the clock cache run one after the other, each atomic access in
      the order of the code; the floating point functions of its sizing are a parameter.
    - A task of [VersionLife] steps from one [await] to the next and is not cancelled;
      recording an edit and installing its version, which the lock of the manifest makes
      one, are one step. The contents of the files are those of [StoreLog], of which
      [VersionLife] keeps the ids ([store_versions_apart] links the two).

    ** Not modelled

    Statistics (but those of the caches), logging and [Debug] output; interleavings of the
    atomic accesses inside an operation of the clock cache; the epochs that protect
    pointers and the cancellation of futures; the implementations of the environments,
    the wrappers around the table and the tools (I/O and forwarding); crc32, snappy, zstd,
    prost and the runtime, which are not in the repository and are parameters. Not
    proved, in the order of their worth: the consolidation and the split of an inner page
    and the order of a [TreeIter] scan, on the abstract tree, and with them
    [table_refines] beyond one page and one write buffer; the wait for an active buffer
    ([acquire_active_buffer_id]); caches with a low priority part. *)

From stdpp Require Import base numbers list sorting gmap.
From Stdlib Require Import ZArith Lia.

#[global] Open Scope Z_scope.
#[global] Coercion Z.of_nat : nat >-> Z.

(** ** Errors and outcomes *)

(** The kinds of [std::io::Error] the page store distinguishes. *)
Inductive IoErrorKind :=
  | NotFound | AlreadyExists | UnexpectedEof | Interrupted | WriteZero | OtherIo.

(** [page_store::Error]. *)
Inductive Error :=
  | Again
  | Corrupted
  | InvalidArgument
  | MemoryLimit
  | TooLargeSize
  | Io (k : IoErrorKind).

(** The outcome of fallible code: [Ok] and [Err] are Rust's [Result];
    [Panic] is a panic ([assert!], [expect], [unreachable!], a slice index out
    of range) and, in [unsafe] code, an access outside the buffer. *)
Inductive res (A : Type) : Type :=
  | Ok (a : A)
  | Err (e : Error)
  | Panic.
Arguments Ok {A} _.
Arguments Err {A} _.
Arguments Panic {A}.

#[global] Instance res_ret : MRet res := @Ok.
#[global] Instance res_bind : MBind res := λ A B f m,
  match m with Ok a => f a | Err e => Err e | Panic => Panic end.

#[global] Instance io_kind_eq_dec : EqDecision IoErrorKind.
Proof. solve_decision. Defined.
#[global] Instance error_eq_dec : EqDecision Error.
Proof. solve_decision. Defined.

(** [assert!(b)]. *)
Definition rassert (b : bool) : res unit := if b then Ok tt else Panic.
(** [o.expect(..)] and [o.unwrap()]. *)
Definition expect {A} (o : option A) : res A :=
  match o with Some a => Ok a | None => Panic end.
(** [o.ok_or(e)]. *)
Definition ok_or {A} (o : option A) (e : Error) : res A :=
  match o with Some a => Ok a | None => Err e end.

(** Stateful fallible code: the state is kept when the outcome is an error, as the
    effects before a [?] are. *)
Definition St (S A : Type) : Type := S -> res A * S.
#[global] Instance st_ret {S} : MRet (St S) := λ A a s, (Ok a, s).
#[global] Instance st_bind {S} : MBind (St S) := λ A B f m s,
  match m s with
  | (Ok a, s) => f a s
  | (Err e, s) => (Err e, s)
  | (Panic, s) => (Panic, s)
  end.

(** An outcome that does not touch the state; reading and writing a part of it. *)
Definition lift {S A} (r : res A) : St S A := λ s, (r, s).
Definition gets {S A} (f : S -> A) : St S A := λ s, (Ok (f s), s).
Definition modify {S} (f : S -> S) : St S unit := λ s, (Ok tt, f s).
(** Running code and looking at its outcome, [match m.await { .. }]. *)
Definition attempt {S A} (m : St S A) : St S (A + Error) := λ s,
  match m s with
  | (Ok a, s) => (Ok (inl a), s)
  | (Err e, s) => (Ok (inr e), s)
  | (Panic, s) => (Panic, s)
  end.
(** [m.await.expect(..)]: an error becomes a panic. *)
Definition must {S A} (m : St S A) : St S A := λ s,
  match m s with (Err _, s) => (Panic, s) | r => r end.
(** [m?] where the error path first runs [cleanup] (a [Drop]). *)
Definition on_err {S A} (m : St S A) (cleanup : St S unit) : St S A := λ s,
  match m s with
  | (Err e, s) => match cleanup s with (Panic, s) => (Panic, s) | (_, s) => (Err e, s) end
  | r => r
  end.

(** ** Machine integers

    Unsigned integers are [Z]; arithmetic that can leave the width is wrapped
    explicitly, as the release profile does. *)

Definition wrap (w z : Z) : Z := z mod 2 ^ w.
Abbreviation wrap8 := (wrap 8).
Abbreviation wrap32 := (wrap 32).
Abbreviation wrap64 := (wrap 64).
Definition fits (w z : Z) : Prop := 0 <= z < 2 ^ w.
Definition u32_max : Z := 2 ^ 32 - 1.
Definition u64_max : Z := 2 ^ 64 - 1.
(** [a.saturating_sub(b)]. *)
Definition sat_sub (a b : Z) : Z := Z.max 0 (a - b).

(** [to_le_bytes] on [n] bytes and [from_le_bytes]. *)
Fixpoint le_bytes (n : nat) (z : Z) : list Z :=
  match n with
  | O => []
  | S n => z mod 256 :: le_bytes n (z / 256)
  end.
Fixpoint le_num (l : list Z) : Z :=
  match l with
  | [] => 0
  | b :: l => b + 256 * le_num l
  end.

(** ** Slices *)

(** [&l[i..j]], which panics when the range is not inside the slice. *)
Definition slice {A} (l : list A) (i j : nat) : res (list A) :=
  if bool_decide (i <= j)%nat && bool_decide (j <= length l)%nat
  then Ok (take (j - i) (drop i l)) else Panic.

(** Overwriting [bs] at offset [off] of a buffer. *)
Definition splice {A} (l : list A) (off : nat) (bs : list A) : list A :=
  take off l ++ bs ++ drop (off + length bs) l.
Definition write_at {A} (l : list A) (off : nat) (bs : list A) : res (list A) :=
  if bool_decide (off + length bs <= length l)%nat
  then Ok (splice l off bs) else Panic.

(** ** Orders

    [Ord] is Rust's trait; [OrdLaws] is the contract of a total order that
    the sorted pages, the merging iterators and the tree rely on. *)

Class Ord (K : Type) := cmp : K -> K -> comparison.

Class OrdLaws (K : Type) `{Ord K} : Prop := {
  cmp_eq_iff : forall a b : K, cmp a b = Eq <-> a = b;
  cmp_opp : forall a b : K, cmp b a = CompOpp (cmp a b);
  cmp_lt_trans : forall a b c : K, cmp a b = Lt -> cmp b c = Lt -> cmp a c = Lt;
}.

Definition kle {K} `{Ord K} (a b : K) : Prop := cmp a b <> Gt.
Definition klt {K} `{Ord K} (a b : K) : Prop := cmp a b = Lt.

(** The lexicographic order of [[T]], used on byte strings. *)
Fixpoint bytes_cmp (a b : list Z) : comparison :=
  match a, b with
  | [], [] => Eq
  | [], _ => Lt
  | _, [] => Gt
  | x :: a, y :: b =>
      match Z.compare x y with Eq => bytes_cmp a b | o => o end
  end.
#[global] Instance bytes_ord : Ord (list Z) := bytes_cmp.
#[global] Instance z_ord : Ord Z := Z.compare.

(** ** Automation *)

Create HintDb photon discriminated.
#[global] Hint Constants Opaque : photon.
#[global] Hint Resolve list_elem_of_here list_elem_of_further : photon.

(** Splits a successful bind in a hypothesis into its steps. *)
Ltac inv_res :=
  repeat match goal with
  | H : Ok _ = Ok _ |- _ => injection H; clear H; intros; subst
  | H : Some _ = Some _ |- _ => injection H; clear H; intros; subst
  | H : Ok _ = Err _ |- _ => discriminate H
  | H : Ok _ = Panic |- _ => discriminate H
  | H : Err _ = Ok _ |- _ => discriminate H
  | H : Panic = Ok _ |- _ => discriminate H
  | H : Panic = Err _ |- _ => discriminate H
  | H : mbind _ ?m = Ok _ |- _ =>
      let E := fresh "E" in destruct m eqn:E; cbn [mbind res_bind] in H
  | H : rassert ?b = Ok _ |- _ =>
      let E := fresh "E" in destruct b eqn:E; cbn [rassert] in H
  end.

(** Turns boolean tests of the source into propositions. *)
Ltac boolify :=
  repeat match goal with
  | H : _ && _ = true |- _ => apply andb_true_iff in H; destruct H
  | H : bool_decide _ = true |- _ => apply bool_decide_eq_true_1 in H
  | H : bool_decide _ = false |- _ => apply bool_decide_eq_false_1 in H
  | H : negb _ = true |- _ => apply negb_true_iff in H
  | H : negb _ = false |- _ => apply negb_false_iff in H
  | H : (_ <? _) = true |- _ => apply Z.ltb_lt in H
  | H : (_ <? _) = false |- _ => apply Z.ltb_ge in H
  | H : (_ <=? _) = true |- _ => apply Z.leb_le in H
  | H : (_ <=? _) = false |- _ => apply Z.leb_gt in H
  | H : (_ =? _) = true |- _ => apply Z.eqb_eq in H
  | H : (_ =? _) = false |- _ => apply Z.eqb_neq in H
  end.

(** [lia] with division and modulo by constants. *)
Ltac div_lia := Z.to_euclidean_division_equations; lia.

(** ** Lemmas on outcomes *)

Lemma bind_ok {A B} (m : res A) (f : A -> res B) b :
  mbind f m = Ok b <-> exists a, m = Ok a /\ f a = Ok b.
Proof. destruct m; simpl; split; [eauto|intros (? & [= <-] & ?); done|done|by intros (? & ? & ?)|done|by intros (? & ? & ?)]. Qed.

(** A step of stateful code that succeeds, and one that fails. *)
Lemma st_bind_ok {S A B} (m : St S A) (f : A -> St S B) s a s' :
  m s = (Ok a, s') -> mbind f m s = f a s'.
Proof. intros E. unfold mbind, st_bind. by rewrite E. Qed.
Lemma st_bind_inv {S A B} (m : St S A) (k : A -> St S B) s b s' : mbind k m s = (Ok b, s') -> exists a s1, m s = (Ok a, s1) /\ k a s1 = (Ok b, s').
Proof. unfold mbind, st_bind. destruct (m s) as [[a|e|] s1]; [|done..]. intros E. by exists a, s1. Qed.
Lemma st_gets {S A B} (g : S -> A) (f : A -> St S B) s : mbind f (gets g) s = f (g s) s.
Proof. done. Qed.
Lemma st_get {S B} (f : S -> St S B) s : mbind f (gets id) s = f s s.
Proof. done. Qed.
Lemma st_modify {S B} (g : S -> S) (f : unit -> St S B) s : mbind f (modify g) s = f tt (g s).
Proof. done. Qed.
Lemma st_assoc {S A B D} (m : St S A) (f : A -> St S B) (g : B -> St S D) s : mbind g (mbind f m) s = mbind (λ a, mbind g (f a)) m s.
Proof. unfold mbind, st_bind. by destruct (m s) as [[] ?]. Qed.
Lemma st_bind_ext {S A B} (m : St S A) (f g : A -> St S B) s : (forall a s', f a s' = g a s') -> mbind f m s = mbind g m s.
Proof. intros E. unfold mbind, st_bind. by destruct (m s) as [[] ?]. Qed.
(** Runs the first step of a state computation, by the equation for its outcome. *)
Tactic Notation "st_step" uconstr(H) := rewrite (st_bind_ok _ _ _ _ _ H).

Lemma st_bind_err {S A B} (m : St S A) (f : A -> St S B) s e s' :
  m s = (Err e, s') -> mbind f m s = (Err e, s').
Proof. intros E. unfold mbind, st_bind. by rewrite E. Qed.

Lemma st_mret {S A B} (a : A) (f : A -> St S B) s : mbind f (mret a) s = f a s.
Proof. done. Qed.
Lemma st_assert {S B} (b : bool) (f : unit -> St S B) s : b = true -> mbind f (lift (rassert b)) s = f tt s.
Proof. by intros ->. Qed.

Lemma expect_ok {A} (o : option A) a : expect o = Ok a <-> o = Some a.
Proof. destruct o; simpl; split; congruence. Qed.

Lemma rassert_true b : b = true -> rassert b = Ok tt.
Proof. intros ->. reflexivity. Qed.

(** ** Lemmas on machine integers *)

Lemma wrap_fits w z : 0 <= w -> fits w (wrap w z).
Proof. intros. apply Z.mod_pos_bound. apply Z.pow_pos_nonneg; lia. Qed.

Lemma wrap_small w z : fits w z -> wrap w z = z.
Proof. intros. by apply Z.mod_small. Qed.

Lemma length_le_bytes n z : length (le_bytes n z) = n.
Proof. revert z. induction n; intros; simpl; [done|]. by rewrite IHn. Qed.

Lemma pow256_pos (n : nat) : 0 < 256 ^ n.
Proof. apply Z.pow_pos_nonneg; lia. Qed.

(** Decoding the little-endian bytes of a number truncates it to the width. *)
Lemma le_num_bytes (n : nat) z : le_num (le_bytes n z) = z mod 256 ^ n.
Proof.
  revert z. induction n as [|n IH]; intros z; [by rewrite Z.mod_1_r|].
  simpl le_bytes. simpl le_num. rewrite IH, Nat2Z.inj_succ, Z.pow_succ_r by lia.
  pose proof (pow256_pos n). rewrite Z.rem_mul_r by lia. lia.
Qed.

Lemma le_num_bytes_small (n : nat) z : 0 <= z < 256 ^ n -> le_num (le_bytes n z) = z.
Proof. intros. rewrite le_num_bytes. by apply Z.mod_small. Qed.

Lemma le_num_u32 z : fits 32 z -> le_num (le_bytes 4 z) = z.
Proof. apply (le_num_bytes_small 4). Qed.
Lemma le_num_u64 z : fits 64 z -> le_num (le_bytes 8 z) = z.
Proof. apply (le_num_bytes_small 8). Qed.
Lemma le_num_u8 z : fits 8 z -> le_num (le_bytes 1 z) = z.
Proof. apply (le_num_bytes_small 1). Qed.

Definition byte_ok (b : Z) : Prop := 0 <= b < 256.

Lemma le_bytes_ok n z : Forall byte_ok (le_bytes n z).
Proof.
  revert z; induction n; intros; simpl; constructor; auto.
  apply Z.mod_pos_bound; lia.
Qed.

Lemma le_num_bound l : Forall byte_ok l -> 0 <= le_num l < 256 ^ length l.
Proof.
  induction 1 as [|b l Hb _ IH]; simpl le_num; [simpl; lia|].
  simpl length. rewrite Nat2Z.inj_succ, Z.pow_succ_r by lia.
  unfold byte_ok in Hb. lia.
Qed.

Lemma le_num_app l1 l2 :
  le_num (l1 ++ l2) = le_num l1 + 256 ^ length l1 * le_num l2.
Proof.
  induction l1 as [|b l IH]; simpl le_num; [simpl; lia|].
  simpl app. simpl le_num. rewrite IH. simpl length.
  rewrite Nat2Z.inj_succ, Z.pow_succ_r by lia. lia.
Qed.

(** ** Lemmas on slices *)

Section slices.
Context {A : Type}.
Implicit Types l bs : list A.

Lemma slice_ok l i j :
  (i <= j <= length l)%nat -> slice l i j = Ok (take (j - i) (drop i l)).
Proof. intros [? ?]. unfold slice. by rewrite !bool_decide_true. Qed.

Lemma slice_app l1 l2 l3 :
  slice (l1 ++ l2 ++ l3) (length l1) (length l1 + length l2) = Ok l2.
Proof.
  rewrite slice_ok by (rewrite !length_app; lia).
  rewrite drop_app_length. replace (_ + _ - _)%nat with (length l2) by lia.
  by rewrite take_app_length.
Qed.

Lemma slice_length l i j r : slice l i j = Ok r -> length r = (j - i)%nat.
Proof.
  unfold slice. destruct (_ && _) eqn:E; [|done]. intros [= <-]. boolify.
  rewrite length_take, length_drop. lia.
Qed.

Lemma length_splice l off bs :
  (off + length bs <= length l)%nat -> length (splice l off bs) = length l.
Proof.
  intros. unfold splice. rewrite !length_app, length_take, length_drop. lia.
Qed.

Lemma splice_app l1 l2 bs l3 off :
  off = length l1 -> length bs = length l2 ->
  splice (l1 ++ l2 ++ l3) off bs = l1 ++ bs ++ l3.
Proof.
  intros -> Hl. unfold splice. rewrite take_app_length. do 2 f_equal.
  rewrite Hl, drop_app_ge by lia.
  replace (_ + _ - _)%nat with (length l2) by lia. by rewrite drop_app_length.
Qed.

Lemma write_at_ok l off bs :
  (off + length bs <= length l)%nat -> write_at l off bs = Ok (splice l off bs).
Proof. intros. unfold write_at. by rewrite bool_decide_true. Qed.

Lemma splice_lookup l off bs i :
  (off + length bs <= length l)%nat ->
  splice l off bs !! i =
    if decide (off <= i < off + length bs)%nat then bs !! (i - off)%nat
    else l !! i.
Proof.
  intros Hl. unfold splice. case_decide as Hi.
  - rewrite lookup_app_r by (rewrite length_take; lia).
    rewrite length_take, Nat.min_l by lia. by rewrite lookup_app_l by lia.
  - destruct (decide (i < off)%nat).
    + rewrite lookup_app_l by (rewrite length_take; lia).
      by rewrite lookup_take_lt by lia.
    + rewrite lookup_app_r by (rewrite length_take; lia).
      rewrite length_take, Nat.min_l by lia.
      rewrite lookup_app_r by lia. rewrite lookup_drop. f_equal. lia.
Qed.
End slices.

(** ** Lemmas on filtered lists *)

Section filters.
Context {A : Type} (P : A -> Prop) `{!forall x, Decision (P x)}.

Lemma filter_all l : Forall P l -> base.filter P l = l.
Proof. induction 1 as [|x l Hx _ IH]; [done|]. rewrite filter_cons_True by done. by rewrite IH. Qed.

Lemma filter_none l : Forall (λ x, ~ P x) l -> base.filter P l = [].
Proof. induction 1 as [|x l Hx _ IH]; [done|]. by rewrite filter_cons_False. Qed.
End filters.

(** Filters that agree on the elements of the list. *)
Lemma filter_ext_on {A} (P Q : A -> Prop) `{!forall x, Decision (P x), !forall x, Decision (Q x)} l :
  Forall (λ x, P x <-> Q x) l -> base.filter P l = base.filter Q l.
Proof.
  induction 1 as [|x l Hx _ IH]; [done|]. rewrite !filter_cons, IH.
  do 2 case_decide; naive_solver.
Qed.

Lemma filter_fmap {A B} (f : A -> B) (P : B -> Prop) `{!forall x, Decision (P x)} (l : list A) :
  base.filter P (f <$> l) = f <$> base.filter (λ x, P (f x)) l.
Proof.
  induction l as [|x l IH]; [done|]. rewrite fmap_cons, !filter_cons, IH. by case_decide.
Qed.

(** ** Lemmas on sorted lists *)

Lemma sorted_sublist {A} (R : relation A) l1 l2 :
  l1 `sublist_of` l2 -> StronglySorted R l2 -> StronglySorted R l1.
Proof.
  intros Hs; induction Hs as [|x l1 l2 Hs IH|x l1 l2 Hs IH]; intros HR; [done| |]; apply StronglySorted_inv in HR as [HR Hx].
  - constructor; [by apply IH|]. rewrite Forall_forall in *. intros y Hy. apply Hx. by eapply elem_of_sublist.
  - by apply IH.
Qed.

Lemma sorted_lookup_lt {A} (R : relation A) l (i j : nat) x y :
  StronglySorted R l -> l !! i = Some x -> l !! j = Some y -> (i < j)%nat -> R x y.
Proof.
  intros Hs. revert i j. induction Hs as [|a l Hs IH Ha]; intros i j Hi Hj Hij; [done|].
  destruct j as [|j]; [lia|]. destruct i as [|i]; simpl in *.
  - injection Hi as ->. by apply (Forall_lookup_1 _ _ _ _ Ha Hj).
  - apply (IH i j); [done|done|lia].
Qed.

(** ** Lemmas on orders *)

Section orders.
Context {K : Type} `{OrdLaws K}.

Lemma cmp_refl (a : K) : cmp a a = Eq.
Proof. by apply cmp_eq_iff. Qed.
Lemma cmp_gt_lt (a b : K) : cmp a b = Gt <-> cmp b a = Lt.
Proof. rewrite (cmp_opp a b). by destruct (cmp a b). Qed.
Lemma klt_irrefl (a : K) : ~ klt a a.
Proof. unfold klt. by rewrite cmp_refl. Qed.
Lemma kle_refl (a : K) : kle a a.
Proof. unfold kle. by rewrite cmp_refl. Qed.
Lemma klt_kle (a b : K) : klt a b -> kle a b.
Proof. unfold klt, kle. by intros ->. Qed.
Lemma kle_cases (a b : K) : kle a b <-> klt a b \/ a = b.
Proof.
  unfold kle, klt. rewrite <- (cmp_eq_iff a b).
  destruct (cmp a b); intuition congruence.
Qed.
Lemma not_kle (a b : K) : ~ kle a b <-> klt b a.
Proof.
  unfold kle, klt. rewrite (cmp_opp a b).
  destruct (cmp a b); simpl; intuition congruence.
Qed.
Lemma not_klt (a b : K) : ~ klt a b <-> kle b a.
Proof.
  unfold kle, klt. rewrite (cmp_opp a b).
  destruct (cmp a b); simpl; intuition congruence.
Qed.
#[global] Instance klt_trans : Transitive (klt (K := K)).
Proof. intros a b c. apply cmp_lt_trans. Qed.
Lemma kle_lt_trans (a b c : K) : kle a b -> klt b c -> klt a c.
Proof. rewrite kle_cases. intros [Hlt | ->]; [by etrans|done]. Qed.
Lemma klt_le_trans (a b c : K) : klt a b -> kle b c -> klt a c.
Proof. rewrite kle_cases. intros ? [Hlt | <-]; [by etrans|done]. Qed.
#[global] Instance kle_trans : Transitive (kle (K := K)).
Proof.
  intros a b c Hab. rewrite (kle_cases b c). intros [Hlt | <-]; [|done].
  apply klt_kle. by eapply kle_lt_trans.
Qed.
Lemma kle_antisym (a b : K) : kle a b -> kle b a -> a = b.
Proof.
  rewrite !kle_cases. intros [H1|?] [H2|?]; try done.
  exfalso. apply (klt_irrefl a). by etrans.
Qed.
Lemma kle_total (a b : K) : kle a b \/ kle b a.
Proof. unfold kle. rewrite (cmp_opp a b). destruct (cmp a b); simpl; intuition congruence. Qed.
#[global] Instance kle_dec : RelDecision (kle (K := K)).
Proof. intros a b. unfold kle. destruct (cmp a b); [left|left|right]; intuition congruence. Defined.
#[global] Instance klt_dec : RelDecision (klt (K := K)).
Proof. intros a b. unfold klt. destruct (cmp a b); [right|left|right]; intuition congruence. Defined.
End orders.

#[global] Instance z_ord_laws : OrdLaws Z.
Proof.
  unfold cmp, z_ord. split.
  - intros. apply Z.compare_eq_iff.
  - intros. apply Z.compare_antisym.
  - intros a b c. rewrite !Z.compare_lt_iff. lia.
Qed.

Lemma bytes_cmp_eq a b : bytes_cmp a b = Eq <-> a = b.
Proof.
  revert b; induction a as [|x a IH]; intros [|y b]; simpl; try naive_solver.
  destruct (Z.compare_spec x y) as [Exy|Exy|Exy].
  - rewrite IH. split; [intros ->; by f_equal | by intros [= -> ->]].
  - split; [done | intros [= -> ->]; lia].
  - split; [done | intros [= -> ->]; lia].
Qed.

Lemma bytes_cmp_opp a b : bytes_cmp b a = CompOpp (bytes_cmp a b).
Proof.
  revert b; induction a as [|x a IH]; intros [|y b]; simpl; try done.
  rewrite (Z.compare_antisym x y). destruct (Z.compare x y); simpl; auto.
Qed.

Lemma bytes_cmp_trans a b c :
  bytes_cmp a b = Lt -> bytes_cmp b c = Lt -> bytes_cmp a c = Lt.
Proof.
  revert b c; induction a as [|x a IH]; intros [|y b] [|z c]; simpl; try done.
  destruct (Z.compare_spec x y) as [Exy|Exy|Exy];
    destruct (Z.compare_spec y z) as [Eyz|Eyz|Eyz]; try done; intros.
  - rewrite (proj2 (Z.compare_eq_iff x z)) by lia. eauto.
  - by rewrite (proj2 (Z.compare_lt_iff x z)) by lia.
  - by rewrite (proj2 (Z.compare_lt_iff x z)) by lia.
  - by rewrite (proj2 (Z.compare_lt_iff x z)) by lia.
Qed.

#[global] Instance bytes_ord_laws : OrdLaws (list Z).
Proof.
  split; [apply bytes_cmp_eq | apply bytes_cmp_opp | apply bytes_cmp_trans].
Qed.

#[global] Hint Resolve kle_refl klt_kle wrap_fits le_bytes_ok : photon.
