(* ===== verification/Data.v ===== *)
(** * Keys, values and child indexes ([page/data.rs])

    The data the pages hold: versioned keys ordered by raw key ascendingly and
    LSN descendingly, key ranges, put/delete values and child indexes. *)

From stdpp Require Import base numbers list.
From Stdlib Require Import ZArith Lia.
From S2P Require Import Prelude.

Record Key := mkKey { raw : list Z; lsn : Z }.

(** [Key::len]: the raw bytes and the 8 bytes of the LSN. *)
Definition key_len (k : Key) : nat := (length (raw k) + 8)%nat.

(** [Ord for Key]: order by the raw key ascendingly and the LSN descendingly. *)
Definition key_cmp (a b : Key) : comparison :=
  match bytes_cmp (raw a) (raw b) with
  | Eq => Z.compare (lsn b) (lsn a)
  | o => o
  end.
#[global] Instance key_ord : Ord Key := key_cmp.

Record Range := mkRange { range_start : list Z; range_end : option (list Z) }.

(** [Range::full]: the range that covers all keys. *)
Definition range_full : Range := mkRange [] None.

Inductive Value :=
  | Put (v : list Z)
  | Delete.

Definition value_len (v : Value) : nat :=
  match v with Put v => length v | Delete => O end.

Record Index := mkIndex { idx_id : Z; idx_epoch : Z }.

#[global] Instance key_eq_dec : EqDecision Key.
Proof. solve_decision. Defined.
#[global] Instance value_eq_dec : EqDecision Value.
Proof. solve_decision. Defined.
#[global] Instance index_eq_dec : EqDecision Index.
Proof. solve_decision. Defined.

(** ** The order of keys *)

#[global] Instance key_ord_laws : OrdLaws Key.
Proof.
  split; unfold cmp, key_ord, key_cmp.
  - intros [ra la] [rb lb]; simpl. destruct (bytes_cmp ra rb) eqn:E.
    + apply bytes_cmp_eq in E as ->. split; [|intros [= ->]; apply Z.compare_refl].
      intros ?%Z.compare_eq_iff. by subst.
    + split; [done|]. intros [= -> ->].
      by rewrite (proj2 (bytes_cmp_eq rb rb)) in E.
    + split; [done|]. intros [= -> ->].
      by rewrite (proj2 (bytes_cmp_eq rb rb)) in E.
  - intros a b. rewrite (bytes_cmp_opp (raw a) (raw b)).
    destruct (bytes_cmp (raw a) (raw b)); simpl; auto. apply Z.compare_antisym.
  - intros a b c.
    destruct (bytes_cmp (raw a) (raw b)) eqn:E1; [|intros _|done];
      destruct (bytes_cmp (raw b) (raw c)) eqn:E2; try done.
    + apply bytes_cmp_eq in E1 as ->. rewrite E2.
      rewrite !Z.compare_lt_iff. lia.
    + apply bytes_cmp_eq in E1 as ->. by rewrite E2.
    + intros _. apply bytes_cmp_eq in E2 as <-. by rewrite E1.
    + intros _. by rewrite (bytes_cmp_trans _ _ _ E1 E2).
Qed.

(** The order in terms of its two components. *)
Lemma key_lt_iff (a b : Key) :
  klt a b <-> klt (raw a) (raw b) \/ (raw a = raw b /\ lsn b < lsn a).
Proof.
  unfold klt, cmp, key_ord, key_cmp, bytes_ord.
  destruct (bytes_cmp (raw a) (raw b)) eqn:E.
  - rewrite Z.compare_lt_iff. apply bytes_cmp_eq in E.
    split; [by right|]. by intros [?|[_ ?]].
  - split; [by left|done].
  - split; [done|]. intros [?|[Eq _]]; [done|].
    apply bytes_cmp_eq in Eq. congruence.
Qed.

Lemma key_le_iff (a b : Key) :
  kle a b <-> klt (raw a) (raw b) \/ (raw a = raw b /\ lsn b <= lsn a).
Proof.
  rewrite kle_cases, key_lt_iff. destruct a as [ra la], b as [rb lb]; simpl.
  split.
  - intros [[?|[-> ?]]|[= -> ->]]; [by left|right; split; [done|lia]|].
    right. split; [done|lia].
  - intros [?|[-> ?]]; [by left; left|].
    destruct (decide (la = lb)) as [->|]; [by right|left; right].
    split; [done|lia].
Qed.

Lemma key_le_raw (a b : Key) : kle a b -> kle (raw a) (raw b).
Proof.
  rewrite key_le_iff. intros [?|[-> _]]; [by apply klt_kle|apply kle_refl].
Qed.
