(* ===== verification/Codec.v ===== *)
(** * The little-endian codec ([page/codec.rs])

    [Encoder] and [Decoder] are cursors over a byte buffer; the [Codec] trait is
    a type class and its contract is [CodecLaws] / [PrefixCodec]. The [unsafe]
    reads and writes of the source check nothing in a release build; here an
    access outside the buffer is [Panic], so that a theorem that shows [Ok] also
    shows that the access stays inside the buffer. *)

From stdpp Require Import base numbers list.
From Stdlib Require Import ZArith Lia.
From S2P Require Import Prelude.

(** ** Encoder *)

Record Encoder := mkEncoder { enc_buf : list Z; enc_cursor : nat }.

Definition enc_new (buf : list Z) : Encoder := mkEncoder buf 0.
Definition enc_len (e : Encoder) : nat := length (enc_buf e).
Definition enc_offset (e : Encoder) : nat := enc_cursor e.
Definition enc_remaining (e : Encoder) : nat := (enc_len e - enc_offset e)%nat.

Definition enc_take (n : nat) (e : Encoder) : res (nat * Encoder) :=
  if bool_decide (n <= enc_remaining e)%nat
  then Ok (enc_cursor e, mkEncoder (enc_buf e) (enc_cursor e + n))
  else Panic.

(** [put_slice]: copies the bytes to the cursor and advances it. *)
Definition put_slice (v : list Z) (e : Encoder) : res Encoder :=
  '(ptr, e) ← enc_take (length v) e;
  buf ← write_at (enc_buf e) ptr v;
  Ok (mkEncoder buf (enc_cursor e)).

(** The macro [put_int!]: the [n] little-endian bytes of the value. *)
Definition put_int (n : nat) (v : Z) (e : Encoder) : res Encoder :=
  '(ptr, e) ← enc_take n e;
  buf ← write_at (enc_buf e) ptr (le_bytes n v);
  Ok (mkEncoder buf (enc_cursor e)).
Definition put_u8 := put_int 1.
Definition put_u32 := put_int 4.
Definition put_u64 := put_int 8.

(** ** Decoder *)

Record Decoder := mkDecoder { dec_buf : list Z; dec_cursor : nat }.

Definition dec_new (buf : list Z) : Decoder := mkDecoder buf 0.
Definition dec_len (d : Decoder) : nat := length (dec_buf d).
Definition dec_offset (d : Decoder) : nat := dec_cursor d.
Definition dec_remaining (d : Decoder) : nat := (dec_len d - dec_offset d)%nat.

Definition dec_take (n : nat) (d : Decoder) : res (nat * Decoder) :=
  if bool_decide (n <= dec_remaining d)%nat
  then Ok (dec_cursor d, mkDecoder (dec_buf d) (dec_cursor d + n))
  else Panic.

(** The macro [get_int!]: [n] little-endian bytes as a number. *)
Definition get_int (n : nat) (d : Decoder) : res (Z * Decoder) :=
  '(ptr, d) ← dec_take n d;
  bs ← slice (dec_buf d) ptr (ptr + n);
  Ok (le_num bs, d).
Definition get_u8 := get_int 1.
Definition get_u32 := get_int 4.
Definition get_u64 := get_int 8.

Definition get_slice (n : nat) (d : Decoder) : res (list Z * Decoder) :=
  '(ptr, d) ← dec_take n d;
  bs ← slice (dec_buf d) ptr (ptr + n);
  Ok (bs, d).

(** ** The trait and its contract *)

Class Codec (T : Type) := {
  encode_size : T -> nat;
  encode_to : T -> Encoder -> res Encoder;
  decode_from : Decoder -> res (T * Decoder);
}.

(** Appending bytes at the cursor of an encoder with room for them. *)
Definition enc_put (e : Encoder) (bs : list Z) : Encoder :=
  mkEncoder (splice (enc_buf e) (enc_cursor e) bs) (enc_cursor e + length bs).

(** [encode_to] writes exactly [encode_size] bytes at the cursor, and decoding a
    buffer that ends with these bytes gives the object back. *)
Class CodecLaws (T : Type) `{Codec T} := {
  codec_ok : T -> Prop;
  codec_bytes : T -> list Z;
  codec_size : forall v, length (codec_bytes v) = encode_size v;
  codec_encode : forall v e,
    (enc_cursor e + encode_size v <= enc_len e)%nat ->
    encode_to v e = Ok (enc_put e (codec_bytes v));
  codec_decode : forall v pre, codec_ok v ->
    exists d, decode_from (mkDecoder (pre ++ codec_bytes v) (length pre)) = Ok (v, d);
}.

(** A self-delimiting codec also decodes when other bytes follow. *)
Class PrefixCodec (T : Type) `{CodecLaws T} : Prop :=
  codec_prefix : forall v pre post, codec_ok v ->
    decode_from (mkDecoder (pre ++ codec_bytes v ++ post) (length pre))
    = Ok (v, mkDecoder (pre ++ codec_bytes v ++ post) (length pre + encode_size v)).

(** ** Lemmas *)

Lemma put_slice_ok v e :
  (enc_cursor e + length v <= enc_len e)%nat ->
  put_slice v e = Ok (enc_put e v).
Proof.
  destruct e as [buf c]. unfold put_slice, enc_take, enc_remaining, enc_len, enc_offset.
  cbn [enc_buf enc_cursor]. intros. rewrite bool_decide_true by lia.
  cbn. by rewrite write_at_ok by lia.
Qed.

Lemma put_int_ok n v e :
  (enc_cursor e + n <= enc_len e)%nat ->
  put_int n v e = Ok (enc_put e (le_bytes n v)).
Proof.
  intros. transitivity (put_slice (le_bytes n v) e).
  - unfold put_int, put_slice. by rewrite length_le_bytes.
  - apply put_slice_ok. by rewrite length_le_bytes.
Qed.

Lemma enc_put_len e bs :
  (enc_cursor e + length bs <= enc_len e)%nat ->
  enc_len (enc_put e bs) = enc_len e.
Proof. intros. by apply length_splice. Qed.

(** Two writes in a row are one write of the concatenation. *)
Lemma enc_put_app e b1 b2 :
  (enc_cursor e + length b1 + length b2 <= enc_len e)%nat ->
  enc_put (enc_put e b1) b2 = enc_put e (b1 ++ b2).
Proof.
  destruct e as [buf c]. unfold enc_len, enc_put; cbn [enc_buf enc_cursor]; intros.
  rewrite length_app, Nat.add_assoc. f_equal. unfold splice.
  rewrite (take_app_ge _ _ (c + length b1)) by (rewrite length_take; lia).
  rewrite length_take, Nat.min_l by lia.
  replace (c + length b1 - c)%nat with (length b1) by lia.
  rewrite take_app_length, <- !app_assoc. do 2 f_equal.
  rewrite drop_app_ge by (rewrite length_take; lia).
  rewrite length_take, Nat.min_l by lia.
  rewrite drop_app_ge by lia. rewrite drop_drop, length_app. do 2 f_equal. lia.
Qed.

Lemma get_slice_ok pre bs post n :
  n = length bs ->
  get_slice n (mkDecoder (pre ++ bs ++ post) (length pre))
  = Ok (bs, mkDecoder (pre ++ bs ++ post) (length pre + n)).
Proof.
  intros ->. unfold get_slice, dec_take, dec_remaining, dec_len, dec_offset.
  cbn [dec_buf dec_cursor]. rewrite bool_decide_true by (rewrite !length_app; lia).
  cbn. by rewrite slice_app.
Qed.

Lemma get_int_ok pre post (n : nat) v :
  0 <= v < 256 ^ n ->
  get_int n (mkDecoder (pre ++ le_bytes n v ++ post) (length pre))
  = Ok (v, mkDecoder (pre ++ le_bytes n v ++ post) (length pre + n)).
Proof.
  intros Hv. unfold get_int, dec_take, dec_remaining, dec_len, dec_offset.
  cbn [dec_buf dec_cursor].
  rewrite bool_decide_true by (rewrite !length_app, length_le_bytes; lia).
  cbn. pose proof (slice_app pre (le_bytes n v) post) as E.
  rewrite length_le_bytes in E. rewrite E. cbn. by rewrite le_num_bytes_small.
Qed.
