(* ===== verification/BasePage.v ===== *)
(** * The page header ([page/base_page.rs])

    A page is its byte string: 6 bytes of epoch, 1 byte of flags, 1 byte of
    chain length, 8 bytes of the next address, then the content. The accessors
    of [PagePtr] read and write these bytes; [PageInfo] is the decoded copy of
    the first 16 bytes that the tree and the files keep. [Header] and [page_of]
    give the abstract view the accessors refine. *)

From stdpp Require Import base numbers list.
From Stdlib Require Import ZArith Lia.
From S2P Require Import Prelude.

Definition PAGE_EPOCH_MAX : Z := Z.shiftl 1 48 - 1.
Definition PAGE_EPOCH_LEN : nat := 6.
Definition PAGE_HEADER_LEN : nat := 16.

Inductive PageTier := Leaf | Inner.
Inductive PageKind := DataPage | SplitPage.

#[global] Instance page_tier_eq_dec : EqDecision PageTier.
Proof. solve_decision. Defined.
#[global] Instance page_kind_eq_dec : EqDecision PageKind.
Proof. solve_decision. Defined.

Definition PAGE_TIER_MASK : Z := 1.
Definition PAGE_TIER_LEAF : Z := 0.
Definition PAGE_TIER_INNER : Z := 1.
Definition PAGE_KIND_MASK : Z := 14.
Definition PAGE_KIND_DATA : Z := 0.
Definition PAGE_KIND_SPLIT : Z := 2.

Definition is_leaf (t : PageTier) : bool := bool_decide (t = Leaf).
Definition is_inner (t : PageTier) : bool := bool_decide (t = Inner).
Definition is_data (k : PageKind) : bool := bool_decide (k = DataPage).
Definition is_split (k : PageKind) : bool := bool_decide (k = SplitPage).

(** [tier as u8] and [From<u8> for PageTier]. *)
Definition tier_bits (t : PageTier) : Z :=
  match t with Leaf => PAGE_TIER_LEAF | Inner => PAGE_TIER_INNER end.
Definition tier_from (value : Z) : res PageTier :=
  let v := Z.land value PAGE_TIER_MASK in
  if v =? PAGE_TIER_LEAF then Ok Leaf
  else if v =? PAGE_TIER_INNER then Ok Inner
  else Panic.

(** [kind as u8] and [From<u8> for PageKind]; other bits are [unreachable!]. *)
Definition kind_bits (k : PageKind) : Z :=
  match k with DataPage => PAGE_KIND_DATA | SplitPage => PAGE_KIND_SPLIT end.
Definition kind_from (value : Z) : res PageKind :=
  let v := Z.land value PAGE_KIND_MASK in
  if v =? PAGE_KIND_DATA then Ok DataPage
  else if v =? PAGE_KIND_SPLIT then Ok SplitPage
  else Panic.

(** [PageFlags::new]. *)
Definition flags_new (t : PageTier) (k : PageKind) : Z :=
  Z.lor (tier_bits t) (kind_bits k).

(** ** [PagePtr] *)

(** [PagePtr::new] on a buffer at address [addr]. *)
Definition page_new (addr : Z) (buf : list Z) : res (list Z) :=
  _ ← rassert (addr mod 8 =? 0);
  _ ← rassert (bool_decide (PAGE_HEADER_LEN <= length buf)%nat);
  Ok buf.

(** An [n]-byte little-endian read at offset [off]. *)
Definition read_num (p : list Z) (off n : nat) : Z := le_num (take n (drop off p)).

Definition page_epoch (p : list Z) : Z := Z.land (read_num p 0 8) PAGE_EPOCH_MAX.
Definition set_epoch (epoch : Z) (p : list Z) : res (list Z) :=
  _ ← rassert (epoch <=? PAGE_EPOCH_MAX);
  Ok (splice p 0 (take PAGE_EPOCH_LEN (le_bytes 8 epoch))).

Definition page_flags (p : list Z) : Z := read_num p PAGE_EPOCH_LEN 1.
Definition set_flags (flags : Z) (p : list Z) : list Z := splice p PAGE_EPOCH_LEN [flags].

Definition page_tier (p : list Z) : res PageTier := tier_from (page_flags p).
Definition page_kind (p : list Z) : res PageKind := kind_from (page_flags p).

Definition page_chain_len (p : list Z) : Z := read_num p (PAGE_EPOCH_LEN + 1) 1.
Definition set_chain_len (len : Z) (p : list Z) : list Z :=
  splice p (PAGE_EPOCH_LEN + 1) [len].

Definition page_chain_next (p : list Z) : Z := read_num p 8 8.
Definition set_chain_next (addr : Z) (p : list Z) : list Z := splice p 8 (le_bytes 8 addr).

Definition page_size (p : list Z) : nat := length p.
Definition page_content (p : list Z) : list Z := drop PAGE_HEADER_LEN p.

(** Writing through [content_mut]. *)
Definition set_content (c : list Z) (p : list Z) : list Z := splice p PAGE_HEADER_LEN c.

(** ** [PageInfo] *)

Record PageInfo := mkPageInfo { pi_meta : Z; pi_next : Z; pi_size : nat }.

#[global] Instance page_info_eq_dec : EqDecision PageInfo.
Proof. solve_decision. Defined.

Definition page_info (p : list Z) : PageInfo :=
  mkPageInfo (read_num p 0 8) (page_chain_next p) (page_size p).

(** [PageInfo::from_raw]. *)
Definition info_from_raw (meta next : Z) (size : nat) : PageInfo :=
  mkPageInfo meta next size.
(** [PageInfo::value]. *)
Definition info_value (i : PageInfo) : Z * Z := (pi_meta i, pi_next i).
Definition info_flags (i : PageInfo) : Z := wrap8 (Z.shiftr (pi_meta i) (PAGE_EPOCH_LEN * 8)).
Definition info_tier (i : PageInfo) : res PageTier := tier_from (info_flags i).
Definition info_kind (i : PageInfo) : res PageKind := kind_from (info_flags i).
Definition info_epoch (i : PageInfo) : Z := Z.land (pi_meta i) PAGE_EPOCH_MAX.
Definition info_chain_next (i : PageInfo) : Z := pi_next i.
Definition info_chain_len (i : PageInfo) : Z :=
  wrap8 (Z.shiftr (pi_meta i) ((PAGE_EPOCH_LEN + 1)%nat * 8)).
Definition info_size (i : PageInfo) : nat := pi_size i.

(** ** [PageBuilder] *)

Record PageBuilder := mkPageBuilder { pb_tier : PageTier; pb_kind : PageKind }.

Definition builder_size (content_size : nat) : nat := (PAGE_HEADER_LEN + content_size)%nat.

Definition builder_build (b : PageBuilder) (page : list Z) : res (list Z) :=
  let page := set_flags (flags_new (pb_tier b) (pb_kind b)) page in
  page ← set_epoch 0 page;
  let page := set_chain_len 1 page in
  Ok (set_chain_next 0 page).

(** ** The abstract header *)

Record Header := mkHeader {
  h_epoch : Z;
  h_tier : PageTier;
  h_kind : PageKind;
  h_chain_len : Z;
  h_chain_next : Z;
}.

Definition header_ok (h : Header) : Prop :=
  fits 48 (h_epoch h) /\ fits 8 (h_chain_len h) /\ fits 64 (h_chain_next h).

Definition header_bytes (h : Header) : list Z :=
  le_bytes 6 (h_epoch h) ++ [flags_new (h_tier h) (h_kind h)] ++ [h_chain_len h]
  ++ le_bytes 8 (h_chain_next h).

(** The page with header [h] and content [c]. *)
Definition page_of (h : Header) (c : list Z) : list Z := header_bytes h ++ c.

(** ** Lemmas *)

Lemma page_new_ok addr buf :
  addr mod 8 = 0 -> (PAGE_HEADER_LEN <= length buf)%nat -> page_new addr buf = Ok buf.
Proof.
  intros Ha Hl. unfold page_new. rewrite (proj2 (Z.eqb_eq _ _) Ha). simpl.
  by rewrite bool_decide_true.
Qed.

Lemma length_header_bytes h : length (header_bytes h) = 16%nat.
Proof. unfold header_bytes. by rewrite !length_app, !length_le_bytes. Qed.

Lemma length_page_of h c : length (page_of h c) = (16 + length c)%nat.
Proof. unfold page_of. by rewrite length_app, length_header_bytes. Qed.

Lemma flags_new_tier t k : tier_from (flags_new t k) = Ok t.
Proof. by destruct t, k. Qed.
Lemma flags_new_kind t k : kind_from (flags_new t k) = Ok k.
Proof. by destruct t, k. Qed.
Lemma flags_new_fits t k : fits 8 (flags_new t k).
Proof. destruct t, k; unfold fits; vm_compute; intuition congruence. Qed.

(** Reading a field of a byte string given as a concatenation. *)
Lemma read_num_app l1 l2 l3 off n :
  off = length l1 -> n = length l2 -> read_num (l1 ++ l2 ++ l3) off n = le_num l2.
Proof. intros -> ->. unfold read_num. by rewrite drop_app_length, take_app_length. Qed.

Lemma epoch_max_ones : PAGE_EPOCH_MAX = Z.ones 48.
Proof. reflexivity. Qed.

Definition meta_of (h : Header) : Z :=
  h_epoch h + 2 ^ 48 * (flags_new (h_tier h) (h_kind h) + 2 ^ 8 * h_chain_len h).

Lemma page_of_meta h c : fits 48 (h_epoch h) -> read_num (page_of h c) 0 8 = meta_of h.
Proof.
  intros He. unfold page_of, header_bytes, meta_of.
  set (e := le_bytes 6 (h_epoch h)).
  replace ((e ++ _) ++ c) with
    ([] ++ (e ++ [flags_new (h_tier h) (h_kind h)] ++ [h_chain_len h])
     ++ (le_bytes 8 (h_chain_next h) ++ c)) by (rewrite <- !app_assoc; reflexivity).
  rewrite read_num_app; [|done|by unfold e; rewrite !length_app, length_le_bytes].
  rewrite le_num_app. unfold e. rewrite length_le_bytes, le_num_bytes_small by done.
  simpl. lia.
Qed.

Lemma meta_of_epoch h : fits 48 (h_epoch h) -> Z.land (meta_of h) PAGE_EPOCH_MAX = h_epoch h.
Proof.
  intros He. rewrite epoch_max_ones, Z.land_ones by lia. unfold meta_of.
  rewrite Z.mul_comm, Z_mod_plus_full. by apply Z.mod_small.
Qed.

Lemma meta_of_shift48 h :
  fits 48 (h_epoch h) ->
  Z.shiftr (meta_of h) 48 = flags_new (h_tier h) (h_kind h) + 2 ^ 8 * h_chain_len h.
Proof.
  intros He. rewrite Z.shiftr_div_pow2 by lia. unfold meta_of.
  rewrite Z.mul_comm, Z.div_add by lia. rewrite Z.div_small by done. lia.
Qed.

Lemma meta_of_shift56 h :
  fits 48 (h_epoch h) -> Z.shiftr (meta_of h) 56 = h_chain_len h.
Proof.
  intros He. change 56 with (48 + 8). rewrite <- Z.shiftr_shiftr by lia.
  rewrite meta_of_shift48 by done. rewrite Z.shiftr_div_pow2 by lia.
  pose proof (flags_new_fits (h_tier h) (h_kind h)) as Hf.
  rewrite Z.mul_comm, Z.div_add by lia. rewrite Z.div_small by done. lia.
Qed.

Section accessors.
Context (h : Header) (c : list Z) (Hok : header_ok h).

Lemma page_of_flags : page_flags (page_of h c) = flags_new (h_tier h) (h_kind h).
Proof.
  unfold page_flags, page_of, header_bytes. rewrite <- !app_assoc.
  rewrite read_num_app; [simpl; lia|by rewrite length_le_bytes|done].
Qed.

Lemma page_of_chain_len : page_chain_len (page_of h c) = h_chain_len h.
Proof.
  unfold page_chain_len, page_of, header_bytes.
  set (e := le_bytes 6 (h_epoch h)). rewrite <- !app_assoc.
  rewrite (app_assoc e).
  rewrite read_num_app; [simpl; lia| |done].
  unfold e. by rewrite length_app, length_le_bytes.
Qed.

Lemma page_of_chain_next : page_chain_next (page_of h c) = h_chain_next h.
Proof.
  destruct Hok as (_ & _ & Hn). unfold page_chain_next, page_of, header_bytes.
  rewrite <- !app_assoc. rewrite (app_assoc (le_bytes 6 _)), (app_assoc _ [h_chain_len h]).
  rewrite read_num_app; [by apply le_num_u64| |by rewrite length_le_bytes].
  by rewrite !length_app, length_le_bytes.
Qed.

Lemma page_of_epoch : page_epoch (page_of h c) = h_epoch h.
Proof.
  destruct Hok as (He & _). unfold page_epoch. rewrite page_of_meta by done.
  by apply meta_of_epoch.
Qed.

Lemma page_of_tier : page_tier (page_of h c) = Ok (h_tier h).
Proof. unfold page_tier. rewrite page_of_flags. apply flags_new_tier. Qed.
Lemma page_of_kind : page_kind (page_of h c) = Ok (h_kind h).
Proof. unfold page_kind. rewrite page_of_flags. apply flags_new_kind. Qed.

Lemma page_of_content : page_content (page_of h c) = c.
Proof.
  unfold page_content, page_of, PAGE_HEADER_LEN.
  rewrite <- (length_header_bytes h). apply drop_app_length.
Qed.

Lemma page_of_info_flags :
  info_flags (page_info (page_of h c)) = flags_new (h_tier h) (h_kind h).
Proof.
  destruct Hok as (He & Hl & _). unfold info_flags. simpl pi_meta.
  rewrite page_of_meta by done. change (PAGE_EPOCH_LEN * 8) with 48.
  rewrite meta_of_shift48 by done. unfold wrap.
  rewrite Z.mul_comm, Z_mod_plus_full.
  apply Z.mod_small, flags_new_fits.
Qed.

Lemma page_of_info_chain_len : info_chain_len (page_info (page_of h c)) = h_chain_len h.
Proof.
  destruct Hok as (He & Hl & _). unfold info_chain_len. simpl pi_meta.
  rewrite page_of_meta by done. change ((PAGE_EPOCH_LEN + 1)%nat * 8) with 56.
  rewrite meta_of_shift56 by done. by apply wrap_small.
Qed.

Lemma page_of_info_epoch : info_epoch (page_info (page_of h c)) = h_epoch h.
Proof.
  destruct Hok as (He & _). unfold info_epoch. simpl pi_meta.
  rewrite page_of_meta by done. by apply meta_of_epoch.
Qed.
End accessors.

(** ** The setters on the abstract header *)

Definition with_epoch (e : Z) (h : Header) : Header :=
  mkHeader e (h_tier h) (h_kind h) (h_chain_len h) (h_chain_next h).
Definition with_chain_len (n : Z) (h : Header) : Header :=
  mkHeader (h_epoch h) (h_tier h) (h_kind h) n (h_chain_next h).
Definition with_chain_next (a : Z) (h : Header) : Header :=
  mkHeader (h_epoch h) (h_tier h) (h_kind h) (h_chain_len h) a.

Lemma take_le_bytes n m z : (n <= m)%nat -> take n (le_bytes m z) = le_bytes n z.
Proof.
  revert m z; induction n; intros [|m] z ?; simpl; try done; [lia|].
  f_equal. apply IHn. lia.
Qed.

Lemma set_epoch_page_of e h c :
  fits 48 e -> set_epoch e (page_of h c) = Ok (page_of (with_epoch e h) c).
Proof.
  intros [? ?]. unfold set_epoch.
  assert (Hle : e <= PAGE_EPOCH_MAX) by (change PAGE_EPOCH_MAX with (2 ^ 48 - 1); lia).
  rewrite rassert_true by (by apply Z.leb_le).
  reflexivity.
Qed.

Lemma set_chain_len_page_of n h c :
  set_chain_len n (page_of h c) = page_of (with_chain_len n h) c.
Proof.
  unfold set_chain_len, page_of, header_bytes. rewrite <- !app_assoc.
  rewrite (app_assoc (le_bytes 6 _)).
  rewrite splice_app; [by rewrite <- app_assoc| |done].
  by rewrite length_app, length_le_bytes.
Qed.

Lemma set_chain_next_page_of a h c :
  set_chain_next a (page_of h c) = page_of (with_chain_next a h) c.
Proof.
  unfold set_chain_next, page_of, header_bytes. rewrite <- !app_assoc.
  rewrite (app_assoc (le_bytes 6 _)), (app_assoc _ [h_chain_len h]).
  rewrite splice_app; [by rewrite <- !app_assoc| |by rewrite !length_le_bytes].
  by rewrite !length_app, length_le_bytes.
Qed.

Lemma set_content_page_of c' h c :
  length c' = length c -> set_content c' (page_of h c) = page_of h c'.
Proof.
  intros Hl. unfold set_content, page_of, PAGE_HEADER_LEN.
  rewrite <- (app_nil_r c) at 1.
  rewrite splice_app; [by rewrite app_nil_r|by rewrite length_header_bytes|done].
Qed.

(** The content bytes written from the start: what [SortedPageBuf] does. *)
Lemma splice_app_r {A} (l1 l2 : list A) off bs :
  (length l1 <= off)%nat ->
  splice (l1 ++ l2) off bs = l1 ++ splice l2 (off - length l1) bs.
Proof.
  intros. unfold splice. rewrite take_app_ge by lia. rewrite <- app_assoc.
  do 2 f_equal. f_equal. rewrite drop_app_ge by lia. f_equal. lia.
Qed.

Definition built_header (b : PageBuilder) : Header :=
  mkHeader 0 (pb_tier b) (pb_kind b) 1 0.

(** [PageBuilder::build] writes the whole header and nothing else. *)
Lemma builder_build_ok b page :
  (16 <= length page)%nat ->
  builder_build b page = Ok (page_of (built_header b) (page_content page)).
Proof.
  intros Hl. unfold builder_build, page_content, PAGE_HEADER_LEN.
  do 16 (destruct page as [|? page]; [simpl in Hl; lia|]). clear Hl.
  reflexivity.
Qed.

(** Every accessor of [PagePtr] and of [PageInfo] returns the field of the
    abstract header the page bytes encode, and the two agree: the tree may use
    the decoded [PageInfo] of a page in place of the page. *)
Theorem page_header_refinement (h : Header) (c : list Z) :
  header_ok h ->
  let p := page_of h c in
  page_epoch p = h_epoch h /\ page_tier p = Ok (h_tier h) /\
  page_kind p = Ok (h_kind h) /\ page_chain_len p = h_chain_len h /\
  page_chain_next p = h_chain_next h /\ page_content p = c /\
  info_epoch (page_info p) = page_epoch p /\ info_tier (page_info p) = page_tier p /\
  info_kind (page_info p) = page_kind p /\
  info_chain_len (page_info p) = page_chain_len p /\
  info_chain_next (page_info p) = page_chain_next p /\
  info_size (page_info p) = page_size p.
Proof.
  intros Hok p. unfold p, info_tier, info_kind.
  rewrite page_of_info_epoch, page_of_info_flags, page_of_info_chain_len by done.
  rewrite page_of_epoch, page_of_tier, page_of_kind, page_of_chain_len,
    page_of_chain_next, page_of_content by done.
  rewrite flags_new_tier, flags_new_kind. cbn [page_info info_chain_next pi_next].
  by rewrite page_of_chain_next.
Qed.

Lemma page_header_refinement_witness :
  page_epoch (page_of (mkHeader 7 Inner SplitPage 3 (2 ^ 40)) [1; 2]) = 7.
Proof.
  assert (Hok : header_ok (mkHeader 7 Inner SplitPage 3 (2 ^ 40)))
    by (unfold header_ok, fits; simpl; lia).
  exact (proj1 (page_header_refinement _ [1; 2] Hok)).
Defined.

(** Building a page and then linking it in front of a chain (what every
    write of the tree does: [build], [set_epoch], [set_chain_len],
    [set_chain_next]) never panics, leaves the content alone, and gives a page
    whose accessors return exactly what was set. *)
Theorem page_build_and_link (b : PageBuilder) (buf : list Z) (epoch len next : Z) :
  (PAGE_HEADER_LEN <= length buf)%nat -> fits 48 epoch -> fits 8 len -> fits 64 next ->
  exists p,
    (page ← builder_build b buf; page ← set_epoch epoch page;
     Ok (set_chain_next next (set_chain_len len page))) = Ok p /\
    length p = length buf /\ page_content p = page_content buf /\
    page_tier p = Ok (pb_tier b) /\ page_kind p = Ok (pb_kind b) /\
    page_epoch p = epoch /\ page_chain_len p = len /\ page_chain_next p = next.
Proof.
  intros Hl He Hn Ha. set (h := mkHeader epoch (pb_tier b) (pb_kind b) len next).
  exists (page_of h (page_content buf)).
  rewrite builder_build_ok by done. cbn [mbind res_bind].
  rewrite set_epoch_page_of by done. cbn [mbind res_bind].
  rewrite set_chain_len_page_of, set_chain_next_page_of. split; [done|].
  assert (Hok : header_ok h) by done.
  rewrite page_of_content, page_of_tier, page_of_kind, page_of_epoch,
    page_of_chain_len, page_of_chain_next by done.
  repeat split. rewrite length_page_of. unfold page_content, PAGE_HEADER_LEN in *.
  rewrite length_drop. lia.
Qed.

Lemma page_build_and_link_witness :
  exists p : list Z, page_epoch p = 5.
Proof.
  destruct (page_build_and_link (mkPageBuilder Leaf DataPage) (replicate 20 255) 5 2 77)
    as (p & _ & _ & _ & _ & _ & He & _);
    [unfold PAGE_HEADER_LEN; simpl; lia|unfold fits; lia..|].
  by exists p.
Defined.
