(* ===== verification/Iter.v ===== *)
(** * Iterators ([page/iter.rs])

    The iterator traits are type classes; [IterLaws] is the contract between an
    iterator and its clients: it denotes the list of all its items and the list
    of the items left. [MergingIter] keeps its [OrderedIter]s in a
    [BinaryHeap<Reverse<..>>]; the heap is the list of its elements in the order
    they were added and [heap_top] is its greatest element. The ranks are
    distinct, so the order is total and strict and the greatest element does not
    depend on how the heap lays its elements out. *)

From stdpp Require Import base numbers list sorting.
From Stdlib Require Import ZArith Lia.
From S2P Require Import Prelude.

(** ** The traits *)

Class Iterator (I T : Type) := next : I -> res (option T * I).
Class RewindableIterator (I T : Type) `{Iterator I T} := rewind : I -> res I.
Class SeekableIterator (I T Q : Type) `{Iterator I T} := seek : Q -> I -> res (bool * I).

(** The contract: [denotes it all left]. *)
Class IterLaws (I T : Type) `{RewindableIterator I T} := {
  denotes : I -> list T -> list T -> Prop;
  next_nil : forall it all, denotes it all [] ->
    exists it', next it = Ok (None, it') /\ denotes it' all [];
  next_cons : forall it all x l, denotes it all (x :: l) ->
    exists it', next it = Ok (Some x, it') /\ denotes it' all l;
  rewind_all : forall it all l, denotes it all l ->
    exists it', rewind it = Ok it' /\ denotes it' all all;
}.

(** Strictly ascending keys, and the items at or after a target. *)
Definition key_strict {K V} `{Ord K} (l : list (K * V)) : Prop :=
  StronglySorted (λ x y, klt x.1 y.1) l.
Definition seek_from {K V} `{OrdLaws K} (q : K) (l : list (K * V)) : list (K * V) :=
  base.filter (λ x, kle q x.1) l.

(** The contract of [seek] on items with strictly ascending keys: it reports
    whether the target is among the keys and leaves the items at or after it. *)
Class SeekLaws (I K V : Type) `{OrdLaws K} `{IterLaws I (K * V)}
    `{!SeekableIterator I (K * V) K} : Prop :=
  seek_all : forall (q : K) it all l, denotes it all l -> key_strict all ->
    exists found it', seek q it = Ok (found, it') /\
      (found = true <-> q ∈ all.*1) /\ denotes it' all (seek_from q all).

(** Draining an iterator: a [for] loop over it, with fuel for the loop. *)
Fixpoint drain {I T} `{Iterator I T} (fuel : nat) (it : I) : res (list T * I) :=
  match fuel with
  | O => Panic
  | S fuel =>
      '(r, it) ← next it;
      match r with
      | None => Ok ([], it)
      | Some x => '(l, it) ← drain fuel it; Ok (x :: l, it)
      end
  end.

(** ** [ItemIter] *)

Record ItemIter (T : Type) := mkItemIter { ii_next : option T; ii_item : option T }.
Arguments mkItemIter {T} _ _.
Arguments ii_next {T} _.
Arguments ii_item {T} _.

(** [From<Option<T>>]; [ItemIter::new(item)] is [item_iter_from (Some item)]. *)
Definition item_iter_from {T} (item : option T) : ItemIter T := mkItemIter item item.
Definition item_iter_new {T} (item : T) : ItemIter T := item_iter_from (Some item).

#[global] Instance item_iter_next {T} : Iterator (ItemIter T) T := λ it,
  Ok (ii_next it, mkItemIter None (ii_item it)).
#[global] Instance item_iter_rewind {T} : RewindableIterator (ItemIter T) T := λ it,
  Ok (mkItemIter (ii_item it) (ii_item it)).

(** ** [SliceIter] *)

Record SliceIter (T : Type) := mkSliceIter { si_data : list T; si_next : nat }.
Arguments mkSliceIter {T} _ _.
Arguments si_data {T} _.
Arguments si_next {T} _.

Definition slice_iter_new {T} (data : list T) : SliceIter T := mkSliceIter data 0.

#[global] Instance slice_iter_next {T} : Iterator (SliceIter T) T := λ it,
  match si_data it !! si_next it with
  | Some item => Ok (Some item, mkSliceIter (si_data it) (S (si_next it)))
  | None => Ok (None, it)
  end.
#[global] Instance slice_iter_rewind {T} : RewindableIterator (SliceIter T) T := λ it,
  Ok (mkSliceIter (si_data it) 0).

(** ** [OrderedIter] *)

Record OrderedIter (I T : Type) := mkOrderedIter {
  oi_iter : I;
  oi_rank : nat;
  oi_next : option T;
}.
Arguments mkOrderedIter {I T} _ _ _.
Arguments oi_iter {I T} _.
Arguments oi_rank {I T} _.
Arguments oi_next {I T} _.

Section ordered_iter.
Context {I K V : Type} `{Ord K} `{RewindableIterator I (K * V)}.
Local Abbreviation T := (K * V)%type.

Definition ordered_iter_new (it : I) (rank : nat) : OrderedIter I T :=
  mkOrderedIter it rank None.

(** [OrderedIter::init]: buffers the first item. *)
Definition ordered_iter_init (o : OrderedIter I T) : res (OrderedIter I T) :=
  '(x, it) ← next (oi_iter o);
  Ok (mkOrderedIter it (oi_rank o) x).

(** [Ord for OrderedIter]: by the next key, an exhausted iterator last, then
    by rank. *)
Definition ordered_iter_cmp (a b : OrderedIter I T) : comparison :=
  let ord := match oi_next a, oi_next b with
             | Some x, Some y => cmp x.1 y.1
             | Some _, None => Lt
             | None, Some _ => Gt
             | None, None => Eq
             end in
  match ord with
  | Eq => Nat.compare (oi_rank a) (oi_rank b)
  | o => o
  end.

#[global] Instance ordered_iter_next : Iterator (OrderedIter I T) T := λ o,
  '(x, it) ← next (oi_iter o);
  Ok (oi_next o, mkOrderedIter it (oi_rank o) x).

#[global] Instance ordered_iter_rewind : RewindableIterator (OrderedIter I T) T := λ o,
  it ← rewind (oi_iter o);
  '(x, it) ← next it;
  Ok (mkOrderedIter it (oi_rank o) x).

#[global] Instance ordered_iter_seek {Q} `{!SeekableIterator I T Q} :
    SeekableIterator (OrderedIter I T) T Q := λ q o,
  '(found, it) ← seek q (oi_iter o);
  '(x, it) ← next it;
  Ok (found, mkOrderedIter it (oi_rank o) x).
End ordered_iter.

(** ** [MergingIter] *)

Record MergingIter (I T : Type) := mkMergingIter { heap : list (OrderedIter I T) }.
Arguments mkMergingIter {I T} _.
Arguments heap {I T} _.

Record MergingIterBuilder (I T : Type) := mkMergingIterBuilder {
  iters : list (OrderedIter I T);
}.
Arguments mkMergingIterBuilder {I T} _.
Arguments iters {I T} _.

Section merging_iter.
Context {I K V : Type} `{Ord K} `{RewindableIterator I (K * V)}.
Local Abbreviation T := (K * V)%type.

(** The greatest element of the heap of reversed iterators, with its place. *)
Fixpoint heap_top (l : list (OrderedIter I T)) : option (nat * OrderedIter I T) :=
  match l with
  | [] => None
  | x :: l =>
      match heap_top l with
      | None => Some (O, x)
      | Some (i, y) =>
          match ordered_iter_cmp x y with
          | Gt => Some (S i, y)
          | _ => Some (O, x)
          end
      end
  end.

(** [MergingIter::next] through [peek_mut]. *)
#[global] Instance merging_iter_next : Iterator (MergingIter I T) T := λ m,
  match heap_top (heap m) with
  | Some (i, o) =>
      '(x, o) ← next o;
      Ok (x, mkMergingIter (<[i := o]> (heap m)))
  | None => Ok (None, m)
  end.

#[global] Instance merging_iter_rewind : RewindableIterator (MergingIter I T) T := λ m,
  h ← mapM rewind (heap m);
  Ok (mkMergingIter h).

(** [MergingIter::seek]: seeks every iterator and reports whether one of them
    found the target. *)
Fixpoint heap_seek {Q} `{!SeekableIterator I T Q} (q : Q) (l : list (OrderedIter I T)) :
    res (bool * list (OrderedIter I T)) :=
  match l with
  | [] => Ok (false, [])
  | o :: l =>
      '(f, o) ← seek q o;
      '(found, l) ← heap_seek q l;
      Ok (f || found, o :: l)
  end.
#[global] Instance merging_iter_seek {Q} `{!SeekableIterator I T Q} :
    SeekableIterator (MergingIter I T) T Q := λ q m,
  '(found, h) ← heap_seek q (heap m);
  Ok (found, mkMergingIter h).

Definition merging_builder_new : MergingIterBuilder I T := mkMergingIterBuilder [].
Definition merging_builder_len (b : MergingIterBuilder I T) : nat := length (iters b).
(** [MergingIterBuilder::add]: the rank is the position. *)
Definition merging_builder_add (it : I) (b : MergingIterBuilder I T) :
    MergingIterBuilder I T :=
  mkMergingIterBuilder (iters b ++ [ordered_iter_new it (length (iters b))]).
(** [MergingIterBuilder::build] and [MergingIter::init]. *)
Definition merging_builder_build (b : MergingIterBuilder I T) : res (MergingIter I T) :=
  h ← mapM ordered_iter_init (iters b);
  Ok (mkMergingIter h).
End merging_iter.

(** ** The reference: stable k-way merge of lists *)

Section reference.
Context {K V : Type} `{Ord K}.
Local Abbreviation T := (K * V)%type.

(** The merge of two lists that takes from the first on equal keys. *)
Fixpoint merge2 (l1 : list T) : list T -> list T :=
  fix aux (l2 : list T) : list T :=
    match l1, l2 with
    | [], _ => l2
    | _, [] => l1
    | x :: l1', y :: l2' =>
        match cmp x.1 y.1 with
        | Gt => y :: aux l2'
        | _ => x :: merge2 l1' l2
        end
    end.

Definition kmerge (ls : list (list T)) : list T := foldr merge2 [] ls.

Definition key_sorted (l : list T) : Prop := StronglySorted (λ x y, kle x.1 y.1) l.

(** The items with key [k], in order. *)
Definition with_key (k : K) (l : list T) : list T :=
  base.filter (λ x, cmp x.1 k = Eq) l.
End reference.

(** ** Lemmas on the instances *)

#[global] Program Instance item_iter_laws {T} : IterLaws (ItemIter T) T := {|
  denotes it all l := all = option_list (ii_item it) /\ l = option_list (ii_next it);
|}.
Next Obligation.
  intros T [[x|] item] all [-> ?]; simpl in *; [done|]. by eexists.
Qed.
Next Obligation.
  intros T [[y|] item] all x l [-> ?]; simplify_eq/=. by eexists.
Qed.
Next Obligation. intros T [nx item] all l [-> _]. by eexists. Qed.

#[global] Program Instance slice_iter_laws {T} : IterLaws (SliceIter T) T := {|
  denotes it all l := all = si_data it /\ l = drop (si_next it) (si_data it);
|}.
Next Obligation.
  intros T [d n] all [-> Hl]; simpl in *. unfold next, slice_iter_next; simpl.
  destruct (d !! n) eqn:E; [by rewrite (drop_S _ _ _ E) in Hl|by eexists].
Qed.
Next Obligation.
  intros T [d n] all x l [-> Hl]; simpl in *. unfold next, slice_iter_next; simpl.
  destruct (d !! n) as [y|] eqn:E.
  - rewrite (drop_S _ _ _ E) in Hl. simplify_eq/=. by eexists.
  - apply lookup_ge_None in E. by rewrite drop_ge in Hl by done.
Qed.
Next Obligation. intros T [d n] all l [-> _]. by eexists. Qed.

Section drain.
Context {I T : Type} `{IterLaws I T}.

(** With more fuel than items, draining returns the items left. *)
Lemma drain_denotes fuel it all l :
  denotes it all l -> (length l < fuel)%nat ->
  exists it', drain fuel it = Ok (l, it') /\ denotes it' all [].
Proof.
  revert it l; induction fuel as [|fuel IH]; intros it l Hd Hf; [lia|].
  destruct l as [|x l]; simpl.
  - destruct (next_nil it all Hd) as (it' & -> & Hd'). by eexists.
  - destruct (next_cons it all x l Hd) as (it' & -> & Hd'). simpl in *.
    destruct (IH it' l Hd') as (it'' & -> & Hd''); [lia|]. by eexists.
Qed.
End drain.

Section merge_lemmas.
Context {K V : Type} `{OrdLaws K}.
Local Abbreviation T := (K * V)%type.
Implicit Types (l : list T) (ls : list (list T)).

Lemma merge2_nil_l l : merge2 [] l = l.
Proof. by destruct l. Qed.
Lemma merge2_nil_r l : merge2 l [] = l.
Proof. by destruct l. Qed.
Lemma merge2_cons (x y : T) l1 l2 :
  merge2 (x :: l1) (y :: l2) =
    match cmp x.1 y.1 with
    | Gt => y :: merge2 (x :: l1) l2
    | _ => x :: merge2 l1 (y :: l2)
    end.
Proof. done. Qed.

Lemma merge2_perm l1 l2 : merge2 l1 l2 ≡ₚ l1 ++ l2.
Proof.
  revert l2; induction l1 as [|x l1 IH1]; intros l2; [by rewrite merge2_nil_l|].
  induction l2 as [|y l2 IH2]; [by rewrite merge2_nil_r, app_nil_r|].
  rewrite merge2_cons. destruct (cmp x.1 y.1).
  1-2: by rewrite IH1. rewrite IH2. by rewrite <- Permutation_middle.
Qed.

Lemma kmerge_perm ls : kmerge ls ≡ₚ concat ls.
Proof. induction ls as [|l ls IH]; simpl; [done|]. by rewrite merge2_perm, IH. Qed.

Lemma key_sorted_cons (x : T) l :
  key_sorted (x :: l) <-> Forall (λ y, kle x.1 y.1) l /\ key_sorted l.
Proof.
  unfold key_sorted. split; [by intros [??]%StronglySorted_inv|].
  intros [??]. by constructor.
Qed.

Lemma merge2_sorted l1 l2 : key_sorted l1 -> key_sorted l2 -> key_sorted (merge2 l1 l2).
Proof.
  revert l2; induction l1 as [|x l1 IH1]; intros l2 S1 S2; [by rewrite merge2_nil_l|].
  induction l2 as [|y l2 IH2]; [by rewrite merge2_nil_r|].
  pose proof S1 as [F1 S1']%key_sorted_cons. pose proof S2 as [F2 S2']%key_sorted_cons.
  assert (Hle : kle x.1 y.1 -> key_sorted (x :: merge2 l1 (y :: l2))).
  { intros Hxy. apply key_sorted_cons. split; [|by apply IH1].
    rewrite merge2_perm. apply Forall_app. split; [done|]. constructor; [done|].
    eapply Forall_impl; [exact F2|]. intros z ?. by etrans. }
  rewrite merge2_cons. destruct (cmp x.1 y.1) eqn:E.
  - apply Hle. unfold kle. congruence.
  - apply Hle. unfold kle. congruence.
  - apply cmp_gt_lt in E. assert (Hyx : kle y.1 x.1) by by apply klt_kle.
    apply key_sorted_cons. split; [|by apply IH2].
    rewrite merge2_perm. apply Forall_app. split; [|done]. constructor; [done|].
    eapply Forall_impl; [exact F1|]. intros z ?. by etrans.
Qed.

Lemma kmerge_sorted ls : Forall key_sorted ls -> key_sorted (kmerge ls).
Proof. induction 1; simpl; [constructor|]. by apply merge2_sorted. Qed.

Lemma with_key_app k l1 l2 : with_key k (l1 ++ l2) = with_key k l1 ++ with_key k l2.
Proof. apply filter_app. Qed.
Lemma with_key_cons k (x : T) l :
  with_key k (x :: l) = (if decide (cmp x.1 k = Eq) then [x] else []) ++ with_key k l.
Proof. unfold with_key. rewrite filter_cons. by case_decide. Qed.

Lemma with_key_none k l :
  Forall (λ y, klt k y.1) l -> with_key k l = [].
Proof.
  induction 1 as [|y l Hy _ IH]; [done|]. rewrite with_key_cons, IH.
  rewrite decide_False; [done|]. intros Hk%cmp_eq_iff. rewrite Hk in Hy. by apply klt_irrefl in Hy.
Qed.

(** Stability of the merge: per key, the items of the first list first. *)
Lemma merge2_with_key k l1 l2 :
  key_sorted l1 -> with_key k (merge2 l1 l2) = with_key k l1 ++ with_key k l2.
Proof.
  revert l2; induction l1 as [|x l1 IH1]; intros l2 S1; [by rewrite merge2_nil_l|].
  induction l2 as [|y l2 IH2]; [by rewrite merge2_nil_r, app_nil_r|].
  pose proof S1 as [F1 S1']%key_sorted_cons.
  rewrite merge2_cons. destruct (cmp x.1 y.1) eqn:E.
  - rewrite !with_key_cons, IH1, with_key_cons, <- app_assoc by done. done.
  - rewrite !with_key_cons, IH1, with_key_cons, <- app_assoc by done. done.
  - rewrite with_key_cons, IH2, (with_key_cons k y).
    case_decide as Hk; [|done]. apply cmp_eq_iff in Hk.
    rewrite (with_key_none k (x :: l1)); [done|].
    apply cmp_gt_lt in E. rewrite Hk in E. constructor; [done|].
    eapply Forall_impl; [exact F1|]. intros z Hz. by eapply klt_le_trans.
Qed.

Lemma kmerge_with_key k ls :
  Forall key_sorted ls -> with_key k (kmerge ls) = with_key k (concat ls).
Proof.
  induction 1 as [|l ls Hl _ IH]; simpl; [done|].
  by rewrite merge2_with_key, IH, with_key_app.
Qed.

Lemma length_kmerge ls : length (kmerge ls) = length (concat ls).
Proof. by rewrite kmerge_perm. Qed.

Lemma kmerge_nil : kmerge (K := K) (V := V) [] = [].
Proof. done. Qed.
Lemma kmerge_cons l ls : kmerge (l :: ls) = merge2 l (kmerge ls).
Proof. done. Qed.
End merge_lemmas.
#[global] Arguments kmerge {K V H} ls : simpl never.
#[global] Arguments merge2 {K V H} l1 l2 : simpl never.

(** ** The ordered and merging iterators *)

Section merging_laws.
Context {I K V : Type} `{OrdLaws K} `{IterLaws I (K * V)}.
Local Abbreviation T := (K * V)%type.
Implicit Types (o : OrderedIter I T) (m : MergingIter I T) (all l : list T).

(** The buffered item comes first, then what the inner iterator has left. *)
Definition oi_denotes o all l : Prop :=
  match oi_next o with
  | Some x => exists l', l = x :: l' /\ denotes (oi_iter o) all l'
  | None => l = [] /\ denotes (oi_iter o) all []
  end.

(** Fetching the next item of an iterator into the buffer. *)
Lemma oi_fetch it all l rank :
  denotes it all l ->
  exists x it', next it = Ok (x, it') /\ oi_denotes (mkOrderedIter it' rank x) all l.
Proof.
  destruct l as [|x l]; intros Hd.
  - destruct (next_nil it all Hd) as (it' & Hn & ?). by exists None, it'.
  - destruct (next_cons it all x l Hd) as (it' & Hn & ?). exists (Some x), it'.
    split; [done|]. by exists l.
Qed.

Lemma oi_next_nil o all : oi_denotes o all [] ->
  exists o', next o = Ok (None, o') /\ oi_denotes o' all [].
Proof.
  destruct o as [it r [x|]]; [intros (? & [=] & _)|]. intros [_ Hd]. simpl in *.
  destruct (next_nil it all Hd) as (it' & Hn & ?).
  exists (mkOrderedIter it' r None). unfold next, ordered_iter_next; simpl.
  by rewrite Hn.
Qed.

Lemma oi_next_cons o all x l : oi_denotes o all (x :: l) ->
  exists o', next o = Ok (Some x, o') /\ oi_denotes o' all l.
Proof.
  destruct o as [it r [y|]]; [|by intros [[=] _]]. intros (? & [= -> ->] & Hd).
  destruct (oi_fetch it all _ r Hd) as (x' & it' & Hn & ?).
  exists (mkOrderedIter it' r x'). unfold next at 1, ordered_iter_next; simpl in *.
  by rewrite Hn.
Qed.

Lemma oi_rewind o all l : oi_denotes o all l ->
  exists o', rewind o = Ok o' /\ oi_denotes o' all all.
Proof.
  destruct o as [it r nx]. intros Hd.
  assert (exists l', denotes it all l') as [l' Hd'].
  { destruct nx; [destruct Hd as (l' & _ & ?); by exists l'|destruct Hd; by exists []]. }
  destruct (rewind_all it all l' Hd') as (it' & Hr & Hd'').
  destruct (oi_fetch it' all all r Hd'') as (x' & it'' & Hn & ?).
  exists (mkOrderedIter it'' r x'). unfold rewind at 1, ordered_iter_rewind; simpl.
  rewrite Hr; simpl. by rewrite Hn.
Qed.

#[global] Instance ordered_iter_laws : IterLaws (OrderedIter I T) T := {|
  denotes := oi_denotes;
  next_nil := oi_next_nil;
  next_cons := oi_next_cons;
  rewind_all := oi_rewind;
|}.

(** The ranks of the elements are their places, counted from [b]. *)
Definition ranked (b : nat) (h : list (OrderedIter I T)) : Prop :=
  forall i o, h !! i = Some o -> oi_rank o = (b + i)%nat.

Lemma ranked_cons b o h : ranked b (o :: h) -> oi_rank o = b /\ ranked (S b) h.
Proof.
  intros Hr. split; [rewrite (Hr O o); [lia|done]|].
  intros i o' Ho'. rewrite (Hr (S i) o' Ho'). lia.
Qed.

(** The buffered item is the head of what is left. *)
Lemma oi_denotes_head o all l : oi_denotes o all l -> oi_next o = head l.
Proof.
  unfold oi_denotes. destruct (oi_next o); [by intros (? & -> & _)|by intros [-> _]].
Qed.

(** Comparing an iterator with one of a higher rank. *)
Lemma ordered_iter_cmp_rank o y :
  (oi_rank o < oi_rank y)%nat ->
  ordered_iter_cmp o y =
    match oi_next o, oi_next y with
    | Some x, Some z => match cmp x.1 z.1 with Gt => Gt | _ => Lt end
    | None, Some _ => Gt
    | _, None => Lt
    end.
Proof.
  intros Hlt%Nat.compare_lt_iff. unfold ordered_iter_cmp.
  destruct (oi_next o), (oi_next y); try done. by destruct (cmp _ _).
Qed.

(** The top of the heap is the iterator the reference merge takes from. *)
Lemma heap_top_spec b h (ps : list (list T * list T)) :
  Forall2 (λ o p, oi_denotes o p.1 p.2) h ps -> ranked b h ->
  match heap_top h with
  | None => h = []
  | Some (i, o) =>
      exists p : list T * list T, h !! i = Some o /\ ps !! i = Some p /\
      match p.2 with
      | [] => kmerge (ps.*2) = []
      | x :: l => kmerge (ps.*2) = x :: kmerge (<[i := l]> (ps.*2))
      end
  end.
Proof.
  intros Hd. revert b; induction Hd as [|o [a l] h ps Ho Hd IH]; intros b Hr; [done|].
  apply ranked_cons in Hr as [Hrk Hr]. csimpl. csimpl in Ho.
  specialize (IH _ Hr). destruct (heap_top h) as [[j y]|] eqn:Et.
  2: { subst h. inversion Hd; subst. exists (a, l). csimpl.
       rewrite kmerge_cons, kmerge_nil, merge2_nil_r. split_and!; [done..|].
       destruct l; [done|]. by rewrite kmerge_cons, kmerge_nil, merge2_nil_r. }
  destruct IH as ([a' ly] & Hy & Hp & IH). csimpl in IH.
  rewrite ordered_iter_cmp_rank by (rewrite Hrk, (Hr j y Hy); lia).
  rewrite (oi_denotes_head _ _ _ Ho).
  pose proof (Forall2_lookup_lr _ _ _ _ _ _ Hd Hy Hp) as Hdy. csimpl in Hdy.
  rewrite (oi_denotes_head _ _ _ Hdy).
  destruct l as [|x l], ly as [|z ly]; csimpl; rewrite kmerge_cons.
  - exists (a, []). by rewrite IH.
  - exists (a', z :: ly). csimpl. rewrite !merge2_nil_l, kmerge_cons, merge2_nil_l. done.
  - exists (a, x :: l). csimpl. by rewrite kmerge_cons, IH, !merge2_nil_r.
  - rewrite IH, merge2_cons. destruct (cmp x.1 z.1) eqn:Ec.
    + exists (a, x :: l). csimpl. by rewrite kmerge_cons, <- IH.
    + exists (a, x :: l). csimpl. by rewrite kmerge_cons, <- IH.
    + exists (a', z :: ly). csimpl. by rewrite kmerge_cons.
Qed.

(** What the merging iterator denotes: the merge of what its iterators do. *)
Definition mi_denotes m all l : Prop :=
  exists ps : list (list T * list T),
    Forall2 (λ o p, oi_denotes o p.1 p.2) (heap m) ps /\ ranked 0 (heap m) /\
    all = kmerge (ps.*1) /\ l = kmerge (ps.*2).

(** Replacing the element at its place keeps the heap well ranked and the
    denotations in step. *)
Lemma heap_update b h (ps : list (list T * list T)) i o o' a l :
  Forall2 (λ o p, oi_denotes o p.1 p.2) h ps -> ranked b h ->
  h !! i = Some o -> oi_rank o' = oi_rank o -> oi_denotes o' a l ->
  Forall2 (λ o p, oi_denotes o p.1 p.2) (<[i := o']> h) (<[i := (a, l)]> ps) /\
  ranked b (<[i := o']> h).
Proof.
  intros Hd Hr Ho Hrk Hd'. split; [by apply Forall2_insert|].
  intros j oj. rewrite list_lookup_insert.
  destruct (decide (i = j /\ i < length h)%nat) as [[<- _]|]; [|apply Hr].
  intros [= <-]. rewrite Hrk. by apply Hr.
Qed.

(** [next] of an ordered iterator keeps its rank. *)
Lemma ordered_iter_next_rank o x o' : next o = Ok (x, o') -> oi_rank o' = oi_rank o.
Proof.
  unfold next, ordered_iter_next. intros H'. inv_res. destruct a. inv_res. done.
Qed.
Lemma ordered_iter_rewind_rank o o' : rewind o = Ok o' -> oi_rank o' = oi_rank o.
Proof.
  unfold rewind, ordered_iter_rewind. intros H'. inv_res. destruct a0. inv_res. done.
Qed.

(** Rewinding every element of the heap. *)
Lemma heap_rewind b h (ps : list (list T * list T)) :
  Forall2 (λ o p, oi_denotes o p.1 p.2) h ps -> ranked b h ->
  exists h', mapM rewind h = Ok h' /\ ranked b h' /\
    Forall2 (λ o p, oi_denotes o p.1 p.2) h' (zip (ps.*1) (ps.*1)).
Proof.
  intros Hd. revert b; induction Hd as [|o [a l] h ps Ho Hd IH]; intros b Hr.
  { exists []. split_and!; [done..|constructor]. }
  apply ranked_cons in Hr as [Hrk Hr]. destruct (IH _ Hr) as (h' & Hm & Hr' & Hd').
  destruct (oi_rewind o a l Ho) as (o' & Ho' & Hdo').
  exists (o' :: h'). cbn [mapM]. rewrite Ho'. cbn. rewrite Hm.
  split_and!; [done| |by constructor]. intros [|i] oi; simpl.
  - intros [= <-]. rewrite (ordered_iter_rewind_rank _ _ Ho'). lia.
  - intros Hi. rewrite (Hr' i oi Hi). lia.
Qed.

Lemma mi_next_nil m all : mi_denotes m all [] ->
  exists m', next m = Ok (None, m') /\ mi_denotes m' all [].
Proof.
  destruct m as [h]. intros (ps & Hd & Hr & -> & Hl). simpl in *.
  unfold next, merging_iter_next; simpl. pose proof (heap_top_spec 0 h ps Hd Hr) as Ht.
  destruct (heap_top h) as [[i o]|] eqn:Et.
  2: { subst h. inversion Hd; subst. eexists. split; [done|]. exists [].
       by split_and!. }
  destruct Ht as ([a l] & Ho & Hp & Hk). simpl in Hk.
  pose proof (Forall2_lookup_lr _ _ _ _ _ _ Hd Ho Hp) as Hdo. simpl in Hdo.
  destruct l as [|x l]; [|by rewrite Hk in Hl].
  destruct (oi_next_nil o a Hdo) as (o' & Hn & Hdo'). rewrite Hn.
  eexists. split; [done|]. exists ps. simpl.
  destruct (heap_update 0 h ps i o o' a [] Hd Hr Ho) as [Hd' Hr'];
    [by eapply ordered_iter_next_rank|done|].
  rewrite (list_insert_id ps) in Hd' by done. by split_and!.
Qed.

Lemma mi_next_cons m all x l : mi_denotes m all (x :: l) ->
  exists m', next m = Ok (Some x, m') /\ mi_denotes m' all l.
Proof.
  destruct m as [h]. rename x into x0, l into l0. intros (ps & Hd & Hr & -> & Hl). simpl in *.
  unfold next, merging_iter_next; simpl. pose proof (heap_top_spec 0 h ps Hd Hr) as Ht.
  destruct (heap_top h) as [[i o]|] eqn:Et.
  2: { subst h. inversion Hd; subst. discriminate Hl. }
  destruct Ht as ([a l] & Ho & Hp & Hk). simpl in Hk.
  pose proof (Forall2_lookup_lr _ _ _ _ _ _ Hd Ho Hp) as Hdo. simpl in Hdo.
  destruct l as [|x l]; [by rewrite Hk in Hl|]. rewrite Hk in Hl. simplify_eq.
  destruct (oi_next_cons o a x l Hdo) as (o' & Hn & Hdo'). rewrite Hn.
  eexists. split; [done|]. exists (<[i := (a, l)]> ps). simpl.
  destruct (heap_update 0 h ps i o o' a l Hd Hr Ho) as [Hd' Hr'];
    [by eapply ordered_iter_next_rank|done|].
  rewrite !list_fmap_insert. split_and!; [done..| |done]. simpl.
  rewrite (list_insert_id (ps.*1)); [done|]. by rewrite list_lookup_fmap, Hp.
Qed.

Lemma mi_rewind m all l : mi_denotes m all l ->
  exists m', rewind m = Ok m' /\ mi_denotes m' all all.
Proof.
  destruct m as [h]. intros (ps & Hd & Hr & -> & Hl). simpl in *.
  destruct (heap_rewind 0 h ps Hd Hr) as (h' & Hm & Hr' & Hd').
  exists (mkMergingIter h'). unfold rewind, merging_iter_rewind; simpl. rewrite Hm.
  split; [done|]. exists (zip (ps.*1) (ps.*1)). simpl.
  by rewrite fst_zip, snd_zip by done.
Qed.

#[global] Instance merging_iter_laws : IterLaws (MergingIter I T) T := {|
  denotes := mi_denotes;
  next_nil := mi_next_nil;
  next_cons := mi_next_cons;
  rewind_all := mi_rewind;
|}.

Lemma mi_drain fuel m all l :
  mi_denotes m all l -> (length l < fuel)%nat ->
  exists m', drain fuel m = Ok (l, m') /\ mi_denotes m' all [].
Proof. exact (@drain_denotes _ _ _ _ merging_iter_laws fuel m all l). Qed.
End merging_laws.


(** ** Building and seeking a merging iterator *)

Section merging_build.
Context {I K V : Type} `{OrdLaws K} `{IterLaws I (K * V)}.
Local Abbreviation T := (K * V)%type.

(** A builder that was given iterators over [alls] in turn. *)
Definition merging_build (its : list I) : res (MergingIter I T) :=
  merging_builder_build (foldl (λ b it, merging_builder_add it b) merging_builder_new its).

Definition builder_holds (b : MergingIterBuilder I T) (alls : list (list T)) : Prop :=
  Forall2 (λ o a, denotes (oi_iter o) a a) (iters b) alls /\
  forall i o, iters b !! i = Some o -> oi_rank o = i.

Lemma merging_add_holds b alls it a :
  builder_holds b alls -> denotes it a a ->
  builder_holds (merging_builder_add it b) (alls ++ [a]).
Proof.
  intros [Hd Hr] Hi. split; simpl.
  - apply Forall2_app; [done|]. by repeat constructor.
  - intros i o. rewrite lookup_app_Some. intros [?|[Hle Ho]]; [by apply Hr|].
    apply list_lookup_singleton_Some in Ho as [? <-]. simpl. lia.
Qed.

Lemma heap_init (h : list (OrderedIter I T)) alls :
  Forall2 (λ o a, denotes (oi_iter o) a a) h alls ->
  exists h', mapM ordered_iter_init h = Ok h' /\ oi_rank <$> h' = oi_rank <$> h /\
    Forall2 (λ o p, oi_denotes o p.1 p.2) h' (zip alls alls).
Proof.
  induction 1 as [|o a h alls Ho _ (h' & Hm & Hr & Hd)].
  { exists []. split_and!; [done..|constructor]. }
  destruct (oi_fetch (oi_iter o) a a (oi_rank o) Ho) as (x & it' & Hn & Hd').
  exists (mkOrderedIter it' (oi_rank o) x :: h').
  assert (Ho' : ordered_iter_init o = Ok (mkOrderedIter it' (oi_rank o) x))
    by (unfold ordered_iter_init; by rewrite Hn).
  split_and!; [|csimpl; by f_equal|by constructor].
  cbn [mapM]. rewrite Ho'. cbn. by rewrite Hm.
Qed.

Lemma merging_builder_holds b (alls : list (list T)) its alls' :
  builder_holds b alls -> Forall2 (λ it a, denotes it a a) its alls' ->
  builder_holds (foldl (λ b it, merging_builder_add it b) b its) (alls ++ alls').
Proof.
  intros Hb Hd. revert b alls Hb.
  induction Hd as [|it a its alls' Hi Hd IH]; intros b alls Hb; simpl.
  - by rewrite app_nil_r.
  - rewrite (cons_middle a), app_assoc. apply IH. by apply merging_add_holds.
Qed.

Lemma merging_build_heap its (alls : list (list T)) :
  Forall2 (λ it a, denotes it a a) its alls ->
  exists h, merging_build its = Ok (mkMergingIter h) /\ ranked 0 h /\
    Forall2 (λ o p, oi_denotes o p.1 p.2) h (zip alls alls).
Proof.
  intros Hd.
  destruct (merging_builder_holds merging_builder_new [] its alls) as [Hb Hr]; [|done|].
  { split; [constructor|done]. }
  destruct (heap_init _ _ Hb) as (h' & Hm & Hrk & Hd').
  exists h'. unfold merging_build, merging_builder_build. rewrite Hm.
  split_and!; [done| |done].
  intros i o Ho. apply (f_equal (.!! i)) in Hrk. rewrite !list_lookup_fmap, Ho in Hrk.
  destruct (iters _ !! i) as [o'|] eqn:E; simplify_eq/=. rewrite Hrk. by apply Hr.
Qed.

Lemma merging_build_denotes its (alls : list (list T)) :
  Forall2 (λ it a, denotes it a a) its alls ->
  exists m, merging_build its = Ok m /\ mi_denotes m (kmerge alls) (kmerge alls).
Proof.
  intros Hd. destruct (merging_build_heap its alls Hd) as (h & Hm & Hr & Hh).
  exists (mkMergingIter h). split; [done|]. exists (zip alls alls).
  by rewrite fst_zip, snd_zip by done.
Qed.

(** [C32] Merging sorted iterators: building a merging iterator over the given
    iterators succeeds, and draining it returns every item of every iterator
    exactly once, in key order, and for equal keys in the order in which the
    iterators were added. *)
Theorem merging_iter_correct (its : list I) (alls : list (list T)) :
  Forall2 (λ it a, denotes it a a) its alls -> Forall key_sorted alls ->
  exists m out m',
    merging_build its = Ok m /\
    drain (S (length (concat alls))) m = Ok (out, m') /\
    key_sorted out /\ out ≡ₚ concat alls /\
    forall k, with_key k out = with_key k (concat alls).
Proof.
  intros Hd Hs. destruct (merging_build_denotes its alls Hd) as (m & Hm & Hdm).
  destruct (mi_drain (S (length (concat alls))) m _ _ Hdm) as (m' & Hdr & _).
  { rewrite length_kmerge. lia. }
  exists m, (kmerge alls), m'. split_and!; [done..| | |].
  - by apply kmerge_sorted.
  - apply kmerge_perm.
  - intros. by apply kmerge_with_key.
Qed.
End merging_build.

Lemma merging_iter_correct_witness :
  exists m out m',
    merging_build [slice_iter_new [(1, 10); (3, 30)]; slice_iter_new [(1, 11); (2, 20)]]
      = Ok m /\
    drain 5 m = Ok (out, m') /\ key_sorted out /\
    out ≡ₚ [(1, 10); (3, 30); (1, 11); (2, 20)] /\
    forall k, with_key k out = with_key k [(1, 10); (3, 30); (1, 11); (2, 20)].
Proof.
  apply (merging_iter_correct
    [slice_iter_new [(1, 10); (3, 30)]; slice_iter_new [(1, 11); (2, 20)]]
    [[(1, 10); (3, 30)]; [(1, 11); (2, 20)]]).
  - by repeat constructor.
  - repeat constructor; done.
Defined.

Section merging_seek.
Context {I K V : Type} `{SeekLaws I K V}.
Local Abbreviation T := (K * V)%type.
Implicit Types (o : OrderedIter I T) (m : MergingIter I T) (all l : list T).

Lemma seek_from_nil q : seek_from q [] = [] :> list T.
Proof. done. Qed.
Lemma seek_from_cons q (x : T) l :
  seek_from q (x :: l) = (if decide (kle q x.1) then [x] else []) ++ seek_from q l.
Proof. unfold seek_from. rewrite filter_cons. by case_decide. Qed.

Lemma seek_from_merge2 q l1 l2 :
  seek_from q (merge2 l1 l2) = merge2 (seek_from q l1) (seek_from q l2).
Proof.
  revert l2; induction l1 as [|x l1 IH1]; intros l2.
  { by rewrite seek_from_nil, !merge2_nil_l. }
  induction l2 as [|y l2 IH2]; [by rewrite seek_from_nil, !merge2_nil_r|].
  rewrite merge2_cons, (seek_from_cons q x), (seek_from_cons q y).
  destruct (cmp x.1 y.1) eqn:E.
  1-2: rewrite seek_from_cons, IH1, seek_from_cons; case_decide as Hx; [|done];
    (rewrite decide_True by (etrans; [done|]; unfold kle; congruence));
    simpl; by rewrite merge2_cons, E.
  rewrite seek_from_cons, IH2, seek_from_cons. apply cmp_gt_lt in E.
  case_decide as Hy; simpl; [|done].
  rewrite decide_True by (etrans; [done|by apply klt_kle]). simpl.
  rewrite merge2_cons. by rewrite (proj2 (cmp_gt_lt _ _) E).
Qed.

Lemma seek_from_kmerge q (ls : list (list T)) : seek_from q (kmerge ls) = kmerge (seek_from q <$> ls).
Proof.
  induction ls as [|l ls IH]; [done|]. csimpl. by rewrite !kmerge_cons, seek_from_merge2, IH.
Qed.

Lemma oi_seek q o all l : oi_denotes o all l -> key_strict all ->
  exists found o', seek q o = Ok (found, o') /\ oi_rank o' = oi_rank o /\
    (found = true <-> q ∈ all.*1) /\ oi_denotes o' all (seek_from q all).
Proof.
  destruct o as [it r nx]. intros Hd Hs.
  assert (exists l', denotes it all l') as [l' Hd'].
  { destruct nx; [destruct Hd as (l' & _ & ?); by exists l'|destruct Hd; by exists []]. }
  destruct (seek_all q it all l' Hd' Hs) as (f & it' & Hk & Hf & Hd'').
  destruct (oi_fetch it' all _ r Hd'') as (x' & it'' & Hn & ?).
  exists f, (mkOrderedIter it'' r x'). unfold seek at 1, ordered_iter_seek; simpl.
  rewrite Hk; simpl. by rewrite Hn.
Qed.

Lemma heap_seek_spec q b h (ps : list (list T * list T)) :
  Forall2 (λ o p, oi_denotes o p.1 p.2) h ps -> ranked b h -> Forall key_strict (ps.*1) ->
  exists found h', heap_seek q h = Ok (found, h') /\ ranked b h' /\
    (found = true <-> q ∈ (concat (ps.*1)).*1) /\
    Forall2 (λ o p, oi_denotes o p.1 p.2) h' ((λ p, (p.1, seek_from q p.1)) <$> ps).
Proof.
  intros Hd. revert b; induction Hd as [|o [a l] h ps Ho Hd IH]; intros b Hr Hs.
  { exists false, []. split_and!; [done..| |constructor]. by rewrite elem_of_nil. }
  apply ranked_cons in Hr as [Hrk Hr]. inversion_clear Hs as [|?? Ha Hps].
  destruct (IH _ Hr Hps) as (f & h' & Hh & Hr' & Hf & Hd').
  destruct (oi_seek q o a l Ho Ha) as (fo & o' & Hk & Hrk' & Hfo & Hdo).
  exists (fo || f), (o' :: h'). cbn [heap_seek]. rewrite Hk. cbn. rewrite Hh.
  split_and!; [done| | |by constructor].
  - intros [|i] oi; simpl; [intros [= <-]; lia|]. intros Hi. rewrite (Hr' i oi Hi). lia.
  - rewrite fmap_app, elem_of_app, orb_true_iff. by rewrite Hfo, Hf.
Qed.

(** Seeking a merging iterator: when the keys of each merged iterator are
    strictly ascending, [seek] reports whether the target is a key of one of
    them, and the items left are exactly the merged items at or after the
    target. *)
Theorem merging_seek_correct (q : K) (its : list I) (alls : list (list T)) :
  Forall2 (λ it a, denotes it a a) its alls -> Forall key_strict alls ->
  exists m found m' m'',
    merging_build its = Ok m /\ seek q m = Ok (found, m') /\
    (found = true <-> q ∈ (concat alls).*1) /\
    drain (S (length (concat alls))) m' = Ok (seek_from q (kmerge alls), m'').
Proof.
  intros Hd Hs. destruct (merging_build_heap its alls Hd) as (h & Hm & Hr & Hh).
  destruct (heap_seek_spec q 0 h (zip alls alls) Hh Hr) as (f & h' & Hk & Hr' & Hf & Hd').
  { by rewrite fst_zip by done. }
  rewrite fst_zip in Hf by done.
  assert (Hdm : mi_denotes (mkMergingIter h') (kmerge alls) (seek_from q (kmerge alls))).
  { eexists. split_and!; [done..| |]; rewrite <- list_fmap_compose; unfold compose; simpl.
    - by rewrite fst_zip by done.
    - rewrite seek_from_kmerge. f_equal. clear. induction alls; [done|]. csimpl. by f_equal. }
  destruct (mi_drain (S (length (concat alls))) _ _ _ Hdm) as (m'' & Hdr & _).
  { rewrite <- length_kmerge. apply Nat.lt_succ_r, length_filter. }
  exists (mkMergingIter h), f, (mkMergingIter h'), m''.
  split_and!; [done| |done|done]. unfold seek, merging_iter_seek; simpl. by rewrite Hk.
Qed.
End merging_seek.
