(* ===== verification/LinkedList.v ===== *)
(** * The list of waiters ([util/linked_list.rs])

    An intrusive doubly linked list: the nodes belong to the clients (they are the
    waiters of [Notify]), the list has a pointer to the first and to the last one, and
    each node has a pointer to its neighbours. The memory of the nodes is a map from
    addresses; a null pointer is [None], and following a pointer to no node is a [Panic].
    The theorem says that on every legal sequence of operations this is a list, so that
    [Notify] can take it for one. *)

From stdpp Require Import base numbers list gmap.
From Stdlib Require Import ZArith Lia.
From S2P Require Import Prelude.

(** ** Pointers *)

Record Pointers := mkPointers { p_prev : option Z; p_next : option Z }.
Record LinkedList := mkLinkedList { ll_head : option Z; ll_tail : option Z }.
Record ListMem := mkListMem { lm_list : LinkedList; lm_nodes : gmap Z Pointers }.

Definition pointers_new : Pointers := mkPointers None None.
Definition linked_list_new : LinkedList := mkLinkedList None None.

Local Abbreviation M := (St ListMem).

Definition pointers (ptr : Z) : M Pointers := λ s, (expect (lm_nodes s !! ptr), s).
Definition set_pointers (ptr : Z) (p : Pointers) : M unit := modify (λ s, mkListMem (lm_list s) (<[ptr := p]> (lm_nodes s))).
Definition get_prev (ptr : Z) : M (option Z) := p ← pointers ptr; mret (p_prev p).
Definition get_next (ptr : Z) : M (option Z) := p ← pointers ptr; mret (p_next p).
Definition set_prev (ptr : Z) (value : option Z) : M unit := p ← pointers ptr; set_pointers ptr (mkPointers value (p_next p)).
Definition set_next (ptr : Z) (value : option Z) : M unit := p ← pointers ptr; set_pointers ptr (mkPointers (p_prev p) value).

Definition head_ptr : M (option Z) := gets (λ s, ll_head (lm_list s)).
Definition tail_ptr : M (option Z) := gets (λ s, ll_tail (lm_list s)).
Definition set_head (p : option Z) : M unit := modify (λ s, mkListMem (mkLinkedList p (ll_tail (lm_list s))) (lm_nodes s)).
Definition set_tail (p : option Z) : M unit := modify (λ s, mkListMem (mkLinkedList (ll_head (lm_list s)) p) (lm_nodes s)).

(** ** Operations *)

Definition push_front (ptr : Z) : M unit :=
  head ← head_ptr;
  _ ← lift (rassert (bool_decide (head <> Some ptr)));
  _ ← set_next ptr head;
  _ ← set_prev ptr None;
  _ ← match head with Some head => set_prev head (Some ptr) | None => mret tt end;
  _ ← set_head (Some ptr);
  tail ← tail_ptr;
  match tail with None => set_tail (Some ptr) | Some _ => mret tt end.

Definition pop_back : M (option Z) :=
  tail ← tail_ptr;
  match tail with
  | None => mret None
  | Some last =>
      prev ← get_prev last;
      _ ← set_tail prev;
      prev ← get_prev last;
      _ ← match prev with Some prev => set_next prev None | None => set_head None end;
      _ ← set_prev last None;
      _ ← set_next last None;
      mret (Some last)
  end.

Definition is_empty : M bool :=
  head ← head_ptr;
  match head with
  | Some _ => mret false
  | None => tail ← tail_ptr; _ ← lift (rassert (bool_decide (tail = None))); mret true
  end.

(** The part of [remove] that takes the node out of its right neighbour, or of the end. *)
Definition remove_right (node : Z) : M bool :=
  next ← get_next node;
  match next with
  | Some next => prev ← get_prev node; _ ← set_prev next prev; mret true
  | None =>
      tail ← tail_ptr;
      if bool_decide (tail = Some node) then prev ← get_prev node; _ ← set_tail prev; mret true else mret false
  end.
Definition remove_left (node : Z) : M bool :=
  prev ← get_prev node;
  match prev with
  | Some prev => next ← get_next node; _ ← set_next prev next; mret true
  | None =>
      head ← head_ptr;
      if bool_decide (head = Some node) then next ← get_next node; _ ← set_head next; mret true else mret false
  end.
Definition remove (node : Z) : M (option Z) :=
  found ← remove_left node;
  if negb found then mret None else
  found ← remove_right node;
  if negb found then mret None else
  _ ← set_next node None;
  _ ← set_prev node None;
  mret (Some node).

Definition list_last : M (option Z) := tail_ptr.

(** ** Chains of nodes *)

(** The neighbour on the right of a list that ends before [n], and on the left of one
    that starts after [p]. *)
Definition first_or (n : option Z) (l : list Z) : option Z := match l with [] => n | x :: _ => Some x end.
Definition last_or (p : option Z) (l : list Z) : option Z := match last l with Some x => Some x | None => p end.

Fixpoint chain (nodes : gmap Z Pointers) (p : option Z) (l : list Z) (n : option Z) : Prop :=
  match l with
  | [] => True
  | x :: l => nodes !! x = Some (mkPointers p (first_or n l)) /\ chain nodes (Some x) l n
  end.

Lemma last_or_cons p x l : last_or p (x :: l) = last_or (Some x) l.
Proof. unfold last_or. rewrite last_cons. by destruct (last l). Qed.
Lemma last_or_snoc p l x : last_or p (l ++ [x]) = Some x.
Proof. unfold last_or. by rewrite last_snoc. Qed.

Lemma chain_app nodes p l1 l2 n : chain nodes p (l1 ++ l2) n <-> chain nodes p l1 (first_or n l2) /\ chain nodes (last_or p l1) l2 n.
Proof.
  revert p. induction l1 as [|x l1 IH]; intros p; cbn [app chain]; [tauto|].
  rewrite IH, last_or_cons. destruct l1; cbn [app first_or]; tauto.
Qed.
Lemma chain_frame nodes nodes' p l n : (forall x, x ∈ l -> nodes' !! x = nodes !! x) -> chain nodes p l n -> chain nodes' p l n.
Proof.
  revert p. induction l as [|x l IH]; intros p Hf; [done|]. cbn. rewrite Hf by (by left). intros [? ?]. split; [done|].
  apply IH; [|done]. intros y Hy. apply Hf. by right.
Qed.
Lemma chain_insert nodes p l n x q : x ∉ l -> chain nodes p l n -> chain (<[x := q]> nodes) p l n.
Proof. intros Hx. apply chain_frame. intros y Hy. rewrite lookup_insert_ne; [done|congruence]. Qed.

(** Changing the pointers at the ends of a chain. *)
Lemma chain_set_first nodes p p' x l n : x ∉ l -> chain nodes p (x :: l) n -> chain (<[x := mkPointers p' (first_or n l)]> nodes) p' (x :: l) n.
Proof. intros Hx [_ Hl]. split; [by rewrite lookup_insert_eq|]. by apply chain_insert. Qed.
Lemma chain_set_last nodes p l x n n' : x ∉ l -> chain nodes p (l ++ [x]) n -> chain (<[x := mkPointers (last_or p l) n']> nodes) p (l ++ [x]) n'.
Proof.
  intros Hx [Hl _]%chain_app. apply chain_app. split; [by apply chain_insert|]. cbn. by rewrite lookup_insert_eq.
Qed.
Lemma chain_last_lookup nodes p l x n : chain nodes p (l ++ [x]) n -> nodes !! x = Some (mkPointers (last_or p l) n).
Proof. intros [_ [? _]]%chain_app. done. Qed.

Lemma node_pointers nodes p l i x : chain nodes p l None -> l !! i = Some x ->
  nodes !! x = Some (mkPointers (match i with O => p | S j => l !! j end) (l !! S i)).
Proof.
  revert p i. induction l as [|y l IH]; intros p [|i]; cbn [chain lookup list_lookup]; [done|done| |].
  - intros [E _] [= ->]. rewrite E. by destruct l.
  - intros [_ Hc] Hx. specialize (IH _ _ Hc Hx). rewrite IH. by destruct i.
Qed.

(** ** The list that the memory represents *)

(** Nodes that are not in the list have null pointers. *)
Record ll_rep (ids : list Z) (dom : gset Z) (s : ListMem) : Prop := {
  lr_head : ll_head (lm_list s) = head ids;
  lr_tail : ll_tail (lm_list s) = last ids;
  lr_nodup : NoDup ids;
  lr_chain : chain (lm_nodes s) None ids None;
  lr_dom : forall x, x ∈ ids -> x ∈ dom;
  lr_free : forall x, x ∈ dom -> x ∉ ids -> lm_nodes s !! x = Some pointers_new;
}.

Ltac list_cbn := repeat first [rewrite st_gets | rewrite st_modify | rewrite st_mret | rewrite st_assert by (by rewrite bool_decide_true)];
  cbn [lm_list lm_nodes ll_head ll_tail p_prev p_next expect].

Lemma get_prev_ok {B} x p (k : option Z -> M B) s : lm_nodes s !! x = Some p -> mbind k (get_prev x) s = k (p_prev p) s.
Proof. intros H. cbv [get_prev pointers mbind st_bind mret st_ret]. by rewrite H. Qed.
Lemma get_next_ok {B} x p (k : option Z -> M B) s : lm_nodes s !! x = Some p -> mbind k (get_next x) s = k (p_next p) s.
Proof. intros H. cbv [get_next pointers mbind st_bind mret st_ret]. by rewrite H. Qed.
Lemma set_prev_ok {B} x p v (k : unit -> M B) s : lm_nodes s !! x = Some p ->
  mbind k (set_prev x v) s = k tt (mkListMem (lm_list s) (<[x := mkPointers v (p_next p)]> (lm_nodes s))).
Proof. intros H. cbv [set_prev set_pointers pointers mbind st_bind modify]. by rewrite H. Qed.
Lemma set_next_ok {B} x p v (k : unit -> M B) s : lm_nodes s !! x = Some p ->
  mbind k (set_next x v) s = k tt (mkListMem (lm_list s) (<[x := mkPointers (p_prev p) v]> (lm_nodes s))).
Proof. intros H. cbv [set_next set_pointers pointers mbind st_bind modify]. by rewrite H. Qed.

(** ** The operations on the represented list *)

Lemma last_last_or (l : list Z) : last l = last_or None l.
Proof. unfold last_or. by destruct (last l). Qed.
Lemma head_first_or (l : list Z) : head l = first_or None l.
Proof. by destruct l. Qed.

Lemma push_front_ok ids dom s x :
  ll_rep ids dom s -> x ∈ dom -> x ∉ ids -> exists s', push_front x s = (Ok tt, s') /\ ll_rep (x :: ids) dom s'.
Proof.
  intros [Hh Ht Hn Hc Hd Hf] Hx Hxi. unfold push_front, head_ptr, tail_ptr. list_cbn. rewrite Hh.
  rewrite st_assert by (apply bool_decide_true; destruct ids as [|y ids]; cbn; [done|set_solver]).
  erewrite set_next_ok by (by apply Hf). erewrite set_prev_ok by (cbn; apply lookup_insert_eq). cbn [lm_list lm_nodes p_prev p_next].
  rewrite insert_insert_eq. set (n1 := <[x := _]> (lm_nodes s)).
  assert (Hx1 : n1 !! x = Some (mkPointers None (head ids))) by apply lookup_insert_eq.
  assert (Hf1 : forall y, y ∈ dom -> y ∉ x :: ids -> n1 !! y = Some pointers_new)
    by (intros y Hy [??]%not_elem_of_cons; unfold n1; rewrite lookup_insert_ne by done; by apply Hf).
  assert (Hc1 : chain n1 None ids None) by (by apply chain_insert). clearbody n1.
  destruct ids as [|y ids]; cbn [head] in *.
  - list_cbn. unfold set_head. list_cbn. rewrite Ht. eexists. split; [done|]. split; cbn; [done|done| |done| |done].
    + apply NoDup_singleton.
    + intros z ->%list_elem_of_singleton. done.
  - apply NoDup_cons in Hn as [Hy Hn]. destruct (Hc1) as [Hy1 _]. erewrite set_prev_ok by done. unfold set_head. list_cbn. rewrite Ht.
    assert (exists t, last (y :: ids) = Some t) as [t Et] by (destruct (last (y :: ids)) eqn:E; [by eexists|by apply last_None in E]).
    rewrite Et. eexists. split; [done|]. split; cbn [lm_list lm_nodes ll_head ll_tail head].
    + done.
    + rewrite last_cons, Et. done.
    + apply NoDup_cons. split; [done|]. by apply NoDup_cons.
    + split; [rewrite lookup_insert_ne by set_solver; done|]. by eapply chain_set_first.
    + intros z [->|Hz]%elem_of_cons; auto.
    + intros z Hz Hzi. rewrite lookup_insert_ne by set_solver. by apply Hf1.
Qed.

Lemma pop_back_ok ids dom s :
  ll_rep ids dom s -> exists s', pop_back s = (Ok (last ids), s') /\ ll_rep (removelast ids) dom s'.
Proof.
  intros Hr. pose proof Hr as [Hh Ht Hn Hc Hd Hf]. unfold pop_back, tail_ptr. list_cbn. rewrite Ht.
  destruct ids as [|x l _] using rev_ind; [by exists s|]. rewrite last_snoc, removelast_last in *.
  apply NoDup_app in Hn as (Hn & Hxl & _). assert (Hx : x ∉ l) by set_solver.
  pose proof (chain_last_lookup _ _ _ _ _ Hc) as Hxp. erewrite get_prev_ok by done. unfold set_tail. list_cbn.
  erewrite get_prev_ok by done. cbn [p_prev]. rewrite <- last_last_or.
  assert (Hx' : x ∈ dom) by (apply Hd; set_solver).
  destruct l as [|y l _] using rev_ind.
  - cbn [last]. unfold set_head. list_cbn. erewrite set_prev_ok by done. erewrite set_next_ok by (cbn; apply lookup_insert_eq). cbn.
    eexists. split; [done|]. split; cbn; [done|done|constructor|done|set_solver|].
    intros z Hz _. rewrite insert_insert_eq. destruct (decide (z = x)) as [->|]; [by rewrite lookup_insert_eq|].
    rewrite lookup_insert_ne by done. apply Hf; set_solver.
  - rewrite last_snoc. pose proof Hc as [Hc' _]%chain_app. pose proof (chain_last_lookup _ _ _ _ _ Hc') as Hy.
    apply NoDup_app in Hn as (Hn & Hyl & _). assert (y ∉ l) by set_solver.
    erewrite set_next_ok by done. erewrite set_prev_ok by (cbn; rewrite lookup_insert_ne by set_solver; done).
    erewrite set_next_ok by (cbn; apply lookup_insert_eq). cbn. rewrite insert_insert_eq.
    eexists. split; [done|]. split; cbn [lm_list lm_nodes ll_head ll_tail].
    + rewrite Hh. destruct l; done.
    + by rewrite last_snoc.
    + apply NoDup_app. split_and!; [done|done|apply NoDup_singleton].
    + apply chain_insert; [done|]. by eapply chain_set_last.
    + intros z Hz. apply Hd. set_solver.
    + intros z Hz Hzi. destruct (decide (z = x)) as [->|]; [by rewrite lookup_insert_eq|].
      rewrite lookup_insert_ne, lookup_insert_ne by set_solver. apply Hf; set_solver.
Qed.

Lemma is_empty_ok ids dom s : ll_rep ids dom s -> is_empty s = (Ok (bool_decide (ids = [])), s).
Proof.
  intros [Hh Ht _ _ _ _]. unfold is_empty, head_ptr, tail_ptr. list_cbn. rewrite Hh. destruct ids; cbn [head]; [|done].
  by list_cbn.
Qed.

(** What [remove] does on the left and on the right of the node [x]. *)
Lemma remove_left_ok l1 x l2 nodes t :
  NoDup (l1 ++ x :: l2) -> chain nodes None (l1 ++ x :: l2) None ->
  exists nodes', remove_left x (mkListMem (mkLinkedList (head (l1 ++ x :: l2)) t) nodes) = (Ok true, mkListMem (mkLinkedList (head (l1 ++ l2)) t) nodes') /\
    chain nodes' None l1 (first_or None l2) /\ (forall y, y ∉ l1 -> nodes' !! y = nodes !! y).
Proof.
  intros Hn [Hc1 [Hx Hc2]]%chain_app. apply NoDup_app in Hn as (Hn1 & Hd & [Hx2 Hn2]%NoDup_cons). unfold remove_left.
  erewrite get_prev_ok by done. cbn [p_prev]. destruct l1 as [|y l1 _] using rev_ind.
  - change (last_or None []) with (@None Z). unfold head_ptr. list_cbn. cbn [head app]. rewrite bool_decide_true by done. erewrite get_next_ok by done. unfold set_head. list_cbn.
    exists nodes. split_and!; [|done|done]. by destruct l2.
  - rewrite last_or_snoc. erewrite get_next_ok by done. pose proof (chain_last_lookup _ _ _ _ _ Hc1) as Hy. erewrite set_next_ok by done. cbn.
    apply NoDup_app in Hn1 as (_ & Hyl & _). eexists. split_and!.
    + do 3 f_equal. destruct l1; done.
    + eapply chain_set_last; [set_solver|done].
    + intros z Hz. rewrite lookup_insert_ne; [done|set_solver].
Qed.
Lemma remove_right_ok l1 x l2 nodes h :
  x ∉ l2 -> NoDup l2 -> nodes !! x = Some (mkPointers (last_or None l1) (first_or None l2)) -> chain nodes (Some x) l2 None ->
  exists nodes', remove_right x (mkListMem (mkLinkedList h (last (l1 ++ x :: l2))) nodes) = (Ok true, mkListMem (mkLinkedList h (last (l1 ++ l2))) nodes') /\
    chain nodes' (last_or None l1) l2 None /\ (forall y, y ∉ l2 -> nodes' !! y = nodes !! y).
Proof.
  intros Hx2 Hn2 Hx Hc2. unfold remove_right. erewrite get_next_ok by done. cbn [p_next]. destruct l2 as [|y l2]; cbn [first_or].
  - unfold tail_ptr. list_cbn. rewrite last_snoc, bool_decide_true by done. erewrite get_prev_ok by done. unfold set_tail. list_cbn.
    exists nodes. split_and!; [|done|done]. rewrite app_nil_r, last_last_or. done.
  - erewrite get_prev_ok by done. destruct Hc2 as [Hy Hc2]. apply NoDup_cons in Hn2 as [Hyl Hn2]. erewrite set_prev_ok by done. cbn.
    eexists. split; [|split].
    + do 3 f_equal. rewrite !last_app. cbn. rewrite !last_cons. destruct (last l2); done.
    + eapply (chain_set_first _ (Some x)); [done|]. done.
    + intros z Hz. rewrite lookup_insert_ne; [done|set_solver].
Qed.

Lemma filter_not_in (x : Z) (l : list Z) : x ∉ l -> base.filter (λ y, y <> x) l = l.
Proof.
  induction l as [|y l IH]; [done|]. intros [??]%not_elem_of_cons. rewrite filter_cons_True by congruence. by rewrite IH.
Qed.
Lemma remove_ok ids dom s x :
  ll_rep ids dom s -> x ∈ ids -> exists s', remove x s = (Ok (Some x), s') /\ ll_rep (base.filter (λ y, y <> x) ids) dom s'.
Proof.
  intros Hr Hx. pose proof Hr as [Hh Ht Hn Hc Hd Hf]. apply list_elem_of_split in Hx as (l1 & l2 & ->).
  destruct s as [[h t] nodes]. cbn in *. subst h t. pose proof Hc as [_ [Hxp Hc2]]%chain_app.
  pose proof Hn as (Hn1 & Hdj & [Hx2 Hn2]%NoDup_cons)%NoDup_app.
  assert (Hx1 : x ∉ l1) by (intros ?; eapply Hdj; [done|by left]).
  assert (Hj : forall y, y ∈ l2 -> y ∉ l1) by (intros y ? ?; eapply Hdj; [done|by right]).
  assert (Hfl : base.filter (λ y, y <> x) (l1 ++ x :: l2) = l1 ++ l2).
  { rewrite filter_app, filter_cons_False by (intros Hne; by apply Hne). by rewrite !filter_not_in. }
  rewrite Hfl. unfold remove. destruct (remove_left_ok l1 x l2 nodes (last (l1 ++ x :: l2)) Hn Hc) as (n1 & E1 & Hc1 & Hf1).
  st_step E1. cbn [negb]. destruct (remove_right_ok l1 x l2 n1 (head (l1 ++ l2))) as (n2 & E2 & Hc3 & Hf2); [done|done| | |].
  { by rewrite Hf1. }
  { eapply chain_frame; [|done]. intros y Hy. apply Hf1. auto. }
  st_step E2. cbn [negb]. assert (Hx' : n2 !! x = Some (mkPointers (last_or None l1) (first_or None l2))) by (by rewrite Hf2, Hf1).
  erewrite set_next_ok by done. erewrite set_prev_ok by (cbn; apply lookup_insert_eq). cbn. rewrite insert_insert_eq.
  eexists. split; [done|]. split; cbn [lm_list lm_nodes ll_head ll_tail].
  - done.
  - done.
  - apply NoDup_app. split_and!; [done|intros y ? ?; by eapply Hj|done].
  - apply chain_insert; [set_solver|]. apply chain_app. split; [|done]. eapply chain_frame; [|done]. intros y Hy. apply Hf2. set_solver.
  - intros y Hy. apply Hd. set_solver.
  - intros y Hy Hyi. destruct (decide (y = x)) as [->|]; [by rewrite lookup_insert_eq|].
    rewrite lookup_insert_ne, Hf2, Hf1 by set_solver. apply Hf; set_solver.
Qed.

(** A node that is in no list is not touched. *)
Lemma remove_none ids dom s x : ll_rep ids dom s -> x ∈ dom -> x ∉ ids -> remove x s = (Ok None, s).
Proof.
  intros [Hh Ht Hn Hc Hd Hf] Hx Hxi. unfold remove, remove_left. rewrite st_assoc. erewrite get_prev_ok by (by apply Hf). cbn.
  unfold head_ptr. rewrite st_assoc. list_cbn. rewrite bool_decide_false; [done|]. rewrite Hh. destruct ids; cbn; [done|set_solver].
Qed.

(** ** Clients *)

(** [NewNode] makes a node in memory, with [Pointers::new]. *)
Inductive ll_op := NewNode (x : Z) | PushFront (x : Z) | PopBack | Remove (x : Z) | IsEmpty | Last.
Inductive ll_out := OutUnit | OutNode (x : option Z) | OutBool (b : bool).

Definition ll_step (op : ll_op) : M ll_out :=
  match op with
  | NewNode x => _ ← set_pointers x pointers_new; mret OutUnit
  | PushFront x => _ ← push_front x; mret OutUnit
  | PopBack => x ← pop_back; mret (OutNode x)
  | Remove x => x ← remove x; mret (OutNode x)
  | IsEmpty => b ← is_empty; mret (OutBool b)
  | Last => x ← list_last; mret (OutNode x)
  end.
Fixpoint ll_run (ops : list ll_op) : M (list ll_out) :=
  match ops with
  | [] => mret []
  | op :: ops => out ← ll_step op; outs ← ll_run ops; mret (out :: outs)
  end.
Definition ll_start : ListMem := mkListMem linked_list_new ∅.

(** The same on a list [ids], when the nodes are those of [dom]. *)
Definition spec_step (op : ll_op) (ids : list Z) (dom : gset Z) : ll_out * list Z * gset Z :=
  match op with
  | NewNode x => (OutUnit, ids, {[x]} ∪ dom)
  | PushFront x => (OutUnit, x :: ids, dom)
  | PopBack => (OutNode (last ids), removelast ids, dom)
  | Remove x => (OutNode (if decide (x ∈ ids) then Some x else None), base.filter (λ y, y <> x) ids, dom)
  | IsEmpty => (OutBool (bool_decide (ids = [])), ids, dom)
  | Last => (OutNode (last ids), ids, dom)
  end.
(** What the list asks of its clients: the nodes are there, and none is put into the
    list twice. *)
Definition legal_op (op : ll_op) (ids : list Z) (dom : gset Z) : bool :=
  match op with
  | NewNode x => bool_decide (x ∉ dom)
  | PushFront x => bool_decide (x ∈ dom /\ x ∉ ids)
  | Remove x => bool_decide (x ∈ dom)
  | _ => true
  end.
Fixpoint spec_run (ops : list ll_op) (ids : list Z) (dom : gset Z) : option (list ll_out * list Z) :=
  match ops with
  | [] => Some ([], ids)
  | op :: ops =>
      if legal_op op ids dom then
        let '(out, ids, dom) := spec_step op ids dom in
        '(outs, ids) ← spec_run ops ids dom; Some (out :: outs, ids)
      else None
  end.
(** The nodes that were made. *)
Definition made (ops : list ll_op) : gset Z :=
  list_to_set (omap (λ op, match op with NewNode x => Some x | _ => None end) ops).
Lemma elem_of_made ops x : x ∈ made ops <-> NewNode x ∈ ops.
Proof.
  unfold made. rewrite elem_of_list_to_set, list_elem_of_omap. split; [|intros; by exists (NewNode x)].
  intros (op & Hop & E). destruct op; try done. by injection E as ->.
Qed.
Lemma spec_step_made op ops ids dom : (spec_step op ids dom).2 ∪ made ops = dom ∪ made (op :: ops).
Proof. unfold made. destruct op; cbn; set_solver. Qed.

Lemma ll_step_ok op ids dom s :
  ll_rep ids dom s -> legal_op op ids dom = true ->
  exists s', ll_step op s = (Ok (spec_step op ids dom).1.1, s') /\ ll_rep (spec_step op ids dom).1.2 (spec_step op ids dom).2 s'.
Proof.
  intros Hr Hl. destruct op as [x|x| |x| |]; cbn in *; try apply bool_decide_eq_true in Hl.
  - eexists. split; [done|]. destruct Hr as [Hh Ht Hn Hc Hd Hf]. assert (Hxi : x ∉ ids) by (intros ?; by apply Hl, Hd).
    split; cbn; [done|done|done|by apply chain_insert|set_solver|].
    intros y Hy Hyi. destruct (decide (y = x)) as [->|]; [by rewrite lookup_insert_eq|]. rewrite lookup_insert_ne by done. apply Hf; set_solver.
  - destruct (push_front_ok ids dom s x Hr) as (s' & E & Hr'); [naive_solver..|]. st_step E. by eexists.
  - destruct (pop_back_ok ids dom s Hr) as (s' & E & Hr'). st_step E. by eexists.
  - destruct (decide (x ∈ ids)) as [Hx|Hx].
    + destruct (remove_ok ids dom s x Hr Hx) as (s' & E & Hr'). st_step E. by eexists.
    + st_step (remove_none ids dom s x Hr Hl Hx). eexists. split; [done|]. by rewrite filter_not_in.
  - st_step (is_empty_ok ids dom s Hr). by eexists.
  - eexists. split; [|done]. cbv [list_last tail_ptr gets mbind st_bind mret st_ret]. by rewrite (lr_tail _ _ _ Hr).
Qed.

Lemma ll_run_ok ops ids dom s outs ids' :
  ll_rep ids dom s -> spec_run ops ids dom = Some (outs, ids') ->
  exists s', ll_run ops s = (Ok outs, s') /\ ll_rep ids' (dom ∪ made ops) s'.
Proof.
  revert ids dom s outs. induction ops as [|op ops IH]; intros ids dom s outs Hr; cbn [spec_run ll_run].
  { intros [= <- <-]. exists s. split; [done|]. change (made []) with (∅ : gset Z). by rewrite union_empty_r_L. }
  destruct (legal_op op ids dom) eqn:Hl; [|done]. destruct (ll_step_ok op ids dom s Hr Hl) as (s1 & E & Hr1).
  pose proof (spec_step_made op ops ids dom) as Hm.
  destruct (spec_step op ids dom) as [[out ids1] dom1]. intros ([outs1 ids2] & Hs & [= <- <-])%bind_Some.
  destruct (IH _ _ _ _ Hr1 Hs) as (s' & E' & Hr'). st_step E. st_step E'. exists s'. split; [done|]. by rewrite <- Hm.
Qed.

(** [C28] The linked list is a list: on every sequence of operations that is legal for a
    list (a node is made once, pushed when it was made and is not in the list, removed
    when it was made), the pointer operations follow no bad pointer, violate no assertion,
    and give what the operations on the list give; at the end, the head and the tail point
    to the ends of the list, the pointers of its nodes lead through it in order and back,
    with null pointers at both ends, and every node that was made and is not in the list,
    whether it was never pushed, popped or removed, has null pointers. *)
Theorem linked_list_refines ops outs ids :
  spec_run ops [] ∅ = Some (outs, ids) ->
  exists s, ll_run ops ll_start = (Ok outs, s) /\ NoDup ids /\
    ll_head (lm_list s) = head ids /\ ll_tail (lm_list s) = last ids /\
    (forall i x, ids !! i = Some x ->
       lm_nodes s !! x = Some (mkPointers (match i with O => None | S j => ids !! j end) (ids !! S i))) /\
    (forall x, NewNode x ∈ ops -> x ∉ ids -> lm_nodes s !! x = Some (mkPointers None None)).
Proof.
  intros Hs. destruct (ll_run_ok ops [] ∅ ll_start outs ids) as (s & E & [Hh Ht Hn Hc Hd Hf]); [|done|].
  { split; [done|done|constructor|done| |]; set_solver. }
  exists s. split_and!; [done|done|done|done|intros i x; by apply node_pointers|].
  intros x Hx%elem_of_made Hni. apply Hf; set_solver.
Qed.

Lemma linked_list_refines_witness : exists ids s, ids = [3; 1] /\ (exists outs,
  ll_run [NewNode 1; NewNode 2; NewNode 3; NewNode 4; PushFront 4; PushFront 1; PushFront 2; PushFront 3; Remove 2; Remove 2; PopBack; Last; IsEmpty] ll_start = (Ok outs, s)) /\
  lm_nodes s !! 3 = Some (mkPointers None (Some 1)) /\ lm_nodes s !! 2 = Some (mkPointers None None).
Proof.
  destruct (linked_list_refines [NewNode 1; NewNode 2; NewNode 3; NewNode 4; PushFront 4; PushFront 1; PushFront 2; PushFront 3; Remove 2; Remove 2; PopBack; Last; IsEmpty]
    [OutUnit; OutUnit; OutUnit; OutUnit; OutUnit; OutUnit; OutUnit; OutUnit; OutNode (Some 2); OutNode None; OutNode (Some 4); OutNode (Some 1); OutBool false] [3; 1])
    as (s & E & _ & _ & _ & Hin & Hout); [by vm_compute|].
  exists [3; 1], s. split; [done|]. split; [by eexists|]. split; [by apply (Hin 0%nat)|]. apply Hout.
  - right. by left.
  - intros H. rewrite !elem_of_cons in H. destruct H as [?|[?|[]%not_elem_of_nil]]; lia.
Defined.
