(* ===== verification/Latch.v ===== *)
(** * The latch ([util/latch.rs])

    A counter that opens once: [wait] makes a future, [count_down] counts, and when the
    expected count is reached the wakers that the futures left are called and every
    future is ready. A write buffer has one, on which the clients of a flush wait. Each
    operation runs under the lock, so a history is a sequence of operations. The futures
    are kept in a map, a waker is the id of its task, and the wakers that were called are
    logged. *)

From stdpp Require Import base numbers list gmap.
From Stdlib Require Import ZArith Lia.
From S2P Require Import Prelude.

(** ** The data *)

Record LatchCore := mkLatchCore { lc_count : Z; lc_next_id : Z; lc_wakers : gmap Z Z }.
Record Latch := mkLatch { la_expect : Z; la_core : LatchCore }.
Inductive WaitState := Pending | Waiting (id : Z) | Done.

(** A latch with its futures, the log of the wakers called, and for the proofs the task
    of the last poll of a future that was left pending, with the length of the log. *)
Record LatchSys := mkLatchSys {
  ls_latch : Latch;
  ls_waiters : gmap Z WaitState;
  ls_woken : list Z;
  ls_polled : gmap Z (Z * nat);
}.

(** ** Operations *)

Definition latch_new (expect : Z) : Latch := mkLatch expect (mkLatchCore 0 1 ∅).
Definition latch_wait : WaitState := Pending.

(** The latch, and the wakers to call. *)
Definition count_down (l : Latch) : res (list Z * Latch) :=
  let core := la_core l in
  let count := wrap64 (lc_count core + 1) in
  _ ← rassert (count <=? la_expect l);
  if count =? la_expect l then Ok ((map_to_list (lc_wakers core)).*2, mkLatch (la_expect l) (mkLatchCore count (lc_next_id core) ∅))
  else Ok ([], mkLatch (la_expect l) (mkLatchCore count (lc_next_id core) (lc_wakers core))).

(** [true] is [Poll::Ready]. *)
Definition poll_wait (task : Z) (state : WaitState) (l : Latch) : bool * WaitState * Latch :=
  let core := la_core l in
  let with_core c := mkLatch (la_expect l) c in
  match state with
  | Pending =>
      if lc_count core =? la_expect l then (true, Done, l)
      else
        let id := lc_next_id core in
        (false, Waiting id, with_core (mkLatchCore (lc_count core) (wrap64 (id + 1)) (<[id := task]> (lc_wakers core))))
  | Waiting id =>
      if lc_count core =? la_expect l
      then (true, Done, with_core (mkLatchCore (lc_count core) (lc_next_id core) (delete id (lc_wakers core))))
      else (false, state, with_core (mkLatchCore (lc_count core) (lc_next_id core) (<[id := task]> (lc_wakers core))))
  | Done => (true, Done, l)
  end.

Definition waiter_drop (state : WaitState) (l : Latch) : Latch :=
  match state with
  | Waiting id => mkLatch (la_expect l) (mkLatchCore (lc_count (la_core l)) (lc_next_id (la_core l)) (delete id (lc_wakers (la_core l))))
  | _ => l
  end.

(** ** Histories *)

Inductive latch_op := Wait (w : Z) | Poll (w task : Z) | CountDown | DropWaiter (w : Z).

Definition latch_step (op : latch_op) (s : LatchSys) : res LatchSys :=
  match op with
  | Wait w => Ok (mkLatchSys (ls_latch s) (<[w := latch_wait]> (ls_waiters s)) (ls_woken s) (ls_polled s))
  | Poll w task =>
      st ← expect (ls_waiters s !! w);
      let '(ready, st, l) := poll_wait task st (ls_latch s) in
      Ok (mkLatchSys l (<[w := st]> (ls_waiters s)) (ls_woken s)
            (if ready : bool then delete w (ls_polled s) else <[w := (task, length (ls_woken s))]> (ls_polled s)))
  | CountDown =>
      '(wakers, l) ← count_down (ls_latch s);
      Ok (mkLatchSys l (ls_waiters s) (ls_woken s ++ wakers) (ls_polled s))
  | DropWaiter w =>
      st ← expect (ls_waiters s !! w);
      Ok (mkLatchSys (waiter_drop st (ls_latch s)) (delete w (ls_waiters s)) (ls_woken s) (delete w (ls_polled s)))
  end.
Fixpoint latch_run (ops : list latch_op) (s : LatchSys) : res LatchSys :=
  match ops with
  | [] => Ok s
  | op :: ops => s ← latch_step op s; latch_run ops s
  end.
Definition latch_start (expect : Z) : LatchSys := mkLatchSys (latch_new expect) ∅ [] ∅.

(** What the latch asks of its clients: a future is made before it is polled, is not used
    after its drop, and at most [left] more are counted. *)
Fixpoint latch_legal (ops : list latch_op) (ws : gset Z) (left : Z) : bool :=
  match ops with
  | [] => true
  | Wait w :: ops => bool_decide (w ∉ ws) && latch_legal ops ({[w]} ∪ ws) left
  | Poll w _ :: ops => bool_decide (w ∈ ws) && latch_legal ops ws left
  | CountDown :: ops => (0 <? left) && latch_legal ops ws (left - 1)
  | DropWaiter w :: ops => bool_decide (w ∈ ws) && latch_legal ops (ws ∖ {[w]}) left
  end.
Fixpoint downs (ops : list latch_op) : Z :=
  match ops with [] => 0 | CountDown :: ops => 1 + downs ops | _ :: ops => downs ops end.

(** ** The invariant *)

Definition opened (l : Latch) : Prop := lc_count (la_core l) = la_expect l.

(** What a future that waits with the id [id] is owed: its waker is kept, or was called. *)
Definition owed (s : LatchSys) (id task : Z) (k : nat) : Prop :=
  (opened (ls_latch s) -> task ∈ drop k (ls_woken s)) /\
  (~ opened (ls_latch s) -> lc_wakers (la_core (ls_latch s)) !! id = Some task).

Record latch_inv (expect : Z) (ws : gset Z) (n : Z) (s : LatchSys) : Prop := {
  li_expect : la_expect (ls_latch s) = expect;
  li_count : 0 <= lc_count (la_core (ls_latch s)) <= expect;
  li_next : 1 <= lc_next_id (la_core (ls_latch s)) <= 1 + n;
  li_dom : forall w, w ∈ ws <-> is_Some (ls_waiters s !! w);
  li_id : forall w id, ls_waiters s !! w = Some (Waiting id) -> id < lc_next_id (la_core (ls_latch s));
  li_inj : forall w w' id, ls_waiters s !! w = Some (Waiting id) -> ls_waiters s !! w' = Some (Waiting id) -> w = w';
  li_owed : forall w id, ls_waiters s !! w = Some (Waiting id) ->
    exists task k, ls_polled s !! w = Some (task, k) /\ (k <= length (ls_woken s))%nat /\ owed s id task k;
  li_polled : forall w p, ls_polled s !! w = Some p -> exists id, ls_waiters s !! w = Some (Waiting id);
  li_done : forall w, ls_waiters s !! w = Some Done -> opened (ls_latch s);
}.

Lemma latch_start_inv expect : 0 <= expect -> latch_inv expect ∅ 0 (latch_start expect).
Proof. intros He. split; cbn; [done|lia|lia| |done..]. intros w. rewrite lookup_empty. split; [set_solver|by intros [? ?]]. Qed.

Section steps.
Context (ex : Z) (He : 0 <= ex < 2 ^ 64).

Lemma wait_inv ws n s w : latch_inv ex ws n s -> w ∉ ws -> 0 <= n ->
  exists s', latch_step (Wait w) s = Ok s' /\ latch_inv ex ({[w]} ∪ ws) (n + 1) s'.
Proof.
  intros Hi Hw Hn. destruct Hi as [E C N D I J O P F]. eexists. split; [done|].
  assert (Hwn : ls_waiters s !! w = None) by (apply eq_None_not_Some; by rewrite <- D).
  assert (Hl : forall v st, <[w := latch_wait]> (ls_waiters s) !! v = Some st -> st <> Pending -> ls_waiters s !! v = Some st).
  { intros v st [[_ <-]|[_ ?]]%lookup_insert_Some Hst; [done|done]. }
  split; cbn; [done|lia|lia| | | | | |].
  - intros v. rewrite elem_of_union, elem_of_singleton, D, lookup_insert_is_Some. naive_solver.
  - intros v id Hv. by eapply I, Hl.
  - intros v v' id Hv Hv'. eapply J; by eapply Hl.
  - intros v id Hv. by eapply O, Hl.
  - intros v p Hv. destruct (P _ _ Hv) as [id Hid]. exists id. rewrite lookup_insert_ne; [done|congruence].
  - intros v Hv. by eapply F, Hl.
Qed.

(** An open latch is ready for every future. *)
Lemma poll_opened task st l : opened l ->
  exists l', poll_wait task st l = (true, Done, l') /\ la_expect l' = la_expect l /\ opened l' /\ lc_next_id (la_core l') = lc_next_id (la_core l).
Proof.
  intros Ho. unfold opened in *. unfold poll_wait. rewrite (proj2 (Z.eqb_eq _ _) Ho). destruct st; eexists; split_and!; try done.
Qed.

(** A future that is ready leaves nothing to be owed. *)
Lemma poll_ready_inv ws n s w l' :
  latch_inv ex ws n s -> w ∈ ws -> 0 <= n -> opened (ls_latch s) ->
  la_expect l' = la_expect (ls_latch s) -> opened l' -> lc_next_id (la_core l') = lc_next_id (la_core (ls_latch s)) ->
  latch_inv ex ws (n + 1) (mkLatchSys l' (<[w := Done]> (ls_waiters s)) (ls_woken s) (delete w (ls_polled s))).
Proof.
  intros [E C N D I J O P F] Hw Hn Ho El Ho' En. unfold opened in *. split; cbn; [congruence|congruence|lia| | | | | |].
  - intros v. rewrite lookup_insert_is_Some, D. apply D in Hw. destruct (decide (w = v)) as [->|]; naive_solver.
  - intros v id [[_ [=]]|[_ Hv]]%lookup_insert_Some. rewrite En. by eapply I.
  - intros v v' id [[_ [=]]|[_ Hv]]%lookup_insert_Some [[_ [=]]|[_ Hv']]%lookup_insert_Some. by eapply J.
  - intros v id [[_ [=]]|[Hne Hv]]%lookup_insert_Some. destruct (O _ _ Hv) as (t & k & Hp & Hk & Hw1 & Hw2).
    exists t, k. rewrite lookup_delete_ne by done. split_and!; [done|done|]. split; cbn; [auto|done].
  - intros v q [Hne Hv]%lookup_delete_Some. destruct (P _ _ Hv) as [id Hid]. exists id. by rewrite lookup_insert_ne.
  - done.
Qed.

(** A future that is left pending with the id [id], which no other one has. *)
Lemma poll_pending_inv ws n s w task id next :
  latch_inv ex ws n s -> w ∈ ws -> ~ opened (ls_latch s) -> id < next <= 1 + n + 1 -> lc_next_id (la_core (ls_latch s)) <= next ->
  (forall v, ls_waiters s !! v = Some (Waiting id) -> v = w) ->
  latch_inv ex ws (n + 1) (mkLatchSys
    (mkLatch (la_expect (ls_latch s)) (mkLatchCore (lc_count (la_core (ls_latch s))) next (<[id := task]> (lc_wakers (la_core (ls_latch s))))))
    (<[w := Waiting id]> (ls_waiters s)) (ls_woken s) (<[w := (task, length (ls_woken s))]> (ls_polled s))).
Proof.
  intros [E C N D I J O P F] Hw Ho Hid Hnext Hu. unfold opened in *. split; cbn; [done|done|lia| | | | | |].
  - intros v. rewrite lookup_insert_is_Some, D. apply D in Hw. destruct (decide (w = v)) as [->|]; naive_solver.
  - intros v i [[_ [= <-]]|[_ Hv]]%lookup_insert_Some; [lia|]. apply I in Hv. lia.
  - intros v v' i [[Ev E1]|[Hne Hv]]%lookup_insert_Some [[Ev' E2]|[Hne' Hv']]%lookup_insert_Some; simplify_eq;
      [done|by rewrite (Hu _ Hv')|by rewrite (Hu _ Hv)|by eapply J].
  - intros v i [[-> [= <-]]|[Hne Hv]]%lookup_insert_Some.
    + exists task, (length (ls_woken s)). rewrite lookup_insert_eq. split_and!; [done|done|]. split; cbn; [done|by rewrite lookup_insert_eq].
    + destruct (O _ _ Hv) as (t & k & Hp & Hk & Hw1 & Hw2). exists t, k. rewrite lookup_insert_ne by done. split_and!; [done|done|].
      split; cbn; [auto|]. intros Hx. rewrite lookup_insert_ne; [by apply Hw2|]. intros ->. by rewrite (Hu _ Hv) in Hne.
  - intros v q [[-> _]|[Hne Hv]]%lookup_insert_Some; [exists id; by rewrite lookup_insert_eq|].
    destruct (P _ _ Hv) as [i Hi]. exists i. by rewrite lookup_insert_ne.
  - intros v [[_ [=]]|[_ Hv]]%lookup_insert_Some. by destruct Ho; eapply F.
Qed.

Lemma poll_inv ws n s w task : latch_inv ex ws n s -> w ∈ ws -> 0 <= n -> n + 2 < 2 ^ 64 ->
  exists s', latch_step (Poll w task) s = Ok s' /\ latch_inv ex ws (n + 1) s' /\ lc_count (la_core (ls_latch s')) = lc_count (la_core (ls_latch s)).
Proof.
  intros Hi Hw Hn Hm. pose proof Hi as [E C N D I J O P F]. apply D in Hw as Hst. destruct Hst as [st Hst].
  cbn [latch_step]. rewrite Hst. cbn [expect mbind res_bind]. destruct (decide (lc_count (la_core (ls_latch s)) = la_expect (ls_latch s))) as [Ho|Ho].
  - destruct (poll_opened task st _ Ho) as (l' & -> & El & Ho' & En). eexists. split; [done|]. split; [by apply poll_ready_inv|].
    unfold opened in *. cbn. congruence.
  - apply Z.eqb_neq in Ho as Ho'. unfold poll_wait. destruct st as [|id|]; rewrite ?Ho'.
    + eexists. split; [done|]. split; [|done]. rewrite (wrap_small 64) by (unfold fits; lia).
      apply poll_pending_inv; [done|done|done|lia|lia|]. intros v Hv. apply I in Hv. lia.
    + eexists. split; [done|]. split; [|done]. apply I in Hst as Hid.
      apply poll_pending_inv; [done|done|done|lia|lia|]. intros v Hv. by eapply J.
    + by apply F in Hst.
Qed.

Lemma drop_inv ws n s w : latch_inv ex ws n s -> w ∈ ws -> 0 <= n ->
  exists s', latch_step (DropWaiter w) s = Ok s' /\ latch_inv ex (ws ∖ {[w]}) (n + 1) s' /\ lc_count (la_core (ls_latch s')) = lc_count (la_core (ls_latch s)).
Proof.
  intros Hi Hw Hn. pose proof Hi as [E C N D I J O P F]. apply D in Hw as Hst. destruct Hst as [st Hst].
  cbn [latch_step]. rewrite Hst. cbn [expect mbind res_bind]. eexists. split; [done|]. cbn.
  assert (Hc : la_expect (waiter_drop st (ls_latch s)) = la_expect (ls_latch s) /\
    lc_count (la_core (waiter_drop st (ls_latch s))) = lc_count (la_core (ls_latch s)) /\
    lc_next_id (la_core (waiter_drop st (ls_latch s))) = lc_next_id (la_core (ls_latch s))) by (by destruct st).
  destruct Hc as (Hc1 & Hc2 & Hc3). split; [|done]. unfold opened in *. split; cbn; rewrite ?Hc1, ?Hc2, ?Hc3; [done|done|lia| | | | | |].
  - intros v. rewrite elem_of_difference, elem_of_singleton, D, lookup_delete_is_Some. naive_solver.
  - intros v id [_ Hv]%lookup_delete_Some. by eapply I.
  - intros v v' id [_ Hv]%lookup_delete_Some [_ Hv']%lookup_delete_Some. by eapply J.
  - intros v id [Hne Hv]%lookup_delete_Some. destruct (O _ _ Hv) as (t & k & Hp & Hk & Hw1 & Hw2).
    exists t, k. rewrite lookup_delete_ne by done. split_and!; [done|done|]. unfold owed, opened. cbn. rewrite Hc1, Hc2. split; [done|].
    intros Hx. destruct st as [|i|]; cbn; [by apply Hw2| |by apply Hw2]. rewrite lookup_delete_ne; [by apply Hw2|].
    intros ->. apply Hne. by eapply J.
  - intros v q [Hne Hv]%lookup_delete_Some. destruct (P _ _ Hv) as [id Hid]. exists id. by rewrite lookup_delete_ne.
  - intros v [_ Hv]%lookup_delete_Some. apply F in Hv. unfold opened. congruence.
Qed.

Lemma count_down_inv ws n s : latch_inv ex ws n s -> 0 <= n -> lc_count (la_core (ls_latch s)) < ex ->
  exists s', latch_step CountDown s = Ok s' /\ latch_inv ex ws (n + 1) s' /\ lc_count (la_core (ls_latch s')) = lc_count (la_core (ls_latch s)) + 1.
Proof.
  intros [E C N D I J O P F] Hn Hlt. cbn [latch_step]. unfold count_down. rewrite (wrap_small 64) by (unfold fits; lia).
  rewrite rassert_true by (apply Z.leb_le; lia). cbn [mbind res_bind]. unfold opened in *.
  assert (Hno : lc_count (la_core (ls_latch s)) <> la_expect (ls_latch s)) by lia.
  destruct (_ =? _) eqn:Ee; cbn [mbind res_bind]; eexists; (split; [done|]); (split; [|done]).
  - apply Z.eqb_eq in Ee. split; unfold opened; cbn; [done|lia|lia|done|done|done| |done|].
    + intros v id Hv. destruct (O _ _ Hv) as (t & k & Hp & Hk & _ & Hw2). exists t, k. rewrite length_app. split_and!; [done|lia|].
      split; unfold opened; cbn; [intros _|done]. rewrite drop_app_le by done. apply elem_of_app. right.
      apply list_elem_of_fmap. exists (id, t). split; [done|]. apply elem_of_map_to_list. by apply Hw2.
    + intros v Hv. done.
  - apply Z.eqb_neq in Ee. split; unfold opened; cbn; [done|lia|lia|done|done|done| |done|].
    + intros v id Hv. destruct (O _ _ Hv) as (t & k & Hp & Hk & _ & Hw2). exists t, k. rewrite length_app. split_and!; [done|lia|].
      split; unfold opened; cbn; [done|]. intros _. by apply Hw2.
    + intros v Hv. apply F in Hv. done.
Qed.
End steps.

Lemma latch_run_ok ex ops : 0 <= ex < 2 ^ 64 ->
  forall ws n s, latch_inv ex ws n s -> 0 <= n -> n + Z.of_nat (length ops) + 2 < 2 ^ 64 ->
  latch_legal ops ws (ex - lc_count (la_core (ls_latch s))) = true ->
  exists s' ws', latch_run ops s = Ok s' /\ latch_inv ex ws' (n + Z.of_nat (length ops)) s' /\
    lc_count (la_core (ls_latch s')) = lc_count (la_core (ls_latch s)) + downs ops.
Proof.
  intros He. induction ops as [|op ops IH]; intros ws n s Hi Hn Hm Hl; cbn [length latch_run downs] in *.
  { exists s, ws. split_and!; [done| |lia]. by replace (n + Z.of_nat 0) with n by lia. }
  rewrite Nat2Z.inj_succ in *. destruct op as [w|w task| |w]; cbn [latch_legal] in Hl;
    apply andb_true_iff in Hl as [Hw Hl]; try apply bool_decide_eq_true in Hw.
  - destruct (wait_inv ex He ws n s w Hi Hw Hn) as (s1 & E1 & Hi1). assert (ls_latch s1 = ls_latch s) by (cbn in E1; by injection E1 as <-).
    rewrite E1. cbn [mbind res_bind]. destruct (IH _ (n + 1) s1 Hi1) as (s' & ws' & E' & Hi' & Hc); [lia|lia|congruence|].
    exists s', ws'. split_and!; [done| |congruence]. by replace (n + Z.succ _) with (n + 1 + Z.of_nat (length ops)) by lia.
  - destruct (poll_inv ex He ws n s w task Hi Hw Hn) as (s1 & E1 & Hi1 & Hc1); [lia|]. rewrite E1. cbn [mbind res_bind].
    destruct (IH _ (n + 1) s1 Hi1) as (s' & ws' & E' & Hi' & Hc); [lia|lia|congruence|].
    exists s', ws'. split_and!; [done| |congruence]. by replace (n + Z.succ _) with (n + 1 + Z.of_nat (length ops)) by lia.
  - apply Z.ltb_lt in Hw. destruct (count_down_inv ex He ws n s Hi Hn) as (s1 & E1 & Hi1 & Hc1); [lia|]. rewrite E1. cbn [mbind res_bind].
    destruct (IH _ (n + 1) s1 Hi1) as (s' & ws' & E' & Hi' & Hc); [lia|lia|rewrite Hc1; by replace (ex - (lc_count (la_core (ls_latch s)) + 1)) with (ex - lc_count (la_core (ls_latch s)) - 1) by lia|].
    exists s', ws'. split_and!; [done| |lia]. by replace (n + Z.succ _) with (n + 1 + Z.of_nat (length ops)) by lia.
  - destruct (drop_inv ex He ws n s w Hi Hw Hn) as (s1 & E1 & Hi1 & Hc1). rewrite E1. cbn [mbind res_bind].
    destruct (IH _ (n + 1) s1 Hi1) as (s' & ws' & E' & Hi' & Hc); [lia|lia|congruence|].
    exists s', ws'. split_and!; [done| |congruence]. by replace (n + Z.succ _) with (n + 1 + Z.of_nat (length ops)) by lia.
Qed.

(** No future of a latch sleeps through its opening. On every legal history of fewer
    than 2^64 operations (futures are made before they are polled, and no more is counted
    than expected) nothing panics; a poll is ready exactly when as many have been counted
    as were expected; and once they have, the task that polled a pending future last has
    been woken since that poll. *)
Theorem latch_wakes expect ops :
  0 <= expect < 2 ^ 64 -> Z.of_nat (length ops) + 2 < 2 ^ 64 -> latch_legal ops ∅ expect = true ->
  exists s, latch_run ops (latch_start expect) = Ok s /\
    (forall w st task, ls_waiters s !! w = Some st -> (poll_wait task st (ls_latch s)).1.1 = bool_decide (downs ops = expect)) /\
    (forall w task k, ls_polled s !! w = Some (task, k) -> downs ops = expect -> task ∈ drop k (ls_woken s)).
Proof.
  intros He Hm Hl. destruct (latch_run_ok expect ops He ∅ 0 (latch_start expect)) as (s & ws & E & [I1 I2 I3 D I J O P F] & Hc);
    [apply latch_start_inv; lia|lia|lia|cbn; by rewrite Z.sub_0_r|]. cbn in Hc.
  exists s. split; [done|]. split.
  - intros w st task Hw. case_bool_decide as Hd.
    + destruct (poll_opened task st (ls_latch s)) as (l' & -> & _); [unfold opened; lia|done].
    + assert (Ho : lc_count (la_core (ls_latch s)) =? la_expect (ls_latch s) = false) by (apply Z.eqb_neq; lia).
      destruct st; cbn; rewrite ?Ho; [done|done|]. apply F in Hw. unfold opened in Hw. lia.
  - intros w task k Hp Hd. destruct (P _ _ Hp) as [id Hid]. destruct (O _ _ Hid) as (t & k' & Hp' & _ & Ht & _).
    rewrite Hp in Hp'. injection Hp' as <- <-. apply Ht. unfold opened. lia.
Qed.

Lemma latch_wakes_witness : exists s,
  latch_run [Wait 1; Wait 2; Poll 1 10; CountDown; Poll 2 20; Poll 1 11; DropWaiter 2; CountDown] (latch_start 2) = Ok s /\ 11 ∈ ls_woken s.
Proof.
  destruct (latch_wakes 2 [Wait 1; Wait 2; Poll 1 10; CountDown; Poll 2 20; Poll 1 11; DropWaiter 2; CountDown]) as (s & E & _ & Hs); [lia|by vm_compute|by vm_compute|].
  exists s. split; [done|]. vm_compute in E. injection E as <-. apply (Hs 1 11 0%nat); reflexivity.
Defined.
