(* ===== verification/Shutdown.v ===== *)
(** * The shutdown signal ([util/shutdown.rs])

    The jobs of a store wait for their work or for the signal: a [Shutdown] is a future
    that is ready once [terminate] was called, and [with_shutdown] runs another future
    until then. The wakers are kept under the address of the future that was polled.
    Each operation runs under the lock, so a history is a sequence of operations; a waker
    is the id of its task, and the wakers that were called are logged. *)

From stdpp Require Import base numbers list gmap.
From Stdlib Require Import ZArith Lia.
From S2P Require Import Prelude.

(** ** Operations *)

Record ShutdownCore := mkShutdownCore { sc_closed : bool; sc_wakers : gmap Z Z }.

Definition shutdown_new : ShutdownCore := mkShutdownCore false ∅.
Definition is_terminated (core : ShutdownCore) : bool := sc_closed core.

(** Polling the future at the address [id]; [true] is [Poll::Ready]. *)
Definition shutdown_poll (id task : Z) (core : ShutdownCore) : bool * ShutdownCore :=
  if sc_closed core then (true, core) else (false, mkShutdownCore (sc_closed core) (<[id := task]> (sc_wakers core))).

(** The wakers to call, and the core. *)
Definition terminate (core : ShutdownCore) : list Z * ShutdownCore :=
  ((map_to_list (sc_wakers core)).*2, mkShutdownCore true ∅).

(** Polling [with_shutdown(shutdown, value)], where [value] is the outcome of polling the
    other future; [None] is [Poll::Pending]. *)
Definition with_shutdown_poll {A} (value : option A) (id task : Z) (core : ShutdownCore) : option (option A) * ShutdownCore :=
  match value with
  | Some v => (Some (Some v), core)
  | None => let '(ready, core) := shutdown_poll id task core in (if ready then Some None else None, core)
  end.

(** ** Histories *)

(** The core with the log of the wakers called, and for the proofs the task of the last
    poll that was left pending at an address, with the length of the log. *)
Record ShutdownSys := mkShutdownSys {
  ss_core : ShutdownCore;
  ss_woken : list Z;
  ss_polled : gmap Z (Z * nat);
}.
Inductive shutdown_op := PollShutdown (id task : Z) | PollWith (value : option Z) (id task : Z) | Terminate.

Definition polled_at (ready : bool) (id task : Z) (s : ShutdownSys) : gmap Z (Z * nat) :=
  if ready then delete id (ss_polled s) else <[id := (task, length (ss_woken s))]> (ss_polled s).
Definition shutdown_step (op : shutdown_op) (s : ShutdownSys) : ShutdownSys :=
  match op with
  | PollShutdown id task =>
      let '(ready, core) := shutdown_poll id task (ss_core s) in mkShutdownSys core (ss_woken s) (polled_at ready id task s)
  | PollWith value id task =>
      let '(out, core) := with_shutdown_poll value id task (ss_core s) in
      mkShutdownSys core (ss_woken s) (polled_at (bool_decide (out <> None)) id task s)
  | Terminate => let '(wakers, core) := terminate (ss_core s) in mkShutdownSys core (ss_woken s ++ wakers) (ss_polled s)
  end.
Definition shutdown_run (ops : list shutdown_op) : ShutdownSys := fold_left (λ s op, shutdown_step op s) ops (mkShutdownSys shutdown_new [] ∅).
Definition terminated_in (ops : list shutdown_op) : bool := existsb (λ op, match op with Terminate => true | _ => false end) ops.

(** ** No task sleeps through the signal *)

Record shutdown_inv (closed : bool) (s : ShutdownSys) : Prop := {
  si_closed : sc_closed (ss_core s) = closed;
  si_polled : forall id task k, ss_polled s !! id = Some (task, k) -> (k <= length (ss_woken s))%nat /\
    if closed then task ∈ drop k (ss_woken s) else sc_wakers (ss_core s) !! id = Some task;
}.

Lemma shutdown_poll_inv closed s id task : shutdown_inv closed s ->
  shutdown_inv closed (mkShutdownSys (shutdown_poll id task (ss_core s)).2 (ss_woken s) (polled_at (shutdown_poll id task (ss_core s)).1 id task s)).
Proof.
  intros [C P]. unfold shutdown_poll, polled_at. rewrite C. destruct closed; (split; [done|]); cbn; intros i t k.
  - intros [_ Hi]%lookup_delete_Some. exact (P _ _ _ Hi).
  - intros [[-> [= <- <-]]|[Hne Hi]]%lookup_insert_Some; [by rewrite lookup_insert_eq|]. rewrite lookup_insert_ne by done. exact (P _ _ _ Hi).
Qed.
Lemma shutdown_forget_inv closed s id : shutdown_inv closed s -> shutdown_inv closed (mkShutdownSys (ss_core s) (ss_woken s) (delete id (ss_polled s))).
Proof. intros [C P]. split; [done|]. cbn. intros i t k [_ Hi]%lookup_delete_Some. exact (P _ _ _ Hi). Qed.

Lemma shutdown_step_inv closed op s : shutdown_inv closed s -> shutdown_inv (closed || terminated_in [op]) (shutdown_step op s).
Proof.
  intros Hi. destruct op as [id task|value id task|]; cbn [shutdown_step terminated_in existsb]; rewrite ?orb_false_r.
  - pose proof (shutdown_poll_inv closed s id task Hi) as H. by destruct (shutdown_poll id task (ss_core s)).
  - unfold with_shutdown_poll. destruct value as [v|]; [by apply shutdown_forget_inv|].
    pose proof (shutdown_poll_inv closed s id task Hi) as H. by destruct (shutdown_poll id task (ss_core s)) as [[] core].
  - destruct Hi as [C P]. split; cbn; [by rewrite orb_true_r|]. intros i t k Hp. destruct (P _ _ _ Hp) as [Hk Ht].
    rewrite length_app, orb_true_r. split; [lia|]. rewrite drop_app_le by done. apply elem_of_app. destruct closed; [by left|right].
    apply list_elem_of_fmap. exists (i, t). split; [done|]. by apply elem_of_map_to_list.
Qed.

Lemma shutdown_run_inv ops : shutdown_inv (terminated_in ops) (shutdown_run ops).
Proof.
  unfold shutdown_run. induction ops as [|op ops IH] using rev_ind; [by split|].
  rewrite fold_left_app. unfold terminated_in in *. rewrite existsb_app. cbn [fold_left]. by apply (shutdown_step_inv _ op) in IH.
Qed.

(** No task sleeps through a shutdown. After every history of polls and of calls of
    [terminate]: a [Shutdown] is ready exactly when [terminate] was called; a future under
    [with_shutdown] gives its value when it has one, also after the shutdown, and otherwise
    gives up exactly when [terminate] was called; and then the task whose poll left a
    [Shutdown] pending last has been woken since that poll. *)
Theorem shutdown_wakes ops :
  let s := shutdown_run ops in
  (forall id task, (shutdown_poll id task (ss_core s)).1 = terminated_in ops) /\
  (forall (value : option Z) id task, (with_shutdown_poll value id task (ss_core s)).1 =
     match value with Some v => Some (Some v) | None => if terminated_in ops then Some None else None end) /\
  (forall id task k, ss_polled s !! id = Some (task, k) -> terminated_in ops = true -> task ∈ drop k (ss_woken s)).
Proof.
  cbn zeta. destruct (shutdown_run_inv ops) as [C P]. assert (Hp : forall id task, (shutdown_poll id task (ss_core (shutdown_run ops))).1 = terminated_in ops).
  { intros id task. unfold shutdown_poll. rewrite <- C. by destruct (sc_closed _). }
  split_and!; [done| |].
  - intros [v|] id task; [done|]. unfold with_shutdown_poll. specialize (Hp id task). destruct (shutdown_poll _ _ _) as [r core].
    cbn in Hp. by subst r.
  - intros id task k Hk Ht. apply P in Hk as [_ Hk]. by rewrite Ht in Hk.
Qed.

(** A history with two jobs: both are woken, one of them by its newer waker. *)
Example shutdown_wakes_jobs : ss_woken (shutdown_run [PollWith None 1 10; PollShutdown 2 20; PollWith None 1 11; Terminate]) ≡ₚ [11; 20].
Proof. vm_compute. by constructor. Qed.
