(* ===== verification/Notify.v ===== *)
(** * Wake-ups ([util/notify.rs])

    [Notify] lets tasks wait for an event: [notified] makes a future, [enable] and
    [poll] register it, [notify_one] and [notify_waiters] wake. The word holds the
    state in its two lowest bits and counts the calls of [notify_waiters] above; the
    list holds the futures that wait, newest in front. The futures are kept in a map,
    a waker is the id of its task, and the wakers that were called are logged. Every
    operation is one atomic step: its compare-and-swaps and its critical section
    take effect at one point. *)

From stdpp Require Import base numbers list gmap.
From Stdlib Require Import ZArith Lia.
From S2P Require Import Prelude.

(** ** The word *)

Definition NOTIFY_WAITERS_SHIFT : Z := 2.
Definition STATE_MASK : Z := Z.shiftl 1 NOTIFY_WAITERS_SHIFT - 1.
Definition NOTIFY_WAITERS_CALLS_MASK : Z := u64_max - STATE_MASK.
Definition EMPTY : Z := 0.
Definition WAITING : Z := 1.
Definition NOTIFIED : Z := 2.

Definition set_state (data state : Z) : Z :=
  Z.lor (Z.land data NOTIFY_WAITERS_CALLS_MASK) (Z.land state STATE_MASK).
Definition get_state (data : Z) : Z := Z.land data STATE_MASK.
Definition get_num_notify_waiters_calls (data : Z) : Z :=
  Z.shiftr (Z.land data NOTIFY_WAITERS_CALLS_MASK) NOTIFY_WAITERS_SHIFT.
Definition inc_num_notify_waiters_calls (data : Z) : Z := wrap64 (data + Z.shiftl 1 NOTIFY_WAITERS_SHIFT).

(** ** The data *)

Inductive NotificationType := AllWaiters | OneWaiter.

Record Waiter := mkWaiter { w_waker : option Z; w_notified : option NotificationType }.

Inductive NState := Init (calls : Z) | Waiting | Done.

Record Notified := mkNotified { n_state : NState; n_waiter : Waiter }.

Record Notify := mkNotify {
  nt_state : Z;
  nt_waiters : list Z;
  nt_objs : gmap Z Notified;
  nt_woken : list Z;
}.

Definition with_word (w : Z) (n : Notify) : Notify := mkNotify w (nt_waiters n) (nt_objs n) (nt_woken n).
Definition with_obj (id : Z) (o : Notified) (n : Notify) : Notify :=
  mkNotify (nt_state n) (nt_waiters n) (<[id := o]> (nt_objs n)) (nt_woken n).
Definition wake (w : option Z) (n : Notify) : Notify :=
  mkNotify (nt_state n) (nt_waiters n) (nt_objs n) (nt_woken n ++ option_list w).

(** ** The operations of [Notify] *)

Definition notify_new : Notify := mkNotify 0 [] ∅ [].

Definition notified (id : Z) (n : Notify) : Notify :=
  with_obj id (mkNotified (Init (Z.shiftr (nt_state n) NOTIFY_WAITERS_SHIFT)) (mkWaiter None None)) n.

(** [waiter.notified = Some(t)] and [waiter.waker.take()] of a future of the list. *)
Definition notify_waiter (t : NotificationType) (id : Z) (objs : gmap Z Notified) : res (option Z * gmap Z Notified) :=
  o ← expect (objs !! id);
  _ ← rassert (bool_decide (w_notified (n_waiter o) = None));
  Ok (w_waker (n_waiter o), <[id := mkNotified (n_state o) (mkWaiter None (Some t))]> objs).

(** [notify_locked]: the waker to call. *)
Definition notify_locked (curr : Z) (n : Notify) : res (option Z * Notify) :=
  if (get_state curr =? EMPTY) || (get_state curr =? NOTIFIED) then
    Ok (None, with_word (set_state curr NOTIFIED) n)
  else if get_state curr =? WAITING then
    id ← expect (last (nt_waiters n));
    let rest := removelast (nt_waiters n) in
    '(waker, objs) ← notify_waiter OneWaiter id (nt_objs n);
    let word := if bool_decide (rest = []) then set_state curr EMPTY else nt_state n in
    Ok (waker, mkNotify word rest objs (nt_woken n))
  else Panic.

Definition notify_one (n : Notify) : res Notify :=
  let curr := nt_state n in
  if (get_state curr =? EMPTY) || (get_state curr =? NOTIFIED) then Ok (with_word (set_state curr NOTIFIED) n)
  else
    '(waker, n) ← notify_locked curr n;
    Ok (wake waker n).

(** The loop of [notify_waiters] over the list from its back. *)
Fixpoint notify_all (ids : list Z) (objs : gmap Z Notified) (wakers : list Z) : res (gmap Z Notified * list Z) :=
  match ids with
  | [] => Ok (objs, wakers)
  | id :: ids =>
      '(waker, objs) ← notify_waiter AllWaiters id objs;
      notify_all ids objs (wakers ++ option_list waker)
  end.

Definition notify_waiters (n : Notify) : res Notify :=
  let curr := nt_state n in
  if (get_state curr =? EMPTY) || (get_state curr =? NOTIFIED) then
    Ok (with_word (inc_num_notify_waiters_calls curr) n)
  else
    '(objs, wakers) ← notify_all (reverse (nt_waiters n)) (nt_objs n) [];
    Ok (mkNotify (set_state (inc_num_notify_waiters_calls curr) EMPTY) [] objs (nt_woken n ++ wakers)).

(** ** The operations of [Notified] *)

(** The branch of [poll_notified] for a new future; [true] is [Poll::Ready]. *)
Definition poll_init (id calls : Z) (waker : option Z) (o : Notified) (n : Notify) : res (bool * Notify) :=
  let curr := nt_state n in
  let done n := Ok (true, with_obj id (mkNotified Done (n_waiter o)) n) in
  if nt_state n =? set_state curr NOTIFIED then done (with_word (set_state curr EMPTY) n)
  else if negb (get_num_notify_waiters_calls curr =? calls) then done n
  else if get_state curr =? NOTIFIED then done (with_word (set_state curr EMPTY) n)
  else if (get_state curr =? EMPTY) || (get_state curr =? WAITING) then
    let word := if get_state curr =? EMPTY then set_state curr WAITING else curr in
    let w := match waker with Some _ => mkWaiter waker (w_notified (n_waiter o)) | None => n_waiter o end in
    Ok (false, with_obj id (mkNotified Waiting w) (mkNotify word (id :: nt_waiters n) (nt_objs n) (nt_woken n)))
  else Panic.

Definition poll_notified (id : Z) (waker : option Z) (n : Notify) : res (bool * Notify) :=
  o ← expect (nt_objs n !! id);
  match n_state o with
  | Init calls => poll_init id calls waker o n
  | Waiting =>
      match w_notified (n_waiter o) with
      | Some _ => Ok (true, with_obj id (mkNotified Done (mkWaiter None None)) n)
      | None =>
          let w := match waker with Some _ => mkWaiter waker None | None => n_waiter o end in
          Ok (false, with_obj id (mkNotified Waiting w) n)
      end
  | Done => Ok (true, n)
  end.

(** [enable] and [poll]. *)
Definition enable (id : Z) (n : Notify) : res (bool * Notify) := poll_notified id None n.
Definition poll (id task : Z) (n : Notify) : res (bool * Notify) := poll_notified id (Some task) n.

Definition notified_drop (id : Z) (n : Notify) : res Notify :=
  o ← expect (nt_objs n !! id);
  let n' := mkNotify (nt_state n) (nt_waiters n) (delete id (nt_objs n)) (nt_woken n) in
  match n_state o with
  | Waiting =>
      let ws := base.filter (λ i, i <> id) (nt_waiters n) in
      let word := if bool_decide (ws = []) && (get_state (nt_state n) =? WAITING)
                  then set_state (nt_state n) EMPTY else nt_state n in
      let n' := mkNotify word ws (delete id (nt_objs n)) (nt_woken n) in
      match w_notified (n_waiter o) with
      | Some OneWaiter =>
          '(waker, n') ← notify_locked word n';
          Ok (wake waker n')
      | _ => Ok n'
      end
  | _ => Ok n'
  end.

(** ** The word as a pair *)

Lemma calls_mask w : fits 64 w -> Z.land w NOTIFY_WAITERS_CALLS_MASK = 4 * (w / 4).
Proof.
  intros Hw. change NOTIFY_WAITERS_CALLS_MASK with (Z.ldiff (Z.ones 64) (Z.ones 2)).
  rewrite Z.ldiff_land, Z.land_assoc, Z.land_ones, Z.mod_small, <- Z.ldiff_land by (done || lia).
  rewrite Z.ldiff_ones_r, Z.shiftl_mul_pow2, Z.shiftr_div_pow2 by lia. change (2 ^ 2) with 4. lia.
Qed.

Lemma get_state_mod w : get_state w = w mod 4.
Proof. unfold get_state. change STATE_MASK with (Z.ones 2). by rewrite Z.land_ones. Qed.

Lemma get_num_div w : fits 64 w -> get_num_notify_waiters_calls w = w / 4.
Proof.
  intros Hw. unfold get_num_notify_waiters_calls, NOTIFY_WAITERS_SHIFT. rewrite calls_mask, Z.shiftr_div_pow2 by (lia || done).
  change (2 ^ 2) with 4. by rewrite Z.mul_comm, Z.div_mul.
Qed.

Lemma set_state_eq w s : fits 64 w -> 0 <= s < 4 -> set_state w s = 4 * (w / 4) + s.
Proof.
  intros Hw Hs. unfold set_state. rewrite calls_mask by done. change STATE_MASK with (Z.ones 2).
  rewrite (Z.land_ones s), Z.mod_small by (lia || done). 
  replace (4 * (w / 4)) with (Z.shiftl (w / 4) 2) by (rewrite Z.shiftl_mul_pow2 by lia; lia).
  rewrite <- Z.add_lor_land. replace (Z.land (Z.shiftl (w / 4) 2) s) with 0; [lia|]. symmetry.
  apply Z.bits_inj'. intros n Hn. rewrite Z.land_spec, Z.bits_0. destruct (Z.lt_ge_cases n 2).
  - by rewrite Z.shiftl_spec_low.
  - rewrite (Z.bits_above_log2 s n), andb_false_r; [done|lia|].
    destruct (decide (s = 0)) as [->|]; [simpl; lia|]. apply Z.log2_lt_pow2; [lia|].
    apply (Z.lt_le_trans _ (2 ^ 2)); [lia|]. by apply Z.pow_le_mono_r.
Qed.

Lemma set_state_ok w s : fits 64 w -> 0 <= s < 4 ->
  fits 64 (set_state w s) /\ get_state (set_state w s) = s /\
  get_num_notify_waiters_calls (set_state w s) = get_num_notify_waiters_calls w.
Proof.
  intros Hw Hs. rewrite set_state_eq, (get_num_div w) by done.
  assert (Hf : fits 64 (4 * (w / 4) + s)) by (unfold fits in *; change (2 ^ 64) with (4 * 2 ^ 62) in *; div_lia).
  rewrite get_state_mod, get_num_div by done. split_and!; [done|div_lia|div_lia].
Qed.

Lemma inc_calls_ok w : fits 64 w ->
  fits 64 (inc_num_notify_waiters_calls w) /\ get_state (inc_num_notify_waiters_calls w) = get_state w /\
  get_num_notify_waiters_calls (inc_num_notify_waiters_calls w) <> get_num_notify_waiters_calls w.
Proof.
  intros Hw. unfold inc_num_notify_waiters_calls, wrap. change (Z.shiftl 1 NOTIFY_WAITERS_SHIFT) with 4.
  assert (Hf : fits 64 ((w + 4) mod 2 ^ 64)) by (unfold fits; apply Z.mod_pos_bound; lia).
  rewrite !get_state_mod, !get_num_div by done. split; [done|]. unfold fits in *. change (2 ^ 64) with (4 * 2 ^ 62) in *.
  div_lia.
Qed.

(** ** The invariant *)

(** A future that waits and has not been notified. *)
Definition sleeps (objs : gmap Z Notified) (id : Z) : Prop :=
  exists w, objs !! id = Some (mkNotified Waiting (mkWaiter w None)).
Definition asleep (id : Z) (n : Notify) : Prop := sleeps (nt_objs n) id.

(** The state says whether there are waiters, the list holds the futures that
    sleep, each once, and a future that does not wait carries no notification. *)
Record notify_wf (n : Notify) : Prop := {
  nw_word : fits 64 (nt_state n);
  nw_state : nt_waiters n = [] /\ (get_state (nt_state n) = EMPTY \/ get_state (nt_state n) = NOTIFIED) \/
             nt_waiters n <> [] /\ get_state (nt_state n) = WAITING;
  nw_nodup : NoDup (nt_waiters n);
  nw_sleep : forall id, id ∈ nt_waiters n <-> sleeps (nt_objs n) id;
  nw_init : forall id o, nt_objs n !! id = Some o -> n_state o <> Waiting -> w_notified (n_waiter o) = None;
}.

Lemma sleeps_insert objs id o i :
  sleeps (<[id := o]> objs) i <->
    i = id /\ (exists w, o = mkNotified Waiting (mkWaiter w None)) \/ i <> id /\ sleeps objs i.
Proof.
  unfold sleeps. destruct (decide (i = id)) as [->|Hne].
  - rewrite lookup_insert_eq. split; [intros [w [= ->]]; left; eauto|intros [[_ [w ->]]|[[] _]]; eauto; done].
  - rewrite lookup_insert_ne by done. split; [intros; right; done|intros [[-> _]|[_ Hs]]; done].
Qed.

Lemma sleeps_delete objs id i : sleeps (delete id objs) i <-> i <> id /\ sleeps objs i.
Proof.
  unfold sleeps. destruct (decide (i = id)) as [->|Hne].
  - rewrite lookup_delete_eq. split; [by intros [w [=]]|by intros [[] _]].
  - rewrite lookup_delete_ne by done. naive_solver.
Qed.

Lemma notify_new_wf : notify_wf notify_new.
Proof.
  constructor; simpl; [by vm_compute|by left; split; [|left]|constructor| |done].
  intros id. split; [by intros []%not_elem_of_nil|by intros [w Hw]].
Qed.

Lemma notified_wf id n : notify_wf n -> nt_objs n !! id = None -> notify_wf (notified id n).
Proof.
  intros [H1 H2 H3 H4 H5] Hid. constructor; simpl; [done|done|done| |].
  - intros i. rewrite sleeps_insert, H4. split; [|intros [[_ [w [=]]]|[_ Hs]]; done].
    intros Hs. right. split; [|done]. intros ->. destruct Hs as [w Hs]. congruence.
  - intros i o Hi. apply lookup_insert_Some in Hi as [[_ <-]|[_ Hi]]; [done|by eapply H5].
Qed.

Lemma notify_waiter_ok t id objs w :
  objs !! id = Some (mkNotified Waiting (mkWaiter w None)) ->
  notify_waiter t id objs = Ok (w, <[id := mkNotified Waiting (mkWaiter None (Some t))]> objs).
Proof. intros Hid. unfold notify_waiter. by rewrite Hid. Qed.

(** Taking a future from the list, notified. *)
Lemma take_waiter_wf n t id w ws word :
  notify_wf n -> nt_objs n !! id = Some (mkNotified Waiting (mkWaiter w None)) ->
  nt_waiters n ≡ₚ id :: ws -> word = (if bool_decide (ws = []) then set_state (nt_state n) EMPTY else nt_state n) ->
  notify_wf (mkNotify word ws (<[id := mkNotified Waiting (mkWaiter None (Some t))]> (nt_objs n)) (nt_woken n)).
Proof.
  intros [H1 H2 H3 H4 H5] Hid Hp ->. rewrite Hp in H3. apply NoDup_cons in H3 as [Hni Hnd].
  assert (Hw : get_state (nt_state n) = WAITING).
  { destruct H2 as [[E _]|[_ ?]]; [|done]. rewrite E in Hp. by apply Permutation_nil_cons in Hp. }
  destruct (set_state_ok (nt_state n) EMPTY H1) as (S1 & S2 & _); [unfold EMPTY; lia|].
  constructor; simpl; [by case_bool_decide| |done| |].
  - case_bool_decide as E; [left|right; done]. split; [done|by left].
  - intros i. rewrite sleeps_insert, <- H4, Hp, elem_of_cons. split.
    + intros Hi. right. split; [by intros ->|by right].
    + intros [[_ [w' [=]]]|[Hne [->|Hi]]]; done.
  - intros i o Hi. apply lookup_insert_Some in Hi as [[_ <-]|[_ Hi]]; [done|by eapply H5].
Qed.

(** [notify_locked] stores the notification when nobody waits, and otherwise gives it
    to the future that has waited longest. *)
Lemma notify_locked_ok n :
  notify_wf n ->
  exists w n', notify_locked (nt_state n) n = Ok (w, n') /\ notify_wf n' /\
    match last (nt_waiters n) with
    | None => w = None /\ n' = with_word (set_state (nt_state n) NOTIFIED) n
    | Some id => nt_objs n !! id = Some (mkNotified Waiting (mkWaiter w None)) /\
        nt_objs n' = <[id := mkNotified Waiting (mkWaiter None (Some OneWaiter))]> (nt_objs n) /\
        nt_woken n' = nt_woken n
    end.
Proof.
  intros Hn. pose proof Hn as [H1 H2 H3 H4 H5]. unfold notify_locked. destruct H2 as [[Hws Hst]|[Hws Hst]].
  - rewrite Hws. cbn [last]. destruct (set_state_ok (nt_state n) NOTIFIED H1) as (S1 & S2 & _); [unfold NOTIFIED; lia|].
    eexists None, _. split_and!; [by destruct Hst as [-> | ->]| |done|done].
    destruct n as [w ws objs log]. simpl in *. constructor; simpl; [done| |done|done|done].
    left. split; [done|by right].
  - rewrite Hst. cbn. destruct (last (nt_waiters n)) as [id|] eqn:El; [|by apply last_None in El]. cbn [expect mbind res_bind].
    assert (Hp : nt_waiters n = removelast (nt_waiters n) ++ [id]).
    { apply last_Some in El as [l' ->]. by rewrite removelast_last. }
    assert (Hin : id ∈ nt_waiters n) by (rewrite Hp; set_solver). apply H4 in Hin as [w Hid].
    rewrite (notify_waiter_ok _ _ _ _ Hid). cbn [mbind res_bind].
    eexists w, _. split_and!; [done| |done|done|done].
    eapply take_waiter_wf; [done|exact Hid| |done]. rewrite Hp at 1. by rewrite Permutation_app_comm.
Qed.

Lemma wake_wf w n : notify_wf n -> notify_wf (wake w n).
Proof. intros [H1 H2 H3 H4 H5]. by constructor. Qed.

Lemma notify_one_ok n :
  notify_wf n ->
  exists n', notify_one n = Ok n' /\ notify_wf n' /\
    match last (nt_waiters n) with
    | None => nt_objs n' = nt_objs n /\ get_state (nt_state n') = NOTIFIED
    | Some id => exists w, nt_objs n !! id = Some (mkNotified Waiting (mkWaiter w None)) /\
        nt_objs n' = <[id := mkNotified Waiting (mkWaiter None (Some OneWaiter))]> (nt_objs n) /\
        nt_woken n' = nt_woken n ++ option_list w
    end.
Proof.
  intros Hn. pose proof Hn as [H1 H2 _ _ _]. destruct (notify_locked_ok n Hn) as (w & n' & Hl & Hn' & Hw).
  unfold notify_one. destruct H2 as [[Hws Hst]|[Hws Hst]].
  - rewrite Hws in Hw |- *. cbn [last] in Hw |- *. destruct Hw as [-> ->].
    destruct (set_state_ok (nt_state n) NOTIFIED H1) as (_ & S2 & _); [unfold NOTIFIED; lia|].
    eexists. split_and!; [by destruct Hst as [-> | ->]|done|done|done].
  - rewrite Hst. change ((WAITING =? EMPTY) || (WAITING =? NOTIFIED)) with false. cbn match. rewrite Hl.
    cbn [mbind res_bind]. exists (wake w n'). split_and!; [done|by apply wake_wf|].
    destruct (last (nt_waiters n)) as [id|] eqn:El; [|by apply last_None in El].
    destruct Hw as (Hid & Ho & Hk). exists w. split_and!; [done|done|]. simpl. by rewrite Hk.
Qed.

(** The loop of [notify_waiters]. *)
Lemma notify_all_ok ids objs wakers :
  NoDup ids -> Forall (sleeps objs) ids ->
  exists objs' ws, notify_all ids objs wakers = Ok (objs', ws) /\
    forall i, objs' !! i = if decide (i ∈ ids) then Some (mkNotified Waiting (mkWaiter None (Some AllWaiters))) else objs !! i.
Proof.
  intros Hnd. revert objs wakers; induction Hnd as [|id ids Hni _ IH]; intros objs wakers Hs.
  { eexists objs, wakers. split; [done|]. intros i. by rewrite decide_False by apply not_elem_of_nil. }
  apply Forall_cons in Hs as [[w Hid] Hs]. cbn [notify_all]. rewrite (notify_waiter_ok _ _ _ _ Hid). cbn [mbind res_bind].
  destruct (IH (<[id := mkNotified Waiting (mkWaiter None (Some AllWaiters))]> objs) (wakers ++ option_list w)) as (objs' & ws & E & Ho).
  { rewrite Forall_forall in Hs |- *. intros i Hi. apply sleeps_insert. right. split; [by intros ->|by apply Hs]. }
  exists objs', ws. split; [done|]. intros i. rewrite Ho. destruct (decide (i = id)) as [->|Hne].
  - rewrite decide_False, lookup_insert_eq by done. rewrite decide_True; [done|by left].
  - rewrite lookup_insert_ne by done. destruct (decide (i ∈ ids)); [rewrite decide_True; [done|by right]|].
    rewrite decide_False; [done|]. rewrite elem_of_cons. naive_solver.
Qed.

(** [notify_waiters] leaves no future asleep, and the others as they are. *)
Lemma notify_waiters_ok n :
  notify_wf n ->
  exists n', notify_waiters n = Ok n' /\ notify_wf n' /\ nt_waiters n' = [] /\
    get_num_notify_waiters_calls (nt_state n') <> get_num_notify_waiters_calls (nt_state n) /\
    forall i, nt_objs n' !! i = if decide (i ∈ nt_waiters n)
      then Some (mkNotified Waiting (mkWaiter None (Some AllWaiters))) else nt_objs n !! i.
Proof.
  intros [H1 H2 H3 H4 H5]. destruct (inc_calls_ok (nt_state n) H1) as (I1 & I2 & I3). unfold notify_waiters.
  destruct H2 as [[Hws Hst]|[Hws Hst]].
  - exists (with_word (inc_num_notify_waiters_calls (nt_state n)) n).
    split_and!; [by destruct Hst as [-> | ->]| |done|done|].
    + constructor; simpl; [done|left; by rewrite I2|done|done|done].
    + intros i. rewrite Hws, decide_False by apply not_elem_of_nil. done.
  - rewrite Hst. change ((WAITING =? EMPTY) || (WAITING =? NOTIFIED)) with false. cbn match.
    destruct (notify_all_ok (reverse (nt_waiters n)) (nt_objs n) []) as (objs & ws & E & Ho).
    { by rewrite reverse_Permutation. }
    { apply Forall_forall. intros i Hi. by apply H4, elem_of_reverse. }
    rewrite E. cbn [mbind res_bind].
    destruct (set_state_ok _ EMPTY I1) as (S1 & S2 & S3); [unfold EMPTY; lia|].
    assert (Ho' : forall i, objs !! i = if decide (i ∈ nt_waiters n)
      then Some (mkNotified Waiting (mkWaiter None (Some AllWaiters))) else nt_objs n !! i).
    { intros i. rewrite Ho. destruct (decide (i ∈ nt_waiters n)) as [Hi|Hi].
      - rewrite decide_True; [done|by apply elem_of_reverse].
      - rewrite decide_False; [done|by rewrite elem_of_reverse]. }
    eexists. split_and!; [done| |done|cbn [nt_state]; by rewrite S3|exact Ho'].
    constructor; simpl; [done|left; split; [done|by left]|constructor| |].
    + intros i. split; [by intros []%not_elem_of_nil|]. intros [w Hi]. rewrite Ho' in Hi. case_decide as Hd; [done|].
      exfalso. apply Hd, H4. by exists w.
    + intros i o Hi. rewrite Ho' in Hi. case_decide; [by injection Hi as <-|by eapply H5].
Qed.

(** A future that does not sleep becomes one that is done. *)
Lemma done_wf n id w :
  notify_wf n -> ~ sleeps (nt_objs n) id -> w_notified w = None -> notify_wf (with_obj id (mkNotified Done w) n).
Proof.
  intros [H1 H2 H3 H4 H5] Hns Hw. constructor; simpl; [done|done|done| |].
  - intros i. rewrite H4, sleeps_insert. split; [|intros [[_ [w' [=]]]|[_ Hs]]; done].
    intros Hs. right. split; [by intros ->|done].
  - intros i o Hi. apply lookup_insert_Some in Hi as [[_ <-]|[_ Hi]]; [done|by eapply H5].
Qed.

(** The stored notification is taken. *)
Lemma empty_word_wf n : notify_wf n -> get_state (nt_state n) = NOTIFIED -> notify_wf (with_word (set_state (nt_state n) EMPTY) n).
Proof.
  intros [H1 H2 H3 H4 H5] Hst. destruct (set_state_ok (nt_state n) EMPTY H1) as (S1 & S2 & _); [unfold EMPTY; lia|].
  constructor; simpl; [done| |done|done|done]. destruct H2 as [[? _]|[_ E]]; [|by rewrite Hst in E]. left. split; [done|by left].
Qed.

(** A new future goes to sleep. *)
Lemma sleep_wf n id w waker word :
  notify_wf n -> ~ sleeps (nt_objs n) id -> w_notified w = None ->
  get_state (nt_state n) <> NOTIFIED ->
  word = (if get_state (nt_state n) =? EMPTY then set_state (nt_state n) WAITING else nt_state n) ->
  notify_wf (with_obj id (mkNotified Waiting (match waker with Some _ => mkWaiter waker (w_notified w) | None => w end))
    (mkNotify word (id :: nt_waiters n) (nt_objs n) (nt_woken n))).
Proof.
  intros [H1 H2 H3 H4 H5] Hns Hw Hst ->. destruct (set_state_ok (nt_state n) WAITING H1) as (S1 & S2 & _); [unfold WAITING; lia|].
  constructor; simpl; [by case_match| | | |].
  - right. split; [done|]. destruct H2 as [[_ [E|E]]|[_ E]]; [by rewrite E|done|by rewrite E].
  - constructor; [by rewrite H4|done].
  - intros i. rewrite sleeps_insert, elem_of_cons, H4. split.
    + intros [->|Hs]; [left|right; split; [by intros ->|done]]. split; [done|].
      destruct waker; [rewrite Hw; by eexists|]. destruct w as [k ?]. simpl in Hw. subst. by eexists.
    + intros [[-> _]|[_ Hs]]; [by left|by right].
  - intros i o Hi. apply lookup_insert_Some in Hi as [[_ <-]|[_ Hi]]; [done|by eapply H5].
Qed.

(** What a poll leaves: a future that is ready is done, one that is not sleeps; the
    others are as before. *)
Definition poll_post (n : Notify) (id : Z) (r : bool) (n' : Notify) : Prop :=
  notify_wf n' /\ (if r then exists w, nt_objs n' !! id = Some (mkNotified Done w) else asleep id n') /\
  forall i, i <> id -> nt_objs n' !! i = nt_objs n !! i.

Lemma poll_post_obj (n : Notify) (id : Z) (r : bool) (o : Notified) (base : Notify) :
  nt_objs base = nt_objs n -> notify_wf (with_obj id o base) ->
  (if r then n_state o = Done else exists w, o = mkNotified Waiting (mkWaiter w None)) ->
  poll_post n id r (with_obj id o base).
Proof.
  intros Hb Hwf Ho. split_and!; [done| |].
  - destruct r; [|apply sleeps_insert; by left]. destruct o as [st w]. simpl in *. subst st. exists w.
    apply lookup_insert_eq.
  - intros i Hi. simpl. by rewrite lookup_insert_ne, Hb.
Qed.

Lemma poll_init_ok n id calls waker w :
  notify_wf n -> nt_objs n !! id = Some (mkNotified (Init calls) w) ->
  let r := bool_decide (get_state (nt_state n) = NOTIFIED \/ get_num_notify_waiters_calls (nt_state n) <> calls) in
  exists n', poll_init id calls waker (mkNotified (Init calls) w) n = Ok (r, n') /\ poll_post n id r n'.
Proof.
  intros Hn Hid r. pose proof Hn as [H1 H2 H3 H4 H5].
  assert (Hns : ~ sleeps (nt_objs n) id) by (intros [w' E]; congruence).
  pose proof (H5 _ _ Hid ltac:(done)) as Hw. cbn [n_waiter] in Hw. unfold poll_init. cbn [n_waiter].
  assert (Hset : (nt_state n =? set_state (nt_state n) NOTIFIED) = (get_state (nt_state n) =? NOTIFIED)).
  { rewrite set_state_eq, get_state_mod by (done || unfold NOTIFIED; lia). unfold fits, NOTIFIED in *.
    apply eq_true_iff_eq. rewrite !Z.eqb_eq. div_lia. }
  rewrite Hset. unfold r. clear r. destruct (get_state (nt_state n) =? NOTIFIED) eqn:En; boolify.
  { rewrite bool_decide_true by (by left). eexists. split; [done|].
    apply poll_post_obj; [done|apply done_wf; [by apply empty_word_wf|done|done]|done]. }
  destruct (get_num_notify_waiters_calls (nt_state n) =? calls) eqn:Ec; boolify; cbn [negb].
  - rewrite bool_decide_false by (intros [?|?]; done).
    assert (Hst : (get_state (nt_state n) =? EMPTY) || (get_state (nt_state n) =? WAITING) = true).
    { destruct H2 as [[_ [->|E]]|[_ ->]]; done. }
    rewrite Hst. eexists. split; [done|]. apply poll_post_obj; [done|by apply sleep_wf|].
    destruct waker; [rewrite Hw; by eexists|]. destruct w as [k ?]. simpl in Hw. subst. by eexists.
  - rewrite bool_decide_true by (by right). eexists. split; [done|]. apply poll_post_obj; [done|by apply done_wf|done].
Qed.

(** Whether a poll of the future is ready. *)
Definition is_ready (o : Notified) (n : Notify) : bool :=
  match n_state o with
  | Init calls => bool_decide (get_state (nt_state n) = NOTIFIED \/ get_num_notify_waiters_calls (nt_state n) <> calls)
  | Waiting => match w_notified (n_waiter o) with Some _ => true | None => false end
  | Done => true
  end.

Lemma poll_ok n id waker o :
  notify_wf n -> nt_objs n !! id = Some o ->
  exists n', poll_notified id waker n = Ok (is_ready o n, n') /\ poll_post n id (is_ready o n) n'.
Proof.
  intros Hn Hid. pose proof Hn as [H1 H2 H3 H4 H5]. unfold poll_notified. rewrite Hid. cbn [expect mbind res_bind].
  destruct o as [[calls| |] w]; unfold is_ready; cbn [n_state n_waiter]; [by apply poll_init_ok| |].
  - destruct w as [k [t|]]; cbn [w_notified]; eexists; (split; [done|apply poll_post_obj; [done| |]]).
    + apply done_wf; [done| |done]. intros [w' E]. congruence.
    + done.
    + constructor; simpl; [done|done|done| |].
      * intros i. rewrite H4, sleeps_insert. destruct (decide (i = id)) as [->|Hne]; [|naive_solver].
        split; [|intros _; by exists k]. intros _. left. split; [done|]. destruct waker; by eexists.
      * intros i o Hi. apply lookup_insert_Some in Hi as [[_ <-]|[_ Hi]]; [done|by eapply H5].
    + destruct waker; by eexists.
  - exists n. split; [done|]. split_and!; [done|by exists w|done].
Qed.

(** Taking a future out. *)
Lemma remove_wf n id :
  notify_wf n ->
  let ws := base.filter (λ i, i <> id) (nt_waiters n) in
  notify_wf (mkNotify (if bool_decide (ws = []) && (get_state (nt_state n) =? WAITING)
                       then set_state (nt_state n) EMPTY else nt_state n) ws (delete id (nt_objs n)) (nt_woken n)).
Proof.
  intros [H1 H2 H3 H4 H5] ws. destruct (set_state_ok (nt_state n) EMPTY H1) as (S1 & S2 & _); [unfold EMPTY; lia|].
  constructor; simpl.
  - by destruct (_ && _).
  - destruct H2 as [[E Hst]|[E Hst]].
    + left. unfold ws. rewrite E. split; [done|].
      assert (Hf : (get_state (nt_state n) =? WAITING) = false) by (by destruct Hst as [-> | ->]). by rewrite Hf, andb_false_r.
    + rewrite Hst. case_bool_decide as Ew; [left|right; done]. split; [done|by left].
  - by apply NoDup_filter.
  - intros i. unfold ws. by rewrite list_elem_of_filter, H4, sleeps_delete.
  - intros i o Hi. apply lookup_delete_Some in Hi as [_ Hi]. by eapply H5.
Qed.

(** Dropping a future; a notification of [notify_one] it did not take goes to the
    next. *)
Lemma drop_ok n id o :
  notify_wf n -> nt_objs n !! id = Some o ->
  exists n', notified_drop id n = Ok n' /\ notify_wf n' /\ nt_objs n' !! id = None /\
    (w_notified (n_waiter o) <> Some OneWaiter -> nt_objs n' = delete id (nt_objs n)) /\
    (forall i, sleeps (nt_objs n') i -> sleeps (nt_objs n) i).
Proof.
  intros Hn Hid. pose proof (remove_wf n id Hn) as Hr. pose proof Hn as [H1 H2 H3 H4 H5].
  cbv zeta in Hr. set (n1 := mkNotify _ _ _ _) in Hr. unfold notified_drop. rewrite Hid. cbn [expect mbind res_bind].
  assert (Hsl : forall i, sleeps (delete id (nt_objs n)) i -> sleeps (nt_objs n) i) by (intros i; rewrite sleeps_delete; tauto).
  assert (Hplain : n_state o <> Waiting -> notify_wf (mkNotify (nt_state n) (nt_waiters n) (delete id (nt_objs n)) (nt_woken n))).
  { intros Hne. constructor; simpl; [done|done|done| |].
    - intros i. rewrite sleeps_delete, H4. split; [|tauto]. intros Hs. split; [|done]. intros ->. destruct Hs as [w Hs].
      rewrite Hid in Hs. by injection Hs as ->.
    - intros i o2 Hi. apply lookup_delete_Some in Hi as [_ Hi]. by eapply H5. }
  assert (Hdel : delete id (nt_objs n) !! id = None) by apply lookup_delete_eq.
  destruct o as [[c| |] [k [[]|]]]; cbn [n_state n_waiter w_notified] in *;
    try (by eexists; split_and!; [done|apply Hplain|..]); try (by eexists; split_and!; [done|exact Hr|..]).
  destruct (notify_locked_ok n1 Hr) as (w & n2 & Hl & Hn2 & Hw). fold n1.
  exists (wake w n2). split_and!; [|by apply wake_wf| |done|].
  - unfold n1 in Hl at 1. cbn [nt_state] in Hl. by rewrite Hl.
  - destruct (last (nt_waiters n1)) as [j|] eqn:El; [|destruct Hw as [_ ->]; exact Hdel].
    destruct Hw as (Hj & Ho & _). simpl. rewrite Ho, lookup_insert_ne; [exact Hdel|]. intros ->. simpl in Hj. congruence.
  - intros i Hs. apply Hsl. destruct (last (nt_waiters n1)) as [j|] eqn:El; [|by destruct Hw as [_ ->]].
    destruct Hw as (Hj & Ho & _). simpl in Hs. rewrite Ho in Hs. by apply sleeps_insert in Hs as [[_ [w' [=]]]|[_ Hs]].
Qed.

(** ** Clients *)

Inductive NotifyOp :=
  | OpNotified (id : Z)
  | OpEnable (id : Z)
  | OpPoll (id task : Z)
  | OpDrop (id : Z)
  | OpOne
  | OpAll.

Definition notify_op (op : NotifyOp) (n : Notify) : res Notify :=
  match op with
  | OpNotified id => Ok (notified id n)
  | OpEnable id => '(_, n) ← enable id n; Ok n
  | OpPoll id task => '(_, n) ← poll id task n; Ok n
  | OpDrop id => notified_drop id n
  | OpOne => notify_one n
  | OpAll => notify_waiters n
  end.

(** A new future is new, and the others are used until they are dropped. *)
Definition notify_op_ok (op : NotifyOp) (n : Notify) : Prop :=
  match op with
  | OpNotified id => nt_objs n !! id = None
  | OpEnable id | OpPoll id _ | OpDrop id => is_Some (nt_objs n !! id)
  | OpOne | OpAll => True
  end.

Inductive notify_reach : Notify -> Prop :=
  | notify_reach_new : notify_reach notify_new
  | notify_reach_op n op n' :
      notify_reach n -> notify_op_ok op n -> notify_op op n = Ok n' -> notify_reach n'.

Lemma notify_op_wf op n :
  notify_wf n -> notify_op_ok op n -> exists n', notify_op op n = Ok n' /\ notify_wf n'.
Proof.
  intros Hn Hok. destruct op as [id|id|id task|id| |]; cbn [notify_op notify_op_ok] in *.
  - eexists. split; [done|by apply notified_wf].
  - destruct Hok as [o Hid]. destruct (poll_ok n id None o Hn Hid) as (n' & E & Hn' & _). unfold enable. rewrite E.
    by exists n'.
  - destruct Hok as [o Hid]. destruct (poll_ok n id (Some task) o Hn Hid) as (n' & E & Hn' & _). unfold poll. rewrite E.
    by exists n'.
  - destruct Hok as [o Hid]. destruct (drop_ok n id o Hn Hid) as (n' & E & Hn' & _). by exists n'.
  - destruct (notify_one_ok n Hn) as (n' & E & Hn' & _). by exists n'.
  - destruct (notify_waiters_ok n Hn) as (n' & E & Hn' & _). by exists n'.
Qed.

Lemma notify_reach_wf n : notify_reach n -> notify_wf n.
Proof.
  induction 1 as [|n op n' _ IH Hok E]; [apply notify_new_wf|].
  destruct (notify_op_wf op n IH Hok) as (n2 & E2 & Hn2). congruence.
Qed.

(** A future that [notify_waiters] concerns: it waits, or was made since the last
    call. *)
Definition current (o : Notified) (n : Notify) : Prop :=
  match n_state o with Init calls => calls = get_num_notify_waiters_calls (nt_state n) | _ => True end.

(** [C27] No wake-up is lost: whatever clients do with a [Notify] and its futures, no
    operation panics; after [notify_waiters] every future that waits or was made
    since the last call is ready at its next poll; and [notify_one] either makes the
    future that has waited longest ready and calls its waker, or, when nobody waits,
    makes the first poll of a new future ready. *)
Theorem notify_wakes (n : Notify) :
  notify_reach n ->
  (forall op, notify_op_ok op n -> exists n', notify_op op n = Ok n') /\
  (exists n', notify_waiters n = Ok n' /\
    forall id o task, nt_objs n !! id = Some o -> current o n -> exists n2, poll id task n' = Ok (true, n2)) /\
  (exists n', notify_one n = Ok n' /\
    match last (nt_waiters n) with
    | Some id => exists w, nt_objs n !! id = Some (mkNotified Waiting (mkWaiter w None)) /\
        nt_woken n' = nt_woken n ++ option_list w /\ forall task, exists n2, poll id task n' = Ok (true, n2)
    | None => forall id calls w task, nt_objs n !! id = Some (mkNotified (Init calls) w) ->
        exists n2, poll id task n' = Ok (true, n2)
    end).
Proof.
  intros Hr. pose proof (notify_reach_wf n Hr) as Hn. split_and!.
  - intros op Hok. destruct (notify_op_wf op n Hn Hok) as (n' & E & _). by exists n'.
  - destruct (notify_waiters_ok n Hn) as (n' & E & Hn' & Hws & Hc & Ho). exists n'. split; [done|].
    intros id o task Hid Hcur. specialize (Ho id). case_decide as Hd.
    + destruct (poll_ok n' id (Some task) _ Hn' Ho) as (n2 & E2 & _). by exists n2.
    + rewrite Hid in Ho. destruct (poll_ok n' id (Some task) _ Hn' Ho) as (n2 & E2 & _). exists n2. unfold poll.
      rewrite E2. do 2 f_equal. unfold is_ready, current in *. destruct o as [[c| |] [k nt]]; cbn [n_state n_waiter w_notified] in *.
      * apply bool_decide_true. right. congruence.
      * destruct nt; [done|]. destruct Hd. apply (nw_sleep n Hn). by exists k.
      * done.
  - destruct (notify_one_ok n Hn) as (n' & E & Hn' & Hw). exists n'. split; [done|].
    destruct (last (nt_waiters n)) as [id|].
    + destruct Hw as (w & Hid & Ho & Hk). exists w. split_and!; [done|done|]. intros task.
      destruct (poll_ok n' id (Some task) (mkNotified Waiting (mkWaiter None (Some OneWaiter))) Hn') as (n2 & E2 & _).
      { rewrite Ho. apply lookup_insert_eq. }
      by exists n2.
    + destruct Hw as [Ho Hst]. intros id calls w task Hid. rewrite <- Ho in Hid.
      destruct (poll_ok n' id (Some task) _ Hn' Hid) as (n2 & E2 & _). exists n2. unfold poll. rewrite E2.
      do 2 f_equal. apply bool_decide_true. by left.
Qed.

(** One future waits and another is new. *)
Definition two_futures : res Notify :=
  let n := notified 2 (notified 1 notify_new) in
  '(_, n) ← enable 1 n;
  '(_, n) ← poll 1 11 n;
  Ok n.

Lemma two_futures_reach n : two_futures = Ok n -> notify_reach n.
Proof.
  intros E. unfold two_futures in E.
  assert (R2 : notify_reach (notified 2 (notified 1 notify_new))).
  { apply (notify_reach_op (notified 1 notify_new) (OpNotified 2)); [|done|done].
    apply (notify_reach_op notify_new (OpNotified 1)); [apply notify_reach_new|done|done]. }
  destruct (enable 1 (notified 2 (notified 1 notify_new))) as [[r1 n1]|e|] eqn:E1; [|done..]. cbn [mbind res_bind] in E.
  assert (R3 : notify_reach n1).
  { eapply (notify_reach_op _ (OpEnable 1)); [exact R2|by eexists|]. cbn [notify_op]. by rewrite E1. }
  destruct (poll 1 11 n1) as [[r2 n2]|e|] eqn:E2; [|done..]. injection E as <-.
  eapply (notify_reach_op _ (OpPoll 1 11)); [exact R3| |cbn [notify_op]; by rewrite E2].
  vm_compute in E1. injection E1 as _ <-. by eexists.
Qed.

Lemma notify_wakes_witness :
  exists n n1 n2 n3 n4, two_futures = Ok n /\ notify_waiters n = Ok n1 /\ poll 1 11 n1 = Ok (true, n2) /\
    notify_one n = Ok n3 /\ nt_woken n3 = [11] /\ poll 1 11 n3 = Ok (true, n4).
Proof.
  destruct two_futures as [n|e|] eqn:E; [|by vm_compute in E..].
  destruct (notify_wakes n (two_futures_reach n E)) as (_ & (n1 & E1 & H1) & (n3 & E3 & H3)).
  vm_compute in E. injection E as <-.
  destruct (H1 1 (mkNotified Waiting (mkWaiter (Some 11) None)) 11) as [n2 E2]; [done|done|].
  destruct H3 as (w & Hw & Hk & Hp). vm_compute in Hw. injection Hw as <-. destruct (Hp 11) as [n4 E4].
  eexists _, n1, n2, n3, n4. split_and!; [done|exact E1|exact E2|exact E3|exact Hk|exact E4].
Defined.
