(* ===== verification/Float64.v ===== *)
(** * Floating point numbers

    [f64] as the caches and the reclaim strategy use it: the binary64 format of IEEE
    754, computed with the specification of floating point numbers of the Standard
    Library. *)

From stdpp Require Import base numbers.
From Stdlib Require Import ZArith Lia SpecFloat.
From S2P Require Import Prelude.

Abbreviation f64 := spec_float.

(** [n as f64] for a [usize] or [u32], and a literal [m * 2^e]. *)
Definition f64_of (n : Z) : f64 := binary_normalize 53 1024 n 0 false.
Definition f64_lit (m e : Z) : f64 := binary_normalize 53 1024 m e false.

Definition f64_add : f64 -> f64 -> f64 := SFadd 53 1024.
Definition f64_sub : f64 -> f64 -> f64 := SFsub 53 1024.
Definition f64_mul : f64 -> f64 -> f64 := SFmul 53 1024.
Definition f64_div : f64 -> f64 -> f64 := SFdiv 53 1024.
Definition f64_neg : f64 -> f64 := SFopp.
Definition f64_lt : f64 -> f64 -> bool := SFltb.
(** [a.partial_cmp(&b)]. *)
Definition f64_cmp : f64 -> f64 -> option comparison := SFcompare.
Definition f64_is_nan (x : f64) : bool := match x with S754_nan => true | _ => false end.
Definition f64_is_infinite (x : f64) : bool := match x with S754_infinity _ => true | _ => false end.
(** [f64::MIN], the least finite number. *)
Definition f64_min : f64 := S754_finite true (2 ^ 53 - 1) 971.

(** [x as usize]: truncated, saturating, and 0 for a number that is not one. *)
Definition f64_to_usize (x : f64) : Z :=
  match x with
  | S754_zero _ | S754_nan => 0
  | S754_infinity s => if s then 0 else u64_max
  | S754_finite true _ _ => 0
  | S754_finite false m e => Z.min u64_max (if 0 <=? e then Z.shiftl (Zpos m) e else Z.shiftr (Zpos m) (- e))
  end.

Lemma f64_to_usize_bounds x : fits 64 (f64_to_usize x).
Proof.
  unfold fits, f64_to_usize, u64_max. destruct x as [|[]| |[] m e]; try lia.
  assert (0 <= (if 0 <=? e then Z.shiftl (Zpos m) e else Z.shiftr (Zpos m) (- e))); [|lia].
  case_match; [apply Z.shiftl_nonneg|apply Z.shiftr_nonneg]; lia.
Qed.

Example f64_half : f64_to_usize (f64_mul (f64_of 7) (f64_lit 1 (-1))) = 3.
Proof. vm_compute. reflexivity. Qed.
Example f64_thirds : f64_div (f64_of 1) (f64_of 3) = S754_finite false 6004799503160661 (-54).
Proof. vm_compute. reflexivity. Qed.
Example f64_big : f64_to_usize (f64_of u64_max) = u64_max.
Proof. vm_compute. reflexivity. Qed.
