(* ===== verification/CacheHandle.v ===== *)
(** * Handles of the caches ([page_store/cache/mod.rs], [CacheOption] of [page_txn.rs])

    The options of an insertion, the token that says what becomes of an entry when it
    is returned, and the handle of the LRU cache with its packed flags. A pointer to a
    handle is a number, and the null pointer is 0. The statistics are those of
    [page_store/stats.rs]. *)

From stdpp Require Import base numbers list.
From Stdlib Require Import ZArith Lia.
From S2P Require Import Prelude.

(** ** Flags ([bitflags!]) *)

Definition flag_contains (bits flag : Z) : bool := Z.land bits flag =? flag.
Definition flag_set (bits flag : Z) (value : bool) : Z := if value then Z.lor bits flag else Z.ldiff bits flag.

(** ** Options *)

Inductive CachePriority := PriHigh | PriLow | PriBottom.
#[global] Instance cache_priority_eq_dec : EqDecision CachePriority.
Proof. solve_decision. Defined.

Definition OPTION_DEFAULT : Z := 0.
Definition OPTION_REFILL_COLD_WHEN_NOT_FULL : Z := 1.
Definition OPTION_LOW_PRI : Z := 2.
Definition OPTION_BOTTOM_PRI : Z := 4.

Definition option_priority (option : Z) : CachePriority :=
  if flag_contains option OPTION_LOW_PRI then PriLow
  else if flag_contains option OPTION_BOTTOM_PRI then PriBottom
  else PriHigh.
Definition option_set_priority (pri : CachePriority) (option : Z) : Z :=
  match pri with
  | PriHigh => flag_set (flag_set option OPTION_BOTTOM_PRI false) OPTION_LOW_PRI false
  | PriLow => flag_set (flag_set option OPTION_BOTTOM_PRI false) OPTION_LOW_PRI true
  | PriBottom => flag_set (flag_set option OPTION_BOTTOM_PRI true) OPTION_LOW_PRI false
  end.
Definition refill_cold_when_not_full (option : Z) : bool := flag_contains option OPTION_REFILL_COLD_WHEN_NOT_FULL.
Definition set_refill_cold_when_not_full (v : bool) (option : Z) : Z := flag_set option OPTION_REFILL_COLD_WHEN_NOT_FULL v.

(** ** Tokens *)

(** What becomes of an entry that is returned: [CACHE_AS_RECENT], [CACHE_AS_OLD] or
    [CACHE_DISCARD]. *)
Definition CACHE_AS_RECENT : Z := 0.
Definition CACHE_AS_OLD : Z := 1.
Definition CACHE_DISCARD : Z := 2.
Definition token_default : Z := CACHE_AS_RECENT.
Definition returning_behavior_match (token behavior : Z) : bool := token =? behavior.

(** ** Statistics *)

Record CacheStats := mkCacheStats {
  cst_lookup_hit : Z;
  cst_lookup_miss : Z;
  cst_insert : Z;
  cst_active_evict : Z;
  cst_passive_evict : Z;
}.
Definition cache_stats_default : CacheStats := mkCacheStats 0 0 0 0 0.
Definition cache_stats_add (s o : CacheStats) : CacheStats :=
  mkCacheStats (wrap64 (cst_lookup_hit s + cst_lookup_hit o)) (wrap64 (cst_lookup_miss s + cst_lookup_miss o))
    (wrap64 (cst_insert s + cst_insert o)) (wrap64 (cst_active_evict s + cst_active_evict o))
    (wrap64 (cst_passive_evict s + cst_passive_evict o)).
Definition cache_stats_sub (s o : CacheStats) : CacheStats :=
  mkCacheStats (wrap64 (cst_lookup_hit s - cst_lookup_hit o)) (wrap64 (cst_lookup_miss s - cst_lookup_miss o))
    (wrap64 (cst_insert s - cst_insert o)) (wrap64 (cst_active_evict s - cst_active_evict o))
    (wrap64 (cst_passive_evict s - cst_passive_evict o)).
(** The counters of the cache, [Counter::inc]. *)
Definition counter_inc (c : Z) : Z := wrap64 (c + 1).
Definition inc_lookup_hit (s : CacheStats) : CacheStats :=
  mkCacheStats (counter_inc (cst_lookup_hit s)) (cst_lookup_miss s) (cst_insert s) (cst_active_evict s) (cst_passive_evict s).
Definition inc_lookup_miss (s : CacheStats) : CacheStats :=
  mkCacheStats (cst_lookup_hit s) (counter_inc (cst_lookup_miss s)) (cst_insert s) (cst_active_evict s) (cst_passive_evict s).
Definition inc_insert (s : CacheStats) : CacheStats :=
  mkCacheStats (cst_lookup_hit s) (cst_lookup_miss s) (counter_inc (cst_insert s)) (cst_active_evict s) (cst_passive_evict s).
Definition inc_active_evict (s : CacheStats) : CacheStats :=
  mkCacheStats (cst_lookup_hit s) (cst_lookup_miss s) (cst_insert s) (counter_inc (cst_active_evict s)) (cst_passive_evict s).
Definition inc_passive_evict (s : CacheStats) : CacheStats :=
  mkCacheStats (cst_lookup_hit s) (cst_lookup_miss s) (cst_insert s) (cst_active_evict s) (counter_inc (cst_passive_evict s)).

(** ** Handles *)

(** [CacheFlags]. *)
Definition IN_CACHE : Z := 1.
Definition DETACHED : Z := 2.
Definition LOW_PRI : Z := 4.
Definition BOTTOM_PRI : Z := 8.
Definition IN_LOW_PRI : Z := 16.
Definition IN_HIGH_PRI : Z := 32.

Record HandleLink := mkHandleLink { hl_next : Z; hl_prev : Z }.
Definition link_null : HandleLink := mkHandleLink 0 0.

Record LRUHandle (T : Type) := mkLRUHandle {
  lh_key : Z;
  lh_hash : Z;
  lh_value : option T;
  lh_charge : Z;
  lh_page_link : HandleLink;
  lh_file_link : HandleLink;
  lh_refs : Z;
  lh_flags : Z;
}.
Arguments mkLRUHandle {T} _ _ _ _ _ _ _ _.
Arguments lh_key {T} _.
Arguments lh_hash {T} _.
Arguments lh_value {T} _.
Arguments lh_charge {T} _.
Arguments lh_page_link {T} _.
Arguments lh_file_link {T} _.
Arguments lh_refs {T} _.
Arguments lh_flags {T} _.

(** [Key::file_id]. *)
Definition key_file_id (key : Z) : Z := wrap32 (Z.shiftr key 32).

Section handle.
Context {T : Type}.
Implicit Types h : LRUHandle T.

Definition handle_default : LRUHandle T := mkLRUHandle 0 0 None 0 link_null link_null 0 0.

Definition set_flags (flags : Z) h : LRUHandle T :=
  mkLRUHandle (lh_key h) (lh_hash h) (lh_value h) (lh_charge h) (lh_page_link h) (lh_file_link h) (lh_refs h) flags.
Definition set_refs (refs : Z) h : LRUHandle T :=
  mkLRUHandle (lh_key h) (lh_hash h) (lh_value h) (lh_charge h) (lh_page_link h) (lh_file_link h) refs (lh_flags h).
Definition set_page_link (l : HandleLink) h : LRUHandle T :=
  mkLRUHandle (lh_key h) (lh_hash h) (lh_value h) (lh_charge h) l (lh_file_link h) (lh_refs h) (lh_flags h).
Definition set_file_link (l : HandleLink) h : LRUHandle T :=
  mkLRUHandle (lh_key h) (lh_hash h) (lh_value h) (lh_charge h) (lh_page_link h) l (lh_refs h) (lh_flags h).
Definition set_page_next (p : Z) h : LRUHandle T := set_page_link (mkHandleLink p (hl_prev (lh_page_link h))) h.
Definition set_page_prev (p : Z) h : LRUHandle T := set_page_link (mkHandleLink (hl_next (lh_page_link h)) p) h.
Definition set_file_next (p : Z) h : LRUHandle T := set_file_link (mkHandleLink p (hl_prev (lh_file_link h))) h.
Definition set_file_prev (p : Z) h : LRUHandle T := set_file_link (mkHandleLink (hl_next (lh_file_link h)) p) h.

Definition is_in_cache h : bool := flag_contains (lh_flags h) IN_CACHE.
Definition set_in_cache (in_cache : bool) h : LRUHandle T := set_flags (flag_set (lh_flags h) IN_CACHE in_cache) h.
Definition is_detached h : bool := flag_contains (lh_flags h) DETACHED.
Definition set_detached (detached : bool) h : LRUHandle T := set_flags (flag_set (lh_flags h) DETACHED detached) h.
Definition handle_priority h : CachePriority :=
  if flag_contains (lh_flags h) BOTTOM_PRI then PriBottom
  else if flag_contains (lh_flags h) LOW_PRI then PriLow
  else PriHigh.
Definition handle_set_priority (pri : CachePriority) h : LRUHandle T :=
  let flags := lh_flags h in
  set_flags match pri with
            | PriHigh => flag_set (flag_set flags LOW_PRI false) BOTTOM_PRI false
            | PriLow => flag_set (flag_set flags LOW_PRI true) BOTTOM_PRI false
            | PriBottom => flag_set (flag_set flags LOW_PRI false) BOTTOM_PRI true
            end h.
Definition set_in_cache_priority (pri : CachePriority) h : LRUHandle T :=
  let flags := lh_flags h in
  set_flags match pri with
            | PriHigh => flag_set (flag_set flags IN_HIGH_PRI true) IN_LOW_PRI false
            | PriLow => flag_set (flag_set flags IN_HIGH_PRI false) IN_LOW_PRI true
            | PriBottom => flag_set (flag_set flags IN_HIGH_PRI false) IN_LOW_PRI false
            end h.
Definition in_cache_priority h : CachePriority :=
  if flag_contains (lh_flags h) IN_HIGH_PRI then PriHigh
  else if flag_contains (lh_flags h) IN_LOW_PRI then PriLow
  else PriBottom.
Definition add_ref h : LRUHandle T := set_refs (wrap32 (lh_refs h + 1)) h.
(** [unref] panics without a reference, and says whether it was the last one. *)
Definition unref h : res (bool * LRUHandle T) :=
  _ ← rassert (0 <? lh_refs h);
  let h := set_refs (lh_refs h - 1) h in
  Ok (lh_refs h =? 0, h).
Definition has_refs h : bool := 0 <? lh_refs h.
End handle.

(** ** The flags are independent *)

Lemma flag_contains_bit bits k : 0 <= k -> flag_contains bits (2 ^ k) = Z.testbit bits k.
Proof.
  intros Hk. unfold flag_contains. destruct (Z.testbit bits k) eqn:E.
  - apply Z.eqb_eq, Z.bits_inj'. intros i Hi. rewrite Z.land_spec, Z.pow2_bits_eqb by lia.
    destruct (k =? i) eqn:Ek; [apply Z.eqb_eq in Ek as <-; by rewrite E|by rewrite andb_false_r].
  - apply Z.eqb_neq. intros F%(f_equal (λ z, Z.testbit z k)). rewrite Z.land_spec, Z.pow2_bits_true, E in F by lia. done.
Qed.
Lemma flag_set_bit bits k j v : 0 <= k -> 0 <= j ->
  Z.testbit (flag_set bits (2 ^ k) v) j = if k =? j then v else Z.testbit bits j.
Proof.
  intros Hk Hj. unfold flag_set. destruct v; [rewrite Z.lor_spec|rewrite Z.ldiff_spec]; rewrite Z.pow2_bits_eqb by lia;
    destruct (k =? j); by rewrite ?orb_true_r, ?orb_false_r, ?andb_false_r, ?andb_true_r.
Qed.
(** Reading one flag after writing another, for the flags of the two sets. *)
Lemma flag_contains_set bits k j v : 0 <= k -> 0 <= j ->
  flag_contains (flag_set bits (2 ^ k) v) (2 ^ j) = if k =? j then v else flag_contains bits (2 ^ j).
Proof. intros Hk Hj. rewrite flag_contains_bit, flag_set_bit by done. case_match; [done|]. by rewrite flag_contains_bit. Qed.

Ltac flag_simpl :=
  unfold is_in_cache, set_in_cache, is_detached, set_detached, handle_priority, handle_set_priority, set_in_cache_priority,
    in_cache_priority, set_flags; cbn [lh_flags];
  change IN_CACHE with (2 ^ 0); change DETACHED with (2 ^ 1); change LOW_PRI with (2 ^ 2); change BOTTOM_PRI with (2 ^ 3);
  change IN_LOW_PRI with (2 ^ 4); change IN_HIGH_PRI with (2 ^ 5);
  rewrite ?flag_contains_set by lia; cbn [Z.eqb Pos.eqb].

Section flags.
Context {T : Type}.
Implicit Types h : LRUHandle T.

Lemma in_cache_set b h : is_in_cache (set_in_cache b h) = b.
Proof. by flag_simpl. Qed.
Lemma detached_set b h : is_detached (set_detached b h) = b.
Proof. by flag_simpl. Qed.
Lemma detached_in_cache b h : is_detached (set_in_cache b h) = is_detached h.
Proof. by flag_simpl. Qed.
Lemma in_priority_set pri h : in_cache_priority (set_in_cache_priority pri h) = pri.
Proof. destruct pri; by flag_simpl. Qed.
Lemma in_cache_in_priority pri h : is_in_cache (set_in_cache_priority pri h) = is_in_cache h.
Proof. destruct pri; by flag_simpl. Qed.
Lemma detached_in_priority pri h : is_detached (set_in_cache_priority pri h) = is_detached h.
Proof. destruct pri; by flag_simpl. Qed.
Lemma in_priority_in_cache b h : in_cache_priority (set_in_cache b h) = in_cache_priority h.
Proof. by flag_simpl. Qed.
Lemma priority_set pri h : handle_priority (handle_set_priority pri h) = pri.
Proof. destruct pri; by flag_simpl. Qed.
Lemma in_cache_priority_set pri h : is_in_cache (handle_set_priority pri h) = is_in_cache h.
Proof. destruct pri; by flag_simpl. Qed.
Lemma detached_priority_set pri h : is_detached (handle_set_priority pri h) = is_detached h.
Proof. destruct pri; by flag_simpl. Qed.
End flags.

Lemma option_priority_set pri option : option_priority (option_set_priority pri option) = pri.
Proof.
  unfold option_priority, option_set_priority. change OPTION_LOW_PRI with (2 ^ 1). change OPTION_BOTTOM_PRI with (2 ^ 2).
  destruct pri; by rewrite ?flag_contains_set by lia.
Qed.
