(* ===== verification/LruCache.v ===== *)
(** * The LRU cache ([page_store/cache/lru.rs])

    A shard keeps its handles in a hash table, in a doubly linked list from the oldest
    to the most recent one, divided by two pointers into a bottom, a low and a high
    priority part, and in a ring per file. The handles live in memory: a map from
    pointers to handles, where reading or writing a pointer that was freed or never
    allocated is a [Panic]. The pointer that an allocation returns is an argument. The
    operations of a shard run under its lock, so each is one step. *)

From stdpp Require Import base numbers list gmap.
From Stdlib Require Import ZArith Lia.
From S2P Require Import Prelude Float64 CacheHandle.

(** ** A shard *)

(** The fields of [LRUCacheShard] that never change. *)
Record ShardConfig := mkShardConfig {
  sc_capacity : Z;
  sc_high_pri_ratio : f64;
  sc_lru_high_pri : Z;
  sc_lru_high_capacity : Z;
  sc_low_pri_ratio : f64;
  sc_lru_low_capacity : Z;
}.
(** [LRUCacheShard], with the memory its handles live in. *)
Record LRUCacheShard (T : Type) := mkLRUCacheShard {
  sh_config : ShardConfig;
  sh_heap : gmap Z (LRUHandle T);
  sh_pages : gmap Z Z;
  sh_files : gmap Z Z;
  sh_lru_usage : Z;
  sh_lru_high_usage : Z;
  sh_lru_low_pri : Z;
  sh_lru_low_usage : Z;
  sh_lru_bottom_pri : Z;
  sh_usage : Z;
  sh_stats : CacheStats;
}.
Arguments mkLRUCacheShard {T} _ _ _ _ _ _ _ _ _ _ _.
Arguments sh_config {T} _.
Arguments sh_heap {T} _.
Arguments sh_pages {T} _.
Arguments sh_files {T} _.
Arguments sh_lru_usage {T} _.
Arguments sh_lru_high_usage {T} _.
Arguments sh_lru_low_pri {T} _.
Arguments sh_lru_low_usage {T} _.
Arguments sh_lru_bottom_pri {T} _.
Arguments sh_usage {T} _.
Arguments sh_stats {T} _.

Section shard.
Context {T : Type}.
Abbreviation Shard := (LRUCacheShard T).
Abbreviation M := (St Shard).

Definition sh_capacity (s : Shard) : Z := sc_capacity (sh_config s).
Definition sh_lru_high_pri (s : Shard) : Z := sc_lru_high_pri (sh_config s).

Definition with_heap (h : gmap Z (LRUHandle T)) (s : Shard) : Shard :=
  mkLRUCacheShard (sh_config s) h (sh_pages s) (sh_files s) (sh_lru_usage s) (sh_lru_high_usage s) (sh_lru_low_pri s)
    (sh_lru_low_usage s) (sh_lru_bottom_pri s) (sh_usage s) (sh_stats s).
Definition with_pages (m : gmap Z Z) (s : Shard) : Shard :=
  mkLRUCacheShard (sh_config s) (sh_heap s) m (sh_files s) (sh_lru_usage s) (sh_lru_high_usage s) (sh_lru_low_pri s)
    (sh_lru_low_usage s) (sh_lru_bottom_pri s) (sh_usage s) (sh_stats s).
Definition with_files (m : gmap Z Z) (s : Shard) : Shard :=
  mkLRUCacheShard (sh_config s) (sh_heap s) (sh_pages s) m (sh_lru_usage s) (sh_lru_high_usage s) (sh_lru_low_pri s)
    (sh_lru_low_usage s) (sh_lru_bottom_pri s) (sh_usage s) (sh_stats s).
Definition with_lru_usage (n : Z) (s : Shard) : Shard :=
  mkLRUCacheShard (sh_config s) (sh_heap s) (sh_pages s) (sh_files s) n (sh_lru_high_usage s) (sh_lru_low_pri s)
    (sh_lru_low_usage s) (sh_lru_bottom_pri s) (sh_usage s) (sh_stats s).
Definition with_high_usage (n : Z) (s : Shard) : Shard :=
  mkLRUCacheShard (sh_config s) (sh_heap s) (sh_pages s) (sh_files s) (sh_lru_usage s) n (sh_lru_low_pri s)
    (sh_lru_low_usage s) (sh_lru_bottom_pri s) (sh_usage s) (sh_stats s).
Definition with_low_pri (p : Z) (s : Shard) : Shard :=
  mkLRUCacheShard (sh_config s) (sh_heap s) (sh_pages s) (sh_files s) (sh_lru_usage s) (sh_lru_high_usage s) p
    (sh_lru_low_usage s) (sh_lru_bottom_pri s) (sh_usage s) (sh_stats s).
Definition with_low_usage (n : Z) (s : Shard) : Shard :=
  mkLRUCacheShard (sh_config s) (sh_heap s) (sh_pages s) (sh_files s) (sh_lru_usage s) (sh_lru_high_usage s) (sh_lru_low_pri s)
    n (sh_lru_bottom_pri s) (sh_usage s) (sh_stats s).
Definition with_bottom_pri (p : Z) (s : Shard) : Shard :=
  mkLRUCacheShard (sh_config s) (sh_heap s) (sh_pages s) (sh_files s) (sh_lru_usage s) (sh_lru_high_usage s) (sh_lru_low_pri s)
    (sh_lru_low_usage s) p (sh_usage s) (sh_stats s).
Definition with_usage (n : Z) (s : Shard) : Shard :=
  mkLRUCacheShard (sh_config s) (sh_heap s) (sh_pages s) (sh_files s) (sh_lru_usage s) (sh_lru_high_usage s) (sh_lru_low_pri s)
    (sh_lru_low_usage s) (sh_lru_bottom_pri s) n (sh_stats s).
Definition with_stats (st : CacheStats) (s : Shard) : Shard :=
  mkLRUCacheShard (sh_config s) (sh_heap s) (sh_pages s) (sh_files s) (sh_lru_usage s) (sh_lru_high_usage s) (sh_lru_low_pri s)
    (sh_lru_low_usage s) (sh_lru_bottom_pri s) (sh_usage s) st.

(** ** Memory *)

(** [*p], a write to [*p], [Box::into_raw(Box::new(h))] and [drop(Box::from_raw(p))]. *)
Definition deref (p : Z) : M (LRUHandle T) := λ s, (expect (sh_heap s !! p), s).
Definition assign (p : Z) (f : LRUHandle T -> LRUHandle T) : M unit :=
  h ← deref p;
  modify (λ s, with_heap (<[p := f h]> (sh_heap s)) s).
Definition box_new (p : Z) (h : LRUHandle T) : M unit := modify (λ s, with_heap (<[p := h]> (sh_heap s)) s).
Definition box_drop (p : Z) : M unit :=
  _ ← deref p;
  modify (λ s, with_heap (delete p (sh_heap s)) s).

(** ** The handle table ([LRUCacheHandleTable]); a null pointer is [None] *)

Definition table_insert (proto : Z) : M (option Z) :=
  _ ← assign proto (set_in_cache true);
  h ← deref proto;
  old ← gets (λ s, sh_pages s !! lh_key h);
  _ ← modify (λ s, with_pages (<[lh_key h := proto]> (sh_pages s)) s);
  match old with
  | Some ptr => _ ← assign ptr (set_in_cache false); mret (Some ptr)
  | None => mret None
  end.
Definition table_find (key : Z) : M (option Z) := gets (λ s, sh_pages s !! key).
Definition table_remove (key : Z) : M (option Z) :=
  old ← gets (λ s, sh_pages s !! key);
  _ ← modify (λ s, with_pages (delete key (sh_pages s)) s);
  match old with
  | Some ptr => _ ← assign ptr (set_in_cache false); mret (Some ptr)
  | None => mret None
  end.

(** ** The list *)

(** The four writes that put [e] between two neighbours. *)
Definition page_insert (e prev next : Z) : M unit :=
  _ ← assign e (set_page_link (mkHandleLink next prev));
  _ ← assign prev (set_page_next e);
  assign next (set_page_prev e).
(** Behind the handle [lru] points to, and before it. *)
Definition page_insert_after (e lru : Z) : M unit :=
  h ← deref lru;
  page_insert e lru (hl_next (lh_page_link h)).
Definition page_insert_before (e lru : Z) : M unit :=
  h ← deref lru;
  page_insert e (hl_prev (lh_page_link h)) lru.

(** The two loops of [maintain_priority_size]. *)
Fixpoint demote_high (fuel : nat) : M unit :=
  match fuel with
  | O => lift Panic
  | S fuel =>
      s ← gets id;
      if sc_lru_high_capacity (sh_config s) <? sh_lru_high_usage s then
        low ← deref (sh_lru_low_pri s);
        let p := hl_next (lh_page_link low) in
        _ ← modify (with_low_pri p);
        _ ← assign p (set_in_cache_priority PriLow);
        h ← deref p;
        let charge := lh_charge h in
        _ ← modify (λ s, with_high_usage (wrap64 (sh_lru_high_usage s - charge)) s);
        _ ← modify (λ s, with_low_usage (wrap64 (sh_lru_low_usage s + charge)) s);
        demote_high fuel
      else mret tt
  end.
Fixpoint demote_low (fuel : nat) : M unit :=
  match fuel with
  | O => lift Panic
  | S fuel =>
      s ← gets id;
      if sc_lru_low_capacity (sh_config s) <? sh_lru_low_usage s then
        bottom ← deref (sh_lru_bottom_pri s);
        let p := hl_next (lh_page_link bottom) in
        _ ← modify (with_bottom_pri p);
        _ ← assign p (set_in_cache_priority PriBottom);
        h ← deref p;
        _ ← modify (λ s, with_low_usage (wrap64 (sh_lru_low_usage s - lh_charge h)) s);
        demote_low fuel
      else mret tt
  end.
(** Each round moves a pointer along the list, so the number of handles bounds the
    rounds. *)
Definition maintain_priority_size : M unit :=
  n ← gets (λ s, size (sh_heap s));
  _ ← demote_high (S n);
  demote_low (S n).

Definition link_lru (e : Z) (as_recent : bool) : M unit :=
  h ← deref e;
  let pri := handle_priority h in
  s ← gets id;
  _ ← (if f64_lt (f64_of 0) (sc_high_pri_ratio (sh_config s)) && bool_decide (pri = PriHigh) then
         _ ← (if as_recent then page_insert_before e (sh_lru_high_pri s)
              else page_insert_after e (sh_lru_low_pri s));
         _ ← assign e (set_in_cache_priority PriHigh);
         _ ← modify (λ s, with_high_usage (wrap64 (sh_lru_high_usage s + lh_charge h)) s);
         maintain_priority_size
       else if f64_lt (f64_of 0) (sc_low_pri_ratio (sh_config s)) && bool_decide (pri = PriHigh \/ pri = PriLow) then
         _ ← (if as_recent then page_insert_after e (sh_lru_low_pri s)
              else page_insert_after e (sh_lru_bottom_pri s));
         _ ← assign e (set_in_cache_priority PriLow);
         _ ← modify (λ s, with_low_usage (wrap64 (sh_lru_low_usage s + lh_charge h)) s);
         _ ← maintain_priority_size;
         modify (λ s, if as_recent || (sh_lru_bottom_pri s =? sh_lru_low_pri s) then with_low_pri e s else s)
       else
         _ ← (if as_recent then page_insert_after e (sh_lru_bottom_pri s)
              else page_insert_after e (sh_lru_high_pri s));
         _ ← assign e (set_in_cache_priority PriBottom);
         modify (λ s,
           if as_recent || (sh_lru_high_pri s =? sh_lru_bottom_pri s) then
             let s := if sh_lru_bottom_pri s =? sh_lru_low_pri s then with_low_pri e s else s in
             with_bottom_pri e s
           else s));
  modify (λ s, with_lru_usage (wrap64 (sh_lru_usage s + lh_charge h)) s).

Definition unlink_lru (e : Z) : M unit :=
  h ← deref e;
  let next := hl_next (lh_page_link h) in
  let prev := hl_prev (lh_page_link h) in
  _ ← modify (λ s, if sh_lru_low_pri s =? e then with_low_pri prev s else s);
  _ ← modify (λ s, if sh_lru_bottom_pri s =? e then with_bottom_pri prev s else s);
  _ ← assign next (set_page_prev prev);
  _ ← assign prev (set_page_next next);
  _ ← assign e (set_page_link link_null);
  _ ← modify (λ s, with_lru_usage (wrap64 (sh_lru_usage s - lh_charge h)) s);
  match in_cache_priority h with
  | PriHigh => modify (λ s, with_high_usage (wrap64 (sh_lru_high_usage s - lh_charge h)) s)
  | PriLow => modify (λ s, with_low_usage (wrap64 (sh_lru_low_usage s - lh_charge h)) s)
  | PriBottom => mret tt
  end.

(** ** The rings of the files *)

Definition link_file (e : Z) : M unit :=
  h ← deref e;
  let file_id := key_file_id (lh_key h) in
  ent ← gets (λ s, sh_files s !! file_id);
  match ent with
  | Some head =>
      hh ← deref head;
      let prev := hl_prev (lh_file_link hh) in
      _ ← assign e (set_file_link (mkHandleLink head prev));
      _ ← assign prev (set_file_next e);
      assign head (set_file_prev e)
  | None => modify (λ s, with_files (<[file_id := e]> (sh_files s)) s)
  end.
Definition unlink_file (e : Z) : M bool :=
  h ← deref e;
  let next := hl_next (lh_file_link h) in
  let prev := hl_prev (lh_file_link h) in
  _ ← assign next (set_file_prev prev);
  _ ← assign prev (set_file_next next);
  _ ← assign e (set_file_link (mkHandleLink e e));
  let file_id := key_file_id (lh_key h) in
  if next =? e then
    _ ← modify (λ s, with_files (delete file_id (sh_files s)) s);
    mret false
  else
    _ ← modify (λ s, with_files (<[file_id := next]> (sh_files s)) s);
    mret true.

(** ** Operations *)

Definition clear_handle (lh : Z) : M unit :=
  h ← deref lh;
  _ ← modify (λ s, with_usage (wrap64 (sh_usage s - lh_charge h)) s);
  box_drop lh.

Definition try_remove_cache_handle (p : Z) : M unit :=
  h ← deref p;
  if has_refs h then mret tt
  else
    _ ← unlink_lru p;
    _ ← unlink_file p;
    clear_handle p.

(** The loop of [evict_lru]: the oldest handles go until there is room. *)
Fixpoint evict_loop (fuel : nat) (charge : Z) : M unit :=
  match fuel with
  | O => lift Panic
  | S fuel =>
      s ← gets id;
      dummy ← deref (sh_lru_high_pri s);
      let old_ptr := hl_next (lh_page_link dummy) in
      if (sh_capacity s <? wrap64 (sh_usage s + charge)) && negb (old_ptr =? sh_lru_high_pri s) then
        h ← deref old_ptr;
        _ ← table_remove (lh_key h);
        _ ← unlink_lru old_ptr;
        _ ← unlink_file old_ptr;
        _ ← clear_handle old_ptr;
        _ ← modify (λ s, with_stats (inc_passive_evict (sh_stats s)) s);
        evict_loop fuel charge
      else mret tt
  end.
Definition evict_lru (charge option : Z) : M bool :=
  s ← gets id;
  if refill_cold_when_not_full option && (sh_capacity s <? wrap64 (sh_usage s + charge)) then mret false
  else
    _ ← evict_loop (S (size (sh_heap s))) charge;
    mret true.

(** [insert]; [p] is the address of the new handle. *)
Definition shard_insert (p key hash : Z) (value : option T) (charge opt : Z) : M Z :=
  room ← evict_lru charge opt;
  if negb room then
    let h := set_detached true (mkLRUHandle key hash value charge link_null link_null 0 0) in
    _ ← box_new p (set_file_link (mkHandleLink p p) h);
    mret p
  else
    let h := handle_set_priority (option_priority opt) (mkLRUHandle key hash value charge link_null link_null 0 0) in
    _ ← box_new p (set_file_link (mkHandleLink p p) h);
    old ← table_insert p;
    _ ← match old with Some old => try_remove_cache_handle old | None => mret tt end;
    _ ← modify (λ s, with_stats (inc_insert (sh_stats s)) s);
    _ ← modify (λ s, with_usage (wrap64 (sh_usage s + charge)) s);
    _ ← assign p add_ref;
    mret p.

Definition shard_release (p token : Z) : M unit :=
  h ← deref p;
  if is_detached h then box_drop p
  else
    '(last_reference, h) ← lift (unref h);
    _ ← assign p (λ _, h);
    if negb last_reference then mret tt
    else
      s ← gets id;
      if is_in_cache h then
        if (sh_usage s <=? sh_capacity s) && negb (returning_behavior_match token CACHE_DISCARD) then
          _ ← link_lru p (returning_behavior_match token CACHE_AS_RECENT);
          link_file p
        else
          _ ← table_remove (lh_key h);
          clear_handle p
      else clear_handle p.

Definition shard_lookup (key : Z) : M (option Z) :=
  e ← table_find key;
  match e with
  | Some e =>
      h ← deref e;
      _ ← (if negb (has_refs h) then
             _ ← unlink_lru e;
             _ ← unlink_file e;
             mret tt
           else mret tt);
      _ ← modify (λ s, with_stats (inc_lookup_hit (sh_stats s)) s);
      _ ← assign e add_ref;
      mret (Some e)
  | None =>
      _ ← modify (λ s, with_stats (inc_lookup_miss (sh_stats s)) s);
      mret None
  end.

Definition shard_erase (key : Z) : M unit :=
  h ← table_remove key;
  _ ← match h with Some h => try_remove_cache_handle h | None => mret tt end;
  modify (λ s, with_stats (inc_active_evict (sh_stats s)) s).

(** The loop of [erase_file_pages] around the ring of the file. *)
Fixpoint erase_ring (fuel : nat) (ptr : Z) : M unit :=
  match fuel with
  | O => lift Panic
  | S fuel =>
      h ← deref ptr;
      let next := hl_next (lh_file_link h) in
      _ ← shard_erase (lh_key h);
      if next =? ptr then mret tt else erase_ring fuel next
  end.
Definition shard_erase_file_pages (file_id : Z) : M unit :=
  hd ← gets (λ s, sh_files s !! file_id);
  n ← gets (λ s, size (sh_heap s));
  match hd with
  | None => mret tt
  | Some ptr => erase_ring n ptr
  end.
End shard.

(** [LRUCacheShard::new]; [ptr] is the address of the dummy handle. *)
Definition shard_new {T} (ptr capacity : Z) (high_pri_ratio low_pri_ratio : f64) : LRUCacheShard T :=
  let dummy := set_page_link (mkHandleLink ptr ptr) handle_default in
  let lru_high_capacity := f64_to_usize (f64_mul (f64_of capacity) high_pri_ratio) in
  let lru_low_capacity := f64_to_usize (f64_mul (f64_of capacity) low_pri_ratio) in
  mkLRUCacheShard (mkShardConfig capacity high_pri_ratio ptr lru_high_capacity low_pri_ratio lru_low_capacity)
    {[ptr := dummy]} ∅ ∅ 0 0 ptr 0 ptr 0 cache_stats_default.

(** ** The cache *)

(** [LRUCache]. Each shard owns the memory of its handles, so a pointer is the number
    of a shard with an address in its memory. The counters of [stats] are those of the
    shards. *)
Record LRUCache (T : Type) := mkLRUCache {
  lc_shards : list (LRUCacheShard T);
  lc_shard_mask : Z;
}.
Arguments mkLRUCache {T} _ _.
Arguments lc_shards {T} _.
Arguments lc_shard_mask {T} _.

(** [CacheEntry], with what its token says now. *)
Record CacheEntry := mkCacheEntry {
  ce_shard : nat;
  ce_ptr : Z;
  ce_token : Z;
}.
(** [CacheToken::invalidate_from_cache] and [return_cache_as_old], which write through
    the token of an entry. *)
Definition invalidate_from_cache (e : CacheEntry) : CacheEntry := mkCacheEntry (ce_shard e) (ce_ptr e) CACHE_DISCARD.
Definition return_cache_as_old (e : CacheEntry) : CacheEntry := mkCacheEntry (ce_shard e) (ce_ptr e) CACHE_AS_OLD.

(** The four rounds of [hash_key] over the bytes of a number. *)
Definition fnv32 (h n : Z) : Z :=
  (fix go k h n := match k with
                   | O => h
                   | S k => go k (Z.lxor (wrap32 (h * 16777619)) (Z.land n 255)) (Z.shiftr n 8)
                   end) 4%nat h n.
Definition hash_key (key : Z) : Z := fnv32 (fnv32 2166136261 (wrap32 (Z.shiftr key 32))) (wrap32 key).

Definition MIN_SHARD_SIZE : Z := Z.shiftl 32 20.
(** The loop of [new]: it ends after six rounds. *)
Fixpoint shard_bits (fuel : nat) (num_shards num_shard_bits : Z) : res Z :=
  match fuel with
  | O => Panic
  | S fuel =>
      let num_shards := Z.shiftr num_shards 1 in
      if num_shards =? 0 then Ok num_shard_bits
      else if 6 <=? num_shard_bits + 1 then Ok (num_shard_bits + 1)
      else shard_bits fuel num_shards (num_shard_bits + 1)
  end.

Section cache.
Context {T : Type}.
Abbreviation Cache := (LRUCache T).
Abbreviation M := (St Cache).

Definition cache_new (ptr capacity num_shard_bits : Z) (high_pri_ratio low_pri_ratio : f64) : res Cache :=
  _ ← rassert (f64_lt (f64_add high_pri_ratio low_pri_ratio) (f64_of 1));
  _ ← rassert (num_shard_bits <? 20);
  bits ← (if 0 <=? num_shard_bits then Ok num_shard_bits else shard_bits 6 (capacity / MIN_SHARD_SIZE) 0);
  let num_shards := wrap32 (Z.shiftl 1 bits) in
  let per_shard_cap := wrap64 (capacity + (num_shards - 1)) / num_shards in
  Ok (mkLRUCache (replicate (Z.to_nat num_shards) (shard_new ptr per_shard_cap high_pri_ratio low_pri_ratio)) (num_shards - 1)).

Definition cache_shard (c : Cache) (hash : Z) : nat := Z.to_nat (Z.land (lc_shard_mask c) hash).

(** Indexing a shard, locking it and calling one of its operations. *)
Definition on_shard {A} (i : nat) (m : St (LRUCacheShard T) A) : M A := λ c,
  match lc_shards c !! i with
  | None => (Panic, c)
  | Some s => let '(r, s) := m s in (r, mkLRUCache (<[i := s]> (lc_shards c)) (lc_shard_mask c))
  end.

Definition cache_insert (p key : Z) (value : option T) (charge option : Z) : M CacheEntry :=
  let hash := hash_key key in
  i ← gets (λ c, cache_shard c hash);
  on_shard i (
    ptr ← shard_insert p key hash value charge option;
    h ← deref ptr;
    mret (mkCacheEntry i ptr
      (if is_detached h then CACHE_DISCARD
       else if refill_cold_when_not_full option then CACHE_AS_OLD
       else token_default))).

Definition cache_lookup (key : Z) : M (option CacheEntry) :=
  i ← gets (λ c, cache_shard c (hash_key key));
  on_shard i (
    ptr ← shard_lookup key;
    mret ((λ ptr, mkCacheEntry i ptr token_default) <$> ptr)).

(** Dropping an entry calls [release], which finds the shard with the hash in the
    handle; a shard cannot take the handle of another one. *)
Definition cache_release (e : CacheEntry) : M unit :=
  h ← on_shard (ce_shard e) (deref (ce_ptr e));
  i ← gets (λ c, cache_shard c (lh_hash h));
  _ ← lift (rassert (bool_decide (i = ce_shard e)));
  on_shard i (shard_release (ce_ptr e) (ce_token e)).

Definition cache_erase (key : Z) : M unit :=
  i ← gets (λ c, cache_shard c (hash_key key));
  on_shard i (shard_erase key).

Fixpoint erase_in_shards (file_id : Z) (ids : list nat) : M unit :=
  match ids with
  | [] => mret tt
  | i :: ids => _ ← on_shard i (shard_erase_file_pages file_id); erase_in_shards file_id ids
  end.
Definition cache_erase_file_pages (file_id : Z) : M unit :=
  n ← gets (λ c, length (lc_shards c));
  erase_in_shards file_id (seq 0 n).

Definition cache_stats (c : Cache) : CacheStats :=
  foldl (λ summary s, cache_stats_add summary (sh_stats s)) cache_stats_default (lc_shards c).

(** [CacheEntry::key] and [CacheEntry::value]. *)
Definition entry_key (e : CacheEntry) (c : Cache) : res Z :=
  s ← expect (lc_shards c !! ce_shard e);
  h ← expect (sh_heap s !! ce_ptr e);
  Ok (lh_key h).
Definition entry_value (e : CacheEntry) (c : Cache) : res T :=
  s ← expect (lc_shards c !! ce_shard e);
  h ← expect (sh_heap s !! ce_ptr e);
  expect (lh_value h).
End cache.

Example cache_new_shards :
  (c ← cache_new (T := unit) 1 (Z.shiftl 8 30) (-1) (f64_lit 1 (-1)) (f64_of 0); Ok (length (lc_shards c), lc_shard_mask c)) = Ok (64%nat, 63).
Proof. vm_compute. reflexivity. Qed.
Example hash_key_small : hash_key 1 = 1559936538.
Proof. vm_compute. reflexivity. Qed.
