(* ===== verification/Ring.v ===== *)
(** * Rings of pointers

    A doubly linked ring is a cyclic list: [nx] and [pv] map a pointer to the next and
    the previous one. Putting a pointer behind another one and taking one out are the
    writes of the LRU cache; here is what they do to the list. *)

From stdpp Require Import base numbers list gmap.
From Stdlib Require Import ZArith Lia.
From S2P Require Import Prelude.

Implicit Types nx pv : gmap Z Z.

(** From [a] along the pointers of [l] to [b]. *)
Fixpoint seg nx pv (a : Z) (l : list Z) (b : Z) : Prop :=
  match l with
  | [] => nx !! a = Some b /\ pv !! b = Some a
  | x :: l => nx !! a = Some x /\ pv !! x = Some a /\ seg nx pv x l b
  end.
Definition ring nx pv (l : list Z) : Prop :=
  match l with [] => True | a :: l => seg nx pv a l a end.

(** The neighbour on the right of a list that ends in [b], and on the left of one that
    starts at [a]. *)
Definition first_of (b : Z) (l : list Z) : Z := default b (head l).
Definition last_of (a : Z) (l : list Z) : Z := default a (last l).

Lemma last_of_app a l1 l2 : last_of a (l1 ++ l2) = last_of (last_of a l1) l2.
Proof. unfold last_of. rewrite last_app. by destruct (last l2). Qed.
Lemma last_of_snoc a l x : last_of a (l ++ [x]) = x.
Proof. unfold last_of. by rewrite last_snoc. Qed.
Lemma last_of_cons a x l : last_of a (x :: l) = last_of x l.
Proof. unfold last_of. rewrite last_cons. by destruct (last l). Qed.
Lemma last_of_in a l : last_of a l = a \/ last_of a l ∈ l.
Proof. destruct l as [|x l _] using rev_ind; [by left|]. rewrite last_of_snoc. right. apply elem_of_app. right. by left. Qed.

Lemma seg_app nx pv a l1 x l2 b : seg nx pv a (l1 ++ x :: l2) b <-> seg nx pv a l1 x /\ seg nx pv x l2 b.
Proof. revert a. induction l1 as [|y l1 IH]; intros a; cbn [app seg]; [tauto|]. rewrite IH. tauto. Qed.

Lemma seg_frame nx pv nx' pv' a l b :
  (forall x, x ∈ a :: l -> nx' !! x = nx !! x) -> (forall x, x ∈ l ++ [b] -> pv' !! x = pv !! x) ->
  seg nx pv a l b -> seg nx' pv' a l b.
Proof.
  revert a. induction l as [|x l IH]; intros a Hn Hp; cbn [seg].
  - rewrite (Hn a), (Hp b) by (by left). done.
  - rewrite (Hn a), (Hp x) by (by left). intros (? & ? & ?). split_and!; [done..|]. apply IH; [..|done]; intros y Hy; [apply Hn|apply Hp]; by right.
Qed.
Lemma ring_frame nx pv nx' pv' l :
  (forall x, x ∈ l -> nx' !! x = nx !! x /\ pv' !! x = pv !! x) -> ring nx pv l -> ring nx' pv' l.
Proof.
  destruct l as [|a l]; [done|]. intros Hf. apply seg_frame; intros x Hx; [by apply Hf|].
  apply elem_of_app in Hx as [?| ->%list_elem_of_singleton]; apply Hf; [by right|by left].
Qed.

Lemma ring_rotate nx pv l1 l2 : ring nx pv (l1 ++ l2) -> ring nx pv (l2 ++ l1).
Proof.
  destruct l1 as [|a l1]; [by rewrite app_nil_r|]. destruct l2 as [|b l2]; [by rewrite app_nil_r|].
  cbn [ring app]. rewrite !seg_app. tauto.
Qed.

(** The neighbours of a pointer in the ring. *)
Lemma seg_first nx pv a l b : seg nx pv a l b -> nx !! a = Some (first_of b l).
Proof. destruct l; cbn; tauto. Qed.
Lemma seg_last nx pv a l b : seg nx pv a l b -> pv !! b = Some (last_of a l).
Proof. revert a. induction l as [|x l IH]; intros a; [cbn; tauto|]. intros (_ & _ & Hs). by rewrite (IH _ Hs), last_of_cons. Qed.

Lemma ring_next nx pv l1 p l2 : ring nx pv (l1 ++ p :: l2) -> nx !! p = Some (first_of p (l2 ++ l1)).
Proof. intros H%ring_rotate. by apply seg_first in H. Qed.
Lemma ring_prev nx pv l1 p l2 : ring nx pv (l1 ++ p :: l2) -> pv !! p = Some (last_of p (l2 ++ l1)).
Proof. intros H%ring_rotate. by apply seg_last in H. Qed.

Lemma ring_push nx pv p e l :
  NoDup (p :: l) -> e ∉ p :: l -> ring nx pv (p :: l) ->
  let q := first_of p l in
  ring (<[p := e]> (<[e := q]> nx)) (<[q := e]> (<[e := p]> pv)) (p :: e :: l).
Proof.
  intros [Hp Hl]%NoDup_cons [He1 He2]%not_elem_of_cons Hr q. cbn [ring seg] in *. rewrite lookup_insert_eq.
  assert (Hqe : q <> e) by (unfold q; destruct l as [|x l]; cbn; [done|]; apply not_elem_of_cons in He2; naive_solver).
  rewrite (lookup_insert_ne _ q e), lookup_insert_eq by done. split_and!; [done..|].
  destruct l as [|x l]; cbn [seg first_of head default] in *; subst q; cbn in *.
  - rewrite lookup_insert_ne, !lookup_insert_eq by done. done.
  - apply NoDup_cons in Hl as [Hx Hl]. destruct Hr as (_ & _ & Hs). apply not_elem_of_cons in Hp as [Hpx Hp].
    rewrite (lookup_insert_ne _ p e), !lookup_insert_eq by done. split_and!; [done..|].
    apply not_elem_of_cons in He2 as [? He2]. eapply seg_frame; [..|exact Hs].
    + intros y Hy. rewrite !lookup_insert_ne; [done|intros ->; set_solver..].
    + intros y [Hy| ->%list_elem_of_singleton]%elem_of_app; rewrite !lookup_insert_ne; try done; intros ->; done.
Qed.
Lemma ring_pop nx pv p e l :
  NoDup (p :: e :: l) -> ring nx pv (p :: e :: l) ->
  let q := first_of p l in
  ring (<[p := q]> nx) (<[q := p]> pv) (p :: l).
Proof.
  intros [Hp [He Hl]%NoDup_cons]%NoDup_cons (H1 & H2 & Hs) q. apply not_elem_of_cons in Hp as [Hpe Hp].
  destruct l as [|x l]; subst q; cbn in *.
  - by rewrite !lookup_insert_eq.
  - destruct Hs as (H3 & H4 & Hs). apply NoDup_cons in Hl as [Hx Hl]. apply not_elem_of_cons in Hp as [Hpx Hp].
    rewrite !lookup_insert_eq. split_and!; [done..|]. eapply seg_frame; [..|exact Hs].
    + intros y Hy. rewrite lookup_insert_ne; [done|]. intros ->. apply elem_of_cons in Hy as [?|?]; done.
    + intros y [Hy| ->%list_elem_of_singleton]%elem_of_app; rewrite lookup_insert_ne; try done; intros ->; done.
Qed.

(** Putting [e] behind [p], anywhere in the ring. *)
Lemma ring_insert nx pv l1 p l2 e :
  NoDup (l1 ++ p :: l2) -> e ∉ l1 ++ p :: l2 -> ring nx pv (l1 ++ p :: l2) ->
  let q := first_of p (l2 ++ l1) in
  ring (<[p := e]> (<[e := q]> nx)) (<[q := e]> (<[e := p]> pv)) (l1 ++ p :: e :: l2).
Proof.
  intros Hn He Hr. rewrite (Permutation_app_comm l1 (p :: l2)) in Hn, He. apply ring_rotate in Hr. cbn [app] in *.
  pose proof (ring_push _ _ _ _ _ Hn He Hr) as H. by apply (ring_rotate _ _ (p :: e :: l2) l1).
Qed.
(** Taking [e] out of a ring with at least one more pointer. *)
Lemma ring_remove nx pv l1 e l2 :
  NoDup (l1 ++ e :: l2) -> l2 ++ l1 <> [] -> ring nx pv (l1 ++ e :: l2) ->
  let p := last_of e (l2 ++ l1) in let q := first_of e (l2 ++ l1) in
  ring (<[p := q]> nx) (<[q := p]> pv) (l1 ++ l2).
Proof.
  intros Hn Hne Hr. rewrite (Permutation_app_comm l1 (e :: l2)) in Hn. apply ring_rotate in Hr. cbn [app] in *.
  destruct (l2 ++ l1) as [|p l _] eqn:El using rev_ind; [done|]. rewrite last_of_snoc.
  replace (first_of e (l ++ [p])) with (first_of p l) by (by destruct l).
  assert (Hn' : NoDup (p :: e :: l)) by (rewrite (Permutation_app_comm l [p]) in Hn; cbn in Hn; by rewrite Permutation_swap).
  assert (Hr' : ring nx pv (p :: e :: l)) by (by apply (ring_rotate _ _ (e :: l) [p])).
  pose proof (ring_pop _ _ _ _ _ Hn' Hr') as H. cbv zeta in H. apply (ring_rotate _ _ l2 l1). rewrite El.
  by apply (ring_rotate _ _ [p] l).
Qed.
