(* ===== verification/LruHeap.v ===== *)
(** * The memory of the LRU cache as maps ([page_store/cache/lru.rs])

    A heap of handles is six maps: what the handles hold, their place in the list, and
    the two links of the list and of the file rings. Each write of the cache changes one
    or two of them. The list and the rings of a shard are then described with
    [Ring.v]. *)

From stdpp Require Import base numbers list gmap.
From Stdlib Require Import ZArith Lia.
From S2P Require Import Prelude Float64 CacheHandle LruCache Ring.

(** ** Views *)

(** What a handle holds, without its links and its place in the list. *)
Record HandleCore (T : Type) := mkHandleCore {
  hc_key : Z;
  hc_hash : Z;
  hc_value : option T;
  hc_charge : Z;
  hc_refs : Z;
  hc_in_cache : bool;
  hc_detached : bool;
  hc_priority : CachePriority;
}.
Arguments mkHandleCore {T} _ _ _ _ _ _ _ _.
Arguments hc_key {T} _.
Arguments hc_hash {T} _.
Arguments hc_value {T} _.
Arguments hc_charge {T} _.
Arguments hc_refs {T} _.
Arguments hc_in_cache {T} _.
Arguments hc_detached {T} _.
Arguments hc_priority {T} _.

Record View (T : Type) := mkView {
  v_core : gmap Z (HandleCore T);
  v_place : gmap Z CachePriority;
  v_pn : gmap Z Z;
  v_pp : gmap Z Z;
  v_fn : gmap Z Z;
  v_fp : gmap Z Z;
}.
Arguments mkView {T} _ _ _ _ _ _.
Arguments v_core {T} _.
Arguments v_place {T} _.
Arguments v_pn {T} _.
Arguments v_pp {T} _.
Arguments v_fn {T} _.
Arguments v_fp {T} _.

Section view.
Context {T : Type}.
Implicit Types (x : LRUHandle T) (h : gmap Z (LRUHandle T)) (s : LRUCacheShard T).

Definition core x : HandleCore T :=
  mkHandleCore (lh_key x) (lh_hash x) (lh_value x) (lh_charge x) (lh_refs x) (is_in_cache x) (is_detached x) (handle_priority x).
Definition view h : View T :=
  mkView (core <$> h) (in_cache_priority <$> h) ((λ x, hl_next (lh_page_link x)) <$> h) ((λ x, hl_prev (lh_page_link x)) <$> h)
    ((λ x, hl_next (lh_file_link x)) <$> h) ((λ x, hl_prev (lh_file_link x)) <$> h).
Definition sview s : View T := view (sh_heap s).

(** Updates of a view. *)
Definition up_core (f : gmap Z (HandleCore T) -> gmap Z (HandleCore T)) (v : View T) : View T :=
  mkView (f (v_core v)) (v_place v) (v_pn v) (v_pp v) (v_fn v) (v_fp v).
Definition up_place (f : gmap Z CachePriority -> gmap Z CachePriority) (v : View T) : View T :=
  mkView (v_core v) (f (v_place v)) (v_pn v) (v_pp v) (v_fn v) (v_fp v).
Definition up_page (f g : gmap Z Z -> gmap Z Z) (v : View T) : View T :=
  mkView (v_core v) (v_place v) (f (v_pn v)) (g (v_pp v)) (v_fn v) (v_fp v).
Definition up_file (f g : gmap Z Z -> gmap Z Z) (v : View T) : View T :=
  mkView (v_core v) (v_place v) (v_pn v) (v_pp v) (f (v_fn v)) (g (v_fp v)).

Lemma view_core_lookup h p x : h !! p = Some x -> v_core (view h) !! p = Some (core x).
Proof. intros E. cbn. by rewrite lookup_fmap, E. Qed.
Lemma view_lookup h p c : v_core (view h) !! p = Some c ->
  exists x, h !! p = Some x /\ core x = c /\ v_place (view h) !! p = Some (in_cache_priority x) /\
    v_pn (view h) !! p = Some (hl_next (lh_page_link x)) /\ v_pp (view h) !! p = Some (hl_prev (lh_page_link x)) /\
    v_fn (view h) !! p = Some (hl_next (lh_file_link x)) /\ v_fp (view h) !! p = Some (hl_prev (lh_file_link x)).
Proof. cbn. rewrite !lookup_fmap. intros (x & E & Ex)%fmap_Some. exists x. by rewrite E. Qed.
Lemma view_some h p : is_Some (v_core (view h) !! p) <-> is_Some (h !! p).
Proof. cbn. by rewrite lookup_fmap, fmap_is_Some. Qed.

(** A projection that a write does not change. *)
Lemma fmap_insert_same {A B} (f : A -> B) (m : gmap Z A) (p : Z) (x y : A) : m !! p = Some x -> f y = f x -> f <$> <[p := y]> m = f <$> m.
Proof. intros E Ef. rewrite fmap_insert, Ef. apply insert_id. by rewrite lookup_fmap, E. Qed.

Ltac view_write E :=
  unfold view, up_core, up_place, up_page, up_file; cbn [v_core v_place v_pn v_pp v_fn v_fp]; f_equal;
  first [by rewrite fmap_insert | by apply (fmap_insert_same _ _ _ _ _ E)].

Lemma view_page_next h p x q : h !! p = Some x -> view (<[p := set_page_next q x]> h) = up_page <[p := q]> id (view h).
Proof. intros E. view_write E. Qed.
Lemma view_page_prev h p x q : h !! p = Some x -> view (<[p := set_page_prev q x]> h) = up_page id <[p := q]> (view h).
Proof. intros E. view_write E. Qed.
Lemma view_page_link h p x n q : h !! p = Some x -> view (<[p := set_page_link (mkHandleLink n q) x]> h) = up_page <[p := n]> <[p := q]> (view h).
Proof. intros E. view_write E. Qed.
Lemma view_file_next h p x q : h !! p = Some x -> view (<[p := set_file_next q x]> h) = up_file <[p := q]> id (view h).
Proof. intros E. view_write E. Qed.
Lemma view_file_prev h p x q : h !! p = Some x -> view (<[p := set_file_prev q x]> h) = up_file id <[p := q]> (view h).
Proof. intros E. view_write E. Qed.
Lemma view_file_link h p x n q : h !! p = Some x -> view (<[p := set_file_link (mkHandleLink n q) x]> h) = up_file <[p := n]> <[p := q]> (view h).
Proof. intros E. view_write E. Qed.
Lemma core_in_priority pri x : core (set_in_cache_priority pri x) = core x.
Proof.
  unfold core. rewrite in_cache_in_priority, detached_in_priority. cbn [set_in_cache_priority set_flags lh_key lh_hash lh_value lh_charge lh_refs].
  f_equal. destruct pri; by flag_simpl.
Qed.
Lemma view_place_set h p x pri : h !! p = Some x -> view (<[p := set_in_cache_priority pri x]> h) = up_place <[p := pri]> (view h).
Proof.
  intros E. unfold view, up_place. cbn [v_core v_place v_pn v_pp v_fn v_fp]. f_equal; try by apply (fmap_insert_same _ _ _ _ _ E).
  - apply (fmap_insert_same _ _ _ _ _ E), core_in_priority.
  - by rewrite fmap_insert, in_priority_set.
Qed.
(** A write that keeps the links and the place. *)
Lemma view_core_set h p x y : h !! p = Some x -> lh_page_link y = lh_page_link x -> lh_file_link y = lh_file_link x ->
  in_cache_priority y = in_cache_priority x -> view (<[p := y]> h) = up_core <[p := core y]> (view h).
Proof.
  intros E E1 E2 E3. unfold view, up_core. cbn [v_core v_place v_pn v_pp v_fn v_fp]. rewrite fmap_insert.
  f_equal; apply (fmap_insert_same _ _ _ _ _ E); by rewrite ?E1, ?E2.
Qed.

(** ** Running the primitive steps *)

Lemma deref_ok p x s : sh_heap s !! p = Some x -> deref p s = (Ok x, s).
Proof. intros E. unfold deref. by rewrite E. Qed.
Lemma assign_ok p f x s : sh_heap s !! p = Some x -> assign p f s = (Ok tt, with_heap (<[p := f x]> (sh_heap s)) s).
Proof. intros E. unfold assign. by rewrite (st_bind_ok _ _ _ _ _ (deref_ok p x s E)). Qed.

Lemma page_insert_ok e prev next s :
  is_Some (sh_heap s !! e) -> is_Some (sh_heap s !! prev) -> is_Some (sh_heap s !! next) ->
  exists h', page_insert e prev next s = (Ok tt, with_heap h' s) /\
    view h' = up_page (λ m, <[prev := e]> (<[e := next]> m)) (λ m, <[next := e]> (<[e := prev]> m)) (sview s).
Proof.
  intros [xe Ee] Hp Hn. unfold page_insert. st_step (assign_ok _ _ _ _ Ee). set (h1 := <[e := _]> (sh_heap s)).
  assert (V1 : view h1 = up_page <[e := next]> <[e := prev]> (sview s)) by (by apply view_page_link).
  assert (D1 : forall p, is_Some (sh_heap s !! p) -> is_Some (h1 !! p)) by (intros p; unfold h1; rewrite lookup_insert_is_Some; destruct (decide (e = p)); tauto).
  destruct (D1 _ Hp) as [xp Ep]. st_step (assign_ok _ _ xp (with_heap h1 s) Ep). cbn [with_heap sh_heap].
  set (h2 := <[prev := _]> h1). assert (V2 : view h2 = up_page <[prev := e]> id (view h1)) by (by apply view_page_next).
  assert (D2 : is_Some (h2 !! next)) by (unfold h2; rewrite lookup_insert_is_Some; destruct (decide (prev = next)); [by left|right; auto]).
  destruct D2 as [xn En]. exists (<[next := set_page_prev e xn]> h2). split.
  - exact (assign_ok _ _ xn (with_heap h2 s) En).
  - rewrite (view_page_prev _ _ _ _ En), V2, V1. done.
Qed.

(** The writes of [unlink_lru] and [unlink_file]. *)
Lemma page_remove_ok {A} e prev next s (k : unit -> St (LRUCacheShard T) A) :
  is_Some (sh_heap s !! e) -> is_Some (sh_heap s !! prev) -> is_Some (sh_heap s !! next) ->
  exists h', (_ ← assign next (set_page_prev prev); _ ← assign prev (set_page_next next); assign e (set_page_link link_null) ≫= k) s =
      k tt (with_heap h' s) /\
    view h' = up_page (λ m, <[e := 0]> (<[prev := next]> m)) (λ m, <[e := 0]> (<[next := prev]> m)) (sview s).
Proof.
  intros He Hp [xn En]. st_step (assign_ok _ _ _ _ En). set (h1 := <[next := _]> (sh_heap s)).
  assert (V1 : view h1 = up_page id <[next := prev]> (sview s)) by (by apply view_page_prev).
  assert (D1 : forall p, is_Some (sh_heap s !! p) -> is_Some (h1 !! p)) by (intros p; unfold h1; rewrite lookup_insert_is_Some; destruct (decide (next = p)); tauto).
  destruct (D1 _ Hp) as [xp Ep]. st_step (assign_ok _ _ xp (with_heap h1 s) Ep). cbn [with_heap sh_heap].
  set (h2 := <[prev := _]> h1). assert (V2 : view h2 = up_page <[prev := next]> id (view h1)) by (by apply view_page_next).
  assert (D2 : is_Some (h2 !! e)) by (unfold h2; rewrite lookup_insert_is_Some; destruct (decide (prev = e)); [by left|right; auto]).
  destruct D2 as [xe Ee]. exists (<[e := set_page_link link_null xe]> h2). split.
  - st_step (assign_ok e (set_page_link link_null) xe (with_heap h2 s) Ee). done.
  - unfold link_null. rewrite (view_page_link _ _ _ _ _ Ee), V2, V1. done.
Qed.

(** The same for the rings of the files. *)
Lemma file_insert_ok e prev next s :
  is_Some (sh_heap s !! e) -> is_Some (sh_heap s !! prev) -> is_Some (sh_heap s !! next) ->
  exists h', (_ ← assign e (set_file_link (mkHandleLink next prev)); _ ← assign prev (set_file_next e); assign next (set_file_prev e)) s =
      (Ok tt, with_heap h' s) /\
    view h' = up_file (λ m, <[prev := e]> (<[e := next]> m)) (λ m, <[next := e]> (<[e := prev]> m)) (sview s).
Proof.
  intros [xe Ee] Hp Hn. st_step (assign_ok _ _ _ _ Ee). set (h1 := <[e := _]> (sh_heap s)).
  assert (V1 : view h1 = up_file <[e := next]> <[e := prev]> (sview s)) by (by apply view_file_link).
  assert (D1 : forall p, is_Some (sh_heap s !! p) -> is_Some (h1 !! p)) by (intros p; unfold h1; rewrite lookup_insert_is_Some; destruct (decide (e = p)); tauto).
  destruct (D1 _ Hp) as [xp Ep]. st_step (assign_ok _ _ xp (with_heap h1 s) Ep). cbn [with_heap sh_heap].
  set (h2 := <[prev := _]> h1). assert (V2 : view h2 = up_file <[prev := e]> id (view h1)) by (by apply view_file_next).
  assert (D2 : is_Some (h2 !! next)) by (unfold h2; rewrite lookup_insert_is_Some; destruct (decide (prev = next)); [by left|right; auto]).
  destruct D2 as [xn En]. exists (<[next := set_file_prev e xn]> h2). split.
  - exact (assign_ok _ _ xn (with_heap h2 s) En).
  - rewrite (view_file_prev _ _ _ _ En), V2, V1. done.
Qed.

Lemma file_remove_ok {A} e prev next s (k : unit -> St (LRUCacheShard T) A) :
  is_Some (sh_heap s !! e) -> is_Some (sh_heap s !! prev) -> is_Some (sh_heap s !! next) ->
  exists h', (_ ← assign next (set_file_prev prev); _ ← assign prev (set_file_next next); assign e (set_file_link (mkHandleLink e e)) ≫= k) s =
      k tt (with_heap h' s) /\
    view h' = up_file (λ m, <[e := e]> (<[prev := next]> m)) (λ m, <[e := e]> (<[next := prev]> m)) (sview s).
Proof.
  intros He Hp [xn En]. st_step (assign_ok _ _ _ _ En). set (h1 := <[next := _]> (sh_heap s)).
  assert (V1 : view h1 = up_file id <[next := prev]> (sview s)) by (by apply view_file_prev).
  assert (D1 : forall p, is_Some (sh_heap s !! p) -> is_Some (h1 !! p)) by (intros p; unfold h1; rewrite lookup_insert_is_Some; destruct (decide (next = p)); tauto).
  destruct (D1 _ Hp) as [xp Ep]. st_step (assign_ok _ _ xp (with_heap h1 s) Ep). cbn [with_heap sh_heap].
  set (h2 := <[prev := _]> h1). assert (V2 : view h2 = up_file <[prev := next]> id (view h1)) by (by apply view_file_next).
  assert (D2 : is_Some (h2 !! e)) by (unfold h2; rewrite lookup_insert_is_Some; destruct (decide (prev = e)); [by left|right; auto]).
  destruct D2 as [xe Ee]. exists (<[e := set_file_link (mkHandleLink e e) xe]> h2). split.
  - st_step (assign_ok e (set_file_link (mkHandleLink e e)) xe (with_heap h2 s) Ee). done.
  - rewrite (view_file_link _ _ _ _ _ Ee), V2, V1. done.
Qed.
End view.
