(* ===== verification/LruList.v ===== *)
(** * The list of the LRU cache ([page_store/cache/lru.rs])

    The list of a shard in three parts, from the dummy handle on: bottom, low and high
    priority. [page_part] says that the links form this list, that the pointers between
    the parts and the places noted in the handles agree with it, and that the usage
    counters are the sums of the charges. *)

From stdpp Require Import base numbers list gmap.
From Stdlib Require Import ZArith Lia.
From S2P Require Import Prelude Float64 CacheHandle LruCache Ring LruHeap.

Section lru_list.
Context {T : Type}.
Implicit Types (s : LRUCacheShard T) (C : gmap Z (HandleCore T)).

(** ** Charges *)

Definition charge_at C (p : Z) : Z := match C !! p with Some c => hc_charge c | None => 0 end.
Definition charges C (l : list Z) : Z := foldr (λ p n, charge_at C p + n) 0 l.
Definition charges_ok C : Prop := forall p c, C !! p = Some c -> 0 <= hc_charge c.

Lemma charges_app C l1 l2 : charges C (l1 ++ l2) = charges C l1 + charges C l2.
Proof. induction l1 as [|x l1 IH]; cbn; [done|]. fold (charges C (l1 ++ l2)). rewrite IH. fold (charges C l1). lia. Qed.
Lemma charges_cons C x l : charges C (x :: l) = charge_at C x + charges C l.
Proof. done. Qed.
Lemma charge_at_nonneg C p : charges_ok C -> 0 <= charge_at C p.
Proof. intros Hc. unfold charge_at. destruct (C !! p) eqn:E; [|done]. by eapply Hc. Qed.
Lemma charges_nonneg C l : charges_ok C -> 0 <= charges C l.
Proof. intros Hc. induction l as [|x l IH]; [done|]. rewrite charges_cons. pose proof (charge_at_nonneg C x Hc). lia. Qed.

Lemma charge_at_some s p x : sh_heap s !! p = Some x -> charge_at (v_core (sview s)) p = lh_charge x.
Proof. intros E. unfold charge_at, sview. by rewrite (view_core_lookup _ _ _ E). Qed.

(** ** The list *)

(** What the operations on the list do not touch. *)
Record list_frame s s' : Prop := {
  lf_config : sh_config s' = sh_config s;
  lf_pages : sh_pages s' = sh_pages s;
  lf_files : sh_files s' = sh_files s;
  lf_usage : sh_usage s' = sh_usage s;
  lf_stats : sh_stats s' = sh_stats s;
  lf_core : v_core (sview s') = v_core (sview s);
  lf_fn : v_fn (sview s') = v_fn (sview s);
  lf_fp : v_fp (sview s') = v_fp (sview s);
}.
Lemma list_frame_refl s : list_frame s s.
Proof. by split. Qed.
Lemma list_frame_trans s1 s2 s3 : list_frame s1 s2 -> list_frame s2 s3 -> list_frame s1 s3.
Proof. intros [] []. split; congruence. Qed.

Record page_part s (B L H : list Z) : Prop := {
  pp_nodup : NoDup (sh_lru_high_pri s :: B ++ L ++ H);
  pp_ring : ring (v_pn (sview s)) (v_pp (sview s)) (sh_lru_high_pri s :: B ++ L ++ H);
  pp_bottom : sh_lru_bottom_pri s = last_of (sh_lru_high_pri s) B;
  pp_low : sh_lru_low_pri s = last_of (sh_lru_high_pri s) (B ++ L);
  pp_in_bottom : forall p, p ∈ B -> v_place (sview s) !! p = Some PriBottom;
  pp_in_low : forall p, p ∈ L -> v_place (sview s) !! p = Some PriLow;
  pp_in_high : forall p, p ∈ H -> v_place (sview s) !! p = Some PriHigh;
  pp_low_usage : sh_lru_low_usage s = charges (v_core (sview s)) L;
  pp_high_usage : sh_lru_high_usage s = charges (v_core (sview s)) H;
  pp_charges : charges_ok (v_core (sview s));
  pp_bound : charges (v_core (sview s)) (B ++ L ++ H) < 2 ^ 64;
  pp_caps : 0 <= sc_lru_low_capacity (sh_config s) /\ 0 <= sc_lru_high_capacity (sh_config s);
}.

Lemma last_of_split d l : exists l1, d :: l = l1 ++ [last_of d l].
Proof. destruct l as [|x l _] using rev_ind; [by exists []|]. rewrite last_of_snoc. by exists (d :: l). Qed.

(** The handles of the list are allocated. *)
Lemma ring_some s l p : ring (v_pn (sview s)) (v_pp (sview s)) l -> p ∈ l -> is_Some (sh_heap s !! p).
Proof.
  intros Hr (l1 & l2 & ->)%list_elem_of_split. apply ring_next in Hr. unfold sview, view in Hr. cbn [v_pn] in Hr. rewrite lookup_fmap in Hr.
  apply fmap_Some in Hr as (x & E & _). by exists x.
Qed.
Lemma page_part_length s B L H : page_part s B L H -> (length (B ++ L ++ H) < size (sh_heap s))%nat.
Proof.
  intros Hp. pose proof (pp_nodup _ _ _ _ Hp) as Hn.
  assert (Hsub : list_to_set (sh_lru_high_pri s :: B ++ L ++ H) ⊆ (dom (sh_heap s) : gset Z)).
  { intros p Hin%elem_of_list_to_set. apply elem_of_dom. eapply ring_some; [by eapply pp_ring|done]. }
  apply subseteq_size in Hsub. rewrite size_dom, size_list_to_set in Hsub by done. cbn [length] in Hsub. lia.
Qed.

(** What lies behind the last handle of a part, and before the dummy. *)
Lemma part_next s l1 l2 :
  ring (v_pn (sview s)) (v_pp (sview s)) (sh_lru_high_pri s :: l1 ++ l2) ->
  exists h, sh_heap s !! last_of (sh_lru_high_pri s) l1 = Some h /\ hl_next (lh_page_link h) = first_of (sh_lru_high_pri s) l2.
Proof.
  set (d := sh_lru_high_pri s). intros Hr. destruct (last_of_split d l1) as [l E]. rewrite app_comm_cons, E in Hr.
  destruct (ring_some s _ (last_of d l1) Hr) as [h Eh]; [apply elem_of_app; left; apply elem_of_app; right; by left|].
  rewrite <- app_assoc in Hr. cbn [app] in Hr. apply ring_next in Hr.
  exists h. split; [done|]. unfold sview, view in Hr. cbn [v_pn] in Hr. rewrite lookup_fmap, Eh in Hr. injection Hr as ->.
  destruct l2; [|done]. cbn [app first_of head default]. destruct l; cbn in E |- *; injection E; congruence.
Qed.
Lemma part_prev s l :
  ring (v_pn (sview s)) (v_pp (sview s)) (sh_lru_high_pri s :: l) ->
  exists h, sh_heap s !! sh_lru_high_pri s = Some h /\ hl_prev (lh_page_link h) = last_of (sh_lru_high_pri s) l.
Proof.
  intros Hr. destruct (ring_some s _ _ Hr (list_elem_of_here _ _)) as [h Eh]. exists h. split; [done|].
  apply (ring_prev _ _ []) in Hr. rewrite app_nil_r in Hr. unfold sview, view in Hr. cbn [v_pp] in Hr. rewrite lookup_fmap, Eh in Hr. by injection Hr.
Qed.

(** ** Moving the boundaries *)

Lemma demote_high_ok fuel s B L H :
  page_part s B L H -> (length H < fuel)%nat ->
  exists s' H1 H2, H = H1 ++ H2 /\ demote_high fuel s = (Ok tt, s') /\ page_part s' B (L ++ H1) H2 /\ list_frame s s' /\
    sh_lru_usage s' = sh_lru_usage s /\ sh_lru_high_usage s' <= sc_lru_high_capacity (sh_config s).
Proof.
  revert s L H. induction fuel as [|fuel IH]; intros s L H Hp Hf; [lia|]. cbn [demote_high].
  rewrite st_get. destruct (sc_lru_high_capacity (sh_config s) <? sh_lru_high_usage s) eqn:Ec; cycle 1.
  { apply Z.ltb_ge in Ec. exists s, [], H. rewrite app_nil_r. split_and!; [done..|apply list_frame_refl|done|done]. }
  apply Z.ltb_lt in Ec. destruct Hp as [Hn Hr Hb Hl HB HL HH Hlu Hhu Hc Hbd Hcap].
  destruct H as [|x H]; [rewrite Hhu in Ec; cbn in Ec; lia|].
  destruct (part_next s (B ++ L) (x :: H)) as (h & Eh & Ex); [by rewrite <- app_assoc|]. change (first_of _ _) with x in Ex.
  rewrite <- Hl in Eh. st_step (deref_ok _ _ _ Eh). rewrite Ex, st_modify.
  destruct (ring_some s _ x Hr) as [hx Hx]; [right; rewrite !elem_of_app; right; right; by left|].
  st_step (assign_ok x _ hx (with_low_pri x s) Hx). cbn [with_low_pri with_heap sh_heap]. set (h' := <[x := _]> (sh_heap s)).
  match goal with |- context [mbind _ (deref x) ?s1] => rewrite (st_bind_ok _ _ _ _ _ (deref_ok x (set_in_cache_priority PriLow hx) s1 (lookup_insert_eq _ _ _))) end.
  cbn [lh_charge set_in_cache_priority set_flags]. rewrite !st_modify. cbn [with_low_pri with_heap with_high_usage with_low_usage sh_config sh_heap sh_pages sh_files sh_lru_usage sh_lru_high_usage sh_lru_low_pri sh_lru_low_usage sh_lru_bottom_pri sh_usage sh_stats].
  match goal with |- context [demote_high fuel ?s1] => set (s2 := s1) end.
  pose proof (charge_at_some _ _ _ Hx) as Hcx.
  rewrite !charges_app, charges_cons, Hcx in Hbd. rewrite charges_cons, Hcx in Hhu.
  pose proof (charges_nonneg _ B Hc). pose proof (charges_nonneg _ L Hc). pose proof (charges_nonneg _ H Hc). pose proof (charge_at_nonneg _ x Hc). rewrite Hcx in *.
  assert (V : sview s2 = up_place <[x := PriLow]> (sview s)) by (by apply view_place_set).
  assert (Hd : sh_lru_high_pri s2 = sh_lru_high_pri s) by done.
  assert (Hne : forall p, p ∈ B \/ p ∈ L \/ p ∈ H -> p <> x).
  { apply NoDup_cons in Hn as [_ Hn]. apply NoDup_app in Hn as (_ & HnB & (_ & HnL & [Hnx _]%NoDup_cons)%NoDup_app).
    intros p [Hin|[Hin|Hin]] ->; [apply (HnB _ Hin), elem_of_app; right; by left|apply (HnL _ Hin); by left|done]. }
  destruct (IH s2 (L ++ [x]) H) as (s' & U1 & U2 & -> & E & Hp' & Hf' & Hu & Hcap'); [|cbn in Hf; lia|].
  { split; rewrite ?V, ?Hd; cbn [up_place v_core v_place v_pn v_pp]; [by rewrite <- (assoc_L (++))|by rewrite <- (assoc_L (++))|done| | | | | | |done| |done].
    - rewrite (assoc_L (++)), last_of_snoc. done.
    - intros p Hin. rewrite lookup_insert_ne by (intros <-; by eapply Hne; eauto). by apply HB.
    - intros p [Hin| ->%list_elem_of_singleton]%elem_of_app; [|by rewrite lookup_insert_eq]. rewrite lookup_insert_ne by (intros <-; by eapply Hne; eauto). by apply HL.
    - intros p Hin. rewrite lookup_insert_ne by (intros <-; by eapply Hne; eauto). apply HH. by right.
    - rewrite charges_app, charges_cons, Hcx. cbn [charges foldr]. rewrite Z.add_0_r, <- Hlu. apply wrap_small. unfold fits. lia.
    - change (sh_lru_high_usage s2) with (wrap64 (sh_lru_high_usage s - lh_charge hx)). rewrite Hhu, wrap_small; [lia|]. unfold fits. lia.
    - rewrite !charges_app, charges_cons, Hcx. cbn [charges foldr]. lia. }
  exists s', (x :: U1), U2. split; [done|]. split; [exact E|]. split; [by rewrite <- (assoc_L (++)) in Hp'|]. split; [|split; [done|done]].
  eapply list_frame_trans; [|exact Hf']. split; try done; by rewrite V.
Qed.

Lemma demote_low_ok fuel s B L H :
  page_part s B L H -> (length L < fuel)%nat ->
  exists s' L1 L2, L = L1 ++ L2 /\ demote_low fuel s = (Ok tt, s') /\ page_part s' (B ++ L1) L2 H /\ list_frame s s' /\
    sh_lru_usage s' = sh_lru_usage s /\ sh_lru_high_usage s' = sh_lru_high_usage s.
Proof.
  revert s B L. induction fuel as [|fuel IH]; intros s B L Hp Hf; [lia|]. cbn [demote_low].
  rewrite st_get. destruct (sc_lru_low_capacity (sh_config s) <? sh_lru_low_usage s) eqn:Ec; cycle 1.
  { exists s, [], L. rewrite app_nil_r. split_and!; [done..|apply list_frame_refl|done|done]. }
  apply Z.ltb_lt in Ec. destruct Hp as [Hn Hr Hb Hl HB HL HH Hlu Hhu Hc Hbd Hcap].
  destruct L as [|x L]; [rewrite Hlu in Ec; cbn in Ec; lia|].
  destruct (part_next s B (x :: L ++ H)) as (h & Eh & Ex); [done|]. change (first_of _ _) with x in Ex.
  rewrite <- Hb in Eh. st_step (deref_ok _ _ _ Eh). rewrite Ex, st_modify.
  destruct (ring_some s _ x Hr) as [hx Hx]; [right; rewrite !elem_of_app; right; left; by left|].
  st_step (assign_ok x _ hx (with_bottom_pri x s) Hx). cbn [with_bottom_pri with_heap sh_heap]. set (h' := <[x := _]> (sh_heap s)).
  match goal with |- context [mbind _ (deref x) ?s1] => rewrite (st_bind_ok _ _ _ _ _ (deref_ok x (set_in_cache_priority PriBottom hx) s1 (lookup_insert_eq _ _ _))) end.
  cbn [lh_charge set_in_cache_priority set_flags]. rewrite st_modify. cbn [with_bottom_pri with_heap with_low_usage sh_config sh_heap sh_pages sh_files sh_lru_usage sh_lru_high_usage sh_lru_low_pri sh_lru_low_usage sh_lru_bottom_pri sh_usage sh_stats].
  match goal with |- context [demote_low fuel ?s1] => set (s2 := s1) end.
  pose proof (charge_at_some _ _ _ Hx) as Hcx.
  rewrite !charges_app, charges_cons, Hcx in Hbd. rewrite charges_cons, Hcx in Hlu.
  pose proof (charges_nonneg _ B Hc). pose proof (charges_nonneg _ L Hc). pose proof (charges_nonneg _ H Hc). pose proof (charge_at_nonneg _ x Hc). rewrite Hcx in *.
  assert (V : sview s2 = up_place <[x := PriBottom]> (sview s)) by (by apply view_place_set).
  assert (Hd : sh_lru_high_pri s2 = sh_lru_high_pri s) by done.
  assert (Hne : forall p, p ∈ B \/ p ∈ L \/ p ∈ H -> p <> x).
  { apply NoDup_cons in Hn as [_ Hn]. apply NoDup_app in Hn as (_ & HnB & [Hnx _]%NoDup_cons).
    intros p [Hin|[Hin|Hin]] ->; [apply (HnB _ Hin); by left|apply Hnx, elem_of_app; by left|apply Hnx, elem_of_app; by right]. }
  destruct (IH s2 (B ++ [x]) L) as (s' & U1 & U2 & -> & E & Hp' & Hf' & Hu & Hcap'); [|cbn in Hf; lia|].
  { split; rewrite ?V, ?Hd; cbn [up_place v_core v_place v_pn v_pp]; rewrite <- ?(assoc_L (++) B [x]); try done.
    - rewrite last_of_snoc. done.
    - intros p [Hin| ->%list_elem_of_singleton]%elem_of_app; [|by rewrite lookup_insert_eq]. rewrite lookup_insert_ne by (intros <-; by eapply Hne; eauto). by apply HB.
    - intros p Hin. rewrite lookup_insert_ne by (intros <-; by eapply Hne; eauto). apply HL. by right.
    - intros p Hin. rewrite lookup_insert_ne by (intros <-; by eapply Hne; eauto). by apply HH.
    - change (sh_lru_low_usage s2) with (wrap64 (sh_lru_low_usage s - lh_charge hx)). rewrite Hlu, wrap_small; [lia|]. unfold fits. lia.
    - rewrite !charges_app, charges_cons, Hcx. cbn [charges foldr]. lia. }
  exists s', (x :: U1), U2. split; [done|]. split; [exact E|]. split; [by rewrite <- (assoc_L (++) B [x]) in Hp'|]. split; [|split; [done|done]].
  eapply list_frame_trans; [|exact Hf']. split; try done; by rewrite V.
Qed.

Lemma maintain_ok s B L H :
  page_part s B L H ->
  exists s' B' L' H', maintain_priority_size s = (Ok tt, s') /\ page_part s' B' L' H' /\ B' ++ L' ++ H' = B ++ L ++ H /\ list_frame s s' /\
    sh_lru_usage s' = sh_lru_usage s /\ sh_lru_high_usage s' <= sc_lru_high_capacity (sh_config s).
Proof.
  intros Hp. pose proof (page_part_length _ _ _ _ Hp) as Hlen. rewrite !length_app in Hlen. unfold maintain_priority_size. rewrite st_gets.
  destruct (demote_high_ok (S (size (sh_heap s))) s B L H Hp) as (s1 & H1 & H2 & -> & E1 & Hp1 & Hf1 & Hu1 & Hc1); [lia|].
  st_step E1. destruct (demote_low_ok (S (size (sh_heap s))) s1 B (L ++ H1) H2 Hp1) as (s2 & L1 & L2 & E & E2 & Hp2 & Hf2 & Hu2 & Hh2).
  { rewrite length_app in *. lia. }
  exists s2, (B ++ L1), L2, H2. split_and!; [done|done| |by eapply list_frame_trans|congruence|congruence].
  rewrite <- !(assoc_L (++)), (assoc_L (++) L1), <- E. by rewrite <- (assoc_L (++)).
Qed.

(** ** Taking a handle out *)

Definition rem (e : Z) (l : list Z) : list Z := base.filter (λ x, x <> e) l.

Lemma rem_app e l1 l2 : rem e (l1 ++ l2) = rem e l1 ++ rem e l2.
Proof. apply filter_app. Qed.
Lemma rem_notin e l : e ∉ l -> rem e l = l.
Proof.
  unfold rem. induction l as [|x l IH]; [done|]. intros [? ?]%not_elem_of_cons. rewrite filter_cons_True by done. by rewrite IH.
Qed.
Lemma rem_split e l1 l2 : NoDup (l1 ++ e :: l2) -> rem e (l1 ++ e :: l2) = l1 ++ l2.
Proof.
  intros (_ & H1 & [H2 _]%NoDup_cons)%NoDup_app. rewrite rem_app. unfold rem at 2. rewrite filter_cons_False by naive_solver. fold (rem e l2).
  rewrite !rem_notin; [done|done|]. intros H. apply (H1 _ H). by left.
Qed.
Lemma elem_rem e p l : p ∈ rem e l <-> p ∈ l /\ p <> e.
Proof. unfold rem. rewrite list_elem_of_filter. tauto. Qed.
Lemma charges_rem C e l : NoDup l -> e ∈ l -> charges C l = charge_at C e + charges C (rem e l).
Proof. intros Hn (l1 & l2 & ->)%list_elem_of_split. rewrite rem_split by done. rewrite !charges_app, charges_cons. lia. Qed.
Lemma charges_rem_le C e l : charges_ok C -> charges C (rem e l) <= charges C l.
Proof.
  intros Hc. unfold rem. induction l as [|x l IH]; [done|]. rewrite filter_cons, charges_cons. pose proof (charge_at_nonneg C x Hc).
  case_decide; rewrite ?charges_cons; lia.
Qed.

(** The pointer between two parts, when [e] goes: [prev] is what precedes [e]. *)
Lemma boundary_rem d e P Q pv prev nx :
  NoDup (d :: P ++ Q) -> e <> d -> e ∈ P ++ Q -> ring nx pv (d :: P ++ Q) -> pv !! e = Some prev ->
  last_of d (rem e P) = if last_of d P =? e then prev else last_of d P.
Proof.
  intros Hn Hd He Hr Hprev. destruct (decide (e ∈ P)) as [(P1 & P2 & ->)%list_elem_of_split|Hnot].
  - rewrite <- (assoc_L (++)) in Hr. cbn [app] in Hr. apply (ring_prev _ _ (d :: P1) e (P2 ++ Q)) in Hr.
    rewrite Hprev, last_of_app, last_of_cons in Hr. injection Hr as ->.
    rewrite rem_split by (apply NoDup_cons in Hn as [_ Hn]; by apply NoDup_app in Hn as [Hn _]).
    destruct P2 as [|y P2 _] using rev_ind.
    + by rewrite app_nil_r, last_of_snoc, Z.eqb_refl.
    + rewrite (assoc_L (++) P1 P2), last_of_snoc. rewrite app_comm_cons, (assoc_L (++)), last_of_snoc, (proj2 (Z.eqb_neq _ _)); [done|].
      intros ->. apply NoDup_cons in Hn as [_ Hn]. apply NoDup_app in Hn as [Hn _]. apply NoDup_app in Hn as (_ & _ & [Hn _]%NoDup_cons).
      apply Hn, elem_of_app. right. by left.
  - rewrite rem_notin by done. rewrite (proj2 (Z.eqb_neq _ _)); [done|]. intros E. destruct (last_of_in d P) as [F|F]; congruence.
Qed.

(** The links of the list without [e]. *)
Lemma ring_unlink nx pv d l e :
  NoDup (d :: l) -> e ∈ l -> ring nx pv (d :: l) ->
  exists prev next, nx !! e = Some next /\ pv !! e = Some prev /\ prev ∈ d :: rem e l /\ next ∈ d :: rem e l /\
    ring (<[e := 0]> (<[prev := next]> nx)) (<[e := 0]> (<[next := prev]> pv)) (d :: rem e l).
Proof.
  intros Hn (l1 & l2 & ->)%list_elem_of_split Hr. apply NoDup_cons in Hn as Hn'. destruct Hn' as [Hd Hn'].
  assert (He : e ∉ d :: l1 ++ l2).
  { apply not_elem_of_cons. split; [intros ->; apply Hd, elem_of_app; right; by left|]. rewrite <- (rem_split e l1 l2) by done. rewrite elem_rem. tauto. }
  rewrite rem_split by done. exists (last_of e (l2 ++ d :: l1)), (first_of e (l2 ++ d :: l1)). split_and!.
  - by apply (ring_next nx pv (d :: l1) e l2).
  - by apply (ring_prev nx pv (d :: l1) e l2).
  - rewrite last_of_app, last_of_cons. destruct (last_of_in d l1) as [->|?]; [by left|]. right. apply elem_of_app. by left.
  - destruct l2 as [|y l2]; [by left|]. right. apply elem_of_app. right. by left.
  - eapply ring_frame; [|apply (ring_remove nx pv (d :: l1) e l2); [done|by destruct l2|done]].
    intros x Hx. rewrite !(lookup_insert_ne _ e) by (intros <-; done). done.
Qed.

Lemma unlink_lru_ok s B L H e :
  page_part s B L H -> e ∈ B ++ L ++ H -> sh_lru_usage s = charges (v_core (sview s)) (B ++ L ++ H) ->
  exists s', unlink_lru e s = (Ok tt, s') /\ page_part s' (rem e B) (rem e L) (rem e H) /\ list_frame s s' /\
    sh_lru_usage s' = charges (v_core (sview s')) (rem e (B ++ L ++ H)) /\ sh_lru_high_usage s' <= sh_lru_high_usage s.
Proof.
  intros [Hn Hr Hb Hl HB HL HH Hlu Hhu Hc Hbd Hcap] He Hu. set (d := sh_lru_high_pri s) in *.
  destruct (ring_unlink _ _ _ _ _ Hn He Hr) as (prev & next & En & Ep & Hprev & Hnext & Hr').
  destruct (ring_some s _ e Hr) as [h Eh]; [by right|].
  assert (Hin : forall p, p ∈ d :: rem e (B ++ L ++ H) -> is_Some (sh_heap s !! p)).
  { intros p Hp. eapply ring_some; [exact Hr|]. apply elem_of_cons in Hp as [->|[Hp _]%elem_rem]; [by left|by right]. }
  assert (F : hl_next (lh_page_link h) = next /\ hl_prev (lh_page_link h) = prev).
  { unfold sview, view in En, Ep. cbn [v_pn v_pp] in En, Ep. rewrite lookup_fmap, Eh in En, Ep. by injection En as <-; injection Ep as <-. }
  assert (Hde : e <> d) by (apply NoDup_cons in Hn as [Hx _]; intros ->; done).
  pose proof (boundary_rem d e B (L ++ H) _ prev _ Hn Hde He Hr Ep) as HbB.
  pose proof (boundary_rem d e (B ++ L) H (v_pp (sview s)) prev (v_pn (sview s))) as HbL. rewrite <- !(assoc_L (++)) in HbL. specialize (HbL Hn Hde He Hr Ep).
  unfold unlink_lru. st_step (deref_ok _ _ _ Eh). destruct F as [-> ->]. rewrite !st_modify.
  set (s0 := if sh_lru_low_pri s =? e then with_low_pri prev s else s).
  set (s1 := if sh_lru_bottom_pri s0 =? e then with_bottom_pri prev s0 else s0).
  assert (E1 : s1 = with_bottom_pri (last_of d (rem e B)) (with_low_pri (last_of d (rem e (B ++ L))) s)).
  { rewrite HbB, HbL, <- Hb, <- Hl. unfold s1, s0. clear. destruct s as [? ? ? ? ? ? lp ? bp ? ?]; cbn. destruct (lp =? e); cbn; destruct (bp =? e); done. }
  clearbody s1. subst s1. clear s0.
  match goal with |- context [(mbind ?k (assign next _)) ?s1] => destruct (page_remove_ok e prev next s1 (λ _, modify (λ s, with_lru_usage (wrap64 (sh_lru_usage s - lh_charge h)) s) ≫= λ _,
    match in_cache_priority h with
    | PriHigh => modify (λ s, with_high_usage (wrap64 (sh_lru_high_usage s - lh_charge h)) s)
    | PriLow => modify (λ s, with_low_usage (wrap64 (sh_lru_low_usage s - lh_charge h)) s)
    | PriBottom => mret tt end)) as (h' & E & V); [by exists h|by apply Hin|by apply Hin|] end.
  rewrite E. clear E. rewrite st_modify. cbv beta. change (sview (with_bottom_pri _ _)) with (sview s) in V.
  pose proof (charge_at_some _ _ _ Eh) as Hce. pose proof (charge_at_nonneg _ e Hc) as Hce0. rewrite Hce in Hce0.
  pose proof (charges_rem (v_core (sview s)) e _ (proj2 (proj1 (NoDup_cons _ _) Hn)) He) as Hsum. rewrite Hce in Hsum.
  assert (Hplace : v_place (sview s) !! e = Some (in_cache_priority h)) by (unfold sview, view; cbn [v_place]; by rewrite lookup_fmap, Eh).
  pose proof (charges_nonneg _ (rem e (B ++ L ++ H)) Hc) as Hpos.
  pose proof (charges_nonneg _ B Hc). pose proof (charges_nonneg _ L Hc). pose proof (charges_nonneg _ H Hc). pose proof Hbd as Hbd0. rewrite !charges_app in Hbd.
  assert (Hparts : NoDup B /\ NoDup L /\ NoDup H) by (apply NoDup_cons in Hn as [_ Hn]; apply NoDup_app in Hn as (? & _ & (? & _ & ?)%NoDup_app); done).
  destruct Hparts as (HnB & HnL & HnH).
  assert (Hpart : match in_cache_priority h with PriBottom => (e ∈ B) /\ (e ∉ L) /\ (e ∉ H) | PriLow => (e ∉ B) /\ (e ∈ L) /\ (e ∉ H) | PriHigh => (e ∉ B) /\ (e ∉ L) /\ (e ∈ H) end).
  { destruct (decide (e ∈ B)) as [HeB|HeB]; [pose proof (HB _ HeB) as X|]; (destruct (decide (e ∈ L)) as [HeL|HeL]; [pose proof (HL _ HeL) as Y|]);
      (destruct (decide (e ∈ H)) as [HeH|HeH]; [pose proof (HH _ HeH) as W|]); try congruence; try (rewrite Hplace in *; simplify_eq);
      repeat match goal with E : in_cache_priority h = _ |- _ => rewrite E end; try done.
    exfalso. rewrite !elem_of_app in He. tauto. }
  set (C := v_core (sview s)) in *.
  exists (with_low_usage (charges C (rem e L)) (with_high_usage (charges C (rem e H)) (with_lru_usage (charges C (rem e (B ++ L ++ H)))
    (with_heap h' (with_bottom_pri (last_of d (rem e B)) (with_low_pri (last_of d (rem e (B ++ L))) s)))))).
  assert (V' : sview (with_heap h' s) = view h') by done. split; [|split; [|split; [|split]]].
  - assert (Eu : wrap64 (sh_lru_usage s - lh_charge h) = charges C (rem e (B ++ L ++ H))) by (rewrite Hu, wrap_small; [lia|unfold fits; lia]).
    cbn [sh_lru_usage with_heap with_bottom_pri with_low_pri]. rewrite Eu. clear Eu.
    destruct (in_cache_priority h); destruct Hpart as (Hi1 & Hi2 & Hi3); unfold modify, mret, st_ret, with_high_usage, with_low_usage; cbn [sh_config sh_heap sh_pages sh_files sh_lru_usage sh_lru_high_usage sh_lru_low_pri sh_lru_low_usage sh_lru_bottom_pri sh_usage sh_stats with_lru_usage with_heap with_bottom_pri with_low_pri].
    + rewrite Hlu, Hhu. pose proof (charges_rem C e H HnH Hi3) as X. pose proof (charges_nonneg C (rem e H) Hc). rewrite Hce in X. rewrite (rem_notin e L Hi2).
      replace (wrap64 _) with (charges C (rem e H)); [done|]. rewrite wrap_small; [lia|unfold fits; lia].
    + rewrite Hlu, Hhu. pose proof (charges_rem C e L HnL Hi2) as X. pose proof (charges_nonneg C (rem e L) Hc). rewrite Hce in X. rewrite (rem_notin e H Hi3).
      replace (wrap64 _) with (charges C (rem e L)); [done|]. rewrite wrap_small; [lia|unfold fits; lia].
    + rewrite (rem_notin e H Hi3), (rem_notin e L Hi2), <- Hlu, <- Hhu. done.
  - assert (HV : sview (with_low_usage (charges C (rem e L)) (with_high_usage (charges C (rem e H)) (with_lru_usage (charges C (rem e (B ++ L ++ H)))
      (with_heap h' (with_bottom_pri (last_of d (rem e B)) (with_low_pri (last_of d (rem e (B ++ L))) s)))))) = view h') by done.
    split; rewrite ?HV, ?V; cbn [up_page v_core v_place v_pn v_pp]; rewrite <- ?rem_app; change (sh_lru_high_pri _) with d; try done.
    + apply NoDup_cons in Hn as [Hx Hn]. apply NoDup_cons. split; [rewrite elem_rem; tauto|]. by apply NoDup_filter.
    + intros p [Hp _]%elem_rem. by apply HB.
    + intros p [Hp _]%elem_rem. by apply HL.
    + intros p [Hp _]%elem_rem. by apply HH.
    + fold C. lia.
  - split; try done; change (sview (with_low_usage _ _)) with (view h'); by rewrite V.
  - change (sview (with_low_usage _ _)) with (view h'). by rewrite V.
  - cbn [sh_lru_high_usage with_low_usage with_high_usage]. rewrite Hhu. by apply charges_rem_le.
Qed.

(** ** Putting a handle in *)

Lemma ring_link nx pv d X Y e :
  NoDup (d :: X ++ Y) -> e ∉ d :: X ++ Y -> ring nx pv (d :: X ++ Y) ->
  ring (<[last_of d X := e]> (<[e := first_of d Y]> nx)) (<[first_of d Y := e]> (<[e := last_of d X]> pv)) (d :: X ++ e :: Y).
Proof.
  intros Hn He Hr. destruct (last_of_split d X) as [l E].
  change (d :: X ++ e :: Y) with ((d :: X) ++ e :: Y). change (d :: X ++ Y) with ((d :: X) ++ Y) in *. rewrite E, <- (assoc_L (++)) in *. cbn [app] in *.
  pose proof (ring_insert nx pv l (last_of d X) Y e Hn He Hr) as H. cbv zeta in H.
  replace (first_of (last_of d X) (Y ++ l)) with (first_of d Y) in H; [done|].
  destruct Y as [|y Y]; [|done]. cbn [app]. destruct l; cbn in E |- *; unfold first_of; cbn; congruence.
Qed.

(** The list after [e] was put between [X] and [Y] and given its place. *)
Lemma page_part_add s s2 B L H B' L' H' e X Y pri :
  page_part s B L H -> B ++ L ++ H = X ++ Y -> B' ++ L' ++ H' = X ++ e :: Y -> e ∉ sh_lru_high_pri s :: X ++ Y ->
  sh_config s2 = sh_config s ->
  sview s2 = up_place <[e := pri]> (up_page (λ m, <[last_of (sh_lru_high_pri s) X := e]> (<[e := first_of (sh_lru_high_pri s) Y]> m))
    (λ m, <[first_of (sh_lru_high_pri s) Y := e]> (<[e := last_of (sh_lru_high_pri s) X]> m)) (sview s)) ->
  (forall p, p ∈ B' -> p ∈ B \/ p = e /\ pri = PriBottom) -> (forall p, p ∈ L' -> p ∈ L \/ p = e /\ pri = PriLow) ->
  (forall p, p ∈ H' -> p ∈ H \/ p = e /\ pri = PriHigh) ->
  sh_lru_bottom_pri s2 = last_of (sh_lru_high_pri s) B' -> sh_lru_low_pri s2 = last_of (sh_lru_high_pri s) (B' ++ L') ->
  sh_lru_low_usage s2 = charges (v_core (sview s)) L' -> sh_lru_high_usage s2 = charges (v_core (sview s)) H' ->
  charges (v_core (sview s)) (B ++ L ++ H) + charge_at (v_core (sview s)) e < 2 ^ 64 ->
  page_part s2 B' L' H'.
Proof.
  intros [Hn Hr Hb Hl HB HL HH Hlu Hhu Hc Hbd Hcap] E1 E2 He Hcfg V HB' HL' HH' Eb El Elu Ehu Hbound.
  rewrite E1 in *. pose proof (ring_link _ _ _ _ _ e Hn He Hr) as Hr'.
  assert (Hd : sh_lru_high_pri s2 = sh_lru_high_pri s) by (unfold sh_lru_high_pri; by rewrite Hcfg).
  assert (Hsame : forall p c, p <> e -> v_place (sview s) !! p = Some c -> <[e := pri]> (v_place (sview s)) !! p = Some c) by (intros p c Hp; by rewrite lookup_insert_ne).
  assert (Hnot : forall p, p ∈ B \/ p ∈ L \/ p ∈ H -> p <> e).
  { intros p Hp ->. apply He. right. rewrite <- E1, !elem_of_app. done. }
  split; rewrite ?Hd, ?V, ?E2, ?Hcfg; cbn [up_place up_page v_core v_place v_pn v_pp]; try done.
  - apply not_elem_of_cons in He as [? He]. apply NoDup_cons in Hn as [Hd1 Hn]. rewrite <- Permutation_middle. repeat (apply NoDup_cons; split); [|done|done].
    apply not_elem_of_cons. done.
  - intros p [Hp|[-> ->]]%HB'; [apply Hsame; auto|by rewrite lookup_insert_eq].
  - intros p [Hp|[-> ->]]%HL'; [apply Hsame; auto|by rewrite lookup_insert_eq].
  - intros p [Hp|[-> ->]]%HH'; [apply Hsame; auto|by rewrite lookup_insert_eq].
  - rewrite charges_app in *. rewrite charges_cons. lia.
Qed.

(** The writes that put [e] between [X] and [Y], with its place. *)
Definition linked_view s (X Y : list Z) (e : Z) (pri : CachePriority) : View T :=
  up_place <[e := pri]> (up_page (λ m, <[last_of (sh_lru_high_pri s) X := e]> (<[e := first_of (sh_lru_high_pri s) Y]> m))
    (λ m, <[first_of (sh_lru_high_pri s) Y := e]> (<[e := last_of (sh_lru_high_pri s) X]> m)) (sview s)).

Lemma insert_place_ok s X Y e pri :
  is_Some (sh_heap s !! e) -> ring (v_pn (sview s)) (v_pp (sview s)) (sh_lru_high_pri s :: X ++ Y) ->
  exists h', view h' = linked_view s X Y e pri /\
    (forall A (k : unit -> St (LRUCacheShard T) A) d, d = last_of (sh_lru_high_pri s) X ->
       (_ ← page_insert_after e d; assign e (set_in_cache_priority pri) ≫= k) s = k tt (with_heap h' s)) /\
    (Y = [] -> forall A (k : unit -> St (LRUCacheShard T) A),
       (_ ← page_insert_before e (sh_lru_high_pri s); assign e (set_in_cache_priority pri) ≫= k) s = k tt (with_heap h' s)).
Proof.
  intros He Hr. set (d := sh_lru_high_pri s) in *.
  assert (Hx : last_of d X ∈ d :: X ++ Y) by (destruct (last_of_in d X) as [->|?]; [by left|right; apply elem_of_app; by left]).
  assert (Hy : first_of d Y ∈ d :: X ++ Y) by (destruct Y as [|y Y]; [by left|right; apply elem_of_app; right; by left]).
  destruct (page_insert_ok e (last_of d X) (first_of d Y) s He (ring_some _ _ _ Hr Hx) (ring_some _ _ _ Hr Hy)) as (h1 & E1 & V1).
  assert (D : is_Some (h1 !! e)) by (rewrite <- view_some, V1; cbn; by rewrite lookup_fmap, fmap_is_Some).
  destruct D as [xe Exe]. exists (<[e := set_in_cache_priority pri xe]> h1). split; [|split].
  - unfold linked_view. rewrite (view_place_set _ _ _ _ Exe), V1. done.
  - intros A k ? ->. destruct (part_next s X Y Hr) as (hx & Ehx & En). unfold page_insert_after.
    assert (E : (h ← deref (last_of d X); page_insert e (last_of d X) (hl_next (lh_page_link h))) s = (Ok tt, with_heap h1 s)).
    { st_step (deref_ok _ _ _ Ehx). by rewrite En. }
    st_step E. st_step (assign_ok e _ xe (with_heap h1 s) Exe). done.
  - intros -> A k. rewrite app_nil_r in *. destruct (part_prev s X Hr) as (hd & Ehd & Ep). unfold page_insert_before.
    assert (E : (h ← deref d; page_insert e (hl_prev (lh_page_link h)) d) s = (Ok tt, with_heap h1 s)).
    { st_step (deref_ok _ _ _ Ehd). by rewrite Ep. }
    st_step E. st_step (assign_ok e _ xe (with_heap h1 s) Exe). done.
Qed.

(** Where [link_lru] puts a handle when there is no low priority part. *)
Definition high_on s : bool := f64_lt (f64_of 0) (sc_high_pri_ratio (sh_config s)).
Definition low_off s : Prop := f64_lt (f64_of 0) (sc_low_pri_ratio (sh_config s)) = false.
Definition lru_place s (pri : CachePriority) (as_recent : bool) (B L H : list Z) : list Z * list Z :=
  if high_on s && bool_decide (pri = PriHigh) then if as_recent then (B ++ L ++ H, []) else (B ++ L, H)
  else if as_recent then (B, L ++ H) else ([], B ++ L ++ H).

Lemma last_of_eq d X Y : NoDup (d :: X ++ Y) -> last_of d X = last_of d (X ++ Y) -> Y = [].
Proof.
  intros Hn E. destruct Y as [|y Y _] using rev_ind; [done|]. exfalso. rewrite (assoc_L (++)), last_of_snoc in E. rewrite (assoc_L (++)), app_comm_cons in Hn.
  apply NoDup_app in Hn as (_ & Hn & _). apply (Hn y); [|by left]. rewrite <- E. destruct (last_of_in d X) as [->|?]; [by left|].
  right. apply elem_of_app. by left.
Qed.

Lemma page_part_usage s n B L H : page_part s B L H -> page_part (with_lru_usage n s) B L H.
Proof. intros []. by split. Qed.

(** The writes of [link_lru] for a high and for another priority, up to the demotions. *)
Lemma link_high_ok s B L H e h (as_recent : bool) :
  page_part s B L H -> sh_heap s !! e = Some h -> e ∉ sh_lru_high_pri s :: B ++ L ++ H ->
  charges (v_core (sview s)) (B ++ L ++ H) + lh_charge h < 2 ^ 64 ->
  exists X Y H' s2, (if as_recent then (B ++ L ++ H, []) else (B ++ L, H)) = (X, Y) /\ B ++ L ++ H = X ++ Y /\ B ++ L ++ H' = X ++ e :: Y /\
  sh_lru_usage s2 = sh_lru_usage s /\ list_frame s s2 /\ page_part s2 B L H' /\
  forall A (k : unit -> St _ A), (_ ← (if as_recent then page_insert_before e (sh_lru_high_pri s) else page_insert_after e (sh_lru_low_pri s));
    _ ← assign e (set_in_cache_priority PriHigh); modify (λ s, with_high_usage (wrap64 (sh_lru_high_usage s + lh_charge h)) s) ≫= k) s = k tt s2.
Proof.
  intros Hp Eh He Hbound. pose proof (charge_at_some _ _ _ Eh) as Hce. rewrite <- Hce in Hbound.
  pose proof (pp_charges _ _ _ _ Hp) as Hc. pose proof (charge_at_nonneg _ e Hc) as Hpe. pose proof (charges_nonneg _ B Hc).
  pose proof (charges_nonneg _ L Hc). pose proof (charges_nonneg _ H Hc). pose proof Hbound as Hbound'. rewrite !charges_app in Hbound'.
  pose proof (pp_ring _ _ _ _ Hp) as Hr.
  assert (Hfr : forall h' X Y, view h' = linked_view s X Y e PriHigh -> list_frame s (with_high_usage (wrap64 (sh_lru_high_usage s + lh_charge h)) (with_heap h' s))).
  { intros h' X Y V. split; try done; change (sview (with_high_usage _ _)) with (view h'); by rewrite V. }
  assert (Ehu : wrap64 (sh_lru_high_usage s + lh_charge h) = charges (v_core (sview s)) H + charge_at (v_core (sview s)) e)
    by (rewrite (pp_high_usage _ _ _ _ Hp), Hce, wrap_small; [done|unfold fits; lia]).
  destruct as_recent.
  - destruct (insert_place_ok s (B ++ L ++ H) [] e PriHigh) as (h' & V & _ & Hrun); [by exists h|by rewrite app_nil_r|].
    exists (B ++ L ++ H), [], (H ++ [e]), (with_high_usage (wrap64 (sh_lru_high_usage s + lh_charge h)) (with_heap h' s)).
    split_and!; [done|by rewrite app_nil_r|by rewrite <- !(assoc_L (++))|done|by eapply Hfr| |by intros A k; rewrite (Hrun eq_refl), st_modify].
    eapply (page_part_add s _ B L H B L (H ++ [e]) e (B ++ L ++ H) [] PriHigh Hp); rewrite ?app_nil_r; try done; try apply Hp; auto.
    + by rewrite <- !(assoc_L (++)).
    + intros p [?| ->%list_elem_of_singleton]%elem_of_app; auto.
    + cbn [sh_lru_high_usage with_high_usage]. rewrite Ehu, charges_app, charges_cons. cbn. lia.
  - destruct (insert_place_ok s (B ++ L) H e PriHigh) as (h' & V & Hrun & _); [by exists h|by rewrite <- (assoc_L (++))|].
    exists (B ++ L), H, (e :: H), (with_high_usage (wrap64 (sh_lru_high_usage s + lh_charge h)) (with_heap h' s)).
    split_and!; [done|by rewrite <- (assoc_L (++))|by rewrite <- !(assoc_L (++))|done|by eapply Hfr| |by intros A k; rewrite Hrun, st_modify by apply Hp].
    eapply (page_part_add s _ B L H B L (e :: H) e (B ++ L) H PriHigh Hp); rewrite <- ?(assoc_L (++)); try done; try apply Hp; auto.
    + intros p [->|?]%elem_of_cons; auto.
    + cbn [sh_lru_high_usage with_high_usage]. rewrite Ehu, charges_cons. lia.
Qed.
Lemma link_bottom_ok s B L H e h (as_recent : bool) :
  page_part s B L H -> sh_heap s !! e = Some h -> e ∉ sh_lru_high_pri s :: B ++ L ++ H ->
  charges (v_core (sview s)) (B ++ L ++ H) + lh_charge h < 2 ^ 64 ->
  exists X Y B' s2, (if as_recent then (B, L ++ H) else ([], B ++ L ++ H)) = (X, Y) /\ B ++ L ++ H = X ++ Y /\ B' ++ L ++ H = X ++ e :: Y /\
  sh_lru_usage s2 = sh_lru_usage s /\ list_frame s s2 /\ page_part s2 B' L H /\
  (_ ← (if as_recent then page_insert_after e (sh_lru_bottom_pri s) else page_insert_after e (sh_lru_high_pri s));
    _ ← assign e (set_in_cache_priority PriBottom); modify (λ s,
       if as_recent || (sh_lru_high_pri s =? sh_lru_bottom_pri s) then
         let s := if sh_lru_bottom_pri s =? sh_lru_low_pri s then with_low_pri e s else s in
         with_bottom_pri e s
       else s)) s = (Ok tt, s2).
Proof.
  intros Hp Eh He Hbound. pose proof (charge_at_some _ _ _ Eh) as Hce. rewrite <- Hce in Hbound.
  pose proof (pp_ring _ _ _ _ Hp) as Hr. pose proof (pp_nodup _ _ _ _ Hp) as Hn. pose proof (pp_bottom _ _ _ _ Hp) as Hb. pose proof (pp_low _ _ _ _ Hp) as Hl.
  set (d := sh_lru_high_pri s) in *.
  assert (HnBL : NoDup (d :: B ++ L)) by (rewrite (assoc_L (++)), app_comm_cons in Hn; by apply NoDup_app in Hn as [? _]).
  assert (Hadd : forall h' X Y B' bp lp, view h' = linked_view s X Y e PriBottom -> B ++ L ++ H = X ++ Y -> B' ++ L ++ H = X ++ e :: Y ->
    (forall p, p ∈ B' -> p ∈ B \/ p = e) -> bp = last_of d B' -> lp = last_of d (B' ++ L) ->
    page_part (with_bottom_pri bp (with_low_pri lp (with_heap h' s))) B' L H /\ list_frame s (with_bottom_pri bp (with_low_pri lp (with_heap h' s)))).
  { intros h' X Y B' bp lp V E1 E2 HB' Ebp Elp. split.
    - eapply (page_part_add s _ B L H B' L H e X Y PriBottom Hp); try done; [by rewrite <- E1|..]; try (apply Hp); auto.
      intros p Hin%HB'. tauto.
    - split; try done; change (sview (with_bottom_pri _ _)) with (view h'); by rewrite V. }
  destruct as_recent.
  - destruct (insert_place_ok s B (L ++ H) e PriBottom) as (h' & V & Hrun & _); [by exists h|done|].
    destruct (Hadd h' B (L ++ H) (B ++ [e]) e (last_of d ((B ++ [e]) ++ L)) V) as [Ha Hf]; [done|by rewrite <- (assoc_L (++))| |by rewrite last_of_snoc|done|].
    { intros p [?| ->%list_elem_of_singleton]%elem_of_app; auto. }
    exists B, (L ++ H), (B ++ [e]), (with_bottom_pri e (with_low_pri (last_of d ((B ++ [e]) ++ L)) (with_heap h' s))).
    split_and!; [done|done|by rewrite <- (assoc_L (++))|done|done|done|].
    pose proof (Hrun _ (λ _, modify (λ s, if true || (sh_lru_high_pri s =? sh_lru_bottom_pri s) then
         let s := if sh_lru_bottom_pri s =? sh_lru_low_pri s then with_low_pri e s else s in with_bottom_pri e s else s)) _ Hb) as E.
    cbv beta in E. rewrite E. clear E. unfold modify. cbn [orb sh_lru_bottom_pri sh_lru_low_pri with_heap]. f_equal.
    rewrite last_of_app, last_of_snoc. destruct L as [|y L].
    + rewrite app_nil_r in Hl. rewrite Hb, Hl, Z.eqb_refl. done.
    + rewrite (proj2 (Z.eqb_neq _ _)). { unfold with_bottom_pri, with_low_pri, with_heap. cbn [sh_config sh_heap sh_pages sh_files sh_lru_usage sh_lru_high_usage sh_lru_low_pri sh_lru_low_usage sh_lru_bottom_pri sh_usage sh_stats]. rewrite Hl, last_of_app, !last_of_cons. done. }
      rewrite Hb, Hl. intros E. by apply (last_of_eq d B (y :: L)) in E.
  - destruct (insert_place_ok s [] (B ++ L ++ H) e PriBottom) as (h' & V & Hrun & _); [by exists h|done|].
    destruct (Hadd h' [] (B ++ L ++ H) (e :: B) (last_of d (e :: B)) (last_of d ((e :: B) ++ L)) V) as [Ha Hf]; [done|done| |done|done|].
    { intros p [->|?]%elem_of_cons; auto. }
    exists [], (B ++ L ++ H), (e :: B), (with_bottom_pri (last_of d (e :: B)) (with_low_pri (last_of d ((e :: B) ++ L)) (with_heap h' s))).
    split_and!; [done|done|done|done|done|done|].
    pose proof (Hrun _ (λ _, modify (λ s, if false || (sh_lru_high_pri s =? sh_lru_bottom_pri s) then
         let s := if sh_lru_bottom_pri s =? sh_lru_low_pri s then with_low_pri e s else s in with_bottom_pri e s else s)) d eq_refl) as E.
    cbv beta in E. rewrite E. clear E. unfold modify. cbn [orb sh_lru_bottom_pri sh_lru_low_pri with_heap]. f_equal.
    change (sh_lru_high_pri (with_heap h' s)) with d. cbn [app]. rewrite !last_of_cons, Hb, Hl. unfold with_bottom_pri, with_low_pri, with_heap.
    cbn [sh_config sh_heap sh_pages sh_files sh_lru_usage sh_lru_high_usage sh_lru_low_pri sh_lru_low_usage sh_lru_bottom_pri sh_usage sh_stats].
    destruct B as [|b B].
    + change (last_of d []) with d. rewrite Z.eqb_refl. cbn [app]. destruct L as [|y L].
      * change (last_of d []) with d. rewrite Z.eqb_refl. done.
      * rewrite (proj2 (Z.eqb_neq _ _)); [|intros E; by apply (last_of_eq d [] (y :: L)) in E]. cbn. rewrite Hl. cbn [app]. by rewrite !last_of_cons.
    + rewrite (proj2 (Z.eqb_neq _ _)); [|intros E; apply (last_of_eq d [] (b :: B)) in E; [done|]; by apply (NoDup_app (d :: b :: B) L) in HnBL as [? _]].
      rewrite Hb, Hl. cbn [app]. rewrite !last_of_cons. done.
Qed.

Lemma link_lru_ok s B L H e h as_recent :
  page_part s B L H -> low_off s -> sh_heap s !! e = Some h -> e ∉ sh_lru_high_pri s :: B ++ L ++ H ->
  sh_lru_usage s = charges (v_core (sview s)) (B ++ L ++ H) ->
  charges (v_core (sview s)) (B ++ L ++ H) + lh_charge h < 2 ^ 64 ->
  exists s' B' L' H' X Y, link_lru e as_recent s = (Ok tt, s') /\ page_part s' B' L' H' /\ list_frame s s' /\
    lru_place s (handle_priority h) as_recent B L H = (X, Y) /\ B ++ L ++ H = X ++ Y /\ B' ++ L' ++ H' = X ++ e :: Y /\
    sh_lru_usage s' = charges (v_core (sview s')) (B' ++ L' ++ H').
Proof.
  intros Hp Hlow Eh He Hu Hbound. pose proof (charge_at_some _ _ _ Eh) as Hce. 
  pose proof (pp_charges _ _ _ _ Hp) as Hc. pose proof (charges_nonneg _ (B ++ L ++ H) Hc) as Hpos. pose proof (charge_at_nonneg _ e Hc) as Hpe.
  pose proof (charges_nonneg _ B Hc). pose proof (charges_nonneg _ L Hc). pose proof (charges_nonneg _ H Hc). pose proof Hbound as Hbound'. rewrite !charges_app in Hbound'.
  unfold link_lru. st_step (deref_ok _ _ _ Eh). rewrite st_get. fold (high_on s). unfold low_off in Hlow. rewrite Hlow. cbn [andb].
  unfold lru_place. destruct (high_on s && bool_decide (handle_priority h = PriHigh)) eqn:Ebr.
  - destruct (link_high_ok s B L H e h as_recent Hp Eh He) as (X & Y & H' & s2 & -> & E1 & E2 & Eu & Hf & Hp2 & Hrun); [lia|].
    destruct (maintain_ok s2 B L H' Hp2) as (s3 & B3 & L3 & H3 & E3 & Hp3 & Eall & Hf3 & Hu3 & _).
    eexists _, B3, L3, H3, X, Y. split.
    + rewrite (st_bind_ok _ _ s tt s3); [reflexivity|]. rewrite Hrun. exact E3.
    + assert (HC : v_core (sview s3) = v_core (sview s)) by (rewrite (lf_core _ _ Hf3); apply Hf).
      split; [by apply page_part_usage|]. split; [eapply list_frame_trans; [exact Hf|]; by destruct Hf3|].
      split_and!; [done|done|by rewrite Eall, E2|]. cbn [sh_lru_usage with_lru_usage]. change (sview (with_lru_usage _ _)) with (sview s3).
      rewrite HC, Hu3, Eu, Hu, Eall, E2, <- Hce, E1, !charges_app, charges_cons, wrap_small; [lia|]. rewrite E1, charges_app in *. unfold fits. lia.
  - destruct (link_bottom_ok s B L H e h as_recent Hp Eh He) as (X & Y & B' & s2 & -> & E1 & E2 & Eu & Hf & Hp2 & Hrun); [lia|].
    eexists _, B', L, H, X, Y. split; [rewrite (st_bind_ok _ _ s tt s2); [reflexivity|exact Hrun]|].
    assert (HC : v_core (sview s2) = v_core (sview s)) by apply Hf.
    split; [by apply page_part_usage|]. split; [by destruct Hf|].
    split_and!; [done|done|done|]. cbn [sh_lru_usage with_lru_usage]. change (sview (with_lru_usage _ _)) with (sview s2).
    rewrite HC, Eu, Hu, E2, <- Hce, E1, !charges_app, charges_cons, wrap_small; [lia|]. rewrite E1, charges_app in *. unfold fits. lia.
Qed.
End lru_list.
