(* ===== verification/LruFiles.v ===== *)
(** * The file rings of the LRU cache ([page_store/cache/lru.rs])

    The handles in the list that belong to one file form a ring, which the table of
    files leads to; every other handle is linked to itself. *)

From stdpp Require Import base numbers list gmap.
From Stdlib Require Import ZArith Lia.
From S2P Require Import Prelude Float64 CacheHandle LruCache Ring LruHeap LruList.

Section lru_files.
Context {T : Type}.
Implicit Types (s : LRUCacheShard T) (C : gmap Z (HandleCore T)) (all : list Z).

Definition file_of C (p : Z) : option Z := (λ c, key_file_id (hc_key c)) <$> C !! p.

Record file_part s all : Prop := {
  fp_ring : forall f, exists l, NoDup l /\ ring (v_fn (sview s)) (v_fp (sview s)) l /\ sh_files s !! f = head l /\
    forall p, p ∈ l <-> p ∈ all /\ file_of (v_core (sview s)) p = Some f;
  fp_self : forall p, p ∉ all -> p <> sh_lru_high_pri s -> is_Some (v_core (sview s) !! p) ->
    v_fn (sview s) !! p = Some p /\ v_fp (sview s) !! p = Some p;
}.

(** What the operations on the rings do not touch. *)
Record file_frame s s' : Prop := {
  ff_config : sh_config s' = sh_config s;
  ff_pages : sh_pages s' = sh_pages s;
  ff_lru_usage : sh_lru_usage s' = sh_lru_usage s;
  ff_high_usage : sh_lru_high_usage s' = sh_lru_high_usage s;
  ff_low_pri : sh_lru_low_pri s' = sh_lru_low_pri s;
  ff_low_usage : sh_lru_low_usage s' = sh_lru_low_usage s;
  ff_bottom_pri : sh_lru_bottom_pri s' = sh_lru_bottom_pri s;
  ff_usage : sh_usage s' = sh_usage s;
  ff_stats : sh_stats s' = sh_stats s;
  ff_core : v_core (sview s') = v_core (sview s);
  ff_place : v_place (sview s') = v_place (sview s);
  ff_pn : v_pn (sview s') = v_pn (sview s);
  ff_pp : v_pp (sview s') = v_pp (sview s);
}.

(** The list does not see the rings, nor the rings the list. *)
Lemma page_part_file_frame s s' B L H : file_frame s s' -> page_part s B L H -> page_part s' B L H.
Proof.
  intros [E1 E2 E3 E4 E5 E6 E7 E8 E9 E10 E11 E12 E13] []. assert (Hd : sh_lru_high_pri s' = sh_lru_high_pri s) by (unfold sh_lru_high_pri; by rewrite E1).
  split; rewrite ?Hd, ?E10, ?E11, ?E12, ?E13, ?E1; first [done|congruence].
Qed.
Lemma file_part_list_frame s s' all : list_frame s s' -> file_part s all -> file_part s' all.
Proof.
  intros [E1 E2 E3 E4 E5 E6 E7 E8] [Hr Hs]. assert (Hd : sh_lru_high_pri s' = sh_lru_high_pri s) by (unfold sh_lru_high_pri; by rewrite E1).
  split; rewrite ?Hd, ?E3, ?E6, ?E7, ?E8; done.
Qed.
Lemma file_part_equiv s all all' : (forall p, p ∈ all <-> p ∈ all') -> file_part s all -> file_part s all'.
Proof.
  intros He [Hr Hs]. split.
  - intros f. destruct (Hr f) as (l & Hn & Hl & Hh & Hm). exists l. split_and!; [done..|]. intros p. by rewrite Hm, He.
  - intros p. rewrite <- He. apply Hs.
Qed.

Lemma head_in (l : list Z) p : head l = Some p -> p ∈ l.
Proof. destruct l; [done|]. intros [= ->]. by left. Qed.
Lemma first_of_in d (l : list Z) : first_of d l = d \/ first_of d l ∈ l.
Proof. destruct l; [by left|right; by left]. Qed.

Section one.
Context (s : LRUCacheShard T) (all : list Z) (Hfp : file_part s all).

(** The ring of a file that is changed, when the others are not. *)
Lemma file_part_change s' all' f l :
  sh_config s' = sh_config s -> v_core (sview s') = v_core (sview s) ->
  (forall g, g <> f -> sh_files s' !! g = sh_files s !! g) ->
  (forall p, file_of (v_core (sview s)) p <> Some f -> v_fn (sview s') !! p = v_fn (sview s) !! p /\ v_fp (sview s') !! p = v_fp (sview s) !! p) ->
  (forall p, file_of (v_core (sview s)) p <> Some f -> p ∈ all' <-> p ∈ all) ->
  NoDup l -> ring (v_fn (sview s')) (v_fp (sview s')) l -> sh_files s' !! f = head l ->
  (forall p, p ∈ l <-> p ∈ all' /\ file_of (v_core (sview s)) p = Some f) ->
  (forall p, p ∉ all' -> p <> sh_lru_high_pri s -> file_of (v_core (sview s)) p = Some f -> v_fn (sview s') !! p = Some p /\ v_fp (sview s') !! p = Some p) ->
  file_part s' all'.
Proof using Hfp.
  intros Ec Eco Hfiles Hlinks Hall Hn Hr Hh Hm Hself. destruct Hfp as [Hrings Hs].
  assert (Hd : sh_lru_high_pri s' = sh_lru_high_pri s) by (unfold sh_lru_high_pri; by rewrite Ec).
  split; rewrite Eco.
  - intros g. destruct (decide (g = f)) as [->|Hg]; [by exists l|]. destruct (Hrings g) as (lg & Hng & Hrg & Hhg & Hmg). exists lg. split_and!.
    + done.
    + eapply ring_frame; [|exact Hrg]. intros p [_ Hp]%Hmg. apply Hlinks. congruence.
    + by rewrite Hfiles.
    + intros p. rewrite Hmg. split; intros [Hin Hp]; (split; [|done]); (eapply Hall; [congruence|done]).
  - rewrite Hd. intros p Hp Hpd Hc. destruct (decide (file_of (v_core (sview s)) p = Some f)) as [Hf|Hf]; [by apply Hself|].
    destruct (Hlinks p Hf) as [-> ->]. apply Hs; [|done|done]. intros Hin. by apply Hp, Hall.
Qed.

Lemma link_file_ok e c :
  e ∉ all -> e <> sh_lru_high_pri s -> v_core (sview s) !! e = Some c ->
  exists s', link_file e s = (Ok tt, s') /\ file_part s' (e :: all) /\ file_frame s s'.
Proof using Hfp.
  intros He Hd Hc. destruct (view_lookup _ _ _ Hc) as (x & Ex & Ecore & _). destruct (fp_self _ _ Hfp e He Hd) as [Hfn Hfpe]; [by exists c|].
  set (f := key_file_id (lh_key x)). assert (Ef : file_of (v_core (sview s)) e = Some f) by (unfold file_of; rewrite Hc, <- Ecore; done).
  destruct (fp_ring _ _ Hfp f) as (l & Hn & Hr & Hh & Hm). unfold link_file. st_step (deref_ok _ _ _ Ex). rewrite st_gets. fold f. rewrite Hh.
  assert (Hel : e ∉ l) by (rewrite Hm; tauto).
  destruct l as [|hd l]; cbn [head].
  - eexists. split; [reflexivity|]. split; [|by split].
    apply (file_part_change _ _ f [e]); try done.
    + intros g Hg. cbn. by rewrite lookup_insert_ne.
    + intros p Hp. rewrite elem_of_cons. split; [intros [->|?]|]; [congruence|done|by right].
    + by apply NoDup_singleton.
    + cbn. by rewrite lookup_insert_eq.
    + intros p. rewrite list_elem_of_singleton, elem_of_cons. split; [intros ->; split; [by left|done]|]. intros [[->|Hp] Hf]; [done|].
      exfalso. by apply (not_elem_of_nil p), Hm.
    + intros p [? ?]%not_elem_of_cons Hpd Hf. apply (fp_self _ _ Hfp); [done|done|]. unfold file_of in Hf. destruct (v_core (sview s) !! p); [by eexists|done].
  - assert (Hin : forall p, p ∈ hd :: l -> is_Some (sh_heap s !! p)).
    { intros p [_ Hp]%Hm. apply view_some. unfold file_of in Hp. unfold sview in Hp. destruct (v_core (view (sh_heap s)) !! p); [by eexists|done]. }
    destruct (Hin hd (list_elem_of_here _ _)) as [xh Exh]. st_step (deref_ok _ _ _ Exh).
    assert (Eprev : hl_prev (lh_file_link xh) = last_of hd l).
    { pose proof (ring_prev _ _ [] hd l Hr) as E. rewrite app_nil_r in E. unfold sview, view in E. cbn [v_fp] in E. rewrite lookup_fmap, Exh in E. by injection E. }
    rewrite Eprev. destruct (file_insert_ok e (last_of hd l) hd s) as (h' & E & V); [by exists x| |by exists xh|].
    { apply Hin. destruct (last_of_in hd l) as [->|?]; [by left|by right]. }
    exists (with_heap h' s). split; [exact E|]. assert (HV : sview (with_heap h' s) = view h') by done.
    split; [|split; try done; rewrite HV, V; done].
    assert (Hmem : forall p, p ∈ hd :: l -> file_of (v_core (sview s)) p = Some f) by (by intros p [_ ?]%Hm).
    apply (file_part_change _ _ f (hd :: l ++ [e])); rewrite ?HV, ?V; cbn [up_file v_core v_fn v_fp]; try done.
    + intros p Hp. rewrite !lookup_insert_ne; [done|..]; intros <-; apply Hp; try done; try (apply Hmem; by left).
      destruct (last_of_in hd l) as [->|?]; apply Hmem; [by left|by right].
    + intros p Hp. rewrite elem_of_cons. split; [intros [->|?]|]; [congruence|done|by right].
    + rewrite app_comm_cons. apply NoDup_app. split_and!; [done| |apply NoDup_singleton]. intros p Hp ->%list_elem_of_singleton. done.
    + pose proof (ring_link (v_fn (sview s)) (v_fp (sview s)) hd l [] e) as H. rewrite app_nil_r in H. by apply H.
    + intros p. rewrite app_comm_cons, elem_of_app, list_elem_of_singleton, Hm, elem_of_cons. split; [intros [[? ?]| ->]; tauto|]. intros [[->|?] ?]; tauto.
    + intros p [Hpe Hp]%not_elem_of_cons Hpd Hf. assert (Hpl : p ∉ hd :: l) by (rewrite Hm; tauto).
      rewrite !lookup_insert_ne; try (intros <-; try done; apply Hpl; try by left).
      * apply (fp_self _ _ Hfp); [done|done|]. unfold file_of in Hf. destruct (v_core (sview s) !! p); [by eexists|done].
      * destruct (last_of_in hd l) as [->|?]; [by left|by right].
Qed.

Lemma unlink_file_ok e c :
  e ∈ all -> e <> sh_lru_high_pri s -> v_core (sview s) !! e = Some c ->
  exists s' b, unlink_file e s = (Ok b, s') /\ file_part s' (rem e all) /\ file_frame s s'.
Proof using Hfp.
  intros He Hd Hc. destruct (view_lookup _ _ _ Hc) as (x & Ex & Ecore & _ & _ & _ & Efn & Efp).
  set (f := key_file_id (lh_key x)). assert (Ef : file_of (v_core (sview s)) e = Some f) by (unfold file_of; rewrite Hc, <- Ecore; done).
  destruct (fp_ring _ _ Hfp f) as (l & Hn & Hr & Hh & Hm). destruct (list_elem_of_split l e) as (l1 & l2 & ->); [by apply Hm|].
  pose proof (ring_next _ _ _ _ _ Hr) as En. pose proof (ring_prev _ _ _ _ _ Hr) as Ep. unfold sview in En, Ep. rewrite Efn in En. rewrite Efp in Ep. injection En as En. injection Ep as Ep.
  assert (Hin : forall p, p ∈ l1 ++ e :: l2 -> is_Some (sh_heap s !! p)).
  { intros p [_ Hp]%Hm. apply view_some. unfold file_of, sview in Hp. destruct (v_core (view (sh_heap s)) !! p); [by eexists|done]. }
  assert (Hsub : forall p, p ∈ l2 ++ l1 -> p ∈ l1 ++ e :: l2) by (intros p; rewrite !elem_of_app, elem_of_cons; tauto).
  assert (Hp : last_of e (l2 ++ l1) ∈ l1 ++ e :: l2) by (destruct (last_of_in e (l2 ++ l1)) as [->|?]; [apply elem_of_app; right; by left|by apply Hsub]).
  assert (Hq : first_of e (l2 ++ l1) ∈ l1 ++ e :: l2) by (destruct (first_of_in e (l2 ++ l1)) as [->|?]; [apply elem_of_app; right; by left|by apply Hsub]).
  assert (Hnl : NoDup (l2 ++ l1) /\ e ∉ l2 ++ l1).
  { rewrite <- Permutation_middle, (Permutation_app_comm l1 l2) in Hn. by apply NoDup_cons in Hn as [? ?]. }
  destruct Hnl as [Hnl Hel].
  unfold unlink_file. st_step (deref_ok _ _ _ Ex). rewrite En, Ep. fold f. set (prev := last_of e (l2 ++ l1)) in *. set (next := first_of e (l2 ++ l1)) in *.
  set (files' := if next =? e then delete f (sh_files s) else <[f := next]> (sh_files s)).
  destruct (file_remove_ok e prev next s (λ _ : unit, if next =? e then _ ← modify (λ s, with_files (delete f (sh_files s)) s); mret false
    else _ ← modify (λ s, with_files (<[f := next]> (sh_files s)) s); mret true)) as (h' & E & V); [by exists x|by apply Hin|by apply Hin|].
  exists (with_files files' (with_heap h' s)), (negb (next =? e)). split; [|split].
  { rewrite E. unfold files'. by destruct (next =? e). }
  - assert (HV : sview (with_files files' (with_heap h' s)) = view h') by done.
    assert (Hmem : forall p, p ∈ l1 ++ e :: l2 -> file_of (v_core (sview s)) p = Some f) by (by intros p [_ ?]%Hm).
    apply (file_part_change _ _ f (l2 ++ l1)); rewrite ?HV, ?V; cbn [up_file v_core v_fn v_fp]; try done.
    + intros g Hg. cbn [sh_files with_files]. unfold files'. case_match; [by rewrite lookup_delete_ne|by rewrite lookup_insert_ne].
    + intros p Hf. rewrite !lookup_insert_ne; [done|..]; intros <-; apply Hf; try done; by apply Hmem.
    + intros p Hf. rewrite elem_rem. split; [tauto|]. intros ?; split; [done|]. intros ->. done.
    + destruct (decide (l2 ++ l1 = [])) as [->|Hne]; [done|]. apply ring_rotate. eapply ring_frame; [|by apply (ring_remove (v_fn (sview s)) (v_fp (sview s)) l1 e l2)].
      intros p Hpin. rewrite !(lookup_insert_ne _ e); [done|..]; intros ->; apply Hel; rewrite elem_of_app in *; tauto.
    + cbn [sh_files with_files]. unfold files', next. destruct (l2 ++ l1) as [|y ys]; cbn [head].
      * change (first_of e []) with e. by rewrite Z.eqb_refl, lookup_delete_eq.
      * change (first_of e (y :: ys)) with y. rewrite (proj2 (Z.eqb_neq _ _)) by (intros ->; apply Hel; by left). by rewrite lookup_insert_eq.
    + intros p. rewrite elem_rem. specialize (Hm p). rewrite elem_of_app, elem_of_cons in Hm. rewrite elem_of_app.
      split; [intros Hpin; split; [split; [tauto|intros ->; apply Hel; rewrite elem_of_app; tauto]|tauto]|tauto].
    + intros p Hpin Hpd Hf. destruct (decide (p = e)) as [->|Hpe]; [by rewrite !lookup_insert_eq|].
      assert (Hpl : p ∉ l1 ++ e :: l2) by (rewrite Hm; intros [? ?]; apply Hpin, elem_rem; done).
      rewrite !lookup_insert_ne by (intros <-; done). apply (fp_self _ _ Hfp); [|done|].
      * intros ?. apply Hpin, elem_rem. done.
      * unfold file_of in Hf. destruct (v_core (sview s) !! p); [by eexists|done].
  - assert (HV : sview (with_files files' (with_heap h' s)) = view h') by done. split; try done; rewrite HV, V; done.
Qed.
End one.
End lru_files.
