(* ===== verification/LruCore.v ===== *)
(** * What the handles of the LRU cache hold ([page_store/cache/lru.rs])

    The conditions on a shard that do not concern links. [held] is the multiset of the
    entries that clients have and have not returned, [all] the handles in the list: a
    handle has as many references as there are entries, it is in the list when it has
    none, it is in the table as long as it is marked so, and the usage is the sum of the
    charges of the handles that are not detached. *)

From stdpp Require Import gmultiset.
From stdpp Require Import base numbers list gmap.
From Stdlib Require Import ZArith Lia.
From S2P Require Import Prelude Float64 CacheHandle LruCache Ring LruHeap LruList.

Section lru_core.
Context {T : Type} (d : Z).
Implicit Types (C : gmap Z (HandleCore T)) (c : HandleCore T) (pages : gmap Z Z) (all : list Z) (held : gmultiset Z).

Definition cost (p : Z) c : Z := if bool_decide (p = d) || hc_detached c then 0 else hc_charge c.
Definition cost_at C (p : Z) : Z := match C !! p with Some c => cost p c | None => 0 end.
Definition total C : Z := map_fold (λ p c n, cost p c + n) 0 C.

Lemma total_insert C p c : C !! p = None -> total (<[p := c]> C) = cost p c + total C.
Proof. intros E. unfold total. apply (map_fold_insert_L (λ p c n, cost p c + n)); [|done]. intros. lia. Qed.
Lemma total_delete C p : total C = cost_at C p + total (delete p C).
Proof.
  unfold cost_at. destruct (C !! p) as [c|] eqn:E; [|by rewrite delete_id].
  rewrite <- (total_insert (delete p C) p c) by apply lookup_delete_eq. by rewrite insert_delete_eq, insert_id.
Qed.
Lemma total_change C C' p : (forall q, q <> p -> C' !! q = C !! q) -> total C' = total C - cost_at C p + cost_at C' p.
Proof.
  intros Hq. rewrite (total_delete C p), (total_delete C' p). replace (delete p C') with (delete p C); [lia|].
  apply map_eq. intros q. destruct (decide (q = p)) as [->|Hne]; [by rewrite !lookup_delete_eq|]. rewrite !lookup_delete_ne by done. by rewrite Hq.
Qed.
Lemma cost_nonneg C p : charges_ok C -> 0 <= cost_at C p.
Proof. intros Hc. unfold cost_at, cost. destruct (C !! p) as [c|] eqn:E; [|done]. pose proof (Hc _ _ E). case_match; lia. Qed.
Lemma total_nonneg C : charges_ok C -> 0 <= total C.
Proof.
  unfold total, charges_ok. induction C as [|p c C E IH] using map_ind; intros Hc; [by rewrite map_fold_empty|].
  fold (total (<[p := c]> C)). rewrite total_insert by done. pose proof (cost_nonneg (<[p := c]> C) p Hc) as Hp. unfold cost_at in Hp. rewrite lookup_insert_eq in Hp.
  assert (0 <= total C); [|lia]. apply IH. intros q x Hq. apply (Hc q). rewrite lookup_insert_ne; [done|]. intros <-. congruence.
Qed.
(** A list of handles weighs at most the total. *)
Lemma charges_total C l : charges_ok C -> NoDup l -> (forall p, p ∈ l -> p <> d /\ exists c, C !! p = Some c /\ hc_detached c = false) ->
  charges C l <= total C.
Proof.
  revert C. induction l as [|p l IH]; intros C Hc Hn Hl; [by apply total_nonneg|]. apply NoDup_cons in Hn as [Hp Hn]. rewrite charges_cons, (total_delete C p).
  destruct (Hl p) as (Hpd & c & E & Hdet); [by left|].
  assert (charge_at C p = cost_at C p) as ->. { unfold charge_at, cost_at, cost. rewrite E, Hdet, bool_decide_false by done. done. }
  assert (Hsame : forall q, q ∈ l -> delete p C !! q = C !! q) by (intros q Hq; rewrite lookup_delete_ne; [done|]; intros ->; done).
  assert (charges C l = charges (delete p C) l) as ->.
  { clear -Hsame. induction l as [|q l IH]; [done|]. rewrite !charges_cons, IH by (intros; apply Hsame; by right). unfold charge_at. by rewrite (Hsame q) by (by left). }
  assert (charges (delete p C) l <= total (delete p C)); [|lia]. apply IH; [|done|].
  - intros q x [_ Hq]%lookup_delete_Some. by apply (Hc q).
  - intros q Hq. rewrite Hsame by done. apply Hl. by right.
Qed.

Definition handle_ok pages all held (p : Z) c : Prop :=
  if hc_detached c
  then hc_refs c = 0 /\ multiplicity p held = 1%nat /\ (p ∉ all) /\ hc_in_cache c = false
  else hc_refs c = multiplicity p held /\ (p ∈ all <-> hc_refs c = 0) /\
    (hc_in_cache c = true <-> pages !! hc_key c = Some p) /\ (hc_refs c = 0 -> hc_in_cache c = true).

Record core_ok C pages all held (usage : Z) : Prop := {
  co_dummy : is_Some (C !! d);
  co_handle : forall p c, C !! p = Some c -> p <> d -> handle_ok pages all held p c;
  co_pages : forall k p, pages !! k = Some p ->
    p <> d /\ exists c, C !! p = Some c /\ hc_key c = k /\ hc_detached c = false /\ hc_in_cache c = true;
  co_held : forall p, p ∈ held -> p <> d /\ is_Some (C !! p);
  co_all : forall p, p ∈ all -> p <> d /\ is_Some (C !! p);
  co_usage : usage = total C;
  co_bound : total C < 2 ^ 64;
  co_charges : charges_ok C;
}.

(** A step that concerns the handle [x] only. *)
Lemma core_step C pages all held usage C' pages' all' held' usage' x :
  core_ok C pages all held usage -> x <> d ->
  (forall p, p <> x -> C' !! p = C !! p) -> (forall p, p <> x -> p ∈ all' <-> p ∈ all) ->
  (forall p, p <> x -> multiplicity p held' = multiplicity p held) ->
  (forall k p, p <> x -> pages' !! k = Some p <-> pages !! k = Some p) ->
  (forall c, C' !! x = Some c -> handle_ok pages' all' held' x c /\ 0 <= hc_charge c) ->
  (forall k, pages' !! k = Some x -> exists c, C' !! x = Some c /\ hc_key c = k /\ hc_detached c = false /\ hc_in_cache c = true) ->
  (x ∈ held' \/ x ∈ all' -> is_Some (C' !! x)) ->
  usage' = usage - cost_at C x + cost_at C' x -> usage' < 2 ^ 64 ->
  core_ok C' pages' all' held' usage'.
Proof.
  intros [Hd Hh Hp Hhe Ha Hu Hb Hc] Hx HC Hall Hmul Hpages Hxok Hxp Hxs Eu Hbound.
  assert (Ht : usage' = total C') by (rewrite (total_change C C' x) by done; lia). split.
  - by rewrite HC.
  - intros p c Hpc Hpd. destruct (decide (p = x)) as [->|Hne]; [by apply Hxok|]. rewrite HC in Hpc by done. pose proof (Hh p c Hpc Hpd) as Hok. unfold handle_ok in *.
    destruct (hc_detached c); rewrite Hall, Hmul by done; [done|]. by rewrite Hpages.
  - intros k p Hk. destruct (decide (p = x)) as [->|Hne]; [by split; [|apply Hxp]|]. rewrite HC by done. apply Hp. by apply Hpages.
  - intros p Hin. destruct (decide (p = x)) as [->|Hne]; [split; [done|]; apply Hxs; by left|]. rewrite HC by done. apply Hhe.
    rewrite elem_of_multiplicity in *. by rewrite <- Hmul.
  - intros p Hin. destruct (decide (p = x)) as [->|Hne]; [split; [done|]; apply Hxs; by right|]. rewrite HC by done. by apply Ha, Hall.
  - done.
  - lia.
  - intros p c Hpc. destruct (decide (p = x)) as [->|Hne]; [by apply Hxok|]. rewrite HC in Hpc by done. by apply (Hc p).
Qed.

(** ** The steps of the operations *)

Definition hc_set_refs (n : Z) c : HandleCore T :=
  mkHandleCore (hc_key c) (hc_hash c) (hc_value c) (hc_charge c) n (hc_in_cache c) (hc_detached c) (hc_priority c).
Definition hc_set_in (b : bool) c : HandleCore T :=
  mkHandleCore (hc_key c) (hc_hash c) (hc_value c) (hc_charge c) (hc_refs c) b (hc_detached c) (hc_priority c).

Section steps.
Context C pages all held usage (Hok : core_ok C pages all held usage) (x : Z) c (Hx : C !! x = Some c) (Hxd : x <> d).

Lemma core_usage_le : usage - cost_at C x < 2 ^ 64.
Proof using Hok. pose proof (cost_nonneg C x (co_charges _ _ _ _ _ Hok)). pose proof (co_bound _ _ _ _ _ Hok). rewrite (co_usage _ _ _ _ _ Hok). lia. Qed.
Lemma core_cost : hc_detached c = false -> cost_at C x = hc_charge c.
Proof using Hx Hxd. intros E. unfold cost_at, cost. rewrite Hx, E, bool_decide_false by done. done. Qed.
(** The usage without the handle does not wrap around. *)
Lemma core_usage_wrap : hc_detached c = false -> wrap64 (usage - hc_charge c) = usage - hc_charge c.
Proof using Hok Hx Hxd.
  intros Hdet. apply wrap_small. rewrite (co_usage _ _ _ _ _ Hok). pose proof (co_bound _ _ _ _ _ Hok). pose proof (total_delete C x) as Ht. rewrite (core_cost Hdet) in Ht.
  pose proof (co_charges _ _ _ _ _ Hok x c Hx). assert (0 <= total (delete x C)); [|unfold fits; lia].
  apply total_nonneg. intros q cq [_ Hq]%lookup_delete_Some. by apply (co_charges _ _ _ _ _ Hok q).
Qed.
Lemma core_list : x ∈ all -> hc_detached c = false /\ hc_refs c = 0 /\ hc_in_cache c = true /\ pages !! hc_key c = Some x.
Proof using Hok Hx Hxd.
  intros Hin. pose proof (co_handle _ _ _ _ _ Hok x c Hx Hxd) as H. unfold handle_ok in H. destruct (hc_detached c); [tauto|].
  destruct H as (H1 & H2 & H3 & H4). split_and!; [done|tauto|tauto|]. apply H3, H4. tauto.
Qed.

(** The handle leaves the table, the list and the memory. *)
Lemma core_discard pages' : hc_detached c = false -> hc_refs c = 0 -> (forall k p, p <> x -> pages' !! k = Some p <-> pages !! k = Some p) ->
  (forall k, pages' !! k <> Some x) -> core_ok (delete x C) pages' (rem x all) held (usage - hc_charge c).
Proof using Hok Hx Hxd.
  intros Hdet Hrefs Hpages Hnot. pose proof (core_cost Hdet) as Hcost. pose proof core_usage_le as Hle.
  pose proof (co_handle _ _ _ _ _ Hok x c Hx Hxd) as Hh. unfold handle_ok in Hh. rewrite Hdet in Hh. destruct Hh as (Hmul & _).
  assert (Hcd : cost_at (delete x C) x = 0) by (unfold cost_at; by rewrite lookup_delete_eq).
  eapply (core_step C pages all held usage _ pages' _ _ _ x Hok Hxd); try done.
  - intros p Hp. by rewrite lookup_delete_ne.
  - intros p Hp. rewrite elem_rem. tauto.
  - intros c'. by rewrite lookup_delete_eq.
  - intros k Hk. by apply Hnot in Hk.
  - rewrite elem_rem, elem_of_multiplicity. intros [Hin|[_ Hin]]; [lia|done].
  - lia.
  - lia.
Qed.

(** The handle leaves the table only: a client has it. *)
Lemma core_unmap pages' : hc_detached c = false -> hc_refs c <> 0 -> (forall k p, p <> x -> pages' !! k = Some p <-> pages !! k = Some p) ->
  (forall k, pages' !! k <> Some x) -> core_ok (<[x := hc_set_in false c]> C) pages' all held usage.
Proof using Hok Hx Hxd.
  intros Hdet Hrefs Hpages Hnot. pose proof (co_handle _ _ _ _ _ Hok x c Hx Hxd) as Hh. unfold handle_ok in Hh. rewrite Hdet in Hh. destruct Hh as (Hmul & Hin & Hmap & Himp).
  assert (Hcd : cost_at (<[x := hc_set_in false c]> C) x = cost_at C x) by (unfold cost_at, cost; by rewrite lookup_insert_eq, Hx).
  eapply (core_step C pages all held usage _ pages' _ _ _ x Hok Hxd); try done.
  - intros p Hp. by rewrite lookup_insert_ne.
  - intros c'. rewrite lookup_insert_eq. intros [= <-]. split; [|by apply (co_charges _ _ _ _ _ Hok x c)]. unfold handle_ok, hc_set_refs, hc_set_in. cbn [hc_key hc_refs hc_in_cache hc_detached]. rewrite Hdet. split_and!; [done|done| |done].
    split; [done|]. intros Hk. by apply Hnot in Hk.
  - intros k Hk. by apply Hnot in Hk.
  - intros _. rewrite lookup_insert_eq. by eexists.
  - lia.
  - pose proof (co_bound _ _ _ _ _ Hok). rewrite (co_usage _ _ _ _ _ Hok). done.
Qed.

(** A client gets one more entry of a handle of the table. *)
Lemma core_acquire : pages !! hc_key c = Some x -> core_ok (<[x := hc_set_refs (hc_refs c + 1) c]> C) pages (rem x all) (held ⊎ {[+ x +]}) usage.
Proof using Hok Hx Hxd.
  intros Hk. destruct (co_pages _ _ _ _ _ Hok _ _ Hk) as (_ & c' & Hc' & _ & Hdet & Hin). assert (c' = c) as -> by congruence.
  pose proof (co_handle _ _ _ _ _ Hok x c Hx Hxd) as Hh. unfold handle_ok in Hh. rewrite Hdet in Hh. destruct Hh as (Hmul & Hall & Hmap & Himp).
  assert (Hcd : cost_at (<[x := hc_set_refs (hc_refs c + 1) c]> C) x = cost_at C x) by (unfold cost_at, cost; by rewrite lookup_insert_eq, Hx).
  eapply (core_step C pages all held usage _ pages _ _ _ x Hok Hxd); try done.
  - intros p Hp. by rewrite lookup_insert_ne.
  - intros p Hp. rewrite elem_rem. tauto.
  - intros p Hp. rewrite multiplicity_disj_union, multiplicity_singleton_ne by done. lia.
  - intros c'. rewrite lookup_insert_eq. intros [= <-]. split; [|by apply (co_charges _ _ _ _ _ Hok x c)]. unfold handle_ok, hc_set_refs, hc_set_in. cbn [hc_key hc_refs hc_in_cache hc_detached]. rewrite Hdet, elem_rem.
    rewrite multiplicity_disj_union, multiplicity_singleton_eq. split_and!; [lia| |done|intros _; by apply Hmap]. split; [tauto|lia].
  - intros k Hkx. destruct (co_pages _ _ _ _ _ Hok _ _ Hkx) as (_ & c' & Hc'' & <- & _). assert (c' = c) as -> by congruence. rewrite lookup_insert_eq. by eexists.
  - intros _. rewrite lookup_insert_eq. by eexists.
  - lia.
  - pose proof (co_bound _ _ _ _ _ Hok). rewrite (co_usage _ _ _ _ _ Hok). done.
Qed.

(** A client returns an entry that is not the last one, or the last one of a handle
    that goes to the list. *)
Lemma core_return all' : hc_detached c = false -> x ∈ held -> (forall p, p <> x -> p ∈ all' <-> p ∈ all) ->
  (x ∈ all' <-> hc_refs c = 1) -> (hc_refs c = 1 -> hc_in_cache c = true) ->
  core_ok (<[x := hc_set_refs (hc_refs c - 1) c]> C) pages all' (held ∖ {[+ x +]}) usage.
Proof using Hok Hx Hxd.
  intros Hdet Hheld Hall' Hin' Himp'. pose proof (co_handle _ _ _ _ _ Hok x c Hx Hxd) as Hh. unfold handle_ok in Hh. rewrite Hdet in Hh. destruct Hh as (Hmul & Hall & Hmap & Himp).
  assert (Hcd : cost_at (<[x := hc_set_refs (hc_refs c - 1) c]> C) x = cost_at C x) by (unfold cost_at, cost; by rewrite lookup_insert_eq, Hx).
  rewrite elem_of_multiplicity in Hheld.
  eapply (core_step C pages all held usage _ pages _ _ _ x Hok Hxd); try done.
  - intros p Hp. by rewrite lookup_insert_ne.
  - intros p Hp. rewrite multiplicity_difference, multiplicity_singleton_ne by done. lia.
  - intros c'. rewrite lookup_insert_eq. intros [= <-]. split; [|by apply (co_charges _ _ _ _ _ Hok x c)]. unfold handle_ok, hc_set_refs, hc_set_in. cbn [hc_key hc_refs hc_in_cache hc_detached]. rewrite Hdet.
    rewrite multiplicity_difference, multiplicity_singleton_eq. split_and!; [lia| |done|]; [rewrite Hin'; lia|]. intros ?. apply Himp'. lia.
  - intros k Hkx. destruct (co_pages _ _ _ _ _ Hok _ _ Hkx) as (_ & c' & Hc'' & <- & ? & ?). assert (c' = c) as -> by congruence. rewrite lookup_insert_eq. by eexists.
  - intros _. rewrite lookup_insert_eq. by eexists.
  - lia.
  - pose proof (co_bound _ _ _ _ _ Hok). rewrite (co_usage _ _ _ _ _ Hok). done.
Qed.

(** A client returns the last entry, and the handle goes. *)
Lemma core_drop pages' : x ∈ held -> hc_refs c <= 1 -> (forall k p, p <> x -> pages' !! k = Some p <-> pages !! k = Some p) ->
  (forall k, pages' !! k <> Some x) -> core_ok (delete x C) pages' all (held ∖ {[+ x +]}) (usage - cost_at C x).
Proof using Hok Hx Hxd.
  intros Hheld Hrefs Hpages Hnot. pose proof core_usage_le as Hle. rewrite elem_of_multiplicity in Hheld.
  pose proof (co_handle _ _ _ _ _ Hok x c Hx Hxd) as Hh. unfold handle_ok in Hh.
  assert (Hm : multiplicity x held = 1%nat /\ (x ∉ all)).
  { destruct (hc_detached c); [tauto|]. destruct Hh as (Hmul & Hall & _). split; [lia|]. rewrite Hall. lia. }
  assert (Hcd : cost_at (delete x C) x = 0) by (unfold cost_at; by rewrite lookup_delete_eq).
  eapply (core_step C pages all held usage _ pages' _ _ _ x Hok Hxd); try done.
  - intros p Hp. by rewrite lookup_delete_ne.
  - intros p Hp. rewrite multiplicity_difference, multiplicity_singleton_ne by done. lia.
  - intros c'. by rewrite lookup_delete_eq.
  - intros k Hk. by apply Hnot in Hk.
  - rewrite elem_of_multiplicity, multiplicity_difference, multiplicity_singleton_eq. intros [Hin|Hin]; [lia|tauto].
  - lia.
Qed.
End steps.

(** A new handle, in the table or detached. *)
Lemma core_new C pages all held usage x c :
  core_ok C pages all held usage -> C !! x = None -> 0 <= hc_charge c ->
  (if hc_detached c then hc_refs c = 0 /\ hc_in_cache c = false else hc_refs c = 1 /\ hc_in_cache c = true /\ pages !! hc_key c = None) ->
  usage + cost x c < 2 ^ 64 ->
  core_ok (<[x := c]> C) (if hc_detached c then pages else <[hc_key c := x]> pages) all (held ⊎ {[+ x +]}) (usage + cost x c).
Proof.
  intros Hok Hfresh Hch Hc Hbound.
  assert (Hxd : x <> d) by (intros ->; destruct (co_dummy _ _ _ _ _ Hok); congruence).
  assert (Hm : multiplicity x held = 0%nat) by (apply not_elem_of_multiplicity; intros [_ [? ?]]%(co_held _ _ _ _ _ Hok); congruence).
  assert (Ha : x ∉ all) by (intros [_ [? ?]]%(co_all _ _ _ _ _ Hok); congruence).
  assert (Hp : forall k, pages !! k <> Some x) by (intros k (_ & c' & ? & _)%(co_pages _ _ _ _ _ Hok); congruence).
  assert (H0 : cost_at C x = 0) by (unfold cost_at; by rewrite Hfresh).
  assert (H1 : cost_at (<[x := c]> C) x = cost x c) by (unfold cost_at; by rewrite lookup_insert_eq).
  eapply (core_step C pages all held usage _ _ _ _ _ x Hok Hxd); try done.
  - intros p ?. by rewrite lookup_insert_ne.
  - intros p ?. rewrite multiplicity_disj_union, multiplicity_singleton_ne by done. lia.
  - intros k p ?. destruct (hc_detached c); [done|]. destruct (decide (hc_key c = k)) as [<-|?]; [|by rewrite lookup_insert_ne].
    rewrite lookup_insert_eq. destruct Hc as (_ & _ & ->). split; congruence.
  - intros c'. rewrite lookup_insert_eq. intros [= <-]. split; [|done]. unfold handle_ok. rewrite multiplicity_disj_union, multiplicity_singleton_eq, Hm.
    destruct (hc_detached c); [tauto|]. destruct Hc as (-> & -> & _). rewrite lookup_insert_eq. split_and!; [done| |done|done]. split; [done|lia].
  - intros k. rewrite lookup_insert_eq. destruct (hc_detached c) eqn:Ed; [by intros Hk%Hp|]. destruct (decide (hc_key c = k)) as [<-|?].
    + intros _. exists c. destruct Hc as (_ & ? & _). done.
    + rewrite lookup_insert_ne by done. by intros Hk%Hp.
  - intros _. rewrite lookup_insert_eq. by eexists.
  - lia.
Qed.
End lru_core.
