(* ===== verification/LruLaws.v ===== *)
(** * The LRU cache is safe and coherent ([page_store/cache/lru.rs])

    Every operation of a shard keeps its invariant [shard_rep] when clients return the
    entries they were given, once each: it never follows a dangling pointer, its loops
    end, a lookup finds the value that was last inserted or nothing, and an entry keeps
    its value for as long as a client has it. *)

From stdpp Require Import gmultiset.
From stdpp Require Import base numbers list gmap.
From Stdlib Require Import ZArith Lia.
From S2P Require Import Prelude Float64 CacheHandle LruCache Ring LruHeap LruList LruFiles LruCore.

Section lru_laws.
Context {T : Type}.
Implicit Types (s : LRUCacheShard T) (held : gmultiset Z).

(** ** The invariant *)

Record shard_rep s (B L H : list Z) held : Prop := {
  sr_page : page_part s B L H;
  sr_file : file_part s (B ++ L ++ H);
  sr_core : core_ok (sh_lru_high_pri s) (v_core (sview s)) (sh_pages s) (B ++ L ++ H) held (sh_usage s);
  sr_lru_usage : sh_lru_usage s = charges (v_core (sview s)) (B ++ L ++ H);
  sr_low_off : low_off s;
}.
(** The usage exceeds the capacity only when the list is empty: all there is, clients have. *)
Definition bounded s (all : list Z) : Prop := sh_usage s <= sh_capacity s \/ all = [].
Definition shard_ok s held : Prop := exists B L H, shard_rep s B L H held /\ bounded s (B ++ L ++ H).

(** What the table has for a key (its hash and its value), and what an entry shows. *)
Definition cached s (k : Z) : option (Z * option T) := p ← sh_pages s !! k; (λ c, (hc_hash c, hc_value c)) <$> v_core (sview s) !! p.
Definition entry s (p : Z) : option (Z * Z * option T) := (λ c, (hc_key c, hc_hash c, hc_value c)) <$> v_core (sview s) !! p.

(** ** Changes of the memory the parts do not see *)

Lemma page_part_ext s s' B L H :
  sh_config s' = sh_config s -> sh_heap s' = sh_heap s -> sh_lru_low_pri s' = sh_lru_low_pri s -> sh_lru_bottom_pri s' = sh_lru_bottom_pri s ->
  sh_lru_low_usage s' = sh_lru_low_usage s -> sh_lru_high_usage s' = sh_lru_high_usage s -> page_part s B L H -> page_part s' B L H.
Proof.
  intros E1 E2 E3 E4 E5 E6 []. assert (Hd : sh_lru_high_pri s' = sh_lru_high_pri s) by (unfold sh_lru_high_pri; by rewrite E1).
  assert (HV : sview s' = sview s) by (unfold sview; by rewrite E2). split; rewrite ?Hd, ?HV, ?E1; first [done|congruence].
Qed.
Lemma file_part_ext s s' all :
  sh_config s' = sh_config s -> sh_heap s' = sh_heap s -> sh_files s' = sh_files s -> file_part s all -> file_part s' all.
Proof.
  intros E1 E2 E3 []. assert (Hd : sh_lru_high_pri s' = sh_lru_high_pri s) by (unfold sh_lru_high_pri; by rewrite E1).
  assert (HV : sview s' = sview s) by (unfold sview; by rewrite E2). split; rewrite ?Hd, ?HV, ?E3; done.
Qed.

(** When the links and places of the handles in the list, and the keys and charges of
    all that remain, are the same. *)
Lemma page_part_view s s' B L H :
  sh_config s' = sh_config s -> sh_lru_low_pri s' = sh_lru_low_pri s -> sh_lru_bottom_pri s' = sh_lru_bottom_pri s ->
  sh_lru_low_usage s' = sh_lru_low_usage s -> sh_lru_high_usage s' = sh_lru_high_usage s ->
  (forall p, p ∈ sh_lru_high_pri s :: B ++ L ++ H -> v_place (sview s') !! p = v_place (sview s) !! p /\ v_pn (sview s') !! p = v_pn (sview s) !! p /\
     v_pp (sview s') !! p = v_pp (sview s) !! p /\ charge_at (v_core (sview s')) p = charge_at (v_core (sview s)) p) ->
  charges_ok (v_core (sview s')) -> page_part s B L H -> page_part s' B L H.
Proof.
  intros E1 E3 E4 E5 E6 Hv Hc []. assert (Hd : sh_lru_high_pri s' = sh_lru_high_pri s) by (unfold sh_lru_high_pri; by rewrite E1).
  assert (Hch : forall l, (forall p, p ∈ l -> p ∈ B ++ L ++ H) -> charges (v_core (sview s')) l = charges (v_core (sview s)) l).
  { induction l as [|p l IH]; [done|]. intros Hl. rewrite !charges_cons, IH by (intros; apply Hl; by right). f_equal. apply Hv. right. apply Hl. by left. }
  split; rewrite ?Hd, ?E1, ?E3, ?E4, ?E5, ?E6; try done.
  - eapply ring_frame; [|exact pp_ring]. intros p Hp. destruct (Hv p Hp) as (_ & ? & ? & _). done.
  - intros p Hp. rewrite <- (pp_in_bottom p Hp). apply Hv. right. apply elem_of_app. by left.
  - intros p Hp. rewrite <- (pp_in_low p Hp). apply Hv. right. rewrite !elem_of_app. tauto.
  - intros p Hp. rewrite <- (pp_in_high p Hp). apply Hv. right. rewrite !elem_of_app. tauto.
  - rewrite pp_low_usage. symmetry. apply Hch. intros p. rewrite !elem_of_app. tauto.
  - rewrite pp_high_usage. symmetry. apply Hch. intros p. rewrite !elem_of_app. tauto.
  - by rewrite Hch.
Qed.
Lemma file_part_view s s' all :
  sh_config s' = sh_config s -> sh_files s' = sh_files s ->
  (forall p, p ∈ all -> v_fn (sview s') !! p = v_fn (sview s) !! p /\ v_fp (sview s') !! p = v_fp (sview s) !! p /\
     file_of (v_core (sview s')) p = file_of (v_core (sview s)) p) ->
  (forall p, p ∉ all -> p <> sh_lru_high_pri s -> is_Some (v_core (sview s') !! p) -> v_fn (sview s') !! p = Some p /\ v_fp (sview s') !! p = Some p) ->
  file_part s all -> file_part s' all.
Proof.
  intros E1 E2 Hv Hs [Hr _]. assert (Hd : sh_lru_high_pri s' = sh_lru_high_pri s) by (unfold sh_lru_high_pri; by rewrite E1). split.
  - intros f. destruct (Hr f) as (l & Hn & Hl & Hh & Hm). exists l. rewrite E2. split_and!; [done| |done|].
    + eapply ring_frame; [|exact Hl]. intros p [Hp _]%Hm. destruct (Hv p Hp) as (? & ? & _). done.
    + intros p. rewrite Hm. split; intros [Hp Hf]; (split; [done|]); destruct (Hv p Hp) as (_ & _ & E); congruence.
  - rewrite Hd. apply Hs.
Qed.

(** Writing the flags or the references of a handle. *)
Lemma write_core s p x y B L H :
  sh_heap s !! p = Some x -> lh_page_link y = lh_page_link x -> lh_file_link y = lh_file_link x -> in_cache_priority y = in_cache_priority x ->
  lh_key y = lh_key x -> lh_charge y = lh_charge x -> page_part s B L H -> file_part s (B ++ L ++ H) ->
  let s' := with_heap (<[p := y]> (sh_heap s)) s in
  v_core (sview s') = <[p := core y]> (v_core (sview s)) /\ page_part s' B L H /\ file_part s' (B ++ L ++ H).
Proof.
  intros E Ep Ef Epl Ek Ec Hp Hf s'. assert (V : sview s' = up_core <[p := core y]> (sview s)) by (by apply (view_core_set _ _ x)).
  pose proof (view_core_lookup _ _ _ E) as Hcx. rewrite V. cbn [up_core v_core]. split_and!; [done|..].
  - eapply (page_part_view s); try done; rewrite ?V; cbn [up_core v_core v_place v_pn v_pp].
    + intros q Hq. split_and!; [done..|]. unfold charge_at. destruct (decide (q = p)) as [->|?]; [|by rewrite lookup_insert_ne].
      unfold sview. rewrite lookup_insert_eq, Hcx. cbn. done.
    + intros q c. destruct (decide (q = p)) as [->|?]; [|rewrite lookup_insert_ne by done; apply (pp_charges _ _ _ _ Hp)].
      rewrite lookup_insert_eq. intros [= <-]. cbn. rewrite Ec. apply (pp_charges _ _ _ _ Hp p (core x)). done.
  - eapply (file_part_view s); try done; rewrite ?V; cbn [up_core v_core v_fn v_fp].
    + intros q Hq. split_and!; [done..|]. unfold file_of. destruct (decide (q = p)) as [->|?]; [|by rewrite lookup_insert_ne].
      unfold sview. rewrite lookup_insert_eq, Hcx. cbn. by rewrite Ek.
    + intros q Hq Hqd Hs. apply (fp_self _ _ Hf); [done|done|]. destruct (decide (q = p)) as [->|?]; [unfold sview; rewrite Hcx; by eexists|]. by rewrite lookup_insert_ne in Hs.
Qed.

(** Freeing a handle that is not in the list, and allocating one. *)
Lemma drop_heap s p B L H :
  p ∉ sh_lru_high_pri s :: B ++ L ++ H -> page_part s B L H -> file_part s (B ++ L ++ H) ->
  let s' := with_heap (delete p (sh_heap s)) s in
  v_core (sview s') = delete p (v_core (sview s)) /\ page_part s' B L H /\ file_part s' (B ++ L ++ H).
Proof.
  intros Hp Hpp Hf s'.
  assert (V : sview s' = mkView (delete p (v_core (sview s))) (delete p (v_place (sview s))) (delete p (v_pn (sview s))) (delete p (v_pp (sview s)))
    (delete p (v_fn (sview s))) (delete p (v_fp (sview s)))) by (unfold sview, view, s'; cbn [sh_heap with_heap v_core v_place v_pn v_pp v_fn v_fp]; by rewrite !fmap_delete).
  rewrite V. cbn [v_core]. split_and!; [done|..].
  - eapply (page_part_view s); try done; rewrite ?V; cbn [v_core v_place v_pn v_pp].
    + intros q Hq. assert (q <> p) by (intros ->; done). unfold charge_at. by rewrite !lookup_delete_ne.
    + intros q c [_ Hq]%lookup_delete_Some. by apply (pp_charges _ _ _ _ Hpp q).
  - apply not_elem_of_cons in Hp as [Hpd Hp]. eapply (file_part_view s); try done; rewrite ?V; cbn [v_core v_fn v_fp].
    + intros q Hq. assert (q <> p) by (intros ->; done). unfold file_of. by rewrite !lookup_delete_ne.
    + intros q Hq Hqd [c Hs]. apply lookup_delete_Some in Hs as [Hne Hs]. rewrite !lookup_delete_ne by done. apply (fp_self _ _ Hf); [done|done|by eexists].
Qed.
Lemma alloc_heap s p y B L H :
  sh_heap s !! p = None -> lh_file_link y = mkHandleLink p p -> 0 <= lh_charge y -> page_part s B L H -> file_part s (B ++ L ++ H) ->
  let s' := with_heap (<[p := y]> (sh_heap s)) s in
  v_core (sview s') = <[p := core y]> (v_core (sview s)) /\ page_part s' B L H /\ file_part s' (B ++ L ++ H).
Proof.
  intros E El Ec Hpp Hf s'.
  assert (V : sview s' = mkView (<[p := core y]> (v_core (sview s))) (<[p := in_cache_priority y]> (v_place (sview s))) (<[p := hl_next (lh_page_link y)]> (v_pn (sview s)))
    (<[p := hl_prev (lh_page_link y)]> (v_pp (sview s))) (<[p := p]> (v_fn (sview s))) (<[p := p]> (v_fp (sview s)))).
  { unfold sview, view, s'. cbn [sh_heap with_heap v_core v_place v_pn v_pp v_fn v_fp]. rewrite !fmap_insert, El. done. }
  assert (Hnew : forall q, is_Some (sh_heap s !! q) -> q <> p) by (intros q [? ?] ->; congruence).
  rewrite V. cbn [v_core]. split_and!; [done|..].
  - eapply (page_part_view s); try done; rewrite ?V; cbn [v_core v_place v_pn v_pp].
    + intros q Hq. assert (q <> p) by (eapply Hnew, ring_some; [apply Hpp|done]). unfold charge_at. by rewrite !lookup_insert_ne.
    + intros q c. destruct (decide (q = p)) as [->|?]; [|rewrite lookup_insert_ne by done; apply (pp_charges _ _ _ _ Hpp)].
      rewrite lookup_insert_eq. by intros [= <-].
  - eapply (file_part_view s); try done; rewrite ?V; cbn [v_core v_fn v_fp].
    + intros q Hq. assert (q <> p) by (eapply Hnew, ring_some; [apply Hpp|by right]). unfold file_of. by rewrite !lookup_insert_ne.
    + intros q Hq Hqd Hs. destruct (decide (q = p)) as [->|?]; [by rewrite !lookup_insert_eq|]. rewrite !lookup_insert_ne in * by done. by apply (fp_self _ _ Hf).
Qed.

(** ** Taking a handle out of the list *)

Lemma charges_same C C' l : (forall p, p ∈ l -> C' !! p = C !! p) -> charges (T := T) C' l = charges C l.
Proof.
  induction l as [|p l IH]; [done|]. intros Hl. rewrite !charges_cons, IH by (intros; apply Hl; by right). unfold charge_at. by rewrite (Hl p) by (by left).
Qed.

Lemma unlink_ok s B L H x c :
  page_part s B L H -> file_part s (B ++ L ++ H) -> sh_lru_usage s = charges (v_core (sview s)) (B ++ L ++ H) ->
  x ∈ B ++ L ++ H -> v_core (sview s) !! x = Some c ->
  exists s1 b s2, unlink_lru x s = (Ok tt, s1) /\ unlink_file x s1 = (Ok b, s2) /\
    page_part s2 (rem x B) (rem x L) (rem x H) /\ file_part s2 (rem x (B ++ L ++ H)) /\
    v_core (sview s2) = v_core (sview s) /\ sh_pages s2 = sh_pages s /\ sh_config s2 = sh_config s /\ sh_stats s2 = sh_stats s /\
    sh_usage s2 = sh_usage s /\ sh_lru_usage s2 = charges (v_core (sview s2)) (rem x (B ++ L ++ H)).
Proof.
  intros Hp Hf Hu Hx Hc. destruct (unlink_lru_ok s B L H x Hp Hx Hu) as (s1 & E1 & Hp1 & Hf1 & Hu1 & _).
  pose proof (file_part_list_frame _ _ _ Hf1 Hf) as Hfp1. destruct Hf1 as [F1 F2 F3 F4 F5 F6 F7 F8].
  assert (Hd : sh_lru_high_pri s1 = sh_lru_high_pri s) by (unfold sh_lru_high_pri; by rewrite F1).
  destruct (unlink_file_ok s1 _ Hfp1 x c Hx) as (s2 & b & E2 & Hfp2 & Hff).
  { rewrite Hd. pose proof (pp_nodup _ _ _ _ Hp) as [Hn _]%NoDup_cons. intros ->. done. } { by rewrite F6. }
  exists s1, b, s2. split_and!; [done|done|by eapply page_part_file_frame|done|..]; destruct Hff; congruence.
Qed.

Lemma clear_handle_ok x c s : v_core (sview s) !! x = Some c ->
  clear_handle x s = (Ok tt, with_heap (delete x (sh_heap s)) (with_usage (wrap64 (sh_usage s - hc_charge c)) s)).
Proof.
  intros Hc. destruct (view_lookup _ _ _ Hc) as (h & E & <- & _). unfold clear_handle, box_drop. st_step (deref_ok _ _ _ E). rewrite st_modify.
  st_step (deref_ok x h (with_usage (wrap64 (sh_usage s - lh_charge h)) s) E). done.
Qed.

Lemma discard_ok s B L H x c :
  page_part s B L H -> file_part s (B ++ L ++ H) -> sh_lru_usage s = charges (v_core (sview s)) (B ++ L ++ H) ->
  x ∈ B ++ L ++ H -> v_core (sview s) !! x = Some c ->
  exists s1 b s2 s3, unlink_lru x s = (Ok tt, s1) /\ unlink_file x s1 = (Ok b, s2) /\ clear_handle x s2 = (Ok tt, s3) /\
    page_part s3 (rem x B) (rem x L) (rem x H) /\ file_part s3 (rem x (B ++ L ++ H)) /\
    v_core (sview s3) = delete x (v_core (sview s)) /\ sh_pages s3 = sh_pages s /\ sh_config s3 = sh_config s /\ sh_stats s3 = sh_stats s /\
    sh_usage s3 = wrap64 (sh_usage s - hc_charge c) /\ sh_lru_usage s3 = charges (v_core (sview s3)) (rem x (B ++ L ++ H)).
Proof.
  intros Hp Hf Hu Hx Hc. destruct (unlink_ok s B L H x c Hp Hf Hu Hx Hc) as (s1 & b & s2 & E1 & E2 & Hp2 & Hf2 & G1 & G2 & G3 & G4 & G5 & G6).
  assert (Hd : sh_lru_high_pri s2 = sh_lru_high_pri s) by (unfold sh_lru_high_pri; by rewrite G3).
  pose proof (clear_handle_ok x c s2) as E3. rewrite G1 in E3. specialize (E3 Hc). set (s3 := with_usage _ s2) in E3.
  rewrite !rem_app in Hf2. destruct (drop_heap s3 x (rem x B) (rem x L) (rem x H)) as (V & Hp3 & Hf3).
  { change (sh_lru_high_pri s3) with (sh_lru_high_pri s2). rewrite Hd, <- !rem_app, elem_of_cons, elem_rem.
    pose proof (pp_nodup _ _ _ _ Hp) as [Hn _]%NoDup_cons. intros [->|[_ ?]]; done. }
  { by eapply (page_part_ext s2). } { by eapply (file_part_ext s2). }
  change (v_core (sview s3)) with (v_core (sview s2)) in V. rewrite G1 in V.
  exists s1, b, s2, (with_heap (delete x (sh_heap s2)) s3). change (sh_heap s3) with (sh_heap s2) in *. rewrite V. split_and!; try done.
  - by rewrite !rem_app.
  - cbn. by rewrite G5.
  - cbn [sh_lru_usage with_heap with_usage s3]. rewrite G6, G1. symmetry. apply charges_same. intros p [_ Hp']%elem_rem. by rewrite lookup_delete_ne.
Qed.

(** ** Lookup *)

Definition refs_bound held : Prop := forall p, Z.of_nat (multiplicity p held) + 1 < 2 ^ 32.

Lemma core_add_ref (x : LRUHandle T) : 0 <= lh_refs x -> lh_refs x + 1 < 2 ^ 32 -> core (add_ref x) = hc_set_refs (lh_refs x + 1) (core x).
Proof. intros H0 Hr. unfold core, add_ref, hc_set_refs. cbn [lh_key lh_hash lh_value lh_charge lh_refs lh_flags set_refs hc_key hc_hash hc_value hc_charge hc_in_cache hc_detached hc_priority]. rewrite wrap_small by (unfold fits; lia). done. Qed.

(** The parts that make up the invariant, after the links were taken care of. *)
Lemma shard_rep_config s s' B L H held :
  sh_config s' = sh_config s -> page_part s' B L H -> file_part s' (B ++ L ++ H) ->
  core_ok (sh_lru_high_pri s) (v_core (sview s')) (sh_pages s') (B ++ L ++ H) held (sh_usage s') ->
  sh_lru_usage s' = charges (v_core (sview s')) (B ++ L ++ H) -> low_off s -> shard_rep s' B L H held.
Proof.
  intros E Hp Hf Hc Hu Hl. assert (Hd : sh_lru_high_pri s' = sh_lru_high_pri s) by (unfold sh_lru_high_pri; by rewrite E).
  split; [done|done|by rewrite Hd|done|]. unfold low_off in *. by rewrite E.
Qed.

Lemma rep_lookup s B L H held p c : shard_rep s B L H held -> v_core (sview s) !! p = Some c -> p <> sh_lru_high_pri s ->
  exists x, sh_heap s !! p = Some x /\ core x = c /\ handle_ok (sh_pages s) (B ++ L ++ H) held p c.
Proof.
  intros Hr Hc Hd. destruct (view_lookup _ _ _ Hc) as (x & E & Ex & _). exists x. split_and!; [done|done|]. by apply (co_handle _ _ _ _ _ _ (sr_core _ _ _ _ _ Hr)).
Qed.

(** Writing a handle so that its key, its value and its charge stay. *)
Lemma entry_write s s' p c c' : v_core (sview s) !! p = Some c -> v_core (sview s') = <[p := c']> (v_core (sview s)) ->
  hc_key c' = hc_key c -> hc_hash c' = hc_hash c -> hc_value c' = hc_value c -> forall q, entry s' q = entry s q.
Proof.
  intros Hc E E1 E2 E3 q. unfold entry. rewrite E. destruct (decide (q = p)) as [->|?]; [|by rewrite lookup_insert_ne].
  rewrite lookup_insert_eq, Hc. cbn. by rewrite E1, E2, E3.
Qed.
Lemma cached_entry s k : cached s k = (p ← sh_pages s !! k; (λ e, (e.1.2, e.2)) <$> entry s p).
Proof. unfold cached, entry. destruct (sh_pages s !! k) as [p|]; [|done]. cbn [mbind option_bind]. by destruct (v_core (sview s) !! p). Qed.

Lemma bounded_rem s s' e all : sh_config s' = sh_config s -> sh_usage s' <= sh_usage s -> bounded s all -> bounded s' (rem e all).
Proof. intros Ec Eu [H|H]; [left; unfold sh_capacity in *; rewrite Ec; lia|right; by subst]. Qed.

Lemma shard_lookup_ok s held k :
  shard_ok s held -> refs_bound held ->
  exists s', shard_lookup k s = (Ok (sh_pages s !! k), s') /\
    shard_ok s' (match sh_pages s !! k with Some p => held ⊎ {[+ p +]} | None => held end) /\ sh_config s' = sh_config s /\
    (forall k', cached s' k' = cached s k') /\ (forall p, entry s' p = entry s p).
Proof.
  intros (B & L & H & Hrep & Hbd) Hb. unfold shard_lookup, table_find. rewrite st_gets. destruct (sh_pages s !! k) as [e|] eqn:Ek; cycle 1.
  { rewrite st_modify. eexists. split; [reflexivity|]. split; [|by split_and!]. exists B, L, H. split; [|done]. destruct Hrep as [Hp Hf Hc Hu Hl].
    split; [by eapply (page_part_ext s)|by eapply (file_part_ext s)|done..]. }
  destruct (co_pages _ _ _ _ _ _ (sr_core _ _ _ _ _ Hrep) _ _ Ek) as (Hed & c & Hc & Hkey & Hdet & Hin).
  destruct (rep_lookup _ _ _ _ _ _ _ Hrep Hc Hed) as (x & Ex & Ecx & Hh). unfold handle_ok in Hh. rewrite Hdet in Hh. destruct Hh as (Hmul & Hall & _).
  st_step (deref_ok _ _ _ Ex). assert (Hrefs : lh_refs x = hc_refs c) by (by rewrite <- Ecx). unfold has_refs. rewrite Hrefs.
  destruct Hrep as [Hp Hf Hco Hu Hl].
  assert (Hrun : exists s2, (if negb (0 <? hc_refs c) then _ ← unlink_lru e; _ ← unlink_file e; mret tt else mret tt) s = (Ok tt, s2) /\
    page_part s2 (rem e B) (rem e L) (rem e H) /\ file_part s2 (rem e (B ++ L ++ H)) /\
    v_core (sview s2) = v_core (sview s) /\ sh_pages s2 = sh_pages s /\ sh_config s2 = sh_config s /\ sh_usage s2 = sh_usage s /\
    sh_lru_usage s2 = charges (v_core (sview s2)) (rem e (B ++ L ++ H))).
  { destruct (0 <? hc_refs c) eqn:Er; cbn [negb].
    - apply Z.ltb_lt in Er. assert (He : e ∉ B ++ L ++ H) by (rewrite Hall; lia). exists s. rewrite !elem_of_app in He. rewrite !rem_notin by (rewrite ?elem_of_app; tauto). by split_and!.
    - apply Z.ltb_ge in Er. destruct (unlink_ok s B L H e c) as (s1 & b & s2 & E1 & E2 & ? & ? & ? & ? & ? & ? & ? & ?); try done; [apply Hall; lia|].
      exists s2. st_step E1. st_step E2. by split_and!. }
  destruct Hrun as (s2 & E & Hp2 & Hf2 & G1 & G2 & G3 & G4 & G5). st_step E. rewrite st_modify. set (s3 := with_stats _ s2).
  destruct (view_lookup (sh_heap s3) e c) as (x3 & Ex3 & Ecx3 & _); [change (view (sh_heap s3)) with (sview s2); by rewrite G1|].
  assert (Hrefs3 : lh_refs x3 = hc_refs c) by (by rewrite <- Ecx3). pose proof (Hb e) as Hbe. rewrite <- Hmul in Hbe.
  st_step (assign_ok e add_ref x3 s3 Ex3). rewrite !rem_app in Hf2.
  destruct (write_core s3 e x3 (add_ref x3) (rem e B) (rem e L) (rem e H) Ex3) as (V & Hp4 & Hf4); try done; [by eapply (page_part_ext s2)|by eapply (file_part_ext s2)|].
  change (v_core (sview s3)) with (v_core (sview s2)) in V. rewrite G1, core_add_ref, Hrefs3, Ecx3 in V by lia.
  eexists. split; [reflexivity|]. split_and!.
  - exists (rem e B), (rem e L), (rem e H). split; [|rewrite <- !rem_app; by eapply (bounded_rem s); [exact G3|exact (Z.eq_le_incl _ _ G4)|]]. eapply (shard_rep_config s); try done; rewrite V.
    + change (sh_pages _) with (sh_pages s2). change (sh_usage _) with (sh_usage s2). rewrite G2, G4, <- !rem_app. apply core_acquire; try done. by rewrite Hkey.
    + change (sh_lru_usage _) with (sh_lru_usage s2). rewrite G5, G1, <- !rem_app. symmetry. apply charges_same. intros p [_ Hne]%elem_rem. by rewrite lookup_insert_ne.
  - exact G3.
  - intros k'. rewrite !cached_entry. change (sh_pages (with_heap _ _)) with (sh_pages s2). rewrite G2. destruct (sh_pages s !! k'); [cbn|done]. f_equal.
    by eapply entry_write.
  - by eapply entry_write.
Qed.

(** ** Removing from the table *)

Lemma core_set_in_cache b (x : LRUHandle T) : core (set_in_cache b x) = hc_set_in b (core x).
Proof. unfold core, hc_set_in. rewrite in_cache_set, detached_in_cache. cbn [hc_key hc_hash hc_value hc_charge hc_refs hc_detached hc_priority set_in_cache set_flags lh_key lh_hash lh_value lh_charge lh_refs]. f_equal. by flag_simpl. Qed.

Lemma unmark_ok s p c B L H :
  v_core (sview s) !! p = Some c -> page_part s B L H -> file_part s (B ++ L ++ H) ->
  exists s', assign p (set_in_cache false) s = (Ok tt, s') /\ page_part s' B L H /\ file_part s' (B ++ L ++ H) /\
    v_core (sview s') = <[p := hc_set_in false c]> (v_core (sview s)) /\ sh_pages s' = sh_pages s /\ sh_config s' = sh_config s /\
    sh_stats s' = sh_stats s /\ sh_usage s' = sh_usage s /\ sh_lru_usage s' = sh_lru_usage s.
Proof.
  intros Hc Hp Hf. destruct (view_lookup _ _ _ Hc) as (x & E & Ex & _). eexists. split; [exact (assign_ok _ _ _ _ E)|].
  destruct (write_core s p x (set_in_cache false x) B L H E) as (V & Hp' & Hf'); try done; [apply in_priority_in_cache|].
  split_and!; [done|done| |done..]. by rewrite V, core_set_in_cache, Ex.
Qed.

Lemma charges_unmark (C : gmap Z (HandleCore T)) p c l : C !! p = Some c -> charges (<[p := hc_set_in false c]> C) l = charges C l.
Proof.
  intros Hc. induction l as [|q l IH]; [done|]. rewrite !charges_cons, IH. f_equal. unfold charge_at.
  destruct (decide (q = p)) as [->|?]; [by rewrite lookup_insert_eq, Hc|by rewrite lookup_insert_ne].
Qed.

Lemma table_remove_ok s k p c B L H :
  sh_pages s !! k = Some p -> v_core (sview s) !! p = Some c -> page_part s B L H -> file_part s (B ++ L ++ H) ->
  exists s', table_remove k s = (Ok (Some p), s') /\ page_part s' B L H /\ file_part s' (B ++ L ++ H) /\
    v_core (sview s') = <[p := hc_set_in false c]> (v_core (sview s)) /\ sh_pages s' = delete k (sh_pages s) /\ sh_config s' = sh_config s /\
    sh_stats s' = sh_stats s /\ sh_usage s' = sh_usage s /\ sh_lru_usage s' = sh_lru_usage s.
Proof.
  intros Hk Hc Hp Hf. unfold table_remove. rewrite st_gets, st_modify, Hk. set (s1 := with_pages _ s).
  destruct (unmark_ok s1 p c B L H) as (s' & E & G); [done|by eapply (page_part_ext s)|by eapply (file_part_ext s)|].
  exists s'. st_step E. split; [done|]. done.
Qed.

(** Removing a handle of the list from the table and from memory. *)
Lemma evict_handle s B L H held x c :
  shard_rep s B L H held -> x ∈ B ++ L ++ H -> v_core (sview s) !! x = Some c ->
  exists s0 s1 b s2 s3, table_remove (hc_key c) s = (Ok (Some x), s0) /\ (exists h, sh_heap s0 !! x = Some h /\ has_refs h = false) /\
    unlink_lru x s0 = (Ok tt, s1) /\ unlink_file x s1 = (Ok b, s2) /\ clear_handle x s2 = (Ok tt, s3) /\
    shard_rep s3 (rem x B) (rem x L) (rem x H) held /\ sh_config s3 = sh_config s /\ sh_pages s3 = delete (hc_key c) (sh_pages s) /\
    v_core (sview s3) = delete x (v_core (sview s)) /\ sh_usage s3 = sh_usage s - hc_charge c.
Proof.
  intros [Hp Hf Hco Hu Hl] Hx Hc. assert (Hxd : x <> sh_lru_high_pri s) by (by apply (co_all _ _ _ _ _ _ Hco)).
  destruct (core_list _ _ _ _ _ _ Hco x c Hc Hxd Hx) as (Hdet & Hrefs & Hin & Hpg).
  destruct (table_remove_ok s _ x c B L H Hpg Hc Hp Hf) as (s0 & E0 & Hp0 & Hf0 & V0 & G1 & G2 & G3 & G4 & G5).
  assert (Hc0 : v_core (sview s0) !! x = Some (hc_set_in false c)) by (by rewrite V0, lookup_insert_eq).
  destruct (discard_ok s0 B L H x (hc_set_in false c) Hp0 Hf0) as (s1 & b & s2 & s3 & E1 & E2 & E3 & Hp3 & Hf3 & V3 & K1 & K2 & K3 & K4 & K5); [|done|done|].
  { rewrite G5, Hu, V0. by rewrite charges_unmark. }
  assert (V : v_core (sview s3) = delete x (v_core (sview s))) by (by rewrite V3, V0, delete_insert_eq).
  assert (Eu : sh_usage s3 = sh_usage s - hc_charge c).
  { rewrite K4, G4. by apply (core_usage_wrap _ _ _ _ _ _ Hco x c). }
  exists s0, s1, b, s2, s3. split_and!; try done.
  - destruct (view_lookup _ _ _ Hc0) as (h & Eh & Ec & _). exists h. split; [done|]. unfold has_refs. replace (lh_refs h) with (hc_refs c); [by rewrite Hrefs|].
    by apply (f_equal hc_refs) in Ec.
  - rewrite rem_app, rem_app in Hf3, K5. eapply (shard_rep_config s); try done; [congruence|]. rewrite V, K1, G1, Eu, <- !rem_app.
    apply (core_discard _ _ _ _ _ _ Hco x c); try done.
    + intros k q Hq. rewrite lookup_delete_Some. split; [tauto|]. intros Hk. split; [|done]. intros <-. congruence.
    + intros k [Hne Hk]%lookup_delete_Some. destruct (co_pages _ _ _ _ _ _ Hco _ _ Hk) as (_ & c' & ? & ? & _). congruence.
  - congruence.
  - by rewrite K1, G1.
Qed.

(** ** Eviction *)

(** The cache may forget, and the entries of clients stay as they are. *)
Definition forgets s s' : Prop := forall k v, cached s' k = Some v -> cached s k = Some v.
Definition keeps held s s' : Prop := forall p, p ∈ held -> entry s' p = entry s p.

Lemma forgets_refl s : forgets s s.
Proof. by intros k v. Qed.
Lemma forgets_trans s1 s2 s3 : forgets s1 s2 -> forgets s2 s3 -> forgets s1 s3.
Proof. intros H1 H2 k v H%H2. by apply H1. Qed.

Lemma delete_keeps s B L H held s' x : shard_rep s B L H held -> x ∈ B ++ L ++ H -> v_core (sview s') = delete x (v_core (sview s)) -> keeps held s s'.
Proof.
  intros Hrep Hx V p Hp. unfold entry. rewrite V, lookup_delete_ne; [done|]. intros <-.
  destruct (co_all _ _ _ _ _ _ (sr_core _ _ _ _ _ Hrep) x Hx) as (Hd & c & Hc). pose proof (co_handle _ _ _ _ _ _ (sr_core _ _ _ _ _ Hrep) x c Hc Hd) as Hh.
  rewrite elem_of_multiplicity in Hp. unfold handle_ok in Hh. destruct (hc_detached c); [tauto|]. destruct Hh as (Hm & Hin & _). apply Hin in Hx. lia.
Qed.
Lemma delete_forgets s B L H held s' x c : shard_rep s B L H held -> v_core (sview s) !! x = Some c ->
  v_core (sview s') = delete x (v_core (sview s)) -> sh_pages s' = delete (hc_key c) (sh_pages s) -> forgets s s'.
Proof.
  intros Hrep Hc V Hp k v. unfold cached. rewrite V, Hp. destruct (delete (hc_key c) (sh_pages s) !! k) as [p|] eqn:E; [|done]. apply lookup_delete_Some in E as [Hne E].
  rewrite E. cbn. rewrite lookup_delete_ne; [done|]. intros <-. destruct (co_pages _ _ _ _ _ _ (sr_core _ _ _ _ _ Hrep) _ _ E) as (_ & c' & ? & ? & _). congruence.
Qed.

(** With room, nothing is evicted. *)
Lemma evict_loop_room fuel charge s B L H held :
  shard_rep s B L H held -> 0 <= charge -> sh_usage s + charge < 2 ^ 64 -> sh_usage s + charge <= sh_capacity s ->
  evict_loop (S fuel) charge s = (Ok tt, s).
Proof.
  intros Hrep Hc Hb Hr. cbn [evict_loop]. rewrite st_get.
  destruct (part_next s [] (B ++ L ++ H) (pp_ring _ _ _ _ (sr_page _ _ _ _ _ Hrep))) as (hd & Ehd & _). change (last_of _ []) with (sh_lru_high_pri s) in Ehd.
  st_step (deref_ok _ _ _ Ehd).
  assert (Hu0 : 0 <= sh_usage s) by (rewrite (co_usage _ _ _ _ _ _ (sr_core _ _ _ _ _ Hrep)); apply total_nonneg, (co_charges _ _ _ _ _ _ (sr_core _ _ _ _ _ Hrep))).
  rewrite wrap_small by (unfold fits; lia). by rewrite (proj2 (Z.ltb_ge _ _)).
Qed.

Lemma evict_loop_ok fuel charge s B L H held :
  shard_rep s B L H held -> (length (B ++ L ++ H) < fuel)%nat -> 0 <= charge -> sh_usage s + charge < 2 ^ 64 ->
  exists s' B' L' H' old, evict_loop fuel charge s = (Ok tt, s') /\ shard_rep s' B' L' H' held /\ B ++ L ++ H = old ++ B' ++ L' ++ H' /\
    sh_config s' = sh_config s /\ forgets s s' /\ keeps held s s' /\ (forall p, sh_heap s !! p = None -> sh_heap s' !! p = None) /\
    (sh_usage s' + charge <= sh_capacity s \/ B' ++ L' ++ H' = []) /\ sh_usage s' <= sh_usage s.
Proof.
  revert s B L H. induction fuel as [|fuel IH]; intros s B L H Hrep Hf Hc Hb; [lia|]. cbn [evict_loop]. rewrite st_get.
  destruct (part_next s [] (B ++ L ++ H) (pp_ring _ _ _ _ (sr_page _ _ _ _ _ Hrep))) as (hd & Ehd & Enext). change (last_of _ []) with (sh_lru_high_pri s) in Ehd.
  st_step (deref_ok _ _ _ Ehd). rewrite Enext.
  assert (Hu0 : 0 <= sh_usage s) by (rewrite (co_usage _ _ _ _ _ _ (sr_core _ _ _ _ _ Hrep)); apply total_nonneg, (co_charges _ _ _ _ _ _ (sr_core _ _ _ _ _ Hrep))).
  rewrite wrap_small by (unfold fits; lia). destruct (sh_capacity s <? sh_usage s + charge) eqn:Eu; cycle 1; cbn [andb].
  { apply Z.ltb_ge in Eu. exists s, B, L, H, []. split_and!; try done; [apply forgets_refl|by left]. }
  destruct (B ++ L ++ H) as [|x rest] eqn:Eall.
  { change (first_of _ []) with (sh_lru_high_pri s). rewrite Z.eqb_refl. cbn [negb]. exists s, B, L, H, []. rewrite Eall. split_and!; try done; [apply forgets_refl|by right]. }
  change (first_of _ (x :: rest)) with x. assert (Hx : x ∈ B ++ L ++ H) by (rewrite Eall; by left).
  destruct (co_all _ _ _ _ _ _ (sr_core _ _ _ _ _ Hrep) x Hx) as (Hxd & c & Hcx). rewrite (proj2 (Z.eqb_neq _ _)) by done. cbn [negb].
  destruct (evict_handle s B L H held x c Hrep Hx Hcx) as (s0 & s1 & b & s2 & s3 & E0 & _ & E1 & E2 & E3 & Hrep3 & K1 & K2 & V & Eu3).
  destruct (view_lookup _ _ _ Hcx) as (hx & Ehx & Ecx & _). st_step (deref_ok _ _ _ Ehx). replace (lh_key hx) with (hc_key c) by (by rewrite <- Ecx).
  st_step E0. st_step E1. st_step E2. st_step E3. rewrite st_modify. set (s4 := with_stats _ s3).
  pose proof (co_charges _ _ _ _ _ _ (sr_core _ _ _ _ _ Hrep) x c Hcx) as Hcharge.
  assert (Hrest : rem x B ++ rem x L ++ rem x H = rest).
  { rewrite <- !rem_app, Eall. pose proof (pp_nodup _ _ _ _ (sr_page _ _ _ _ _ Hrep)) as [_ Hn]%NoDup_cons. rewrite Eall in Hn. by apply (rem_split x [] rest). }
  destruct (IH s4 (rem x B) (rem x L) (rem x H)) as (s' & B' & L' & H' & old & E & Hr & Eo & Ec' & Hfo & Hke & Hfr & Hen & Hle).
  - destruct Hrep3 as [Q1 Q2 Q3 Q4 Q5]. split; [by eapply (page_part_ext s3)|by eapply (file_part_ext s3)|done..].
  - rewrite Hrest. cbn in Hf. lia.
  - done.
  - change (sh_usage s4) with (sh_usage s3). lia.
  - assert (Hcfg : sh_config s4 = sh_config s) by (exact K1). exists s', B', L', H', (x :: old). split_and!; try done.
    + cbn [app]. rewrite <- Eo. by rewrite Hrest.
    + congruence.
    + intros k v Hv%Hfo. change (cached s4 k) with (cached s3 k) in Hv. by eapply (delete_forgets s B L H held s3 x c).
    + intros p Hp. rewrite Hke by done. change (entry s4 p) with (entry s3 p). by eapply (delete_keeps s B L H held s3 x).
    + intros p Hp. apply Hfr. change (sh_heap s4) with (sh_heap s3). apply eq_None_not_Some. intros Hs%view_some. change (view (sh_heap s3)) with (sview s3) in Hs.
      rewrite V in Hs. destruct Hs as [? [_ Hs]%lookup_delete_Some]. assert (is_Some (sh_heap s !! p)) as [? ?] by (apply view_some; by eexists). congruence.
    + unfold sh_capacity in *. by rewrite Hcfg in Hen.
    + change (sh_usage s4) with (sh_usage s3) in Hle. lia.
Qed.

(** ** Erasing *)

Lemma shard_rep_stats s st B L H held : shard_rep s B L H held -> shard_rep (with_stats st s) B L H held.
Proof. intros [Hp Hf Hc Hu Hl]. split; [by eapply (page_part_ext s)|by eapply (file_part_ext s)|done..]. Qed.

(** The handle that [erase] takes out of the list, if any. *)
Definition erased s (k : Z) : Z := default (sh_lru_high_pri s) (sh_pages s !! k).

Lemma erase_rep s B L H held k :
  shard_rep s B L H held ->
  exists s', shard_erase k s = (Ok tt, s') /\ shard_rep s' (rem (erased s k) B) (rem (erased s k) L) (rem (erased s k) H) held /\
    sh_config s' = sh_config s /\ (forall k', cached s' k' = if decide (k' = k) then None else cached s k') /\ keeps held s s' /\
    (forall p, p <> erased s k -> file_of (v_core (sview s')) p = file_of (v_core (sview s)) p) /\
    sh_pages s' = delete k (sh_pages s) /\ sh_usage s' <= sh_usage s.
Proof.
  intros Hrep. unfold shard_erase, erased. destruct (sh_pages s !! k) as [x|] eqn:Ek; cbn [default]; cycle 1.
  { assert (Hr : forall l, (forall p, p ∈ l -> p ∈ B ++ L ++ H) -> rem (sh_lru_high_pri s) l = l).
    { intros l Hl. apply rem_notin. intros Hin%Hl. apply (co_all _ _ _ _ _ _ (sr_core _ _ _ _ _ Hrep)) in Hin as [? _]. done. }
    change (default (sh_lru_high_pri s) None) with (sh_lru_high_pri s). rewrite !Hr by (intros p; rewrite !elem_of_app; tauto). 
    assert (E : table_remove k s = (Ok None, s)).
    { unfold table_remove. rewrite st_gets, st_modify, Ek. unfold mret, st_ret. f_equal. rewrite delete_id by done. by destruct s. }
    st_step E. eexists. split; [reflexivity|].
    split; [by apply shard_rep_stats|]. split_and!; try done; [|by rewrite delete_id].
    intros k'. case_decide; [|done]. subst. unfold cached. cbn. by rewrite Ek. }
  change (default (sh_lru_high_pri s) (Some x)) with x.
  destruct (co_pages _ _ _ _ _ _ (sr_core _ _ _ _ _ Hrep) _ _ Ek) as (Hxd & c & Hc & Hkey & Hdet & Hin). subst k.
  assert (Hfin : forall s', sh_pages s' = delete (hc_key c) (sh_pages s) -> (forall p, p <> x -> v_core (sview s') !! p = v_core (sview s) !! p) ->
    (forall k', cached s' k' = if decide (k' = hc_key c) then None else cached s k') /\
    (forall p, p <> x -> file_of (v_core (sview s')) p = file_of (v_core (sview s)) p)).
  { intros s' Hp' Hv. split; [|intros p Hp; unfold file_of; by rewrite Hv]. intros k'. unfold cached. rewrite Hp'. case_decide as E; [subst; by rewrite lookup_delete_eq|].
    rewrite lookup_delete_ne by done. destruct (sh_pages s !! k') as [p|] eqn:Ep; [cbn|done]. rewrite Hv; [done|]. intros ->.
    destruct (co_pages _ _ _ _ _ _ (sr_core _ _ _ _ _ Hrep) _ _ Ep) as (_ & c' & ? & ? & _). congruence. }
  destruct (rep_lookup _ _ _ _ _ _ _ Hrep Hc Hxd) as (h & Eh & Ech & Hh). unfold handle_ok in Hh. rewrite Hdet in Hh. destruct Hh as (Hmul & Hall & Hmap & Himp).
  destruct (decide (x ∈ B ++ L ++ H)) as [Hx|Hx].
  - destruct (evict_handle s B L H held x c Hrep Hx Hc) as (s0 & s1 & b & s2 & s3 & E0 & (h0 & Eh0 & Hr0) & E1 & E2 & E3 & Hrep3 & K1 & K2 & V & Eu3).
    exists (with_stats (inc_active_evict (sh_stats s3)) s3). split.
    { st_step E0. unfold try_remove_cache_handle.
      assert (E : (h ← deref x; if has_refs h then mret tt else _ ← unlink_lru x; _ ← unlink_file x; clear_handle x) s0 = (Ok tt, s3)).
      { st_step (deref_ok _ _ _ Eh0). rewrite Hr0. st_step E1. st_step E2. exact E3. }
      st_step E. done. }
    destruct (Hfin s3 K2) as [F1 F2]; [intros p Hp; by rewrite V, lookup_delete_ne|].
    split; [by apply shard_rep_stats|]. split_and!; try done; [by eapply (delete_keeps s B L H held s3 x)|].
    pose proof (co_charges _ _ _ _ _ _ (sr_core _ _ _ _ _ Hrep) x c Hc). cbn [sh_usage with_stats]. lia.
  - destruct Hrep as [Hp Hf Hco Hu Hl]. destruct (table_remove_ok s _ x c B L H Ek Hc Hp Hf) as (s0 & E0 & Hp0 & Hf0 & V0 & G1 & G2 & G3 & G4 & G5).
    assert (Hrefs : hc_refs c <> 0) by tauto.
    assert (Hc0 : v_core (sview s0) !! x = Some (hc_set_in false c)) by (by rewrite V0, lookup_insert_eq). destruct (view_lookup _ _ _ Hc0) as (h0 & Eh0 & Ec0 & _).
    exists (with_stats (inc_active_evict (sh_stats s0)) s0). split.
    { st_step E0. unfold try_remove_cache_handle.
      assert (E : (h ← deref x; if has_refs h then mret tt else _ ← unlink_lru x; _ ← unlink_file x; clear_handle x) s0 = (Ok tt, s0)).
      { st_step (deref_ok _ _ _ Eh0). unfold has_refs. replace (lh_refs h0) with (hc_refs c) by (by apply (f_equal hc_refs) in Ec0). rewrite (proj2 (Z.ltb_lt _ _)) by lia. done. }
      st_step E. done. }
    destruct (Hfin s0 G1) as [F1 F2]; [intros p Hp'; by rewrite V0, lookup_insert_ne|]. rewrite !elem_of_app in Hx. rewrite !rem_notin by tauto.
    split; [|split_and!; try done; [intros p Hp'; by eapply (entry_write s s0 x c (hc_set_in false c))|cbn [sh_usage with_stats]; lia]].
    apply shard_rep_stats. eapply (shard_rep_config s); try done.
    + rewrite V0, G1, G4. apply (core_unmap _ _ _ _ _ _ Hco x c); try done.
      * intros k q Hq. rewrite lookup_delete_Some. split; [tauto|]. intros Hk. split; [|done]. intros <-. congruence.
      * intros k [Hne Hk]%lookup_delete_Some. destruct (co_pages _ _ _ _ _ _ Hco _ _ Hk) as (_ & c' & ? & ? & _). congruence.
    + rewrite G5, Hu, V0. by rewrite charges_unmark.
Qed.

(** The loop around a ring erases exactly the handles of the file that are in the list. *)
Lemma erase_ring_ok f fuel s B L H held ptr :
  shard_rep s B L H held -> ptr ∈ B ++ L ++ H -> file_of (v_core (sview s)) ptr = Some f ->
  (length (base.filter (λ p, file_of (v_core (sview s)) p = Some f) (B ++ L ++ H)) <= fuel)%nat ->
  exists s' B' L' H', erase_ring fuel ptr s = (Ok tt, s') /\ shard_rep s' B' L' H' held /\ sh_config s' = sh_config s /\
    (forall k, cached s' k = cached s k \/ cached s' k = None /\ key_file_id k = f) /\ keeps held s s' /\
    (forall p, p ∈ B' ++ L' ++ H' -> file_of (v_core (sview s')) p <> Some f) /\ (bounded s (B ++ L ++ H) -> bounded s' (B' ++ L' ++ H')).
Proof.
  revert s B L H ptr. induction fuel as [|fuel IH]; intros s B L H ptr Hrep Hptr Hfile Hlen.
  { exfalso. assert (Hin : ptr ∈ base.filter (λ p, file_of (v_core (sview s)) p = Some f) (B ++ L ++ H)) by (by apply list_elem_of_filter).
    destruct (base.filter _ _); [by apply not_elem_of_nil in Hin|]. cbn in Hlen. lia. }
  destruct (co_all _ _ _ _ _ _ (sr_core _ _ _ _ _ Hrep) ptr Hptr) as (Hd & c & Hc). destruct (view_lookup _ _ _ Hc) as (h & Eh & Ech & _ & _ & _ & Efn & _).
  destruct (core_list _ _ _ _ _ _ (sr_core _ _ _ _ _ Hrep) ptr c Hc Hd Hptr) as (_ & _ & _ & Hpg).
  destruct (fp_ring _ _ (sr_file _ _ _ _ _ Hrep) f) as (l & Hn & Hr & _ & Hm). destruct (list_elem_of_split l ptr) as (l1 & l2 & ->); [by apply Hm|].
  pose proof (ring_next _ _ _ _ _ Hr) as En. unfold sview in En. rewrite Efn in En. injection En as En.
  assert (Hnl : NoDup (l2 ++ l1) /\ (ptr ∉ l2 ++ l1)) by (rewrite <- Permutation_middle, (Permutation_app_comm l1 l2) in Hn; by apply NoDup_cons in Hn as [? ?]).
  cbn [erase_ring]. st_step (deref_ok _ _ _ Eh). rewrite En. replace (lh_key h) with (hc_key c) by (by rewrite <- Ech).
  destruct (erase_rep s B L H held (hc_key c) Hrep) as (s1 & E1 & Hrep1 & K1 & K2 & K3 & K4 & K5 & K6). st_step E1.
  assert (Her : erased s (hc_key c) = ptr) by (unfold erased; by rewrite Hpg). rewrite Her in *.
  assert (Hkf : key_file_id (hc_key c) = f) by (unfold file_of in Hfile; rewrite Hc in Hfile; by injection Hfile).
  assert (Hc1 : forall k, cached s1 k = cached s k \/ cached s1 k = None /\ key_file_id k = f) by (intros k; rewrite K2; case_decide; [subst; by right|by left]).
  destruct (first_of ptr (l2 ++ l1) =? ptr) eqn:Enext.
  - apply Z.eqb_eq in Enext. exists s1, (rem ptr B), (rem ptr L), (rem ptr H). split_and!; try done; [|by rewrite <- !rem_app; apply bounded_rem].
    assert (Hnil : l2 ++ l1 = []) by (destruct (l2 ++ l1) as [|y ys]; [done|]; exfalso; change (first_of ptr (y :: ys)) with y in Enext; subst; apply Hnl; by left).
    intros p Hp Hf. rewrite <- !rem_app in Hp. apply elem_rem in Hp as [Hp Hne]. rewrite K4 in Hf by done. apply app_eq_nil in Hnil as [-> ->].
    assert (Hin : p ∈ [] ++ ptr :: []) by (by apply Hm). by apply list_elem_of_singleton in Hin.
  - apply Z.eqb_neq in Enext. set (next := first_of ptr (l2 ++ l1)) in *.
    assert (Hin : next ∈ l1 ++ ptr :: l2) by (destruct (first_of_in ptr (l2 ++ l1)) as [?|Hin]; [done|]; revert Hin; rewrite !elem_of_app, elem_of_cons; tauto).
    apply Hm in Hin as [Hin Hnf].
    destruct (IH s1 (rem ptr B) (rem ptr L) (rem ptr H) next Hrep1) as (s2 & B2 & L2 & H2 & E2 & Hrep2 & J1 & J2 & J3 & J4 & J5).
    + rewrite <- !rem_app. by apply elem_rem.
    + by rewrite K4.
    + rewrite <- !rem_app. enough (S (length (base.filter (λ p, file_of (v_core (sview s1)) p = Some f) (rem ptr (B ++ L ++ H)))) <=
        length (base.filter (λ p, file_of (v_core (sview s)) p = Some f) (B ++ L ++ H)))%nat by lia.
      pose proof (pp_nodup _ _ _ _ (sr_page _ _ _ _ _ Hrep)) as [_ Hnd]%NoDup_cons. destruct (list_elem_of_split _ _ Hptr) as (a1 & a2 & Ea). rewrite Ea in *.
      rewrite rem_split by done. rewrite !filter_app, (filter_cons_True _ ptr) by done. rewrite !length_app. cbn [length].
      assert (Hsame : forall l : list Z, (forall p, p ∈ l -> p <> ptr) -> base.filter (λ p, file_of (v_core (sview s1)) p = Some f) l = base.filter (λ p, file_of (v_core (sview s)) p = Some f) l).
      { clear -K4. induction l as [|p l IHl]; [done|]. intros Hl. rewrite !filter_cons, IHl by (intros; apply Hl; by right). rewrite K4 by (apply Hl; by left). done. }
      apply NoDup_app in Hnd as (_ & Hx1 & [Hx2 _]%NoDup_cons). rewrite !Hsame; [lia|..]; intros p Hp ->; [done|]. apply (Hx1 _ Hp). by left.
    + exists s2, B2, L2, H2. split_and!; try done; [congruence| | |intros Hb; apply J5; rewrite <- !rem_app; by eapply bounded_rem].
      * intros k. destruct (J2 k) as [->|[? ?]]; [apply Hc1|by right].
      * intros p Hp. rewrite J3 by done. by apply K3.
Qed.

(** A page of the file that is still in the table is one that a client has. *)
Lemma file_pages_held s B L H held f k hv :
  shard_rep s B L H held -> (forall p, p ∈ B ++ L ++ H -> file_of (v_core (sview s)) p <> Some f) ->
  key_file_id k = f -> cached s k = Some hv -> exists p, p ∈ held /\ sh_pages s !! k = Some p.
Proof.
  intros Hrep Hno Hk. unfold cached. destruct (sh_pages s !! k) as [p|] eqn:Ek; [|done]. intros _. exists p. split; [|done].
  destruct (co_pages _ _ _ _ _ _ (sr_core _ _ _ _ _ Hrep) _ _ Ek) as (Hd & c & Hc & Hkey & Hdet & _). destruct (rep_lookup _ _ _ _ _ _ _ Hrep Hc Hd) as (_ & _ & _ & Hh).
  unfold handle_ok in Hh. rewrite Hdet in Hh. destruct Hh as (Hm & Hin & _). rewrite elem_of_multiplicity. destruct (multiplicity p held) as [|n]; [|lia].
  exfalso. apply (Hno p); [by apply Hin|]. unfold file_of. rewrite Hc. cbn. by rewrite Hkey, Hk.
Qed.
Lemma shard_erase_file_pages_ok s held f :
  shard_ok s held ->
  exists s', shard_erase_file_pages f s = (Ok tt, s') /\ shard_ok s' held /\ sh_config s' = sh_config s /\
    (forall k, cached s' k = cached s k \/ cached s' k = None /\ key_file_id k = f) /\ keeps held s s' /\
    (forall k hv, key_file_id k = f -> cached s' k = Some hv -> exists p, p ∈ held /\ sh_pages s' !! k = Some p).
Proof.
  intros (B & L & H & Hrep & Hbd). unfold shard_erase_file_pages. rewrite !st_gets. destruct (fp_ring _ _ (sr_file _ _ _ _ _ Hrep) f) as (l & Hn & Hr & Hh & Hm). rewrite Hh.
  destruct l as [|ptr l]; cbn [head].
  - exists s. split_and!; try done; [by exists B, L, H|by left|]. intros k hv. eapply (file_pages_held s B L H); [done|]. intros p Hp Hf. by apply (not_elem_of_nil p), Hm.
  - assert (Hptr : ptr ∈ ptr :: l) by (by left). apply Hm in Hptr as [Hptr Hfile].
    destruct (erase_ring_ok f (size (sh_heap s)) s B L H held ptr Hrep Hptr Hfile) as (s' & B' & L' & H' & E & Hrep' & K1 & K2 & K3 & K4 & K5).
    { pose proof (page_part_length _ _ _ _ (sr_page _ _ _ _ _ Hrep)). pose proof (length_filter (λ p, file_of (v_core (sview s)) p = Some f) (B ++ L ++ H)). lia. }
    exists s'. split_and!; try done; [exists B', L', H'; auto|]. intros k hv. by apply (file_pages_held s' B' L' H').
Qed.
Lemma shard_erase_ok s held k :
  shard_ok s held ->
  exists s', shard_erase k s = (Ok tt, s') /\ shard_ok s' held /\ sh_config s' = sh_config s /\
    (forall k', cached s' k' = if decide (k' = k) then None else cached s k') /\ keeps held s s'.
Proof.
  intros (B & L & H & Hrep & Hbd). destruct (erase_rep s B L H held k Hrep) as (s' & E & Hrep' & K1 & K2 & K3 & _ & _ & K6).
  exists s'. split_and!; try done. exists (rem (erased s k) B), (rem (erased s k) L), (rem (erased s k) H). split; [done|]. rewrite <- !rem_app. by apply (bounded_rem s).
Qed.

(** ** Insertion *)

(** Putting a new handle into the table, and removing the one it replaces: the handles
    other than [p] are then as if the old one had been erased first. *)
Lemma replace_ok s B L H held p h :
  shard_rep s B L H held -> sh_heap s !! p = None -> lh_file_link h = mkHandleLink p p -> 0 <= lh_charge h ->
  exists s' C' B' L' H', (_ ← box_new p h; old ← table_insert p; match old with Some old => try_remove_cache_handle old | None => mret tt end) s = (Ok tt, s') /\
    page_part s' B' L' H' /\ file_part s' (B' ++ L' ++ H') /\ v_core (sview s') = <[p := hc_set_in true (core h)]> C' /\ C' !! p = None /\
    core_ok (sh_lru_high_pri s) C' (delete (lh_key h) (sh_pages s)) (B' ++ L' ++ H') held (sh_usage s') /\
    sh_pages s' = <[lh_key h := p]> (sh_pages s) /\ sh_config s' = sh_config s /\ sh_lru_usage s' = charges (v_core (sview s')) (B' ++ L' ++ H') /\
    (forall q, q ∈ held -> entry s' q = entry s q) /\ sh_usage s' <= sh_usage s /\ (forall k, k <> lh_key h -> cached s' k = cached s k) /\
    (forall q, q ∈ B' ++ L' ++ H' -> q ∈ B ++ L ++ H).
Proof.
  intros Hrep Hfresh Hlink Hch. destruct Hrep as [Hp Hf Hco Hu Hl].
  set (s1 := with_heap (<[p := h]> (sh_heap s)) s). destruct (alloc_heap s p h B L H Hfresh Hlink Hch Hp Hf) as (V1 & Hp1 & Hf1). fold s1 in V1, Hp1, Hf1.
  assert (Eh1 : sh_heap s1 !! p = Some h) by apply lookup_insert_eq.
  set (s2 := with_heap (<[p := set_in_cache true h]> (sh_heap s1)) s1).
  destruct (write_core s1 p h (set_in_cache true h) B L H Eh1) as (V2 & Hp2 & Hf2); try done; [apply in_priority_in_cache|]. fold s2 in V2, Hp2, Hf2.
  rewrite V1, insert_insert_eq, core_set_in_cache in V2. set (c1 := hc_set_in true (core h)) in *.
  assert (HpC : v_core (sview s) !! p = None) by (apply eq_None_not_Some; unfold sview; rewrite view_some; intros [? ?]; congruence).
  assert (Hpall : p ∉ B ++ L ++ H) by (intros [_ [? ?]]%(co_all _ _ _ _ _ _ Hco); congruence).
  assert (Hpold : forall k, sh_pages s !! k <> Some p) by (intros k (_ & ? & ? & _)%(co_pages _ _ _ _ _ _ Hco); congruence).
  set (s3 := with_pages (<[lh_key h := p]> (sh_pages s)) s2).
  assert (Hp3 : page_part s3 B L H) by (by eapply (page_part_ext s2)). assert (Hf3 : file_part s3 (B ++ L ++ H)) by (by eapply (file_part_ext s2)).
  assert (Hch3 : charges (v_core (sview s3)) (B ++ L ++ H) = charges (v_core (sview s)) (B ++ L ++ H)).
  { change (sview s3) with (sview s2). rewrite V2. apply charges_same. intros q Hq. rewrite lookup_insert_ne; [done|]. intros <-. done. }
  assert (Hrun : forall k : option Z -> St _ unit, (_ ← box_new p h; table_insert p ≫= k) s =
    match sh_pages s !! lh_key h with Some old => (_ ← assign old (set_in_cache false); k (Some old)) s3 | None => k None s3 end).
  { intros k. unfold box_new. rewrite st_modify. fold s1. unfold table_insert.
    assert (E : (_ ← assign p (set_in_cache true); hh ← deref p; old ← gets (λ s, sh_pages s !! lh_key hh); _ ← modify (λ s, with_pages (<[lh_key hh := p]> (sh_pages s)) s);
      match old with Some ptr => _ ← assign ptr (set_in_cache false); mret (Some ptr) | None => mret None end) s1 =
      match sh_pages s !! lh_key h with Some old => (_ ← assign old (set_in_cache false); mret (Some old)) s3 | None => (Ok None, s3) end).
    { st_step (assign_ok p _ h s1 Eh1). fold s2. rewrite (st_bind_ok _ _ s2 (set_in_cache true h) s2) by (apply deref_ok, lookup_insert_eq).
      rewrite st_gets, st_modify. change (lh_key (set_in_cache true h)) with (lh_key h). change (sh_pages s2) with (sh_pages s). fold s3. by destruct (sh_pages s !! lh_key h). }
    unfold mbind at 1, st_bind at 1. rewrite E. destruct (sh_pages s !! lh_key h); [|done]. unfold mbind, st_bind, mret, st_ret. by destruct (assign z _ s3) as [[] ?]. }
  rewrite Hrun. clear Hrun. destruct (sh_pages s !! lh_key h) as [old|] eqn:Eold; cycle 1.
  { (* nothing to replace *)
    exists s3, (v_core (sview s)), B, L, H. change (sview s3) with (sview s2) in *. split_and!; try done.
    - change (sh_usage s3) with (sh_usage s). by rewrite delete_id.
    - change (sh_lru_usage s3) with (sh_lru_usage s). by rewrite Hch3.
    - intros q Hq. unfold entry. change (sview s3) with (sview s2). rewrite V2, lookup_insert_ne; [done|]. intros <-. apply (co_held _ _ _ _ _ _ Hco) in Hq as [_ [? ?]]. congruence.
    - intros k Hk. unfold cached. change (sview s3) with (sview s2). change (sh_pages s3) with (<[lh_key h := p]> (sh_pages s)). rewrite V2, lookup_insert_ne by done.
      destruct (sh_pages s !! k) as [q|] eqn:Eq; [cbn|done]. rewrite lookup_insert_ne; [done|]. intros <-. by apply Hpold in Eq. }
  destruct (co_pages _ _ _ _ _ _ Hco _ _ Eold) as (Hod & co & Hcold & Hkey & Hdet & Hin). assert (Hop : old <> p) by congruence.
  assert (Hcold3 : v_core (sview s3) !! old = Some co) by (change (sview s3) with (sview s2); by rewrite V2, lookup_insert_ne).
  destruct (unmark_ok s3 old co B L H Hcold3 Hp3 Hf3) as (s4 & E4 & Hp4 & Hf4 & V4 & G1 & G2 & _ & G4 & G5).
  change (sview s3) with (sview s2) in V4. rewrite V2, insert_insert_ne in V4 by done.
  assert (Hcold4 : v_core (sview s4) !! old = Some (hc_set_in false co)) by (by rewrite V4, lookup_insert_ne, lookup_insert_eq by done).
  destruct (view_lookup _ _ _ Hcold4) as (h4 & Eh4 & Ec4 & _). assert (Hrefs4 : lh_refs h4 = hc_refs co) by (by apply (f_equal hc_refs) in Ec4).
  pose proof (co_handle _ _ _ _ _ _ Hco old co Hcold Hod) as Hh. unfold handle_ok in Hh. rewrite Hdet in Hh. destruct Hh as (Hmul & Hall & Hmap & Himp).
  assert (Hpg1 : forall k q, q <> old -> delete (lh_key h) (sh_pages s) !! k = Some q <-> sh_pages s !! k = Some q).
  { intros k q Hq. rewrite lookup_delete_Some. split; [tauto|]. intros Hk. split; [|done]. intros <-. congruence. }
  assert (Hpg2 : forall k, delete (lh_key h) (sh_pages s) !! k <> Some old).
  { intros k [Hne Hk]%lookup_delete_Some. destruct (co_pages _ _ _ _ _ _ Hco _ _ Hk) as (_ & c' & ? & ? & _). congruence. }
  assert (Hcached : forall s', sh_pages s' = <[lh_key h := p]> (sh_pages s) -> (forall q, q <> p -> q <> old -> v_core (sview s') !! q = v_core (sview s) !! q) ->
    forall k, k <> lh_key h -> cached s' k = cached s k).
  { intros s' Ep Hv k Hk. unfold cached. rewrite Ep, lookup_insert_ne by done. destruct (sh_pages s !! k) as [q|] eqn:Eq; [cbn|done]. rewrite Hv; [done|..]; intros ->.
    - by apply Hpold in Eq.
    - apply (Hpg2 k). by apply lookup_delete_Some. }
  assert (Hchold : forall l, p ∉ l -> charges (v_core (sview s4)) l = charges (v_core (sview s)) l).
  { intros l Hpl. rewrite V4, <- (charges_unmark (v_core (sview s)) old co) by done. apply charges_same. intros q Hq. rewrite lookup_insert_ne; [done|]. intros <-. done. }
  st_step E4. unfold try_remove_cache_handle. st_step (deref_ok _ _ _ Eh4). unfold has_refs. rewrite Hrefs4. destruct (0 <? hc_refs co) eqn:Er.
  - apply Z.ltb_lt in Er. assert (Hold : old ∉ B ++ L ++ H) by (rewrite Hall; lia).
    exists s4, (<[old := hc_set_in false co]> (v_core (sview s))), B, L, H. split_and!; try done.
    + by rewrite lookup_insert_ne.
    + rewrite G4. change (sh_usage s3) with (sh_usage s). apply (core_unmap _ _ _ _ _ _ Hco old co); try done. lia.
    + rewrite G5. change (sh_lru_usage s3) with (sh_lru_usage s). by rewrite Hu, Hchold.
    + intros q Hq. unfold entry. apply (co_held _ _ _ _ _ _ Hco) in Hq as [_ [cq Hq]]. rewrite V4, lookup_insert_ne by congruence.
      destruct (decide (q = old)) as [->|?]; [|by rewrite lookup_insert_ne]. by rewrite lookup_insert_eq, Hcold.
    + rewrite G4. done.
    + apply (Hcached s4 G1). intros q Hq1 Hq2. by rewrite V4, !lookup_insert_ne.
  - apply Z.ltb_ge in Er. assert (Hrefs : hc_refs co = 0) by lia. assert (Hold : old ∈ B ++ L ++ H) by (by apply Hall).
    destruct (discard_ok s4 B L H old (hc_set_in false co) Hp4 Hf4) as (s5 & b & s6 & s7 & E5 & E6 & E7 & Hp7 & Hf7 & V7 & K1 & K2 & _ & K4 & K5); [|done|exact Hcold4|].
    { rewrite G5. change (sh_lru_usage s3) with (sh_lru_usage s). by rewrite Hu, Hchold. }
    assert (V : v_core (sview s7) = <[p := c1]> (delete old (v_core (sview s)))) by (by rewrite V7, V4, delete_insert_ne, delete_insert_eq by done).
    pose proof (co_charges _ _ _ _ _ _ Hco old co Hcold) as Hcold0.
    assert (Eu : sh_usage s7 = sh_usage s - hc_charge co).
    { rewrite K4, G4. change (sh_usage s3) with (sh_usage s). by apply (core_usage_wrap _ _ _ _ _ _ Hco old co). }
    exists s7, (delete old (v_core (sview s))), (rem old B), (rem old L), (rem old H). rewrite <- !rem_app. split_and!; try done.
    + st_step E5. st_step E6. exact E7.
    + by rewrite lookup_delete_ne.
    + rewrite Eu. by apply (core_discard _ _ _ _ _ _ Hco old co).
    + by rewrite K1, G1.
    + by rewrite K2, G2.
    + intros q Hq. unfold entry. pose proof Hq as Hm. rewrite elem_of_multiplicity in Hm. apply (co_held _ _ _ _ _ _ Hco) in Hq as [_ [cq Hq]]. rewrite V, lookup_insert_ne by congruence.
      rewrite lookup_delete_ne; [done|]. intros <-. lia.
    + lia.
    + apply (Hcached s7); [by rewrite K1, G1|]. intros q Hq1 Hq2. by rewrite V, lookup_insert_ne, lookup_delete_ne.
    + by intros q [? _]%elem_rem.
Qed.

Lemma evict_lru_ok s B L H held charge opt :
  shard_rep s B L H held -> 0 <= charge -> sh_usage s + charge < 2 ^ 64 ->
  if refill_cold_when_not_full opt && (sh_capacity s <? sh_usage s + charge) then evict_lru charge opt s = (Ok false, s)
  else exists s' B' L' H' old, evict_lru charge opt s = (Ok true, s') /\ shard_rep s' B' L' H' held /\ B ++ L ++ H = old ++ B' ++ L' ++ H' /\
    sh_config s' = sh_config s /\ forgets s s' /\ keeps held s s' /\ (forall p, sh_heap s !! p = None -> sh_heap s' !! p = None) /\
    (sh_usage s' + charge <= sh_capacity s \/ B' ++ L' ++ H' = []) /\ sh_usage s' <= sh_usage s.
Proof.
  intros Hrep Hc Hb. unfold evict_lru.
  assert (Hu0 : 0 <= sh_usage s) by (rewrite (co_usage _ _ _ _ _ _ (sr_core _ _ _ _ _ Hrep)); apply total_nonneg, (co_charges _ _ _ _ _ _ (sr_core _ _ _ _ _ Hrep))).
  rewrite st_get, wrap_small by (unfold fits; lia). destruct (_ && _); [done|].
  destruct (evict_loop_ok (S (size (sh_heap s))) charge s B L H held Hrep) as (s' & B' & L' & H' & old & E & G); [|done|done|].
  { pose proof (page_part_length _ _ _ _ (sr_page _ _ _ _ _ Hrep)). lia. }
  exists s', B', L', H', old. st_step E. done.
Qed.

(** A new handle that is alive as soon as it is made. *)
Definition new_core (key hash : Z) (value : option T) (charge refs : Z) (in_cache detached : bool) (pri : CachePriority) : HandleCore T :=
  mkHandleCore key hash value charge refs in_cache detached pri.

Lemma shard_insert_ok s B L H held p key hash value charge opt :
  shard_rep s B L H held -> sh_heap s !! p = None -> 0 <= charge -> sh_usage s + charge < 2 ^ 64 ->
  exists s' B' L' H', shard_insert p key hash value charge opt s = (Ok p, s') /\ shard_rep s' B' L' H' (held ⊎ {[+ p +]}) /\ sh_config s' = sh_config s /\
    keeps held s s' /\ entry s' p = Some (key, hash, value) /\
    (if refill_cold_when_not_full opt && (sh_capacity s <? sh_usage s + charge) then (forall k, cached s' k = cached s k) /\ (bounded s (B ++ L ++ H) -> bounded s' (B' ++ L' ++ H'))
     else cached s' key = Some (hash, value) /\ (forall k v, k <> key -> cached s' k = Some v -> cached s k = Some v) /\
       bounded s' (B' ++ L' ++ H')).
Proof.
  intros Hrep Hfresh Hch Hb. pose proof (evict_lru_ok s B L H held charge opt Hrep Hch Hb) as Hev. unfold shard_insert.
  assert (Hpd : forall s1 B1 L1 H1, shard_rep s1 B1 L1 H1 held -> sh_heap s1 !! p = None -> p <> sh_lru_high_pri s1).
  { intros s1 B1 L1 H1 [_ _ Hco _ _] Hf ->. destruct (co_dummy _ _ _ _ _ _ Hco) as [c Hc]. destruct (view_lookup _ _ _ Hc) as (? & ? & _). congruence. }
  destruct (refill_cold_when_not_full opt && _) eqn:Eroom.
  - st_step Hev. cbn [negb]. set (h := set_file_link _ _). unfold box_new. rewrite st_modify. pose proof Hrep as [Hp Hf Hco Hu Hl].
    destruct (alloc_heap s p h B L H Hfresh eq_refl Hch Hp Hf) as (V & Hp' & Hf'). set (s' := with_heap (<[p := h]> (sh_heap s)) s) in *.
    assert (Ec : core h = new_core key hash value charge 0 false true PriHigh) by reflexivity. rewrite Ec in V.
    assert (HpC : v_core (sview s) !! p = None) by (apply eq_None_not_Some; unfold sview; rewrite view_some; intros [? ?]; congruence).
    exists s', B, L, H. split; [done|]. split; [|split_and!; try done].
    + eapply (shard_rep_config s); try done; rewrite V.
      * pose proof (core_new (sh_lru_high_pri s) _ _ _ _ _ p (new_core key hash value charge 0 false true PriHigh) Hco HpC Hch) as X.
        unfold cost in X. cbn [hc_detached new_core] in X. rewrite orb_true_r in X. specialize (X (conj eq_refl eq_refl)). rewrite Z.add_0_r in X.
        apply X. rewrite (co_usage _ _ _ _ _ _ Hco). apply Hco.
      * change (sh_lru_usage s') with (sh_lru_usage s). rewrite Hu. symmetry. apply charges_same. intros q Hq. rewrite lookup_insert_ne; [done|]. intros <-.
        destruct (co_all _ _ _ _ _ _ Hco p Hq) as [_ [? ?]]. congruence.
    + intros q Hq. unfold entry. rewrite V, lookup_insert_ne; [done|]. intros <-. destruct (co_held _ _ _ _ _ _ Hco p Hq) as [_ [? ?]]. congruence.
    + unfold entry. by rewrite V, lookup_insert_eq.
    + intros k. unfold cached. change (sh_pages s') with (sh_pages s). rewrite V. destruct (sh_pages s !! k) as [q|] eqn:Eq; [cbn|done]. rewrite lookup_insert_ne; [done|].
      intros <-. destruct (co_pages _ _ _ _ _ _ Hco _ _ Eq) as (_ & ? & ? & _). congruence.
  - destruct Hev as (s1 & B1 & L1 & H1 & old & E1 & Hrep1 & _ & K1 & K2 & K3 & K4 & K5 & K6). st_step E1. cbn [negb]. set (h := set_file_link _ _).
    destruct (replace_ok s1 B1 L1 H1 held p h Hrep1 (K4 p Hfresh) eq_refl Hch) as (s2 & C' & B2 & L2 & H2 & E2 & Hp2 & Hf2 & V2 & HpC & Hco2 & G1 & G2 & G3 & G4 & G5 & G6 & G7).
    assert (Hrest : forall A (k : unit -> St _ A), (_ ← box_new p h; old ← table_insert p;
      match old with Some old => try_remove_cache_handle old | None => mret tt end ≫= k) s1 = k tt s2).
    { intros A k. rewrite <- (st_bind_ok _ k _ _ _ E2), st_assoc. apply st_bind_ext. intros _ sx. by rewrite st_assoc. }
    rewrite Hrest, !st_modify. clear Hrest. set (s3 := with_usage _ _).
    assert (Hlow1 : low_off s1) by apply Hrep1. assert (Hd2 : p <> sh_lru_high_pri s1) by (by apply (Hpd s1 B1 L1 H1 Hrep1), K4).
    set (c0 := new_core key hash value charge 0 true false (option_priority opt)).
    assert (Ec : hc_set_in true (core h) = c0).
    { unfold c0, new_core, hc_set_in, core, h. cbn [lh_key lh_hash lh_value lh_charge lh_refs set_file_link handle_set_priority set_flags hc_key hc_hash hc_value hc_charge hc_refs hc_detached hc_priority].
      f_equal; destruct (option_priority opt); by flag_simpl. }
    rewrite Ec in V2. assert (Hc3 : v_core (sview s3) !! p = Some c0) by (change (sview s3) with (sview s2); by rewrite V2, lookup_insert_eq).
    destruct (view_lookup _ _ _ Hc3) as (x3 & Ex3 & Ecx & _). st_step (assign_ok p add_ref x3 s3 Ex3). assert (Hr3 : lh_refs x3 = 0) by (by apply (f_equal hc_refs) in Ecx).
    destruct (write_core s3 p x3 (add_ref x3) B2 L2 H2 Ex3) as (V3 & Hp3 & Hf3); try done; [by eapply (page_part_ext s2)|by eapply (file_part_ext s2)|].
    set (s4 := with_heap _ s3) in *. change (sview s3) with (sview s2) in V3. rewrite core_add_ref, Ecx, Hr3, V2, insert_insert_eq in V3 by lia.
    assert (Hcost : cost (sh_lru_high_pri s1) p (hc_set_refs (0 + 1) c0) = charge) by (unfold cost; by rewrite bool_decide_false).
    assert (Hu2 : 0 <= sh_usage s2) by (rewrite (co_usage _ _ _ _ _ _ Hco2); apply total_nonneg, Hco2).
    assert (Eu : sh_usage s4 = sh_usage s2 + charge).
    { change (sh_usage s4) with (wrap64 (sh_usage s2 + charge)). apply wrap_small. unfold fits. lia. }
    assert (Hkey : lh_key h = key) by done. rewrite Hkey in *.
    exists s4, B2, L2, H2. split; [done|]. split; [|split; [|split; [|split; [|split; [|split]]]]].
    + eapply (shard_rep_config s1); try done; rewrite V3.
      * change (sh_pages s4) with (sh_pages s2). rewrite G1, Eu.
        pose proof (core_new (sh_lru_high_pri s1) _ _ _ _ _ p (hc_set_refs (0 + 1) c0) Hco2 HpC Hch) as X. rewrite Hcost in X. cbn [hc_detached hc_set_refs c0 new_core hc_key] in X.
        rewrite insert_delete_eq in X. apply X; [|lia]. split_and!; [done|done|]. apply lookup_delete_eq.
      * change (sh_lru_usage s4) with (sh_lru_usage s2). rewrite G3, V2. symmetry. apply charges_same. intros q Hq. destruct (co_all _ _ _ _ _ _ Hco2 q Hq) as [_ [? ?]].
        rewrite !lookup_insert_ne; [done|..]; intros <-; congruence.
    + change (sh_config s4) with (sh_config s2). congruence.
    + intros q Hq. rewrite <- K3, <- G4 by done. unfold entry. rewrite V3, V2. destruct (co_held _ _ _ _ _ _ Hco2 q Hq) as [_ [? ?]]. rewrite !lookup_insert_ne; [done|..]; intros <-; congruence.
    + unfold entry. by rewrite V3, lookup_insert_eq.
    + unfold cached. change (sh_pages s4) with (sh_pages s2). rewrite G1, lookup_insert_eq, V3. cbn [mbind option_bind]. by rewrite lookup_insert_eq.
    + intros k v Hk Hv. apply K2. rewrite <- G6 by done. revert Hv. unfold cached. change (sh_pages s4) with (sh_pages s2). rewrite V3, V2. destruct (sh_pages s2 !! k) as [q|] eqn:Eq; [cbn|done].
      rewrite G1, lookup_insert_ne in Eq by done.
      assert (q <> p) by (intros ->; destruct (co_pages _ _ _ _ _ _ (sr_core _ _ _ _ _ Hrep1) _ _ Eq) as (_ & ? & Hx & _); destruct (view_lookup _ _ _ Hx) as (? & Hy & _); rewrite (K4 p Hfresh) in Hy; done).
      by rewrite !lookup_insert_ne.
    + unfold bounded. rewrite Eu. destruct K5 as [K5|K5]; [left; unfold sh_capacity in *; change (sh_config s4) with (sh_config s2); rewrite G2, K1; lia|right]. rewrite K5 in G7. destruct (B2 ++ L2 ++ H2) as [|q l]; [done|].
      exfalso. eapply not_elem_of_nil, G7. by left.
Qed.
End lru_laws.
