(* ===== verification/LruSafe.v ===== *)
(** * Clients of the LRU cache ([page_store/cache/lru.rs])

    Returning an entry, the empty cache, and sequences of the operations of clients that
    return what they got, once each: the cache never follows a dangling pointer, a lookup
    finds the value that was inserted last or nothing, an entry keeps its value until it
    is returned, and the usage counts exactly what is alive. *)

From stdpp Require Import gmultiset.
From stdpp Require Import base numbers list gmap.
From Stdlib Require Import ZArith Lia.
From S2P Require Import Prelude Float64 CacheHandle LruCache Ring LruHeap LruList LruFiles LruCore LruLaws.

Section release.
Context {T : Type}.
Implicit Types (s : LRUCacheShard T) (held : gmultiset Z).

(** ** Returning an entry *)

(** An entry that a client has is not in the list. *)
Lemma held_rep s B L H held p :
  shard_rep s B L H held -> p ∈ held ->
  exists h c, sh_heap s !! p = Some h /\ core h = c /\ v_core (sview s) !! p = Some c /\ p <> sh_lru_high_pri s /\ (p ∉ B ++ L ++ H) /\
    handle_ok (sh_pages s) (B ++ L ++ H) held p c.
Proof.
  intros Hrep Hp. destruct (co_held _ _ _ _ _ _ (sr_core _ _ _ _ _ Hrep) p Hp) as (Hd & c & Hc). destruct (rep_lookup _ _ _ _ _ _ _ Hrep Hc Hd) as (h & Eh & Ech & Hh).
  exists h, c. split_and!; try done. rewrite elem_of_multiplicity in Hp. unfold handle_ok in Hh. destruct (hc_detached c); [tauto|]. destruct Hh as (Hm & Hin & _). rewrite Hin. lia.
Qed.

(** The handle goes with the last entry. *)
Lemma drop_rep s s' B L H held p c :
  shard_rep s B L H held -> p ∈ held -> v_core (sview s) !! p = Some c -> p <> sh_lru_high_pri s -> hc_refs c <= 1 ->
  page_part s' B L H -> file_part s' (B ++ L ++ H) -> v_core (sview s') = delete p (v_core (sview s)) ->
  (sh_pages s' = delete (hc_key c) (sh_pages s) /\ sh_pages s !! hc_key c = Some p \/ sh_pages s' = sh_pages s /\ forall k, sh_pages s !! k <> Some p) ->
  sh_config s' = sh_config s -> sh_usage s' = sh_usage s - cost_at (sh_lru_high_pri s) (v_core (sview s)) p -> sh_lru_usage s' = sh_lru_usage s ->
  shard_rep s' B L H (held ∖ {[+ p +]}) /\ forgets s s' /\ keeps (held ∖ {[+ p +]}) s s'.
Proof.
  intros Hrep Hp Hc Hd Hr Hpp Hf V Hpg Hcfg Hu Hlu. pose proof Hrep as [_ _ Hco Hlu0 Hlow].
  destruct (held_rep _ _ _ _ _ _ Hrep Hp) as (h & c' & _ & _ & Hc' & _ & Hall & Hh). assert (c' = c) as -> by congruence.
  assert (Hpg1 : forall k q, q <> p -> sh_pages s' !! k = Some q <-> sh_pages s !! k = Some q).
  { intros k q Hq. destruct Hpg as [[-> Hk]|[-> _]]; [|done]. rewrite lookup_delete_Some. split; [tauto|]. intros E. split; [|done]. intros <-. congruence. }
  assert (Hpg2 : forall k, sh_pages s' !! k <> Some p).
  { intros k. destruct Hpg as [[-> Hk]|[-> Hn]]; [|apply Hn]. intros [Hne E]%lookup_delete_Some.
    destruct (co_pages _ _ _ _ _ _ Hco _ _ E) as (_ & c' & ? & ? & _). congruence. }
  split; [|split].
  - eapply (shard_rep_config s); try done; rewrite V.
    + rewrite Hu. by eapply core_drop.
    + rewrite Hlu, Hlu0. symmetry. apply charges_same. intros q Hq. rewrite lookup_delete_ne; [done|]. intros <-. done.
  - intros k v. unfold cached. rewrite V. destruct (sh_pages s' !! k) as [q|] eqn:E; [|done]. assert (q <> p) by (intros ->; by apply Hpg2 in E).
    rewrite (proj1 (Hpg1 k q ltac:(done)) E). cbn. by rewrite lookup_delete_ne.
  - intros q Hq. unfold entry. rewrite V, lookup_delete_ne; [done|]. intros <-. rewrite elem_of_multiplicity, multiplicity_difference, multiplicity_singleton_eq in Hq.
    unfold handle_ok in Hh. destruct (hc_detached c); [|destruct Hh as (Hm & _)]; lia.
Qed.

Lemma core_set_refs n (x : LRUHandle T) : core (set_refs n x) = hc_set_refs n (core x).
Proof. done. Qed.

(** Where [release] puts a handle. *)
Definition goes_back s (h : LRUHandle T) (token : Z) : bool :=
  negb (is_detached h) && (lh_refs h =? 1) && is_in_cache h && (sh_usage s <=? sh_capacity s) && negb (returning_behavior_match token CACHE_DISCARD).

Lemma shard_release_ok s B L H held p token :
  shard_rep s B L H held -> p ∈ held ->
  exists s' B' L' H', shard_release p token s = (Ok tt, s') /\ shard_rep s' B' L' H' (held ∖ {[+ p +]}) /\ sh_config s' = sh_config s /\
    forgets s s' /\ keeps (held ∖ {[+ p +]}) s s' /\ sh_usage s' <= sh_usage s /\
    (forall h, sh_heap s !! p = Some h ->
      if goes_back s h token then exists X Y, lru_place s (handle_priority h) (returning_behavior_match token CACHE_AS_RECENT) B L H = (X, Y) /\
          B ++ L ++ H = X ++ Y /\ B' ++ L' ++ H' = X ++ p :: Y
      else B' ++ L' ++ H' = B ++ L ++ H).
Proof.
  intros Hrep Hp. destruct (held_rep _ _ _ _ _ _ Hrep Hp) as (h & c & Eh & Ech & Hc & Hd & Hall & Hh).
  pose proof Hrep as [Hpp Hf Hco Hlu Hlow]. unfold shard_release. st_step (deref_ok _ _ _ Eh).
  assert (Hdet : is_detached h = hc_detached c) by (by rewrite <- Ech). assert (Hrefs : lh_refs h = hc_refs c) by (by rewrite <- Ech).
  assert (Hin : is_in_cache h = hc_in_cache c) by (by rewrite <- Ech). assert (Hkey : lh_key h = hc_key c) by (by rewrite <- Ech).
  assert (Hchg : lh_charge h = hc_charge c) by (by rewrite <- Ech).
  assert (Hcost : cost_at (sh_lru_high_pri s) (v_core (sview s)) p = if hc_detached c then 0 else hc_charge c).
  { unfold cost_at, cost. by rewrite Hc, bool_decide_false. }
  assert (Hmul : (1 <= multiplicity p held)%nat) by (rewrite elem_of_multiplicity in Hp; lia).
  assert (Hdrop : forall s', hc_refs c <= 1 -> page_part s' B L H -> file_part s' (B ++ L ++ H) -> v_core (sview s') = delete p (v_core (sview s)) ->
    (sh_pages s' = delete (hc_key c) (sh_pages s) /\ sh_pages s !! hc_key c = Some p \/ sh_pages s' = sh_pages s /\ forall k, sh_pages s !! k <> Some p) ->
    sh_config s' = sh_config s -> sh_usage s' = sh_usage s - cost_at (sh_lru_high_pri s) (v_core (sview s)) p -> sh_lru_usage s' = sh_lru_usage s ->
    goes_back s h token = false -> forall m, m = (Ok tt, s') ->
    exists s' B' L' H', m = (Ok tt, s') /\ shard_rep s' B' L' H' (held ∖ {[+ p +]}) /\ sh_config s' = sh_config s /\
    forgets s s' /\ keeps (held ∖ {[+ p +]}) s s' /\ sh_usage s' <= sh_usage s /\
    (forall h, sh_heap s !! p = Some h ->
      if goes_back s h token then exists X Y, lru_place s (handle_priority h) (returning_behavior_match token CACHE_AS_RECENT) B L H = (X, Y) /\
          B ++ L ++ H = X ++ Y /\ B' ++ L' ++ H' = X ++ p :: Y
      else B' ++ L' ++ H' = B ++ L ++ H)).
  { intros s' F1 F2 F3 F4 F5 F6 F7 F8 Hg m ->. destruct (drop_rep s s' B L H held p c) as (R1 & R2 & R3); try done.
    exists s', B, L, H. split_and!; try done.
    { rewrite F7. pose proof (cost_nonneg (sh_lru_high_pri s) _ p (co_charges _ _ _ _ _ _ Hco)). lia. }
    intros h' Eh'. assert (h' = h) as -> by congruence. by rewrite Hg. }
  assert (Hnp : hc_in_cache c = false -> forall k, sh_pages s !! k <> Some p).
  { intros Hci k (_ & c' & Hc' & _ & _ & Hi)%(co_pages _ _ _ _ _ _ Hco). congruence. }
  unfold handle_ok in Hh. rewrite Hdet. destruct (hc_detached c) eqn:Edet.
  - (* detached *)
    destruct (drop_heap s p B L H) as (V & Hp' & Hf'); try done; [by apply not_elem_of_cons|].
    eapply Hdrop; try done; [lia|right; split; [done|]; apply Hnp; tauto|rewrite Hcost; cbn [sh_usage with_heap]; lia|unfold goes_back; by rewrite Hdet|].
    unfold box_drop. st_step (deref_ok _ _ _ Eh). done.
  - destruct Hh as (Hm & Hin' & Hmap & _). set (h1 := set_refs (lh_refs h - 1) h).
    assert (Eun : lift (unref h) s = (Ok (lh_refs h - 1 =? 0, h1), s)).
    { unfold lift, unref. rewrite (proj2 (Z.ltb_lt _ _)) by lia. done. }
    st_step Eun. st_step (assign_ok p (λ _, h1) h s Eh). set (s1 := with_heap (<[p := h1]> (sh_heap s)) s).
    destruct (write_core s p h h1 B L H Eh) as (V1 & Hp1 & Hf1); try done. fold s1 in V1, Hp1, Hf1.
    assert (Ec1 : core h1 = hc_set_refs (hc_refs c - 1) c) by (unfold h1; by rewrite core_set_refs, Hrefs, Ech). rewrite Ec1 in V1.
    assert (Hent1 : forall q, entry s1 q = entry s q) by (by eapply entry_write).
    assert (Hcach1 : forall k, cached s1 k = cached s k) by (intros k; rewrite !cached_entry; change (sh_pages s1) with (sh_pages s); destruct (sh_pages s !! k); [cbn|done]; by rewrite Hent1).
    assert (Hch1 : charges (v_core (sview s1)) (B ++ L ++ H) = charges (v_core (sview s)) (B ++ L ++ H)).
    { rewrite V1. apply charges_same. intros q Hq. rewrite lookup_insert_ne; [done|]. intros <-. done. }
    assert (Hc1 : v_core (sview s1) !! p = Some (hc_set_refs (hc_refs c - 1) c)) by (by rewrite V1, lookup_insert_eq).
    destruct (lh_refs h - 1 =? 0) eqn:Elast; cbn [negb]; cycle 1.
    { (* not the last one *)
      apply Z.eqb_neq in Elast. exists s1, B, L, H. split_and!; try done.
      - eapply (shard_rep_config s); try done.
        + rewrite V1. eapply (core_return _ _ _ _ _ _ Hco); try done; [split; [done|lia]|lia].
        + by rewrite Hch1.
      - intros k v Hv. by rewrite <- Hcach1.
      - intros q _. apply Hent1.
      - intros h' Eh'. assert (h' = h) as -> by congruence. unfold goes_back. rewrite (proj2 (Z.eqb_neq (lh_refs h) 1)) by lia. by rewrite andb_false_r. }
    apply Z.eqb_eq in Elast. rewrite st_get. change (is_in_cache h1) with (is_in_cache h). rewrite Hin. change (lh_key h1) with (lh_key h). rewrite Hkey.
    change (sh_usage s1) with (sh_usage s). change (sh_capacity s1) with (sh_capacity s).
    pose proof (core_usage_wrap _ _ _ _ _ _ Hco p c Hc Hd Edet) as Hwrap.
    destruct (hc_in_cache c) eqn:Ein; cycle 1.
    { destruct (drop_heap (with_usage (wrap64 (sh_usage s - hc_charge c)) s1) p B L H) as (V2 & Hp2 & Hf2); [by apply not_elem_of_cons|by eapply (page_part_ext s1)|by eapply (file_part_ext s1)|].
      change (sview (with_usage _ s1)) with (sview s1) in V2. rewrite V1, delete_insert_eq in V2.
      eapply Hdrop; try done; [lia|right; split; [done|]; by apply Hnp|cbn [sh_usage with_heap with_usage]; by rewrite Hcost, Hwrap|unfold goes_back; by rewrite Hin, ?Ein, andb_false_r|].
      by rewrite (clear_handle_ok p _ s1 Hc1). }
    destruct ((sh_usage s <=? sh_capacity s) && negb (returning_behavior_match token CACHE_DISCARD)) eqn:Eroom.
    + (* to the list *)
      assert (Hgb : goes_back s h token = true) by (unfold goes_back; rewrite Hdet, Hin, ?Ein, <- andb_assoc, Eroom; cbn [negb andb]; rewrite (proj2 (Z.eqb_eq (lh_refs h) 1)) by lia; done).
      destruct (link_lru_ok s1 B L H p h1 (returning_behavior_match token CACHE_AS_RECENT) Hp1 Hlow) as (s2 & B2 & L2 & H2 & X & Y & E2 & Hp2 & Fr2 & Epl & Exy & Ex & Hlu2).
      { apply lookup_insert_eq. } { by apply not_elem_of_cons. } { by rewrite Hch1. }
      { rewrite Hch1. change (lh_charge h1) with (lh_charge h). rewrite Hchg.
        pose proof (charges_total (sh_lru_high_pri s) (v_core (sview s)) (p :: B ++ L ++ H) (co_charges _ _ _ _ _ _ Hco)) as Ht.
        pose proof (co_bound _ _ _ _ _ _ Hco). rewrite charges_cons in Ht. unfold charge_at in Ht at 1. rewrite Hc in Ht. pose proof (pp_nodup _ _ _ _ Hpp) as [_ Hn]%NoDup_cons.
        assert (hc_charge c + charges (v_core (sview s)) (B ++ L ++ H) <= total (sh_lru_high_pri s) (v_core (sview s))); [|lia]. apply Ht; [by apply NoDup_cons|].
        intros q [->|Hq]%elem_of_cons; [split; [done|]; by exists c|]. destruct (co_all _ _ _ _ _ _ Hco q Hq) as (Hqd & cq & Hcq). split; [done|]. exists cq. split; [done|].
        by apply (core_list _ _ _ _ _ _ Hco q cq Hcq Hqd Hq). }
      st_step E2. pose proof (file_part_list_frame _ _ _ Fr2 Hf1) as Hf2. destruct Fr2 as [K1 K2 K3 K4 K5 K6 K7 K8].
      assert (Hd2 : sh_lru_high_pri s2 = sh_lru_high_pri s) by (unfold sh_lru_high_pri; by rewrite K1).
      destruct (link_file_ok s2 (B ++ L ++ H) Hf2 p (hc_set_refs (hc_refs c - 1) c)) as (s3 & E3 & Hf3 & Fr3); [done|by rewrite Hd2|by rewrite K6|].
      assert (Hmem : forall q, q ∈ p :: B ++ L ++ H <-> q ∈ B2 ++ L2 ++ H2) by (intros q; rewrite Exy, Ex, elem_of_cons, !elem_of_app, elem_of_cons; tauto).
      pose proof (page_part_file_frame _ _ _ _ _ Fr3 Hp2) as Hp3. destruct Fr3.
      assert (V3 : v_core (sview s3) = <[p := hc_set_refs (hc_refs c - 1) c]> (v_core (sview s))) by (by rewrite ff_core, K6).
      assert (Epg : sh_pages s3 = sh_pages s) by (by rewrite ff_pages, K2).
      assert (Hent3 : forall q, entry s3 q = entry s q) by (by eapply entry_write).
      exists s3, B2, L2, H2. split_and!; try done.
      * eapply (shard_rep_config s); try done; [by rewrite ff_config, K1|by eapply file_part_equiv| |by rewrite ff_lru_usage, ff_core].
        rewrite V3, Epg, ff_usage, K4. change (sh_usage s1) with (sh_usage s). eapply (core_return _ _ _ _ _ _ Hco); try done.
        -- intros q Hq. rewrite <- Hmem, elem_of_cons. tauto.
        -- rewrite <- Hmem, elem_of_cons. split; [lia|tauto].
      * by rewrite ff_config, K1.
      * intros k v. rewrite !cached_entry, Epg. destruct (sh_pages s !! k); [cbn|done]. by rewrite Hent3.
      * intros q _. apply Hent3.
      * rewrite ff_usage, K4. done.
      * intros h' Eh'. assert (h' = h) as -> by congruence. rewrite Hgb. exists X, Y. done.
    + (* no room *)
      assert (Hpk : sh_pages s !! hc_key c = Some p) by (by apply Hmap).
      destruct (table_remove_ok s1 (hc_key c) p (hc_set_refs (hc_refs c - 1) c) B L H Hpk Hc1 Hp1 Hf1) as (s2 & E2 & Hp2 & Hf2 & V2 & K1 & K2 & K3 & K4 & K5). st_step E2.
      rewrite V1, insert_insert_eq in V2. set (c2 := hc_set_in false _) in V2.
      assert (Hd2 : sh_lru_high_pri s2 = sh_lru_high_pri s) by (unfold sh_lru_high_pri; by rewrite K2).
      assert (Hc2 : v_core (sview s2) !! p = Some c2) by (by rewrite V2, lookup_insert_eq).
      destruct (drop_heap (with_usage (wrap64 (sh_usage s2 - hc_charge c)) s2) p B L H) as (V3 & Hp3 & Hf3);
        [apply not_elem_of_cons; by change (sh_lru_high_pri (with_usage _ s2)) with (sh_lru_high_pri s2); rewrite Hd2|by eapply (page_part_ext s2)|by eapply (file_part_ext s2)|].
      change (sview (with_usage _ s2)) with (sview s2) in V3. rewrite V2, delete_insert_eq in V3.
      eapply Hdrop; try done; [lia|left; split; [exact K1|done]| |unfold goes_back; by rewrite <- andb_assoc, Eroom, andb_false_r|].
      { cbn [sh_usage with_heap with_usage]. rewrite Hcost, K4. exact Hwrap. }
      by rewrite (clear_handle_ok p c2 s2 Hc2).
Qed.

(** The same, for clients. *)
Lemma release_ok s held p token :
  shard_ok s held -> p ∈ held ->
  exists s', shard_release p token s = (Ok tt, s') /\ shard_ok s' (held ∖ {[+ p +]}) /\ sh_config s' = sh_config s /\
    forgets s s' /\ keeps (held ∖ {[+ p +]}) s s'.
Proof.
  intros (B & L & H & Hrep & Hbd) Hp. destruct (held_rep _ _ _ _ _ _ Hrep Hp) as (h & _ & Eh & _).
  destruct (shard_release_ok s B L H held p token Hrep Hp) as (s' & B' & L' & H' & E & Hrep' & K1 & K2 & K3 & K4 & K5).
  exists s'. split_and!; try done. exists B', L', H'. split; [done|]. specialize (K5 h Eh). unfold bounded, sh_capacity in *. rewrite K1. unfold goes_back in K5.
  destruct (sh_usage s <=? sh_capacity s) eqn:Eu; [apply Z.leb_le in Eu; left; unfold sh_capacity in *; lia|]. rewrite andb_false_r in K5. cbn [andb] in K5.
  rewrite K5. destruct Hbd; [left; lia|by right].
Qed.
Lemma insert_ok s held p key hash value charge opt :
  shard_ok s held -> sh_heap s !! p = None -> 0 <= charge -> sh_usage s + charge < 2 ^ 64 ->
  exists s', shard_insert p key hash value charge opt s = (Ok p, s') /\ shard_ok s' (held ⊎ {[+ p +]}) /\ sh_config s' = sh_config s /\
    keeps held s s' /\ entry s' p = Some (key, hash, value) /\
    (if refill_cold_when_not_full opt && (sh_capacity s <? sh_usage s + charge) then forall k, cached s' k = cached s k
     else cached s' key = Some (hash, value) /\ forall k v, k <> key -> cached s' k = Some v -> cached s k = Some v).
Proof.
  intros (B & L & H & Hrep & Hbd) Hfresh Hc Hb.
  destruct (shard_insert_ok s B L H held p key hash value charge opt Hrep Hfresh Hc Hb) as (s' & B' & L' & H' & E & Hrep' & K1 & K2 & K3 & K4).
  exists s'. destruct (_ && _); [|destruct K4 as (K4 & K5 & K6)]; split_and!; try done; try (exists B', L', H'; split; [done|]); tauto.
Qed.

(** ** The empty cache *)

Lemma shard_new_rep ptr capacity high low :
  f64_lt (f64_of 0) low = false -> shard_rep (T := T) (shard_new ptr capacity high low) [] [] [] ∅.
Proof.
  intros Hlow. set (s := shard_new _ _ _ _). assert (Hc : v_core (sview s) = {[ptr := core (set_page_link (mkHandleLink ptr ptr) handle_default)]}) by (unfold sview, view, s; cbn [sh_heap shard_new v_core]; by rewrite map_fmap_singleton).
  assert (Hsome : forall p, is_Some (v_core (sview s) !! p) -> p = ptr) by (intros p [c Hp]; rewrite Hc in Hp; by apply lookup_singleton_Some in Hp as [? _]).
  assert (Hch : charges_ok (v_core (sview s))) by (intros p c; rewrite Hc; intros [_ <-]%lookup_singleton_Some; done).
  assert (Hnone : forall p, ~ p ∈ @nil Z) by (intros p Hp; by apply not_elem_of_nil in Hp).
  assert (Ht : total (sh_lru_high_pri s) (v_core (sview s)) = 0).
  { rewrite Hc. rewrite <- insert_empty, total_insert by done. unfold total, cost. rewrite map_fold_empty, bool_decide_true by done. done. }
  split; [split|split|split| |]; try done.
  - apply NoDup_singleton.
  - unfold sview, view, s. cbn [sh_heap shard_new v_pn v_pp app ring seg]. rewrite !map_fmap_singleton, !lookup_singleton_eq. done.
  - intros p Hp. by apply Hnone in Hp.
  - intros p Hp. by apply Hnone in Hp.
  - intros p Hp. by apply Hnone in Hp.
  - unfold s. cbn [sh_config shard_new sc_lru_low_capacity sc_lru_high_capacity]. split; apply f64_to_usize_bounds.
  - intros f. exists []. split_and!; [constructor|done|done|]. intros p. split; [intros Hp; by apply Hnone in Hp|intros [Hp _]; by apply Hnone in Hp].
  - intros p _ Hd Hp. by apply Hsome in Hp.
  - exists (core (set_page_link (mkHandleLink ptr ptr) handle_default)). rewrite Hc. apply lookup_singleton_eq.
  - intros p c Hp Hd. exfalso. apply Hd. apply Hsome. by exists c.
  - intros p Hp. by apply gmultiset_not_elem_of_empty in Hp.
  - intros p Hp. by apply Hnone in Hp.
  - by rewrite Ht.
Qed.
End release.
