(* ===== verification/CacheLaws.v ===== *)
(** * The sharded cache and its clients ([page_store/cache/lru.rs], [page_store/cache/mod.rs])

    What a cache promises ([cache_spec]): it is a partial map that may forget, and an
    entry shows the value it was made for until it is dropped. Clients insert, look up,
    erase, and drop each entry they got once; the LRU cache with its shards refines the
    promise, in whatever order they do so. *)

From stdpp Require Import gmultiset.
From stdpp Require Import base numbers list gmap.
From Stdlib Require Import ZArith Lia.
From S2P Require Import Prelude Float64 CacheHandle LruCache Ring LruHeap LruList LruFiles LruCore LruLaws LruSafe.

(** ** Clients *)

Inductive client_op (T : Type) :=
  | OpInsert (p key : Z) (value : option T) (charge option : Z)
  | OpLookup (key : Z)
  | OpDrop (n : nat)
  | OpErase (key : Z)
  | OpEraseFile (file_id : Z)
  | OpInvalidate (n : nat)
  | OpReturnAsOld (n : nat).
Arguments OpInsert {T} _ _ _ _ _.
Arguments OpLookup {T} _.
Arguments OpDrop {T} _.
Arguments OpErase {T} _.
Arguments OpEraseFile {T} _.
Arguments OpInvalidate {T} _.
Arguments OpReturnAsOld {T} _.

Section clients.
Context {T : Type}.
Implicit Types (s : LRUCacheShard T) (c : LRUCache T) (es : list CacheEntry) (held : nat -> gmultiset Z).

(** A step of a client, who has the entries [es]. *)
Definition client_step (op : client_op T) (c : LRUCache T) (es : list CacheEntry) : res (LRUCache T * list CacheEntry) :=
  match op with
  | OpInsert p key value charge option =>
      match cache_insert p key value charge option c with
      | (Ok e, c) => Ok (c, es ++ [e])
      | (Err e, _) => Err e
      | (Panic, _) => Panic
      end
  | OpLookup key =>
      match cache_lookup key c with
      | (Ok e, c) => Ok (c, es ++ option_list e)
      | (Err e, _) => Err e
      | (Panic, _) => Panic
      end
  | OpDrop n =>
      match es !! n with
      | None => Ok (c, es)
      | Some e =>
          match cache_release e c with
          | (Ok _, c) => Ok (c, delete n es)
          | (Err e, _) => Err e
          | (Panic, _) => Panic
          end
      end
  | OpErase key => match cache_erase key c with (Ok _, c) => Ok (c, es) | (Err e, _) => Err e | (Panic, _) => Panic end
  | OpEraseFile f => match cache_erase_file_pages f c with (Ok _, c) => Ok (c, es) | (Err e, _) => Err e | (Panic, _) => Panic end
  | OpInvalidate n => Ok (c, alter invalidate_from_cache n es)
  | OpReturnAsOld n => Ok (c, alter return_cache_as_old n es)
  end.

(** What a client may ask for: the allocator returns a fresh address, the charges and
    the references fit their types. *)
Definition op_ok (op : client_op T) c es : Prop :=
  match op with
  | OpInsert p key _ charge _ => forall s, lc_shards c !! cache_shard c (hash_key key) = Some s ->
      sh_heap s !! p = None /\ 0 <= charge /\ sh_usage s + charge < 2 ^ 64
  | OpLookup _ => Z.of_nat (length es) + 1 < 2 ^ 32
  | _ => True
  end.

(** ** The promise of a cache *)

(** What the cache has for a key, and what an entry shows. *)
Definition shown c (e : CacheEntry) : option (Z * option T) :=
  s ← lc_shards c !! ce_shard e; (λ x, (x.1.1, x.2)) <$> entry s (ce_ptr e).
Definition contents c (k : Z) : option (option T) := s ← lc_shards c !! cache_shard c (hash_key k); snd <$> cached s k.

(** From the map [m] and the values [vs] of the entries to [m'] and [vs']. *)
Definition cache_spec (op : client_op T) (m m' : Z -> option (option T)) (vs vs' : list (option (Z * option T))) : Prop :=
  match op with
  | OpInsert _ key value _ option => vs' = vs ++ [Some (key, value)] /\
      ((m' key = Some value /\ forall k v, k <> key -> m' k = Some v -> m k = Some v) \/
       refill_cold_when_not_full option = true /\ forall k, m' k = m k)
  | OpLookup key => (forall k, m' k = m k) /\ vs' = vs ++ option_list ((λ v, Some (key, v)) <$> m key)
  | OpDrop n => (forall k v, m' k = Some v -> m k = Some v) /\ vs' = delete n vs
  | OpErase key => (forall k, m' k = if decide (k = key) then None else m k) /\ vs' = vs
  | OpEraseFile f => (forall k, m' k = m k \/ m' k = None /\ key_file_id k = f) /\ vs' = vs /\
      (forall k v, key_file_id k = f -> m' k = Some v -> Some (k, v) ∈ vs)
  | OpInvalidate _ | OpReturnAsOld _ => (forall k, m' k = m k) /\ vs' = vs
  end.

(** ** The invariant of the shards *)

(** The handles of a shard have hashes that lead to it. *)
Definition hashed (mask : Z) (i : nat) s (h : gmultiset Z) : Prop :=
  (forall k hash v, cached s k = Some (hash, v) -> hash = hash_key k /\ Z.to_nat (Z.land mask hash) = i) /\
  (forall p k hash v, p ∈ h -> entry s p = Some (k, hash, v) -> Z.to_nat (Z.land mask hash) = i).
Record cache_ok c held : Prop := {
  ck_mask : exists b, 0 <= b /\ lc_shard_mask c = Z.ones b /\ length (lc_shards c) = Z.to_nat (2 ^ b);
  ck_shards : forall i s, lc_shards c !! i = Some s -> shard_ok s (held i) /\ hashed (lc_shard_mask c) i s (held i);
  ck_none : forall i, lc_shards c !! i = None -> held i = ∅;
}.

Lemma cache_shard_some c held hash : cache_ok c held -> is_Some (lc_shards c !! cache_shard c hash).
Proof.
  intros [(b & Hb & Hm & Hl) _ _]. apply lookup_lt_is_Some. unfold cache_shard. rewrite Hm, Hl, Z.land_comm, Z.land_ones by done.
  pose proof (Z.mod_pos_bound hash (2 ^ b)). assert (0 < 2 ^ b) by (by apply Z.pow_pos_nonneg). lia.
Qed.

(** An operation of one shard. *)
Lemma on_shard_ok {A} c held i s (m : St (LRUCacheShard T) A) a s' h' :
  cache_ok c held -> lc_shards c !! i = Some s -> m s = (Ok a, s') -> shard_ok s' h' -> hashed (lc_shard_mask c) i s' h' ->
  exists c', on_shard i m c = (Ok a, c') /\ cache_ok c' (λ j, if decide (j = i) then h' else held j) /\
    lc_shard_mask c' = lc_shard_mask c /\ lc_shards c' = <[i := s']> (lc_shards c).
Proof.
  intros [Hm Hs Hn] Ei E Hok Hh. unfold on_shard. rewrite Ei, E. eexists. split; [reflexivity|]. split; [|done]. split; cbn [lc_shards lc_shard_mask].
  - by rewrite length_insert.
  - intros j sj. destruct (decide (j = i)) as [->|Hne].
    + rewrite list_lookup_insert_eq by (by eapply lookup_lt_Some). by intros [= <-].
    + rewrite list_lookup_insert_ne by done. apply Hs.
  - intros j. destruct (decide (j = i)) as [->|Hne].
    + rewrite list_lookup_insert_eq by (by eapply lookup_lt_Some). done.
    + rewrite list_lookup_insert_ne by done. apply Hn.
Qed.
Lemma cache_ok_ext c held held' : (forall i, held i = held' i) -> cache_ok c held -> cache_ok c held'.
Proof. intros E [H1 H2 H3]. split; [done|..]; intros i; rewrite <- E; auto. Qed.

(** The entries of clients in a shard. *)
Definition held_by es (i : nat) : gmultiset Z := list_to_set_disj (ce_ptr <$> base.filter (λ e, ce_shard e = i) es).

Lemma held_app es1 es2 i : held_by (es1 ++ es2) i = held_by es1 i ⊎ held_by es2 i.
Proof. unfold held_by. by rewrite filter_app, fmap_app, list_to_set_disj_app. Qed.
Lemma held_one e i : held_by [e] i = if decide (i = ce_shard e) then {[+ ce_ptr e +]} else ∅.
Proof.
  unfold held_by. rewrite filter_cons, filter_nil. case_decide; case_decide; try congruence; [|done]. cbn [fmap list_fmap]. rewrite list_to_set_disj_cons, list_to_set_disj_nil. apply (right_id_L ∅ (⊎)).
Qed.
Lemma held_in e es : e ∈ es -> ce_ptr e ∈ held_by es (ce_shard e).
Proof.
  intros (l1 & l2 & ->)%list_elem_of_split. change (l1 ++ e :: l2) with (l1 ++ [e] ++ l2). rewrite !held_app, held_one, decide_True by done. multiset_solver.
Qed.
Lemma held_delete es n e i : es !! n = Some e -> held_by (delete n es) i = if decide (i = ce_shard e) then held_by es i ∖ {[+ ce_ptr e +]} else held_by es i.
Proof.
  intros E. pose proof (take_drop_middle _ _ _ E) as Es. rewrite delete_take_drop.
  assert (Eh : held_by es i = held_by (take n es ++ [e] ++ drop (S n) es) i) by (cbn [app]; by rewrite Es).
  rewrite Eh, !held_app, held_one. case_decide; multiset_solver.
Qed.
Lemma held_bound es i p : (multiplicity p (held_by es i) <= length es)%nat.
Proof.
  induction es as [|e es IH]; [unfold held_by; cbn; rewrite multiplicity_empty; lia|]. change (e :: es) with ([e] ++ es). rewrite held_app, held_one, multiplicity_disj_union, length_app. cbn [length].
  assert (multiplicity p (if decide (i = ce_shard e) then {[+ ce_ptr e +]} else ∅) <= 1)%nat; [|lia].
  case_decide; [|rewrite multiplicity_empty; lia]. destruct (decide (p = ce_ptr e)) as [->|?]; [rewrite multiplicity_singleton_eq|rewrite multiplicity_singleton_ne by done]; lia.
Qed.
Lemma held_alter f es n i : (forall e, ce_shard (f e) = ce_shard e /\ ce_ptr (f e) = ce_ptr e) -> held_by (alter f n es) i = held_by es i.
Proof.
  intros Hf. unfold held_by. f_equal. revert n. induction es as [|e es IH]; intros [|n]; cbn [alter list_alter]; try done.
  - rewrite !filter_cons. destruct (Hf e) as [-> Ep]. case_decide; [|done]. cbn. by rewrite Ep.
  - rewrite !filter_cons. case_decide; [cbn; f_equal|]; apply IH.
Qed.

(** ** Each operation *)

Section update.
Context c c' i s s' (Ei : lc_shards c !! i = Some s) (Em : lc_shard_mask c' = lc_shard_mask c) (Es : lc_shards c' = <[i := s']> (lc_shards c)).

Lemma shown_update e : shown c' e = if decide (ce_shard e = i) then (λ x, (x.1.1, x.2)) <$> entry s' (ce_ptr e) else shown c e.
Proof using Ei Es.
  unfold shown. rewrite Es. case_decide as E; [subst; rewrite list_lookup_insert_eq by (by eapply lookup_lt_Some); done|]. by rewrite list_lookup_insert_ne.
Qed.
Lemma contents_update k : contents c' k = if decide (cache_shard c (hash_key k) = i) then snd <$> cached s' k else contents c k.
Proof using Ei Em Es.
  unfold contents. replace (cache_shard c' (hash_key k)) with (cache_shard c (hash_key k)) by (unfold cache_shard; by rewrite Em). rewrite Es.
  case_decide as E; [subst; rewrite list_lookup_insert_eq by (by eapply lookup_lt_Some); done|]. by rewrite list_lookup_insert_ne.
Qed.
Lemma contents_here k : cache_shard c (hash_key k) = i -> contents c k = snd <$> cached s k.
Proof using Ei. intros E. unfold contents. by rewrite E, Ei. Qed.
Lemma shown_here e : ce_shard e = i -> shown c e = (λ x, (x.1.1, x.2)) <$> entry s (ce_ptr e).
Proof using Ei. intros E. unfold shown. by rewrite E, Ei. Qed.
(** The entries clients have show what they did. *)
Lemma shown_keeps es h : (forall e, e ∈ es -> ce_shard e = i -> ce_ptr e ∈ h) -> keeps h s s' -> shown c' <$> es = shown c <$> es.
Proof using Ei Es.
  intros Hh Hk. apply list_fmap_ext. intros n e He%list_elem_of_lookup_2. rewrite shown_update. case_decide as E; [|done]. rewrite shown_here by done. by rewrite Hk by auto.
Qed.
End update.

Lemma held_all es i e : e ∈ es -> ce_shard e = i -> ce_ptr e ∈ held_by es i.
Proof. intros He <-. by apply held_in. Qed.

Lemma insert_spec c es p key value charge option :
  cache_ok c (held_by es) -> op_ok (OpInsert p key value charge option) c es ->
  exists c' e, cache_insert p key value charge option c = (Ok e, c') /\ cache_ok c' (held_by (es ++ [e])) /\
    cache_spec (OpInsert p key value charge option) (contents c) (contents c') (shown c <$> es) (shown c' <$> es ++ [e]).
Proof.
  intros Hok Hop. destruct (cache_shard_some c _ (hash_key key) Hok) as [s Es]. specialize (Hop s Es) as (Hfresh & Hc & Hb).
  unfold cache_insert. rewrite st_gets. set (i := cache_shard c (hash_key key)) in *. destruct (ck_shards _ _ Hok i s Es) as [Hs [Hh1 Hh2]].
  destruct (insert_ok s _ p key (hash_key key) value charge option Hs Hfresh Hc Hb) as (s' & E & Hs' & Hcfg & Hk & He & Hcase).
  assert (Hx : exists x, sh_heap s' !! p = Some x) by (unfold entry in He; apply fmap_Some in He as (x & Hx & _); apply view_lookup in Hx as (h & Hx & _); by exists h).
  destruct Hx as [x Ex].
  match goal with |- context [on_shard i ?m c] => set (run := m) end.
  edestruct (on_shard_ok c (held_by es) i s run) as (c' & E' & Hok' & Em & Ess); unfold run; [exact Hok|exact Es|st_step E; st_step (deref_ok _ _ _ Ex); reflexivity|exact Hs'| |].
  { split.
    - intros k hash v Hcv. destruct (_ && _); [rewrite Hcase in Hcv; by apply (Hh1 _ _ v)|]. destruct Hcase as [Hkey Hoth].
      destruct (decide (k = key)) as [->|Hne]; [rewrite Hkey in Hcv; injection Hcv as <- <-; done|]. by apply (Hh1 _ _ v), Hoth.
    - intros q k hash v Hq Hent. destruct (decide (q ∈ held_by es i)) as [Hin|Hin]; [apply (Hh2 q k hash v Hin); by rewrite <- Hk|].
      assert (q = p) as -> by multiset_solver. rewrite He in Hent. by injection Hent as <- <- <-. }
  eexists c', _. split; [exact E'|]. split; [|split].
  - eapply cache_ok_ext; [|exact Hok']. intros j. rewrite held_app, held_one. cbn [ce_shard ce_ptr]. case_decide; [by subst|]. by rewrite (right_id_L ∅ (⊎)).
  - rewrite fmap_app. f_equal; [by eapply (shown_keeps c c' i s s'); [..|by apply held_all|]|]. cbn [fmap list_fmap]. rewrite (shown_update c c' i s s') by done.
    cbn [ce_shard ce_ptr]. rewrite decide_True by done. by rewrite He.
  - destruct (_ && _) eqn:Eroom; [right|left].
    + split; [by apply andb_true_iff in Eroom as [? _]|]. intros k. rewrite (contents_update c c' i s s') by done. case_decide as Ek; [|done].
      by rewrite (contents_here c i s), Hcase.
    + destruct Hcase as [Hkey Hoth]. split; [rewrite (contents_update c c' i s s'), decide_True, Hkey by done; done|].
      intros k v Hne. rewrite (contents_update c c' i s s') by done. case_decide as Ek; [|done]. rewrite (contents_here c i s) by done.
      intros ([h v'] & Hv & ->)%fmap_Some. by rewrite (Hoth k (h, v') Hne Hv).
Qed.

Lemma lookup_spec c es key :
  cache_ok c (held_by es) -> op_ok (OpLookup key) c es ->
  exists c' e, cache_lookup key c = (Ok e, c') /\ cache_ok c' (held_by (es ++ option_list e)) /\
    cache_spec (OpLookup key) (contents c) (contents c') (shown c <$> es) (shown c' <$> es ++ option_list e) /\
    (contents c key = None <-> e = None).
Proof.
  intros Hok Hop. destruct (cache_shard_some c _ (hash_key key) Hok) as [s Es]. unfold cache_lookup. rewrite st_gets. set (i := cache_shard c (hash_key key)) in *.
  destruct (ck_shards _ _ Hok i s Es) as [Hs [Hh1 Hh2]].
  destruct (shard_lookup_ok s (held_by es i) key Hs) as (s' & E & Hs' & Hcfg & Hcv & Hent). { intros p. pose proof (held_bound es i p). unfold op_ok in Hop. lia. }
  assert (Hp : forall p, sh_pages s !! key = Some p -> exists v, entry s p = Some (key, hash_key key, v) /\ cached s key = Some (hash_key key, v)).
  { intros p Ep. destruct Hs as (B & L & H & Hrep & _). destruct (co_pages _ _ _ _ _ _ (sr_core _ _ _ _ _ Hrep) _ _ Ep) as (_ & x & Hx & Hkx & _).
    exists (hc_value x). assert (Hcx : cached s key = Some (hc_hash x, hc_value x)) by (unfold cached; rewrite Ep; cbn [mbind option_bind]; by rewrite Hx).
    destruct (Hh1 _ _ _ Hcx) as [Ehash _]. rewrite <- Ehash. split; [|done]. unfold entry. rewrite Hx. cbn. by rewrite Hkx. }
  match goal with |- context [on_shard i ?m c] => set (run := m) end.
  edestruct (on_shard_ok c (held_by es) i s run) as (c' & E' & Hok' & Em & Ess); unfold run; [exact Hok|exact Es|st_step E; reflexivity|exact Hs'| |].
  { split.
    - intros k hash v. rewrite Hcv. apply Hh1.
    - intros q k hash v Hq. rewrite Hent. intros Hv. destruct (sh_pages s !! key) as [p|] eqn:Ep; [|by apply (Hh2 q k hash v)].
      destruct (decide (q ∈ held_by es i)) as [Hin|Hin]; [by apply (Hh2 q k hash v)|]. assert (q = p) as -> by multiset_solver.
      destruct (Hp p eq_refl) as (v' & Hv' & _). rewrite Hv' in Hv. by injection Hv as <- <- <-. }
  eexists c', _. split; [exact E'|]. split; [|split; [split|]].
  - eapply cache_ok_ext; [|exact Hok']. intros j. rewrite held_app. destruct (sh_pages s !! key) as [p|]; cbn [fmap option_fmap option_map option_list option_rect].
    + rewrite held_one. cbn [ce_shard ce_ptr]. case_decide; [by subst|]. by rewrite (right_id_L ∅ (⊎)).
    + change (held_by [] j) with (∅ : gmultiset Z). rewrite (right_id_L ∅ (⊎)). case_decide; by subst.
  - intros k. rewrite (contents_update c c' i s s') by done. case_decide as Ek; [|done]. by rewrite (contents_here c i s), Hcv.
  - rewrite fmap_app. f_equal; [eapply (shown_keeps c c' i s s'); [done|done|by apply held_all|by intros q _]|].
    rewrite (contents_here c i s) by done. destruct (sh_pages s !! key) as [p|] eqn:Ep; cycle 1.
    { unfold cached. by rewrite Ep. }
    destruct (Hp p eq_refl) as (v & Hv1 & Hv2). rewrite Hv2. cbn [fmap option_fmap option_map option_list option_rect list_fmap]. f_equal.
    rewrite (shown_update c c' i s s') by done. cbn [ce_shard ce_ptr]. by rewrite decide_True, Hent, Hv1.
  - rewrite (contents_here c i s) by done. destruct (sh_pages s !! key) as [p|] eqn:Ep; [|unfold cached; by rewrite Ep].
    destruct (Hp p eq_refl) as (v & _ & ->). done.
Qed.

Lemma held_inv es i p : p ∈ held_by es i -> exists e, e ∈ es /\ ce_shard e = i /\ ce_ptr e = p.
Proof.
  unfold held_by. rewrite elem_of_list_to_set_disj. intros (e & -> & He)%list_elem_of_fmap. apply list_elem_of_filter in He as [? ?]. by exists e.
Qed.
(** What the table has for a key is what an entry of its handle shows. *)
Lemma cached_entry_key s h k p hash v : shard_ok s h -> sh_pages s !! k = Some p -> cached s k = Some (hash, v) -> entry s p = Some (k, hash, v).
Proof.
  intros (B & L & H & Hrep & _) Ep. destruct (co_pages _ _ _ _ _ _ (sr_core _ _ _ _ _ Hrep) _ _ Ep) as (_ & x & Hx & Hkx & _).
  unfold cached, entry. rewrite Ep. cbn [mbind option_bind]. rewrite Hx. cbn. intros [= <- <-]. by rewrite Hkx.
Qed.

Lemma erase_spec c es key :
  cache_ok c (held_by es) ->
  exists c', cache_erase key c = (Ok tt, c') /\ cache_ok c' (held_by es) /\
    cache_spec (OpErase key) (contents c) (contents c') (shown c <$> es) (shown c' <$> es).
Proof.
  intros Hok. destruct (cache_shard_some c _ (hash_key key) Hok) as [s Es]. unfold cache_erase. rewrite st_gets. set (i := cache_shard c (hash_key key)) in *.
  destruct (ck_shards _ _ Hok i s Es) as [Hs [Hh1 Hh2]]. destruct (shard_erase_ok s (held_by es i) key Hs) as (s' & E & Hs' & Hcfg & Hcv & Hke).
  destruct (on_shard_ok c (held_by es) i s _ _ _ _ Hok Es E Hs') as (c' & E' & Hok' & Em & Ess).
  { split; [intros k hash v; rewrite Hcv; case_decide; [done|apply Hh1]|]. intros p k hash v Hp. rewrite Hke by done. by apply Hh2. }
  exists c'. split; [done|]. split; [|split].
  - eapply cache_ok_ext; [|exact Hok']. intros j. cbv beta. case_decide as Ej; [by rewrite Ej|done].
  - intros k. rewrite (contents_update c c' i s s') by done. case_decide as Ek; [|case_decide; [by subst|done]]. rewrite (contents_here c i s), Hcv by done. by case_decide.
  - eapply (shown_keeps c c' i s s'); [done|done|by apply held_all|done].
Qed.

(** What [erase_file_pages] does to a shard. *)
Definition erases_file (f : Z) (h : gmultiset Z) s s' : Prop :=
  (forall k, cached s' k = cached s k \/ cached s' k = None /\ key_file_id k = f) /\ keeps h s s' /\
  (forall k hv, key_file_id k = f -> cached s' k = Some hv -> exists p, p ∈ h /\ sh_pages s' !! k = Some p).
Lemma erase_in_shards_ok f ids c held :
  cache_ok c held -> NoDup ids -> (forall i, i ∈ ids -> is_Some (lc_shards c !! i)) ->
  exists c', erase_in_shards f ids c = (Ok tt, c') /\ cache_ok c' held /\ lc_shard_mask c' = lc_shard_mask c /\
    (forall j, j ∉ ids -> lc_shards c' !! j = lc_shards c !! j) /\
    (forall j, j ∈ ids -> exists s s', lc_shards c !! j = Some s /\ lc_shards c' !! j = Some s' /\ erases_file f (held j) s s').
Proof.
  revert c. induction ids as [|i ids IH]; intros c Hok Hn Hi; cbn [erase_in_shards].
  { exists c. split_and!; try done. intros j Hj. by apply not_elem_of_nil in Hj. }
  apply NoDup_cons in Hn as [Hni Hn]. destruct (Hi i) as [s Es]; [by left|]. destruct (ck_shards _ _ Hok i s Es) as [Hs [Hh1 Hh2]].
  destruct (shard_erase_file_pages_ok s (held i) f Hs) as (s' & E & Hs' & Hcfg & Hcv & Hke & Hleft).
  destruct (on_shard_ok c held i s _ _ _ _ Hok Es E Hs') as (c1 & E1 & Hok1 & Em & Ess).
  { split; [intros k hash v; destruct (Hcv k) as [->|[-> _]]; [apply Hh1|done]|]. intros p k hash v Hp. rewrite Hke by done. by apply Hh2. }
  assert (Hok2 : cache_ok c1 held) by (eapply cache_ok_ext; [|exact Hok1]; intros j; cbv beta; case_decide as Ej; [by rewrite Ej|done]).
  assert (Hlen : (i < length (lc_shards c))%nat) by (by eapply lookup_lt_Some).
  destruct (IH c1 Hok2 Hn) as (c2 & E2 & Hok3 & Em2 & Ho & He).
  { intros j Hj. rewrite Ess. assert (i <> j) by (intros ->; done). rewrite list_lookup_insert_ne by done. apply Hi. by right. }
  exists c2. st_step E1. split_and!; [done|done|congruence| |].
  - intros j [? Hj]%not_elem_of_cons. rewrite Ho, Ess, list_lookup_insert_ne by done. done.
  - intros j [->|Hj]%elem_of_cons.
    + exists s, s'. rewrite Ho, Ess, list_lookup_insert_eq by done. done.
    + assert (i <> j) by (intros ->; done). destruct (He j Hj) as (s1 & s2 & H1 & H2 & H3). exists s1, s2. rewrite Ess, list_lookup_insert_ne in H1 by done. done.
Qed.

Lemma erase_file_spec c es f :
  cache_ok c (held_by es) ->
  exists c', cache_erase_file_pages f c = (Ok tt, c') /\ cache_ok c' (held_by es) /\
    cache_spec (OpEraseFile f) (contents c) (contents c') (shown c <$> es) (shown c' <$> es).
Proof.
  intros Hok. unfold cache_erase_file_pages. rewrite st_gets. destruct (erase_in_shards_ok f (seq 0 (length (lc_shards c))) c _ Hok) as (c' & E & Hok' & Em & _ & He).
  { apply NoDup_seq. } { intros i [_ Hi]%elem_of_seq. by apply lookup_lt_is_Some. }
  assert (Hsh : forall i s, lc_shards c !! i = Some s -> exists s', lc_shards c' !! i = Some s' /\ erases_file f (held_by es i) s s').
  { intros i s Es. destruct (He i) as (s1 & s' & E1 & E2 & H); [apply elem_of_seq; split; [lia|]; by eapply lookup_lt_Some|]. exists s'. split; [done|]. congruence. }
  assert (Hshown : shown c' <$> es = shown c <$> es).
  { apply list_fmap_ext. intros n e He'%list_elem_of_lookup_2. apply held_in in He'. unfold shown. destruct (lc_shards c !! ce_shard e) as [s|] eqn:Es.
    - destruct (Hsh _ _ Es) as (s' & -> & _ & Hk & _). cbn. by rewrite Hk.
    - rewrite (ck_none _ _ Hok _ Es) in He'. by apply gmultiset_not_elem_of_empty in He'. }
  exists c'. split; [done|]. split; [done|]. cbn [cache_spec]. split; [|split; [done|]].
  - intros k. unfold contents. replace (cache_shard c' (hash_key k)) with (cache_shard c (hash_key k)) by (unfold cache_shard; by rewrite Em).
    destruct (cache_shard_some c _ (hash_key k) Hok) as [s Es]. destruct (Hsh _ _ Es) as (s' & Es' & Hc & _). rewrite Es, Es'. cbn. destruct (Hc k) as [->|[-> ?]]; [by left|by right].
  - intros k v Hk. rewrite <- Hshown. unfold contents. replace (cache_shard c' (hash_key k)) with (cache_shard c (hash_key k)) by (unfold cache_shard; by rewrite Em).
    destruct (cache_shard_some c _ (hash_key k) Hok) as [s Es]. destruct (Hsh _ _ Es) as (s' & Es' & _ & _ & Hl). rewrite Es'. cbn [mbind option_bind].
    intros ([hash v'] & Hv & ->)%fmap_Some. destruct (Hl k _ Hk Hv) as (p & Hp & Ep). destruct (held_inv _ _ _ Hp) as (e & He' & Hse & Hpe).
    apply list_elem_of_fmap. exists e. split; [|done]. unfold shown. rewrite Hse, Es'. cbn [mbind option_bind].
    rewrite Hpe, (cached_entry_key s' (held_by es (cache_shard c (hash_key k))) k p hash v'); [done| |done|done]. by apply (ck_shards _ _ Hok').
Qed.

Lemma drop_spec c es n e :
  cache_ok c (held_by es) -> es !! n = Some e ->
  exists c', cache_release e c = (Ok tt, c') /\ cache_ok c' (held_by (delete n es)) /\
    cache_spec (OpDrop n) (contents c) (contents c') (shown c <$> es) (shown c' <$> delete n es).
Proof.
  intros Hok En. pose proof (held_in e es (list_elem_of_lookup_2 _ _ _ En)) as Hin. set (i := ce_shard e) in *.
  destruct (lc_shards c !! i) as [s|] eqn:Es; cycle 1. { rewrite (ck_none _ _ Hok i Es) in Hin. by apply gmultiset_not_elem_of_empty in Hin. }
  destruct (ck_shards _ _ Hok i s Es) as [Hs [Hh1 Hh2]].
  assert (Hx : exists h, sh_heap s !! ce_ptr e = Some h /\ Z.to_nat (Z.land (lc_shard_mask c) (lh_hash h)) = i).
  { destruct Hs as (B & L & H & Hrep & _). destruct (held_rep _ _ _ _ _ _ Hrep Hin) as (h & x & Eh & Ex & Hx & _). exists h. split; [done|].
    apply (Hh2 (ce_ptr e) (hc_key x) (lh_hash h) (hc_value x) Hin). unfold entry. rewrite Hx. cbn. by rewrite <- Ex. }
  destruct Hx as (h & Eh & Ehash). unfold cache_release. fold i.
  assert (E0 : on_shard i (deref (ce_ptr e)) c = (Ok h, c)).
  { unfold on_shard. rewrite Es, (deref_ok _ _ _ Eh). f_equal. rewrite list_insert_id by done. by destruct c. }
  st_step E0. rewrite st_gets. unfold cache_shard. rewrite Ehash. assert (E1 : lift (rassert (bool_decide (i = i))) c = (Ok tt, c)) by (unfold lift, rassert; by rewrite bool_decide_true). st_step E1.
  destruct (release_ok s (held_by es i) (ce_ptr e) (ce_token e) Hs Hin) as (s' & E & Hs' & Hcfg & Hfo & Hke).
  destruct (on_shard_ok c (held_by es) i s _ _ _ _ Hok Es E Hs') as (c' & E' & Hok' & Em & Ess).
  { split; [intros k hash v Hcv%Hfo; by apply (Hh1 _ _ v)|]. intros p k hash v Hp. rewrite Hke by done. apply Hh2. multiset_solver. }
  exists c'. split; [done|]. split; [|split].
  - eapply cache_ok_ext; [|exact Hok']. intros j. rewrite (held_delete es n e) by done. fold i. cbv beta. destruct (decide (j = i)) as [->|]; done.
  - intros k v. rewrite (contents_update c c' i s s') by done. destruct (decide (cache_shard c (hash_key k) = i)) as [Ek|]; [|done]. rewrite (contents_here c i s) by done.
    intros ([hash v'] & Hv & ->)%fmap_Some. by rewrite (Hfo k (hash, v') Hv).
  - rewrite <- list_fmap_delete. eapply (shown_keeps c c' i s s'); [done|done|apply held_all|]. by rewrite (held_delete es n e), decide_True.
Qed.

(** ** Sequences of steps *)

Lemma client_step_ok op c es :
  cache_ok c (held_by es) -> op_ok op c es ->
  exists c' es', client_step op c es = Ok (c', es') /\ cache_ok c' (held_by es') /\
    cache_spec op (contents c) (contents c') (shown c <$> es) (shown c' <$> es').
Proof.
  intros Hok Hop.
  assert (Halter : forall f n, (forall e, ce_shard (f e) = ce_shard e /\ ce_ptr (f e) = ce_ptr e) ->
    cache_ok c (held_by (alter f n es)) /\ (forall k, contents c k = contents c k) /\ shown c <$> alter f n es = shown c <$> es).
  { intros f n Hf. split_and!; [eapply cache_ok_ext; [|exact Hok]; intros i; by rewrite held_alter|done|].
    apply list_eq. intros m. rewrite !list_lookup_fmap. destruct (decide (m = n)) as [->|?]; [rewrite list_lookup_alter_eq|by rewrite list_lookup_alter_ne].
    destruct (es !! n) as [e|]; [cbn|done]. unfold shown. by destruct (Hf e) as [-> ->]. }
  destruct op as [p key value charge option|key|n|key|f|n|n]; cbn [client_step].
  - destruct (insert_spec c es p key value charge option Hok Hop) as (c' & e & -> & H). by exists c', (es ++ [e]).
  - destruct (lookup_spec c es key Hok Hop) as (c' & e & -> & H1 & H2 & _). by exists c', (es ++ option_list e).
  - destruct (es !! n) as [e|] eqn:En.
    + destruct (drop_spec c es n e Hok En) as (c' & -> & H). by exists c', (delete n es).
    + exists c, es. split_and!; try done. cbn [cache_spec]. split; [done|]. apply lookup_ge_None in En. rewrite <- list_fmap_delete, delete_take_drop, drop_ge, app_nil_r, take_ge by lia. done.
  - destruct (erase_spec c es key Hok) as (c' & -> & H). by exists c', es.
  - destruct (erase_file_spec c es f Hok) as (c' & -> & H). by exists c', es.
  - destruct (Halter invalidate_from_cache n) as (H1 & H2 & H3); [done|]. by exists c, (alter invalidate_from_cache n es).
  - destruct (Halter return_cache_as_old n) as (H1 & H2 & H3); [done|]. by exists c, (alter return_cache_as_old n es).
Qed.

(** The states that clients reach from [c0]. *)
Inductive client_run (c0 : LRUCache T) : LRUCache T -> list CacheEntry -> Prop :=
  | run_start : client_run c0 c0 []
  | run_step op c es c' es' : client_run c0 c es -> op_ok op c es -> client_step op c es = Ok (c', es') -> client_run c0 c' es'.

Lemma client_run_ok c0 c es : cache_ok c0 (held_by []) -> client_run c0 c es -> cache_ok c (held_by es).
Proof.
  intros H0. induction 1 as [|op c es c' es' _ IH Hop E]; [done|]. destruct (client_step_ok op c es IH Hop) as (c1 & es1 & E1 & Hok & _). congruence.
Qed.

(** ** The new cache *)

Lemma shard_bits_ok n k b : 0 <= n -> 0 <= k < 6 -> 6 <= k + Z.of_nat b -> exists bits, shard_bits b n k = Ok bits /\ k <= bits <= 6.
Proof.
  revert n k. induction b as [|b IH]; intros n k Hn Hk Hb; [lia|]. cbn [shard_bits]. destruct (Z.shiftr n 1 =? 0); [exists k; split; [done|lia]|].
  destruct (6 <=? k + 1) eqn:E; [apply Z.leb_le in E; exists (k + 1); split; [done|lia]|]. apply Z.leb_gt in E.
  destruct (IH (Z.shiftr n 1) (k + 1)) as (bits & E' & Hbits); [apply Z.shiftr_nonneg; lia|lia|lia|]. exists bits. split; [done|lia].
Qed.

Lemma cache_new_total ptr capacity num_shard_bits high low :
  f64_lt (f64_add high low) (f64_of 1) = true -> num_shard_bits < 20 -> 0 <= capacity ->
  exists c bits, cache_new (T := T) ptr capacity num_shard_bits high low = Ok c /\ 0 <= bits < 20 /\ (num_shard_bits < 0 -> bits <= 6) /\
    lc_shard_mask c = Z.ones bits /\ lc_shards c = replicate (Z.to_nat (2 ^ bits)) (shard_new ptr (wrap64 (capacity + (2 ^ bits - 1)) / 2 ^ bits) high low).
Proof.
  intros Hr Hb Hc. unfold cache_new. rewrite Hr, (proj2 (Z.ltb_lt _ _)) by done. cbn [rassert mbind res_bind].
  assert (Hbits : exists bits, (if 0 <=? num_shard_bits then Ok num_shard_bits else shard_bits 6 (capacity / MIN_SHARD_SIZE) 0) = Ok bits /\ 0 <= bits < 20 /\ (num_shard_bits < 0 -> bits <= 6)).
  { destruct (0 <=? num_shard_bits) eqn:E; [apply Z.leb_le in E; exists num_shard_bits; split_and!; [done|lia|lia|lia]|].
    destruct (shard_bits_ok (capacity / MIN_SHARD_SIZE) 0 6) as (bits & -> & ?); [apply Z.div_pos; [lia|done]|lia|lia|]. exists bits. split_and!; [done|lia|lia|lia]. }
  destruct Hbits as (bits & -> & Hbits & Hb6). cbn [mbind res_bind]. eexists _, bits. split; [reflexivity|]. cbn [lc_shard_mask lc_shards].
  assert (H2 : 2 ^ bits < 2 ^ 32) by (apply Z.pow_lt_mono_r; lia). assert (0 < 2 ^ bits) by (apply Z.pow_pos_nonneg; lia).
  rewrite Z.shiftl_1_l, (wrap_small 32) by (unfold fits; lia). split_and!; try lia; [|done]. rewrite Z.ones_equiv. lia.
Qed.

Lemma cache_new_ok ptr capacity num_shard_bits high low c :
  cache_new (T := T) ptr capacity num_shard_bits high low = Ok c -> 0 <= capacity -> f64_lt (f64_of 0) low = false ->
  cache_ok c (held_by []) /\ forall k, contents c k = None.
Proof.
  intros E Hcap Hlow. assert (Hpre : f64_lt (f64_add high low) (f64_of 1) = true /\ num_shard_bits < 20).
  { unfold cache_new in E. destruct (f64_lt (f64_add high low) (f64_of 1)); [|done]. destruct (num_shard_bits <? 20) eqn:Eb; [|done]. by apply Z.ltb_lt in Eb. }
  destruct Hpre as [H1 H2]. destruct (cache_new_total ptr capacity num_shard_bits high low H1 H2 Hcap) as (c' & bits & E' & Hb & _ & Hm & Hs).
  assert (c' = c) as -> by congruence.
  assert (Hsh : forall i s, lc_shards c !! i = Some s -> (forall k, cached s k = None) /\ shard_ok s ∅).
  { intros i s. rewrite Hs. intros [-> _]%lookup_replicate. split; [done|]. exists [], [], []. split; [by apply shard_new_rep|by right]. }
  split.
  - split.
    + exists bits. split_and!; [lia|done|]. by rewrite Hs, length_replicate.
    + intros i s Hi. destruct (Hsh i s Hi) as [Hc Hok]. change (held_by [] i) with (∅ : gmultiset Z). split; [done|]. split; [intros k hash v; by rewrite Hc|].
      intros p k hash v Hp. by apply gmultiset_not_elem_of_empty in Hp.
    + done.
  - intros k. unfold contents. destruct (lc_shards c !! _) as [s|] eqn:Es; [cbn|done]. destruct (Hsh _ _ Es) as [-> _]. done.
Qed.

(** ** What a client reads *)

Lemma entry_value_shown c e : entry_value e c = match shown c e with Some (_, Some v) => Ok v | _ => Panic end.
Proof.
  unfold entry_value, shown. destruct (lc_shards c !! ce_shard e) as [s|]; [|done]. cbn [expect mbind res_bind option_bind]. unfold entry, sview, view. cbn [v_core].
  rewrite lookup_fmap. destruct (sh_heap s !! ce_ptr e) as [h|]; [cbn|done]. by destruct (lh_value h).
Qed.
(** A lookup that finds nothing leaves room for what there was room for. *)
Lemma lookup_miss_ok c es key c' e p k v charge option es' :
  cache_ok c (held_by es) -> contents c key = None -> cache_lookup key c = (Ok e, c') ->
  op_ok (OpInsert p k v charge option) c es' -> op_ok (OpInsert p k v charge option) c' es'.
Proof.
  intros Hok Hno E Hop. unfold cache_lookup in E. rewrite st_gets in E. set (i := cache_shard c (hash_key key)) in *.
  destruct (cache_shard_some c _ (hash_key key) Hok) as [s Es]. fold i in Es. destruct (ck_shards _ _ Hok i s Es) as [(B & L & H & Hrep & _) _].
  assert (Hp : sh_pages s !! key = None).
  { rewrite (contents_here c i s) in Hno by done. destruct (sh_pages s !! key) as [x|] eqn:Ep; [|done].
    destruct (co_pages _ _ _ _ _ _ (sr_core _ _ _ _ _ Hrep) _ _ Ep) as (_ & y & Hy & _). unfold cached in Hno. rewrite Ep in Hno. cbn [mbind option_bind] in Hno. by rewrite Hy in Hno. }
  unfold on_shard in E. rewrite Es in E. unfold shard_lookup, table_find in E. rewrite st_assoc, st_gets, Hp in E. unfold modify, mret, st_ret, mbind, st_bind in E.
  injection E as _ <-. intros s'. unfold cache_shard. cbn [lc_shards lc_shard_mask]. fold (cache_shard c (hash_key k)). intros Hs'.
  destruct (decide (cache_shard c (hash_key k) = i)) as [Ei|Hne].
  - rewrite Ei, list_lookup_insert_eq in Hs' by (by eapply lookup_lt_Some). injection Hs' as <-. apply (Hop s). by rewrite Ei.
  - rewrite list_lookup_insert_ne in Hs' by done. by apply (Hop s').
Qed.
End clients.

(** ** What clients can rely on *)

(** [C13] The LRU cache refines the promise of a cache. From a new cache without a low
    priority part, whatever clients have done so far and may do next, the operation
    succeeds (no pointer dangles and no loop goes on), an insertion leaves the new value
    in the cache, or the cache as it was when the page is not to be admitted, a lookup
    gives an entry exactly if the cache has the key, with the value last inserted,
    erasing takes away what it names, dropping an entry forgets at most, and the entries
    clients still have show the keys and values they did. *)
Theorem lru_cache_refines {T} ptr capacity num_shard_bits high low (c0 c : LRUCache T) es op :
  cache_new ptr capacity num_shard_bits high low = Ok c0 -> 0 <= capacity -> f64_lt (f64_of 0) low = false ->
  client_run c0 c es -> op_ok op c es ->
  exists c' es', client_step op c es = Ok (c', es') /\ client_run c0 c' es' /\
    cache_spec op (contents c) (contents c') (shown c <$> es) (shown c' <$> es').
Proof.
  intros Hnew Hcap Hlow Hrun Hop. destruct (cache_new_ok _ _ _ _ _ _ Hnew Hcap Hlow) as [H0 _].
  destruct (client_step_ok op c es (client_run_ok c0 c es H0 Hrun) Hop) as (c' & es' & E & _ & Hspec).
  exists c', es'. split_and!; [done| |done]. by eapply run_step.
Qed.

(** [C33] The cache outgrows its capacity only by what clients have. For a cache without a
    low priority part (the ratio is not positive, as in both caches of the page files), in
    every state that clients reach from the new cache with fresh addresses and charges that
    fit, the usage of a shard is the sum of the charges of its live handles
    that are not detached, and it is at most the capacity of the shard, or every handle
    of the shard is one that a client has an entry of. *)
Theorem lru_cache_bounded {T} ptr capacity num_shard_bits high low (c0 c : LRUCache T) es i s :
  cache_new ptr capacity num_shard_bits high low = Ok c0 -> 0 <= capacity -> f64_lt (f64_of 0) low = false ->
  client_run c0 c es -> lc_shards c !! i = Some s ->
  sh_usage s = total (sh_lru_high_pri s) (v_core (sview s)) /\
  (sh_usage s <= sh_capacity s \/
   forall p h, sh_heap s !! p = Some h -> p <> sh_lru_high_pri s -> exists e, e ∈ es /\ ce_shard e = i /\ ce_ptr e = p).
Proof.
  intros Hnew Hcap Hlow Hrun Hi. destruct (cache_new_ok _ _ _ _ _ _ Hnew Hcap Hlow) as [H0 _].
  destruct (ck_shards _ _ (client_run_ok c0 c es H0 Hrun) i s Hi) as [(B & L & H & Hrep & Hbd) _]. split; [apply Hrep|].
  destruct Hbd as [Hbd|Hnil]; [by left|right]. intros p h Eh Hd. apply held_inv. destruct (rep_lookup s B L H (held_by es i) p (core h) Hrep) as (_ & _ & _ & Hh); [by apply view_core_lookup|done|].
  rewrite elem_of_multiplicity. unfold handle_ok in Hh. rewrite Hnil in Hh. destruct (hc_detached (core h)); [lia|]. destruct Hh as (Hm & Hin & _).
  assert (hc_refs (core h) <> 0) by (intros E; apply Hin in E; by apply not_elem_of_nil in E). lia.
Qed.

(** A small cache, as the page store makes it. *)
Definition sample_cache : LRUCache Z := mkLRUCache [shard_new 1 10 (f64_lit 1 (-1)) (f64_of 0)] 0.
Definition sample_insert (p key charge : Z) : client_op Z := OpInsert p key (Some (100 + key)) charge OPTION_DEFAULT.
Fixpoint client_steps {T} (ops : list (client_op T)) c es : res (LRUCache T * list CacheEntry) :=
  match ops with
  | [] => Ok (c, es)
  | op :: ops => '(c, es) ← client_step op c es; client_steps ops c es
  end.

(** Three pages of charge 4 do not fit: the first one that was returned goes. *)
Example lru_evicts_oldest :
  (r ← client_steps [sample_insert 2 1 4; sample_insert 3 2 4; OpDrop 0; OpDrop 0; OpLookup 1; OpDrop 0; sample_insert 4 3 4; OpDrop 0] sample_cache [];
   Ok (contents r.1 1, contents r.1 2, contents r.1 3, sh_usage <$> lc_shards r.1, r.2)) = Ok (Some (Some 101), None, Some (Some 103), [8], []).
Proof. vm_compute. reflexivity. Qed.

Lemma sample_new : cache_new 1 10 (-1) (f64_lit 1 (-1)) (f64_of 0) = Ok sample_cache.
Proof. vm_compute. reflexivity. Qed.
Lemma sample_insert_ok p key charge : p <> 1 -> 0 <= charge < 2 ^ 64 -> op_ok (sample_insert p key charge) sample_cache [].
Proof.
  intros Hp Hc s Hs. destruct (cache_shard sample_cache (hash_key key)) as [|n]; [|done]. injection Hs as <-. cbn [sh_heap shard_new sh_usage].
  split_and!; [by apply lookup_singleton_ne|lia|lia].
Qed.

Lemma lru_cache_refines_witness : exists c' es', client_step (sample_insert 2 1 4) sample_cache [] = Ok (c', es') /\ client_run sample_cache c' es' /\
  cache_spec (sample_insert 2 1 4) (contents sample_cache) (contents c') [] (shown c' <$> es').
Proof.
  apply (lru_cache_refines 1 10 (-1) (f64_lit 1 (-1)) (f64_of 0) sample_cache sample_cache [] (sample_insert 2 1 4) sample_new); [lia|vm_compute; reflexivity|apply run_start|].
  apply sample_insert_ok; lia.
Defined.

Lemma lru_cache_bounded_witness : exists c' es' s, client_step (sample_insert 2 1 14) sample_cache [] = Ok (c', es') /\ lc_shards c' !! 0%nat = Some s /\ sh_usage s = 14 /\
  (sh_usage s <= sh_capacity s \/
   forall p h, sh_heap s !! p = Some h -> p <> sh_lru_high_pri s -> exists e, e ∈ es' /\ ce_shard e = 0%nat /\ ce_ptr e = p).
Proof.
  destruct (client_step (sample_insert 2 1 14) sample_cache []) as [[c' es']| |] eqn:E; [|vm_compute in E; done|vm_compute in E; done].
  destruct (lc_shards c' !! 0%nat) as [s|] eqn:Es; [|exfalso; vm_compute in E; injection E as <- <-; done].
  exists c', es', s. split; [done|]. split; [done|]. split; [vm_compute in E; injection E as <- <-; injection Es as <-; reflexivity|].
  apply (lru_cache_bounded 1 10 (-1) (f64_lit 1 (-1)) (f64_of 0) sample_cache c' es' 0 s sample_new); [lia|vm_compute; reflexivity| |done].
  eapply run_step; [apply run_start| |exact E]. apply sample_insert_ok; lia.
Defined.

(** With a low priority part, returning a page as old can turn the two pointers around:
    the demotions move the bottom pointer to the page, and the low pointer stays behind
    it. A page that is returned as recent then lies before older ones, and goes first. *)
Definition low_cache : LRUCache Z := mkLRUCache [shard_new 1 10 (f64_of 0) (f64_lit 1 (-3))] 0.
Definition cold_insert (p key charge : Z) : client_op Z := OpInsert p key (Some (100 + key)) charge OPTION_REFILL_COLD_WHEN_NOT_FULL.
Example low_part_inverted :
  (r ← client_steps [cold_insert 2 1 4; OpDrop 0; sample_insert 3 2 1; OpDrop 0; sample_insert 4 3 6; OpDrop 0] low_cache [];
   Ok (contents r.1 1, contents r.1 2, contents r.1 3)) = Ok (Some (Some 101), None, Some (Some 103)).
Proof. vm_compute. reflexivity. Qed.

(** [C34] Eviction ends. In every state that clients reach from a new cache without a low
    priority part, for every shard and the charge of a page that fits, the loop that makes
    room stops after at most as many rounds as the shard has handles, whether it finds room
    or not. It takes handles from the old end of the list only, none that a client has an
    entry of, and none at all if there is room; afterwards there is room or the list is
    empty, the shard is well formed, and the entries of clients show what they did. *)
Theorem evict_terminates {T} ptr capacity num_shard_bits high low (c0 c : LRUCache T) es i s charge fuel :
  cache_new ptr capacity num_shard_bits high low = Ok c0 -> 0 <= capacity -> f64_lt (f64_of 0) low = false ->
  client_run c0 c es -> lc_shards c !! i = Some s -> 0 <= charge -> sh_usage s + charge < 2 ^ 64 -> (size (sh_heap s) <= fuel)%nat ->
  exists s' B L H B' L' H' evicted,
    evict_loop fuel charge s = (Ok tt, s') /\ shard_rep s B L H (held_by es i) /\ shard_rep s' B' L' H' (held_by es i) /\
    B ++ L ++ H = evicted ++ B' ++ L' ++ H' /\ (sh_usage s' + charge <= sh_capacity s \/ B' ++ L' ++ H' = []) /\
    (forall e, e ∈ es -> ce_shard e = i -> (ce_ptr e ∉ evicted) /\ entry s' (ce_ptr e) = entry s (ce_ptr e)) /\
    (sh_usage s + charge <= sh_capacity s -> s' = s).
Proof.
  intros Hnew Hcap Hlow Hrun Hi Hc Hb Hf. destruct (cache_new_ok _ _ _ _ _ _ Hnew Hcap Hlow) as [H0 _].
  destruct (ck_shards _ _ (client_run_ok c0 c es H0 Hrun) i s Hi) as [(B & L & H & Hrep & _) _].
  pose proof (page_part_length _ _ _ _ (sr_page _ _ _ _ _ Hrep)) as Hlen.
  destruct (evict_loop_ok fuel charge s B L H (held_by es i) Hrep) as (s' & B' & L' & H' & old & E & Hr & Eo & _ & _ & Hk & _ & Hroom & _); [lia|done|done|].
  exists s', B, L, H, B', L', H', old. split_and!; try done.
  - intros e He He'. pose proof (held_all es i e He He') as Hh. split; [|by apply Hk]. intros Hold.
    destruct (co_held _ _ _ _ _ _ (sr_core _ _ _ _ _ Hrep) _ Hh) as [Hd [x Hx]].
    assert (Hall : ce_ptr e ∈ B ++ L ++ H) by (rewrite Eo; by apply elem_of_app; left).
    pose proof (co_handle _ _ _ _ _ _ (sr_core _ _ _ _ _ Hrep) _ _ Hx Hd) as Hok. unfold handle_ok in Hok.
    destruct (hc_detached x); [by destruct Hok as (_ & _ & ? & _)|]. destruct Hok as (Hm & Hin & _). apply Hin in Hall. rewrite elem_of_multiplicity in Hh. lia.
  - intros Hroom'. destruct fuel as [|fuel]; [lia|]. rewrite (evict_loop_room fuel charge s B L H (held_by es i)) in E by done. by injection E.
Qed.

(** One page of charge 4 in a shard of 10, which a client has dropped: a page of 8 takes
    its room, and a page of 20 takes it in vain. *)
Lemma evict_terminates_witness : exists c es s, client_steps [sample_insert 2 1 4; OpDrop 0] sample_cache [] = Ok (c, es) /\ lc_shards c !! 0%nat = Some s /\ sh_usage s = 4 /\
  exists s' B L H, evict_loop 2 20 s = (Ok tt, s') /\ shard_rep s' B L H (held_by es 0) /\ (sh_usage s' + 20 <= 10 \/ B ++ L ++ H = []) /\ sh_usage s' = 0.
Proof.
  destruct (client_step (sample_insert 2 1 4) sample_cache []) as [[c1 es1]| |] eqn:E1; [|vm_compute in E1; done|vm_compute in E1; done].
  destruct (client_step (OpDrop 0) c1 es1) as [[c es]| |] eqn:E2; [|vm_compute in E1; injection E1 as <- <-; vm_compute in E2; done|vm_compute in E1; injection E1 as <- <-; vm_compute in E2; done].
  destruct (lc_shards c !! 0%nat) as [s|] eqn:Es; [|exfalso; vm_compute in E1; injection E1 as <- <-; vm_compute in E2; injection E2 as <- <-; done].
  exists c, es, s. split; [cbn [client_steps]; rewrite E1; cbn [mbind res_bind]; by rewrite E2|]. split; [done|].
  assert (Hs : sh_usage s = 4 /\ size (sh_heap s) = 2%nat /\ sh_capacity s = 10 /\ sh_usage (evict_loop 2 20 s).2 = 0).
  { vm_compute in E1. injection E1 as <- <-. vm_compute in E2. injection E2 as <- <-. injection Es as <-. vm_compute. done. }
  destruct Hs as (Hu & Hsz & Hcap & Hu'). split; [done|].
  destruct (evict_terminates 1 10 (-1) (f64_lit 1 (-1)) (f64_of 0) sample_cache c es 0 s 20 2 sample_new) as (s' & B & L & H & B' & L' & H' & old & E & _ & Hr & _ & Hroom & _);
    [lia|vm_compute; reflexivity| |exact Es|lia|lia|lia|].
  - eapply (run_step _ (OpDrop 0)); [|done|exact E2]. eapply run_step; [apply run_start| |exact E1]. apply sample_insert_ok; lia.
  - exists s', B', L', H'. split; [exact E|]. split; [exact Hr|]. split; [by rewrite <- Hcap|]. by rewrite E in Hu'.
Defined.
