(* ===== verification/ClockWord.v ===== *)
(** * The meta word of the clock cache ([page_store/cache/clock.rs])

    One 64-bit word per slot: the acquire counter in bits 0 to 29, the release counter
    in bits 30 to 59, and the state of the slot above them. The operations of the cache
    change the word by single atomic additions and masks; the lemmas say what each of
    them is on the three fields ([meta_word]). *)

From stdpp Require Import base numbers.
From Stdlib Require Import ZArith Lia.
From S2P Require Import Prelude.

Definition COUNTER_NUM_BITS : Z := 30.
Definition COUNTER_MASK : Z := Z.shiftl 1 COUNTER_NUM_BITS - 1.
Definition ACQUIRE_COUNTER_SHIFT : Z := 0.
Definition ACQUIRE_INCREMENT : Z := Z.shiftl 1 ACQUIRE_COUNTER_SHIFT.
Definition RELEASE_COUNTER_SHIFT : Z := COUNTER_NUM_BITS.
Definition RELEASE_INCREMENT : Z := Z.shiftl 1 RELEASE_COUNTER_SHIFT.
Definition STATE_SHIFT : Z := 2 * COUNTER_NUM_BITS.

Definition STATE_OCCUPIED_BIT : Z := 4.
Definition STATE_SHAREABLE_BIT : Z := 2.
Definition STATE_VISIBLE_BIT : Z := 1.

Definition STATE_EMPTY : Z := 0.
Definition STATE_CONSTRUCTION : Z := STATE_OCCUPIED_BIT.
Definition STATE_INVISIBLE : Z := Z.lor STATE_OCCUPIED_BIT STATE_SHAREABLE_BIT.
Definition STATE_VISIBLE : Z := Z.lor (Z.lor STATE_OCCUPIED_BIT STATE_SHAREABLE_BIT) STATE_VISIBLE_BIT.

Definition HIGH_COUNT_DOWN : Z := 3.
Definition LOW_COUNT_DOWN : Z := 2.
Definition MAX_COUNT_DOWN : Z := HIGH_COUNT_DOWN.

(** [(meta >> STATE_SHIFT) as u8] and the two counters. *)
Definition meta_state (meta : Z) : Z := wrap8 (Z.shiftr meta STATE_SHIFT).
Definition acquire_count (meta : Z) : Z := Z.land (Z.shiftr meta ACQUIRE_COUNTER_SHIFT) COUNTER_MASK.
Definition release_count (meta : Z) : Z := Z.land (Z.shiftr meta RELEASE_COUNTER_SHIFT) COUNTER_MASK.
Definition ref_count (meta : Z) : Z := wrap64 (acquire_count meta - release_count meta).

(** [!x] on 64 bits. *)
Definition not64 (x : Z) : Z := u64_max - x.

(** The word that [correct_near_overflow] leaves, from the word before the release and
    the word now. *)
Definition COUNTER_TOP_BIT : Z := Z.shiftl 1 (COUNTER_NUM_BITS - 1).
Definition CLEAR_BITS : Z := Z.lor (Z.shiftl COUNTER_TOP_BIT ACQUIRE_COUNTER_SHIFT) (Z.shiftl COUNTER_TOP_BIT RELEASE_COUNTER_SHIFT).
Definition CHECK_BITS : Z := Z.shiftl (Z.lor COUNTER_TOP_BIT (MAX_COUNT_DOWN + 1)) RELEASE_COUNTER_SHIFT.
Definition correct_near_overflow (old_meta meta : Z) : Z :=
  if 0 <? Z.land old_meta CHECK_BITS then Z.land meta (not64 CLEAR_BITS) else meta.

(** ** The word as a record *)

Definition meta_word (st rel acq : Z) : Z := st * 2 ^ 60 + rel * 2 ^ 30 + acq.
Definition word_ok (st rel acq : Z) : Prop := 0 <= st < 16 /\ 0 <= rel < 2 ^ 30 /\ 0 <= acq < 2 ^ 30.

Lemma meta_word_fits st rel acq : word_ok st rel acq -> fits 64 (meta_word st rel acq).
Proof. unfold word_ok, fits, meta_word. lia. Qed.

(** Every 64-bit word is the packing of its fields. *)
Lemma meta_word_split m : fits 64 m ->
  m = meta_word (m / 2 ^ 60) (m / 2 ^ 30 mod 2 ^ 30) (m mod 2 ^ 30) /\ word_ok (m / 2 ^ 60) (m / 2 ^ 30 mod 2 ^ 30) (m mod 2 ^ 30).
Proof. unfold fits, word_ok, meta_word. intros. div_lia. Qed.

Lemma state_word st rel acq : word_ok st rel acq -> meta_state (meta_word st rel acq) = st.
Proof.
  unfold word_ok, meta_state, meta_word, STATE_SHIFT, COUNTER_NUM_BITS, wrap. intros. rewrite Z.shiftr_div_pow2 by lia.
  change (2 ^ (2 * 30)) with (2 ^ 60). change (2 ^ 8) with 256. replace ((st * 2 ^ 60 + rel * 2 ^ 30 + acq) / 2 ^ 60) with st; [apply Z.mod_small; lia|].
  apply (Z.div_unique _ _ _ (rel * 2 ^ 30 + acq)); lia.
Qed.
Lemma acquire_word st rel acq : word_ok st rel acq -> acquire_count (meta_word st rel acq) = acq.
Proof.
  unfold word_ok, acquire_count, meta_word. intros. change COUNTER_MASK with (Z.ones 30). rewrite Z.land_ones, Z.shiftr_0_r by lia.
  symmetry. apply (Z.mod_unique _ _ (st * 2 ^ 30 + rel)); lia.
Qed.
Lemma release_word st rel acq : word_ok st rel acq -> release_count (meta_word st rel acq) = rel.
Proof.
  unfold word_ok, release_count, meta_word, RELEASE_COUNTER_SHIFT, COUNTER_NUM_BITS. intros. change COUNTER_MASK with (Z.ones 30).
  rewrite Z.land_ones, Z.shiftr_div_pow2 by lia. replace ((st * 2 ^ 60 + rel * 2 ^ 30 + acq) / 2 ^ 30) with (st * 2 ^ 30 + rel).
  - symmetry. apply (Z.mod_unique _ _ st); lia.
  - apply (Z.div_unique _ _ _ acq); lia.
Qed.
Lemma ref_count_word st rel acq : word_ok st rel acq -> ref_count (meta_word st rel acq) = wrap64 (acq - rel).
Proof. intros. unfold ref_count. by rewrite acquire_word, release_word. Qed.

(** ** The atomic operations *)

Lemma word_acquire st rel acq k : word_ok st rel acq -> 0 <= acq + k < 2 ^ 30 ->
  wrap64 (meta_word st rel acq + k) = meta_word st rel (acq + k).
Proof. unfold word_ok. intros. rewrite wrap_small; unfold fits, meta_word; lia. Qed.
Lemma word_unacquire st rel acq k : word_ok st rel acq -> 0 <= acq - k < 2 ^ 30 ->
  wrap64 (meta_word st rel acq - k) = meta_word st rel (acq - k).
Proof. unfold word_ok. intros. rewrite wrap_small; unfold fits, meta_word; lia. Qed.
Lemma word_release st rel acq : word_ok st rel acq -> rel + 1 < 2 ^ 30 ->
  wrap64 (meta_word st rel acq + RELEASE_INCREMENT) = meta_word st (rel + 1) acq.
Proof. unfold word_ok. change RELEASE_INCREMENT with (2 ^ 30). intros. rewrite wrap_small; unfold fits, meta_word; lia. Qed.

(** Adding a part that the other number does not have is a bitwise or. *)
Lemma lor_high a b k : 0 <= k -> 0 <= b < 2 ^ k -> Z.lor (a * 2 ^ k) b = a * 2 ^ k + b.
Proof.
  intros Hk Hb. symmetry. rewrite <- Z.shiftl_mul_pow2 by done. apply Z.add_nocarry_lor, Z.bits_inj'. intros i Hi.
  rewrite Z.bits_0, Z.land_spec. destruct (Z.ltb_spec i k).
  - by rewrite Z.shiftl_spec_low.
  - destruct (decide (b = 0)) as [->|]; [by rewrite Z.bits_0, andb_false_r|].
    rewrite (Z.bits_above_log2 b), andb_false_r; [done|lia|].
    apply Z.lt_le_trans with k; [apply Z.log2_lt_pow2; lia|done].
Qed.
Lemma lor_state st st' low : 0 <= low < 2 ^ 60 ->
  Z.lor (st * 2 ^ 60 + low) (Z.shiftl st' STATE_SHIFT) = Z.lor st st' * 2 ^ 60 + low.
Proof.
  intros Hl. rewrite <- !lor_high by lia. change STATE_SHIFT with 60. rewrite Z.shiftl_mul_pow2 by lia.
  rewrite <- Z.lor_assoc, (Z.lor_comm low), Z.lor_assoc. f_equal. rewrite <- !Z.shiftl_mul_pow2 by lia. symmetry. apply Z.shiftl_lor.
Qed.
(** [fetch_or] of a state. *)
Lemma word_or st st' rel acq : word_ok st rel acq ->
  Z.lor (meta_word st rel acq) (Z.shiftl st' STATE_SHIFT) = meta_word (Z.lor st st') rel acq.
Proof. unfold word_ok, meta_word. intros. rewrite <- !Z.add_assoc. apply lor_state. lia. Qed.

Lemma land_not64 m b : fits 64 m -> 0 <= b -> b <= u64_max -> Z.land m (not64 b) = Z.ldiff m b.
Proof.
  unfold fits, not64. intros Hm Hb1 Hb2. assert (E : u64_max - b = Z.ldiff (Z.ones 64) b).
  { change u64_max with (Z.ones 64). apply Z.sub_nocarry_ldiff, Z.bits_inj'. intros i Hi. rewrite Z.ldiff_spec, Z.bits_0.
    destruct (Z.ltb_spec i 64); [rewrite Z.ones_spec_low by lia; by rewrite andb_false_r|].
    destruct (decide (b = 0)) as [->|]; [by rewrite Z.bits_0|]. rewrite (Z.bits_above_log2 b); [done|lia|].
    apply Z.lt_le_trans with 64; [apply Z.log2_lt_pow2; [lia|]; unfold u64_max in *; lia|done]. }
  rewrite E. apply Z.bits_inj'. intros i Hi. rewrite Z.land_spec, !Z.ldiff_spec.
  destruct (Z.ltb_spec i 64); [rewrite Z.ones_spec_low by lia; done|].
  assert (Z.testbit m i = false) as ->; [|done]. destruct (decide (m = 0)) as [->|]; [apply Z.bits_0|].
  apply Z.bits_above_log2; [lia|]. apply Z.lt_le_trans with 64; [apply Z.log2_lt_pow2; lia|done].
Qed.
(** [fetch_and] that clears a state bit. *)
Lemma word_clear_state st b rel acq : word_ok st rel acq -> 0 <= b < 16 ->
  Z.land (meta_word st rel acq) (not64 (Z.shiftl b STATE_SHIFT)) = meta_word (Z.ldiff st b) rel acq.
Proof.
  intros Hw Hb. change STATE_SHIFT with 60. rewrite Z.shiftl_mul_pow2 by lia. rewrite land_not64; [|by apply meta_word_fits|lia|unfold u64_max; lia].
  unfold word_ok in Hw. unfold meta_word. rewrite <- !Z.add_assoc. remember (rel * 2 ^ 30 + acq) as low. rewrite <- !lor_high by lia.
  rewrite <- !Z.shiftl_mul_pow2 by lia. apply Z.bits_inj'. intros i Hi. rewrite Z.ldiff_spec, !Z.lor_spec. destruct (Z.ltb_spec i 60).
  - by rewrite !Z.shiftl_spec_low, andb_true_r by lia.
  - rewrite !Z.shiftl_spec_high by lia. rewrite Z.ldiff_spec. assert (Z.testbit low i = false) as ->; [|by rewrite !orb_false_r].
    destruct (decide (low = 0)) as [->|]; [apply Z.bits_0|]. apply Z.bits_above_log2; [lia|].
    apply Z.lt_le_trans with 60; [apply Z.log2_lt_pow2; lia|done].
Qed.
(** Below 2^29 there is nothing to correct. *)
Lemma correct_small old st rel acq : word_ok st rel acq -> rel < 2 ^ 29 -> acq < 2 ^ 29 ->
  correct_near_overflow old (meta_word st rel acq) = meta_word st rel acq.
Proof.
  intros Hw Hr Ha. unfold correct_near_overflow. destruct (_ <? _); [|done]. rewrite land_not64; [|by apply meta_word_fits|done|done].
  unfold word_ok in Hw. apply Z.bits_inj'. intros i Hi. rewrite Z.ldiff_spec. change CLEAR_BITS with (Z.lor (Z.shiftl 1 29) (Z.shiftl 1 59)).
  rewrite Z.lor_spec, !Z.shiftl_1_l, !Z.pow2_bits_eqb by lia. destruct (Z.eqb_spec 29 i) as [<-|].
  { replace (meta_word st rel acq) with ((st * 2 ^ 30 + rel) * 2 ^ 30 + acq) by (unfold meta_word; lia).
    rewrite <- lor_high, Z.lor_spec, Z.mul_pow2_bits_low by lia. cbn [orb negb]. rewrite andb_false_r.
    destruct (decide (acq = 0)) as [->|]; [done|]. rewrite Z.bits_above_log2; [done|lia|apply Z.log2_lt_pow2; lia]. }
  destruct (Z.eqb_spec 59 i) as [<-|]; [|cbn; by rewrite andb_true_r]. cbn [orb negb]. rewrite andb_false_r.
  unfold meta_word. rewrite <- Z.add_assoc, <- lor_high, Z.lor_spec, Z.mul_pow2_bits_low by lia. cbn [orb].
  destruct (decide (rel * 2 ^ 30 + acq = 0)) as [->|]; [done|]. rewrite Z.bits_above_log2; [done|lia|apply Z.log2_lt_pow2; lia].
Qed.
