(* ===== verification/ClockCache.v ===== *)
(** * The clock cache ([page_store/cache/clock.rs], [ClockHandle] of [cache/mod.rs])

    An open-addressed table of slots with double hashing. A slot counts the entries
    whose probe sequence passed over it ([displacements]), so that a lookup may stop at
    a slot nothing was displaced from; eviction goes round the slots like the hand of a
    clock. A pointer to a handle is a slot of the table or a handle of its own (a
    detached entry); the null pointer is [None]. The operations of the table are those
    of one thread: each compare-and-swap that is retried finds the word as it was read. *)

From stdpp Require Import base numbers list gmap.
From Stdlib Require Import ZArith Lia.
From S2P Require Import Prelude Float64 CacheHandle ClockWord.

(** ** Handles *)

Inductive handle_ptr := PtrSlot (i : nat) | PtrBox (p : Z).
#[global] Instance handle_ptr_eq_dec : EqDecision handle_ptr.
Proof. solve_decision. Defined.
#[global] Instance handle_ptr_countable : Countable handle_ptr.
Proof.
  refine (inj_countable' (λ q, match q with PtrSlot i => inl i | PtrBox p => inr p end) (λ x, match x with inl i => PtrSlot i | inr p => PtrBox p end) _).
  by intros [].
Defined.

Record ClockHandle (T : Type) := mkClockHandle {
  ch_key : Z;
  ch_hash : Z;
  ch_value : option T;
  ch_charge : Z;
  ch_meta : Z;
  ch_displacements : Z;
  ch_detached : bool;
}.
Arguments mkClockHandle {T} _ _ _ _ _ _ _.
Arguments ch_key {T} _.
Arguments ch_hash {T} _.
Arguments ch_value {T} _.
Arguments ch_charge {T} _.
Arguments ch_meta {T} _.
Arguments ch_displacements {T} _.
Arguments ch_detached {T} _.

(** The constants of a table. *)
Record ClockConfig := mkClockConfig {
  cc_length_bits : Z;
  cc_length_bits_mask : Z;
  cc_occupancy_limit : Z;
  cc_strict_capacity_limit : bool;
}.

(** [ct_boxes] is the memory of the detached entries. *)
Record ClockCacheHandleTable (T : Type) := mkClockTable {
  ct_config : ClockConfig;
  ct_handles : list (ClockHandle T);
  ct_boxes : gmap Z (ClockHandle T);
  ct_occupancy : Z;
  ct_usage : Z;
  ct_detached_usage : Z;
  ct_clock_pointer : Z;
  ct_stats : CacheStats;
}.
Arguments mkClockTable {T} _ _ _ _ _ _ _ _.
Arguments ct_config {T} _.
Arguments ct_handles {T} _.
Arguments ct_boxes {T} _.
Arguments ct_occupancy {T} _.
Arguments ct_usage {T} _.
Arguments ct_detached_usage {T} _.
Arguments ct_clock_pointer {T} _.
Arguments ct_stats {T} _.

(** [mem::size_of::<Handle<T>>()], which [new] asserts. *)
Definition HANDLE_SIZE : Z := 64.
Definition LOAD_FACTOR : f64 := f64_div (f64_of 7) (f64_of 10).
Definition STRICT_LOAD_FACTOR : f64 := f64_div (f64_of 84) (f64_of 100).

Definition stats_add_passive_evict (n : Z) (s : CacheStats) : CacheStats :=
  mkCacheStats (cst_lookup_hit s) (cst_lookup_miss s) (cst_insert s) (cst_active_evict s) (wrap64 (cst_passive_evict s + n)).

(** ** Probing *)

Definition remix1 (hash : Z) : Z := wrap32 (Z.shiftr (hash * 0xbc9f1d35) 29).
Definition remix2 (hash : Z) : Z := wrap32 (Z.shiftr (hash * 0x7a2bb9d5) 29).
Definition mod_table_size (mask x : Z) : Z := Z.land x mask.

Section find_slot.
Context {S : Type} (match_fn abort_fn : nat -> St S bool) (update_fn : nat -> St S unit) (mask : Z).

Fixpoint find_slot_loop (fuel : nat) (increment probe current : Z) : St S (option nat * Z) :=
  match fuel with
  | O => lift Panic
  | Datatypes.S fuel =>
      if probe <=? mask then
        matched ← match_fn (Z.to_nat current);
        if matched : bool then mret (Some (Z.to_nat current), wrap32 (probe + 1)) else
        abort ← abort_fn (Z.to_nat current);
        if abort : bool then mret (None, probe) else
        _ ← update_fn (Z.to_nat current);
        find_slot_loop fuel increment (wrap32 (probe + 1)) (mod_table_size mask (wrap32 (current + increment)))
      else mret (None, probe)
  end.
Definition find_slot (hash : Z) : St S (option nat * Z) :=
  let probe := 0 in
  let base := mod_table_size mask (remix1 hash) in
  let increment := Z.lor (remix2 hash) 1 in
  find_slot_loop (Z.to_nat (mask + 2)) increment probe (mod_table_size mask (wrap32 (base + probe * increment))).
End find_slot.

(** ** The table *)

Section table.
Context {T : Type}.
Local Abbreviation Handle := (ClockHandle T).
Local Abbreviation Table := (ClockCacheHandleTable T).
Local Abbreviation M := (St Table).
Implicit Types (h : Handle) (t : Table) (q : handle_ptr).

Definition clock_handle_default : Handle := mkClockHandle 0 0 None 0 0 0 false.
Definition clock_handle_insert (key : Z) (val : option T) (hash charge : Z) h : Handle :=
  mkClockHandle key hash val charge (ch_meta h) (ch_displacements h) (ch_detached h).
Definition with_meta (m : Z) h : Handle :=
  mkClockHandle (ch_key h) (ch_hash h) (ch_value h) (ch_charge h) m (ch_displacements h) (ch_detached h).
Definition with_displacements (d : Z) h : Handle :=
  mkClockHandle (ch_key h) (ch_hash h) (ch_value h) (ch_charge h) (ch_meta h) d (ch_detached h).

Definition with_handles (hs : list Handle) t : Table :=
  mkClockTable (ct_config t) hs (ct_boxes t) (ct_occupancy t) (ct_usage t) (ct_detached_usage t) (ct_clock_pointer t) (ct_stats t).
Definition with_boxes (bs : gmap Z Handle) t : Table :=
  mkClockTable (ct_config t) (ct_handles t) bs (ct_occupancy t) (ct_usage t) (ct_detached_usage t) (ct_clock_pointer t) (ct_stats t).
Definition with_occupancy (n : Z) t : Table :=
  mkClockTable (ct_config t) (ct_handles t) (ct_boxes t) n (ct_usage t) (ct_detached_usage t) (ct_clock_pointer t) (ct_stats t).
Definition with_usage (n : Z) t : Table :=
  mkClockTable (ct_config t) (ct_handles t) (ct_boxes t) (ct_occupancy t) n (ct_detached_usage t) (ct_clock_pointer t) (ct_stats t).
Definition with_detached_usage (n : Z) t : Table :=
  mkClockTable (ct_config t) (ct_handles t) (ct_boxes t) (ct_occupancy t) (ct_usage t) n (ct_clock_pointer t) (ct_stats t).
Definition with_clock_pointer (n : Z) t : Table :=
  mkClockTable (ct_config t) (ct_handles t) (ct_boxes t) (ct_occupancy t) (ct_usage t) (ct_detached_usage t) n (ct_stats t).
Definition with_stats (st : CacheStats) t : Table :=
  mkClockTable (ct_config t) (ct_handles t) (ct_boxes t) (ct_occupancy t) (ct_usage t) (ct_detached_usage t) (ct_clock_pointer t) st.

Definition table_mask t : Z := cc_length_bits_mask (ct_config t).
Definition table_size t : Z := wrap64 (Z.shiftl 1 (cc_length_bits (ct_config t))).

(** Reading and writing through a pointer. *)
Definition slot_lookup q t : option Handle :=
  match q with PtrSlot i => ct_handles t !! i | PtrBox p => ct_boxes t !! p end.
Definition slot_update q h t : Table :=
  match q with
  | PtrSlot i => with_handles (<[i := h]> (ct_handles t)) t
  | PtrBox p => with_boxes (<[p := h]> (ct_boxes t)) t
  end.
Definition clock_deref q : M Handle := λ t, (expect (slot_lookup q t), t).
Definition clock_assign q (f : Handle -> Handle) : M unit := λ t,
  match slot_lookup q t with Some h => (Ok tt, slot_update q (f h) t) | None => (Panic, t) end.

(** [h.meta.fetch_..], which gives the word before, and [compare_exchange]. *)
Definition fetch_meta q (f : Z -> Z) : M Z :=
  h ← clock_deref q;
  _ ← clock_assign q (λ h, with_meta (f (ch_meta h)) h);
  mret (ch_meta h).
Definition exchange_meta q (current new : Z) : M bool :=
  h ← clock_deref q;
  if ch_meta h =? current then _ ← clock_assign q (with_meta new); mret true else mret false.
(** [h.displacements.fetch_..]. *)
Definition fetch_displacements q (f : Z -> Z) : M unit := clock_assign q (λ h, with_displacements (f (ch_displacements h)) h).

(** The counters of the table. *)
Definition fetch_occupancy (f : Z -> Z) : M Z := λ t, (Ok (ct_occupancy t), with_occupancy (wrap32 (f (ct_occupancy t))) t).
Definition fetch_usage (f : Z -> Z) : M Z := λ t, (Ok (ct_usage t), with_usage (wrap64 (f (ct_usage t))) t).
Definition fetch_detached_usage (f : Z -> Z) : M Z := λ t, (Ok (ct_detached_usage t), with_detached_usage (wrap64 (f (ct_detached_usage t))) t).
Definition fetch_clock_pointer (f : Z -> Z) : M Z := λ t, (Ok (ct_clock_pointer t), with_clock_pointer (wrap64 (f (ct_clock_pointer t))) t).
Definition bump (f : CacheStats -> CacheStats) : M unit := modify (λ t, with_stats (f (ct_stats t)) t).

Definition clock_table_new (length_bits : Z) (strict_capacity_limit charge_metadata : bool) : Table :=
  let length_bits_mask := wrap32 (Z.shiftl 1 length_bits - 1) in
  let occupancy_limit := Z.min u32_max (f64_to_usize (f64_mul (f64_of (Z.shiftl 1 length_bits)) STRICT_LOAD_FACTOR)) in
  let handles := replicate (Z.to_nat (Z.shiftl 1 length_bits)) clock_handle_default in
  let usage := if charge_metadata then Z.of_nat (length handles) * HANDLE_SIZE else 0 in
  mkClockTable (mkClockConfig length_bits length_bits_mask occupancy_limit strict_capacity_limit) handles ∅ 0 usage 0 0 cache_stats_default.

(** ** Lookup *)

Definition no_update {S} (_ : nat) : St S unit := mret tt.
Definition not_displaced (i : nat) : M bool := h ← clock_deref (PtrSlot i); mret (ch_displacements h =? 0).

Definition lookup_match (key : Z) (i : nat) : M bool :=
  let hp := PtrSlot i in
  old_meta ← fetch_meta hp (λ m, wrap64 (m + ACQUIRE_INCREMENT));
  if meta_state old_meta =? STATE_VISIBLE then
    h ← clock_deref hp;
    if ch_key h =? key then mret true
    else _ ← fetch_meta hp (λ m, wrap64 (m - ACQUIRE_INCREMENT)); mret false
  else if meta_state old_meta =? STATE_INVISIBLE then
    _ ← fetch_meta hp (λ m, wrap64 (m - ACQUIRE_INCREMENT)); mret false
  else mret false.

Definition clock_lookup (key hash : Z) : M (option handle_ptr) :=
  mask ← gets table_mask;
  '(slot, _) ← find_slot (lookup_match key) not_displaced no_update mask hash;
  n ← gets (λ t, length (ct_handles t));
  match slot with
  | None => _ ← bump inc_lookup_miss; mret None
  | Some i =>
      if bool_decide (i < n)%nat then _ ← bump inc_lookup_hit; mret (Some (PtrSlot i))
      else _ ← bump inc_lookup_miss; mret None
  end.

(** ** Freeing slots *)

(** The displacements on the way to the slot [h] of an entry that leaves it. *)
Fixpoint rollback_loop (fuel : nat) (mask increment : Z) q (current : Z) : M unit :=
  match fuel with
  | O => lift Panic
  | S fuel =>
      if bool_decide (PtrSlot (Z.to_nat current) = q) then mret tt else
      _ ← fetch_displacements (PtrSlot (Z.to_nat current)) (λ d, wrap32 (d - 1));
      rollback_loop fuel mask increment q (mod_table_size mask (wrap32 (current + increment)))
  end.
Definition rollback (hash : Z) q : M unit :=
  mask ← gets table_mask;
  rollback_loop (Z.to_nat (mask + 1)) mask (Z.lor (remix2 hash) 1) q (mod_table_size mask (remix1 hash)).

Definition free_data_mark_empty q : M unit :=
  meta ← fetch_meta q (λ _, 0);
  lift (rassert (meta_state meta =? STATE_CONSTRUCTION)).

Definition reclaim_entry_usage (total_charge : Z) : M unit :=
  old_occupancy ← fetch_occupancy (λ n, n - 1);
  _ ← lift (rassert (0 <? old_occupancy));
  old_usage ← fetch_usage (λ n, n - total_charge);
  lift (rassert (0 <? old_usage)).

(** ** Eviction *)

(** Whether the slot was taken for eviction. *)
Definition clock_update q : M bool :=
  h ← clock_deref q;
  let meta := ch_meta h in
  let acquired := acquire_count meta in
  let released := release_count meta in
  if negb (acquired =? released) then mret false
  else if Z.land (Z.shiftr meta STATE_SHIFT) STATE_SHAREABLE_BIT =? 0 then mret false
  else if (meta_state meta =? STATE_INVISIBLE) && (0 <? acquired) then
    let new_count := Z.min (acquired - 1) (MAX_COUNT_DOWN - 1) in
    let new_meta := Z.lor (Z.lor (Z.shiftl STATE_VISIBLE STATE_SHIFT) (Z.shiftl new_count RELEASE_COUNTER_SHIFT)) (Z.shiftl new_count ACQUIRE_COUNTER_SHIFT) in
    _ ← exchange_meta q meta new_meta;
    mret false
  else exchange_meta q meta (Z.shiftl STATE_CONSTRUCTION STATE_SHIFT).

Definition STEP_SIZE : Z := 4.
(** The slots of one move of the hand, with what was evicted so far. *)
Fixpoint evict_slots (steps : list Z) (old_clock_pointer evicted_charge evicted_count : Z) : M (Z * Z) :=
  match steps with
  | [] => mret (evicted_charge, evicted_count)
  | i :: steps =>
      mask ← gets table_mask;
      let hp := PtrSlot (Z.to_nat (mod_table_size mask (wrap32 (wrap64 (old_clock_pointer + i))))) in
      evicting ← clock_update hp;
      if evicting : bool then
        h ← clock_deref hp;
        _ ← rollback (ch_hash h) hp;
        _ ← free_data_mark_empty hp;
        evict_slots steps old_clock_pointer (wrap64 (evicted_charge + ch_charge h)) (wrap64 (evicted_count + 1))
      else evict_slots steps old_clock_pointer evicted_charge evicted_count
  end.
Fixpoint evict_loop (fuel : nat) (requested_charge max_clock_pointer old_clock_pointer evicted_charge evicted_count : Z) : M (Z * Z) :=
  match fuel with
  | O => lift Panic
  | S fuel =>
      '(evicted_charge, evicted_count) ← evict_slots [0; 1; 2; 3] old_clock_pointer evicted_charge evicted_count;
      if requested_charge <=? evicted_charge then mret (evicted_charge, evicted_count)
      else if max_clock_pointer <=? old_clock_pointer then mret (evicted_charge, evicted_count)
      else
        old_clock_pointer ← fetch_clock_pointer (λ c, c + STEP_SIZE);
        evict_loop fuel requested_charge max_clock_pointer old_clock_pointer evicted_charge evicted_count
  end.
(** Three times round the table, and one move more. *)
Definition evict_fuel (length_bits : Z) : nat := Z.to_nat (Z.shiftl MAX_COUNT_DOWN length_bits / STEP_SIZE + 2).
Definition clock_evict (requested_charge : Z) : M (Z * Z) :=
  _ ← lift (rassert (0 <? requested_charge));
  bits ← gets (λ t, cc_length_bits (ct_config t));
  old_clock_pointer ← fetch_clock_pointer (λ c, c + STEP_SIZE);
  let max_clock_pointer := wrap64 (old_clock_pointer + Z.shiftl MAX_COUNT_DOWN bits) in
  evict_loop (evict_fuel bits) requested_charge max_clock_pointer old_clock_pointer 0 0.

(** ** Charging an insertion *)

Definition need_charge_non_strict (old_usage total_charge capacity : Z) : Z :=
  if (wrap64 (old_usage + total_charge) <=? capacity) || (old_usage <? total_charge) then 0
  else if capacity <? old_usage then wrap64 (total_charge + (Z.min (capacity / 1024) total_charge + 1))
  else total_charge.

Definition charge_usage_non_strict (total_charge capacity : Z) (need_evict_for_occupancy : bool) : M bool :=
  old_usage ← gets ct_usage;
  let need_evict_charge := need_charge_non_strict old_usage total_charge capacity in
  let need_evict_charge := if need_evict_for_occupancy && (need_evict_charge =? 0) then 1 else need_evict_charge in
  evicted ← (if 0 <? need_evict_charge then
               '(evicted_charge, evicted_count) ← clock_evict need_evict_charge;
               _ ← bump (stats_add_passive_evict evicted_count);
               if need_evict_for_occupancy && (evicted_count =? 0)
               then _ ← lift (rassert (evicted_charge =? 0)); mret None
               else _ ← fetch_occupancy (λ n, n - wrap32 evicted_count); mret (Some evicted_charge)
             else mret (Some 0));
  match evicted with
  | None => mret false
  | Some evicted_charge =>
      _ ← (if evicted_charge <? total_charge then fetch_usage (λ n, n + (total_charge - evicted_charge))
           else fetch_usage (λ n, n - (evicted_charge - total_charge)));
      usage ← gets ct_usage;
      _ ← lift (rassert (usage <? u64_max / 2));
      mret true
  end.

(** Grabs the capacity there is; the exchange of one thread succeeds. *)
Definition grab_usage (total_charge capacity : Z) : M (Z * Z) :=
  old_usage ← gets ct_usage;
  if negb (old_usage =? capacity) then
    let new_usage := Z.min capacity (wrap64 (old_usage + total_charge)) in
    _ ← modify (with_usage new_usage);
    mret (old_usage, new_usage)
  else mret (old_usage, old_usage).
Definition charge_usage_strict (total_charge capacity : Z) (need_evict_for_occupancy : bool) : M unit :=
  if capacity <? total_charge then lift (Err MemoryLimit) else
  '(old_usage, new_usage) ← grab_usage total_charge capacity;
  let need_evict_charge := wrap64 (wrap64 (old_usage + total_charge) - new_usage) in
  let request_evict_charge := if need_evict_for_occupancy && (need_evict_charge =? 0) then 1 else need_evict_charge in
  if 0 <? request_evict_charge then
    '(evicted_charge, evicted_count) ← clock_evict request_evict_charge;
    _ ← bump (stats_add_passive_evict evicted_count);
    _ ← fetch_occupancy (λ n, n - wrap32 evicted_count);
    if need_evict_charge <? evicted_charge then
      _ ← lift (rassert (0 <? evicted_count));
      _ ← fetch_usage (λ n, n - (evicted_charge - need_evict_charge));
      lift (rassert (0 <? evicted_count))
    else if (evicted_charge <? need_evict_charge) || (need_evict_for_occupancy && (evicted_count =? 0)) then
      _ ← fetch_usage (λ n, n - wrap64 (evicted_charge + wrap64 (new_usage - old_usage)));
      lift (Err MemoryLimit)
    else lift (rassert (0 <? evicted_count))
  else mret tt.

(** ** Insertion *)

Definition detached_insert (p : Z) h : M handle_ptr :=
  let meta := Z.lor (Z.shiftl STATE_INVISIBLE STATE_SHIFT) (Z.shiftl 1 ACQUIRE_COUNTER_SHIFT) in
  _ ← modify (λ t, with_boxes (<[p := mkClockHandle (ch_key h) (ch_hash h) (ch_value h) (ch_charge h) meta 0 true]> (ct_boxes t)) t);
  _ ← fetch_detached_usage (λ n, n + ch_charge h);
  mret (PtrBox p).

(** The closure of [insert] also writes the variable [use_detached_insert]. *)
Definition on_table {A} (m : M A) : St (Table * bool) A := λ s, let '(r, t) := m s.1 in (r, (t, s.2)).
Definition use_detached : St (Table * bool) unit := modify (λ s, (s.1, true)).

Definition insert_match (proto : Handle) (i : nat) : St (Table * bool) bool :=
  let hp := PtrSlot i in
  let initial_countdown := LOW_COUNT_DOWN in
  old_meta ← on_table (fetch_meta hp (λ m, Z.lor m (Z.shiftl STATE_OCCUPIED_BIT STATE_SHIFT)));
  let old_state := meta_state old_meta in
  if old_state =? STATE_EMPTY then
    _ ← on_table (clock_assign hp (clock_handle_insert (ch_key proto) (ch_value proto) (ch_hash proto) (ch_charge proto)));
    let new_meta := Z.lor (Z.lor (Z.shiftl STATE_VISIBLE STATE_SHIFT) (Z.shiftl initial_countdown ACQUIRE_COUNTER_SHIFT))
                      (Z.shiftl (initial_countdown - 1) RELEASE_COUNTER_SHIFT) in
    old_meta ← on_table (fetch_meta hp (λ _, new_meta));
    _ ← lift (rassert (meta_state old_meta =? STATE_CONSTRUCTION));
    mret true
  else if negb (old_state =? STATE_INVISIBLE) then mret false
  else
    old_meta ← on_table (fetch_meta hp (λ m, wrap64 (m + initial_countdown * ACQUIRE_INCREMENT)));
    if meta_state old_meta =? STATE_VISIBLE then
      h ← on_table (clock_deref hp);
      if ch_key h =? ch_key proto then
        old_meta ← on_table (fetch_meta hp (λ m, wrap64 (m + initial_countdown * RELEASE_INCREMENT)));
        _ ← on_table (fetch_meta hp (correct_near_overflow old_meta));
        _ ← use_detached;
        mret true
      else _ ← on_table (fetch_meta hp (λ m, wrap64 (m - initial_countdown * ACQUIRE_INCREMENT))); mret false
    else if meta_state old_meta =? STATE_INVISIBLE then
      _ ← on_table (fetch_meta hp (λ m, wrap64 (m - initial_countdown * ACQUIRE_INCREMENT))); mret false
    else mret false.

Definition displace (i : nat) : M unit := fetch_displacements (PtrSlot i) (λ d, wrap32 (d + 1)).
Definition insert_find_slot (proto : Handle) : M (option nat * bool) := λ t,
  match find_slot (insert_match proto) (λ _, mret false) (λ i, on_table (displace i)) (table_mask t) (ch_hash proto) (t, false) with
  | (Ok (slot, _), (t, use_detached_insert)) => (Ok (slot, use_detached_insert), t)
  | (Err e, (t, _)) => (Err e, t)
  | (Panic, (t, _)) => (Panic, t)
  end.

(** The part of [insert] that charges the usage: whether the entry is to be detached. *)
Definition insert_charge (total_charge capacity : Z) (need_evict_for_occupancy : bool) : M bool :=
  strict ← gets (λ t, cc_strict_capacity_limit (ct_config t));
  if strict : bool then
    r ← attempt (charge_usage_strict total_charge capacity need_evict_for_occupancy);
    match r with
    | inl _ => mret false
    | inr err => _ ← fetch_occupancy (λ n, n - 1); lift (Err err)
    end
  else
    success ← charge_usage_non_strict total_charge capacity need_evict_for_occupancy;
    if negb success then
      _ ← fetch_occupancy (λ n, n - 1);
      _ ← fetch_usage (λ n, n + total_charge);
      mret true
    else mret false.
Definition finish_detached (p : Z) (proto : Handle) : M handle_ptr :=
  q ← detached_insert p proto;
  _ ← bump inc_insert;
  mret q.
(** The address [p] is that of the detached entry, if there is to be one. *)
Definition clock_insert (p : Z) (proto : Handle) (capacity : Z) : M handle_ptr :=
  old_occupancy ← fetch_occupancy (λ n, n + 1);
  limit ← gets (λ t, cc_occupancy_limit (ct_config t));
  use_detached_insert ← insert_charge (ch_charge proto) capacity (limit <? old_occupancy);
  if use_detached_insert : bool then finish_detached p proto
  else
    '(slot, use_detached_insert) ← insert_find_slot proto;
    size ← gets table_size;
    _ ← (if bool_decide (slot = None) then lift (rassert (size <? 256)) else mret tt);
    let use_detached_insert := use_detached_insert || bool_decide (slot = None) in
    if negb use_detached_insert then
      i ← lift (expect slot);
      _ ← clock_deref (PtrSlot i);
      _ ← bump inc_insert;
      mret (PtrSlot i)
    else
      _ ← match slot with Some i => rollback (ch_hash proto) (PtrSlot i) | None => mret tt end;
      _ ← fetch_occupancy (λ n, n - 1);
      finish_detached p proto.

(** ** Release and erase *)

(** The loop that takes the last reference: whether it did. A failed exchange is
    retried with the same word. *)
Fixpoint take_last_ref (fuel : nat) q (old_meta : Z) : M bool :=
  match fuel with
  | O => lift Panic
  | S fuel =>
      if negb (ref_count old_meta =? 0) then
        _ ← fetch_meta q (correct_near_overflow old_meta);
        mret false
      else if Z.land old_meta (Z.shiftl STATE_SHAREABLE_BIT STATE_SHIFT) =? 0 then mret false
      else
        taken ← exchange_meta q old_meta (Z.shiftl STATE_CONSTRUCTION STATE_SHIFT);
        if taken : bool then mret true else take_last_ref fuel q old_meta
  end.
(** [drop(Box::from_raw(hp))]: only a detached handle is a box of its own. *)
Definition clock_box_drop q : M unit := λ t,
  match q with
  | PtrBox p => match ct_boxes t !! p with Some _ => (Ok tt, with_boxes (delete p (ct_boxes t)) t) | None => (Panic, t) end
  | PtrSlot _ => (Panic, t)
  end.
Definition clock_release (hp : option handle_ptr) : M bool :=
  match hp with
  | None => mret false
  | Some hp =>
      let erase_if_last_ref := false in
      old_meta ← fetch_meta hp (λ m, wrap64 (m + RELEASE_INCREMENT));
      _ ← lift (rassert (0 <? Z.land (meta_state old_meta) STATE_SHAREABLE_BIT));
      _ ← lift (rassert (negb (acquire_count old_meta =? release_count old_meta)));
      if erase_if_last_ref || (meta_state old_meta =? STATE_INVISIBLE) then
        taken ← take_last_ref 1 hp (wrap64 (old_meta + RELEASE_INCREMENT));
        if negb taken then mret false else
        h ← clock_deref hp;
        let total_charge := ch_charge h in
        _ ← (if ch_detached h then
               _ ← clock_box_drop hp;
               _ ← fetch_detached_usage (λ n, n - total_charge);
               _ ← fetch_usage (λ n, n - total_charge);
               mret tt
             else
               _ ← free_data_mark_empty hp;
               _ ← rollback (ch_hash h) hp;
               reclaim_entry_usage total_charge);
        mret true
      else
        _ ← fetch_meta hp (correct_near_overflow old_meta);
        mret false
  end.

Fixpoint erase_loop (fuel : nat) (hash : Z) (i : nat) (old_meta : Z) : M unit :=
  let hp := PtrSlot i in
  match fuel with
  | O => lift Panic
  | S fuel =>
      let refcount := ref_count old_meta in
      _ ← lift (rassert (0 <? refcount));
      if 1 <? refcount then _ ← fetch_meta hp (λ m, wrap64 (m - ACQUIRE_INCREMENT)); mret tt
      else
        taken ← exchange_meta hp old_meta (Z.shiftl STATE_CONSTRUCTION STATE_SHIFT);
        if taken : bool then
          h ← clock_deref hp;
          _ ← lift (rassert (hash =? ch_hash h));
          _ ← free_data_mark_empty hp;
          _ ← reclaim_entry_usage (ch_charge h);
          rollback hash hp
        else erase_loop fuel hash i old_meta
  end.
Definition erase_match (key hash : Z) (i : nat) : M bool :=
  let hp := PtrSlot i in
  old_meta ← fetch_meta hp (λ m, wrap64 (m + ACQUIRE_INCREMENT));
  if meta_state old_meta =? STATE_VISIBLE then
    h ← clock_deref hp;
    if ch_key h =? key then
      old_meta ← fetch_meta hp (λ m, Z.land m (not64 (Z.shiftl STATE_VISIBLE_BIT STATE_SHIFT)));
      _ ← erase_loop 1 hash i (Z.land old_meta (not64 (Z.shiftl STATE_VISIBLE_BIT STATE_SHIFT)));
      mret false
    else _ ← fetch_meta hp (λ m, wrap64 (m - ACQUIRE_INCREMENT)); mret false
  else if meta_state old_meta =? STATE_INVISIBLE then
    _ ← fetch_meta hp (λ m, wrap64 (m - ACQUIRE_INCREMENT)); mret false
  else mret false.
Definition clock_erase (key hash : Z) : M unit :=
  mask ← gets table_mask;
  _ ← find_slot (erase_match key hash) not_displaced no_update mask hash;
  bump inc_active_evict.

(** ** Dropping the table *)

Fixpoint drop_slots (is_slots : list nat) : M unit :=
  match is_slots with
  | [] => mret tt
  | i :: rest =>
      let hp := PtrSlot i in
      h ← clock_deref hp;
      let meta := ch_meta h in
      let ref_cnt := ref_count meta in
      let state := meta_state meta in
      _ ← (if state =? STATE_EMPTY then mret tt
           else if (state =? STATE_INVISIBLE) || (state =? STATE_VISIBLE) then
             _ ← lift (rassert (ref_cnt =? 0));
             _ ← rollback (ch_hash h) hp;
             reclaim_entry_usage (ch_charge h)
           else lift Panic);
      drop_slots rest
  end.
Definition clock_table_drop : M unit :=
  n ← gets (λ t, length (ct_handles t));
  _ ← drop_slots (seq 0 n);
  usage ← gets ct_usage;
  _ ← lift (rassert ((usage =? 0) || (usage =? Z.of_nat n * HANDLE_SIZE)));
  occupancy ← gets ct_occupancy;
  lift (rassert (occupancy =? 0)).
End table.

(** ** Shards *)

Record ClockCacheShard (T : Type) := mkClockShard { cs_table : ClockCacheHandleTable T; cs_capacity : Z }.
Arguments mkClockShard {T} _ _.
Arguments cs_table {T} _.
Arguments cs_capacity {T} _.

(** [f64::log2] and [f64::floor]: the precision of the first is that of the platform. *)
Record FloatOps := { f64_log2 : f64 -> f64; f64_floor : f64 -> f64 }.

(** The bits that fit the capacity, when the handles are charged to it. *)
Fixpoint trim_hash_bits (fuel : nat) (capacity hash_bits : Z) : Z :=
  match fuel with
  | O => hash_bits
  | S fuel => if (0 <? hash_bits) && (capacity <? wrap64 (Z.shiftl HANDLE_SIZE hash_bits)) then trim_hash_bits fuel capacity (hash_bits - 1) else hash_bits
  end.
(** [a.min(b)] of floating point numbers, which ignores a NaN. *)
Definition f64_minimum (a b : f64) : f64 := if f64_is_nan a then b else if f64_is_nan b then a else if f64_lt b a then b else a.
Definition hash_bits (ops : FloatOps) (capacity est_value_size : Z) (charge_metadata : bool) : Z :=
  let average_slot_charge := f64_mul (f64_of est_value_size) LOAD_FACTOR in
  let average_slot_charge := if charge_metadata then f64_add average_slot_charge (f64_of HANDLE_SIZE) else average_slot_charge in
  let num_slots := f64_to_usize (f64_add (f64_div (f64_of capacity) average_slot_charge) (f64_div (f64_of 999999) (f64_of 1000000))) in
  let bits := f64_to_usize (f64_minimum (f64_floor ops (f64_log2 ops (f64_sub (f64_of (wrap64 (Z.shiftl num_slots 1))) (f64_of 1)))) (f64_of 32)) in
  if charge_metadata then trim_hash_bits 32 capacity bits else bits.

Definition clock_shard_new {T} (ops : FloatOps) (capacity est_value_size : Z) (strict_capacity_limit charge_metadata : bool) : ClockCacheShard T :=
  mkClockShard (clock_table_new (hash_bits ops capacity est_value_size charge_metadata) strict_capacity_limit charge_metadata) capacity.

Section shard.
Context {T : Type}.
Local Abbreviation Shard := (ClockCacheShard T).

Definition in_table {A} (m : St (ClockCacheHandleTable T) A) : St Shard A := λ s,
  let '(r, t) := m (cs_table s) in (r, mkClockShard t (cs_capacity s)).
Definition clock_shard_insert (p key hash : Z) (value : option T) (charge : Z) : St Shard handle_ptr :=
  capacity ← gets cs_capacity;
  in_table (clock_insert p (mkClockHandle key hash value charge 0 0 false) capacity).
Definition clock_shard_lookup (key hash : Z) : St Shard (option handle_ptr) := in_table (clock_lookup key hash).
Definition clock_shard_release (hp : option handle_ptr) : St Shard bool := in_table (clock_release hp).
Definition clock_shard_erase (key hash : Z) : St Shard unit := in_table (clock_erase key hash).
End shard.

(** ** The cache *)

Record ClockCache (T : Type) := mkClockCache { kc_shards : list (ClockCacheShard T); kc_shard_mask : Z }.
Arguments mkClockCache {T} _ _.
Arguments kc_shards {T} _.
Arguments kc_shard_mask {T} _.

(** An entry points into the memory of one shard. *)
Record ClockEntry := mkClockEntry { ke_shard : nat; ke_ptr : handle_ptr }.

Definition fnv32_round (h n : Z) : Z := Z.lxor (wrap32 (h * 16777619)) (Z.land n 0xff).
Fixpoint fnv32_rounds (k : nat) (h n : Z) : Z :=
  match k with O => h | S k => fnv32_rounds k (fnv32_round h n) (Z.shiftr n 8) end.
Definition clock_hash_key (key : Z) : Z :=
  let file_id := wrap32 (Z.shiftr key 32) in
  let offset := wrap32 key in
  fnv32_rounds 4 (fnv32_rounds 4 2166136261 file_id) offset.

Definition CLOCK_MIN_SHARD_SIZE : Z := Z.shiftl 32 20.
(** At most 6 bits are counted. *)
Fixpoint clock_shard_bits (fuel : nat) (num_shards num_shard_bits : Z) : res Z :=
  match fuel with
  | O => Panic
  | S fuel =>
      let num_shards := Z.shiftr num_shards 1 in
      if num_shards =? 0 then Ok num_shard_bits else
      let num_shard_bits := num_shard_bits + 1 in
      if 6 <=? num_shard_bits then Ok num_shard_bits else clock_shard_bits fuel num_shards num_shard_bits
  end.
Definition clock_cache_new {T} (ops : FloatOps) (capacity est_value_size num_shard_bits : Z) (strict_capacity_limit charge_metadata : bool) : res (ClockCache T) :=
  _ ← rassert (num_shard_bits <? 20);
  bits ← (if 0 <=? num_shard_bits then Ok num_shard_bits else clock_shard_bits 6 (capacity / CLOCK_MIN_SHARD_SIZE) 0);
  let num_shards := wrap32 (Z.shiftl 1 bits) in
  let per_shard_cap := wrap64 (capacity + (num_shards - 1)) / num_shards in
  let shard_mask := num_shards - 1 in
  Ok (mkClockCache (replicate (Z.to_nat num_shards) (clock_shard_new ops per_shard_cap est_value_size strict_capacity_limit charge_metadata)) shard_mask).

Section cache.
Context {T : Type}.
Local Abbreviation Cache := (ClockCache T).
Local Abbreviation M := (St Cache).

Definition clock_shard_of (c : Cache) (hash : Z) : nat := Z.to_nat (Z.land (kc_shard_mask c) hash).
Definition on_clock_shard {A} (i : nat) (m : St (ClockCacheShard T) A) : M A := λ c,
  match kc_shards c !! i with
  | Some s => let '(r, s) := m s in (r, mkClockCache (<[i := s]> (kc_shards c)) (kc_shard_mask c))
  | None => (Panic, c)
  end.
Definition clock_cache_insert (p key : Z) (value : option T) (charge : Z) : M ClockEntry :=
  let hash := clock_hash_key key in
  idx ← gets (λ c, clock_shard_of c hash);
  q ← on_clock_shard idx (clock_shard_insert p key hash value charge);
  mret (mkClockEntry idx q).
Definition clock_cache_lookup (key : Z) : M (option ClockEntry) :=
  let hash := clock_hash_key key in
  idx ← gets (λ c, clock_shard_of c hash);
  q ← on_clock_shard idx (clock_shard_lookup key hash);
  mret (mkClockEntry idx <$> q).
(** A handle that does not belong to the shard its hash leads to would be an access
    to the memory of another shard. *)
Definition clock_cache_release (e : ClockEntry) : M bool :=
  h ← on_clock_shard (ke_shard e) (in_table (clock_deref (ke_ptr e)));
  idx ← gets (λ c, clock_shard_of c (ch_hash h));
  _ ← lift (rassert (bool_decide (idx = ke_shard e)));
  on_clock_shard idx (clock_shard_release (Some (ke_ptr e))).
Definition clock_cache_erase (key : Z) : M unit :=
  let hash := clock_hash_key key in
  idx ← gets (λ c, clock_shard_of c hash);
  on_clock_shard idx (clock_shard_erase key hash).
(** [erase_file_pages] is [unimplemented!()]. *)
Definition clock_cache_erase_file_pages (file_id : Z) : M unit := lift Panic.

(** [CacheEntry::key] and [CacheEntry::value]. *)
Definition clock_entry_key (e : ClockEntry) (c : Cache) : res Z :=
  s ← expect (kc_shards c !! ke_shard e);
  h ← expect (slot_lookup (ke_ptr e) (cs_table s));
  Ok (ch_key h).
Definition clock_entry_value (e : ClockEntry) (c : Cache) : res T :=
  s ← expect (kc_shards c !! ke_shard e);
  h ← expect (slot_lookup (ke_ptr e) (cs_table s));
  expect (ch_value h).
End cache.

(** ** Statistics and the advice on the size of values *)

(** What the formatted advice says. *)
Inductive AdviceLevel := LevelInfo | LevelWarn | LevelError.
Inductive Advice :=
  | LostCapacity (level : AdviceLevel) (percent : f64) (over_count shard_cnt min_recommendation : Z)
  | LowOccupancy (level : AdviceLevel) (ratio : f64) (min_recommendation : Z).

Section advice.
Context {T : Type}.

Definition shard_advice (s : ClockCacheShard T) (predicted_load_factors : list f64) (min_recommendation : Z) : list f64 * Z :=
  let t := cs_table s in
  let usage := wrap64 (ct_usage t - ct_detached_usage t) in
  let usage_ratio := f64_div (f64_mul (f64_of 1) (f64_of usage)) (f64_of (cs_capacity s)) in
  let occupancy := ct_occupancy t in
  let occ_ratio := f64_div (f64_mul (f64_of 1) (f64_of occupancy)) (f64_of (cc_occupancy_limit (ct_config t))) in
  if (usage =? 0) || (occupancy =? 0) || (f64_lt usage_ratio (f64_div (f64_of 8) (f64_of 10)) && f64_lt occ_ratio (f64_div (f64_of 95) (f64_of 100)))
  then (predicted_load_factors, min_recommendation)
  else
    let ratio := f64_div occ_ratio usage_ratio in
    let lf := f64_mul ratio STRICT_LOAD_FACTOR in
    let recommendation := usage / occupancy in
    (predicted_load_factors ++ [lf], Z.min min_recommendation recommendation).

(** [sort_by] with [partial_cmp(..).unwrap()]. *)
Fixpoint insert_f64 (x : f64) (l : list f64) : res (list f64) :=
  match l with
  | [] => Ok [x]
  | y :: l =>
      match f64_cmp x y with
      | None => Panic
      | Some Lt => Ok (x :: y :: l)
      | Some _ => l ← insert_f64 x l; Ok (y :: l)
      end
  end.
Fixpoint sort_f64 (sorted l : list f64) : res (list f64) :=
  match l with
  | [] => Ok sorted
  | x :: l => sorted ← insert_f64 x sorted; sort_f64 sorted l
  end.

Definition LOW_SPEC_LOAD_FACTOR : f64 := f64_div LOAD_FACTOR (f64_of 2).
Definition MID_SPEC_LOAD_FACTOR : f64 := f64_div LOAD_FACTOR (f64_div (f64_of 1414) (f64_of 1000)).
(** The capacity lost to the occupancy limit, and in how many shards. *)
Definition lost_capacity (shard_cnt : Z) (lfs : list f64) : f64 * Z :=
  fold_left (λ '(lost, over) lf,
    if f64_lt STRICT_LOAD_FACTOR lf
    then (f64_add lost (f64_div (f64_div (f64_sub lf STRICT_LOAD_FACTOR) lf) (f64_of shard_cnt)), over + 1)
    else (lost, over)) lfs (f64_of 0, 0).
Definition est_value_size_advice (c : ClockCache T) : res (option Advice) :=
  let shard_cnt := Z.of_nat (length (kc_shards c)) in
  let '(lfs, min_recommendation) := fold_left (λ '(lfs, m) s, shard_advice s lfs m) (kc_shards c) ([], u64_max) in
  if bool_decide (lfs = []) then Ok None else
  sorted ← sort_f64 [] lfs;
  let avg_load_factor := f64_div (fold_left f64_add sorted (f64_of 0)) (f64_of shard_cnt) in
  if f64_lt LOAD_FACTOR avg_load_factor then
    let '(lost_portion, over_count) := lost_capacity shard_cnt sorted in
    let advice level := Some (LostCapacity level (f64_mul lost_portion (f64_of 100)) over_count shard_cnt min_recommendation) in
    Ok (if f64_lt (f64_div (f64_of 2) (f64_of 10)) lost_portion then advice LevelError
        else if f64_lt (f64_div (f64_of 1) (f64_of 10)) lost_portion then advice LevelWarn
        else if f64_lt (f64_div (f64_of 1) (f64_of 100)) lost_portion then advice LevelInfo
        else None)
  else if f64_lt avg_load_factor LOW_SPEC_LOAD_FACTOR then
    last ← expect (last sorted);
    Ok (if f64_lt last LOW_SPEC_LOAD_FACTOR && f64_lt avg_load_factor (f64_div LOW_SPEC_LOAD_FACTOR (f64_div (f64_of 1414) (f64_of 1000)))
        then Some (LowOccupancy (if f64_lt avg_load_factor (f64_div LOW_SPEC_LOAD_FACTOR (f64_of 2)) then LevelWarn else LevelInfo)
                     (f64_div MID_SPEC_LOAD_FACTOR avg_load_factor) min_recommendation)
        else None)
  else Ok None.

Definition clock_shard_stats (s : ClockCacheShard T) : CacheStats := ct_stats (cs_table s).
(** The summary of the shards, and the advice. *)
Definition clock_cache_stats (c : ClockCache T) : res (CacheStats * option Advice) :=
  let summary := fold_left (λ acc s, cache_stats_add acc (clock_shard_stats s)) (kc_shards c) cache_stats_default in
  advice ← est_value_size_advice c;
  Ok (summary, advice).
End advice.
