(* ===== verification/ClockProbe.v ===== *)
(** * Probe sequences of the clock cache ([find_slot], [rollback] of [cache/clock.rs])

    The slots that [find_slot] looks at for a hash, as a list ([path]): each slot of the
    table once, as the increment is odd and the size a power of two. [find_slot] walks
    along this list, and [rollback] along the part before a slot ([before]). *)

From stdpp Require Import base numbers list gmap.
From Stdlib Require Import ZArith Lia.
From S2P Require Import Prelude CacheHandle ClockWord ClockCache.

(** ** The list of slots *)

Definition probe_increment (hash : Z) : Z := Z.lor (remix2 hash) 1.
Definition probe_at (bits hash : Z) (k : nat) : nat := Z.to_nat ((remix1 hash + Z.of_nat k * probe_increment hash) mod 2 ^ bits).
Definition slot_count (bits : Z) : nat := Z.to_nat (2 ^ bits).
Definition path (bits hash : Z) : list nat := probe_at bits hash <$> seq 0 (slot_count bits).

(** The slots of a list before [i]. *)
Fixpoint before (i : nat) (l : list nat) : list nat :=
  match l with [] => [] | j :: l => if decide (j = i) then [] else j :: before i l end.

Lemma odd_divide (b : nat) o d : Z.odd o = true -> (2 ^ b | o * d) -> (2 ^ b | d).
Proof.
  intros Ho. revert d. induction b as [|b IH]; intros d Hd; [apply Z.divide_1_l|]. rewrite Nat2Z.inj_succ, Z.pow_succ_r in * by lia.
  destruct (Z.even d) eqn:E; cycle 1.
  { exfalso. assert (Hz : Z.odd (o * d) = true) by (rewrite Z.odd_mul, Ho, <- Z.negb_even, E; done).
    destruct Hd as [x Ex]. rewrite Ex, Z.mul_assoc, (Z.mul_comm x), <- Z.mul_assoc, Z.odd_mul in Hz. done. }
  apply Z.even_spec in E as [d' ->]. apply Z.mul_divide_mono_l, IH. apply (Z.mul_divide_cancel_l _ _ 2); [lia|].
  by replace (2 * (o * d')) with (o * (2 * d')) by lia.
Qed.
Lemma probe_increment_odd hash : Z.odd (probe_increment hash) = true.
Proof. unfold probe_increment. rewrite <- Z.bit0_odd, Z.lor_spec. cbn [Z.testbit]. apply orb_true_r. Qed.

Section path.
Context (bits : Z) (Hbits : 0 <= bits < 32).

Lemma slot_count_z : Z.of_nat (slot_count bits) = 2 ^ bits.
Proof using Hbits. unfold slot_count. pose proof (Z.pow_pos_nonneg 2 bits). lia. Qed.
Lemma slot_count_bound : (0 < slot_count bits)%nat /\ Z.of_nat (slot_count bits) <= 2 ^ 31.
Proof using Hbits. pose proof slot_count_z. pose proof (Z.pow_pos_nonneg 2 bits). assert (2 ^ bits <= 2 ^ 31) by (apply Z.pow_le_mono_r; lia). lia. Qed.
Lemma probe_at_lt hash k : (probe_at bits hash k < slot_count bits)%nat.
Proof using Hbits. unfold probe_at, slot_count. pose proof (Z.mod_pos_bound (remix1 hash + Z.of_nat k * probe_increment hash) (2 ^ bits)). pose proof (Z.pow_pos_nonneg 2 bits). lia. Qed.

Lemma probe_at_inj hash j k : (j < slot_count bits)%nat -> (k < slot_count bits)%nat -> probe_at bits hash j = probe_at bits hash k -> j = k.
Proof using Hbits.
  intros Hj Hk E. pose proof slot_count_z as Hn. assert (Hp : 0 < 2 ^ bits) by (apply Z.pow_pos_nonneg; lia). unfold probe_at in E.
  apply Z2Nat.inj in E; [|apply Z.mod_pos_bound; lia|apply Z.mod_pos_bound; lia].
  assert (Hd : (2 ^ Z.to_nat bits | probe_increment hash * (Z.of_nat j - Z.of_nat k))).
  { rewrite Z2Nat.id by lia. apply Z.mod_divide; [lia|]. replace (probe_increment hash * (Z.of_nat j - Z.of_nat k)) with
      ((remix1 hash + Z.of_nat j * probe_increment hash) - (remix1 hash + Z.of_nat k * probe_increment hash)) by lia. rewrite Zminus_mod, E, Z.sub_diag. by apply Z.mod_0_l; lia. }
  apply odd_divide in Hd; [|apply probe_increment_odd]. rewrite Z2Nat.id in Hd by lia. destruct Hd as [x Ex].
  assert (x = 0) by nia. lia.
Qed.

Lemma path_nodup hash : NoDup (path bits hash).
Proof using Hbits.
  unfold path. apply NoDup_fmap_2_strong; [|apply NoDup_seq]. intros j k [_ Hj]%elem_of_seq [_ Hk]%elem_of_seq. by apply probe_at_inj.
Qed.
(** Every slot is on the path of every hash. *)
Lemma path_perm hash : path bits hash ≡ₚ seq 0 (slot_count bits).
Proof using Hbits.
  apply submseteq_length_Permutation; [|unfold path; by rewrite length_fmap].
  apply NoDup_submseteq; [apply path_nodup|]. intros i (k & -> & _)%list_elem_of_fmap. apply elem_of_seq. pose proof (probe_at_lt hash k). lia.
Qed.
Lemma path_elem hash i : i ∈ path bits hash <-> (i < slot_count bits)%nat.
Proof using Hbits. rewrite path_perm, elem_of_seq. lia. Qed.

(** ** The machine words follow the path *)

Lemma mod_mod_pow a b c : 0 <= b <= c -> (a mod 2 ^ c) mod 2 ^ b = a mod 2 ^ b.
Proof using.
  intros Hb. replace (2 ^ c) with (2 ^ b * 2 ^ (c - b)) by (rewrite <- Z.pow_add_r by lia; f_equal; lia).
  pose proof (Z.pow_pos_nonneg 2 b). pose proof (Z.pow_pos_nonneg 2 (c - b)). rewrite Z.rem_mul_r by lia.
  rewrite Z.mul_comm, Z_mod_plus_full. apply Z.mod_mod. lia.
Qed.
Lemma mod_table_mod x : mod_table_size (Z.ones bits) (wrap32 x) = x mod 2 ^ bits.
Proof using Hbits. unfold mod_table_size, wrap. rewrite Z.land_ones by lia. apply mod_mod_pow. lia. Qed.
Lemma path_first hash : mod_table_size (Z.ones bits) (remix1 hash) = remix1 hash mod 2 ^ bits.
Proof using Hbits. unfold mod_table_size. by rewrite Z.land_ones by lia. Qed.
Lemma path_next hash (k : nat) :
  mod_table_size (Z.ones bits) (wrap32 ((remix1 hash + Z.of_nat k * probe_increment hash) mod 2 ^ bits + probe_increment hash)) =
    (remix1 hash + Z.of_nat (S k) * probe_increment hash) mod 2 ^ bits.
Proof using Hbits. rewrite mod_table_mod, Zplus_mod_idemp_l. f_equal. lia. Qed.
End path.

(** ** Walking *)

Section walk.
Context {S : Type} (match_fn abort_fn : nat -> St S bool) (update_fn : nat -> St S unit).

(** [find_slot] along a list of slots. *)
Fixpoint walk (probe : Z) (l : list nat) : St S (option nat * Z) :=
  match l with
  | [] => mret (None, probe)
  | i :: l =>
      matched ← match_fn i;
      if matched : bool then mret (Some i, probe + 1) else
      abort ← abort_fn i;
      if abort : bool then mret (None, probe) else
      _ ← update_fn i;
      walk (probe + 1) l
  end.

Context (bits : Z) (Hbits : 0 <= bits < 32) (hash : Z).

Lemma find_slot_loop_walk (fuel m k : nat) s :
  (k + m = slot_count bits)%nat -> (m < fuel)%nat ->
  find_slot_loop match_fn abort_fn update_fn (Z.ones bits) fuel (probe_increment hash) (Z.of_nat k)
    ((remix1 hash + Z.of_nat k * probe_increment hash) mod 2 ^ bits) s = walk (Z.of_nat k) (probe_at bits hash <$> seq k m) s.
Proof using Hbits.
  pose proof (slot_count_z bits Hbits) as Hn. pose proof (slot_count_bound bits Hbits) as [_ Hb].
  revert fuel k s. induction m as [|m IH]; intros [|fuel] k s Hk Hf; try lia; cbn [find_slot_loop].
  - rewrite (proj2 (Z.leb_gt _ _)); [done|]. rewrite Z.ones_equiv. lia.
  - rewrite (proj2 (Z.leb_le _ _)) by (rewrite Z.ones_equiv; lia). cbn [seq fmap list_fmap walk].
    change (Z.to_nat ((remix1 hash + Z.of_nat k * probe_increment hash) mod 2 ^ bits)) with (probe_at bits hash k).
    rewrite (wrap_small 32) by (unfold fits; lia). rewrite path_next by done.
    replace (Z.of_nat k + 1) with (Z.of_nat (Datatypes.S k)) by lia.
    apply st_bind_ext. intros [] s1; [done|]. apply st_bind_ext. intros [] s2; [done|]. apply st_bind_ext. intros _ s3. apply IH; lia.
Qed.
Lemma find_slot_walk s : find_slot match_fn abort_fn update_fn (Z.ones bits) hash s = walk 0 (path bits hash) s.
Proof using Hbits.
  pose proof (slot_count_z bits Hbits) as Hn. unfold find_slot. rewrite Z.mul_0_l, Z.add_0_r.
  replace (mod_table_size (Z.ones bits) (wrap32 (mod_table_size (Z.ones bits) (remix1 hash)))) with ((remix1 hash + Z.of_nat 0 * probe_increment hash) mod 2 ^ bits).
  - apply (find_slot_loop_walk _ (slot_count bits) 0); [lia|]. rewrite Z.ones_equiv. lia.
  - rewrite mod_table_mod, path_first, Z.mod_mod by first [done|apply Z.pow_nonzero; lia]. f_equal. lia.
Qed.
End walk.

(** ** The part before a slot *)

Lemma before_elem i j l : j ∈ before i l -> j ∈ l /\ j <> i.
Proof.
  induction l as [|x l IH]; cbn [before]; [by intros ?%not_elem_of_nil|]. destruct (decide (x = i)); [by intros ?%not_elem_of_nil|].
  intros [->|Hj]%elem_of_cons; [by split; [left|]|]. destruct (IH Hj). by split; [right|].
Qed.
Lemma before_nodup i l : NoDup l -> NoDup (before i l).
Proof.
  induction 1 as [|x l Hx Hl IH]; cbn [before]; [constructor|]. case_decide; constructor; [|done]. by intros [? _]%before_elem.
Qed.
(** A walk that stops at [i] has passed over the part before it. *)
Lemma before_app i l1 l2 : i ∉ l1 -> before i (l1 ++ i :: l2) = l1.
Proof.
  induction l1 as [|x l1 IH]; cbn [before app]; intros Hi; [by rewrite decide_True|]. apply not_elem_of_cons in Hi as [? ?]. rewrite decide_False by done. by rewrite IH.
Qed.

(** ** Every slot once *)

(** [C29] The probe sequence of every hash looks at each slot of the table exactly once:
    a search of a table with [2^bits] slots, [bits] below 32, whose callback matches nowhere ends with no
    slot after as many probes as there are slots, and the slots it called back for,
    in order, are a permutation of all the slots. (So an insertion finds a free slot
    whenever there is one, and displacements are counted once per entry.) *)
Theorem find_slot_probes_every_slot bits hash :
  0 <= bits < 32 ->
  exists trace,
    find_slot (λ i l, (Ok false, l ++ [i])) (λ _, mret false) no_update (wrap32 (Z.shiftl 1 bits - 1)) hash [] = (Ok (None, 2 ^ bits), trace) /\
    trace ≡ₚ seq 0 (Z.to_nat (2 ^ bits)).
Proof.
  intros Hbits. exists (path bits hash). split; [|by apply path_perm].
  assert (Em : wrap32 (Z.shiftl 1 bits - 1) = Z.ones bits).
  { rewrite Z.shiftl_1_l, Z.ones_equiv. pose proof (slot_count_bound bits Hbits). rewrite slot_count_z in * by done. apply wrap_small. unfold fits. lia. }
  rewrite Em, find_slot_walk by done.
  assert (Hw : forall l k acc, walk (λ i l, (Ok false, l ++ [i])) (λ _, mret false) no_update k l acc = (Ok (None, k + Z.of_nat (length l)), acc ++ l)).
  { induction l as [|i l IH]; intros k acc; cbn [walk]; [by rewrite app_nil_r, Z.add_0_r|]. etransitivity; [apply (IH (k + 1) (acc ++ [i]))|].
    rewrite <- app_assoc. cbn [length app]. do 3 f_equal. lia. }
  rewrite Hw. unfold path at 1. rewrite length_fmap, length_seq, slot_count_z by done. done.
Qed.
Lemma find_slot_probes_every_slot_witness : exists trace,
  find_slot (λ i l, (Ok false, l ++ [i])) (λ _, mret false) no_update (wrap32 (Z.shiftl 1 3 - 1)) 12345 [] = (Ok (None, 8), trace) /\ trace ≡ₚ seq 0 8.
Proof. apply (find_slot_probes_every_slot 3 12345). lia. Defined.
