(* ===== verification/ClockSlots.v ===== *)
(** * The slots of the clock cache: their invariant

    What the slots of a table hold between operations ([slots_inv]): the counters of a
    slot against the references that clients have, and the displacements against the
    entries ([crossings]). The operations on single slots keep it; [rollback] undoes
    the displacements of an entry. *)

From stdpp Require Import base numbers list gmap.
From Stdlib Require Import ZArith Lia.
From S2P Require Import Prelude CacheHandle ClockWord ClockCache ClockProbe.

(** ** Sums over the slots *)

Section isum.
Context {A : Type}.
Implicit Types (f : nat -> A -> Z) (l : list A).

Definition isum f l : Z := foldr Z.add 0 (imap f l).

Lemma isum_cons f x l : isum f (x :: l) = f 0%nat x + isum (λ i, f (S i)) l.
Proof. done. Qed.
Lemma isum_insert f l i x y : l !! i = Some x -> isum f (<[i := y]> l) = isum f l - f i x + f i y.
Proof.
  revert f i. induction l as [|z l IH]; intros f i E; [done|]. destruct i as [|i]; cbn [insert list_insert lookup list_lookup] in *.
  - injection E as ->. rewrite !isum_cons. lia.
  - change (isum f (z :: <[i := y]> l) = isum f (z :: l) - f (S i) x + f (S i) y). rewrite !isum_cons, (IH _ i E). lia.
Qed.
Lemma isum_ext f g l : (forall i x, l !! i = Some x -> f i x = g i x) -> isum f l = isum g l.
Proof.
  revert f g. induction l as [|x l IH]; intros f g E; [done|]. rewrite !isum_cons, (E 0%nat x), (IH _ (λ i, g (S i))); [done| |done].
  intros i y Hy. by apply (E (S i)).
Qed.
Lemma isum_pos f l : (forall i x, l !! i = Some x -> 0 <= f i x) -> 0 <= isum f l.
Proof.
  revert f. induction l as [|x l IH]; intros f E; [done|]. rewrite isum_cons. pose proof (E 0%nat x eq_refl).
  specialize (IH (λ i, f (S i)) (λ i y, E (S i) y)). lia.
Qed.
Lemma isum_ge f l i x : (forall i x, l !! i = Some x -> 0 <= f i x) -> l !! i = Some x -> f i x <= isum f l.
Proof.
  revert f i. induction l as [|z l IH]; intros f i Hp E; [done|]. rewrite isum_cons. destruct i as [|i]; cbn in E.
  - injection E as ->. pose proof (isum_pos (λ i, f (S i)) l (λ i y, Hp (S i) y)). lia.
  - pose proof (Hp 0%nat z eq_refl). specialize (IH (λ i, f (S i)) i (λ i y, Hp (S i) y) E). cbn beta in IH. lia.
Qed.
Lemma isum_le f l : (forall i x, l !! i = Some x -> f i x <= 1) -> isum f l <= Z.of_nat (length l).
Proof.
  revert f. induction l as [|x l IH]; intros f E; [done|]. rewrite isum_cons. pose proof (E 0%nat x eq_refl).
  specialize (IH (λ i, f (S i)) (λ i y, E (S i) y)). cbn [length]. lia.
Qed.
(** A sum of fewer ones than there are elements has a zero. *)
Lemma isum_lt f l : (forall i x, l !! i = Some x -> f i x = 0 \/ f i x = 1) -> isum f l < Z.of_nat (length l) -> exists i x, l !! i = Some x /\ f i x = 0.
Proof.
  revert f. induction l as [|x l IH]; intros f E Hlt; [done|]. rewrite isum_cons in Hlt. destruct (E 0%nat x eq_refl) as [H0|H1]; [by exists 0%nat, x|].
  destruct (IH (λ i, f (S i)) (λ i y, E (S i) y)) as (i & y & Hi & Hf); [cbn [length] in Hlt; lia|]. by exists (S i), y.
Qed.
End isum.

Lemma alter_some {A} (g : A -> A) (l : list A) (i : nat) x : l !! i = Some x -> alter g i l = <[i := g x]> l.
Proof.
  revert i. induction l as [|y l IH]; intros [|i] E; try done; cbn in *; [by injection E as ->|]. f_equal. by apply IH.
Qed.
Lemma isum_alter {A} (f : nat -> A -> Z) (g : A -> A) (l : list A) (i : nat) : (forall j x, f j (g x) = f j x) -> isum f (alter g i l) = isum f l.
Proof.
  intros Hg. destruct (l !! i) as [x|] eqn:E.
  - rewrite (alter_some g l i x), (isum_insert f l i x), Hg by done. lia.
  - f_equal. rewrite (list_alter_ext g id l l i); [by apply list_alter_id|by rewrite E|done].
Qed.

(** ** The invariant *)

Section slots.
Context {T : Type}.
Local Abbreviation Handle := (ClockHandle T).
Local Abbreviation Table := (ClockCacheHandleTable T).
Implicit Types (h : Handle) (hs : list Handle) (t : Table).

Definition slot_state h : Z := meta_state (ch_meta h).
Definition slot_data h : Z * Z * option T * Z := (ch_key h, ch_hash h, ch_value h, ch_charge h).
Definition set_slot (i : nat) h t : Table := with_handles (<[i := h]> (ct_handles t)) t.

(** A slot with [held] references of clients, whose counter is at most [B]: an empty
    one counts the lookups that passed by; an entry that is no longer visible is there
    as long as it is referenced. *)
Definition slot_ok (B held : Z) h : Prop :=
  exists st rel acq, ch_meta h = meta_word st rel acq /\ 0 <= rel <= acq /\ acq <= B < 2 ^ 29 /\ 0 <= held /\ ch_detached h = false /\
    (st = 0 /\ rel = 0 /\ held = 0 \/ (st = 7 \/ st = 6 /\ 0 < held) /\ rel + held = acq /\ 0 < ch_charge h).

Definition occ h : Z := if slot_state h =? 0 then 0 else 1.
Definition occ_sum hs : Z := isum (λ _, occ) hs.
Definition charge_sum hs : Z := isum (λ _ h, occ h * ch_charge h) hs.
(** The entries whose probe sequence passed over the slot [j]. *)
Definition crosses (bits : Z) (j i : nat) h : Z := if decide (j ∈ before i (path bits (ch_hash h))) then 1 else 0.
Definition crossings (bits : Z) hs (j : nat) : Z := isum (λ i h, occ h * crosses bits j i h) hs.

Record slots_inv (bits : Z) (B held : nat -> Z) hs : Prop := {
  si_bits : 0 <= bits < 32;
  si_length : length hs = slot_count bits;
  si_slot : forall i h, hs !! i = Some h -> slot_ok (B i) (held i) h;
  si_disp : forall j h, hs !! j = Some h -> ch_displacements h = crossings bits hs j;
}.

Lemma occ_01 h : occ h = 0 \/ occ h = 1.
Proof. unfold occ. case_match; auto. Qed.
Lemma crosses_01 bits j i h : crosses bits j i h = 0 \/ crosses bits j i h = 1.
Proof. unfold crosses. case_match; auto. Qed.
Lemma occ_cross_01 bits j i h : occ h * crosses bits j i h = 0 \/ occ h * crosses bits j i h = 1.
Proof. destruct (occ_01 h) as [-> | ->], (crosses_01 bits j i h) as [-> | ->]; auto. Qed.

Lemma slot_ok_mono B B' held h : B <= B' < 2 ^ 29 -> slot_ok B held h -> slot_ok B' held h.
Proof. intros HB (st & rel & acq & H1 & H2 & H3 & H). exists st, rel, acq. split; [done|]. split; [done|]. split; [lia|done]. Qed.
Lemma slots_inv_mono bits B B' held held' hs :
  (forall i, (i < slot_count bits)%nat -> B i < 2 ^ 29 -> B i <= B' i < 2 ^ 29 /\ held i = held' i) -> slots_inv bits B held hs -> slots_inv bits B' held' hs.
Proof.
  intros HB [H1 H2 H3 H4]. split; try done. intros i h Hi. pose proof (H3 i h Hi) as Hok. pose proof Hok as (? & ? & ? & _ & _ & [_ Hlt] & _).
  destruct (HB i) as [HBi <-]; [rewrite <- H2; by eapply lookup_lt_Some|done|]. by eapply slot_ok_mono.
Qed.

(** ** Updates of one slot *)

Lemma slot_deref t i h : ct_handles t !! i = Some h -> clock_deref (PtrSlot i) t = (Ok h, t).
Proof. intros E. unfold clock_deref. cbn [slot_lookup]. by rewrite E. Qed.
Lemma slot_assign t i h f : ct_handles t !! i = Some h -> clock_assign (PtrSlot i) f t = (Ok tt, set_slot i (f h) t).
Proof. intros E. unfold clock_assign. cbn [slot_lookup]. by rewrite E. Qed.
Lemma slot_fetch t i h f : ct_handles t !! i = Some h -> fetch_meta (PtrSlot i) f t = (Ok (ch_meta h), set_slot i (with_meta (f (ch_meta h)) h) t).
Proof. intros E. unfold fetch_meta. st_step (slot_deref t i h E). by st_step (slot_assign t i h (λ h, with_meta (f (ch_meta h)) h) E). Qed.
Lemma slot_exchange t i h cur new : ct_handles t !! i = Some h -> ch_meta h = cur -> exchange_meta (PtrSlot i) cur new t = (Ok true, set_slot i (with_meta new h) t).
Proof.
  intros E <-. unfold exchange_meta. st_step (slot_deref t i h E). rewrite Z.eqb_refl. by st_step (slot_assign t i h (with_meta new) E).
Qed.
Lemma set_slot_same t i h : (i < length (ct_handles t))%nat -> ct_handles (set_slot i h t) !! i = Some h.
Proof. intros. cbn. by rewrite list_lookup_insert_eq. Qed.
Lemma set_slot_twice t i h h' : set_slot i h' (set_slot i h t) = set_slot i h' t.
Proof. unfold set_slot, with_handles. cbn. by rewrite list_insert_insert_eq. Qed.
Lemma set_slot_id t i h : ct_handles t !! i = Some h -> set_slot i h t = t.
Proof. intros E. unfold set_slot, with_handles. rewrite list_insert_id by done. by destruct t. Qed.
Lemma with_meta_twice m m' h : with_meta m' (with_meta m h) = with_meta m' h.
Proof. done. Qed.
Lemma with_meta_id h : with_meta (ch_meta h) h = h.
Proof. by destruct h. Qed.

(** An update of the word that leaves the slot occupied or not. *)
Lemma slots_inv_meta bits B held hs i h m b n :
  slots_inv bits B held hs -> hs !! i = Some h -> occ (with_meta m h) = occ h -> slot_ok b n (with_meta m h) ->
  slots_inv bits (λ j, if decide (j = i) then b else B j) (λ j, if decide (j = i) then n else held j) (<[i := with_meta m h]> hs).
Proof.
  intros [H1 H2 H3 H4] E Hs Hok. assert (Hc : forall j, crossings bits (<[i := with_meta m h]> hs) j = crossings bits hs j).
  { intros j. unfold crossings. rewrite (isum_insert _ _ _ h) by done. rewrite Hs. unfold crosses. cbn [ch_hash with_meta]. lia. }
  split; [done|by rewrite length_insert| |].
  - intros j x. destruct (decide (j = i)) as [->|]; [rewrite list_lookup_insert_eq by (by eapply lookup_lt_Some); intros [= <-]; done|]. rewrite list_lookup_insert_ne by done. apply H3.
  - intros j x. rewrite Hc. destruct (decide (j = i)) as [->|]; [rewrite list_lookup_insert_eq by (by eapply lookup_lt_Some); intros [= <-]; by apply (H4 i h)|].
    rewrite list_lookup_insert_ne by done. apply H4.
Qed.
Lemma sums_meta hs i h m : hs !! i = Some h -> occ (with_meta m h) = occ h ->
  occ_sum (<[i := with_meta m h]> hs) = occ_sum hs /\ charge_sum (<[i := with_meta m h]> hs) = charge_sum hs.
Proof.
  intros E Hs. unfold occ_sum, charge_sum. rewrite !(isum_insert _ _ _ h) by done. rewrite Hs. cbn [ch_charge with_meta]. lia.
Qed.

(** ** Displacing a list of slots *)

Definition displace_by (d : Z) h : Handle := with_displacements (wrap32 (ch_displacements h + d)) h.
Fixpoint displace_all (d : Z) (l : list nat) hs : list Handle :=
  match l with [] => hs | j :: l => displace_all d l (alter (displace_by d) j hs) end.

Lemma displace_all_length d l hs : length (displace_all d l hs) = length hs.
Proof. revert hs. induction l as [|j l IH]; intros hs; cbn; [done|]. by rewrite IH, length_alter. Qed.
Lemma displace_all_lookup d l hs i : NoDup l ->
  displace_all d l hs !! i = (λ h, if decide (i ∈ l) then displace_by d h else h) <$> hs !! i.
Proof.
  intros Hl. revert hs. induction Hl as [|j l Hj Hl IH]; intros hs; cbn [displace_all].
  - destruct (hs !! i); cbn; [by rewrite decide_False by apply not_elem_of_nil|done].
  - rewrite IH. destruct (decide (i = j)) as [->|Hne].
    + rewrite list_lookup_alter_eq. destruct (hs !! j); cbn; [|done]. rewrite decide_False by done. rewrite decide_True by (by left). done.
    + rewrite list_lookup_alter_ne by done. destruct (hs !! i); cbn; [|done]. f_equal.
      destruct (decide (i ∈ l)); [by rewrite decide_True by (by right)|]. by rewrite decide_False by (by apply not_elem_of_cons).
Qed.
Lemma displace_all_sum d l hs f : (forall i h d, f i (with_displacements d h) = f i h) -> isum f (displace_all d l hs) = isum f hs.
Proof. intros Hf. revert hs. induction l as [|j l IH]; intros hs; cbn [displace_all]; [done|]. rewrite IH. apply isum_alter. intros i x. apply Hf. Qed.
Lemma displace_sums d l hs : occ_sum (displace_all d l hs) = occ_sum hs /\ charge_sum (displace_all d l hs) = charge_sum hs /\
  (forall bits j, crossings bits (displace_all d l hs) j = crossings bits hs j).
Proof. unfold occ_sum, charge_sum, crossings. split_and!; intros; by apply displace_all_sum. Qed.

(** [rollback] takes back the displacements on the way to the slot. *)
Lemma rollback_loop_ok bits hash i t : 0 <= bits < 32 -> length (ct_handles t) = slot_count bits ->
  forall (fuel m k : nat) t', length (ct_handles t') = slot_count bits ->
  (k + m = slot_count bits)%nat -> (m <= fuel)%nat -> i ∈ (probe_at bits hash <$> seq k m) ->
  rollback_loop fuel (Z.ones bits) (probe_increment hash) (PtrSlot i) ((remix1 hash + Z.of_nat k * probe_increment hash) mod 2 ^ bits) t' =
    (Ok tt, with_handles (displace_all (-1) (before i (probe_at bits hash <$> seq k m)) (ct_handles t')) t').
Proof.
  intros Hb Hlen fuel. induction fuel as [|fuel IH]; intros m k t' Hl Hk Hm Hi; [destruct m; [by apply not_elem_of_nil in Hi|lia]|].
  destruct m as [|m]; [by apply not_elem_of_nil in Hi|]. cbn [rollback_loop seq fmap list_fmap before].
  change (Z.to_nat ((remix1 hash + Z.of_nat k * probe_increment hash) mod 2 ^ bits)) with (probe_at bits hash k).
  destruct (decide (probe_at bits hash k = i)) as [E|Hne].
  - rewrite bool_decide_true by congruence. cbn [displace_all]. by destruct t'.
  - rewrite bool_decide_false by congruence. cbn [seq fmap list_fmap] in Hi. apply elem_of_cons in Hi as [?|Hi]; [congruence|].
    destruct (lookup_lt_is_Some_2 (ct_handles t') (probe_at bits hash k)) as [h Eh]; [rewrite Hl; by apply probe_at_lt|].
    unfold fetch_displacements. st_step (slot_assign t' _ h (λ h, with_displacements (wrap32 (ch_displacements h - 1)) h) Eh).
    rewrite path_next by done. rewrite (IH m (S k)); [|cbn; by rewrite length_insert|lia|lia|done].
    cbn [displace_all]. by rewrite (alter_some _ _ _ h).
Qed.
Lemma rollback_ok bits hash i t : 0 <= bits < 32 -> table_mask t = Z.ones bits -> length (ct_handles t) = slot_count bits -> (i < slot_count bits)%nat ->
  rollback hash (PtrSlot i) t = (Ok tt, with_handles (displace_all (-1) (before i (path bits hash)) (ct_handles t)) t).
Proof.
  intros Hb Hm Hl Hi. unfold rollback. rewrite st_gets, Hm, path_first by done. fold (probe_increment hash).
  replace (remix1 hash mod 2 ^ bits) with ((remix1 hash + Z.of_nat 0 * probe_increment hash) mod 2 ^ bits) by (f_equal; lia).
  apply (rollback_loop_ok bits hash i t Hb Hl _ (slot_count bits) 0); [done|lia| |by apply path_elem].
  pose proof (slot_count_z bits Hb). rewrite Z.ones_equiv. lia.
Qed.

(** ** Entries come and go *)

(** The slots when the entry [h] leaves the slot [i], and when [x] is put there. *)
Definition remove_slot (bits : Z) (i : nat) h hs : list Handle := displace_all (-1) (before i (path bits (ch_hash h))) (<[i := with_meta 0 h]> hs).
Definition put_slot (bits : Z) (i : nat) x hs : list Handle := displace_all 1 (before i (path bits (ch_hash x))) (<[i := x]> hs).

Lemma crossings_bound bits hs j : 0 <= bits < 32 -> length hs = slot_count bits -> 0 <= crossings bits hs j < 2 ^ 32.
Proof.
  intros Hb Hl. pose proof (slot_count_bound bits Hb) as [_ Hn]. unfold crossings. split.
  - apply isum_pos. intros i x _. destruct (occ_cross_01 bits j i x); lia.
  - apply Z.le_lt_trans with (Z.of_nat (length hs)); [|lia]. apply isum_le. intros i x _. destruct (occ_cross_01 bits j i x); lia.
Qed.
(** A slot whose contents change by [d] entries of the hash [hash], with the
    displacements on the path of that hash. *)
Definition on_path (bits hash : Z) (i j : nat) : Z := if decide (j ∈ before i (path bits hash)) then 1 else 0.
Lemma slots_inv_replace bits B B' held held' hs i h x d hash :
  slots_inv bits B held hs -> hs !! i = Some h -> ch_displacements x = ch_displacements h -> slot_ok (B' i) (held' i) x ->
  (forall j, j <> i -> held' j = held j /\ B' j = B j) ->
  (forall j, occ x * crosses bits j i x = occ h * crosses bits j i h + d * on_path bits hash i j) ->
  slots_inv bits B' held' (displace_all d (before i (path bits hash)) (<[i := x]> hs)).
Proof.
  intros [H1 H2 H3 H4] E Hd Hok Hheld Hcr. unfold on_path in Hcr. set (l := before i (path bits hash)) in *.
  assert (Hl : NoDup l) by (by apply before_nodup, path_nodup).
  assert (Hc : forall j, crossings bits (<[i := x]> hs) j = crossings bits hs j + d * (if decide (j ∈ l) then 1 else 0)).
  { intros j. unfold crossings. rewrite (isum_insert _ _ _ h) by done. rewrite Hcr. lia. }
  assert (Hlk : forall j y, displace_all d l (<[i := x]> hs) !! j = Some y -> exists z, <[i := x]> hs !! j = Some z /\ y = (if decide (j ∈ l) then displace_by d z else z)).
  { intros j y. rewrite displace_all_lookup by done. intros (z & Ez & ->)%fmap_Some. by exists z. }
  split; [done|by rewrite displace_all_length, length_insert| |].
  - intros j y (z & Ez & ->)%Hlk. destruct (decide (j = i)) as [->|Hne].
    + rewrite list_lookup_insert_eq in Ez by (by eapply lookup_lt_Some). injection Ez as <-. rewrite decide_False; [done|]. by intros [? ?]%before_elem.
    + rewrite list_lookup_insert_ne in Ez by done. destruct (Hheld j Hne) as [-> ->]. specialize (H3 j z Ez). by case_decide.
  - intros j y (z & Ez & ->)%Hlk. destruct (displace_sums d l (<[i := x]> hs)) as (_ & _ & ->). rewrite Hc.
    assert (Hz : ch_displacements z = crossings bits hs j).
    { destruct (decide (j = i)) as [->|Hne]; [rewrite list_lookup_insert_eq in Ez by (by eapply lookup_lt_Some); injection Ez as <-; rewrite Hd; by apply H4|].
      rewrite list_lookup_insert_ne in Ez by done. by apply H4. }
    assert (Hx : 0 <= crossings bits (<[i := x]> hs) j < 2 ^ 32) by (apply crossings_bound; [done|by rewrite length_insert]). rewrite Hc in Hx.
    case_decide; [|lia]. cbn. rewrite Hz. rewrite wrap_small by (unfold fits; lia). lia.
Qed.

Lemma slots_inv_remove bits B held held' hs i h :
  slots_inv bits B held hs -> hs !! i = Some h -> occ h = 1 -> held' i = 0 -> (forall j, j <> i -> held' j = held j) ->
  slots_inv bits B held' (remove_slot bits i h hs).
Proof.
  intros Hinv E Ho H0 Hh. assert (Ex : occ (with_meta 0 h) = 0) by done.
  eapply (slots_inv_replace bits B); [done|done|done| |by auto|intros j; rewrite Ex, Ho; unfold crosses, on_path; lia].
  rewrite H0. destruct (si_slot _ _ _ _ Hinv i h E) as (? & ? & ? & ? & ? & ? & ? & ? & _). exists 0, 0, 0. split_and!; try done; [lia|lia|by left].
Qed.
Lemma slots_inv_put bits B B' held held' hs i h x :
  slots_inv bits B held hs -> hs !! i = Some h -> occ h = 0 -> occ x = 1 -> ch_displacements x = ch_displacements h -> slot_ok (B' i) (held' i) x ->
  (forall j, j <> i -> held' j = held j /\ B' j = B j) -> slots_inv bits B' held' (put_slot bits i x hs).
Proof.
  intros Hinv E Ho Hx Hd Hok Hh. eapply (slots_inv_replace bits B B'); [done..|]. intros j. rewrite Ho, Hx. unfold crosses, on_path. lia.
Qed.
Lemma put_sums bits hs i h x : hs !! i = Some h -> occ h = 0 -> occ x = 1 ->
  occ_sum (put_slot bits i x hs) = occ_sum hs + 1 /\ charge_sum (put_slot bits i x hs) = charge_sum hs + ch_charge x.
Proof.
  intros E Ho Hx. unfold put_slot. destruct (displace_sums 1 (before i (path bits (ch_hash x))) (<[i := x]> hs)) as (-> & -> & _).
  unfold occ_sum, charge_sum. rewrite !(isum_insert _ _ _ h) by done. rewrite Ho, Hx. lia.
Qed.
Lemma remove_sums bits hs i h : hs !! i = Some h -> occ h = 1 ->
  occ_sum (remove_slot bits i h hs) = occ_sum hs - 1 /\ charge_sum (remove_slot bits i h hs) = charge_sum hs - ch_charge h.
Proof.
  intros E Ho. unfold remove_slot. destruct (displace_sums (-1) (before i (path bits (ch_hash h))) (<[i := with_meta 0 h]> hs)) as (-> & -> & _).
  unfold occ_sum, charge_sum. rewrite !(isum_insert _ _ _ h) by done. assert (Ex : occ (with_meta 0 h) = 0) by done. rewrite Ex, Ho. lia.
Qed.
Lemma remove_lookup bits hs i h j : (i < length hs)%nat -> 0 <= bits < 32 ->
  exists f : Handle -> Handle, remove_slot bits i h hs !! j = f <$> <[i := with_meta 0 h]> hs !! j /\ forall x, slot_data (f x) = slot_data x /\ slot_state (f x) = slot_state x.
Proof.
  intros Hi Hb. exists (λ x, if decide (j ∈ before i (path bits (ch_hash h))) then displace_by (-1) x else x).
  split; [apply displace_all_lookup, before_nodup; by apply path_nodup|]. intros x. by case_decide.
Qed.

Lemma occ_sum_bounds bits B held hs : slots_inv bits B held hs -> 0 <= occ_sum hs <= 2 ^ 31.
Proof.
  intros [H1 H2 _ _]. pose proof (slot_count_bound bits H1) as [_ Hn]. unfold occ_sum. split.
  - apply isum_pos. intros i x _. destruct (occ_01 x); lia.
  - apply Z.le_trans with (Z.of_nat (length hs)); [|lia]. apply isum_le. intros i x _. destruct (occ_01 x); lia.
Qed.
(** What the word of a slot says. *)
Lemma slot_ok_cases B held h : slot_ok B held h ->
  (slot_state h = 0 /\ occ h = 0 /\ held = 0) \/
  ((slot_state h = 7 \/ slot_state h = 6 /\ 0 < held) /\ occ h = 1 /\ 0 < ch_charge h /\ 0 <= held).
Proof.
  intros (st & rel & acq & E & Hw & HB & Hh & _ & Hc). unfold occ, slot_state. rewrite E, state_word by (unfold word_ok; lia).
  destruct Hc as [(-> & -> & ->)|([->|[-> ?]] & ? & ?)]; [left|right|right]; split_and!; auto.
Qed.
Lemma slot_charge_pos B held h : slot_ok B held h -> 0 <= occ h * ch_charge h.
Proof. intros [(_ & -> & _)|(_ & -> & ? & _)]%slot_ok_cases; lia. Qed.
End slots.
