(* ===== verification/ClockOps.v ===== *)
(** * The operations of the clock cache: slots, searches and eviction

    The invariant of a table ([table_inv]): its slots, its detached entries, and the
    counters of occupancy and usage, which run ahead while an insertion is on its way.
    Each search and each step of the hand keeps it. *)

From stdpp Require Import base numbers list gmap.
From Stdlib Require Import ZArith Lia.
From S2P Require Import Prelude CacheHandle ClockWord ClockCache ClockProbe ClockSlots.

(** ** The invariant of a table *)

(** Computes the fields of an updated table. *)
Ltac table_cbn :=
  cbn [ct_handles ct_config ct_boxes ct_occupancy ct_usage ct_detached_usage ct_clock_pointer ct_stats with_handles with_boxes with_occupancy with_usage
    with_detached_usage with_clock_pointer with_stats set_slot table_mask].

Section ops.
Context {T : Type}.
Local Abbreviation Handle := (ClockHandle T).
Local Abbreviation Table := (ClockCacheHandleTable T).
Implicit Types (h : Handle) (hs : list Handle) (t : Table) (held : handle_ptr -> Z).

Definition box_sum (bs : gmap Z Handle) : Z := map_fold (λ _ h n, ch_charge h + n) 0 bs.
Definition box_ok h : Prop := ch_meta h = meta_word 6 0 1 /\ ch_detached h = true /\ 0 < ch_charge h.

(** [mu] is what the handles themselves are charged; [dO] and [dU] are the occupancy and
    the usage that an insertion has added ahead. *)
Record table_inv (bits mu dO dU : Z) (B : nat -> Z) held t : Prop := {
  ti_slots : slots_inv bits B (λ i, held (PtrSlot i)) (ct_handles t);
  ti_bits : cc_length_bits (ct_config t) = bits;
  ti_mask : table_mask t = Z.ones bits;
  ti_limit : 0 <= cc_occupancy_limit (ct_config t) < 2 ^ bits;
  ti_occupancy : ct_occupancy t = occ_sum (ct_handles t) + dO;
  ti_usage : ct_usage t = mu + charge_sum (ct_handles t) + box_sum (ct_boxes t) + dU;
  ti_usage_fits : ct_usage t < 2 ^ 64;
  ti_detached : ct_detached_usage t = box_sum (ct_boxes t);
  ti_boxes : forall p h, ct_boxes t !! p = Some h -> box_ok h /\ held (PtrBox p) = 1;
  ti_no_box : forall p, ct_boxes t !! p = None -> held (PtrBox p) = 0;
}.

Lemma box_sum_nonneg (bs : gmap Z Handle) : (forall p h, bs !! p = Some h -> box_ok h) -> 0 <= box_sum bs.
Proof.
  unfold box_sum. induction bs as [|p h bs Hp IH] using map_ind; intros Hok; [by rewrite map_fold_empty|].
  rewrite map_fold_insert_L by (done || lia). assert (0 < ch_charge h) by (apply (Hok p h), lookup_insert_eq).
  specialize (IH (λ q x Hq, Hok q x (lookup_weaken _ _ _ _ Hq (insert_subseteq bs p h Hp)))). lia.
Qed.
Lemma box_sum_insert (bs : gmap Z Handle) p h : bs !! p = None -> box_sum (<[p := h]> bs) = ch_charge h + box_sum bs.
Proof. intros. unfold box_sum. rewrite map_fold_insert_L by (done || lia). lia. Qed.
Lemma box_sum_delete (bs : gmap Z Handle) p h : bs !! p = Some h -> box_sum (delete p bs) = box_sum bs - ch_charge h.
Proof. intros E. unfold box_sum. rewrite (map_fold_delete_L _ _ p h bs) by (done || lia). lia. Qed.

(** What of a slot an operation on another slot cannot change. *)
Definition view h : Z * Z * option T * Z * Z := (slot_data h, slot_state h).
Definition matches (key : Z) h : Prop := slot_state h = 7 /\ ch_key h = key.
#[global] Instance matches_dec key h : Decision (matches key h).
Proof. apply and_dec; apply _. Defined.

Lemma view_matches key h h' : view h = view h' -> matches key h <-> matches key h'.
Proof. unfold view, matches, slot_data. intros E. injection E as E1 _ _ _ E2. by rewrite E1, E2. Qed.
Lemma table_view_lookup hs hs' i h : view <$> hs' = view <$> hs -> hs !! i = Some h -> exists h', hs' !! i = Some h' /\ view h' = view h.
Proof.
  intros E Hi. assert (E' : (view <$> hs') !! i = Some (view h)) by (by rewrite E, list_lookup_fmap, Hi).
  rewrite list_lookup_fmap in E'. apply fmap_Some in E' as (h' & Hh' & ?). by exists h'.
Qed.
Lemma view_insert hs i h h' : hs !! i = Some h -> view h' = view h -> view <$> <[i := h']> hs = view <$> hs.
Proof. intros E Ev. rewrite list_fmap_insert, Ev. apply list_insert_id. by rewrite list_lookup_fmap, E. Qed.
Lemma view_sums hs hs' : view <$> hs' = view <$> hs -> occ_sum hs' = occ_sum hs /\ charge_sum hs' = charge_sum hs.
Proof.
  assert (Hg : forall (g : nat -> (Z * Z * option T * Z * Z) -> Z) (l l' : list Handle), view <$> l' = view <$> l -> isum (λ i h, g i (view h)) l' = isum (λ i h, g i (view h)) l).
  { intros g l. revert g. induction l as [|x l IH]; intros g [|y l'] E; try done. cbn [fmap list_fmap] in E. assert (Ev : view y = view x) by congruence.
    rewrite !isum_cons, Ev. f_equal. apply (IH (λ i, g (S i))). congruence. }
  intros E. split; [apply (Hg (λ _ v, if v.2 =? 0 then 0 else 1) _ _ E)|].
  exact (Hg (λ _ v, (if v.2 =? 0 then 0 else 1) * v.1.2) _ _ E).
Qed.

(** An operation on slots alone, that leaves the entries. *)
Lemma table_inv_slots bits mu dO dU B B' held held' t hs :
  table_inv bits mu dO dU B held t -> slots_inv bits B' (λ i, held' (PtrSlot i)) hs -> view <$> hs = view <$> ct_handles t ->
  (forall p, held' (PtrBox p) = held (PtrBox p)) -> table_inv bits mu dO dU B' held' (with_handles hs t).
Proof.
  intros [] Hs [Ho Hc]%view_sums Hh. split; table_cbn; try done.
  - by rewrite Ho.
  - by rewrite Hc.
  - intros p h. rewrite Hh. auto.
  - intros p. rewrite Hh. auto.
Qed.
Lemma table_inv_slot bits mu dO dU B held t i : table_inv bits mu dO dU B held t -> (i < slot_count bits)%nat ->
  exists h, ct_handles t !! i = Some h /\ slot_ok (B i) (held (PtrSlot i)) h.
Proof.
  intros Ht Hi. pose proof (ti_slots _ _ _ _ _ _ _ Ht) as Hs. destruct (lookup_lt_is_Some_2 (ct_handles t) i) as [h E]; [by rewrite (si_length _ _ _ _ Hs)|].
  exists h. split; [done|]. by apply (si_slot _ _ _ _ Hs).
Qed.
Lemma with_handles_twice hs hs' t : with_handles hs' (with_handles hs t) = with_handles hs' t.
Proof. done. Qed.
Lemma with_handles_id t : with_handles (ct_handles t) t = t.
Proof. by destruct t. Qed.

(** A slot that an entry was displaced from says so. *)
Lemma crossed_slot bits B n hs i h j hj :
  slots_inv bits B n hs -> hs !! i = Some h -> occ h = 1 -> j ∈ before i (path bits (ch_hash h)) -> hs !! j = Some hj -> ch_displacements hj <> 0.
Proof.
  intros Hs Hi Ho Hj Ej. rewrite (si_disp _ _ _ _ Hs j hj Ej). unfold crossings.
  assert (occ h * crosses bits j i h <= isum (λ i h, occ h * crosses bits j i h) hs).
  { apply (isum_ge (λ i h, occ h * crosses bits j i h)); [|done]. intros x y _. destruct (occ_cross_01 bits j x y); lia. }
  assert (Hone : crosses bits j i h = 1) by (unfold crosses; by rewrite decide_True). rewrite Ho, Hone in H. lia.
Qed.
Lemma before_middle i j l1 l2 : NoDup (l1 ++ j :: l2) -> i ∈ l2 -> j ∈ before i (l1 ++ j :: l2).
Proof.
  induction l1 as [|x l1 IH]; cbn [app before]; intros Hn Hi.
  - apply NoDup_cons in Hn as [Hj _]. rewrite decide_False by (by intros ->). by left.
  - apply NoDup_cons in Hn as [Hx Hn]. rewrite decide_False; [right; by apply IH|]. intros ->. apply Hx, elem_of_app. right. by right.
Qed.

(** ** Lookup *)

(** One probe of a lookup: the reference stays when the slot matches. *)
Lemma lookup_match_ok key t i h B n : ct_handles t !! i = Some h -> slot_ok B n h -> B + 1 < 2 ^ 29 ->
  exists m, lookup_match key i t = (Ok (bool_decide (matches key h)), set_slot i (with_meta m h) t) /\
    slot_state (with_meta m h) = slot_state h /\ slot_ok (B + 1) (n + if decide (matches key h) then 1 else 0) (with_meta m h).
Proof.
  intros E (st & rel & acq & Em & Hw & HB & Hn & Hdet & Hc) Hb1. assert (Hlt : (i < length (ct_handles t))%nat) by (by eapply lookup_lt_Some).
  assert (Hok : word_ok st rel acq) by (unfold word_ok; lia). assert (Hok' : word_ok st rel (acq + 1)) by (unfold word_ok; lia).
  assert (Hst : slot_state h = st) by (unfold slot_state; by rewrite Em, state_word).
  unfold lookup_match. st_step (slot_fetch t i h (λ m, wrap64 (m + ACQUIRE_INCREMENT)) E). change ACQUIRE_INCREMENT with 1.
  rewrite Em, word_acquire by (done || lia). rewrite state_word by done. change STATE_VISIBLE with 7. change STATE_INVISIBLE with 6.
  set (t1 := set_slot i _ t). assert (E1 : ct_handles t1 !! i = Some (with_meta (meta_word st rel (acq + 1)) h)) by (by apply set_slot_same).
  assert (Hback : fetch_meta (PtrSlot i) (λ m, wrap64 (m - 1)) t1 = (Ok (meta_word st rel (acq + 1)), set_slot i h t)).
  { rewrite (slot_fetch t1 i _ (λ m, wrap64 (m - 1)) E1). cbn [ch_meta with_meta]. rewrite word_unacquire by (done || lia). unfold t1.
    rewrite with_meta_twice, set_slot_twice. replace (acq + 1 - 1) with acq by lia. by rewrite <- Em, with_meta_id. }
  assert (Hmat : matches key h <-> st = 7 /\ ch_key h = key) by (unfold matches; by rewrite Hst). destruct (st =? 7) eqn:E7; [apply Z.eqb_eq in E7|apply Z.eqb_neq in E7; destruct (st =? 6) eqn:E6].
  - st_step (slot_deref t1 i _ E1). cbn [ch_key with_meta]. destruct (ch_key h =? key) eqn:Ek; [apply Z.eqb_eq in Ek|apply Z.eqb_neq in Ek].
    + exists (meta_word st rel (acq + 1)). rewrite bool_decide_true, decide_True by (by apply Hmat). split; [done|]. split; [unfold slot_state; cbn; by rewrite state_word|].
      exists st, rel, (acq + 1). split_and!; cbn [ch_charge ch_meta with_meta]; try done; lia.
    + st_step Hback. exists (ch_meta h). rewrite bool_decide_false, decide_False by (rewrite Hmat; naive_solver). rewrite with_meta_id, Z.add_0_r.
      split_and!; [done|done|]. exists st, rel, acq. split_and!; cbn [ch_charge ch_meta with_meta]; try done; lia.
  - st_step Hback. exists (ch_meta h). rewrite bool_decide_false, decide_False by (rewrite Hmat; naive_solver). rewrite with_meta_id, Z.add_0_r.
    split_and!; [done|done|]. exists st, rel, acq. split_and!; cbn [ch_charge ch_meta with_meta]; try done; lia.
  - exists (meta_word st rel (acq + 1)). apply Z.eqb_neq in E6. rewrite bool_decide_false, decide_False by (rewrite Hmat; naive_solver). rewrite Z.add_0_r.
    split; [done|]. split; [unfold slot_state; cbn; by rewrite state_word|]. exists st, rel, (acq + 1). split_and!; cbn [ch_charge ch_meta with_meta]; try done; lia.
Qed.

Definition plus_one (q : handle_ptr) held : handle_ptr -> Z := λ q', held q' + (if decide (q' = q) then 1 else 0).
Definition counted (B : nat -> Z) (l : list nat) : nat -> Z := λ j, if decide (j ∈ l) then B j + 1 else B j.

Lemma not_displaced_ok t i h : ct_handles t !! i = Some h -> not_displaced i t = (Ok (ch_displacements h =? 0), t).
Proof. intros E. unfold not_displaced. by st_step (slot_deref t i h E). Qed.

(** A walk along a path, from the slot [i] of the path on. *)
Lemma path_middle bits hash pre i l : 0 <= bits < 32 -> path bits hash = pre ++ i :: l ->
  (i < slot_count bits)%nat /\ (i ∉ l) /\ path bits hash = (pre ++ [i]) ++ l /\
  (forall x, (x < slot_count bits)%nat -> x ∉ pre -> x <> i -> i ∈ before x (path bits hash)).
Proof.
  intros Hb Hp. pose proof (path_nodup bits Hb hash) as Hn. rewrite Hp in Hn. split_and!.
  - apply (path_elem bits Hb hash). rewrite Hp. apply elem_of_app. right. by left.
  - apply NoDup_app in Hn as (_ & _ & Hn). by apply NoDup_cons in Hn as [? _].
  - by rewrite <- app_assoc.
  - intros x Hx Hxp Hne. rewrite Hp. apply before_middle; [done|]. apply (path_elem bits Hb hash) in Hx. rewrite Hp in Hx.
    apply elem_of_app in Hx as [?|[?|?]%elem_of_cons]; congruence.
Qed.
(** Where nothing was displaced from, no entry of this path lies further on. *)
Lemma stop_no_match bits B n hs hash key pre i l hi :
  slots_inv bits B n hs -> path bits hash = pre ++ i :: l -> hs !! i = Some hi -> ch_displacements hi = 0 -> ~ matches key hi ->
  (forall x h, hs !! x = Some h -> matches key h -> ch_hash h = hash /\ x ∉ pre) -> forall x h, hs !! x = Some h -> ~ matches key h.
Proof.
  intros Hs Hp Hi Hd Hmi Hm x h Hx Hmx. destruct (Hm x h Hx Hmx) as [Hhash Hpre]. destruct (path_middle bits hash pre i l (si_bits _ _ _ _ Hs) Hp) as (_ & _ & _ & Hbef).
  revert Hd. eapply (crossed_slot bits B n hs x h i hi Hs Hx); [unfold occ; destruct Hmx as [-> _]; done| |done]. rewrite Hhash. apply Hbef; [|done|congruence].
  rewrite <- (si_length _ _ _ _ Hs). by eapply lookup_lt_Some.
Qed.
Lemma walk_end_no_match bits B n hs hash key :
  slots_inv bits B n hs -> (forall x h, hs !! x = Some h -> matches key h -> ch_hash h = hash /\ x ∉ path bits hash) ->
  forall x h, hs !! x = Some h -> ~ matches key h.
Proof.
  intros Hs Hm x h Hx Hmx. destruct (Hm x h Hx Hmx) as [_ Hni]. apply Hni, path_elem; [by apply Hs|]. rewrite <- (si_length _ _ _ _ Hs). by eapply lookup_lt_Some.
Qed.

Lemma table_inv_bound bits mu dO dU B B' held t :
  (forall i, (i < slot_count bits)%nat -> B i < 2 ^ 29 -> B i <= B' i < 2 ^ 29) -> table_inv bits mu dO dU B held t -> table_inv bits mu dO dU B' held t.
Proof. intros HB []. split; try done. eapply slots_inv_mono; [|done]. intros i Hi Hlt. split; [by apply HB|done]. Qed.
Lemma counted_more bits mu dO dU B l l' held t : l ⊆ l' -> (forall i, i ∈ l' -> B i + 1 < 2 ^ 29) ->
  table_inv bits mu dO dU (counted B l) held t -> table_inv bits mu dO dU (counted B l') held t.
Proof.
  intros Hl HB. apply table_inv_bound. intros i Hi Hlt. unfold counted in *. specialize (HB i).
  destruct (decide (i ∈ l)) as [?%Hl|?], (decide (i ∈ l')); try done; try lia. specialize (HB e). lia.
Qed.
Lemma counted_twice bits mu dO dU B i l held t : i ∉ l -> table_inv bits mu dO dU (counted (counted B [i]) l) held t -> table_inv bits mu dO dU (counted B (i :: l)) held t.
Proof.
  intros Hi. apply table_inv_bound. intros j _. unfold counted.
  destruct (decide (j ∈ l)) as [Hj|Hj].
  - rewrite decide_False by (intros ->%list_elem_of_singleton; done). rewrite decide_True by (by right). lia.
  - destruct (decide (j ∈ [i])) as [->%list_elem_of_singleton|Hne]; [rewrite decide_True by (by left); lia|].
    rewrite decide_False by (intros [->|?]%elem_of_cons; [apply Hne; by left|done]). lia.
Qed.
Lemma counted_nil B : counted B [] = B.
Proof. done. Qed.

(** One step of a walk that leaves the slot occupied or not. *)
Lemma table_inv_occ bits mu dO dU B held held' t i h m :
  table_inv bits mu dO dU B held t -> ct_handles t !! i = Some h -> occ (with_meta m h) = occ h -> slot_ok (B i + 1) (held' (PtrSlot i)) (with_meta m h) ->
  (forall q, q <> PtrSlot i -> held' q = held q) -> table_inv bits mu dO dU (counted B [i]) held' (set_slot i (with_meta m h) t).
Proof.
  intros [] E Eo Hok Hh. destruct (sums_meta _ i h m E Eo) as [Es Ec].
  split; table_cbn; try done; [|by rewrite Es|by rewrite Ec| |].
  - eapply slots_inv_mono; [|exact (slots_inv_meta _ _ _ _ _ _ _ _ _ ti_slots0 E Eo Hok)]. intros j _. unfold counted. cbn beta. case_decide as Ej.
    + subst. rewrite decide_True by (by left). intros. split; [lia|done].
    + rewrite decide_False by (intros ?%list_elem_of_singleton; done). intros. split; [lia|]. symmetry. apply Hh. congruence.
  - intros p x Hx. rewrite Hh by done. by apply ti_boxes0.
  - intros p Hp. rewrite Hh by done. by apply ti_no_box0.
Qed.
(** The same, where the state is left too. *)
Lemma table_inv_meta bits mu dO dU B held held' t i h m :
  table_inv bits mu dO dU B held t -> ct_handles t !! i = Some h -> slot_state (with_meta m h) = slot_state h -> slot_ok (B i + 1) (held' (PtrSlot i)) (with_meta m h) ->
  (forall q, q <> PtrSlot i -> held' q = held q) ->
  table_inv bits mu dO dU (counted B [i]) held' (set_slot i (with_meta m h) t) /\ view <$> ct_handles (set_slot i (with_meta m h) t) = view <$> ct_handles t.
Proof.
  intros Ht E Est Hok Hh. split; [eapply table_inv_occ; [done|done|unfold occ; by rewrite Est|done|done]|].
  apply (view_insert _ i h); [done|]. unfold view. by rewrite Est.
Qed.

Lemma lookup_walk bits mu key hash pre l : path bits hash = pre ++ l -> forall probe t B held,
  table_inv bits mu 0 0 B held t -> (forall i, i ∈ l -> B i + 1 < 2 ^ 29) ->
  (forall i h, ct_handles t !! i = Some h -> matches key h -> ch_hash h = hash /\ i ∉ pre) ->
  exists r k hs, walk (lookup_match key) not_displaced no_update probe l t = (Ok (r, k), with_handles hs t) /\
    table_inv bits mu 0 0 (counted B l) (match r with Some i => plus_one (PtrSlot i) held | None => held end) (with_handles hs t) /\
    view <$> hs = view <$> ct_handles t /\
    match r with
    | Some i => exists h, ct_handles t !! i = Some h /\ matches key h
    | None => forall i h, ct_handles t !! i = Some h -> ~ matches key h
    end.
Proof.
  revert pre. induction l as [|i l IH]; intros pre Hp probe t B held Ht HB Hm; cbn [walk]; pose proof (ti_slots _ _ _ _ _ _ _ Ht) as Hs.
  { exists None, probe, (ct_handles t). rewrite with_handles_id, counted_nil. split_and!; [done|done|done|]. rewrite app_nil_r in Hp. subst pre. by eapply walk_end_no_match. }
  destruct (path_middle bits hash pre i l (si_bits _ _ _ _ Hs) Hp) as (Hi & Hil & Hp' & _).
  destruct (table_inv_slot _ _ _ _ _ _ _ i Ht Hi) as (h & E & Hok). assert (HBi : B i + 1 < 2 ^ 29) by (apply HB; by left).
  destruct (lookup_match_ok key t i h (B i) (held (PtrSlot i)) E Hok HBi) as (m & Em & Est & Hok'). st_step Em. case_decide as Hmat.
  - rewrite bool_decide_true by done. eexists (Some i), _, _. split; [reflexivity|].
    destruct (table_inv_meta _ _ _ _ B held (plus_one (PtrSlot i) held) t i h m Ht E Est) as [Ht' Hv].
    { unfold plus_one. by rewrite decide_True. } { intros q Hq. unfold plus_one. rewrite decide_False by done. lia. }
    split_and!; [|done|by exists h]. eapply counted_more; [| |exact Ht']; [intros j ->%list_elem_of_singleton; by left|done].
  - rewrite bool_decide_false by done. rewrite Z.add_0_r in Hok'. destruct (table_inv_meta _ _ _ _ B held held t i h m Ht E Est Hok') as [Ht1 Hv]; [done|].
    set (t1 := set_slot i (with_meta m h) t) in *. assert (E1 : ct_handles t1 !! i = Some (with_meta m h)) by (apply set_slot_same; by eapply lookup_lt_Some).
    st_step (not_displaced_ok t1 i _ E1). cbn [ch_displacements with_meta]. destruct (ch_displacements h =? 0) eqn:Ed.
    + exists None, probe, (<[i := with_meta m h]> (ct_handles t)). split; [done|]. split_and!; [|done|].
      * eapply counted_more; [| |exact Ht1]; [intros j ->%list_elem_of_singleton; by left|done].
      * apply Z.eqb_eq in Ed. by eapply stop_no_match.
    + change (mbind ?f (no_update i) ?s) with (f tt s). cbn beta.
      destruct (IH (pre ++ [i]) Hp' (probe + 1) t1 (counted B [i]) held Ht1) as (r & k & hs & E2 & H1 & H2 & H3).
      { intros j Hj. unfold counted. rewrite decide_False by (intros ->%list_elem_of_singleton; done). apply HB. by right. }
      { intros x y Hx Hmy. destruct (table_view_lookup (ct_handles t1) (ct_handles t) x y) as (z & Hz & Hvz); [done|done|].
        assert (Hmz : matches key z) by (by apply (view_matches key z y)). destruct (Hm x z Hz Hmz) as [Hhz Hpz]. split; [unfold view, slot_data in Hvz; congruence|].
        intros [?| ->%list_elem_of_singleton]%elem_of_app; [done|]. congruence. }
      exists r, k, hs. split; [exact E2|]. split_and!; [|congruence|].
      * by apply counted_twice.
      * destruct r as [x|]; [|intros x y Hx Hmy; destruct (table_view_lookup (ct_handles t) (ct_handles t1) x y) as (z & Hz & Hvz); [done|done|]; apply (H3 x z Hz); by apply (view_matches key z y)].
        destruct H3 as (y & Hy & Hmy). destruct (table_view_lookup (ct_handles t1) (ct_handles t) x y) as (z & Hz & Hvz); [done|done|]. exists z. split; [done|]. by apply (view_matches key z y).
Qed.
End ops.
