(* ===== verification/ClockFree.v ===== *)
(** * The operations of the clock cache that free slots: erase and eviction

    An entry that is not referenced leaves its slot: the word goes through the state of
    construction, the displacements on its path are taken back, and the counters of the
    table follow. [fades] says which entries an operation may take away. *)

From stdpp Require Import base numbers list gmap.
From Stdlib Require Import ZArith Lia.
From S2P Require Import Prelude CacheHandle ClockWord ClockCache ClockProbe ClockSlots ClockOps.

Section free.
Context {T : Type}.
Local Abbreviation Handle := (ClockHandle T).
Local Abbreviation Table := (ClockCacheHandleTable T).
Implicit Types (h : Handle) (hs : list Handle) (t : Table) (held : handle_ptr -> Z) (P : Handle -> Prop).

(** ** Entries that fade *)

Definition fades_slot P h h' : Prop :=
  slot_data h' = slot_data h /\
  (slot_state h' = slot_state h \/ (slot_state h = 7 /\ P h /\ (slot_state h' = 0 \/ slot_state h' = 6)) \/ (slot_state h = 6 /\ slot_state h' = 0)).
Definition fades P hs hs' : Prop := Forall2 (fades_slot P) hs hs'.

Lemma fades_refl P hs : fades P hs hs.
Proof. induction hs; constructor; [|done]. split; [done|by left]. Qed.
Lemma fades_slot_trans P h1 h2 h3 : (forall h h', slot_data h = slot_data h' -> P h -> P h') -> fades_slot P h1 h2 -> fades_slot P h2 h3 -> fades_slot P h1 h3.
Proof.
  intros HP [D1 S1] [D2 S2]. split; [congruence|]. assert (Hp : P h2 -> P h1) by (apply (HP h2 h1); congruence).
  assert (Hp' : P h1 -> P h2) by (apply (HP h1 h2); congruence).
  destruct S1 as [E1|[(A1 & A2 & A3)|[A1 A2]]], S2 as [E2|[(C1 & C2 & C3)|[C1 C2]]]; try lia; try (left; congruence).
  - right. left. split_and!; [congruence|by apply Hp|done].
  - right. left. split_and!; [done|done|]. rewrite E2. done.
  - right. left. split_and!; [done|done|by left].
Qed.
Lemma fades_trans P hs1 hs2 hs3 : (forall h h', slot_data h = slot_data h' -> P h -> P h') -> fades P hs1 hs2 -> fades P hs2 hs3 -> fades P hs1 hs3.
Proof.
  intros HP H. revert hs3. induction H as [|h1 h2 l1 l2 H _ IH]; intros l3 H3; inversion H3; subst; constructor; [by eapply fades_slot_trans|by apply IH].
Qed.
Lemma fades_view P hs hs' : view <$> hs' = view <$> hs -> fades P hs hs'.
Proof.
  revert hs'. induction hs as [|h hs IH]; intros [|h' hs'] E; try done; [constructor|]. cbn [fmap list_fmap] in E.
  assert (Ev : view h' = view h) by congruence. constructor; [|apply IH; congruence]. unfold view in Ev. split; [|left]; congruence.
Qed.
Lemma fades_lookup P hs hs' i h' : fades P hs hs' -> hs' !! i = Some h' -> exists h, hs !! i = Some h /\ fades_slot P h h'.
Proof. intros H E. destruct (Forall2_lookup_r _ _ _ _ _ H E) as (h & ? & ?). by exists h. Qed.
Lemma fades_lookup_l P hs hs' i h : fades P hs hs' -> hs !! i = Some h -> exists h', hs' !! i = Some h' /\ fades_slot P h h'.
Proof. intros H E. destruct (Forall2_lookup_l _ _ _ _ _ H E) as (h' & ? & ?). by exists h'. Qed.
Lemma fades_weaken P Q hs hs' : (forall h, P h -> Q h) -> fades P hs hs' -> fades Q hs hs'.
Proof. intros HPQ H. eapply Forall2_impl; [exact H|]. intros h h' [D S]. split; [done|]. naive_solver. Qed.
Lemma fades_matches P key hs hs' i h' : fades P hs hs' -> hs' !! i = Some h' -> matches key h' -> exists h, hs !! i = Some h /\ matches key h /\ slot_data h' = slot_data h.
Proof.
  intros H E [Hs Hk]. destruct (fades_lookup _ _ _ _ _ H E) as (h & Eh & Ed & S). exists h. split; [done|]. unfold matches, slot_data in *.
  assert (ch_key h' = ch_key h) by congruence. split; [|done]. destruct S as [?|[(_ & _ & ?)|[_ ?]]]; [split; congruence|lia|lia].
Qed.

(** ** Taking an entry out of its slot *)

Definition CONSTRUCTION_WORD : Z := Z.shiftl STATE_CONSTRUCTION STATE_SHIFT.
Lemma construction_word : CONSTRUCTION_WORD = meta_word 4 0 0.
Proof. done. Qed.

Lemma displace_insert d l i h hs : i ∉ l -> NoDup l -> <[i := h]> (displace_all d l hs) = displace_all d l (<[i := h]> hs).
Proof.
  intros Hi Hl. apply list_eq. intros j. rewrite displace_all_lookup by done. destruct (decide (j = i)) as [->|Hne].
  - destruct (decide (i < length hs)%nat).
    + rewrite !list_lookup_insert_eq by (by rewrite ?displace_all_length). cbn [fmap option_fmap option_map]. by rewrite decide_False.
    + rewrite !lookup_ge_None_2; [done| |]; rewrite length_insert, ?displace_all_length; lia.
  - rewrite !list_lookup_insert_ne, displace_all_lookup by done. done.
Qed.
Lemma displace_slot d l i hs : i ∉ l -> NoDup l -> displace_all d l hs !! i = hs !! i.
Proof. intros Hi Hl. rewrite displace_all_lookup by done. destruct (hs !! i); [|done]. cbn [fmap option_fmap option_map]. by rewrite decide_False. Qed.
Lemma not_before i l : i ∉ before i l.
Proof. by intros [_ ?]%before_elem. Qed.

Lemma free_ok t i h : ct_handles t !! i = Some h -> ch_meta h = CONSTRUCTION_WORD -> free_data_mark_empty (PtrSlot i) t = (Ok tt, set_slot i (with_meta 0 h) t).
Proof. intros E Em. unfold free_data_mark_empty. st_step (slot_fetch t i h (λ _, 0) E). rewrite Em. done. Qed.
Lemma reclaim_ok t c : 0 < ct_occupancy t < 2 ^ 32 -> 0 < ct_usage t < 2 ^ 64 -> 0 <= c <= ct_usage t ->
  reclaim_entry_usage c t = (Ok tt, with_usage (ct_usage t - c) (with_occupancy (ct_occupancy t - 1) t)).
Proof.
  intros Ho Hu Hc. unfold reclaim_entry_usage, fetch_occupancy, fetch_usage, mbind, st_bind, lift, rassert.
  cbn [ct_occupancy ct_usage with_occupancy with_usage]. rewrite (proj2 (Z.ltb_lt _ _)) by lia. rewrite (proj2 (Z.ltb_lt _ _)) by lia.
  rewrite !wrap_small by (unfold fits; lia). done.
Qed.

(** The slot is free; the counters still have the entry. *)
Lemma table_inv_remove bits mu dO dU B held held' t i h :
  table_inv bits mu dO dU B held t -> ct_handles t !! i = Some h -> occ h = 1 -> held' (PtrSlot i) = 0 -> (forall q, q <> PtrSlot i -> held' q = held q) ->
  table_inv bits mu (dO + 1) (dU + ch_charge h) B held' (with_handles (remove_slot bits i h (ct_handles t)) t).
Proof.
  intros [] E Ho H0 Hh. destruct (remove_sums bits (ct_handles t) i h E Ho) as [Eo Ec].
  split; table_cbn; try done; [|lia|lia| |].
  - eapply slots_inv_remove; [done|done|done|done|]. intros j Hj. apply Hh. congruence.
  - intros p x Hx. rewrite Hh by done. by apply ti_boxes.
  - intros p Hp. rewrite Hh by done. by apply ti_no_box.
Qed.
Lemma table_inv_counters bits mu dO dU dO' dU' B held t :
  table_inv bits mu dO dU B held t -> ct_usage t - dU + dU' < 2 ^ 64 ->
  table_inv bits mu dO' dU' B held (with_usage (ct_usage t - dU + dU') (with_occupancy (ct_occupancy t - dO + dO') t)).
Proof. intros [] Hu. split; table_cbn; try done; lia. Qed.
Lemma remove_fades P bits t i h : 0 <= bits < 32 -> ct_handles t !! i = Some h -> slot_state h = 6 \/ slot_state h = 7 /\ P h -> fades P (ct_handles t) (remove_slot bits i h (ct_handles t)).
Proof.
  intros Hb E Hs. apply Forall2_same_length_lookup_2; [unfold remove_slot; by rewrite displace_all_length, length_insert|]. intros j x y Ex Ey.
  destruct (remove_lookup bits (ct_handles t) i h j) as (f & Ef & Hf); [by eapply lookup_lt_Some|done|]. rewrite Ef in Ey. apply fmap_Some in Ey as (z & Ez & ->).
  destruct (Hf z) as [Hd Hst]. unfold fades_slot. rewrite Hd, Hst. destruct (decide (j = i)) as [->|Hne].
  - rewrite list_lookup_insert_eq in Ez by (by eapply lookup_lt_Some). injection Ez as <-. assert (x = h) as -> by congruence. split; [done|].
    assert (E0 : slot_state (with_meta 0 h) = 0) by done. rewrite E0. destruct Hs as [?|[? ?]]; [right; by right|right; left; split_and!; [done|done|by left]].
  - rewrite list_lookup_insert_ne in Ez by done. assert (z = x) as -> by congruence. split; [done|by left].
Qed.
Lemma charge_le bits mu dO dU B held t i h : table_inv bits mu dO dU B held t -> 0 <= mu -> 0 <= dO -> 0 <= dU -> ct_handles t !! i = Some h -> occ h = 1 ->
  0 < ch_charge h <= ct_usage t - dU /\ 0 < ct_occupancy t - dO <= 2 ^ 31.
Proof.
  intros [Hs _ _ _ Hoc Hus Huf Hdt Hbx Hnb] Hmu HdO HdU E Ho. pose proof (si_slot _ _ _ _ Hs) as Hok.
  assert (Hc : forall j x, ct_handles t !! j = Some x -> 0 <= occ x * ch_charge x) by (intros j x Hx; by eapply slot_charge_pos, Hok).
  pose proof (isum_ge (λ _ h, occ h * ch_charge h) _ i h Hc E) as Hge. cbn beta in Hge. fold (charge_sum (ct_handles t)) in Hge. rewrite Ho in Hge.
  pose proof (isum_ge (λ _, occ) (ct_handles t) i h) as Hge2. cbn beta in Hge2. fold (occ_sum (ct_handles t)) in Hge2. rewrite Ho in Hge2. specialize (Hge2 ltac:(intros ? x _; destruct (occ_01 x); lia) E).
  pose proof (occ_sum_bounds _ _ _ _ Hs). pose proof (box_sum_nonneg (ct_boxes t) (λ p x Hx, proj1 (Hbx p x Hx))).
  destruct (slot_ok_cases _ _ _ (Hok i h E)) as [(_ & ? & _)|(_ & _ & ? & _)]; lia.
Qed.

(** ** Erase *)

(** What an operation on slots leaves of a table. *)
Definition same_rest t t' : Prop := ct_config t' = ct_config t /\ ct_boxes t' = ct_boxes t /\ ct_clock_pointer t' = ct_clock_pointer t /\ ct_usage t' <= ct_usage t.

(** The last reference to the entry [h] of the slot [i] was taken: it is freed. *)
Definition drop_entry (bits : Z) (i : nat) h t : Table :=
  with_handles (remove_slot bits i h (ct_handles t)) (with_usage (ct_usage t - ch_charge h) (with_occupancy (ct_occupancy t - 1) t)).
Lemma drop_entry_inv bits mu B held held' t i h :
  table_inv bits mu 0 0 B held t -> ct_handles t !! i = Some h -> occ h = 1 -> 0 <= mu -> held' (PtrSlot i) = 0 -> (forall q, q <> PtrSlot i -> held' q = held q) ->
  table_inv bits mu 0 0 B held' (drop_entry bits i h t) /\ same_rest t (drop_entry bits i h t).
Proof.
  intros Ht E Ho Hmu H0 Hh. destruct (charge_le _ _ _ _ _ _ _ _ _ Ht Hmu ltac:(lia) ltac:(lia) E Ho) as [Hc _].
  split; [|unfold same_rest, drop_entry; table_cbn; split_and!; [done..|lia]].
  pose proof (table_inv_remove _ _ _ _ _ _ held' _ _ _ Ht E Ho H0 Hh) as Ht1.
  pose proof (table_inv_counters _ _ _ _ 0 0 _ _ _ Ht1) as Ht2. cbn in Ht2. unfold drop_entry.
  replace (ct_usage t - (0 + ch_charge h) + 0) with (ct_usage t - ch_charge h) in Ht2 by lia. replace (ct_occupancy t - (0 + 1) + 0) with (ct_occupancy t - 1) in Ht2 by lia.
  apply Ht2. pose proof (ti_usage_fits _ _ _ _ _ _ _ Ht). lia.
Qed.

Lemma erase_last bits mu B held t i h w :
  table_inv bits mu 0 0 B held t -> 0 <= mu -> ct_handles t !! i = Some h -> occ h = 1 -> ref_count w = 1 ->
  erase_loop 1 (ch_hash h) i w (set_slot i (with_meta w h) t) = (Ok tt, drop_entry bits i h t).
Proof.
  intros Ht Hmu E Ho Hw. pose proof (lookup_lt_Some _ _ _ E) as Hlt. pose proof (ti_slots _ _ _ _ _ _ _ Ht) as Hs.
  destruct (charge_le _ _ _ _ _ _ _ _ _ Ht Hmu ltac:(lia) ltac:(lia) E Ho) as [Hc Hocc]. pose proof (ti_usage_fits _ _ _ _ _ _ _ Ht).
  cbn [erase_loop]. rewrite st_assert by (by rewrite Hw). rewrite Hw. change (1 <? 1) with false. cbn iota.
  set (t1 := set_slot i _ t). assert (E1 : ct_handles t1 !! i = Some (with_meta w h)) by (by apply set_slot_same).
  st_step (slot_exchange t1 i _ w CONSTRUCTION_WORD E1 eq_refl). unfold t1. rewrite set_slot_twice, with_meta_twice.
  set (t2 := set_slot i _ t). assert (E2 : ct_handles t2 !! i = Some (with_meta CONSTRUCTION_WORD h)) by (by apply set_slot_same).
  st_step (slot_deref t2 i _ E2). cbn [ch_hash with_meta]. rewrite st_assert by apply Z.eqb_refl. st_step (free_ok t2 i _ E2 eq_refl). unfold t2. rewrite set_slot_twice, with_meta_twice.
  cbn [ch_charge with_meta].
  assert (Er : reclaim_entry_usage (ch_charge h) (set_slot i (with_meta 0 h) t) = (Ok tt, set_slot i (with_meta 0 h) (with_usage (ct_usage t - ch_charge h) (with_occupancy (ct_occupancy t - 1) t)))) by (apply reclaim_ok; table_cbn; lia).
  st_step Er.
  rewrite (rollback_ok bits); [|apply Hs|apply (ti_mask _ _ _ _ _ _ _ Ht)| |].
  - unfold drop_entry, remove_slot. done.
  - cbn. rewrite length_insert. apply (si_length _ _ _ _ Hs).
  - rewrite <- (si_length _ _ _ _ Hs). done.
Qed.

Lemma erase_shared hash t i h st rel acq : (i < length (ct_handles t))%nat -> word_ok st rel acq -> 1 < acq - rel ->
  erase_loop 1 hash i (meta_word st rel acq) (set_slot i (with_meta (meta_word st rel acq) h) t) = (Ok tt, set_slot i (with_meta (meta_word st rel (acq - 1)) h) t).
Proof.
  intros Hlt Hw Hr. assert (Href : ref_count (meta_word st rel acq) = acq - rel) by (rewrite ref_count_word by done; unfold word_ok in Hw; apply wrap_small; unfold fits; lia).
  cbn [erase_loop]. rewrite Href, st_assert by (apply Z.ltb_lt; lia). rewrite (proj2 (Z.ltb_lt 1 _)) by lia.
  set (t2 := set_slot i _ t). assert (E2 : ct_handles t2 !! i = Some (with_meta (meta_word st rel acq) h)) by (by apply set_slot_same).
  st_step (slot_fetch t2 i _ (λ m, wrap64 (m - ACQUIRE_INCREMENT)) E2). cbn [ch_meta with_meta]. change ACQUIRE_INCREMENT with 1.
  rewrite word_unacquire by (done || (unfold word_ok in Hw; lia)). unfold t2. by rewrite set_slot_twice, with_meta_twice.
Qed.

Lemma erase_match_ok bits mu B held t i h key hash :
  table_inv bits mu 0 0 B held t -> 0 <= mu -> ct_handles t !! i = Some h -> B i + 1 < 2 ^ 29 -> (matches key h -> ch_hash h = hash) ->
  exists t', erase_match key hash i t = (Ok false, t') /\ table_inv bits mu 0 0 (counted B [i]) held t' /\ same_rest t t' /\
    fades (matches key) (ct_handles t) (ct_handles t') /\ (forall h', ct_handles t' !! i = Some h' -> ~ matches key h').
Proof.
  intros Ht Hmu E HB1 Hhash. pose proof (ti_slots _ _ _ _ _ _ _ Ht) as Hs. pose proof (si_slot _ _ _ _ Hs i h E) as Hok. pose proof (lookup_lt_Some _ _ _ E) as Hlt.
  destruct (decide (matches key h)) as [Hm|Hm]; cycle 1.
  { (* not this entry: as in a lookup *)
    destruct (lookup_match_ok key t i h (B i) (held (PtrSlot i)) E Hok HB1) as (m & Em & Est & Hok').
    rewrite bool_decide_false in Em by done. rewrite decide_False, Z.add_0_r in Hok' by done.
    destruct (table_inv_meta _ _ _ _ B held held t i h m Ht E Est Hok') as [Ht1 Hv]; [done|]. exists (set_slot i (with_meta m h) t).
    split_and!; [|done|done|by apply fades_view|].
    - rewrite <- Em. unfold erase_match, lookup_match. st_step (slot_fetch t i h (λ m, wrap64 (m + ACQUIRE_INCREMENT)) E).
      symmetry. st_step (slot_fetch t i h (λ m, wrap64 (m + ACQUIRE_INCREMENT)) E). destruct (meta_state (ch_meta h) =? STATE_VISIBLE) eqn:E7; [|done].
      set (t1 := set_slot i _ t). assert (E1 : ct_handles t1 !! i = Some (with_meta (wrap64 (ch_meta h + ACQUIRE_INCREMENT)) h)) by (by apply set_slot_same).
      st_step (slot_deref t1 i _ E1). symmetry. st_step (slot_deref t1 i _ E1). cbn [ch_key with_meta]. destruct (ch_key h =? key) eqn:Ek; [|done].
      exfalso. apply Hm. apply Z.eqb_eq in E7, Ek. done.
    - cbn. rewrite list_lookup_insert_eq by done. intros h' [= <-] [Hm7 Hmk]. apply Hm. split; [by rewrite <- Est|done]. }
  destruct Hok as (st & rel & acq & Em & Hw & HB & Hn & Hdet & Hc). assert (Hok : word_ok st rel acq) by (unfold word_ok; destruct Hc as [|]; lia).
  assert (Hst : slot_state h = st) by (unfold slot_state; by rewrite Em, state_word). destruct Hm as [Hm7 Hmk]. rewrite Hst in Hm7. subst st.
  destruct Hc as [Hc|(_ & Hc & Hch)]; [lia|]. assert (Hok1 : word_ok 7 rel (acq + 1)) by (unfold word_ok in *; lia). assert (Hok6 : word_ok 6 rel (acq + 1)) by (unfold word_ok in *; lia).
  assert (Ho : occ h = 1) by (unfold occ; by rewrite Hst).
  unfold erase_match. st_step (slot_fetch t i h (λ m, wrap64 (m + ACQUIRE_INCREMENT)) E). change ACQUIRE_INCREMENT with 1.
  rewrite Em, word_acquire, state_word by (done || lia). change (7 =? STATE_VISIBLE) with true. cbn iota.
  set (t1 := set_slot i _ t). assert (E1 : ct_handles t1 !! i = Some (with_meta (meta_word 7 rel (acq + 1)) h)) by (by apply set_slot_same).
  st_step (slot_deref t1 i _ E1). cbn [ch_key with_meta]. rewrite (proj2 (Z.eqb_eq _ _) Hmk).
  st_step (slot_fetch t1 i _ (λ m, Z.land m (not64 (Z.shiftl STATE_VISIBLE_BIT STATE_SHIFT))) E1). cbn [ch_meta with_meta].
  rewrite word_clear_state by (done || lia). change (Z.ldiff 7 STATE_VISIBLE_BIT) with 6. unfold t1. rewrite set_slot_twice, with_meta_twice.
  assert (Href : ref_count (meta_word 6 rel (acq + 1)) = held (PtrSlot i) + 1) by (rewrite ref_count_word by done; rewrite wrap_small by (unfold fits; lia); lia).
  destruct (decide (held (PtrSlot i) = 0)) as [H0|Hpos].
  - (* nobody else has the entry *)
    rewrite <- (Hhash (conj Hst Hmk)). st_step (erase_last bits mu B held t i h (meta_word 6 rel (acq + 1)) Ht Hmu E Ho ltac:(lia)). exists (drop_entry bits i h t).
    destruct (drop_entry_inv bits mu B held held t i h Ht E Ho Hmu H0) as [Hinv Hrest]; [done|]. split; [done|]. split_and!; [|done..| |].
    + eapply (counted_more _ _ _ _ B []); [by intros ? ?%not_elem_of_nil|intros j ->%list_elem_of_singleton; done|done].
    + unfold drop_entry. cbn. apply remove_fades; [apply Hs|done|]. right. done.
    + intros h' Eh'. cbn in Eh'. destruct (remove_lookup bits (ct_handles t) i h i Hlt (si_bits _ _ _ _ Hs)) as (f & Ef & Hf). rewrite Ef, list_lookup_insert_eq in Eh' by done.
      injection Eh' as <-. intros [Hm _]. rewrite (proj2 (Hf _)) in Hm. done.
  - (* the entry stays, out of sight *)
    st_step (erase_shared hash t i h 6 rel (acq + 1) Hlt Hok6 ltac:(lia)). replace (acq + 1 - 1) with acq by lia.
    exists (set_slot i (with_meta (meta_word 6 rel acq) h) t). split; [done|].
    assert (Hok0 : word_ok 6 rel acq) by (unfold word_ok in *; lia). assert (E6 : slot_state (with_meta (meta_word 6 rel acq) h) = 6) by (unfold slot_state; cbn; by rewrite state_word).
    split_and!; [|done| |].
    + apply (table_inv_occ _ _ _ _ B held held t i h); [done|done|unfold occ; by rewrite E6, Hst| |done].
      exists 6, rel, acq. split_and!; cbn [ch_charge ch_meta with_meta]; try done; lia.
    + cbn. rewrite <- (list_insert_id (ct_handles t) i h E) at 1. apply Forall2_insert; [apply fades_refl|]. split; [done|]. right. left. rewrite E6, Hst. split_and!; [done|done|by right].
    + cbn. rewrite list_lookup_insert_eq by done. intros h' [= <-] [Hm _]. lia.
Qed.

Lemma matches_data key h h' : slot_data h = slot_data h' -> ch_key h = key -> ch_key h' = key.
Proof. unfold slot_data. congruence. Qed.
(** [fades] for one key. *)
Definition key_fades (key : Z) : list Handle -> list Handle -> Prop := fades (λ h, ch_key h = key).
Lemma key_fades_trans key hs1 hs2 hs3 : key_fades key hs1 hs2 -> key_fades key hs2 hs3 -> key_fades key hs1 hs3.
Proof. apply fades_trans. apply matches_data. Qed.
Lemma same_rest_trans t1 t2 t3 : same_rest t1 t2 -> same_rest t2 t3 -> same_rest t1 t3.
Proof. unfold same_rest. intros (-> & -> & -> & ?) (-> & -> & -> & ?). split_and!; [done..|lia]. Qed.

Lemma erase_walk bits mu key hash pre l : path bits hash = pre ++ l -> forall probe t B held,
  table_inv bits mu 0 0 B held t -> 0 <= mu -> (forall i, i ∈ l -> B i + 1 < 2 ^ 29) ->
  (forall i h, ct_handles t !! i = Some h -> matches key h -> ch_hash h = hash /\ i ∉ pre) ->
  exists k t', walk (erase_match key hash) not_displaced no_update probe l t = (Ok (None, k), t') /\
    table_inv bits mu 0 0 (counted B l) held t' /\ same_rest t t' /\ key_fades key (ct_handles t) (ct_handles t') /\
    (forall i h, ct_handles t' !! i = Some h -> ~ matches key h).
Proof.
  revert pre. induction l as [|i l IH]; intros pre Hp probe t B held Ht Hmu HB Hm; cbn [walk]; pose proof (ti_slots _ _ _ _ _ _ _ Ht) as Hs.
  { exists probe, t. rewrite counted_nil. split_and!; [done|done|done|apply fades_refl|]. rewrite app_nil_r in Hp. subst pre. by eapply walk_end_no_match. }
  destruct (path_middle bits hash pre i l (si_bits _ _ _ _ Hs) Hp) as (Hi & Hil & Hp' & _).
  destruct (table_inv_slot _ _ _ _ _ _ _ i Ht Hi) as (h & E & _). assert (HBi : B i + 1 < 2 ^ 29) by (apply HB; by left).
  destruct (erase_match_ok bits mu B held t i h key hash Ht Hmu E HBi) as (t1 & E1 & Ht1 & Hr1 & Hf1 & Hi1). { intros Hmat. by destruct (Hm i h E Hmat). }
  st_step E1. assert (Hf1' : key_fades key (ct_handles t) (ct_handles t1)) by (eapply fades_weaken; [|exact Hf1]; intros x [_ ?]; done).
  assert (Hm1 : forall x y, ct_handles t1 !! x = Some y -> matches key y -> ch_hash y = hash /\ x ∉ pre ++ [i]).
  { intros x y Hx Hmy. destruct (fades_matches _ key _ _ _ _ Hf1 Hx Hmy) as (z & Hz & Hmz & Hd). destruct (Hm x z Hz Hmz) as [Hh Hpx].
    split; [unfold slot_data in Hd; congruence|]. intros [?| ->%list_elem_of_singleton]%elem_of_app; [done|]. by apply (Hi1 y). }
  destruct (table_inv_slot _ _ _ _ _ _ _ i Ht1 Hi) as (h1 & Eh1 & _). st_step (not_displaced_ok t1 i h1 Eh1).
  destruct (ch_displacements h1 =? 0) eqn:Ed.
  - exists probe, t1. split; [done|]. split_and!; [|done|done|].
    + eapply counted_more; [| |exact Ht1]; [intros j ->%list_elem_of_singleton; by left|done].
    + apply Z.eqb_eq in Ed. eapply stop_no_match; [apply Ht1|exact Hp|exact Eh1|done|by apply Hi1|].
      intros x y Hx Hmy. destruct (Hm1 x y Hx Hmy) as [? Hn]. split; [done|]. intros ?. apply Hn, elem_of_app. by left.
  - change (mbind ?f (no_update i) ?s) with (f tt s). cbn beta.
    destruct (IH (pre ++ [i]) Hp' (probe + 1) t1 (counted B [i]) held Ht1 Hmu) as (k & t2 & E2 & H1 & H2 & H3 & H4); [|done|].
    { intros j Hj. unfold counted. rewrite decide_False by (intros ->%list_elem_of_singleton; done). apply HB. by right. }
    exists k, t2. split; [exact E2|]. split_and!; [by apply counted_twice|by eapply same_rest_trans|by eapply key_fades_trans|done].
Qed.

(** ** Eviction *)

(** The hand looks at one slot: an entry that nobody references goes. *)
Lemma clock_update_ok t i h B n : ct_handles t !! i = Some h -> slot_ok B n h ->
  (clock_update (PtrSlot i) t = (Ok false, t)) \/
  (clock_update (PtrSlot i) t = (Ok true, set_slot i (with_meta CONSTRUCTION_WORD h) t) /\ slot_state h = 7 /\ occ h = 1 /\ n = 0).
Proof.
  intros E (st & rel & acq & Em & Hw & HB & Hn & Hdet & Hc). assert (Hok : word_ok st rel acq) by (unfold word_ok; destruct Hc as [|]; lia).
  assert (Hst : slot_state h = st) by (unfold slot_state; by rewrite Em, state_word).
  unfold clock_update. st_step (slot_deref t i h E). cbv zeta. rewrite Em, acquire_word, release_word, state_word by done.
  assert (Esh : Z.shiftr (meta_word st rel acq) STATE_SHIFT = st).
  { change STATE_SHIFT with 60. rewrite Z.shiftr_div_pow2 by lia. unfold meta_word, word_ok in *. symmetry. apply (Z.div_unique _ _ _ (rel * 2 ^ 30 + acq)); lia. }
  rewrite Esh. destruct (acq =? rel) eqn:Ea; cbn [negb]; [apply Z.eqb_eq in Ea|by left].
  destruct Hc as [(-> & -> & ->)|([->|[-> Hpos]] & Hr & Hch)]; [by left| |lia].
  change (Z.land 7 STATE_SHAREABLE_BIT =? 0) with false. change ((7 =? STATE_INVISIBLE) && (0 <? acq)) with false. cbn iota. right.
  fold CONSTRUCTION_WORD. rewrite <- Em. rewrite (slot_exchange t i h (ch_meta h)) by done. split_and!; [done|done|unfold occ; by rewrite Hst|lia].
Qed.

(** Rolling an entry back and freeing its slot. *)
Lemma evict_entry bits t i h : 0 <= bits < 32 -> table_mask t = Z.ones bits -> length (ct_handles t) = slot_count bits -> ct_handles t !! i = Some h ->
  exists t1, rollback (ch_hash h) (PtrSlot i) (set_slot i (with_meta CONSTRUCTION_WORD h) t) = (Ok tt, t1) /\
    free_data_mark_empty (PtrSlot i) t1 = (Ok tt, with_handles (remove_slot bits i h (ct_handles t)) t).
Proof.
  intros Hb Hm Hl E. pose proof (lookup_lt_Some _ _ _ E) as Hlt. eexists. split.
  - apply (rollback_ok bits); [done|done|table_cbn; by rewrite length_insert|by rewrite <- Hl].
  - set (l := before i (path bits (ch_hash h))). assert (Hi : i ∉ l) by apply not_before. assert (Hn : NoDup l) by (by apply before_nodup, path_nodup).
    assert (E1 : displace_all (-1) l (<[i := with_meta CONSTRUCTION_WORD h]> (ct_handles t)) !! i = Some (with_meta CONSTRUCTION_WORD h)).
    { rewrite displace_slot by done. by rewrite list_lookup_insert_eq. }
    erewrite free_ok; [|exact E1|done]. f_equal. unfold set_slot. table_cbn. unfold with_handles, remove_slot. table_cbn. fold l.
    by rewrite displace_insert, list_insert_insert_eq, with_meta_twice.
Qed.

Definition any_fades : list Handle -> list Handle -> Prop := fades (λ _, True).
Lemma any_fades_trans hs1 hs2 hs3 : any_fades hs1 hs2 -> any_fades hs2 hs3 -> any_fades hs1 hs3.
Proof. by apply fades_trans. Qed.

(** What an eviction did: [c] and [n] are the charge and the number of what it took. *)
Record evicted (bits mu dO dU : Z) (B : nat -> Z) held t (c n : Z) t' : Prop := {
  ev_inv : table_inv bits mu (dO + n) (dU + c) B held t';
  ev_config : ct_config t' = ct_config t;
  ev_boxes : ct_boxes t' = ct_boxes t;
  ev_fades : any_fades (ct_handles t) (ct_handles t');
  ev_counters : ct_usage t' = ct_usage t /\ ct_occupancy t' = ct_occupancy t /\ ct_detached_usage t' = ct_detached_usage t;
  ev_count : n = occ_sum (ct_handles t) - occ_sum (ct_handles t') /\ c = charge_sum (ct_handles t) - charge_sum (ct_handles t');
  ev_sign : 0 <= n /\ 0 <= c /\ (n = 0 <-> c = 0);
}.
Lemma evicted_refl bits mu dO dU B held t : table_inv bits mu dO dU B held t -> evicted bits mu dO dU B held t 0 0 t.
Proof. intros Ht. split; try done; try lia; [by rewrite !Z.add_0_r|apply fades_refl]. Qed.
Lemma evicted_trans bits mu dO dU B held t c n t' c' n' t'' :
  evicted bits mu dO dU B held t c n t' -> evicted bits mu (dO + n) (dU + c) B held t' c' n' t'' -> evicted bits mu dO dU B held t (c + c') (n + n') t''.
Proof.
  intros [] []. split; try lia; try congruence; [by rewrite !Z.add_assoc|by eapply any_fades_trans].
Qed.

Lemma hand_slot bits t x : 0 <= bits < 32 -> table_mask t = Z.ones bits -> (Z.to_nat (mod_table_size (table_mask t) (wrap32 x)) < slot_count bits)%nat.
Proof.
  intros Hb ->. rewrite mod_table_mod by done. pose proof (slot_count_z bits Hb). pose proof (Z.mod_pos_bound x (2 ^ bits)). lia.
Qed.
(** One slot taken by the hand. *)
Lemma evicted_one bits mu dO dU B held t i h :
  table_inv bits mu dO dU B held t -> ct_handles t !! i = Some h -> slot_state h = 7 -> occ h = 1 -> held (PtrSlot i) = 0 ->
  evicted bits mu dO dU B held t (ch_charge h) 1 (with_handles (remove_slot bits i h (ct_handles t)) t).
Proof.
  intros Ht E H7 Ho H0. pose proof (ti_slots _ _ _ _ _ _ _ Ht) as Hs. destruct (remove_sums bits (ct_handles t) i h E Ho) as [Eo Ec].
  destruct (slot_ok_cases _ _ _ (si_slot _ _ _ _ Hs i h E)) as [(? & _)|(_ & _ & Hc & _)]; [lia|].
  split; table_cbn; try done; [by apply table_inv_remove with held|apply remove_fades; [apply Hs|done|by right]|lia|lia].
Qed.

Lemma evict_slots_ok bits mu B held steps : forall old ec cnt dO dU t,
  table_inv bits mu dO dU B held t -> 0 <= ec -> 0 <= cnt -> ec + charge_sum (ct_handles t) < 2 ^ 64 -> cnt + occ_sum (ct_handles t) < 2 ^ 64 ->
  exists c n t', evict_slots steps old ec cnt t = (Ok (ec + c, cnt + n), t') /\ evicted bits mu dO dU B held t c n t' /\ ct_clock_pointer t' = ct_clock_pointer t.
Proof.
  induction steps as [|i steps IH]; intros old ec cnt dO dU t Ht Hec Hcnt He Hn; cbn [evict_slots].
  { exists 0, 0, t. rewrite !Z.add_0_r. split_and!; [done|by apply evicted_refl|done]. }
  pose proof (ti_slots _ _ _ _ _ _ _ Ht) as Hs. rewrite st_gets.
  set (x := Z.to_nat _). assert (Hx : (x < slot_count bits)%nat) by (apply hand_slot; [apply Hs|apply Ht]).
  destruct (table_inv_slot _ _ _ _ _ _ _ x Ht Hx) as (h & E & Hok).
  destruct (clock_update_ok t x h _ _ E Hok) as [Eu|(Eu & H7 & Ho & H0)]; st_step Eu; [by apply IH|].
  assert (E1 : ct_handles (set_slot x (with_meta CONSTRUCTION_WORD h) t) !! x = Some (with_meta CONSTRUCTION_WORD h)) by (apply set_slot_same; by eapply lookup_lt_Some).
  st_step (slot_deref _ x _ E1). cbn [ch_hash ch_charge with_meta].
  destruct (evict_entry bits t x h) as (t1 & Er & Ef); [apply Hs|apply Ht|apply Hs|done|]. st_step Er. st_step Ef.
  pose proof (evicted_one bits mu dO dU B held t x h Ht E H7 Ho H0) as Hev. set (t2 := with_handles _ t) in *.
  pose proof (ev_count _ _ _ _ _ _ _ _ _ _ Hev) as [Hc1 Hc2]. pose proof (ev_sign _ _ _ _ _ _ _ _ _ _ Hev) as (_ & Hc3 & _).
  pose proof (occ_sum_bounds _ _ _ _ (ti_slots _ _ _ _ _ _ _ (ev_inv _ _ _ _ _ _ _ _ _ _ Hev))).
  assert (0 <= charge_sum (ct_handles t2)).
  { apply isum_pos. intros j y Hj. eapply slot_charge_pos, (si_slot _ _ _ _ (ti_slots _ _ _ _ _ _ _ (ev_inv _ _ _ _ _ _ _ _ _ _ Hev)) j y Hj). }
  rewrite !wrap_small by (unfold fits; lia).
  destruct (IH old (ec + ch_charge h) (cnt + 1) (dO + 1) (dU + ch_charge h) t2) as (c & n & t3 & E3 & Hev3 & Hp3); [apply Hev|lia..|].
  exists (ch_charge h + c), (1 + n), t3. rewrite !Z.add_assoc. split_and!; [done|by eapply evicted_trans|done].
Qed.

Lemma table_inv_pointer bits mu dO dU B held p t : table_inv bits mu dO dU B held t -> table_inv bits mu dO dU B held (with_clock_pointer p t).
Proof. intros []. by split. Qed.
Lemma evicted_pointer bits mu dO dU B held p t c n t' :
  evicted bits mu dO dU B held (with_clock_pointer p t) c n t' -> evicted bits mu dO dU B held t c n t'.
Proof. intros []. by split. Qed.
Lemma evicted_bounds bits mu dO dU B held t c n t' : table_inv bits mu dO dU B held t -> evicted bits mu dO dU B held t c n t' ->
  0 <= occ_sum (ct_handles t') <= 2 ^ 31 /\ 0 <= charge_sum (ct_handles t').
Proof.
  intros Ht Hev. split; [apply (occ_sum_bounds _ _ _ _ (ti_slots _ _ _ _ _ _ _ (ev_inv _ _ _ _ _ _ _ _ _ _ Hev)))|].
  apply isum_pos. intros j y Hj. eapply slot_charge_pos, (si_slot _ _ _ _ (ti_slots _ _ _ _ _ _ _ (ev_inv _ _ _ _ _ _ _ _ _ _ Hev)) j y Hj).
Qed.

Lemma clock_evict_loop_ok bits mu B held (fuel : nat) : forall req max old ec cnt dO dU t,
  table_inv bits mu dO dU B held t -> 0 <= ec -> 0 <= cnt -> ec + charge_sum (ct_handles t) < 2 ^ 64 -> cnt + occ_sum (ct_handles t) < 2 ^ 64 ->
  0 <= old -> ct_clock_pointer t = old + 4 -> old < max + 4 -> max + 8 < 2 ^ 64 -> max <= old + 4 * (Z.of_nat fuel - 1) -> (0 < fuel)%nat ->
  exists c n t', evict_loop fuel req max old ec cnt t = (Ok (ec + c, cnt + n), t') /\ evicted bits mu dO dU B held t c n t' /\ old + 4 <= ct_clock_pointer t' <= max + 8.
Proof.
  induction fuel as [|fuel IH]; intros req max old ec cnt dO dU t Ht Hec Hcnt He Hn Hold Hp Hm Hmax Hf Hpos; [lia|]. cbn [evict_loop].
  destruct (evict_slots_ok bits mu B held [0; 1; 2; 3] old ec cnt dO dU t Ht Hec Hcnt He Hn) as (c & n & t1 & E1 & Hev & Hp1). st_step E1.
  destruct (req <=? ec + c); [exists c, n, t1; split_and!; [done|done|lia|lia]|].
  destruct (max <=? old) eqn:Em; [exists c, n, t1; split_and!; [done|done|lia|lia]|]. apply Z.leb_gt in Em.
  destruct (evicted_bounds _ _ _ _ _ _ _ _ _ _ Ht Hev) as [Hb1 Hb2]. pose proof (ev_count _ _ _ _ _ _ _ _ _ _ Hev) as [Hc1 Hc2].
  pose proof (ev_sign _ _ _ _ _ _ _ _ _ _ Hev) as (Hs1 & Hs2 & _).
  unfold fetch_clock_pointer at 1. unfold mbind at 1, st_bind at 1. rewrite Hp1, Hp. change STEP_SIZE with 4. rewrite wrap_small by (unfold fits; lia).
  destruct (IH req max (old + 4) (ec + c) (cnt + n) (dO + n) (dU + c) (with_clock_pointer (old + 4 + 4) t1)) as (c' & n' & t2 & E2 & Hev2 & Hp2);
    [apply table_inv_pointer, Hev|table_cbn; lia..|].
  exists (c + c'), (n + n'), t2. rewrite !Z.add_assoc. split_and!; [done| |lia|lia]. apply evicted_pointer in Hev2. by eapply evicted_trans.
Qed.

Lemma clock_evict_ok bits mu B held dO dU t req :
  table_inv bits mu dO dU B held t -> 0 < req -> charge_sum (ct_handles t) < 2 ^ 64 -> 0 <= ct_clock_pointer t -> ct_clock_pointer t + 2 ^ 34 < 2 ^ 64 ->
  exists c n t', clock_evict req t = (Ok (c, n), t') /\ evicted bits mu dO dU B held t c n t' /\ ct_clock_pointer t <= ct_clock_pointer t' <= ct_clock_pointer t + 2 ^ 34.
Proof.
  intros Ht Hr Hc Hp0 Hp. pose proof (ti_slots _ _ _ _ _ _ _ Ht) as Hs. pose proof (si_bits _ _ _ _ Hs) as Hb. pose proof (slot_count_z bits Hb) as Hn. pose proof (slot_count_bound bits Hb) as [_ Hn'].
  pose proof (occ_sum_bounds _ _ _ _ Hs) as Ho. unfold clock_evict. rewrite st_assert by (by apply Z.ltb_lt). rewrite st_gets.
  unfold fetch_clock_pointer at 1. unfold mbind at 1, st_bind at 1. change STEP_SIZE with 4. change MAX_COUNT_DOWN with 3. rewrite (ti_bits _ _ _ _ _ _ _ Ht).
  rewrite Z.shiftl_mul_pow2, !wrap_small by (unfold fits; lia).
  destruct (clock_evict_loop_ok bits mu B held (evict_fuel bits) req (ct_clock_pointer t + 3 * 2 ^ bits) (ct_clock_pointer t) 0 0 dO dU (with_clock_pointer (ct_clock_pointer t + 4) t))
    as (c & n & t' & E & Hev & Hq).
  { by apply table_inv_pointer. } all: table_cbn; try lia.
  { unfold evict_fuel. change MAX_COUNT_DOWN with 3. change STEP_SIZE with 4. rewrite Z.shiftl_mul_pow2 by lia. pose proof (Z.div_mod (3 * 2 ^ bits) 4). pose proof (Z.mod_pos_bound (3 * 2 ^ bits) 4). lia. }
  { unfold evict_fuel. change MAX_COUNT_DOWN with 3. change STEP_SIZE with 4. rewrite Z.shiftl_mul_pow2 by lia. pose proof (Z.div_pos (3 * 2 ^ bits) 4). lia. }
  exists c, n, t'. split_and!; [done|by eapply evicted_pointer|lia|lia].
Qed.
End free.
