(* ===== verification/ClockInsert.v ===== *)
(** * Insertion into the clock cache

    The charge of an insertion, which may evict ([insert_charge_ok]); the search for an
    empty slot, which there is one of when the charge went through ([insert_slot_ok]);
    and the insertion as a whole, in a slot or detached ([clock_insert_ok]). *)

From stdpp Require Import base numbers list gmap.
From Stdlib Require Import ZArith Lia.
From S2P Require Import Prelude CacheHandle ClockWord ClockCache ClockProbe ClockSlots ClockOps ClockFree.

Section insert.
Context {T : Type}.
Local Abbreviation Handle := (ClockHandle T).
Local Abbreviation Table := (ClockCacheHandleTable T).
Implicit Types (h : Handle) (hs : list Handle) (t : Table) (held : handle_ptr -> Z).

(** ** Charging *)

(** What charging an insertion leaves, when [o] and [u] are what it has added ahead. *)
Record charged (bits mu o u : Z) (B : nat -> Z) held t t' : Prop := {
  cg_inv : table_inv bits mu o u B held t';
  cg_config : ct_config t' = ct_config t;
  cg_boxes : ct_boxes t' = ct_boxes t;
  cg_fades : any_fades (ct_handles t) (ct_handles t');
  cg_sums : charge_sum (ct_handles t') <= charge_sum (ct_handles t);
  cg_pointer : ct_clock_pointer t <= ct_clock_pointer t' <= ct_clock_pointer t + 2 ^ 34;
}.

Lemma occ_sum_slots bits B n hs : slots_inv bits B n hs -> occ_sum hs <= 2 ^ bits.
Proof.
  intros [H1 H2 _ _]. rewrite <- (slot_count_z bits H1), <- H2. unfold occ_sum. apply isum_le. intros i x _. destruct (occ_01 x); lia.
Qed.
Lemma table_inv_fields bits mu dO dU dO' dU' B held t u o :
  table_inv bits mu dO dU B held t -> u = ct_usage t - dU + dU' -> o = ct_occupancy t - dO + dO' -> u < 2 ^ 64 ->
  table_inv bits mu dO' dU' B held (with_usage u (with_occupancy o t)).
Proof. intros Ht -> -> Hu. by apply table_inv_counters. Qed.
Lemma with_usage_id t : with_usage (ct_usage t) t = t.
Proof. by destruct t. Qed.
Lemma with_occupancy_id t : with_occupancy (ct_occupancy t) t = t.
Proof. by destruct t. Qed.
Lemma st_bump {A} f (k : unit -> St Table A) t : mbind k (bump f) t = k tt (with_stats (f (ct_stats t)) t).
Proof. done. Qed.
Lemma bump_inv bits mu dO dU B held f t : table_inv bits mu dO dU B held t -> table_inv bits mu dO dU B held (with_stats f t).
Proof. intros []. by split. Qed.

(** What an eviction leaves, with the counters set to [u] and [o]. *)
Lemma evicted_charged bits mu dO dU B held t c n t' dO' dU' u o st :
  evicted bits mu dO dU B held t c n t' -> ct_clock_pointer t <= ct_clock_pointer t' <= ct_clock_pointer t + 2 ^ 34 ->
  u = ct_usage t' - (dU + c) + dU' -> o = ct_occupancy t' - (dO + n) + dO' -> u < 2 ^ 64 ->
  charged bits mu dO' dU' B held t (with_usage u (with_occupancy o (with_stats st t'))).
Proof.
  intros [] Hp Hu Ho Hf. split; try done; [eapply table_inv_fields; [by apply bump_inv|done|done|done]|table_cbn; lia].
Qed.
Lemma evicted_still bits mu dO dU B held t t' st :
  evicted bits mu dO dU B held t 0 0 t' -> ct_clock_pointer t <= ct_clock_pointer t' <= ct_clock_pointer t + 2 ^ 34 -> charged bits mu dO dU B held t (with_stats st t').
Proof. intros [Hi] Hp. rewrite !Z.add_0_r in Hi. split; try done; [by apply bump_inv|table_cbn; lia]. Qed.
Lemma charged_stay bits mu dO dU dO' dU' B held t u o :
  table_inv bits mu dO dU B held t -> u = ct_usage t - dU + dU' -> o = ct_occupancy t - dO + dO' -> u < 2 ^ 64 ->
  charged bits mu dO' dU' B held t (with_usage u (with_occupancy o t)).
Proof. intros Ht Hu Ho Hf. split; try done; [by eapply table_inv_fields|apply fades_refl|table_cbn; lia..]. Qed.

(** The bounds within which the counters do not wrap. *)
Definition room (total : Z) t : Prop :=
  0 < total /\ 0 <= ct_usage t /\ ct_usage t + total < 2 ^ 62 /\ 0 <= ct_clock_pointer t /\ ct_clock_pointer t + 2 ^ 34 < 2 ^ 64.

Section charge.
Context (bits mu : Z) (B : nat -> Z) (held : handle_ptr -> Z) (t : Table) (total capacity : Z).
Context (Ht : table_inv bits mu 1 0 B held t) (Hmu : 0 <= mu) (Hroom : room total t).
Abbreviation need := (cc_occupancy_limit (ct_config t) <? ct_occupancy t - 1).

Lemma charge_sums : 0 <= charge_sum (ct_handles t) <= ct_usage t /\ 0 <= box_sum (ct_boxes t) <= ct_usage t /\ 0 <= occ_sum (ct_handles t) <= 2 ^ 31 /\ occ_sum (ct_handles t) = ct_occupancy t - 1.
Proof using Ht Hmu.
  destruct Ht as [Hs _ _ _ Ho Hu _ _ Hb _]. pose proof (box_sum_nonneg (ct_boxes t) (λ p x Hx, proj1 (Hb p x Hx))). pose proof (occ_sum_bounds _ _ _ _ Hs).
  assert (0 <= charge_sum (ct_handles t)) by (apply isum_pos; intros j y Hj; eapply slot_charge_pos, (si_slot _ _ _ _ Hs j y Hj)). lia.
Qed.
(** There is an empty slot where no eviction was needed, and where one took something. *)
Lemma room_for_one o u t' : charged bits mu o u B held t t' -> need = false \/ occ_sum (ct_handles t') < occ_sum (ct_handles t) ->
  occ_sum (ct_handles t') <= occ_sum (ct_handles t) -> occ_sum (ct_handles t') < 2 ^ bits.
Proof using Ht Hmu.
  intros Hc Hn Hle. pose proof charge_sums as (_ & _ & _ & Ho). pose proof (occ_sum_slots _ _ _ _ (ti_slots _ _ _ _ _ _ _ Ht)). pose proof (ti_limit _ _ _ _ _ _ _ Ht).
  destruct Hn as [Hn|Hn]; [apply Z.ltb_ge in Hn; lia|lia].
Qed.

Lemma fetch_usage_ok f (s : Table) : fetch_usage f s = (Ok (ct_usage s), with_usage (wrap64 (f (ct_usage s))) s).
Proof. done. Qed.
Lemma fetch_occupancy_ok f (s : Table) : fetch_occupancy f s = (Ok (ct_occupancy s), with_occupancy (wrap32 (f (ct_occupancy s))) s).
Proof. done. Qed.

Lemma need_charge_nonneg old : 0 <= need_charge_non_strict old total capacity.
Proof using Hroom.
  destruct Hroom as [Htot _]. unfold need_charge_non_strict. repeat case_match; try lia. by apply wrap_fits.
Qed.

Lemma charge_non_strict_ok :
  exists (b : bool) t', charge_usage_non_strict total capacity need t = (Ok b, t') /\ charged bits mu 1 (if b then total else 0) B held t t' /\
    (if b then occ_sum (ct_handles t') < 2 ^ bits else need = true).
Proof using Ht Hmu Hroom.
  destruct charge_sums as (Hcs & Hbs & Hos & Ho). destruct Hroom as (Htot & Hu0 & Hu & Hp0 & Hp). unfold charge_usage_non_strict. rewrite st_gets. cbv zeta.
  set (req := if need && _ then 1 else _). assert (Hreq : need = true -> 0 < req).
  { unfold req. intros ->. cbn [andb]. pose proof (need_charge_nonneg (ct_usage t)). destruct (_ =? 0) eqn:E; [lia|]. apply Z.eqb_neq in E. lia. }
  clearbody req. destruct (0 <? req) eqn:Er; [apply Z.ltb_lt in Er|apply Z.ltb_ge in Er]; cycle 1.
  - (* nothing to evict *)
    assert (Hno : need = false) by (destruct need; [specialize (Hreq eq_refl); lia|done]). exists true.
    rewrite st_mret. rewrite (proj2 (Z.ltb_lt 0 total)) by lia. rewrite Z.sub_0_r.
    st_step (fetch_usage_ok (λ n, n + total) t). rewrite wrap_small by (unfold fits; lia). rewrite st_gets, st_assert by (apply Z.ltb_lt; table_cbn; change (u64_max / 2) with (2 ^ 63 - 1); lia).
    eexists. split; [reflexivity|].
    assert (Hc : charged bits mu 1 total B held t (with_usage (ct_usage t + total) (with_occupancy (ct_occupancy t) t))) by (eapply charged_stay; [exact Ht|lia|lia|lia]).
    rewrite with_occupancy_id in Hc. split; [done|]. eapply room_for_one; [exact Hc|by left|done].
  - destruct (clock_evict_ok bits mu B held 1 0 t req Ht Er ltac:(lia) Hp0 Hp) as (c & n & t1 & E & Hev & Hp1).
    destruct (evicted_bounds _ _ _ _ _ _ _ _ _ _ Ht Hev) as [Hb1 Hb2]. pose proof (ev_count _ _ _ _ _ _ _ _ _ _ Hev) as [Hc1 Hc2].
    pose proof (ev_sign _ _ _ _ _ _ _ _ _ _ Hev) as (Hs1 & Hs2 & Hs3). pose proof (ev_counters _ _ _ _ _ _ _ _ _ _ Hev) as (Eu & Eo & _).
    rewrite st_assoc. st_step E. rewrite st_assoc, st_bump. destruct (need && (n =? 0)) eqn:En.
    + (* nothing could be evicted *)
      apply andb_true_iff in En as [En En0]. apply Z.eqb_eq in En0. assert (Ec0 : c = 0) by (by apply Hs3). exists false. eexists.
      rewrite st_assoc, st_assert by (by apply Z.eqb_eq). split; [reflexivity|]. split; [|done]. rewrite En0, Ec0 in Hev. by eapply evicted_still.
    + exists true. rewrite st_assoc. st_step (fetch_occupancy_ok (λ k, k - wrap32 n) (with_stats (stats_add_passive_evict n (ct_stats t1)) t1)). table_cbn.
      rewrite (wrap_small 32 n), (wrap_small 32) by (unfold fits; lia). rewrite st_mret.
      set (t2 := with_occupancy _ _).
      assert (Eus : (if c <? total then fetch_usage (λ k, k + (total - c)) else fetch_usage (λ k, k - (c - total))) t2 = (Ok (ct_usage t), with_usage (ct_usage t + total - c) t2)).
      { destruct (c <? total); rewrite fetch_usage_ok; unfold t2; table_cbn; rewrite Eu, wrap_small by (unfold fits; lia); do 2 f_equal; lia. }
      st_step Eus. rewrite st_gets, st_assert by (apply Z.ltb_lt; table_cbn; change (u64_max / 2) with (2 ^ 63 - 1); lia). eexists. split; [reflexivity|].
      assert (Hc : charged bits mu 1 total B held t (with_usage (ct_usage t + total - c) t2)) by (eapply evicted_charged; [exact Hev|done|lia|lia|lia]).
      split; [done|]. apply (room_for_one _ _ _ Hc); unfold t2; table_cbn; [|lia].
      apply andb_false_iff in En as [?|En]; [by left|right]. apply Z.eqb_neq in En. lia.
Qed.

Lemma charge_strict_ok : 0 <= capacity < 2 ^ 64 ->
  exists t', (charge_usage_strict total capacity need t = (Ok tt, t') /\ charged bits mu 1 total B held t t' /\ occ_sum (ct_handles t') < 2 ^ bits \/
              charge_usage_strict total capacity need t = (Err MemoryLimit, t') /\ charged bits mu 1 0 B held t t') /\
    (ct_usage t <= capacity -> ct_usage t' <= capacity).
Proof using Ht Hmu Hroom.
  intros Hcap. destruct charge_sums as (Hcs & Hbs & Hos & Ho). destruct Hroom as (Htot & Hu0 & Hu & Hp0 & Hp). unfold charge_usage_strict.
  destruct (capacity <? total) eqn:Ecap.
  { exists t. split; [right|done]. split; [done|]. split; try done; [apply fades_refl|lia]. }
  (* what is grabbed *)
  assert (Hgrab : exists new, grab_usage total capacity t = (Ok (ct_usage t, new), with_usage new t) /\ 0 <= new <= ct_usage t + total /\ (ct_usage t <= capacity -> new <= capacity)).
  { unfold grab_usage. rewrite st_gets. destruct (ct_usage t =? capacity) eqn:E; cbn [negb].
    - exists (ct_usage t). rewrite with_usage_id. apply Z.eqb_eq in E. split_and!; [done|lia|lia|lia].
    - eexists. rewrite st_modify. split; [reflexivity|]. rewrite wrap_small by (unfold fits; lia). lia. }
  destruct Hgrab as (new & Eg & Hnew & Hnc). st_step Eg. cbv beta iota zeta. rewrite (wrap_small 64 (ct_usage t + total)), (wrap_small 64) by (unfold fits; lia).
  set (ne := ct_usage t + total - new). assert (Hne : 0 <= ne) by lia. set (req := if need && _ then 1 else _).
  assert (Hreq : 0 <= req /\ (need = true -> 0 < req) /\ (need = false -> req = ne)).
  { unfold req. destruct need; cbn [andb]; [|done]. destruct (ne =? 0) eqn:E; [lia|]. apply Z.eqb_neq in E. split_and!; [lia|lia|done]. }
  clearbody req. destruct Hreq as (Hr0 & Hr1 & Hr2). destruct (0 <? req) eqn:Er; [apply Z.ltb_lt in Er|apply Z.ltb_ge in Er]; cycle 1.
  { assert (Hno : need = false) by (destruct need; [specialize (Hr1 eq_refl); lia|done]). specialize (Hr2 Hno).
    exists (with_usage new t). split; [left|by table_cbn].
    assert (Hc : charged bits mu 1 total B held t (with_usage new (with_occupancy (ct_occupancy t) t))) by (eapply charged_stay; [exact Ht|lia|lia|lia]).
    rewrite with_occupancy_id in Hc. split_and!; [done|done|]. eapply room_for_one; [exact Hc|by left|done]. }
  (* evicting for what was not there *)
  assert (Ht1 : table_inv bits mu 1 (new - ct_usage t) B held (with_usage new t)).
  { pose proof (table_inv_fields bits mu 1 0 1 (new - ct_usage t) B held t new (ct_occupancy t) Ht) as H. rewrite with_occupancy_id in H. apply H; lia. }
  destruct (clock_evict_ok bits mu B held 1 _ (with_usage new t) req Ht1 Er) as (c & n & t1 & E & Hev & Hp1); [table_cbn; lia..|].
  destruct (evicted_bounds _ _ _ _ _ _ _ _ _ _ Ht1 Hev) as [Hb1 Hb2]. pose proof (ev_count _ _ _ _ _ _ _ _ _ _ Hev) as [Hc1 Hc2].
  pose proof (ev_sign _ _ _ _ _ _ _ _ _ _ Hev) as (Hs1 & Hs2 & Hs3). pose proof (ev_counters _ _ _ _ _ _ _ _ _ _ Hev) as (Eu & Eo & _).
  cbn [with_usage ct_handles ct_usage ct_occupancy] in Hc1, Hc2, Eu, Eo. st_step E. rewrite st_bump.
  st_step (fetch_occupancy_ok (λ k, k - wrap32 n) (with_stats (stats_add_passive_evict n (ct_stats t1)) t1)). table_cbn. rewrite (wrap_small 32 n), (wrap_small 32) by (unfold fits; lia).
  set (t2 := with_occupancy _ _).
  assert (Hcg : forall dU' u, u = ct_usage t - c + dU' -> u < 2 ^ 64 -> charged bits mu 1 dU' B held t (with_usage u t2)).
  { intros dU' u Hu' Hf. destruct (evicted_charged _ _ _ _ _ _ _ _ _ _ 1 dU' u (ct_occupancy t1 - n) (stats_add_passive_evict n (ct_stats t1)) Hev Hp1) as [G1 G2 G3 G4 G5 G6]; [lia|lia|done|]. by split. }
  assert (Eu2 : ct_usage t2 = new) by (unfold t2; by table_cbn).
  assert (Hocc : 0 < n -> occ_sum (ct_handles t1) < 2 ^ bits).
  { intros Hn. pose proof (occ_sum_slots _ _ _ _ (ti_slots _ _ _ _ _ _ _ Ht)). lia. }
  destruct (ne <? c) eqn:Enc; [apply Z.ltb_lt in Enc|apply Z.ltb_ge in Enc].
  { rewrite st_assert by (apply Z.ltb_lt; lia). st_step (fetch_usage_ok (λ k, k - (c - ne)) t2). rewrite Eu2, wrap_small by (unfold fits; lia).
    eexists. split; [left; split; [unfold lift; rewrite (proj2 (Z.ltb_lt 0 n)) by lia; reflexivity|]|table_cbn; lia]. split; [apply Hcg; lia|]. unfold t2. table_cbn. apply Hocc. lia. }
  destruct ((c <? ne) || (need && (n =? 0))) eqn:Efail.
  - st_step (fetch_usage_ok (λ k, k - wrap64 (c + wrap64 (new - ct_usage t))) t2). rewrite Eu2.
    assert (Ew : wrap64 (new - wrap64 (c + wrap64 (new - ct_usage t))) = ct_usage t - c).
    { unfold wrap. rewrite Zplus_mod_idemp_r, Zminus_mod_idemp_r. replace (new - (c + (new - ct_usage t))) with (ct_usage t - c) by lia. apply Z.mod_small. lia. }
    rewrite Ew. eexists. split; [right; split; [reflexivity|apply Hcg; lia]|table_cbn; lia].
  - apply orb_false_iff in Efail as [E1 E2]. apply Z.ltb_ge in E1. assert (Ec : c = ne) by lia. assert (Hn : 0 < n).
    { apply andb_false_iff in E2 as [E2|E2]; [specialize (Hr2 E2); lia|apply Z.eqb_neq in E2; lia]. }
    exists t2. split; [left|unfold t2; table_cbn; lia]. split; [unfold lift; by rewrite (proj2 (Z.ltb_lt 0 n))|]. split; [|unfold t2; table_cbn; by apply Hocc].
    assert (Hw : with_usage new t2 = t2) by (rewrite <- Eu2; apply with_usage_id). rewrite <- Hw. apply Hcg; lia.
Qed.
End charge.

(** Whether the entry is to be detached, or the insertion failed. *)
Lemma insert_charge_ok bits mu B held t total capacity :
  table_inv bits mu 1 0 B held t -> 0 <= mu -> room total t -> 0 <= capacity < 2 ^ 64 ->
  exists r t', insert_charge total capacity (cc_occupancy_limit (ct_config t) <? ct_occupancy t - 1) t = (r, t') /\
    match r with
    | Ok true => charged bits mu 0 total B held t t' /\ cc_strict_capacity_limit (ct_config t) = false /\ cc_occupancy_limit (ct_config t) < ct_occupancy t - 1
    | Ok false => charged bits mu 1 total B held t t' /\ occ_sum (ct_handles t') < 2 ^ bits
    | Err e => e = MemoryLimit /\ cc_strict_capacity_limit (ct_config t) = true /\ charged bits mu 0 0 B held t t'
    | Panic => False
    end /\ (cc_strict_capacity_limit (ct_config t) = true -> ct_usage t <= capacity -> ct_usage t' <= capacity).
Proof.
  intros Ht Hmu Hroom Hcap. destruct (charge_sums bits mu B held t Ht Hmu) as (Hcs & Hbs & Hos & Ho). pose proof Hroom as (Htot & Hu0 & Hu & Hp0 & Hp).
  assert (Hdec : forall dU' t1 u, charged bits mu 1 dU' B held t t1 -> u = ct_usage t1 -> u < 2 ^ 64 ->
    fetch_occupancy (λ n, n - 1) t1 = (Ok (ct_occupancy t1), with_occupancy (ct_occupancy t1 - 1) t1) /\ charged bits mu 0 dU' B held t (with_occupancy (ct_occupancy t1 - 1) t1)).
  { intros dU' t1 u Hc -> Hf. pose proof (ti_occupancy _ _ _ _ _ _ _ (cg_inv _ _ _ _ _ _ _ _ Hc)) as Ho1. pose proof (occ_sum_bounds _ _ _ _ (ti_slots _ _ _ _ _ _ _ (cg_inv _ _ _ _ _ _ _ _ Hc))).
    split; [rewrite fetch_occupancy_ok, wrap_small by (unfold fits; lia); done|]. destruct Hc as [G1 G2 G3 G4 G5 G6]. split; try done.
    pose proof (table_inv_fields bits mu 1 dU' 0 dU' B held t1 (ct_usage t1) (ct_occupancy t1 - 1) G1) as G.
    unfold with_usage, with_occupancy in *. cbn in *. apply G; lia. }
  unfold insert_charge. rewrite st_gets. destruct (cc_strict_capacity_limit (ct_config t)) eqn:Es.
  - destruct (charge_strict_ok bits mu B held t total capacity Ht Hmu Hroom Hcap) as (t' & [(E & Hc & Hlt)|(E & Hc)] & Hbd).
    + exists (Ok false), t'. unfold attempt, mbind, st_bind. rewrite E. done.
    + destruct (Hdec 0 t' _ Hc eq_refl (ti_usage_fits _ _ _ _ _ _ _ (cg_inv _ _ _ _ _ _ _ _ Hc))) as [Ef Hc'].
      exists (Err MemoryLimit), (with_occupancy (ct_occupancy t' - 1) t'). unfold attempt. unfold mbind at 1, st_bind at 1. rewrite E. st_step Ef. done.
  - destruct (charge_non_strict_ok bits mu B held t total capacity Ht Hmu Hroom) as ([] & t' & E & Hc & Hlt); st_step E; cbn [negb].
    + exists (Ok false), t'. done.
    + destruct (Hdec 0 t' _ Hc eq_refl (ti_usage_fits _ _ _ _ _ _ _ (cg_inv _ _ _ _ _ _ _ _ Hc))) as [Ef Hc']. st_step Ef.
      set (t1 := with_occupancy _ _) in *. pose proof (ti_usage _ _ _ _ _ _ _ (cg_inv _ _ _ _ _ _ _ _ Hc')) as Hu1. pose proof (ti_usage _ _ _ _ _ _ _ Ht) as Hu2.
      pose proof (cg_sums _ _ _ _ _ _ _ _ Hc'). rewrite (cg_boxes _ _ _ _ _ _ _ _ Hc') in Hu1.
      assert (0 <= charge_sum (ct_handles t1)) by (apply isum_pos; intros j y Hj; eapply slot_charge_pos, (si_slot _ _ _ _ (ti_slots _ _ _ _ _ _ _ (cg_inv _ _ _ _ _ _ _ _ Hc')) j y Hj)).
      st_step (fetch_usage_ok (λ n, n + total) t1). rewrite wrap_small by (unfold fits; lia).
      exists (Ok true), (with_usage (ct_usage t1 + total) t1). split; [done|]. split; [|done]. apply Z.ltb_lt in Hlt. split; [|done]. destruct Hc' as [G1 G2 G3 G4 G5 G6]. split; try done.
      pose proof (table_inv_fields bits mu 0 0 0 total B held t1 (ct_usage t1 + total) (ct_occupancy t1) G1) as G. rewrite with_occupancy_id in G. apply G; lia.
Qed.

(** ** Finding a slot *)

Lemma on_table_ok {A} (m : St Table A) t a t' b : m t = (Ok a, t') -> on_table m (t, b) = (Ok a, (t', b)).
Proof. intros E. unfold on_table. cbn [fst snd]. by rewrite E. Qed.

(** The new entry in the slot [h]. *)
Definition placed (proto h : Handle) : Handle :=
  with_meta (meta_word 7 1 2) (clock_handle_insert (ch_key proto) (ch_value proto) (ch_hash proto) (ch_charge proto) h).

(** An occupied slot is passed by: a slot that is visible is not looked into, and one
    that is not is left as it was. *)
Lemma insert_match_occupied proto t i h B n b : ct_handles t !! i = Some h -> slot_ok B n h -> occ h = 1 -> insert_match proto i (t, b) = (Ok false, (t, b)).
Proof.
  intros E (st & rel & acq & Em & Hw & HB & Hn & Hdet & Hc) Ho. assert (Hok : word_ok st rel acq) by (unfold word_ok; destruct Hc as [|]; lia).
  assert (Hst : slot_state h = st) by (unfold slot_state; by rewrite Em, state_word).
  destruct Hc as [(-> & _)|Hc]; [unfold occ in Ho; by rewrite Hst in Ho|]. unfold insert_match.
  st_step (on_table_ok _ _ _ _ b (slot_fetch t i h (λ m, Z.lor m (Z.shiftl STATE_OCCUPIED_BIT STATE_SHIFT)) E)).
  assert (Hlor : Z.lor st STATE_OCCUPIED_BIT = st) by (destruct Hc as ([->|[-> _]] & _); done).
  rewrite Em, word_or, Hlor, state_word by done. rewrite <- Em, with_meta_id, set_slot_id by done. cbv zeta. destruct Hc as ([->|[-> Hpos]] & Hr & Hch); [done|].
  change (6 =? STATE_EMPTY) with false. change (negb (6 =? STATE_INVISIBLE)) with false. cbn iota.
  st_step (on_table_ok _ _ _ _ b (slot_fetch t i h (λ m, wrap64 (m + LOW_COUNT_DOWN * ACQUIRE_INCREMENT)) E)). change (LOW_COUNT_DOWN * ACQUIRE_INCREMENT) with 2.
  rewrite Em, word_acquire, state_word by first [done|unfold word_ok in *; lia]. change (6 =? STATE_VISIBLE) with false. change (6 =? STATE_INVISIBLE) with true. cbn iota.
  set (t1 := set_slot i _ t). assert (E1 : ct_handles t1 !! i = Some (with_meta (meta_word 6 rel (acq + 2)) h)) by (apply set_slot_same; by eapply lookup_lt_Some).
  st_step (on_table_ok _ _ _ _ b (slot_fetch t1 i _ (λ m, wrap64 (m - 2)) E1)). cbn [ch_meta with_meta]. rewrite word_unacquire by (unfold word_ok in *; lia).
  unfold t1. rewrite set_slot_twice, with_meta_twice. replace (acq + 2 - 2) with acq by lia. by rewrite <- Em, with_meta_id, set_slot_id.
Qed.
Lemma insert_match_empty proto t i h B n b : ct_handles t !! i = Some h -> slot_ok B n h -> occ h = 0 -> insert_match proto i (t, b) = (Ok true, (set_slot i (placed proto h) t, b)).
Proof.
  intros E (st & rel & acq & Em & Hw & HB & Hn & Hdet & Hc) Ho. assert (Hok : word_ok st rel acq) by (unfold word_ok; destruct Hc as [|]; lia).
  assert (Hst : slot_state h = st) by (unfold slot_state; by rewrite Em, state_word). pose proof (lookup_lt_Some _ _ _ E) as Hlt.
  destruct Hc as [(-> & -> & ->)|Hc]; cycle 1. { exfalso. destruct Hc as ([->|[-> _]] & _); unfold occ in Ho; by rewrite Hst in Ho. } unfold insert_match.
  st_step (on_table_ok _ _ _ _ b (slot_fetch t i h (λ m, Z.lor m (Z.shiftl STATE_OCCUPIED_BIT STATE_SHIFT)) E)).
  rewrite Em, word_or, state_word by done. change (Z.lor 0 STATE_OCCUPIED_BIT) with 4. change (0 =? STATE_EMPTY) with true. cbv zeta. cbn iota.
  set (t1 := set_slot i _ t). assert (E1 : ct_handles t1 !! i = Some (with_meta (meta_word 4 0 acq) h)) by (by apply set_slot_same).
  st_step (on_table_ok _ _ _ _ b (slot_assign t1 i _ (clock_handle_insert (ch_key proto) (ch_value proto) (ch_hash proto) (ch_charge proto)) E1)).
  unfold t1. rewrite set_slot_twice. set (t2 := set_slot i _ t). set (h2 := clock_handle_insert _ _ _ _ _) in t2.
  assert (E2 : ct_handles t2 !! i = Some h2) by (by apply set_slot_same).
  change (Z.lor (Z.lor (Z.shiftl STATE_VISIBLE STATE_SHIFT) (Z.shiftl LOW_COUNT_DOWN ACQUIRE_COUNTER_SHIFT)) (Z.shiftl (LOW_COUNT_DOWN - 1) RELEASE_COUNTER_SHIFT)) with (meta_word 7 1 2).
  st_step (on_table_ok _ _ _ _ b (slot_fetch t2 i _ (λ _, meta_word 7 1 2) E2)). rewrite st_assert; [unfold t2; by rewrite set_slot_twice|].
  unfold h2. cbn [ch_meta clock_handle_insert with_meta]. rewrite state_word; [done|]. unfold word_ok in *. lia.
Qed.
Lemma displace_ok t i h : ct_handles t !! i = Some h -> displace i t = (Ok tt, with_handles (alter (displace_by 1) i (ct_handles t)) t).
Proof.
  intros E. unfold displace, fetch_displacements. rewrite (slot_assign t i h _ E). rewrite (alter_some _ _ _ h) by done. done.
Qed.

Lemma insert_walk proto (B n : nat -> Z) l : NoDup l -> forall probe t b,
  (forall j, j ∈ l -> exists h, ct_handles t !! j = Some h /\ slot_ok (B j) (n j) h) -> (exists j h, j ∈ l /\ ct_handles t !! j = Some h /\ occ h = 0) ->
  exists l1 i l2 h k, l = l1 ++ i :: l2 /\ ct_handles t !! i = Some h /\ occ h = 0 /\
    walk (insert_match proto) (λ _, mret false) (λ i, on_table (displace i)) probe l (t, b) =
      (Ok (Some i, k), (with_handles (<[i := placed proto h]> (displace_all 1 l1 (ct_handles t))) t, b)).
Proof.
  induction 1 as [|i l Hi Hl IH]; intros probe t b Hslots (j & hj & Hj & Ej & Ho); [by apply not_elem_of_nil in Hj|]. cbn [walk].
  destruct (Hslots i) as (h & E & Hok); [by left|]. destruct (occ_01 h) as [Ho0|Ho1].
  - st_step (insert_match_empty proto t i h _ _ b E Hok Ho0). by exists [], i, l, h, (probe + 1).
  - st_step (insert_match_occupied proto t i h _ _ b E Hok Ho1). rewrite st_mret. st_step (on_table_ok _ _ _ _ b (displace_ok t i h E)).
    assert (Hne : forall x, x ∈ l -> alter (displace_by 1) i (ct_handles t) !! x = ct_handles t !! x) by (intros x Hx; rewrite list_lookup_alter_ne by (by intros ->); done).
    destruct (IH (probe + 1) (with_handles (alter (displace_by 1) i (ct_handles t)) t) b) as (l1 & x & l2 & hx & k & -> & Ex & Hox & Ew).
    + intros x Hx. table_cbn. rewrite Hne by done. apply Hslots. by right.
    + exists j, hj. table_cbn. apply elem_of_cons in Hj as [->|Hj]; [congruence|]. by rewrite Hne.
    + cbn [ct_handles with_handles] in Ex. rewrite Hne in Ex by (apply elem_of_app; right; by left). exists (i :: l1), x, l2, hx, k. split_and!; try done.
Qed.

(** An insertion that was charged for finds a slot, and the invariant holds again. *)
Lemma insert_slot_ok bits mu N held proto t :
  table_inv bits mu 1 (ch_charge proto) (λ _, N) held t -> 2 <= N < 2 ^ 29 -> 0 < ch_charge proto -> occ_sum (ct_handles t) < 2 ^ bits ->
  exists i h, insert_find_slot proto t = (Ok (Some i, false), with_handles (put_slot bits i (placed proto h) (ct_handles t)) t) /\
    ct_handles t !! i = Some h /\ occ h = 0 /\ held (PtrSlot i) = 0 /\ slot_state (placed proto h) = 7 /\
    table_inv bits mu 0 0 (λ _, N) (plus_one (PtrSlot i) held) (with_handles (put_slot bits i (placed proto h) (ct_handles t)) t).
Proof.
  intros Ht HN Hc Hroom. pose proof (ti_slots _ _ _ _ _ _ _ Ht) as Hs. pose proof (si_bits _ _ _ _ Hs) as Hb. pose proof (si_length _ _ _ _ Hs) as Hl.
  assert (Hempty : exists j h, j ∈ path bits (ch_hash proto) /\ ct_handles t !! j = Some h /\ occ h = 0).
  { destruct (isum_lt (λ _, occ) (ct_handles t)) as (j & h & E & Ho); [intros j x _; apply occ_01|fold (occ_sum (ct_handles t)); rewrite Hl, slot_count_z; done|].
    exists j, h. split_and!; [|done|done]. apply path_elem; [done|]. rewrite <- Hl. by eapply lookup_lt_Some. }
  destruct (insert_walk proto (λ _, N) (λ i, held (PtrSlot i)) (path bits (ch_hash proto)) (path_nodup bits Hb _) 0 t false) as (l1 & i & l2 & h & k & Hp & E & Ho & Ew); [|done|].
  { intros j Hj. apply path_elem in Hj; [|done]. destruct (table_inv_slot _ _ _ _ _ _ _ j Ht Hj) as (x & Ex & Hx). by exists x. }
  pose proof (path_nodup bits Hb (ch_hash proto)) as Hn. rewrite Hp in Hn. apply NoDup_app in Hn as (Hn1 & Hn2 & _).
  assert (Hi : i ∉ l1) by (intros Hi; apply (Hn2 i Hi); by left). exists i, h.
  assert (Eput : <[i := placed proto h]> (displace_all 1 l1 (ct_handles t)) = put_slot bits i (placed proto h) (ct_handles t)).
  { unfold put_slot. cbn [ch_hash placed with_meta clock_handle_insert]. rewrite Hp, before_app by done. by apply displace_insert. }
  assert (H7 : slot_state (placed proto h) = 7) by done. assert (Ho1 : occ (placed proto h) = 1) by done.
  destruct (slot_ok_cases _ _ _ (si_slot _ _ _ _ Hs i h E)) as [(_ & _ & H0)|(_ & ? & _)]; [|lia].
  split; [|do 4 (split; [assumption|])].
  - unfold insert_find_slot. rewrite (ti_mask _ _ _ _ _ _ _ Ht), find_slot_walk, Ew by done. by rewrite Eput.
  - destruct (put_sums bits (ct_handles t) i h (placed proto h) E Ho Ho1) as [Eo Ec]. cbn [ch_charge placed with_meta clock_handle_insert] in Ec.
    destruct Ht as [_ T2 T3 T4 T5 T6 T7 T8 T9 T10]. split; table_cbn; try assumption; [|lia|lia| |].
    + eapply slots_inv_put; [done|done|done|done|done| |].
      * unfold plus_one. rewrite decide_True by done. rewrite H0. destruct (si_slot _ _ _ _ Hs i h E) as (? & ? & ? & _ & _ & _ & _ & Hdet & _).
        exists 7, 1, 2. assert (Hch : 0 < ch_charge (placed proto h)) by done. split_and!; try done; lia.
      * intros j Hj. unfold plus_one. rewrite decide_False by congruence. split; [lia|done].
    + intros p x Hx. unfold plus_one. rewrite decide_False by done. destruct (T9 p x Hx) as [? ->]. split; [done|lia].
    + intros p Hp'. unfold plus_one. rewrite decide_False by done. rewrite T10 by done. lia.
Qed.

(** ** Insertion *)

Definition proto_data (proto : Handle) : Z * Z * option T * Z := slot_data proto.
(** What an insertion that returned [q] made of the table. *)
Record inserted (bits mu N : Z) held (q : handle_ptr) (proto : Handle) t t' : Prop := {
  in_inv : table_inv bits mu 0 0 (λ _, N) (plus_one q held) t';
  in_config : ct_config t' = ct_config t;
  in_new : exists x, slot_lookup q t' = Some x /\ slot_data x = slot_data proto;
  in_fresh : held q = 0;
  in_attached : cc_strict_capacity_limit (ct_config t) = true \/ ct_occupancy t <= cc_occupancy_limit (ct_config t) -> exists i, q = PtrSlot i;
  in_slots : forall j x', ct_handles t' !! j = Some x' ->
    (q = PtrSlot j /\ slot_state x' = 7) \/ (q <> PtrSlot j /\ exists x, ct_handles t !! j = Some x /\ fades_slot (λ _, True) x x');
  in_boxes : forall p, q <> PtrBox p -> ct_boxes t' !! p = ct_boxes t !! p;
  in_pointer : ct_clock_pointer t <= ct_clock_pointer t' <= ct_clock_pointer t + 2 ^ 34;
}.

Lemma finish_detached_ok bits mu N held p proto t t1 :
  charged bits mu 0 (ch_charge proto) (λ _, N) held t t1 -> 0 < ch_charge proto -> 0 <= mu -> ct_boxes t !! p = None ->
  cc_strict_capacity_limit (ct_config t) = false -> cc_occupancy_limit (ct_config t) < ct_occupancy t ->
  exists t', finish_detached p proto t1 = (Ok (PtrBox p), t') /\ inserted bits mu N held (PtrBox p) proto t t' /\ ct_usage t' = ct_usage t1.
Proof.
  intros [[T1 T2 T3 T4 T5 T6 T7 T8 T9 T10] G2 G3 G4 G5 G6] Hc Hmu Hp Hns Hlim. rewrite G3 in *. unfold finish_detached, detached_insert. rewrite st_assoc, st_modify. rewrite st_assoc.
  set (t2 := with_boxes _ _). unfold fetch_detached_usage at 1. unfold mbind at 1, st_bind at 1. rewrite st_mret, st_bump. eexists. split; [reflexivity|]. split; [|done].
  pose proof (box_sum_nonneg (ct_boxes t) (λ p x Hx, proj1 (T9 p x Hx))).
  assert (0 <= charge_sum (ct_handles t1)) by (apply isum_pos; intros j y Hj; eapply slot_charge_pos, (si_slot _ _ _ _ T1 j y Hj)).
  split; table_cbn; unfold t2; table_cbn; try done.
  - set (x := mkClockHandle _ _ _ _ _ _ _). assert (Eb : box_sum (<[p := x]> (ct_boxes t)) = ch_charge proto + box_sum (ct_boxes t)) by (by rewrite box_sum_insert).
    split; table_cbn; rewrite ?G3, ?Eb; try done.
    + eapply slots_inv_mono; [|exact T1]. intros j Hj Hlt. unfold plus_one. rewrite decide_False by done. split; lia.
    + lia.
    + rewrite wrap_small by (unfold fits; lia). lia.
    + intros p' y. unfold plus_one. destruct (decide (p' = p)) as [->|Hne].
      * rewrite lookup_insert_eq, decide_True by done. intros [= <-]. rewrite T10 by done. done.
      * rewrite lookup_insert_ne, decide_False by congruence. intros Hy. destruct (T9 p' y Hy) as [? ->]. split; [done|lia].
    + intros p'. unfold plus_one. destruct (decide (p' = p)) as [->|Hne]; [by rewrite lookup_insert_eq|]. rewrite lookup_insert_ne, decide_False by congruence.
      intros ?. rewrite T10 by done. lia.
  - cbn [slot_lookup]. table_cbn. rewrite G3, lookup_insert_eq. eexists. split; [done|]. done.
  - by apply T10.
  - intros [?|?]; [congruence|lia].
  - intros j x' Hx'. right. split; [done|]. by eapply fades_lookup.
  - intros p' Hne. rewrite lookup_insert_ne by congruence. by rewrite G3.
Qed.

(** Inserting an entry: in a slot or detached, or not at all for want of memory. *)
Lemma clock_insert_ok bits mu N held p proto capacity t :
  table_inv bits mu 0 0 (λ _, N) held t -> 0 <= mu -> 2 <= N < 2 ^ 29 -> room (ch_charge proto) t -> 0 <= capacity < 2 ^ 64 -> ct_boxes t !! p = None ->
  exists r t', clock_insert p proto capacity t = (r, t') /\
    match r with
    | Ok q => inserted bits mu N held q proto t t'
    | Err e => e = MemoryLimit /\ cc_strict_capacity_limit (ct_config t) = true /\ charged bits mu 0 0 (λ _, N) held t t'
    | Panic => False
    end /\ (cc_strict_capacity_limit (ct_config t) = true -> ct_usage t <= capacity -> ct_usage t' <= capacity).
Proof.
  intros Ht Hmu HN Hroom Hcap Hp. pose proof Hroom as (Htot & Hu0 & Hu & Hp0 & Hpp). pose proof (occ_sum_bounds _ _ _ _ (ti_slots _ _ _ _ _ _ _ Ht)) as Hob.
  pose proof (ti_occupancy _ _ _ _ _ _ _ Ht) as Hocc. unfold clock_insert. st_step (fetch_occupancy_ok (λ n, n + 1) t). rewrite wrap_small by (unfold fits; lia). rewrite st_gets.
  set (t0 := with_occupancy (ct_occupancy t + 1) t).
  assert (Ht0 : table_inv bits mu 1 0 (λ _, N) held t0).
  { pose proof (table_inv_fields bits mu 0 0 1 0 (λ _, N) held t (ct_usage t) (ct_occupancy t + 1) Ht) as G. unfold with_usage, with_occupancy in *. cbn in *. apply G; lia. }
  destruct (insert_charge_ok bits mu (λ _, N) held t0 (ch_charge proto) capacity Ht0 Hmu Hroom Hcap) as (r & t1 & E & Hr & Hst).
  replace (ct_occupancy t0 - 1) with (ct_occupancy t) in E by (unfold t0; table_cbn; lia).
  destruct r as [[]|e|]; [..|done]; [st_step E| st_step E|].
  - destruct Hr as ([G1 G2 G3 G4 G5 G6] & Hns & Hlim). destruct (finish_detached_ok bits mu N held p proto t t1) as (t' & E' & Hi & Hus); [by split|done|done|done|done|unfold t0 in Hlim; cbn [ct_config ct_occupancy with_occupancy] in Hlim; lia|].
    exists (Ok (PtrBox p)), t'. split_and!; [done|done|]. rewrite Hus. apply Hst.
  - destruct Hr as [[G1 G2 G3 G4 G5 G6] Hlt]. destruct (insert_slot_ok bits mu N held proto t1 G1 HN Htot Hlt) as (i & h & Ef & Eh & Ho & H0 & H7 & Hinv).
    st_step Ef. rewrite st_gets. rewrite bool_decide_false by done. rewrite st_mret. cbn [orb negb expect].
    assert (Ei : ct_handles (with_handles (put_slot bits i (placed proto h) (ct_handles t1)) t1) !! i = Some (placed proto h)).
    { table_cbn. unfold put_slot. pose proof (si_bits _ _ _ _ (ti_slots _ _ _ _ _ _ _ Ht)). rewrite displace_slot; [|apply not_before|by apply before_nodup, path_nodup].
      apply list_lookup_insert_eq. by eapply lookup_lt_Some. }
    set (t2 := with_handles _ t1) in *. unfold lift at 1. unfold mbind at 1, st_bind at 1. st_step (slot_deref t2 i _ Ei). rewrite st_bump.
    exists (Ok (PtrSlot i)), (with_stats (inc_insert (ct_stats t2)) t2). split; [done|]. split; [|exact Hst]. split; table_cbn; try assumption.
    + by apply bump_inv.
    + cbn [slot_lookup]. table_cbn. rewrite Ei. by exists (placed proto h).
    + intros _. by exists i.
    + intros j x' Hx'. unfold t2 in Hx'. cbn [ct_handles with_handles] in Hx'. destruct (decide (j = i)) as [->|Hne].
      * left. split; [done|]. assert (x' = placed proto h) as ->; [|done]. unfold t2 in Ei. cbn [ct_handles with_handles] in Ei. congruence.
      * right. split; [congruence|]. unfold put_slot in Hx'. rewrite displace_all_lookup in Hx' by (apply before_nodup, path_nodup, (si_bits _ _ _ _ (ti_slots _ _ _ _ _ _ _ Ht))).
        rewrite list_lookup_insert_ne in Hx' by done. apply fmap_Some in Hx' as (z & Ez & ->). destruct (fades_lookup _ _ _ _ _ G4 Ez) as (x & Ex & Hf).
        exists x. split; [done|]. by case_decide.
    + intros p' _. unfold t2. table_cbn. by rewrite G3.
  - destruct Hr as (-> & Hstr & [G1 G2 G3 G4 G5 G6]). exists (Err MemoryLimit), t1. split; [|split; [|exact Hst]].
    + unfold mbind at 1, st_bind at 1. by rewrite E.
    + split_and!; [done|done|]. by split.
Qed.
End insert.
