(* ===== verification/ClockLaws.v ===== *)
(** * The operations of a table of the clock cache

    Lookup, release and erase keep the invariant of the table ([clock_lookup_ok],
    [clock_release_ok], [clock_erase_ok]; insertion is in [ClockInsert]); a new table
    satisfies it, and a table that nobody references can be dropped. *)

From stdpp Require Import base numbers list gmap.
From Stdlib Require Import ZArith Lia.
From S2P Require Import Prelude Float64 CacheHandle ClockWord ClockCache ClockProbe ClockSlots ClockOps ClockFree ClockInsert.

Section laws.
Context {T : Type}.
Local Abbreviation Handle := (ClockHandle T).
Local Abbreviation Table := (ClockCacheHandleTable T).
Implicit Types (h : Handle) (hs : list Handle) (t : Table) (held : handle_ptr -> Z) (q : handle_ptr).

Lemma counted_const bits mu dO dU N l held t : N + 1 < 2 ^ 29 -> table_inv bits mu dO dU (counted (λ _, N) l) held t -> table_inv bits mu dO dU (λ _, N + 1) held t.
Proof. intros HN. apply table_inv_bound. intros i _. unfold counted. case_decide; lia. Qed.

(** The occupied slots have the hashes that their keys have. *)
Definition hashes (hash : Z -> Z) t : Prop := forall i h, ct_handles t !! i = Some h -> occ h = 1 -> ch_hash h = hash (ch_key h).
Lemma matches_occ key h : matches key h -> occ h = 1.
Proof. intros [E _]. unfold occ. by rewrite E. Qed.

(** ** Lookup *)

Lemma clock_lookup_ok bits mu N held t (hash : Z -> Z) key :
  table_inv bits mu 0 0 (λ _, N) held t -> N + 1 < 2 ^ 29 -> hashes hash t ->
  exists r t', clock_lookup key (hash key) t = (Ok r, t') /\
    table_inv bits mu 0 0 (λ _, N + 1) (match r with Some q => plus_one q held | None => held end) t' /\ same_rest t t' /\ ct_usage t' = ct_usage t /\
    view <$> ct_handles t' = view <$> ct_handles t /\
    match r with
    | Some q => exists i h, q = PtrSlot i /\ ct_handles t !! i = Some h /\ matches key h
    | None => forall i h, ct_handles t !! i = Some h -> ~ matches key h
    end.
Proof.
  intros Ht HN Hh. pose proof (ti_slots _ _ _ _ _ _ _ Ht) as Hs. unfold clock_lookup. rewrite st_gets, (ti_mask _ _ _ _ _ _ _ Ht).
  assert (Hsame : view <$> ct_handles t = view <$> ct_handles t) by done.
  destruct (lookup_walk bits mu key (hash key) [] (path bits (hash key)) eq_refl 0 t (λ _, N) held Ht) as (r & k & hs & E & Hi & Hv & Hr).
  { done. } { intros i h Ei Hm. split; [|apply not_elem_of_nil]. rewrite (Hh i h Ei) by (by eapply matches_occ). by destruct Hm as [_ ->]. }
  rewrite <- (find_slot_walk _ _ _ bits (si_bits _ _ _ _ Hs)) in E. st_step E. rewrite st_gets. apply counted_const in Hi; [|done]. destruct r as [i|].
  - destruct Hr as (h & Ei & Hm). rewrite bool_decide_true; cycle 1.
    { table_cbn. rewrite <- (length_fmap view), Hv, length_fmap. by eapply lookup_lt_Some. }
    rewrite st_bump. eexists (Some (PtrSlot i)), _. split; [reflexivity|]. split; [by apply bump_inv|]. split; [done|]. split; [done|]. split; [done|]. by exists i, h.
  - rewrite st_bump. eexists None, _. split; [reflexivity|]. split; [by apply bump_inv|]. done.
Qed.

(** ** Erase *)

Lemma clock_erase_ok bits mu N held t (hash : Z -> Z) key :
  table_inv bits mu 0 0 (λ _, N) held t -> 0 <= mu -> N + 1 < 2 ^ 29 -> hashes hash t ->
  exists t', clock_erase key (hash key) t = (Ok tt, t') /\ table_inv bits mu 0 0 (λ _, N + 1) held t' /\ same_rest t t' /\
    key_fades key (ct_handles t) (ct_handles t') /\ (forall i h, ct_handles t' !! i = Some h -> ~ matches key h).
Proof.
  intros Ht Hmu HN Hh. pose proof (ti_slots _ _ _ _ _ _ _ Ht) as Hs. unfold clock_erase. rewrite st_gets, (ti_mask _ _ _ _ _ _ _ Ht).
  destruct (erase_walk bits mu key (hash key) [] (path bits (hash key)) eq_refl 0 t (λ _, N) held Ht Hmu) as (k & t' & E & Hi & Hr & Hf & Hn).
  { done. } { intros i h Ei Hm. split; [|apply not_elem_of_nil]. rewrite (Hh i h Ei) by (by eapply matches_occ). by destruct Hm as [_ ->]. }
  rewrite <- (find_slot_walk _ _ _ bits (si_bits _ _ _ _ Hs)) in E. st_step E. apply counted_const in Hi; [|done].
  eexists. split; [reflexivity|]. split; [by apply bump_inv|]. done.
Qed.

(** ** Release *)

Definition minus_one q held : handle_ptr -> Z := λ q', held q' - (if decide (q' = q) then 1 else 0).

(** Taking the last reference of a word that is out of sight. *)
Lemma shareable_word st rel acq : word_ok st rel acq -> Z.land (meta_word st rel acq) (Z.shiftl STATE_SHAREABLE_BIT STATE_SHIFT) = Z.land st 2 * 2 ^ 60.
Proof.
  intros Hw. unfold word_ok in Hw. unfold meta_word. rewrite <- Z.add_assoc. remember (rel * 2 ^ 30 + acq) as low. rewrite <- lor_high by lia.
  change STATE_SHIFT with 60. change STATE_SHAREABLE_BIT with 2. rewrite <- !Z.shiftl_mul_pow2 by lia. apply Z.bits_inj'. intros i Hi. rewrite Z.land_spec, Z.lor_spec. destruct (Z.ltb_spec i 60).
  - by rewrite !Z.shiftl_spec_low, andb_false_r by lia.
  - rewrite !Z.shiftl_spec_high by lia. rewrite Z.land_spec. assert (Z.testbit low i = false) as ->; [|by rewrite orb_false_r].
    destruct (decide (low = 0)) as [->|]; [apply Z.bits_0|]. apply Z.bits_above_log2; [lia|]. apply Z.lt_le_trans with 60; [apply Z.log2_lt_pow2; lia|done].
Qed.

Lemma clock_release_slot bits mu N held t i :
  table_inv bits mu 0 0 (λ _, N) held t -> 0 <= mu -> 0 < held (PtrSlot i) -> (i < slot_count bits)%nat ->
  exists b t', clock_release (Some (PtrSlot i)) t = (Ok b, t') /\ table_inv bits mu 0 0 (λ _, N) (minus_one (PtrSlot i) held) t' /\ same_rest t t' /\
    fades (λ _, False) (ct_handles t) (ct_handles t').
Proof.
  intros Ht Hmu Hpos Hi. pose proof (ti_slots _ _ _ _ _ _ _ Ht) as Hs. destruct (table_inv_slot _ _ _ _ _ _ _ i Ht Hi) as (h & E & Hok). pose proof (lookup_lt_Some _ _ _ E) as Hlt.
  destruct (slot_ok_cases _ _ _ Hok) as [(_ & _ & ?)|(_ & Ho & Hch & _)]; [lia|].
  destruct Hok as (st & rel & acq & Em & Hw & HB & Hn & Hdet & Hc). destruct Hc as [(_ & _ & ?)|(Hst67 & Hr & _)]; [lia|].
  assert (Hok : word_ok st rel acq) by (unfold word_ok; lia). assert (Hok1 : word_ok st (rel + 1) acq) by (unfold word_ok; lia).
  assert (Hst : slot_state h = st) by (unfold slot_state; by rewrite Em, state_word).
  (* the word after the release *)
  set (h1 := with_meta (meta_word st (rel + 1) acq) h). assert (Hst1 : slot_state h1 = slot_state h) by (unfold slot_state, h1; cbn [ch_meta with_meta]; by rewrite state_word).
  assert (Hh' : forall q, q <> PtrSlot i -> minus_one (PtrSlot i) held q = held q) by (intros q Hq; unfold minus_one; rewrite decide_False by done; lia).
  assert (Hkeep : st = 7 \/ 1 < held (PtrSlot i) -> table_inv bits mu 0 0 (λ _, N) (minus_one (PtrSlot i) held) (set_slot i h1 t) /\ fades (λ _, False) (ct_handles t) (ct_handles (set_slot i h1 t))).
  { intros Hk. assert (Hh1 : slot_ok N (minus_one (PtrSlot i) held (PtrSlot i)) h1).
    { unfold minus_one. rewrite decide_True by done. exists st, (rel + 1), acq. assert (0 < ch_charge h1) by done. split_and!; try done; lia. }
    pose proof (slots_inv_meta _ _ _ _ i h (meta_word st (rel + 1) acq) N _ Hs E (ltac:(unfold occ; fold h1; by rewrite Hst1)) Hh1) as Hs'. fold h1 in Hs'.
    assert (Hv : view <$> <[i := h1]> (ct_handles t) = view <$> ct_handles t) by (apply (view_insert _ i h); [done|]; unfold view; by rewrite Hst1).
    split; [|by apply fades_view]. eapply table_inv_slots; [exact Ht| |exact Hv|intros p; by apply Hh'].
    eapply slots_inv_mono; [|exact Hs']. intros j _ Hlj. cbn beta in *. split; [case_decide; lia|]. destruct (decide (j = i)) as [->|]; [done|]. rewrite Hh' by congruence. done. }
  unfold clock_release. st_step (slot_fetch t i h (λ m, wrap64 (m + RELEASE_INCREMENT)) E). rewrite Em, word_release, state_word, acquire_word, release_word by first [done|unfold word_ok in *; lia]. fold h1.
  rewrite st_assert by (destruct Hst67 as [->|[-> _]]; done). rewrite st_assert by (apply negb_true_iff, Z.eqb_neq; lia).
  assert (E1 : ct_handles (set_slot i h1 t) !! i = Some h1) by (by apply set_slot_same).
  assert (Hfix : forall w, fetch_meta (PtrSlot i) (correct_near_overflow w) (set_slot i h1 t) = (Ok (ch_meta h1), set_slot i h1 t)).
  { intros w. rewrite (slot_fetch _ i h1 _ E1). unfold h1 at 2. cbn [ch_meta with_meta]. rewrite correct_small by first [done|lia]. by rewrite set_slot_twice. }
  destruct Hst67 as [->|[-> _]].
  - (* the entry is visible *)
    change (false || (7 =? STATE_INVISIBLE)) with false. cbn iota. st_step (Hfix (meta_word 7 rel acq)). destruct Hkeep as [H1 H2]; [by left|]. by exists false, (set_slot i h1 t).
  - change (false || (6 =? STATE_INVISIBLE)) with true. cbn iota. cbn [take_last_ref].
    assert (Href : ref_count (meta_word 6 (rel + 1) acq) = held (PtrSlot i) - 1) by (rewrite ref_count_word by done; rewrite wrap_small by (unfold fits; lia); lia).
    rewrite Href. destruct (held (PtrSlot i) - 1 =? 0) eqn:El; cbn [negb]; [apply Z.eqb_eq in El|apply Z.eqb_neq in El]; cycle 1.
    + rewrite st_assoc. st_step (Hfix (meta_word 6 (rel + 1) acq)). rewrite st_mret. destruct Hkeep as [H1 H2]; [right; lia|]. by exists false, (set_slot i h1 t).
    + rewrite shareable_word by done. change (Z.land 6 2 * 2 ^ 60 =? 0) with false. cbn iota. rewrite st_assoc. fold CONSTRUCTION_WORD.
      st_step (slot_exchange (set_slot i h1 t) i h1 (meta_word 6 (rel + 1) acq) CONSTRUCTION_WORD E1 eq_refl). rewrite st_mret. cbn [negb]. rewrite set_slot_twice. unfold h1. rewrite with_meta_twice.
      set (t2 := set_slot i _ t). assert (E2 : ct_handles t2 !! i = Some (with_meta CONSTRUCTION_WORD h)) by (by apply set_slot_same).
      st_step (slot_deref t2 i _ E2). cbn [ch_detached ch_charge ch_hash with_meta]. rewrite Hdet. rewrite st_assoc. st_step (free_ok t2 i _ E2 eq_refl). unfold t2. rewrite set_slot_twice, with_meta_twice.
      pose proof (si_bits _ _ _ _ Hs) as Hb. assert (Hl : length (ct_handles (set_slot i (with_meta 0 h) t)) = slot_count bits) by (table_cbn; rewrite length_insert; apply Hs).
      rewrite st_assoc. st_step (rollback_ok bits (ch_hash h) i (set_slot i (with_meta 0 h) t) Hb (ti_mask _ _ _ _ _ _ _ Ht) Hl Hi).
      destruct (charge_le _ _ _ _ _ _ _ _ _ Ht Hmu ltac:(lia) ltac:(lia) E Ho) as [Hc Hocc]. pose proof (ti_usage_fits _ _ _ _ _ _ _ Ht) as Hfit.
      match goal with |- context [reclaim_entry_usage ?c ≫= _] => match goal with |- context [with_handles ?x (set_slot ?a ?b ?d)] => set (t3 := with_handles x (set_slot a b d)) end end.
      assert (Er : reclaim_entry_usage (ch_charge h) t3 = (Ok tt, drop_entry bits i h t)) by (rewrite reclaim_ok by (unfold t3; table_cbn; lia); done).
      st_step Er. exists true, (drop_entry bits i h t).
      destruct (drop_entry_inv bits mu _ held (minus_one (PtrSlot i) held) t i h Ht E Ho Hmu) as [H1 H2]; [unfold minus_one; rewrite decide_True by done; lia|done|].
      split; [done|]. split; [done|]. split; [done|]. apply remove_fades; [done|done|by left].
Qed.

Lemma box_deref t p h : ct_boxes t !! p = Some h -> clock_deref (PtrBox p) t = (Ok h, t).
Proof. intros E. unfold clock_deref. cbn [slot_lookup]. by rewrite E. Qed.
Lemma box_assign t p h f : ct_boxes t !! p = Some h -> clock_assign (PtrBox p) f t = (Ok tt, with_boxes (<[p := f h]> (ct_boxes t)) t).
Proof. intros E. unfold clock_assign. cbn [slot_lookup]. by rewrite E. Qed.
Lemma box_fetch t p h f : ct_boxes t !! p = Some h -> fetch_meta (PtrBox p) f t = (Ok (ch_meta h), with_boxes (<[p := with_meta (f (ch_meta h)) h]> (ct_boxes t)) t).
Proof. intros E. unfold fetch_meta. st_step (box_deref t p h E). by st_step (box_assign t p h (λ h, with_meta (f (ch_meta h)) h) E). Qed.
Lemma box_exchange t p h cur new : ct_boxes t !! p = Some h -> ch_meta h = cur -> exchange_meta (PtrBox p) cur new t = (Ok true, with_boxes (<[p := with_meta new h]> (ct_boxes t)) t).
Proof. intros E <-. unfold exchange_meta. st_step (box_deref t p h E). rewrite Z.eqb_refl. by st_step (box_assign t p h (with_meta new) E). Qed.

Lemma clock_release_box bits mu N held t p :
  table_inv bits mu 0 0 (λ _, N) held t -> 0 <= mu -> 0 < held (PtrBox p) ->
  exists t', clock_release (Some (PtrBox p)) t = (Ok true, t') /\ table_inv bits mu 0 0 (λ _, N) (minus_one (PtrBox p) held) t' /\ ct_config t' = ct_config t /\
    ct_handles t' = ct_handles t /\ ct_boxes t' = delete p (ct_boxes t) /\ ct_clock_pointer t' = ct_clock_pointer t /\ ct_usage t' <= ct_usage t.
Proof.
  intros Ht Hmu Hpos. destruct Ht as [T1 T2 T3 T4 T5 T6 T7 T8 T9 T10]. destruct (ct_boxes t !! p) as [h|] eqn:E; [|rewrite T10 in Hpos by done; lia].
  destruct (T9 p h E) as [(Em & Hdet & Hch) H1].
  assert (Hbs : forall h', ct_boxes (with_boxes (<[p := h']> (ct_boxes t)) t) !! p = Some h') by (intros h'; table_cbn; by rewrite lookup_insert_eq).
  unfold clock_release. st_step (box_fetch t p h (λ m, wrap64 (m + RELEASE_INCREMENT)) E). rewrite Em.
  rewrite st_assert by done. rewrite st_assert by done. change (false || (meta_state (meta_word 6 0 1) =? STATE_INVISIBLE)) with true. cbn iota.
  change (wrap64 (meta_word 6 0 1 + RELEASE_INCREMENT)) with (meta_word 6 1 1). cbn [take_last_ref].
  change (negb (ref_count (meta_word 6 1 1) =? 0)) with false. change (Z.land (meta_word 6 1 1) (Z.shiftl STATE_SHAREABLE_BIT STATE_SHIFT) =? 0) with false. cbn iota.
  set (h1 := with_meta (meta_word 6 1 1) h). set (h2 := with_meta CONSTRUCTION_WORD h). set (t1 := with_boxes _ t).
  assert (Ex : exchange_meta (PtrBox p) (meta_word 6 1 1) (Z.shiftl STATE_CONSTRUCTION STATE_SHIFT) t1 = (Ok true, with_boxes (<[p := h2]> (ct_boxes t)) t)).
  { unfold t1. erewrite box_exchange by (apply Hbs || done). table_cbn. by rewrite insert_insert_eq. }
  rewrite st_assoc. st_step Ex. rewrite st_mret. cbn [negb]. set (t2 := with_boxes _ t).
  assert (E2 : clock_deref (PtrBox p) t2 = (Ok h2, t2)) by (by apply box_deref, Hbs). st_step E2.
  cbn [ch_detached ch_charge with_meta h2]. rewrite Hdet. rewrite st_assoc.
  assert (Ed : clock_box_drop (PtrBox p) t2 = (Ok tt, with_boxes (delete p (ct_boxes t)) t)).
  { unfold clock_box_drop, t2. rewrite Hbs. table_cbn. by rewrite delete_insert_eq. }
  st_step Ed. rewrite st_assoc. unfold fetch_detached_usage at 1. unfold mbind at 1, st_bind at 1. rewrite st_assoc, (st_bind_ok _ _ _ _ _ (fetch_usage_ok _ _)). rewrite st_mret. table_cbn.
  assert (Hbd : 0 <= box_sum (delete p (ct_boxes t))) by (apply box_sum_nonneg; intros p' x [_ Hx]%lookup_delete_Some; by apply (T9 p' x)).
  pose proof (box_sum_delete (ct_boxes t) p h E) as Hsum.
  assert (0 <= charge_sum (ct_handles t)) by (apply isum_pos; intros j y Hj; eapply slot_charge_pos, (si_slot _ _ _ _ T1 j y Hj)).
  rewrite !wrap_small by (unfold fits; lia). eexists. split; [reflexivity|]. split; [|split_and!; try done; table_cbn; lia].
  split; table_cbn; try assumption; [|lia|lia|lia| |].
  - eapply slots_inv_mono; [|exact T1]. intros j _ Hlt. unfold minus_one. rewrite decide_False by done. split; lia.
  - intros p' x [Hne Hx]%lookup_delete_Some. unfold minus_one. rewrite decide_False by congruence. destruct (T9 p' x Hx) as [? ->]. split; [done|lia].
  - intros p' Hn. unfold minus_one. destruct (decide (PtrBox p' = PtrBox p)) as [[= ->]|Hne]; [lia|]. rewrite lookup_delete_ne in Hn by congruence. rewrite T10 by done. lia.
Qed.

(** ** A new table *)

(** The limit of the occupancy leaves a slot empty, for every size of a table. *)
Definition limit_of (bits : Z) : Z := Z.min u32_max (f64_to_usize (f64_mul (f64_of (Z.shiftl 1 bits)) STRICT_LOAD_FACTOR)).
Lemma limit_ok bits : 0 <= bits < 32 -> 0 <= limit_of bits < 2 ^ bits.
Proof.
  intros Hb. assert (H : forallb (λ n, (0 <=? limit_of (Z.of_nat n)) && (limit_of (Z.of_nat n) <? 2 ^ Z.of_nat n)) (seq 0 32) = true) by (vm_compute; reflexivity).
  rewrite forallb_forall in H. specialize (H (Z.to_nat bits)). rewrite Z2Nat.id in H by lia. apply andb_true_iff in H as [H1 H2]; [by apply Z.leb_le in H1; apply Z.ltb_lt in H2|].
  apply in_seq. lia.
Qed.
Lemma isum_zero {A} (f : nat -> A -> Z) l : (forall i x, l !! i = Some x -> f i x = 0) -> isum f l = 0.
Proof.
  revert f. induction l as [|x l IH]; intros f E; [done|]. rewrite isum_cons, (E 0%nat x), (IH (λ i, f (S i))); [done|intros i y Hy; by apply (E (S i))|done].
Qed.

Definition metadata_charge (bits : Z) (charge_metadata : bool) : Z := if charge_metadata then 2 ^ bits * HANDLE_SIZE else 0.
Lemma clock_table_new_ok bits strict charge_metadata : 0 <= bits < 32 ->
  table_inv bits (metadata_charge bits charge_metadata) 0 0 (λ _, 2) (λ _, 0) (clock_table_new bits strict charge_metadata : Table).
Proof.
  intros Hb. pose proof (slot_count_z bits Hb) as Hn. pose proof (slot_count_bound bits Hb) as [_ Hn'].
  assert (Eh : ct_handles (clock_table_new bits strict charge_metadata : Table) = replicate (slot_count bits) clock_handle_default) by (cbn; by rewrite Z.shiftl_1_l).
  assert (Hd : forall i h, replicate (slot_count bits) (clock_handle_default : Handle) !! i = Some h -> h = clock_handle_default) by (by intros i h [-> _]%lookup_replicate).
  assert (Hocc : occ (clock_handle_default : Handle) = 0) by done.
  assert (Eu : ct_usage (clock_table_new bits strict charge_metadata : Table) = metadata_charge bits charge_metadata).
  { unfold metadata_charge. cbn [ct_usage clock_table_new]. destruct charge_metadata; [|done]. rewrite length_replicate, Z.shiftl_1_l. fold (slot_count bits). by rewrite Hn. }
  split; rewrite ?Eh; try done.
  - split; [done|by rewrite length_replicate| |].
    + intros i h ->%Hd. exists 0, 0, 0. split_and!; try done. by left.
    + intros j h ->%Hd. unfold crossings. rewrite isum_zero; [done|]. intros i x ->%Hd. rewrite Hocc. lia.
  - unfold table_mask. cbn [ct_config cc_length_bits_mask clock_table_new]. rewrite Z.shiftl_1_l, Z.ones_equiv. apply wrap_small. unfold fits. lia.
  - apply (limit_ok bits Hb).
  - unfold occ_sum. rewrite isum_zero; [done|]. intros i x ->%Hd. done.
  - rewrite Eu. unfold charge_sum. rewrite isum_zero; [|intros i x ->%Hd; rewrite Hocc; lia]. change (box_sum (ct_boxes (clock_table_new bits strict charge_metadata : Table))) with 0. lia.
  - rewrite Eu. unfold metadata_charge, HANDLE_SIZE. destruct charge_metadata; lia.
Qed.

(** ** Dropping a table *)

(** The slots that a drop has not come to yet. *)
Definition occ_from (i : nat) hs : Z := occ_sum (drop i hs).
Definition charge_from (i : nat) hs : Z := charge_sum (drop i hs).
Lemma from_cons i h hs : hs !! i = Some h -> occ_from i hs = occ h + occ_from (S i) hs /\ charge_from i hs = occ h * ch_charge h + charge_from (S i) hs.
Proof. intros E. unfold occ_from, charge_from, occ_sum, charge_sum. rewrite (drop_S _ h i) by done. by rewrite !isum_cons. Qed.
Lemma from_displace d l i hs : occ_from i (displace_all d l hs) = occ_from i hs /\ charge_from i (displace_all d l hs) = charge_from i hs.
Proof.
  unfold occ_from, charge_from. revert hs. induction l as [|j l IH]; intros hs; cbn [displace_all]; [done|].
  destruct (IH (alter (displace_by d) j hs)) as [-> ->]. rewrite drop_alter. case_decide; [|done]. unfold occ_sum, charge_sum. by rewrite !isum_alter.
Qed.

Lemma drop_slots_ok bits (k : nat) : forall i t mu, 0 <= bits < 32 -> table_mask t = Z.ones bits -> length (ct_handles t) = slot_count bits -> (i + k = slot_count bits)%nat ->
  (forall j h, ct_handles t !! j = Some h -> (i <= j)%nat -> exists B, slot_ok B 0 h) -> ct_occupancy t = occ_from i (ct_handles t) -> ct_usage t = mu + charge_from i (ct_handles t) ->
  0 <= mu -> ct_usage t < 2 ^ 64 -> ct_occupancy t < 2 ^ 32 -> (forall j h, ct_handles t !! j = Some h -> (i <= j)%nat -> 0 <= occ h * ch_charge h) ->
  exists t', drop_slots (seq i k) t = (Ok tt, t') /\ ct_usage t' = mu /\ ct_occupancy t' = 0.
Proof.
  induction k as [|k IH]; intros i t mu Hb Hm Hl Hk Hslots Ho Hu Hmu Hf Hof Hp; cbn [seq drop_slots].
  { exists t. split; [done|]. rewrite Hu, Ho. unfold occ_from, charge_from. rewrite drop_ge by lia. split; [apply Z.add_0_r|done]. }
  destruct (lookup_lt_is_Some_2 (ct_handles t) i) as [h E]; [lia|]. st_step (slot_deref t i h E). destruct (Hslots i h E) as [B Hok]; [lia|].
  destruct (from_cons i h (ct_handles t) E) as [Eo Ec]. cbv zeta.
  assert (Hge : 0 <= occ_from (S i) (ct_handles t) /\ 0 <= charge_from (S i) (ct_handles t)).
  { split; apply isum_pos; intros j x Hx; [destruct (occ_01 x); lia|]. rewrite lookup_drop in Hx. eapply Hp; [exact Hx|lia]. }
  fold (slot_state h). destruct (slot_ok_cases _ _ _ Hok) as [(E0 & Eoc & _)|([E7|[_ ?]] & Eoc & Hch & _)]; [| |lia].
  - rewrite E0. change (0 =? STATE_EMPTY) with true. cbn iota. rewrite st_mret. apply (IH (S i) t mu); try done; try lia; intros j x Hx Hj; [apply (Hslots j x Hx)|apply (Hp j x Hx)]; lia.
  - rewrite E7. change (7 =? STATE_EMPTY) with false. change ((7 =? STATE_INVISIBLE) || (7 =? STATE_VISIBLE)) with true. cbn iota. rewrite st_assoc.
    assert (Href : ref_count (ch_meta h) = 0).
    { destruct Hok as (st & rel & acq & Em & Hw & HB & _ & _ & Hc). rewrite Em, ref_count_word by (unfold word_ok; destruct Hc as [|]; lia).
      destruct Hc as [(-> & _)|(_ & Hr & _)]; [unfold slot_state in E7; rewrite Em, state_word in E7; [lia|unfold word_ok; lia]|]. replace (acq - rel) with 0 by lia. done. }
    rewrite st_assert by (by rewrite Href). rewrite st_assoc. assert (Hi : (i < slot_count bits)%nat) by lia. st_step (rollback_ok bits (ch_hash h) i t Hb Hm Hl Hi).
    set (hs1 := displace_all _ _ _). destruct (from_displace (-1) (before i (path bits (ch_hash h))) (S i) (ct_handles t)) as [F1 F2]. fold hs1 in F1, F2.
    assert (Er : reclaim_entry_usage (ch_charge h) (with_handles hs1 t) = (Ok tt, with_usage (ct_usage t - ch_charge h) (with_occupancy (ct_occupancy t - 1) (with_handles hs1 t)))) by (rewrite reclaim_ok by (table_cbn; lia); done).
    st_step Er. set (t1 := with_usage _ _). assert (Hd : forall j x, hs1 !! j = Some x -> exists y, ct_handles t !! j = Some y /\ (x = y \/ x = displace_by (-1) y)).
    { intros j x. unfold hs1. rewrite displace_all_lookup by (by apply before_nodup, path_nodup). intros (y & Ey & ->)%fmap_Some. exists y. split; [done|]. case_decide; auto. }
    apply (IH (S i) t1 mu); unfold t1; table_cbn; try done; try lia.
    + unfold hs1. by rewrite displace_all_length.
    + intros j x Hx Hj. destruct (Hd j x Hx) as (y & Ey & Exy). destruct (Hslots j y Ey) as [B' HB']; [lia|]. exists B'. by destruct Exy as [->| ->].
    + intros j x Hx Hj. destruct (Hd j x Hx) as (y & Ey & Exy). specialize (Hp j y Ey ltac:(lia)). by destruct Exy as [->| ->].
Qed.

Lemma clock_table_drop_ok bits mu B held t :
  table_inv bits mu 0 0 B held t -> (forall q, held q = 0) -> mu = 0 \/ mu = 2 ^ bits * HANDLE_SIZE -> exists t', clock_table_drop t = (Ok tt, t').
Proof.
  intros [T1 T2 T3 T4 T5 T6 T7 T8 T9 T10] H0 Hmu. pose proof (si_bits _ _ _ _ T1) as Hb. pose proof (slot_count_z bits Hb) as Hn. pose proof (si_length _ _ _ _ T1) as Hl.
  assert (Hbox : box_sum (ct_boxes t) = 0). { assert (ct_boxes t = ∅) as ->; [|done]. apply map_empty. intros p. destruct (ct_boxes t !! p) as [h|] eqn:E; [|done]. destruct (T9 p h E) as [_ H1]. rewrite H0 in H1. lia. }
  unfold clock_table_drop. rewrite st_gets. assert (HS : 0 < HANDLE_SIZE) by done. pose proof (occ_sum_bounds _ _ _ _ T1).
  destruct (drop_slots_ok bits (length (ct_handles t)) 0 t mu Hb T3 Hl) as (t' & E & Eu & Eo); try done; try lia.
  - intros j h Hj _. exists (B j). rewrite <- (H0 (PtrSlot j)). by apply (si_slot _ _ _ _ T1).
  - unfold occ_from. rewrite drop_0. lia.
  - unfold charge_from. rewrite drop_0. lia.
  - intros j h Hj _. eapply slot_charge_pos, (si_slot _ _ _ _ T1 j h Hj).
  - st_step E. rewrite st_gets, Eu. rewrite st_assert; [rewrite st_gets, Eo; by eexists|]. rewrite Hl, Hn. destruct Hmu as [->| ->]; [done|]. by rewrite Z.eqb_refl, orb_true_r.
Qed.
End laws.
