(* ===== verification/ClockSafe.v ===== *)
(** * The clock cache and its clients ([page_store/cache/clock.rs], [page_store/cache/mod.rs])

    What clients can rely on: from a new cache, any sequence of insertions, lookups,
    erasures and drops of entries (each at most once) runs without a panic, and the
    cache is a bag of entries that may forget: a lookup finds an entry exactly if there
    is a visible one of its key, entries keep their values, erasing takes all of a key.
    The counters of a slot have 30 bits, so this is shown for the first 2^29 operations
    on a cache; [near_overflow_loses_refs] is what can happen after them. And it is shown
    for entries with a positive charge; [zero_charge_panics] is what others can do. *)

From stdpp Require Import base numbers list gmap.
From Stdlib Require Import ZArith Lia.
From S2P Require Import Prelude Float64 CacheHandle ClockWord ClockCache ClockProbe ClockSlots ClockOps ClockFree ClockInsert ClockLaws.

(** ** Clients *)

Inductive clock_op (T : Type) :=
  | KInsert (p key : Z) (value : option T) (charge : Z)
  | KLookup (key : Z)
  | KDrop (n : nat)
  | KErase (key : Z).
Arguments KInsert {T} _ _ _ _.
Arguments KLookup {T} _.
Arguments KDrop {T} _.
Arguments KErase {T} _.

#[global] Instance clock_entry_eq_dec : EqDecision ClockEntry.
Proof. solve_decision. Defined.

Section clients.
Context {T : Type}.
Implicit Types (t : ClockCacheHandleTable T) (s : ClockCacheShard T) (c : ClockCache T) (es : list ClockEntry) (e : ClockEntry).

(** A step of a client, who has the entries [es]; an insertion may fail. *)
Definition clock_step (op : clock_op T) c es : res (option Error * ClockCache T * list ClockEntry) :=
  match op with
  | KInsert p key value charge =>
      match clock_cache_insert p key value charge c with
      | (Ok e, c) => Ok (None, c, es ++ [e])
      | (Err err, c) => Ok (Some err, c, es)
      | (Panic, _) => Panic
      end
  | KLookup key =>
      match clock_cache_lookup key c with
      | (Ok e, c) => Ok (None, c, es ++ option_list e)
      | (Err err, c) => Ok (Some err, c, es)
      | (Panic, _) => Panic
      end
  | KDrop n =>
      match es !! n with
      | None => Ok (None, c, es)
      | Some e =>
          match clock_cache_release e c with
          | (Ok _, c) => Ok (None, c, delete n es)
          | (Err err, c) => Ok (Some err, c, es)
          | (Panic, _) => Panic
          end
      end
  | KErase key =>
      match clock_cache_erase key c with
      | (Ok _, c) => Ok (None, c, es)
      | (Err err, c) => Ok (Some err, c, es)
      | (Panic, _) => Panic
      end
  end.

(** What the theorems ask of clients, which the code does not check: a fresh address (of the
    allocator), a charge that is positive and fits the counters. *)
Definition clock_op_ok (op : clock_op T) c : Prop :=
  match op with
  | KInsert p key _ charge => forall s, kc_shards c !! clock_shard_of c (clock_hash_key key) = Some s ->
      ct_boxes (cs_table s) !! p = None /\ 0 < charge /\ ct_usage (cs_table s) + charge < 2 ^ 62
  | _ => True
  end.

(** ** The promise *)

(** The visible entries of a key, and what an entry of a client shows. *)
Definition has c (k : Z) (v : option T) : Prop :=
  exists i s j h, kc_shards c !! i = Some s /\ ct_handles (cs_table s) !! j = Some h /\ matches k h /\ ch_value h = v.
Definition clock_shown c e : option (Z * option T) :=
  s ← kc_shards c !! ke_shard e; h ← slot_lookup (ke_ptr e) (cs_table s); Some (ch_key h, ch_value h).
(** The shard of a key takes entries in slots: below its limit of occupancy, and always
    with a strict capacity limit. *)
Definition attaches c (key : Z) : Prop := forall s, kc_shards c !! clock_shard_of c (clock_hash_key key) = Some s ->
  cc_strict_capacity_limit (ct_config (cs_table s)) = true \/ ct_occupancy (cs_table s) <= cc_occupancy_limit (ct_config (cs_table s)).

(** From the visible entries [m] and the values [vs] of the clients' entries to [m'] and [vs']. *)
Definition clock_spec (op : clock_op T) (err : option Error) (attached : Prop) (m m' : Z -> option T -> Prop) (vs vs' : list (option (Z * option T))) : Prop :=
  match op with
  | KInsert _ key value _ =>
      (forall k v, m' k v -> m k v \/ err = None /\ k = key /\ v = value) /\
      match err with
      | None => vs' = vs ++ [Some (key, value)] /\ (attached -> m' key value)
      | Some e => e = MemoryLimit /\ vs' = vs
      end
  | KLookup key => err = None /\ (forall k v, m' k v <-> m k v) /\
      ((exists v, m key v /\ vs' = vs ++ [Some (key, v)]) \/ (forall v, ~ m key v) /\ vs' = vs)
  | KDrop n => err = None /\ (forall k v, m' k v <-> m k v) /\ vs' = delete n vs
  | KErase key => err = None /\ (forall k v, m' k v <-> m k v /\ k <> key) /\ vs' = vs
  end.

(** ** The invariant of the shards *)

Definition held_of es (i : nat) (q : handle_ptr) : Z := Z.of_nat (length (base.filter (λ e, e = mkClockEntry i q) es)).

Lemma held_of_nonneg es i q : 0 <= held_of es i q.
Proof. unfold held_of. lia. Qed.
Lemma held_of_app es e i q : held_of (es ++ [e]) i q = held_of es i q + (if decide (e = mkClockEntry i q) then 1 else 0).
Proof. unfold held_of. rewrite filter_app, length_app, filter_cons, filter_nil. case_decide; cbn [length]; lia. Qed.
Lemma held_of_delete es n e i q : es !! n = Some e -> held_of (delete n es) i q = held_of es i q - (if decide (e = mkClockEntry i q) then 1 else 0).
Proof.
  intros E. unfold held_of. rewrite delete_take_drop. pose proof (take_drop_middle _ _ _ E) as Es.
  assert (Eh : base.filter (λ e, e = mkClockEntry i q) es = base.filter (λ e, e = mkClockEntry i q) (take n es ++ e :: drop (S n) es)) by (by rewrite Es).
  rewrite Eh, !filter_app, !length_app, filter_cons. case_decide; cbn [length]; lia.
Qed.
Lemma held_of_in es e : e ∈ es -> 0 < held_of es (ke_shard e) (ke_ptr e).
Proof.
  intros He. unfold held_of. assert (Hf : e ∈ base.filter (λ x, x = mkClockEntry (ke_shard e) (ke_ptr e)) es) by (apply list_elem_of_filter; split; [by destruct e|done]).
  destruct (base.filter _ es); [by apply not_elem_of_nil in Hf|cbn; lia].
Qed.

(** The occupied slots lead to this shard. *)
Definition leads (mask : Z) (i : nat) t : Prop := forall j h, ct_handles t !! j = Some h -> occ h = 1 -> Z.to_nat (Z.land mask (ch_hash h)) = i.

Record shard_good (mask N : Z) (i : nat) (held : handle_ptr -> Z) s : Prop := {
  sg_inv : exists bits mu, table_inv bits mu 0 0 (λ _, N) held (cs_table s) /\ (mu = 0 \/ mu = 2 ^ bits * HANDLE_SIZE) /\
    (cc_strict_capacity_limit (ct_config (cs_table s)) = true -> mu <= cs_capacity s -> ct_usage (cs_table s) <= cs_capacity s);
  sg_hashes : hashes clock_hash_key (cs_table s);
  sg_leads : leads mask i (cs_table s);
  sg_capacity : 0 <= cs_capacity s < 2 ^ 64;
  sg_pointer : 0 <= ct_clock_pointer (cs_table s) <= N * 2 ^ 34;
}.
Record clock_cache_ok (N : Z) c es : Prop := {
  kk_mask : exists b, 0 <= b /\ kc_shard_mask c = Z.ones b /\ length (kc_shards c) = Z.to_nat (2 ^ b);
  kk_shards : forall i s, kc_shards c !! i = Some s -> shard_good (kc_shard_mask c) N i (held_of es i) s;
  kk_entries : forall e, e ∈ es -> exists s h, kc_shards c !! ke_shard e = Some s /\ slot_lookup (ke_ptr e) (cs_table s) = Some h /\
    Z.to_nat (Z.land (kc_shard_mask c) (ch_hash h)) = ke_shard e;
}.

Lemma clock_shard_some N c es hash : clock_cache_ok N c es -> exists s, kc_shards c !! clock_shard_of c hash = Some s.
Proof.
  intros [(b & Hb & Hm & Hl) _ _]. apply lookup_lt_is_Some. unfold clock_shard_of. rewrite Hm, Hl, Z.land_comm, Z.land_ones by done.
  pose proof (Z.mod_pos_bound hash (2 ^ b)). assert (0 < 2 ^ b) by (by apply Z.pow_pos_nonneg). lia.
Qed.

(** ** Operations of one shard *)

Definition set_shard (i : nat) s c : ClockCache T := mkClockCache (<[i := s]> (kc_shards c)) (kc_shard_mask c).
Lemma on_clock_shard_run {A} c i s (m : St (ClockCacheShard T) A) r s' :
  kc_shards c !! i = Some s -> m s = (r, s') -> on_clock_shard i m c = (r, set_shard i s' c).
Proof. intros Ei E. unfold on_clock_shard. by rewrite Ei, E. Qed.
Lemma in_table_run {A} s (m : St (ClockCacheHandleTable T) A) r t' : m (cs_table s) = (r, t') -> in_table m s = (r, mkClockShard t' (cs_capacity s)).
Proof. intros E. unfold in_table. by rewrite E. Qed.

Lemma shard_good_mono mask N N' i held held' s : N <= N' < 2 ^ 29 -> (forall q, held q = held' q) -> shard_good mask N i held s -> shard_good mask N' i held' s.
Proof.
  intros HN Hh [(bits & mu & H1 & H2 & H3) H4 H5 H6 H7]. split; [|done..|lia]. exists bits, mu. split; [|done].
  eapply table_inv_bound in H1; [|intros j _ _; exact HN]. destruct H1 as [T1 T2 T3 T4 T5 T6 T7 T8 T9 T10]. split; try done.
  - eapply slots_inv_mono; [|exact T1]. intros j _ Hlt. split; [lia|apply Hh].
  - intros p h. rewrite <- Hh. auto.
  - intros p. rewrite <- Hh. auto.
Qed.

Lemma clock_cache_update N N' c es es' i s s' :
  clock_cache_ok N c es -> kc_shards c !! i = Some s -> N <= N' < 2 ^ 29 -> shard_good (kc_shard_mask c) N' i (held_of es' i) s' ->
  (forall j, j <> i -> forall q, held_of es j q = held_of es' j q) ->
  (forall e, e ∈ es' -> ke_shard e <> i -> e ∈ es) ->
  (forall e, e ∈ es' -> ke_shard e = i -> exists h, slot_lookup (ke_ptr e) (cs_table s') = Some h /\ Z.to_nat (Z.land (kc_shard_mask c) (ch_hash h)) = i) ->
  clock_cache_ok N' (set_shard i s' c) es'.
Proof.
  intros [Hm Hs He] Ei HN Hg Hh Ho Hi. pose proof (lookup_lt_Some _ _ _ Ei) as Hlt. split; cbn [kc_shards kc_shard_mask set_shard].
  - by rewrite length_insert.
  - intros j x. destruct (decide (j = i)) as [->|Hne]; [rewrite list_lookup_insert_eq by done; by intros [= <-]|].
    rewrite list_lookup_insert_ne by done. intros Hx. eapply shard_good_mono; [done|by apply Hh|by apply Hs].
  - intros e Hin. destruct (decide (ke_shard e = i)) as [Ee|Hne].
    + destruct (Hi e Hin Ee) as (h & H1 & H2). exists s', h. rewrite Ee, list_lookup_insert_eq by done. done.
    + rewrite list_lookup_insert_ne by done. apply He. by apply Ho.
Qed.

(** ** What an operation leaves of the entries *)

Lemma fades_occ P (h h' : ClockHandle T) : fades_slot P h h' -> occ h' = 1 -> occ h = 1.
Proof.
  intros [_ S]. unfold occ. destruct S as [-> |[(-> & _)|[-> ->]]]; done.
Qed.
Lemma fades_hashes P t t' hash : fades P (ct_handles t) (ct_handles t') -> hashes hash t -> hashes hash t'.
Proof.
  intros Hf Hh j h' Ej Ho. destruct (fades_lookup _ _ _ _ _ Hf Ej) as (h & Eh & Hs). pose proof (fades_occ _ _ _ Hs Ho) as Ho'. destruct Hs as [Hd _].
  unfold slot_data in Hd. specialize (Hh j h Eh Ho'). congruence.
Qed.
Lemma fades_leads P t t' mask i : fades P (ct_handles t) (ct_handles t') -> leads mask i t -> leads mask i t'.
Proof.
  intros Hf Hh j h' Ej Ho. destruct (fades_lookup _ _ _ _ _ Hf Ej) as (h & Eh & Hs). pose proof (fades_occ _ _ _ Hs Ho) as Ho'. destruct Hs as [Hd _].
  unfold slot_data in Hd. assert (Eq : ch_hash h' = ch_hash h) by congruence. rewrite Eq. by apply (Hh j h).
Qed.
Lemma fades_lookup_ptr P t t' q h : fades P (ct_handles t) (ct_handles t') -> (forall p, q = PtrBox p -> ct_boxes t' !! p = ct_boxes t !! p) -> slot_lookup q t = Some h ->
  exists h', slot_lookup q t' = Some h' /\ slot_data h' = slot_data h.
Proof.
  intros Hf Hb. destruct q as [j|p]; cbn [slot_lookup]; intros E.
  - destruct (fades_lookup_l _ _ _ _ _ Hf E) as (h' & Eh & [Hd _]). by exists h'.
  - rewrite Hb by done. by exists h.
Qed.
(** The entries of clients show what they did. *)
Definition keeps_entries es i t t' : Prop := forall e, e ∈ es -> ke_shard e = i -> forall h, slot_lookup (ke_ptr e) t = Some h -> exists h', slot_lookup (ke_ptr e) t' = Some h' /\ slot_data h' = slot_data h.
Lemma fades_keeps P es i t t' : fades P (ct_handles t) (ct_handles t') -> (forall p, mkClockEntry i (PtrBox p) ∈ es -> ct_boxes t' !! p = ct_boxes t !! p) -> keeps_entries es i t t'.
Proof. intros Hf Hb e He Hi h Eh. eapply fades_lookup_ptr; [done| |done]. intros p Hp. apply Hb. destruct e as [x q]. cbn in *. by subst. Qed.

Section update.
Context c i s s' (Ei : kc_shards c !! i = Some s).

Lemma shown_set es : keeps_entries es i (cs_table s) (cs_table s') -> (forall e, e ∈ es -> exists s h, kc_shards c !! ke_shard e = Some s /\ slot_lookup (ke_ptr e) (cs_table s) = Some h) ->
  clock_shown (set_shard i s' c) <$> es = clock_shown c <$> es.
Proof using Ei.
  intros Hk He. apply list_fmap_ext. intros n e Hn%list_elem_of_lookup_2. unfold clock_shown. cbn [kc_shards set_shard]. destruct (He e Hn) as (x & h & Ex & Eh).
  destruct (decide (ke_shard e = i)) as [E|Hne]; [|by rewrite list_lookup_insert_ne]. rewrite E in Ex |- *. rewrite list_lookup_insert_eq by (by eapply lookup_lt_Some). rewrite Ei in Ex |- *. injection Ex as <-.
  cbn [mbind option_bind]. destruct (Hk e Hn E h Eh) as (h' & Eh' & Hd). rewrite Eh, Eh'. cbn [mbind option_bind]. unfold slot_data in Hd. f_equal. congruence.
Qed.
Lemma has_set k v : has (set_shard i s' c) k v <->
  (exists j h, ct_handles (cs_table s') !! j = Some h /\ matches k h /\ ch_value h = v) \/
  (exists x y j h, x <> i /\ kc_shards c !! x = Some y /\ ct_handles (cs_table y) !! j = Some h /\ matches k h /\ ch_value h = v).
Proof using Ei.
  pose proof (lookup_lt_Some _ _ _ Ei) as Hlt. unfold has. cbn [kc_shards set_shard]. split.
  - intros (x & y & j & h & Ex & Ej & Hm & Hv). destruct (decide (x = i)) as [->|Hne].
    + rewrite list_lookup_insert_eq in Ex by done. injection Ex as <-. left. by exists j, h.
    + rewrite list_lookup_insert_ne in Ex by done. right. by exists x, y, j, h.
  - intros [(j & h & H)|(x & y & j & h & Hne & Ex & H)]; [exists i, s', j, h|exists x, y, j, h]; [by rewrite list_lookup_insert_eq|by rewrite list_lookup_insert_ne].
Qed.
(** Where the visible entries of the shard change to those with [Q]. *)
Lemma has_change (Q : Z -> option T -> Prop) :
  (forall k v, (exists j h, ct_handles (cs_table s') !! j = Some h /\ matches k h /\ ch_value h = v) <-> Q k v /\ exists j h, ct_handles (cs_table s) !! j = Some h /\ matches k h /\ ch_value h = v) ->
  (forall x y j h k, x <> i -> kc_shards c !! x = Some y -> ct_handles (cs_table y) !! j = Some h -> matches k h -> Q k (ch_value h)) ->
  forall k v, has (set_shard i s' c) k v <-> has c k v /\ Q k v.
Proof using Ei.
  intros Hs Ho k v. rewrite has_set, Hs. split.
  - intros [(HQ & j & h & H)|(x & y & j & h & Hne & Ex & Ej & Hm & <-)]; (split; [|naive_solver]); [by exists i, s, j, h|by exists x, y, j, h].
  - intros [(x & y & j & h & Ex & Ej & Hm & Hv) HQ]. destruct (decide (x = i)) as [->|Hne]; [left|right; by exists x, y, j, h].
    split; [done|]. exists j, h. rewrite Ei in Ex. by injection Ex as ->.
Qed.
End update.

Lemma entries_shown N c es : clock_cache_ok N c es -> forall e, e ∈ es -> exists s h, kc_shards c !! ke_shard e = Some s /\ slot_lookup (ke_ptr e) (cs_table s) = Some h.
Proof. intros Hok e He. destruct (kk_entries _ _ _ Hok e He) as (s & h & H1 & H2 & _). by exists s, h. Qed.
(** Entries that keep their data stay in their shard. *)
Lemma entries_stay N c es i s t' : clock_cache_ok N c es -> kc_shards c !! i = Some s -> keeps_entries es i (cs_table s) t' ->
  forall e, e ∈ es -> ke_shard e = i -> exists h, slot_lookup (ke_ptr e) t' = Some h /\ Z.to_nat (Z.land (kc_shard_mask c) (ch_hash h)) = i.
Proof.
  intros Hok Ei Hk e He Ee. destruct (kk_entries _ _ _ Hok e He) as (x & h & Ex & Eh & Hl). rewrite Ee, Ei in Ex. injection Ex as <-.
  destruct (Hk e He Ee h Eh) as (h' & Eh' & Hd). exists h'. split; [done|]. unfold slot_data in Hd. assert (E : ch_hash h' = ch_hash h) by congruence. by rewrite E, Hl.
Qed.
Lemma has_iff_same c i s s' : kc_shards c !! i = Some s ->
  (forall j h', ct_handles (cs_table s') !! j = Some h' -> slot_state h' = 7 -> exists h, ct_handles (cs_table s) !! j = Some h /\ slot_state h = 7 /\ slot_data h' = slot_data h) ->
  (forall j h, ct_handles (cs_table s) !! j = Some h -> slot_state h = 7 -> exists h', ct_handles (cs_table s') !! j = Some h' /\ slot_state h' = 7 /\ slot_data h' = slot_data h) ->
  forall k v, has (set_shard i s' c) k v <-> has c k v.
Proof.
  intros Ei H1 H2 k v. rewrite (has_change c i s s' Ei (λ _ _, True)); [naive_solver| |done]. unfold matches, slot_data in *. clear k v. intros k v. split.
  - intros (j & h' & Ej & [E7 Ek] & Ev). split; [done|]. destruct (H1 j h' Ej E7) as (h & Eh & E7' & Hd). exists j, h. split_and!; [done|done|congruence|congruence].
  - intros (_ & j & h & Ej & [E7 Ek] & Ev). destruct (H2 j h Ej E7) as (h' & Eh & E7' & Hd). exists j, h'. split_and!; [done|done|congruence|congruence].
Qed.

Lemma held_other es e i j q : ke_shard e = i -> j <> i -> held_of es j q = held_of (es ++ [e]) j q.
Proof. intros <- Hne. rewrite held_of_app. rewrite decide_False; [lia|]. intros ->. done. Qed.
Lemma held_plus es i q : forall q', plus_one q (held_of es i) q' = held_of (es ++ [mkClockEntry i q]) i q'.
Proof. intros q'. unfold plus_one. rewrite held_of_app. destruct (decide (q' = q)) as [->|]; [by rewrite decide_True|]. rewrite decide_False by congruence. done. Qed.
Lemma table_inv_held bits mu dO dU B held held' t : (forall q, held q = held' q) -> table_inv bits mu dO dU B held t -> table_inv bits mu dO dU B held' t.
Proof.
  intros Hh [T1 T2 T3 T4 T5 T6 T7 T8 T9 T10]. split; try done; [|intros p h; rewrite <- Hh; auto|intros p; rewrite <- Hh; auto].
  eapply slots_inv_mono; [|exact T1]. intros j _ Hlt. split; [lia|apply Hh].
Qed.

Lemma clock_lookup_spec N c es key : clock_cache_ok N c es -> 0 <= N -> N + 1 < 2 ^ 29 ->
  exists r c', clock_cache_lookup key c = (Ok r, c') /\ clock_cache_ok (N + 1) c' (es ++ option_list r) /\
    clock_spec (KLookup key) None True (has c) (has c') (clock_shown c <$> es) (clock_shown c' <$> es ++ option_list r).
Proof.
  intros Hok HN0 HN. destruct (clock_shard_some N c es (clock_hash_key key) Hok) as [s Ei]. set (i := clock_shard_of c (clock_hash_key key)) in *.
  destruct (kk_shards _ _ _ Hok i s Ei) as [(bits & mu & Hinv & Hmu & Hbd) Hha Hle Hcap Hpt].
  destruct (clock_lookup_ok bits mu N (held_of es i) (cs_table s) clock_hash_key key Hinv HN Hha) as (r & t' & E & Hinv' & (Hc1 & Hc2 & Hc3 & _) & Hus & Hv & Hr).
  set (s' := mkClockShard t' (cs_capacity s)). assert (Hf : fades (λ _, False) (ct_handles (cs_table s)) (ct_handles t')) by (by apply fades_view).
  assert (Hk : keeps_entries es i (cs_table s) t') by (eapply fades_keeps; [exact Hf|by rewrite Hc2]).
  unfold clock_cache_lookup. rewrite st_gets. fold i. st_step (on_clock_shard_run c i s _ _ _ Ei (in_table_run s _ _ _ E)). fold s'.
  exists (mkClockEntry i <$> r), (set_shard i s' c). split; [done|].
  assert (Hgood : shard_good (kc_shard_mask c) (N + 1) i (held_of (es ++ option_list (mkClockEntry i <$> r)) i) s').
  { split; [|by eapply fades_hashes|by eapply fades_leads|done|cbn [cs_table s']; lia]. exists bits, mu. split; [|cbn [cs_table s' cs_capacity]; rewrite Hc1, Hus; done].
    destruct r as [q|]; cbn [fmap option_fmap option_map option_list option_rect].
    - eapply table_inv_held; [apply held_plus|done].
    - by rewrite app_nil_r. }
  assert (Hhas : forall k v, has (set_shard i s' c) k v <-> has c k v).
  { apply (has_iff_same c i s s' Ei); cbn [cs_table s'].
    - intros j h' Ej E7. destruct (table_view_lookup (ct_handles t') (ct_handles (cs_table s)) j h') as (h & Eh & Hvh); [done|done|]. exists h. unfold view in Hvh. split_and!; [done|congruence|congruence].
    - intros j h Ej E7. destruct (table_view_lookup (ct_handles (cs_table s)) (ct_handles t') j h) as (h' & Eh & Hvh); [done|done|]. exists h'. unfold view in Hvh. split_and!; [done|congruence|congruence]. }
  pose proof (shown_set c i s s' Ei es Hk (entries_shown N c es Hok)) as Hsh. pose proof (entries_stay N c es i s t' Hok Ei Hk) as Hst.
  destruct r as [q|]; cbn [fmap option_fmap option_map option_list option_rect] in *.
  - destruct Hr as (j & h & -> & Ej & Hm). destruct (table_view_lookup (ct_handles (cs_table s)) (ct_handles t') j h) as (h' & Eh' & Hvh); [done|done|].
    assert (Hd : slot_data h' = slot_data h) by (unfold view in Hvh; congruence). split.
    + eapply clock_cache_update; [done|exact Ei|lia|done|intros x Hx q; by apply held_other with i| |].
      * intros e [?|He]%elem_of_app Hne; [done|]. apply list_elem_of_singleton in He as ->. done.
      * intros e [He|He]%elem_of_app Ee; [by apply Hst|]. apply list_elem_of_singleton in He as ->. exists h'. split; [done|].
        assert (Eq : ch_hash h' = ch_hash h) by (unfold slot_data in Hd; congruence). rewrite Eq. apply (Hle j h Ej). by eapply matches_occ.
    + cbn [clock_spec]. split; [done|]. split; [done|]. left. exists (ch_value h). split; [by exists i, s, j, h|]. rewrite fmap_app, Hsh. cbn [fmap list_fmap].
      do 2 f_equal. unfold clock_shown. cbn [kc_shards set_shard ke_shard ke_ptr]. rewrite list_lookup_insert_eq by (by eapply lookup_lt_Some).
      cbn [mbind option_bind slot_lookup cs_table s']. rewrite Eh'. cbn [mbind option_bind]. destruct Hm as [_ Hk']. unfold slot_data in Hd. f_equal. congruence.
  - rewrite app_nil_r. split.
    + eapply clock_cache_update; [done|exact Ei|lia|by rewrite app_nil_r in Hgood|done|done|done].
    + cbn [clock_spec]. split; [done|]. split; [done|]. right. split; [|done]. intros v (x & y & j & h & Ex & Ej & Hm & _).
      destruct (decide (x = i)) as [->|Hne]; [rewrite Ei in Ex; injection Ex as <-; by apply (Hr j h)|].
      destruct (kk_shards _ _ _ Hok x y Ex) as [_ Hhy Hly _ _]. pose proof (matches_occ _ _ Hm) as Ho. pose proof (Hly j h Ej Ho) as H1. rewrite (Hhy j h Ej Ho) in H1.
      destruct Hm as [_ Hk']. rewrite Hk' in H1. unfold clock_shard_of in i. done.
Qed.

Lemma key_fades_has c i s s' key : kc_shards c !! i = Some s -> key_fades key (ct_handles (cs_table s)) (ct_handles (cs_table s')) ->
  (forall j h, ct_handles (cs_table s') !! j = Some h -> ~ matches key h) ->
  (forall x y j h, x <> i -> kc_shards c !! x = Some y -> ct_handles (cs_table y) !! j = Some h -> ~ matches key h) ->
  forall k v, has (set_shard i s' c) k v <-> has c k v /\ k <> key.
Proof.
  intros Ei Hf Hn Ho. apply (has_change c i s s' Ei (λ k _, k <> key)); cycle 1. { intros x y j h k Hne Ex Ej Hm ->. by apply (Ho x y j h). }
  intros k v. split.
  - intros (j & h' & Ej & Hm & Ev). split; [intros ->; by apply (Hn j h')|]. destruct (fades_matches _ k _ _ _ _ Hf Ej Hm) as (h & Eh & Hmh & Hd). exists j, h. split_and!; [done|done|].
    unfold slot_data in Hd. congruence.
  - intros (Hne & j & h & Ej & [E7 Ek] & Ev). destruct (fades_lookup_l _ _ _ _ _ Hf Ej) as (h' & Eh' & [Hd S]). exists j, h'. unfold slot_data, matches in *.
    destruct S as [S|[(_ & ? & _)|[? _]]]; [|congruence|lia]. split_and!; [done|congruence|congruence|congruence].
Qed.

Lemma clock_erase_spec N c es key : clock_cache_ok N c es -> 0 <= N -> N + 1 < 2 ^ 29 ->
  exists c', clock_cache_erase key c = (Ok tt, c') /\ clock_cache_ok (N + 1) c' es /\
    clock_spec (KErase key) None True (has c) (has c') (clock_shown c <$> es) (clock_shown c' <$> es).
Proof.
  intros Hok HN0 HN. destruct (clock_shard_some N c es (clock_hash_key key) Hok) as [s Ei]. set (i := clock_shard_of c (clock_hash_key key)) in *.
  destruct (kk_shards _ _ _ Hok i s Ei) as [(bits & mu & Hinv & Hmu & Hbd) Hha Hle Hcap Hpt]. assert (Hmu0 : 0 <= mu) by (destruct Hmu as [->| ->]; [done|]; pose proof (Z.pow_nonneg 2 bits); unfold HANDLE_SIZE; lia).
  destruct (clock_erase_ok bits mu N (held_of es i) (cs_table s) clock_hash_key key Hinv Hmu0 HN Hha) as (t' & E & Hinv' & (Hc1 & Hc2 & Hc3 & Hus) & Hf & Hn).
  set (s' := mkClockShard t' (cs_capacity s)). assert (Hk : keeps_entries es i (cs_table s) t') by (eapply fades_keeps; [exact Hf|by rewrite Hc2]).
  unfold clock_cache_erase. rewrite st_gets. fold i. rewrite (on_clock_shard_run c i s (clock_shard_erase key (clock_hash_key key)) _ _ Ei (in_table_run s _ _ _ E)). fold s'. exists (set_shard i s' c). split; [done|].
  split; [|split; [done|split; [|by apply (shown_set c i s s' Ei es Hk (entries_shown N c es Hok))]]].
  - eapply clock_cache_update; [done|exact Ei|lia| |done|done|by apply (entries_stay N c es i s t')].
    split; [|by eapply fades_hashes|by eapply fades_leads|done|cbn [cs_table s']; lia]. exists bits, mu. split; [done|]. split; [done|]. cbn [cs_table s' cs_capacity]. rewrite Hc1. intros Hs1 Hs2. specialize (Hbd Hs1 Hs2). lia.
  - apply (key_fades_has c i s s' key Ei Hf Hn). intros x y j h Hne Ex Ej Hm.
    destruct (kk_shards _ _ _ Hok x y Ex) as [_ Hhy Hly _ _]. pose proof (matches_occ _ _ Hm) as Ho. pose proof (Hly j h Ej Ho) as H1. rewrite (Hhy j h Ej Ho) in H1.
    destruct Hm as [_ Hk']. rewrite Hk' in H1. unfold clock_shard_of in i. done.
Qed.

(** ** Dropping an entry *)

Lemma held_minus es n i q e : es !! n = Some e -> e = mkClockEntry i q -> forall q', minus_one q (held_of es i) q' = held_of (delete n es) i q'.
Proof.
  intros E -> q'. unfold minus_one. rewrite (held_of_delete es n _ i q' E). destruct (decide (q' = q)) as [->|]; [by rewrite decide_True|]. rewrite decide_False by congruence. done.
Qed.
Lemma held_delete_other es n e i j q : es !! n = Some e -> ke_shard e = i -> j <> i -> held_of es j q = held_of (delete n es) j q.
Proof. intros E <- Hne. rewrite (held_of_delete es n e j q E). rewrite decide_False; [lia|]. intros ->. done. Qed.
Lemma elem_of_delete {A} (l : list A) n x : x ∈ delete n l -> x ∈ l.
Proof. apply (sublist_subseteq (delete n l) l), sublist_delete. Qed.

(** What a release does to the table of its shard. *)
Lemma release_table bits mu N held t q h :
  table_inv bits mu 0 0 (λ _, N) held t -> 0 <= mu -> 0 < held q -> slot_lookup q t = Some h ->
  exists b t', clock_release (Some q) t = (Ok b, t') /\ table_inv bits mu 0 0 (λ _, N) (minus_one q held) t' /\ ct_config t' = ct_config t /\
    ct_clock_pointer t' = ct_clock_pointer t /\ ct_usage t' <= ct_usage t /\ fades (λ _, False) (ct_handles t) (ct_handles t') /\
    (forall p, q = PtrBox p -> held q = 1) /\ (forall p, q <> PtrBox p -> ct_boxes t' !! p = ct_boxes t !! p).
Proof.
  intros Ht Hmu Hpos Eq. destruct q as [i|p].
  - destruct (clock_release_slot bits mu N held t i Ht Hmu Hpos) as (b & t' & E & Hinv & (Hc1 & Hc2 & Hc3 & Hc4) & Hf).
    { cbn [slot_lookup] in Eq. rewrite <- (si_length _ _ _ _ (ti_slots _ _ _ _ _ _ _ Ht)). by eapply lookup_lt_Some. }
    exists b, t'. split_and!; try done. intros p _. by rewrite Hc2.
  - destruct (clock_release_box bits mu N held t p Ht Hmu Hpos) as (t' & E & Hinv & Hc & Hh & Hb & Hp & Hu). exists true, t'. split_and!; try done.
    + rewrite Hh. apply fades_refl.
    + intros p' [= ->]. by destruct (ti_boxes _ _ _ _ _ _ _ Ht p' h Eq).
    + intros p' Hne. rewrite Hb. apply lookup_delete_ne. congruence.
Qed.

Lemma clock_drop_spec N c es n e : clock_cache_ok N c es -> 0 <= N -> N + 1 < 2 ^ 29 -> es !! n = Some e ->
  exists b c', clock_cache_release e c = (Ok b, c') /\ clock_cache_ok (N + 1) c' (delete n es) /\
    clock_spec (KDrop n) None True (has c) (has c') (clock_shown c <$> es) (clock_shown c' <$> delete n es).
Proof.
  intros Hok HN0 HN En. pose proof (list_elem_of_lookup_2 _ _ _ En) as Hin. destruct (kk_entries _ _ _ Hok e Hin) as (s & h & Ei & Eh & Hl).
  destruct e as [i q]. cbn [ke_shard ke_ptr] in *. pose proof (held_of_in es _ Hin) as Hpos. cbn [ke_shard ke_ptr] in Hpos.
  destruct (kk_shards _ _ _ Hok i s Ei) as [(bits & mu & Hinv & Hmu & Hbd) Hha Hle Hcap Hpt]. assert (Hmu0 : 0 <= mu) by (destruct Hmu as [->| ->]; [done|]; pose proof (Z.pow_nonneg 2 bits); unfold HANDLE_SIZE; lia).
  destruct (release_table bits mu N (held_of es i) (cs_table s) q h Hinv Hmu0 Hpos Eh) as (b & t' & E & Hinv' & Hc & Hp & Hu & Hf & H1 & Hb).
  set (s' := mkClockShard t' (cs_capacity s)).
  assert (Hbox : forall p, mkClockEntry i (PtrBox p) ∈ delete n es -> ct_boxes t' !! p = ct_boxes (cs_table s) !! p).
  { intros p Hd. apply Hb. intros ->. pose proof (held_of_in _ _ Hd) as Hpd. cbn [ke_shard ke_ptr] in Hpd. rewrite <- (held_minus es n i (PtrBox p) _ En eq_refl) in Hpd.
    unfold minus_one in Hpd. rewrite decide_True, (H1 p eq_refl) in Hpd by done. lia. }
  assert (Hk : keeps_entries (delete n es) i (cs_table s) t') by (by eapply fades_keeps).
  assert (Ederef : on_clock_shard i (in_table (clock_deref q)) c = (Ok h, c)).
  { rewrite (on_clock_shard_run c i s _ (Ok h) s Ei); [|by unfold in_table, clock_deref; rewrite Eh; destruct s]. unfold set_shard. rewrite list_insert_id by done. by destruct c. }
  unfold clock_cache_release. cbn [ke_shard ke_ptr]. st_step Ederef. rewrite st_gets. unfold clock_shard_of. rewrite Hl. rewrite st_assert by (by apply bool_decide_eq_true).
  rewrite (on_clock_shard_run c i s (clock_shard_release (Some q)) _ _ Ei (in_table_run s _ _ _ E)). fold s'. exists b, (set_shard i s' c). split; [done|].
  assert (Hsub : forall e, e ∈ delete n es -> e ∈ es) by (intros e; apply elem_of_delete). split.
  - eapply clock_cache_update; [done|exact Ei|lia| |intros j Hj q'; by apply (held_delete_other es n (mkClockEntry i q) i j q' En)|by intros e ? _; apply Hsub|].
    + split; [|by eapply fades_hashes|by eapply fades_leads|done|cbn [cs_table s']; lia]. exists bits, mu. split; [|split; [done|]].
      * eapply table_inv_held; [by eapply held_minus|]. eapply table_inv_bound; [|exact Hinv']. intros j _ _. lia.
      * cbn [cs_table s' cs_capacity]. rewrite Hc. intros Hs1 Hs2. specialize (Hbd Hs1 Hs2). lia.
    + intros e He Ee. destruct (kk_entries _ _ _ Hok e (Hsub e He)) as (x & y & Ex & Ey & Hly). rewrite Ee, Ei in Ex. injection Ex as <-.
      destruct (Hk e He Ee y Ey) as (y' & Ey' & Hd). exists y'. split; [done|]. unfold slot_data in Hd. assert (Eq : ch_hash y' = ch_hash y) by congruence. by rewrite Eq, Hly.
  - split; [done|]. split.
    + apply (has_iff_same c i s s' Ei); cbn [cs_table s'].
      * intros j h' Ej E7. destruct (fades_lookup _ _ _ _ _ Hf Ej) as (x & Ex & [Hd S]). exists x. split_and!; [done| |done]. destruct S as [?|[(_ & ? & _)|[_ ?]]]; [congruence|done|lia].
      * intros j x Ej E7. destruct (fades_lookup_l _ _ _ _ _ Hf Ej) as (h' & Ex & [Hd S]). exists h'. split_and!; [done| |done]. destruct S as [?|[(_ & ? & _)|[? _]]]; [congruence|done|lia].
    + rewrite <- list_fmap_delete. rewrite (shown_set c i s s' Ei (delete n es) Hk); [done|]. intros e He. apply (entries_shown N c es Hok). by apply Hsub.
Qed.

(** ** Inserting *)

Lemma data_fields (h : ClockHandle T) key hash value charge m d b : slot_data h = slot_data (mkClockHandle key hash value charge m d b) ->
  ch_key h = key /\ ch_hash h = hash /\ ch_value h = value.
Proof. unfold slot_data. cbn [ch_key ch_hash ch_value ch_charge]. intros E. by injection E. Qed.
Lemma data_same (h h' : ClockHandle T) : slot_data h' = slot_data h -> ch_key h' = ch_key h /\ ch_hash h' = ch_hash h /\ ch_value h' = ch_value h.
Proof. unfold slot_data. intros E. by injection E. Qed.

Section insert.
Context (N : Z) (c : ClockCache T) (es : list ClockEntry) (p key : Z) (value : option T) (charge : Z) (s : ClockCacheShard T) (bits mu : Z).
Abbreviation idx := (clock_shard_of c (clock_hash_key key)).
Abbreviation proto := (mkClockHandle key (clock_hash_key key) value charge 0 0 false).
Context (Hok : clock_cache_ok N c es) (Ei : kc_shards c !! idx = Some s).

(** The entries of the shard after an insertion that returned [q]. *)
Lemma inserted_keeps q t' : inserted bits mu N (held_of es idx) q proto (cs_table s) t' -> table_inv bits mu 0 0 (λ _, N) (held_of es idx) (cs_table s) ->
  keeps_entries es idx (cs_table s) t'.
Proof using.
  intros Hin Ht e He Ee h Eh. pose proof (held_of_in es e He) as Hpos. rewrite Ee in Hpos. assert (Hne : ke_ptr e <> q) by (intros E; rewrite E, (in_fresh _ _ _ _ _ _ _ _ Hin) in Hpos; lia).
  destruct (ke_ptr e) as [j|p'] eqn:Ep; cbn [slot_lookup] in *.
  - destruct (lookup_lt_is_Some_2 (ct_handles t') j) as [h' Eh'].
    { rewrite (si_length _ _ _ _ (ti_slots _ _ _ _ _ _ _ (in_inv _ _ _ _ _ _ _ _ Hin))), <- (si_length _ _ _ _ (ti_slots _ _ _ _ _ _ _ Ht)). by eapply lookup_lt_Some. }
    destruct (in_slots _ _ _ _ _ _ _ _ Hin j h' Eh') as [[? _]|(_ & x & Ex & [Hd _])]; [congruence|]. exists h'. split; [done|]. congruence.
  - rewrite (in_boxes _ _ _ _ _ _ _ _ Hin) by congruence. by exists h.
Qed.
Lemma inserted_slot q t' j h' : inserted bits mu N (held_of es idx) q proto (cs_table s) t' -> ct_handles t' !! j = Some h' ->
  (q = PtrSlot j /\ slot_state h' = 7 /\ slot_data h' = slot_data proto) \/ (exists h, ct_handles (cs_table s) !! j = Some h /\ fades_slot (λ _, True) h h').
Proof using.
  intros Hin Ej. destruct (in_slots _ _ _ _ _ _ _ _ Hin j h' Ej) as [[-> E7]|(_ & h & Eh & Hf)]; [left|right; by exists h].
  destruct (in_new _ _ _ _ _ _ _ _ Hin) as (x & Ex & Hd). cbn [slot_lookup] in Ex. assert (x = h') as -> by congruence. done.
Qed.
Lemma inserted_good q t' capacity : inserted bits mu N (held_of es idx) q proto (cs_table s) t' -> shard_good (kc_shard_mask c) N idx (held_of es idx) s -> capacity = cs_capacity s ->
  N + 1 < 2 ^ 29 -> mu = 0 \/ mu = 2 ^ bits * HANDLE_SIZE -> (cc_strict_capacity_limit (ct_config (cs_table s)) = true -> mu <= capacity -> ct_usage t' <= capacity) ->
  shard_good (kc_shard_mask c) (N + 1) idx (held_of (es ++ [mkClockEntry idx q]) idx) (mkClockShard t' capacity).
Proof using.
  intros Hin [_ Hha Hle Hcap Hpt] -> HN Hmu Hbd. pose proof (in_pointer _ _ _ _ _ _ _ _ Hin). split; cbn [cs_table cs_capacity]; [| | |done|lia].
  - exists bits, mu. split; [|split; [done|by rewrite (in_config _ _ _ _ _ _ _ _ Hin)]]. eapply table_inv_held; [apply held_plus|].
    eapply table_inv_bound; [|apply (in_inv _ _ _ _ _ _ _ _ Hin)]. intros j _ _. lia.
  - intros j h' Ej Ho. destruct (inserted_slot q t' j h' Hin Ej) as [(_ & _ & Hd)|(h & Eh & Hf)]; [apply data_fields in Hd as (-> & -> & _); done|].
    pose proof (Hha j h Eh (fades_occ _ _ _ Hf Ho)) as Hx. destruct Hf as [Hd _]. apply data_same in Hd as (-> & -> & _). done.
  - intros j h' Ej Ho. destruct (inserted_slot q t' j h' Hin Ej) as [(_ & _ & Hd)|(h & Eh & Hf)].
    + by apply data_fields in Hd as (_ & -> & _).
    + pose proof (Hle j h Eh (fades_occ _ _ _ Hf Ho)) as Hl. destruct Hf as [Hd _]. by apply data_same in Hd as (_ & -> & _).
Qed.
Lemma inserted_spec q t' capacity : inserted bits mu N (held_of es idx) q proto (cs_table s) t' -> table_inv bits mu 0 0 (λ _, N) (held_of es idx) (cs_table s) ->
  clock_spec (KInsert p key value charge) None (attaches c key) (has c) (has (set_shard idx (mkClockShard t' capacity) c)) (clock_shown c <$> es)
    (clock_shown (set_shard idx (mkClockShard t' capacity) c) <$> es ++ [mkClockEntry idx q]).
Proof using Hok Ei.
  intros Hin Ht. pose proof (lookup_lt_Some _ _ _ Ei) as Hlt. set (s' := mkClockShard t' capacity). destruct (in_new _ _ _ _ _ _ _ _ Hin) as (x & Ex & Hd). split; [|split].
  - intros k v. rewrite (has_set c idx s s' Ei). intros [(j & h' & Ej & Hm & Ev)|(y & z & j & h & Hne & Ey & H)]; [|left; by exists y, z, j, h]. cbn [cs_table s'] in Ej.
    destruct (inserted_slot q t' j h' Hin Ej) as [(_ & _ & Hd')|(h & Eh & [Hd' S])].
    + right. destruct Hm as [_ Hk]. apply data_fields in Hd' as (Hk' & _ & Hv'). split_and!; [done|congruence|congruence].
    + left. exists idx, s, j, h. destruct Hm as [E7 Hk]. apply data_same in Hd' as (Hk' & _ & Hv'). split_and!; [done|done|split; [destruct S as [?|[(_ & _ & ?)|[_ ?]]]; [congruence|lia|lia]|congruence]|congruence].
  - rewrite fmap_app. f_equal; [apply (shown_set c idx s s' Ei es (inserted_keeps q t' Hin Ht) (entries_shown N c es Hok))|]. cbn [fmap list_fmap]. f_equal.
    unfold clock_shown. cbn [kc_shards set_shard ke_shard ke_ptr]. rewrite list_lookup_insert_eq by done. cbn [mbind option_bind cs_table s']. rewrite Ex. cbn [mbind option_bind].
    apply data_fields in Hd as (-> & _ & ->). done.
  - intros Hatt. destruct (in_attached _ _ _ _ _ _ _ _ Hin (Hatt s Ei)) as [j Eq]. subst q. cbn [slot_lookup] in Ex. apply (has_set c idx s s' Ei). left. exists j, x. cbn [cs_table s'].
    destruct (in_slots _ _ _ _ _ _ _ _ Hin j x Ex) as [[_ E7]|[? _]]; [|done]. apply data_fields in Hd as (Hkx & _ & Hvx). split_and!; [done|done|done].
Qed.
End insert.

Lemma clock_insert_spec N c es p key value charge : clock_cache_ok N c es -> 2 <= N -> N + 1 < 2 ^ 29 -> clock_op_ok (KInsert p key value charge) c ->
  exists r c', clock_cache_insert p key value charge c = (r, c') /\
    match r with
    | Ok e => clock_cache_ok (N + 1) c' (es ++ [e]) /\ clock_spec (KInsert p key value charge) None (attaches c key) (has c) (has c') (clock_shown c <$> es) (clock_shown c' <$> es ++ [e])
    | Err err => clock_cache_ok (N + 1) c' es /\ clock_spec (KInsert p key value charge) (Some err) (attaches c key) (has c) (has c') (clock_shown c <$> es) (clock_shown c' <$> es)
    | Panic => False
    end.
Proof.
  intros Hok HN0 HN Hop. destruct (clock_shard_some N c es (clock_hash_key key) Hok) as [s Ei]. specialize (Hop s Ei) as (Hp & Hch & Hroom). set (i := clock_shard_of c (clock_hash_key key)) in *.
  pose proof (kk_shards _ _ _ Hok i s Ei) as Hg. pose proof Hg as [(bits & mu & Hinv & Hmu & Hbd) Hha Hle Hcap Hpt].
  assert (Hmu0 : 0 <= mu) by (destruct Hmu as [->| ->]; [done|]; pose proof (Z.pow_nonneg 2 bits); unfold HANDLE_SIZE; lia).
  set (proto := mkClockHandle key (clock_hash_key key) value charge 0 0 false).
  assert (Hr : room (ch_charge proto) (cs_table s)).
  { pose proof (ti_usage _ _ _ _ _ _ _ Hinv) as Hu. pose proof (ti_slots _ _ _ _ _ _ _ Hinv) as Hs. pose proof (box_sum_nonneg (ct_boxes (cs_table s)) (λ q x Hx, proj1 (ti_boxes _ _ _ _ _ _ _ Hinv q x Hx))).
    assert (0 <= charge_sum (ct_handles (cs_table s))) by (apply isum_pos; intros j y Hj; eapply slot_charge_pos, (si_slot _ _ _ _ Hs j y Hj)). unfold room. cbn [ch_charge proto]. split_and!; lia. }
  destruct (clock_insert_ok bits mu N (held_of es i) p proto (cs_capacity s) (cs_table s) Hinv Hmu0 ltac:(lia) Hr Hcap Hp) as (r & t' & E & Hc & Hst).
  set (s' := mkClockShard t' (cs_capacity s)).
  assert (Erun : on_clock_shard i (clock_shard_insert p key (clock_hash_key key) value charge) c = (r, set_shard i s' c)).
  { apply (on_clock_shard_run c i s); [done|]. unfold clock_shard_insert. rewrite st_gets. by apply in_table_run. }
  assert (Hbd' : cc_strict_capacity_limit (ct_config (cs_table s)) = true -> mu <= cs_capacity s -> ct_usage t' <= cs_capacity s) by (intros; by apply Hst, Hbd).
  unfold clock_cache_insert. rewrite st_gets. fold i. destruct r as [q|err|]; [| |done].
  - st_step Erun. exists (Ok (mkClockEntry i q)), (set_shard i s' c). split; [done|]. split; [|by apply (inserted_spec N c es p key value charge s bits mu Hok Ei)].
    pose proof (inserted_keeps N c es key value charge s bits mu q t' Hc Hinv) as Hk. eapply clock_cache_update; [done|exact Ei|lia|by apply (inserted_good N c es key value charge s bits mu)|intros x Hx q'; by apply held_other with i| |].
    + intros e [?|He]%elem_of_app Hne; [done|]. apply list_elem_of_singleton in He as ->. done.
    + intros e [He|He]%elem_of_app Ee; [by apply (entries_stay N c es i s t')|]. apply list_elem_of_singleton in He as ->. destruct (in_new _ _ _ _ _ _ _ _ Hc) as (x & Ex & Hd). exists x. split; [done|].
      by apply data_fields in Hd as (_ & -> & _).
  - destruct Hc as (-> & Hstr & [G1 G2 G3 G4 G5 G6]). rewrite (st_bind_err _ _ _ _ _ Erun). exists (Err MemoryLimit), (set_shard i s' c). split; [done|].
    assert (Hk : keeps_entries es i (cs_table s) t') by (eapply fades_keeps; [exact G4|by rewrite G3]). split.
    + eapply clock_cache_update; [done|exact Ei|lia| |done|done|by apply (entries_stay N c es i s t')].
      split; [|by eapply fades_hashes|by eapply fades_leads|done|cbn [cs_table s']; lia]. exists bits, mu. split; [|split; [done|cbn [cs_table s' cs_capacity]; by rewrite G2]].
      eapply table_inv_bound; [|exact G1]. intros j _ _. lia.
    + split; [|split; [done|by apply (shown_set c i s s' Ei es Hk (entries_shown N c es Hok))]]. intros k v. rewrite (has_set c i s s' Ei).
      intros [(j & h' & Ej & Hm & Ev)|(y & z & j & h & Hne & Ey & H)]; [|left; by exists y, z, j, h]. left. destruct (fades_matches _ k _ _ _ _ G4 Ej Hm) as (h & Eh & Hmh & Hd).
      exists i, s, j, h. unfold slot_data in Hd. split_and!; [done|done|done|congruence].
Qed.

(** ** Sequences of steps *)

Lemma clock_cache_ok_mono N N' c es : N <= N' < 2 ^ 29 -> clock_cache_ok N c es -> clock_cache_ok N' c es.
Proof. intros HN [H1 H2 H3]. split; [done| |done]. intros i s Ei. eapply shard_good_mono; [done|done|by apply H2]. Qed.

Lemma clock_step_ok N op c es : clock_cache_ok N c es -> 2 <= N -> N + 1 < 2 ^ 29 -> clock_op_ok op c ->
  exists err c' es', clock_step op c es = Ok (err, c', es') /\ clock_cache_ok (N + 1) c' es' /\
    clock_spec op err (match op with KInsert _ key _ _ => attaches c key | _ => True end) (has c) (has c') (clock_shown c <$> es) (clock_shown c' <$> es').
Proof.
  intros Hok HN0 HN Hop. destruct op as [p key value charge|key|n|key]; cbn [clock_step].
  - destruct (clock_insert_spec N c es p key value charge Hok HN0 HN Hop) as ([e|err|] & c' & -> & H); [| |done]; destruct H; [by exists None, c', (es ++ [e])|by exists (Some err), c', es].
  - destruct (clock_lookup_spec N c es key Hok ltac:(lia) HN) as (r & c' & -> & H1 & H2). by exists None, c', (es ++ option_list r).
  - destruct (es !! n) as [e|] eqn:En.
    + destruct (clock_drop_spec N c es n e Hok ltac:(lia) HN En) as (b & c' & -> & H1 & H2). by exists None, c', (delete n es).
    + exists None, c, es. split; [done|]. split; [eapply clock_cache_ok_mono; [|done]; lia|]. cbn [clock_spec]. split; [done|]. split; [done|].
      apply lookup_ge_None in En. rewrite <- list_fmap_delete, delete_take_drop, drop_ge, app_nil_r, take_ge by lia. done.
  - destruct (clock_erase_spec N c es key Hok ltac:(lia) HN) as (c' & -> & H1 & H2). by exists None, c', es.
Qed.

(** The states that clients reach from [c0] in [n] steps. *)
Inductive clock_run (c0 : ClockCache T) : nat -> ClockCache T -> list ClockEntry -> Prop :=
  | krun_start : clock_run c0 0 c0 []
  | krun_step n op c es err c' es' : clock_run c0 n c es -> clock_op_ok op c -> clock_step op c es = Ok (err, c', es') -> clock_run c0 (S n) c' es'.

Lemma clock_run_ok c0 n c es : clock_cache_ok 2 c0 [] -> clock_run c0 n c es -> Z.of_nat n + 2 < 2 ^ 29 -> clock_cache_ok (Z.of_nat n + 2) c es.
Proof.
  intros H0. induction 1 as [|n op c es err c' es' _ IH Hop E]; intros Hn; [done|].
  destruct (clock_step_ok (Z.of_nat n + 2) op c es) as (err1 & c1 & es1 & E1 & Hok & _); [apply IH; lia|lia|lia|done|].
  rewrite E1 in E. injection E as <- <- <-. by replace (Z.of_nat (S n) + 2) with (Z.of_nat n + 2 + 1) by lia.
Qed.

(** ** The new cache *)

Lemma trim_hash_bits_nonneg fuel capacity b : 0 <= b -> 0 <= trim_hash_bits fuel capacity b.
Proof.
  revert b. induction fuel as [|fuel IH]; intros b Hb; cbn [trim_hash_bits]; [done|]. destruct (_ && _) eqn:E; [|done]. apply andb_true_iff in E as [E _]. apply Z.ltb_lt in E. apply IH. lia.
Qed.
Lemma hash_bits_nonneg ops capacity est cm : 0 <= hash_bits ops capacity est cm.
Proof. unfold hash_bits. cbv zeta. destruct cm; [apply trim_hash_bits_nonneg|]; apply f64_to_usize_bounds. Qed.
Lemma clock_shard_bits_ok n k b : 0 <= n -> 0 <= k < 6 -> 6 <= k + Z.of_nat b -> exists bits, clock_shard_bits b n k = Ok bits /\ k <= bits <= 6.
Proof.
  revert n k. induction b as [|b IH]; intros n k Hn Hk Hb; [lia|]. cbn [clock_shard_bits]. destruct (Z.shiftr n 1 =? 0); [exists k; split; [done|lia]|].
  destruct (6 <=? k + 1) eqn:E; [apply Z.leb_le in E; exists (k + 1); split; [done|lia]|]. apply Z.leb_gt in E.
  destruct (IH (Z.shiftr n 1) (k + 1)) as (bits & E' & Hbits); [apply Z.shiftr_nonneg; lia|lia|lia|]. exists bits. split; [done|lia].
Qed.
(** Tables of less than 2^32 slots. *)
Definition small_tables c : Prop := forall s, s ∈ kc_shards c -> cc_length_bits (ct_config (cs_table s)) < 32.

Lemma clock_cache_new_ok ops capacity est nsb strict cm c :
  clock_cache_new ops capacity est nsb strict cm = Ok c -> 0 <= capacity -> small_tables c ->
  clock_cache_ok 2 c [] /\ forall k v, ~ has c k v.
Proof.
  unfold clock_cache_new. intros E Hcap Hsmall. destruct (nsb <? 20) eqn:En; [apply Z.ltb_lt in En|done]. cbn [rassert mbind res_bind] in E.
  assert (Hbits : exists b, (if 0 <=? nsb then Ok nsb else clock_shard_bits 6 (capacity / CLOCK_MIN_SHARD_SIZE) 0) = Ok b /\ 0 <= b < 20).
  { destruct (0 <=? nsb) eqn:E0; [apply Z.leb_le in E0; by exists nsb|]. destruct (clock_shard_bits_ok (capacity / CLOCK_MIN_SHARD_SIZE) 0 6) as (b & -> & ?); [by apply Z.div_pos|lia|lia|]. exists b. split; [done|lia]. }
  destruct Hbits as (b & Eb & Hb). rewrite Eb in E. cbn [mbind res_bind] in E. injection E as <-.
  assert (H2 : 0 < 2 ^ b < 2 ^ 32) by (split; [apply Z.pow_pos_nonneg; lia|apply Z.pow_lt_mono_r; lia]). rewrite Z.shiftl_1_l, (wrap_small 32) in * by (unfold fits; lia).
  set (cap := wrap64 (capacity + (2 ^ b - 1)) / 2 ^ b) in *. set (s0 := clock_shard_new ops cap est strict cm) in *.
  assert (Hcap' : 0 <= cap < 2 ^ 64). { pose proof (wrap_fits 64 (capacity + (2 ^ b - 1)) ltac:(lia)) as [? ?]. unfold cap. split; [apply Z.div_pos; lia|]. apply Z.div_lt_upper_bound; nia. }
  assert (Hlk : forall i s, replicate (Z.to_nat (2 ^ b)) s0 !! i = Some s -> s = s0) by (by intros i s [-> _]%lookup_replicate).
  assert (Hb0 : 0 <= hash_bits ops cap est cm < 32).
  { split; [apply hash_bits_nonneg|]. apply (Hsmall s0). cbn [kc_shards]. destruct (Z.to_nat (2 ^ b)) as [|k] eqn:Ek; [lia|]. by left. }
  pose proof (clock_table_new_ok (T := T) (hash_bits ops cap est cm) strict cm Hb0) as Hinv.
  assert (Hempty : forall j h, ct_handles (cs_table s0) !! j = Some h -> occ h = 0). { intros j h. cbn [cs_table s0 clock_shard_new ct_handles clock_table_new]. intros [-> _]%lookup_replicate. done. }
  split.
  - split; cbn [kc_shards kc_shard_mask].
    + exists b. split_and!; [lia|rewrite Z.ones_equiv; lia|by rewrite length_replicate].
    + intros i s ->%Hlk. split; [|intros j h Ej Ho; rewrite (Hempty j h Ej) in Ho; done..|done|done].
      exists (hash_bits ops cap est cm), (metadata_charge (hash_bits ops cap est cm) cm). split; [exact Hinv|]. split; [destruct cm; [by right|by left]|]. intros _ Hmu.
      pose proof (ti_usage _ _ _ _ _ _ _ Hinv) as Hu. cbn [cs_table cs_capacity s0 clock_shard_new] in *. rewrite Hu.
      assert (Ec : charge_sum (ct_handles (clock_table_new (T := T) (hash_bits ops cap est cm) strict cm)) = 0) by (apply isum_zero; intros j h Ej; rewrite (Hempty j h Ej); lia).
      rewrite Ec. change (box_sum _) with 0. lia.
    + intros e He. by apply not_elem_of_nil in He.
  - intros k v (i & s & j & h & ->%Hlk & Ej & Hm & _). pose proof (matches_occ _ _ Hm). rewrite (Hempty j h Ej) in *. done.
Qed.
End clients.

(** ** What clients can rely on *)

(** [C14] The clock cache refines the promise of a bag that may forget, for clients that
    insert entries with a positive charge. From a new cache whose tables have less than
    2^32 slots, after fewer than 2^29 - 3 operations of such clients (the counters of a
    slot have 30 bits), the next operation does not panic, loop or follow a bad pointer; an
    insertion adds at most the new entry, gives an entry that shows it (or fails with
    [MemoryLimit] and adds nothing), and the new value is visible unless the shard is
    beyond its limit of occupancy; a lookup gives a visible entry of its key if and only
    if there is one; erasing a key takes exactly its entries out of sight; dropping an
    entry takes nothing out of sight; and the entries that clients still have show the keys
    and values they did. An insertion comes with a fresh address, and the usage stays below
    2^62 with it. The charge has to be positive: with an entry of charge 0 alone in a cache,
    erasing it violates an assertion ([zero_charge_panics]). *)
Theorem clock_cache_refines {T} ops capacity est num_shard_bits strict charge_metadata (c0 c : ClockCache T) n es op :
  clock_cache_new ops capacity est num_shard_bits strict charge_metadata = Ok c0 -> 0 <= capacity -> small_tables c0 ->
  clock_run c0 n c es -> Z.of_nat n + 3 < 2 ^ 29 -> clock_op_ok op c ->
  exists err c' es', clock_step op c es = Ok (err, c', es') /\ clock_run c0 (S n) c' es' /\
    clock_spec op err (match op with KInsert _ key _ _ => attaches c key | _ => True end) (has c) (has c') (clock_shown c <$> es) (clock_shown c' <$> es').
Proof.
  intros Hnew Hcap Hsmall Hrun Hn Hop. destruct (clock_cache_new_ok _ _ _ _ _ _ _ Hnew Hcap Hsmall) as [H0 _].
  destruct (clock_step_ok _ op c es (clock_run_ok c0 n c es H0 Hrun ltac:(lia)) ltac:(lia) ltac:(lia) Hop) as (err & c' & es' & E & _ & Hspec).
  exists err, c', es'. split; [done|]. split; [by eapply krun_step|done].
Qed.

(** [C15] The words and counters of the clock cache are well typed. In every state that
    clients reach from a new cache whose tables have less than 2^32 slots, with fewer than
    2^29 - 3 operations, the insertions among them with a positive charge, a fresh address
    and a usage that stays below 2^62 (beyond that many operations they need not be,
    [near_overflow_loses_refs]): a shard has 2^bits slots; each slot is empty, visible or invisible, never
    under construction; the two counters of its word differ by exactly the number of
    entries that clients have of it, and an invisible slot is held by one; its
    displacements count the entries whose probe sequence passed over it; the occupancy is
    the number of occupied slots, and the usage is the charge of the handles themselves
    (nothing, or the size of a handle for every slot), of the occupied slots and of the
    detached entries. With a strict capacity limit that is
    not below what the handles themselves are charged, the usage never exceeds the
    capacity. *)
Theorem clock_cache_typed {T} ops capacity est num_shard_bits strict charge_metadata (c0 c : ClockCache T) n es i s :
  clock_cache_new ops capacity est num_shard_bits strict charge_metadata = Ok c0 -> 0 <= capacity -> small_tables c0 ->
  clock_run c0 n c es -> Z.of_nat n + 3 < 2 ^ 29 -> kc_shards c !! i = Some s ->
  exists bits mu, let t := cs_table s in
    Z.of_nat (length (ct_handles t)) = 2 ^ bits /\ 0 <= bits < 32 /\
    (forall j h, ct_handles t !! j = Some h ->
       fits 64 (ch_meta h) /\
       (meta_state (ch_meta h) = STATE_EMPTY /\ held_of es i (PtrSlot j) = 0 \/
        (meta_state (ch_meta h) = STATE_VISIBLE \/ meta_state (ch_meta h) = STATE_INVISIBLE /\ 0 < held_of es i (PtrSlot j)) /\
        acquire_count (ch_meta h) = release_count (ch_meta h) + held_of es i (PtrSlot j)) /\
       ch_displacements h = crossings bits (ct_handles t) j /\ fits 32 (ch_displacements h)) /\
    ct_occupancy t = occ_sum (ct_handles t) /\
    (mu = 0 \/ mu = Z.of_nat (length (ct_handles t)) * HANDLE_SIZE) /\
    ct_usage t = mu + charge_sum (ct_handles t) + ct_detached_usage t /\ ct_detached_usage t = box_sum (ct_boxes t) /\
    (cc_strict_capacity_limit (ct_config t) = true -> mu <= cs_capacity s -> ct_usage t <= cs_capacity s).
Proof.
  intros Hnew Hcap Hsmall Hrun Hn Hi. destruct (clock_cache_new_ok _ _ _ _ _ _ _ Hnew Hcap Hsmall) as [H0 _].
  destruct (kk_shards _ _ _ (clock_run_ok c0 n c es H0 Hrun ltac:(lia)) i s Hi) as [(bits & mu & [T1 T2 T3 T4 T5 T6 T7 T8 T9 T10] & Hmu & Hbd) _ _ _ _].
  exists bits, mu. cbv zeta. pose proof (si_bits _ _ _ _ T1) as Hb. pose proof (si_length _ _ _ _ T1) as Hl. split; [by rewrite Hl, slot_count_z|]. split; [done|]. split; [|rewrite Hl, slot_count_z by done; split_and!; try done; lia].
  intros j h Ej. assert (Hd : ch_displacements h = crossings bits (ct_handles (cs_table s)) j) by (by apply (si_disp _ _ _ _ T1)).
  assert (Hfit : fits 32 (ch_displacements h)) by (rewrite Hd; by apply crossings_bound).
  destruct (si_slot _ _ _ _ T1 j h Ej) as (st & rel & acq & Em & Hw & HB & Hh & _ & Hc).
  assert (Hok : word_ok st rel acq) by (unfold word_ok; destruct Hc as [|]; lia). rewrite Em, state_word, acquire_word, release_word by done.
  split; [by apply meta_word_fits|]. split; [|done]. change STATE_EMPTY with 0. change STATE_VISIBLE with 7. change STATE_INVISIBLE with 6. lia.
Qed.

(** A clock cache can be dropped when its clients have dropped their entries: in
    every state that clients reach in which they have no entry left, dropping each table
    succeeds, so the assertions hold that no slot is referenced or under construction,
    that the usage comes down to what the handles themselves are charged, and that the
    occupancy comes down to 0. *)
Theorem clock_cache_drops_clean {T} ops capacity est num_shard_bits strict charge_metadata (c0 c : ClockCache T) n i s :
  clock_cache_new ops capacity est num_shard_bits strict charge_metadata = Ok c0 -> 0 <= capacity -> small_tables c0 ->
  clock_run c0 n c [] -> Z.of_nat n + 3 < 2 ^ 29 -> kc_shards c !! i = Some s ->
  exists t', clock_table_drop (cs_table s) = (Ok tt, t').
Proof.
  intros Hnew Hcap Hsmall Hrun Hn Hi. destruct (clock_cache_new_ok _ _ _ _ _ _ _ Hnew Hcap Hsmall) as [H0 _].
  destruct (kk_shards _ _ _ (clock_run_ok c0 n c [] H0 Hrun ltac:(lia)) i s Hi) as [(bits & mu & Hinv & Hmu & _) _ _ _ _].
  by eapply clock_table_drop_ok.
Qed.

(** A cache of one shard of 8 slots; the floating point functions are those of the
    platform, here the exact integer logarithm of [15]. *)
Definition sample_ops : FloatOps := {| f64_log2 := λ _, f64_of 3; f64_floor := λ x, x |}.
Definition sample_clock : ClockCache Z := mkClockCache [mkClockShard (clock_table_new 3 true false) 20] 0.
Definition sample_kinsert (p key charge : Z) : clock_op Z := KInsert p key (Some (100 + key)) charge.
Fixpoint clock_steps {T} (ops : list (clock_op T)) (c : ClockCache T) es : res (list (option Error) * ClockCache T * list ClockEntry) :=
  match ops with
  | [] => Ok ([], c, es)
  | op :: ops =>
      '(err, c, es) ← clock_step op c es;
      '(errs, c, es) ← clock_steps ops c es;
      Ok (err :: errs, c, es)
  end.

Lemma sample_clock_new : clock_cache_new sample_ops 20 3 0 true false = Ok sample_clock.
Proof. vm_compute. reflexivity. Qed.
Lemma sample_clock_small : small_tables sample_clock.
Proof. intros s ->%list_elem_of_singleton. done. Qed.
Lemma sample_kinsert_ok p key charge : 0 < charge < 2 ^ 61 -> clock_op_ok (sample_kinsert p key charge) sample_clock.
Proof. intros Hc s Hs. destruct (clock_shard_of sample_clock (clock_hash_key key)) as [|k]; [|done]. injection Hs as <-. cbn. split_and!; [done|lia|lia]. Qed.

(** The strict limit refuses a third entry while the first two are in use. *)
Example clock_strict_refuses :
  (r ← clock_steps [sample_kinsert 1 1 8; sample_kinsert 2 2 8; sample_kinsert 3 3 8; KDrop 0; sample_kinsert 4 3 8] sample_clock [];
   Ok (r.1.1, map (clock_shown r.1.2) r.2, map (λ s, ct_usage (cs_table s)) (kc_shards r.1.2))) =
  Ok ([None; None; Some MemoryLimit; None; None], [Some (2, Some 102); Some (3, Some 103)], [16]).
Proof. vm_compute. reflexivity. Qed.

Lemma clock_cache_refines_witness : exists err c' es', clock_step (sample_kinsert 2 1 4) sample_clock [] = Ok (err, c', es') /\ clock_run sample_clock 1 c' es' /\
  clock_spec (sample_kinsert 2 1 4) err (attaches sample_clock 1) (has sample_clock) (has c') [] (clock_shown c' <$> es').
Proof.
  apply (clock_cache_refines sample_ops 20 3 0 true false sample_clock sample_clock 0 [] (sample_kinsert 2 1 4) sample_clock_new);
    [lia|apply sample_clock_small|apply krun_start|lia|apply sample_kinsert_ok; lia].
Defined.

Lemma clock_cache_typed_witness : exists err c' es' s, clock_step (sample_kinsert 2 1 14) sample_clock [] = Ok (err, c', es') /\ kc_shards c' !! 0%nat = Some s /\
  ct_usage (cs_table s) = 14 /\ ct_occupancy (cs_table s) = occ_sum (ct_handles (cs_table s)) /\
  (forall j h, ct_handles (cs_table s) !! j = Some h -> fits 64 (ch_meta h) /\ fits 32 (ch_displacements h)).
Proof.
  destruct (clock_step (sample_kinsert 2 1 14) sample_clock []) as [[[err c'] es']| |] eqn:E; [|vm_compute in E; done|vm_compute in E; done].
  destruct (kc_shards c' !! 0%nat) as [s|] eqn:Es; [|exfalso; vm_compute in E; injection E as <- <- <-; done].
  exists err, c', es', s. split; [done|]. split; [done|]. split; [vm_compute in E; injection E as <- <- <-; injection Es as <-; reflexivity|].
  destruct (clock_cache_typed sample_ops 20 3 0 true false sample_clock c' 1 es' 0 s sample_clock_new) as (bits & mu & _ & _ & Hslots & Hocc & _);
    [lia|apply sample_clock_small| |lia|exact Es|].
  - eapply krun_step; [apply krun_start| |exact E]. apply sample_kinsert_ok. lia.
  - split; [exact Hocc|]. intros j h Ej. destruct (Hslots j h Ej) as (H1 & _ & _ & H2). split; [exact H1|exact H2].
Defined.

Lemma clock_cache_drops_clean_witness : exists t', clock_table_drop (clock_table_new 3 true false : ClockCacheHandleTable Z) = (Ok tt, t').
Proof.
  apply (clock_cache_drops_clean sample_ops 20 3 0 true false sample_clock sample_clock 0 0 (mkClockShard (clock_table_new 3 true false) 20) sample_clock_new);
    [lia|apply sample_clock_small|apply krun_start|lia|reflexivity].
Defined.

(** ** Behaviours that look unintended *)

(** The last entry of a shard, when its charge is 0 and the handles are not charged: the
    usage is 0 before it is reclaimed, and the assertion on it fails; a page of no bytes
    cannot be erased. *)
Lemma reclaim_zero_panics (t : ClockCacheHandleTable Z) charge : 0 < ct_occupancy t -> ct_usage t = 0 -> (reclaim_entry_usage charge t).1 = Panic.
Proof.
  intros Ho Hu. unfold reclaim_entry_usage, fetch_occupancy, fetch_usage, mbind, st_bind, lift, rassert. cbn [ct_occupancy ct_usage with_occupancy with_usage].
  by rewrite (proj2 (Z.ltb_lt _ _)), Hu.
Qed.
Example zero_charge_panics :
  clock_steps [KInsert 1 1 (Some 101) 0; KDrop 0; KErase 1] (mkClockCache [mkClockShard (clock_table_new 3 false false) 20] 0) [] = Panic.
Proof. vm_compute. reflexivity. Qed.

Definition lax_clock : ClockCache Z := mkClockCache [mkClockShard (clock_table_new 3 false false) 20] 0.

(** A key that is in the table is not found by [insert], which looks into invisible
    slots only: it gets a second slot, and its old value is still what is looked up. *)
Example clock_insert_duplicates :
  (r ← clock_steps [KInsert 1 1 (Some 101) 1; KDrop 0; KInsert 2 1 (Some 201) 1; KDrop 0; KLookup 1] lax_clock [];
   Ok (map (clock_shown r.1.2) r.2, map (λ s, ct_occupancy (cs_table s)) (kc_shards r.1.2))) = Ok ([Some (1, Some 101)], [2]).
Proof. vm_compute. reflexivity. Qed.

(** The countdown of an entry that was just used is not counted down: the first move of
    the hand takes it, as the decrement is for invisible slots only. *)
Example clock_no_countdown :
  (let hs := ct_handles (match clock_steps [KInsert 1 1 (Some 101) 1; KDrop 0] lax_clock [] with Ok (_, c, _) => default (clock_table_new 3 false false) (cs_table <$> kc_shards c !! 0%nat) | _ => clock_table_new 3 false false end) in
   (λ h : ClockHandle Z, (meta_state (ch_meta h), acquire_count (ch_meta h), fst (clock_update (PtrSlot 0) (with_handles [h] (clock_table_new 0 false false))))) <$> base.filter (λ h, meta_state (ch_meta h) <> 0) hs) =
  [(7, 2, Ok true)].
Proof. vm_compute. reflexivity. Qed.

(** A slot with three references whose acquire counter has reached 2^29 while the release
    counter has not: the correction after the next release clears the top bit of the one
    only, and two references become 2^64 - (2^29 - 2). *)
Example near_overflow_loses_refs :
  let old := meta_word STATE_VISIBLE (2 ^ 29 - 3) (2 ^ 29) in
  ref_count old = 3 /\ ref_count (correct_near_overflow old (wrap64 (old + RELEASE_INCREMENT))) = 2 ^ 64 - (2 ^ 29 - 2).
Proof. vm_compute. done. Qed.
