(* ===== verification/Bitmap.v ===== *)
(** * The fixed-size bitmap ([util/bitmap.rs])

    A page group marks its deallocated pages in a [FixedBitmap]: an array of 64-bit
    words and the number of bits set. [bitmap_repr] relates it to a finite set of
    indices; setting, clearing, testing, counting and iterating are the operations
    of that set. *)

From stdpp Require Import base numbers list gmap.
From Stdlib Require Import ZArith Lia.
From S2P Require Import Prelude Iter.

Record FixedBitmap := mkFixedBitmap { bm_cap : Z; bm_len : Z; bm_bits : list Z }.

Definition bm_key (index : Z) : nat := Z.to_nat (index / 64).
Definition bm_bit (index : Z) : Z := index mod 64.

(** [FixedBitmap::new]. *)
Definition bitmap_new (cap : Z) : FixedBitmap :=
  let size := if cap mod 64 =? 0 then cap / 64 else cap / 64 + 1 in
  mkFixedBitmap cap 0 (replicate (Z.to_nat size) 0).

Definition bitmap_set (index : Z) (b : FixedBitmap) : res (bool * FixedBitmap) :=
  let key := bm_key index in
  let bit := bm_bit index in
  old_w ← expect (bm_bits b !! key);
  let new_w := Z.lor old_w (Z.shiftl 1 bit) in
  let inserted := Z.shiftr (Z.lxor old_w new_w) bit in
  Ok (negb (inserted =? 0),
      mkFixedBitmap (bm_cap b) (wrap32 (bm_len b + inserted)) (<[key := new_w]> (bm_bits b))).

Definition bitmap_clear (index : Z) (b : FixedBitmap) : res (bool * FixedBitmap) :=
  let key := bm_key index in
  let bit := bm_bit index in
  old_w ← expect (bm_bits b !! key);
  let new_w := Z.land old_w (wrap64 (Z.lnot (Z.shiftl 1 bit))) in
  let removed := Z.shiftr (Z.lxor old_w new_w) bit in
  Ok (negb (removed =? 0),
      mkFixedBitmap (bm_cap b) (wrap32 (bm_len b - removed)) (<[key := new_w]> (bm_bits b))).

Definition bitmap_test (index : Z) (b : FixedBitmap) : res bool :=
  w ← expect (bm_bits b !! bm_key index);
  Ok (negb (Z.land w (Z.shiftl 1 (bm_bit index)) =? 0)).

(** [cap.checked_sub(len).expect(..)]. *)
Definition bitmap_free (b : FixedBitmap) : res Z :=
  if bm_len b <=? bm_cap b then Ok (bm_cap b - bm_len b) else Panic.
Definition bitmap_is_full (b : FixedBitmap) : bool := bm_len b =? bm_cap b.
Definition bitmap_is_empty (b : FixedBitmap) : bool := bm_len b =? 0.

(** [u64::trailing_zeros] of a word that is not zero. *)
Fixpoint ctz_pos (p : positive) : Z :=
  match p with xO p => 1 + ctz_pos p | _ => 0 end.
Definition trailing_zeros (w : Z) : Z := match w with Zpos p => ctz_pos p | _ => 64 end.

Record FixedBitmapIter := mkBitmapIter { bi_bitmap : FixedBitmap; bi_key : nat; bi_value : Z }.

(** [FixedBitmapIter::new], which indexes the first word. *)
Definition bitmap_iter (b : FixedBitmap) : res FixedBitmapIter :=
  value ← expect (bm_bits b !! 0%nat);
  Ok (mkBitmapIter b 0 value).

(** The loop of [next]: at most one round for each word that is left. *)
Fixpoint bitmap_next_loop (fuel : nat) (it : FixedBitmapIter) : res (option Z * FixedBitmapIter) :=
  match fuel with
  | O => Panic
  | S fuel =>
      if bi_value it =? 0 then
        let key := S (bi_key it) in
        match bm_bits (bi_bitmap it) !! key with
        | Some value => bitmap_next_loop fuel (mkBitmapIter (bi_bitmap it) key value)
        | None => Ok (None, mkBitmapIter (bi_bitmap it) key (bi_value it))
        end
      else
        let index := trailing_zeros (bi_value it) in
        Ok (Some (wrap32 (64 * bi_key it + index)),
            mkBitmapIter (bi_bitmap it) (bi_key it) (Z.land (bi_value it) (bi_value it - 1)))
  end.
Definition bitmap_next (it : FixedBitmapIter) : res (option Z * FixedBitmapIter) :=
  bitmap_next_loop (S (length (bm_bits (bi_bitmap it)))) it.
#[global] Instance bitmap_iterator : Iterator FixedBitmapIter Z := bitmap_next.

(** ** The set a bitmap stands for *)

Definition bit_at (b : FixedBitmap) (i : Z) : bool :=
  match bm_bits b !! bm_key i with Some w => Z.testbit w (bm_bit i) | None => false end.

Record bitmap_repr (b : FixedBitmap) (s : gset Z) : Prop := {
  br_cap : fits 32 (bm_cap b);
  br_words : bm_cap b <= 64 * length (bm_bits b) < bm_cap b + 64;
  br_fits : Forall (fits 64) (bm_bits b);
  br_bits : forall i, 0 <= i -> bit_at b i = true <-> i ∈ s;
  br_range : forall i, i ∈ s -> 0 <= i < bm_cap b;
  br_len : bm_len b = size s;
}.

(** A set of indices below [n] has at most [n] elements. *)
Lemma size_below (s : gset Z) (n : Z) : 0 <= n -> (forall i, i ∈ s -> 0 <= i < n) -> size s <= n.
Proof.
  intros Hn Hs. assert (Hsub : s ⊆ list_to_set (seqZ 0 n)).
  { intros i Hi. apply elem_of_list_to_set, elem_of_seqZ. specialize (Hs i Hi). lia. }
  apply subseteq_size in Hsub. rewrite size_list_to_set in Hsub by apply NoDup_seqZ.
  rewrite length_seqZ in Hsub. lia.
Qed.

Lemma br_size b s : bitmap_repr b s -> size s <= bm_cap b.
Proof. intros Hr. apply size_below; [apply Hr|apply (br_range _ _ Hr)]. Qed.

(** The word that holds an index. *)
Lemma br_word b s i : bitmap_repr b s -> 0 <= i < bm_cap b ->
  exists w, bm_bits b !! bm_key i = Some w /\ fits 64 w /\ 0 <= bm_bit i < 64 /\
    (Z.testbit w (bm_bit i) = true <-> i ∈ s).
Proof.
  intros Hr Hi. destruct (lookup_lt_is_Some_2 (bm_bits b) (bm_key i)) as [w Hw].
  { pose proof (br_words _ _ Hr). unfold bm_key. div_lia. }
  exists w. split; [done|]. split; [|split; [unfold bm_bit; div_lia|]].
  - exact (Forall_lookup_1 _ _ _ _ (br_fits _ _ Hr) Hw).
  - rewrite <- (br_bits _ _ Hr i) by lia. unfold bit_at. by rewrite Hw.
Qed.

Lemma key_bit_inj i j : 0 <= i -> 0 <= j -> bm_key i = bm_key j -> bm_bit i = bm_bit j -> i = j.
Proof. unfold bm_key, bm_bit. intros. div_lia. Qed.

(** Bits of a word with one bit set or cleared. *)
Lemma testbit_set w k j : 0 <= k -> 0 <= j ->
  Z.testbit (Z.lor w (Z.shiftl 1 k)) j = Z.testbit w j || (j =? k).
Proof.
  intros Hk Hj. rewrite Z.lor_spec, Z.shiftl_spec by done. f_equal.
  destruct (Z.eqb_spec j k) as [->|Hne]; [by rewrite Z.sub_diag|].
  destruct (decide (j < k)); [by rewrite Z.testbit_neg_r by lia|].
  apply Z.bits_above_log2; simpl; lia.
Qed.
Lemma testbit_clear w k j : fits 64 w -> 0 <= k -> 0 <= j ->
  Z.testbit (Z.land w (wrap64 (Z.lnot (Z.shiftl 1 k)))) j = Z.testbit w j && negb (j =? k).
Proof.
  intros Hw Hk Hj. rewrite Z.land_spec. unfold wrap. destruct (decide (j < 64)).
  - rewrite Z.mod_pow2_bits_low, Z.lnot_spec, Z.shiftl_spec by lia.
    destruct (Z.eqb_spec j k) as [->|Hne]; [by rewrite Z.sub_diag|].
    destruct (decide (j < k)); [by rewrite (Z.testbit_neg_r 1) by lia|].
    rewrite (Z.bits_above_log2 1); simpl; [done|lia|lia].
  - rewrite (proj1 (Z.bounded_iff_bits_nonneg 64 w ltac:(lia) (proj1 Hw)) (proj2 Hw) j) by lia. done.
Qed.

(** Words that differ in one bit at most: the difference, shifted down, is the bit. *)
Lemma lxor_one_bit w w' k (d : bool) : 0 <= k ->
  (forall j, 0 <= j -> xorb (Z.testbit w j) (Z.testbit w' j) = d && (j =? k)) ->
  Z.shiftr (Z.lxor w w') k = Z.b2z d.
Proof.
  intros Hk Hd. apply Z.bits_inj'. intros j Hj. rewrite Z.shiftr_spec, Z.lxor_spec, Hd by lia.
  destruct d; simpl.
  - destruct (Z.eqb_spec (j + k) k) as [E|E]; [by replace j with 0 by lia|].
    rewrite Z.bits_above_log2; simpl; lia.
  - by rewrite Z.testbit_0_l.
Qed.

Lemma fits_bits w : fits 64 w <-> 0 <= w /\ forall j, 64 <= j -> Z.testbit w j = false.
Proof.
  unfold fits. split.
  - intros [H1 H2]. split; [done|]. by apply (Z.bounded_iff_bits_nonneg 64 w).
  - intros [H1 H2]. split; [done|]. by apply (Z.bounded_iff_bits_nonneg 64 w).
Qed.

(** ** The operations on the set *)

Lemma bitmap_new_repr cap : fits 32 cap -> bitmap_repr (bitmap_new cap) ∅.
Proof.
  intros Hc. constructor; simpl; try done.
  - rewrite length_replicate. unfold fits in Hc. destruct (Z.eqb_spec (cap mod 64) 0); div_lia.
  - apply Forall_replicate. split; lia.
  - intros i Hi. unfold bit_at. simpl. split; [|set_solver].
    destruct (replicate _ 0 !! _) eqn:E; [|done].
    apply lookup_replicate_1 in E as [-> _]. by rewrite Z.testbit_0_l.
Qed.

(** Replacing the word of [i] by one that agrees with the set [s'] at [i]. *)
Lemma bit_at_insert b (i j w w' len : Z) :
  0 <= i -> 0 <= j -> bm_bits b !! bm_key i = Some w ->
  bit_at (mkFixedBitmap (bm_cap b) len (<[bm_key i := w']> (bm_bits b))) j =
    if bool_decide (bm_key i = bm_key j) then Z.testbit w' (bm_bit j) else bit_at b j.
Proof.
  intros Hi Hj Hw. unfold bit_at. simpl. case_bool_decide as E.
  - rewrite <- E, list_lookup_insert_eq; [done|]. by eapply lookup_lt_Some.
  - by rewrite list_lookup_insert_ne.
Qed.

Lemma bitmap_write_repr b s i (w w' : Z) (s' : gset Z) (x : bool) :
  bitmap_repr b s -> 0 <= i < bm_cap b -> bm_bits b !! bm_key i = Some w -> fits 64 w' ->
  (forall j, 0 <= j < 64 -> Z.testbit w' j = if j =? bm_bit i then x else Z.testbit w j) ->
  (forall j, j ∈ s' <-> if decide (j = i) then x = true else j ∈ s) ->
  bitmap_repr (mkFixedBitmap (bm_cap b) (size s') (<[bm_key i := w']> (bm_bits b))) s'.
Proof.
  intros Hr Hi Hw Hf Hbit Hs'. constructor; simpl; [apply Hr| | | | |done].
  - rewrite length_insert. apply Hr.
  - apply Forall_insert; [apply Hr|done].
  - intros j Hj. rewrite (bit_at_insert b i j w w' (size s')) by (done || lia).
    rewrite Hs'. case_bool_decide as Ek.
    + rewrite Hbit by (unfold bm_bit; div_lia). destruct (Z.eqb_spec (bm_bit j) (bm_bit i)) as [Eb|Eb].
      * rewrite decide_True; [done|]. apply key_bit_inj; lia || done.
      * rewrite decide_False by congruence. rewrite <- (br_bits _ _ Hr j Hj).
        unfold bit_at. by rewrite <- Ek, Hw.
    + rewrite decide_False by congruence. apply (br_bits _ _ Hr j Hj).
  - intros j. rewrite Hs'. case_decide; [lia|]. apply (br_range _ _ Hr).
Qed.

Lemma bitmap_test_ok b s i :
  bitmap_repr b s -> 0 <= i < bm_cap b -> bitmap_test i b = Ok (bool_decide (i ∈ s)).
Proof.
  intros Hr Hi. destruct (br_word b s i Hr Hi) as (w & Hw & Hf & Hb & Hin).
  unfold bitmap_test. rewrite Hw. cbn [expect mbind res_bind]. f_equal.
  assert (E : Z.land w (Z.shiftl 1 (bm_bit i)) = if Z.testbit w (bm_bit i) then Z.shiftl 1 (bm_bit i) else 0).
  { apply Z.bits_inj'. intros j Hj. rewrite Z.land_spec, Z.shiftl_spec by done.
    destruct (decide (j = bm_bit i)) as [->|Hne].
    - rewrite Z.sub_diag. destruct (Z.testbit w (bm_bit i)) eqn:Et; [|by rewrite Z.testbit_0_l].
      by rewrite Z.shiftl_spec, Z.sub_diag by lia.
    - assert (E1 : Z.testbit 1 (j - bm_bit i) = false).
      { destruct (decide (j < bm_bit i)); [by apply Z.testbit_neg_r; lia|].
        apply Z.bits_above_log2; simpl; lia. }
      rewrite E1, andb_false_r. destruct (Z.testbit w (bm_bit i)); [|by rewrite Z.testbit_0_l].
      by rewrite Z.shiftl_spec, E1 by lia. }
  rewrite E. destruct (Z.testbit w (bm_bit i)) eqn:Et.
  - rewrite bool_decide_true by (by apply Hin). rewrite Z.shiftl_mul_pow2 by lia.
    pose proof (Z.pow_pos_nonneg 2 (bm_bit i)). destruct (Z.eqb_spec (1 * 2 ^ bm_bit i) 0); [lia|done].
  - rewrite bool_decide_false by (rewrite <- Hin; congruence). done.
Qed.

Lemma bitmap_set_ok b s i :
  bitmap_repr b s -> 0 <= i < bm_cap b ->
  exists b', bitmap_set i b = Ok (bool_decide (i ∉ s), b') /\ bm_cap b' = bm_cap b /\
    bitmap_repr b' ({[i]} ∪ s).
Proof.
  intros Hr Hi. destruct (br_word b s i Hr Hi) as (w & Hw & Hf & Hb & Hin).
  unfold bitmap_set. rewrite Hw. cbn [expect mbind res_bind].
  set (w' := Z.lor w (Z.shiftl 1 (bm_bit i))).
  assert (Hx : Z.shiftr (Z.lxor w w') (bm_bit i) = Z.b2z (bool_decide (i ∉ s))).
  { apply lxor_one_bit; [lia|]. intros j Hj. unfold w'. rewrite testbit_set by lia.
    destruct (Z.eqb_spec j (bm_bit i)) as [->|]; [|rewrite orb_false_r, andb_false_r; apply xorb_nilpotent].
    rewrite orb_true_r, andb_true_r. destruct (Z.testbit w (bm_bit i)) eqn:Et; simpl; symmetry.
    - apply bool_decide_eq_false_2. intros Hn. by apply Hn, Hin.
    - apply bool_decide_eq_true_2. rewrite <- Hin. congruence. }
  assert (Hsz : bm_len b + Z.b2z (bool_decide (i ∉ s)) = size ({[i]} ∪ s)).
  { rewrite (br_len _ _ Hr). case_bool_decide as Hn; simpl.
    - rewrite size_union, size_singleton by set_solver. lia.
    - replace ({[i]} ∪ s) with s by set_solver. lia. }
  eexists. split; [|split; [|]].
  - rewrite Hx. f_equal. f_equal. by case_bool_decide.
  - done.
  - rewrite Hsz, wrap_small.
    + apply (bitmap_write_repr b s i w w' _ true Hr Hi Hw).
      * apply fits_bits. split; [apply Z.lor_nonneg; rewrite Z.shiftl_nonneg; unfold fits in Hf; lia|].
        intros j Hj. unfold w'. rewrite testbit_set by lia.
        rewrite (proj2 (proj1 (fits_bits w) Hf) j Hj). destruct (Z.eqb_spec j (bm_bit i)); [lia|done].
      * intros j Hj. unfold w'. rewrite testbit_set by lia.
        destruct (Z.eqb_spec j (bm_bit i)); [apply orb_true_r|apply orb_false_r].
      * intros j. rewrite elem_of_union, elem_of_singleton.
        destruct (decide (j = i)); [tauto|]. split; [by intros [?|?]|by right].
    + pose proof (br_cap _ _ Hr). assert (size ({[i]} ∪ s) <= bm_cap b); [|unfold fits in *; lia].
      apply size_below; [unfold fits in *; lia|].
      intros j [->%elem_of_singleton|Hj]%elem_of_union; [lia|by apply (br_range _ _ Hr)].
Qed.

Lemma bitmap_clear_ok b s i :
  bitmap_repr b s -> 0 <= i < bm_cap b ->
  exists b', bitmap_clear i b = Ok (bool_decide (i ∈ s), b') /\ bm_cap b' = bm_cap b /\
    bitmap_repr b' (s ∖ {[i]}).
Proof.
  intros Hr Hi. destruct (br_word b s i Hr Hi) as (w & Hw & Hf & Hb & Hin).
  unfold bitmap_clear. rewrite Hw. cbn [expect mbind res_bind].
  set (w' := Z.land w (wrap64 (Z.lnot (Z.shiftl 1 (bm_bit i))))).
  assert (Hx : Z.shiftr (Z.lxor w w') (bm_bit i) = Z.b2z (bool_decide (i ∈ s))).
  { apply lxor_one_bit; [lia|]. intros j Hj. unfold w'. rewrite testbit_clear by (done || lia).
    destruct (Z.eqb_spec j (bm_bit i)) as [->|]; [|rewrite andb_true_r, andb_false_r; apply xorb_nilpotent].
    rewrite andb_false_r, xorb_false_r, andb_true_r. apply eq_true_iff_eq. by rewrite bool_decide_eq_true. }
  assert (Hsz : bm_len b - Z.b2z (bool_decide (i ∈ s)) = size (s ∖ {[i]})).
  { rewrite (br_len _ _ Hr). case_bool_decide as Hn; simpl.
    - rewrite size_difference, size_singleton by set_solver.
      assert (size s <> 0)%nat by (intros E%size_empty_inv; set_solver). lia.
    - replace (s ∖ {[i]}) with s by set_solver. lia. }
  eexists. split; [|split; [|]].
  - rewrite Hx. f_equal. f_equal. by case_bool_decide.
  - done.
  - rewrite Hsz, wrap_small.
    + apply (bitmap_write_repr b s i w w' _ false Hr Hi Hw).
      * apply fits_bits. split; [apply Z.land_nonneg; unfold fits in Hf; lia|].
        intros j Hj. unfold w'. rewrite testbit_clear by (done || lia).
        by rewrite (proj2 (proj1 (fits_bits w) Hf) j Hj).
      * intros j Hj. unfold w'. rewrite testbit_clear by (done || lia).
        destruct (Z.eqb_spec j (bm_bit i)); [apply andb_false_r|apply andb_true_r].
      * intros j. rewrite elem_of_difference, elem_of_singleton.
        destruct (decide (j = i)); [|tauto]. split; [by intros [_ ?]|done].
    + pose proof (br_cap _ _ Hr). assert (size (s ∖ {[i]}) <= bm_cap b); [|unfold fits in *; lia].
      apply size_below; [unfold fits in *; lia|].
      intros j [Hj _]%elem_of_difference. by apply (br_range _ _ Hr).
Qed.

Lemma bitmap_free_ok b s : bitmap_repr b s -> bitmap_free b = Ok (bm_cap b - size s).
Proof.
  intros Hr. unfold bitmap_free. rewrite (br_len _ _ Hr).
  by rewrite (proj2 (Z.leb_le _ _) (br_size _ _ Hr)).
Qed.

(** A bitmap is full when every index is set. *)
Lemma bitmap_full_iff b s :
  bitmap_repr b s -> bitmap_is_full b = true <-> forall i, 0 <= i < bm_cap b -> i ∈ s.
Proof.
  intros Hr. unfold bitmap_is_full. rewrite Z.eqb_eq, (br_len _ _ Hr). split.
  - intros Hsz. set (all := list_to_set (seqZ 0 (bm_cap b)) : gset Z).
    assert (Hsub : s ⊆ all).
    { intros i Hi. apply elem_of_list_to_set, elem_of_seqZ. pose proof (br_range _ _ Hr i Hi). lia. }
    assert (Hall : size all = Z.to_nat (bm_cap b)).
    { unfold all. rewrite size_list_to_set by apply NoDup_seqZ. by rewrite length_seqZ. }
    intros i Hi. assert (E : s ≡ all) by (apply set_subseteq_size_equiv; [done|lia]).
    apply E, elem_of_list_to_set, elem_of_seqZ. lia.
  - intros Hall. pose proof (br_size _ _ Hr).
    assert (Hsub : (list_to_set (seqZ 0 (bm_cap b)) : gset Z) ⊆ s).
    { intros i Hi%elem_of_list_to_set%elem_of_seqZ. apply Hall. lia. }
    apply subseteq_size in Hsub. rewrite size_list_to_set in Hsub by apply NoDup_seqZ.
    rewrite length_seqZ in Hsub. pose proof (br_cap _ _ Hr). unfold fits in *. lia.
Qed.

(** ** Iteration *)

(** The lowest bit of a word, and the word without it. *)
Lemma ctz_pos_spec p :
  0 <= ctz_pos p /\ Z.testbit (Zpos p) (ctz_pos p) = true /\
  (forall j, 0 <= j < ctz_pos p -> Z.testbit (Zpos p) j = false) /\
  forall j, 0 <= j -> Z.testbit (Z.land (Zpos p) (Zpos p - 1)) j = Z.testbit (Zpos p) j && negb (j =? ctz_pos p).
Proof.
  induction p as [p IH|p IH|]; cbn [ctz_pos].
  - split_and!; [lia|done|lia|]. intros j Hj. rewrite Z.land_spec.
    replace (Zpos p~1) with (2 * Zpos p + 1) by lia. replace (2 * Zpos p + 1 - 1) with (2 * Zpos p) by lia.
    destruct (Z.eqb_spec j 0) as [->|Hne]; [by rewrite Z.testbit_even_0, !andb_false_r|].
    replace j with (Z.succ (j - 1)) by lia. rewrite Z.testbit_odd_succ, Z.testbit_even_succ by lia.
    by rewrite andb_true_r, andb_diag.
  - destruct IH as (H1 & H2 & H3 & H4). split_and!; [lia| | |].
    + replace (Zpos p~0) with (2 * Zpos p) by lia. replace (1 + ctz_pos p) with (Z.succ (ctz_pos p)) by lia.
      by rewrite Z.testbit_even_succ.
    + intros j Hj. replace (Zpos p~0) with (2 * Zpos p) by lia.
      destruct (decide (j = 0)) as [->|]; [apply Z.testbit_even_0|].
      replace j with (Z.succ (j - 1)) by lia. rewrite Z.testbit_even_succ by lia. apply H3. lia.
    + intros j Hj. rewrite Z.land_spec. replace (Zpos p~0) with (2 * Zpos p) by lia.
      replace (2 * Zpos p - 1) with (2 * (Zpos p - 1) + 1) by lia.
      destruct (decide (j = 0)) as [->|Hne]; [by rewrite Z.testbit_even_0|].
      replace j with (Z.succ (j - 1)) by lia.
      rewrite Z.testbit_even_succ, Z.testbit_odd_succ, <- Z.land_spec, H4 by lia. f_equal. f_equal.
      destruct (Z.eqb_spec (j - 1) (ctz_pos p)), (Z.eqb_spec (Z.succ (j - 1)) (1 + ctz_pos p)); lia || done.
  - split_and!; [lia|done|lia|]. intros j Hj. rewrite Z.land_spec. change (1 - 1) with 0.
    rewrite Z.testbit_0_l, andb_false_r. destruct (Z.eqb_spec j 0) as [->|]; [done|].
    rewrite (Z.bits_above_log2 1); simpl; [done|lia|lia].
Qed.

(** The indices of the bits of word [k], ascending. *)
Definition word_list (k : nat) (w : Z) : list Z :=
  (λ j, 64 * k + j) <$> base.filter (λ j, Z.testbit w j = true) (seqZ 0 64).

Lemma word_list_zero k : word_list k 0 = [].
Proof. done. Qed.

Lemma word_list_lowest k w :
  fits 64 w -> w <> 0 ->
  word_list k w = 64 * k + trailing_zeros w :: word_list k (Z.land w (w - 1)) /\
  fits 64 (Z.land w (w - 1)) /\ 0 <= trailing_zeros w < 64.
Proof.
  intros Hf Hn. pose proof (proj2 (proj1 (fits_bits w) Hf)) as Hhi.
  destruct w as [|p|p]; [done| |unfold fits in Hf; lia]. cbn [trailing_zeros].
  destruct (ctz_pos_spec p) as (H1 & H2 & H3 & H4).
  assert (Ht : ctz_pos p < 64).
  { destruct (decide (ctz_pos p < 64)); [done|]. rewrite Hhi in H2 by lia. done. }
  split; [|split; [|lia]].
  - unfold word_list. rewrite <- fmap_cons with (f := λ j, 64 * k + j). f_equal.
    replace 64 with (ctz_pos p + (1 + (63 - ctz_pos p))) by lia.
    rewrite !seqZ_app, !filter_app by lia. change (seqZ (0 + ctz_pos p) 1) with [0 + ctz_pos p].
    rewrite Z.add_0_l.
    assert (Hlow : forall w', (forall j, 0 <= j < ctz_pos p -> Z.testbit w' j = false) ->
      base.filter (λ j, Z.testbit w' j = true) (seqZ 0 (ctz_pos p)) = []).
    { intros w' Hw'. apply filter_none, Forall_forall. intros j Hj%elem_of_seqZ.
      rewrite Hw' by lia. congruence. }
    rewrite !Hlow; [|intros j Hj; by rewrite H4, H3 by lia|done].
    rewrite filter_cons_True by done.
    rewrite filter_cons_False by (by rewrite H4, Z.eqb_refl, andb_false_r by lia).
    rewrite !filter_nil. simpl. f_equal. apply filter_ext_on, Forall_forall.
    intros j Hj%elem_of_seqZ. rewrite H4 by lia.
    destruct (Z.eqb_spec j (ctz_pos p)); [lia|]. by rewrite andb_true_r.
  - apply fits_bits. split; [apply Z.land_nonneg; lia|]. intros j Hj. by rewrite H4, Hhi by lia.
Qed.

Definition words_list (k : nat) (ws : list Z) : list Z := concat (imap (λ j w, word_list (k + j) w) ws).

Lemma words_list_cons k w ws : words_list k (w :: ws) = word_list k w ++ words_list (S k) ws.
Proof.
  unfold words_list. simpl. rewrite Nat.add_0_r. do 2 f_equal. apply imap_ext.
  intros j x _. simpl. f_equal. lia.
Qed.

(** The indices an iterator has still to yield. *)
Definition iter_left (it : FixedBitmapIter) : list Z :=
  word_list (bi_key it) (bi_value it) ++ words_list (S (bi_key it)) (drop (S (bi_key it)) (bm_bits (bi_bitmap it))).

Definition bitmap_iter_ok (b : FixedBitmap) (it : FixedBitmapIter) : Prop :=
  bi_bitmap it = b /\ fits 64 (bi_value it) /\ (bi_value it = 0 \/ (bi_key it < length (bm_bits b))%nat).

Lemma bitmap_next_loop_ok b s fuel it :
  bitmap_repr b s -> bm_cap b <= 2 ^ 32 - 64 ->
  bitmap_iter_ok b it -> (length (bm_bits b) < fuel + bi_key it)%nat -> (0 < fuel)%nat ->
  exists it', bitmap_next_loop fuel it = Ok (head (iter_left it), it') /\
    bitmap_iter_ok b it' /\ iter_left it' = tail (iter_left it).
Proof.
  intros Hr Hcap. revert it. induction fuel as [|fuel IH]; intros it (Hb & Hf & Hk) Hfuel H0; [lia|].
  cbn [bitmap_next_loop]. destruct (Z.eqb_spec (bi_value it) 0) as [Ev|Ev].
  - rewrite Hb. destruct (bm_bits b !! S (bi_key it)) as [w|] eqn:Ew.
    + pose proof (lookup_lt_Some _ _ _ Ew) as Hlt.
      destruct (IH (mkBitmapIter b (S (bi_key it)) w)) as (it' & Hn & Hok & Hl).
      * split; [done|split; [apply (Forall_lookup_1 _ _ _ _ (br_fits _ _ Hr) Ew)|by right]].
      * simpl. lia.
      * lia.
      * exists it'. assert (E : iter_left it = iter_left (mkBitmapIter b (S (bi_key it)) w)).
        { unfold iter_left. rewrite Ev, word_list_zero, Hb. simpl bi_key. simpl bi_value. simpl bi_bitmap.
          by rewrite (drop_S _ _ _ Ew), words_list_cons. }
        by rewrite E.
    + eexists. split; [|split].
      * f_equal. f_equal. unfold iter_left. rewrite Ev, word_list_zero, Hb.
        by rewrite drop_ge by (by apply lookup_ge_None).
      * split; [done|split; [apply Hf|by left]].
      * apply lookup_ge_None in Ew. unfold iter_left. cbn [bi_key bi_value bi_bitmap].
        rewrite Ev, !word_list_zero, Hb, !drop_ge by lia. done.
  - destruct Hk as [|Hk]; [done|].
    destruct (word_list_lowest (bi_key it) (bi_value it) Hf Ev) as (Hw & Hf' & Ht).
    eexists. split; [|split].
    + unfold iter_left. rewrite Hw. simpl. do 3 f_equal. apply wrap_small.
      pose proof (br_words _ _ Hr). unfold fits. lia.
    + split; [done|split; [apply Hf'|by right]].
    + unfold iter_left. cbn [bi_key bi_value bi_bitmap]. by rewrite Hw.
Qed.

(** The words of a bitmap list its set in ascending order. *)
Lemma words_list_set b s :
  bitmap_repr b s -> words_list 0 (bm_bits b) = base.filter (.∈ s) (seqZ 0 (64 * length (bm_bits b))).
Proof.
  intros Hr.
  assert (Hgen : forall ws k, (forall j w, ws !! j = Some w -> bm_bits b !! (k + j)%nat = Some w) ->
    words_list k ws = base.filter (.∈ s) (seqZ (64 * k) (64 * length ws))).
  { induction ws as [|w ws IH]; intros k Hws; [done|].
    rewrite words_list_cons. replace (64 * length (w :: ws)) with (64 + 64 * length ws) by (simpl length; lia).
    rewrite seqZ_app, filter_app by lia. f_equal.
    - unfold word_list. pose proof (Hws 0%nat w eq_refl) as Hw. rewrite Nat.add_0_r in Hw.
      pose proof (fmap_add_seqZ (64 * k) 0 64) as E. rewrite Z.add_0_r in E. rewrite <- E.
      rewrite filter_fmap. f_equal. apply filter_ext_on, Forall_forall.
      intros j Hj%elem_of_seqZ. rewrite <- (br_bits _ _ Hr) by lia. unfold bit_at, bm_key, bm_bit.
      replace (Z.to_nat ((64 * k + j) / 64)) with k by div_lia.
      replace ((64 * k + j) mod 64) with j by div_lia. by rewrite Hw.
    - rewrite IH; [do 2 f_equal; lia|]. intros j w' Hj. replace (S k + j)%nat with (k + S j)%nat by lia. by apply Hws. }
  rewrite (Hgen _ 0%nat); [done|]. done.
Qed.

Lemma bitmap_drain b s it (fuel : nat) :
  bitmap_repr b s -> bm_cap b <= 2 ^ 32 - 64 -> bitmap_iter_ok b it ->
  (length (iter_left it) < fuel)%nat -> exists it', drain fuel it = Ok (iter_left it, it').
Proof.
  intros Hr Hc. revert it. induction fuel as [|fuel IH]; intros it Hok Hf; [lia|].
  destruct (bitmap_next_loop_ok b s (S (length (bm_bits b))) it Hr Hc Hok) as (it' & Hn & Hok' & Hl); [lia|lia|].
  assert (Hnx : next it = Ok (head (iter_left it), it')).
  { unfold next, bitmap_iterator, bitmap_next. by rewrite (proj1 Hok). }
  cbn [drain]. rewrite Hnx. cbn [mbind res_bind].
  destruct (iter_left it) as [|x l]; cbn [head tail] in *; [by exists it'|].
  destruct (IH it' Hok') as (it2 & Hd); [rewrite Hl; simpl in Hf; lia|].
  exists it2. by rewrite Hd, Hl.
Qed.

(** ** Sequences of operations *)

Inductive BitmapOp := BmSet (i : Z) | BmClear (i : Z) | BmTest (i : Z).
Definition op_index (op : BitmapOp) : Z := match op with BmSet i | BmClear i | BmTest i => i end.

Definition run_op_bitmap (op : BitmapOp) (b : FixedBitmap) : res (bool * FixedBitmap) :=
  match op with
  | BmSet i => bitmap_set i b
  | BmClear i => bitmap_clear i b
  | BmTest i => r ← bitmap_test i b; Ok (r, b)
  end.
(** The same operation on a set. *)
Definition run_op_set (op : BitmapOp) (s : gset Z) : bool * gset Z :=
  match op with
  | BmSet i => (bool_decide (i ∉ s), {[i]} ∪ s)
  | BmClear i => (bool_decide (i ∈ s), s ∖ {[i]})
  | BmTest i => (bool_decide (i ∈ s), s)
  end.

Fixpoint run_bitmap (ops : list BitmapOp) (b : FixedBitmap) : res (list bool * FixedBitmap) :=
  match ops with
  | [] => Ok ([], b)
  | op :: ops => '(r, b) ← run_op_bitmap op b; '(rs, b) ← run_bitmap ops b; Ok (r :: rs, b)
  end.
Fixpoint run_set (ops : list BitmapOp) (s : gset Z) : list bool * gset Z :=
  match ops with
  | [] => ([], s)
  | op :: ops => let '(r, s) := run_op_set op s in let '(rs, s) := run_set ops s in (r :: rs, s)
  end.

Lemma run_op_ok op b s :
  bitmap_repr b s -> 0 <= op_index op < bm_cap b ->
  exists b', run_op_bitmap op b = Ok ((run_op_set op s).1, b') /\ bm_cap b' = bm_cap b /\
    bitmap_repr b' (run_op_set op s).2.
Proof.
  intros Hr Hi. destruct op as [i|i|i]; cbn [run_op_bitmap run_op_set op_index fst snd] in *.
  - by apply bitmap_set_ok.
  - by apply bitmap_clear_ok.
  - rewrite (bitmap_test_ok b s i) by done. by exists b.
Qed.

Lemma run_bitmap_ok ops b s :
  bitmap_repr b s -> Forall (λ op, 0 <= op_index op < bm_cap b) ops ->
  exists b', run_bitmap ops b = Ok ((run_set ops s).1, b') /\ bm_cap b' = bm_cap b /\
    bitmap_repr b' (run_set ops s).2.
Proof.
  revert b s. induction ops as [|op ops IH]; intros b s Hr Hops; [by exists b|].
  apply Forall_cons in Hops as [Hi Hops].
  destruct (run_op_ok op b s Hr Hi) as (b1 & H1 & Hc1 & Hr1).
  cbn [run_bitmap run_set]. rewrite H1. cbn [mbind res_bind].
  destruct (run_op_set op s) as [r s1]. cbn [fst snd] in *.
  destruct (IH b1 s1 Hr1) as (b2 & H2 & Hc2 & Hr2); [by rewrite Hc1|].
  rewrite H2. cbn [mbind res_bind]. destruct (run_set ops s1) as [rs s2].
  exists b2. split_and!; [done|congruence|done].
Qed.

(** The bitmap is a finite set: a sequence of [set], [clear] and [test] with
    indices below the capacity, on a new bitmap, gives the answers of the same
    sequence on a set of indices; afterwards the length is the number of elements,
    the free count is the rest of the capacity, the bitmap is full exactly when every
    index is set, and iterating yields the elements in ascending order. *)
Theorem bitmap_refines_set (cap : Z) (ops : list BitmapOp) :
  0 < cap <= 2 ^ 32 - 64 -> Forall (λ op, 0 <= op_index op < cap) ops ->
  let s := (run_set ops ∅).2 in
  exists b it it', run_bitmap ops (bitmap_new cap) = Ok ((run_set ops ∅).1, b) /\
    bm_len b = size s /\ bitmap_free b = Ok (cap - size s) /\
    (bitmap_is_full b = true <-> forall i, 0 <= i < cap -> i ∈ s) /\
    bitmap_iter b = Ok it /\
    drain (S (Z.to_nat cap)) it = Ok (base.filter (.∈ s) (seqZ 0 cap), it').
Proof.
  intros Hc Hops s.
  destruct (run_bitmap_ok ops (bitmap_new cap) ∅) as (b & Hrun & Hcap & Hr); [|done|].
  { apply bitmap_new_repr. unfold fits. lia. }
  change (bm_cap (bitmap_new cap)) with cap in Hcap. fold s in Hr.
  pose proof (br_words _ _ Hr) as Hw. rewrite Hcap in Hw.
  destruct (lookup_lt_is_Some_2 (bm_bits b) 0) as [w Hw0]; [lia|].
  set (it := mkBitmapIter b 0 w).
  assert (Hleft : iter_left it = base.filter (.∈ s) (seqZ 0 cap)).
  { assert (E : iter_left it = words_list 0 (bm_bits b)).
    { unfold iter_left, it. cbn [bi_key bi_value bi_bitmap]. rewrite <- (drop_0 (bm_bits b)) at 2.
      by rewrite (drop_S _ _ _ Hw0), words_list_cons. }
    rewrite E, (words_list_set b s Hr).
    replace (64 * length (bm_bits b)) with (cap + (64 * length (bm_bits b) - cap)) by lia.
    rewrite seqZ_app, filter_app by lia. rewrite (filter_none _ (seqZ (0 + cap) _)); [by rewrite app_nil_r|].
    apply Forall_forall. intros i Hi%elem_of_seqZ Hin. pose proof (br_range _ _ Hr i Hin). lia. }
  destruct (bitmap_drain b s it (S (Z.to_nat cap)) Hr) as (it' & Hd).
  - lia.
  - split; [done|]. split; [|right; simpl; lia].
    exact (Forall_lookup_1 _ _ _ _ (br_fits _ _ Hr) Hw0).
  - rewrite Hleft. pose proof (length_filter (.∈ s) (seqZ 0 cap)) as Hle. rewrite length_seqZ in Hle. lia.
  - exists b, it, it'. split; [done|]. split; [apply Hr|]. rewrite <- Hcap.
    split; [by apply bitmap_free_ok|]. split; [by apply bitmap_full_iff|].
    rewrite Hcap. split; [unfold bitmap_iter; by rewrite Hw0|]. by rewrite Hd, Hleft.
Qed.

Lemma bitmap_refines_set_witness :
  let ops := [BmSet 3; BmSet 70; BmSet 3; BmTest 70; BmClear 3; BmSet 0] in
  exists b it it', run_bitmap ops (bitmap_new 100) = Ok ((run_set ops ∅).1, b) /\
    bm_len b = size (run_set ops ∅).2 /\ bitmap_free b = Ok (100 - size (run_set ops ∅).2) /\
    (bitmap_is_full b = true <-> forall i, 0 <= i < 100 -> i ∈ (run_set ops ∅).2) /\
    bitmap_iter b = Ok it /\
    drain 101 it = Ok (base.filter (.∈ (run_set ops ∅).2) (seqZ 0 100), it').
Proof.
  apply (bitmap_refines_set 100); [lia|]. repeat constructor; simpl; lia.
Defined.
