(* ===== verification/BTree.v ===== *)
(** * Ordered maps

    [BTreeMap<u64, V>] and [BTreeSet<u64>] of the standard library, which the page
    files are written from: the entries in ascending order of their keys. *)

From stdpp Require Import base numbers list sorting gmap.
From Stdlib Require Import ZArith Lia.
From S2P Require Import Prelude Iter.

Fixpoint btree_insert {V} (k : Z) (v : V) (m : list (Z * V)) : list (Z * V) :=
  match m with
  | [] => [(k, v)]
  | (k', v') :: m' =>
      match Z.compare k k' with
      | Lt => (k, v) :: m
      | Eq => (k, v) :: m'
      | Gt => (k', v') :: btree_insert k v m'
      end
  end.

Fixpoint btree_get {V} (k : Z) (m : list (Z * V)) : option V :=
  match m with
  | [] => None
  | (k', v) :: m => if k =? k' then Some v else btree_get k m
  end.

(** [BTreeSet::extend]. *)
Definition bset_insert (k : Z) (s : list Z) : list Z := (btree_insert k tt ((λ x, (x, tt)) <$> s)).*1.
Definition bset_extend (ks s : list Z) : list Z := foldl (λ s k, bset_insert k s) s ks.

Section btree.
Context {V : Type}.
Implicit Types m : list (Z * V).

Lemma btree_insert_keys k v m x : x ∈ (btree_insert k v m).*1 <-> x = k \/ x ∈ m.*1.
Proof.
  induction m as [|[k' v'] m IH]; simpl; [set_solver|].
  destruct (Z.compare_spec k k') as [->|Hlt|Hgt]; simpl; rewrite ?elem_of_cons; [set_solver|set_solver|].
  rewrite IH. set_solver.
Qed.

Lemma key_strict_cons k v m :
  key_strict ((k, v) :: m) <-> key_strict m /\ forall x, x ∈ m.*1 -> k < x.
Proof.
  unfold key_strict. split.
  - intros [Hs Hf]%StronglySorted_inv. split; [done|]. intros x (y & -> & Hy)%list_elem_of_fmap.
    rewrite Forall_forall in Hf. by apply (Hf y).
  - intros [Hs Hf]. constructor; [done|]. apply Forall_forall. intros y Hy.
    apply (Hf y.1). by apply list_elem_of_fmap_2.
Qed.

Lemma key_strict_keys m : key_strict m <-> StronglySorted Z.lt m.*1.
Proof.
  induction m as [|[k v] m IH]; [split; constructor|]. rewrite key_strict_cons, IH, fmap_cons. split.
  - intros [Hs Hf]. constructor; [done|]. by apply Forall_forall.
  - intros [Hs Hf]%StronglySorted_inv. split; [done|]. by apply Forall_forall.
Qed.

Lemma btree_insert_strict k v m : key_strict m -> key_strict (btree_insert k v m).
Proof.
  induction m as [|[k' v'] m IH]; intros Hs; simpl.
  - apply key_strict_cons. split; [constructor|]. set_solver.
  - apply key_strict_cons in Hs as [Hs Hf].
    destruct (Z.compare_spec k k') as [->|Hlt|Hgt]; apply key_strict_cons; [done| |].
    + split; [by apply key_strict_cons|]. intros x [->|Hx]%elem_of_cons; [done|].
      specialize (Hf x Hx). lia.
    + split; [by apply IH|]. intros x [->|Hx]%btree_insert_keys; [done|by apply Hf].
Qed.

Lemma btree_get_insert k v m x :
  key_strict m -> btree_get x (btree_insert k v m) = if x =? k then Some v else btree_get x m.
Proof.
  induction m as [|[k' v'] m IH]; intros Hs; simpl; [done|].
  apply key_strict_cons in Hs as [Hs Hf].
  destruct (Z.compare_spec k k') as [->|Hlt|Hgt]; simpl; [by destruct (x =? k')|done|].
  rewrite IH by done. destruct (Z.eqb_spec x k'), (Z.eqb_spec x k); try done. lia.
Qed.

(** Inserting past the greatest key appends. *)
Lemma btree_insert_end k v m : (forall x, x ∈ m.*1 -> x < k) -> btree_insert k v m = m ++ [(k, v)].
Proof.
  induction m as [|[k' v'] m IH]; intros Hm; simpl; [done|].
  rewrite (proj2 (Z.compare_gt_iff k k')) by (apply Hm; set_solver).
  rewrite IH; [done|]. intros x Hx. apply Hm. set_solver.
Qed.

Lemma btree_get_elem k v m : key_strict m -> btree_get k m = Some v <-> (k, v) ∈ m.
Proof.
  induction m as [|[k' v'] m IH]; intros Hs; simpl; [set_solver|].
  apply key_strict_cons in Hs as [Hs Hf]. rewrite elem_of_cons.
  destruct (Z.eqb_spec k k') as [->|Hne].
  - split; [intros [= ->]; by left|]. intros [[= ->]|Hin]; [done|].
    apply (list_elem_of_fmap_2 fst) in Hin. specialize (Hf _ Hin). simpl in Hf. lia.
  - rewrite IH by done. naive_solver.
Qed.

Lemma btree_get_below k m : (forall x, x ∈ m.*1 -> k < x) -> btree_get k m = None.
Proof.
  induction m as [|[a b] m IH]; intros Hf; [done|]. simpl.
  pose proof (Hf a ltac:(set_solver)). rewrite (proj2 (Z.eqb_neq k a)) by lia.
  apply IH. set_solver.
Qed.

(** Strictly ascending lists with the same lookups are equal. *)
Lemma btree_ext m1 m2 :
  key_strict m1 -> key_strict m2 -> (forall k, btree_get k m1 = btree_get k m2) -> m1 = m2.
Proof.
  revert m2. induction m1 as [|[k v] m1 IH]; intros [|[k' v'] m2] H1 H2 Hg; [done| | |].
  - specialize (Hg k'). simpl in Hg. by rewrite Z.eqb_refl in Hg.
  - specialize (Hg k). simpl in Hg. by rewrite Z.eqb_refl in Hg.
  - assert (Hin1 : (k, v) ∈ (k', v') :: m2) by (apply btree_get_elem; [done|rewrite <- Hg; simpl; by rewrite Z.eqb_refl]).
    assert (Hin2 : (k', v') ∈ (k, v) :: m1) by (apply btree_get_elem; [done|rewrite Hg; simpl; by rewrite Z.eqb_refl]).
    pose proof H1 as H1'. pose proof H2 as H2'.
    apply key_strict_cons in H1' as [Hs1 Hf1]. apply key_strict_cons in H2' as [Hs2 Hf2].
    apply elem_of_cons in Hin1 as [[= -> ->]|Hin1].
    + f_equal. apply IH; [done|done|]. intros x. specialize (Hg x). simpl in Hg.
      destruct (decide (x = k')) as [E|E]; [|by rewrite (proj2 (Z.eqb_neq x k') E) in Hg].
      by rewrite !(btree_get_below x) by (rewrite E; done).
    + apply elem_of_cons in Hin2 as [[= -> ->]|Hin2]; [|].
      * apply (list_elem_of_fmap_2 fst) in Hin1. specialize (Hf2 _ Hin1). simpl in Hf2. lia.
      * apply (list_elem_of_fmap_2 fst) in Hin1, Hin2. specialize (Hf1 _ Hin2). specialize (Hf2 _ Hin1).
        simpl in *. lia.
Qed.

(** Inserting strictly ascending entries one after the other keeps them all. *)
Lemma btree_insert_all (l m : list (Z * V)) :
  key_strict (m ++ l) -> foldl (λ m e, btree_insert e.1 e.2 m) m l = m ++ l.
Proof.
  revert m. induction l as [|[k v] l IH]; intros m Hs; simpl; [by rewrite app_nil_r|].
  rewrite btree_insert_end.
  - rewrite IH; rewrite <- app_assoc; done.
  - intros x (y & -> & Hy)%list_elem_of_fmap.
    apply StronglySorted_app in Hs as (Hlt & _ & _).
    apply (Hlt y (k, v)); [done|set_solver].
Qed.
End btree.

Lemma bset_insert_elem k s x : x ∈ bset_insert k s <-> x = k \/ x ∈ s.
Proof.
  unfold bset_insert. rewrite btree_insert_keys, <- list_fmap_compose.
  by rewrite (list_fmap_ext _ id) by done; rewrite list_fmap_id.
Qed.
Lemma bset_extend_elem ks s x : x ∈ bset_extend ks s <-> x ∈ ks \/ x ∈ s.
Proof.
  revert s. induction ks as [|k ks IH]; intros s; [set_solver|].
  change (bset_extend (k :: ks) s) with (bset_extend ks (bset_insert k s)).
  rewrite IH, bset_insert_elem. set_solver.
Qed.
