(* ===== verification/PageGroup.v ===== *)
(** * Page groups and file metadata ([page_store/page_file/types.rs])

    The pages a write buffer leaves in a file are a page group: the immutable
    [PageGroupMeta] says where each page is, and the [PageGroup] of a version marks
    the pages that were deallocated since. Hash maps are [gmap]s and the ordered map
    the metadata is built from is the list of its entries. [pg_repr] relates a page
    group to the finite map of its active pages. *)

From stdpp Require Import base numbers list sorting gmap.
From Stdlib Require Import ZArith Lia.
From S2P Require Import Prelude BasePage Iter Bitmap BTree.

(** [BlockHandle] of [file_builder.rs]. *)
Record BlockHandle := mkBlockHandle { bh_offset : Z; bh_length : Z }.

Record PageHandle := mkPageHandle { ph_offset : Z; ph_size : Z }.

Record PageMeta := mkPageMeta { pm_index : Z; pm_info : PageInfo; pm_handle : PageHandle }.

Record PageGroupMeta := mkPageGroupMeta {
  pgm_group_id : Z;
  pgm_file_id : Z;
  pgm_base_offset : Z;
  pgm_page_table_offset : Z;
  pgm_meta_block_end : Z;
  pgm_page_meta_map : gmap Z PageMeta;
}.

Record PageGroup := mkPageGroup {
  pg_dealloc_pages : FixedBitmap;
  pg_active_size : Z;
  pg_meta : PageGroupMeta;
}.

(** Checksum types and compressions are the bits of their flags. *)
Record FileMeta := mkFileMeta {
  fm_file_id : Z;
  fm_file_size : Z;
  fm_block_size : Z;
  fm_checksum_type : Z;
  fm_compression : Z;
  fm_referenced_groups : gset Z;
  fm_page_groups : gmap Z PageGroupMeta;
}.

Record FileInfo := mkFileInfo { fi_up1 : Z; fi_up2 : Z; fi_meta : FileMeta }.

#[global] Instance page_handle_eq_dec : EqDecision PageHandle.
Proof. solve_decision. Defined.
#[global] Instance page_meta_eq_dec : EqDecision PageMeta.
Proof. solve_decision. Defined.
#[global] Instance page_group_meta_eq_dec : EqDecision PageGroupMeta.
Proof. solve_decision. Defined.
#[global] Instance bitmap_eq_dec : EqDecision FixedBitmap.
Proof. solve_decision. Defined.
#[global] Instance page_group_eq_dec : EqDecision PageGroup.
Proof. solve_decision. Defined.
#[global] Instance file_meta_eq_dec : EqDecision FileMeta.
Proof. solve_decision. Defined.
#[global] Instance file_info_eq_dec : EqDecision FileInfo.
Proof. solve_decision. Defined.

Definition split_page_addr (page_addr : Z) : Z * Z := (wrap32 (Z.shiftr page_addr 32), wrap32 page_addr).

(** ** [PageGroupMeta] *)

(** One round of the loop of [build_page_meta_map]: the entry with no size yet, and
    the size of the entry before it. *)
Definition set_handle_size (addr end_offset : Z) (m : gmap Z PageMeta) : res (gmap Z PageMeta) :=
  meta ← expect (m !! addr);
  let offset := ph_offset (pm_handle meta) in
  if offset <=? end_offset then
    Ok (<[addr := mkPageMeta (pm_index meta) (pm_info meta) (mkPageHandle offset (end_offset - offset))]> m)
  else Panic.

Fixpoint build_page_meta_loop (data_offsets : list (Z * (Z * PageInfo))) (index : Z)
    (m : gmap Z PageMeta) (last_addr : option Z) : res (gmap Z PageMeta * option Z) :=
  match data_offsets with
  | [] => Ok (m, last_addr)
  | (addr, (offset, info)) :: rest =>
      let addr := wrap32 addr in
      let offset := wrap32 offset in
      let m := <[addr := mkPageMeta (wrap32 index) info (mkPageHandle offset 0)]> m in
      m ← match last_addr with
          | Some last_addr => set_handle_size last_addr offset m
          | None => Ok m
          end;
      build_page_meta_loop rest (index + 1) m (Some addr)
  end.

Definition build_page_meta_map (data_offsets : list (Z * (Z * PageInfo))) (meta_indexes : list Z) :
    res (gmap Z PageMeta) :=
  '(m, last_addr) ← build_page_meta_loop data_offsets 0 ∅ None;
  match last_addr with
  | Some last_addr =>
      page_table_offset ← expect (meta_indexes !! 0%nat);
      set_handle_size last_addr (wrap32 page_table_offset) m
  | None => Ok m
  end.

Definition page_group_meta_new (group_id file_id base_offset : Z) (meta_indexes : list Z)
    (data_offsets : list (Z * (Z * PageInfo))) : res PageGroupMeta :=
  page_table_offset ← expect (meta_indexes !! 0%nat);
  meta_block_end ← expect (meta_indexes !! 1%nat);
  m ← build_page_meta_map data_offsets meta_indexes;
  Ok (mkPageGroupMeta group_id file_id base_offset page_table_offset meta_block_end m).

Definition meta_page_handle (page_addr : Z) (m : PageGroupMeta) : option (Z * PageHandle) :=
  page_meta ← pgm_page_meta_map m !! wrap32 page_addr;
  Some (pm_index page_meta, pm_handle page_meta).
Definition meta_page_info (page_addr : Z) (m : PageGroupMeta) : option PageInfo :=
  page_meta ← pgm_page_meta_map m !! wrap32 page_addr;
  Some (pm_info page_meta).

Definition total_pages (m : PageGroupMeta) : nat := size (pgm_page_meta_map m).
Definition total_page_size (m : PageGroupMeta) : Z :=
  let size := sat_sub (pgm_page_table_offset m) (pgm_base_offset m) in
  if size =? 0 then 1 else size.
Definition get_page_table_meta_page (m : PageGroupMeta) : BlockHandle :=
  mkBlockHandle (pgm_page_table_offset m) (wrap64 (pgm_meta_block_end m - pgm_page_table_offset m)).

(** ** [PageGroup] *)

Definition page_group_new (meta : PageGroupMeta) : PageGroup :=
  mkPageGroup (bitmap_new (wrap32 (size (pgm_page_meta_map meta)))) (total_page_size meta) meta.

Definition pg_is_empty (g : PageGroup) : bool := bitmap_is_full (pg_dealloc_pages g).

Definition deactivate_page (page_addr : Z) (g : PageGroup) : res (bool * PageGroup) :=
  match meta_page_handle page_addr (pg_meta g) with
  | None => Ok (false, g)
  | Some (index, handle) =>
      '(inserted, dealloc_pages) ← bitmap_set index (pg_dealloc_pages g);
      if inserted : bool then
        Ok (true, mkPageGroup dealloc_pages (wrap64 (pg_active_size g - ph_size handle)) (pg_meta g))
      else Ok (false, mkPageGroup dealloc_pages (pg_active_size g) (pg_meta g))
  end.

Definition get_page_handle (page_addr : Z) (g : PageGroup) : res (option PageHandle) :=
  match meta_page_handle page_addr (pg_meta g) with
  | None => Ok None
  | Some (index, handle) =>
      dead ← bitmap_test index (pg_dealloc_pages g);
      Ok (if dead : bool then None else Some handle)
  end.
Definition get_page_info (page_addr : Z) (g : PageGroup) : option PageInfo :=
  meta_page_info page_addr (pg_meta g).

Definition num_active_pages (g : PageGroup) : res Z := bitmap_free (pg_dealloc_pages g).
Definition effective_size (g : PageGroup) : Z := pg_active_size g.

(** ** [PageGroupIterator] *)

Record PageGroupIterator := mkPageGroupIterator {
  pgi_file_id : Z;
  pgi_index : nat;
  pgi_active_pages : list (Z * Z);
}.

(** The pages of the map whose bit is not set. *)
Fixpoint collect_active (b : FixedBitmap) (l : list (Z * PageMeta)) : res (list (Z * Z)) :=
  match l with
  | [] => Ok []
  | (addr, meta) :: l =>
      dead ← bitmap_test (pm_index meta) b;
      r ← collect_active b l;
      Ok (if dead : bool then r else (addr, pm_index meta) :: r)
  end.
Definition by_index (x y : Z * Z) : Prop := x.2 <= y.2.
#[global] Instance by_index_dec : RelDecision by_index := λ x y, Z_le_dec x.2 y.2.

Definition pg_iter (g : PageGroup) : res PageGroupIterator :=
  active_pages ← collect_active (pg_dealloc_pages g) (map_to_list (pgm_page_meta_map (pg_meta g)));
  Ok (mkPageGroupIterator (pgm_group_id (pg_meta g)) 0 (merge_sort by_index active_pages)).

#[global] Instance pg_iterator : Iterator PageGroupIterator Z := λ it,
  let it' := mkPageGroupIterator (pgi_file_id it) (S (pgi_index it)) (pgi_active_pages it) in
  match pgi_active_pages it !! pgi_index it with
  | Some (addr, _) => Ok (Some (Z.lor (Z.shiftl (pgi_file_id it) 32) addr), it')
  | None => Ok (None, it')
  end.

(** ** [FileInfo] *)

Definition on_update (now : Z) (f : FileInfo) : FileInfo :=
  if fi_up1 f <? now then mkFileInfo now (fi_up1 f) (fi_meta f) else f.

(** ** The map of the pages, in closed form *)

(** Where the entries of the list end. *)
Definition next_offset {A} (d : list (Z * (Z * A))) (end_offset : Z) : Z :=
  match d with (_, (o, _)) :: _ => o | [] => end_offset end.

Fixpoint meta_entries (i : Z) (d : list (Z * (Z * PageInfo))) (end_offset : Z) : list (Z * PageMeta) :=
  match d with
  | [] => []
  | (a, (o, info)) :: d =>
      (wrap32 a, mkPageMeta i info (mkPageHandle o (next_offset d end_offset - o))) :: meta_entries (i + 1) d end_offset
  end.

(** Offsets ascend up to the end and fit 32 bits. *)
Fixpoint offsets_ok {A} (d : list (Z * (Z * A))) (end_offset : Z) : Prop :=
  match d with
  | [] => True
  | (_, (o, _)) :: d => 0 <= o <= next_offset d end_offset /\ next_offset d end_offset < 2 ^ 32 /\ offsets_ok d end_offset
  end.

Lemma meta_entries_keys d i e : (meta_entries i d e).*1 = wrap32 <$> d.*1.
Proof. revert i. induction d as [|[? [? ?]] d IH]; intros i; [done|]. simpl. by rewrite IH. Qed.

Lemma set_handle_size_ok (m : gmap Z PageMeta) a i info o size e :
  o <= e ->
  set_handle_size a e (<[a := mkPageMeta i info (mkPageHandle o size)]> m) =
    Ok (<[a := mkPageMeta i info (mkPageHandle o (e - o))]> m).
Proof.
  intros Ho. unfold set_handle_size. rewrite lookup_insert_eq. cbn [expect mbind res_bind pm_handle ph_offset].
  rewrite (proj2 (Z.leb_le _ _) Ho). by rewrite insert_insert_eq.
Qed.

Lemma build_meta_loop_ok (d : list (Z * (Z * PageInfo))) e i a info o (m : gmap Z PageMeta) :
  offsets_ok ((a, (o, info)) :: d) e -> NoDup (wrap32 <$> (a :: d.*1)) ->
  0 <= i -> i + length d < 2 ^ 32 -> (forall x, x ∈ wrap32 <$> (a :: d.*1) -> m !! x = None) ->
  exists m' last, build_page_meta_loop d (i + 1) (<[wrap32 a := mkPageMeta i info (mkPageHandle o 0)]> m) (Some (wrap32 a))
      = Ok (m', Some last) /\
    set_handle_size last e m' = Ok (list_to_map (meta_entries i ((a, (o, info)) :: d) e) ∪ m).
Proof.
  revert i a info o m. induction d as [|[a' [o' info']] d IH]; intros i a info o m Ho Hn Hi Hlen Hm.
  - destruct Ho as [Ho _]. eexists _, _. split; [done|]. rewrite set_handle_size_ok by (simpl in Ho; lia).
    cbn [meta_entries list_to_map foldr next_offset]. cbn. by rewrite <- insert_union_l, (left_id_L ∅ _).
  - destruct Ho as (Ho & Ho32 & Ho'). cbn [next_offset] in Ho, Ho32.
    rewrite fmap_cons in Hn. apply NoDup_cons in Hn as [Hna Hn].
    assert (Hne : wrap32 a <> wrap32 a') by (intros E; apply Hna; rewrite E; simpl; set_solver).
    assert (Hf : fits 32 o') by (unfold fits; lia).
    cbn [build_page_meta_loop]. rewrite (wrap_small 32 o'), (wrap_small 32 (i + 1)) by (done || (unfold fits; simpl in Hlen; lia)).
    rewrite (insert_insert_ne m) by done. rewrite set_handle_size_ok by lia. cbn [mbind res_bind].
    rewrite (insert_insert_ne m) by done.
    destruct (IH (i + 1) a' info' o' (<[wrap32 a := mkPageMeta i info (mkPageHandle o (o' - o))]> m))
      as (m' & last & Hl & Hs); [exact Ho'|exact Hn|lia|simpl in Hlen; lia| |].
    { intros x Hx. rewrite lookup_insert_ne; [apply Hm; simpl in *; set_solver|].
      intros <-. apply Hna. exact Hx. }
    exists m', last. split; [exact Hl|]. rewrite Hs. f_equal.
    cbn [meta_entries list_to_map foldr next_offset]. cbn.
    rewrite <- !insert_union_l. rewrite <- insert_union_r.
    + by rewrite (insert_insert_ne _ (wrap32 a) (wrap32 a')) by done.
    + apply not_elem_of_list_to_map_1. intros Hin.
      apply Hna. simpl. right. by rewrite <- (meta_entries_keys _ (i + 1 + 1) e).
Qed.

Lemma build_page_meta_map_ok (d : list (Z * (Z * PageInfo))) e rest :
  offsets_ok d e -> NoDup (wrap32 <$> d.*1) -> length d < 2 ^ 32 -> fits 32 e ->
  build_page_meta_map d (e :: rest) = Ok (list_to_map (meta_entries 0 d e)).
Proof.
  intros Ho Hn Hlen He. unfold build_page_meta_map. destruct d as [|[a [o info]] d]; [done|].
  assert (Hf : fits 32 o) by (destruct Ho as (? & ? & _); unfold fits; lia).
  cbn [build_page_meta_loop]. rewrite (wrap_small 32 o), (wrap_small 32 0) by (done || (unfold fits; lia)). cbn [mbind res_bind].
  destruct (build_meta_loop_ok d e 0 a info o ∅ Ho Hn) as (m' & last & Hl & Hs); [lia|simpl in Hlen; lia|by intros; apply lookup_empty|].
  rewrite Hl. cbn [mbind res_bind lookup]. cbn. rewrite (wrap_small 32 e) by done. rewrite Hs.
  by rewrite (right_id_L ∅ _).
Qed.

(** ** A page group as the map of its active pages *)

(** Bytes of the pages of the map. *)
Definition handles_size (m : gmap Z PageHandle) : Z := map_fold (λ _ h n, ph_size h + n) 0 m.

Lemma handles_size_insert (m : gmap Z PageHandle) a h :
  m !! a = None -> handles_size (<[a := h]> m) = ph_size h + handles_size m.
Proof.
  intros Ha. unfold handles_size. rewrite map_fold_insert_L; [done| |done]. intros. lia.
Qed.
Lemma handles_size_delete (m : gmap Z PageHandle) a h :
  m !! a = Some h -> handles_size (delete a m) = handles_size m - ph_size h.
Proof.
  intros Ha. rewrite <- (insert_delete_id m a h Ha) at 2. rewrite handles_size_insert by apply lookup_delete_eq. lia.
Qed.
Lemma handles_size_nonneg (m : gmap Z PageHandle) : map_Forall (λ _ h, 0 <= ph_size h) m -> 0 <= handles_size m.
Proof.
  induction m as [|a h m Ha IH] using map_ind; intros Hm; [done|].
  rewrite handles_size_insert by done. apply map_Forall_insert in Hm as [Hh Hm]; [|done]. specialize (IH Hm). simpl in Hh. lia.
Qed.

Lemma handles_size_le (m1 m2 : gmap Z PageHandle) :
  m1 ⊆ m2 -> map_Forall (λ _ h, 0 <= ph_size h) m2 -> handles_size m1 <= handles_size m2.
Proof.
  revert m2. induction m1 as [|a h m1 Ha IH] using map_ind; intros m2 Hs Hm; [by apply handles_size_nonneg|].
  assert (H2 : m2 !! a = Some h) by (eapply lookup_weaken; [apply lookup_insert_eq|done]).
  rewrite handles_size_insert by done. rewrite <- (insert_delete_id m2 a h H2), handles_size_insert by apply lookup_delete_eq.
  assert (handles_size m1 <= handles_size (delete a m2)); [|lia].
  apply IH; [|by apply map_Forall_delete]. rewrite <- (delete_id m1 a Ha).
  apply delete_mono. etrans; [|exact Hs]. by apply insert_subseteq.
Qed.

Definition active_of (m : gmap Z PageMeta) (dead : gset Z) : gmap Z PageHandle :=
  pm_handle <$> base.filter (λ e, pm_index e.2 ∉ dead) m.

(** Each page of a meta has an index of its own below their number. *)
Record meta_ok (m : PageGroupMeta) : Prop := {
  mo_index : forall a pm, pgm_page_meta_map m !! a = Some pm -> 0 <= pm_index pm < total_pages m;
  mo_inj : forall a b x y, pgm_page_meta_map m !! a = Some x -> pgm_page_meta_map m !! b = Some y ->
    pm_index x = pm_index y -> a = b;
  mo_sizes : forall a pm, pgm_page_meta_map m !! a = Some pm -> 0 <= ph_size (pm_handle pm);
  mo_pages : total_pages m < 2 ^ 32;
  mo_total : handles_size (pm_handle <$> pgm_page_meta_map m) < 2 ^ 64;
}.

Lemma handles_fit m act : meta_ok m -> act ⊆ pm_handle <$> pgm_page_meta_map m -> fits 64 (handles_size act).
Proof.
  intros Hm Hs. assert (Hpos : map_Forall (λ _ h, 0 <= ph_size h) (pm_handle <$> pgm_page_meta_map m)).
  { apply map_Forall_fmap. intros a pm Ha. by eapply mo_sizes. }
  split.
  - apply handles_size_nonneg. intros a h Ha. apply (Hpos a h). by eapply lookup_weaken.
  - eapply Z.le_lt_trans; [by apply handles_size_le|apply Hm].
Qed.

Record pg_repr (g : PageGroup) (act : gmap Z PageHandle) (dead : gset Z) : Prop := {
  pr_meta : meta_ok (pg_meta g);
  pr_bitmap : bitmap_repr (pg_dealloc_pages g) dead;
  pr_cap : bm_cap (pg_dealloc_pages g) = total_pages (pg_meta g);
  pr_active : act = active_of (pgm_page_meta_map (pg_meta g)) dead;
  pr_size : total_pages (pg_meta g) <> 0%nat -> pg_active_size g = handles_size act;
}.

Lemma active_of_lookup m dead a :
  active_of m dead !! a = (pm ← m !! a; if decide (pm_index pm ∈ dead) then None else Some (pm_handle pm)).
Proof.
  unfold active_of. rewrite lookup_fmap, map_lookup_filter. destruct (m !! a) as [pm|]; [|done]. simpl.
  destruct (decide (pm_index pm ∈ dead)).
  - by rewrite option_guard_False by (simpl; tauto).
  - by rewrite option_guard_True.
Qed.

Lemma active_of_subseteq m dead : active_of m dead ⊆ pm_handle <$> m.
Proof. unfold active_of. apply map_fmap_mono, map_filter_subseteq. Qed.

Lemma active_of_kill m dead a pm :
  (forall b y, m !! b = Some y -> pm_index y = pm_index pm -> b = a) -> m !! a = Some pm ->
  active_of m ({[pm_index pm]} ∪ dead) = delete a (active_of m dead).
Proof.
  intros Hinj Ha. apply map_eq. intros b. rewrite lookup_delete. rewrite !active_of_lookup.
  case_decide as Eb.
  - subst b. rewrite Ha. simpl. by rewrite decide_True by set_solver.
  - destruct (m !! b) as [y|] eqn:Hb; [|done]. simpl.
    assert (pm_index y <> pm_index pm) by (intros E; apply Eb; symmetry; by eapply Hinj).
    destruct (decide (pm_index y ∈ dead)); [by rewrite decide_True by set_solver|].
    by rewrite decide_False by set_solver.
Qed.

(** Looking up a page. *)
Lemma get_page_handle_ok g act dead page_addr :
  pg_repr g act dead -> get_page_handle page_addr g = Ok (act !! wrap32 page_addr).
Proof.
  intros Hr. unfold get_page_handle, meta_page_handle. rewrite (pr_active _ _ _ Hr), active_of_lookup.
  destruct (pgm_page_meta_map (pg_meta g) !! wrap32 page_addr) as [pm|] eqn:Ha; [|done]. cbn.
  rewrite (bitmap_test_ok _ dead (pm_index pm) (pr_bitmap _ _ _ Hr)).
  - cbn. f_equal. by case_bool_decide; case_decide.
  - rewrite (pr_cap _ _ _ Hr). by eapply mo_index; [apply Hr|].
Qed.

(** Deactivating a page removes it from the map, and says whether it was there. *)
Lemma deactivate_page_ok g act dead page_addr :
  pg_repr g act dead ->
  exists g' dead', deactivate_page page_addr g = Ok (bool_decide (is_Some (act !! wrap32 page_addr)), g') /\
    pg_repr g' (delete (wrap32 page_addr) act) dead' /\ pg_meta g' = pg_meta g.
Proof.
  intros Hr. pose proof (pr_meta _ _ _ Hr) as Hm.
  unfold deactivate_page, meta_page_handle. pose proof (active_of_lookup (pgm_page_meta_map (pg_meta g)) dead (wrap32 page_addr)) as Hl.
  rewrite <- (pr_active _ _ _ Hr) in Hl.
  destruct (pgm_page_meta_map (pg_meta g) !! wrap32 page_addr) as [pm|] eqn:Ha; cbn [mbind option_bind] in *.
  2: { exists g, dead. rewrite Hl, bool_decide_false by (by intros [? ?]). by rewrite delete_id. }
  destruct (bitmap_set_ok _ dead (pm_index pm) (pr_bitmap _ _ _ Hr)) as (b' & Hset & Hcap & Hb').
  { rewrite (pr_cap _ _ _ Hr). by eapply mo_index. }
  rewrite Hset. cbn [mbind res_bind]. case_bool_decide as Hin.
  - rewrite decide_False in Hl by done. rewrite Hl, bool_decide_true by eauto.
    assert (Hnz : total_pages (pg_meta g) <> 0%nat).
    { unfold total_pages. intros E%map_size_empty_inv. by rewrite E, lookup_empty in Ha. }
    eexists _, _. split; [done|]. split; [|done]. constructor; cbn [pg_meta pg_dealloc_pages pg_active_size].
    + done.
    + exact Hb'.
    + rewrite Hcap. apply Hr.
    + rewrite (pr_active _ _ _ Hr). symmetry. apply active_of_kill; [|done].
      intros b y Hb E. by eapply mo_inj.
    + intros _. rewrite (pr_size _ _ _ Hr Hnz). rewrite <- (handles_size_delete act _ _ Hl).
      apply wrap_small, (handles_fit (pg_meta g) _ Hm). rewrite (pr_active _ _ _ Hr).
      etrans; [apply delete_subseteq|apply active_of_subseteq].
  - rewrite decide_True in Hl by done. rewrite Hl, bool_decide_false by (by intros [? ?]).
    eexists _, _. split; [done|]. split; [|done]. rewrite delete_id by done.
    replace ({[pm_index pm]} ∪ dead) with dead in Hb' by set_solver.
    constructor; cbn [pg_meta pg_dealloc_pages pg_active_size]; try apply Hr; [exact Hb'|]. rewrite Hcap. apply Hr.
Qed.

(** ** Counting and iterating the active pages *)

Definition indices (m : gmap Z PageMeta) : gset Z := list_to_set ((λ e, pm_index e.2) <$> map_to_list m).

Lemma elem_of_indices m i : i ∈ indices m <-> exists a pm, m !! a = Some pm /\ pm_index pm = i.
Proof.
  unfold indices. rewrite elem_of_list_to_set, list_elem_of_fmap. split.
  - intros ([a pm] & -> & Hin%elem_of_map_to_list). eauto.
  - intros (a & pm & Ha & <-). exists (a, pm). split; [done|]. by apply elem_of_map_to_list.
Qed.

Lemma size_indices m :
  (forall a b x y, m !! a = Some x -> m !! b = Some y -> pm_index x = pm_index y -> a = b) ->
  size (indices m) = size m.
Proof.
  intros Hinj. unfold indices. rewrite size_list_to_set; [by rewrite length_fmap, length_map_to_list|].
  apply NoDup_fmap_2_strong; [|apply NoDup_map_to_list].
  intros [a x] [b y] Ha%elem_of_map_to_list Hb%elem_of_map_to_list E. simpl in E.
  assert (a = b) as -> by (by eapply Hinj). congruence.
Qed.

(** The indices of a well-formed meta are all numbers below the number of pages. *)
Lemma meta_indices m : meta_ok m -> indices (pgm_page_meta_map m) = list_to_set (seqZ 0 (total_pages m)).
Proof.
  intros Hm. apply leibniz_equiv, set_subseteq_size_equiv.
  - intros i (a & pm & Ha & <-)%elem_of_indices. apply elem_of_list_to_set, elem_of_seqZ.
    pose proof (mo_index _ Hm a pm Ha). lia.
  - rewrite size_list_to_set by apply NoDup_seqZ. rewrite length_seqZ, size_indices by apply (mo_inj _ Hm).
    unfold total_pages. lia.
Qed.

Lemma active_count g act dead :
  pg_repr g act dead -> (size act + size dead)%nat = total_pages (pg_meta g).
Proof.
  intros Hr. pose proof (pr_meta _ _ _ Hr) as Hm. set (m := pgm_page_meta_map (pg_meta g)).
  set (alive := base.filter (λ e : Z * PageMeta, pm_index e.2 ∉ dead) m).
  assert (Hsz : size act = size (indices alive)).
  { rewrite (pr_active _ _ _ Hr). unfold active_of. rewrite map_size_fmap. symmetry. apply size_indices.
    intros a b x y [Ha _]%map_lookup_filter_Some [Hb _]%map_lookup_filter_Some. by apply (mo_inj _ Hm a b). }
  assert (Hd : dead ⊆ indices m).
  { intros i Hi. unfold m. rewrite (meta_indices _ Hm). apply elem_of_list_to_set, elem_of_seqZ.
    pose proof (br_range _ _ (pr_bitmap _ _ _ Hr) i Hi). rewrite (pr_cap _ _ _ Hr) in *. lia. }
  assert (Ha : indices alive = indices m ∖ dead).
  { apply set_eq. intros i. rewrite elem_of_difference, !elem_of_indices. unfold alive. split.
    - intros (a & pm & [Hl Hn]%map_lookup_filter_Some & <-). eauto 10.
    - intros [(a & pm & Hl & <-) Hn]. exists a, pm. rewrite map_lookup_filter_Some. eauto. }
  rewrite Hsz, Ha. pose proof (subseteq_size _ _ Hd).
  rewrite size_difference by done. unfold m in *. rewrite size_indices in * by apply (mo_inj _ Hm).
  unfold total_pages. lia.
Qed.

Lemma num_active_pages_ok g act dead : pg_repr g act dead -> num_active_pages g = Ok (size act : Z).
Proof.
  intros Hr. unfold num_active_pages. rewrite (bitmap_free_ok _ dead) by apply Hr.
  rewrite (pr_cap _ _ _ Hr), <- (active_count g act dead Hr). f_equal. lia.
Qed.

Lemma pg_is_empty_ok g act dead : pg_repr g act dead -> pg_is_empty g = bool_decide (act = ∅).
Proof.
  intros Hr. unfold pg_is_empty, bitmap_is_full. rewrite (br_len _ _ (pr_bitmap _ _ _ Hr)), (pr_cap _ _ _ Hr).
  rewrite <- (active_count g act dead Hr). case_bool_decide as E.
  - rewrite E, map_size_empty. apply Z.eqb_eq. lia.
  - apply Z.eqb_neq. intros Hs. apply E, map_size_empty_inv. lia.
Qed.

Lemma page_group_new_repr m :
  meta_ok m -> (total_pages m <> 0%nat -> total_page_size m = handles_size (pm_handle <$> pgm_page_meta_map m)) ->
  pg_repr (page_group_new m) (pm_handle <$> pgm_page_meta_map m) ∅.
Proof.
  intros Hm Ht. assert (Hc : wrap32 (size (pgm_page_meta_map m)) = size (pgm_page_meta_map m)).
  { apply wrap_small. pose proof (mo_pages _ Hm). unfold fits, total_pages in *. lia. }
  constructor; unfold page_group_new; cbn [pg_meta pg_dealloc_pages pg_active_size]; [done| |by rewrite Hc| |done].
  - apply bitmap_new_repr, wrap_fits. lia.
  - unfold active_of. f_equal. symmetry. apply map_filter_id. intros; simpl. apply not_elem_of_empty.
Qed.

(** Ascending addresses have ascending indices. *)
Definition meta_sorted (m : PageGroupMeta) : Prop :=
  forall a b x y, pgm_page_meta_map m !! a = Some x -> pgm_page_meta_map m !! b = Some y ->
    pm_index x <= pm_index y -> a <= b.

Lemma collect_active_ok b dead (l : list (Z * PageMeta)) :
  bitmap_repr b dead -> Forall (λ e, 0 <= pm_index e.2 < bm_cap b) l ->
  collect_active b l = Ok ((λ e, (e.1, pm_index e.2)) <$> base.filter (λ e, pm_index e.2 ∉ dead) l).
Proof.
  intros Hb. induction 1 as [|[a pm] l Hi _ IH]; [done|]. cbn [collect_active].
  rewrite (bitmap_test_ok b dead) by done. cbn [mbind res_bind]. rewrite IH. cbn [mbind res_bind].
  rewrite filter_cons. simpl. by case_bool_decide; case_decide.
Qed.

Lemma pg_next_ok (it : PageGroupIterator) :
  next it = Ok ((λ e, Z.lor (Z.shiftl (pgi_file_id it) 32) e.1) <$> pgi_active_pages it !! pgi_index it,
    mkPageGroupIterator (pgi_file_id it) (S (pgi_index it)) (pgi_active_pages it)).
Proof. unfold next, pg_iterator. by destruct (pgi_active_pages it !! pgi_index it) as [[a i]|]. Qed.

Lemma pg_iter_drain fuel (it : PageGroupIterator) :
  (length (pgi_active_pages it) - pgi_index it < fuel)%nat ->
  exists it', drain fuel it =
    Ok ((λ e, Z.lor (Z.shiftl (pgi_file_id it) 32) e.1) <$> drop (pgi_index it) (pgi_active_pages it), it').
Proof.
  revert it. induction fuel as [|fuel IH]; intros it Hf; [lia|]. cbn [drain]. rewrite pg_next_ok. cbn [mbind res_bind].
  destruct (pgi_active_pages it !! pgi_index it) as [[a i]|] eqn:E; cbn [fmap option_fmap option_map].
  - pose proof (lookup_lt_Some _ _ _ E).
    destruct (IH (mkPageGroupIterator (pgi_file_id it) (S (pgi_index it)) (pgi_active_pages it))) as (it' & Hd); [simpl; lia|].
    exists it'. rewrite Hd. cbn [mbind res_bind pgi_file_id pgi_index pgi_active_pages].
    by rewrite (drop_S _ _ _ E).
  - eexists. by rewrite drop_ge by (by apply lookup_ge_None).
Qed.

(** Iterating yields the addresses of the active pages, ascending. *)
Lemma pg_iter_ok g act dead (fuel : nat) :
  pg_repr g act dead -> meta_sorted (pg_meta g) -> (total_pages (pg_meta g) < fuel)%nat ->
  exists it it' l, pg_iter g = Ok it /\
    drain fuel it = Ok ((λ a, Z.lor (Z.shiftl (pgm_group_id (pg_meta g)) 32) a) <$> l, it') /\
    StronglySorted Z.lt l /\ l ≡ₚ (map_to_list act).*1.
Proof.
  intros Hr Hms Hf. pose proof (pr_meta _ _ _ Hr) as Hm. set (m := pgm_page_meta_map (pg_meta g)) in *.
  set (alive := base.filter (λ e : Z * PageMeta, pm_index e.2 ∉ dead) (map_to_list m)).
  set (ps := (λ e, (e.1, pm_index e.2)) <$> alive).
  assert (Hin : forall a i, (a, i) ∈ ps -> exists pm, m !! a = Some pm /\ pm_index pm = i /\ i ∉ dead).
  { intros a i ([a' pm] & [= -> ->] & [Hn He%elem_of_map_to_list]%list_elem_of_filter)%list_elem_of_fmap. eauto. }
  assert (Hit : pg_iter g = Ok (mkPageGroupIterator (pgm_group_id (pg_meta g)) 0 (merge_sort by_index ps))).
  { unfold pg_iter. fold m. rewrite (collect_active_ok _ dead); [done|apply Hr|].
    apply Forall_forall. intros [a pm] Ha%elem_of_map_to_list. rewrite (pr_cap _ _ _ Hr). by eapply mo_index. }
  assert (Hperm : ps.*1 ≡ₚ (map_to_list act).*1).
  { apply NoDup_Permutation.
    - unfold ps. rewrite <- list_fmap_compose. apply NoDup_fmap_2_strong; [|apply NoDup_filter, NoDup_map_to_list].
      intros [a x] [b y] [_ Ha%elem_of_map_to_list]%list_elem_of_filter [_ Hb%elem_of_map_to_list]%list_elem_of_filter E.
      simpl in E. congruence.
    - apply NoDup_fst_map_to_list.
    - intros a. rewrite (pr_active _ _ _ Hr). fold m. rewrite !list_elem_of_fmap. split.
      + intros ([? i] & -> & (pm & Ha & <- & Hn)%Hin). exists (z, pm_handle pm). split; [done|].
        apply elem_of_map_to_list. rewrite active_of_lookup, Ha. simpl. by rewrite decide_False.
      + intros ([? h] & -> & Hh%elem_of_map_to_list). rewrite active_of_lookup in Hh.
        destruct (m !! z) as [pm|] eqn:Ha; [|done]. simpl in Hh. case_decide; [done|].
        exists (z, pm_index pm). split; [done|]. apply list_elem_of_fmap. exists (z, pm). split; [done|].
        apply list_elem_of_filter. split; [done|]. by apply elem_of_map_to_list. }
  pose proof (merge_sort_Permutation by_index ps) as Hms1.
  destruct (pg_iter_drain fuel (mkPageGroupIterator (pgm_group_id (pg_meta g)) 0 (merge_sort by_index ps))) as (it' & Hd).
  { simpl. rewrite (Permutation_length Hms1). unfold ps. rewrite length_fmap.
    pose proof (length_filter (λ e : Z * PageMeta, pm_index e.2 ∉ dead) (map_to_list m)) as Hle.
    rewrite length_map_to_list in Hle. unfold alive, total_pages in *. fold m in Hf. lia. }
  eexists _, it', ((merge_sort by_index ps).*1). split; [exact Hit|]. split; [|split].
  - rewrite Hd. simpl. by rewrite drop_0, <- list_fmap_compose.
  - assert (Hnd : NoDup (merge_sort by_index ps).*1).
    { rewrite Hms1, Hperm. apply NoDup_fst_map_to_list. }
    assert (Hsort : StronglySorted by_index (merge_sort by_index ps)).
    { apply StronglySorted_merge_sort; [intros x y z|intros x y]; unfold by_index; lia. }
    assert (Hsub : forall e, e ∈ merge_sort by_index ps -> e ∈ ps) by (intros e; by rewrite Hms1).
    clear -Hsort Hnd Hsub Hin Hms. induction Hsort as [|[a i] l Hs IH Hall]; [constructor|].
    rewrite fmap_cons in Hnd. apply NoDup_cons in Hnd as [Hna Hnd]. simpl. constructor.
    + apply IH; [done|]. intros e He. apply Hsub. by right.
    + apply Forall_fmap, Forall_forall. intros [b j] Hb. simpl. rewrite Forall_forall in Hall.
      specialize (Hall _ Hb). unfold by_index in Hall. simpl in Hall.
      destruct (Hin a i) as (x & Hx & <- & _); [apply Hsub; by left|].
      destruct (Hin b j) as (y & Hy & <- & _); [apply Hsub; by right|].
      assert (a <> b) by (intros ->; apply Hna; by apply (list_elem_of_fmap_2 fst) in Hb).
      pose proof (Hms a b x y Hx Hy Hall). lia.
  - by rewrite Hms1.
Qed.

(** ** Metas of pages in ascending order *)

Definition group_addrs (g : Z) (l : list Z) : Prop := StronglySorted Z.lt l /\ Forall (λ a, a / 2 ^ 32 = g) l.

Lemma group_addrs_wrap g a : a / 2 ^ 32 = g -> wrap32 a = a - g * 2 ^ 32.
Proof. intros <-. unfold wrap. rewrite Z.mod_eq by lia. lia. Qed.

Lemma group_addrs_low g l : group_addrs g l -> StronglySorted Z.lt (wrap32 <$> l).
Proof.
  intros [Hs Hg]. induction Hs as [|a l Hs IH Ha]; [constructor|].
  apply Forall_cons in Hg as [Hga Hg]. simpl. constructor; [by apply IH|].
  apply Forall_fmap. rewrite Forall_forall in *. intros b Hb. simpl.
  rewrite !(group_addrs_wrap g) by auto. specialize (Ha b Hb). lia.
Qed.

Lemma sorted_lt_NoDup (l : list Z) : StronglySorted Z.lt l -> NoDup l.
Proof.
  induction 1 as [|a l Hs IH Ha]; constructor; [|done]. intros Hin. rewrite Forall_forall in Ha.
  specialize (Ha a Hin). lia.
Qed.

Definition meta_map (d : list (Z * (Z * PageInfo))) (e : Z) : gmap Z PageMeta := list_to_map (meta_entries 0 d e).

(** Entries and their positions. *)
Lemma meta_entries_lookup e i (j : nat) a pm (d' : list (Z * (Z * PageInfo))) :
  meta_entries i d' e !! j = Some (a, pm) ->
  pm_index pm = i + j /\ (offsets_ok d' e -> 0 <= ph_size (pm_handle pm)) /\ (wrap32 <$> d'.*1) !! j = Some a.
Proof.
  revert i j. induction d' as [|[x [o info]] d' IH]; intros i j Hj; [done|]. destruct j as [|j]; simpl in Hj.
  - injection Hj as <- <-. split_and!; [simpl; lia| |done]. intros [? _]. simpl. lia.
  - destruct (IH _ _ Hj) as (H1 & H2 & H3). split_and!; [lia| |done]. intros (_ & _ & ?). by apply H2.
Qed.

Lemma meta_entries_length e i (d' : list (Z * (Z * PageInfo))) : length (meta_entries i d' e) = length d'.
Proof. revert i; induction d' as [|[x [o info]] d' IH]; intros i; [done|]. simpl. by rewrite IH. Qed.

Section meta_map.
Context (g : Z) (d : list (Z * (Z * PageInfo))) (e : Z).
Context (Hg : group_addrs g d.*1) (Ho : offsets_ok d e) (Hlen : length d < 2 ^ 32) (He : fits 32 e).

Lemma meta_keys_NoDup i : NoDup (meta_entries i d e).*1.
Proof using Hg. rewrite meta_entries_keys. by eapply sorted_lt_NoDup, group_addrs_low. Qed.

Lemma meta_map_elem a pm : meta_map d e !! a = Some pm <-> (a, pm) ∈ meta_entries 0 d e.
Proof using Hg. symmetry. apply elem_of_list_to_map, meta_keys_NoDup. Qed.

Lemma meta_map_size : size (meta_map d e) = length d.
Proof using Hg.
  unfold meta_map. rewrite <- length_map_to_list, map_to_list_to_map by apply meta_keys_NoDup.
  apply meta_entries_length.
Qed.

Lemma meta_map_position a pm :
  meta_map d e !! a = Some pm -> exists j : nat, (wrap32 <$> d.*1) !! j = Some a /\ pm_index pm = j /\
    (j < length d)%nat /\ 0 <= ph_size (pm_handle pm).
Proof using Hg Ho.
  rewrite meta_map_elem. intros [j Hj]%list_elem_of_lookup.
  destruct (meta_entries_lookup e 0 j a pm d Hj) as (H1 & H2 & H3). exists j. split_and!; [done|lia| |by apply H2].
  apply lookup_lt_Some in H3. by rewrite !length_fmap in H3.
Qed.

(** The sizes of the pages add up to the bytes between the first and the end. *)
Lemma meta_map_total : handles_size (pm_handle <$> meta_map d e) = e - next_offset d e.
Proof using Hg.
  unfold meta_map. generalize 0. clear Ho Hlen.
  induction d as [|[x [o info]] d' IH]; intros i; [by rewrite Z.sub_diag|].
  cbn [meta_entries]. rewrite list_to_map_cons, fmap_insert, handles_size_insert.
  - rewrite IH; [simpl; lia|]. destruct Hg as [Hs Hf].
    split; [by apply StronglySorted_inv in Hs as [? _]|by apply Forall_cons in Hf as [_ ?]].
  - rewrite lookup_fmap. apply fmap_None, not_elem_of_list_to_map_1.
    rewrite meta_entries_keys. pose proof (group_addrs_low _ _ Hg) as Hn%sorted_lt_NoDup.
    rewrite fmap_cons in Hn. by apply NoDup_cons in Hn as [? _].
Qed.

Lemma meta_map_ok gid fid base mend :
  meta_ok (mkPageGroupMeta gid fid base e mend (meta_map d e)) /\
  meta_sorted (mkPageGroupMeta gid fid base e mend (meta_map d e)).
Proof using Hg Ho Hlen He.
  assert (Hlow := group_addrs_low _ _ Hg).
  split; [constructor|]; unfold total_pages, meta_sorted; cbn [pgm_page_meta_map].
  - intros a pm (j & _ & -> & Hj & _)%meta_map_position. rewrite meta_map_size. lia.
  - intros a b x y (j & Hj & Ex & _)%meta_map_position (k & Hk & Ey & _)%meta_map_position E.
    assert (j = k) as -> by lia. congruence.
  - intros a pm (j & _ & _ & _ & Hs)%meta_map_position. done.
  - by rewrite meta_map_size.
  - rewrite meta_map_total. assert (0 <= next_offset d e) by (destruct d as [|[? [? ?]] ?]; [apply He|apply Ho]).
    unfold fits in He. lia.
  - intros a b x y (j & Hj & Ex & _)%meta_map_position (k & Hk & Ey & _)%meta_map_position E.
    destruct (decide (j = k)) as [->|]; [assert (a = b) by congruence; lia|].
    assert (a < b); [|lia]. eapply (sorted_lookup_lt _ _ j k); [exact Hlow|done|done|lia].
Qed.
End meta_map.

(** ** Page groups after deallocations *)

Fixpoint deactivate_all (addrs : list Z) (g : PageGroup) : res (list bool * PageGroup) :=
  match addrs with
  | [] => Ok ([], g)
  | a :: addrs =>
      '(r, g) ← deactivate_page a g;
      '(rs, g) ← deactivate_all addrs g;
      Ok (r :: rs, g)
  end.
(** The same on the map of active pages. *)
Fixpoint remove_all (addrs : list Z) (act : gmap Z PageHandle) : list bool * gmap Z PageHandle :=
  match addrs with
  | [] => ([], act)
  | a :: addrs =>
      let r := bool_decide (is_Some (act !! wrap32 a)) in
      let '(rs, act) := remove_all addrs (delete (wrap32 a) act) in
      (r :: rs, act)
  end.

Lemma deactivate_all_ok addrs g act dead :
  pg_repr g act dead ->
  exists g' dead', deactivate_all addrs g = Ok ((remove_all addrs act).1, g') /\
    pg_repr g' (remove_all addrs act).2 dead' /\ pg_meta g' = pg_meta g.
Proof.
  revert g act dead. induction addrs as [|a addrs IH]; intros g act dead Hr; [by exists g, dead|].
  destruct (deactivate_page_ok g act dead a Hr) as (g1 & d1 & H1 & Hr1 & Hm1).
  destruct (IH g1 _ d1 Hr1) as (g2 & d2 & H2 & Hr2 & Hm2).
  cbn [deactivate_all remove_all]. rewrite H1. cbn [mbind res_bind]. rewrite H2. cbn [mbind res_bind].
  destruct (remove_all addrs (delete (wrap32 a) act)) as [rs act']. exists g2, d2.
  split_and!; [done|done|congruence].
Qed.

(** [C39] A page group is the map of its active pages: built from the pages of a
    group in ascending order, with the first one at the base offset and the page
    table behind the last one, below 2^32 (the offsets in handles have 32 bits), a page group gives every address the handle from its
    own offset to the next one; each deallocation removes its page and tells whether
    it was active; afterwards the lookups, the number and the total size of the
    active pages, the test for emptiness and the iterator, which yields ascending
    addresses, agree with the map. *)
Theorem page_group_refines_map (g file_id mend : Z) (d : list (Z * (Z * PageInfo))) (e : Z) (addrs : list Z) :
  group_addrs g d.*1 -> offsets_ok d e -> length d < 2 ^ 32 -> fits 32 e -> next_offset d e < e ->
  let all := pm_handle <$> meta_map d e in
  let act := (remove_all addrs all).2 in
  exists meta group it it' l,
    page_group_meta_new g file_id (next_offset d e) [e; mend] d = Ok meta /\
    deactivate_all addrs (page_group_new meta) = Ok ((remove_all addrs all).1, group) /\
    (forall a, get_page_handle a group = Ok (act !! wrap32 a)) /\
    num_active_pages group = Ok (size act : Z) /\ effective_size group = handles_size act /\
    pg_is_empty group = bool_decide (act = ∅) /\
    pg_iter group = Ok it /\
    drain (S (length d)) it = Ok ((λ a, Z.lor (Z.shiftl g 32) a) <$> l, it') /\
    StronglySorted Z.lt l /\ l ≡ₚ (map_to_list act).*1.
Proof.
  intros Hg Ho Hlen He Hne all act.
  set (meta := mkPageGroupMeta g file_id (next_offset d e) e mend (meta_map d e)).
  destruct (meta_map_ok g d e Hg Ho Hlen He g file_id (next_offset d e) mend) as [Hm Hs].
  assert (Hnew : pg_repr (page_group_new meta) all ∅).
  { apply (page_group_new_repr meta Hm). intros _. unfold total_page_size, sat_sub, meta.
    cbn [pgm_page_table_offset pgm_base_offset pgm_page_meta_map]. rewrite (meta_map_total g d e Hg), Z.max_r by lia.
    destruct (Z.eqb_spec (e - next_offset d e) 0); [lia|done]. }
  destruct (deactivate_all_ok addrs _ _ _ Hnew) as (group & dead & Hd & Hr & Hmeta).
  destruct (pg_iter_ok group act dead (S (length d)) Hr) as (it & it' & l & Hit & Hdr & Hsl & Hperm).
  { by rewrite Hmeta. }
  { rewrite Hmeta. change (size (meta_map d e) < S (length d))%nat. rewrite (meta_map_size g) by done. lia. }
  exists meta, group, it, it', l. rewrite Hmeta in Hdr. split_and!; try done.
  - unfold page_group_meta_new. simpl. rewrite build_page_meta_map_ok; [done|done| |done|done].
    eapply sorted_lt_NoDup, group_addrs_low, Hg.
  - intros a. by eapply get_page_handle_ok.
  - by eapply num_active_pages_ok.
  - apply (pr_size _ _ _ Hr). rewrite Hmeta. change (size (meta_map d e) <> 0)%nat. rewrite (meta_map_size g) by done.
    destruct d; [simpl in Hne; lia|done].
  - by eapply pg_is_empty_ok.
Qed.

Lemma page_group_refines_map_witness :
  let d := [(2 ^ 32 + 16, (0, mkPageInfo 0 0 5)); (2 ^ 32 + 64, (5, mkPageInfo 0 0 7))] in
  let all := pm_handle <$> meta_map d 12 in
  let addrs := [2 ^ 32 + 64; 2 ^ 32 + 64; 2 ^ 32 + 8] in
  let act := (remove_all addrs all).2 in
  exists meta group it it' l,
    page_group_meta_new 1 7 0 [12; 44] d = Ok meta /\
    deactivate_all addrs (page_group_new meta) = Ok ((remove_all addrs all).1, group) /\
    (forall a, get_page_handle a group = Ok (act !! wrap32 a)) /\
    num_active_pages group = Ok (size act : Z) /\ effective_size group = handles_size act /\
    pg_is_empty group = bool_decide (act = ∅) /\
    pg_iter group = Ok it /\
    drain 3 it = Ok ((λ a, Z.lor (Z.shiftl 1 32) a) <$> l, it') /\
    StronglySorted Z.lt l /\ l ≡ₚ (map_to_list act).*1.
Proof.
  apply (page_group_refines_map 1 7 44).
  - split; repeat constructor.
  - simpl. lia.
  - simpl. lia.
  - split; vm_compute; congruence.
  - simpl. lia.
Defined.
