(* ===== verification/Env.v ===== *)
(** * The environment the files live in ([env/mod.rs])

    The traits [SequentialWriter] and [PositionalReader] are type classes over the
    state of a writer or a reader, and [write_all] and [read_exact_at] are the loops
    the extension traits define for them. The laws say what a working device does:
    it may write or read less than asked for and it may be interrupted, a bounded
    number of times, but it does not fail. [MemFile] is an instance. *)

From stdpp Require Import base numbers list.
From Stdlib Require Import ZArith Lia.
From S2P Require Import Prelude.

Class SequentialWriter (W : Type) := {
  sw_write : list Z -> St W nat;
  sw_sync_data : St W unit;
  sw_sync_all : St W unit;
  sw_truncate : Z -> St W unit;
}.

(** Reading at a position into a buffer of the given length: the bytes read. *)
Class PositionalReader (R : Type) := pr_read_at : nat -> Z -> St R (list Z).

(** [SequentialWriterExt::write_all]. *)
Fixpoint write_all {W} `{SequentialWriter W} (fuel : nat) (buf : list Z) : St W unit :=
  match fuel with
  | O => lift Panic
  | S fuel =>
      if bool_decide (buf = []) then mret tt
      else
        r ← attempt (sw_write buf);
        match r with
        | inl O => lift (Err (Io WriteZero))
        | inl n => rest ← lift (slice buf n (length buf)); write_all fuel rest
        | inr (Io Interrupted) => write_all fuel buf
        | inr e => lift (Err e)
        end
  end.

(** [PositionalReaderExt::read_exact_at]: the bytes of the filled buffer. *)
Fixpoint read_exact_at {R} `{PositionalReader R} (fuel : nat) (len : nat) (pos : Z) : St R (list Z) :=
  match fuel with
  | O => lift Panic
  | S fuel =>
      if bool_decide (len = 0%nat) then mret []
      else
        r ← attempt (pr_read_at len pos);
        match r with
        | inl [] => lift (Err (Io UnexpectedEof))
        | inl bs => rest ← read_exact_at fuel (len - length bs) (wrap64 (pos + length bs)); mret (bs ++ rest)
        | inr (Io Interrupted) => read_exact_at fuel len pos
        | inr e => lift (Err e)
        end
  end.

(** ** Devices that work *)

Class SequentialWriterLaws (W : Type) `{SequentialWriter W} := {
  sw_content : W -> list Z;
  (** How often the writer may still be interrupted. *)
  sw_interrupts : W -> nat;
  sw_write_ok : forall buf w, buf <> [] ->
    (exists n w', sw_write buf w = (Ok n, w') /\ (0 < n <= length buf)%nat /\
       sw_content w' = sw_content w ++ take n buf /\ (sw_interrupts w' <= sw_interrupts w)%nat) \/
    (exists w', sw_write buf w = (Err (Io Interrupted), w') /\ sw_content w' = sw_content w /\
       (sw_interrupts w' < sw_interrupts w)%nat);
  sw_sync_all_ok : forall w, exists w', sw_sync_all w = (Ok tt, w') /\
    sw_content w' = sw_content w /\ sw_interrupts w' = sw_interrupts w;
  sw_sync_data_ok : forall w, exists w', sw_sync_data w = (Ok tt, w') /\
    sw_content w' = sw_content w /\ sw_interrupts w' = sw_interrupts w;
  sw_truncate_ok : forall len w, 0 <= len <= length (sw_content w) -> exists w', sw_truncate len w = (Ok tt, w') /\
    sw_content w' = take (Z.to_nat len) (sw_content w) /\ sw_interrupts w' = sw_interrupts w;
}.

Class PositionalReaderLaws (R : Type) `{PositionalReader R} := {
  pr_content : R -> list Z;
  pr_interrupts : R -> nat;
  pr_read_ok : forall len pos r, 0 <= pos -> (0 < len)%nat ->
    (exists n r', pr_read_at len pos r = (Ok (take n (drop (Z.to_nat pos) (pr_content r))), r') /\ (n <= len)%nat /\
       (n = 0%nat -> length (pr_content r) <= pos) /\
       (pos < length (pr_content r) -> pos + n <= length (pr_content r)) /\
       pr_content r' = pr_content r /\ (pr_interrupts r' <= pr_interrupts r)%nat) \/
    (exists r', pr_read_at len pos r = (Err (Io Interrupted), r') /\ pr_content r' = pr_content r /\
       (pr_interrupts r' < pr_interrupts r)%nat);
}.

(** ** The loops, on a state with an invariant *)

(** Each round of [write_all] writes a byte or uses up an interrupt; [I l w] says that
    [w] is the state after the bytes [l]. *)
Lemma write_all_inv {W} `{SequentialWriter W} (I : list Z -> W -> Prop) (interrupts : W -> nat) :
  (forall buf l w, buf <> [] -> I l w ->
    (exists n w', sw_write buf w = (Ok n, w') /\ (0 < n <= length buf)%nat /\
       I (l ++ take n buf) w' /\ (interrupts w' <= interrupts w)%nat) \/
    (exists w', sw_write buf w = (Err (Io Interrupted), w') /\ I l w' /\ (interrupts w' < interrupts w)%nat)) ->
  forall fuel buf l w, I l w -> (length buf + interrupts w < fuel)%nat ->
  exists w', write_all fuel buf w = (Ok tt, w') /\ I (l ++ buf) w' /\ (interrupts w' <= interrupts w)%nat.
Proof.
  intros Hwrite fuel. induction fuel as [|fuel IH]; intros buf l w Hl Hf; [lia|]. cbn [write_all].
  case_bool_decide as Eb; [subst; exists w; by rewrite app_nil_r|].
  destruct (Hwrite buf l w Eb Hl) as [(n & w1 & Hw & Hn & Hc & Hi)|(w1 & Hw & Hc & Hi)].
  - rewrite (st_bind_ok _ _ w (inl n) w1) by (unfold attempt; by rewrite Hw).
    destruct n as [|n]; [lia|]. set (n' := S n) in *.
    rewrite (st_bind_ok _ _ w1 (drop n' buf) w1).
    + destruct (IH (drop n' buf) _ w1 Hc) as (w2 & H2 & Hc2 & Hi2); [rewrite length_drop; lia|].
      exists w2. rewrite <- app_assoc, take_drop in Hc2. split_and!; [done|done|lia].
    + unfold lift. by rewrite slice_ok, firstn_all2 by (rewrite ?length_drop; lia).
  - rewrite (st_bind_ok _ _ w (inr (Io Interrupted)) w1) by (unfold attempt; by rewrite Hw).
    destruct (IH buf _ w1 Hc) as (w2 & H2 & Hc2 & Hi2); [lia|].
    exists w2. split_and!; [done|done|lia].
Qed.

(** [read_exact_at] returns the bytes of [c] at the position, or reports its end. *)
Lemma read_exact_at_inv {R} `{PositionalReader R} (I : R -> Prop) (c : list Z) (interrupts : R -> nat) :
  (forall len pos r, I r -> 0 <= pos -> (0 < len)%nat ->
    (exists n r', pr_read_at len pos r = (Ok (take n (drop (Z.to_nat pos) c)), r') /\ (n <= len)%nat /\
       (n = 0%nat -> length c <= pos) /\ (pos < length c -> pos + n <= length c) /\
       I r' /\ (interrupts r' <= interrupts r)%nat) \/
    (exists r', pr_read_at len pos r = (Err (Io Interrupted), r') /\ I r' /\ (interrupts r' < interrupts r)%nat)) ->
  forall fuel len pos r, I r -> (len + interrupts r < fuel)%nat -> 0 <= pos -> pos + len < 2 ^ 64 ->
  exists r', read_exact_at fuel len pos r =
      (if decide (len = 0%nat \/ pos + len <= length c)
       then Ok (take len (drop (Z.to_nat pos) c)) else Err (Io UnexpectedEof), r') /\
    I r' /\ (interrupts r' <= interrupts r)%nat.
Proof.
  intros Hread fuel. induction fuel as [|fuel IH]; intros len pos r HI Hf Hp H64; [lia|]. cbn [read_exact_at].
  case_bool_decide as El; [subst; exists r; by rewrite decide_True by (by left)|].
  destruct (Hread len pos r HI Hp) as [(n & r1 & Hr & Hn & Hz & Hin & Hc & Hi)|(r1 & Hr & Hc & Hi)]; [lia| |].
  - rewrite (st_bind_ok _ _ r (inl (take n (drop (Z.to_nat pos) c))) r1) by (unfold attempt; by rewrite Hr).
    destruct (take n (drop (Z.to_nat pos) c)) as [|b bs] eqn:Eb.
    + exists r1. rewrite decide_False; [done|]. intros [?|Hle]; [done|].
      apply (f_equal length) in Eb. rewrite length_take, length_drop in Eb. simpl in Eb.
      destruct (decide (n = 0)%nat) as [->|]; [specialize (Hz eq_refl); lia|lia].
    + set (bs' := b :: bs) in *.
      assert (Hb : length bs' = n).
      { rewrite <- Eb, length_take, length_drop. apply (f_equal length) in Eb as El'.
        rewrite length_take, length_drop in El'. simpl in El'. lia. }
      assert (Hpos : (0 < n)%nat) by (rewrite <- Hb; simpl; lia).
      rewrite wrap_small by (unfold fits; lia). rewrite Hb.
      destruct (IH (len - n)%nat (pos + n) r1 Hc) as (r2 & H2 & Hc2 & Hi2); [lia|lia|lia|].
      exists r2. split; [|split; [done|lia]].
      destruct (decide (len = 0%nat \/ pos + len <= length c)) as [D|D].
      * rewrite decide_True in H2 by lia. st_step H2. unfold mret, st_ret. f_equal. f_equal.
        rewrite <- Eb. replace (Z.to_nat (pos + n)) with (Z.to_nat pos + n)%nat by lia.
        rewrite <- drop_drop. replace len with (n + (len - n))%nat at 2 by lia. by rewrite take_take_drop.
      * rewrite decide_False in H2; [by rewrite (st_bind_err _ _ _ _ _ H2)|].
        intros [?|?]; apply D; [right|right; lia].
        assert (pos < length c); [|lia].
        apply (f_equal length) in Eb. rewrite length_take, length_drop in Eb. simpl in Eb. lia.
  - rewrite (st_bind_ok _ _ r (inr (Io Interrupted)) r1) by (unfold attempt; by rewrite Hr).
    destruct (IH len pos r1 Hc) as (r2 & H2 & Hc2 & Hi2); [lia|lia|lia|].
    exists r2. rewrite H2. split_and!; [done|done|lia].
Qed.

Lemma write_all_ok {W} `{SequentialWriterLaws W} fuel buf w :
  (length buf + sw_interrupts w < fuel)%nat ->
  exists w', write_all fuel buf w = (Ok tt, w') /\ sw_content w' = sw_content w ++ buf /\
    (sw_interrupts w' <= sw_interrupts w)%nat.
Proof.
  apply (write_all_inv (λ l w', sw_content w' = l)); [|done]. intros buf' l w' Hb <-. by apply sw_write_ok.
Qed.

Lemma read_exact_at_ok {R} `{PositionalReaderLaws R} fuel len pos r :
  (len + pr_interrupts r < fuel)%nat -> 0 <= pos -> pos + len < 2 ^ 64 ->
  exists r', read_exact_at fuel len pos r =
      (if decide (len = 0%nat \/ pos + len <= length (pr_content r))
       then Ok (take len (drop (Z.to_nat pos) (pr_content r))) else Err (Io UnexpectedEof), r') /\
    pr_content r' = pr_content r /\ (pr_interrupts r' <= pr_interrupts r)%nat.
Proof.
  apply (read_exact_at_inv (λ r', pr_content r' = pr_content r)); [|done].
  intros len' pos' r' E Hp Hl. rewrite <- E. by apply pr_read_ok.
Qed.

(** ** Files in memory *)

(** A file that takes at most [mf_chunk + 1] bytes at a time and gives at most
    [mf_chunk + 1] blocks of 4096 bytes. *)
Definition mem_block : nat := Z.to_nat 4096.
Record MemFile := mkMemFile { mf_data : list Z; mf_chunk : nat }.

#[global] Instance mem_writer : SequentialWriter MemFile := {
  sw_write buf := λ f,
    let n := Nat.min (length buf) (S (mf_chunk f)) in
    (Ok n, mkMemFile (mf_data f ++ take n buf) (mf_chunk f));
  sw_sync_data := mret tt;
  sw_sync_all := mret tt;
  sw_truncate len := λ f, (Ok tt, mkMemFile (take (Z.to_nat len) (mf_data f)) (mf_chunk f));
}.
#[global] Instance mem_reader : PositionalReader MemFile := λ len pos f,
  (Ok (take (Nat.min len (S (mf_chunk f) * mem_block)) (drop (Z.to_nat pos) (mf_data f))), f).

#[global] Instance mem_writer_laws : SequentialWriterLaws MemFile.
Proof.
  refine {| sw_content := mf_data; sw_interrupts := λ _, 0%nat |}.
  - intros buf f Hb. left. eexists _, _. split; [done|]. split; [|done].
    destruct buf; [done|]. simpl length. lia.
  - intros w. by exists w.
  - intros w. by exists w.
  - intros len w _. by eexists.
Defined.

#[global] Instance mem_reader_laws : PositionalReaderLaws MemFile.
Proof.
  refine {| pr_content := mf_data; pr_interrupts := λ _, 0%nat |}.
  intros len pos r Hp Hl. left.
  set (n := Nat.min (Nat.min len (S (mf_chunk r) * mem_block)) (length (mf_data r) - Z.to_nat pos)).
  exists n, r. split.
  - unfold pr_read_at, mem_reader. f_equal. f_equal. unfold n.
    rewrite <- (take_take _ (Nat.min len _) (length (mf_data r) - _)). f_equal. symmetry.
    apply take_ge. rewrite length_drop. lia.
  - assert (0 < mem_block)%nat by (unfold mem_block; lia). split_and!; unfold n; nia || done.
Defined.
