(* ===== verification/FileBuilder.v ===== *)
(** * Writing page files ([page_file/{checksum,compression,file_builder}.rs])

    The blocks of a page file and the buffered writer they go through. CRC32, Snappy
    and Zstd are parameters ([PageCodecs]) with the laws the code relies on
    ([PageCodecsLaws]). [alloc] is the memory of a new aligned buffer and [io_fuel]
    bounds the rounds of one [write_all]. *)

From stdpp Require Import base numbers list sorting gmap.
From Stdlib Require Import ZArith Lia.
From S2P Require Import Prelude BasePage Iter BTree PageGroup Env.

(** ** Checksums and compression *)

Class PageCodecs := {
  crc32 : list Z -> Z;
  snap_compress : list Z -> list Z;
  snap_max_len : nat -> nat;
  snap_decompress_len : list Z -> option nat;
  snap_decompress : list Z -> option (list Z);
  zstd_compress : list Z -> list Z;
  zstd_bound : nat -> nat;
  zstd_decompress : list Z -> option (list Z);
}.

Class PageCodecsLaws `{PageCodecs} : Prop := {
  crc32_fits : forall l, fits 32 (crc32 l);
  snap_len_ok : forall l, (length (snap_compress l) <= snap_max_len (length l))%nat;
  snap_decompress_len_ok : forall l, snap_decompress_len (snap_compress l) = Some (length l);
  snap_roundtrip : forall l, snap_decompress (snap_compress l) = Some l;
  zstd_len_ok : forall l, (length (zstd_compress l) <= zstd_bound (length l))%nat;
  zstd_roundtrip : forall l, zstd_decompress (zstd_compress l) = Some l;
}.

(** The flags of [ChecksumType] and [Compression], and [from_bits]. *)
Definition CHECKSUM_NONE : Z := 0.
Definition CHECKSUM_CRC32 : Z := 1.
Definition CHECKSUM_XXHASH : Z := 2.
Definition checksum_from_bits (bits : Z) : option Z := if Z.land bits 3 =? bits then Some bits else None.
Definition COMPRESSION_NONE : Z := 1.
Definition COMPRESSION_SNAPPY : Z := 2.
Definition COMPRESSION_ZSTD : Z := 4.
Definition compression_from_bits (bits : Z) : option Z := if Z.land bits 7 =? bits then Some bits else None.

Section codecs.
Context `{PageCodecs}.

(** [checksum]; XXHASH is a [todo!]. *)
Definition checksum (typ : Z) (content : list Z) : res (option Z) :=
  if typ =? CHECKSUM_NONE then Ok None
  else if typ =? CHECKSUM_CRC32 then Ok (Some (crc32 content))
  else Panic.

Definition check_checksum (typ : Z) (content : list Z) (checksum_val : Z) : res unit :=
  file_checksum ← checksum typ content;
  match file_checksum with
  | Some file_checksum => if file_checksum =? checksum_val then Ok tt else Err Corrupted
  | None => Ok tt
  end.

Definition compress_max_len (compression : Z) (input : list Z) : res nat :=
  if compression =? COMPRESSION_NONE then Ok 0%nat
  else if compression =? COMPRESSION_SNAPPY then Ok (snap_max_len (length input))
  else if compression =? COMPRESSION_ZSTD then Ok (zstd_bound (length input) + 8)%nat
  else Panic.

(** [compress_page] into a buffer of [buf_len] bytes: the bytes to store. *)
Definition compress_page (compression : Z) (raw : list Z) (buf_len : nat) : res (list Z) :=
  if compression =? COMPRESSION_NONE then Ok raw
  else if compression =? COMPRESSION_SNAPPY then
    if bool_decide (snap_max_len (length raw) <= buf_len)%nat then Ok (snap_compress raw) else Err Corrupted
  else if compression =? COMPRESSION_ZSTD then
    _ ← rassert (bool_decide (8 <= buf_len)%nat);
    let data := zstd_compress raw in
    _ ← rassert (bool_decide (length data <= buf_len - 8)%nat);
    Ok (le_bytes 8 (length raw) ++ data)
  else Panic.

(** [decompress_len]: the length and the bytes to skip. *)
Definition decompress_len (compression : Z) (input : list Z) : res (nat * nat) :=
  if compression =? COMPRESSION_NONE then Ok (0, 0)%nat
  else if compression =? COMPRESSION_SNAPPY then
    len ← ok_or (snap_decompress_len input) Corrupted; Ok (len, 0%nat)
  else if compression =? COMPRESSION_ZSTD then
    raw_len ← slice input 0 8; Ok (Z.to_nat (le_num raw_len), 8%nat)
  else Panic.

(** [decompress_into] a buffer of [target_len] zero bytes: the buffer after it. *)
Definition decompress_into (compression : Z) (input : list Z) (target_len : nat) : res (list Z) :=
  if compression =? COMPRESSION_NONE then Ok (replicate target_len 0)
  else
    out ← (if compression =? COMPRESSION_SNAPPY then ok_or (snap_decompress input) Corrupted
           else if compression =? COMPRESSION_ZSTD then ok_or (zstd_decompress input) Corrupted
           else Panic);
    if bool_decide (length out <= target_len)%nat then Ok out else Err Corrupted.
End codecs.

(** ** Blocks *)

Definition block_handle_encoded_size : nat := 16.
Definition block_handle_encode (h : BlockHandle) : list Z := le_bytes 8 (bh_offset h) ++ le_bytes 8 (bh_length h).
Definition block_handle_decode (bytes : list Z) : res BlockHandle :=
  if negb (bool_decide (length bytes = 16%nat)) then Err Corrupted
  else
    offset ← slice bytes 0 8;
    length ← slice bytes 8 16;
    Ok (mkBlockHandle (le_num offset) (le_num length)).

(** [PageTable] of [file_builder.rs]: page addresses to page ids. *)
Definition page_table_encode (table : list (Z * Z)) : list Z :=
  concat ((λ e, le_bytes 8 e.1 ++ le_bytes 8 e.2) <$> table).

(** The loop of [decode] on the bytes from the index on. *)
Fixpoint page_table_decode_loop (fuel : nat) (bytes : list Z) (table : list (Z * Z)) : res (list (Z * Z)) :=
  match fuel with
  | O => Panic
  | S fuel =>
      if bool_decide (bytes = []) then Ok table
      else if bool_decide (length bytes < 16)%nat then Err Corrupted
      else
        page_addr ← slice bytes 0 8;
        page_id ← slice bytes 8 16;
        page_table_decode_loop fuel (drop 16 bytes) (btree_insert (le_num page_addr) (le_num page_id) table)
  end.
Definition page_table_decode (bytes : list Z) : res (list (Z * Z)) :=
  page_table_decode_loop (S (length bytes)) bytes [].

Record IndexBlock := mkIndexBlock {
  ib_page_offsets : list (Z * (Z * PageInfo));
  ib_meta_page_table : option Z;
}.
Definition index_block_default : IndexBlock := mkIndexBlock [] None.

Definition encode_data_block_index (b : IndexBlock) : list Z :=
  concat ((λ e : Z * (Z * PageInfo),
    let '(page_addr, (offset, page_info)) := e in
    let '(meta, next) := info_value page_info in
    le_bytes 8 page_addr ++ le_bytes 8 offset ++ le_bytes 8 meta ++ le_bytes 8 next) <$> ib_page_offsets b).
Definition encode_meta_block_index (b : IndexBlock) : res (list Z) :=
  offset ← expect (ib_meta_page_table b);
  Ok (le_bytes 8 offset).

(** The page whose size is not known yet: address, offset and raw info. *)
Definition close_page (last : option (Z * Z * Z * Z)) (end_offset : Z)
    (m : list (Z * (Z * PageInfo))) : list (Z * (Z * PageInfo)) :=
  match last with
  | Some (addr, offset, meta, next) =>
      btree_insert addr (offset, info_from_raw meta next (Z.to_nat (wrap64 (end_offset - offset)))) m
  | None => m
  end.

Fixpoint index_decode_loop (fuel : nat) (bytes : list Z) (last : option (Z * Z * Z * Z))
    (m : list (Z * (Z * PageInfo))) : res (option (Z * Z * Z * Z) * list (Z * (Z * PageInfo))) :=
  match fuel with
  | O => Panic
  | S fuel =>
      if bool_decide (bytes = []) then Ok (last, m)
      else if bool_decide (length bytes < 32)%nat then Err Corrupted
      else
        page_addr ← slice bytes 0 8;
        offset ← slice bytes 8 16;
        meta ← slice bytes 16 24;
        next ← slice bytes 24 32;
        index_decode_loop fuel (drop 32 bytes)
          (Some (le_num page_addr, le_num offset, le_num meta, le_num next))
          (close_page last (le_num offset) m)
  end.

Definition index_block_decode (data_index_bytes meta_index_bytes : list Z) : res IndexBlock :=
  '(last, page_offsets) ← index_decode_loop (S (length data_index_bytes)) data_index_bytes None [];
  if negb (bool_decide (length meta_index_bytes = 8%nat)) then Err Corrupted
  else
    let meta_page_table := le_num meta_index_bytes in
    Ok (mkIndexBlock (close_page last meta_page_table page_offsets) (Some meta_page_table)).

Definition as_meta_file_cached (data_handle : BlockHandle) (b : IndexBlock) :
    res (list Z * list (Z * (Z * PageInfo))) :=
  offset ← expect (ib_meta_page_table b);
  Ok ([offset; bh_offset data_handle], ib_page_offsets b).

(** ** Positions *)

Definition floor_to_block_lo_pos (pos align : Z) : Z := pos - Z.land pos (align - 1).
Definition ceil_to_block_hi_pos (pos align : Z) : Z := (pos + align - 1) / align * align.
Definition is_block_aligned_pos (pos align : Z) : bool := Z.land pos (align - 1) =? 0.

(** ** [BufferedWriter] *)

Record BufferedWriter (W : Type) := mkBufferedWriter {
  bw_file : W;
  bw_use_direct : bool;
  bw_next_page_offset : Z;
  bw_actual_data_size : Z;
  bw_align_size : Z;
  bw_buffer : list Z;
  bw_buf_pos : nat;
}.
Arguments mkBufferedWriter {W} _ _ _ _ _ _ _.
Arguments bw_file {W} _.
Arguments bw_use_direct {W} _.
Arguments bw_next_page_offset {W} _.
Arguments bw_actual_data_size {W} _.
Arguments bw_align_size {W} _.
Arguments bw_buffer {W} _.
Arguments bw_buf_pos {W} _.

Section writer.
Context {W : Type} `{SequentialWriter W} (alloc : nat -> list Z) (io_fuel : nat).

(** [AlignBuffer::new]; its layout asks for a power of two. *)
Definition align_buffer_new (n align : Z) : res (list Z) :=
  _ ← rassert (0 <? n);
  _ ← rassert ((0 <? align) && (2 ^ Z.log2 align =? align));
  Ok (alloc (Z.to_nat (ceil_to_block_hi_pos n align))).

Definition bw_new (file : W) (io_batch_size : Z) (use_direct : bool) (align_size : Z) : res (BufferedWriter W) :=
  buffer ← align_buffer_new io_batch_size align_size;
  Ok (mkBufferedWriter file use_direct 0 0 align_size buffer 0).

(** An operation of the file, and assignments to the fields. *)
Definition on_file {A} (m : St W A) : St (BufferedWriter W) A := λ w,
  let '(r, f) := m (bw_file w) in
  (r, mkBufferedWriter f (bw_use_direct w) (bw_next_page_offset w) (bw_actual_data_size w)
        (bw_align_size w) (bw_buffer w) (bw_buf_pos w)).
Definition set_actual (n : Z) (w : BufferedWriter W) : BufferedWriter W :=
  mkBufferedWriter (bw_file w) (bw_use_direct w) (bw_next_page_offset w) n (bw_align_size w) (bw_buffer w) (bw_buf_pos w).
Definition set_buf_pos (n : nat) (w : BufferedWriter W) : BufferedWriter W :=
  mkBufferedWriter (bw_file w) (bw_use_direct w) (bw_next_page_offset w) (bw_actual_data_size w) (bw_align_size w) (bw_buffer w) n.
Definition set_buffer (b : list Z) (w : BufferedWriter W) : BufferedWriter W :=
  mkBufferedWriter (bw_file w) (bw_use_direct w) (bw_next_page_offset w) (bw_actual_data_size w) (bw_align_size w) b (bw_buf_pos w).
Definition set_next_offset (n : Z) (w : BufferedWriter W) : BufferedWriter W :=
  mkBufferedWriter (bw_file w) (bw_use_direct w) n (bw_actual_data_size w) (bw_align_size w) (bw_buffer w) (bw_buf_pos w).

Definition bw_flush : St (BufferedWriter W) unit :=
  pos ← gets bw_buf_pos;
  if bool_decide (pos = 0%nat) then mret tt
  else
    use_direct ← gets bw_use_direct;
    _ ← (if use_direct : bool then
           modify (λ w, set_buf_pos (Z.to_nat (ceil_to_block_hi_pos (bw_buf_pos w) (bw_align_size w)))
                          (set_actual (bw_actual_data_size w + bw_buf_pos w) w))
         else mret tt);
    w ← gets id;
    bytes ← lift (slice (bw_buffer w) 0 (bw_buf_pos w));
    _ ← on_file (write_all io_fuel bytes);
    modify (set_buf_pos 0).

(** The loop of [fill_buf] on the data not consumed yet. *)
Fixpoint bw_fill_buf (fuel : nat) (data : list Z) : St (BufferedWriter W) unit :=
  match fuel with
  | O => lift Panic
  | S fuel =>
      if bool_decide (data = []) then mret tt
      else
        w ← gets id;
        let buf_cap := length (bw_buffer w) in
        if bool_decide (bw_buf_pos w < buf_cap)%nat then
          let n := Nat.min (buf_cap - bw_buf_pos w) (length data) in
          buffer ← lift (write_at (bw_buffer w) (bw_buf_pos w) (take n data));
          _ ← modify (λ w, set_buf_pos (bw_buf_pos w + n) (set_buffer buffer w));
          bw_fill_buf fuel (drop n data)
        else
          _ ← bw_flush;
          bw_fill_buf fuel data
  end.
Definition fill_buf (data : list Z) : St (BufferedWriter W) unit := bw_fill_buf (2 * length data + 2) data.

Definition write_with_checksum (page : list Z) (checksum : option Z) : St (BufferedWriter W) Z :=
  _ ← fill_buf page;
  _ ← match checksum with Some c => fill_buf (le_bytes 4 c) | None => mret tt end;
  page_offset ← gets bw_next_page_offset;
  _ ← modify (λ w, set_next_offset (wrap64 (bw_next_page_offset w +
        (if bool_decide (checksum = None) then length page : Z else length page + 4))) w);
  mret page_offset.
Definition bw_write (page : list Z) : St (BufferedWriter W) Z := write_with_checksum page None.

Definition flush_and_sync : St (BufferedWriter W) unit :=
  _ ← bw_flush;
  w ← gets id;
  _ ← (if bw_use_direct w then on_file (sw_truncate (bw_actual_data_size w)) else mret tt);
  must (on_file sw_sync_all).
End writer.

(** ** [CommonFileBuilder] *)

Record CommonFileBuilder := mkCommonFileBuilder {
  cb_group_id : Z;
  cb_compression : Z;
  cb_checksum : Z;
  cb_index : IndexBlock;
  cb_page_table : list (Z * Z);
}.

Definition common_builder_new (group_id compression checksum : Z) : CommonFileBuilder :=
  mkCommonFileBuilder group_id compression checksum index_block_default [].

Definition add_data_block (page_addr file_offset : Z) (page_info : PageInfo) (b : IndexBlock) : IndexBlock :=
  mkIndexBlock (btree_insert page_addr (file_offset, page_info) (ib_page_offsets b)) (ib_meta_page_table b).
Definition add_page_table_meta_block (file_offset : Z) (b : IndexBlock) : IndexBlock :=
  mkIndexBlock (ib_page_offsets b) (Some file_offset).

Section builder.
Context `{PageCodecs} {W : Type} `{SequentialWriter W} (io_fuel : nat).

(** The bytes [add_page] stores for a page, and their checksum. *)
Definition page_block (compression checksum_type : Z) (page_content : list Z) : res (list Z * option Z) :=
  max_len ← compress_max_len compression page_content;
  content ← compress_page compression page_content max_len;
  sum ← checksum checksum_type content;
  Ok (content, sum).

(** [CommonFileBuilder::add_page], with the writer it borrows as the state. *)
Definition common_add_page (b : CommonFileBuilder) (page_id page_addr : Z) (page_info : PageInfo) (page_content : list Z) :
    St (BufferedWriter W) CommonFileBuilder :=
  '(content, sum) ← lift (page_block (cb_compression b) (cb_checksum b) page_content);
  file_offset ← write_with_checksum io_fuel content sum;
  mret (mkCommonFileBuilder (cb_group_id b) (cb_compression b) (cb_checksum b)
          (add_data_block page_addr file_offset page_info (cb_index b))
          (btree_insert page_addr page_id (cb_page_table b))).

Definition finish_meta_block (b : CommonFileBuilder) : St (BufferedWriter W) CommonFileBuilder :=
  file_offset ← bw_write io_fuel (page_table_encode (cb_page_table b));
  mret (mkCommonFileBuilder (cb_group_id b) (cb_compression b) (cb_checksum b)
          (add_page_table_meta_block file_offset (cb_index b)) (cb_page_table b)).

Definition finish_index_block (b : CommonFileBuilder) : St (BufferedWriter W) (BlockHandle * BlockHandle) :=
  let data_index := encode_data_block_index (cb_index b) in
  meta_index ← lift (encode_meta_block_index (cb_index b));
  data_offset ← bw_write io_fuel data_index;
  meta_offset ← bw_write io_fuel meta_index;
  mret (mkBlockHandle data_offset (length data_index), mkBlockHandle meta_offset (length meta_index)).

Definition as_page_group_meta (b : CommonFileBuilder) (file_id base_offset : Z) (data_handle : BlockHandle) : res PageGroupMeta :=
  '(indexes, offsets) ← as_meta_file_cached data_handle (cb_index b);
  page_group_meta_new (cb_group_id b) file_id base_offset indexes offsets.
End builder.
