(* ===== verification/FileWriter.v ===== *)
(** * The buffered writer appends ([BufferedWriter] of [page_file/file_builder.rs])

    Whatever the buffer size, the short writes and the interrupts of the device, and
    with direct I/O too, the writer behaves as a byte string to which each write
    appends, and each write returns the offset at which its bytes start. *)

From stdpp Require Import base numbers list sorting gmap.
From Stdlib Require Import ZArith Lia.
From S2P Require Import Prelude BasePage Iter BTree PageGroup Env FileBuilder.

Section writer.
Context {W : Type} `{SequentialWriterLaws W} (io_fuel : nat).

(** The writer holds the bytes [l], in the file and in its buffer. *)
Record bw_holds (w : BufferedWriter W) (l : list Z) : Prop := {
  bh_bytes : sw_content (bw_file w) ++ take (bw_buf_pos w) (bw_buffer w) = l;
  bh_pos : (bw_buf_pos w <= length (bw_buffer w))%nat;
  bh_cap : (0 < length (bw_buffer w))%nat;
  bh_direct : bw_use_direct w = true -> bw_actual_data_size w = length (sw_content (bw_file w)) /\
    0 < bw_align_size w /\ length (bw_buffer w) mod bw_align_size w = 0;
  bh_fuel : (length (bw_buffer w) + sw_interrupts (bw_file w) < io_fuel)%nat;
}.

Lemma ceil_aligned pos align : 0 < align -> pos mod align = 0 -> ceil_to_block_hi_pos pos align = pos.
Proof.
  intros Ha Hm. unfold ceil_to_block_hi_pos. apply Z.mod_divide in Hm as [k ->]; [|lia].
  replace (k * align + align - 1) with (align - 1 + k * align) by lia.
  rewrite Z.div_add, Z.div_small by lia. lia.
Qed.

Lemma ceil_bounds pos align : 0 < align -> 0 <= pos -> pos <= ceil_to_block_hi_pos pos align < pos + align.
Proof. intros Ha Hp. unfold ceil_to_block_hi_pos. pose proof (Z.div_mod (pos + align - 1) align). pose proof (Z.mod_pos_bound (pos + align - 1) align). lia. Qed.

Lemma ceil_multiple pos align n : 0 < align -> n mod align = 0 -> pos <= n -> ceil_to_block_hi_pos pos align <= n.
Proof.
  intros Ha Hn Hp. rewrite <- (ceil_aligned n align) by done. unfold ceil_to_block_hi_pos.
  apply Z.mul_le_mono_nonneg_r; [lia|]. apply Z.div_le_mono; lia.
Qed.

Lemma on_file_ok {A} (m : St W A) (w : BufferedWriter W) a f :
  m (bw_file w) = (Ok a, f) ->
  on_file m w = (Ok a, mkBufferedWriter f (bw_use_direct w) (bw_next_page_offset w) (bw_actual_data_size w)
    (bw_align_size w) (bw_buffer w) (bw_buf_pos w)).
Proof. intros E. unfold on_file. by rewrite E. Qed.

(** The bytes a flush writes: with direct I/O up to the end of the block. *)
Definition flush_pos (w : BufferedWriter W) : nat :=
  if bw_use_direct w then Z.to_nat (ceil_to_block_hi_pos (bw_buf_pos w) (bw_align_size w)) else bw_buf_pos w.

Lemma flush_pos_bounds w l : bw_holds w l -> (bw_buf_pos w <= flush_pos w <= length (bw_buffer w))%nat.
Proof.
  intros Hw. pose proof (bh_pos _ _ Hw). unfold flush_pos. destruct (bw_use_direct w) eqn:Ed; [|lia].
  destruct (bh_direct _ _ Hw Ed) as (_ & Ha & Hm).
  pose proof (ceil_bounds (bw_buf_pos w) (bw_align_size w) Ha ltac:(lia)).
  pose proof (ceil_multiple (bw_buf_pos w) (bw_align_size w) _ Ha Hm ltac:(lia)). lia.
Qed.

Lemma bw_flush_ok w l :
  bw_holds w l -> (0 < bw_buf_pos w)%nat ->
  exists f, bw_flush io_fuel w = (Ok tt, mkBufferedWriter f (bw_use_direct w) (bw_next_page_offset w)
      (if bw_use_direct w then bw_actual_data_size w + bw_buf_pos w else bw_actual_data_size w)
      (bw_align_size w) (bw_buffer w) 0) /\
    sw_content f = sw_content (bw_file w) ++ take (flush_pos w) (bw_buffer w) /\
    (sw_interrupts f <= sw_interrupts (bw_file w))%nat.
Proof.
  intros Hw Hp. pose proof (flush_pos_bounds w l Hw) as Hfp. pose proof (bh_fuel _ _ Hw) as Hfu.
  destruct (write_all_ok io_fuel (take (flush_pos w) (bw_buffer w)) (bw_file w)) as (f & Hwr & Hc & Hi).
  { rewrite length_take. lia. }
  exists f. split; [|done]. unfold bw_flush. rewrite (st_bind_ok _ _ w (bw_buf_pos w) w) by done.
  rewrite bool_decide_false by lia. rewrite (st_bind_ok _ _ w (bw_use_direct w) w) by done.
  unfold flush_pos in *. destruct (bw_use_direct w) eqn:Ed.
  - rewrite (st_bind_ok _ _ w tt _) by done. set (w1 := set_buf_pos _ _).
    rewrite (st_bind_ok _ _ w1 w1 w1) by done.
    rewrite (st_bind_ok _ _ w1 (take (Z.to_nat (ceil_to_block_hi_pos (bw_buf_pos w) (bw_align_size w))) (bw_buffer w)) w1).
    + rewrite (st_bind_ok _ _ _ _ _ (on_file_ok _ w1 tt f Hwr)). unfold w1. simpl. by rewrite Ed.
    + unfold lift. rewrite slice_ok by (simpl; lia). simpl. by rewrite Nat.sub_0_r.
  - rewrite (st_bind_ok _ _ w tt w) by done. rewrite (st_bind_ok _ _ w w w) by done.
    rewrite (st_bind_ok _ _ w (take (bw_buf_pos w) (bw_buffer w)) w).
    + rewrite (st_bind_ok _ _ _ _ _ (on_file_ok _ w tt f Hwr)). unfold modify, set_buf_pos. simpl. by rewrite Ed.
    + unfold lift. rewrite slice_ok by lia. by rewrite Nat.sub_0_r, drop_0.
Qed.

(** Flushing a full buffer loses nothing and makes room. *)
Lemma bw_flush_full w l :
  bw_holds w l -> bw_buf_pos w = length (bw_buffer w) ->
  exists w', bw_flush io_fuel w = (Ok tt, w') /\ bw_holds w' l /\ bw_buf_pos w' = 0%nat /\
    bw_next_page_offset w' = bw_next_page_offset w /\ length (bw_buffer w') = length (bw_buffer w).
Proof.
  intros Hw Hp. pose proof (bh_cap _ _ Hw).
  assert (Hfp : flush_pos w = length (bw_buffer w)).
  { unfold flush_pos. destruct (bw_use_direct w) eqn:Ed; [|done].
    destruct (bh_direct _ _ Hw Ed) as (_ & Ha & Hm). rewrite Hp, ceil_aligned by done. lia. }
  destruct (bw_flush_ok w l Hw) as (f & Hf & Hc & Hi); [lia|]. rewrite Hfp in Hc.
  eexists. split; [exact Hf|]. split; [|done]. constructor; simpl; [|lia|done| |].
  - rewrite app_nil_r, Hc, <- Hp. apply Hw.
  - intros Ed. rewrite Ed. destruct (bh_direct _ _ Hw Ed) as (Hact & Ha & Hm). split; [|done].
    rewrite Hc, length_app, length_take, Hact. lia.
  - pose proof (bh_fuel _ _ Hw). lia.
Qed.

Lemma bw_fill_buf_ok fuel data w l :
  bw_holds w l ->
  (2 * length data + (if decide (bw_buf_pos w = length (bw_buffer w)) then 1 else 0) < fuel)%nat ->
  exists w', bw_fill_buf io_fuel fuel data w = (Ok tt, w') /\ bw_holds w' (l ++ data) /\
    bw_next_page_offset w' = bw_next_page_offset w.
Proof.
  revert data w l. induction fuel as [|fuel IH]; intros data w l Hw Hf; [lia|]. cbn [bw_fill_buf].
  case_bool_decide as Ed; [subst; exists w; by rewrite app_nil_r|].
  assert (Hlen : (0 < length data)%nat) by (destruct data; [done|simpl; lia]).
  rewrite (st_bind_ok _ _ w w w) by done. pose proof (bh_pos _ _ Hw). case_bool_decide as Hp.
  - rewrite decide_False in Hf by lia.
    set (n := Nat.min (length (bw_buffer w) - bw_buf_pos w) (length data)).
    assert (Hn : (0 < n <= length data)%nat /\ (bw_buf_pos w + n <= length (bw_buffer w))%nat) by (unfold n; lia).
    assert (Htk : length (take n data) = n) by (rewrite length_take; lia).
    set (b' := splice (bw_buffer w) (bw_buf_pos w) (take n data)).
    assert (Hb' : length b' = length (bw_buffer w)) by (apply length_splice; rewrite Htk; lia).
    rewrite (st_bind_ok _ _ w b' w) by (unfold lift; rewrite write_at_ok by (rewrite Htk; lia); done).
    rewrite (st_bind_ok _ _ w tt (set_buf_pos (bw_buf_pos w + n) (set_buffer b' w))) by done.
    destruct (IH (drop n data) (set_buf_pos (bw_buf_pos w + n) (set_buffer b' w)) (l ++ take n data)) as (w' & Hr & Hh & Ho).
    + constructor; simpl; try apply Hw; rewrite ?Hb'; try apply Hw; [|lia].
      rewrite <- (bh_bytes _ _ Hw), <- app_assoc. f_equal. unfold b', splice.
      rewrite app_assoc, take_app_le, take_app_ge; rewrite ?length_app, ?length_take; try lia.
      f_equal. apply take_ge. rewrite Htk. lia.
    + simpl. rewrite Hb', length_drop. case_decide; lia.
    + exists w'. split_and!; [exact Hr| |exact Ho]. by rewrite <- app_assoc, take_drop in Hh.
  - rewrite decide_True in Hf by lia.
    destruct (bw_flush_full w l Hw) as (w1 & Hfl & Hw1 & Hp1 & Ho1 & Hb1); [lia|]. st_step Hfl.
    destruct (IH data w1 l Hw1) as (w' & Hr & Hh & Ho).
    + rewrite decide_False by (pose proof (bh_cap _ _ Hw); lia). lia.
    + exists w'. split_and!; [exact Hr|exact Hh|congruence].
Qed.

Lemma fill_buf_ok data w l :
  bw_holds w l ->
  exists w', fill_buf io_fuel data w = (Ok tt, w') /\ bw_holds w' (l ++ data) /\
    bw_next_page_offset w' = bw_next_page_offset w.
Proof. intros Hw. apply bw_fill_buf_ok; [done|]. case_decide; lia. Qed.

(** After whole writes, the next offset is the number of bytes. *)
Definition bw_repr (w : BufferedWriter W) (l : list Z) : Prop :=
  bw_holds w l /\ bw_next_page_offset w = length l.

(** The bytes of a block with its checksum. *)
Definition with_sum (page : list Z) (sum : option Z) : list Z :=
  page ++ match sum with Some c => le_bytes 4 c | None => [] end.

Lemma write_with_checksum_ok page sum w l :
  bw_repr w l -> length (l ++ with_sum page sum) < 2 ^ 64 ->
  exists w', write_with_checksum io_fuel page sum w = (Ok (length l : Z), w') /\ bw_repr w' (l ++ with_sum page sum).
Proof.
  intros [Hw Ho] H64. unfold write_with_checksum, with_sum in *.
  destruct (fill_buf_ok page w l Hw) as (w1 & Hf1 & Hw1 & Ho1). st_step Hf1.
  assert (Hsum : exists w2, (match sum with Some c => fill_buf io_fuel (le_bytes 4 c) | None => mret tt end) w1 = (Ok tt, w2) /\
    bw_holds w2 (l ++ page ++ match sum with Some c => le_bytes 4 c | None => [] end) /\
    bw_next_page_offset w2 = bw_next_page_offset w1).
  { destruct sum as [c|].
    - destruct (fill_buf_ok (le_bytes 4 c) w1 _ Hw1) as (w2 & Hf2 & Hw2 & Ho2). exists w2. by rewrite app_assoc.
    - exists w1. by rewrite app_nil_r. }
  destruct Hsum as (w2 & Hf2 & Hw2 & Ho2). st_step Hf2.
  rewrite (st_bind_ok _ _ w2 (length l : Z) w2) by (unfold gets; congruence).
  rewrite (st_bind_ok _ _ w2 tt _) by done. eexists. split; [done|]. split.
  - destruct Hw2. by constructor.
  - simpl. rewrite Ho2, Ho1, Ho. rewrite wrap_small; rewrite !length_app in *; destruct sum; simpl in *;
      rewrite ?bool_decide_true, ?bool_decide_false by done; unfold fits; lia.
Qed.

Lemma bw_write_ok page w l :
  bw_repr w l -> length (l ++ page) < 2 ^ 64 ->
  exists w', bw_write io_fuel page w = (Ok (length l : Z), w') /\ bw_repr w' (l ++ page).
Proof.
  intros Hw H64. destruct (write_with_checksum_ok page None w l Hw) as (w' & Hr & Hw');
    unfold with_sum in *; rewrite app_nil_r in *; [done|]. eauto.
Qed.

(** After [flush_and_sync] everything is in the file, and nothing else. *)
Lemma flush_and_sync_ok w l :
  bw_repr w l -> exists w', flush_and_sync io_fuel w = (Ok tt, w') /\ sw_content (bw_file w') = l.
Proof.
  intros [Hw _]. unfold flush_and_sync.
  assert (Hfl : exists w1, bw_flush io_fuel w = (Ok tt, w1) /\ bw_use_direct w1 = bw_use_direct w /\
    l = take (length l) (sw_content (bw_file w1)) /\
    (bw_use_direct w = true -> bw_actual_data_size w1 = length l) /\
    (bw_use_direct w = false -> sw_content (bw_file w1) = l)).
  { pose proof (bh_bytes _ _ Hw) as Hb. destruct (decide (bw_buf_pos w = 0%nat)) as [E|E].
    - exists w. rewrite E in Hb. simpl in Hb. rewrite app_nil_r in Hb. split_and!.
      + unfold bw_flush. rewrite (st_bind_ok _ _ w (bw_buf_pos w) w) by done. by rewrite bool_decide_true.
      + done.
      + by rewrite Hb, firstn_all.
      + intros Ed. rewrite <- Hb. by apply (bh_direct _ _ Hw).
      + done.
    - destruct (bw_flush_ok w l Hw) as (f & Hf & Hc & _); [lia|]. eexists. split; [exact Hf|]. simpl.
      pose proof (flush_pos_bounds w l Hw). pose proof (bh_pos _ _ Hw).
      assert (Hll : length l = (length (sw_content (bw_file w)) + bw_buf_pos w)%nat).
      { rewrite <- Hb, length_app, length_take. lia. }
      split_and!; [done| | |].
      + rewrite Hc, Hll, take_app_add, take_take, Nat.min_l by lia. done.
      + intros Ed. rewrite Ed. destruct (bh_direct _ _ Hw Ed) as (-> & _). lia.
      + intros Ed. rewrite Hc. unfold flush_pos. by rewrite Ed. }
  destruct Hfl as (w1 & Hf & Hd & Htk & Hact & Hno). st_step Hf. rewrite (st_bind_ok _ _ w1 w1 w1) by done.
  rewrite Hd. destruct (bw_use_direct w) eqn:Ed.
  - assert (Hle : (length l <= length (sw_content (bw_file w1)))%nat).
    { rewrite Htk at 1. rewrite length_take. lia. }
    destruct (sw_truncate_ok (bw_actual_data_size w1) (bw_file w1)) as (f & Ht & Hc & _); [rewrite Hact by done; lia|].
    rewrite (st_bind_ok _ _ _ _ _ (on_file_ok _ w1 tt f Ht)).
    destruct (sw_sync_all_ok f) as (f2 & Hs & Hc2 & _). unfold must.
    rewrite (on_file_ok _ _ tt f2) by done. eexists. split; [done|]. simpl. rewrite Hc2, Hc, Hact by done.
    by rewrite Nat2Z.id.
  - rewrite (st_bind_ok _ _ w1 tt w1) by done.
    destruct (sw_sync_all_ok (bw_file w1)) as (f2 & Hs & Hc2 & _). unfold must.
    rewrite (on_file_ok _ _ tt f2) by done. eexists. split; [done|]. simpl. rewrite Hc2. by apply Hno.
Qed.
End writer.

Section new_writer.
Context {W : Type} `{SequentialWriterLaws W} (alloc : nat -> list Z) (io_fuel : nat).
Context (Halloc : forall n, length (alloc n) = n).

Lemma bw_new_ok (file : W) io_batch_size use_direct align_size :
  sw_content file = [] -> 0 < io_batch_size -> 0 < align_size -> 2 ^ Z.log2 align_size = align_size ->
  io_batch_size + align_size + sw_interrupts file <= io_fuel ->
  exists w, bw_new alloc file io_batch_size use_direct align_size = Ok w /\ bw_repr io_fuel w [].
Proof using Halloc.
  intros Hc Hn Ha Hp Hf. unfold bw_new, align_buffer_new.
  rewrite (proj2 (Z.ltb_lt _ _) Hn). cbn [rassert mbind res_bind].
  rewrite (proj2 (Z.ltb_lt _ _) Ha), (proj2 (Z.eqb_eq _ _) Hp). cbn [andb rassert mbind res_bind].
  pose proof (ceil_bounds io_batch_size align_size Ha ltac:(lia)).
  eexists. split; [done|]. split; [|done]. constructor; simpl; rewrite ?Hc, ?Halloc; [done|lia|lia| |lia].
  intros _. split_and!; [done|done|]. rewrite Z2Nat.id by lia. unfold ceil_to_block_hi_pos.
  apply Z.mod_mul. lia.
Qed.

(** A sequence of writes, each with an optional checksum: the offsets returned. *)
Fixpoint write_blocks (ws : list (list Z * option Z)) : St (BufferedWriter W) (list Z) :=
  match ws with
  | [] => mret []
  | (page, sum) :: ws =>
      o ← write_with_checksum io_fuel page sum;
      os ← write_blocks ws;
      mret (o :: os)
  end.
(** Where the blocks start, from an offset on. *)
Fixpoint block_offsets (o : Z) (ws : list (list Z * option Z)) : list Z :=
  match ws with
  | [] => []
  | (page, sum) :: ws => o :: block_offsets (o + length (with_sum page sum)) ws
  end.
Definition block_bytes (ws : list (list Z * option Z)) : list Z :=
  concat ((λ w, with_sum w.1 w.2) <$> ws).

Lemma write_blocks_ok ws w l :
  bw_repr io_fuel w l -> length (l ++ block_bytes ws) < 2 ^ 64 ->
  exists w', write_blocks ws w = (Ok (block_offsets (length l) ws), w') /\ bw_repr io_fuel w' (l ++ block_bytes ws).
Proof using.
  revert w l. induction ws as [|[page sum] ws IH]; intros w l Hw H64.
  - exists w. by rewrite app_nil_r.
  - change (block_bytes ((page, sum) :: ws)) with (with_sum page sum ++ block_bytes ws) in *.
    rewrite app_assoc in H64 |- *. destruct (write_with_checksum_ok io_fuel page sum w l Hw) as (w1 & H1 & Hw1).
    { rewrite (length_app (l ++ _)) in H64. lia. }
    destruct (IH w1 _ Hw1 H64) as (w2 & H2 & Hw2). exists w2. split; [|done].
    cbn [write_blocks block_offsets]. st_step H1. st_step H2. unfold mret, st_ret. do 3 f_equal.
    f_equal. rewrite length_app. lia.
Qed.

(** The buffered writer appends: for any device that works, any buffer size and
    with or without direct I/O, writing blocks through a new [BufferedWriter] and
    then [flush_and_sync] succeeds, every write returns the number of bytes before
    it, and the file then holds the blocks and their checksums one after the other
    and nothing else. *)
Theorem buffered_writer_appends (file : W) (io_batch_size align_size : Z) (use_direct : bool)
    (ws : list (list Z * option Z)) :
  sw_content file = [] -> 0 < io_batch_size -> 0 < align_size -> 2 ^ Z.log2 align_size = align_size ->
  io_batch_size + align_size + sw_interrupts file <= io_fuel -> length (block_bytes ws) < 2 ^ 64 ->
  exists w w1 w2, bw_new alloc file io_batch_size use_direct align_size = Ok w /\
    write_blocks ws w = (Ok (block_offsets 0 ws), w1) /\
    flush_and_sync io_fuel w1 = (Ok tt, w2) /\ sw_content (bw_file w2) = block_bytes ws.
Proof using Halloc.
  intros Hc Hn Ha Hp Hf H64.
  destruct (bw_new_ok file io_batch_size use_direct align_size) as (w & Hnew & Hw); [done..|].
  destruct (write_blocks_ok ws w [] Hw) as (w1 & H1 & Hw1); [done|].
  destruct (flush_and_sync_ok io_fuel w1 _ Hw1) as (w2 & H2 & Hc2). eauto 10.
Qed.
End new_writer.

(** Blocks of 10 and 9 bytes through a buffer of 8 bytes with direct I/O, on a file
    that takes 3 bytes at a time. *)
Lemma buffered_writer_appends_witness :
  let ws := [(replicate 10 1, Some 7); (replicate 9 2, None)] in
  exists w w1 w2, bw_new (λ n, replicate n 0) (mkMemFile [] 2) 5 true 8 = Ok w /\
    write_blocks 13 ws w = (Ok [0; 14], w1) /\
    flush_and_sync 13 w1 = (Ok tt, w2) /\ sw_content (bw_file w2) = block_bytes ws.
Proof.
  apply (buffered_writer_appends (λ n, replicate n 0) 13); try done.
  intros n. apply length_replicate.
Defined.
