(* ===== verification/MapFile.v ===== *)
(** * Page files as a whole ([page_file/map_file_builder.rs])

    A file is a sequence of page groups, then the index of the groups, the addresses
    of the pages the file deallocates, and the footer. The builders are consumed by
    their methods, so an operation maps a builder to an outcome; [finish] also gives
    the file that was written. *)

From stdpp Require Import base numbers list sorting gmap.
From Stdlib Require Import ZArith Lia.
From S2P Require Import Prelude BasePage Iter BTree PageGroup Env FileBuilder.

Definition DEFAULT_BLOCK_SIZE : Z := 4096.
Definition IO_BUFFER_SIZE : Z := Z.shiftl 8 20.
Definition FILE_MAGIC : Z := 1545108.

(** ** The index of a group and the footer *)

Record PageIndex := mkPageIndex {
  px_file_id : Z;
  px_data_handle : BlockHandle;
  px_meta_handle : BlockHandle;
}.

Definition page_index_encoded_size : nat := 4 + block_handle_encoded_size * 2.
Definition page_index_encode (p : PageIndex) : list Z :=
  le_bytes 4 (px_file_id p) ++ block_handle_encode (px_data_handle p) ++ block_handle_encode (px_meta_handle p).
Definition page_index_decode (bytes : list Z) : res PageIndex :=
  if negb (bool_decide (length bytes = page_index_encoded_size)) then Err Corrupted
  else
    file_id ← slice bytes 0 4;
    data ← slice bytes 4 20;
    data_handler ← block_handle_decode data;
    meta ← slice bytes 20 36;
    meta_handler ← block_handle_decode meta;
    Ok (mkPageIndex (le_num file_id) data_handler meta_handler).

Record Footer := mkFooter {
  ft_magic : Z;
  ft_page_index_handle : BlockHandle;
  ft_dealloc_pages_handle : BlockHandle;
  ft_compression : Z;
  ft_checksum_type : Z;
}.

Definition footer_encoded_size : nat := 8 + block_handle_encoded_size * 2 + 2.
Definition footer_encode (f : Footer) : list Z :=
  le_bytes 8 (ft_magic f) ++ block_handle_encode (ft_page_index_handle f) ++
  block_handle_encode (ft_dealloc_pages_handle f) ++ [ft_compression f] ++ [ft_checksum_type f].
Definition footer_decode (bytes : list Z) : res Footer :=
  if negb (bool_decide (length bytes = footer_encoded_size)) then Err Corrupted
  else
    magic ← slice bytes 0 8;
    page_index ← slice bytes 8 24;
    page_index_handle ← block_handle_decode page_index;
    dealloc_pages ← slice bytes 24 40;
    dealloc_pages_handle ← block_handle_decode dealloc_pages;
    compression_bits ← expect (bytes !! 40%nat);
    compression ← ok_or (compression_from_bits compression_bits) Corrupted;
    checksum_bits ← expect (bytes !! 41%nat);
    checksum_type ← ok_or (checksum_from_bits checksum_bits) Corrupted;
    Ok (mkFooter (le_num magic) page_index_handle dealloc_pages_handle compression checksum_type).

(** ** The builders *)

Record FileBuilder (W : Type) := mkFileBuilder {
  fb_file_id : Z;
  fb_writer : BufferedWriter W;
  fb_dealloc_pages : list Z;
  fb_page_index : list PageIndex;
  fb_page_groups : gmap Z PageGroup;
  fb_block_size : Z;
  fb_file_offset : Z;
  fb_compression : Z;
  fb_checksum : Z;
}.
Arguments mkFileBuilder {W} _ _ _ _ _ _ _ _ _.
Arguments fb_file_id {W} _.
Arguments fb_writer {W} _.
Arguments fb_dealloc_pages {W} _.
Arguments fb_page_index {W} _.
Arguments fb_page_groups {W} _.
Arguments fb_block_size {W} _.
Arguments fb_file_offset {W} _.
Arguments fb_compression {W} _.
Arguments fb_checksum {W} _.

Record PageGroupBuilder (W : Type) := mkPageGroupBuilder {
  gb_group_id : Z;
  gb_base_offset : Z;
  gb_builder : FileBuilder W;
  gb_inner : CommonFileBuilder;
}.
Arguments mkPageGroupBuilder {W} _ _ _ _.
Arguments gb_group_id {W} _.
Arguments gb_base_offset {W} _.
Arguments gb_builder {W} _.
Arguments gb_inner {W} _.

Section map_file.
Context `{PageCodecs} {W : Type} `{SequentialWriter W} (alloc : nat -> list Z) (io_fuel : nat).

Definition file_builder_new (file_id : Z) (file : W) (use_direct : bool) (block_size compression checksum : Z) :
    res (FileBuilder W) :=
  writer ← bw_new alloc file IO_BUFFER_SIZE use_direct block_size;
  Ok (mkFileBuilder file_id writer [] [] ∅ block_size 0 compression checksum).

(** A step of the writer of a builder. *)
Definition with_writer {A} (m : St (BufferedWriter W) A) (b : FileBuilder W) : res (A * FileBuilder W) :=
  let '(r, w) := m (fb_writer b) in
  a ← r;
  Ok (a, mkFileBuilder (fb_file_id b) w (fb_dealloc_pages b) (fb_page_index b) (fb_page_groups b)
           (fb_block_size b) (fb_file_offset b) (fb_compression b) (fb_checksum b)).

Definition add_page_group (group_id : Z) (b : FileBuilder W) : PageGroupBuilder W :=
  mkPageGroupBuilder group_id (bw_next_page_offset (fb_writer b)) b
    (common_builder_new group_id (fb_compression b) (fb_checksum b)).

Definition fb_add_dealloc_pages (pages : list Z) (b : FileBuilder W) : FileBuilder W :=
  mkFileBuilder (fb_file_id b) (fb_writer b) (bset_extend pages (fb_dealloc_pages b)) (fb_page_index b)
    (fb_page_groups b) (fb_block_size b) (fb_file_offset b) (fb_compression b) (fb_checksum b).

Definition gb_add_page (page_id page_addr : Z) (page_info : PageInfo) (page_content : list Z)
    (g : PageGroupBuilder W) : res (PageGroupBuilder W) :=
  '(inner, builder) ← with_writer (common_add_page io_fuel (gb_inner g) page_id page_addr page_info page_content) (gb_builder g);
  Ok (mkPageGroupBuilder (gb_group_id g) (gb_base_offset g) builder inner).

Definition gb_add_dealloc_pages (pages : list Z) (g : PageGroupBuilder W) : PageGroupBuilder W :=
  mkPageGroupBuilder (gb_group_id g) (gb_base_offset g) (fb_add_dealloc_pages pages (gb_builder g)) (gb_inner g).

(** [PageGroupBuilder::finish]. *)
Definition gb_finish (g : PageGroupBuilder W) : res (FileBuilder W) :=
  '(inner, b) ← with_writer (finish_meta_block io_fuel (gb_inner g)) (gb_builder g);
  '((data, meta), b) ← with_writer (finish_index_block io_fuel inner) b;
  let page_index := fb_page_index b ++ [mkPageIndex (gb_group_id g) data meta] in
  file_meta ← as_page_group_meta inner (fb_file_id b) (gb_base_offset g) data;
  let page_group := page_group_new file_meta in
  Ok (mkFileBuilder (fb_file_id b) (fb_writer b) (fb_dealloc_pages b) page_index
        (<[gb_group_id g := page_group]> (fb_page_groups b)) (fb_block_size b)
        (bw_next_page_offset (fb_writer b)) (fb_compression b) (fb_checksum b)).

(** [PageIndexBuilder::finish] and the two blocks at the end. *)
Definition page_index_block (pages : list PageIndex) : list Z := concat (page_index_encode <$> pages).
Definition dealloc_pages_block (pages : list Z) : list Z := concat (le_bytes 8 <$> pages).

Definition finish_block (block : list Z) (b : FileBuilder W) : res (BlockHandle * FileBuilder W) :=
  '(offset, b) ← with_writer (bw_write io_fuel block) b;
  Ok (mkBlockHandle offset (length block), b).

Definition finish_tail_blocks (b : FileBuilder W) : res (Z * FileBuilder W) :=
  '(page_index_handle, b) ← finish_block (page_index_block (fb_page_index b)) b;
  '(dealloc_pages_handle, b) ← finish_block (dealloc_pages_block (fb_dealloc_pages b)) b;
  let footer := mkFooter FILE_MAGIC page_index_handle dealloc_pages_handle (fb_compression b) (fb_checksum b) in
  let payload := footer_encode footer in
  '(foot_offset, b) ← with_writer (bw_write io_fuel payload) b;
  Ok (foot_offset + length payload, b).

Definition get_referenced_groups (dealloc_pages : list Z) : gset Z :=
  list_to_set ((λ page_addr, (split_page_addr page_addr).1) <$> dealloc_pages).

(** [FileBuilder::finish]: the page groups, the file info and the file. *)
Definition fb_finish (up2 : Z) (b : FileBuilder W) : res (gmap Z PageGroup * FileInfo * W) :=
  '(file_size, b) ← finish_tail_blocks b;
  '(_, b) ← with_writer (flush_and_sync io_fuel) b;
  let page_groups := pg_meta <$> fb_page_groups b in
  let file_meta := mkFileMeta (fb_file_id b) file_size DEFAULT_BLOCK_SIZE (fb_checksum b) (fb_compression b)
    (get_referenced_groups (fb_dealloc_pages b)) page_groups in
  Ok (fb_page_groups b, mkFileInfo up2 up2 file_meta, bw_file (fb_writer b)).
End map_file.
