(* ===== verification/FileReader.v ===== *)
(** * Reading page files ([page_file/{file_reader,read_meta,mod}.rs])

    The reader of a file, with or without direct I/O; the metadata of a file from its
    footer on ([FileMetaHolder::read]); and the content of a page
    ([PageFiles::read_file_page_from_reader]). The reader is the state; [alloc] is
    the memory of a new aligned buffer and [io_fuel] bounds the rounds of one read.
    The counter of bytes read is left out. *)

From stdpp Require Import base numbers list sorting gmap.
From Stdlib Require Import ZArith Lia.
From S2P Require Import Prelude BasePage Iter BTree PageGroup Env FileBuilder MapFile.

(** ** [FileReader] *)

Record FileReader (R : Type) := mkFileReader {
  fr_reader : R;
  fr_use_direct : bool;
  fr_align_size : Z;
  fr_file_size : Z;
}.
Arguments mkFileReader {R} _ _ _ _.
Arguments fr_reader {R} _.
Arguments fr_use_direct {R} _.
Arguments fr_align_size {R} _.
Arguments fr_file_size {R} _.

Section file_reader.
Context {R : Type} `{PositionalReader R} (alloc : nat -> list Z) (io_fuel : nat).

Definition on_reader {A} (m : St R A) : St (FileReader R) A := λ r,
  let '(x, r') := m (fr_reader r) in
  (x, mkFileReader r' (fr_use_direct r) (fr_align_size r) (fr_file_size r)).

(** The loop of [inner_read_exact_at] on the buffer that is left: the buffer after
    it. A read that does not end on a block is taken for the end of the file. *)
Fixpoint inner_read_loop (fuel : nat) (align_size : Z) (buf : list Z) (pos : Z) : St R (list Z) :=
  match fuel with
  | O => lift Panic
  | S fuel =>
      if bool_decide (buf = []) then mret []
      else
        r ← attempt (pr_read_at (length buf) pos);
        match r with
        | inl [] => lift (Err (Io UnexpectedEof))
        | inl bs =>
            let rest := drop (length bs) buf in
            if is_block_aligned_pos (length bs) align_size then
              rest ← inner_read_loop fuel align_size rest (wrap64 (pos + length bs)); mret (bs ++ rest)
            else mret (bs ++ rest)
        | inr (Io Interrupted) => inner_read_loop fuel align_size buf pos
        | inr e => lift (Err e)
        end
  end.
Definition inner_read_exact_at (align_size : Z) (buf : list Z) (pos : Z) : St R (list Z) :=
  _ ← lift (rassert (is_block_aligned_pos pos align_size));
  inner_read_loop io_fuel align_size buf pos.

(** [FileReader::read_exact_at] into a buffer of [len] bytes. *)
Definition fr_read_exact_at (len : nat) (req_offset : Z) : St (FileReader R) (list Z) :=
  if bool_decide (len = 0%nat) then mret []
  else
    r ← gets id;
    if negb (fr_use_direct r) then on_reader (read_exact_at io_fuel len req_offset)
    else
      let align_offset := floor_to_block_lo_pos req_offset (fr_align_size r) in
      let offset_ahead := req_offset - align_offset in
      let align_buf_size := ceil_to_block_hi_pos (req_offset + len) (fr_align_size r) - align_offset in
      align_buf ← lift (align_buffer_new alloc align_buf_size (fr_align_size r));
      read_buf ← on_reader (inner_read_exact_at (fr_align_size r) align_buf align_offset);
      lift (slice read_buf (Z.to_nat offset_ahead) (Z.to_nat offset_ahead + len)).

Definition read_block (h : BlockHandle) : St (FileReader R) (list Z) :=
  fr_read_exact_at (Z.to_nat (bh_length h)) (bh_offset h).

(** ** [FileMetaHolder] *)

Definition read_footer : St (FileReader R) Footer :=
  file_size ← gets fr_file_size;
  if file_size <? footer_encoded_size then lift (Err Corrupted)
  else
    buf ← fr_read_exact_at footer_encoded_size (file_size - footer_encoded_size);
    lift (footer_decode buf).

Fixpoint page_indexes_loop (fuel : nat) (buf : list Z) : res (list PageIndex) :=
  match fuel with
  | O => Panic
  | S fuel =>
      if bool_decide (buf = []) then Ok []
      else
        payload ← slice buf 0 page_index_encoded_size;
        page_index ← page_index_decode payload;
        rest ← page_indexes_loop fuel (drop page_index_encoded_size buf);
        Ok (page_index :: rest)
  end.
Definition read_page_indexes (footer : Footer) : St (FileReader R) (list PageIndex) :=
  buf ← read_block (ft_page_index_handle footer);
  lift (page_indexes_loop (S (length buf)) buf).

Fixpoint dealloc_pages_loop (fuel : nat) (buf : list Z) : res (list Z) :=
  match fuel with
  | O => Panic
  | S fuel =>
      if bool_decide (buf = []) then Ok []
      else
        payload ← slice buf 0 8;
        rest ← dealloc_pages_loop fuel (drop 8 buf);
        Ok (le_num payload :: rest)
  end.
Definition read_dealloc_pages (footer : Footer) : St (FileReader R) (list Z) :=
  buf ← read_block (ft_dealloc_pages_handle footer);
  lift (dealloc_pages_loop (S (length buf)) buf).

Definition read_page_group_index_block (page_index : PageIndex) : St (FileReader R) IndexBlock :=
  data_block ← read_block (px_data_handle page_index);
  meta_block ← read_block (px_meta_handle page_index);
  lift (index_block_decode data_block meta_block).

Definition read_page_table (group_meta : PageGroupMeta) : St (FileReader R) (list (Z * Z)) :=
  buf ← read_block (get_page_table_meta_page group_meta);
  lift (page_table_decode buf).

Record FileMetaHolder := mkFileMetaHolder {
  fh_file_meta : FileMeta;
  fh_page_groups : gmap Z PageGroupMeta;
  fh_page_tables : gmap Z (list (Z * Z));
  fh_dealloc_pages : list Z;
}.

(** The loop of [read] over the groups of the file. *)
Fixpoint read_groups (file_id : Z) (page_indexes : list PageIndex) (offset : Z)
    (metas : gmap Z PageGroupMeta) (tables : gmap Z (list (Z * Z))) :
    St (FileReader R) (gmap Z PageGroupMeta * gmap Z (list (Z * Z))) :=
  match page_indexes with
  | [] => mret (metas, tables)
  | page_index :: rest =>
      index_block ← read_page_group_index_block page_index;
      '(indexes, offsets) ← lift (as_meta_file_cached (px_data_handle page_index) index_block);
      file_meta ← lift (page_group_meta_new (px_file_id page_index) file_id offset indexes offsets);
      page_table ← read_page_table file_meta;
      read_groups file_id rest (wrap64 (bh_offset (px_meta_handle page_index) + bh_length (px_meta_handle page_index)))
        (<[px_file_id page_index := file_meta]> metas) (<[px_file_id page_index := page_table]> tables)
  end.

Definition file_meta_read (file_id : Z) : St (FileReader R) FileMetaHolder :=
  footer ← read_footer;
  page_indexes ← read_page_indexes footer;
  '(metas, tables) ← read_groups file_id page_indexes 0 ∅ ∅;
  dealloc_pages ← read_dealloc_pages footer;
  let referenced_groups := list_to_set ((λ page_addr, wrap32 (Z.shiftr page_addr 32)) <$> dealloc_pages) in
  reader ← gets id;
  let file_meta := mkFileMeta file_id (fr_file_size reader) (fr_align_size reader) (ft_checksum_type footer)
    (ft_compression footer) referenced_groups metas in
  mret (mkFileMetaHolder file_meta metas tables dealloc_pages).

(** ** The content of a page *)

(** What [read_file_page_from_reader] makes of the bytes of a page. *)
Definition decode_page `{PageCodecs} (file_meta : FileMeta) (output : list Z) : res (list Z) :=
  output ←
    (if negb (fm_checksum_type file_meta =? CHECKSUM_NONE) then
       _ ← rassert (bool_decide (4 <= length output)%nat);
       sum ← slice output (length output - 4) (length output);
       let output := take (length output - 4) output in
       _ ← check_checksum (fm_checksum_type file_meta) output (le_num sum);
       Ok output
     else Ok output);
  let compression := fm_compression file_meta in
  if negb (compression =? COMPRESSION_NONE) then
    '(len, skip) ← decompress_len compression output;
    input ← slice output skip (length output);
    decompress_into compression input len
  else Ok output.

Definition read_file_page_from_reader `{PageCodecs} (file_meta : FileMeta) (handle : PageHandle) : St (FileReader R) (list Z) :=
  output ← fr_read_exact_at (Z.to_nat (ph_size handle)) (ph_offset handle);
  lift (decode_page file_meta output).
End file_reader.
