(* ===== verification/FileRead.v ===== *)
(** * The file reader reads the file ([FileReader] of [page_file/file_reader.rs])

    With buffered or direct I/O, whatever the short reads and interrupts of the
    device, a range inside the file is read exactly. Direct reads round the range to
    whole blocks; the law for them says that a short read ends on a block unless it
    ends the file. *)

From stdpp Require Import base numbers list sorting gmap.
From Stdlib Require Import ZArith Lia.
From S2P Require Import Prelude BasePage Iter BTree PageGroup Env FileBuilder FileWriter MapFile FileReader.

(** The bytes of a range. *)
Definition range_of (content : list Z) (pos : Z) (len : nat) : list Z := take len (drop (Z.to_nat pos) content).

Lemma range_app a b c (pos : Z) (len : nat) :
  pos = length a -> len = length b -> range_of (a ++ b ++ c) pos len = b.
Proof. intros -> ->. unfold range_of. by rewrite Nat2Z.id, drop_app_length, take_app_length. Qed.
Lemma length_range content pos (len : nat) :
  0 <= pos -> pos + len <= length content -> length (range_of content pos len) = len.
Proof. intros. unfold range_of. rewrite length_take, length_drop. lia. Qed.

Definition power_of_two (n : Z) : Prop := 0 < n /\ 2 ^ Z.log2 n = n.

Lemma land_mod pos align : power_of_two align -> Z.land pos (align - 1) = pos mod align.
Proof.
  intros [Ha Hp]. rewrite <- Hp at 1 2. replace (2 ^ Z.log2 align - 1) with (Z.ones (Z.log2 align)).
  - rewrite Z.land_ones by apply Z.log2_nonneg. done.
  - rewrite Z.ones_equiv. lia.
Qed.

(** Rounding to blocks. *)
Lemma floor_spec pos align :
  power_of_two align -> 0 <= pos ->
  let f := floor_to_block_lo_pos pos align in 0 <= f <= pos /\ pos < f + align /\ f mod align = 0.
Proof.
  intros Ha Hp. unfold floor_to_block_lo_pos. rewrite land_mod by done. destruct Ha as [Ha _].
  pose proof (Z.mod_pos_bound pos align Ha). pose proof (Z.mod_le pos align Hp Ha). cbn zeta.
  split_and!; try lia. rewrite Zminus_mod_idemp_r, Z.sub_diag. apply Z.mod_0_l. lia.
Qed.
Lemma ceil_spec pos align :
  0 < align -> 0 <= pos ->
  let c := ceil_to_block_hi_pos pos align in pos <= c < pos + align /\ c mod align = 0.
Proof.
  intros Ha Hp. split; [by apply ceil_bounds|]. unfold ceil_to_block_hi_pos. apply Z.mod_mul. lia.
Qed.

Class DirectReaderLaws (R : Type) `{PositionalReaderLaws R} (align : Z) : Prop :=
  direct_read_ok : forall len pos r bs r', pr_read_at len pos r = (Ok bs, r') -> 0 <= pos -> pos mod align = 0 -> len mod align = 0 ->
    length bs mod align = 0 \/ length (pr_content r) <= pos + length bs.

Section reader.
Context {R : Type} `{PositionalReaderLaws R} (alloc : nat -> list Z) (io_fuel : nat).

(** The loop of the direct read fills the buffer from the file, up to its end. *)
Lemma inner_read_loop_ok align `{!DirectReaderLaws R align} fuel buf pos r :
  power_of_two align -> pos mod align = 0 -> length buf mod align = 0 -> 0 <= pos ->
  pos + length buf < length (pr_content r) + align -> pos + length buf < 2 ^ 64 ->
  (length buf + pr_interrupts r < fuel)%nat ->
  exists rest r', inner_read_loop fuel align buf pos r =
      (Ok (range_of (pr_content r) pos (length buf) ++ rest), r') /\
    length (range_of (pr_content r) pos (length buf) ++ rest) = length buf /\
    pr_content r' = pr_content r /\ (pr_interrupts r' <= pr_interrupts r)%nat.
Proof.
  intros Ha. assert (Ha0 : 0 < align) by apply Ha. revert buf pos r. induction fuel as [|fuel IH]; intros buf pos r Hpa Hba Hp Hend H64 Hf; [lia|].
  cbn [inner_read_loop]. case_bool_decide as Eb; [subst; exists [], r; done|].
  assert (Hlen : (0 < length buf)%nat) by (destruct buf; [done|simpl; lia]).
  assert (Hblock : align <= length buf).
  { destruct Ha as [Ha _]. apply Z.mod_divide in Hba as [k Hk]; [|lia]. assert (0 < k) by (apply (Z.mul_pos_cancel_r k align); lia). nia. }
  destruct (pr_read_ok (length buf) pos r Hp Hlen) as [(n & r1 & Hr & Hn & Hz & Hin & Hc & Hi)|(r1 & Hr & Hc & Hi)].
  - rewrite (st_bind_ok _ _ r (inl (take n (drop (Z.to_nat pos) (pr_content r)))) r1)
      by (unfold attempt; by rewrite Hr).
    pose proof (direct_read_ok _ _ _ _ _ Hr Hp Hpa Hba) as Hd.
    fold (range_of (pr_content r) pos n) in *. set (bs := range_of (pr_content r) pos n) in *.
    assert (Hbs : length bs = n) by (apply length_range; lia).
    assert (Hn0 : n <> 0%nat) by lia. rewrite Hbs in Hd.
    destruct bs as [|b0 bs0] eqn:Ebs; [done|]. rewrite <- Ebs in *. cbv zeta. rewrite Hbs.
    unfold is_block_aligned_pos. rewrite land_mod by done.
    destruct (Z.eqb_spec (n mod align) 0) as [Hna|Hna].
    + rewrite wrap_small by (unfold fits; lia).
      destruct (IH (drop n buf) (pos + n) r1) as (rest & r2 & H2 & Hl2 & Hc2 & Hi2); rewrite ?length_drop in *.
      * rewrite Z.add_mod, Hpa, Hna by lia. apply Z.mod_0_l. lia.
      * rewrite Nat2Z.inj_sub, Zminus_mod, Hba, Hna by lia. apply Z.mod_0_l. lia.
      * lia.
      * rewrite Hc. lia.
      * lia.
      * lia.
      * st_step H2. exists rest, r2. rewrite Hc in *.
        assert (E : range_of (pr_content r) pos (length buf) = bs ++ range_of (pr_content r) (pos + n) (length buf - n)).
        { unfold bs, range_of. replace (Z.to_nat (pos + n)) with (Z.to_nat pos + n)%nat by lia.
          rewrite <- drop_drop. replace (length buf) with (n + (length buf - n))%nat at 1 by lia.
          by rewrite take_take_drop. }
        rewrite E, <- !app_assoc. split_and!; [done| |congruence|lia].
        rewrite length_app, Hbs. lia.
    + destruct Hd as [?|Hd]; [done|].
      assert (E : range_of (pr_content r) pos (length buf) = bs).
      { unfold bs, range_of. rewrite !take_ge; rewrite ?length_drop; lia || done. }
      exists (drop n buf), r1. rewrite E. split_and!; [done| |done|lia].
      rewrite length_app, length_drop, Hbs. lia.
  - rewrite (st_bind_ok _ _ r (inr (Io Interrupted)) r1) by (unfold attempt; by rewrite Hr).
    destruct (IH buf pos r1) as (rest & r2 & H2 & Hl2 & Hc2 & Hi2); rewrite ?Hc; try done; [lia|].
    exists rest, r2. rewrite H2, Hc in *. split_and!; [done|done|congruence|lia].
Qed.

(** A reader of a file with the given content. *)
Record fr_repr (r : FileReader R) (content : list Z) : Prop := {
  fq_content : pr_content (fr_reader r) = content;
  fq_size : fr_file_size r = length content;
  fq_align : power_of_two (fr_align_size r);
  fq_fuel : length content + 2 * fr_align_size r + pr_interrupts (fr_reader r) < io_fuel;
  fq_64 : length content + fr_align_size r < 2 ^ 64;
  fq_direct : fr_use_direct r = true -> DirectReaderLaws R (fr_align_size r);
}.

Context (Halloc : forall n, length (alloc n) = n).

Lemma fr_read_ok r content (len : nat) pos :
  fr_repr r content -> 0 <= pos -> pos + len <= length content ->
  exists r', fr_read_exact_at alloc io_fuel len pos r = (Ok (range_of content pos len), r') /\ fr_repr r' content /\
    fr_align_size r' = fr_align_size r.
Proof using Halloc.
  intros Hr Hp Hl. pose proof (fq_content _ _ Hr) as Hc. pose proof (fq_fuel _ _ Hr). pose proof (fq_64 _ _ Hr).
  pose proof (fq_align _ _ Hr) as Ha. unfold fr_read_exact_at.
  case_bool_decide as El; [exists r; subst; by unfold range_of|].
  rewrite (st_bind_ok _ _ r r r) by done. destruct (fr_use_direct r) eqn:Ed; cbn [negb].
  - set (align := fr_align_size r) in *. destruct (floor_spec pos align Ha Hp) as (Hf1 & Hf2 & Hf3).
    set (lo := floor_to_block_lo_pos pos align) in *.
    destruct (ceil_spec (pos + len) align) as [Hc1 Hc2]; [apply Ha|lia|].
    set (hi := ceil_to_block_hi_pos (pos + len) align) in *.
    assert (Hsz : (hi - lo) mod align = 0).
    { destruct Ha. rewrite Zminus_mod, Hc2, Hf3 by lia. apply Z.mod_0_l. lia. }
    assert (Hnew : align_buffer_new alloc (hi - lo) align = Ok (alloc (Z.to_nat (hi - lo)))).
    { unfold align_buffer_new. destruct Ha as [Ha1 Ha2].
      rewrite (proj2 (Z.ltb_lt 0 (hi - lo)) ltac:(lia)). cbn [rassert mbind res_bind].
      rewrite (proj2 (Z.ltb_lt _ _) Ha1), (proj2 (Z.eqb_eq _ _) Ha2). cbn [andb rassert mbind res_bind].
      by rewrite ceil_aligned by done. }
    rewrite (st_bind_ok _ _ r (alloc (Z.to_nat (hi - lo))) r) by (unfold lift; by rewrite Hnew).
    set (buf := alloc (Z.to_nat (hi - lo))). assert (Hbuf : length buf = Z.to_nat (hi - lo)) by apply Halloc.
    pose proof (fq_direct _ _ Hr Ed) as Hdl.
    destruct (inner_read_loop_ok align io_fuel buf lo (fr_reader r)) as (rest & r1 & Hio & Hl1 & Hc' & Hi1); try done;
      rewrite ?Hbuf, ?Z2Nat.id, ?Hc by lia; try lia.
    rewrite Hc in *. rewrite Hbuf in *.
    erewrite st_bind_ok; [|unfold on_reader, inner_read_exact_at, is_block_aligned_pos; rewrite land_mod, Hf3 by done;
      cbn [rassert Z.eqb]; rewrite (st_bind_ok _ _ (fr_reader r) tt (fr_reader r)) by done; rewrite Hio; reflexivity].
    exists (mkFileReader r1 (fr_use_direct r) align (fr_file_size r)). split; [|split; [|done]].
    + unfold lift. rewrite slice_ok by lia. f_equal. f_equal. unfold range_of in *.
      replace (Z.to_nat (pos - lo) + len - Z.to_nat (pos - lo))%nat with len by lia.
      assert (Hin : (Z.to_nat (pos - lo) + len <= length (take (Z.to_nat (hi - lo)) (drop (Z.to_nat lo) content)))%nat).
      { rewrite length_take, length_drop. lia. }
      rewrite drop_app_le, take_app_le by (rewrite ?length_drop; lia).
      rewrite skipn_firstn_comm, drop_drop, take_take. f_equal; [lia|]. f_equal. lia.
    + destruct Hr. constructor; simpl; try done. unfold align in *; lia.
  - destruct (read_exact_at_ok io_fuel len pos (fr_reader r)) as (r1 & Hio & Hc1 & Hi1); [destruct Ha; lia|lia|destruct Ha; lia|].
    rewrite Hc, decide_True in Hio by lia.
    exists (mkFileReader r1 false (fr_align_size r) (fr_file_size r)). split; [|split; [|done]].
    + unfold on_reader. by rewrite Hio, Ed.
    + destruct Hr. constructor; simpl; try done; [congruence|lia].
Qed.

(** The bytes of a page in a file, and reading them. *)
Definition page_in_file `{PageCodecs} (bytes : list Z) (fm : FileMeta) (handle : PageHandle) (page : list Z) : Prop :=
  0 <= ph_offset handle /\ 0 <= ph_size handle /\ ph_offset handle + ph_size handle <= length bytes /\
  decode_page fm (range_of bytes (ph_offset handle) (Z.to_nat (ph_size handle))) = Ok page.
Lemma page_in_file_reads `{PageCodecs} bytes fm handle page r :
  page_in_file bytes fm handle page -> fr_repr r bytes ->
  exists r', read_file_page_from_reader alloc io_fuel fm handle r = (Ok page, r') /\ fr_repr r' bytes /\ fr_align_size r' = fr_align_size r.
Proof using Halloc.
  intros (Ho & Hs & Hend & Hdec) Hr. destruct (fr_read_ok r bytes (Z.to_nat (ph_size handle)) (ph_offset handle) Hr) as (r' & E & Hr' & Ha); [done|lia|].
  exists r'. unfold read_file_page_from_reader. st_step E. unfold lift. by rewrite Hdec.
Qed.

(** Reading [len] bytes at a position from a file gives exactly the bytes of the
    file there when they are inside the file, with buffered and with direct I/O, and
    whatever the short reads and the interrupts of the device; a buffered read that
    passes the end of the file fails with an unexpected end of file. *)
Theorem file_reader_reads_exactly r content (len : nat) pos :
  fr_repr r content -> 0 <= pos -> pos + len < 2 ^ 64 ->
  len + pr_interrupts (fr_reader r) < io_fuel ->
  exists r' : FileReader R, pr_content (fr_reader r') = content /\
    (pos + len <= length content -> fr_read_exact_at alloc io_fuel len pos r = (Ok (range_of content pos len), r')) /\
    (length content < pos + len -> len <> 0%nat -> fr_use_direct r = false ->
      fr_read_exact_at alloc io_fuel len pos r = (Err (Io UnexpectedEof), r')).
Proof using Halloc.
  intros Hr Hp H64 Hf. destruct (decide (pos + len <= length content)) as [Hl|Hl].
  - destruct (fr_read_ok r content len pos Hr Hp Hl) as (r' & Hrd & Hr' & _).
    exists r'. split; [apply Hr'|]. split; [done|lia].
  - destruct (read_exact_at_ok io_fuel len pos (fr_reader r)) as (r1 & Hio & Hc1 & _); [lia|lia|done|].
    rewrite (fq_content _ _ Hr) in *.
    exists (mkFileReader r1 (fr_use_direct r) (fr_align_size r) (fr_file_size r)). split; [done|].
    split; [done|]. intros _ Hnz Hd. rewrite decide_False in Hio by lia.
    unfold fr_read_exact_at. rewrite bool_decide_false by done. rewrite (st_bind_ok _ _ r r r) by done.
    rewrite Hd. cbn [negb]. unfold on_reader. by rewrite Hio, Hd.
Qed.
End reader.

#[local] Opaque mem_block.
#[global] Instance mem_direct_laws (k : Z) : 0 <= k <= 12 -> DirectReaderLaws MemFile (2 ^ k).
Proof.
  intros Hk len pos r bs r' E Hp0 Hp Hl. unfold pr_read_at, mem_reader in E. injection E as <- <-. cbn [pr_content mem_reader_laws].
  rewrite length_take, length_drop.
  set (n := Nat.min len (S (mf_chunk r) * mem_block)).
  assert (Hn : n mod 2 ^ k = 0).
  { unfold n. destruct (Nat.min_spec len (S (mf_chunk r) * mem_block)) as [[_ ->]|[_ ->]]; [done|].
    rewrite Nat2Z.inj_mul. change (Z.of_nat mem_block) with (2 ^ 12). replace 12 with (12 - k + k) by lia.
    rewrite Z.pow_add_r, Z.mul_assoc by lia. apply Z.mod_mul. apply Z.pow_nonzero; lia. }
  change (mem_block + mf_chunk r * mem_block)%nat with (S (mf_chunk r) * mem_block)%nat.
  fold n. clearbody n. destruct (decide (n <= length (mf_data r) - Z.to_nat pos)%nat); [left|right; lia].
  by rewrite Nat.min_l.
Qed.
#[local] Transparent mem_block.

Lemma file_reader_reads_exactly_witness :
  (forall n : nat, length (replicate n 0) = n) /\
  exists r' : FileReader MemFile, pr_content (fr_reader r') = [1; 2; 3; 4] /\
    fr_read_exact_at (λ n, replicate n 0) 100 2 1 (mkFileReader (mkMemFile [1; 2; 3; 4] 0) true 16 4) = (Ok [2; 3], r').
Proof.
  split; [intros; apply length_replicate|].
  destruct (file_reader_reads_exactly (λ n, replicate n 0) 100 (λ n, length_replicate n 0)
    (mkFileReader (mkMemFile [1; 2; 3; 4] 0) true 16 4) [1; 2; 3; 4] 2 1) as (r' & Hc & Hok & _).
  - constructor; try done. intros _. apply (mem_direct_laws 4). lia.
  - lia.
  - lia.
  - simpl. lia.
  - exists r'. split; [exact Hc|]. apply Hok. simpl. lia.
Defined.

(** A direct read that passes the end of the file inside its last block succeeds: it
    returns the bytes of the file and, behind them, what was in the memory of the
    aligned buffer. *)
Example direct_read_past_end :
  fst (fr_read_exact_at (λ n, replicate n 170) 100 4 2 (mkFileReader (mkMemFile [1; 2; 3; 4] 0) true 16 4)) =
    Ok [3; 4; 170; 170].
Proof. vm_compute. reflexivity. Qed.
