(* ===== verification/FileBlocks.v ===== *)
(** * The blocks of a page file read back ([page_file/{file_builder,map_file_builder}.rs])

    Decoding what each encoder writes: page content (compressed and checked), page
    tables, index blocks, the index of the groups, deallocated pages and the
    footer. *)

From stdpp Require Import base numbers list sorting gmap.
From Stdlib Require Import ZArith Lia.
From S2P Require Import Prelude BasePage Iter BTree PageGroup Env FileBuilder FileWriter MapFile FileReader.

Lemma slice_at {A} (l1 l2 l3 : list A) i j :
  i = length l1 -> j = (length l1 + length l2)%nat -> slice (l1 ++ l2 ++ l3) i j = Ok l2.
Proof. intros -> ->. apply slice_app. Qed.
Lemma slice_head {A} (l2 l3 : list A) j : j = length l2 -> slice (l2 ++ l3) 0 j = Ok l2.
Proof. intros ->. apply (slice_at []); done. Qed.
Lemma slice_tail {A} (l1 l2 : list A) i j :
  i = length l1 -> j = (length l1 + length l2)%nat -> slice (l1 ++ l2) i j = Ok l2.
Proof. intros -> ->. rewrite <- (app_nil_r l2) at 1. by apply slice_at. Qed.

(** ** Page content *)

Section pages.
Context `{PageCodecsLaws}.

Definition codec_ok (compression checksum_type : Z) : Prop :=
  (compression = COMPRESSION_NONE \/ compression = COMPRESSION_SNAPPY \/ compression = COMPRESSION_ZSTD) /\
  (checksum_type = CHECKSUM_NONE \/ checksum_type = CHECKSUM_CRC32).

(** What a page file stores for a page. *)
Definition stored (compression : Z) (content : list Z) : list Z :=
  if compression =? COMPRESSION_NONE then content
  else if compression =? COMPRESSION_SNAPPY then snap_compress content
  else le_bytes 8 (length content) ++ zstd_compress content.
Definition sum_of (checksum_type : Z) (content : list Z) : option Z :=
  if checksum_type =? CHECKSUM_NONE then None else Some (crc32 content).
Definition page_bytes (compression checksum_type : Z) (content : list Z) : list Z :=
  with_sum (stored compression content) (sum_of checksum_type (stored compression content)).

Lemma page_block_ok compression checksum_type content :
  codec_ok compression checksum_type ->
  page_block compression checksum_type content =
    Ok (stored compression content, sum_of checksum_type (stored compression content)).
Proof.
  intros [Hc Hk]. unfold page_block.
  assert (Hcp : (max_len ← compress_max_len compression content; compress_page compression content max_len) =
    Ok (stored compression content)).
  { destruct Hc as [->|[->| ->]]; unfold compress_max_len, compress_page, stored; simpl; [done|by rewrite bool_decide_true|].
    pose proof (zstd_len_ok content). rewrite !bool_decide_true by lia. done. }
  destruct (compress_max_len compression content) as [n| |]; try done. cbn [mbind res_bind] in *. rewrite Hcp. cbn [mbind res_bind].
  destruct Hk as [->| ->]; done.
Qed.

(** The checksum is cut off and checked. *)
Lemma decode_page_sum fm content sum :
  fm_checksum_type fm = CHECKSUM_CRC32 -> length sum = 4%nat ->
  decode_page fm (content ++ sum) =
    if crc32 content =? le_num sum then
      decode_page (mkFileMeta (fm_file_id fm) (fm_file_size fm) (fm_block_size fm) CHECKSUM_NONE (fm_compression fm)
        (fm_referenced_groups fm) (fm_page_groups fm)) content
    else Err Corrupted.
Proof.
  intros Hk Hs. unfold decode_page at 1. rewrite Hk. cbn [negb Z.eqb CHECKSUM_CRC32 CHECKSUM_NONE].
  rewrite bool_decide_true by (rewrite length_app; lia). cbn [rassert mbind res_bind].
  replace (slice (content ++ sum) (length (content ++ sum) - 4) (length (content ++ sum))) with (Ok sum).
  2: { symmetry. apply slice_tail; rewrite length_app; lia. }
  cbn [mbind res_bind]. rewrite length_app, Hs, Nat.add_sub, take_app_length.
  unfold check_checksum, checksum. cbn [Z.eqb Pos.eqb CHECKSUM_CRC32 CHECKSUM_NONE mbind res_bind].
  by destruct (crc32 content =? le_num sum).
Qed.

Lemma decode_page_nosum fm content :
  fm_checksum_type fm = CHECKSUM_NONE -> codec_ok (fm_compression fm) CHECKSUM_NONE -> length content < 2 ^ 64 ->
  decode_page fm (stored (fm_compression fm) content) = Ok content.
Proof.
  intros Hk [Hc _] H64. unfold decode_page. rewrite Hk. cbn [negb Z.eqb CHECKSUM_NONE mbind res_bind].
  destruct Hc as [->|[->| ->]]; unfold stored, decompress_len, decompress_into; cbn -[le_bytes le_num slice]; [done| |].
  - rewrite snap_decompress_len_ok. cbn -[slice]. rewrite slice_ok, Nat.sub_0_r, drop_0, firstn_all by lia.
    cbn. rewrite snap_roundtrip. cbn. by rewrite bool_decide_true.
  - rewrite slice_head by done.
    cbn [mbind res_bind]. rewrite le_num_u64 by (unfold fits; lia). rewrite Nat2Z.id.
    rewrite slice_tail by (rewrite ?length_app, ?length_le_bytes; simpl; lia).
    cbn [mbind res_bind]. rewrite zstd_roundtrip. cbn. by rewrite bool_decide_true.
Qed.

(** What is stored for a page reads back as the page. *)
Lemma decode_page_ok fm content :
  codec_ok (fm_compression fm) (fm_checksum_type fm) -> length content < 2 ^ 64 ->
  decode_page fm (page_bytes (fm_compression fm) (fm_checksum_type fm) content) = Ok content.
Proof.
  intros [Hc Hk] H64. unfold page_bytes, with_sum, sum_of. destruct Hk as [Hk|Hk]; rewrite Hk; cbn [Z.eqb CHECKSUM_NONE CHECKSUM_CRC32].
  - rewrite app_nil_r. apply decode_page_nosum; [done| |done]. by split; [|left].
  - rewrite decode_page_sum by done. rewrite le_num_u32 by apply crc32_fits. rewrite Z.eqb_refl.
    apply (decode_page_nosum (mkFileMeta _ _ _ CHECKSUM_NONE (fm_compression fm) _ _)); [done| |done]. by split; [|left].
Qed.
End pages.

(** ** Blocks *)

Definition handle_fits (h : BlockHandle) : Prop := fits 64 (bh_offset h) /\ fits 64 (bh_length h).

Lemma length_block_handle h : length (block_handle_encode h) = 16%nat.
Proof. unfold block_handle_encode. by rewrite length_app, !length_le_bytes. Qed.

Lemma block_handle_roundtrip h : handle_fits h -> block_handle_decode (block_handle_encode h) = Ok h.
Proof.
  intros [Ho Hl]. unfold block_handle_decode. rewrite length_block_handle, bool_decide_true by done. cbn [negb].
  unfold block_handle_encode. rewrite slice_head by done.
  cbn [mbind res_bind]. rewrite slice_tail by done. cbn [mbind res_bind]. rewrite !le_num_u64 by done. by destruct h.
Qed.

(** The encoding of a list whose elements take the same number of bytes. *)
Section records.
Context {A : Type} (size : nat) (enc : A -> list Z) (Henc : forall x, length (enc x) = size).

Lemma length_records l : length (concat (enc <$> l)) = (size * length l)%nat.
Proof using Henc.
  induction l as [|x l IH]; [simpl; lia|]. change (concat (enc <$> x :: l)) with (enc x ++ concat (enc <$> l)).
  rewrite length_app, Henc, IH. simpl. lia.
Qed.
End records.

Lemma length_dealloc_block l : length (dealloc_pages_block l) = (8 * length l)%nat.
Proof. apply length_records. intros. apply length_le_bytes. Qed.

Lemma dealloc_pages_roundtrip l fuel :
  Forall (fits 64) l -> (length l < fuel)%nat -> dealloc_pages_loop fuel (dealloc_pages_block l) = Ok l.
Proof.
  intros Hl. revert fuel. induction Hl as [|x l Hx _ IH]; intros [|fuel] Hf; simpl in Hf; try lia; [done|].
  change (dealloc_pages_block (x :: l)) with (le_bytes 8 x ++ dealloc_pages_block l).
  cbn [dealloc_pages_loop]. rewrite bool_decide_false by done.
  rewrite slice_head by done. cbn [mbind res_bind].
  rewrite drop_app_length', IH by (lia || done). cbn [mbind res_bind].
  by rewrite le_num_u64.
Qed.

Lemma length_page_index p : length (page_index_encode p) = page_index_encoded_size.
Proof. unfold page_index_encode. by rewrite !length_app, !length_block_handle, length_le_bytes. Qed.

Definition page_index_fits (p : PageIndex) : Prop :=
  fits 32 (px_file_id p) /\ handle_fits (px_data_handle p) /\ handle_fits (px_meta_handle p).

Lemma page_index_roundtrip p : page_index_fits p -> page_index_decode (page_index_encode p) = Ok p.
Proof.
  intros (Hf & Hd & Hm). unfold page_index_decode. rewrite length_page_index, bool_decide_true by done. cbn [negb].
  unfold page_index_encode. rewrite slice_head by done. cbn [mbind res_bind].
  rewrite (slice_at (le_bytes 4 (px_file_id p)) (block_handle_encode (px_data_handle p)) _ 4 20) by (rewrite ?length_block_handle, ?length_le_bytes; lia).
  cbn [mbind res_bind]. rewrite block_handle_roundtrip by done. cbn [mbind res_bind].
  rewrite app_assoc. rewrite slice_tail by (rewrite ?length_app, ?length_block_handle, ?length_le_bytes; lia).
  cbn [mbind res_bind]. rewrite block_handle_roundtrip, le_num_u32 by done. by destruct p.
Qed.

Lemma page_indexes_roundtrip l fuel :
  Forall page_index_fits l -> (length l < fuel)%nat -> page_indexes_loop fuel (page_index_block l) = Ok l.
Proof.
  intros Hl. revert fuel. induction Hl as [|x l Hx _ IH]; intros [|fuel] Hf; simpl in Hf; try lia; [done|].
  change (page_index_block (x :: l)) with (page_index_encode x ++ page_index_block l).
  cbn [page_indexes_loop]. pose proof (length_page_index x) as Hn. rewrite bool_decide_false.
  2: { intros E%(f_equal length). rewrite length_app, Hn in E. done. }
  rewrite slice_head by done. cbn [mbind res_bind]. rewrite page_index_roundtrip by done.
  cbn [mbind res_bind]. rewrite <- Hn, drop_app_length, IH by lia. done.
Qed.

(** The flags of a footer are their own bits. *)
Lemma footer_roundtrip f :
  fits 64 (ft_magic f) -> handle_fits (ft_page_index_handle f) -> handle_fits (ft_dealloc_pages_handle f) ->
  codec_ok (ft_compression f) (ft_checksum_type f) -> footer_decode (footer_encode f) = Ok f.
Proof.
  intros Hm Hi Hd [Hc Hk]. unfold footer_decode.
  set (a := le_bytes 8 (ft_magic f)). set (b := block_handle_encode (ft_page_index_handle f)).
  set (c := block_handle_encode (ft_dealloc_pages_handle f)).
  assert (Ha : length a = 8%nat) by apply length_le_bytes. assert (Hb : length b = 16%nat) by apply length_block_handle.
  assert (Hcl : length c = 16%nat) by apply length_block_handle.
  assert (E : footer_encode f = a ++ b ++ c ++ [ft_compression f; ft_checksum_type f]) by done.
  assert (Hlen : length (footer_encode f) = footer_encoded_size) by (rewrite E, !length_app, Ha, Hb, Hcl; done).
  rewrite Hlen, bool_decide_true by done. cbn [negb]. rewrite E.
  rewrite slice_head by done. cbn [mbind res_bind]. rewrite (slice_at a b _ 8 24) by lia. cbn [mbind res_bind].
  rewrite (block_handle_roundtrip _ Hi : block_handle_decode b = _). cbn [mbind res_bind].
  rewrite app_assoc, (slice_at (a ++ b) c) by (rewrite length_app; lia). cbn [mbind res_bind].
  rewrite (block_handle_roundtrip _ Hd : block_handle_decode c = _). cbn [mbind res_bind].
  rewrite app_assoc. rewrite !lookup_app_r by (rewrite !length_app; lia). rewrite !length_app, Ha, Hb, Hcl.
  cbn [Nat.sub Nat.add lookup list_lookup expect mbind res_bind].
  assert (Ec : compression_from_bits (ft_compression f) = Some (ft_compression f)) by (by destruct Hc as [->|[->| ->]]).
  assert (Ek : checksum_from_bits (ft_checksum_type f) = Some (ft_checksum_type f)) by (by destruct Hk as [->| ->]).
  rewrite Ec. cbn [ok_or mbind res_bind]. rewrite Ek. cbn [ok_or mbind res_bind].
  unfold a. rewrite le_num_u64 by done. by destruct f.
Qed.

(** ** Page tables and index blocks *)

Lemma length_page_table t : length (page_table_encode t) = (16 * length t)%nat.
Proof. apply length_records. intros e. by rewrite length_app, !length_le_bytes. Qed.

Definition entry_fits (e : Z * Z) : Prop := fits 64 e.1 /\ fits 64 e.2.

Lemma page_table_loop_ok t fuel acc :
  Forall entry_fits t -> (length t < fuel)%nat ->
  page_table_decode_loop fuel (page_table_encode t) acc = Ok (foldl (λ m e, btree_insert e.1 e.2 m) acc t).
Proof.
  intros Ht. revert fuel acc. induction Ht as [|[a i] t [Ha Hi] _ IH]; intros [|fuel] acc Hf; simpl in Hf; try lia; [done|].
  change (page_table_encode ((a, i) :: t)) with ((le_bytes 8 a ++ le_bytes 8 i) ++ page_table_encode t).
  cbn [page_table_decode_loop]. rewrite bool_decide_false by done.
  rewrite bool_decide_false by (rewrite !length_app, !length_le_bytes; lia).
  rewrite drop_app_length' by (by rewrite length_app, !length_le_bytes). rewrite <- !app_assoc.
  rewrite slice_head by done. cbn [mbind res_bind]. rewrite slice_at by done. cbn [mbind res_bind].
  rewrite !le_num_u64 by done. rewrite IH by lia. done.
Qed.

Lemma page_table_roundtrip t :
  Forall entry_fits t -> key_strict t -> page_table_decode (page_table_encode t) = Ok t.
Proof.
  intros Ht Hs. unfold page_table_decode. rewrite page_table_loop_ok; [|done|rewrite length_page_table; lia].
  by rewrite (btree_insert_all t []).
Qed.

(** The entries of an index block as they are read back: the size of a page is the
    one it has in the file. *)
Fixpoint disk_entries (d : list (Z * (Z * PageInfo))) (end_offset : Z) : list (Z * (Z * PageInfo)) :=
  match d with
  | [] => []
  | (a, (o, info)) :: d =>
      (a, (o, info_from_raw (pi_meta info) (pi_next info) (Z.to_nat (next_offset d end_offset - o)))) ::
      disk_entries d end_offset
  end.

Lemma disk_entries_keys d e : (disk_entries d e).*1 = d.*1.
Proof. induction d as [|[a [o info]] d IH]; [done|]. cbn [disk_entries]. by rewrite !fmap_cons, IH. Qed.
Lemma disk_next d e : next_offset (disk_entries d e) e = next_offset d e.
Proof. by destruct d as [|[a [o info]] d]. Qed.
Lemma disk_offsets_ok d e : offsets_ok d e -> offsets_ok (disk_entries d e) e.
Proof.
  induction d as [|[a [o info]] d IH]; [done|]. intros (H1 & H2 & H3). cbn [disk_entries offsets_ok].
  rewrite disk_next. auto.
Qed.

Definition index_entry_fits (x : Z * (Z * PageInfo)) : Prop :=
  fits 64 x.1 /\ fits 64 x.2.1 /\ fits 64 (pi_meta x.2.2) /\ fits 64 (pi_next x.2.2).

Definition index_bytes (d : list (Z * (Z * PageInfo))) : list Z := encode_data_block_index (mkIndexBlock d None).

Lemma length_index_bytes d : length (index_bytes d) = (32 * length d)%nat.
Proof.
  apply length_records. intros [a [o info]]. unfold info_value. by rewrite !length_app, !length_le_bytes.
Qed.

Lemma index_loop_step fuel a o info d last m :
  index_entry_fits (a, (o, info)) ->
  index_decode_loop (S fuel) (index_bytes ((a, (o, info)) :: d)) last m =
    index_decode_loop fuel (index_bytes d) (Some (a, o, pi_meta info, pi_next info)) (close_page last o m).
Proof.
  intros (Ha & Ho & Hm & Hn).
  change (index_bytes ((a, (o, info)) :: d)) with
    ((le_bytes 8 a ++ le_bytes 8 o ++ le_bytes 8 (pi_meta info) ++ le_bytes 8 (pi_next info)) ++ index_bytes d).
  cbn [index_decode_loop]. rewrite bool_decide_false by done.
  rewrite bool_decide_false by (rewrite !length_app, !length_le_bytes; lia).
  rewrite drop_app_length' by (by rewrite !length_app, !length_le_bytes). rewrite <- !app_assoc.
  rewrite slice_head by done. cbn [mbind res_bind]. rewrite (slice_at _ _ _ 8 16) by done. cbn [mbind res_bind].
  rewrite (app_assoc (le_bytes 8 a)). rewrite (slice_at _ _ _ 16 24) by done. cbn [mbind res_bind].
  rewrite (app_assoc (le_bytes 8 a ++ _)). rewrite (slice_at _ _ _ 24 32) by done. cbn [mbind res_bind].
  by rewrite !le_num_u64.
Qed.

Lemma index_loop_ok (d : list (Z * (Z * PageInfo))) e fuel a o info m :
  Forall index_entry_fits d -> offsets_ok ((a, (o, info)) :: d) e -> (length d < fuel)%nat ->
  exists last m', index_decode_loop fuel (index_bytes d) (Some (a, o, pi_meta info, pi_next info)) m = Ok (last, m') /\
    close_page last e m' = foldl (λ m e, btree_insert e.1 e.2 m) m (disk_entries ((a, (o, info)) :: d) e).
Proof.
  intros Hd. revert fuel a o info m. induction Hd as [|[a' [o' info']] d Hx _ IH]; intros [|fuel] a o info m (Ho & H32 & Hok) Hf;
    simpl in Hf; try lia.
  - eexists _, _. split; [done|]. simpl. rewrite wrap_small by (unfold fits; simpl in *; lia). done.
  - rewrite index_loop_step by done.
    destruct (IH fuel a' o' info' (close_page (Some (a, o, pi_meta info, pi_next info)) o' m)) as (last & m' & Hl & Hc); [done|lia|].
    exists last, m'. split; [exact Hl|]. rewrite Hc. simpl. rewrite wrap_small by (unfold fits; simpl in *; lia). done.
Qed.

Lemma index_block_roundtrip d e :
  Forall index_entry_fits d -> key_strict d -> offsets_ok d e -> fits 64 e ->
  index_block_decode (index_bytes d) (le_bytes 8 e) = Ok (mkIndexBlock (disk_entries d e) (Some e)).
Proof.
  intros Hd Hs Ho He. unfold index_block_decode.
  assert (Hl : exists last m', index_decode_loop (S (length (index_bytes d))) (index_bytes d) None [] = Ok (last, m') /\
    close_page last e m' = disk_entries d e).
  { destruct d as [|[a [o info]] d]; [by eexists _, _|]. apply Forall_cons in Hd as [Hx Hd].
    rewrite index_loop_step by done. cbn [close_page].
    destruct (index_loop_ok d e (length (index_bytes ((a, (o, info)) :: d))) a o info []) as (last & m' & Hl & Hc);
      [done|done|rewrite length_index_bytes; simpl; lia|].
    exists last, m'. split; [exact Hl|]. rewrite Hc. apply (btree_insert_all _ []).
    rewrite key_strict_keys in *. rewrite app_nil_l, disk_entries_keys. done. }
  destruct Hl as (last & m' & Hl & Hc). rewrite Hl. cbn [mbind res_bind].
  rewrite bool_decide_true by done. cbn [negb]. by rewrite le_num_u64, Hc.
Qed.
