(* ===== verification/FileRoundtrip.v ===== *)
(** * Page files read back ([page_file/{map_file_builder,read_meta,mod}.rs])

    A file is built group by group, with the pages of a group in ascending order, and
    finished; reading the metadata of that file gives the groups, the page tables and
    the deallocated pages back, and reading a page through its handle gives its
    content. *)

From stdpp Require Import base numbers list sorting gmap.
From Stdlib Require Import ZArith Lia.
From S2P Require Import Prelude BasePage Iter BTree PageGroup Env FileBuilder FileWriter MapFile FileReader.
From S2P Require Import Bitmap FileRead FileBlocks.

(** ** What is written *)

Record PageSpec := mkPageSpec { sp_id : Z; sp_addr : Z; sp_info : PageInfo; sp_content : list Z }.
Record GroupSpec := mkGroupSpec { gs_id : Z; gs_pages : list PageSpec; gs_deallocs : list Z }.

Definition group_table (pages : list PageSpec) : list (Z * Z) := (λ p, (sp_addr p, sp_id p)) <$> pages.

Section layout.
Context `{PageCodecs} (compression checksum_type : Z).

Abbreviation bytes_of := (page_bytes compression checksum_type).

Definition pages_bytes (pages : list PageSpec) : list Z := concat ((λ p, bytes_of (sp_content p)) <$> pages).
Fixpoint page_entries (base : Z) (pages : list PageSpec) : list (Z * (Z * PageInfo)) :=
  match pages with
  | [] => []
  | p :: pages => (sp_addr p, (base, sp_info p)) :: page_entries (base + length (bytes_of (sp_content p))) pages
  end.

(** Where the page table and the index blocks of a group start. *)
Definition table_offset (base : Z) (pages : list PageSpec) : Z := base + length (pages_bytes pages).
Definition index_offset (base : Z) (pages : list PageSpec) : Z :=
  table_offset base pages + length (page_table_encode (group_table pages)).
Definition group_bytes (base : Z) (pages : list PageSpec) : list Z :=
  pages_bytes pages ++ page_table_encode (group_table pages) ++ index_bytes (page_entries base pages) ++
  le_bytes 8 (table_offset base pages).
Definition group_index (gid base : Z) (pages : list PageSpec) : PageIndex :=
  let data := index_bytes (page_entries base pages) in
  mkPageIndex gid (mkBlockHandle (index_offset base pages) (length data))
    (mkBlockHandle (index_offset base pages + length data) 8).
(** The metadata of a group, with the entries as they are written or read back. *)
Definition group_meta (gid file_id base : Z) (d : list (Z * (Z * PageInfo))) (pages : list PageSpec) : PageGroupMeta :=
  mkPageGroupMeta gid file_id base (table_offset base pages) (index_offset base pages)
    (meta_map d (table_offset base pages)).

Fixpoint groups_bytes (base : Z) (groups : list GroupSpec) : list Z :=
  match groups with
  | [] => []
  | g :: groups => let b := group_bytes base (gs_pages g) in b ++ groups_bytes (base + length b) groups
  end.
Fixpoint groups_index (base : Z) (groups : list GroupSpec) : list PageIndex :=
  match groups with
  | [] => []
  | g :: groups => group_index (gs_id g) base (gs_pages g) ::
      groups_index (base + length (group_bytes base (gs_pages g))) groups
  end.

(** ** Facts on the layout *)

Lemma page_entries_keys base pages : (page_entries base pages).*1 = sp_addr <$> pages.
Proof. revert base. induction pages as [|p pages IH]; intros base; [done|]. cbn [page_entries]. by rewrite !fmap_cons, IH. Qed.
Lemma length_page_entries base pages : length (page_entries base pages) = length pages.
Proof. revert base. induction pages as [|p pages IH]; intros base; [done|]. simpl. by rewrite IH. Qed.
Lemma pages_bytes_cons p pages : pages_bytes (p :: pages) = bytes_of (sp_content p) ++ pages_bytes pages.
Proof. done. Qed.
Lemma page_entries_next base pages : next_offset (page_entries base pages) (table_offset base pages) = base.
Proof. destruct pages; [|done]. unfold table_offset. simpl. lia. Qed.

Lemma table_offset_cons base p pages :
  table_offset base (p :: pages) = table_offset (base + length (bytes_of (sp_content p))) pages.
Proof. unfold table_offset. rewrite pages_bytes_cons, length_app. lia. Qed.

Lemma page_entries_offsets base pages :
  0 <= base -> table_offset base pages < 2 ^ 32 -> offsets_ok (page_entries base pages) (table_offset base pages).
Proof.
  revert base. induction pages as [|p pages IH]; intros base Hb Ht; [done|]. cbn [page_entries offsets_ok].
  rewrite table_offset_cons in *. rewrite page_entries_next. split; [lia|]. split; [unfold table_offset in Ht; lia|].
  apply IH; [lia|done].
Qed.

Lemma page_entries_app base pages p :
  page_entries base (pages ++ [p]) = page_entries base pages ++ [(sp_addr p, (table_offset base pages, sp_info p))].
Proof.
  revert base. induction pages as [|q pages IH]; intros base; [unfold table_offset; simpl; by rewrite Z.add_0_r|].
  cbn [page_entries app]. by rewrite IH, table_offset_cons.
Qed.
Lemma pages_bytes_app pages p : pages_bytes (pages ++ [p]) = pages_bytes pages ++ bytes_of (sp_content p).
Proof. unfold pages_bytes. rewrite fmap_app, concat_app. simpl. by rewrite app_nil_r. Qed.

(** What is asked of the pages of a group. *)
Record pages_ok (gid base : Z) (pages : list PageSpec) : Prop := {
  po_addrs : group_addrs gid (sp_addr <$> pages);
  po_fits : Forall (λ p, fits 64 (sp_addr p) /\ fits 64 (sp_id p) /\ fits 64 (pi_meta (sp_info p)) /\
    fits 64 (pi_next (sp_info p))) pages;
  po_gid : fits 32 gid;
  po_base : 0 <= base;
  po_end : base + length (group_bytes base pages) < 2 ^ 32;
}.

Lemma length_group_bytes base pages :
  length (group_bytes base pages) =
    (length (pages_bytes pages) + 16 * length pages + 32 * length pages + 8)%nat.
Proof.
  unfold group_bytes. rewrite !length_app, length_page_table, length_index_bytes, length_page_entries, length_le_bytes.
  unfold group_table. rewrite length_fmap. lia.
Qed.

Lemma pages_ok_bounds gid base pages :
  pages_ok gid base pages ->
  table_offset base pages < 2 ^ 32 /\ index_offset base pages < 2 ^ 32 /\ length pages < 2 ^ 32 /\
  0 <= table_offset base pages <= index_offset base pages.
Proof.
  intros [_ _ _ Hb He]. rewrite length_group_bytes in He. unfold index_offset, table_offset.
  rewrite length_page_table. unfold group_table. rewrite length_fmap. lia.
Qed.

(** Building the metadata from entries at these addresses and offsets. *)
Lemma group_meta_new gid file_id base d pages :
  pages_ok gid base pages -> d.*1 = sp_addr <$> pages -> offsets_ok d (table_offset base pages) ->
  page_group_meta_new gid file_id base [table_offset base pages; index_offset base pages] d =
    Ok (group_meta gid file_id base d pages).
Proof.
  intros Hp Hk Ho. destruct (pages_ok_bounds _ _ _ Hp) as (Ht & Hi & Hl & Hti).
  unfold page_group_meta_new. cbn [lookup list_lookup expect mbind res_bind].
  rewrite build_page_meta_map_ok; [done|done| | |].
  - rewrite Hk. eapply sorted_lt_NoDup, group_addrs_low, po_addrs, Hp.
  - replace (length d) with (length pages); [lia|]. by rewrite <- (length_fmap fst d), Hk, length_fmap.
  - unfold fits. lia.
Qed.
(** ** Several groups *)

Definition all_deallocs (groups : list GroupSpec) (s : list Z) : list Z :=
  foldl (λ s g, bset_extend (gs_deallocs g) s) s groups.

(** A map with an entry per group, of the group and the offset it starts at. *)
Fixpoint groups_fold {A} (f : Z -> GroupSpec -> A) (base : Z) (groups : list GroupSpec) (m : gmap Z A) : gmap Z A :=
  match groups with
  | [] => m
  | g :: groups => groups_fold f (base + length (group_bytes base (gs_pages g))) groups (<[gs_id g := f base g]> m)
  end.
Definition written_meta (file_id base : Z) (g : GroupSpec) : PageGroupMeta :=
  group_meta (gs_id g) file_id base (page_entries base (gs_pages g)) (gs_pages g).
Definition written_group (file_id base : Z) (g : GroupSpec) : PageGroup := page_group_new (written_meta file_id base g).
Definition read_meta (file_id base : Z) (g : GroupSpec) : PageGroupMeta :=
  group_meta (gs_id g) file_id base
    (disk_entries (page_entries base (gs_pages g)) (table_offset base (gs_pages g))) (gs_pages g).

Fixpoint groups_ok (base : Z) (groups : list GroupSpec) : Prop :=
  match groups with
  | [] => True
  | g :: groups => pages_ok (gs_id g) base (gs_pages g) /\ groups_ok (base + length (group_bytes base (gs_pages g))) groups
  end.

(** The blocks behind the groups, which end at [base]. *)
Definition tail_footer (base : Z) (ib db : list Z) : Footer :=
  mkFooter FILE_MAGIC (mkBlockHandle base (length ib)) (mkBlockHandle (base + length ib) (length db)) compression checksum_type.
Definition tail_bytes (base : Z) (index : list PageIndex) (deallocs : list Z) : list Z :=
  let ib := page_index_block index in
  let db := dealloc_pages_block deallocs in
  ib ++ db ++ footer_encode (tail_footer base ib db).
Definition file_bytes (groups : list GroupSpec) (deallocs : list Z) : list Z :=
  groups_bytes 0 groups ++ tail_bytes (length (groups_bytes 0 groups)) (groups_index 0 groups) deallocs.
End layout.

(** ** Building *)

Section build.
Context `{PageCodecsLaws} {W : Type} `{SequentialWriterLaws W} (io_fuel : nat) (compression checksum_type : Z).
Context (Hcodec : codec_ok compression checksum_type).

Fixpoint gb_add_pages (pages : list PageSpec) (g : PageGroupBuilder W) : res (PageGroupBuilder W) :=
  match pages with
  | [] => Ok g
  | p :: pages =>
      g ← gb_add_page io_fuel (sp_id p) (sp_addr p) (sp_info p) (sp_content p) g;
      gb_add_pages pages g
  end.
Definition write_group (s : GroupSpec) (b : FileBuilder W) : res (FileBuilder W) :=
  g ← gb_add_pages (gs_pages s) (add_page_group (gs_id s) b);
  gb_finish io_fuel (gb_add_dealloc_pages (gs_deallocs s) g).
Fixpoint write_groups (groups : list GroupSpec) (b : FileBuilder W) : res (FileBuilder W) :=
  match groups with
  | [] => Ok b
  | g :: groups => b ← write_group g b; write_groups groups b
  end.

Definition set_fb_writer (w : BufferedWriter W) (b : FileBuilder W) : FileBuilder W :=
  mkFileBuilder (fb_file_id b) w (fb_dealloc_pages b) (fb_page_index b) (fb_page_groups b)
    (fb_block_size b) (fb_file_offset b) (fb_compression b) (fb_checksum b).

Lemma with_writer_ok {A} (m : St (BufferedWriter W) A) b a w :
  m (fb_writer b) = (Ok a, w) -> with_writer m b = Ok (a, set_fb_writer w b).
Proof using. intros E. unfold with_writer. by rewrite E. Qed.

(** A group builder that has written some pages behind [l]. *)
Definition builder_at (gid : Z) (l : list Z) (b : FileBuilder W) (w : BufferedWriter W) (pages : list PageSpec) : PageGroupBuilder W :=
  mkPageGroupBuilder gid (length l) (set_fb_writer w b)
    (mkCommonFileBuilder gid compression checksum_type
       (mkIndexBlock (page_entries compression checksum_type (length l) pages) None) (group_table pages)).

Lemma gb_add_page_ok gid l b w pages p :
  StronglySorted Z.lt (sp_addr <$> (pages ++ [p])) ->
  bw_repr io_fuel w (l ++ pages_bytes compression checksum_type pages) ->
  length (l ++ pages_bytes compression checksum_type (pages ++ [p])) < 2 ^ 64 ->
  exists w', gb_add_page io_fuel (sp_id p) (sp_addr p) (sp_info p) (sp_content p) (builder_at gid l b w pages) =
      Ok (builder_at gid l b w' (pages ++ [p])) /\
    bw_repr io_fuel w' (l ++ pages_bytes compression checksum_type (pages ++ [p])).
Proof using Type*.
  intros Hs Hw H64. rewrite pages_bytes_app, app_assoc in *.
  destruct (write_with_checksum_ok io_fuel (stored compression (sp_content p))
    (sum_of checksum_type (stored compression (sp_content p))) w _ Hw H64) as (w' & Hwr & Hw').
  exists w'. split; [|done]. unfold gb_add_page.
  rewrite (with_writer_ok _ _ (mkCommonFileBuilder gid compression checksum_type
       (mkIndexBlock (page_entries compression checksum_type (length l) (pages ++ [p])) None) (group_table (pages ++ [p]))) w'); [done|].
  unfold common_add_page. cbn [builder_at gb_inner gb_builder cb_compression cb_checksum set_fb_writer fb_writer].
  rewrite (st_bind_ok _ _ w (stored compression (sp_content p), sum_of checksum_type (stored compression (sp_content p))) w)
    by (unfold lift; by rewrite page_block_ok).
  cbn beta iota. st_step Hwr. unfold mret, st_ret.
  assert (Hlt : forall x, x ∈ sp_addr <$> pages -> x < sp_addr p).
  { intros x Hx. rewrite fmap_app in Hs. apply StronglySorted_app in Hs as (Hs & _). apply Hs; [done|set_solver]. }
  unfold add_data_block. cbn [cb_index cb_page_table cb_group_id ib_page_offsets ib_meta_page_table].
  rewrite !btree_insert_end.
  - rewrite page_entries_app. unfold group_table at 2. rewrite fmap_app.
    unfold table_offset. by rewrite length_app, Nat2Z.inj_add.
  - intros x Hx. apply Hlt. unfold group_table in Hx. by rewrite <- list_fmap_compose in Hx.
  - intros x Hx. apply Hlt. by rewrite page_entries_keys in Hx.
Qed.

Lemma gb_add_pages_ok gid l b w pages pages0 :
  StronglySorted Z.lt (sp_addr <$> (pages0 ++ pages)) ->
  bw_repr io_fuel w (l ++ pages_bytes compression checksum_type pages0) ->
  length (l ++ pages_bytes compression checksum_type (pages0 ++ pages)) < 2 ^ 64 ->
  exists w', gb_add_pages pages (builder_at gid l b w pages0) = Ok (builder_at gid l b w' (pages0 ++ pages)) /\
    bw_repr io_fuel w' (l ++ pages_bytes compression checksum_type (pages0 ++ pages)).
Proof using Type*.
  revert w pages0. induction pages as [|p pages IH]; intros w pages0 Hs Hw H64.
  - rewrite app_nil_r. by exists w.
  - rewrite (cons_middle p pages0 pages), (app_assoc pages0) in *.
    destruct (gb_add_page_ok gid l b w pages0 p) as (w1 & E1 & Hw1); [|done| |].
    + rewrite fmap_app in Hs. by apply StronglySorted_app in Hs as (_ & ? & _).
    + unfold pages_bytes in *. rewrite (fmap_app _ (pages0 ++ [p])), concat_app, app_assoc, length_app in H64. lia.
    + destruct (IH w1 _ Hs Hw1 H64) as (w2 & E2 & Hw2). exists w2. split; [|done].
      cbn [gb_add_pages]. rewrite E1. done.
Qed.

Lemma encode_data_index d o : encode_data_block_index (mkIndexBlock d o) = index_bytes d.
Proof using. done. Qed.

(** The builder after a group. *)
Definition with_group (l : list Z) (s : GroupSpec) (w : BufferedWriter W) (b : FileBuilder W) : FileBuilder W :=
  let base := length l in
  let d := page_entries compression checksum_type base (gs_pages s) in
  mkFileBuilder (fb_file_id b) w (bset_extend (gs_deallocs s) (fb_dealloc_pages b))
    (fb_page_index b ++ [group_index compression checksum_type (gs_id s) base (gs_pages s)])
    (<[gs_id s := page_group_new (group_meta compression checksum_type (gs_id s) (fb_file_id b) base d (gs_pages s))]>
       (fb_page_groups b))
    (fb_block_size b) (bw_next_page_offset w) (fb_compression b) (fb_checksum b).

Lemma write_group_ok s b l :
  bw_repr io_fuel (fb_writer b) l -> fb_compression b = compression -> fb_checksum b = checksum_type ->
  pages_ok compression checksum_type (gs_id s) (length l) (gs_pages s) ->
  exists w', write_group s b = Ok (with_group l s w' b) /\
    bw_repr io_fuel w' (l ++ group_bytes compression checksum_type (length l) (gs_pages s)).
Proof using Type*.
  intros Hw Hc Hk Hp. pose proof (po_end _ _ _ _ _ Hp) as Hend.
  set (base := length l : Z) in *. assert (Hbase : base = length l) by done. set (pages := gs_pages s) in *. set (gid := gs_id s) in *.
  set (pb := pages_bytes compression checksum_type pages).
  set (tb := page_table_encode (group_table pages)).
  set (d := page_entries compression checksum_type base pages).
  set (te := table_offset compression checksum_type base pages).
  assert (Egb : l ++ group_bytes compression checksum_type base pages =
    (((l ++ pb) ++ tb) ++ index_bytes d) ++ le_bytes 8 te) by (unfold group_bytes; by rewrite <- !app_assoc).
  assert (Hlen : length ((((l ++ pb) ++ tb) ++ index_bytes d) ++ le_bytes 8 te) < 2 ^ 32).
  { rewrite <- Egb, length_app. lia. }
  rewrite !length_app in Hlen.
  destruct (gb_add_pages_ok gid l b (fb_writer b) pages []) as (w1 & E1 & Hw1).
  { apply Hp. }
  { unfold pages_bytes. simpl. by rewrite app_nil_r. }
  { simpl app. fold pb. rewrite length_app. lia. }
  simpl app in E1, Hw1. fold pb in Hw1.
  destruct (bw_write_ok io_fuel tb w1 _ Hw1) as (w2 & E2 & Hw2); [rewrite !length_app; lia|].
  destruct (bw_write_ok io_fuel (index_bytes d) w2 _ Hw2) as (w3 & E3 & Hw3); [rewrite !length_app; lia|].
  destruct (bw_write_ok io_fuel (le_bytes 8 te) w3 _ Hw3) as (w4 & E4 & Hw4); [rewrite !length_app; lia|].
  rewrite Egb. exists w4. split; [|done].
  assert (Eadd : add_page_group gid b = builder_at gid l b (fb_writer b) []).
  { unfold add_page_group, builder_at. rewrite Hc, Hk. destruct Hw as [_ ->]. by destruct b. }
  unfold write_group. fold gid pages. rewrite Eadd, E1. cbn [mbind res_bind].
  unfold gb_finish, gb_add_dealloc_pages, builder_at. cbn [gb_builder gb_inner gb_group_id gb_base_offset].
  set (b1 := fb_add_dealloc_pages (gs_deallocs s) (set_fb_writer w1 b)).
  erewrite (with_writer_ok _ b1).
  2: { unfold finish_meta_block. cbn [cb_page_table b1 fb_add_dealloc_pages set_fb_writer fb_writer]. fold tb. st_step E2. reflexivity. }
  cbn [mbind res_bind]. cbn beta iota.
  assert (Hte : (length (l ++ pb) : Z) = te) by (unfold te, table_offset; rewrite length_app; fold pb; unfold base; lia).
  rewrite Hte. fold d.
  erewrite (with_writer_ok _ (set_fb_writer w2 b1)).
  2: { unfold finish_index_block, encode_meta_block_index, add_page_table_meta_block.
       cbn [cb_index ib_meta_page_table ib_page_offsets set_fb_writer fb_writer expect mbind res_bind].
       rewrite encode_data_index, (st_bind_ok _ _ w2 (le_bytes 8 te) w2) by done.
       st_step E3. st_step E4. reflexivity. }
  cbn [mbind res_bind]. cbn beta iota.
  unfold as_page_group_meta, as_meta_file_cached, add_page_table_meta_block.
  cbn [cb_index ib_meta_page_table ib_page_offsets cb_group_id bh_offset expect mbind res_bind set_fb_writer fb_file_id b1 fb_add_dealloc_pages].
  assert (Hie : (length ((l ++ pb) ++ tb) : Z) = index_offset compression checksum_type base pages).
  { unfold index_offset. fold te tb. rewrite length_app, Nat2Z.inj_add. by rewrite Hte. }
  rewrite Hie. unfold te. fold base. rewrite group_meta_new; [|done|by rewrite page_entries_keys|].
  - cbn [mbind res_bind]. unfold with_group, group_index. fold gid pages base d.
    cbn [set_fb_writer fb_writer fb_dealloc_pages fb_page_index fb_page_groups fb_block_size fb_compression fb_checksum b1 fb_add_dealloc_pages].
    rewrite (length_app _ (index_bytes d)), Nat2Z.inj_add, Hie. done.
  - apply page_entries_offsets; [apply Hp|]. by destruct (pages_ok_bounds _ _ _ _ _ Hp).
Qed.

Lemma write_groups_ok groups b l :
  bw_repr io_fuel (fb_writer b) l -> fb_compression b = compression -> fb_checksum b = checksum_type ->
  groups_ok compression checksum_type (length l) groups ->
  exists w' o, write_groups groups b = Ok (mkFileBuilder (fb_file_id b) w' (all_deallocs groups (fb_dealloc_pages b))
      (fb_page_index b ++ groups_index compression checksum_type (length l) groups)
      (groups_fold compression checksum_type (written_group compression checksum_type (fb_file_id b)) (length l) groups (fb_page_groups b))
      (fb_block_size b) o (fb_compression b) (fb_checksum b)) /\
    bw_repr io_fuel w' (l ++ groups_bytes compression checksum_type (length l) groups).
Proof using Type*.
  revert b l. induction groups as [|g groups IH]; intros b l Hw Hc Hk Hg.
  - exists (fb_writer b), (fb_file_offset b). cbn [write_groups groups_bytes groups_index groups_fold].
    rewrite !app_nil_r. split; [by destruct b|done].
  - destruct Hg as [Hp Hg]. destruct (write_group_ok g b l Hw Hc Hk Hp) as (w1 & E1 & Hw1).
    rewrite <- Nat2Z.inj_add, <- length_app in Hg.
    destruct (IH (with_group l g w1 b) _ Hw1 Hc Hk Hg) as (w2 & o & E2 & Hw2). exists w2, o.
    cbn [write_groups]. rewrite E1. cbn [mbind res_bind]. rewrite E2.
    cbn [with_group fb_file_id fb_dealloc_pages fb_page_index fb_page_groups fb_block_size fb_compression fb_checksum].
    cbn [groups_bytes groups_index groups_fold]. rewrite length_app, Nat2Z.inj_add in *. rewrite <- !app_assoc in *.
    done.
Qed.

(** The end of the file. *)
Lemma finish_block_ok block b l :
  bw_repr io_fuel (fb_writer b) l -> length (l ++ block) < 2 ^ 64 ->
  exists w', finish_block io_fuel block b = Ok (mkBlockHandle (length l) (length block), set_fb_writer w' b) /\
    bw_repr io_fuel w' (l ++ block).
Proof using Type*.
  intros Hw Hl. destruct (bw_write_ok io_fuel block _ _ Hw Hl) as (w' & E & Hw'). exists w'. split; [|done].
  unfold finish_block. rewrite (with_writer_ok _ _ _ _ E). done.
Qed.

Lemma fb_finish_ok up2 b l :
  bw_repr io_fuel (fb_writer b) l -> fb_compression b = compression -> fb_checksum b = checksum_type ->
  length (l ++ tail_bytes compression checksum_type (length l) (fb_page_index b) (fb_dealloc_pages b)) < 2 ^ 64 ->
  let content := l ++ tail_bytes compression checksum_type (length l) (fb_page_index b) (fb_dealloc_pages b) in
  exists f, fb_finish io_fuel up2 b = Ok (fb_page_groups b, mkFileInfo up2 up2
      (mkFileMeta (fb_file_id b) (length content) DEFAULT_BLOCK_SIZE checksum_type compression
         (get_referenced_groups (fb_dealloc_pages b)) (pg_meta <$> fb_page_groups b)), f) /\
    sw_content f = content.
Proof using Type*.
  intros Hw Hc Hk Hl content. unfold content. clear content.
  unfold tail_bytes in *. set (ib := page_index_block (fb_page_index b)) in *. set (db := dealloc_pages_block (fb_dealloc_pages b)) in *.
  set (ft := tail_footer _ _ _ _ _) in *.
  assert (Hl' : length l + length ib + length db + length (footer_encode ft) < 2 ^ 64) by (rewrite !length_app in Hl; lia).
  destruct (finish_block_ok ib b l Hw) as (w1 & E1 & Hw1); [rewrite length_app; lia|].
  destruct (finish_block_ok db (set_fb_writer w1 b) _ Hw1) as (w2 & E2 & Hw2); [rewrite !length_app; lia|].
  destruct (bw_write_ok io_fuel (footer_encode ft) w2 _ Hw2) as (w3 & E3 & Hw3); [rewrite !length_app; lia|].
  destruct (flush_and_sync_ok io_fuel w3 _ Hw3) as (w4 & E4 & Hc4).
  exists (bw_file w4). split; [|by rewrite Hc4, <- !app_assoc].
  unfold fb_finish, finish_tail_blocks. fold ib. rewrite E1. cbn [mbind res_bind].
  cbn [set_fb_writer fb_dealloc_pages]. fold db. rewrite E2. cbn [mbind res_bind].
  cbn [set_fb_writer fb_compression fb_checksum]. rewrite Hc, Hk.
  assert (Eft : mkFooter FILE_MAGIC (mkBlockHandle (length l) (length ib)) (mkBlockHandle (length (l ++ ib)) (length db))
    compression checksum_type = ft) by (unfold ft, tail_footer; by rewrite length_app, Nat2Z.inj_add).
  rewrite Eft, (with_writer_ok _ _ _ _ (E3 : bw_write io_fuel _ (fb_writer (set_fb_writer w2 (set_fb_writer w1 b))) = _)).
  cbn [mbind res_bind]. rewrite (with_writer_ok _ _ _ _ (E4 : flush_and_sync io_fuel (fb_writer (set_fb_writer w3 _)) = _)).
  cbn [mbind res_bind set_fb_writer fb_page_groups fb_file_id fb_checksum fb_dealloc_pages fb_compression fb_writer].
  rewrite Hc, Hk. do 5 f_equal. rewrite !length_app. lia.
Qed.
End build.

(** ** Reading *)

(** The metadata as the reader of a file sees it: the size of a page is its size in
    the file. *)
Definition page_as_read (pm : PageMeta) : PageMeta :=
  mkPageMeta (pm_index pm) (info_from_raw (pi_meta (pm_info pm)) (pi_next (pm_info pm)) (Z.to_nat (ph_size (pm_handle pm))))
    (pm_handle pm).
Definition meta_as_read (m : PageGroupMeta) : PageGroupMeta :=
  mkPageGroupMeta (pgm_group_id m) (pgm_file_id m) (pgm_base_offset m) (pgm_page_table_offset m) (pgm_meta_block_end m)
    (page_as_read <$> pgm_page_meta_map m).

Lemma meta_entries_disk d e i :
  meta_entries i (disk_entries d e) e = prod_map id page_as_read <$> meta_entries i d e.
Proof.
  revert i. induction d as [|[a [o info]] d IH]; intros i; [done|]. cbn [disk_entries meta_entries].
  rewrite disk_next, IH. done.
Qed.
Lemma meta_map_disk d e : meta_map (disk_entries d e) e = page_as_read <$> meta_map d e.
Proof. unfold meta_map. rewrite meta_entries_disk. apply list_to_map_fmap. Qed.

Section fold.
Context `{PageCodecs} (compression checksum_type : Z).

Lemma groups_fold_fmap {A B} (h : A -> B) f base groups m :
  h <$> groups_fold compression checksum_type f base groups m =
    groups_fold compression checksum_type (λ b g, h (f b g)) base groups (h <$> m).
Proof.
  revert base m. induction groups as [|g groups IH]; intros base m; [done|]. cbn [groups_fold].
  by rewrite IH, fmap_insert.
Qed.

Lemma groups_fold_ext {A} (f1 f2 : Z -> GroupSpec -> A) base groups m :
  (forall b g, f1 b g = f2 b g) ->
  groups_fold compression checksum_type f1 base groups m = groups_fold compression checksum_type f2 base groups m.
Proof.
  intros E. revert base m. induction groups as [|g groups IH]; intros base m; [done|]. cbn [groups_fold]. by rewrite E, IH.
Qed.

(** A group among others, and where it starts. *)
Lemma groups_fold_lookup {A} (f : Z -> GroupSpec -> A) base pre g post m :
  gs_id g ∉ gs_id <$> post ->
  groups_fold compression checksum_type f base (pre ++ g :: post) m !! gs_id g =
    Some (f (base + length (groups_bytes compression checksum_type base pre)) g).
Proof.
  assert (Hrest : forall groups base (m : gmap Z A), gs_id g ∉ gs_id <$> groups ->
    groups_fold compression checksum_type f base groups m !! gs_id g = m !! gs_id g).
  { induction groups as [|g' groups IH]; intros base' m' Hn; [done|]. cbn [groups_fold].
    rewrite fmap_cons, not_elem_of_cons in Hn. destruct Hn as [Hne Hn]. rewrite IH by done. by apply lookup_insert_ne. }
  intros Hn. revert base m. induction pre as [|g' pre IH]; intros base m; cbn [app groups_fold groups_bytes].
  - rewrite Hrest, lookup_insert_eq by done. simpl. by rewrite Z.add_0_r.
  - rewrite IH, length_app. f_equal. f_equal. lia.
Qed.

Lemma groups_bytes_app base pre post :
  groups_bytes compression checksum_type base (pre ++ post) =
    groups_bytes compression checksum_type base pre ++
    groups_bytes compression checksum_type (base + length (groups_bytes compression checksum_type base pre)) post.
Proof.
  revert base. induction pre as [|g pre IH]; intros base; cbn [app groups_bytes]; [by rewrite Z.add_0_r|].
  rewrite IH, <- app_assoc, length_app. do 3 f_equal. lia.
Qed.
Lemma groups_ok_app base pre post :
  groups_ok compression checksum_type base (pre ++ post) ->
  groups_ok compression checksum_type (base + length (groups_bytes compression checksum_type base pre)) post.
Proof.
  revert base. induction pre as [|g pre IH]; intros base; cbn [app groups_bytes groups_ok]; [by rewrite Z.add_0_r|].
  intros [_ Hg%IH]. rewrite length_app. by rewrite Nat2Z.inj_add, Z.add_assoc.
Qed.
Lemma groups_ok_prefix base pre post :
  groups_ok compression checksum_type base (pre ++ post) -> groups_ok compression checksum_type base pre.
Proof. revert base. induction pre as [|g pre IH]; intros base; cbn [app groups_ok]; [done|]. intros [? ?]. split; [done|by apply IH]. Qed.
Lemma groups_index_app base pre post :
  groups_index compression checksum_type base (pre ++ post) =
    groups_index compression checksum_type base pre ++
    groups_index compression checksum_type (base + length (groups_bytes compression checksum_type base pre)) post.
Proof.
  revert base. induction pre as [|g pre IH]; intros base; cbn [app groups_bytes groups_index]; [by rewrite Z.add_0_r|].
  rewrite IH, length_app. do 3 f_equal. lia.
Qed.
Lemma groups_fold_app {A} (f : Z -> GroupSpec -> A) base pre post m :
  groups_fold compression checksum_type f base (pre ++ post) m =
    groups_fold compression checksum_type f (base + length (groups_bytes compression checksum_type base pre)) post
      (groups_fold compression checksum_type f base pre m).
Proof.
  revert base m. induction pre as [|g pre IH]; intros base m; cbn [app groups_bytes groups_fold]; [by rewrite Z.add_0_r|].
  rewrite IH, length_app. f_equal. lia.
Qed.
Lemma groups_fold_is_Some {A} (f : Z -> GroupSpec -> A) base groups m k :
  is_Some (groups_fold compression checksum_type f base groups m !! k) <-> k ∈ gs_id <$> groups \/ is_Some (m !! k).
Proof.
  revert base m. induction groups as [|g groups IH]; intros base m; cbn [groups_fold]; [set_solver|].
  rewrite IH, fmap_cons, elem_of_cons, lookup_insert_is_Some'. naive_solver.
Qed.
End fold.

Section read.
Context `{PageCodecsLaws} {R : Type} `{PositionalReaderLaws R} (alloc : nat -> list Z) (io_fuel : nat) (compression checksum_type : Z).
Context (Halloc : forall n, length (alloc n) = n).
Abbreviation gbytes := (group_bytes compression checksum_type).
Abbreviation gsbytes := (groups_bytes compression checksum_type).

Lemma read_block_ok r content a block c :
  fr_repr io_fuel r content -> content = a ++ block ++ c ->
  exists r', read_block alloc io_fuel (mkBlockHandle (length a) (length block)) r = (Ok block, r') /\
    fr_repr io_fuel r' content /\ fr_align_size r' = fr_align_size r.
Proof using Halloc.
  intros Hr E. destruct (fr_read_ok alloc io_fuel Halloc r content (length block) (length a)) as (r' & Hrd & Hr' & Ha).
  { done. } { lia. } { rewrite E, !length_app. lia. }
  exists r'. split; [|done]. unfold read_block. cbn [bh_length bh_offset]. rewrite Nat2Z.id, Hrd, E.
  by rewrite range_app.
Qed.

Lemma entries_fit gid base pages :
  pages_ok compression checksum_type gid base pages ->
  Forall index_entry_fits (page_entries compression checksum_type base pages).
Proof using.
  intros Hp. destruct (pages_ok_bounds _ _ _ _ _ Hp) as (Ht & _). pose proof (po_base _ _ _ _ _ Hp) as Hb.
  pose proof (po_fits _ _ _ _ _ Hp) as Hf. clear Hp.
  revert base Ht Hb. induction Hf as [|p pages (Ha & Hi & Hm & Hn) _ IH]; intros base Ht Hb; cbn [page_entries]; constructor.
  - unfold index_entry_fits. cbn [fst snd]. split; [done|]. split; [|done]. rewrite table_offset_cons in Ht.
    unfold table_offset in Ht. unfold fits. lia.
  - rewrite table_offset_cons in Ht. apply IH; [done|lia].
Qed.

(** Reading the blocks of one group. *)
Lemma read_group_ok r content l g c file_id :
  fr_repr io_fuel r content -> content = l ++ gbytes (length l) (gs_pages g) ++ c ->
  pages_ok compression checksum_type (gs_id g) (length l) (gs_pages g) ->
  let px := group_index compression checksum_type (gs_id g) (length l) (gs_pages g) in
  let te := table_offset compression checksum_type (length l) (gs_pages g) in
  let d := page_entries compression checksum_type (length l) (gs_pages g) in
  exists r1 r2,
    read_page_group_index_block alloc io_fuel px r = (Ok (mkIndexBlock (disk_entries d te) (Some te)), r1) /\
    read_page_table alloc io_fuel (read_meta compression checksum_type file_id (length l) g) r1 = (Ok (group_table (gs_pages g)), r2) /\
    fr_repr io_fuel r2 content /\ fr_align_size r2 = fr_align_size r.
Proof using Halloc.
  intros Hr E Hp px te d. set (pages := gs_pages g) in *.
  destruct (pages_ok_bounds _ _ _ _ _ Hp) as (Ht & Hi & Hl & Hti).
  set (pb := pages_bytes compression checksum_type pages). set (tb := page_table_encode (group_table pages)).
  assert (E1 : content = ((l ++ pb) ++ tb) ++ index_bytes d ++ le_bytes 8 te ++ c)
    by (rewrite E; unfold group_bytes; rewrite <- !app_assoc; done).
  assert (Hte : (length (l ++ pb) : Z) = te) by (unfold te, table_offset; rewrite length_app; fold pb; lia).
  assert (Hie : (length ((l ++ pb) ++ tb) : Z) = index_offset compression checksum_type (length l) pages).
  { unfold index_offset. fold te tb. rewrite length_app. lia. }
  destruct (read_block_ok r content _ _ _ Hr E1) as (r1 & F1 & Hr1 & Ha1).
  rewrite app_assoc in E1. destruct (read_block_ok r1 content _ _ _ Hr1 E1) as (r2 & F2 & Hr2 & Ha2).
  assert (E3 : content = (l ++ pb) ++ tb ++ index_bytes d ++ le_bytes 8 te ++ c) by (rewrite E1, <- !app_assoc; done).
  destruct (read_block_ok r2 content _ _ _ Hr2 E3) as (r3 & F3 & Hr3 & Ha3).
  assert (Hstrict : key_strict d).
  { apply key_strict_keys. unfold d. rewrite page_entries_keys. by destruct (po_addrs _ _ _ _ _ Hp). }
  exists r2, r3. split; [|split; [|split; [done|congruence]]].
  - unfold read_page_group_index_block, px, group_index. cbn [px_data_handle px_meta_handle].
    fold pages d. rewrite Hie in F1. st_step F1.
    rewrite (length_app _ (index_bytes d)), Nat2Z.inj_add, Hie in F2.
    change (Z.of_nat (length (le_bytes 8 te))) with 8 in F2. st_step F2. unfold lift.
    rewrite index_block_roundtrip; [done|by eapply entries_fit|done| |unfold fits, te; lia].
    apply page_entries_offsets; [lia|done].
  - unfold read_page_table, get_page_table_meta_page, read_meta, group_meta. cbn [pgm_page_table_offset pgm_meta_block_end].
    fold pages te. rewrite wrap_small by (unfold fits, te; lia).
    unfold index_offset. fold te tb. replace (te + length tb - te) with (length tb : Z) by lia.
    rewrite Hte in F3. st_step F3. unfold lift. unfold tb. rewrite page_table_roundtrip; [done| |].
    + unfold group_table. apply Forall_fmap. eapply Forall_impl; [apply Hp|]. intros p (? & ? & _). done.
    + apply key_strict_keys. unfold group_table. rewrite <- list_fmap_compose. by destruct (po_addrs _ _ _ _ _ Hp).
Qed.

Lemma read_groups_ok r content l groups c file_id metas tables :
  fr_repr io_fuel r content -> content = l ++ gsbytes (length l) groups ++ c ->
  groups_ok compression checksum_type (length l) groups ->
  exists r', read_groups alloc io_fuel file_id (groups_index compression checksum_type (length l) groups) (length l) metas tables r =
      (Ok (groups_fold compression checksum_type (read_meta compression checksum_type file_id) (length l) groups metas,
           groups_fold compression checksum_type (λ _ g, group_table (gs_pages g)) (length l) groups tables), r') /\
    fr_repr io_fuel r' content /\ fr_align_size r' = fr_align_size r.
Proof using Halloc.
  revert r l metas tables. induction groups as [|g groups IH]; intros r l metas tables Hr E Hg; [by exists r|].
  destruct Hg as [Hp Hg]. cbn [groups_bytes] in E. rewrite <- (app_assoc (gbytes _ _)) in E.
  destruct (read_group_ok r content l g _ file_id Hr E Hp) as (r1 & r2 & F1 & F2 & Hr2 & Ha2).
  destruct (pages_ok_bounds _ _ _ _ _ Hp) as (Ht & Hi & Hl & Hti). pose proof (po_end _ _ _ _ _ Hp) as He.
  rewrite app_assoc in E. rewrite <- Nat2Z.inj_add, <- length_app in E, Hg.
  destruct (IH r2 _ (<[gs_id g := read_meta compression checksum_type file_id (length l) g]> metas)
    (<[gs_id g := group_table (gs_pages g)]> tables) Hr2 E Hg) as (r3 & F3 & Hr3 & Ha3).
  exists r3. split; [|split; [done|congruence]].
  cbn [groups_index read_groups]. st_step F1.
  rewrite (st_bind_ok _ _ r1 ([table_offset compression checksum_type (length l) (gs_pages g);
    index_offset compression checksum_type (length l) (gs_pages g)],
    disk_entries (page_entries compression checksum_type (length l) (gs_pages g)) (table_offset compression checksum_type (length l) (gs_pages g))) r1) by done.
  rewrite (st_bind_ok _ _ r1 (read_meta compression checksum_type file_id (length l) g) r1).
  2: { unfold lift. cbn [px_file_id group_index]. rewrite group_meta_new; [done|done| |].
       - by rewrite disk_entries_keys, page_entries_keys.
       - apply disk_offsets_ok, page_entries_offsets; [lia|done]. }
  st_step F2. cbn [groups_fold]. rewrite length_app, Nat2Z.inj_add in F3.
  replace (wrap64 _) with (length l + length (gbytes (length l) (gs_pages g))); [exact F3|].
  symmetry. cbn [group_index px_meta_handle bh_offset bh_length]. rewrite length_group_bytes in *.
  unfold index_offset, table_offset. rewrite length_page_table, length_index_bytes, length_page_entries.
  unfold group_table. rewrite length_fmap. rewrite wrap_small; [lia|]. unfold fits. lia.
Qed.

Lemma groups_index_fits base groups :
  groups_ok compression checksum_type base groups -> Forall page_index_fits (groups_index compression checksum_type base groups).
Proof using.
  revert base. induction groups as [|g groups IH]; intros base; [constructor|]. intros [Hp Hg]. cbn [groups_index].
  constructor; [|by apply IH]. destruct (pages_ok_bounds _ _ _ _ _ Hp) as (Ht & Hi & Hl & Hti).
  pose proof (po_end _ _ _ _ _ Hp) as He. rewrite length_group_bytes in He.
  unfold page_index_fits, handle_fits, group_index. cbn [px_file_id px_data_handle px_meta_handle bh_offset bh_length].
  rewrite length_index_bytes, length_page_entries. split; [apply Hp|]. unfold fits. lia.
Qed.

Lemma read_footer_ok r content groups deallocs :
  codec_ok compression checksum_type ->
  fr_repr io_fuel r content -> content = file_bytes compression checksum_type groups deallocs ->
  let base := length (gsbytes 0 groups) in
  let ft := tail_footer compression checksum_type base (page_index_block (groups_index compression checksum_type 0 groups))
    (dealloc_pages_block deallocs) in
  exists r', read_footer alloc io_fuel r = (Ok ft, r') /\ fr_repr io_fuel r' content /\ fr_align_size r' = fr_align_size r.
Proof using Halloc.
  intros Hcodec Hr E base ft. unfold file_bytes, tail_bytes in E. fold base in E. cbv zeta in E.
  set (ib := page_index_block _) in *. set (db := dealloc_pages_block _) in *. fold ft in E.
  assert (Hft : length (footer_encode ft) = footer_encoded_size).
  { unfold footer_encode. rewrite !length_app, !length_block_handle, length_le_bytes. done. }
  assert (E1 : content = ((gsbytes 0 groups ++ ib) ++ db) ++ footer_encode ft ++ [])
    by (rewrite E, app_nil_r, <- !app_assoc; done).
  assert (Hlen : length content = (length ((gsbytes 0 groups ++ ib) ++ db) + footer_encoded_size)%nat).
  { rewrite E1, app_nil_r, length_app, Hft. done. }
  destruct (fr_read_ok alloc io_fuel Halloc r content footer_encoded_size (length content - footer_encoded_size)) as (r' & F & Hr' & Ha);
    [done|lia|lia|].
  exists r'. split; [|done]. unfold read_footer. rewrite (st_bind_ok _ _ r (fr_file_size r) r) by done.
  rewrite (fq_size _ _ _ Hr). replace (_ <? _) with false by (symmetry; apply Z.ltb_ge; lia). st_step F. unfold lift.
  assert (Erange : range_of content (length content - footer_encoded_size) footer_encoded_size = footer_encode ft).
  { rewrite E1 at 1. apply range_app; lia. }
  rewrite Erange. pose proof (fq_64 _ _ _ Hr) as H64. destruct (fq_align _ _ _ Hr) as [Hal _].
  rewrite footer_roundtrip; [done|done| | |done].
  - unfold handle_fits, ft, tail_footer. cbn [ft_page_index_handle bh_offset bh_length].
    unfold base, fits. rewrite !length_app in Hlen. lia.
  - unfold handle_fits, ft, tail_footer. cbn [ft_dealloc_pages_handle bh_offset bh_length].
    unfold base, fits. rewrite !length_app in Hlen. lia.
Qed.

(** The metadata of a finished file. *)
Lemma file_meta_read_ok r groups deallocs file_id :
  codec_ok compression checksum_type -> groups_ok compression checksum_type 0 groups -> Forall (fits 64) deallocs ->
  fr_repr io_fuel r (file_bytes compression checksum_type groups deallocs) ->
  let metas := groups_fold compression checksum_type (read_meta compression checksum_type file_id) 0 groups ∅ in
  exists r', file_meta_read alloc io_fuel file_id r =
      (Ok (mkFileMetaHolder (mkFileMeta file_id (length (file_bytes compression checksum_type groups deallocs)) (fr_align_size r)
             checksum_type compression (get_referenced_groups deallocs) metas) metas
             (groups_fold compression checksum_type (λ _ g, group_table (gs_pages g)) 0 groups ∅) deallocs), r') /\
    fr_repr io_fuel r' (file_bytes compression checksum_type groups deallocs).
Proof using Halloc.
  intros Hcodec Hg Hd Hr metas. set (content := file_bytes _ _ _ _) in *.
  destruct (read_footer_ok r content groups deallocs Hcodec Hr eq_refl) as (r1 & F1 & Hr1 & Ha1). cbv zeta in F1.
  set (ib := page_index_block _) in *. set (db := dealloc_pages_block _) in *.
  assert (E : content = gsbytes 0 groups ++ ib ++ db ++ footer_encode (tail_footer compression checksum_type
    (length (gsbytes 0 groups)) ib db)) by done.
  destruct (read_block_ok r1 content _ _ _ Hr1 E) as (r2 & F2 & Hr2 & Ha2).
  destruct (read_groups_ok r2 content [] groups _ file_id ∅ ∅ Hr2 E Hg) as (r3 & F3 & Hr3 & Ha3).
  rewrite app_assoc in E. destruct (read_block_ok r3 content _ _ _ Hr3 E) as (r4 & F4 & Hr4 & Ha4).
  exists r4. split; [|done]. unfold file_meta_read. st_step F1.
  unfold read_page_indexes, tail_footer. cbn [ft_page_index_handle ft_dealloc_pages_handle ft_checksum_type ft_compression].
  rewrite (st_bind_ok _ _ r1 (groups_index compression checksum_type 0 groups) r2).
  2: { st_step F2. unfold lift, ib. rewrite page_indexes_roundtrip; [done|by apply groups_index_fits|].
       unfold page_index_block. rewrite (length_records page_index_encoded_size) by apply length_page_index.
       unfold page_index_encoded_size. lia. }
  change (Z.of_nat (length [])) with 0 in F3. st_step F3.
  rewrite (st_bind_ok _ _ r3 deallocs r4).
  2: { unfold read_dealloc_pages. cbn [ft_dealloc_pages_handle]. rewrite length_app, Nat2Z.inj_add in F4. st_step F4.
       unfold lift, db. rewrite dealloc_pages_roundtrip; [done|done|rewrite length_dealloc_block; lia]. }
  rewrite (st_bind_ok _ _ r4 r4 r4) by done. unfold mret, st_ret. rewrite (fq_size _ _ _ Hr4).
  replace (fr_align_size r4) with (fr_align_size r) by congruence. done.
Qed.
End read.

(** ** Files, written and read *)

Section roundtrip.
Context `{PageCodecsLaws} {W : Type} `{SequentialWriterLaws W} {R : Type} `{PositionalReaderLaws R}.
Context (alloc : nat -> list Z) (io_fuel : nat).

(** Building a file of the given groups. *)
Definition write_file (file_id : Z) (file : W) (use_direct : bool) (block_size compression checksum_type : Z)
    (groups : list GroupSpec) (up2 : Z) : res (gmap Z PageGroup * FileInfo * W) :=
  b ← file_builder_new alloc file_id file use_direct block_size compression checksum_type;
  b ← write_groups io_fuel groups b;
  fb_finish io_fuel up2 b.

(** The metadata of a file as its reader sees it. *)
Definition file_as_read (block_size : Z) (m : FileMeta) : FileMeta :=
  mkFileMeta (fm_file_id m) (fm_file_size m) block_size (fm_checksum_type m) (fm_compression m)
    (fm_referenced_groups m) (meta_as_read <$> fm_page_groups m).

(** What is asked of a file to write: known codecs, an empty file on a device that
    works, and groups in order within the limits of the format. *)
Record file_ok (file : W) (block_size compression checksum_type : Z) (groups : list GroupSpec) : Prop := {
  fk_codec : codec_ok compression checksum_type;
  fk_groups : groups_ok compression checksum_type 0 groups;
  fk_ids : NoDup (gs_id <$> groups);
  fk_deallocs : Forall (fits 64) (all_deallocs groups []);
  fk_empty : sw_content file = [];
  fk_block : power_of_two block_size;
  fk_fuel : IO_BUFFER_SIZE + block_size + sw_interrupts file <= io_fuel;
  fk_size : length (file_bytes compression checksum_type groups (all_deallocs groups [])) < 2 ^ 64;
}.

Context (Halloc : forall n, length (alloc n) = n).

Lemma write_file_ok file_id file use_direct block_size compression checksum_type groups up2 :
  file_ok file block_size compression checksum_type groups ->
  let content := file_bytes compression checksum_type groups (all_deallocs groups []) in
  let pgs := groups_fold compression checksum_type (written_group compression checksum_type file_id) 0 groups ∅ in
  exists f, write_file file_id file use_direct block_size compression checksum_type groups up2 =
      Ok (pgs, mkFileInfo up2 up2 (mkFileMeta file_id (length content) DEFAULT_BLOCK_SIZE checksum_type compression
             (get_referenced_groups (all_deallocs groups [])) (pg_meta <$> pgs)), f) /\
    sw_content f = content.
Proof using Halloc H0.
  intros [Hcodec Hg _ Hd He [Hb1 Hb2] Hf Hs] content pgs.
  destruct (bw_new_ok alloc io_fuel Halloc file IO_BUFFER_SIZE use_direct block_size) as (w & E & Hw); [done|done|done|done|done|].
  unfold write_file, file_builder_new. rewrite E. cbn [mbind res_bind].
  set (b := mkFileBuilder file_id w [] [] ∅ block_size 0 compression checksum_type).
  destruct (write_groups_ok io_fuel compression checksum_type Hcodec groups b []) as (w1 & o & E1 & Hw1); [done|done|done|done|].
  rewrite E1. cbn [mbind res_bind]. cbn [fb_file_id fb_dealloc_pages fb_page_index fb_page_groups fb_block_size fb_compression fb_checksum b app] in *.
  set (b1 := mkFileBuilder _ _ _ _ _ _ _ _ _).
  destruct (fb_finish_ok io_fuel compression checksum_type Hcodec up2 b1 _ Hw1) as (f & E2 & Hc); [done|done|done|].
  exists f. split; [exact E2|exact Hc].
Qed.

Lemma read_meta_as_read compression checksum_type file_id base g :
  meta_as_read (written_meta compression checksum_type file_id base g) = read_meta compression checksum_type file_id base g.
Proof using. unfold meta_as_read, written_meta, read_meta, group_meta. cbn. by rewrite meta_map_disk. Qed.

(** [C18] The metadata of a page file survives the file: when the groups are written in
    order and the file is finished, reading the file from its footer gives the
    metadata the builder returned (the offsets, sizes and indices of all pages, the
    groups, the codecs and the referenced groups; the size in a page's info is the
    size in the file), the page table of every group, and the deallocated pages. It
    holds for each compression, without a checksum and with CRC32 (the third one is not
    implemented in the code), with buffered and direct I/O, and whatever the short reads
    and writes and the interrupts of the devices, when the groups end below 4 GiB (the
    offsets of pages have 32 bits). *)
Theorem file_metadata_roundtrip file_id file use_direct block_size compression checksum_type groups up2 :
  file_ok file block_size compression checksum_type groups ->
  exists pgs info f, write_file file_id file use_direct block_size compression checksum_type groups up2 = Ok (pgs, info, f) /\
    sw_content f = file_bytes compression checksum_type groups (all_deallocs groups []) /\
    fm_page_groups (fi_meta info) = pg_meta <$> pgs /\ fm_file_size (fi_meta info) = length (sw_content f) /\
    forall r : FileReader R, fr_repr io_fuel r (sw_content f) ->
    exists holder r', file_meta_read alloc io_fuel file_id r = (Ok holder, r') /\
      fh_file_meta holder = file_as_read (fr_align_size r) (fi_meta info) /\
      fh_page_groups holder = meta_as_read <$> (pg_meta <$> pgs) /\
      fh_dealloc_pages holder = all_deallocs groups [] /\
      forall g, g ∈ groups -> fh_page_tables holder !! gs_id g = Some (group_table (gs_pages g)).
Proof using Halloc H0.
  intros Hok. destruct (write_file_ok file_id file use_direct block_size compression checksum_type groups up2 Hok) as (f & E & Hc).
  destruct Hok as [Hcodec Hg Hids Hd _ _ _ _].
  eexists _, _, f. split; [exact E|]. split; [exact Hc|]. cbn [fi_meta fm_page_groups fm_file_size]. split; [done|]. split; [by rewrite Hc|].
  intros r Hr. rewrite Hc in Hr.
  destruct (file_meta_read_ok alloc io_fuel compression checksum_type Halloc r groups _ file_id Hcodec Hg Hd Hr) as (r' & F & Hr').
  set (pgs := groups_fold compression checksum_type (written_group compression checksum_type file_id) 0 groups ∅).
  assert (Em : groups_fold compression checksum_type (read_meta compression checksum_type file_id) 0 groups ∅ =
    meta_as_read <$> (pg_meta <$> pgs)).
  { unfold pgs. rewrite !groups_fold_fmap, !fmap_empty. apply groups_fold_ext. intros b g. symmetry. apply read_meta_as_read. }
  rewrite Em in F. eexists _, r'. split; [exact F|]. cbn [fh_file_meta fh_page_groups fh_dealloc_pages fh_page_tables].
  split; [done|]. split; [done|]. split; [done|].
  intros g (pre & post & ->)%list_elem_of_split. rewrite fmap_app, fmap_cons in Hids.
  apply NoDup_app in Hids as (_ & _ & [Hn _]%NoDup_cons). by rewrite groups_fold_lookup.
Qed.

(** The handle of a page of a group. *)
Lemma page_meta_at compression checksum_type gid base pre p post :
  group_addrs gid (sp_addr <$> (pre ++ p :: post)) ->
  exists pm, meta_map (page_entries compression checksum_type base (pre ++ p :: post))
      (table_offset compression checksum_type base (pre ++ p :: post)) !! wrap32 (sp_addr p) = Some pm /\
    pm_index pm = length pre /\
    pm_handle pm = mkPageHandle (table_offset compression checksum_type base pre)
      (length (page_bytes compression checksum_type (sp_content p))).
Proof using.
  intros Hg.
  assert (Hin : forall base i, exists pm, (wrap32 (sp_addr p), pm) ∈
      meta_entries i (page_entries compression checksum_type base (pre ++ p :: post))
        (table_offset compression checksum_type base (pre ++ p :: post)) /\
      pm_index pm = i + length pre /\
      pm_handle pm = mkPageHandle (table_offset compression checksum_type base pre)
        (length (page_bytes compression checksum_type (sp_content p)))).
  { clear Hg. induction pre as [|q pre IH]; intros base' i; cbn [app page_entries meta_entries].
    - rewrite table_offset_cons, page_entries_next. eexists. split; [by left|]. cbn. unfold table_offset. simpl.
      split; [lia|]. f_equal; lia.
    - rewrite table_offset_cons. destruct (IH (base' + length (page_bytes compression checksum_type (sp_content q))) (i + 1))
        as (pm & Hin & Hi & Hh). exists pm. split; [by right|]. split; [simpl; lia|]. by rewrite Hh, table_offset_cons. }
  destruct (Hin base 0) as (pm & Hpm & Hi & Hh). exists pm. split; [|done].
  eapply meta_map_elem; [|done]. rewrite page_entries_keys. exact Hg.
Qed.

(** A new page group gives the handle of each page. *)
Lemma new_group_handle m addr pm :
  total_pages m < 2 ^ 32 -> 0 <= pm_index pm < total_pages m -> pgm_page_meta_map m !! wrap32 addr = Some pm ->
  get_page_handle addr (page_group_new m) = Ok (Some (pm_handle pm)).
Proof using.
  intros Hn Hi Hpm. unfold get_page_handle, meta_page_handle, page_group_new. cbn [pg_meta pg_dealloc_pages]. rewrite Hpm.
  cbn [mbind option_bind]. unfold total_pages in *. rewrite wrap_small by (unfold fits; lia).
  rewrite (bitmap_test_ok _ ∅); [done|apply bitmap_new_repr; unfold fits; lia|done].
Qed.

(** The bytes of a page in a finished file. *)
Lemma file_bytes_page compression checksum_type gpre g gpost pre p post deallocs :
  gs_pages g = pre ++ p :: post ->
  exists a c, file_bytes compression checksum_type (gpre ++ g :: gpost) deallocs =
      a ++ page_bytes compression checksum_type (sp_content p) ++ c /\
    (length a : Z) = table_offset compression checksum_type (length (groups_bytes compression checksum_type 0 gpre)) pre.
Proof using.
  intros E. unfold file_bytes. rewrite groups_bytes_app. cbn [groups_bytes]. rewrite Z.add_0_l.
  unfold group_bytes at 1. rewrite E. unfold pages_bytes at 1. rewrite fmap_app, fmap_cons, concat_app. cbn [concat].
  eexists (groups_bytes compression checksum_type 0 gpre ++ pages_bytes compression checksum_type pre), _.
  split; [by rewrite <- !app_assoc|]. unfold table_offset. rewrite length_app. lia.
Qed.

(** Every page of a finished file has a handle that leads to it, whatever the file
    deallocates. *)
Lemma group_page_in_file file_id compression checksum_type groups deallocs g p fm :
  codec_ok compression checksum_type -> groups_ok compression checksum_type 0 groups -> NoDup (gs_id <$> groups) ->
  g ∈ groups -> p ∈ gs_pages g -> length (sp_content p) < 2 ^ 64 ->
  fm_compression fm = compression -> fm_checksum_type fm = checksum_type ->
  exists group handle,
    groups_fold compression checksum_type (written_group compression checksum_type file_id) 0 groups ∅ !! gs_id g = Some group /\
    total_pages (pg_meta group) = length (gs_pages g) /\
    get_page_handle (sp_addr p) group = Ok (Some handle) /\
    page_in_file (file_bytes compression checksum_type groups deallocs) fm handle (sp_content p).
Proof using H0.
  intros Hcodec Hg Hids (gpre & gpost & ->)%list_elem_of_split (pre & post & Epg)%list_elem_of_split H64 Hfc Hfk.
  rewrite fmap_app, fmap_cons in Hids. apply NoDup_app in Hids as (_ & _ & [Hn _]%NoDup_cons).
  apply groups_ok_app in Hg as [Hp _]. rewrite Z.add_0_l in Hp.
  set (base := (length (groups_bytes compression checksum_type 0 gpre) : Z)) in *.
  destruct (pages_ok_bounds _ _ _ _ _ Hp) as (Ht & Hi & Hl & Hti). pose proof (po_addrs _ _ _ _ _ Hp) as Hga.
  rewrite Epg in Hga. destruct (page_meta_at compression checksum_type _ base _ _ _ Hga) as (pm & Hpm & Hidx & Hh).
  rewrite <- Epg in Hpm, Hga.
  assert (Hsize : total_pages (written_meta compression checksum_type file_id base g) = length (gs_pages g)).
  { unfold total_pages, written_meta, group_meta. cbn [pgm_page_meta_map].
    rewrite (meta_map_size (gs_id g)) by (by rewrite page_entries_keys). apply length_page_entries. }
  exists (written_group compression checksum_type file_id base g), (pm_handle pm).
  split; [by rewrite groups_fold_lookup|]. split; [done|]. split.
  - apply new_group_handle; [by rewrite Hsize| |exact Hpm]. rewrite Hsize, Hidx, Epg, length_app. simpl. lia.
  - destruct (file_bytes_page compression checksum_type gpre g gpost pre p post deallocs Epg) as (a & c & Ec & Ha). fold base in Ha.
    rewrite Ec. set (pb := page_bytes compression checksum_type (sp_content p)) in *. unfold page_in_file. rewrite Hh. cbn [ph_size ph_offset].
    fold pb. rewrite Nat2Z.id, <- Ha, range_app by done. rewrite !length_app. split_and!; [lia|lia|lia|]. unfold pb. rewrite <- Hfc, <- Hfk.
    apply decode_page_ok; [by rewrite Hfc, Hfk|done].
Qed.
Lemma group_page_reads file_id compression checksum_type groups deallocs g p fm :
  codec_ok compression checksum_type -> groups_ok compression checksum_type 0 groups -> NoDup (gs_id <$> groups) ->
  g ∈ groups -> p ∈ gs_pages g -> length (sp_content p) < 2 ^ 64 ->
  fm_compression fm = compression -> fm_checksum_type fm = checksum_type ->
  exists group handle,
    groups_fold compression checksum_type (written_group compression checksum_type file_id) 0 groups ∅ !! gs_id g = Some group /\
    total_pages (pg_meta group) = length (gs_pages g) /\
    get_page_handle (sp_addr p) group = Ok (Some handle) /\
    forall r : FileReader R, fr_repr io_fuel r (file_bytes compression checksum_type groups deallocs) ->
    exists r', read_file_page_from_reader alloc io_fuel fm handle r = (Ok (sp_content p), r').
Proof using Halloc H0.
  intros F1 F2 F3 F4 F5 F6 F7 F8. destruct (group_page_in_file file_id compression checksum_type groups deallocs g p fm F1 F2 F3 F4 F5 F6 F7 F8) as (group & handle & ? & ? & ? & Hin).
  exists group, handle. split_and!; try done. intros r Hr. destruct (page_in_file_reads alloc io_fuel Halloc _ _ _ _ r Hin Hr) as (r' & E & _). by exists r'.
Qed.
Lemma page_handle_reads file_id file block_size compression checksum_type groups g p fm :
  file_ok file block_size compression checksum_type groups -> g ∈ groups -> p ∈ gs_pages g -> length (sp_content p) < 2 ^ 64 ->
  fm_compression fm = compression -> fm_checksum_type fm = checksum_type ->
  exists group handle,
    groups_fold compression checksum_type (written_group compression checksum_type file_id) 0 groups ∅ !! gs_id g = Some group /\
    total_pages (pg_meta group) = length (gs_pages g) /\
    get_page_handle (sp_addr p) group = Ok (Some handle) /\
    forall r : FileReader R, fr_repr io_fuel r (file_bytes compression checksum_type groups (all_deallocs groups [])) ->
    exists r', read_file_page_from_reader alloc io_fuel fm handle r = (Ok (sp_content p), r').
Proof using Halloc H0. intros [Hcodec Hg Hids _ _ _ _ _]. by apply group_page_reads. Qed.

(** The content of a page survives the file: for every page of every group, the
    page group that building the file returned gives a handle, and reading the file
    through that handle, checking and decompressing, gives exactly the content that
    was added. *)
Theorem page_content_roundtrip file_id file use_direct block_size compression checksum_type groups up2 g p :
  file_ok file block_size compression checksum_type groups -> g ∈ groups -> p ∈ gs_pages g -> length (sp_content p) < 2 ^ 64 ->
  exists pgs info f group handle,
    write_file file_id file use_direct block_size compression checksum_type groups up2 = Ok (pgs, info, f) /\
    sw_content f = file_bytes compression checksum_type groups (all_deallocs groups []) /\
    pgs !! gs_id g = Some group /\ get_page_handle (sp_addr p) group = Ok (Some handle) /\
    forall r : FileReader R, fr_repr io_fuel r (sw_content f) ->
    exists r', read_file_page_from_reader alloc io_fuel (fi_meta info) handle r = (Ok (sp_content p), r').
Proof using Halloc H0.
  intros Hok Hg Hp H64.
  destruct (write_file_ok file_id file use_direct block_size compression checksum_type _ up2 Hok) as (f & E & Hc).
  edestruct (page_handle_reads file_id file block_size compression checksum_type groups g p) as (group & handle & Hgr & _ & Hh & Hr);
    [exact Hok|exact Hg|exact Hp|exact H64| | |].
  3: { eexists _, _, f, group, handle. split; [exact E|]. split; [exact Hc|]. split; [exact Hgr|]. split; [exact Hh|].
       intros r. rewrite Hc. apply Hr. }
  all: done.
Qed.

(** [C40] A page whose bytes do not carry their checksum is refused: with CRC32 pages,
    reading a range of the file whose last four bytes are not the checksum of the
    bytes before them fails with the corruption error, and nothing is decompressed. *)
Theorem corrupt_page_detected fm handle (r : FileReader R) content body sum :
  fr_repr io_fuel r content -> fm_checksum_type fm = CHECKSUM_CRC32 ->
  0 <= ph_offset handle -> ph_offset handle + ph_size handle <= length content ->
  range_of content (ph_offset handle) (Z.to_nat (ph_size handle)) = body ++ sum -> length sum = 4%nat ->
  le_num sum <> crc32 body ->
  exists r', read_file_page_from_reader alloc io_fuel fm handle r = (Err Corrupted, r').
Proof using Halloc.
  intros Hr Hk Ho Hs Erange Hsum Hne.
  assert (0 <= ph_size handle).
  { destruct (Z.le_gt_cases 0 (ph_size handle)); [done|]. apply (f_equal length) in Erange.
    unfold range_of in Erange. rewrite length_take, length_app in Erange. lia. }
  destruct (fr_read_ok alloc io_fuel Halloc r content (Z.to_nat (ph_size handle)) (ph_offset handle) Hr) as (r' & F & _); [done|lia|].
  exists r'. unfold read_file_page_from_reader. st_step F. unfold lift. rewrite Erange, decode_page_sum by done.
  destruct (Z.eqb_spec (crc32 body) (le_num sum)); [congruence|done].
Qed.
End roundtrip.

(** ** Witnesses *)

(** Codecs that store pages as they are, and add up their bytes. *)
Definition plain_codecs : PageCodecs := {|
  crc32 l := wrap32 (foldr Z.add 0 l);
  snap_compress l := l;
  snap_max_len n := n;
  snap_decompress_len l := Some (length l);
  snap_decompress l := Some l;
  zstd_compress l := l;
  zstd_bound n := n;
  zstd_decompress l := Some l;
|}.
#[local] Existing Instance plain_codecs.
#[local] Instance plain_codecs_laws : PageCodecsLaws.
Proof. constructor; try done. intros l. apply wrap_fits. lia. Defined.

Definition sample_page (id addr b : Z) : PageSpec := mkPageSpec id addr (mkPageInfo 5 0 3) [b; b + 1; b + 2].
(** Two groups, a deallocated page of a third one. *)
Definition sample_groups : list GroupSpec :=
  [mkGroupSpec 1 [sample_page 7 (2 ^ 32 + 16) 10; sample_page 8 (2 ^ 32 + 64) 20] [2 ^ 33 + 8];
   mkGroupSpec 4 [sample_page 9 (2 ^ 34 + 16) 30] []].
Definition sample_fuel : nat := Z.to_nat (2 ^ 24).
Definition sample_reader (content : list Z) : FileReader MemFile := mkFileReader (mkMemFile content 0) true 4096 (length content).

Lemma sample_file_ok : file_ok sample_fuel (mkMemFile [] 2) 4096 COMPRESSION_ZSTD CHECKSUM_CRC32 sample_groups.
Proof.
  constructor.
  - split; [by right; right|by right].
  - split; [|split; [|done]]; (constructor;
      [split; repeat constructor|repeat (constructor; [cbn; unfold fits; lia|]); constructor|split; done|done|vm_compute; done]).
  - by apply (bool_decide_eq_true_1 _).
  - constructor; [cbn; unfold fits; lia|constructor].
  - done.
  - done.
  - unfold sample_fuel. rewrite Z2Nat.id by lia. vm_compute. done.
  - vm_compute. done.
Qed.

Lemma sample_reader_repr content : length content < 10000 -> fr_repr sample_fuel (sample_reader content) content.
Proof.
  intros Hc. constructor; cbn [sample_reader fr_reader fr_align_size fr_file_size fr_use_direct pr_interrupts mem_reader_laws].
  - done.
  - done.
  - done.
  - unfold sample_fuel. rewrite Z2Nat.id by lia. lia.
  - lia.
  - intros _. apply (mem_direct_laws 12). lia.
Qed.

Lemma file_metadata_roundtrip_witness :
  exists pgs info f holder r', write_file (λ n, replicate n 0) sample_fuel 3 (mkMemFile [] 2) true 4096 COMPRESSION_ZSTD CHECKSUM_CRC32
      sample_groups 0 = Ok (pgs, info, f) /\
    file_meta_read (λ n, replicate n 0) sample_fuel 3 (sample_reader (mf_data f)) = (Ok holder, r') /\
    fh_page_groups holder = meta_as_read <$> (pg_meta <$> pgs) /\ fh_dealloc_pages holder = [2 ^ 33 + 8].
Proof.
  destruct (file_metadata_roundtrip (R := MemFile) (λ n, replicate n 0) sample_fuel (λ n, length_replicate n 0) 3 (mkMemFile [] 2) true 4096
    COMPRESSION_ZSTD CHECKSUM_CRC32 sample_groups 0 sample_file_ok) as (pgs & info & f & E & Hc & _ & _ & Hr).
  destruct (Hr (sample_reader (mf_data f))) as (holder & r' & F & _ & Hg & Hd & _).
  { apply sample_reader_repr. change (mf_data f) with (sw_content f). rewrite Hc. vm_compute. done. }
  exists pgs, info, f, holder, r'. split; [exact E|]. split; [exact F|]. split; [exact Hg|exact Hd].
Defined.

Lemma page_content_roundtrip_witness :
  exists pgs info f handle r', write_file (λ n, replicate n 0) sample_fuel 3 (mkMemFile [] 2) true 4096 COMPRESSION_ZSTD CHECKSUM_CRC32
      sample_groups 0 = Ok (pgs, info, f) /\
    read_file_page_from_reader (λ n, replicate n 0) sample_fuel (fi_meta info) handle (sample_reader (mf_data f)) = (Ok [30; 31; 32], r').
Proof.
  destruct (page_content_roundtrip (R := MemFile) (λ n, replicate n 0) sample_fuel (λ n, length_replicate n 0) 3 (mkMemFile [] 2) true 4096
    COMPRESSION_ZSTD CHECKSUM_CRC32 sample_groups 0 (mkGroupSpec 4 [sample_page 9 (2 ^ 34 + 16) 30] []) (sample_page 9 (2 ^ 34 + 16) 30)
    sample_file_ok) as (pgs & info & f & group & handle & E & Hc & _ & _ & Hr).
  - right. left.
  - left.
  - simpl. lia.
  - destruct (Hr (sample_reader (mf_data f))) as (r' & F).
    { apply sample_reader_repr. change (mf_data f) with (sw_content f). rewrite Hc. vm_compute. done. }
    exists pgs, info, f, handle, r'. split; [exact E|exact F].
Defined.

(** The byte 2 was 1 when the checksum was taken. *)
Lemma corrupt_page_detected_witness :
  exists r', read_file_page_from_reader (λ n, replicate n 0) sample_fuel
    (mkFileMeta 3 8 4096 CHECKSUM_CRC32 COMPRESSION_NONE ∅ ∅) (mkPageHandle 1 6) (sample_reader [0; 2; 2; 3; 0; 0; 0; 0]) = (Err Corrupted, r').
Proof.
  apply (corrupt_page_detected (λ n, replicate n 0) sample_fuel (λ n, length_replicate n 0) _ _ _ [0; 2; 2; 3; 0; 0; 0; 0] [2; 2] [3; 0; 0; 0]).
  - apply sample_reader_repr. simpl. lia.
  - done.
  - simpl. lia.
  - simpl. lia.
  - reflexivity.
  - reflexivity.
  - vm_compute. lia.
Defined.
