(* ===== verification/Directory.v ===== *)
(** * The directory of a store ([trait Env] of [env/mod.rs])

    The environment as the page store uses it: one directory of named files. A
    writer or a reader that was opened on a file is the name of the file
    ([Handle]), so the loops of [Env.v] run on it. [DirLaws] says what a directory
    that works does; [MemDir] is an instance. *)

From stdpp Require Import base numbers list strings gmap.
From Stdlib Require Import ZArith Lia.
From S2P Require Import Prelude Env.

Class Env (D : Type) := {
  env_open_sequential_writer : string -> St D unit;
  env_write : string -> list Z -> St D nat;
  env_sync_data : string -> St D unit;
  env_sync_all : string -> St D unit;
  env_truncate : string -> Z -> St D unit;
  env_open_positional_reader : string -> St D unit;
  env_read_at : string -> nat -> Z -> St D (list Z);
  env_rename : string -> string -> St D unit;
  env_remove_file : string -> St D unit;
  env_read_dir : St D (list string);
  env_metadata_len : string -> St D Z;
  (** [Directory::sync_all]. *)
  env_sync_dir : St D unit;
}.

(** A file that was opened: the state is that of the directory. *)
Definition Handle (D : Type) (name : string) : Type := D.

#[global] Instance handle_writer {D} `{Env D} name : SequentialWriter (Handle D name) := {
  sw_write := env_write name;
  sw_sync_data := env_sync_data name;
  sw_sync_all := env_sync_all name;
  sw_truncate := env_truncate name;
}.
#[global] Instance handle_reader {D} `{Env D} name : PositionalReader (Handle D name) := env_read_at name.

Definition dir_write_all {D} `{Env D} (fuel : nat) (name : string) (buf : list Z) : St D unit :=
  @write_all (Handle D name) _ fuel buf.
Definition dir_read_exact_at {D} `{Env D} (fuel : nat) (name : string) (len : nat) (pos : Z) : St D (list Z) :=
  @read_exact_at (Handle D name) _ fuel len pos.

Class DirLaws (D : Type) `{Env D} := {
  dir_files : D -> gmap string (list Z);
  dir_interrupts : D -> nat;
  dir_open_writer_ok : forall name d, exists d', env_open_sequential_writer name d = (Ok tt, d') /\
    dir_files d' = <[name := []]> (dir_files d) /\ (dir_interrupts d' <= dir_interrupts d)%nat;
  dir_write_ok : forall name buf d c, buf <> [] -> dir_files d !! name = Some c ->
    (exists n d', env_write name buf d = (Ok n, d') /\ (0 < n <= length buf)%nat /\
       dir_files d' = <[name := c ++ take n buf]> (dir_files d) /\ (dir_interrupts d' <= dir_interrupts d)%nat) \/
    (exists d', env_write name buf d = (Err (Io Interrupted), d') /\ dir_files d' = dir_files d /\
       (dir_interrupts d' < dir_interrupts d)%nat);
  dir_sync_data_ok : forall name d, exists d', env_sync_data name d = (Ok tt, d') /\
    dir_files d' = dir_files d /\ (dir_interrupts d' <= dir_interrupts d)%nat;
  dir_sync_all_ok : forall name d, exists d', env_sync_all name d = (Ok tt, d') /\
    dir_files d' = dir_files d /\ (dir_interrupts d' <= dir_interrupts d)%nat;
  dir_open_reader_ok : forall name d, exists d',
    env_open_positional_reader name d =
      (if decide (is_Some (dir_files d !! name)) then Ok tt else Err (Io NotFound), d') /\
    dir_files d' = dir_files d /\ (dir_interrupts d' <= dir_interrupts d)%nat;
  dir_read_ok : forall name len pos d c, dir_files d !! name = Some c -> 0 <= pos -> (0 < len)%nat ->
    (exists n d', env_read_at name len pos d = (Ok (take n (drop (Z.to_nat pos) c)), d') /\ (n <= len)%nat /\
       (n = 0%nat -> length c <= pos) /\ (pos < length c -> pos + n <= length c) /\
       dir_files d' = dir_files d /\ (dir_interrupts d' <= dir_interrupts d)%nat) \/
    (exists d', env_read_at name len pos d = (Err (Io Interrupted), d') /\ dir_files d' = dir_files d /\
       (dir_interrupts d' < dir_interrupts d)%nat);
  dir_rename_ok : forall from to d c, dir_files d !! from = Some c -> from <> to ->
    exists d', env_rename from to d = (Ok tt, d') /\
      dir_files d' = <[to := c]> (delete from (dir_files d)) /\ (dir_interrupts d' <= dir_interrupts d)%nat;
  dir_remove_ok : forall name d, is_Some (dir_files d !! name) ->
    exists d', env_remove_file name d = (Ok tt, d') /\
      dir_files d' = delete name (dir_files d) /\ (dir_interrupts d' <= dir_interrupts d)%nat;
  dir_read_dir_ok : forall d, exists d' names, env_read_dir d = (Ok names, d') /\
    NoDup names /\ (forall name, name ∈ names <-> is_Some (dir_files d !! name)) /\
    dir_files d' = dir_files d /\ (dir_interrupts d' <= dir_interrupts d)%nat;
  dir_sync_dir_ok : forall d, exists d', env_sync_dir d = (Ok tt, d') /\
    dir_files d' = dir_files d /\ (dir_interrupts d' <= dir_interrupts d)%nat;
}.

Section laws.
Context {D : Type} `{DirLaws D}.

Lemma dir_write_all_ok fuel name buf d c :
  dir_files d !! name = Some c -> (length buf + dir_interrupts d < fuel)%nat ->
  exists d', dir_write_all fuel name buf d = (Ok tt, d') /\
    dir_files d' = <[name := c ++ buf]> (dir_files d) /\ (dir_interrupts d' <= dir_interrupts d)%nat.
Proof.
  intros Hc Hf.
  destruct (write_all_inv (W := Handle D name) (λ l d', dir_files d' = <[name := c ++ l]> (dir_files d)) dir_interrupts)
    with (fuel := fuel) (buf := buf) (l := @nil Z) (w := d) as (d' & Hw & Hd' & Hi).
  - intros buf' l d' Hb Hd'. assert (Hl : dir_files d' !! name = Some (c ++ l)) by (rewrite Hd'; apply lookup_insert_eq).
    destruct (dir_write_ok name buf' d' _ Hb Hl) as [(n & d2 & Hw & Hn & Hd2 & Hi)|(d2 & Hw & Hd2 & Hi)].
    + left. exists n, d2. split; [done|]. split; [done|]. split; [|done].
      by rewrite Hd2, Hd', insert_insert_eq, app_assoc.
    + right. exists d2. split; [done|]. split; [congruence|done].
  - rewrite app_nil_r. by rewrite insert_id.
  - done.
  - exists d'. done.
Qed.

Lemma dir_read_exact_at_ok fuel name len pos d c :
  dir_files d !! name = Some c -> (len + dir_interrupts d < fuel)%nat -> 0 <= pos -> pos + len < 2 ^ 64 ->
  exists d', dir_read_exact_at fuel name len pos d =
      (if decide (len = 0%nat \/ pos + len <= length c) then Ok (take len (drop (Z.to_nat pos) c))
       else Err (Io UnexpectedEof), d') /\
    dir_files d' = dir_files d /\ (dir_interrupts d' <= dir_interrupts d)%nat.
Proof.
  intros Hc. apply (read_exact_at_inv (R := Handle D name) (λ d', dir_files d' = dir_files d) c dir_interrupts); [|done].
  intros len' pos' d' E Hp Hl. rewrite <- E. apply dir_read_ok; [by rewrite E|done|done].
Qed.
End laws.

(** ** Directories in memory *)

Record MemDir := mkMemDir { md_files : gmap string (list Z); md_chunk : nat }.

#[global] Instance mem_dir : Env MemDir := {
  env_open_sequential_writer name := λ d, (Ok tt, mkMemDir (<[name := []]> (md_files d)) (md_chunk d));
  env_write name buf := λ d,
    match md_files d !! name with
    | Some c => let n := Nat.min (length buf) (S (md_chunk d)) in
        (Ok n, mkMemDir (<[name := c ++ take n buf]> (md_files d)) (md_chunk d))
    | None => (Err (Io NotFound), d)
    end;
  env_sync_data _ := mret tt;
  env_sync_all _ := mret tt;
  env_truncate name len := λ d, (Ok tt, mkMemDir (alter (take (Z.to_nat len)) name (md_files d)) (md_chunk d));
  env_open_positional_reader name := λ d,
    (if decide (is_Some (md_files d !! name)) then Ok tt else Err (Io NotFound), d);
  env_read_at name len pos := λ d,
    match md_files d !! name with
    | Some c => (Ok (take (Nat.min len (S (md_chunk d))) (drop (Z.to_nat pos) c)), d)
    | None => (Err (Io NotFound), d)
    end;
  env_rename from to := λ d,
    match md_files d !! from with
    | Some c => (Ok tt, mkMemDir (<[to := c]> (delete from (md_files d))) (md_chunk d))
    | None => (Err (Io NotFound), d)
    end;
  env_remove_file name := λ d,
    match md_files d !! name with
    | Some _ => (Ok tt, mkMemDir (delete name (md_files d)) (md_chunk d))
    | None => (Err (Io NotFound), d)
    end;
  env_read_dir := λ d, (Ok (map_to_list (md_files d)).*1, d);
  env_metadata_len name := λ d,
    match md_files d !! name with Some c => (Ok (length c : Z), d) | None => (Err (Io NotFound), d) end;
  env_sync_dir := mret tt;
}.

#[global] Instance mem_dir_laws : DirLaws MemDir.
Proof.
  refine {| dir_files := md_files; dir_interrupts := λ _, 0%nat |}.
  - intros name d. by eexists.
  - intros name buf d c Hb Hc. left. eexists _, _. cbn [env_write mem_dir]. rewrite Hc. split; [done|].
    split; [|done]. destruct buf; [done|]. simpl length. lia.
  - intros name d. by eexists.
  - intros name d. by eexists.
  - intros name d. by eexists.
  - intros name len pos d c Hc Hp Hl. left. cbn [env_read_at mem_dir]. rewrite Hc.
    set (n := Nat.min (Nat.min len (S (md_chunk d))) (length c - Z.to_nat pos)). exists n, d. split.
    + f_equal. f_equal. unfold n. rewrite <- (take_take _ (Nat.min len _) (length c - _)). f_equal. symmetry.
      apply take_ge. rewrite length_drop. lia.
    + split_and!; unfold n; lia || done.
  - intros from to d c Hc _. cbn [env_rename mem_dir]. rewrite Hc. by eexists.
  - intros name d [c Hc]. cbn [env_remove_file mem_dir]. rewrite Hc. by eexists.
  - intros d. eexists d, _. split; [done|]. split; [apply NoDup_fst_map_to_list|]. split; [|done].
    intros name. rewrite list_elem_of_fmap. split.
    + intros ([? c] & -> & Hc%elem_of_map_to_list). by exists c.
    + intros [c Hc]. exists (name, c). split; [done|]. by apply elem_of_map_to_list.
  - intros d. by eexists.
Defined.
