(* ===== verification/Manifest.v ===== *)
(** * The manifest ([page_store/{meta,manifest}.rs])

    The log of version edits that says which page files a store has. The protobuf
    encoding of an edit is a parameter ([EditCodec]). The state of an operation is
    the manifest and the directory it lives in; a writer that is open is the number
    of its file. *)

From stdpp Require Import base numbers list strings gmap pretty.
From Stdlib Require Import ZArith Lia Ascii.
From S2P Require Import Prelude Env Directory PageGroup.

(** ** [meta.rs] *)

Record NewFile := mkNewFile { nf_id : Z; nf_up1 : Z; nf_up2 : Z }.
Record StreamEdit := mkStreamEdit { se_new_files : list NewFile; se_deleted_files : list Z }.
Record VersionEdit := mkVersionEdit { ve_file_stream : option StreamEdit }.

#[global] Instance new_file_eq_dec : EqDecision NewFile.
Proof. solve_decision. Defined.
#[global] Instance stream_edit_eq_dec : EqDecision StreamEdit.
Proof. solve_decision. Defined.
#[global] Instance version_edit_eq_dec : EqDecision VersionEdit.
Proof. solve_decision. Defined.

(** [NewFile::from] a file id and a file info. *)
Definition new_file_from_id (file_id : Z) : NewFile := mkNewFile file_id file_id file_id.
Definition new_file_from_info (info : FileInfo) : NewFile :=
  mkNewFile (fm_file_id (fi_meta info)) (fi_up1 info) (fi_up2 info).

Class EditCodec := {
  edit_encode_to_vec : VersionEdit -> list Z;
  edit_decode : list Z -> option VersionEdit;
}.
Class EditCodecLaws `{EditCodec} : Prop := edit_roundtrip : forall e, edit_decode (edit_encode_to_vec e) = Some e.

(** ** Names *)

Definition CURRENT_FILE_NAME : string := "CURRENT".
Definition MANIFEST_FILE_NAME : string := "MANIFEST".
Definition TEMPFILE_SUFFIX : string := "tmpdb".
Definition MAX_MANIFEST_SIZE : Z := Z.shiftl 128 20.

Definition manifest_name (file_num : Z) : string := MANIFEST_FILE_NAME +:+ "_" +:+ pretty file_num.
Definition temp_name (file_num : Z) : string := "curr." +:+ pretty file_num +:+ "." +:+ TEMPFILE_SUFFIX.

(** [str::strip_prefix]. *)
Fixpoint strip_prefix (p s : string) : option string :=
  match p, s with
  | EmptyString, s => Some s
  | String a p, String b s => if bool_decide (a = b) then strip_prefix p s else None
  | _, _ => None
  end.
(** [str::trim_start_matches] for a pattern that is not empty. *)
Fixpoint trim_start_matches (fuel : nat) (p s : string) : string :=
  match fuel with
  | O => s
  | S fuel => match strip_prefix p s with Some s' => trim_start_matches fuel p s' | None => s end
  end.

(** [str::parse::<u32>]: an optional plus sign, then digits. *)
Definition digit_value (a : Ascii.ascii) : option Z :=
  let n := Z.of_N (Ascii.N_of_ascii a) in
  if (48 <=? n) && (n <=? 57) then Some (n - 48) else None.
Fixpoint parse_digits (acc : Z) (s : string) : option Z :=
  match s with
  | EmptyString => Some acc
  | String a s =>
      d ← digit_value a;
      let acc := acc * 10 + d in
      if acc <=? u32_max then parse_digits acc s else None
  end.
Definition parse_u32 (s : string) : option Z :=
  let digits := match s with String "+"%char s' => s' | _ => s end in
  if bool_decide (digits = ""%string) then None else parse_digits 0 digits.

(** [Path::extension]: what is behind the last dot, unless the name starts with it. *)
Fixpoint after_last_dot (s : string) : option string :=
  match s with
  | EmptyString => None
  | String a s' =>
      match after_last_dot s' with
      | Some e => Some e
      | None => if bool_decide (a = "."%char) then Some s' else None
      end
  end.
Definition extension (name : string) : option string :=
  match name with String _ rest => after_last_dot rest | EmptyString => None end.

(** ** [Manifest] *)

Record ManifestWriter := mkManifestWriter { mw_file_num : Z; mw_current_file_size : Z }.
Record Manifest := mkManifest {
  mf_max_file_size : Z;
  mf_next_file_id : Z;
  mf_current_file_num : option Z;
  mf_current_writer : option ManifestWriter;
}.

Record MState (D : Type) := mkMState { ms_manifest : Manifest; ms_dir : D }.
Arguments mkMState {D} _ _.
Arguments ms_manifest {D} _.
Arguments ms_dir {D} _.

Definition reset_next_file_id (next_id : Z) (m : Manifest) : Manifest :=
  mkManifest (mf_max_file_size m) next_id (mf_current_file_num m) (mf_current_writer m).
Definition next_file_id (m : Manifest) : Z * Manifest :=
  (mf_next_file_id m, mkManifest (mf_max_file_size m) (wrap32 (mf_next_file_id m + 1)) (mf_current_file_num m) (mf_current_writer m)).
Definition manifest_now (m : Manifest) : Z := mf_next_file_id m.

Section manifest.
Context `{EditCodec} {D : Type} `{Env D} (io_fuel : nat).

Definition on_dir {A} (m : St D A) : St (MState D) A := λ s,
  let '(r, d) := m (ms_dir s) in (r, mkMState (ms_manifest s) d).
Definition set_writer (w : option ManifestWriter) (s : MState D) : MState D :=
  let m := ms_manifest s in
  mkMState (mkManifest (mf_max_file_size m) (mf_next_file_id m) (mf_current_file_num m) w) (ms_dir s).
Definition set_file_num (n : option Z) (s : MState D) : MState D :=
  let m := ms_manifest s in
  mkMState (mkManifest (mf_max_file_size m) (mf_next_file_id m) n (mf_current_writer m)) (ms_dir s).

(** [VersionEditEncoder::encode]. *)
Definition encode_edit (name : string) (ve : VersionEdit) : St D Z :=
  let bytes := edit_encode_to_vec ve in
  _ ← dir_write_all io_fuel name (le_bytes 8 (length bytes));
  _ ← dir_write_all io_fuel name bytes;
  mret (length bytes + 8 : Z).

(** [VersionEditDecoder::next_record]: the record and the offset behind it. *)
Definition next_record (name : string) (offset : Z) : St D (option (VersionEdit * Z)) :=
  r ← attempt (dir_read_exact_at io_fuel name 8 offset);
  match r with
  | inr (Io UnexpectedEof) => mret None
  | inr e => lift (Err e)
  | inl len_bytes =>
      let len := le_num len_bytes in
      let offset := wrap64 (offset + 8) in
      ve_bytes ← dir_read_exact_at io_fuel name (Z.to_nat len) offset;
      ve ← lift (ok_or (edit_decode ve_bytes) Corrupted);
      mret (Some (ve, wrap64 (offset + len)))
  end.

Definition load_current : St D (option Z) :=
  r ← attempt (env_open_positional_reader CURRENT_FILE_NAME);
  match r with
  | inr (Io NotFound) => mret None
  | inr _ => lift Panic
  | inl _ =>
      file_num_bytes ← dir_read_exact_at io_fuel CURRENT_FILE_NAME 4 0;
      mret (Some (le_num file_num_bytes))
  end.

Definition set_current (file_num : Z) : St D unit :=
  let tmp_path := temp_name file_num in
  _ ← env_open_sequential_writer tmp_path;
  _ ← dir_write_all io_fuel tmp_path (le_bytes 4 file_num);
  _ ← must (env_sync_all tmp_path);
  r ← attempt (env_rename tmp_path CURRENT_FILE_NAME);
  _ ← match r with
      | inl _ => mret tt
      | inr _ => _ ← attempt (env_remove_file tmp_path); lift (Err Corrupted)
      end;
  must env_sync_dir.

(** The writer to use, and whether a new file was opened for it. *)
Definition roll_writer (current : option ManifestWriter) (max_file_size file_num : Z) : St D (ManifestWriter * bool) :=
  let roll := match current with None => true | Some w => max_file_size <? mw_current_file_size w end in
  if roll then
    let file_num := wrap32 (file_num + 1) in
    _ ← env_open_sequential_writer (manifest_name file_num);
    mret (mkManifestWriter file_num 0, true)
  else match current with Some w => mret (w, false) | None => lift Panic end.

(** [record_version_edit]. The writer is taken out of the manifest, and put back only
    when everything succeeded. *)
Definition record_version_edit (ve version_snapshot : VersionEdit) : St (MState D) unit :=
  s ← gets id;
  let m := ms_manifest s in
  _ ← modify (set_writer None);
  '(current, rolled) ← on_dir (roll_writer (mf_current_writer m) (mf_max_file_size m) (default 0 (mf_current_file_num m)));
  let name := manifest_name (mw_file_num current) in
  written ←
    (if rolled : bool then
       base_written ← on_dir (encode_edit name version_snapshot);
       r ← attempt (on_dir (encode_edit name ve));
       match r with
       | inl record_written => mret (base_written + record_written)
       | inr err => _ ← attempt (on_dir (env_remove_file name)); lift (Err err)
       end
     else on_dir (encode_edit name ve));
  _ ← (if rolled : bool then
         _ ← must (on_dir (env_sync_all name));
         _ ← on_dir (set_current (mw_file_num current));
         modify (set_file_num (Some (mw_file_num current)))
       else must (on_dir (env_sync_data name)));
  modify (set_writer (Some (mkManifestWriter (mw_file_num current) (wrap64 (mw_current_file_size current + written))))).

(** The loop of [list_versions]. *)
Fixpoint list_versions_loop (fuel : nat) (name : string) (offset : Z) : St D (list VersionEdit) :=
  match fuel with
  | O => lift Panic
  | S fuel =>
      r ← attempt (next_record name offset);
      match r with
      | inl (Some (ve, offset)) => ves ← list_versions_loop fuel name offset; mret (ve :: ves)
      | inl None => mret []
      | inr _ => lift (Err Corrupted)
      end
  end.
Definition list_versions (fuel : nat) : St (MState D) (list VersionEdit) :=
  s ← gets id;
  match mf_current_file_num (ms_manifest s) with
  | Some current_file =>
      let path := manifest_name current_file in
      _ ← on_dir (env_open_positional_reader path);
      on_dir (list_versions_loop fuel path 0)
  | None => mret []
  end.

Definition is_obsolete_manifest (file_name : string) (curr_file_num : option Z) : bool :=
  let file_num_str := trim_start_matches (String.length file_name) (MANIFEST_FILE_NAME +:+ "_") file_name in
  match parse_u32 file_num_str with
  | Some file_num =>
      match curr_file_num with
      | Some curr_file_num => file_num <? curr_file_num
      | None => true
      end
  | None => false
  end.

(** Whether [cleanup_obsolete_files] removes the file. *)
Definition to_remove (curr_file_num : option Z) (name : string) : bool :=
  bool_decide (extension name = Some TEMPFILE_SUFFIX) || is_obsolete_manifest name curr_file_num.
Fixpoint remove_paths (paths : list string) : St D unit :=
  match paths with
  | [] => mret tt
  | path :: paths => _ ← env_remove_file path; remove_paths paths
  end.
Definition cleanup_obsolete_files (curr_file_num : option Z) : St D unit :=
  names ← env_read_dir;
  let wait_remove_paths := base.filter (λ name, to_remove curr_file_num name = true) names in
  _ ← remove_paths wait_remove_paths;
  if bool_decide (wait_remove_paths = []) then mret tt else must env_sync_dir.

(** [Manifest::open] in a directory that exists. *)
Definition manifest_open : St D Manifest :=
  current_file_num ← load_current;
  _ ← cleanup_obsolete_files current_file_num;
  mret (mkManifest MAX_MANIFEST_SIZE 0 current_file_num None).
End manifest.
