(* ===== verification/PageFiles.v ===== *)
(** * The page files and their caches ([page_file/mod.rs], [page_file/cache.rs])

    [PageFiles] opens the files of the store by their numbers, keeps the open readers
    in one cache and the pages it has read in another. The environment is a map from
    file names to devices; a reader in the cache is the name of the file it has open,
    with its settings. The addresses that the allocations of cache handles return are
    arguments. *)

From stdpp Require Import base numbers list strings gmap pretty.
From Stdlib Require Import ZArith Lia.
From S2P Require Import Prelude BasePage PageGroup Env FileBuilder MapFile FileReader Manifest Float64 CacheHandle LruCache.

Definition FILE_PREFIX : string := "map".
Definition map_name (file_id : Z) : string := FILE_PREFIX +:+ "_" +:+ pretty file_id.

(** [list_files]: the numbers of the files among the names of a directory. *)
Definition list_files_with_prefix (prefix : string) (names : list string) : list Z :=
  omap (λ name, suffix ← strip_prefix prefix name; parse_u32 suffix) names.
Definition list_files (names : list string) : list Z := list_files_with_prefix (FILE_PREFIX +:+ "_") names.

Record PageFiles (R : Type) := mkPageFiles {
  pf_dir : gmap string R;
  pf_use_direct : bool;
  pf_prepopulate_cache_on_flush : bool;
  pf_reader_cache : LRUCache (FileReader string);
  pf_page_cache : LRUCache (list Z);
}.
Arguments mkPageFiles {R} _ _ _ _ _.
Arguments pf_dir {R} _.
Arguments pf_use_direct {R} _.
Arguments pf_prepopulate_cache_on_flush {R} _.
Arguments pf_reader_cache {R} _.
Arguments pf_page_cache {R} _.

Section page_files.
(** The length of a file, and whether it can be read with direct I/O. *)
Context {R : Type} `{PositionalReader R} `{PageCodecs} (alloc : nat -> list Z) (io_fuel : nat).
Context (file_len : R -> Z) (direct_io_ify : string -> bool).
Abbreviation M := (St (PageFiles R)).

(** [PageFiles::new]; [ptr] is the address of the dummy handles of the caches. *)
Definition page_files_new (dir : gmap string R) (ptr cache_capacity cache_file_reader_capacity : Z) (use_direct_io prepopulate : bool) : res (PageFiles R) :=
  reader_cache ← cache_new ptr cache_file_reader_capacity (-1) (f64_of 0) (f64_of 0);
  page_cache ← cache_new ptr cache_capacity (-1) (f64_lit 1 (-1)) (f64_of 0);
  Ok (mkPageFiles dir use_direct_io prepopulate reader_cache page_cache).

Definition with_dir (d : gmap string R) (s : PageFiles R) : PageFiles R :=
  mkPageFiles d (pf_use_direct s) (pf_prepopulate_cache_on_flush s) (pf_reader_cache s) (pf_page_cache s).
Definition on_readers {A} (m : St (LRUCache (FileReader string)) A) : M A := λ s,
  let '(r, c) := m (pf_reader_cache s) in
  (r, mkPageFiles (pf_dir s) (pf_use_direct s) (pf_prepopulate_cache_on_flush s) c (pf_page_cache s)).
Definition on_pages {A} (m : St (LRUCache (list Z)) A) : M A := λ s,
  let '(r, c) := m (pf_page_cache s) in
  (r, mkPageFiles (pf_dir s) (pf_use_direct s) (pf_prepopulate_cache_on_flush s) (pf_reader_cache s) c).
(** Reading through an open reader. *)
Definition on_file {A} (fr : FileReader string) (m : St (FileReader R) A) : M A := λ s,
  match pf_dir s !! fr_reader fr with
  | None => (Err (Io NotFound), s)
  | Some dev =>
      let '(x, r) := m (mkFileReader dev (fr_use_direct fr) (fr_align_size fr) (fr_file_size fr)) in
      (x, with_dir (<[fr_reader fr := fr_reader r]> (pf_dir s)) s)
  end.

(** ** [FileReaderCache] *)

(** [get_with]; [p] is the address of a new handle. *)
Definition get_with (p file_id : Z) (init : M (FileReader string)) : M (FileReader string) :=
  let key := file_id in
  cached ← on_readers (cache_lookup key);
  match cached with
  | Some cached =>
      value ← on_readers (λ c, (entry_value cached c, c));
      _ ← on_readers (cache_release cached);
      mret value
  | None =>
      reader ← init;
      guard ← on_readers (cache_insert p key (Some reader) 1 OPTION_DEFAULT);
      _ ← on_readers (cache_release guard);
      mret reader
  end.
Definition invalidate (file_id : Z) : M unit := on_readers (cache_erase file_id).

(** ** Reading *)

Definition open_positional_reader (file_id : Z) : M (string * Z) := λ s,
  let path := map_name file_id in
  match pf_dir s !! path with
  | None => (Err (Io NotFound), s)
  | Some dev => (Ok (path, file_len dev), s)
  end.

Definition open_page_reader (p file_id block_size : Z) : M (FileReader string) :=
  get_with p file_id (
    '(file, file_size) ← open_positional_reader file_id;
    use_direct ← gets pf_use_direct;
    mret (mkFileReader file (use_direct && direct_io_ify file) block_size file_size)).

Definition read_file_page (p file_id : Z) (file_meta : FileMeta) (handle : PageHandle) : M (list Z) :=
  reader ← open_page_reader p file_id (fm_block_size file_meta);
  on_file reader (read_file_page_from_reader alloc io_fuel file_meta handle).

(** [read_page]: the entry, and whether it was in the cache. [p] and [q] are the
    addresses of a new handle of the readers and one of the pages. *)
Definition read_page (p q file_id : Z) (file_meta : FileMeta) (addr : Z) (handle : PageHandle) (hint : Z) : M (CacheEntry * bool) :=
  cache_entry ← on_pages (cache_lookup addr);
  match cache_entry with
  | Some cache_entry => mret (cache_entry, true)
  | None =>
      buf ← read_file_page p file_id file_meta handle;
      tier ← lift (page_tier buf);
      let hint := option_set_priority (if is_inner tier then PriHigh else PriLow) hint in
      let charge := length buf in
      cache_entry ← on_pages (cache_insert q addr (Some buf) charge hint);
      mret (cache_entry, false)
  end.

Definition read_file_meta (file_id : Z) : M FileMetaHolder :=
  '(file, file_size) ← open_positional_reader file_id;
  on_file (mkFileReader file true DEFAULT_BLOCK_SIZE file_size) (file_meta_read alloc io_fuel file_id).

(** ** Removing, filling and evicting *)

Definition remove_file (file_id : Z) : M unit := modify (λ s, with_dir (delete (map_name file_id) (pf_dir s)) s).
Fixpoint remove_files (files : list Z) : M unit :=
  match files with
  | [] => mret tt
  | file_id :: files =>
      _ ← remove_file file_id;
      _ ← invalidate file_id;
      remove_files files
  end.

Definition populate_cache (p page_addr : Z) (page_content : list Z) : M unit :=
  on ← gets pf_prepopulate_cache_on_flush;
  if negb on then mret tt
  else
    guard ← on_pages (cache_insert p page_addr (Some page_content) (length page_content) OPTION_DEFAULT);
    on_pages (cache_release guard).

Fixpoint evict_cached_pages (files : list Z) : M unit :=
  match files with
  | [] => mret tt
  | file_id :: files =>
      _ ← on_pages (cache_erase_file_pages file_id);
      evict_cached_pages files
  end.

Definition page_files_stats (s : PageFiles R) : CacheStats * CacheStats :=
  (cache_stats (pf_page_cache s), cache_stats (pf_reader_cache s)).
End page_files.
