(* ===== verification/PageFilesLaws.v ===== *)
(** * The caches of the page files are transparent ([page_file/mod.rs], [page_file/cache.rs])

    Reading a page gives the content that the file has for it, whether the page or the
    reader of its file was in a cache or not, and every operation keeps it so. *)

From stdpp Require Import gmultiset.
From stdpp Require Import base numbers list strings gmap pretty.
From Stdlib Require Import ZArith Lia.
From S2P Require Import Prelude BasePage PageGroup Env FileBuilder MapFile FileReader FileRead FileBlocks FileRoundtrip Manifest Float64 CacheHandle LruCache LruLaws CacheLaws PageFiles.

Lemma map_name_inj f g : map_name f = map_name g -> f = g.
Proof. unfold map_name. intros E%(inj _)%(inj _). by apply (inj pretty). Qed.

Section files.
Context {R : Type} `{PositionalReaderLaws R} `{PageCodecs} (alloc : nat -> list Z) (io_fuel : nat).
Context (file_len : R -> Z) (direct_io_ify : string -> bool).
Context (Halloc : forall n, length (alloc n) = n).
(** What [metadata] and [direct_io_ify] say is true. *)
Context (Hlen : forall dev, file_len dev = length (pr_content dev)).
Context (Hdirect : forall name, direct_io_ify name = true -> DirectReaderLaws R DEFAULT_BLOCK_SIZE).
Implicit Types (s : PageFiles R) (es : list CacheEntry) (content : Z -> list Z).

(** A device that is read in [io_fuel] rounds. *)
Definition dev_ok (dev : R) : Prop :=
  length (pr_content dev) + 2 * DEFAULT_BLOCK_SIZE + pr_interrupts dev < io_fuel /\ length (pr_content dev) + DEFAULT_BLOCK_SIZE < 2 ^ 64.

(** A reader in the cache is one that opening the file would give. *)
Definition reader_of s (file_id : Z) (fr : FileReader string) : Prop :=
  exists dev, pf_dir s !! map_name file_id = Some dev /\
    fr = mkFileReader (map_name file_id) (pf_use_direct s && direct_io_ify (map_name file_id)) DEFAULT_BLOCK_SIZE (file_len dev).
Record files_ok content s es : Prop := {
  fo_devs : forall name dev, pf_dir s !! name = Some dev -> dev_ok dev;
  fo_readers : cache_ok (pf_reader_cache s) (held_by []);
  fo_open : forall k v, contents (pf_reader_cache s) k = Some v -> exists fr, v = Some fr /\ reader_of s k fr;
  fo_pages : cache_ok (pf_page_cache s) (held_by es);
  fo_coherent : forall k v, contents (pf_page_cache s) k = Some v -> v = Some (content k);
}.

(** ** Opening a reader *)

Lemma on_readers_ok {A} (m : St (LRUCache (FileReader string)) A) s a c : m (pf_reader_cache s) = (Ok a, c) ->
  on_readers m s = (Ok a, mkPageFiles (pf_dir s) (pf_use_direct s) (pf_prepopulate_cache_on_flush s) c (pf_page_cache s)).
Proof. unfold on_readers. by intros ->. Qed.
Lemma on_pages_ok {A} (m : St (LRUCache (list Z)) A) s a c : m (pf_page_cache s) = (Ok a, c) ->
  on_pages m s = (Ok a, mkPageFiles (pf_dir s) (pf_use_direct s) (pf_prepopulate_cache_on_flush s) (pf_reader_cache s) c).
Proof. unfold on_pages. by intros ->. Qed.

(** Another cache of readers, and the same files. *)
Lemma files_ok_readers content s es c :
  files_ok content s es -> cache_ok c (held_by []) -> (forall k v, contents c k = Some v -> contents (pf_reader_cache s) k = Some v \/ exists fr, v = Some fr /\ reader_of s k fr) ->
  files_ok content (mkPageFiles (pf_dir s) (pf_use_direct s) (pf_prepopulate_cache_on_flush s) c (pf_page_cache s)) es.
Proof. intros [F1 F2 F3 F4 F5] Hc Hk. split; try done. intros k v [Hv|Hv]%Hk; [by apply F3|done]. Qed.

Lemma open_page_reader_ok content s es p file_id dev :
  files_ok content s es -> pf_dir s !! map_name file_id = Some dev -> (forall v, op_ok (OpInsert p file_id v 1 OPTION_DEFAULT) (pf_reader_cache s) []) ->
  exists fr c, open_page_reader file_len direct_io_ify p file_id DEFAULT_BLOCK_SIZE s =
      (Ok fr, mkPageFiles (pf_dir s) (pf_use_direct s) (pf_prepopulate_cache_on_flush s) c (pf_page_cache s)) /\
    reader_of s file_id fr /\ files_ok content (mkPageFiles (pf_dir s) (pf_use_direct s) (pf_prepopulate_cache_on_flush s) c (pf_page_cache s)) es.
Proof.
  intros Hok Hdev Hop. pose proof (fo_readers _ _ _ Hok) as Hrc. unfold open_page_reader, get_with.
  destruct (lookup_spec _ [] file_id Hrc) as (c1 & e & E1 & Hok1 & [Hsame Hvs] & Hnone); [done|]. st_step (on_readers_ok _ _ _ _ E1).
  destruct (contents (pf_reader_cache s) file_id) as [v|] eqn:Ec.
  - destruct e as [e|]; [|by destruct Hnone as [_ Hn]; specialize (Hn eq_refl)]. destruct (fo_open _ _ _ Hok _ _ Ec) as (fr & -> & Hfr).
    cbn [app option_list option_rect fmap list_fmap option_fmap option_map] in Hvs. injection Hvs as Hsh.
    set (s1 := mkPageFiles _ _ _ c1 _). assert (Ev : entry_value e c1 = Ok fr) by (by rewrite entry_value_shown, Hsh).
    rewrite (st_bind_ok _ _ s1 fr s1) by (unfold on_readers; cbn [pf_reader_cache s1]; by rewrite Ev).
    destruct (drop_spec c1 [e] 0 e Hok1 eq_refl) as (c2 & E2 & Hok2 & [Hfo _]). st_step (on_readers_ok _ s1 _ _ E2).
    exists fr, c2. split; [done|]. split; [done|]. apply (files_ok_readers content s es c2 Hok); [exact Hok2|]. intros k v Hv%Hfo. left. by rewrite <- Hsame.
  - destruct e as [e|]; [by destruct Hnone as [Hn _]; specialize (Hn eq_refl)|].
    set (s1 := mkPageFiles _ _ _ c1 _). set (fr := mkFileReader (map_name file_id) (pf_use_direct s && direct_io_ify (map_name file_id)) DEFAULT_BLOCK_SIZE (file_len dev)).
    match goal with |- context [?init ≫= _] => assert (Ei : init s1 = (Ok fr, s1)) end.
    { unfold open_positional_reader, mbind, st_bind. cbn [pf_dir s1]. by rewrite Hdev. }
    st_step Ei. pose proof (lookup_miss_ok _ [] file_id c1 None p file_id (Some fr) 1 OPTION_DEFAULT [] Hrc Ec E1 (Hop (Some fr))) as Hop1.
    destruct (insert_spec c1 [] p file_id (Some fr) 1 OPTION_DEFAULT Hok1 Hop1) as (c2 & e2 & E2 & Hok2 & _ & Hins).
    st_step (on_readers_ok _ s1 _ _ E2). destruct (drop_spec c2 [e2] 0 e2 Hok2 eq_refl) as (c3 & E3 & Hok3 & [Hfo _]).
    set (s2 := mkPageFiles _ _ _ c2 _). st_step (on_readers_ok _ s2 _ _ E3).
    assert (Hro : reader_of s file_id fr) by (by exists dev). exists fr, c3. split; [done|]. split; [done|].
    apply (files_ok_readers content s es c3 Hok); [exact Hok3|]. intros k v Hv%Hfo. destruct Hins as [[Hk Hoth]|[Hrf _]]; [|done].
    destruct (decide (k = file_id)) as [->|Hne]; [right; exists fr; rewrite Hk in Hv; by injection Hv as <-|]. left. rewrite <- Hsame. by apply Hoth.
Qed.

(** ** Reading a file *)

Lemma reader_repr content s es file_id fr dev :
  files_ok content s es -> reader_of s file_id fr -> pf_dir s !! map_name file_id = Some dev ->
  fr_repr io_fuel (mkFileReader dev (fr_use_direct fr) (fr_align_size fr) (fr_file_size fr)) (pr_content dev).
Proof using Hlen Hdirect.
  intros Hok (dev' & Hdev' & ->) Hdev. assert (dev' = dev) as -> by congruence. destruct (fo_devs _ _ _ Hok _ _ Hdev) as [F1 F2].
  split; cbn [fr_reader fr_use_direct fr_align_size fr_file_size]; try done.
  intros [_ Hd]%andb_true_iff. by eapply Hdirect.
Qed.

Lemma read_file_page_ok content s es p file_id fm handle page dev :
  files_ok content s es -> pf_dir s !! map_name file_id = Some dev -> (forall v, op_ok (OpInsert p file_id v 1 OPTION_DEFAULT) (pf_reader_cache s) []) ->
  fm_block_size fm = DEFAULT_BLOCK_SIZE -> page_in_file (pr_content dev) fm handle page ->
  exists s', read_file_page alloc io_fuel file_len direct_io_ify p file_id fm handle s = (Ok page, s') /\ files_ok content s' es /\
    pf_page_cache s' = pf_page_cache s /\ pf_prepopulate_cache_on_flush s' = pf_prepopulate_cache_on_flush s /\ pf_use_direct s' = pf_use_direct s /\
    (forall name, pr_content <$> pf_dir s' !! name = pr_content <$> pf_dir s !! name).
Proof using Halloc Hlen Hdirect.
  intros Hok Hdev Hop Hbs Hpage. unfold read_file_page. rewrite Hbs.
  destruct (open_page_reader_ok content s es p file_id dev Hok Hdev Hop) as (fr & c & E1 & Hro & Hok1). st_step E1. set (s1 := mkPageFiles _ _ _ c _) in *.
  pose proof (reader_repr content s es file_id fr dev Hok Hro Hdev) as Hrepr. destruct (page_in_file_reads alloc io_fuel Halloc _ _ _ _ _ Hpage Hrepr) as (r' & E2 & Hrepr' & Hal).
  assert (Hname : fr_reader fr = map_name file_id) by (destruct Hro as (? & _ & ->); done).
  unfold on_file. cbn [pf_dir s1]. rewrite Hname, Hdev. rewrite E2.
  eexists. split; [reflexivity|]. pose proof (fq_content _ _ _ Hrepr') as Hc'. pose proof (fq_fuel _ _ _ Hrepr') as Hf'. pose proof (fq_fuel _ _ _ Hrepr) as Hf.
  assert (Hdev' : dev_ok (fr_reader r') /\ file_len (fr_reader r') = file_len dev).
  { rewrite !Hlen, Hc'. split; [|done]. split; rewrite Hc'; [|by apply (fo_devs _ _ _ Hok _ _ Hdev)].
    rewrite Hal in Hf'. destruct Hro as (? & _ & ->). exact Hf'. }
  destruct Hdev' as [Hdok Hdlen]. split_and!; try done; cbn [pf_dir with_dir s1].
  - destruct Hok1 as [F1 F2 F3 F4 F5]. split; try done; cbn [pf_dir with_dir].
    + intros name d. destruct (decide (name = map_name file_id)) as [->|Hne]; [rewrite lookup_insert_eq; by intros [= <-]|rewrite lookup_insert_ne by done; apply F1].
    + intros k v Hv. destruct (F3 k v Hv) as (fr' & -> & d & Hd & ->). eexists. split; [done|]. unfold reader_of. cbn [pf_dir pf_use_direct with_dir s1] in *.
      destruct (decide (k = file_id)) as [->|Hne].
      * exists (fr_reader r'). rewrite lookup_insert_eq. assert (d = dev) as -> by congruence. by rewrite Hdlen.
      * exists d. rewrite lookup_insert_ne; [done|]. by intros ?%map_name_inj.
  - intros name. destruct (decide (name = map_name file_id)) as [->|Hne]; [by rewrite lookup_insert_eq, Hdev; cbn; rewrite Hc'|by rewrite lookup_insert_ne].
Qed.

(** ** Pages in the cache *)

(** Another cache of pages. *)
Lemma files_ok_pages content s es c es' :
  files_ok content s es -> cache_ok c (held_by es') -> (forall k v, contents c k = Some v -> contents (pf_page_cache s) k = Some v \/ v = Some (content k)) ->
  files_ok content (mkPageFiles (pf_dir s) (pf_use_direct s) (pf_prepopulate_cache_on_flush s) (pf_reader_cache s) c) es'.
Proof. intros [F1 F2 F3 F4 F5] Hc Hk. split; try done. intros k v [Hv|Hv]%Hk; [by apply F5|done]. Qed.
(** An insertion adds the page it inserts. *)
Lemma inserted m m' vs vs' p key (value : option (list Z)) charge opt k v :
  cache_spec (OpInsert p key value charge opt) m m' vs vs' -> m' k = Some v -> m k = Some v \/ k = key /\ v = value.
Proof.
  intros [_ [[Hk Hoth]|[_ Hsame]]] Hv; [|left; by rewrite <- Hsame]. destruct (decide (k = key)) as [->|Hne]; [right|left; by apply Hoth].
  rewrite Hk in Hv. by injection Hv as <-.
Qed.
Lemma shown_values (c c' : LRUCache (list Z)) es : shown c' <$> es = shown c <$> es -> forall e, e ∈ es -> entry_value e c' = entry_value e c.
Proof.
  intros E e (n & Hn)%list_elem_of_lookup. rewrite !entry_value_shown. apply (f_equal (λ l, l !! n)) in E. rewrite !list_lookup_fmap, Hn in E. by injection E as ->.
Qed.

Lemma read_page_ok content s es p q file_id fm addr handle hint dev tier :
  files_ok content s es -> pf_dir s !! map_name file_id = Some dev -> fm_block_size fm = DEFAULT_BLOCK_SIZE ->
  page_in_file (pr_content dev) fm handle (content addr) -> page_tier (content addr) = Ok tier ->
  op_ok (OpLookup addr) (pf_page_cache s) es -> (forall v, op_ok (OpInsert p file_id v 1 OPTION_DEFAULT) (pf_reader_cache s) []) ->
  op_ok (OpInsert q addr None (length (content addr)) hint) (pf_page_cache s) es ->
  exists e s', read_page alloc io_fuel file_len direct_io_ify p q file_id fm addr handle hint s =
      (Ok (e, bool_decide (is_Some (contents (pf_page_cache s) addr))), s') /\
    files_ok content s' (es ++ [e]) /\ entry_value e (pf_page_cache s') = Ok (content addr) /\
    (forall e', e' ∈ es -> entry_value e' (pf_page_cache s') = entry_value e' (pf_page_cache s)) /\
    (forall name, pr_content <$> pf_dir s' !! name = pr_content <$> pf_dir s !! name).
Proof using Halloc Hlen Hdirect.
  intros Hok Hdev Hbs Hpage Htier Hop1 Hop2 Hop3. unfold read_page.
  destruct (lookup_spec _ es addr (fo_pages _ _ _ Hok) Hop1) as (c1 & e & E1 & Hok1 & [Hsame Hvs] & Hnone). st_step (on_pages_ok _ _ _ _ E1).
  rewrite fmap_app in Hvs. apply app_inj_1 in Hvs as [Hold Hnew]; [|by rewrite !length_fmap].
  assert (Hs1 : files_ok content (mkPageFiles (pf_dir s) (pf_use_direct s) (pf_prepopulate_cache_on_flush s) (pf_reader_cache s) c1) (es ++ option_list e)).
  { apply (files_ok_pages content s es); [done|done|]. intros k v Hv. left. by rewrite <- Hsame. }
  set (s1 := mkPageFiles _ _ _ _ c1) in *. destruct (contents (pf_page_cache s) addr) as [v|] eqn:Ec.
  - destruct e as [e|]; [|by destruct Hnone as [_ Hn]; specialize (Hn eq_refl)]. exists e, s1. split; [done|]. split_and!; try done.
    + rewrite (fo_coherent _ _ _ Hok _ _ Ec) in Hnew. injection Hnew as Hsh. change (pf_page_cache s1) with c1. by rewrite entry_value_shown, Hsh.
    + by apply shown_values.
  - destruct e as [e|]; [by destruct Hnone as [Hn _]; specialize (Hn eq_refl)|]. cbn [option_list option_rect] in Hs1, Hok1. rewrite app_nil_r in Hs1, Hok1.
    destruct (read_file_page_ok content s1 es p file_id fm handle (content addr) dev Hs1 Hdev Hop2 Hbs Hpage) as (s2 & E2 & Hok2 & Hpc & _ & _ & Hfiles).
    st_step E2. rewrite (st_bind_ok _ _ s2 tier s2) by (unfold lift; by rewrite Htier). set (opt := option_set_priority _ hint).
    pose proof (lookup_miss_ok _ es addr c1 None q addr (Some (content addr)) (length (content addr)) opt es (fo_pages _ _ _ Hok) Ec E1 Hop3) as Hop4.
    change c1 with (pf_page_cache s1) in Hop4. rewrite <- Hpc in Hop4.
    destruct (insert_spec _ es q addr _ _ _ (fo_pages _ _ _ Hok2) Hop4) as (c3 & e & E3 & Hok3 & Hspec). st_step (on_pages_ok _ _ _ _ E3).
    exists e, (mkPageFiles (pf_dir s2) (pf_use_direct s2) (pf_prepopulate_cache_on_flush s2) (pf_reader_cache s2) c3). split; [done|].
    pose proof Hspec as [Hv3 _]. rewrite fmap_app in Hv3. apply app_inj_1 in Hv3 as [Hold3 Hnew3]; [|by rewrite !length_fmap]. split_and!.
    + apply (files_ok_pages content s2 es); [done|done|]. intros k v Hv. destruct (inserted _ _ _ _ _ _ _ _ _ _ _ Hspec Hv) as [?|[-> ->]]; [by left|by right].
    + injection Hnew3 as Hsh. cbn [pf_page_cache]. by rewrite entry_value_shown, Hsh.
    + apply shown_values. cbn [pf_page_cache]. rewrite Hold3, Hpc. exact Hold.
    + exact Hfiles.
Qed.

(** [C16] The caches are transparent. While the cached pages are those of the files and
    the cached readers are readers of files that are there, [read_page] gives an entry
    with the content that the file has for the page, and says whether it was cached;
    a page that was not is read through the reader of the file, cached or opened now,
    checked, decompressed and put into the cache; the entries that were handed out
    before show what they did, and the caches are as before in the same sense. *)
Theorem read_page_transparent content s es p q file_id fm addr handle hint dev tier :
  files_ok content s es -> pf_dir s !! map_name file_id = Some dev -> fm_block_size fm = DEFAULT_BLOCK_SIZE ->
  page_in_file (pr_content dev) fm handle (content addr) -> page_tier (content addr) = Ok tier ->
  op_ok (OpLookup addr) (pf_page_cache s) es -> (forall v, op_ok (OpInsert p file_id v 1 OPTION_DEFAULT) (pf_reader_cache s) []) ->
  op_ok (OpInsert q addr None (length (content addr)) hint) (pf_page_cache s) es ->
  exists e s', read_page alloc io_fuel file_len direct_io_ify p q file_id fm addr handle hint s =
      (Ok (e, bool_decide (is_Some (contents (pf_page_cache s) addr))), s') /\
    files_ok content s' (es ++ [e]) /\ entry_value e (pf_page_cache s') = Ok (content addr) /\
    (forall e', e' ∈ es -> entry_value e' (pf_page_cache s') = entry_value e' (pf_page_cache s)) /\
    (forall name, pr_content <$> pf_dir s' !! name = pr_content <$> pf_dir s !! name).
Proof using Halloc Hlen Hdirect. apply read_page_ok. Qed.

(** ** The other operations *)

Lemma on_pages_dir {A} (m : St (LRUCache (list Z)) A) s r s' : on_pages m s = (r, s') -> pf_dir s' = pf_dir s.
Proof. unfold on_pages. destruct (m _). by intros [= _ <-]. Qed.
Lemma populate_cache_dir p addr c s s' : populate_cache p addr c s = (Ok tt, s') -> pf_dir s' = pf_dir s.
Proof.
  unfold populate_cache. rewrite st_gets. destruct (negb _); [by intros [= <-]|]. unfold mbind, st_bind.
  destruct (on_pages _ s) as [[e| |] s1] eqn:E1; [|done..]. intros E2. by rewrite (on_pages_dir _ _ _ _ E2), (on_pages_dir _ _ _ _ E1).
Qed.
Lemma evict_cached_pages_dir files s s' : evict_cached_pages files s = (Ok tt, s') -> pf_dir s' = pf_dir s.
Proof.
  revert s. induction files as [|f files IH]; intros s; cbn [evict_cached_pages]; [by intros [= <-]|]. unfold mbind, st_bind.
  destruct (on_pages _ s) as [[e| |] s1] eqn:E1; [|done..]. intros E2. by rewrite (IH _ E2), (on_pages_dir _ _ _ _ E1).
Qed.

Lemma drop_page_ok content s es n e :
  files_ok content s es -> es !! n = Some e ->
  exists c, on_pages (cache_release e) s = (Ok tt, mkPageFiles (pf_dir s) (pf_use_direct s) (pf_prepopulate_cache_on_flush s) (pf_reader_cache s) c) /\
    files_ok content (mkPageFiles (pf_dir s) (pf_use_direct s) (pf_prepopulate_cache_on_flush s) (pf_reader_cache s) c) (delete n es).
Proof.
  intros Hok Hn. destruct (drop_spec _ es n e (fo_pages _ _ _ Hok) Hn) as (c & E & Hc & [Hfo _]). exists c. split; [by apply on_pages_ok|].
  apply (files_ok_pages content s es); [done|done|]. intros k v Hv%Hfo. by left.
Qed.

Lemma populate_cache_ok content s es p addr :
  files_ok content s es -> op_ok (OpInsert p addr (Some (content addr)) (length (content addr)) OPTION_DEFAULT) (pf_page_cache s) es ->
  exists s', populate_cache p addr (content addr) s = (Ok tt, s') /\ files_ok content s' es.
Proof.
  intros Hok Hop. unfold populate_cache. rewrite st_gets. destruct (pf_prepopulate_cache_on_flush s) eqn:Eon; cbn [negb]; [|by exists s].
  destruct (insert_spec _ es p addr _ _ _ (fo_pages _ _ _ Hok) Hop) as (c & e & E & Hc & Hspec). st_step (on_pages_ok _ _ _ _ E). set (s1 := mkPageFiles _ _ _ _ c).
  assert (Hs1 : files_ok content s1 (es ++ [e])).
  { apply (files_ok_pages content s es); [done|done|]. intros k v Hv. destruct (inserted _ _ _ _ _ _ _ _ _ _ _ Hspec Hv) as [?|[-> ->]]; [by left|by right]. }
  destruct (drop_page_ok content s1 (es ++ [e]) (length es) e Hs1) as (c2 & E2 & Hs2); [by apply list_lookup_middle|].
  rewrite delete_middle, app_nil_r in Hs2. eexists. split; [exact E2|exact Hs2].
Qed.

(** [evict_cached_pages] empties the page cache of the files it is given, except
    for the pages that a client has an entry of at that moment: these stay in the
    cache. The entries of clients are untouched, and the caches stay transparent. *)
Theorem evict_cached_pages_ok content s es files :
  files_ok content s es ->
  exists s', evict_cached_pages files s = (Ok tt, s') /\ files_ok content s' es /\
    (forall e, e ∈ es -> entry_value e (pf_page_cache s') = entry_value e (pf_page_cache s)) /\
    (forall k, contents (pf_page_cache s') k = contents (pf_page_cache s) k \/ contents (pf_page_cache s') k = None /\ key_file_id k ∈ files) /\
    (forall k v, key_file_id k ∈ files -> contents (pf_page_cache s') k = Some v -> exists e, e ∈ es /\ shown (pf_page_cache s') e = Some (k, v)).
Proof using.
  intros Hok. enough (exists s', evict_cached_pages files s = (Ok tt, s') /\ files_ok content s' es /\ shown (pf_page_cache s') <$> es = shown (pf_page_cache s) <$> es /\
    (forall k, contents (pf_page_cache s') k = contents (pf_page_cache s) k \/ contents (pf_page_cache s') k = None /\ key_file_id k ∈ files) /\
    (forall k v, key_file_id k ∈ files -> contents (pf_page_cache s') k = Some v -> exists e, e ∈ es /\ shown (pf_page_cache s') e = Some (k, v))) as (s' & F1 & F2 & F3 & F4)
    by (exists s'; split_and!; try done; [by apply shown_values|by apply F4|by apply F4]).
  revert s Hok. induction files as [|f files IH]; intros s Hok; cbn [evict_cached_pages].
  { exists s. split_and!; try done; [by left|]. intros k v Hk. by apply not_elem_of_nil in Hk. }
  destruct (erase_file_spec _ es f (fo_pages _ _ _ Hok)) as (c & E & Hc & Hk & Hsh & Hleft). st_step (on_pages_ok _ _ _ _ E). set (s1 := mkPageFiles _ _ _ _ c).
  assert (Hs1 : files_ok content s1 es) by (apply (files_ok_pages content s es); [done|done|]; intros k v Hv; left; destruct (Hk k) as [<-|[Hn _]]; [done|congruence]).
  destruct (IH s1 Hs1) as (s2 & E2 & Hok2 & Hsh2 & Hk2 & Hleft2). change (pf_page_cache s1) with c in Hsh2, Hk2. exists s2. split; [done|]. split; [done|]. split; [by rewrite Hsh2, <- Hsh|]. split.
  - intros k. destruct (Hk2 k) as [->|[-> ?]]; [|right; split; [done|by right]]. destruct (Hk k) as [->|[-> <-]]; [by left|]. right. split; [done|by left].
  - intros k v [<-|Hin]%elem_of_cons Hv; [|by apply (Hleft2 k v Hin)]. destruct (Hk2 k) as [Ek|[Ek _]]; [|congruence]. rewrite Hv in Ek. symmetry in Ek.
    specialize (Hleft k v eq_refl Ek). rewrite <- Hsh, <- Hsh2 in Hleft. apply list_elem_of_fmap in Hleft as (e & He & Hin). by exists e.
Qed.

(** Removing files leaves no reader of a file that is gone: afterwards none of the
    files is in the directory, all others are as they were, and every reader in the
    cache is still one of a file that is there. *)
Theorem remove_files_ok content s es files :
  files_ok content s es ->
  exists s', remove_files files s = (Ok tt, s') /\ files_ok content s' es /\ pf_page_cache s' = pf_page_cache s /\
    (forall f, f ∈ files -> pf_dir s' !! map_name f = None) /\
    (forall name, (forall f, f ∈ files -> name <> map_name f) -> pf_dir s' !! name = pf_dir s !! name) /\
    (forall f, f ∈ files -> contents (pf_reader_cache s') f = None).
Proof using.
  intros Hok. revert s Hok. induction files as [|f files IH]; intros s Hok; cbn [remove_files].
  { exists s. split_and!; try done; intros f Hf; by apply not_elem_of_nil in Hf. }
  unfold remove_file. rewrite st_modify. set (s1 := with_dir _ s). unfold invalidate.
  destruct (erase_spec _ [] f (fo_readers _ _ _ Hok)) as (c & E & Hc & Hk & _). change (pf_reader_cache s) with (pf_reader_cache s1) in E. st_step (on_readers_ok _ s1 _ _ E).
  set (s2 := mkPageFiles _ _ _ c _).
  assert (Hs2 : files_ok content s2 es).
  { destruct Hok as [F1 F2 F3 F4 F5]. split; try done.
    - intros name dev. cbn [pf_dir s2 s1 with_dir]. intros [_ Hd]%lookup_delete_Some. by apply (F1 name).
    - intros k v. cbn [pf_reader_cache s2]. rewrite Hk. case_decide as Ek; [done|]. intros (fr & -> & dev & Hd & ->)%F3. eexists. split; [done|]. exists dev. split; [|done].
      cbn [pf_dir s2 s1 with_dir]. rewrite lookup_delete_ne; [done|]. by intros ?%map_name_inj. }
  destruct (IH s2 Hs2) as (s3 & E3 & Hok3 & Hp & Hgone & Hstay & Hrd). exists s3. split_and!; try done.
  - intros g [->|Hg]%elem_of_cons; [|by apply Hgone]. destruct (decide (f ∈ files)) as [Hin|Hnin]; [by apply Hgone|].
    rewrite Hstay; [apply lookup_delete_eq|]. intros g Hg ->%map_name_inj. done.
  - intros name Hn. rewrite Hstay by (intros g Hg; apply Hn; by right). cbn [pf_dir s2 s1 with_dir]. rewrite lookup_delete_ne; [done|]. intros E'. apply (Hn f); [by left|done].
  - intros g [->|Hg]%elem_of_cons; [|by apply Hrd]. destruct (contents (pf_reader_cache s3) f) as [v|] eqn:Ev; [|done]. exfalso.
    destruct (fo_open _ _ _ Hok3 _ _ Ev) as (fr & _ & dev & Hd & _). destruct (decide (f ∈ files)) as [Hin|Hnin]; [rewrite (Hgone f Hin) in Hd; done|].
    rewrite Hstay in Hd; [cbn [pf_dir s2 s1 with_dir] in Hd; by rewrite lookup_delete_eq in Hd|]. intros g Hg ->%map_name_inj. done.
Qed.

(** ** The empty caches *)

Lemma page_files_new_ok content dir ptr capacity reader_capacity use_direct prepopulate s :
  page_files_new dir ptr capacity reader_capacity use_direct prepopulate = Ok s -> 0 <= capacity -> 0 <= reader_capacity ->
  (forall name dev, dir !! name = Some dev -> dev_ok dev) -> files_ok content s [].
Proof.
  intros E Hc1 Hc2 Hd. unfold page_files_new in E. destruct (cache_new ptr reader_capacity (-1) (f64_of 0) (f64_of 0)) as [rc| |] eqn:E1; [|done|done].
  cbn [mbind res_bind] in E. destruct (cache_new ptr capacity (-1) (f64_lit 1 (-1)) (f64_of 0)) as [pc| |] eqn:E2; [|done|done]. injection E as <-.
  destruct (cache_new_ok _ _ _ _ _ _ E1 Hc2) as [F1 F2]; [vm_compute; reflexivity|]. destruct (cache_new_ok _ _ _ _ _ _ E2 Hc1) as [F3 F4]; [vm_compute; reflexivity|].
  split; cbn [pf_dir pf_reader_cache pf_page_cache]; try done; intros k v; [by rewrite F2|by rewrite F4].
Qed.
End files.

(** ** Written pages, read through the caches *)

Section written.
Context `{PageCodecsLaws} {W : Type} `{SequentialWriterLaws W} {R : Type} `{PositionalReaderLaws R}.
Context (alloc : nat -> list Z) (io_fuel : nat) (Halloc : forall n, length (alloc n) = n).
Context (file_len : R -> Z) (direct_io_ify : string -> bool).
Context (Hlen : forall dev, file_len dev = length (pr_content dev)).
Context (Hdirect : forall name, direct_io_ify name = true -> DirectReaderLaws R DEFAULT_BLOCK_SIZE).

(** A page file that was written, from the device it was written to. *)
Record Written := mkWritten {
  wr_id : Z; wr_device : W; wr_use_direct : bool; wr_block_size : Z; wr_compression : Z; wr_checksum : Z;
  wr_groups : list GroupSpec; wr_up2 : Z }.
Definition output (w : Written) : res (gmap Z PageGroup * FileInfo * W) :=
  write_file alloc io_fuel (wr_id w) (wr_device w) (wr_use_direct w) (wr_block_size w) (wr_compression w) (wr_checksum w) (wr_groups w) (wr_up2 w).
Definition pages_of (w : Written) : list PageSpec := concat (gs_pages <$> wr_groups w).
Definition all_pages (files : list Written) : list PageSpec := concat (pages_of <$> files).

Lemma elem_of_all_pages files w g p : w ∈ files -> g ∈ wr_groups w -> p ∈ gs_pages g -> p ∈ all_pages files.
Proof.
  intros Hw Hg Hp. apply list_elem_of_In, in_concat. exists (pages_of w). rewrite <- !list_elem_of_In. split; [by apply list_elem_of_fmap_2|].
  apply list_elem_of_In, in_concat. exists (gs_pages g). rewrite <- !list_elem_of_In. split; [by apply list_elem_of_fmap_2|done].
Qed.

(** The handle of a page that was written, as its page group gives it. *)
Definition located (files : list Written) (w : Written) (p : PageSpec) (info : FileInfo) (handle : PageHandle) : Prop :=
  exists g pgs f group, w ∈ files /\ g ∈ wr_groups w /\ p ∈ gs_pages g /\ output w = Ok (pgs, info, f) /\
    pgs !! gs_id g = Some group /\ get_page_handle (sp_addr p) group = Ok (Some handle).
(** What can be asked of the caches for a read: fresh addresses of handles, sums that fit. *)
Definition can_read (r q file_id : Z) (p : PageSpec) (hint : Z) (s : PageFiles R) (es : list CacheEntry) : Prop :=
  op_ok (OpLookup (sp_addr p)) (pf_page_cache s) es /\ (forall v, op_ok (OpInsert r file_id v 1 OPTION_DEFAULT) (pf_reader_cache s) []) /\
  op_ok (OpInsert q (sp_addr p) None (length (sp_content p)) hint) (pf_page_cache s) es.

(** The states of the page files, with the entries that clients have: from [s0], pages are
    read and their entries dropped, caches are filled with pages that were written, and
    evicted. *)
Inductive files_run (files : list Written) (s0 : PageFiles R) : PageFiles R -> list CacheEntry -> Prop :=
  | files_start : files_run files s0 s0 []
  | files_read s es w p info handle r q hint e hit s' :
      files_run files s0 s es -> located files w p info handle -> can_read r q (wr_id w) p hint s es ->
      read_page alloc io_fuel file_len direct_io_ify r q (wr_id w) (fi_meta info) (sp_addr p) handle hint s = (Ok (e, hit), s') ->
      files_run files s0 s' (es ++ [e])
  | files_drop s es n e s' :
      files_run files s0 s es -> es !! n = Some e -> on_pages (cache_release e) s = (Ok tt, s') -> files_run files s0 s' (delete n es)
  | files_populate s es q p s' :
      files_run files s0 s es -> p ∈ all_pages files ->
      op_ok (OpInsert q (sp_addr p) (Some (sp_content p)) (length (sp_content p)) OPTION_DEFAULT) (pf_page_cache s) es ->
      populate_cache q (sp_addr p) (sp_content p) s = (Ok tt, s') -> files_run files s0 s' es
  | files_evict s es ids s' :
      files_run files s0 s es -> evict_cached_pages ids s = (Ok tt, s') -> files_run files s0 s' es.

(** Files that were written and are in the directory; a page has one content wherever it
    was written to. *)
Record written_ok (files : list Written) (dir : gmap string R) : Prop := {
  wo_file : forall w, w ∈ files -> file_ok io_fuel (wr_device w) (wr_block_size w) (wr_compression w) (wr_checksum w) (wr_groups w);
  wo_stored : forall w pgs info f, w ∈ files -> output w = Ok (pgs, info, f) ->
    exists dev, dir !! map_name (wr_id w) = Some dev /\ pr_content dev = sw_content f;
  wo_devs : forall name dev, dir !! name = Some dev -> dev_ok io_fuel dev;
  wo_pages : forall p, p ∈ all_pages files -> length (sp_content p) < 2 ^ 64 /\ exists tier, page_tier (sp_content p) = Ok tier;
  wo_same : forall p p', p ∈ all_pages files -> p' ∈ all_pages files -> sp_addr p = sp_addr p' -> sp_content p = sp_content p';
}.

(** One file in the directory. *)
Lemma written_one w dev : 
  file_ok io_fuel (wr_device w) (wr_block_size w) (wr_compression w) (wr_checksum w) (wr_groups w) ->
  pr_content dev = file_bytes (wr_compression w) (wr_checksum w) (wr_groups w) (all_deallocs (wr_groups w) []) -> dev_ok io_fuel dev ->
  Forall (λ p, length (sp_content p) < 2 ^ 64 /\ exists tier, page_tier (sp_content p) = Ok tier) (pages_of w) -> NoDup (sp_addr <$> pages_of w) ->
  written_ok [w] {[map_name (wr_id w) := dev]}.
Proof using Halloc H0.
  intros Hfile Hb Hdev Hp Hn. assert (Ha : all_pages [w] = pages_of w) by (unfold all_pages; cbn; by rewrite app_nil_r). split; rewrite ?Ha.
  - by intros w' ->%list_elem_of_singleton.
  - intros w' pgs info f ->%list_elem_of_singleton E. exists dev. split; [apply lookup_singleton_eq|].
    destruct (write_file_ok alloc io_fuel Halloc (wr_id w) (wr_device w) (wr_use_direct w) (wr_block_size w) (wr_compression w) (wr_checksum w) (wr_groups w) (wr_up2 w) Hfile) as (f' & E' & Hc).
    unfold output in E. rewrite E in E'. injection E' as _ _ ->. by rewrite Hc.
  - by intros name d [_ <-]%lookup_singleton_Some.
  - by apply Forall_forall.
  - intros p p' (i & Hi)%list_elem_of_lookup (j & Hj)%list_elem_of_lookup E. enough (i = j) by congruence.
    apply (NoDup_lookup _ i j (sp_addr p) Hn); rewrite list_lookup_fmap; [by rewrite Hi|by rewrite Hj, E].
Qed.

Section reads.
Context (files : list Written) (dir : gmap string R) (Hok : written_ok files dir).

Definition written_content (addr : Z) : list Z := default [] (sp_content <$> head (base.filter (λ p, sp_addr p = addr) (all_pages files))).
Lemma written_content_ok p : p ∈ all_pages files -> written_content (sp_addr p) = sp_content p.
Proof using Hok.
  intros Hp. unfold written_content. assert (Hf : p ∈ base.filter (λ p', sp_addr p' = sp_addr p) (all_pages files)) by (by apply list_elem_of_filter).
  destruct (base.filter _ _) as [|p' l] eqn:E; [by apply not_elem_of_nil in Hf|]. cbn.
  assert (Hp' : p' ∈ base.filter (λ p', sp_addr p' = sp_addr p) (all_pages files)) by (rewrite E; by left).
  apply list_elem_of_filter in Hp' as [Ha Hp']. by apply (wo_same _ _ Hok).
Qed.

(** The files have what they had, and the caches nothing else. *)
Definition reads_inv (s : PageFiles R) (es : list CacheEntry) : Prop :=
  files_ok io_fuel file_len direct_io_ify written_content s es /\ forall name, pr_content <$> pf_dir s !! name = pr_content <$> dir !! name.

Lemma written_in_file w g p : w ∈ files -> g ∈ wr_groups w -> p ∈ gs_pages g ->
  exists pgs info f group handle, output w = Ok (pgs, info, f) /\ pgs !! gs_id g = Some group /\ get_page_handle (sp_addr p) group = Ok (Some handle) /\
    fm_block_size (fi_meta info) = DEFAULT_BLOCK_SIZE /\ page_in_file (sw_content f) (fi_meta info) handle (sp_content p).
Proof using Hok Halloc H0.
  intros Hw Hg Hp. pose proof (wo_file _ _ Hok w Hw) as Hfile. destruct (wo_pages _ _ Hok p (elem_of_all_pages _ _ _ _ Hw Hg Hp)) as [H64 _].
  destruct (write_file_ok alloc io_fuel Halloc (wr_id w) (wr_device w) (wr_use_direct w) (wr_block_size w) (wr_compression w) (wr_checksum w) (wr_groups w) (wr_up2 w) Hfile) as (f & E & Hc).
  pose proof Hfile as [Hcodec Hgs Hids _ _ _ _ _].
  edestruct (group_page_in_file (wr_id w) (wr_compression w) (wr_checksum w) (wr_groups w) (all_deallocs (wr_groups w) []) g p) as (group & handle & Hgr & _ & Hh & Hin); [done..| | |].
  3: { eexists _, _, f, group, handle. split; [exact E|]. split; [exact Hgr|]. split; [exact Hh|]. split; [|by rewrite Hc]. done. }
  all: done.
Qed.

Lemma read_written s es w g p pgs info f group handle r q hint :
  reads_inv s es -> w ∈ files -> g ∈ wr_groups w -> p ∈ gs_pages g -> output w = Ok (pgs, info, f) -> pgs !! gs_id g = Some group ->
  get_page_handle (sp_addr p) group = Ok (Some handle) -> can_read r q (wr_id w) p hint s es ->
  exists e hit s', read_page alloc io_fuel file_len direct_io_ify r q (wr_id w) (fi_meta info) (sp_addr p) handle hint s = (Ok (e, hit), s') /\
    reads_inv s' (es ++ [e]) /\ entry_value e (pf_page_cache s') = Ok (sp_content p) /\
    (forall e', e' ∈ es -> entry_value e' (pf_page_cache s') = entry_value e' (pf_page_cache s)).
Proof using Hok Halloc Hlen Hdirect H0.
  intros [Hs Hdir] Hw Hg Hp E Hgr Hh (Ho1 & Ho2 & Ho3). pose proof (elem_of_all_pages _ _ _ _ Hw Hg Hp) as Hin.
  destruct (wo_pages _ _ Hok p Hin) as [_ [tier Htier]]. pose proof (written_content_ok p Hin) as Hcont.
  destruct (written_in_file w g p Hw Hg Hp) as (pgs' & info' & f' & group' & handle' & E' & Hgr' & Hh' & Hbs & Hpage). rewrite E in E'. injection E' as <- <- <-.
  rewrite Hgr in Hgr'. injection Hgr' as <-. rewrite Hh in Hh'. injection Hh' as <-.
  destruct (wo_stored _ _ Hok w _ _ _ Hw E) as (dev0 & Hdev0 & Hbytes). specialize (Hdir (map_name (wr_id w))) as Hd. rewrite Hdev0 in Hd.
  apply fmap_Some in Hd as (dev & Hdev & Heq). rewrite <- Hcont in Hpage, Htier, Ho3.
  destruct (read_page_ok alloc io_fuel file_len direct_io_ify Halloc Hlen Hdirect written_content s es r q (wr_id w) (fi_meta info) (sp_addr p) handle hint dev tier)
    as (e & s' & Er & Hs' & Hv & Hold & Hfiles); try done.
  { by rewrite <- Heq, Hbytes. }
  eexists e, _, s'. split; [exact Er|]. split; [split; [done|]; intros name; by rewrite Hfiles|]. split; [by rewrite Hv, Hcont|done].
Qed.

Lemma files_run_inv s0 s es : reads_inv s0 [] -> files_run files s0 s es -> reads_inv s es.
Proof using Hok Halloc Hlen Hdirect H0.
  intros Hs0. induction 1 as [|s es w p info handle r q hint e hit s' _ IH (g & pgs & f & group & Hw & Hg & Hp & Eo & Hgr & Hh) Hcan E|s es n e s' _ IH Hn E|s es q p s' _ IH Hp Hop E|s es ids s' _ IH E].
  - done.
  - destruct (read_written s es w g p pgs info f group handle r q hint) as (e1 & hit1 & s1 & E1 & Hi & _); try done. rewrite E1 in E. by injection E as <- _ <-.
  - destruct IH as [Hs Hd]. edestruct drop_page_ok as (c & E1 & Hs1); [exact Hs|exact Hn|]. rewrite E1 in E. injection E as <-. by split.
  - destruct IH as [Hs Hd]. pose proof (written_content_ok p Hp) as Hc. rewrite <- Hc in E, Hop. destruct (populate_cache_ok _ _ _ _ s es q (sp_addr p) Hs Hop) as (s1 & E1 & Hs1).
    rewrite E1 in E. injection E as <-. split; [done|]. by rewrite (populate_cache_dir _ _ _ _ _ E1).
  - destruct IH as [Hs Hd]. destruct (evict_cached_pages_ok _ _ _ _ s es ids Hs) as (s1 & E1 & Hs1 & _). rewrite E1 in E. injection E as <-.
    split; [done|]. by rewrite (evict_cached_pages_dir _ _ _ E1).
Qed.
End reads.

(** [C17] What was written is what [read_page] returns. Page files were built from page
    groups, their bytes are in the directory under their numbers, and a page that was
    written to several of them has one content. From new caches, after whatever reads of
    these pages, drops of entries, insertions of pages that were flushed and evictions,
    every page of every file is found by its group; reading it with the handle the group
    gives succeeds, from the cache or from the file, and gives the content that was added
    to the file; it is one more step of such a run, and the entries that clients have show
    what they did. (The addresses of new handles are fresh, and the charges fit a [usize].) *)
Theorem written_page_read files dir ptr capacity reader_capacity use_direct prepopulate s0 s es w g p :
  written_ok files dir -> page_files_new dir ptr capacity reader_capacity use_direct prepopulate = Ok s0 -> 0 <= capacity -> 0 <= reader_capacity ->
  files_run files s0 s es -> w ∈ files -> g ∈ wr_groups w -> p ∈ gs_pages g ->
  exists pgs info f group handle,
    output w = Ok (pgs, info, f) /\ pgs !! gs_id g = Some group /\ get_page_handle (sp_addr p) group = Ok (Some handle) /\
    forall r q hint, can_read r q (wr_id w) p hint s es ->
      exists e hit s', read_page alloc io_fuel file_len direct_io_ify r q (wr_id w) (fi_meta info) (sp_addr p) handle hint s = (Ok (e, hit), s') /\
        entry_value e (pf_page_cache s') = Ok (sp_content p) /\ files_run files s0 s' (es ++ [e]) /\
        (forall e', e' ∈ es -> entry_value e' (pf_page_cache s') = entry_value e' (pf_page_cache s)).
Proof using Halloc Hlen Hdirect H0.
  intros Hok Hnew Hc1 Hc2 Hrun Hw Hg Hp.
  assert (Hs0 : reads_inv files dir s0 []).
  { split; [by eapply page_files_new_ok; [..|apply Hok]|]. intros name. unfold page_files_new in Hnew.
    destruct (cache_new ptr reader_capacity _ _ _) as [rc| |]; [|done..]. cbn [mbind res_bind] in Hnew. destruct (cache_new ptr capacity _ _ _) as [pc| |]; [|done..]. by injection Hnew as <-. }
  pose proof (files_run_inv files dir Hok s0 s es Hs0 Hrun) as Hinv.
  destruct (written_in_file files dir Hok w g p Hw Hg Hp) as (pgs & info & f & group & handle & E & Hgr & Hh & _).
  exists pgs, info, f, group, handle. split_and!; [done..|]. intros r q hint Hcan.
  destruct (read_written files dir Hok s es w g p pgs info f group handle r q hint) as (e & hit & s' & Er & _ & Hv & Hold); try done.
  exists e, hit, s'. split_and!; [done|done| |done]. eapply files_read; [done| |done|done]. by exists g, pgs, f, group.
Qed.
End written.

(** ** Witnesses *)

#[local] Existing Instance plain_codecs.
#[local] Existing Instance plain_codecs_laws.

Abbreviation sample_alloc := (λ n, replicate n 0) (only parsing).
Definition sample_len (f : MemFile) : Z := length (mf_data f).
(** The page store with the file of the given bytes. *)
Definition sample_files (bytes : list Z) : PageFiles MemFile :=
  mkPageFiles {[map_name 3 := mkMemFile bytes 2]} true true (mkLRUCache [shard_new 1 10 (f64_of 0) (f64_of 0)] 0) (mkLRUCache [shard_new 1 100 (f64_lit 1 (-1)) (f64_of 0)] 0).

Lemma sample_files_new bytes : page_files_new {[map_name 3 := mkMemFile bytes 2]} 1 100 10 true true = Ok (sample_files bytes).
Proof.
  unfold page_files_new. assert (E1 : cache_new (T := FileReader string) 1 10 (-1) (f64_of 0) (f64_of 0) = Ok (mkLRUCache [shard_new 1 10 (f64_of 0) (f64_of 0)] 0)) by (vm_compute; reflexivity).
  assert (E2 : cache_new (T := list Z) 1 100 (-1) (f64_lit 1 (-1)) (f64_of 0) = Ok (mkLRUCache [shard_new 1 100 (f64_lit 1 (-1)) (f64_of 0)] 0)) by (vm_compute; reflexivity).
  by rewrite E1, E2.
Qed.

Lemma cached_files_ok content bytes : length bytes < 10000 -> files_ok sample_fuel sample_len (λ _, true) content (sample_files bytes) [].
Proof.
  intros Hb. apply (page_files_new_ok sample_fuel sample_len (λ _, true) content {[map_name 3 := mkMemFile bytes 2]} 1 100 10 true true); [|lia|lia|].
  - apply sample_files_new.
  - intros name dev [_ <-]%lookup_singleton_Some. unfold dev_ok, sample_fuel. rewrite Z2Nat.id by lia. cbn [pr_content pr_interrupts mem_reader_laws mf_data]. unfold DEFAULT_BLOCK_SIZE. lia.
Qed.
Lemma one_shard_ok {T} cap high low p key (v : option T) charge opt es :
  p <> 1 -> 0 <= charge < 2 ^ 64 -> op_ok (OpInsert p key v charge opt) (mkLRUCache [shard_new 1 cap high low] 0) es.
Proof.
  intros Hp Hc s Hs. destruct (cache_shard _ (hash_key key)) as [|n]; [|done]. injection Hs as <-. cbn [sh_heap shard_new sh_usage].
  split_and!; [by apply lookup_singleton_ne|lia|lia].
Qed.
Lemma sample_direct (name : string) : true = true -> DirectReaderLaws MemFile DEFAULT_BLOCK_SIZE.
Proof. intros _. apply (mem_direct_laws 12). lia. Qed.

Lemma sample_len_ok (f : MemFile) : sample_len f = length (pr_content f).
Proof. reflexivity. Qed.

Lemma read_page_transparent_witness :
  exists e s', read_page sample_alloc sample_fuel sample_len (λ _, true) 2 2 3 (mkFileMeta 3 20 4096 CHECKSUM_CRC32 COMPRESSION_NONE ∅ ∅) (3 * 2 ^ 32 + 64) (mkPageHandle 1 19) OPTION_DEFAULT
      (sample_files (9 :: replicate 15 0 ++ [0; 0; 0; 0])) = (Ok (e, false), s') /\
    entry_value e (pf_page_cache s') = Ok (replicate 15 0).
Proof.
  destruct (read_page_transparent sample_alloc sample_fuel sample_len (λ _, true) (λ n, length_replicate n 0) sample_len_ok sample_direct
    (λ _, replicate 15 0) (sample_files (9 :: replicate 15 0 ++ [0; 0; 0; 0])) [] 2 2 3 (mkFileMeta 3 20 4096 CHECKSUM_CRC32 COMPRESSION_NONE ∅ ∅) (3 * 2 ^ 32 + 64) (mkPageHandle 1 19) OPTION_DEFAULT
    (mkMemFile (9 :: replicate 15 0 ++ [0; 0; 0; 0]) 2) Leaf) as (e & s' & E & _ & Hv & _).
  - apply cached_files_ok. simpl. lia.
  - apply lookup_singleton_eq.
  - done.
  - unfold page_in_file. cbn [ph_offset ph_size]. split_and!; [lia|lia|simpl; lia|vm_compute; reflexivity].
  - vm_compute. reflexivity.
  - cbn. lia.
  - intros v. apply one_shard_ok; lia.
  - apply one_shard_ok; simpl; lia.
  - exists e, s'. split; [exact E|exact Hv].
Defined.

(** A file with the two groups, in the directory and in the caches of [sample_files]. *)
Definition sample_written : Written := mkWritten 3 (mkMemFile [] 2) true 4096 COMPRESSION_ZSTD CHECKSUM_CRC32 sample_groups 0.
Definition sample_bytes : list Z := file_bytes COMPRESSION_ZSTD CHECKSUM_CRC32 sample_groups (all_deallocs sample_groups []).

Lemma sample_written_ok : written_ok sample_alloc sample_fuel [sample_written] {[map_name 3 := mkMemFile sample_bytes 2]}.
Proof.
  apply (written_one sample_alloc sample_fuel (λ n, length_replicate n 0) sample_written (mkMemFile sample_bytes 2)).
  - exact sample_file_ok.
  - reflexivity.
  - split; [unfold sample_fuel; rewrite Z2Nat.id by lia|]; vm_compute; done.
  - repeat constructor; try (simpl; lia); exists Leaf; vm_compute; reflexivity.
  - by apply (bool_decide_eq_true_1 _).
Qed.

Lemma written_page_read_witness :
  exists pgs info f handle e hit s', output sample_alloc sample_fuel sample_written = Ok (pgs, info, f) /\
    read_page sample_alloc sample_fuel sample_len (λ _, true) 2 2 3 (fi_meta info) (2 ^ 34 + 16) handle OPTION_DEFAULT (sample_files sample_bytes) = (Ok (e, hit), s') /\
    entry_value e (pf_page_cache s') = Ok [30; 31; 32].
Proof.
  destruct (written_page_read (W := MemFile) sample_alloc sample_fuel (λ n, length_replicate n 0) sample_len (λ _, true) sample_len_ok sample_direct
    [sample_written] {[map_name 3 := mkMemFile sample_bytes 2]} 1 100 10 true true (sample_files sample_bytes) (sample_files sample_bytes) [] sample_written
    (mkGroupSpec 4 [sample_page 9 (2 ^ 34 + 16) 30] []) (sample_page 9 (2 ^ 34 + 16) 30) sample_written_ok (sample_files_new sample_bytes))
    as (pgs & info & f & group & handle & E & _ & _ & Hr).
  - lia.
  - lia.
  - apply files_start.
  - left.
  - right. left.
  - left.
  - destruct (Hr 2 2 OPTION_DEFAULT) as (e & hit & s' & Er & Hv & _).
    + split; [cbn; lia|]. split; [intros v; apply one_shard_ok; lia|apply one_shard_ok; simpl; lia].
    + exists pgs, info, f, handle, e, hit, s'. split; [exact E|]. split; [exact Er|exact Hv].
Defined.

(** A client has one of the two pages of file 3: it stays, and the other one goes. *)
Definition page_insert_op (p key : Z) : client_op (list Z) := OpInsert p key (Some [1; 2; 3]) 3 OPTION_DEFAULT.
Definition two_pages : res (PageFiles MemFile * list CacheEntry) :=
  r ← client_steps [page_insert_op 2 (3 * 2 ^ 32); page_insert_op 3 (3 * 2 ^ 32 + 8); OpDrop 0] (pf_page_cache (sample_files [])) [];
  Ok (mkPageFiles ∅ true true (pf_reader_cache (sample_files [])) r.1, r.2).
Example evict_two_pages :
  ('(s, es) ← two_pages; let '(r, s) := evict_cached_pages [3] s in _ ← r; Ok (contents (pf_page_cache s) (3 * 2 ^ 32), contents (pf_page_cache s) (3 * 2 ^ 32 + 8))) =
  Ok (None, Some (Some [1; 2; 3])).
Proof. vm_compute. reflexivity. Qed.
Lemma evict_cached_pages_ok_witness :
  exists s', evict_cached_pages [3] (sample_files [1; 2]) = (Ok tt, s') /\
    forall k v, key_file_id k ∈ [3] -> contents (pf_page_cache s') k = Some v -> exists e, e ∈ @nil CacheEntry /\ shown (pf_page_cache s') e = Some (k, v).
Proof.
  destruct (evict_cached_pages_ok sample_fuel sample_len (λ _, true) (λ _, []) (sample_files [1; 2]) [] [3]) as (s' & E & _ & _ & _ & Hk); [apply cached_files_ok; simpl; lia|].
  exists s'. split; [exact E|exact Hk].
Defined.
Lemma remove_files_ok_witness :
  exists s', remove_files [3] (sample_files [1; 2]) = (Ok tt, s') /\ pf_dir s' !! map_name 3 = None.
Proof.
  destruct (remove_files_ok sample_fuel sample_len (λ _, true) (λ _, []) (sample_files [1; 2]) [] [3]) as (s' & E & _ & _ & Hd & _); [apply cached_files_ok; simpl; lia|].
  exists s'. split; [exact E|]. apply Hd. left.
Defined.
