(* ===== verification/ManifestLog.v ===== *)
(** * The manifest is a log ([Manifest] of [page_store/manifest.rs])

    In a directory that works, the manifest holds a list of edits: recording appends
    an edit, or starts a new file with a snapshot and the edit; listing and
    reopening give the list back. Also what reopening makes of the files a crash
    leaves behind. *)

From stdpp Require Import base numbers list strings gmap pretty.
From Stdlib Require Import ZArith Lia Ascii.
From S2P Require Import Prelude Env Directory PageGroup Manifest.

(** ** File names *)

Fixpoint str_all (P : ascii -> Prop) (s : string) : Prop :=
  match s with EmptyString => True | String a s => P a /\ str_all P s end.
Definition is_digit (a : ascii) : Prop := is_Some (digit_value a).

Lemma pretty_char_digit x : (x < 10)%N -> digit_value (pretty_N_char x) = Some (Z.of_N x).
Proof.
  intros Hx. assert (x = 0 \/ x = 1 \/ x = 2 \/ x = 3 \/ x = 4 \/ x = 5 \/ x = 6 \/ x = 7 \/ x = 8 \/ x = 9)%N as Hc by lia.
  by repeat (destruct Hc as [->|Hc]; [done|]); subst.
Qed.

Lemma pretty_go_digits x s : str_all is_digit s -> str_all is_digit (pretty_N_go x s).
Proof.
  revert s. induction (N.lt_wf_0 x) as [x _ IH]; intros s Hs.
  destruct (decide (x = 0%N)) as [->|Hx]; [by rewrite pretty_N_go_0|]. rewrite pretty_N_go_step by lia.
  apply IH; [apply N.div_lt; lia|]. split; [|done]. unfold is_digit. rewrite pretty_char_digit by (apply N.mod_lt; lia). eauto.
Qed.

Lemma parse_go x s : Z.of_N x <= u32_max -> parse_digits 0 (pretty_N_go x s) = parse_digits (Z.of_N x) s.
Proof.
  revert s. induction (N.lt_wf_0 x) as [x _ IH]; intros s Hle.
  destruct (decide (x = 0%N)) as [->|Hx]; [by rewrite pretty_N_go_0|]. rewrite pretty_N_go_step by lia.
  assert (Hd : (x / 10 < x)%N) by (apply N.div_lt; lia). rewrite IH by lia. cbn [parse_digits].
  rewrite pretty_char_digit by (apply N.mod_lt; lia). cbn [mbind option_bind].
  replace (Z.of_N (x / 10) * 10 + Z.of_N (x mod 10)) with (Z.of_N x) by (pose proof (N.div_mod x 10); lia).
  by rewrite (proj2 (Z.leb_le _ _) Hle).
Qed.

Lemma pretty_pos p : pretty (Z.pos p) = pretty_N_go (N.pos p) "".
Proof.
  change (pretty (Z.pos p)) with (if decide (N.pos p = 0%N) then "0"%string else pretty_N_go (N.pos p) ""). by case_decide.
Qed.

Lemma pretty_digits (n : Z) : 0 <= n -> str_all is_digit (pretty n).
Proof.
  intros Hn. destruct n as [|p|p]; [|rewrite pretty_pos|lia].
  - split; [by eexists|done].
  - by apply pretty_go_digits.
Qed.
Lemma pretty_nonempty (n : Z) : pretty n <> ""%string.
Proof.
  assert (Hg : forall x s, s <> ""%string -> pretty_N_go x s <> ""%string).
  { intros x. induction (N.lt_wf_0 x) as [x _ IH]; intros s Hs.
    destruct (decide (x = 0%N)) as [->|Hx]; [by rewrite pretty_N_go_0|]. rewrite pretty_N_go_step by lia.
    apply IH; [apply N.div_lt; lia|done]. }
  destruct n as [|p|p]; [done| |done]. rewrite pretty_pos, pretty_N_go_step by lia. by apply Hg.
Qed.

Lemma parse_plain s : (forall s', s <> String "+"%char s') -> s <> ""%string -> parse_u32 s = parse_digits 0 s.
Proof.
  intros Hp He. destruct s as [|[[] [] [] [] [] [] [] []] s']; first [done|by destruct (Hp s')|idtac].
Qed.

Lemma parse_pretty n : fits 32 n -> parse_u32 (pretty n) = Some n.
Proof.
  intros Hn. unfold fits in Hn. rewrite parse_plain by (apply pretty_nonempty ||
    (intros s' E; pose proof (pretty_digits n ltac:(lia)) as Hd; rewrite E in Hd; by destruct Hd as [[? ?] _])).
  destruct n as [|p|p]; [done| |lia]. rewrite pretty_pos, parse_go by (unfold u32_max; lia). done.
Qed.

(** Names of manifests hold no dot. *)
Lemma after_last_dot_none s : str_all (λ a, a <> "."%char) s -> after_last_dot s = None.
Proof.
  induction s as [|a s IH]; [done|]. intros [Ha Hs]. cbn [after_last_dot]. rewrite IH by done.
  by rewrite bool_decide_false.
Qed.
Lemma str_all_impl (P Q : ascii -> Prop) s : (forall a, P a -> Q a) -> str_all P s -> str_all Q s.
Proof. intros HPQ. induction s as [|a s IH]; [done|]. intros [Ha Hs]. split; auto. Qed.

Lemma manifest_extension n : 0 <= n -> extension (manifest_name n) = None.
Proof.
  intros Hn. change (after_last_dot ("ANIFEST_" +:+ pretty n) = None). apply after_last_dot_none.
  do 8 (split; [done|]). eapply str_all_impl; [|by apply pretty_digits]. intros a [v Ha] ->. done.
Qed.

Lemma strip_prefix_digits p (n : Z) : 0 <= n -> strip_prefix (String "M"%char p) (pretty n) = None.
Proof.
  intros Hn. pose proof (pretty_digits n Hn) as Hd. destruct (pretty n) as [|a s]; [done|]. cbn [strip_prefix].
  rewrite bool_decide_false; [done|]. intros <-. by destruct Hd as [[? ?] _].
Qed.

Lemma strip_prefix_app p s : strip_prefix p (p +:+ s) = Some s.
Proof. induction p as [|a p IH]; [done|]. change (String a p +:+ s) with (String a (p +:+ s)). cbn [strip_prefix]. by rewrite bool_decide_true. Qed.

(** Old manifests are obsolete, and only they. *)
Lemma manifest_obsolete n curr : fits 32 n -> is_obsolete_manifest (manifest_name n) (Some curr) = (n <? curr).
Proof.
  intros Hn. unfold is_obsolete_manifest.
  assert (E : trim_start_matches (String.length (manifest_name n)) (MANIFEST_FILE_NAME +:+ "_") (manifest_name n) = pretty n).
  { change (String.length (manifest_name n)) with (S (String.length ("ANIFEST_" +:+ pretty n))). cbn [trim_start_matches].
    change (manifest_name n) with ((MANIFEST_FILE_NAME +:+ "_") +:+ pretty n). rewrite strip_prefix_app.
    destruct (String.length _); cbn [trim_start_matches]; [done|]. change (MANIFEST_FILE_NAME +:+ "_") with "MANIFEST_"%string.
    by rewrite strip_prefix_digits by apply Hn. }
  by rewrite E, parse_pretty.
Qed.

Lemma manifest_kept n curr : fits 32 n -> curr <= n -> to_remove (Some curr) (manifest_name n) = false.
Proof.
  intros Hn Hle. unfold to_remove. rewrite manifest_extension by apply Hn. rewrite manifest_obsolete by done.
  rewrite bool_decide_false by done. by apply Z.ltb_ge.
Qed.
Lemma current_kept curr : to_remove curr CURRENT_FILE_NAME = false.
Proof. done. Qed.

(** *** What [cleanup_obsolete_files] removes, in words *)

(** The name ends with the suffix of temporary files; or, whatever number of prefixes of
    manifests it starts with, it goes on with a number below the current one. *)
Definition temp_file (name : string) : Prop := exists p, p <> ""%string /\ name = p +:+ "." +:+ TEMPFILE_SUFFIX.
Definition numbered_below (n : Z) (name : string) : Prop :=
  exists r s v, name = Nat.iter r (String.append "MANIFEST_") s /\ parse_u32 s = Some v /\ v < n.

Lemma string_length_app (s1 s2 : string) : String.length (s1 +:+ s2) = (String.length s1 + String.length s2)%nat.
Proof.
  induction s1 as [|a s1 IH]; [done|]. change (String a s1 +:+ s2) with (String a (s1 +:+ s2)). cbn [String.length]. by rewrite IH.
Qed.
Lemma string_app_assoc (s1 s2 s3 : string) : (s1 +:+ s2) +:+ s3 = s1 +:+ s2 +:+ s3.
Proof.
  induction s1 as [|a s1 IH]; [done|]. change (String a ((s1 +:+ s2) +:+ s3) = String a (s1 +:+ s2 +:+ s3)). by rewrite IH.
Qed.

Lemma after_last_dot_app p e : after_last_dot e = None -> after_last_dot (p +:+ "." +:+ e) = Some e.
Proof.
  intros He. induction p as [|a p IH]; [change (after_last_dot (String "." e) = Some e); cbn [after_last_dot]; by rewrite He|].
  change (String a p +:+ "." +:+ e) with (String a (p +:+ "." +:+ e)). cbn [after_last_dot]. by rewrite IH.
Qed.
Lemma after_last_dot_some s e : after_last_dot s = Some e -> exists p, s = p +:+ "." +:+ e.
Proof.
  revert e. induction s as [|a s IH]; intros e; cbn [after_last_dot]; [done|].
  destruct (after_last_dot s) as [e'|]; [|case_bool_decide as Ha; [intros [= <-]; exists ""%string; by subst|done]].
  intros [= ->]. destruct (IH e eq_refl) as [p ->]. by exists (String a p).
Qed.
Lemma extension_temp name : extension name = Some TEMPFILE_SUFFIX <-> temp_file name.
Proof.
  split.
  - destruct name as [|a s]; [done|]. intros [p ->]%after_last_dot_some. by exists (String a p).
  - intros ([|a p] & Hp & ->); [done|]. by apply (after_last_dot_app p).
Qed.

Lemma strip_prefix_some p s s' : strip_prefix p s = Some s' -> s = p +:+ s'.
Proof.
  revert s. induction p as [|a p IH]; intros [|b s]; cbn [strip_prefix]; [by intros [= <-]|by intros [= <-]|done|].
  case_bool_decide as E; [|done]. intros ->%IH. by subst.
Qed.
Lemma trim_some fuel p s : p <> ""%string -> (String.length s <= fuel)%nat ->
  exists r, s = Nat.iter r (String.append p) (trim_start_matches fuel p s) /\ strip_prefix p (trim_start_matches fuel p s) = None.
Proof.
  intros Hp. revert s. induction fuel as [|fuel IH]; intros s Hl; cbn [trim_start_matches].
  { exists O. split; [done|]. destruct s; [|cbn in Hl; lia]. by destruct p. }
  destruct (strip_prefix p s) as [s'|] eqn:E; [|by exists O]. apply strip_prefix_some in E as ->.
  destruct (IH s') as (r & Es & Hn).
  { rewrite string_length_app in Hl. destruct p; [done|]. cbn in Hl. lia. }
  exists (S r). split; [|done]. cbn [Nat.iter nat_rect]. by f_equal.
Qed.
Lemma trim_iter fuel p s r : strip_prefix p s = None -> p <> ""%string -> (r <= fuel)%nat ->
  trim_start_matches fuel p (Nat.iter r (String.append p) s) = s.
Proof.
  intros Hn Hp. revert r. induction fuel as [|fuel IH]; intros [|r] Hr; [done|lia| |]; cbn [trim_start_matches].
  - cbn. by rewrite Hn.
  - cbn [Nat.iter nat_rect]. rewrite strip_prefix_app. apply IH. lia.
Qed.
Lemma parse_not_manifest s v : parse_u32 s = Some v -> strip_prefix "MANIFEST_" s = None.
Proof.
  destruct s as [|a s]; [done|]. intros Hp. cbn [strip_prefix]. case_bool_decide as E; [|done]. subst a. by vm_compute in Hp.
Qed.
Lemma iter_length r s : (r <= String.length (Nat.iter r (String.append "MANIFEST_") s))%nat.
Proof.
  induction r as [|r IH]; [lia|]. change (Nat.iter (S r) (String.append "MANIFEST_") s) with ("MANIFEST_" +:+ Nat.iter r (String.append "MANIFEST_") s).
  rewrite string_length_app. change (String.length "MANIFEST_") with 9%nat. lia.
Qed.

Lemma is_obsolete_numbered name n : is_obsolete_manifest name (Some n) = true <-> numbered_below n name.
Proof.
  unfold is_obsolete_manifest. change (MANIFEST_FILE_NAME +:+ "_") with "MANIFEST_"%string. split.
  - destruct (trim_some (String.length name) "MANIFEST_" name) as (r & E & _); [done|done|].
    destruct (parse_u32 _) as [v|] eqn:Ep; [|done]. intros Hv%Z.ltb_lt. by eexists r, _, v.
  - intros (r & s & v & -> & Hp & Hv). rewrite trim_iter, Hp by (done || by eapply parse_not_manifest || apply iter_length). by apply Z.ltb_lt.
Qed.
Lemma to_remove_spec name n : to_remove (Some n) name = true <-> temp_file name \/ numbered_below n name.
Proof. unfold to_remove. by rewrite orb_true_iff, bool_decide_eq_true, extension_temp, is_obsolete_numbered. Qed.

(** A name that starts with an [m] is no number and no manifest. *)
Lemma page_file_kept (id n : Z) : 0 <= id -> to_remove (Some n) ("map_" +:+ pretty id) = false.
Proof.
  intros Hid. unfold to_remove. rewrite bool_decide_false; [done|]. change (after_last_dot ("ap_" +:+ pretty id) <> Some TEMPFILE_SUFFIX).
  rewrite after_last_dot_none; [done|]. do 3 (split; [done|]). eapply str_all_impl; [|by apply pretty_digits]. intros a [v Ha] ->. done.
Qed.
(** Any number is taken for the number of a manifest. *)
Example bare_number_removed : to_remove (Some 3) "2" = true.
Proof. vm_compute. reflexivity. Qed.

#[global] Instance manifest_name_inj : Inj (=) (=) manifest_name.
Proof. intros n m E. unfold manifest_name, MANIFEST_FILE_NAME in E. by simplify_eq/=. Qed.
Lemma manifest_not_current n : manifest_name n <> CURRENT_FILE_NAME.
Proof. done. Qed.
Lemma temp_not_manifest n m : temp_name n <> manifest_name m.
Proof. done. Qed.
Lemma temp_not_current n : temp_name n <> CURRENT_FILE_NAME.
Proof. done. Qed.

(** ** The log *)

Section log.
Context `{EditCodecLaws} {D : Type} `{DirLaws D} (io_fuel : nat).

Definition record_bytes (ve : VersionEdit) : list Z :=
  le_bytes 8 (length (edit_encode_to_vec ve)) ++ edit_encode_to_vec ve.
Definition log_bytes (log : list VersionEdit) : list Z := concat (record_bytes <$> log).

Lemma log_bytes_app l1 l2 : log_bytes (l1 ++ l2) = log_bytes l1 ++ log_bytes l2.
Proof using. unfold log_bytes. by rewrite fmap_app, concat_app. Qed.
Lemma log_bytes_one ve : log_bytes [ve] = record_bytes ve.
Proof using. unfold log_bytes. simpl. by rewrite app_nil_r. Qed.
Lemma length_record ve : length (record_bytes ve) = (8 + length (edit_encode_to_vec ve))%nat.
Proof using. unfold record_bytes. by rewrite length_app, length_le_bytes. Qed.

(** The directory holds the log in the manifest with the given number. *)
Definition log_on (fs : gmap string (list Z)) (n : Z) (log : list VersionEdit) : Prop :=
  fits 32 n /\ fs !! CURRENT_FILE_NAME = Some (le_bytes 4 n) /\ fs !! manifest_name n = Some (log_bytes log).

Record manifest_repr (s : MState D) (log : list VersionEdit) : Prop := {
  mr_log : match mf_current_file_num (ms_manifest s) with
    | None => log = [] /\ dir_files (ms_dir s) !! CURRENT_FILE_NAME = None /\ mf_current_writer (ms_manifest s) = None
    | Some n => log_on (dir_files (ms_dir s)) n log
    end;
  mr_writer : forall w, mf_current_writer (ms_manifest s) = Some w ->
    mf_current_file_num (ms_manifest s) = Some (mw_file_num w) /\ mw_current_file_size w = length (log_bytes log);
}.

(** Whether the next record starts a new file. *)
Definition rolls (m : Manifest) : bool :=
  match mf_current_writer m with None => true | Some w => mf_max_file_size m <? mw_current_file_size w end.

(** What one operation needs of the device. *)
Definition io_ok (s : MState D) (ve : VersionEdit) : Prop :=
  (8 + length (edit_encode_to_vec ve) + dir_interrupts (ms_dir s) < io_fuel)%nat.

Lemma encode_edit_ok name ve d c :
  dir_files d !! name = Some c -> (8 + length (edit_encode_to_vec ve) + dir_interrupts d < io_fuel)%nat ->
  exists d', encode_edit io_fuel name ve d = (Ok (length (record_bytes ve) : Z), d') /\
    dir_files d' = <[name := c ++ record_bytes ve]> (dir_files d) /\ (dir_interrupts d' <= dir_interrupts d)%nat.
Proof using.
  intros Hc Hf. unfold encode_edit.
  destruct (dir_write_all_ok io_fuel name (le_bytes 8 (length (edit_encode_to_vec ve))) d c Hc) as (d1 & E1 & Hd1 & Hi1).
  { rewrite length_le_bytes. lia. }
  st_step E1.
  destruct (dir_write_all_ok io_fuel name (edit_encode_to_vec ve) d1 (c ++ le_bytes 8 (length (edit_encode_to_vec ve)))) as (d2 & E2 & Hd2 & Hi2).
  { rewrite Hd1. apply lookup_insert_eq. } { lia. }
  st_step E2. exists d2. split; [|split; [|lia]].
  - unfold mret, st_ret. f_equal. f_equal. rewrite length_record. lia.
  - rewrite Hd2, Hd1, insert_insert_eq. unfold record_bytes. by rewrite app_assoc.
Qed.

Lemma on_dir_ok {A} (m : St D A) (s : MState D) a d :
  m (ms_dir s) = (Ok a, d) -> on_dir m s = (Ok a, mkMState (ms_manifest s) d).
Proof using. intros E. unfold on_dir. by rewrite E. Qed.
Lemma must_ok {S A} (m : St S A) s a s' : m s = (Ok a, s') -> must m s = (Ok a, s').
Proof using. intros E. unfold must. by rewrite E. Qed.
Lemma attempt_ok {S A} (m : St S A) s a s' : m s = (Ok a, s') -> attempt m s = (Ok (inl a), s').
Proof using. intros E. unfold attempt. by rewrite E. Qed.
Lemma attempt_err {S A} (m : St S A) s e s' : m s = (Err e, s') -> attempt m s = (Ok (inr e), s').
Proof using. intros E. unfold attempt. by rewrite E. Qed.

Lemma set_current_ok file_num d :
  (4 + dir_interrupts d < io_fuel)%nat ->
  exists d', set_current io_fuel file_num d = (Ok tt, d') /\
    dir_files d' = <[CURRENT_FILE_NAME := le_bytes 4 file_num]> (delete (temp_name file_num) (dir_files d)) /\
    (dir_interrupts d' <= dir_interrupts d)%nat.
Proof using.
  intros Hf. unfold set_current.
  destruct (dir_open_writer_ok (temp_name file_num) d) as (d1 & E1 & Hd1 & Hi1). st_step E1.
  destruct (dir_write_all_ok io_fuel (temp_name file_num) (le_bytes 4 file_num) d1 []) as (d2 & E2 & Hd2 & Hi2).
  { rewrite Hd1. apply lookup_insert_eq. } { rewrite length_le_bytes. lia. }
  st_step E2. destruct (dir_sync_all_ok (temp_name file_num) d2) as (d3 & E3 & Hd3 & Hi3).
  rewrite (st_bind_ok _ _ _ _ _ (must_ok _ _ _ _ E3)).
  destruct (dir_rename_ok (temp_name file_num) CURRENT_FILE_NAME d3 (le_bytes 4 file_num)) as (d4 & E4 & Hd4 & Hi4).
  { rewrite Hd3, Hd2. apply lookup_insert_eq. } { done. }
  rewrite (st_bind_ok _ _ _ _ _ (attempt_ok _ _ _ _ E4)). rewrite (st_bind_ok _ _ d4 tt d4) by done.
  destruct (dir_sync_dir_ok d4) as (d5 & E5 & Hd5 & Hi5). exists d5. split; [by apply must_ok|].
  split; [|lia]. rewrite Hd5, Hd4, Hd3, Hd2, Hd1, insert_insert_eq, delete_insert_eq. done.
Qed.

(** One record. *)
Lemma record_ok s log ve snap :
  manifest_repr s log -> io_ok s ve -> io_ok s snap ->
  default 0 (mf_current_file_num (ms_manifest s)) + 1 < 2 ^ 32 -> 0 <= default 0 (mf_current_file_num (ms_manifest s)) ->
  length (log_bytes (log ++ [snap; ve])) < 2 ^ 64 ->
  exists s', record_version_edit io_fuel ve snap s = (Ok tt, s') /\
    manifest_repr s' (if rolls (ms_manifest s) then [snap; ve] else log ++ [ve]) /\
    mf_current_file_num (ms_manifest s') =
      Some (if rolls (ms_manifest s) then default 0 (mf_current_file_num (ms_manifest s)) + 1
            else default 0 (mf_current_file_num (ms_manifest s))) /\
    mf_current_writer (ms_manifest s') <> None /\
    mf_max_file_size (ms_manifest s') = mf_max_file_size (ms_manifest s) /\
    mf_next_file_id (ms_manifest s') = mf_next_file_id (ms_manifest s) /\
    (dir_interrupts (ms_dir s') <= dir_interrupts (ms_dir s))%nat.
Proof using.
  intros Hr Hve Hsnap Hn Hn0 H64. unfold record_version_edit. unfold io_ok in *.
  rewrite (st_bind_ok _ _ s s s) by done. rewrite (st_bind_ok _ _ s tt (set_writer None s)) by done.
  set (m := ms_manifest s) in *. set (d := ms_dir s) in *. set (n := default 0 (mf_current_file_num m)) in *.
  assert (Hroll : match mf_current_writer m with None => true | Some w => mf_max_file_size m <? mw_current_file_size w end = rolls m) by done.
  rewrite !log_bytes_app, !length_app in H64. change [snap; ve] with ([snap] ++ [ve]) in *. rewrite log_bytes_app, !log_bytes_one, !length_app, !length_record in H64.
  destruct (rolls m) eqn:Er.
  - destruct (dir_open_writer_ok (manifest_name (n + 1)) d) as (d1 & E1 & Hd1 & Hi1).
    assert (Eroll : roll_writer (mf_current_writer m) (mf_max_file_size m) n d = (Ok (mkManifestWriter (n + 1) 0, true), d1)).
    { unfold roll_writer. cbv zeta. rewrite Hroll. rewrite wrap_small by (unfold fits; lia). st_step E1. done. }
    rewrite (st_bind_ok _ _ _ _ _ (on_dir_ok _ (set_writer None s) _ _ Eroll)). cbn [mw_file_num mw_current_file_size].
    destruct (encode_edit_ok (manifest_name (n + 1)) snap d1 []) as (d2 & E2 & Hd2 & Hi2); [rewrite Hd1; apply lookup_insert_eq|lia|].
    destruct (encode_edit_ok (manifest_name (n + 1)) ve d2 (record_bytes snap)) as (d3 & E3 & Hd3 & Hi3); [rewrite Hd2; apply lookup_insert_eq|lia|].
    set (m0 := ms_manifest (set_writer None s)).
    rewrite (st_bind_ok _ _ _ (length (record_bytes snap) + length (record_bytes ve)) (mkMState m0 d3)).
    2: { rewrite (st_bind_ok _ _ _ _ _ (on_dir_ok _ (mkMState m0 d1) _ _ E2)).
         rewrite (st_bind_ok _ _ _ _ _ (attempt_ok _ _ _ _ (on_dir_ok _ (mkMState m0 d2) _ _ E3))). done. }
    destruct (dir_sync_all_ok (manifest_name (n + 1)) d3) as (d4 & E4 & Hd4 & Hi4).
    destruct (set_current_ok (n + 1) d4) as (d5 & E5 & Hd5 & Hi5); [lia|].
    rewrite (st_bind_ok _ _ _ tt (set_file_num (Some (n + 1)) (mkMState m0 d5))).
    2: { rewrite (st_bind_ok _ _ _ _ _ (must_ok _ _ _ _ (on_dir_ok _ (mkMState m0 d3) _ _ E4))).
         rewrite (st_bind_ok _ _ _ _ _ (on_dir_ok _ (mkMState m0 d4) _ _ E5)). done. }
    eexists. split; [done|].
    cbn [ms_manifest ms_dir set_writer set_file_num mf_current_file_num mf_current_writer mf_max_file_size mf_next_file_id m0].
    split; [|split_and!; done || lia].
    constructor; cbn [ms_manifest ms_dir set_writer set_file_num mf_current_file_num mf_current_writer].
    + split; [unfold fits; lia|]. rewrite Hd5. split; [apply lookup_insert_eq|].
      rewrite lookup_insert_ne, lookup_delete_ne by (apply not_eq_sym, manifest_not_current || done).
      rewrite Hd4, Hd3, lookup_insert_eq. by rewrite log_bytes_app, !log_bytes_one.
    + intros w [= <-]. split; [done|]. cbn [mw_current_file_size].
      rewrite log_bytes_app, !log_bytes_one, length_app, !length_record. rewrite wrap_small by (unfold fits; lia). lia.
  - destruct (mf_current_writer m) as [w|] eqn:Ew; [|by unfold rolls in Er; rewrite Ew in Er].
    destruct (mr_writer _ _ Hr w Ew) as [Hnum Hsize]. pose proof (mr_log _ _ Hr) as Hlog. fold m d in Hnum, Hlog.
    rewrite Hnum in Hlog. destruct Hlog as (Hfit & Hcur & Hfile).
    rewrite (st_bind_ok _ _ _ _ _ (on_dir_ok (roll_writer (Some w) (mf_max_file_size m) n) (set_writer None s) (w, false) d
      ltac:(unfold roll_writer; cbv zeta; by rewrite Hroll))).
    cbn iota beta. set (m0 := ms_manifest (set_writer None s)).
    destruct (encode_edit_ok (manifest_name (mw_file_num w)) ve d _ Hfile) as (d1 & E1 & Hd1 & Hi1); [lia|].
    rewrite (st_bind_ok _ _ _ _ _ (on_dir_ok _ (mkMState m0 d) _ _ E1)).
    destruct (dir_sync_data_ok (manifest_name (mw_file_num w)) d1) as (d2 & E2 & Hd2 & Hi2).
    rewrite (st_bind_ok _ _ _ _ _ (must_ok _ _ _ _ (on_dir_ok _ (mkMState m0 d1) _ _ E2))).
    eexists. split; [done|].
    cbn [ms_manifest ms_dir set_writer set_file_num mf_current_file_num mf_current_writer mf_max_file_size mf_next_file_id m0].
    fold m. split; [|split_and!; try (done || lia)]. 2: { unfold n. by rewrite Hnum. }
    constructor; cbn [ms_manifest ms_dir set_writer set_file_num mf_current_file_num mf_current_writer]; fold m; rewrite Hnum.
    + split; [done|]. rewrite Hd2, Hd1. rewrite lookup_insert_ne by apply manifest_not_current.
      split; [done|]. rewrite lookup_insert_eq, log_bytes_app, log_bytes_one. done.
    + intros w' [= <-]. split; [done|]. cbn [mw_current_file_size]. rewrite Hsize, log_bytes_app, log_bytes_one, length_app, !length_record.
      rewrite wrap_small by (unfold fits; lia). lia.
Qed.

(** ** Listing *)

Definition io_all (d : D) (log : list VersionEdit) : Prop :=
  Forall (λ ve, 8 + length (edit_encode_to_vec ve) + dir_interrupts d < io_fuel)%nat log.

Lemma io_all_mono d d' log : (dir_interrupts d' <= dir_interrupts d)%nat -> io_all d log -> io_all d' log.
Proof using. intros Hi Hio. eapply Forall_impl; [exact Hio|]. intros ve. cbn beta. lia. Qed.

Lemma read_at_ok name d c a b z (len : nat) (pos : Z) :
  dir_files d !! name = Some c -> c = a ++ b ++ z -> pos = length a -> len = length b ->
  (len + dir_interrupts d < io_fuel)%nat -> length c < 2 ^ 64 ->
  exists d', dir_read_exact_at io_fuel name len pos d = (Ok b, d') /\
    dir_files d' = dir_files d /\ (dir_interrupts d' <= dir_interrupts d)%nat.
Proof using.
  intros Hc E -> -> Hf H64. rewrite E, !length_app in H64.
  destruct (dir_read_exact_at_ok io_fuel name (length b) (length a) d c Hc Hf) as (d' & Hr & Hd); [lia|lia|].
  exists d'. split; [|done]. rewrite Hr, decide_True by (right; rewrite E, !length_app; lia).
  by rewrite E, Nat2Z.id, drop_app_length, take_app_length.
Qed.

Lemma read_eof name d c (len : nat) (pos : Z) :
  dir_files d !! name = Some c -> 0 <= pos -> length c < pos + len -> pos + len < 2 ^ 64 -> len <> 0%nat ->
  (len + dir_interrupts d < io_fuel)%nat ->
  exists d', dir_read_exact_at io_fuel name len pos d = (Err (Io UnexpectedEof), d') /\
    dir_files d' = dir_files d /\ (dir_interrupts d' <= dir_interrupts d)%nat.
Proof using.
  intros Hc Hp Hlt H64 Hn Hf. destruct (dir_read_exact_at_ok io_fuel name len pos d c Hc Hf) as (d' & Hr & Hd); [lia|lia|].
  exists d'. by rewrite Hr, decide_False by lia.
Qed.

Lemma next_record_ok name d c a ve z :
  dir_files d !! name = Some c -> c = a ++ record_bytes ve ++ z -> length c < 2 ^ 64 -> io_all d [ve] ->
  exists d', next_record io_fuel name (length a) d = (Ok (Some (ve, length (a ++ record_bytes ve) : Z)), d') /\
    dir_files d' = dir_files d /\ (dir_interrupts d' <= dir_interrupts d)%nat.
Proof using H0.
  intros Hc E H64 [Hio _]%Forall_cons. unfold record_bytes in E. set (eb := edit_encode_to_vec ve) in *.
  assert (Hlen : length a + 8 + length eb + length z < 2 ^ 64) by (rewrite E, !length_app, length_le_bytes in H64; lia).
  assert (E1 : c = a ++ le_bytes 8 (length eb) ++ eb ++ z) by (rewrite E; by rewrite <- app_assoc).
  destruct (read_at_ok name d c a (le_bytes 8 (length eb)) (eb ++ z) 8 (length a) Hc E1) as (d1 & R1 & Hd1 & Hi1); [done|done|lia|done|].
  assert (E2 : c = (a ++ le_bytes 8 (length eb)) ++ eb ++ z) by (rewrite E1; by rewrite <- app_assoc).
  destruct (read_at_ok name d1 c _ eb z (length eb) (length a + 8) ltac:(by rewrite Hd1) E2) as (d2 & R2 & Hd2 & Hi2);
    [rewrite length_app, length_le_bytes; lia|done|lia|done|].
  unfold next_record. rewrite (st_bind_ok _ _ _ _ _ (attempt_ok _ _ _ _ R1)).
  rewrite le_num_u64 by (unfold fits; lia). rewrite Nat2Z.id, (wrap_small 64 (length a + 8)) by (unfold fits; lia).
  st_step R2. rewrite (st_bind_ok _ _ d2 ve d2) by (unfold lift, eb; by rewrite edit_roundtrip).
  exists d2. split; [|split; [congruence|lia]]. unfold mret, st_ret. do 4 f_equal. rewrite wrap_small by (unfold fits; lia).
  unfold record_bytes. fold eb. rewrite !length_app, length_le_bytes. lia.
Qed.

(** The end of the file: nothing more, or a record that was cut. *)
Lemma next_record_torn name d c a ve (k : nat) :
  dir_files d !! name = Some c -> c = a ++ take k (record_bytes ve) -> (k < length (record_bytes ve))%nat ->
  length (a ++ record_bytes ve) < 2 ^ 64 -> io_all d [ve] ->
  exists d', next_record io_fuel name (length a) d = (if decide (k < 8)%nat then Ok None else Err (Io UnexpectedEof), d') /\
    dir_files d' = dir_files d /\ (dir_interrupts d' <= dir_interrupts d)%nat.
Proof using.
  intros Hc E Hk H64 [Hio _]%Forall_cons. rewrite length_record in Hk. set (eb := edit_encode_to_vec ve) in *.
  assert (Hlen : length c = (length a + k)%nat) by (rewrite E, length_app, length_take, length_record; fold eb; lia).
  rewrite length_app, length_record in H64. fold eb in H64. unfold next_record. case_decide as Hk8.
  - destruct (read_eof name d c 8 (length a) Hc) as (d1 & R1 & Hd1 & Hi1); [lia|lia|lia|done|lia|].
    rewrite (st_bind_ok _ _ _ _ _ (attempt_err _ _ _ _ R1)). by exists d1.
  - assert (E1 : c = a ++ le_bytes 8 (length eb) ++ take (k - 8) eb).
    { rewrite E. f_equal. unfold record_bytes. fold eb. rewrite take_app_ge by (rewrite length_le_bytes; lia).
      by rewrite length_le_bytes. }
    destruct (read_at_ok name d c a (le_bytes 8 (length eb)) (take (k - 8) eb) 8 (length a) Hc E1) as (d1 & R1 & Hd1 & Hi1); [done|done|lia|lia|].
    rewrite (st_bind_ok _ _ _ _ _ (attempt_ok _ _ _ _ R1)).
    rewrite le_num_u64 by (unfold fits; lia). rewrite Nat2Z.id, (wrap_small 64 (length a + 8)) by (unfold fits; lia).
    destruct (read_eof name d1 c (length eb) (length a + 8)) as (d2 & R2 & Hd2 & Hi2); [by rewrite Hd1|lia|lia|lia|lia|lia|].
    rewrite (st_bind_err _ _ _ _ _ R2). exists d2. split; [done|]. split; [congruence|lia].
Qed.

Lemma list_loop_ok log fuel name d c a ve (k : nat) :
  dir_files d !! name = Some c -> c = a ++ log_bytes log ++ take k (record_bytes ve) -> (k < length (record_bytes ve))%nat ->
  length (a ++ log_bytes log ++ record_bytes ve) < 2 ^ 64 -> io_all d (log ++ [ve]) -> (length log < fuel)%nat ->
  exists d', list_versions_loop io_fuel fuel name (length a) d = (if decide (k < 8)%nat then Ok log else Err Corrupted, d') /\
    dir_files d' = dir_files d /\ (dir_interrupts d' <= dir_interrupts d)%nat.
Proof using H0.
  revert fuel d a. induction log as [|e log IH]; intros [|fuel] d a Hc E Hk H64 Hio Hf; simpl in Hf; try lia.
  - destruct (next_record_torn name d c a ve k Hc E Hk H64 Hio) as (d1 & R & Hd1). exists d1. split; [|done].
    cbn [list_versions_loop]. case_decide.
    + by rewrite (st_bind_ok _ _ _ _ _ (attempt_ok _ _ _ _ R)).
    + by rewrite (st_bind_ok _ _ _ _ _ (attempt_err _ _ _ _ R)).
  - change (log_bytes (e :: log)) with (record_bytes e ++ log_bytes log) in *.
    apply Forall_cons in Hio as [Hio1 Hio]. rewrite <- app_assoc in E, H64. rewrite !length_app in H64.
    destruct (next_record_ok name d c a e _ Hc E) as (d1 & R & Hd1 & Hi1).
    { rewrite E, !length_app, length_take. lia. } { by apply Forall_singleton. }
    destruct (IH fuel d1 (a ++ record_bytes e)) as (d2 & R2 & Hd2 & Hi2).
    { by rewrite Hd1. } { by rewrite E, <- app_assoc. } { done. } { rewrite !length_app. lia. }
    { by eapply io_all_mono. } { lia. }
    cbn [list_versions_loop]. rewrite (st_bind_ok _ _ _ _ _ (attempt_ok _ _ _ _ R)). exists d2.
    split; [|split; [congruence|lia]]. case_decide; [by st_step R2|by rewrite (st_bind_err _ _ _ _ _ R2)].
Qed.

(** Listing what a manifest file holds. *)
Lemma list_versions_ok s n log ve (k fuel : nat) :
  mf_current_file_num (ms_manifest s) = Some n ->
  dir_files (ms_dir s) !! manifest_name n = Some (log_bytes log ++ take k (record_bytes ve)) ->
  (k < length (record_bytes ve))%nat -> length (log_bytes log ++ record_bytes ve) < 2 ^ 64 ->
  io_all (ms_dir s) (log ++ [ve]) -> (length log < fuel)%nat ->
  exists d', list_versions io_fuel fuel s = (if decide (k < 8)%nat then Ok log else Err Corrupted, mkMState (ms_manifest s) d') /\
    dir_files d' = dir_files (ms_dir s) /\ (dir_interrupts d' <= dir_interrupts (ms_dir s))%nat.
Proof using H0.
  intros Hn Hc Hk H64 Hio Hf. unfold list_versions. rewrite (st_bind_ok _ _ s s s) by done. rewrite Hn. cbv zeta.
  destruct (dir_open_reader_ok (manifest_name n) (ms_dir s)) as (d1 & E1 & Hd1 & Hi1). rewrite decide_True in E1 by (rewrite Hc; eauto).
  rewrite (st_bind_ok _ _ _ _ _ (on_dir_ok _ s _ _ E1)).
  destruct (list_loop_ok log fuel (manifest_name n) d1 _ [] ve k ltac:(rewrite Hd1; exact Hc) eq_refl Hk H64) as (d2 & E2 & Hd2 & Hi2);
    [by eapply io_all_mono|done|].
  exists d2. split; [|split; [congruence|lia]]. unfold on_dir. cbn [ms_dir]. change (length (@nil Z) : Z) with 0 in E2. by rewrite E2.
Qed.

(** ** Opening *)

Lemma load_current_ok d :
  (4 + dir_interrupts d < io_fuel)%nat ->
  (forall c, dir_files d !! CURRENT_FILE_NAME = Some c -> exists n, fits 32 n /\ c = le_bytes 4 n) ->
  exists d', load_current io_fuel d = (Ok (le_num <$> dir_files d !! CURRENT_FILE_NAME), d') /\
    dir_files d' = dir_files d /\ (dir_interrupts d' <= dir_interrupts d)%nat.
Proof using.
  intros Hf Hcur. unfold load_current. destruct (dir_open_reader_ok CURRENT_FILE_NAME d) as (d1 & E1 & Hd1 & Hi1).
  destruct (dir_files d !! CURRENT_FILE_NAME) as [c|] eqn:Ec.
  - rewrite decide_True in E1 by eauto. destruct (Hcur c eq_refl) as (n & Hn & ->).
    rewrite (st_bind_ok _ _ _ _ _ (attempt_ok _ _ _ _ E1)).
    destruct (read_at_ok CURRENT_FILE_NAME d1 _ [] (le_bytes 4 n) [] 4 0 ltac:(by rewrite Hd1) eq_refl) as (d2 & E2 & Hd2 & Hi2);
      [done|done|lia|simpl; lia|].
    st_step E2. exists d2. split; [done|]. split; [congruence|lia].
  - rewrite decide_False in E1 by (by intros []). rewrite (st_bind_ok _ _ _ _ _ (attempt_err _ _ _ _ E1)). by exists d1.
Qed.

Lemma remove_paths_ok paths d :
  NoDup paths -> (forall name, name ∈ paths -> is_Some (dir_files d !! name)) ->
  exists d', remove_paths paths d = (Ok tt, d') /\
    (forall name, dir_files d' !! name = if decide (name ∈ paths) then None else dir_files d !! name) /\
    (dir_interrupts d' <= dir_interrupts d)%nat.
Proof using.
  intros Hnd. revert d. induction Hnd as [|p paths Hp _ IH]; intros d Hin.
  - exists d. split; [done|]. split; [|done]. intros name. by rewrite decide_False by apply not_elem_of_nil.
  - destruct (dir_remove_ok p d) as (d1 & E1 & Hd1 & Hi1); [apply Hin; by left|].
    destruct (IH d1) as (d2 & E2 & Hd2 & Hi2).
    { intros name Hn. rewrite Hd1, lookup_delete_ne; [apply Hin; by right|]. by intros ->. }
    exists d2. cbn [remove_paths]. st_step E1. split; [done|]. split; [|lia]. intros name. rewrite Hd2, Hd1.
    destruct (decide (name = p)) as [->|Hne].
    + rewrite decide_False by done. rewrite lookup_delete_eq. by rewrite decide_True by (by left).
    + rewrite lookup_delete_ne by done. destruct (decide (name ∈ paths)).
      * by rewrite decide_True by (by right).
      * rewrite decide_False; [done|]. by intros [?|?]%elem_of_cons.
Qed.

Lemma manifest_cleanup_ok cur d :
  exists d', cleanup_obsolete_files cur d = (Ok tt, d') /\
    (forall name, dir_files d' !! name = if to_remove cur name then None else dir_files d !! name) /\
    (dir_interrupts d' <= dir_interrupts d)%nat.
Proof using.
  unfold cleanup_obsolete_files. destruct (dir_read_dir_ok d) as (d1 & names & E1 & Hnd & Hnames & Hd1 & Hi1). st_step E1.
  set (paths := base.filter _ names).
  assert (Hpaths : forall name, name ∈ paths <-> to_remove cur name = true /\ is_Some (dir_files d !! name)).
  { intros name. unfold paths. rewrite list_elem_of_filter, Hnames. done. }
  destruct (remove_paths_ok paths d1) as (d2 & E2 & Hd2 & Hi2).
  { by apply NoDup_filter. } { intros name [_ Hn]%Hpaths. by rewrite Hd1. }
  cbv zeta. st_step E2.
  assert (Hres : forall name, dir_files d2 !! name = if to_remove cur name then None else dir_files d !! name).
  { intros name. rewrite Hd2, Hd1. destruct (to_remove cur name) eqn:Et.
    - case_decide as Hp; [done|]. rewrite Hpaths in Hp. apply eq_None_not_Some. naive_solver.
    - rewrite decide_False; [done|]. rewrite Hpaths, Et. naive_solver. }
  case_bool_decide; [exists d2; split; [done|]; split; [done|lia]|].
  destruct (dir_sync_dir_ok d2) as (d3 & E3 & Hd3 & Hi3). exists d3. split; [by apply must_ok|].
  rewrite Hd3. split; [done|lia].
Qed.

Lemma manifest_open_ok d :
  (4 + dir_interrupts d < io_fuel)%nat ->
  (forall c, dir_files d !! CURRENT_FILE_NAME = Some c -> exists n, fits 32 n /\ c = le_bytes 4 n) ->
  let cur := le_num <$> dir_files d !! CURRENT_FILE_NAME in
  exists d', manifest_open io_fuel d = (Ok (mkManifest MAX_MANIFEST_SIZE 0 cur None), d') /\
    (forall name, dir_files d' !! name = if to_remove cur name then None else dir_files d !! name) /\
    (dir_interrupts d' <= dir_interrupts d)%nat.
Proof using.
  intros Hf Hcur cur. unfold manifest_open.
  destruct (load_current_ok d Hf Hcur) as (d1 & E1 & Hd1 & Hi1). st_step E1.
  destruct (manifest_cleanup_ok cur d1) as (d2 & E2 & Hd2 & Hi2). fold cur. st_step E2. exists d2. split; [done|].
  split; [|lia]. intros name. by rewrite Hd2, Hd1.
Qed.
Lemma log_on_current d n log : log_on (dir_files d) n log ->
  forall c, dir_files d !! CURRENT_FILE_NAME = Some c -> exists n, fits 32 n /\ c = le_bytes 4 n.
Proof using. intros (Hn & Hc & _) c E. exists n. split; [done|congruence]. Qed.

(** [C19] What reopening a manifest makes of a crash. [CURRENT] names a manifest that
    holds a log and then, where the crash cut an append, the first [k] bytes of one
    more record; whatever else is in the directory, opening succeeds. Afterwards the
    manifests with smaller numbers and the temporary files are gone, and [CURRENT], the
    other manifests (the current one, and a newer one that was being written) and the
    page files are as they were. Precisely, what is removed are the names that end with
    the suffix of temporary files, and those that are a number below the current one,
    with any number of prefixes of manifests in front, none included: a file whose name
    is a mere number goes, too; every other file is untouched. Listing gives the log when
    the cut is in the length of the record. When the length is complete and the record is
    not, listing fails with the corruption error. (The number of the manifest is a [u32], the
    log is shorter than 2^64 bytes, and the fuel of the loops exceeds the records and the
    reads that the device cuts short or interrupts.) *)
Theorem manifest_reopen d n log ve (k fuel : nat) :
  fits 32 n -> dir_files d !! CURRENT_FILE_NAME = Some (le_bytes 4 n) ->
  dir_files d !! manifest_name n = Some (log_bytes log ++ take k (record_bytes ve)) ->
  (k < length (record_bytes ve))%nat -> length (log_bytes log ++ record_bytes ve) < 2 ^ 64 ->
  io_all d (log ++ [ve]) -> (length log < fuel)%nat ->
  exists m d', manifest_open io_fuel d = (Ok m, d') /\ mf_current_file_num m = Some n /\
    (forall j, fits 32 j -> dir_files d' !! manifest_name j = if j <? n then None else dir_files d !! manifest_name j) /\
    (forall j, dir_files d' !! temp_name j = None) /\
    dir_files d' !! CURRENT_FILE_NAME = dir_files d !! CURRENT_FILE_NAME /\
    (forall id, 0 <= id -> dir_files d' !! ("map_" +:+ pretty id) = dir_files d !! ("map_" +:+ pretty id)) /\
    (forall name, (temp_file name \/ numbered_below n name) /\ dir_files d' !! name = None \/
       ~ (temp_file name \/ numbered_below n name) /\ dir_files d' !! name = dir_files d !! name) /\
    (list_versions io_fuel fuel (mkMState m d')).1 = if decide (k < 8)%nat then Ok log else Err Corrupted.
Proof using H0.
  intros Hn Hcur Hfile Hk H64 Hio Hf. apply Forall_app in Hio as Hio'. destruct Hio' as [_ [Hve _]%Forall_cons].
  destruct (manifest_open_ok d) as (d' & E & Hd' & Hi).
  { lia. } { intros c Hc. exists n. split; [done|congruence]. }
  rewrite Hcur in E, Hd'. cbn [fmap option_fmap option_map] in E, Hd'. rewrite le_num_u32 in E, Hd' by done.
  eexists _, d'. split; [exact E|]. split; [done|]. split_and!.
  { intros j Hj. rewrite Hd'. unfold to_remove. rewrite manifest_extension by apply Hj. by rewrite manifest_obsolete. }
  { intros j. rewrite Hd'. rewrite (proj2 (to_remove_spec _ _)); [done|]. left. exists ("curr." +:+ pretty j). split; [done|].
    unfold temp_name. by rewrite string_app_assoc. }
  { by rewrite Hd', current_kept. }
  { intros id Hid. by rewrite Hd', page_file_kept. }
  { intros name. rewrite Hd', <- to_remove_spec. destruct (to_remove (Some n) name); [by left|by right]. }
  destruct (list_versions_ok (mkMState (mkManifest MAX_MANIFEST_SIZE 0 (Some n) None) d') n log ve k fuel) as (d2 & E2 & _); try done.
  - cbn [ms_dir]. rewrite Hd', manifest_kept by done. done.
  - by eapply io_all_mono.
  - by rewrite E2.
Qed.

(** ** Sequences of records *)

Fixpoint record_all (edits : list (VersionEdit * VersionEdit)) : St (MState D) unit :=
  match edits with
  | [] => mret tt
  | (ve, snap) :: edits => _ ← record_version_edit io_fuel ve snap; record_all edits
  end.
(** The log they leave: an edit is appended, or a snapshot and the edit start anew. *)
Fixpoint logs_after (max_file_size : Z) (opened : bool) (log : list VersionEdit) (edits : list (VersionEdit * VersionEdit)) : list VersionEdit :=
  match edits with
  | [] => log
  | (ve, snap) :: edits =>
      logs_after max_file_size true
        (if negb opened || (max_file_size <? length (log_bytes log)) then [snap; ve] else log ++ [ve]) edits
  end.
Definition edits_log (edits : list (VersionEdit * VersionEdit)) : list VersionEdit := concat ((λ e, [e.2; e.1]) <$> edits).

Lemma rolls_spec s log :
  manifest_repr s log -> rolls (ms_manifest s) =
    negb (bool_decide (is_Some (mf_current_writer (ms_manifest s)))) || (mf_max_file_size (ms_manifest s) <? length (log_bytes log)).
Proof using.
  intros Hr. unfold rolls. destruct (mf_current_writer (ms_manifest s)) as [w|] eqn:Ew; [|done].
  destruct (mr_writer _ _ Hr w Ew) as [_ ->]. by rewrite bool_decide_true by eauto.
Qed.

Lemma record_all_ok edits s log :
  manifest_repr s log -> io_all (ms_dir s) (edits_log edits) ->
  0 <= default 0 (mf_current_file_num (ms_manifest s)) ->
  default 0 (mf_current_file_num (ms_manifest s)) + length edits < 2 ^ 32 ->
  length (log_bytes (log ++ edits_log edits)) < 2 ^ 64 ->
  let log' := logs_after (mf_max_file_size (ms_manifest s)) (bool_decide (is_Some (mf_current_writer (ms_manifest s)))) log edits in
  exists s', record_all edits s = (Ok tt, s') /\ manifest_repr s' log' /\ (edits <> [] -> is_Some (mf_current_file_num (ms_manifest s'))) /\
    (dir_interrupts (ms_dir s') <= dir_interrupts (ms_dir s))%nat.
Proof using.
  revert s log. induction edits as [|[ve snap] edits IH]; intros s log Hr Hio Hn0 Hn H64 log'; [by exists s|].
  change (edits_log ((ve, snap) :: edits)) with ([snap; ve] ++ edits_log edits) in *.
  apply Forall_app in Hio as [[Hsnap [Hve _]%Forall_cons]%Forall_cons Hio].
  rewrite app_assoc, log_bytes_app, length_app in H64. cbn [length] in Hn.
  destruct (record_ok s log ve snap Hr Hve Hsnap) as (s1 & E1 & Hr1 & Hnum & Hw & Hmax & _ & Hi1); [lia|lia|lia|].
  destruct (IH s1 _ Hr1) as (s2 & E2 & Hr2 & Hsome & Hi2).
  { by eapply io_all_mono. }
  { rewrite Hnum. simpl. destruct (rolls _); lia. } { rewrite Hnum. simpl. destruct (rolls _); lia. }
  { rewrite log_bytes_app, length_app. rewrite log_bytes_app, length_app in H64.
    destruct (rolls _); [lia|]. change [snap; ve] with ([snap] ++ [ve]) in H64. rewrite log_bytes_app, length_app in H64 |- *. lia. }
  exists s2. split; [|split; [|split; [|lia]]].
  - cbn [record_all]. by st_step E1.
  - unfold log'. cbn [logs_after]. rewrite <- (rolls_spec s log Hr), <- Hmax.
    replace (bool_decide _) with true in Hr2; [exact Hr2|]. symmetry. apply bool_decide_true.
    by destruct (mf_current_writer (ms_manifest s1)); eauto.
  - intros _. destruct edits; [injection E2 as <-; rewrite Hnum; eauto|by apply Hsome].
Qed.

(** The log is made of the edits and snapshots that were recorded. *)
Lemma logs_after_sublist max opened log edits : logs_after max opened log edits `sublist_of` log ++ edits_log edits.
Proof using.
  revert opened log. induction edits as [|[ve snap] edits IH]; intros opened log; [cbn; by rewrite app_nil_r|].
  cbn [logs_after]. etrans; [apply IH|]. change (edits_log ((ve, snap) :: edits)) with ([snap; ve] ++ edits_log edits).
  rewrite app_assoc. apply sublist_app; [|done]. destruct (_ || _).
  - by apply sublist_inserts_l.
  - apply sublist_app; [done|]. by apply sublist_cons.
Qed.
Lemma log_bytes_sublist l1 l2 : l1 `sublist_of` l2 -> (length (log_bytes l1) <= length (log_bytes l2))%nat.
Proof using.
  induction 1 as [|e l1 l2 _ IH|e l1 l2 _ IH]; [done| |].
  - change (log_bytes (e :: ?l)) with (record_bytes e ++ log_bytes l). rewrite !length_app. lia.
  - change (log_bytes (e :: l2)) with (record_bytes e ++ log_bytes l2). rewrite length_app. lia.
Qed.

(** [C20] The manifest is a log: recording edits one after the other always succeeds in
    a directory that works, and afterwards both the manifest and one that is opened
    anew on the directory list exactly the edits since the last file was started,
    preceded by the snapshot that file starts with. The sizes at which files are
    started, the short reads and writes and the interrupts make no difference. *)
Theorem manifest_records_log edits s log (fuel : nat) :
  manifest_repr s log -> edits <> [] -> io_all (ms_dir s) (log ++ edits_log edits) ->
  0 <= default 0 (mf_current_file_num (ms_manifest s)) ->
  default 0 (mf_current_file_num (ms_manifest s)) + length edits < 2 ^ 32 ->
  length (log_bytes (log ++ edits_log edits)) < 2 ^ 63 -> (length log + 2 * length edits < fuel)%nat ->
  let log' := logs_after (mf_max_file_size (ms_manifest s)) (bool_decide (is_Some (mf_current_writer (ms_manifest s)))) log edits in
  exists s' m d, record_all edits s = (Ok tt, s') /\ (list_versions io_fuel fuel s').1 = Ok log' /\
    manifest_open io_fuel (ms_dir s') = (Ok m, d) /\ (list_versions io_fuel fuel (mkMState m d)).1 = Ok log'.
Proof using H0.
  intros Hr Hne Hio Hn0 Hn H63 Hfuel log'. apply Forall_app in Hio as Hio'. destruct Hio' as [_ Hio'].
  destruct (record_all_ok edits s log Hr Hio' Hn0 Hn ltac:(lia)) as (s' & E & Hr' & Hsome & Hi). fold log' in Hr'.
  destruct (Hsome Hne) as [n Hnum]. pose proof (mr_log _ _ Hr') as Hon. rewrite Hnum in Hon.
  pose proof (logs_after_sublist (mf_max_file_size (ms_manifest s)) (bool_decide (is_Some (mf_current_writer (ms_manifest s)))) log edits) as Hsub.
  fold log' in Hsub. destruct edits as [|[ve snap] edits]; [done|].
  assert (Hve : [ve] `sublist_of` log ++ edits_log ((ve, snap) :: edits)).
  { change (edits_log ((ve, snap) :: edits)) with ([snap] ++ [ve] ++ edits_log edits). rewrite app_assoc.
    apply sublist_inserts_l, sublist_inserts_r. done. }
  assert (Hio2 : io_all (ms_dir s') (log' ++ [ve])).
  { eapply io_all_mono; [exact Hi|]. unfold io_all in *. rewrite Forall_forall in *. intros e [He|He]%elem_of_app; apply Hio; by eapply elem_of_sublist. }
  assert (H64 : length (log_bytes log' ++ record_bytes ve) < 2 ^ 64).
  { apply log_bytes_sublist in Hsub, Hve. rewrite log_bytes_one in Hve. rewrite length_app. lia. }
  assert (Hrec : (0 < length (record_bytes ve))%nat) by (rewrite length_record; lia).
  assert (Hfuel' : (length log' < fuel)%nat).
  { apply sublist_length in Hsub. assert (Hl : forall es, length (edits_log es) = (2 * length es)%nat).
    { induction es as [|e es IH]; [done|]. change (edits_log (e :: es)) with ([e.2; e.1] ++ edits_log es). rewrite length_app, IH. simpl. lia. }
    rewrite length_app, Hl in Hsub. lia. }
  destruct Hon as (Hfit & Hcur & Hfile). rewrite <- (app_nil_r (log_bytes log')) in Hfile.
  destruct (list_versions_ok s' n log' ve 0 fuel Hnum Hfile Hrec H64 Hio2 Hfuel') as (d1 & L1 & _).
  destruct (manifest_open_ok (ms_dir s')) as (d' & E2 & Hd' & Hi2).
  { apply Forall_app in Hio2 as [_ [Hio2 _]%Forall_cons]. lia. } { intros c Hc. exists n. split; [done|congruence]. }
  rewrite Hcur in E2, Hd'. cbn [fmap option_fmap option_map] in E2, Hd'. rewrite le_num_u32 in E2, Hd' by done.
  destruct (list_versions_ok (mkMState (mkManifest MAX_MANIFEST_SIZE 0 (Some n) None) d') n log' ve 0 fuel) as (d2 & L2 & _); try done.
  { cbn [ms_dir]. rewrite Hd', manifest_kept by done. done. } { by eapply io_all_mono. }
  eexists s', _, d'. split; [exact E|]. split; [by rewrite L1|]. split; [exact E2|]. by rewrite L2.
Qed.
End log.

(** ** Witnesses *)

(** A codec for the witnesses: each number is a cell, lists carry their length. *)
Definition cell_encode (e : VersionEdit) : list Z :=
  match ve_file_stream e with
  | None => []
  | Some se => (length (se_new_files se) : Z) :: concat ((λ f, [nf_id f; nf_up1 f; nf_up2 f]) <$> se_new_files se) ++ se_deleted_files se
  end.
Fixpoint cell_files (n : nat) (l : list Z) : list NewFile * list Z :=
  match n, l with
  | S n, a :: b :: c :: l => let '(fs, rest) := cell_files n l in (mkNewFile a b c :: fs, rest)
  | _, l => ([], l)
  end.
Definition cell_decode (l : list Z) : option VersionEdit :=
  match l with
  | [] => Some (mkVersionEdit None)
  | n :: l => let '(fs, del) := cell_files (Z.to_nat n) l in Some (mkVersionEdit (Some (mkStreamEdit fs del)))
  end.
Definition cell_codec : EditCodec := {| edit_encode_to_vec := cell_encode; edit_decode := cell_decode |}.
#[local] Existing Instance cell_codec.
#[local] Instance cell_codec_laws : EditCodecLaws.
Proof.
  intros [[[fs del]|]]; [|done]. cbn. rewrite Nat2Z.id.
  replace (cell_files (length fs) (concat ((λ f, [nf_id f; nf_up1 f; nf_up2 f]) <$> fs) ++ del)) with (fs, del); [done|].
  induction fs as [|[a b c] fs IH]; [done|]. cbn -[concat]. cbn. by rewrite <- IH.
Defined.

Definition file_edit (new deleted : list Z) : VersionEdit :=
  mkVersionEdit (Some (mkStreamEdit (new_file_from_id <$> new) deleted)).
(** A new manifest whose files are started after 30 bytes. *)
Definition new_manifest : MState MemDir := mkMState (mkManifest 30 1 None None) (mkMemDir ∅ 2).
Definition sample_edits : list (VersionEdit * VersionEdit) :=
  [(file_edit [1] [], file_edit [] []); (file_edit [2] [], file_edit [1] []);
   (file_edit [3] [1], file_edit [1; 2] []); (file_edit [4] [], file_edit [2; 3] [1])].

Lemma manifest_records_log_witness :
  exists s' m d, record_all 1000 sample_edits new_manifest = (Ok tt, s') /\
    manifest_open 1000 (ms_dir s') = (Ok m, d) /\
    (list_versions 1000 10 (mkMState m d)).1 = Ok [file_edit [1; 2] []; file_edit [3] [1]; file_edit [4] []].
Proof.
  destruct (manifest_records_log 1000 sample_edits new_manifest [] 10) as (s' & m & d & E & _ & E2 & L).
  - constructor; [|done]. split; [done|]. split; done.
  - done.
  - apply (bool_decide_eq_true_1 _). vm_compute. reflexivity.
  - vm_compute. done.
  - vm_compute. done.
  - vm_compute. done.
  - vm_compute. lia.
  - exists s', m, d. split; [exact E|]. split; [exact E2|]. exact L.
Defined.

(** A crash in the middle of the second record, next to a temporary file. *)
Lemma manifest_reopen_witness :
  exists m d', manifest_open 1000 (mkMemDir (<[CURRENT_FILE_NAME := le_bytes 4 3]> (<[temp_name 4 := [4]]>
      {[manifest_name 3 := log_bytes [file_edit [7] []] ++ take 10 (record_bytes (file_edit [8] []))]})) 2) = (Ok m, d') /\
    md_files d' !! temp_name 4 = None /\ (list_versions 1000 10 (mkMState m d')).1 = Err Corrupted.
Proof.
  destruct (manifest_reopen 1000 (mkMemDir (<[CURRENT_FILE_NAME := le_bytes 4 3]> (<[temp_name 4 := [4]]>
      {[manifest_name 3 := log_bytes [file_edit [7] []] ++ take 10 (record_bytes (file_edit [8] []))]})) 2) 3 [file_edit [7] []]
      (file_edit [8] []) 10 10) as (m & d' & E & _ & _ & Hf & _ & _ & _ & L).
  - split; done.
  - reflexivity.
  - reflexivity.
  - vm_compute. lia.
  - vm_compute. done.
  - apply (bool_decide_eq_true_1 _). vm_compute. reflexivity.
  - vm_compute. lia.
  - exists m, d'. split; [exact E|]. split; [apply (Hf 4)|exact L].
Defined.
