(* ===== verification/SortedPage.v ===== *)
(** * Sorted pages ([page/sorted_page.rs])

    A sorted page holds, after the page header, the [u32] offsets of its items
    and then the encoded items. [SortedPageBuilder] writes one from a rewindable
    iterator; [SortedPageRef] reads the items back and searches them by binary
    search; the iterators walk a page or a range of it. [sp_repr] is the abstract
    view: the list of items a page holds. *)

From stdpp Require Import base numbers list sorting.
From Stdlib Require Import ZArith Lia.
From S2P Require Import Prelude Data Codec BasePage Iter.

(** ** Keys and values of sorted pages *)

Class SortedPageKey (K : Type) `{Ord K} `{Codec K} := {
  as_raw : K -> list Z;
  as_split_separator : K -> K;
}.

(** [Codec for &[u8]]. *)
#[global] Instance bytes_codec : Codec (list Z) := {|
  encode_size v := (4 + length v)%nat;
  encode_to v enc := enc ← put_u32 (length v) enc; put_slice v enc;
  decode_from dec := '(len, dec) ← get_u32 dec; get_slice (Z.to_nat len) dec;
|}.

#[global] Instance bytes_page_key : SortedPageKey (list Z) := {|
  as_raw k := k;
  as_split_separator k := k;
|}.

(** [Codec for Key]. *)
#[global] Instance key_codec : Codec Key := {|
  encode_size k := (encode_size (raw k) + 8)%nat;
  encode_to k enc := enc ← encode_to (raw k) enc; put_u64 (lsn k) enc;
  decode_from dec :=
    '(r, dec) ← decode_from dec;
    '(l, dec) ← get_u64 dec;
    Ok (mkKey r l, dec);
|}.

(** The separator of a versioned key comes before every version of it. *)
#[global] Instance key_page_key : SortedPageKey Key := {|
  as_raw := raw;
  as_split_separator k := mkKey (raw k) u64_max;
|}.

Definition VALUE_KIND_PUT : Z := 0.
Definition VALUE_KIND_DELETE : Z := 1.

(** [Codec for Value]: a put takes all the bytes that remain. *)
#[global] Instance value_codec : Codec Value := {|
  encode_size v := (1 + match v with Put v => length v | Delete => 0 end)%nat;
  encode_to v enc :=
    match v with
    | Put v => enc ← put_u8 VALUE_KIND_PUT enc; put_slice v enc
    | Delete => put_u8 VALUE_KIND_DELETE enc
    end;
  decode_from dec :=
    '(kind, dec) ← get_u8 dec;
    if kind =? VALUE_KIND_PUT then
      '(v, dec) ← get_slice (dec_remaining dec) dec; Ok (Put v, dec)
    else if kind =? VALUE_KIND_DELETE then Ok (Delete, dec)
    else Panic;
|}.

(** [Codec for Index]. *)
#[global] Instance index_codec : Codec Index := {|
  encode_size _ := 16%nat;
  encode_to i enc := enc ← put_u64 (idx_id i) enc; put_u64 (idx_epoch i) enc;
  decode_from dec :=
    '(id, dec) ← get_u64 dec;
    '(epoch, dec) ← get_u64 dec;
    Ok (mkIndex id epoch, dec);
|}.

(** ** [SortedPageBuf] *)

Record SortedPageBuf := mkSortedPageBuf { buf_offsets : Encoder; buf_payload : Encoder }.

Section buf.
Context {K V : Type} `{Codec K} `{Codec V}.

Definition sorted_buf_new (content : list Z) (num_items : nat) : res SortedPageBuf :=
  let offsets_size := (num_items * 4)%nat in
  if bool_decide (offsets_size <= length content)%nat then
    Ok (mkSortedPageBuf (enc_new (take offsets_size content)) (enc_new (drop offsets_size content)))
  else Panic.

Definition sorted_buf_add (kv : K * V) (b : SortedPageBuf) : res SortedPageBuf :=
  let offset := (enc_len (buf_offsets b) + enc_offset (buf_payload b))%nat in
  offsets ← put_u32 (wrap32 offset) (buf_offsets b);
  payload ← encode_to kv.1 (buf_payload b);
  payload ← encode_to kv.2 payload;
  Ok (mkSortedPageBuf offsets payload).

(** The loop [for (k, v) in iter { buf.add(k, v) }] over the items. *)
Fixpoint sorted_buf_add_all (items : list (K * V)) (b : SortedPageBuf) : res SortedPageBuf :=
  match items with
  | [] => Ok b
  | kv :: items => b ← sorted_buf_add kv b; sorted_buf_add_all items b
  end.
End buf.

(** ** [SortedPageBuilder] *)

Record SortedPageBuilder (I : Type) := mkSortedPageBuilder {
  spb_base : PageBuilder;
  spb_iter : option I;
  spb_num_items : nat;
  spb_content_size : nat;
}.
Arguments mkSortedPageBuilder {I} _ _ _ _.
Arguments spb_base {I} _.
Arguments spb_iter {I} _.
Arguments spb_num_items {I} _.
Arguments spb_content_size {I} _.

Section builder.
Context {I K V : Type} `{Codec K} `{Codec V} `{RewindableIterator I (K * V)}.

Definition spb_new (tier : PageTier) (kind : PageKind) : SortedPageBuilder I :=
  mkSortedPageBuilder (mkPageBuilder tier kind) None 0 0.

(** [with_iter]: counts the items and their encoded size; the loop over the
    iterator has [fuel]. *)
Definition spb_with_iter (fuel : nat) (it : I) (b : SortedPageBuilder I) :
    res (SortedPageBuilder I) :=
  '(items, it) ← drain (T := K * V) fuel it;
  let '(num_items, content_size) :=
    foldl (λ '(n, s) '(k, v), (S n, s + (encode_size k + encode_size v))%nat)
      (spb_num_items b, spb_content_size b) items in
  let content_size := (content_size + num_items * 4)%nat in
  _ ← rassert (content_size <=? u32_max);
  Ok (mkSortedPageBuilder (spb_base b) (Some it) num_items content_size).

Definition spb_size (b : SortedPageBuilder I) : nat := builder_size (spb_content_size b).

(** [build] into the page buffer [page]. *)
Definition spb_build (fuel : nat) (b : SortedPageBuilder I) (page : list Z) : res (list Z) :=
  _ ← rassert (bool_decide (spb_size b <= page_size page)%nat);
  page ← builder_build (spb_base b) page;
  match spb_iter b with
  | None => Ok page
  | Some it =>
      buf ← sorted_buf_new (page_content page) (spb_num_items b);
      it ← rewind it;
      '(items, _) ← drain (T := K * V) fuel it;
      buf ← sorted_buf_add_all items buf;
      Ok (set_content (enc_buf (buf_offsets buf) ++ enc_buf (buf_payload buf)) page)
  end.
End builder.

(** [with_item] and [with_slice]. *)
Definition spb_with_item {K V} `{Codec K} `{Codec V} (item : K * V)
    (b : SortedPageBuilder (ItemIter (K * V))) : res (SortedPageBuilder (ItemIter (K * V))) :=
  spb_with_iter 2 (item_iter_new item) b.
Definition spb_with_slice {K V} `{Codec K} `{Codec V} (items : list (K * V))
    (b : SortedPageBuilder (SliceIter (K * V))) : res (SortedPageBuilder (SliceIter (K * V))) :=
  spb_with_iter (S (length items)) (slice_iter_new items) b.

(** ** [SortedPageRef] *)

Record SortedPageRef (K V : Type) := mkSortedPageRef {
  sp_page : list Z;
  sp_content : list Z;
  sp_offsets : list Z;
}.
Arguments mkSortedPageRef {K V} _ _ _.
Arguments sp_page {K V} _.
Arguments sp_content {K V} _.
Arguments sp_offsets {K V} _.

Record SortedPageIter (K V : Type) := mkSortedPageIter {
  spi_page : SortedPageRef K V;
  spi_next : nat;
}.
Arguments mkSortedPageIter {K V} _ _.
Arguments spi_page {K V} _.
Arguments spi_next {K V} _.

Record SortedPageRangeIter (K V : Type) := mkSortedPageRangeIter {
  spr_page : SortedPageRef K V;
  spr_start : nat;
  spr_end : nat;
  spr_index : nat;
}.
Arguments mkSortedPageRangeIter {K V} _ _ _ _.
Arguments spr_page {K V} _.
Arguments spr_start {K V} _.
Arguments spr_end {K V} _.
Arguments spr_index {K V} _.

(** The [len] little-endian [u32]s at the start of a buffer. *)
Fixpoint u32s (len : nat) (buf : list Z) : list Z :=
  match len with
  | O => []
  | S len => le_num (take 4 buf) :: u32s len (drop 4 buf)
  end.

Section page_ref.
Context {K V : Type} `{SortedPageKey K} `{Codec V}.

(** [SortedPageRef::new]: the first offset is also the size of the offsets. *)
Definition sp_new (page : list Z) : res (SortedPageRef K V) :=
  let content := page_content page in
  offsets ←
    match content with
    | [] => Ok []
    | _ =>
        size ← slice content 0 4;
        let len := (Z.to_nat (le_num size) / 4)%nat in
        bytes ← slice content 0 (len * 4);
        Ok (u32s len bytes)
    end;
  Ok (mkSortedPageRef page content offsets).

Definition sp_len (p : SortedPageRef K V) : nat := length (sp_offsets p).

Definition sp_item_offset (p : SortedPageRef K V) (index : nat) : option nat :=
  Z.to_nat <$> sp_offsets p !! index.

Definition sp_item (p : SortedPageRef K V) (index : nat) : res (option (list Z)) :=
  match sp_item_offset p index with
  | Some offset =>
      let next_offset := default (length (sp_content p)) (sp_item_offset p (S index)) in
      s ← slice (sp_content p) offset next_offset;
      Ok (Some s)
  | None => Ok None
  end.

Definition sp_get (p : SortedPageRef K V) (index : nat) : res (option (K * V)) :=
  item ← sp_item p index;
  match item with
  | Some item =>
      '(k, dec) ← decode_from (dec_new item);
      '(v, _) ← decode_from dec;
      Ok (Some (k, v))
  | None => Ok None
  end.

(** The loop of [rank]; [inl i] is Rust's [Ok(i)] and [inr i] is [Err(i)]. *)
Fixpoint rank_loop (fuel : nat) (p : SortedPageRef K V) (target : K) (left right : nat) :
    res (nat + nat) :=
  match fuel with
  | O => Panic
  | S fuel =>
      if bool_decide (left < right)%nat then
        let mid := ((left + right) / 2)%nat in
        item ← sp_item p mid;
        item ← expect item;
        '(key, _) ← decode_from (dec_new item);
        match cmp key target with
        | Lt => rank_loop fuel p target (mid + 1) right
        | Gt => rank_loop fuel p target left mid
        | Eq => Ok (inl mid)
        end
      else Ok (inr left)
  end.

(** Every turn shortens the range, so [len + 1] turns are enough. *)
Definition sp_rank (p : SortedPageRef K V) (target : K) : res (nat + nat) :=
  rank_loop (S (sp_len p)) p target 0 (sp_len p).

Definition spr_new (p : SortedPageRef K V) (start stop : nat) : SortedPageRangeIter K V :=
  mkSortedPageRangeIter p start stop start.

Definition sp_into_split_iter (p : SortedPageRef K V) :
    res (option (K * SortedPageRangeIter K V * SortedPageRangeIter K V)) :=
  let len := sp_len p in
  mid ← sp_get p (len / 2);
  match mid with
  | Some (mid, _) =>
      let sep := as_split_separator mid in
      r ← sp_rank p sep;
      let index := match r with inl i => i | inr i => i end in
      if bool_decide (0 < index)%nat then
        Ok (Some (sep, spr_new p 0 index, spr_new p index len))
      else Ok None
  | None => Ok None
  end.

(** ** [SortedPageIter] and [SortedPageRangeIter] *)

Definition spi_new (p : SortedPageRef K V) : SortedPageIter K V := mkSortedPageIter p 0.

#[global] Instance spi_iterator : Iterator (SortedPageIter K V) (K * V) := λ it,
  item ← sp_get (spi_page it) (spi_next it);
  match item with
  | Some kv => Ok (Some kv, mkSortedPageIter (spi_page it) (spi_next it + 1))
  | None => Ok (None, it)
  end.
#[global] Instance spi_rewind : RewindableIterator (SortedPageIter K V) (K * V) := λ it,
  Ok (mkSortedPageIter (spi_page it) 0).
#[global] Instance spi_seek : SeekableIterator (SortedPageIter K V) (K * V) K := λ target it,
  r ← sp_rank (spi_page it) target;
  match r with
  | inl i => Ok (true, mkSortedPageIter (spi_page it) i)
  | inr i => Ok (false, mkSortedPageIter (spi_page it) i)
  end.

#[global] Instance spr_iterator : Iterator (SortedPageRangeIter K V) (K * V) := λ it,
  if bool_decide (spr_index it < spr_end it)%nat then
    item ← sp_get (spr_page it) (spr_index it);
    match item with
    | Some kv =>
        Ok (Some kv, mkSortedPageRangeIter (spr_page it) (spr_start it) (spr_end it)
                       (spr_index it + 1))
    | None => Ok (None, it)
    end
  else Ok (None, it).
#[global] Instance spr_rewind : RewindableIterator (SortedPageRangeIter K V) (K * V) := λ it,
  Ok (mkSortedPageRangeIter (spr_page it) (spr_start it) (spr_end it) (spr_start it)).
End page_ref.

(** ** The codecs meet their contract *)

(** Writing a piece after a piece. *)
Lemma enc_seq (f g : Encoder -> res Encoder) b1 b2 e :
  (enc_cursor e + length b1 + length b2 <= enc_len e)%nat ->
  f e = Ok (enc_put e b1) ->
  g (enc_put e b1) = Ok (enc_put (enc_put e b1) b2) ->
  (e ← f e; g e) = Ok (enc_put e (b1 ++ b2)).
Proof. intros ? -> Hg. simpl. by rewrite Hg, enc_put_app. Qed.

Lemma bytes_decode (v pre post : list Z) : fits 32 (length v) ->
  decode_from (T := list Z) (mkDecoder (pre ++ (le_bytes 4 (length v) ++ v) ++ post) (length pre))
  = Ok (v, mkDecoder (pre ++ (le_bytes 4 (length v) ++ v) ++ post)
             (length pre + encode_size v)).
Proof.
  intros Hok. cbn [decode_from bytes_codec encode_size]. unfold get_u32.
  rewrite <- (app_assoc (le_bytes 4 _)), get_int_ok by exact Hok. cbn [mbind res_bind].
  rewrite (app_assoc pre).
  replace (length pre + 4)%nat with (length (pre ++ le_bytes 4 (length v)))
    by (rewrite length_app, length_le_bytes; lia).
  rewrite get_slice_ok by lia. do 3 f_equal. rewrite length_app, length_le_bytes. lia.
Qed.

#[global] Program Instance bytes_codec_laws : CodecLaws (list Z) := {|
  codec_ok v := fits 32 (length v);
  codec_bytes v := le_bytes 4 (length v) ++ v;
|}.
Next Obligation. done. Qed.
Next Obligation.
  intros v e Hl. cbn [encode_size bytes_codec] in Hl.
  apply (enc_seq (put_u32 (length v)) (put_slice v)).
  - rewrite length_le_bytes. lia.
  - apply put_int_ok. lia.
  - apply put_slice_ok. rewrite enc_put_len; cbn [enc_put enc_cursor];
      rewrite length_le_bytes; lia.
Qed.
Next Obligation.
  intros v pre Hok. pose proof (bytes_decode v pre [] Hok) as E.
  rewrite app_nil_r in E. by eexists.
Qed.

#[global] Instance bytes_prefix : PrefixCodec (list Z).
Proof. intros v pre post Hok. by apply bytes_decode. Qed.

Lemma key_decode k pre post : fits 32 (length (raw k)) /\ fits 64 (lsn k) ->
  decode_from (T := Key) (mkDecoder (pre ++ (codec_bytes (raw k) ++ le_bytes 8 (lsn k)) ++ post) (length pre))
  = Ok (k, mkDecoder (pre ++ (codec_bytes (raw k) ++ le_bytes 8 (lsn k)) ++ post)
             (length pre + encode_size k)).
Proof.
  intros [Hr Hl]. cbn [decode_from key_codec]. rewrite <- (app_assoc (codec_bytes _)).
  rewrite (codec_prefix (raw k)) by exact Hr. cbn [mbind res_bind].
  rewrite (app_assoc pre). rewrite <- codec_size.
  replace (length pre + length (codec_bytes (raw k)))%nat
    with (length (pre ++ codec_bytes (raw k))) by (by rewrite length_app).
  unfold get_u64. rewrite get_int_ok by exact Hl. cbn [mbind res_bind].
  destruct k as [r l]; cbn [raw lsn]. do 3 f_equal.
  cbn [encode_size key_codec raw]. rewrite length_app, codec_size. lia.
Qed.

#[global] Program Instance key_codec_laws : CodecLaws Key := {|
  codec_ok k := fits 32 (length (raw k)) /\ fits 64 (lsn k);
  codec_bytes k := codec_bytes (raw k) ++ le_bytes 8 (lsn k);
|}.
Next Obligation. intros k. cbn [encode_size key_codec]. by rewrite <- codec_size, length_app. Qed.
Next Obligation.
  intros k e Hl. cbn [encode_size key_codec] in Hl. cbn [encode_to key_codec].
  apply (enc_seq (encode_to (raw k)) (put_u64 (lsn k))).
  - rewrite codec_size, length_le_bytes. lia.
  - apply codec_encode. lia.
  - apply put_int_ok. rewrite enc_put_len; cbn [enc_put enc_cursor]; rewrite codec_size; lia.
Qed.
Next Obligation.
  intros k pre Hok. pose proof (key_decode k pre [] Hok) as E.
  rewrite app_nil_r in E. by eexists.
Qed.

#[global] Instance key_prefix : PrefixCodec Key.
Proof. intros k pre post Hok. by apply key_decode. Qed.

#[global] Program Instance value_codec_laws : CodecLaws Value := {|
  codec_ok _ := True;
  codec_bytes v :=
    match v with
    | Put v => le_bytes 1 VALUE_KIND_PUT ++ v
    | Delete => le_bytes 1 VALUE_KIND_DELETE
    end;
|}.
Next Obligation. intros [v|]; done. Qed.
Next Obligation.
  intros [v|] e Hl; cbn [encode_size value_codec] in Hl; cbn [encode_to value_codec].
  - apply (enc_seq (put_u8 VALUE_KIND_PUT) (put_slice v)).
    + rewrite length_le_bytes. lia.
    + apply put_int_ok. lia.
    + apply put_slice_ok. rewrite enc_put_len; cbn [enc_put enc_cursor];
        rewrite length_le_bytes; lia.
  - apply put_int_ok. lia.
Qed.
Next Obligation.
  intros [v|] pre _; cbn [decode_from value_codec]; unfold get_u8.
  - rewrite get_int_ok by done. cbn [mbind res_bind]. rewrite Z.eqb_refl.
    unfold dec_remaining, dec_len, dec_offset; cbn [dec_buf dec_cursor].
    rewrite !length_app, length_le_bytes.
    replace (length pre + (1 + length v) - (length pre + 1))%nat with (length v) by lia.
    pose proof (get_slice_ok (pre ++ le_bytes 1 VALUE_KIND_PUT) v [] (length v) eq_refl) as E.
    rewrite app_nil_r, <- app_assoc, length_app, length_le_bytes in E. rewrite E. by eexists.
  - rewrite <- (app_nil_r (le_bytes 1 VALUE_KIND_DELETE)), get_int_ok by done. by eexists.
Qed.

#[global] Program Instance index_codec_laws : CodecLaws Index := {|
  codec_ok i := fits 64 (idx_id i) /\ fits 64 (idx_epoch i);
  codec_bytes i := le_bytes 8 (idx_id i) ++ le_bytes 8 (idx_epoch i);
|}.
Next Obligation. done. Qed.
Next Obligation.
  intros i e Hl. cbn [encode_size index_codec] in Hl. cbn [encode_to index_codec].
  apply (enc_seq (put_u64 (idx_id i)) (put_u64 (idx_epoch i))).
  - rewrite !length_le_bytes. lia.
  - apply put_int_ok. lia.
  - apply put_int_ok. rewrite enc_put_len; cbn [enc_put enc_cursor];
      rewrite length_le_bytes; lia.
Qed.
Next Obligation.
  intros [id ep] pre [Hi He]; cbn [decode_from index_codec idx_id idx_epoch] in *. unfold get_u64.
  rewrite get_int_ok by exact Hi. cbn [mbind res_bind].
  pose proof (get_int_ok (pre ++ le_bytes 8 id) [] 8 ep He) as E.
  rewrite app_nil_r, <- app_assoc, length_app, length_le_bytes in E. rewrite E. by eexists.
Qed.

(** ** What a sorted page holds *)

Section page_laws.
Context {K V : Type} `{OrdLaws K} `{!Codec K} `{!CodecLaws K} `{!PrefixCodec K}
  `{!Codec V} `{!CodecLaws V}.
Local Abbreviation T := (K * V)%type.
Implicit Types (kv : T) (l : list T) (r : SortedPageRef K V).

Definition item_bytes kv : list Z := codec_bytes kv.1 ++ codec_bytes kv.2.
Definition item_size kv : nat := (encode_size kv.1 + encode_size kv.2)%nat.
Definition item_ok kv : Prop := codec_ok kv.1 /\ codec_ok kv.2.
Definition items_bytes l : list Z := concat (item_bytes <$> l).

Fixpoint offsets_from (base : nat) l : list Z :=
  match l with
  | [] => []
  | kv :: l => Z.of_nat base :: offsets_from (base + item_size kv) l
  end.

(** The content of the page of the items. *)
Definition content_of l : list Z :=
  concat (le_bytes 4 <$> offsets_from (length l * 4) l) ++ items_bytes l.

Definition content_size l : nat := (length l * 4 + length (items_bytes l))%nat.

Definition items_ok l : Prop := Forall item_ok l /\ content_size l <= u32_max.

Definition sp_repr r l : Prop :=
  sp_content r = content_of l /\ sp_offsets r = offsets_from (length l * 4) l /\
  Forall item_ok l.

Lemma length_item_bytes kv : length (item_bytes kv) = item_size kv.
Proof. unfold item_bytes. by rewrite length_app, !codec_size. Qed.

Lemma items_bytes_cons kv l : items_bytes (kv :: l) = item_bytes kv ++ items_bytes l.
Proof. done. Qed.
Lemma items_bytes_app l1 l2 : items_bytes (l1 ++ l2) = items_bytes l1 ++ items_bytes l2.
Proof. unfold items_bytes. by rewrite fmap_app, concat_app. Qed.

Lemma length_offsets b l : length (offsets_from b l) = length l.
Proof. revert b; induction l; intros; simpl; auto. Qed.

Lemma offsets_app b l1 l2 :
  offsets_from b (l1 ++ l2) =
  offsets_from b l1 ++ offsets_from (b + length (items_bytes l1)) l2.
Proof.
  revert b; induction l1 as [|kv l1 IH]; intros b; simpl.
  - by rewrite Nat.add_0_r.
  - by rewrite IH, items_bytes_cons, length_app, length_item_bytes, Nat.add_assoc.
Qed.

Lemma length_concat_le (zs : list Z) : length (concat (le_bytes 4 <$> zs)) = (length zs * 4)%nat.
Proof.
  induction zs as [|z zs IH]; [done|]. cbn [fmap list_fmap concat length].
  rewrite length_app, IH, length_le_bytes. lia.
Qed.

Lemma length_content l : length (content_of l) = content_size l.
Proof. unfold content_of. by rewrite length_app, length_concat_le, length_offsets. Qed.

Lemma offsets_bound (b : nat) l :
  Forall (λ z, b <= z <= b + length (items_bytes l)) (offsets_from b l).
Proof.
  revert b; induction l as [|kv l IH]; intros b; simpl; constructor.
  - lia.
  - eapply Forall_impl; [apply IH|]. intros z. simpl.
    rewrite items_bytes_cons, length_app, length_item_bytes. lia.
Qed.

Lemma offsets_fit l :
  content_size l <= u32_max -> Forall (fits 32) (offsets_from (length l * 4) l).
Proof.
  unfold content_size, u32_max. intros Hs. eapply Forall_impl; [apply offsets_bound|].
  intros z. simpl. unfold fits. lia.
Qed.

Lemma u32s_concat (zs : list Z) rest :
  Forall (fits 32) zs -> u32s (length zs) (concat (le_bytes 4 <$> zs) ++ rest) = zs.
Proof.
  induction 1 as [|z zs Hz _ IH]; [done|]. cbn [length u32s fmap list_fmap concat].
  rewrite <- app_assoc.
  rewrite take_app_length' by (by rewrite length_le_bytes).
  rewrite drop_app_length' by (by rewrite length_le_bytes).
  by rewrite le_num_u32, IH.
Qed.

(** A page whose content is that of the items reads as these items. *)
Lemma sp_new_repr page l :
  page_content page = content_of l -> items_ok l ->
  exists r, sp_new page = Ok r /\ sp_repr r l /\ sp_page r = page.
Proof.
  intros Hc [Hok Hs]. unfold sp_new. rewrite Hc.
  exists (mkSortedPageRef page (content_of l) (offsets_from (length l * 4) l)).
  split; [|done]. destruct l as [|kv l']; [done|]. set (l := kv :: l') in *.
  assert (Hlen : (4 <= length (content_of l))%nat).
  { rewrite length_content. unfold content_size, l. simpl. lia. }
  destruct (content_of l) as [|b bs] eqn:E; [simpl in Hlen; lia|]. rewrite <- E in *.
  rewrite slice_ok by lia. cbn [mbind res_bind Nat.sub].
  assert (Hd : take 4 (content_of l) = le_bytes 4 (length l * 4)%nat).
  { unfold content_of, l. cbn [offsets_from fmap list_fmap concat].
    rewrite <- app_assoc, take_app_length' by (by rewrite length_le_bytes). done. }
  rewrite drop_0, Hd, le_num_u32, Nat2Z.id, Nat.div_mul by
    (try done; unfold fits, content_size, u32_max in *; lia).
  rewrite length_content in Hlen.
  rewrite slice_ok by (rewrite length_content; unfold content_size; lia).
  cbn [mbind res_bind]. do 2 f_equal. rewrite Nat.sub_0_r, drop_0. unfold content_of.
  rewrite take_app_length' by (by rewrite length_concat_le, length_offsets).
  rewrite <- (length_offsets (length l * 4) l) at 1.
  rewrite <- (app_nil_r (concat _)). apply u32s_concat. by apply offsets_fit.
Qed.

Lemma sp_len_repr r l : sp_repr r l -> sp_len r = length l.
Proof. intros (_ & Ho & _). unfold sp_len. by rewrite Ho, length_offsets. Qed.

(** The bytes of the item at an index. *)
Lemma sp_item_repr r l i :
  sp_repr r l -> sp_item r i = Ok (item_bytes <$> l !! i).
Proof.
  intros (Hc & Ho & _). unfold sp_item, sp_item_offset. rewrite Ho.
  destruct (l !! i) as [kv|] eqn:E.
  2: { rewrite (proj2 (lookup_ge_None (offsets_from _ _) i)); [done|].
       rewrite length_offsets. by apply lookup_ge_None. }
  apply list_elem_of_split_length in E as (l1 & l2 & El & ->).
  set (base := (length l * 4)%nat).
  assert (Hoff : forall j, offsets_from base l !! (length l1 + j)%nat =
    offsets_from (base + length (items_bytes l1)) (kv :: l2) !! j).
  { intros j. rewrite El, offsets_app, lookup_app_r by (rewrite length_offsets; lia).
    f_equal. rewrite length_offsets. lia. }
  pose proof (Hoff 0%nat) as H0'. rewrite Nat.add_0_r in H0'. rewrite H0'.
  pose proof (Hoff 1%nat) as H1'. rewrite Nat.add_1_r in H1'. rewrite H1'.
  cbn [offsets_from lookup list_lookup fmap option_fmap option_map].
  rewrite Nat2Z.id, Hc.
  replace (content_of l) with
    ((concat (le_bytes 4 <$> offsets_from base l) ++ items_bytes l1) ++ item_bytes kv ++ items_bytes l2).
  2: { unfold content_of. fold base. rewrite <- app_assoc. f_equal. rewrite El.
       by rewrite items_bytes_app, items_bytes_cons. }
  assert (Hb : length (concat (le_bytes 4 <$> offsets_from base l) ++ items_bytes l1)
    = (base + length (items_bytes l1))%nat)
    by (rewrite length_app, length_concat_le, length_offsets; done).
  replace (default _ _) with (base + length (items_bytes l1) + length (item_bytes kv))%nat.
  - rewrite <- Hb, slice_app. done.
  - destruct l2 as [|kv2 l2]; cbn -[le_bytes].
    + rewrite length_app, Hb. unfold items_bytes. cbn [fmap list_fmap concat].
      by rewrite app_nil_r.
    + rewrite length_item_bytes. lia.
Qed.

Lemma decode_item kv : item_ok kv ->
  exists d d', decode_from (dec_new (item_bytes kv)) = Ok (kv.1, d) /\
    decode_from d = Ok (kv.2, d').
Proof.
  intros [Hk Hv]. destruct kv as [k v]; simpl in *.
  pose proof (codec_prefix k [] (codec_bytes v) Hk) as E1. simpl in E1.
  destruct (codec_decode v (codec_bytes k) Hv) as [d' E2]. rewrite codec_size in E2.
  by exists (mkDecoder (item_bytes (k, v)) (encode_size k)), d'.
Qed.

Lemma sp_get_repr r l i : sp_repr r l -> sp_get r i = Ok (l !! i).
Proof.
  intros Hr. unfold sp_get. rewrite (sp_item_repr r l i Hr). cbn [mbind res_bind].
  destruct (l !! i) as [kv|] eqn:E; [|done]. destruct Hr as (_ & _ & Hok).
  destruct (decode_item kv) as (d & d' & Hk & Hv); [by eapply Forall_lookup_1|].
  simpl. rewrite Hk. cbn [mbind res_bind]. rewrite Hv. by destruct kv.
Qed.
(** *** Building *)

Lemma enc_put_nil e : enc_put e [] = e.
Proof. destruct e. unfold enc_put, splice; simpl. by rewrite Nat.add_0_r, take_drop. Qed.

(** Adding the items appends their offsets and their bytes. *)
Lemma sorted_buf_add_all_ok l o p :
  (enc_cursor o + length l * 4 <= enc_len o)%nat ->
  (enc_cursor p + length (items_bytes l) <= enc_len p)%nat ->
  enc_len o + enc_len p <= u32_max ->
  sorted_buf_add_all l (mkSortedPageBuf o p) =
    Ok (mkSortedPageBuf
          (enc_put o (concat (le_bytes 4 <$> offsets_from (enc_len o + enc_cursor p) l)))
          (enc_put p (items_bytes l))).
Proof.
  revert o p; induction l as [|kv l IH]; intros o p Ho Hp Hm.
  { cbn. by rewrite !enc_put_nil. }
  rewrite items_bytes_cons, length_app, length_item_bytes in Hp.
  unfold item_size in Hp. cbn [length] in Ho.
  cbn [sorted_buf_add_all]. unfold sorted_buf_add at 1. cbn [buf_offsets buf_payload].
  rewrite wrap_small by (unfold fits, u32_max, enc_offset in *; lia).
  unfold put_u32. rewrite put_int_ok by lia. cbn [mbind res_bind].
  rewrite codec_encode by lia. cbn [mbind res_bind].
  rewrite codec_encode.
  2: { rewrite enc_put_len by (rewrite codec_size; lia). cbn. rewrite codec_size. lia. }
  cbn [mbind res_bind]. rewrite enc_put_app by (rewrite !codec_size; lia).
  fold (item_bytes kv).
  assert (Hlo : enc_len (enc_put o (le_bytes 4 (enc_len o + enc_offset p)%nat)) = enc_len o)
    by (apply enc_put_len; rewrite length_le_bytes; lia).
  assert (Hlp : enc_len (enc_put p (item_bytes kv)) = enc_len p)
    by (apply enc_put_len; rewrite length_item_bytes; unfold item_size; lia).
  rewrite IH; rewrite ?Hlo, ?Hlp; cbn [enc_put enc_cursor];
    rewrite ?length_le_bytes, ?length_item_bytes; unfold item_size; try lia.
  do 2 f_equal.
  - unfold enc_offset. rewrite enc_put_app.
    + cbn [offsets_from fmap list_fmap concat]. do 4 f_equal. unfold item_size. f_equal. lia.
    + rewrite length_le_bytes, length_concat_le, length_offsets. lia.
  - by rewrite enc_put_app by (rewrite length_item_bytes; unfold item_size; lia).
Qed.

Lemma enc_put_full buf bs : length bs = length buf -> enc_buf (enc_put (enc_new buf) bs) = bs.
Proof.
  intros Hl. cbn. unfold splice. rewrite drop_ge by (simpl; lia). by rewrite app_nil_r.
Qed.

Lemma sizes_fold l n s :
  foldl (λ '(n, s) '(k, v), (S n, s + (encode_size k + encode_size v))%nat) (n, s) l
  = (n + length l, s + length (items_bytes l))%nat.
Proof.
  revert n s; induction l as [|[k v] l IH]; intros n s.
  { simpl. by rewrite !Nat.add_0_r. }
  cbn [foldl]. rewrite IH, items_bytes_cons, length_app, length_item_bytes.
  unfold item_size. cbn. f_equal; lia.
Qed.
End page_laws.

(** *** Building a page from an iterator *)

Section build_laws.
Context {I K V : Type} `{OrdLaws K} `{!Codec K} `{!CodecLaws K} `{!PrefixCodec K}
  `{!Codec V} `{!CodecLaws V} `{IterLaws I (K * V)}.
Local Abbreviation T := (K * V)%type.

(** The builder counts the items of the iterator and their encoded size. *)
Lemma spb_with_iter_ok fuel (it : I) (l : list T) tier kind :
  denotes it l l -> (length l < fuel)%nat -> content_size l <= u32_max ->
  exists b, spb_with_iter fuel it (spb_new tier kind) = Ok b /\
    spb_base b = mkPageBuilder tier kind /\ spb_num_items b = length l /\
    spb_content_size b = content_size l /\
    exists it', spb_iter b = Some it' /\ denotes it' l [].
Proof.
  intros Hd Hf Hs. destruct (drain_denotes fuel it l l Hd Hf) as (it' & Hdr & Hd').
  unfold spb_with_iter, spb_new. cbn [spb_num_items spb_content_size spb_base].
  rewrite Hdr. cbn [mbind res_bind]. rewrite sizes_fold. cbn [plus].
  replace (length (items_bytes l) + length l * 4)%nat with (content_size l)
    by (unfold content_size; lia).
  rewrite rassert_true by (by apply Z.leb_le). eexists. split; [done|].
  cbn. split_and!; [done..|]. by exists it'.
Qed.

(** Building into a page of exactly the size the builder asks for. *)
Lemma spb_build_ok fuel (it : I) (l : list T) tier kind page :
  denotes it l l -> (length l < fuel)%nat -> content_size l <= u32_max ->
  length page = builder_size (content_size l) ->
  exists b, spb_with_iter fuel it (spb_new tier kind) = Ok b /\
    spb_size b = length page /\
    spb_build fuel b page
      = Ok (page_of (built_header (mkPageBuilder tier kind)) (content_of l)).
Proof.
  intros Hd Hf Hs Hp.
  destruct (spb_with_iter_ok fuel it l tier kind Hd Hf Hs)
    as (b & Hb & Hbase & Hn & Hcs & it' & Hit & Hd').
  exists b. split; [done|]. split; [unfold spb_size; by rewrite Hcs, Hp|].
  unfold spb_build, spb_size. rewrite Hcs, Hbase, Hit, Hn.
  rewrite rassert_true by (apply bool_decide_eq_true; unfold page_size; lia).
  unfold builder_size, PAGE_HEADER_LEN in Hp. cbn [mbind res_bind].
  rewrite builder_build_ok by lia. cbn [mbind res_bind]. rewrite page_of_content.
  assert (Hc : length (page_content page) = content_size l)
    by (unfold page_content, PAGE_HEADER_LEN; rewrite length_drop; lia).
  unfold sorted_buf_new. rewrite Hc, bool_decide_true by (unfold content_size; lia).
  cbn [mbind res_bind].
  destruct (rewind_all it' l [] Hd') as (it'' & Hr & Hd''). rewrite Hr. cbn [mbind res_bind].
  destruct (drain_denotes fuel it'' l l Hd'' Hf) as (it3 & Hdr & _). rewrite Hdr.
  cbn [mbind res_bind].
  assert (Hlo : length (take (length l * 4) (page_content page)) = (length l * 4)%nat)
    by (rewrite length_take, Hc; unfold content_size; lia).
  assert (Hlp : length (drop (length l * 4) (page_content page)) = length (items_bytes l))
    by (rewrite length_drop, Hc; unfold content_size; lia).
  rewrite sorted_buf_add_all_ok; unfold enc_new, enc_len; cbn [enc_cursor enc_buf];
    rewrite ?Hlo, ?Hlp; [|lia|lia|unfold content_size in Hs; lia].
  cbn [mbind res_bind buf_offsets buf_payload]. rewrite Nat.add_0_r.
  fold (enc_new (take (length l * 4) (page_content page))).
  fold (enc_new (drop (length l * 4) (page_content page))).
  rewrite !enc_put_full by (rewrite ?length_concat_le, ?length_offsets; done).
  fold (content_of l). rewrite set_content_page_of; [done|]. by rewrite length_content.
Qed.

(** [C31] Building a sorted page and reading it back: a builder given an iterator
    over items that encode within the [u32] offsets computes the size of the page;
    building into a buffer of that size succeeds, whatever the buffer held, and
    the page read back has the tier and kind of the builder, a length equal to
    the number of items and, at every index, exactly the item at that place (and
    [None] past the end). *)
Theorem sorted_page_roundtrip fuel (it : I) (l : list T) tier kind page :
  denotes it l l -> (length l < fuel)%nat -> items_ok l ->
  length page = builder_size (content_size l) ->
  exists b p r,
    spb_with_iter fuel it (spb_new tier kind) = Ok b /\ spb_size b = length page /\
    spb_build fuel b page = Ok p /\
    page_tier p = Ok tier /\ page_kind p = Ok kind /\
    sp_new (K := K) (V := V) p = Ok r /\ sp_len r = length l /\
    forall i, sp_get r i = Ok (l !! i).
Proof.
  intros Hd Hf Hok Hp.
  destruct (spb_build_ok fuel it l tier kind page Hd Hf (proj2 Hok) Hp) as (b & Hb & Hs & Hpg).
  edestruct (sp_new_repr (page_of (built_header (mkPageBuilder tier kind)) (content_of l)) l)
    as (r & Hr & Hrep & _); [apply page_of_content|done|].
  eexists b, _, r. split_and!; [done..| | |done| |].
  - apply page_of_tier.
  - apply page_of_kind.
  - by apply sp_len_repr.
  - intros i. by apply sp_get_repr.
Qed.

(** A page larger than [u32] offsets can address is refused: counting the
    items of the iterator panics instead of building a page whose offsets wrap. *)
Lemma sorted_page_too_large fuel (it : I) (l : list T) tier kind :
  denotes it l l -> (length l < fuel)%nat -> u32_max < content_size l ->
  spb_with_iter fuel it (spb_new tier kind) = Panic.
Proof.
  intros Hd Hf Hs. destruct (drain_denotes fuel it l l Hd Hf) as (it' & Hdr & _).
  unfold spb_with_iter, spb_new. cbn [spb_num_items spb_content_size spb_base].
  rewrite Hdr. cbn [mbind res_bind]. rewrite sizes_fold. cbn [plus].
  replace (length (items_bytes l) + length l * 4)%nat with (content_size l)
    by (unfold content_size; lia).
  by rewrite (proj2 (Z.leb_gt _ _)) by lia.
Qed.
End build_laws.

Lemma sorted_page_roundtrip_witness :
  let l := [(mkKey [1; 2] 9, Put [7; 8; 9]); (mkKey [1; 2] 4, Delete); (mkKey [5] 6, Put [])] in
  exists b p r,
    spb_with_iter 4 (slice_iter_new l) (spb_new Leaf DataPage) = Ok b /\
    spb_size b = 75%nat /\ spb_build 4 b (replicate 75 255) = Ok p /\
    page_tier p = Ok Leaf /\ page_kind p = Ok DataPage /\
    sp_new (K := Key) (V := Value) p = Ok r /\ sp_len r = 3%nat /\
    forall i, sp_get r i = Ok (l !! i).
Proof.
  intros l. apply (sorted_page_roundtrip 4 (slice_iter_new l) l Leaf DataPage (replicate 75 255)).
  - done.
  - simpl. lia.
  - split; [repeat constructor; done|]. vm_compute. congruence.
  - reflexivity.
Defined.

(** ** Searching *)

Section rank_laws.
Context {K V : Type} `{OrdLaws K} `{!Codec K} `{!CodecLaws K} `{!PrefixCodec K}
  `{!Codec V} `{!CodecLaws V} `{!SortedPageKey K}.
Local Abbreviation T := (K * V)%type.
Implicit Types (kv : T) (l : list T) (r : SortedPageRef K V).

Lemma sorted_lookup l i j x y :
  key_sorted l -> l !! i = Some x -> l !! j = Some y -> (i < j)%nat -> kle x.1 y.1.
Proof. intros Hs. exact (sorted_lookup_lt _ l i j x y Hs). Qed.

Lemma strict_lookup l i j x y :
  key_strict l -> l !! i = Some x -> l !! j = Some y -> (i < j)%nat -> klt x.1 y.1.
Proof. intros Hs. exact (sorted_lookup_lt _ l i j x y Hs). Qed.

Lemma strict_sorted l : key_strict l -> key_sorted l.
Proof.
  induction 1 as [|z l _ IH Hz]; constructor; [done|].
  eapply Forall_impl; [exact Hz|]. intros x. apply klt_kle.
Qed.

(** Everything before [i] is below the target and everything from [j] on above. *)
Definition brackets (q : K) l (i j : nat) : Prop :=
  forall n kv, l !! n = Some kv ->
    ((n < i)%nat -> klt kv.1 q) /\ ((j <= n)%nat -> klt q kv.1).

Definition rank_spec (q : K) l (res : nat + nat) : Prop :=
  match res with
  | inl i => exists v, l !! i = Some (q, v)
  | inr i => (i <= length l)%nat /\ brackets q l i i
  end.

Lemma rank_loop_ok fuel r l q left right :
  sp_repr r l -> key_sorted l -> (left <= right <= length l)%nat ->
  (right - left < fuel)%nat -> brackets q l left right ->
  exists res, rank_loop fuel r q left right = Ok res /\ rank_spec q l res.
Proof.
  intros Hr Hs. revert left right; induction fuel as [|fuel IH]; intros left right Hlr Hf Hb; [lia|].
  cbn [rank_loop]. case_bool_decide as Hlt.
  2: { exists (inr left). split; [done|]. assert (left = right) as -> by lia.
       split; [lia|done]. }
  set (mid := ((left + right) / 2)%nat).
  assert (Hmid : (left <= mid < right)%nat).
  { unfold mid. split; [apply Nat.div_le_lower_bound; lia|apply Nat.Div0.div_lt_upper_bound; lia]. }
  rewrite (sp_item_repr r l mid Hr).
  destruct (lookup_lt_is_Some_2 l mid) as [kv Hkv]; [lia|]. rewrite Hkv.
  cbn [mbind res_bind fmap option_fmap option_map expect].
  destruct (decode_item kv) as (d & d' & Hk & _).
  { destruct Hr as (_ & _ & Hok). by eapply Forall_lookup_1. }
  rewrite Hk. cbn [mbind res_bind]. destruct (cmp kv.1 q) eqn:Ec.
  - exists (inl mid). split; [done|]. apply cmp_eq_iff in Ec. exists kv.2.
    rewrite Hkv, <- Ec. by destruct kv.
  - apply IH; [lia..|]. intros n x Hx. split; [|apply (Hb n x Hx)].
    intros Hn. destruct (decide (n = mid)) as [->|]; [by simplify_eq|].
    apply (kle_lt_trans _ kv.1); [|done]. eapply sorted_lookup; eauto. lia.
  - apply cmp_gt_lt in Ec. apply IH; [lia..|]. intros n x Hx. split; [apply (Hb n x Hx)|].
    intros Hn. destruct (decide (n = mid)) as [->|]; [by simplify_eq|].
    apply (klt_le_trans _ kv.1); [done|]. eapply sorted_lookup; eauto. lia.
Qed.

Lemma sp_rank_ok r l q :
  sp_repr r l -> key_sorted l -> exists res, sp_rank r q = Ok res /\ rank_spec q l res.
Proof.
  intros Hr Hs. unfold sp_rank. rewrite (sp_len_repr r l Hr).
  apply rank_loop_ok; try done; [lia..|]. intros n kv Hn.
  apply lookup_lt_Some in Hn. split; lia.
Qed.

(** With strictly ascending keys the target splits the items at the rank. *)
Lemma rank_seek_from l q res :
  key_strict l -> rank_spec q l res ->
  let i := match res with inl i => i | inr i => i end in
  (i <= length l)%nat /\ drop i l = seek_from q l /\
  Forall (λ kv, klt kv.1 q) (take i l) /\ Forall (λ kv, kle q kv.1) (drop i l) /\
  ((exists j, res = inl j) <-> q ∈ l.*1).
Proof.
  intros Hs Hr i.
  assert (Hi : (i <= length l)%nat).
  { destruct res as [j|j]; [destruct Hr as [v Hj%lookup_lt_Some]; simpl in *; lia|apply Hr]. }
  assert (Hlt : Forall (λ kv, klt kv.1 q) (take i l)).
  { apply Forall_lookup. intros n x [Hx Hn]%lookup_take_Some.
    destruct res as [j|j]; simpl in i; [|by apply (proj2 Hr n x Hx)].
    destruct Hr as [v Hj]. exact (strict_lookup l n j x (q, v) Hs Hx Hj Hn). }
  assert (Hge : Forall (λ kv, kle q kv.1) (drop i l)).
  { apply Forall_lookup. intros n x Hx. rewrite lookup_drop in Hx.
    destruct res as [j|j]; simpl in i.
    - destruct Hr as [v Hj]. destruct n as [|n].
      + unfold i in Hx. rewrite Nat.add_0_r, Hj in Hx. simplify_eq/=. apply kle_refl.
      + apply klt_kle. apply (strict_lookup l j (i + S n) (q, v) x Hs Hj Hx). lia.
    - apply klt_kle, (proj2 Hr _ x Hx). lia. }
  split_and!; [done| |done|done|].
  - unfold seek_from. rewrite <- (take_drop i l) at 2. rewrite filter_app.
    rewrite (filter_all _ (drop i l)) by done.
    rewrite (filter_none _ (take i l)); [done|].
    eapply Forall_impl; [exact Hlt|]. intros x Hx. by rewrite not_kle.
  - split.
    + intros [j ->]. destruct Hr as [v Hj]. apply list_elem_of_fmap.
      exists (q, v). split; [done|]. by eapply list_elem_of_lookup_2.
    + intros ([k v] & -> & [n Hn]%list_elem_of_lookup)%list_elem_of_fmap. simpl in *.
      destruct res as [j|j]; [by exists j|]. exfalso.
      destruct (proj2 Hr n (k, v) Hn) as [H1 H2].
      destruct (decide (n < j)%nat); [by apply (klt_irrefl k), H1|].
      apply (klt_irrefl k), H2. lia.
Qed.
(** *** The iterators over a page *)

Definition spi_denotes (it : SortedPageIter K V) (all left : list T) : Prop :=
  sp_repr (spi_page it) all /\ left = drop (spi_next it) all.

#[global] Program Instance spi_laws : IterLaws (SortedPageIter K V) T := {|
  denotes := spi_denotes;
|}.
Next Obligation.
  intros [p n] all [Hr Hl]; simpl in *. unfold next, spi_iterator; simpl.
  rewrite (sp_get_repr p all n Hr). simpl.
  destruct (all !! n) eqn:E; [by rewrite (drop_S _ _ _ E) in Hl|]. by eexists.
Qed.
Next Obligation.
  intros [p n] all x l [Hr Hl]; simpl in *. unfold next, spi_iterator; simpl.
  rewrite (sp_get_repr p all n Hr). simpl. destruct (all !! n) as [y|] eqn:E.
  - rewrite (drop_S _ _ _ E) in Hl. simplify_eq. eexists. split; [done|].
    split; [done|]. simpl. by rewrite Nat.add_1_r.
  - apply lookup_ge_None in E. by rewrite drop_ge in Hl by done.
Qed.
Next Obligation. intros [p n] all l [Hr _]. by eexists. Qed.

#[global] Instance spi_seek_laws : SeekLaws (SortedPageIter K V) K V.
Proof.
  intros q [p n] all l [Hr _] Hs. unfold seek, spi_seek. simpl in *.
  destruct (sp_rank_ok p all q Hr (strict_sorted _ Hs)) as (res & Hrk & Hspec).
  destruct (rank_seek_from all q res Hs Hspec) as (_ & Hd & _ & _ & Hin). rewrite Hrk. simpl.
  destruct res as [i|i]; do 2 eexists; (split; [done|]); (split; [|by split]).
  - split; [intros _; apply Hin; by eexists|done].
  - split; [done|]. intros [j ?]%Hin. done.
Qed.

Definition spr_denotes (it : SortedPageRangeIter K V) (all left : list T) : Prop :=
  exists items, sp_repr (spr_page it) items /\
    (spr_start it <= spr_index it)%nat /\ (spr_end it <= length items)%nat /\
    all = take (spr_end it - spr_start it) (drop (spr_start it) items) /\
    left = take (spr_end it - spr_index it) (drop (spr_index it) items).

#[global] Program Instance spr_laws : IterLaws (SortedPageRangeIter K V) T := {|
  denotes := spr_denotes;
|}.
Next Obligation.
  intros [p s e n] all (items & Hr & Hsn & He & -> & Hl); simpl in *.
  unfold next, spr_iterator; simpl.
  assert (Hr' : spr_denotes (mkSortedPageRangeIter p s e n)
    (take (e - s) (drop s items)) []) by by exists items.
  case_bool_decide as Hlt; [|by eexists].
  rewrite (sp_get_repr p items n Hr). simpl.
  destruct (items !! n) as [x|] eqn:E; [|by eexists].
  rewrite (drop_S _ _ _ E) in Hl. destruct (e - n)%nat eqn:?; [lia|done].
Qed.
Next Obligation.
  intros [p s e n] all x l (items & Hr & Hsn & He & -> & Hl); simpl in *.
  unfold next, spr_iterator; simpl. case_bool_decide as Hlt.
  2: { by replace (e - n)%nat with 0%nat in Hl by lia. }
  rewrite (sp_get_repr p items n Hr). simpl.
  destruct (lookup_lt_is_Some_2 items n) as [y E]; [lia|]. rewrite E.
  rewrite (drop_S _ _ _ E) in Hl. destruct (e - n)%nat eqn:Hen; [lia|]. simplify_eq/=.
  eexists. split; [done|]. exists items. simpl. split_and!; [done|lia|lia|done|].
  rewrite Nat.add_1_r. f_equal. lia.
Qed.
Next Obligation.
  intros [p s e n] all l (items & Hr & Hsn & He & -> & _); simpl in *.
  eexists. split; [done|]. by exists items.
Qed.

(** Binary search: on a page whose items are sorted by key, [rank] always
    returns within [len + 1] turns; [Ok i] means that the item at [i] has the
    target key, [Err i] that every item before [i] is below the target and every
    item from [i] on above it. *)
Theorem sorted_page_rank (page : list Z) l (q : K) :
  page_content page = content_of l -> items_ok l -> key_sorted l ->
  exists r res, sp_new page = Ok r /\ sp_rank r q = Ok res /\
    match res with
    | inl i => exists v, l !! i = Some (q, v)
    | inr i => (i <= length l)%nat /\ forall n kv, l !! n = Some kv ->
        ((n < i)%nat -> klt kv.1 q) /\ ((i <= n)%nat -> klt q kv.1)
    end.
Proof.
  intros Hc Hok Hs. destruct (sp_new_repr page l Hc Hok) as (r & Hn & Hr & _).
  destruct (sp_rank_ok r l q Hr Hs) as (res & Hrk & Hspec). by exists r, res.
Qed.
End rank_laws.

Lemma sorted_page_rank_witness :
  let l := [([1], mkIndex 1 1); ([3], mkIndex 3 1); ([5], mkIndex 5 1)] in
  exists r res, sp_new (page_of (mkHeader 0 Inner DataPage 1 0) (content_of l)) = Ok r /\
    sp_rank (V := Index) r [4] = Ok res /\
    match res with
    | inl i => exists v, l !! i = Some ([4], v)
    | inr i => (i <= length l)%nat /\ forall n kv, l !! n = Some kv ->
        ((n < i)%nat -> klt kv.1 [4]) /\ ((i <= n)%nat -> klt [4] kv.1)
    end.
Proof.
  intros l. apply (sorted_page_rank _ l [4]); [apply page_of_content|split|].
  - by repeat constructor.
  - vm_compute. congruence.
  - by repeat constructor.
Defined.

(** ** Splitting *)

(** The separator of a key does not come after it. *)
Class SplitKeyLaws (K : Type) `{SortedPageKey K} `{!CodecLaws K} : Prop :=
  separator_le : forall k : K, codec_ok k -> kle (as_split_separator k) k.

#[global] Instance bytes_split_laws : SplitKeyLaws (list Z).
Proof. intros k _. apply kle_refl. Qed.
#[global] Instance key_split_laws : SplitKeyLaws Key.
Proof.
  intros [r l] [_ Hl]. apply key_le_iff. right. split; [done|].
  simpl in *. unfold u64_max, fits in *. lia.
Qed.

Section split_laws.
Context {K V : Type} `{OrdLaws K} `{!Codec K} `{!CodecLaws K} `{!PrefixCodec K}
  `{!Codec V} `{!CodecLaws V} `{!SortedPageKey K} `{!SplitKeyLaws K}.
Local Abbreviation T := (K * V)%type.

(** What [into_split_iter] returns: the items before and from the separator of
    the middle key, or nothing when no item is before it. *)
Lemma sp_split_ok (r : SortedPageRef K V) (l : list T) :
  sp_repr r l -> key_strict l ->
  match l !! (length l / 2)%nat with
  | None => l = [] /\ sp_into_split_iter r = Ok None
  | Some (mid, _) =>
      let sep := as_split_separator mid in
      if decide (Forall (λ kv, kle sep kv.1) l) then sp_into_split_iter r = Ok None
      else exists left right li ri,
        sp_into_split_iter r = Ok (Some (sep, li, ri)) /\
        spr_denotes li left left /\ spr_denotes ri right right /\
        l = left ++ right /\ left <> [] /\ right <> [] /\
        Forall (λ kv, klt kv.1 sep) left /\ Forall (λ kv, kle sep kv.1) right
  end.
Proof.
  intros Hr Hs. unfold sp_into_split_iter. rewrite (sp_len_repr r l Hr).
  rewrite (sp_get_repr r l _ Hr). cbn [mbind res_bind].
  destruct (l !! (length l / 2)%nat) as [[mid v]|] eqn:Em.
  2: { split; [|done]. apply lookup_ge_None in Em. destruct l as [|x l]; [done|].
       pose proof (Nat.div_lt (length (x :: l)) 2 ltac:(simpl; lia) ltac:(lia)). lia. }
  cbv zeta. set (sep := as_split_separator mid).
  destruct (sp_rank_ok r l sep Hr (strict_sorted _ Hs)) as (res & Hrk & Hspec).
  destruct (rank_seek_from l sep res Hs Hspec) as (Hi & _ & Hlt & Hge & _).
  rewrite Hrk. cbn [mbind res_bind]. set (i := match res with inl i => i | inr i => i end) in *.
  assert (Hmid : (i <= length l / 2)%nat).
  { destruct (decide (i <= length l / 2)%nat); [done|exfalso].
    rewrite Forall_lookup in Hlt. specialize (Hlt (length l / 2)%nat (mid, v)).
    rewrite lookup_take_lt in Hlt by lia. apply (klt_irrefl mid).
    eapply klt_le_trans; [by apply Hlt|]. apply separator_le.
    destruct Hr as (_ & _ & Hok). by apply (Forall_lookup_1 _ _ _ _ Hok Em). }
  apply lookup_lt_Some in Em. case_bool_decide as Hpos; case_decide as Hall.
  - exfalso. destruct (lookup_lt_is_Some_2 l 0) as [x Hx]; [lia|].
    rewrite Forall_lookup in Hlt, Hall. apply (klt_irrefl sep).
    eapply kle_lt_trans; [by eapply Hall|]. apply (Hlt 0%nat). by rewrite lookup_take_lt.
  - exists (take i l), (drop i l), (spr_new r 0 i), (spr_new r i (length l)).
    split_and!; [done| | | | | |done|done].
    + exists l. simpl. split_and!; [done|lia|lia|by rewrite Nat.sub_0_r, drop_0..].
    + exists l. simpl. split_and!; [done|lia|lia|by rewrite take_ge by (rewrite length_drop; lia)..].
    + by rewrite take_drop.
    + intros E%(f_equal length). rewrite length_take in E. simpl in E. lia.
    + intros E%(f_equal length). rewrite length_drop in E. simpl in E. lia.
  - done.
  - exfalso. apply Hall. assert (i = 0)%nat as E by lia. by rewrite E, drop_0 in Hge.
Qed.

End split_laws.

(** Splitting a leaf page: the page is cut into two non-empty halves at the
    separator of its middle key, everything before the separator goes left and
    the rest right, and no raw key has versions on both sides; the page is not
    split exactly when it is empty or its first raw key is the middle one. *)
Theorem leaf_page_split {V} `{Codec V} `{!CodecLaws V} (page : list Z) (l : list (Key * V)) :
  page_content page = content_of l -> items_ok l -> key_strict l ->
  exists r out, sp_new page = Ok r /\ sp_into_split_iter r = Ok out /\
    match out with
    | None => l = [] \/ exists x mid, l !! 0%nat = Some x /\
        l !! (length l / 2)%nat = Some mid /\ raw x.1 = raw mid.1
    | Some (sep, li, ri) => exists left right,
        spr_denotes li left left /\ spr_denotes ri right right /\
        l = left ++ right /\ left <> [] /\ right <> [] /\
        (forall x y, x ∈ left -> y ∈ right ->
           klt x.1 sep /\ kle sep y.1 /\ klt (raw x.1) (raw y.1))
    end.
Proof.
  intros Hc Hok Hs. destruct (sp_new_repr page l Hc Hok) as (r & Hn & Hr & _).
  pose proof (sp_split_ok r l Hr Hs) as Hsp.
  destruct (l !! (length l / 2)%nat) as [[mid v]|] eqn:Em.
  2: { destruct Hsp as [-> Hsp]. exists r, None. split_and!; [done..|]. by left. }
  simpl in Hsp. case_decide as Hall.
  - exists r, None. split_and!; [done..|]. right.
    destruct (lookup_lt_is_Some_2 l 0) as [x Hx]; [apply lookup_lt_Some in Em; lia|].
    exists x, (mid, v). split_and!; [done..|]. simpl.
    rewrite Forall_lookup in Hall. pose proof (key_le_raw _ _ (Hall _ _ Hx)) as H1. simpl in H1.
    apply kle_antisym; [|done]. destruct (decide (length l / 2 = 0)%nat) as [E|E].
    { rewrite E in Em. simplify_eq. apply kle_refl. }
    apply key_le_raw, klt_kle, (strict_lookup l 0 (length l / 2) x (mid, v)); [done..|lia].
  - destruct Hsp as (left & right & li & ri & Hsp & Hli & Hri & -> & Hnl & Hnr & Hlt & Hge).
    exists r, (Some (mkKey (raw mid) u64_max, li, ri)). split_and!; [done..|].
    exists left, right. split_and!; [done..|]. intros x y Hx Hy.
    rewrite Forall_forall in Hlt, Hge. split_and!; [by apply Hlt|by apply Hge|].
    assert (Hxs : klt (raw x.1) (raw mid)).
    { apply Hlt in Hx as Hxl. apply key_lt_iff in Hxl as [?|[_ Hu]]; [done|exfalso].
      destruct Hok as [Hok _]. rewrite Forall_forall in Hok.
      destruct (Hok x) as [[_ Hf] _]; [by apply elem_of_app; left|].
      simpl in Hu. unfold fits, u64_max in *. lia. }
    eapply klt_le_trans; [exact Hxs|]. exact (key_le_raw _ _ (Hge _ Hy)).
Qed.

Lemma leaf_page_split_witness :
  let l := [(mkKey [1] 2, Put [1]); (mkKey [3] 3, Delete); (mkKey [3] 2, Put [2]); (mkKey [3] 1, Put [])] in
  exists r out, sp_new (page_of (mkHeader 0 Leaf DataPage 1 0) (content_of l)) = Ok r /\
    sp_into_split_iter (K := Key) (V := Value) r = Ok out /\
    match out with
    | None => l = [] \/ exists x mid, l !! 0%nat = Some x /\
        l !! (length l / 2)%nat = Some mid /\ raw x.1 = raw mid.1
    | Some (sep, li, ri) => exists left right,
        spr_denotes li left left /\ spr_denotes ri right right /\
        l = left ++ right /\ left <> [] /\ right <> [] /\
        (forall x y, x ∈ left -> y ∈ right ->
           klt x.1 sep /\ kle sep y.1 /\ klt (raw x.1) (raw y.1))
    end.
Proof.
  intros l. apply (leaf_page_split _ l); [apply page_of_content|split|].
  - by repeat constructor.
  - vm_compute. congruence.
  - by repeat constructor.
Defined.

(** The instance of the merging iterator the tree uses: sorted page iterators. *)
Lemma merging_seek_correct_witness :
  let l1 := [([1], mkIndex 1 1); ([5], mkIndex 5 1)] in
  let l2 := [([3], mkIndex 3 1)] in
  let it l := spi_new (mkSortedPageRef [] (content_of l) (offsets_from (length l * 4) l)) in
  exists m found m' m'',
    merging_build [it l1; it l2] = Ok m /\ seek [3] m = Ok (found, m') /\
    (found = true <-> [3] ∈ (concat [l1; l2]).*1) /\
    drain 4 m' = Ok (seek_from [3] (kmerge [l1; l2]), m'').
Proof.
  intros l1 l2 it. apply (merging_seek_correct [3] [it l1; it l2] [l1; l2]).
  - by repeat constructor.
  - by repeat constructor.
Defined.
