(* ===== verification/PageTable.v ===== *)
(** * The page table ([page_store/page_table.rs])

    The table maps page ids to page addresses in three levels of arrays that are
    installed on demand; the cell of a free id links to the next free id.
    [Loc] is the path of a cell through the levels, [cells] holds the cells that
    differ from the zeroed memory a level starts with. The compare-exchange loops
    are those of one thread: a compare-exchange fails only when the value it
    expects is not the current one. *)

From stdpp Require Import base numbers list sorting gmap.
From Stdlib Require Import ZArith Lia.
From S2P Require Import Prelude.

Definition NAN_ID : Z := 0.
Definition MIN_ID : Z := 1.

Definition FANOUT : Z := Z.shiftl 1 16.
Definition L0_LEN : Z := FANOUT.
Definition L1_LEN : Z := FANOUT - 1.
Definition L2_LEN : Z := FANOUT - 1.
Definition L0_FANOUT : Z := FANOUT.
Definition L1_FANOUT : Z := L0_FANOUT * FANOUT.
Definition L2_FANOUT : Z := L1_FANOUT * FANOUT.
Definition MAX_ID : Z := L2_FANOUT - 1.

(** The cell [LocL1 i j] is cell [j] of child [i] of level 1, and so on. *)
Inductive Loc :=
  | LocL0 (j : Z)
  | LocL1 (i j : Z)
  | LocL2 (i j k : Z).

#[global] Instance loc_eq_dec : EqDecision Loc.
Proof. solve_decision. Defined.
#[global] Instance loc_countable : Countable Loc.
Proof.
  refine (inj_countable'
    (λ l, match l with LocL0 j => inl j | LocL1 i j => inr (inl (i, j))
          | LocL2 i j k => inr (inr (i, j, k)) end)
    (λ s, match s with inl j => LocL0 j | inr (inl (i, j)) => LocL1 i j
          | inr (inr (i, j, k)) => LocL2 i j k end) _).
  by intros [].
Defined.

(** An array access [self.0[i]] of an array of [n] elements. *)
Definition arr_index (n i : Z) : res Z := if (0 <=? i) && (i <? n) then Ok i else Panic.

(** [L0::index], and [index] of the macro [define_level!] at levels 1 and 2. *)
Definition l0_index (n index : Z) : res Z := arr_index n index.
Definition l1_index (n index : Z) : res (Z * Z) :=
  i ← arr_index n (index / L0_FANOUT);
  j ← l0_index FANOUT (index mod L0_FANOUT);
  Ok (i, j).
Definition l2_index (n index : Z) : res (Z * Z * Z) :=
  i ← arr_index n (index / L1_FANOUT);
  '(j, k) ← l1_index FANOUT (index mod L1_FANOUT);
  Ok (i, j, k).

(** [Inner::index]. *)
Definition inner_index (index : Z) : res Loc :=
  if index <? L0_FANOUT then j ← l0_index L0_LEN index; Ok (LocL0 j)
  else if index <? L1_FANOUT then
    '(i, j) ← l1_index L1_LEN (index - L0_FANOUT); Ok (LocL1 i j)
  else if index <? L2_FANOUT then
    '(i, j, k) ← l2_index L2_LEN (index - L1_FANOUT); Ok (LocL2 i j k)
  else Panic.

Record Inner := mkInner { cells : gmap Loc Z; nxt : Z; free : Z }.

Definition inner_default : Inner := mkInner ∅ MIN_ID NAN_ID.

Definition load (id : Z) (t : Inner) : res Z :=
  loc ← inner_index id; Ok (default 0 (cells t !! loc)).
Definition store (id v : Z) (t : Inner) : res Inner :=
  loc ← inner_index id; Ok (mkInner (<[loc := v]> (cells t)) (nxt t) (free t)).

(** [PageTable::get], [set] and [cas]; [cas] returns [inl old] for Rust's
    [Ok(old)] and [inr actual] for [Err(actual)]. *)
Definition table_get (id : Z) (t : Inner) : res Z := load id t.
Definition table_set (id new : Z) (t : Inner) : res Inner := store id new t.
Definition table_cas (id old new : Z) (t : Inner) : res ((Z + Z) * Inner) :=
  v ← load id t;
  if v =? old then t ← store id new t; Ok (inl old, t) else Ok (inr v, t).

(** A compare-exchange on the head of the free list. *)
Definition cas_free (old new : Z) (t : Inner) : option Z * Inner :=
  if free t =? old then (None, mkInner (cells t) (nxt t) new) else (Some (free t), t).

(** [Inner::alloc]: the loop that pops the free list, then the counter. *)
Fixpoint alloc_pop (fuel : nat) (id : Z) (t : Inner) : res (Z * Inner) :=
  match fuel with
  | O => Panic
  | S fuel =>
      if id =? NAN_ID then Ok (id, t)
      else
        next ← load id t;
        match cas_free id next t with
        | (None, t) => Ok (id, t)
        | (Some actual, t) => alloc_pop fuel actual t
        end
  end.
Definition table_alloc (t : Inner) : res (option Z * Inner) :=
  '(id, t) ← alloc_pop 2 (free t) t;
  let '(id, t) :=
    if id =? NAN_ID then
      let id := nxt t in
      if id <? MAX_ID then (nxt t, mkInner (cells t) (wrap64 (nxt t + 1)) (free t)) else (id, t)
    else (id, t) in
  Ok (if id <? MAX_ID then Some id else None, t).

(** [Inner::dealloc]: the loop that pushes the id. *)
Fixpoint dealloc_push (fuel : nat) (id next : Z) (t : Inner) : res Inner :=
  match fuel with
  | O => Panic
  | S fuel =>
      t ← store id next t;
      match cas_free next id t with
      | (None, t) => Ok t
      | (Some actual, t) => dealloc_push fuel id actual t
      end
  end.
Definition table_dealloc (id : Z) (t : Inner) : res Inner := dealloc_push 2 id (free t) t.

(** ** [PageTableBuilder] *)

Record PageTableBuilder := mkPageTableBuilder { ptb_inner : Inner; ptb_max_id : Z }.

Definition ptb_default : PageTableBuilder := mkPageTableBuilder inner_default 0.
Definition ptb_get (id : Z) (b : PageTableBuilder) : res Z := load id (ptb_inner b).
Definition ptb_set (id addr : Z) (b : PageTableBuilder) : res PageTableBuilder :=
  t ← store id addr (ptb_inner b);
  Ok (mkPageTableBuilder t (Z.max (ptb_max_id b) id)).

(** The loop [for id in (MIN_ID..=max_id).rev()], from [id] down. *)
Fixpoint build_loop (id : nat) (free : Z) (t : Inner) : res (Z * Inner) :=
  match id with
  | O => Ok (free, t)
  | S id' =>
      v ← load id t;
      if v =? 0 then t ← store id free t; build_loop id' id t
      else build_loop id' free t
  end.
Definition ptb_build (b : PageTableBuilder) : res Inner :=
  '(free, t) ← build_loop (Z.to_nat (ptb_max_id b)) NAN_ID (ptb_inner b);
  Ok (mkInner (cells t) (wrap64 (ptb_max_id b + 1)) free).

(** ** The index *)

Lemma max_id_val : MAX_ID = 2 ^ 48 - 1.
Proof. reflexivity. Qed.


Definition id_ok (id : Z) : Prop := 0 <= id < L2_FANOUT.

Lemma arr_index_ok n i : 0 <= i < n -> arr_index n i = Ok i.
Proof.
  intros. unfold arr_index. by rewrite (proj2 (Z.leb_le 0 i)), (proj2 (Z.ltb_lt i n)) by lia.
Qed.

(** The path of an id, computed by the levels. *)
Definition loc_of (id : Z) : Loc :=
  if id <? L0_FANOUT then LocL0 id
  else if id <? L1_FANOUT then
    let r := id - L0_FANOUT in LocL1 (r / L0_FANOUT) (r mod L0_FANOUT)
  else
    let r := id - L1_FANOUT in
    LocL2 (r / L1_FANOUT) ((r mod L1_FANOUT) / L0_FANOUT) ((r mod L1_FANOUT) mod L0_FANOUT).

Lemma div_bound a b c : 0 < b -> 0 <= a < b * c -> 0 <= a / b < c.
Proof.
  intros Hb Ha. split; [apply Z.div_pos; lia|]. apply Z.div_lt_upper_bound; lia.
Qed.

Lemma l1_index_ok n r : 0 <= r < L0_FANOUT * n ->
  l1_index n r = Ok (r / L0_FANOUT, r mod L0_FANOUT).
Proof.
  intros Hr. unfold l1_index, l0_index. rewrite (arr_index_ok n) by (apply div_bound; [done|lia]).
  cbn [mbind res_bind]. rewrite arr_index_ok; [done|]. by apply Z.mod_pos_bound.
Qed.

Lemma inner_index_ok id : id_ok id -> inner_index id = Ok (loc_of id).
Proof.
  intros [H0 H1]. unfold inner_index, loc_of.
  destruct (id <? L0_FANOUT) eqn:E0; boolify.
  { unfold l0_index. by rewrite arr_index_ok by (split; [lia|exact E0]). }
  destruct (id <? L1_FANOUT) eqn:E1; boolify.
  { rewrite l1_index_ok; [done|]. unfold L1_LEN, L1_FANOUT, L0_FANOUT, FANOUT in *. simpl in *. lia. }
  rewrite (proj2 (Z.ltb_lt _ _)) by lia. unfold l2_index. cbv zeta.
  rewrite (arr_index_ok L2_LEN).
  2: { apply div_bound; [done|]. unfold L2_LEN, L2_FANOUT, L1_FANOUT, L0_FANOUT, FANOUT in *.
       simpl in *. lia. }
  cbn [mbind res_bind]. rewrite l1_index_ok; [done|]. by apply Z.mod_pos_bound.
Qed.

Lemma loc_of_inj a b : id_ok a -> id_ok b -> loc_of a = loc_of b -> a = b.
Proof.
  intros [Ha0 Ha] [Hb0 Hb]. unfold loc_of.
  destruct (a <? L0_FANOUT), (b <? L0_FANOUT); [by intros [= ->]|..];
    destruct (a <? L1_FANOUT), (b <? L1_FANOUT); try discriminate; intros E;
    injection E; intros.
  - pose proof (Z.div_mod (a - L0_FANOUT) L0_FANOUT ltac:(done)).
    pose proof (Z.div_mod (b - L0_FANOUT) L0_FANOUT ltac:(done)). lia.
  - pose proof (Z.div_mod (a - L1_FANOUT) L1_FANOUT ltac:(done)).
    pose proof (Z.div_mod (b - L1_FANOUT) L1_FANOUT ltac:(done)).
    pose proof (Z.div_mod ((a - L1_FANOUT) mod L1_FANOUT) L0_FANOUT ltac:(done)).
    pose proof (Z.div_mod ((b - L1_FANOUT) mod L1_FANOUT) L0_FANOUT ltac:(done)). lia.
Qed.

(** The three levels index as one array: every id below the fanout of level 2
    reaches a cell, no two ids share one, and larger ids panic. *)
Theorem page_table_index_bijective :
  (forall id, 0 <= id < L2_FANOUT -> exists loc, inner_index id = Ok loc) /\
  (forall a b loc, 0 <= a -> 0 <= b -> inner_index a = Ok loc -> inner_index b = Ok loc -> a = b) /\
  (forall id, L2_FANOUT <= id -> inner_index id = Panic).
Proof.
  assert (Hbig : forall id, L2_FANOUT <= id -> inner_index id = Panic).
  { intros id Hid. unfold inner_index.
    assert (L0_FANOUT < L2_FANOUT /\ L1_FANOUT < L2_FANOUT) as [] by done.
    by rewrite !(proj2 (Z.ltb_ge _ _)) by lia. }
  split_and!; [intros id Hid; by eexists; apply inner_index_ok| |done].
  intros a b loc Ha Hb Ea Eb.
  destruct (decide (a < L2_FANOUT)), (decide (b < L2_FANOUT));
    [|by rewrite Hbig in Eb by lia|by rewrite Hbig in Ea by lia..].
  rewrite inner_index_ok in Ea, Eb by done. simplify_eq. by apply loc_of_inj.
Qed.

(** ** Cells *)

Definition val (t : Inner) (id : Z) : Z := default 0 (cells t !! loc_of id).
Definition set_val (id v : Z) (t : Inner) : Inner :=
  mkInner (<[loc_of id := v]> (cells t)) (nxt t) (free t).

Lemma load_ok id t : id_ok id -> load id t = Ok (val t id).
Proof. intros. unfold load. by rewrite inner_index_ok. Qed.
Lemma store_ok id v t : id_ok id -> store id v t = Ok (set_val id v t).
Proof. intros. unfold store. by rewrite inner_index_ok. Qed.

Lemma val_set_same id v t : val (set_val id v t) id = v.
Proof. unfold val, set_val. simpl. by rewrite lookup_insert_eq. Qed.
Lemma val_set_other id id' v t :
  id_ok id -> id_ok id' -> id <> id' -> val (set_val id v t) id' = val t id'.
Proof.
  intros H1 H2 Hne. unfold val, set_val. simpl. rewrite lookup_insert_ne; [done|].
  intros E. by apply Hne, loc_of_inj.
Qed.

(** A compare-exchange of a page address changes the entry of this id alone,
    and only when it holds the expected address; otherwise it returns the actual
    one and changes nothing. *)
Theorem page_table_cas_spec (id old new : Z) (t : Inner) :
  id_ok id ->
  exists v, table_get id t = Ok v /\
    ((v = old /\ exists t', table_cas id old new t = Ok (inl old, t') /\
        table_get id t' = Ok new /\ nxt t' = nxt t /\ free t' = free t /\
        forall id', id_ok id' -> id' <> id -> table_get id' t' = table_get id' t)
     \/ (v <> old /\ table_cas id old new t = Ok (inr v, t))).
Proof.
  intros Hid. unfold table_get, table_cas. rewrite load_ok by done. cbn [mbind res_bind].
  eexists; split; [done|]. destruct (val t id =? old) eqn:E; boolify; [left|by right].
  split; [done|]. rewrite store_ok by done. eexists; split; [done|]. split_and!; [|done|done|].
  - rewrite load_ok by done. by rewrite val_set_same.
  - intros id' Hid' Hne. rewrite !load_ok by done. by rewrite val_set_other by done.
Qed.

Lemma page_table_cas_spec_witness :
  exists v, table_get 70000 inner_default = Ok v /\
    ((v = 0 /\ exists t', table_cas 70000 0 77 inner_default = Ok (inl 0, t') /\
        table_get 70000 t' = Ok 77 /\ nxt t' = 1 /\ free t' = 0 /\
        forall id', id_ok id' -> id' <> 70000 -> table_get id' t' = table_get id' inner_default)
     \/ (v <> 0 /\ table_cas 70000 0 77 inner_default = Ok (inr v, inner_default))).
Proof.
  apply (page_table_cas_spec 70000 0 77 inner_default).
  split; [lia|]. vm_compute. reflexivity.
Defined.

(** ** The free list *)

Inductive free_chain (t : Inner) : Z -> list Z -> Prop :=
  | free_nil : free_chain t NAN_ID []
  | free_cons id l : id <> NAN_ID -> free_chain t (val t id) l -> free_chain t id (id :: l).

(** [used] are the ids in use, [l] the free list: together they are the ids the
    counter has given out. *)
Record table_inv (t : Inner) (used : gset Z) (l : list Z) : Prop := {
  inv_chain : free_chain t (free t) l;
  inv_nodup : NoDup l;
  inv_disj : forall id, id ∈ used -> id ∉ l;
  inv_next : MIN_ID <= nxt t <= MAX_ID;
  inv_cover : forall id, MIN_ID <= id < nxt t <-> id ∈ used \/ id ∈ l;
}.

Lemma ids_ok t used l id : table_inv t used l -> id ∈ used \/ id ∈ l -> id_ok id /\ id <> NAN_ID.
Proof.
  intros Hi Hid. apply (inv_cover _ _ _ Hi) in Hid. pose proof (inv_next _ _ _ Hi).
  unfold id_ok, MAX_ID, MIN_ID, NAN_ID in *. lia.
Qed.

(** Writing the cell of an id outside the free list keeps the list. *)
Lemma free_chain_set t hd l id v :
  free_chain t hd l -> id ∉ l -> id_ok id -> Forall id_ok l ->
  free_chain (set_val id v t) hd l.
Proof.
  intros Hc. induction Hc as [|x l Hx Hc IH]; intros Hn Hid Hok; [constructor|].
  apply Forall_cons in Hok as [Hokx Hok].
  apply not_elem_of_cons in Hn as [Hne Hn]. constructor; [done|].
  rewrite val_set_other by done. by apply IH.
Qed.

Lemma free_chain_cells t t' hd l : cells t' = cells t -> free_chain t hd l -> free_chain t' hd l.
Proof.
  intros E. induction 1; constructor; [done|]. unfold val in *. by rewrite E.
Qed.

Lemma alloc_pop_ok t used l :
  table_inv t used l ->
  alloc_pop 2 (free t) t =
    Ok (match l with
        | [] => (NAN_ID, t)
        | id :: _ => (id, mkInner (cells t) (nxt t) (val t id))
        end).
Proof.
  intros Hi. pose proof (inv_chain _ _ _ Hi) as Hc. cbn [alloc_pop].
  destruct l as [|id l]; inversion Hc as [Hf|? ? Hne Hc' Hf]; subst; [done|].
  destruct (ids_ok t used (free t :: l) (free t) Hi) as [Hok _]; [set_solver|].
  rewrite (proj2 (Z.eqb_neq _ _)) by done. rewrite load_ok by done. cbn [mbind res_bind].
  unfold cas_free. by rewrite Z.eqb_refl.
Qed.

(** Setting the address of an id in use keeps the invariant. *)
Lemma table_inv_set t used l id v :
  table_inv t used l -> id ∈ used -> table_inv (set_val id v t) used l.
Proof.
  intros Hi Hid. destruct (ids_ok t used l id Hi) as [Hok _]; [by left|].
  pose proof Hi as [Hc Hn Hd Hx Hcov]. constructor; try done.
  apply free_chain_set; [done|by apply Hd|done|].
  apply Forall_forall. intros x Hxl. apply (ids_ok t used l x Hi). by right.
Qed.

(** What [alloc] does in each case. *)
Lemma table_alloc_ok t used l :
  table_inv t used l ->
  match l with
  | id :: l' => exists t', table_alloc t = Ok (Some id, t') /\
      cells t' = cells t /\ nxt t' = nxt t /\ table_inv t' ({[id]} ∪ used) l'
  | [] =>
      if nxt t <? MAX_ID then exists t', table_alloc t = Ok (Some (nxt t), t') /\
        cells t' = cells t /\ nxt t' = nxt t + 1 /\ table_inv t' ({[nxt t]} ∪ used) []
      else table_alloc t = Ok (None, t)
  end.
Proof.
  intros Hi. unfold table_alloc. rewrite (alloc_pop_ok t used l Hi).
  pose proof Hi as [Hc Hn Hd Hx Hcov]. destruct l as [|id l]; cbn [mbind res_bind].
  - rewrite Z.eqb_refl. destruct (nxt t <? MAX_ID) eqn:E; [|by rewrite E].
    rewrite E. boolify. eexists; split; [done|]. split; [done|].
    rewrite wrap_small by (unfold fits, MIN_ID in *; rewrite max_id_val in *; lia). split; [done|].
    constructor; simpl.
    + by inversion Hc; subst; constructor.
    + constructor.
    + set_solver.
    + unfold MIN_ID in *. lia.
    + intros id. rewrite elem_of_union, elem_of_singleton, elem_of_nil. specialize (Hcov id).
      rewrite elem_of_nil in Hcov.
      destruct (decide (id = nxt t)) as [->|]; [split; [by left; left|lia]|].
      split; [intros ?; left; right; naive_solver lia|].
      intros [[?|?]|[]]; [lia|]. assert (MIN_ID <= id < nxt t) by naive_solver. lia.
  - destruct (ids_ok t used (id :: l) id Hi) as [Hok Hne]; [set_solver|].
    rewrite (proj2 (Z.eqb_neq _ _)) by done.
    assert (Hlt : id < nxt t) by (apply (Hcov id); set_solver).
    rewrite (proj2 (Z.ltb_lt _ _)) by lia.
    apply NoDup_cons in Hn as [Hni Hn]. eexists; split; [done|]. split; [done|]. split; [done|].
    constructor; simpl; try done.
    + inversion Hc as [|? ? _ Hc' Hf]; subst. by apply (free_chain_cells t).
    + intros x. rewrite elem_of_union, elem_of_singleton. intros [->|Hxu]; [done|].
      apply Hd in Hxu. set_solver.
    + intros x. rewrite Hcov, elem_of_union, elem_of_singleton, elem_of_cons. naive_solver.
Qed.

Lemma table_dealloc_ok t used l id :
  table_inv t used l -> id ∈ used ->
  exists t', table_dealloc id t = Ok t' /\ table_inv t' (used ∖ {[id]}) (id :: l) /\
    forall id', id_ok id' -> id' <> id -> val t' id' = val t id'.
Proof.
  intros Hi Hid. destruct (ids_ok t used l id Hi) as [Hok Hne]; [by left|].
  unfold table_dealloc. cbn [dealloc_push]. rewrite store_ok by done. cbn [mbind res_bind].
  unfold cas_free. cbn [set_val free]. rewrite Z.eqb_refl.
  pose proof Hi as [Hc Hn Hd Hx Hcov]. eexists; split; [done|]. split.
  - constructor; simpl; try done.
    + constructor; [done|]. apply (free_chain_cells (set_val id (free t) t)); [done|].
      replace (val _ id) with (free t).
      2: { unfold val. simpl. by rewrite lookup_insert_eq. }
      apply free_chain_set; [done|by apply Hd|done|].
      apply Forall_forall. intros x Hxl. apply (ids_ok t used l x Hi). by right.
    + constructor; [by apply Hd|done].
    + intros x. rewrite elem_of_difference, elem_of_singleton, elem_of_cons.
      intros [Hxu Hxne]. apply Hd in Hxu. naive_solver.
    + intros x. rewrite Hcov, elem_of_difference, elem_of_singleton, elem_of_cons.
      destruct (decide (x = id)) as [->|]; naive_solver.
  - intros id' Hid' Hne'. exact (val_set_other id id' (free t) t Hok Hid' (not_eq_sym Hne')).
Qed.

(** Allocating a page id: with an invariant that splits the ids given out into
    those in use and the free list, [alloc] returns an id that is not in use,
    changes no address and keeps the invariant with this id in use; it returns
    [None] only when the free list is empty and the counter is at [MAX_ID]. *)
Theorem page_table_alloc_fresh (t : Inner) (used : gset Z) (l : list Z) :
  table_inv t used l ->
  exists r t', table_alloc t = Ok (r, t') /\
    (forall id, id_ok id -> table_get id t' = table_get id t) /\
    match r with
    | Some id => MIN_ID <= id < MAX_ID /\ (id ∉ used) /\
        exists l', table_inv t' ({[id]} ∪ used) l'
    | None => l = [] /\ nxt t = MAX_ID /\ table_inv t' used l
    end.
Proof.
  intros Hi. pose proof (table_alloc_ok t used l Hi) as Ha.
  pose proof (inv_next _ _ _ Hi) as Hx.
  assert (Hget : forall t' id, cells t' = cells t -> table_get id t' = table_get id t).
  { intros t' id E. unfold table_get, load. by rewrite E. }
  destruct l as [|id l].
  - destruct (nxt t <? MAX_ID) eqn:E; boolify.
    + destruct Ha as (t' & Ha & Hc & _ & Hi'). exists (Some (nxt t)), t'.
      split_and!; [done|by intros; apply Hget|lia..| |by exists []].
      intros Hin. apply or_introl with (B := nxt t ∈ @nil Z) in Hin.
      apply (inv_cover _ _ _ Hi) in Hin. lia.
    + exists None, t. split_and!; [done|done|done|lia|done].
  - destruct Ha as (t' & Ha & Hc & _ & Hi'). exists (Some id), t'.
    assert (MIN_ID <= id < nxt t) by (apply (inv_cover _ _ _ Hi); set_solver).
    split_and!; [done|by intros; apply Hget|lia..| |by exists l].
    intros Hin. apply (inv_disj _ _ _ Hi) in Hin. set_solver.
Qed.

Lemma table_inv_default : table_inv inner_default ∅ [].
Proof.
  constructor; simpl; [constructor|constructor|set_solver|vm_compute; split; congruence|].
  intros id. split; [unfold MIN_ID; lia|set_solver].
Qed.

Lemma page_table_alloc_fresh_witness :
  exists r t', table_alloc inner_default = Ok (r, t') /\
    (forall id, id_ok id -> table_get id t' = table_get id inner_default) /\
    match r with
    | Some id => MIN_ID <= id < MAX_ID /\ (id ∉ (∅ : gset Z)) /\
        exists l', table_inv t' ({[id]} ∪ ∅) l'
    | None => [] = @nil Z /\ nxt inner_default = MAX_ID /\ table_inv t' ∅ []
    end.
Proof. apply (page_table_alloc_fresh inner_default ∅ []). exact table_inv_default. Defined.

(** Deallocating an id in use makes it free without changing the address of
    any other id, and the next [alloc] returns exactly this id. *)
Theorem page_table_dealloc_reuse (t : Inner) (used : gset Z) (l : list Z) (id : Z) :
  table_inv t used l -> id ∈ used ->
  exists t' t'', table_dealloc id t = Ok t' /\ table_inv t' (used ∖ {[id]}) (id :: l) /\
    (forall id', id_ok id' -> id' <> id -> table_get id' t' = table_get id' t) /\
    table_alloc t' = Ok (Some id, t'') /\ table_inv t'' ({[id]} ∪ used ∖ {[id]}) l.
Proof.
  intros Hi Hid. destruct (table_dealloc_ok t used l id Hi Hid) as (t' & Hd & Hi' & Hv).
  destruct (table_alloc_ok t' _ _ Hi') as (t'' & Ha & _ & _ & Hi'').
  exists t', t''. split_and!; [done..| |done|done].
  intros id' Hok Hne. unfold table_get. rewrite !load_ok by done. by rewrite Hv.
Qed.

Lemma page_table_dealloc_reuse_witness :
  exists t', table_dealloc 1 (mkInner ∅ 2 0) = Ok t' /\ free t' = 1.
Proof.
  assert (Hi : table_inv (mkInner ∅ 2 0) {[1]} []).
  { constructor; simpl; [constructor|constructor|set_solver|vm_compute; split; congruence|].
    intros id. rewrite elem_of_singleton, elem_of_nil. unfold MIN_ID. lia. }
  destruct (page_table_dealloc_reuse (mkInner ∅ 2 0) {[1]} [] 1 Hi) as (t' & t'' & Hd & Hi' & _);
    [set_solver|].
  exists t'. split; [done|]. by inversion Hi' as [Hc]; inversion Hc.
Defined.

(** ** Recovery *)

Definition zeros (t : Inner) (n : nat) : list Z := base.filter (λ id, val t id = 0) (seqZ 1 n).

Lemma sorted_filter {A} (R : relation A) (P : A -> Prop) `{!forall x, Decision (P x)} l :
  StronglySorted R l -> StronglySorted R (base.filter P l).
Proof.
  induction 1 as [|x l Hs IH Hx]; [constructor|]. rewrite filter_cons.
  case_decide; [|done]. constructor; [done|]. rewrite Forall_forall in Hx |- *.
  intros y [_ Hy]%list_elem_of_filter. by apply Hx.
Qed.

Lemma seqZ_sorted a n : StronglySorted Z.lt (seqZ a n).
Proof.
  unfold seqZ. generalize (Z.to_nat n); intros k; clear n.
  generalize 0%nat; induction k as [|k IH]; intros j; [constructor|].
  simpl. constructor; [apply IH|]. apply Forall_forall.
  intros y (i & -> & Hi%elem_of_seq)%list_elem_of_fmap. lia.
Qed.

Lemma sorted_zeros t n : StronglySorted Z.lt (zeros t n).
Proof. apply sorted_filter, seqZ_sorted. Qed.

Lemma seqZ_snoc (n : nat) : seqZ 1 (S n) = seqZ 1 n ++ [Z.of_nat (S n)].
Proof.
  unfold seqZ. rewrite !Nat2Z.id, seq_S, fmap_app. f_equal. simpl. f_equal. lia.
Qed.

Lemma build_loop_ok (n : nat) fr l t :
  n <= MAX_ID -> free_chain t fr l -> Forall (λ id, n < id /\ id_ok id) l ->
  exists fr' t', build_loop n fr t = Ok (fr', t') /\
    free_chain t' fr' (zeros t n ++ l) /\ nxt t' = nxt t /\
    forall id, id_ok id -> ~ (1 <= id <= n /\ val t id = 0) -> val t' id = val t id.
Proof.
  revert fr l t; induction n as [|n IH]; intros fr l t Hn Hc Hl.
  { exists fr, t. by split_and!. }
  assert (Hid : id_ok (S n)) by (unfold id_ok, MAX_ID in *; lia).
  cbn [build_loop]. rewrite load_ok by done. cbn [mbind res_bind].
  unfold zeros. rewrite seqZ_snoc, filter_app. rewrite filter_cons, filter_nil.
  destruct (val t (S n) =? 0) eqn:E; boolify.
  - rewrite store_ok by done. cbn [mbind res_bind]. rewrite decide_True by done.
    destruct (IH (S n) (Z.of_nat (S n) :: l) (set_val (S n) fr t)) as (fr' & t' & Hb & Hc' & Hnx & Hv).
    + lia.
    + constructor; [unfold NAN_ID; lia|]. rewrite val_set_same. apply free_chain_set; [done| |done|].
      * intros Hin. rewrite Forall_forall in Hl. apply Hl in Hin. lia.
      * eapply Forall_impl; [exact Hl|]. by intros x [_ ?].
    + constructor; [split; [lia|done]|]. eapply Forall_impl; [exact Hl|]. intros x [? ?]. split; [lia|done].
    + exists fr', t'. split_and!; [done| |done|].
      * rewrite <- app_assoc. simpl.
        replace (base.filter _ (seqZ 1 n)) with (zeros (set_val (S n) fr t) n); [done|].
        unfold zeros. apply filter_ext_on. apply Forall_forall. intros x Hx%elem_of_seqZ.
        rewrite val_set_other; [done|done|unfold id_ok, MAX_ID in *; lia|lia].
      * intros id Hok Hno. rewrite Hv; [|done|].
        -- apply val_set_other; [done..|]. intros <-. apply Hno. split; [lia|done].
        -- intros [Hr Hz]. apply Hno. split; [lia|]. rewrite val_set_other in Hz by (try done; lia). done.
  - rewrite decide_False by done. rewrite app_nil_r.
    destruct (IH fr l t) as (fr' & t' & Hb & Hc' & Hnx & Hv); [lia|done| |].
    { eapply Forall_impl; [exact Hl|]. intros x [? ?]. split; [lia|done]. }
    exists fr', t'. split_and!; [done..|]. intros id Hok Hno. apply Hv; [done|].
    intros [Hr Hz]. apply Hno. split; [lia|done].
Qed.

(** The mappings of a builder, and the calls of [set] that made them. *)
Definition ptb_holds (b : PageTableBuilder) (m : gmap Z Z) : Prop :=
  nxt (ptb_inner b) = MIN_ID /\ 0 <= ptb_max_id b < MAX_ID /\
  (forall id, id_ok id -> val (ptb_inner b) id = default 0 (m !! id)) /\
  (forall id addr, m !! id = Some addr -> MIN_ID <= id <= ptb_max_id b /\ addr <> 0).

Fixpoint ptb_set_all (m : list (Z * Z)) (b : PageTableBuilder) : res PageTableBuilder :=
  match m with
  | [] => Ok b
  | (id, addr) :: m => b ← ptb_set id addr b; ptb_set_all m b
  end.

Lemma ptb_default_holds : ptb_holds ptb_default ∅.
Proof.
  split_and!; [done|done|done| |].
  - intros id _. rewrite lookup_empty. unfold val. simpl. by rewrite lookup_empty.
  - intros id addr. by rewrite lookup_empty.
Qed.

Lemma ptb_set_ok id addr b (m : gmap Z Z) :
  ptb_holds b m -> MIN_ID <= id < MAX_ID -> addr <> 0 ->
  exists b', ptb_set id addr b = Ok b' /\ ptb_holds b' (<[id := addr]> m).
Proof.
  intros (Hn & Hm & Hv & Hdom) Hid Ha. assert (Hok : id_ok id) by (unfold id_ok, MAX_ID, MIN_ID in *; lia).
  unfold ptb_set. rewrite store_ok by done. cbn [mbind res_bind]. eexists. split; [done|].
  split_and!; simpl; [done|lia|lia| |].
  - intros id' Hok'. destruct (decide (id = id')) as [->|Hne].
    + by rewrite val_set_same, lookup_insert_eq.
    + rewrite val_set_other, lookup_insert_ne by done. by apply Hv.
  - intros id' a'. rewrite lookup_insert_Some. intros [[<- <-]|[_ Hl]]; [split; [lia|done]|].
    apply Hdom in Hl as [? ?]. split; [lia|done].
Qed.
Lemma ptb_get_ok id b (m : gmap Z Z) : ptb_holds b m -> id_ok id -> ptb_get id b = Ok (default 0 (m !! id)).
Proof. intros (_ & _ & Hv & _) Hid. unfold ptb_get. rewrite load_ok by done. by rewrite Hv. Qed.

Lemma ptb_set_all_ok ms b (m : gmap Z Z) :
  ptb_holds b m -> Forall (λ p, MIN_ID <= p.1 < MAX_ID /\ p.2 <> 0) ms ->
  exists b', ptb_set_all ms b = Ok b' /\
    ptb_holds b' (foldl (λ m p, <[p.1 := p.2]> m) m ms).
Proof.
  intros Hb Hms. revert b m Hb; induction Hms as [|[id addr] ms [Hid Ha] _ IH]; intros b m Hb.
  { by exists b. }
  simpl in *. destruct (ptb_set_ok id addr b m Hb Hid Ha) as (b' & E & Hb'). rewrite E. by apply IH.
Qed.

(** Building the table from the mappings of a builder. *)
Lemma ptb_build_ok b (m : gmap Z Z) :
  ptb_holds b m ->
  exists t l, ptb_build b = Ok t /\ table_inv t (dom m) l /\ StronglySorted Z.lt l /\
    forall id addr, m !! id = Some addr -> table_get id t = Ok addr.
Proof.
  intros (Hn & Hm & Hv & Hdom).
  destruct (build_loop_ok (Z.to_nat (ptb_max_id b)) NAN_ID [] (ptb_inner b))
    as (fr & t & Hbl & Hc & Hnx & Hvt); [lia|constructor|constructor|].
  rewrite app_nil_r in Hc. rewrite Z2Nat.id in Hvt by lia.
  set (l := zeros _ _) in *.
  assert (Hl : forall id, id ∈ l <-> 1 <= id <= ptb_max_id b /\ m !! id = None).
  { intros id. unfold l, zeros. rewrite list_elem_of_filter, elem_of_seqZ, Z2Nat.id by lia.
    split.
    - intros [Hz Hr]. split; [lia|]. rewrite Hv in Hz by (unfold id_ok, MAX_ID in *; lia).
      destruct (m !! id) as [a|] eqn:E; [|done]. apply Hdom in E as [_ ?]. by simpl in Hz.
    - intros [Hr E]. split; [|lia]. rewrite Hv by (unfold id_ok, MAX_ID in *; lia). by rewrite E. }
  eexists _, l. split_and!; [unfold ptb_build; by rewrite Hbl| | |].
  - rewrite wrap_small by (unfold fits; rewrite max_id_val in *; lia).
    constructor; simpl.
    + by apply (free_chain_cells t).
    + apply NoDup_filter, NoDup_seqZ.
    + intros id Hid%elem_of_dom Hin. apply Hl in Hin as [_ E]. rewrite E in Hid. by destruct Hid.
    + unfold MIN_ID in *. lia.
    + intros id. rewrite Hl, elem_of_dom. unfold MIN_ID in *. split.
      * intros Hr. destruct (m !! id) eqn:E; [by left; eexists|right; split; [lia|done]].
      * intros [[a E]|[? _]]; [apply Hdom in E|]; lia.
  - apply sorted_zeros.
  - intros id addr E. apply Hdom in E as E'. destruct E' as [Hr Ha]. unfold MIN_ID in *.
    assert (Hok : id_ok id) by (unfold id_ok, MAX_ID in *; lia).
    unfold table_get. rewrite load_ok by done. f_equal.
    transitivity (val t id); [done|]. rewrite Hvt; [by rewrite Hv, E|done|].
    rewrite Hv, E by done. simpl. by intros [_ ?].
Qed.
(** Recovering the page table: a table built from any sequence of mappings of
    ids to addresses holds exactly the last address set for each id, has these
    ids in use, and a free list of exactly the other ids up to the largest one,
    smallest first. *)
Theorem page_table_recover (ms : list (Z * Z)) :
  Forall (λ p, MIN_ID <= p.1 < MAX_ID /\ p.2 <> 0) ms ->
  let m := foldl (λ m p, <[p.1 := p.2]> m) (∅ : gmap Z Z) ms in
  exists b t l, ptb_set_all ms ptb_default = Ok b /\ ptb_build b = Ok t /\
    table_inv t (dom m) l /\ StronglySorted Z.lt l /\
    forall id addr, m !! id = Some addr -> table_get id t = Ok addr.
Proof.
  intros Hms m. destruct (ptb_set_all_ok ms ptb_default ∅ ptb_default_holds Hms) as (b & Hb & Hh).
  fold m in Hh. destruct (ptb_build_ok b m Hh) as (t & l & Ht & Hrest). by exists b, t, l.
Qed.

Lemma page_table_recover_witness :
  exists b t l, ptb_set_all [(1, 8); (3, 24); (6, 48); (3, 32)] ptb_default = Ok b /\
    ptb_build b = Ok t /\ StronglySorted Z.lt l /\ table_get 3 t = Ok 32.
Proof.
  destruct (page_table_recover [(1, 8); (3, 24); (6, 48); (3, 32)]) as (b & t & l & Hb & Ht & _ & Hs & Hg).
  { rewrite max_id_val. unfold MIN_ID. repeat constructor; simpl; lia. }
  exists b, t, l. split_and!; [done..|]. by apply Hg.
Defined.
