(* ===== verification/WriteBuffer.v ===== *)
(** * The write buffer ([page_store/write_buffer.rs])

    A write buffer is a block of memory in which transactions allocate records:
    16 bytes of [RecordHeader], then a page or a list of deallocated page
    addresses. One atomic [u64], the packed [BufferState], counts the writers and
    the allocated bytes and holds the sealed bit. The compare-exchange loops are
    [cas_loop] over one attempt; an attempt that succeeds is one atomic step, and
    [wb_step] is the relation of the steps any number of threads can take. *)

From stdpp Require Import base numbers list sets.
From Stdlib Require Import ZArith Lia.
From S2P Require Import Prelude BasePage Iter.

(** ** [BufferState] *)

Record BufferState := mkBufferState { sealed : bool; num_writer : Z; allocated : Z }.

#[global] Instance buffer_state_eq_dec : EqDecision BufferState.
Proof. solve_decision. Defined.

Definition state_default : BufferState := mkBufferState false 0 0.

Definition state_load (val : Z) : BufferState :=
  mkBufferState (negb (Z.land val (Z.shiftl 1 63) =? 0))
    (Z.land (Z.shiftr val 32) (Z.shiftl 1 31 - 1))
    (Z.land val (Z.shiftl 1 32 - 1)).

Definition has_writer (s : BufferState) : bool := 0 <? num_writer s.
Definition is_flushable (s : BufferState) : bool := sealed s && negb (has_writer s).
Definition set_sealed (s : BufferState) : BufferState :=
  mkBufferState true (num_writer s) (allocated s).

(** [checked_add(1)] and [checked_sub(1)] on [u32]. *)
Definition inc_writer (s : BufferState) : res BufferState :=
  if num_writer s + 1 <=? u32_max then Ok (mkBufferState (sealed s) (num_writer s + 1) (allocated s))
  else Panic.
Definition dec_writer (s : BufferState) : res BufferState :=
  if 0 <=? num_writer s - 1 then Ok (mkBufferState (sealed s) (num_writer s - 1) (allocated s))
  else Panic.

Definition ALIGN : Z := 8.
Definition RECORD_HEADER_LEN : Z := 16.

Definition next_multiple_of_u32 (val multiple : Z) : Z :=
  wrap32 ((wrap32 (wrap32 (val + multiple) - 1) / multiple) * multiple).

Definition record_size (x : Z) : Z :=
  wrap32 (RECORD_HEADER_LEN + next_multiple_of_u32 x ALIGN).

(** [BufferState::alloc_size]. *)
Definition state_alloc_size (required buf_size : Z) (s : BufferState) : res (Z * BufferState) :=
  let required := next_multiple_of_u32 required ALIGN in
  if buf_size <? required then Err TooLargeSize
  else if buf_size <? wrap32 (allocated s + required) then Err Again
  else
    let offset := allocated s in
    Ok (offset, mkBufferState (sealed s) (num_writer s) (wrap32 (offset + required))).

Definition state_apply (s : BufferState) : res Z :=
  _ ← rassert (num_writer s <? Z.shiftl 1 31);
  Ok (Z.lor (Z.lor (if sealed s then Z.shiftl 1 63 else 0) (Z.shiftl (num_writer s) 32))
        (allocated s)).

(** ** Compare-exchange loops *)

(** The loop [load; loop { attempt; compare_exchange }]: [current] is the value
    last seen, [mem] the atomic. *)
Fixpoint cas_loop {A} (fuel : nat) (attempt : Z -> res (A * Z)) (current mem : Z) : res (A * Z) :=
  match fuel with
  | O => Panic
  | S fuel =>
      '(a, new) ← attempt current;
      if mem =? current then Ok (a, new) else cas_loop fuel attempt mem mem
  end.

Inductive ReleaseState := ReleaseNone | ReleaseFlush.

(** One turn of the loops of [alloc_size], [release_writer] and [seal]: the value
    returned and the new state word. *)
Definition alloc_attempt (need : Z) (acquire_writer : bool) (buf_size current : Z) : res (Z * Z) :=
  let state := state_load current in
  if sealed state then Err Again
  else
    state ← (if acquire_writer then inc_writer state else Ok state);
    '(offset, state) ← state_alloc_size need buf_size state;
    new ← state_apply state;
    Ok (offset, new).

Definition release_attempt (current : Z) : res (ReleaseState * Z) :=
  state ← dec_writer (state_load current);
  new ← state_apply state;
  Ok (if is_flushable state then ReleaseFlush else ReleaseNone, new).

Definition seal_attempt (current : Z) : res (ReleaseState * Z) :=
  let state := state_load current in
  if sealed state then Err Again
  else
    let state := set_sealed state in
    new ← state_apply state;
    Ok (if has_writer state then ReleaseNone else ReleaseFlush, new).

(** ** [WriteBuffer] *)

Record WriteBuffer := mkWriteBuffer {
  wb_group_id : Z;
  wb_buf : list Z;
  wb_buf_size : nat;
  wb_state : Z;
}.

Definition with_buf (buf : list Z) (w : WriteBuffer) : WriteBuffer :=
  mkWriteBuffer (wb_group_id w) buf (wb_buf_size w) (wb_state w).
Definition with_state (v : Z) (w : WriteBuffer) : WriteBuffer :=
  mkWriteBuffer (wb_group_id w) (wb_buf w) (wb_buf_size w) v.

(** [with_capacity]; [mem] is the block the allocator returns. *)
Definition is_power_of_two (n : nat) : bool := bool_decide (0 < n)%nat && (Z.land n (n - 1) =? 0).
Definition wb_with_capacity (group_id : Z) (size : nat) (mem : list Z) : res WriteBuffer :=
  _ ← rassert (negb (bool_decide (size <= 8)%nat));
  _ ← rassert (is_power_of_two size);
  state ← state_apply state_default;
  Ok (mkWriteBuffer group_id mem size state).

Definition wb_buffer_state (w : WriteBuffer) : BufferState := state_load (wb_state w).
Definition wb_is_flushable (w : WriteBuffer) : bool := is_flushable (wb_buffer_state w).
Definition wb_is_sealed (w : WriteBuffer) : bool := sealed (wb_buffer_state w).
Definition wb_is_empty (w : WriteBuffer) : bool := allocated (wb_buffer_state w) =? 0.

Definition wb_alloc_size (need : Z) (acquire_writer : bool) (w : WriteBuffer) : res (Z * WriteBuffer) :=
  '(offset, v) ← cas_loop 1 (alloc_attempt need acquire_writer (wrap32 (wb_buf_size w)))
    (wb_state w) (wb_state w);
  Ok (offset, with_state v w).
Definition wb_release_writer (w : WriteBuffer) : res (ReleaseState * WriteBuffer) :=
  '(r, v) ← cas_loop 1 release_attempt (wb_state w) (wb_state w);
  Ok (r, with_state v w).
Definition wb_seal (w : WriteBuffer) : res (ReleaseState * WriteBuffer) :=
  '(r, v) ← cas_loop 1 seal_attempt (wb_state w) (wb_state w);
  Ok (r, with_state v w).

(** ** Records *)

Record RecordHeader := mkRecordHeader { rh_data : Z; rh_flags : Z; rh_page_size : Z }.

Definition FLAG_NORMAL_PAGE : Z := 1.
Definition FLAG_DELETED_PAGES : Z := 2.
Definition FLAG_TOMBSTONE : Z := 128.
(** [RecordFlags::from_bits_truncate]: the bits of no flag are dropped. *)
Definition flags_truncate (f : Z) : Z :=
  Z.land f (Z.lor FLAG_NORMAL_PAGE (Z.lor FLAG_DELETED_PAGES FLAG_TOMBSTONE)).

Definition rh_record_size (h : RecordHeader) : Z := record_size (rh_page_size h).
Definition rh_is_tombstone (h : RecordHeader) : bool := rh_flags h =? FLAG_TOMBSTONE.
Definition rh_set_tombstone (h : RecordHeader) : RecordHeader :=
  mkRecordHeader (rh_data h) FLAG_TOMBSTONE (rh_page_size h).
Definition rh_set_page_id (id : Z) (h : RecordHeader) : RecordHeader :=
  mkRecordHeader id (rh_flags h) (rh_page_size h).
Definition rh_page_id (h : RecordHeader) : Z := rh_data h.

(** The layout of [RecordHeader] ([repr(C)]). *)
Definition rh_bytes (h : RecordHeader) : list Z :=
  le_bytes 8 (rh_data h) ++ le_bytes 4 (rh_flags h) ++ le_bytes 4 (rh_page_size h).

(** [record_uninit] and [record_uninit_mut]: the checks of a record offset. *)
Definition record_check (offset : Z) (w : WriteBuffer) : res nat :=
  let offset := Z.to_nat offset in
  _ ← rassert (bool_decide (offset mod 8 = 0)%nat);
  _ ← rassert (bool_decide (offset + 16 < wb_buf_size w)%nat);
  Ok offset.

(** Reading a header ([record]) and writing one through [&mut RecordHeader]. *)
Definition wb_record (offset : Z) (w : WriteBuffer) : res RecordHeader :=
  off ← record_check offset w;
  bs ← slice (wb_buf w) off (off + 16);
  Ok (mkRecordHeader (read_num bs 0 8) (read_num bs 8 4) (read_num bs 12 4)).
Definition wb_set_record (offset : Z) (h : RecordHeader) (w : WriteBuffer) : res WriteBuffer :=
  off ← record_check offset w;
  buf ← write_at (wb_buf w) off (rh_bytes h);
  Ok (with_buf buf w).

(** The memory after the header at [offset]: the body of a record. *)
Definition body_bytes (offset size : Z) (w : WriteBuffer) : res (list Z) :=
  let start := (Z.to_nat offset + 16)%nat in
  slice (wb_buf w) start (start + Z.to_nat size).

Definition page_addr_of (group_id page_offset : Z) : Z := Z.lor (Z.shiftl group_id 32) page_offset.

(** [new_page_at]: writes the header and hands out the page buffer, here its
    address and its bytes as they are. *)
Definition wb_new_page_at (offset page_id page_size : Z) (w : WriteBuffer) :
    res (Z * list Z * WriteBuffer) :=
  w ← wb_set_record offset (mkRecordHeader page_id FLAG_NORMAL_PAGE page_size) w;
  let page_offset := wrap32 (offset + RECORD_HEADER_LEN) in
  let page_addr := page_addr_of (wb_group_id w) page_offset in
  buf ← body_bytes offset page_size w;
  buf ← page_new page_offset buf;
  Ok (page_addr, buf, w).

Definition wb_alloc_page (page_id page_size : Z) (acquire_writer : bool) (w : WriteBuffer) :
    res (Z * list Z * WriteBuffer) :=
  let acquire_size := record_size page_size in
  '(offset, w) ← wb_alloc_size acquire_size acquire_writer w;
  wb_new_page_at offset page_id page_size w.

(** [dealloc_pages]: the record of the addresses; returns its offset, by which the
    header is later marked. *)
Definition wb_dealloc_pages (page_addrs : list Z) (acquire_writer : bool) (w : WriteBuffer) :
    res (Z * WriteBuffer) :=
  let dealloc_pages_size := wrap32 (length page_addrs * 8)%nat in
  let acquire_size := record_size dealloc_pages_size in
  '(offset, w) ← wb_alloc_size acquire_size acquire_writer w;
  w ← wb_set_record offset (mkRecordHeader 0 FLAG_DELETED_PAGES dealloc_pages_size) w;
  buf ← write_at (wb_buf w) (Z.to_nat offset + 16) (concat (le_bytes 8 <$> page_addrs));
  Ok (offset, with_buf buf w).

(** Writing through the [PageBuf] of the page at [addr]. *)
Definition wb_write_page (addr : Z) (page : list Z) (w : WriteBuffer) : res WriteBuffer :=
  buf ← write_at (wb_buf w) (Z.to_nat (Z.land addr (Z.shiftl 1 32 - 1))) page;
  Ok (with_buf buf w).

Inductive RecordRef :=
  | RecPage (page : list Z)
  | RecDeallocPages (addrs : list Z).

(** The [u64]s of a byte string. *)
Fixpoint u64s (len : nat) (buf : list Z) : list Z :=
  match len with
  | O => []
  | S len => le_num (take 8 buf) :: u64s len (drop 8 buf)
  end.

(** [RecordHeader::record_ref] of the header at [offset]. *)
Definition wb_record_ref (offset : Z) (h : RecordHeader) (w : WriteBuffer) : res (option RecordRef) :=
  let flags := flags_truncate (rh_flags h) in
  if flags =? FLAG_NORMAL_PAGE then
    buf ← body_bytes offset (rh_page_size h) w;
    page ← page_new (offset + RECORD_HEADER_LEN) buf;
    Ok (Some (RecPage page))
  else if flags =? FLAG_DELETED_PAGES then
    let size := rh_page_size h / 8 in
    _ ← rassert (size * 8 =? rh_page_size h);
    buf ← body_bytes offset (size * 8) w;
    Ok (Some (RecDeallocPages (u64s (Z.to_nat size) buf)))
  else Ok None.

(** [WriteBuffer::page]. *)
Definition wb_page (page_addr : Z) (w : WriteBuffer) : res (list Z) :=
  let file_id := wrap32 (Z.shiftr page_addr 32) in
  let offset := Z.land page_addr (Z.shiftl 1 32 - 1) in
  _ ← rassert (file_id =? wb_group_id w);
  _ ← rassert (offset mod ALIGN =? 0);
  _ ← rassert (RECORD_HEADER_LEN <=? offset);
  let offset := offset - RECORD_HEADER_LEN in
  header ← wb_record offset w;
  r ← wb_record_ref offset header w;
  match r with
  | Some (RecPage page) => Ok page
  | _ => Panic
  end.

(** ** [RecordIterator] *)

Record RecordIterator := mkRecordIterator { ri_buffer : WriteBuffer; ri_offset : Z }.

Definition wb_iter (w : WriteBuffer) : RecordIterator := mkRecordIterator w 0.

Fixpoint record_loop (fuel : nat) (allocated : Z) (w : WriteBuffer) (offset : Z) :
    res (option (Z * RecordHeader * RecordRef) * Z) :=
  match fuel with
  | O => Panic
  | S fuel =>
      if allocated <=? offset then Ok (None, offset)
      else
        header ← wb_record offset w;
        let next := wrap32 (offset + rh_record_size header) in
        let page_offset := wrap32 (offset + RECORD_HEADER_LEN) in
        r ← wb_record_ref offset header w;
        match r with
        | Some record_ref => Ok (Some (page_addr_of (wb_group_id w) page_offset, header, record_ref), next)
        | None => record_loop fuel allocated w next
        end
  end.

(** [RecordIterator::next]; every record takes 16 bytes or more, which bounds the
    turns. *)
Definition record_iter_next (it : RecordIterator) :
    res (option (Z * RecordHeader * RecordRef) * RecordIterator) :=
  let state := wb_buffer_state (ri_buffer it) in
  _ ← rassert (is_flushable state);
  '(r, offset) ← record_loop (S (Z.to_nat (allocated state))) (allocated state)
    (ri_buffer it) (ri_offset it);
  Ok (r, mkRecordIterator (ri_buffer it) offset).

(** ** The packed state word *)

Definition state_ok (s : BufferState) : Prop := fits 31 (num_writer s) /\ fits 32 (allocated s).

Definition pack (s : BufferState) : Z :=
  (if sealed s then 2 ^ 63 else 0) + num_writer s * 2 ^ 32 + allocated s.

(** A shifted value and a value below the shift do not overlap. *)
Lemma lor_shiftl_add x y k : 0 <= k -> 0 <= y < 2 ^ k -> Z.lor (Z.shiftl x k) y = x * 2 ^ k + y.
Proof.
  intros Hk Hy. assert (Hd : Z.land (Z.shiftl x k) y = 0).
  { apply Z.bits_inj'. intros n Hn. rewrite Z.land_spec, Z.bits_0.
    destruct (decide (n < k)); [by rewrite Z.shiftl_spec_low|].
    destruct (decide (y = 0)) as [->|]; [by rewrite Z.bits_0, andb_false_r|].
    rewrite (Z.bits_above_log2 y), andb_false_r; [done|lia|].
    apply Z.log2_lt_pow2; [lia|]. eapply Z.lt_le_trans; [apply Hy|].
    apply Z.pow_le_mono_r; lia. }
  rewrite <- Z.lxor_lor, <- Z.add_nocarry_lxor by done. by rewrite Z.shiftl_mul_pow2.
Qed.

Lemma land_bit63 v : (Z.land v (Z.shiftl 1 63) =? 0) = negb (Z.testbit v 63).
Proof.
  destruct (Z.testbit v 63) eqn:E; simpl.
  - apply Z.eqb_neq. intros H0. assert (Hb : Z.testbit (Z.land v (Z.shiftl 1 63)) 63 = false)
      by (by rewrite H0, Z.bits_0).
    rewrite Z.land_spec, E in Hb. vm_compute in Hb. done.
  - apply Z.eqb_eq, Z.bits_inj'. intros n Hn. rewrite Z.land_spec, Z.bits_0.
    destruct (decide (n = 63)) as [->|Hne]; [by rewrite E|].
    change (Z.shiftl 1 63) with (2 ^ 63). rewrite Z.pow2_bits_false by lia. apply andb_false_r.
Qed.

Lemma state_apply_ok s : state_ok s -> state_apply s = Ok (pack s).
Proof.
  destruct s as [se n a]. intros [Hn Ha]; simpl in *. unfold state_apply, pack; simpl sealed;
    simpl num_writer; simpl allocated.
  rewrite rassert_true by (apply Z.ltb_lt; apply Hn). cbn [mbind res_bind]. f_equal.
  unfold fits in *. rewrite <- Z.lor_assoc, (lor_shiftl_add n) by lia.
  assert (0 <= n * 2 ^ 32 + a < 2 ^ 63) by lia.
  destruct se; [rewrite lor_shiftl_add by lia; lia|rewrite Z.lor_0_l; lia].
Qed.

Lemma state_load_pack s : state_ok s -> state_load (pack s) = s.
Proof.
  destruct s as [se n a]. intros [Hn Ha]; unfold fits in *; simpl in *. unfold state_load.
  set (v := pack _).
  assert (Hv : v = (if se then 2 ^ 63 else 0) + n * 2 ^ 32 + a) by done.
  f_equal.
  - rewrite land_bit63, negb_involutive, Z.testbit_odd, Z.shiftr_div_pow2 by lia.
    replace (v / 2 ^ 63) with (if se then 1 else 0); [by destruct se|].
    rewrite Hv. destruct se; [|symmetry; apply Z.div_small; lia].
    replace (2 ^ 63 + n * 2 ^ 32 + a) with (n * 2 ^ 32 + a + 1 * 2 ^ 63) by lia.
    rewrite Z.div_add by lia. rewrite (Z.div_small (n * 2 ^ 32 + a)) by lia. done.
  - change (Z.shiftl 1 31 - 1) with (Z.ones 31). rewrite Z.land_ones, Z.shiftr_div_pow2 by lia.
    replace (v / 2 ^ 32) with (n + (if se then 1 else 0) * 2 ^ 31).
    2: { rewrite Hv. destruct se.
         - replace (2 ^ 63 + n * 2 ^ 32 + a) with (a + (n + 1 * 2 ^ 31) * 2 ^ 32) by lia.
           rewrite Z.div_add by lia. rewrite (Z.div_small a) by lia. lia.
         - replace (0 + n * 2 ^ 32 + a) with (a + n * 2 ^ 32) by lia.
           rewrite Z.div_add by lia. rewrite (Z.div_small a) by lia. lia. }
    rewrite Z.mod_add by lia. apply Z.mod_small. lia.
  - change (Z.shiftl 1 32 - 1) with (Z.ones 32). rewrite Z.land_ones by lia. rewrite Hv.
    replace (_ + n * 2 ^ 32 + a) with (a + (n + (if se then 2 ^ 31 else 0)) * 2 ^ 32)
      by (destruct se; lia).
    rewrite Z.mod_add by lia. apply Z.mod_small. lia.
Qed.

Lemma state_load_ok v : 0 <= v -> state_ok (state_load v).
Proof.
  intros Hv. split; simpl.
  - change (Z.shiftl 1 31 - 1) with (Z.ones 31). rewrite Z.land_ones by lia.
    apply Z.mod_pos_bound. lia.
  - change (Z.shiftl 1 32 - 1) with (Z.ones 32). rewrite Z.land_ones by lia.
    apply Z.mod_pos_bound. lia.
Qed.

(** The packed state word: packing a state whose counters fit and unpacking
    the word gives the state back, so the sealed bit, the writers and the
    allocated bytes never run into each other; more writers than 31 bits hold
    panic. *)
Theorem buffer_state_roundtrip (s : BufferState) :
  0 <= num_writer s -> fits 32 (allocated s) ->
  (num_writer s < 2 ^ 31 /\ exists v, state_apply s = Ok v /\ fits 64 v /\ state_load v = s) \/
  (2 ^ 31 <= num_writer s /\ state_apply s = Panic).
Proof.
  intros Hn Ha. destruct (decide (num_writer s < 2 ^ 31)); [left|right; split; [lia|]].
  - assert (Hok : state_ok s) by (split; [unfold fits; lia|done]).
    split; [done|]. exists (pack s). split_and!; [by apply state_apply_ok| |by apply state_load_pack].
    destruct s as [se n a]. unfold pack, fits in *; simpl in *. destruct se; lia.
  - unfold state_apply. change (Z.shiftl 1 31) with (2 ^ 31).
    by rewrite (proj2 (Z.ltb_ge _ _)) by lia.
Qed.

Lemma buffer_state_roundtrip_witness :
  let s := mkBufferState true 3 4096 in
  (num_writer s < 2 ^ 31 /\ exists v, state_apply s = Ok v /\ fits 64 v /\ state_load v = s) \/
  (2 ^ 31 <= num_writer s /\ state_apply s = Panic).
Proof.
  intros s. apply (buffer_state_roundtrip s); unfold fits; simpl; lia.
Defined.

(** ** Sizes *)

Definition align8 (x : Z) : Z := (x + 7) / 8 * 8.

Lemma align8_bounds x : x <= align8 x < x + 8 /\ align8 x mod 8 = 0.
Proof. unfold align8. split; [|by apply Z.mod_mul]. pose proof (Z.div_mod (x + 7) 8). 
  pose proof (Z.mod_pos_bound (x + 7) 8). lia. Qed.

Lemma align8_aligned x : x mod 8 = 0 -> align8 x = x.
Proof. intros Hx. unfold align8. pose proof (Z.div_mod x 8).
  replace (x + 7) with (7 + x / 8 * 8) by lia. rewrite Z.div_add by lia.
  change (7 / 8) with 0. lia. Qed.

Lemma next_multiple_ok x : 0 <= x <= 2 ^ 32 - 8 -> next_multiple_of_u32 x ALIGN = align8 x.
Proof.
  intros Hx. unfold next_multiple_of_u32, ALIGN.
  destruct (decide (x = 2 ^ 32 - 8)) as [->|]; [reflexivity|].
  rewrite (wrap_small 32 (x + 8)) by (unfold fits; lia).
  rewrite (wrap_small 32 (x + 8 - 1)) by (unfold fits; lia).
  replace (x + 8 - 1) with (x + 7) by lia. fold (align8 x).
  pose proof (align8_bounds x). apply wrap_small. unfold fits. lia.
Qed.

Lemma record_size_ok x : 0 <= x <= 2 ^ 32 - 24 ->
  record_size x = 16 + align8 x /\ record_size x mod 8 = 0.
Proof.
  intros Hx. unfold record_size, RECORD_HEADER_LEN. rewrite next_multiple_ok by lia.
  pose proof (align8_bounds x) as [? Hm].
  assert (align8 x <= 2 ^ 32 - 24).
  { unfold align8. pose proof (Z.div_mod (x + 7) 8).
    assert ((x + 7) / 8 <= (2 ^ 32 - 24 + 7) / 8) by (apply Z.div_le_mono; lia).
    change ((2 ^ 32 - 24 + 7) / 8) with (2 ^ 29 - 3) in *. lia. }
  rewrite wrap_small by (unfold fits; lia). split; [done|].
  rewrite Z.add_mod, Hm by lia. done.
Qed.

(** ** What one atomic step does *)

Definition add_alloc (need : Z) (acq : bool) (s : BufferState) : BufferState :=
  mkBufferState (sealed s) (num_writer s + (if acq then 1 else 0)) (allocated s + need).
Definition sub_writer (s : BufferState) : BufferState :=
  mkBufferState (sealed s) (num_writer s - 1) (allocated s).

Section attempts.
Context (bs : Z) (Hbs : 0 <= bs < 2 ^ 31).

(** The state of a buffer of size [bs]. *)
Definition buf_ok (s : BufferState) : Prop := state_ok s /\ allocated s <= bs.

Lemma buf_ok_load v s : v = pack s -> buf_ok s -> state_load v = s.
Proof. intros -> [Hok _]. by apply state_load_pack. Qed.

(** Every outcome of an attempt to allocate an aligned size. *)
Lemma alloc_attempt_spec need acq s :
  buf_ok s -> need mod 8 = 0 -> 0 <= need <= 2 ^ 32 - 8 ->
  alloc_attempt need acq bs (pack s) =
    if sealed s then Err Again
    else if bs <? need then Err TooLargeSize
    else if bs <? allocated s + need then Err Again
    else if acq && (num_writer s =? 2 ^ 31 - 1) then Panic
    else Ok (allocated s, pack (add_alloc need acq s)).
Proof.
  intros [Hok Hle] Hm Hn. unfold alloc_attempt. rewrite state_load_pack by done.
  destruct (sealed s) eqn:Es; [done|].
  assert (Hw : (if acq then inc_writer s else Ok s) = Ok (add_alloc 0 acq s)).
  { destruct Hok as [Hw _]. unfold fits in Hw. unfold add_alloc. destruct acq.
    - unfold inc_writer. rewrite (proj2 (Z.leb_le _ _)) by (unfold u32_max; lia).
      by rewrite Z.add_0_r.
    - rewrite !Z.add_0_r. by destruct s. }
  rewrite Hw. cbn [mbind res_bind]. unfold state_alloc_size.
  rewrite next_multiple_ok, align8_aligned by done.
  destruct (bs <? need) eqn:E1; [done|]. boolify. cbn [add_alloc allocated].
  destruct Hok as [Hw' Ha]. unfold fits in *. rewrite Z.add_0_r.
  rewrite (wrap_small 32 (allocated s + need)) by (unfold fits; lia).
  destruct (bs <? allocated s + need) eqn:E2; [done|]. boolify.
  cbn [mbind res_bind sealed num_writer].
  destruct (acq && (num_writer s =? 2 ^ 31 - 1)) eqn:E3.
  - boolify. unfold state_apply. cbn [num_writer add_alloc]. subst acq.
    by rewrite (proj2 (Z.ltb_ge _ _)) by (change (Z.shiftl 1 31) with (2 ^ 31); lia).
  - rewrite state_apply_ok; [done|]. split; unfold fits; simpl; [|lia].
    destruct acq; simpl in E3; boolify; lia.
Qed.

Lemma release_attempt_spec s :
  buf_ok s ->
  release_attempt (pack s) =
    if num_writer s =? 0 then Panic
    else Ok (if is_flushable (sub_writer s) then ReleaseFlush else ReleaseNone, pack (sub_writer s)).
Proof.
  intros [Hok Hle]. unfold release_attempt. rewrite state_load_pack by done.
  unfold dec_writer. destruct Hok as [Hw Ha]. unfold fits in *.
  destruct (num_writer s =? 0) eqn:E; boolify.
  - by rewrite (proj2 (Z.leb_gt _ _)) by lia.
  - rewrite (proj2 (Z.leb_le _ _)) by lia. cbn [mbind res_bind]. fold (sub_writer s).
    rewrite state_apply_ok; [done|]. split; unfold fits; simpl; lia.
Qed.

Lemma seal_attempt_spec s :
  buf_ok s ->
  seal_attempt (pack s) =
    if sealed s then Err Again
    else Ok (if has_writer s then ReleaseNone else ReleaseFlush, pack (set_sealed s)).
Proof.
  intros [Hok Hle]. unfold seal_attempt. rewrite state_load_pack by done.
  destruct (sealed s); [done|]. by rewrite state_apply_ok.
Qed.
End attempts.

(** ** Any interleaving of writers and sealers *)

Inductive BufEvent :=
  | EvAlloc (offset need : Z) (acquire : bool)
  | EvRelease (r : ReleaseState)
  | EvSeal (r : ReleaseState).

(** One successful compare-exchange on the state word of a buffer of [bs] bytes. *)
Inductive wb_step (bs : Z) : Z -> BufEvent -> Z -> Prop :=
  | step_alloc v need acq off v' :
      need mod 8 = 0 -> 0 <= need <= 2 ^ 32 - 8 ->
      alloc_attempt need acq bs v = Ok (off, v') -> wb_step bs v (EvAlloc off need acq) v'
  | step_release v r v' : release_attempt v = Ok (r, v') -> wb_step bs v (EvRelease r) v'
  | step_seal v r v' : seal_attempt v = Ok (r, v') -> wb_step bs v (EvSeal r) v'.

(** The words a fresh buffer can reach, with the events that led there. *)
Inductive wb_trace (bs : Z) : list BufEvent -> Z -> Prop :=
  | trace_nil : wb_trace bs [] 0
  | trace_snoc es v e v' : wb_trace bs es v -> wb_step bs v e v' -> wb_trace bs (es ++ [e]) v'.

Definition is_flush (e : BufEvent) : Prop := e = EvRelease ReleaseFlush \/ e = EvSeal ReleaseFlush.

(** The regions handed out, from an offset on: one after the other. *)
Fixpoint regions_from (off : Z) (es : list BufEvent) : Prop :=
  match es with
  | [] => True
  | EvAlloc o need _ :: es => o = off /\ regions_from (off + need) es
  | _ :: es => regions_from off es
  end.
Definition alloc_total (es : list BufEvent) : Z :=
  foldr (λ e n, match e with EvAlloc _ need _ => need + n | _ => n end) 0 es.
Definition writers_of (es : list BufEvent) : Z :=
  foldr (λ e n, match e with EvAlloc _ _ true => 1 + n | EvRelease _ => n - 1 | _ => n end) 0 es.

Lemma alloc_total_app es es' : alloc_total (es ++ es') = alloc_total es + alloc_total es'.
Proof. induction es as [|[] es IH]; simpl; rewrite ?IH; lia. Qed.
Lemma writers_of_app es es' : writers_of (es ++ es') = writers_of es + writers_of es'.
Proof. induction es as [|[? ? []| |] es IH]; simpl; rewrite ?IH; lia. Qed.
Lemma regions_app off es es' :
  regions_from off (es ++ es') <-> regions_from off es /\ regions_from (off + alloc_total es) es'.
Proof.
  revert off; induction es as [|[o n a|r|r] es IH]; intros off; simpl;
    [rewrite Z.add_0_r; tauto| |by rewrite IH..].
  rewrite IH. rewrite Z.add_assoc. tauto.
Qed.

(** What a reachable word says about the events. *)
Record trace_inv (bs : Z) (es : list BufEvent) (v : Z) (s : BufferState) : Prop := {
  ti_word : v = pack s;
  ti_ok : buf_ok bs s;
  ti_regions : regions_from 0 es;
  ti_alloc : allocated s = alloc_total es;
  ti_writers : num_writer s = writers_of es;
  ti_sealed : sealed s = true <-> exists r, EvSeal r ∈ es;
  ti_flush : is_flushable s = true <-> exists e, e ∈ es /\ is_flush e;
  ti_last : forall es' e es'', es = es' ++ e :: es'' -> is_flush e -> es'' = [];
}.

Lemma flush_not_before es e :
  (forall es' e' es'', es ++ [e] = es' ++ e' :: es'' -> is_flush e' -> es'' = []) <->
  Forall (λ x, ~ is_flush x) es.
Proof.
  split.
  - intros H. apply Forall_forall. intros x Hx Hf.
    apply list_elem_of_split in Hx as (l1 & l2 & ->).
    specialize (H l1 x (l2 ++ [e])). rewrite <- app_assoc in H.
    specialize (H eq_refl Hf). by apply app_nil in H as [_ ?].
  - intros H es' e' es'' E Hf. destruct es'' as [|x es''] using rev_ind; [done|exfalso].
    rewrite app_comm_cons, app_assoc in E. apply app_inj_tail in E as [-> _].
    rewrite Forall_forall in H. apply (H e'); [|done]. set_solver.
Qed.

Section interleaving.
Context (bs : Z) (Hbs : 0 <= bs < 2 ^ 31).

(** Once the flush has been signalled no step is possible. *)
Lemma flushable_stuck s e v' :
  buf_ok bs s -> is_flushable s = true -> ~ wb_step bs (pack s) e v'.
Proof.
  intros Hok Hf Hstep. unfold is_flushable, has_writer in Hf. boolify.
  assert (num_writer s = 0) by (destruct Hok as [[Hw _] _]; unfold fits in Hw; lia).
  assert (Hs : sealed s = true) by done.
  inversion Hstep as [? need acq off ? Hm Hn Ha|? r ? Ha|? r ? Ha]; subst.
  - rewrite (alloc_attempt_spec bs) in Ha by done. by rewrite Hs in Ha.
  - rewrite (release_attempt_spec bs) in Ha by done.
    by rewrite (proj2 (Z.eqb_eq _ _)) in Ha by done.
  - rewrite (seal_attempt_spec bs) in Ha by done. by rewrite Hs in Ha.
Qed.

(** The state after a step, and when the step signals the flush. *)
Lemma wb_step_inv s e v' :
  buf_ok bs s -> wb_step bs (pack s) e v' ->
  exists s', v' = pack s' /\ buf_ok bs s' /\
    match e with
    | EvAlloc off need acq => off = allocated s /\ sealed s = false /\ s' = add_alloc need acq s
    | EvRelease _ => s' = sub_writer s
    | EvSeal _ => sealed s = false /\ s' = set_sealed s
    end /\ (is_flushable s' = true <-> is_flush e).
Proof.
  intros Hok Hstep. pose proof Hok as [[Hw Ha] Hle]. unfold fits in *.
  inversion Hstep as [? need acq off ? Hm Hn Hat|? r ? Hat|? r ? Hat]; subst.
  - rewrite (alloc_attempt_spec bs) in Hat by done.
    destruct (sealed s) eqn:Es; [done|]. destruct (bs <? need) eqn:E1; [done|].
    destruct (bs <? allocated s + need) eqn:E2; [done|].
    destruct (acq && (num_writer s =? 2 ^ 31 - 1)) eqn:E3; [done|]. inv_res. boolify.
    exists (add_alloc need acq s). split_and!; [done| |done|done|done|].
    + repeat split; simpl; destruct acq; simpl in E3; boolify; lia.
    + unfold is_flushable. simpl. rewrite Es. simpl. split; [done|]. by intros [?|?].
  - rewrite (release_attempt_spec bs) in Hat by done.
    destruct (num_writer s =? 0) eqn:E; [done|]. inv_res. boolify.
    exists (sub_writer s). split_and!; [done| |done|].
    + repeat split; simpl; lia.
    + destruct (is_flushable (sub_writer s)); [by split; [left|]|].
      split; [done|]. by intros [?|?].
  - rewrite (seal_attempt_spec bs) in Hat by done. destruct (sealed s) eqn:Es; [done|].
    inv_res. exists (set_sealed s). split_and!; [done|exact Hok|done|done|].
    unfold is_flushable, has_writer. simpl. destruct (0 <? num_writer s); simpl.
    + split; [done|]. by intros [?|?].
    + split; [by right|done].
Qed.

Lemma wb_trace_inv es v : wb_trace bs es v -> exists s, trace_inv bs es v s.
Proof.
  induction 1 as [|es v e v' _ [s Hi] Hstep].
  { exists state_default. constructor; simpl; try done.
    - repeat split; simpl; lia.
    - split; [done|]. by intros [r ?%elem_of_nil].
    - split; [done|]. by intros (e & ?%elem_of_nil & _).
    - intros es' e es'' E. by destruct es'. }
  destruct Hi as [-> Hok Hreg Hal Hwr Hse Hfl Hla].
  destruct (is_flushable s) eqn:Ef; [by apply flushable_stuck in Hstep|].
  destruct (wb_step_inv s e v' Hok Hstep) as (s' & -> & Hok' & He & Hf').
  assert (Hnf : Forall (λ x, ~ is_flush x) es).
  { apply Forall_forall. intros x Hx Hfx. by assert (false = true) by (apply Hfl; by exists x). }
  exists s'. constructor; try done.
  - rewrite regions_app. split; [done|]. rewrite Z.add_0_l, <- Hal.
    destruct e; simpl; [|done..]. by destruct He.
  - rewrite alloc_total_app, <- Hal.
    destruct e; [destruct He as (_ & _ & ->)|subst s'|destruct He as [_ ->]]; cbn; lia.
  - rewrite writers_of_app, <- Hwr.
    destruct e as [? ? []| |];
      [destruct He as (_ & _ & ->)..|subst s'|destruct He as [_ ->]]; cbn; lia.
  - setoid_rewrite elem_of_app. setoid_rewrite list_elem_of_singleton.
    destruct e as [? ? ?|r|r]; [destruct He as (_ & _ & ->)|subst s'|destruct He as [_ ->]];
      cbn [sealed add_alloc sub_writer set_sealed].
    1-2: rewrite Hse; split; [intros [r' ?]; exists r'; by left|intros [r' [?|?]]; [by exists r'|done]].
    split; [intros _; exists r; by right|done].
  - rewrite Hf'. split; [intros ?; exists e; split; [set_solver|done]|].
    intros (x & [Hx| ->%list_elem_of_singleton]%elem_of_app & Hfx); [|done].
    rewrite Forall_forall in Hnf. by apply Hnf in Hx.
  - by apply flush_not_before.
Qed.

(** [C22] Any interleaving of allocations (of multiples of 8 bytes), releases and seals
    on the atomic state word of a new buffer of less than 2^31 bytes (with 2^31, which
    [with_capacity] accepts too, the sum in [alloc_size] can wrap: C37): the regions
    handed out follow one another from offset 0 without overlap and within the buffer; the writer count is the number of
    acquiring allocations minus the releases; the buffer is sealed and free of
    writers exactly when a flush has been signalled; and a signalled flush is the
    last thing that ever happens to the word, so it is signalled at most once. *)
Theorem write_buffer_interleaving es v :
  wb_trace bs es v ->
  regions_from 0 es /\ allocated (state_load v) = alloc_total es /\ alloc_total es <= bs /\
  num_writer (state_load v) = writers_of es /\
  (is_flushable (state_load v) = true <-> exists e, e ∈ es /\ is_flush e) /\
  (forall es' e es'', es = es' ++ e :: es'' -> is_flush e -> es'' = []).
Proof.
  intros Ht. destruct (wb_trace_inv es v Ht) as [s [Hv Hok Hreg Hal Hwr _ Hfl Hla]].
  rewrite (buf_ok_load bs v s Hv Hok). split_and!; try done. rewrite <- Hal. apply Hok.
Qed.
End interleaving.

Lemma write_buffer_interleaving_witness :
  let es := [EvAlloc 0 32 true; EvAlloc 32 48 true; EvRelease ReleaseNone; EvSeal ReleaseNone;
             EvRelease ReleaseFlush] in
  exists v, regions_from 0 es /\ allocated (state_load v) = alloc_total es /\
    is_flushable (state_load v) = true.
Proof.
  intros es. exists (pack (mkBufferState true 0 80)).
  destruct (write_buffer_interleaving 128 ltac:(lia) es (pack (mkBufferState true 0 80)))
    as (Hr & Ha & _ & _ & Hf & _).
  { change es with ((((([] ++ [EvAlloc 0 32 true]) ++ [EvAlloc 32 48 true])
      ++ [EvRelease ReleaseNone]) ++ [EvSeal ReleaseNone]) ++ [EvRelease ReleaseFlush]).
    eapply trace_snoc; [eapply trace_snoc; [eapply trace_snoc;
      [eapply trace_snoc; [eapply trace_snoc; [constructor|]|]|]|]|].
    - apply step_alloc; [done|lia|vm_compute; reflexivity].
    - apply step_alloc; [done|lia|vm_compute; reflexivity].
    - apply step_release. vm_compute; reflexivity.
    - apply step_seal. vm_compute; reflexivity.
    - apply step_release. vm_compute; reflexivity. }
  split_and!; [done..|]. apply Hf. exists (EvRelease ReleaseFlush). split; [set_solver|by left].
Defined.

(** ** The records in the buffer *)

(** A record as the buffer holds it: the header fields, the body and the bytes that
    pad it to 8. *)
Record Rec := mkRec { r_data : Z; r_flags : Z; r_body : list Z; r_pad : list Z }.

Definition rec_header (r : Rec) : RecordHeader :=
  mkRecordHeader (r_data r) (r_flags r) (length (r_body r)).
Definition rec_bytes (r : Rec) : list Z := rh_bytes (rec_header r) ++ r_body r ++ r_pad r.
Definition rec_ok (r : Rec) : Prop :=
  fits 64 (r_data r) /\ fits 32 (r_flags r) /\ 1 <= length (r_body r) <= 2 ^ 32 - 24 /\
  Z.of_nat (length (r_body r) + length (r_pad r)) = align8 (length (r_body r)).
Definition recs_bytes (rs : list Rec) : list Z := concat (rec_bytes <$> rs).

(** The buffer holds the records [rs] in its allocated part. *)
Record wb_repr (w : WriteBuffer) (s : BufferState) (rs : list Rec) : Prop := {
  wr_group : fits 32 (wb_group_id w);
  wr_state : wb_state w = pack s;
  wr_ok : buf_ok (wb_buf_size w) s;
  wr_size : wb_buf_size w < 2 ^ 31;
  wr_len : length (wb_buf w) = wb_buf_size w;
  wr_recs : Forall rec_ok rs;
  wr_buf : exists rest, wb_buf w = recs_bytes rs ++ rest;
  wr_alloc : allocated s = length (recs_bytes rs);
}.

Lemma length_rh_bytes h : length (rh_bytes h) = 16%nat.
Proof. unfold rh_bytes. by rewrite !length_app, !length_le_bytes. Qed.

Lemma length_rec_bytes r : rec_ok r -> Z.of_nat (length (rec_bytes r)) = 16 + align8 (length (r_body r)).
Proof.
  intros (_ & _ & _ & Hp). unfold rec_bytes. rewrite !length_app, length_rh_bytes. lia.
Qed.

Lemma rec_bytes_aligned r : rec_ok r -> length (rec_bytes r) mod 8 = 0.
Proof.
  intros Hr. rewrite length_rec_bytes by done.
  destruct (align8_bounds (length (r_body r))) as [_ Hm]. by rewrite Z.add_mod, Hm by lia.
Qed.

Lemma recs_bytes_app rs rs' : recs_bytes (rs ++ rs') = recs_bytes rs ++ recs_bytes rs'.
Proof. unfold recs_bytes. by rewrite fmap_app, concat_app. Qed.
Lemma recs_bytes_one r : recs_bytes [r] = rec_bytes r.
Proof. unfold recs_bytes. simpl. by rewrite app_nil_r. Qed.
Lemma recs_bytes_cons r rs : recs_bytes (r :: rs) = rec_bytes r ++ recs_bytes rs.
Proof. done. Qed.

Lemma recs_aligned rs : Forall rec_ok rs -> length (recs_bytes rs) mod 8 = 0.
Proof.
  induction 1 as [|r rs Hr _ IH]; [done|].
  rewrite recs_bytes_cons, length_app, Nat2Z.inj_add, Z.add_mod, IH, rec_bytes_aligned by (done || lia).
  done.
Qed.

Lemma nat_mod8 n : Z.of_nat n mod 8 = 0 -> (n mod 8 = 0)%nat.
Proof. intros H. apply Nat2Z.inj. by rewrite Nat2Z.inj_mod. Qed.

(** Reading and writing the record that starts at [length P]. *)
Section record_at.
Context (w : WriteBuffer) (P Q : list Z) (r : Rec).
Context (Hb : wb_buf w = P ++ rec_bytes r ++ Q).
Context (Hl : length (wb_buf w) = wb_buf_size w).
Context (Hp : length P mod 8 = 0) (Hr : rec_ok r).

Lemma record_check_at : record_check (length P) w = Ok (length P).
Proof.
  unfold record_check. rewrite Nat2Z.id.
  rewrite (rassert_true (bool_decide (length P mod 8 = 0)%nat)) by (by apply bool_decide_eq_true, nat_mod8).
  cbn [mbind res_bind].
  rewrite rassert_true; [done|]. apply bool_decide_eq_true. rewrite <- Hl, Hb.
  unfold rec_bytes. rewrite !length_app, length_rh_bytes. destruct Hr as (_ & _ & ? & _). lia.
Qed.

Lemma wb_record_at : wb_record (length P) w = Ok (rec_header r).
Proof.
  unfold wb_record. rewrite record_check_at. cbn [mbind res_bind]. rewrite Hb.
  unfold rec_bytes. rewrite <- app_assoc.
  replace 16%nat with (length (rh_bytes (rec_header r))) by apply length_rh_bytes.
  rewrite slice_app. cbn [mbind res_bind]. destruct Hr as (Hd & Hf & Hs & _).
  unfold rh_bytes, rec_header. cbn [rh_data rh_flags rh_page_size]. f_equal. f_equal.
  - rewrite <- (app_nil_l (le_bytes 8 _ ++ _)), read_num_app by (by rewrite ?length_le_bytes).
    by apply le_num_u64.
  - rewrite read_num_app by (by rewrite ?length_le_bytes). by apply le_num_u32.
  - rewrite app_assoc, <- (app_nil_r (le_bytes 4 (length _))).
    rewrite read_num_app by (by rewrite ?length_app, ?length_le_bytes).
    apply le_num_u32. unfold fits. lia.
Qed.

Lemma body_bytes_at : body_bytes (length P) (length (r_body r)) w = Ok (r_body r).
Proof.
  unfold body_bytes. rewrite !Nat2Z.id, Hb. unfold rec_bytes.
  rewrite <- !app_assoc, (app_assoc P).
  replace (length P + 16)%nat with (length (P ++ rh_bytes (rec_header r)))
    by (rewrite length_app, length_rh_bytes; lia).
  apply slice_app.
Qed.

(** Overwriting the header, keeping the size. *)
Lemma wb_set_record_at data flags :
  wb_set_record (length P) (mkRecordHeader data flags (length (r_body r))) w =
    Ok (with_buf (P ++ rec_bytes (mkRec data flags (r_body r) (r_pad r)) ++ Q) w).
Proof.
  unfold wb_set_record. rewrite record_check_at. cbn [mbind res_bind]. rewrite Hb.
  rewrite write_at_ok by (unfold rec_bytes; rewrite !length_app, !length_rh_bytes; lia).
  cbn [mbind res_bind]. do 2 f_equal. unfold rec_bytes. rewrite <- !app_assoc.
  by rewrite splice_app by (by rewrite ?length_rh_bytes).
Qed.

(** Overwriting the body. *)
Lemma write_body_at body :
  length body = length (r_body r) ->
  write_at (wb_buf w) (length P + 16) body =
    Ok (P ++ rec_bytes (mkRec (r_data r) (r_flags r) body (r_pad r)) ++ Q).
Proof.
  intros He. rewrite Hb.
  rewrite write_at_ok by (unfold rec_bytes; rewrite !length_app, !length_rh_bytes; lia).
  f_equal. unfold rec_bytes, rec_header. cbn [r_data r_flags r_body r_pad].
  rewrite He, <- !app_assoc, (app_assoc P).
  rewrite splice_app; [by rewrite <- app_assoc|by rewrite length_app, length_rh_bytes|done].
Qed.

Lemma wb_record_ref_page :
  r_flags r = FLAG_NORMAL_PAGE -> (16 <= length (r_body r))%nat ->
  wb_record_ref (length P) (rec_header r) w = Ok (Some (RecPage (r_body r))).
Proof.
  intros Hf Hs. unfold wb_record_ref. cbn [rec_header rh_flags rh_page_size]. rewrite Hf.
  change (flags_truncate FLAG_NORMAL_PAGE =? FLAG_NORMAL_PAGE) with true. cbn match.
  rewrite body_bytes_at. cbn [mbind res_bind]. rewrite page_new_ok; [done| |done].
  unfold RECORD_HEADER_LEN. by rewrite Z.add_mod, Hp by lia.
Qed.

Lemma wb_record_ref_dead :
  r_flags r = FLAG_TOMBSTONE -> wb_record_ref (length P) (rec_header r) w = Ok None.
Proof. intros Hf. unfold wb_record_ref. cbn [rec_header rh_flags]. by rewrite Hf. Qed.
End record_at.

(** ** Page addresses *)

(** The offset of record [i] and the address of its body. *)
Definition rec_off (rs : list Rec) (i : nat) : nat := length (recs_bytes (take i rs)).
Definition rec_addr (g : Z) (rs : list Rec) (i : nat) : Z := page_addr_of g (rec_off rs i + 16).

Lemma page_addr_file g o : fits 32 g -> fits 32 o -> wrap32 (Z.shiftr (page_addr_of g o) 32) = g.
Proof.
  intros Hg Ho. unfold page_addr_of, fits in *. rewrite lor_shiftl_add by lia.
  rewrite Z.shiftr_div_pow2, Z.add_comm, Z.div_add, (Z.div_small o) by lia. by apply wrap_small.
Qed.
Lemma page_addr_offset g o :
  fits 32 o -> Z.land (page_addr_of g o) (Z.shiftl 1 32 - 1) = o.
Proof.
  intros Ho. unfold page_addr_of, fits in *. rewrite lor_shiftl_add by lia.
  change (Z.shiftl 1 32 - 1) with (Z.ones 32). rewrite Z.land_ones, Z.add_comm, Z.mod_add by lia.
  by apply Z.mod_small.
Qed.

Section repr.
Context (w : WriteBuffer) (s : BufferState) (rs : list Rec) (Hw : wb_repr w s rs).

(** The buffer around record [i]. *)
Lemma wb_repr_split i r :
  rs !! i = Some r ->
  exists Q, wb_buf w = recs_bytes (take i rs) ++ rec_bytes r ++ Q /\ rec_ok r /\
    rec_off rs i mod 8 = 0 /\ rec_off rs i + 16 < wb_buf_size w.
Proof.
  intros Hi. destruct Hw as [_ _ _ _ Hlen Hrs [rest Hb] _].
  assert (Hr : rec_ok r) by (by eapply Forall_lookup_1).
  exists (recs_bytes (drop (S i) rs) ++ rest).
  assert (Hb' : wb_buf w = recs_bytes (take i rs) ++ rec_bytes r ++ recs_bytes (drop (S i) rs) ++ rest).
  { rewrite Hb. rewrite <- (take_drop_middle rs i r Hi) at 1.
    by rewrite recs_bytes_app, recs_bytes_cons, <- !app_assoc. }
  split_and!; [done|done| |].
  - apply recs_aligned. by apply Forall_take.
  - unfold rec_off. rewrite <- Hlen, Hb'. unfold rec_bytes.
    rewrite !length_app, length_rh_bytes. destruct Hr as (_ & _ & ? & _). lia.
Qed.

Lemma wb_page_ok i r :
  rs !! i = Some r -> r_flags r = FLAG_NORMAL_PAGE -> (16 <= length (r_body r))%nat ->
  wb_page (rec_addr (wb_group_id w) rs i) w = Ok (r_body r).
Proof.
  intros Hi Hf Hs. destruct (wb_repr_split i r Hi) as (Q & Hb & Hr & Hm & Hlt).
  pose proof (wr_size _ _ _ Hw) as Hsz. pose proof (wr_len _ _ _ Hw) as Hlen.
  assert (Ho : fits 32 (rec_off rs i + 16)) by (unfold fits; lia).
  unfold wb_page, rec_addr.
  rewrite page_addr_file, page_addr_offset by (done || apply Hw).
  rewrite Z.eqb_refl. cbn [rassert mbind res_bind]. unfold ALIGN, RECORD_HEADER_LEN.
  rewrite (proj2 (Z.eqb_eq _ 0)) by (by rewrite Z.add_mod, Hm by lia). cbn [rassert mbind res_bind].
  rewrite (proj2 (Z.leb_le _ _)) by lia. cbn [rassert mbind res_bind].
  replace (rec_off rs i + 16 - 16) with (Z.of_nat (rec_off rs i)) by lia.
  unfold rec_off in *.
  rewrite (wb_record_at w _ Q r Hb Hlen Hm Hr). cbn [mbind res_bind].
  by rewrite (wb_record_ref_page w _ Q r Hb Hlen Hm Hf Hs).
Qed.

(** Replacing a record by one of the same size. *)
Lemma wb_repr_insert i r r' buf :
  rs !! i = Some r -> rec_ok r' -> length (rec_bytes r') = length (rec_bytes r) ->
  (exists Q, wb_buf w = recs_bytes (take i rs) ++ rec_bytes r ++ Q /\
    buf = recs_bytes (take i rs) ++ rec_bytes r' ++ Q) ->
  wb_repr (with_buf buf w) s (<[i := r']> rs).
Proof.
  intros Hi Hr' Hl (Q & Hb & ->). pose proof Hw as [Hg Hst Hok Hsz Hlen Hrs [rest Hb'] Hal].
  assert (Hbytes : recs_bytes (<[i:=r']> rs) = recs_bytes (take i rs) ++ rec_bytes r' ++ recs_bytes (drop (S i) rs)).
  { rewrite insert_take_drop by (by eapply lookup_lt_Some). by rewrite recs_bytes_app, recs_bytes_cons. }
  assert (Hbytes0 : recs_bytes rs = recs_bytes (take i rs) ++ rec_bytes r ++ recs_bytes (drop (S i) rs)).
  { rewrite <- (take_drop_middle rs i r Hi) at 1. by rewrite recs_bytes_app, recs_bytes_cons. }
  constructor; cbn [with_buf wb_buf wb_buf_size wb_state wb_group_id]; try done.
  - rewrite <- Hlen, Hb, !length_app. lia.
  - by apply Forall_insert.
  - exists rest. rewrite Hbytes, <- !app_assoc. do 2 f_equal.
    rewrite Hb, Hbytes0, <- !app_assoc in Hb'. by do 2 apply app_inv_head in Hb'.
  - rewrite Hal, Hbytes0, Hbytes, !length_app. lia.
Qed.

(** Writing a page of the same size in place of the body of record [i]. *)
Lemma wb_write_page_ok i r page :
  rs !! i = Some r -> length page = length (r_body r) ->
  exists w', wb_write_page (rec_addr (wb_group_id w) rs i) page w = Ok w' /\
    wb_repr w' s (<[i := mkRec (r_data r) (r_flags r) page (r_pad r)]> rs) /\
    wb_group_id w' = wb_group_id w /\ wb_buf_size w' = wb_buf_size w.
Proof.
  intros Hi Hl. destruct (wb_repr_split i r Hi) as (Q & Hb & Hr & Hm & Hlt).
  pose proof (wr_size _ _ _ Hw) as Hsz.
  unfold wb_write_page, rec_addr. rewrite page_addr_offset by (unfold fits; lia).
  replace (Z.to_nat (rec_off rs i + 16)) with (length (recs_bytes (take i rs)) + 16)%nat
    by (unfold rec_off; lia).
  rewrite (write_body_at w _ Q r Hb (wr_len _ _ _ Hw) page Hl). cbn [mbind res_bind]. eexists; split; [done|].
  split; [|done]. apply (wb_repr_insert i r); [done| | |].
  - destruct Hr as (H1 & H2 & H3 & H4). unfold rec_ok; cbn [r_data r_flags r_body r_pad].
    by rewrite Hl.
  - unfold rec_bytes. rewrite !length_app, !length_rh_bytes. simpl. lia.
  - by exists Q.
Qed.

(** Changing the page id or marking a record as a tombstone. *)
Lemma wb_set_record_ok i r data flags :
  rs !! i = Some r -> fits 64 data -> fits 32 flags ->
  exists w', wb_set_record (rec_off rs i) (mkRecordHeader data flags (length (r_body r))) w = Ok w' /\
    wb_repr w' s (<[i := mkRec data flags (r_body r) (r_pad r)]> rs) /\
    wb_group_id w' = wb_group_id w /\ wb_buf_size w' = wb_buf_size w.
Proof.
  intros Hi Hd Hf. destruct (wb_repr_split i r Hi) as (Q & Hb & Hr & Hm & Hlt).
  pose proof (wr_len _ _ _ Hw) as Hlen. unfold rec_off in *.
  rewrite (wb_set_record_at w _ Q r Hb Hlen Hm Hr). eexists; split; [done|].
  split; [|done]. apply (wb_repr_insert i r); [done| | |].
  - destruct Hr as (H1 & H2 & H3 & H4). exact (conj Hd (conj Hf (conj H3 H4))).
  - unfold rec_bytes. rewrite !length_app, !length_rh_bytes. done.
  - by exists Q.
Qed.
End repr.

(** ** Allocating a page *)

Section alloc_page.
Context (w : WriteBuffer) (s : BufferState) (rs : list Rec) (Hw : wb_repr w s rs).
Local Abbreviation bs := (Z.of_nat (wb_buf_size w)).

(** [alloc_size] on the buffer, for an aligned size. *)
Lemma wb_alloc_size_ok need acq :
  need mod 8 = 0 -> 0 <= need <= 2 ^ 32 - 8 ->
  wb_alloc_size need acq w =
    if sealed s then Err Again
    else if bs <? need then Err TooLargeSize
    else if bs <? allocated s + need then Err Again
    else if acq && (num_writer s =? 2 ^ 31 - 1) then Panic
    else Ok (allocated s, with_state (pack (add_alloc need acq s)) w).
Proof.
  intros Hm Hn. destruct Hw as [_ Hst Hok Hsz _ _ _ _]. unfold wb_alloc_size. cbn [cas_loop].
  rewrite (wrap_small 32 bs) by (unfold fits; lia). rewrite Hst.
  rewrite (alloc_attempt_spec bs) by (done || lia).
  destruct (sealed s); [done|]. destruct (bs <? need); [done|].
  destruct (bs <? allocated s + need); [done|].
  destruct (acq && _); [done|]. cbn [mbind res_bind]. by rewrite Z.eqb_refl.
Qed.

(** A fresh region holds some record with a header that was not written yet. *)
Lemma wb_region need acq size :
  sealed s = false -> need = 16 + align8 (Z.of_nat size) -> allocated s + need <= bs ->
  (acq && (num_writer s =? 2 ^ 31 - 1)) = false ->
  let s' := add_alloc need acq s in let w' := with_state (pack s') w in
  buf_ok bs s' /\
  exists body pad Q, length body = size /\ Z.of_nat (size + length pad) = align8 size /\
    length Q = length (drop (length (recs_bytes rs) + Z.to_nat need) (wb_buf w)) /\
    exists hdr, length hdr = 16%nat /\ wb_buf w' = recs_bytes rs ++ (hdr ++ body ++ pad) ++ Q.
Proof.
  intros Hs Hn Hle Hacq s' w'. pose proof Hw as [Hg Hst Hok Hsz Hlen Hrs [rest Hb] Hal].
  destruct Hok as [[Hwr Ha] Hle']. unfold fits in *.
  pose proof (align8_bounds size) as [Hab _]. split.
  - split; [split; unfold fits|]; simpl; [|lia|lia].
    destruct acq; simpl in Hacq; boolify; lia.
  - assert (Hrest : (Z.to_nat need <= length rest)%nat).
    { apply (f_equal length) in Hb. rewrite length_app, Hlen in Hb. lia. }
    exists (take size (drop 16 rest)), (take (Z.to_nat need - 16 - size) (drop (16 + size) rest)),
      (drop (Z.to_nat need) rest). split_and!.
    + rewrite length_take, length_drop. lia.
    + rewrite length_take, length_drop. lia.
    + rewrite Hb, drop_app_ge by lia. do 2 f_equal. lia.
    + exists (take 16 rest). split; [rewrite length_take; lia|]. cbn [wb_buf with_state w'].
      rewrite Hb. f_equal. rewrite <- (take_drop 16 rest) at 1. rewrite <- !app_assoc. f_equal.
      rewrite <- (take_drop size (drop 16 rest)) at 1. f_equal. rewrite drop_drop.
      rewrite <- (take_drop (Z.to_nat need - 16 - size) (drop (16 + size) rest)) at 1.
      f_equal. rewrite drop_drop. f_equal. lia.
Qed.

Lemma wb_repr_snoc s' r Q buf :
  buf_ok bs s' -> rec_ok r -> allocated s' = allocated s + length (rec_bytes r) ->
  buf = recs_bytes rs ++ rec_bytes r ++ Q -> length buf = length (wb_buf w) ->
  wb_repr (mkWriteBuffer (wb_group_id w) buf (wb_buf_size w) (pack s')) s' (rs ++ [r]).
Proof.
  intros Hok' Hr Ha -> Hl. pose proof Hw as [Hg Hst Hok Hsz Hlen Hrs _ Hal].
  constructor; cbn [wb_buf wb_buf_size wb_state wb_group_id]; try done.
  - by rewrite Hl.
  - apply Forall_app. split; [done|by constructor].
  - exists Q. by rewrite recs_bytes_app, recs_bytes_one, <- app_assoc.
  - rewrite recs_bytes_app, recs_bytes_one, length_app. lia.
Qed.

(** Allocating the space of a record and writing its header. *)
Lemma wb_alloc_record_ok acq (size : nat) data flags :
  let need := 16 + align8 size in
  sealed s = false -> allocated s + need <= bs -> (acq && (num_writer s =? 2 ^ 31 - 1)) = false ->
  fits 64 data -> fits 32 flags -> 1 <= size <= 2 ^ 32 - 24 ->
  exists body pad w',
    wb_set_record (allocated s) (mkRecordHeader data flags size)
      (with_state (pack (add_alloc need acq s)) w) = Ok w' /\
    length body = size /\ wb_group_id w' = wb_group_id w /\ wb_buf_size w' = wb_buf_size w /\
    wb_repr w' (add_alloc need acq s) (rs ++ [mkRec data flags body pad]).
Proof.
  intros need Es E2 E3 Hd Hf Hsize.
  destruct (wb_region need acq size Es eq_refl E2 E3) as (Hok' & body & pad & Q & Hb & Hp & _ & hdr & Hh & Hbuf).
  set (r := mkRec data flags body pad). exists body, pad.
  pose proof Hw as [Hg Hst Hok Hsz Hlen Hrsok _ Hal].
  pose proof (align8_bounds size) as [Hab _].
  assert (Hr : rec_ok r).
  { split_and!; [done|done|simpl; rewrite Hb; lia..|]. simpl. rewrite Hb. lia. }
  assert (Hlb : wb_buf w = recs_bytes rs ++ hdr ++ body ++ pad ++ Q) by (by rewrite <- !app_assoc in Hbuf).
  exists (mkWriteBuffer (wb_group_id w) (recs_bytes rs ++ rec_bytes r ++ Q) (wb_buf_size w)
    (pack (add_alloc need acq s))).
  split_and!; [|done|done|done|].
  - unfold wb_set_record, record_check. cbn [with_state wb_buf wb_buf_size]. rewrite Hal, Nat2Z.id.
    rewrite (bool_decide_true (length (recs_bytes rs) mod 8 = 0)%nat) by (by apply nat_mod8, recs_aligned).
    cbn [rassert mbind res_bind]. rewrite bool_decide_true by lia. cbn [rassert mbind res_bind].
    rewrite write_at_ok by (rewrite Hlen, length_rh_bytes; lia). cbn [mbind res_bind].
    unfold with_buf. cbn [wb_group_id wb_buf_size wb_state]. do 2 f_equal. rewrite Hlb.
    rewrite splice_app by (by rewrite ?length_rh_bytes).
    unfold rec_bytes, rec_header, r. cbn [r_data r_flags r_body r_pad]. by rewrite Hb, <- !app_assoc.
  - apply (wb_repr_snoc _ r Q); [done|done| |done|].
    + cbn [add_alloc allocated]. rewrite length_rec_bytes by done. simpl. by rewrite Hb.
    + rewrite Hlb. unfold rec_bytes. rewrite !length_app, length_rh_bytes. simpl. lia.
Qed.

(** The space a record needs. *)
Lemma record_need (size : nat) :
  1 <= size <= 2 ^ 32 - 24 ->
  record_size size = 16 + align8 size /\ (16 + align8 size) mod 8 = 0 /\ 0 <= 16 + align8 size <= 2 ^ 32 - 8.
Proof.
  intros Hsize. destruct (record_size_ok size) as [Hrs Hm]; [lia|]. rewrite Hrs in *.
  pose proof (align8_bounds size) as [Hab Hmod]. pose proof (Z.div_mod (align8 size) 8 ltac:(lia)). lia.
Qed.

(** Every outcome of [alloc_page]. *)
Lemma wb_alloc_page_ok id (size : nat) acq :
  fits 64 id -> 16 <= size <= 2 ^ 32 - 24 ->
  let need := 16 + align8 size in
  if sealed s then wb_alloc_page id size acq w = Err Again
  else if bs <? need then wb_alloc_page id size acq w = Err TooLargeSize
  else if bs <? allocated s + need then wb_alloc_page id size acq w = Err Again
  else if acq && (num_writer s =? 2 ^ 31 - 1) then wb_alloc_page id size acq w = Panic
  else exists body pad w',
    wb_alloc_page id size acq w = Ok (rec_addr (wb_group_id w) (rs ++ [mkRec id FLAG_NORMAL_PAGE body pad]) (length rs), body, w') /\
    length body = size /\ wb_group_id w' = wb_group_id w /\ wb_buf_size w' = wb_buf_size w /\
    wb_repr w' (add_alloc need acq s) (rs ++ [mkRec id FLAG_NORMAL_PAGE body pad]).
Proof.
  intros Hid Hsize need. unfold wb_alloc_page.
  destruct (record_need size) as (Hrs & Hm & Hn); [lia|]. rewrite Hrs. fold need in Hm, Hn |- *.
  rewrite wb_alloc_size_ok by done.
  destruct (sealed s) eqn:Es; [done|]. destruct (bs <? need) eqn:E1; [done|].
  destruct (bs <? allocated s + need) eqn:E2; [done|].
  destruct (acq && (num_writer s =? 2 ^ 31 - 1)) eqn:E3; [done|]. boolify.
  destruct (wb_alloc_record_ok acq size id FLAG_NORMAL_PAGE Es E2 E3 Hid)
    as (body & pad & w' & Hset & Hb & Hg' & Hz' & Hw'); [split; vm_compute; congruence|lia|].
  cbn [mbind res_bind]. unfold wb_new_page_at. fold need in Hset. rewrite Hset. cbn [mbind res_bind].
  set (r := mkRec id FLAG_NORMAL_PAGE body pad) in *. pose proof (wr_alloc _ _ _ Hw) as Hal.
  destruct (wb_repr_split w' _ _ Hw' (length rs) r) as (Q & Hbuf & _ & Hm' & Hlt);
    [by apply list_lookup_middle|]. unfold rec_off in *. rewrite take_app_length in *.
  assert (Hbody : body_bytes (allocated s) size w' = Ok body).
  { rewrite Hal, <- Hb. exact (body_bytes_at w' (recs_bytes rs) Q r Hbuf (wr_len _ _ _ Hw')). }
  rewrite Hbody. cbn [mbind res_bind]. unfold RECORD_HEADER_LEN. pose proof (wr_size _ _ _ Hw').
  rewrite wrap_small by (unfold fits; lia).
  rewrite page_new_ok; [|rewrite Hal, Z.add_mod, Hm' by lia; done|unfold PAGE_HEADER_LEN; lia]. cbn [mbind res_bind].
  exists body, pad, w'. split_and!; [|done..].
  unfold rec_addr, rec_off. by rewrite take_app_length, Hg', Hal.
Qed.

(** [dealloc_pages] with room: the record of the addresses is appended. *)
Lemma wb_dealloc_pages_ok (addrs : list Z) acq :
  let size := (length addrs * 8)%nat in let need := 16 + align8 size in
  sealed s = false -> allocated s + need <= bs -> (acq && (num_writer s =? 2 ^ 31 - 1)) = false ->
  1 <= size <= 2 ^ 32 - 24 ->
  exists pad w',
    wb_dealloc_pages addrs acq w = Ok (allocated s, w') /\
    wb_group_id w' = wb_group_id w /\ wb_buf_size w' = wb_buf_size w /\
    wb_repr w' (add_alloc need acq s)
      (rs ++ [mkRec 0 FLAG_DELETED_PAGES (concat (le_bytes 8 <$> addrs)) pad]).
Proof.
  intros size need Es E2 E3 Hsize. unfold wb_dealloc_pages. fold size.
  rewrite wrap_small by (unfold fits; lia).
  destruct (record_need size Hsize) as (Hrs & Hm & Hn). rewrite Hrs. fold need in Hm, Hn |- *.
  pose proof (wr_ok _ _ _ Hw) as [[_ Ha] _]. unfold fits in Ha.
  rewrite wb_alloc_size_ok, Es, E3 by done.
  rewrite (proj2 (Z.ltb_ge _ _)) by lia. rewrite (proj2 (Z.ltb_ge _ _)) by lia. cbn [mbind res_bind].
  destruct (wb_alloc_record_ok acq size 0 FLAG_DELETED_PAGES Es E2 E3)
    as (body & pad & w1 & Hset & Hb & Hg1 & Hz1 & Hw1);
    [split; vm_compute; congruence|split; vm_compute; congruence|done|].
  fold need in Hset. rewrite Hset. cbn [mbind res_bind].
  set (r := mkRec 0 FLAG_DELETED_PAGES body pad) in *. pose proof (wr_alloc _ _ _ Hw) as Hal.
  assert (Hlk : (rs ++ [r]) !! length rs = Some r) by (by apply list_lookup_middle).
  assert (Hlen : length (concat (le_bytes 8 <$> addrs)) = length (r_body r)).
  { change (r_body r) with body. rewrite Hb. unfold size. clear. induction addrs; [done|].
    cbn [fmap list_fmap concat]. rewrite length_app, length_le_bytes, IHaddrs. simpl. lia. }
  destruct (wb_write_page_ok w1 _ _ Hw1 (length rs) r _ Hlk Hlen) as (w' & Hww & Hw' & Hg' & Hz').
  destruct (wb_repr_split w1 _ _ Hw1 (length rs) r Hlk) as (Q & _ & _ & _ & Hlt).
  pose proof (wr_size _ _ _ Hw1). unfold wb_write_page, rec_addr in Hww.
  rewrite page_addr_offset in Hww by (unfold fits; lia).
  unfold rec_off in Hww. rewrite take_app_length in Hww. rewrite Hal, Nat2Z.id.
  replace (Z.to_nat (length (recs_bytes rs) + 16)) with (length (recs_bytes rs) + 16)%nat in Hww by lia.
  exists pad, w'. destruct (write_at _ _ _) as [buf| |]; [|done|done]. cbn [mbind res_bind] in *.
  injection Hww as Hww. rewrite Hww. split_and!; [done|congruence|congruence|].
  rewrite insert_app_r_alt in Hw' by done. rewrite Nat.sub_diag in Hw'. exact Hw'.
Qed.
End alloc_page.

(** Allocating a page record: [alloc_page] fails with [Again] on a sealed
    buffer, with [TooLargeSize] when the record can never fit, with [Again] when
    it does not fit now; otherwise it appends one record of the requested size
    after those in the buffer, all of which it keeps, and the address it returns
    reads back as the page handed out. *)
Theorem write_buffer_alloc_page (w : WriteBuffer) (s : BufferState) (rs : list Rec)
    (id : Z) (size : nat) (acq : bool) :
  wb_repr w s rs -> fits 64 id -> 16 <= size <= 2 ^ 32 - 24 -> num_writer s < 2 ^ 31 - 1 ->
  let need := 16 + align8 size in
  if sealed s then wb_alloc_page id size acq w = Err Again
  else if wb_buf_size w <? need then wb_alloc_page id size acq w = Err TooLargeSize
  else if wb_buf_size w <? allocated s + need then wb_alloc_page id size acq w = Err Again
  else exists addr page pad w',
    wb_alloc_page id size acq w = Ok (addr, page, w') /\ length page = size /\
    wb_page addr w' = Ok page /\
    wb_repr w' (add_alloc need acq s) (rs ++ [mkRec id FLAG_NORMAL_PAGE page pad]).
Proof.
  intros Hw Hid Hs Hn need. pose proof (wb_alloc_page_ok w s rs Hw id size acq Hid Hs) as Ha.
  cbv zeta in Ha. fold need in Ha.
  destruct (sealed s); [done|]. destruct (wb_buf_size w <? need); [done|].
  destruct (wb_buf_size w <? allocated s + need); [done|].
  rewrite (proj2 (Z.eqb_neq _ _)), andb_false_r in Ha by lia.
  destruct Ha as (page & pad & w' & Ha & Hl & Hg & _ & Hw').
  eexists _, page, pad, w'. split_and!; [done|done| |done].
  rewrite <- Hg. apply (wb_page_ok w' _ _ Hw' _ (mkRec id FLAG_NORMAL_PAGE page pad)); [|done|simpl; lia].
  by rewrite list_lookup_middle.
Qed.

(** A fresh buffer. *)
Definition fresh_buffer (g : Z) (mem : list Z) : WriteBuffer :=
  mkWriteBuffer g mem (length mem) 0.

Lemma fresh_buffer_repr g mem :
  fits 32 g -> length mem < 2 ^ 31 -> wb_repr (fresh_buffer g mem) state_default [].
Proof.
  intros Hg Hl. constructor; simpl; try done; [|by exists mem].
  repeat split; simpl; lia.
Qed.

Lemma write_buffer_alloc_page_witness :
  exists addr page pad w',
    wb_alloc_page 7 20 true (fresh_buffer 3 (replicate 64 0)) = Ok (addr, page, w') /\
    length page = 20%nat /\ wb_page addr w' = Ok page /\
    wb_repr w' (add_alloc (16 + align8 20) true state_default) [mkRec 7 FLAG_NORMAL_PAGE page pad].
Proof.
  apply (write_buffer_alloc_page (fresh_buffer 3 (replicate 64 0)) state_default [] 7 20 true).
  - apply fresh_buffer_repr; [unfold fits; lia|simpl; lia].
  - unfold fits; lia.
  - lia.
  - simpl; lia.
Defined.

(** Records of the same sizes are at the same offsets. *)
Lemma rec_off_insert rs i r r' j :
  rs !! i = Some r -> length (rec_bytes r') = length (rec_bytes r) ->
  rec_off (<[i := r']> rs) j = rec_off rs j.
Proof.
  intros Hi Hl. unfold rec_off.
  destruct (decide (i < j)%nat) as [Hij|Hij]; [|by rewrite take_insert_ge by lia].
  rewrite take_insert_lt by done.
  assert (Hi' : take j rs !! i = Some r) by (by rewrite lookup_take_lt).
  rewrite insert_take_drop by (by eapply lookup_lt_Some).
  rewrite <- (take_drop_middle (take j rs) i r Hi') at 3.
  by rewrite !recs_bytes_app, !recs_bytes_cons, !length_app, Hl.
Qed.

(** Pages do not alias: writing a page of the allocated size through the
    buffer of one page record changes what this address reads to exactly these
    bytes, and leaves what every other page address of the buffer reads
    unchanged. *)
Theorem write_buffer_page_isolation (w : WriteBuffer) (s : BufferState) (rs : list Rec)
    (i : nat) (r : Rec) (page : list Z) :
  wb_repr w s rs -> rs !! i = Some r -> r_flags r = FLAG_NORMAL_PAGE ->
  (16 <= length (r_body r))%nat -> length page = length (r_body r) ->
  exists w', wb_write_page (rec_addr (wb_group_id w) rs i) page w = Ok w' /\
    wb_page (rec_addr (wb_group_id w) rs i) w' = Ok page /\
    forall j rj, j <> i -> rs !! j = Some rj -> r_flags rj = FLAG_NORMAL_PAGE ->
      (16 <= length (r_body rj))%nat ->
      wb_page (rec_addr (wb_group_id w) rs j) w' = Ok (r_body rj).
Proof.
  intros Hw Hi Hf Hs Hl. destruct (wb_write_page_ok w s rs Hw i r page Hi Hl) as (w' & Hww & Hw' & Hg & _).
  set (r' := mkRec _ _ page _) in Hw'.
  assert (Hsz : length (rec_bytes r') = length (rec_bytes r)).
  { unfold rec_bytes. rewrite !length_app, !length_rh_bytes. simpl. lia. }
  assert (Haddr : forall j, rec_addr (wb_group_id w) rs j = rec_addr (wb_group_id w') (<[i := r']> rs) j).
  { intros j. unfold rec_addr. by rewrite Hg, (rec_off_insert rs i r). }
  exists w'. split_and!; [done| |].
  - rewrite Haddr. apply (wb_page_ok w' s _ Hw' i r'); [|done|simpl; lia].
    apply list_lookup_insert_eq. by eapply lookup_lt_Some.
  - intros j rj Hne Hj Hfj Hsj. rewrite Haddr. apply (wb_page_ok w' s _ Hw' j rj); [|done|done].
    by rewrite list_lookup_insert_ne.
Qed.

Definition two_pages : list Rec :=
  [mkRec 1 FLAG_NORMAL_PAGE (replicate 16 1) []; mkRec 2 FLAG_NORMAL_PAGE (replicate 20 2) [0; 0; 0; 0]].

Lemma write_buffer_page_isolation_witness :
  exists w', wb_write_page (rec_addr 3 two_pages 0) (replicate 16 9)
      (mkWriteBuffer 3 (recs_bytes two_pages ++ replicate 56 0) 128 (pack (mkBufferState false 1 72))) = Ok w' /\
    wb_page (rec_addr 3 two_pages 1) w' = Ok (replicate 20 2).
Proof.
  destruct (write_buffer_page_isolation
    (mkWriteBuffer 3 (recs_bytes two_pages ++ replicate 56 0) 128 (pack (mkBufferState false 1 72)))
    (mkBufferState false 1 72) two_pages 0 (mkRec 1 FLAG_NORMAL_PAGE (replicate 16 1) []) (replicate 16 9))
    as (w' & Hw & _ & Ho); [|done|done|simpl; lia|done|].
  - constructor; try done; try (by eexists).
    repeat constructor; vm_compute; congruence.
  - exists w'. split; [done|].
    apply (Ho 1%nat (mkRec 2 FLAG_NORMAL_PAGE (replicate 20 2) [0; 0; 0; 0])); [done..|simpl; lia].
Defined.

(** ** Iterating over a flushable buffer *)

#[global] Instance record_iterator : Iterator RecordIterator (Z * RecordHeader * RecordRef) :=
  record_iter_next.

Definition rec_ref (r : Rec) : option RecordRef :=
  if r_flags r =? FLAG_NORMAL_PAGE then Some (RecPage (r_body r))
  else if r_flags r =? FLAG_DELETED_PAGES
  then Some (RecDeallocPages (u64s (length (r_body r) / 8) (r_body r)))
  else None.

Definition rec_wf (r : Rec) : Prop :=
  rec_ok r /\
  ((r_flags r = FLAG_NORMAL_PAGE /\ (16 <= length (r_body r))%nat) \/
   (r_flags r = FLAG_DELETED_PAGES /\ length (r_body r) mod 8 = 0) \/ r_flags r = FLAG_TOMBSTONE).

(** The live records from an offset on, with the addresses of their bodies. *)
Fixpoint live_from (g : Z) (off : nat) (rs : list Rec) : list (Z * RecordHeader * RecordRef) :=
  match rs with
  | [] => []
  | r :: rs =>
      match rec_ref r with
      | Some x => [(page_addr_of g (off + 16), rec_header r, x)]
      | None => []
      end ++ live_from g (off + length (rec_bytes r)) rs
  end.

Lemma wb_record_ref_ok w P Q r :
  wb_buf w = P ++ rec_bytes r ++ Q -> length (wb_buf w) = wb_buf_size w ->
  length P mod 8 = 0 -> rec_wf r ->
  wb_record_ref (length P) (rec_header r) w = Ok (rec_ref r).
Proof.
  intros Hb Hl Hp [Hok [[Hf Hs]|[[Hf Hs]|Hf]]]; unfold rec_ref; rewrite Hf.
  - by apply (wb_record_ref_page w P Q r).
  - change (FLAG_DELETED_PAGES =? FLAG_NORMAL_PAGE) with false. cbn match.
    unfold wb_record_ref. cbn [rec_header rh_flags rh_page_size]. rewrite Hf.
    change (flags_truncate FLAG_DELETED_PAGES) with FLAG_DELETED_PAGES.
    change (FLAG_DELETED_PAGES =? FLAG_NORMAL_PAGE) with false.
    change (FLAG_DELETED_PAGES =? FLAG_DELETED_PAGES) with true. cbn match.
    assert (E : Z.of_nat (length (r_body r)) / 8 * 8 = length (r_body r)).
    { pose proof (Z.div_mod (length (r_body r)) 8). lia. }
    rewrite rassert_true by (by apply Z.eqb_eq). cbn [mbind res_bind].
    rewrite E, (body_bytes_at w P Q r Hb Hl). cbn [mbind res_bind]. do 4 f_equal.
    apply Nat2Z.inj. rewrite Nat2Z.inj_div, Z2Nat.id; [done|]. apply Z.div_pos; lia.
  - by apply wb_record_ref_dead.
Qed.

(** The loop of the iterator from the offset after the records [rs1]. *)
Lemma record_loop_ok w s rs1 rs2 fuel :
  wb_repr w s (rs1 ++ rs2) -> Forall rec_wf rs2 -> (length rs2 < fuel)%nat ->
  let off := length (recs_bytes rs1) in
  exists rs1' rs2', rs1 ++ rs2 = rs1' ++ rs2' /\ Forall rec_wf rs2' /\
    (length rs2' <= length rs2)%nat /\
    record_loop fuel (allocated s) w off
      = Ok (head (live_from (wb_group_id w) off rs2), Z.of_nat (length (recs_bytes rs1'))) /\
    live_from (wb_group_id w) (length (recs_bytes rs1')) rs2' = tail (live_from (wb_group_id w) off rs2).
Proof.
  revert rs1 rs2; induction fuel as [|fuel IH]; intros rs1 rs2 Hw Hwf Hf off; [lia|].
  pose proof Hw as [Hg Hst Hok Hsz Hlen Hrs [rest Hb] Hal].
  rewrite recs_bytes_app, length_app in Hal. cbn [record_loop]. destruct rs2 as [|r rs2].
  { exists rs1, []. rewrite (proj2 (Z.leb_le _ _)); [by split_and!|]. simpl in Hal. unfold off. lia. }
  apply Forall_cons in Hwf as [Hr Hwf]. pose proof (proj1 Hr) as Hrok.
  assert (Hb' : wb_buf w = recs_bytes rs1 ++ rec_bytes r ++ recs_bytes rs2 ++ rest).
  { rewrite Hb, recs_bytes_app, recs_bytes_cons. by rewrite <- !app_assoc. }
  assert (Hm : off mod 8 = 0) by (apply Forall_app in Hrs as [? _]; by apply recs_aligned).
  pose proof (length_rec_bytes r Hrok) as Hlr. rewrite recs_bytes_cons, length_app in Hal.
  pose proof (align8_bounds (length (r_body r))) as [Hab _].
  destruct Hok as [[_ Ha] Hle]. unfold fits in Ha.
  rewrite (proj2 (Z.leb_gt _ _)) by (unfold off; lia).
  assert (E1 : wb_record off w = Ok (rec_header r))
    by exact (wb_record_at w (recs_bytes rs1) _ r Hb' Hlen Hm Hrok).
  assert (E2 : wb_record_ref off (rec_header r) w = Ok (rec_ref r))
    by exact (wb_record_ref_ok w (recs_bytes rs1) _ r Hb' Hlen Hm Hr).
  rewrite E1. cbn [mbind res_bind]. rewrite E2. cbn [mbind res_bind].
  assert (Hnext : wrap32 (off + rh_record_size (rec_header r)) = length (recs_bytes (rs1 ++ [r]))).
  { unfold rh_record_size. cbn [rec_header rh_page_size].
    destruct (record_size_ok (length (r_body r))) as [-> _]; [destruct Hrok as (_ & _ & ? & _); lia|].
    rewrite <- Hlr, recs_bytes_app, recs_bytes_one, length_app, wrap_small; [lia|unfold fits; lia]. }
  assert (Hoff : (off + length (rec_bytes r))%nat = length (recs_bytes (rs1 ++ [r])))
    by (by rewrite recs_bytes_app, recs_bytes_one, length_app).
  rewrite Hnext. unfold RECORD_HEADER_LEN. rewrite (wrap_small 32) by (unfold fits; lia).
  rewrite (cons_middle r), app_assoc in Hw. cbn [live_from]. rewrite Hoff.
  destruct (rec_ref r) as [x|] eqn:Ex.
  - exists (rs1 ++ [r]), rs2. split_and!; [by rewrite <- app_assoc|done|simpl; lia|done|done].
  - destruct (IH (rs1 ++ [r]) rs2 Hw Hwf) as (rs1' & rs2' & He & Hwf' & Hl' & Hrun & Hlv);
      [simpl in Hf; lia|].
    exists rs1', rs2'. split_and!; [by rewrite <- He, <- app_assoc|done|simpl; lia|done|done].
Qed.

Lemma length_recs_le rs : (length rs <= length (recs_bytes rs))%nat.
Proof.
  induction rs as [|r rs IH]; [done|]. rewrite recs_bytes_cons, length_app.
  unfold rec_bytes. rewrite length_app, length_rh_bytes. simpl. lia.
Qed.

Lemma record_drain_ok w s rs1 rs2 fuel :
  wb_repr w s (rs1 ++ rs2) -> Forall rec_wf rs2 -> is_flushable s = true ->
  (length (live_from (wb_group_id w) (length (recs_bytes rs1)) rs2) < fuel)%nat ->
  exists it', drain fuel (mkRecordIterator w (length (recs_bytes rs1)))
    = Ok (live_from (wb_group_id w) (length (recs_bytes rs1)) rs2, it').
Proof.
  revert rs1 rs2; induction fuel as [|fuel IH]; intros rs1 rs2 Hw Hwf Hfl Hlen; [lia|].
  cbn [drain]. change (next ?it) with (record_iter_next it).
  unfold record_iter_next. cbn [ri_buffer ri_offset].
  assert (Hst : wb_buffer_state w = s).
  { unfold wb_buffer_state. exact (buf_ok_load _ _ _ (wr_state _ _ _ Hw) (wr_ok _ _ _ Hw)). }
  rewrite Hst, Hfl. cbn [rassert mbind res_bind].
  destruct (record_loop_ok w s rs1 rs2 (S (Z.to_nat (allocated s))) Hw Hwf)
    as (rs1' & rs2' & He & Hwf' & Hl' & Hrun & Hlv).
  { rewrite (wr_alloc _ _ _ Hw), Nat2Z.id. pose proof (length_recs_le (rs1 ++ rs2)) as Hle.
    rewrite length_app in Hle. lia. }
  rewrite Hrun. cbn [mbind res_bind].
  destruct (live_from _ _ rs2) as [|x l]; cbn [head]; [by eexists|]. simpl in Hlv, Hlen.
  rewrite He in Hw. destruct (IH rs1' rs2' Hw Hwf' Hfl) as [it' Hd]; [rewrite Hlv; lia|].
  rewrite Hd. rewrite Hlv. cbn [mbind res_bind]. by eexists.
Qed.

(** Flushing reads back what was written: iterating over a sealed buffer
    without writers terminates and yields, in allocation order, exactly the page
    records and the dealloc records that were not marked as tombstones, each with
    its address, header and bytes. *)
Theorem write_buffer_iter_records (w : WriteBuffer) (s : BufferState) (rs : list Rec) :
  wb_repr w s rs -> Forall rec_wf rs -> is_flushable s = true ->
  exists it', drain (S (length rs)) (wb_iter w) = Ok (live_from (wb_group_id w) 0 rs, it').
Proof.
  intros Hw Hwf Hf. apply (record_drain_ok w s [] rs); [done..|].
  assert (forall off, (length (live_from (wb_group_id w) off rs) <= length rs)%nat) as Hle.
  { clear. induction rs as [|r rs IH]; intros off; [done|]. simpl. rewrite length_app.
    specialize (IH (off + length (rec_bytes r))%nat). destruct (rec_ref r); simpl in *; lia. }
  specialize (Hle (length (recs_bytes []))). simpl in *. lia.
Qed.

Lemma write_buffer_iter_records_witness :
  let rs := [mkRec 1 FLAG_NORMAL_PAGE (replicate 16 1) [];
             mkRec 2 FLAG_TOMBSTONE (replicate 16 2) [];
             mkRec 0 FLAG_DELETED_PAGES (le_bytes 8 77) []] in
  exists it', drain 4 (wb_iter (mkWriteBuffer 3 (recs_bytes rs ++ replicate 40 0) 128
      (pack (mkBufferState true 0 88)))) = Ok (live_from 3 0 rs, it').
Proof.
  intros rs.
  apply (write_buffer_iter_records (mkWriteBuffer 3 (recs_bytes rs ++ replicate 40 0) 128
    (pack (mkBufferState true 0 88))) (mkBufferState true 0 88) rs).
  - constructor; try done; try (by eexists). repeat constructor; vm_compute; congruence.
  - repeat (apply Forall_cons; split); [..|constructor];
      (split; [repeat split; vm_compute; congruence|]).
    + left. split; [done|simpl; lia].
    + by right; right.
    + by right; left.
  - done.
Defined.

(** ** Overflow of the allocation counter *)

Lemma next_multiple_wraps x : 2 ^ 32 - 8 < x < 2 ^ 32 -> next_multiple_of_u32 x ALIGN = 0.
Proof.
  intros Hx. unfold next_multiple_of_u32, ALIGN.
  assert (wrap32 (x + 8) = x + 8 - 2 ^ 32) as -> by (symmetry; apply (Z.mod_unique _ _ 1); lia).
  rewrite (wrap_small 32 (x + 8 - 2 ^ 32 - 1)) by (unfold fits; lia).
  by rewrite Z.div_small by lia.
Qed.
(** What [alloc_size] does on any request: the sizes wrap around at 2^32. *)
Lemma state_alloc_size_eq required bs s :
  0 <= bs <= 2 ^ 31 -> 0 <= allocated s <= bs -> fits 32 required ->
  let r := if required <=? 2 ^ 32 - 8 then align8 required else 0 in
  state_alloc_size required bs s =
    if bs <? r then Err TooLargeSize
    else if allocated s + r <=? bs then Ok (allocated s, add_alloc r false s)
    else if allocated s + r =? 2 ^ 32 then Ok (allocated s, mkBufferState (sealed s) (num_writer s) 0)
    else Err Again.
Proof.
  intros Hbs Ha [Hr0 Hr1] r. unfold state_alloc_size.
  assert (Er : next_multiple_of_u32 required ALIGN = r /\ 0 <= r).
  { unfold r. destruct (required <=? 2 ^ 32 - 8) eqn:E; boolify.
    - pose proof (align8_bounds required). split; [apply next_multiple_ok; lia|lia].
    - split; [apply next_multiple_wraps; lia|done]. }
  destruct Er as [-> Hr]. clearbody r. destruct (bs <? r) eqn:E1; [done|]. boolify.
  unfold add_alloc. rewrite Z.add_0_r. destruct (Z.eq_dec (allocated s + r) (2 ^ 32)) as [E|E].
  - rewrite E, Z.eqb_refl. rewrite (proj2 (Z.leb_gt _ _)) by lia. change (wrap32 (2 ^ 32)) with 0. by rewrite (proj2 (Z.ltb_ge _ _)) by lia.
  - rewrite (wrap_small 32) by (unfold fits; lia). rewrite (proj2 (Z.eqb_neq _ _)) by done.
    destruct (bs <? allocated s + r) eqn:E2; boolify; [by rewrite (proj2 (Z.leb_gt _ _))|by rewrite (proj2 (Z.leb_le _ _))].
Qed.

(** [C37] When an allocation stays in the buffer. In a buffer of at most 2^31 bytes (the
    most [with_capacity] accepts), [alloc_size] hands out a region that ends behind the
    buffer exactly in two cases, in which a [u32] sum wraps to 0: for a request of more
    than 2^32 - 8 bytes, which is rounded up to nothing, and for a request of the whole
    buffer when the buffer has 2^31 bytes and all of them are allocated. Otherwise a region
    that is handed out starts where the last one ended, and the state has grown by the
    rounded request and is still within the buffer; and a request is refused only when it
    is larger than the buffer, or larger than what is left of it. *)
Theorem alloc_size_in_bounds required bs s :
  0 <= bs <= 2 ^ 31 -> 0 <= allocated s <= bs -> fits 32 required ->
  ((exists offset s', state_alloc_size required bs s = Ok (offset, s') /\ bs < offset + required) <->
     2 ^ 32 - 8 < required \/ allocated s = 2 ^ 31 /\ 2 ^ 31 - 8 < required <= 2 ^ 31) /\
  (forall offset s', state_alloc_size required bs s = Ok (offset, s') -> offset + required <= bs ->
     offset = allocated s /\ s' = mkBufferState (sealed s) (num_writer s) (allocated s + align8 required) /\ allocated s' <= bs) /\
  (forall e, state_alloc_size required bs s = Err e ->
     e = TooLargeSize /\ bs < align8 required \/ e = Again /\ align8 required <= bs < allocated s + align8 required).
Proof.
  intros Hbs Ha Hr. pose proof (state_alloc_size_eq required bs s Hbs Ha Hr) as E. cbv zeta in E. destruct Hr as [Hr0 Hr1].
  destruct (align8_bounds required) as [Hal [k Hk]%Z.mod_divide]; [|done]. rewrite E. unfold add_alloc. rewrite Z.add_0_r.
  destruct (required <=? 2 ^ 32 - 8) eqn:Eb; boolify.
  - destruct (bs <? align8 required) eqn:E1; boolify; [|destruct (allocated s + align8 required <=? bs) eqn:E2; boolify; [|destruct (allocated s + align8 required =? 2 ^ 32) eqn:E3; boolify]].
    + split; [split; [by intros (? & ? & ? & _)|intros [?|?]; lia]|]. split; [done|]. intros e [= <-]. left. split; [done|lia].
    + split; [split; [intros (o & s' & [= <- <-] & ?); lia|intros [?|?]; lia]|]. split; [|done]. intros o s' [= <- <-] _. cbn. split_and!; [done|done|lia].
    + split; [split; [intros _; right; lia|intros _; do 2 eexists; split; [done|lia]]|]. split; [|done]. intros o s' [= <- <-] ?. lia.
    + split; [split; [by intros (? & ? & ? & _)|intros [?|?]; lia]|]. split; [done|]. intros e [= <-]. right. split; [done|lia].
  - rewrite (proj2 (Z.ltb_ge _ _)) by lia. rewrite Z.add_0_r, (proj2 (Z.leb_le _ _)) by lia.
    split; [split; [intros _; left; lia|intros _; do 2 eexists; split; [done|lia]]|]. split; [|done]. intros o s' [= <- <-] ?. lia.
Qed.

Lemma alloc_size_in_bounds_witness :
  exists offset s', state_alloc_size (2 ^ 31) (2 ^ 31) (mkBufferState false 1 (2 ^ 31)) = Ok (offset, s') /\ 2 ^ 31 < offset + 2 ^ 31.
Proof.
  apply (alloc_size_in_bounds (2 ^ 31) (2 ^ 31) (mkBufferState false 1 (2 ^ 31))); [lia|cbn; lia|split; lia|right; cbn; lia].
Defined.

(** The second case: the whole buffer is handed out once more, and then again. *)
Example buffer_state_alloc_wraps :
  state_alloc_size (2 ^ 31) (2 ^ 31) (mkBufferState false 1 (2 ^ 31)) = Ok (2 ^ 31, mkBufferState false 1 0) /\
  state_alloc_size (2 ^ 31) (2 ^ 31) (mkBufferState false 1 0) = Ok (0, mkBufferState false 1 (2 ^ 31)).
Proof. split; reflexivity. Qed.
