(* ===== verification/BufferSet.v ===== *)
(** * The buffer set ([page_store/buffer_set.rs])

    A [BufferSetVersion] is the run of write buffers that are not released yet:
    the sealed ones and the current one. It is replaced as a whole by a
    compare-exchange, which [install] and [release_until] retry; one turn is one
    function here. [WriteBufferPermits] is the counter that bounds the buffers:
    its atomic word encodes the permits available and whether someone waits. *)

From stdpp Require Import base numbers list.
From Stdlib Require Import ZArith Lia.
From S2P Require Import Prelude BasePage Iter WriteBuffer.

(** ** [BufferSetVersion] *)

Record BufferSetVersion := mkBufferSetVersion {
  bsv_start : Z;
  bsv_end : Z;
  bsv_sealed : list WriteBuffer;
  bsv_current : WriteBuffer;
}.

(** [BufferSet::new] and its first version, given its first buffer. *)
Definition buffer_set_new (next_group_id : Z) (capacity : nat) (mem : list Z) : res BufferSetVersion :=
  buf ← wb_with_capacity next_group_id capacity mem;
  Ok (mkBufferSetVersion next_group_id (wrap32 (next_group_id + 1)) [] buf).

Definition bsv_get (group_id : Z) (v : BufferSetVersion) : res (option WriteBuffer) :=
  if negb ((bsv_start v <=? group_id) && (group_id <? bsv_end v)) then Ok None
  else
    let index := Z.to_nat (wrap32 (group_id - bsv_start v)) in
    match Nat.compare index (length (bsv_sealed v)) with
    | Lt => b ← expect (bsv_sealed v !! index); Ok (Some b)
    | Eq => Ok (Some (bsv_current v))
    | Gt => Panic
    end.

Definition bsv_min_buffer_id (v : BufferSetVersion) : Z := bsv_start v.
Definition bsv_next_buffer_id (v : BufferSetVersion) : Z := bsv_end v.
Definition bsv_snapshot (v : BufferSetVersion) : list WriteBuffer := bsv_sealed v ++ [bsv_current v].

(** One turn of [BufferSet::install]. *)
Definition bsv_install (buf : WriteBuffer) (v : BufferSetVersion) : res BufferSetVersion :=
  let next_group_id := bsv_end v in
  if negb (wb_group_id buf =? next_group_id) then Panic
  else Ok (mkBufferSetVersion (bsv_start v) (wrap32 (next_group_id + 1)) (bsv_snapshot v) buf).

(** One turn of [BufferSet::release_until]. *)
Definition bsv_release_until (first_buffer_id : Z) (v : BufferSetVersion) : res BufferSetVersion :=
  if negb (wrap32 (bsv_min_buffer_id v + 1) =? first_buffer_id) then Panic
  else Ok (mkBufferSetVersion first_buffer_id (bsv_end v)
             (base.filter (λ b, first_buffer_id <= wb_group_id b) (bsv_sealed v)) (bsv_current v)).

(** Mutation of a shared buffer: the buffers are behind [Arc]s, so an update of one
    shows in the set. *)
Definition bsv_update (group_id : Z) (b : WriteBuffer) (v : BufferSetVersion) : BufferSetVersion :=
  let index := Z.to_nat (group_id - bsv_start v) in
  if (length (bsv_sealed v) <=? index)%nat
  then mkBufferSetVersion (bsv_start v) (bsv_end v) (bsv_sealed v) b
  else mkBufferSetVersion (bsv_start v) (bsv_end v) (<[index := b]> (bsv_sealed v)) (bsv_current v).

(** [acquire_active_buffer_id]: the id of the current buffer, once it is not
    sealed; [None] is a caller that has to wait. *)
Definition bsv_active (v : BufferSetVersion) : option Z :=
  if wb_is_sealed (bsv_current v) then None else Some (wb_group_id (bsv_current v)).

(** [seal_buffer]: the release state, or [None] when the buffer was sealed. *)
Definition bsv_seal_buffer (group_id : Z) (v : BufferSetVersion) :
    res (option ReleaseState * BufferSetVersion) :=
  b ← bsv_get group_id v;
  b ← expect b;
  match wb_seal b with
  | Ok (r, b) => Ok (Some r, bsv_update group_id b v)
  | Err _ => Ok (None, v)
  | Panic => Panic
  end.

(** [switch_buffer], after the permit for the successor has been acquired: seals
    the buffer, installs its successor, and reports whether the flush job is
    notified. *)
Definition bsv_switch_buffer (group_id : Z) (capacity : nat) (mem : list Z) (v : BufferSetVersion) :
    res (bool * BufferSetVersion) :=
  '(r, v) ← bsv_seal_buffer group_id v;
  match r with
  | None => Ok (false, v)
  | Some r =>
      buf ← wb_with_capacity (wrap32 (group_id + 1)) capacity mem;
      v ← bsv_install buf v;
      Ok (match r with ReleaseFlush => true | ReleaseNone => false end, v)
  end.

(** ** [WriteBufferPermits] *)

Inductive AcquireKind := AcquireNone | AddWaiter.
Inductive WaitKind := HasPermits | NoWaiter.

Definition permits_new (permits : Z) : Z := permits + 1.

(** The condition a [wait] of each kind waits for. *)
Definition permits_wait_cond (k : WaitKind) (word : Z) : bool :=
  match k with HasPermits => 1 <? word | NoWaiter => 0 <? word end.

(** [acquire_fast]: the new word and whether a permit was acquired. *)
Definition permits_acquire_fast (k : AcquireKind) (word : Z) : Z * bool :=
  let min_permit := match k with AcquireNone => 1 | AddWaiter => 0 end in
  let new := if min_permit <? word then word - 1 else word in
  (new, 1 <? word).

(** [release]: the new word and whether the waiters are notified. *)
Definition permits_release (word : Z) : Z * bool :=
  (if word =? 0 then 2 else word + 1, word =? 0).

(** ** Well-formed versions *)

(** The buffers have consecutive ids from [bsv_start] to [bsv_end - 1]. *)
Definition bsv_wf (v : BufferSetVersion) : Prop :=
  0 <= bsv_start v /\ bsv_end v <= u32_max /\
  bsv_end v = bsv_start v + length (bsv_snapshot v) /\
  forall (i : nat) b, bsv_snapshot v !! i = Some b -> wb_group_id b = bsv_start v + i.

Lemma bsv_index_wrap v group_id :
  bsv_wf v -> bsv_start v <= group_id < bsv_end v ->
  Z.to_nat (wrap32 (group_id - bsv_start v)) = Z.to_nat (group_id - bsv_start v).
Proof.
  intros (H0 & He & _) Hr. f_equal. apply wrap_small. unfold fits, u32_max in *. lia.
Qed.

Lemma bsv_get_ok v group_id :
  bsv_wf v ->
  bsv_get group_id v =
    Ok (if decide (bsv_start v <= group_id) then bsv_snapshot v !! Z.to_nat (group_id - bsv_start v)
        else None).
Proof.
  intros Hwf. pose proof Hwf as (H0 & He & Hlen & _). unfold bsv_snapshot in Hlen. 
  rewrite length_app in Hlen. simpl in Hlen. unfold bsv_get, bsv_snapshot.
  case_decide as Hs; [|by rewrite (proj2 (Z.leb_gt _ _)) by lia].
  rewrite (proj2 (Z.leb_le _ _)) by lia. simpl.
  destruct (group_id <? bsv_end v) eqn:E; simpl; boolify.
  - rewrite bsv_index_wrap by done. set (i := Z.to_nat (group_id - bsv_start v)).
    destruct (Nat.compare_spec i (length (bsv_sealed v))) as [Hi|Hi|Hi].
    + by rewrite Hi, list_lookup_middle.
    + rewrite lookup_app_l by done.
      destruct (lookup_lt_is_Some_2 (bsv_sealed v) i Hi) as [b ->]. done.
    + lia.
  - rewrite lookup_ge_None_2; [done|]. rewrite length_app. simpl. lia.
Qed.

(** Looking up a write buffer: in a well-formed version the lookup never
    panics; it returns the buffer with exactly the requested group id when this
    id is in the range of the version, and nothing otherwise. *)
Theorem buffer_set_get (v : BufferSetVersion) (group_id : Z) :
  bsv_wf v ->
  exists r, bsv_get group_id v = Ok r /\
    match r with
    | Some b => wb_group_id b = group_id /\ bsv_start v <= group_id < bsv_end v
    | None => ~ (bsv_start v <= group_id < bsv_end v)
    end.
Proof.
  intros Hwf. rewrite bsv_get_ok by done. eexists; split; [done|].
  destruct Hwf as (H0 & He & Hlen & Hid). case_decide as Hs; [|lia].
  destruct (bsv_snapshot v !! _) as [b|] eqn:E.
  - split; [rewrite (Hid _ _ E); lia|]. apply lookup_lt_Some in E. lia.
  - apply lookup_ge_None in E. lia.
Qed.

Definition one_buffer (g : Z) : BufferSetVersion :=
  mkBufferSetVersion g (g + 1) [] (fresh_buffer g (replicate 64 0)).

Lemma one_buffer_wf g : 0 <= g -> g + 1 <= u32_max -> bsv_wf (one_buffer g).
Proof.
  intros H0 H1. split_and!; [done|done|done|].
  intros i b Hi%list_lookup_singleton_Some. destruct Hi as [-> <-]. simpl. lia.
Qed.

Lemma buffer_set_get_witness :
  exists r, bsv_get 7 (one_buffer 7) = Ok r /\
    match r with
    | Some b => wb_group_id b = 7 /\ 7 <= 7 < 8
    | None => ~ (7 <= 7 < 8)
    end.
Proof.
  apply (buffer_set_get (one_buffer 7) 7). apply one_buffer_wf; [lia|vm_compute; congruence].
Defined.

Lemma bsv_install_ok v buf :
  bsv_wf v -> wb_group_id buf = bsv_end v -> bsv_end v < u32_max ->
  exists v', bsv_install buf v = Ok v' /\ bsv_wf v' /\
    bsv_start v' = bsv_start v /\ bsv_snapshot v' = bsv_snapshot v ++ [buf] /\ bsv_current v' = buf.
Proof.
  intros (H0 & He & Hlen & Hid) Hb Hm. unfold bsv_install. rewrite Hb, Z.eqb_refl. simpl.
  eexists; split; [done|]. split; [|done].
  rewrite wrap_small by (unfold fits, u32_max in *; lia). split_and!; simpl; [done|lia| |].
  - unfold bsv_snapshot at 1. simpl. rewrite length_app. simpl. lia.
  - intros i b. unfold bsv_snapshot at 1. simpl. rewrite lookup_app_Some.
    intros [Hi|[Hge Hi]]; [by apply Hid|].
    apply list_lookup_singleton_Some in Hi as [? <-]. lia.
Qed.

Lemma bsv_filter_ids (start : Z) (l : list WriteBuffer) :
  (forall (i : nat) b, l !! i = Some b -> wb_group_id b = start + i) ->
  base.filter (λ b, start + 1 <= wb_group_id b) l = tail l.
Proof.
  intros Hid. destruct l as [|b l]; [done|].
  rewrite filter_cons_False by (rewrite (Hid 0%nat b) by done; lia).
  apply filter_all. apply Forall_lookup. intros i x Hx. rewrite (Hid (S i) x) by done. lia.
Qed.

Lemma bsv_release_ok v :
  bsv_wf v -> bsv_sealed v <> [] ->
  exists v', bsv_release_until (bsv_start v + 1) v = Ok v' /\ bsv_wf v' /\
    bsv_start v' = bsv_start v + 1 /\ bsv_snapshot v' = tail (bsv_snapshot v).
Proof.
  intros (H0 & He & Hlen & Hid) Hne. unfold bsv_release_until, bsv_min_buffer_id.
  unfold bsv_snapshot in *. rewrite length_app in Hlen. simpl in Hlen.
  rewrite wrap_small by (unfold fits, u32_max in *; lia). rewrite Z.eqb_refl. simpl.
  rewrite bsv_filter_ids.
  2: { intros i b Hi. apply Hid. by apply lookup_app_l_Some. }
  destruct (bsv_sealed v) as [|b0 l]; [done|]. simpl in *.
  eexists; split; [done|]. split; [|done]. split_and!; simpl; [lia|done| |].
  - unfold bsv_snapshot. simpl. rewrite length_app. simpl. lia.
  - intros i b Hi. rewrite (Hid (S i) b) by done. lia.
Qed.

(** The buffer set keeps consecutive ids: installing the successor of the
    last buffer keeps every buffer of the version and adds the new one as current,
    any other buffer panics; releasing drops exactly the oldest buffer, if it is
    not the current one, and releasing out of order panics. *)
Theorem buffer_set_install_release (v : BufferSetVersion) (buf : WriteBuffer) :
  bsv_wf v -> bsv_end v < u32_max ->
  (wb_group_id buf = bsv_end v -> exists v', bsv_install buf v = Ok v' /\ bsv_wf v' /\
     bsv_snapshot v' = bsv_snapshot v ++ [buf] /\ bsv_current v' = buf) /\
  (wb_group_id buf <> bsv_end v -> bsv_install buf v = Panic) /\
  (bsv_sealed v <> [] -> exists v', bsv_release_until (bsv_start v + 1) v = Ok v' /\ bsv_wf v' /\
     bsv_snapshot v' = tail (bsv_snapshot v) /\ bsv_current v' = bsv_current v) /\
  (forall id, id <> bsv_start v + 1 -> bsv_release_until id v = Panic).
Proof.
  intros Hwf Hm. pose proof Hwf as (H0 & He & Hlen & Hid). split_and!.
  - intros Hb. destruct (bsv_install_ok v buf Hwf Hb Hm) as (v' & Hi & Hw' & _ & Hs & Hc). by exists v'.
  - intros Hb. unfold bsv_install. by rewrite (proj2 (Z.eqb_neq _ _)).
  - intros Hne. destruct (bsv_release_ok v Hwf Hne) as (v' & Hr & Hw' & _ & Hs).
    exists v'. split_and!; [done..|]. unfold bsv_release_until in Hr.
    destruct (negb _) in Hr; [done|]. by injection Hr as <-.
  - intros id Hne. unfold bsv_release_until, bsv_min_buffer_id.
    assert (bsv_start v < bsv_end v) by (unfold bsv_snapshot in *; rewrite length_app in *; simpl in *; lia).
    rewrite wrap_small by (unfold fits, u32_max in *; lia).
    by rewrite (proj2 (Z.eqb_neq _ _)) by lia.
Qed.

Lemma buffer_set_install_release_witness :
  exists v', bsv_install (fresh_buffer 8 (replicate 64 0)) (one_buffer 7) = Ok v' /\ bsv_wf v'.
Proof.
  destruct (buffer_set_install_release (one_buffer 7) (fresh_buffer 8 (replicate 64 0))) as (Hi & _).
  - apply one_buffer_wf; [lia|vm_compute; congruence].
  - vm_compute. done.
  - destruct Hi as (v' & Hi & Hw & _); [done|]. by exists v'.
Defined.

(** ** Any interleaving of acquires and releases of permits *)

Inductive PermitEvent :=
  | EvAcquire (k : AcquireKind) (acquired : bool)
  | EvReleasePermit (notified : bool).

Inductive permit_step : Z -> PermitEvent -> Z -> Prop :=
  | permit_acquire w k w' got :
      permits_acquire_fast k w = (w', got) -> permit_step w (EvAcquire k got) w'
  | permit_release w w' n : permits_release w = (w', n) -> permit_step w (EvReleasePermit n) w'.

Inductive permit_trace : Z -> list PermitEvent -> Z -> Prop :=
  | permit_nil w : permit_trace w [] w
  | permit_cons w e w' es w'' :
      permit_step w e w' -> permit_trace w' es w'' -> permit_trace w (e :: es) w''.

(** The permits a word stands for. *)
Definition available (w : Z) : Z := Z.max 0 (w - 1).

(** The permits acquired and not released. *)
Definition outstanding (es : list PermitEvent) : Z :=
  foldr (λ e n, match e with
                | EvAcquire _ true => n + 1 | EvAcquire _ false => n
                | EvReleasePermit _ => n - 1 end) 0 es.

Lemma permit_step_available w e w' :
  0 <= w -> permit_step w e w' ->
  0 <= w' /\ available w' + outstanding [e] = available w.
Proof.
  intros Hw Hs. unfold available. inversion Hs as [? k ? got H|? ? n H]; subst; simpl.
  - unfold permits_acquire_fast in H. injection H as <- <-.
    destruct k; (destruct (1 <? w) eqn:E1; boolify); simpl;
      [..|destruct (0 <? w) eqn:E0; boolify]; try lia.
    rewrite (proj2 (Z.ltb_lt 0 w)) by lia. lia.
  - unfold permits_release in H. injection H as <- <-. destruct (w =? 0) eqn:E; boolify; lia.
Qed.

Lemma permit_trace_available w es w' :
  permit_trace w es w' -> 0 <= w -> 0 <= w' /\ available w' + outstanding es = available w.
Proof.
  induction 1 as [w|w e w' es w'' Hs _ IH]; intros Hw; [simpl; lia|].
  destruct (permit_step_available w e w' Hw Hs) as [Hw' He]. destruct (IH Hw') as [Hw'' Hes].
  split; [done|]. simpl in *. destruct e as [k []|]; simpl in *; lia.
Qed.

(** While someone waits only a release changes the word. *)
Lemma permit_trace_waiting w0 es w :
  permit_trace w0 es w -> w0 = 0 -> (forall n, EvReleasePermit n ∉ es) -> w = 0.
Proof.
  intros Ht. induction Ht as [w0|w0 e w' es w'' Hs _ IH]; intros -> Hn; [done|].
  apply IH.
  - inversion Hs as [? k ? got H|? ? n H]; subst.
    + unfold permits_acquire_fast in H. by destruct k; injection H as <- _.
    + exfalso. apply (Hn n). by apply list_elem_of_here.
  - intros n Hin. apply (Hn n). by apply list_elem_of_further.
Qed.

(** Write buffer permits under any interleaving: the permits available and
    those handed out always add up to the number the counter was created with, so
    at most that many buffers are outstanding; and no wake-up is lost: when an
    acquirer registers as a waiter because there is no permit, the next release,
    whoever makes it and whatever acquires come in between, notifies the
    waiters. *)
Theorem buffer_permits_conserved (n : Z) (es : list PermitEvent) (w : Z) :
  0 <= n -> permit_trace (permits_new n) es w ->
  available w + outstanding es = n /\ outstanding es <= n /\
  (forall w1 es' w2 b w3,
     permit_step w (EvAcquire AddWaiter false) w1 -> permit_trace w1 es' w2 ->
     (forall b', EvReleasePermit b' ∉ es') -> permit_step w2 (EvReleasePermit b) w3 -> b = true).
Proof.
  intros Hn Ht. destruct (permit_trace_available _ _ _ Ht) as [Hw Hav]; [unfold permits_new; lia|].
  unfold permits_new, available in *. split_and!; [lia|lia|].
  intros w1 es' w2 b w3 Hwait Htr Hno Hrel.
  assert (w1 = 0) as ->.
  { inversion Hwait as [? k ? got H|]; subst. unfold permits_acquire_fast in H.
    injection H as <- E1. boolify. destruct (0 <? w) eqn:E0; boolify; lia. }
  apply permit_trace_waiting in Htr; [|done|done]. subst w2.
  inversion Hrel as [|? ? ? H]; subst. by injection H as _ <-.
Qed.

Lemma buffer_permits_conserved_witness :
  available 0 + outstanding [EvAcquire AcquireNone true; EvAcquire AddWaiter false] = 1 /\
  outstanding [EvAcquire AcquireNone true; EvAcquire AddWaiter false] <= 1.
Proof.
  destruct (buffer_permits_conserved 1 [EvAcquire AcquireNone true; EvAcquire AddWaiter false] 0)
    as (H1 & H2 & _); [lia| |done].
  eapply permit_cons; [by apply permit_acquire|]. eapply permit_cons; [by apply permit_acquire|].
  constructor.
Defined.
