(* ===== verification/Stall.v ===== *)
(** * Waiting for a write buffer ([buffer_permits] of [page_store/buffer_set.rs])

    The tasks that wait on [WriteBufferPermits]: writers that stall because all
    buffers are in use, and tasks that wait until there is no stalled writer or until
    a permit is available. The loop of [wait_cond] is run step by step, on the
    [Notify] of [Notify.v], and the steps of all tasks interleave. *)

From stdpp Require Import base numbers list gmap.
From Stdlib Require Import ZArith Lia.
From S2P Require Import Prelude Notify WriteBuffer BufferSet.

(** ** The state *)

(** The condition of a [wait_cond]: that of [acquire_slow] or of a [wait]. *)
Inductive Cond := CAcquire | CWait (k : WaitKind).

(** Where a task is in [wait_cond]: before [notify.notified()], before [enable], before
    the condition, at the [await], and after the loop, before the future is dropped. *)
Inductive Pc := PcNew | PcEnable | PcCheck | PcAwait | PcReturn.

(** The word of the permits, the [Notify], the tasks inside [wait_cond], each with a
    future of its own id, and the calls of [release] that are still to notify. *)
Record Permits := mkPermits {
  p_word : Z;
  p_notify : Notify;
  p_tasks : gmap Z (Cond * Pc);
  p_pending : nat;
}.

Definition permits_init (n : Z) : Permits := mkPermits (permits_new n) notify_new ∅ 0.

Definition set_pc (id : Z) (c : Cond) (pc : Pc) (p : Permits) : Permits :=
  mkPermits (p_word p) (p_notify p) (<[id := (c, pc)]> (p_tasks p)) (p_pending p).
Definition with_notify (n : Notify) (p : Permits) : Permits :=
  mkPermits (p_word p) n (p_tasks p) (p_pending p).
Definition with_permits (w : Z) (p : Permits) : Permits :=
  mkPermits w (p_notify p) (p_tasks p) (p_pending p).

(** ** The steps *)

(** [acquire]: the fast path, or into [wait_cond]. *)
Definition acquire (id : Z) (p : Permits) : Permits :=
  let '(w, ok) := permits_acquire_fast AddWaiter (p_word p) in
  let p := with_permits w p in
  if ok : bool then p else set_pc id CAcquire PcNew p.

(** [try_acquire]. *)
Definition try_acquire (p : Permits) : Permits :=
  with_permits (permits_acquire_fast AcquireNone (p_word p)).1 p.

(** [wait]: the condition holds, or into [wait_cond]. *)
Definition wait (k : WaitKind) (id : Z) (p : Permits) : Permits :=
  if permits_wait_cond k (p_word p) then p else set_pc id (CWait k) PcNew p.

(** [release]: the new word; [notify_waiters] follows when there was a waiter. *)
Definition release (p : Permits) : Permits :=
  let '(w, notify) := permits_release (p_word p) in
  mkPermits w (p_notify p) (p_tasks p) (if notify : bool then S (p_pending p) else p_pending p).

(** One evaluation of the condition. *)
Definition cond_fn (c : Cond) (w : Z) : Z * bool :=
  match c with
  | CAcquire => permits_acquire_fast AddWaiter w
  | CWait k => (w, permits_wait_cond k w)
  end.

(** One step of a task in [wait_cond]. *)
Definition wait_cond_step (id : Z) (c : Cond) (pc : Pc) (p : Permits) : res Permits :=
  match pc with
  | PcNew => Ok (set_pc id c PcEnable (with_notify (notified id (p_notify p)) p))
  | PcEnable =>
      '(_, n) ← enable id (p_notify p);
      Ok (set_pc id c PcCheck (with_notify n p))
  | PcCheck =>
      let '(w, ok) := cond_fn c (p_word p) in
      Ok (set_pc id c (if ok : bool then PcReturn else PcAwait) (with_permits w p))
  | PcAwait =>
      '(ready, n) ← poll id id (p_notify p);
      if ready : bool then
        (* [notified.set(self.notify.notified())] *)
        n ← notified_drop id n;
        Ok (set_pc id c PcEnable (with_notify (notified id n) p))
      else Ok (with_notify n p)
  | PcReturn =>
      n ← notified_drop id (p_notify p);
      Ok (mkPermits (p_word p) n (delete id (p_tasks p)) (p_pending p))
  end.

Inductive WaitEvent :=
  | EvAcquire (id : Z)
  | EvTry
  | EvWait (k : WaitKind) (id : Z)
  | EvTask (id : Z)
  | EvRelease
  | EvNotify.

(** A step of the system; [None] when it cannot be taken. *)
Definition wait_step (e : WaitEvent) (p : Permits) : option (res Permits) :=
  match e with
  | EvAcquire id => if decide (p_tasks p !! id = None) then Some (Ok (acquire id p)) else None
  | EvTry => Some (Ok (try_acquire p))
  | EvWait k id => if decide (p_tasks p !! id = None) then Some (Ok (wait k id p)) else None
  | EvTask id =>
      match p_tasks p !! id with
      | Some (c, pc) => Some (wait_cond_step id c pc p)
      | None => None
      end
  | EvRelease => Some (Ok (release p))
  | EvNotify =>
      match p_pending p with
      | O => None
      | S k => Some (n ← notify_waiters (p_notify p); Ok (mkPermits (p_word p) n (p_tasks p) k))
      end
  end.

Inductive wait_steps : Permits -> list WaitEvent -> Permits -> Prop :=
  | wait_steps_nil p : wait_steps p [] p
  | wait_steps_cons p e p1 es p2 :
      wait_step e p = Some (Ok p1) -> wait_steps p1 es p2 -> wait_steps p (e :: es) p2.

(** ** The invariant *)

(** The future of a task exists from [notified] on; it has no notification of
    [notify_one] and is registered once [enable] ran; and a task that sleeps at its [await], for the permit or for the
    other writers, has seen a word of 0, unless a notification is on its way. *)
Record permits_inv (p : Permits) : Prop := {
  pi_word : 0 <= p_word p;
  pi_notify : notify_wf (p_notify p);
  pi_futures : forall id, is_Some (nt_objs (p_notify p) !! id) <->
    exists c pc, p_tasks p !! id = Some (c, pc) /\ pc <> PcNew;
  pi_one : forall id o, nt_objs (p_notify p) !! id = Some o -> w_notified (n_waiter o) <> Some OneWaiter;
  pi_enabled : forall id c pc o, p_tasks p !! id = Some (c, pc) -> pc <> PcEnable ->
    nt_objs (p_notify p) !! id = Some o -> forall calls, n_state o <> Init calls;
  pi_sleep : forall id c, p_tasks p !! id = Some (c, PcAwait) -> asleep id (p_notify p) -> c <> CWait HasPermits ->
    p_word p = 0 \/ (0 < p_pending p)%nat;
}.

Lemma permits_init_inv n : 0 <= n -> permits_inv (permits_init n).
Proof.
  intros Hn. constructor; simpl; [unfold permits_new; lia|apply notify_new_wf| |done|done|done].
  intros id. split; [by intros [? [=]]|by intros (? & ? & [=] & _)].
Qed.

(** The word only falls from 0 to 0. *)
Lemma with_permits_inv w p : permits_inv p -> 0 <= w -> (p_word p = 0 -> w = 0) -> permits_inv (with_permits w p).
Proof.
  intros [H1 H2 H3 H4 H6 H5] Hw Hz. constructor; simpl; [done|done|done|done|done|].
  intros id c Hid Hs Hc. destruct (H5 id c Hid Hs Hc) as [E|E]; [left; auto|by right].
Qed.

Lemma acquire_fast_word k w : 0 <= w ->
  0 <= (permits_acquire_fast k w).1 /\ (w = 0 -> (permits_acquire_fast k w).1 = 0) /\
  (k = AddWaiter -> (permits_acquire_fast k w).2 = false -> (permits_acquire_fast k w).1 = 0).
Proof.
  intros Hw. unfold permits_acquire_fast. cbn [fst snd]. destruct k; (destruct (_ <? w) eqn:E1; boolify);
    split_and!; try lia; try done; intros _ E2; boolify; lia.
Qed.

(** A new task, before its future. *)
Lemma new_task_inv id c p : permits_inv p -> p_tasks p !! id = None -> permits_inv (set_pc id c PcNew p).
Proof.
  intros [H1 H2 H3 H4 H6 H5] Hid. constructor; simpl; [done|done| |done| |].
  - intros i. rewrite H3. destruct (decide (i = id)) as [->|Hne]; [|by setoid_rewrite lookup_insert_ne].
    rewrite Hid. setoid_rewrite lookup_insert_eq. naive_solver.
  - intros i c' pc o Hi Hpc Ho. apply lookup_insert_Some in Hi as [[<- _]|[_ Hi]]; [|by eapply H6].
    destruct (proj1 (H3 id) (ex_intro _ o Ho)) as (c2 & pc2 & E & _). congruence.
  - intros i c' Hi. apply lookup_insert_Some in Hi as [[_ [=]]|[_ Hi]]. by apply H5.
Qed.

(** A step of a task on its own future. *)
Lemma future_inv id c pc pc' n o p :
  permits_inv p -> p_tasks p !! id = Some (c, pc) -> pc' <> PcNew -> notify_wf n ->
  (forall i, i <> id -> nt_objs n !! i = nt_objs (p_notify p) !! i) ->
  nt_objs n !! id = Some o -> w_notified (n_waiter o) <> Some OneWaiter ->
  (pc' <> PcEnable -> forall calls, n_state o <> Init calls) ->
  (pc' = PcAwait -> asleep id n -> c <> CWait HasPermits -> p_word p = 0 \/ (0 < p_pending p)%nat) ->
  permits_inv (set_pc id c pc' (with_notify n p)).
Proof.
  intros [H1 H2 H3 H4 H6 H5] Hid Hpc Hn Ho Hobj Hone Hen Hsl. constructor; simpl; [done|done| | | |].
  - intros i. destruct (decide (i = id)) as [->|Hne].
    + rewrite Hobj. setoid_rewrite lookup_insert_eq. naive_solver.
    + rewrite Ho, H3 by done. by setoid_rewrite lookup_insert_ne.
  - intros i o' Hi. destruct (decide (i = id)) as [->|Hne]; [congruence|]. rewrite Ho in Hi by done. by eapply H4.
  - intros i c' pc2 o' Hi Hp2 Hi'. apply lookup_insert_Some in Hi as [[<- [= <- <-]]|[Hne Hi]].
    + rewrite Hobj in Hi'. injection Hi' as <-. by apply Hen.
    + rewrite Ho in Hi' by done. by eapply H6.
  - intros i c' Hi Hs Hc. apply lookup_insert_Some in Hi as [[<- [= <- ->]]|[Hne Hi]]; [by apply Hsl|].
    apply (H5 i c'); [done| |done]. unfold asleep, sleeps in *. by rewrite <- Ho.
Qed.

(** [notified] on a task without a future. *)
Lemma new_future_inv id c pc n p :
  permits_inv p -> p_tasks p !! id = Some (c, pc) -> notify_wf n -> nt_objs n !! id = None ->
  (forall i, i <> id -> nt_objs n !! i = nt_objs (p_notify p) !! i) ->
  permits_inv (set_pc id c PcEnable (with_notify (notified id n) p)).
Proof.
  intros Hp Hid Hn Hnone Ho. eapply future_inv; [done|exact Hid|done|by apply notified_wf| | | |done|done].
  - intros i Hi. simpl. rewrite lookup_insert_ne by done. by apply Ho.
  - simpl. apply lookup_insert_eq.
  - done.
Qed.

(** A poll never leaves a notification of [notify_one]. *)
Lemma poll_post_one n id r n' :
  poll_post n id r n' ->
  exists o, nt_objs n' !! id = Some o /\ w_notified (n_waiter o) = None /\ forall calls, n_state o <> Init calls.
Proof.
  intros (Hn & Hr & _). destruct r; destruct Hr as [w Hid]; eexists; (split_and!; [exact Hid| |done]); [|done].
  by apply (nw_init n' Hn id _ Hid).
Qed.

Lemma wait_cond_step_inv id c pc p :
  permits_inv p -> p_tasks p !! id = Some (c, pc) ->
  exists p', wait_cond_step id c pc p = Ok p' /\ permits_inv p'.
Proof.
  intros Hp Hid. pose proof Hp as [H1 H2 H3 H4 H6 H5]. 
  assert (Hfut : pc <> PcNew -> is_Some (nt_objs (p_notify p) !! id)) by (intros Hne; apply H3; eauto).
  destruct pc; cbn [wait_cond_step].
  - eexists. split; [done|]. eapply new_future_inv; [done|exact Hid|done| |done].
    apply eq_None_not_Some. intros (c' & pc & E & Hne)%H3. congruence.
  - destruct (Hfut ltac:(done)) as [o Ho]. destruct (poll_ok _ id None o H2 Ho) as (n & E & Hpost). unfold enable. rewrite E.
    eexists. split; [done|]. destruct (poll_post_one _ _ _ _ Hpost) as (o' & Ho' & Hone & Hni).
    eapply future_inv; [done|exact Hid|done|apply Hpost|apply Hpost|exact Ho'|by rewrite Hone|done|done].
  - destruct (cond_fn c (p_word p)) as [w ok] eqn:Ec. eexists. split; [done|].
    assert (Hw : 0 <= w /\ (p_word p = 0 -> w = 0) /\ (ok = false -> c <> CWait HasPermits -> w = 0)).
    { destruct c as [|k]; cbn [cond_fn] in Ec.
      - destruct (acquire_fast_word AddWaiter (p_word p) H1) as (A1 & A2 & A3). rewrite Ec in A1, A2, A3. cbn [fst snd] in *. auto.
      - injection Ec as <- <-. split_and!; [done|done|]. intros E Hk. destruct k; [done|]. cbn in E. boolify. lia. }
    destruct Hw as (W1 & W2 & W3). pose proof (with_permits_inv w p Hp W1 W2) as Hp'. destruct (Hfut ltac:(done)) as [o Ho].
    replace (set_pc id c (if ok then PcReturn else PcAwait) (with_permits w p)) with
      (set_pc id c (if ok then PcReturn else PcAwait) (with_notify (p_notify p) (with_permits w p))) by done.
    eapply future_inv; [exact Hp'|exact Hid|by destruct ok|done|done|exact Ho|by eapply H4| |].
    + intros _. by eapply H6.
    + intros Hpc _ Hc. left. apply W3; [by destruct ok|done].
  - destruct (Hfut ltac:(done)) as [o Ho]. destruct (poll_ok _ id (Some id) o H2 Ho) as (n & E & Hpost). unfold poll. rewrite E.
    cbn [mbind res_bind]. destruct (poll_post_one _ _ _ _ Hpost) as (o' & Ho' & Hone & Hni). destruct Hpost as (Hn & Hr & Hoth).
    destruct (is_ready o (p_notify p)) eqn:Er.
    + destruct (drop_ok n id o' Hn Ho') as (n2 & E2 & Hn2 & Hid2 & Hdel & _). rewrite E2. eexists. split; [done|].
      eapply new_future_inv; [done|exact Hid|done|done|]. intros i Hi.
      rewrite Hdel, lookup_delete_ne by (done || by rewrite Hone). by apply Hoth.
    + eexists. split; [done|].
      replace (with_notify n p) with (set_pc id c PcAwait (with_notify n p)).
      * eapply future_inv; [done|exact Hid|done|done|done|exact Ho'|by rewrite Hone|done|].
        intros _ _. apply (H5 id c); [done|]. destruct o as [st [k nt]]. unfold is_ready in Er. cbn [n_state n_waiter w_notified] in Er.
        destruct st; [by destruct (H6 id c PcAwait _ Hid ltac:(done) Ho calls)| |done]. destruct nt; [done|]. by exists k.
      * unfold set_pc. destruct p; simpl in *. by rewrite insert_id.
  - destruct (Hfut ltac:(done)) as [o Ho]. destruct (drop_ok _ id o H2 Ho) as (n2 & E2 & Hn2 & Hid2 & Hdel & _).
    rewrite E2. cbn [mbind res_bind]. eexists. split; [done|]. rewrite (Hdel ltac:(by eapply H4)) in *.
    constructor; simpl; [done|done| | | |]; rewrite ?Hdel by (by eapply H4).
    + intros i. destruct (decide (i = id)) as [->|Hne].
      * rewrite lookup_delete_eq. setoid_rewrite lookup_delete_eq. naive_solver.
      * rewrite lookup_delete_ne, H3 by done. by setoid_rewrite lookup_delete_ne.
    + intros i o' [_ Hi]%lookup_delete_Some. by eapply H4.
    + intros i c' pc o' [_ Hi]%lookup_delete_Some Hpc [_ Hi']%lookup_delete_Some. by eapply H6.
    + intros i c' [Hne Hi]%lookup_delete_Some Hs. apply (H5 i c' Hi). unfold asleep in Hs.
      rewrite Hdel in Hs by (by eapply H4). by apply sleeps_delete in Hs as [_ Hs].
Qed.

(** Every step keeps the invariant, and none panics. *)
Lemma wait_step_inv e p r :
  permits_inv p -> wait_step e p = Some r -> exists p', r = Ok p' /\ permits_inv p'.
Proof.
  intros Hp. pose proof Hp as [H1 H2 H3 H4 H6 H5].
  assert (Hacq : forall k, permits_inv (with_permits (permits_acquire_fast k (p_word p)).1 p)).
  { intros k. destruct (acquire_fast_word k (p_word p) H1) as (A1 & A2 & _). by apply with_permits_inv. }
  destruct e as [id| |k id|id| |]; cbn [wait_step]; intros E.
  - case_decide as Hid; [|done]. injection E as <-. eexists. split; [done|]. specialize (Hacq AddWaiter).
    unfold acquire. destruct (permits_acquire_fast AddWaiter (p_word p)) as [w ok]. destruct ok; [done|by apply new_task_inv].
  - injection E as <-. eexists. split; [done|]. apply Hacq.
  - case_decide as Hid; [|done]. injection E as <-. eexists. split; [done|]. unfold wait.
    destruct (permits_wait_cond k (p_word p)); [done|by apply new_task_inv].
  - destruct (p_tasks p !! id) as [[c pc]|] eqn:Hid; [|done]. injection E as <-. by apply wait_cond_step_inv.
  - injection E as <-. eexists. split; [done|]. unfold release, permits_release.
    constructor; simpl; [destruct (p_word p =? 0); lia|done|done|done|done|].
    intros id c Hid Hs Hc. right. destruct (H5 id c Hid Hs Hc) as [Ez|Hz]; [rewrite Ez; simpl; lia|].
    destruct (p_word p =? 0); lia.
  - destruct (p_pending p) as [|k] eqn:Ek; [done|]. injection E as <-.
    destruct (notify_waiters_ok _ H2) as (n & E & Hn & Hws & _ & Ho). rewrite E. eexists. split; [done|].
    assert (Hob : forall i o, nt_objs n !! i = Some o -> exists o', nt_objs (p_notify p) !! i = Some o' /\
      (o = o' \/ o = mkNotified Waiting (mkWaiter None (Some AllWaiters)))).
    { intros i o Hi. rewrite Ho in Hi. case_decide as Hd; [|eauto]. injection Hi as <-.
      apply (nw_sleep _ H2) in Hd as [w Hd]. eauto. }
    constructor; simpl; [done|done| | | |].
    + intros i. rewrite <- H3. rewrite Ho. case_decide as Hd; [|done]. apply (nw_sleep _ H2) in Hd as [w Hd]. rewrite Hd.
      split; intros _; by eexists.
    + intros i o Hi. destruct (Hob i o Hi) as (o' & Hi' & [->| ->]); [by eapply H4|done].
    + intros i c pc o Hi Hpc Hi'. destruct (Hob i o Hi') as (o' & Hi2 & [->| ->]); [by eapply H6|done].
    + intros i c Hi Hs. apply (nw_sleep n Hn) in Hs. rewrite Hws in Hs. by apply not_elem_of_nil in Hs.
Qed.

Lemma wait_steps_inv p es p' : wait_steps p es p' -> permits_inv p -> permits_inv p'.
Proof.
  induction 1 as [|p e p1 es p2 E _ IH]; [done|]. intros Hp. apply IH.
  destruct (wait_step_inv e p (Ok p1) Hp E) as (p' & [= <-] & Hp'). done.
Qed.

(** A task that is not asleep leaves its [await], and registers a new future. *)
Lemma await_step id c p :
  permits_inv p -> p_tasks p !! id = Some (c, PcAwait) -> ~ asleep id (p_notify p) ->
  exists n, wait_cond_step id c PcAwait p = Ok (set_pc id c PcEnable (with_notify n p)).
Proof.
  intros [H1 H2 H3 H4 H6 H5] Hid Hns. destruct (proj2 (H3 id)) as [o Ho]; [by eauto|].
  destruct (poll_ok _ id (Some id) o H2 Ho) as (n & E & Hpost).
  assert (Hr : is_ready o (p_notify p) = true).
  { destruct o as [st [k nt]]. unfold is_ready. cbn [n_state n_waiter w_notified].
    destruct st; [by destruct (H6 id c PcAwait _ Hid ltac:(done) Ho calls)| |done].
    destruct nt; [done|]. destruct Hns. by exists k. }
  rewrite Hr in E, Hpost. destruct (poll_post_one _ _ _ _ Hpost) as (o' & Ho' & Hone & Hni). destruct Hpost as (Hn & _ & _).
  destruct (drop_ok n id o' Hn Ho') as (n2 & E2 & _). exists (notified id n2). cbn [wait_cond_step]. unfold poll. rewrite E.
  cbn [mbind res_bind]. by rewrite E2.
Qed.

Lemma enable_step id c p :
  permits_inv p -> p_tasks p !! id = Some (c, PcEnable) ->
  exists n, wait_cond_step id c PcEnable p = Ok (set_pc id c PcCheck (with_notify n p)).
Proof.
  intros [H1 H2 H3 H4 H6 H5] Hid. destruct (proj2 (H3 id)) as [o Ho]; [by eauto|].
  destruct (poll_ok _ id None o H2 Ho) as (n & E & _). exists n. cbn [wait_cond_step]. unfold enable. by rewrite E.
Qed.

(** A writer that is not asleep takes a permit that is available. *)
Lemma writer_proceeds id p :
  permits_inv p -> p_tasks p !! id = Some (CAcquire, PcAwait) -> ~ asleep id (p_notify p) -> 1 < p_word p ->
  exists p', wait_steps p [EvTask id; EvTask id; EvTask id] p' /\
    p_tasks p' !! id = Some (CAcquire, PcReturn) /\ p_word p' = p_word p - 1.
Proof.
  intros Hp Hid Hns Hw. destruct (await_step id CAcquire p Hp Hid Hns) as [n1 E1].
  set (p1 := set_pc id CAcquire PcEnable (with_notify n1 p)) in *.
  assert (S1 : wait_step (EvTask id) p = Some (Ok p1)) by (cbn [wait_step]; by rewrite Hid, E1).
  destruct (wait_step_inv _ _ _ Hp S1) as (? & [= <-] & Hp1).
  assert (Hid1 : p_tasks p1 !! id = Some (CAcquire, PcEnable)) by apply lookup_insert_eq.
  destruct (enable_step id CAcquire p1 Hp1 Hid1) as [n2 E2].
  set (p2 := set_pc id CAcquire PcCheck (with_notify n2 p1)) in *.
  assert (S2 : wait_step (EvTask id) p1 = Some (Ok p2)) by (cbn [wait_step]; by rewrite Hid1, E2).
  assert (Hid2 : p_tasks p2 !! id = Some (CAcquire, PcCheck)) by apply lookup_insert_eq.
  eexists. split_and!.
  - econstructor; [exact S1|]. econstructor; [exact S2|]. econstructor; [|constructor].
    cbn [wait_step]. rewrite Hid2. cbn [wait_cond_step cond_fn]. unfold permits_acquire_fast.
    change (p_word p2) with (p_word p). rewrite (proj2 (Z.ltb_lt 0 _)), (proj2 (Z.ltb_lt 1 _)) by lia. done.
  - apply lookup_insert_eq.
  - done.
Qed.

(** [C23] A stalled writer is woken: from new permits, whatever writers, waiters and
    releases do in whatever order, no step panics, and when no notification is on its
    way a task that waits for a permit, or for the stalled writers, sleeps only
    while there is a stalled writer and no permit (the word is 0); so when there is
    a permit, a writer that waits for it takes it with its next three steps. *)
Theorem stalled_writer_wakes (n : Z) (es : list WaitEvent) (p : Permits) :
  0 <= n -> wait_steps (permits_init n) es p ->
  (forall e, wait_step e p <> Some Panic) /\
  (forall id c, p_tasks p !! id = Some (c, PcAwait) -> c <> CWait HasPermits -> p_pending p = 0%nat ->
    asleep id (p_notify p) -> p_word p = 0) /\
  (forall id, p_tasks p !! id = Some (CAcquire, PcAwait) -> p_pending p = 0%nat -> 1 < p_word p ->
    exists p', wait_steps p [EvTask id; EvTask id; EvTask id] p' /\
      p_tasks p' !! id = Some (CAcquire, PcReturn) /\ p_word p' = p_word p - 1).
Proof.
  intros Hn Hst. pose proof (wait_steps_inv _ _ _ Hst (permits_init_inv n Hn)) as Hp. split_and!.
  - intros e E. by destruct (wait_step_inv e p Panic Hp E) as (p' & [=] & _).
  - intros id c Hid Hc Hpe Hs. destruct (pi_sleep p Hp id c Hid Hs Hc) as [|Hlt]; [done|lia].
  - intros id Hid Hpe Hw. apply writer_proceeds; [done|done| |done]. intros Hs.
    destruct (pi_sleep p Hp id CAcquire Hid Hs ltac:(done)); lia.
Qed.

(** Two permits are in use, a writer stalls, and a permit is released. *)
Definition stall_events : list WaitEvent :=
  [EvAcquire 1; EvAcquire 2; EvTask 2; EvTask 2; EvTask 2; EvTask 2; EvRelease; EvNotify].

(** Running events that can all be taken. *)
Fixpoint wait_run (es : list WaitEvent) (p : Permits) : option Permits :=
  match es with
  | [] => Some p
  | e :: es => match wait_step e p with Some (Ok p) => wait_run es p | _ => None end
  end.

Lemma wait_run_steps es p p' : wait_run es p = Some p' -> wait_steps p es p'.
Proof.
  revert p; induction es as [|e es IH]; intros p; cbn [wait_run]; [intros [= <-]; constructor|].
  destruct (wait_step e p) as [[p1| |]|] eqn:E; try done. intros Hr. econstructor; [exact E|by apply IH].
Qed.

Lemma stalled_writer_wakes_witness :
  exists p p', wait_run stall_events (permits_init 1) = Some p /\ wait_steps p [EvTask 2; EvTask 2; EvTask 2] p' /\
    p_tasks p' !! 2 = Some (CAcquire, PcReturn) /\ p_word p' = 1.
Proof.
  destruct (wait_run stall_events (permits_init 1)) as [p|] eqn:E; [|by vm_compute in E].
  destruct (stalled_writer_wakes 1 stall_events p ltac:(lia) (wait_run_steps _ _ _ E)) as (_ & _ & H).
  vm_compute in E. injection E as <-. destruct (H 2) as (p' & Hs & Ht & Hw); [done|done|done|].
  eexists _, p'. split_and!; [done|exact Hs|exact Ht|exact Hw].
Defined.

(** ** A wake-up that is lost *)

(** A step of a task on other tasks. *)
Lemma wait_cond_step_frame id c pc p p' :
  permits_inv p -> p_tasks p !! id = Some (c, pc) -> wait_cond_step id c pc p = Ok p' ->
  p_pending p' = p_pending p /\ (c <> CAcquire -> p_word p' = p_word p) /\
  (forall i x, p_tasks p' !! i = Some x -> p_tasks p !! i = Some x \/ x.1 = c) /\
  forall i, i <> id -> p_tasks p' !! i = p_tasks p !! i /\ nt_objs (p_notify p') !! i = nt_objs (p_notify p) !! i.
Proof.
  intros [H1 H2 H3 H4 H6 H5] Hid E.
  assert (Hfut : pc <> PcNew -> is_Some (nt_objs (p_notify p) !! id)) by (intros Hne; apply H3; eauto).
  assert (Hins : forall pc' i x, <[id := (c, pc')]> (p_tasks p) !! i = Some x -> p_tasks p !! i = Some x \/ x.1 = c).
  { intros pc' i x [[_ <-]|[_ Hi]]%lookup_insert_Some; [by right|by left]. }
  destruct pc; cbn [wait_cond_step] in E.
  - injection E as <-. split_and!; [done|done|apply Hins|]. intros i Hi. simpl. by rewrite !lookup_insert_ne.
  - destruct (Hfut ltac:(done)) as [o Ho]. destruct (poll_ok _ id None o H2 Ho) as (n & E1 & Hpost). unfold enable in E.
    rewrite E1 in E. injection E as <-. split_and!; [done|done|apply Hins|]. intros i Hi. simpl.
    rewrite lookup_insert_ne by done. split; [done|by apply Hpost].
  - destruct (cond_fn c (p_word p)) as [w ok] eqn:Ec. injection E as <-. split_and!; [done| |apply Hins|].
    + intros Hc. destruct c; [done|]. cbn [cond_fn] in Ec. by injection Ec as <- _.
    + intros i Hi. simpl. by rewrite lookup_insert_ne.
  - destruct (Hfut ltac:(done)) as [o Ho]. destruct (poll_ok _ id (Some id) o H2 Ho) as (n & E1 & Hpost). unfold poll in E.
    rewrite E1 in E. cbn [mbind res_bind] in E. destruct (poll_post_one _ _ _ _ Hpost) as (o' & Ho' & Hone & Hni).
    destruct Hpost as (Hn & _ & Hoth). destruct (is_ready o (p_notify p)).
    + destruct (drop_ok n id o' Hn Ho') as (n2 & E2 & _ & _ & Hdel & _). rewrite E2 in E. injection E as <-.
      split_and!; [done|done|apply Hins|]. intros i Hi. simpl. rewrite !lookup_insert_ne by done.
      split; [done|]. rewrite Hdel, lookup_delete_ne by (done || by rewrite Hone). by apply Hoth.
    + injection E as <-. split_and!; [done|done|by left|]. intros i Hi. split; [done|by apply Hoth].
  - destruct (Hfut ltac:(done)) as [o Ho]. destruct (drop_ok _ id o H2 Ho) as (n2 & E2 & _ & _ & Hdel & _).
    rewrite E2 in E. injection E as <-. split_and!; [done|done| |].
    + intros i x Hi. cbn [p_tasks] in Hi. apply lookup_delete_Some in Hi as [_ Hi]. by left.
    + intros i Hi. simpl. rewrite Hdel, !lookup_delete_ne by (done || by eapply H4). done.
Qed.

(** A task waits for a permit to be available, and no writer has stalled. *)
Record lost (id : Z) (p : Permits) : Prop := {
  lo_inv : permits_inv p;
  lo_task : p_tasks p !! id = Some (CWait HasPermits, PcAwait);
  lo_asleep : asleep id (p_notify p);
  lo_word : 1 <= p_word p;
  lo_pending : p_pending p = 0%nat;
  lo_writers : forall i x, p_tasks p !! i = Some x -> x.1 <> CAcquire;
}.

Definition no_stall (e : WaitEvent) : Prop := match e with EvAcquire _ => False | _ => True end.

Lemma lost_step id e p p' : lost id p -> no_stall e -> wait_step e p = Some (Ok p') -> lost id p'.
Proof.
  intros [Hp Ht Hs Hw Hpe Hwr] He E. destruct (wait_step_inv _ _ _ Hp E) as (? & [= <-] & Hp').
  destruct e as [i| |k i|i| |]; cbn [wait_step] in E; [done|..].
  - injection E as <-. constructor; [done|done|done| |done|done]. simpl. destruct (1 <? p_word p) eqn:E1; boolify; lia.
  - case_decide as Hi; [|done]. injection E as <-. unfold wait in *. destruct (permits_wait_cond k (p_word p)); [done|].
    constructor; simpl; [done| |done|done|done|].
    + rewrite lookup_insert_ne; [done|]. intros ->. congruence.
    + intros j x [[_ <-]|[_ Hj]]%lookup_insert_Some; [done|by eapply Hwr].
  - destruct (p_tasks p !! i) as [[c pc]|] eqn:Hi; [|done]. injection E as E.
    destruct (wait_cond_step_frame i c pc p p' Hp Hi E) as (F1 & F2 & F3 & F4).
    pose proof (Hwr i _ Hi) as Hc. cbn [fst] in Hc.
    assert (Hwr' : forall j x, p_tasks p' !! j = Some x -> x.1 <> CAcquire).
    { intros j x Hj. destruct (F3 j x Hj) as [Hj'|E']; [by eapply Hwr|by rewrite E']. }
    destruct (decide (i = id)) as [->|Hne].
    + rewrite Ht in Hi. injection Hi as <- <-. destruct Hs as [k Hs]. pose proof (pi_notify p Hp) as Hn.
      destruct (poll_ok _ id (Some id) _ Hn Hs) as (n & E1 & Hpost). unfold is_ready in E1, Hpost.
      cbn [n_state n_waiter w_notified] in E1, Hpost. cbn [wait_cond_step] in E. unfold poll in E. rewrite E1 in E.
      injection E as <-. constructor; try done. by apply Hpost.
    + destruct (F4 id) as [F5 F6]; [done|]. constructor; [done|congruence| |rewrite F2; done|congruence|done].
      unfold asleep, sleeps in *. by rewrite F6.
  - injection E as <-. unfold release, permits_release in *. rewrite (proj2 (Z.eqb_neq _ _)) in * by lia.
    constructor; simpl; try done. lia.
  - by rewrite Hpe in E.
Qed.

Lemma lost_steps id p es p' : lost id p -> Forall no_stall es -> wait_steps p es p' -> lost id p'.
Proof.
  intros Hl Hes Hst. induction Hst as [|p e p1 es p2 E _ IH]; [done|]. apply Forall_cons in Hes as [He Hes].
  apply IH; [by eapply lost_step|done].
Qed.

(** All permits are in use, a task waits for one, and [S k] permits are released. *)
Definition flush_events (k : nat) : list WaitEvent :=
  [EvTry; EvWait HasPermits 7; EvTask 7; EvTask 7; EvTask 7; EvTask 7] ++ replicate (S k) EvRelease.

Lemma wait_run_app es es' p p1 : wait_run es p = Some p1 -> wait_run (es ++ es') p = wait_run es' p1.
Proof.
  revert p; induction es as [|e es IH]; intros p; cbn [wait_run app]; [by intros [= ->]|].
  destruct (wait_step e p) as [[p2| |]|]; try done. apply IH.
Qed.

Lemma release_run k p : 1 <= p_word p -> p_pending p = 0%nat ->
  wait_run (replicate k EvRelease) p = Some (mkPermits (p_word p + k) (p_notify p) (p_tasks p) 0).
Proof.
  revert p; induction k as [|k IH]; intros p Hw Hpe; cbn [replicate wait_run].
  - destruct p; simpl in *. subst. by rewrite Z.add_0_r.
  - cbn [wait_step]. unfold release, permits_release. rewrite (proj2 (Z.eqb_neq _ _)) by lia.
    rewrite IH; simpl; [|lia|done]. do 2 f_equal. lia.
Qed.

(** [C25] A wake-up that is lost: when all permits are in use but no writer has stalled,
    a task that waits for a permit to be available ([switch_buffer_without_stalling],
    the default of a flush) goes to sleep; then permits are released, as many as one
    likes, and the task sleeps on, with the condition it waits for true, through
    whatever steps follow until a writer stalls, since [release] notifies only when
    there was a stalled writer. *)
Theorem has_permits_wait_lost (k : nat) :
  exists p, wait_run (flush_events k) (permits_init 1) = Some p /\
    permits_wait_cond HasPermits (p_word p) = true /\ p_word p = 2 + k /\
    forall es p', Forall no_stall es -> wait_steps p es p' ->
      p_tasks p' !! 7 = Some (CWait HasPermits, PcAwait) /\ asleep 7 (p_notify p').
Proof.
  destruct (wait_run (take 6 (flush_events 0)) (permits_init 1)) as [p0|] eqn:E0; [|by vm_compute in E0].
  assert (Hinv : permits_inv p0) by (eapply wait_steps_inv; [by apply wait_run_steps|by apply permits_init_inv]).
  assert (Hl : lost 7 p0 /\ p_word p0 = 1).
  { assert (Et : p_tasks p0 = {[7 := (CWait HasPermits, PcAwait)]}) by (vm_compute in E0; by injection E0 as <-).
    assert (Ha : asleep 7 (p_notify p0)) by (vm_compute in E0; injection E0 as <-; by eexists).
    assert (Hw : p_word p0 = 1 /\ p_pending p0 = 0%nat) by (vm_compute in E0; by injection E0 as <-).
    destruct Hw as [Hw Hk]. split; [|done]. constructor; rewrite ?Et; try done; [lia|].
    intros i x Hi. by apply lookup_singleton_Some in Hi as [_ <-]. }
  destruct Hl as [Hl Hw]. pose proof (release_run (S k) p0 (lo_word _ _ Hl) (lo_pending _ _ Hl)) as Er.
  assert (Erun : wait_run (flush_events k) (permits_init 1) = wait_run (replicate (S k) EvRelease) p0) by (by apply wait_run_app).
  rewrite Er, Hw in Erun. eexists. split_and!; [exact Erun| | |].
  - simpl. apply Z.ltb_lt. lia.
  - simpl. lia.
  - intros es p' Hes Hst. rewrite Hw in Er. apply wait_run_steps in Er.
    assert (Hl1 : lost 7 (mkPermits (1 + S k) (p_notify p0) (p_tasks p0) 0)).
    { eapply lost_steps; [exact Hl| |exact Er]. by apply Forall_replicate. }
    pose proof (lost_steps _ _ _ _ Hl1 Hes Hst) as [_ Ht Ha _ _ _]. done.
Qed.
