(* ===== verification/Version.v ===== *)
(** * Versions of the store ([page_store/version.rs])

    A version is an immutable snapshot of the page groups and the files. The owner
    keeps the chain of versions, oldest first, and the last one is the current one;
    whoever holds a version holds its position in the chain. The buffer set the
    versions share is that of [BufferSet.v]. Installing happens under the lock of the
    manifest, so it is one step. *)

From stdpp Require Import base numbers list gmap.
From Stdlib Require Import ZArith Lia.
From S2P Require Import Prelude PageGroup WriteBuffer BufferSet.

Inductive VersionUpdateReason := ReasonFlush | ReasonCompact.

Record DeltaVersion := mkDeltaVersion {
  dv_reason : VersionUpdateReason;
  dv_page_groups : gmap Z PageGroup;
  dv_file_infos : gmap Z FileInfo;
  dv_obsoleted_files : gset Z;
}.
Definition delta_default : DeltaVersion := mkDeltaVersion ReasonFlush ∅ ∅ ∅.

Record Version := mkVersion {
  v_reason : VersionUpdateReason;
  v_page_groups : gmap Z PageGroup;
  v_files : gmap Z FileInfo;
  v_first_buffer_id : Z;
  v_obsoleted_files : gset Z;
}.

Definition with_buffer_set (first_buffer_id : Z) (delta : DeltaVersion) : Version :=
  mkVersion (dv_reason delta) (dv_page_groups delta) (dv_file_infos delta) first_buffer_id (dv_obsoleted_files delta).
Definition version_new (capacity : nat) (mem : list Z) (next_group_id : Z) (delta : DeltaVersion) : res (BufferSetVersion * Version) :=
  buffer_set ← buffer_set_new next_group_id capacity mem;
  Ok (buffer_set, with_buffer_set next_group_id delta).

(** [DeltaVersion::from] a version. *)
Definition delta_from_version (v : Version) : DeltaVersion := mkDeltaVersion ReasonFlush (v_page_groups v) (v_files v) ∅.

(** The version [VersionOwner::install] makes of a delta. *)
Definition next_version (current : Version) (delta : DeltaVersion) : Version :=
  let first_buffer_id :=
    match dv_reason delta with
    | ReasonFlush => wrap32 (v_first_buffer_id current + 1)
    | ReasonCompact => v_first_buffer_id current
    end in
  with_buffer_set first_buffer_id delta.

(** ** [VersionOwner] *)

Definition owner_new (v : Version) : list Version := [v].
Definition owner_current (owner : list Version) : res Version := expect (last owner).
Definition owner_install (delta : DeltaVersion) (owner : list Version) : res (list Version) :=
  current ← owner_current owner;
  Ok (owner ++ [next_version current delta]).

(** [try_next], [has_next_version] and [refresh] of the version at a position. *)
Definition try_next (i : nat) (owner : list Version) : option (nat * Version) :=
  v ← owner !! S i; Some (S i, v).
Definition has_next_version (i : nat) (owner : list Version) : bool := bool_decide (is_Some (try_next i owner)).
Fixpoint refresh_loop (fuel : nat) (raw : option (nat * Version)) (new : option (nat * Version)) (owner : list Version) :
    res (option (nat * Version)) :=
  match fuel with
  | O => Panic
  | S fuel =>
      match raw with
      | None => Ok new
      | Some (i, v) => refresh_loop fuel (try_next i owner) (Some (i, v)) owner
      end
  end.
Definition refresh (i : nat) (owner : list Version) : res (option (nat * Version)) :=
  refresh_loop (S (length owner)) (try_next i owner) None owner.

(** ** The buffers of a version *)

Definition buffers_range (v : Version) (set : BufferSetVersion) : Z * Z := (v_first_buffer_id v, bsv_next_buffer_id set).
Definition min_write_buffer (v : Version) (set : BufferSetVersion) : res WriteBuffer :=
  b ← bsv_get (v_first_buffer_id v) set;
  expect b.
Definition release_previous_buffers (v : Version) (set : BufferSetVersion) : res BufferSetVersion :=
  match v_reason v with
  | ReasonFlush => bsv_release_until (v_first_buffer_id v) set
  | ReasonCompact => Ok set
  end.

(** ** Lemmas *)

Lemma refresh_loop_ok fuel i owner new :
  (length owner - i < fuel)%nat -> (i < length owner)%nat ->
  refresh_loop fuel (try_next i owner) new owner =
    Ok (if decide (S i = length owner) then new else (λ v, ((length owner - 1)%nat, v)) <$> last owner).
Proof.
  revert i new. induction fuel as [|fuel IH]; intros i new Hf Hi; [lia|]. cbn [refresh_loop]. unfold try_next at 1.
  destruct (owner !! S i) as [v|] eqn:Ev; cbn [mbind option_bind].
  - pose proof (lookup_lt_Some _ _ _ Ev). rewrite IH by lia. rewrite (decide_False (P := S i = length owner)) by lia.
    case_decide as E; [|done]. rewrite last_lookup. replace (pred (length owner)) with (S i) by lia. rewrite Ev.
    cbn. repeat f_equal. lia.
  - apply lookup_ge_None in Ev. by rewrite decide_True by lia.
Qed.

(** Refreshing a version gives the current one, or nothing when it is the current
    one. *)
Lemma refresh_ok i owner :
  (i < length owner)%nat ->
  refresh i owner = Ok (if decide (S i = length owner) then None else (λ v, ((length owner - 1)%nat, v)) <$> last owner).
Proof. intros Hi. apply refresh_loop_ok; lia. Qed.

Lemma install_current owner v delta :
  last owner = Some v -> owner_install delta owner = Ok (owner ++ [next_version v delta]).
Proof. intros E. unfold owner_install, owner_current. by rewrite E. Qed.
