(* ===== verification/Strategy.v ===== *)
(** * Which files to compact ([page_store/strategy/mod.rs])

    [MinDeclineRateStrategy] scores every file by the cost of the space that compacting
    it gains and hands the files out from the greatest score on, but never the last one.
    The scores are floating point numbers, as the machine computes them ([Float64]);
    files are compared by their scores, and then by the other fields. *)

From stdpp Require Import base numbers list gmap sorting.
From Stdlib Require Import ZArith Lia SpecFloat.
From S2P Require Import Prelude Bitmap PageGroup Version Float64.

Record FileScore := mkFileScore {
  fs_score : f64;
  fs_effective_rate : f64;
  fs_write_amplify : f64;
  fs_active_size : Z;
  fs_file_id : Z;
}.
Record FileSummary := mkFileSummary {
  su_num_active_pages : Z;
  su_total_page_size : Z;
  su_effective_size : Z;
  su_effective_rate : f64;
  su_empty_pages_rate : f64;
  su_up2 : Z;
}.
Record MinDeclineRateStrategy := mkMinDeclineRateStrategy {
  st_now : Z;
  st_sorted : bool;
  st_scores : list FileScore;
}.

(** [StrategyBuilder::build]. *)
Definition strategy_build (now : Z) : MinDeclineRateStrategy := mkMinDeclineRateStrategy now false [].

(** ** Scores *)

(** The sums over the page groups of a file: the active pages, the sizes of the active
    pages, all pages and their sizes. *)
Fixpoint summary_loop (page_groups : gmap Z PageGroup) (metas : list (Z * PageGroupMeta)) (acc : Z * Z * Z * Z) : res (Z * Z * Z * Z) :=
  match metas with
  | [] => Ok acc
  | (group_id, meta) :: metas =>
      let '(num_active, effective, pages, size) := acc in
      '(num_active, effective) ←
        match page_groups !! group_id with
        | Some page_group => active ← num_active_pages page_group; Ok (wrap64 (num_active + active), wrap64 (effective + effective_size page_group))
        | None => Ok (num_active, effective)
        end;
      summary_loop page_groups metas (num_active, effective, wrap64 (pages + total_pages meta), wrap64 (size + total_page_size meta))
  end.
Definition file_summary (page_groups : gmap Z PageGroup) (info : FileInfo) : res FileSummary :=
  '(num_active_pages, effective_size, total_pages, total_page_size) ←
    summary_loop page_groups (map_to_list (fm_page_groups (fi_meta info))) (0, 0, 0, 0);
  let effective_rate := f64_div (f64_of effective_size) (f64_of total_page_size) in
  let empty_pages_rate :=
    if 0 <? total_pages then f64_sub (f64_of 1) (f64_div (f64_of num_active_pages) (f64_of total_pages)) else f64_of 0 in
  Ok (mkFileSummary num_active_pages total_page_size effective_size effective_rate empty_pages_rate (fi_up2 info)).

Definition decline_rate (summary : FileSummary) (now : Z) : f64 :=
  if su_num_active_pages summary =? 0 then f64_of 0
  else
    let free_size := sat_sub (su_total_page_size summary) (su_effective_size summary) in
    if (free_size =? 0) || (su_up2 summary =? now) then f64_min
    else
      let rate := f64_div (f64_of (su_effective_size summary)) (f64_of free_size) in
      f64_div (f64_neg (f64_mul rate rate))
        (f64_mul (f64_of (su_num_active_pages summary)) (f64_sub (f64_of now) (f64_of (su_up2 summary)))).
Definition write_amplification (empty_rate : f64) : f64 :=
  f64_mul (f64_div (f64_of 1) empty_rate) (f64_sub (f64_of 1) empty_rate).

Definition collect (file_id : Z) (summary : FileSummary) (s : MinDeclineRateStrategy) : res MinDeclineRateStrategy :=
  let score := decline_rate summary (st_now s) in
  let effective_rate := su_effective_rate summary in
  let write_amplify := write_amplification (su_empty_pages_rate summary) in
  _ ← rassert (negb (f64_is_nan score));
  _ ← rassert (negb (f64_is_nan effective_rate));
  _ ← rassert (negb (f64_is_infinite effective_rate));
  Ok (mkMinDeclineRateStrategy (st_now s) (st_sorted s)
    (st_scores s ++ [mkFileScore score effective_rate write_amplify (su_effective_size summary) file_id])).
Definition collect_file (page_groups : gmap Z PageGroup) (info : FileInfo) (s : MinDeclineRateStrategy) : res MinDeclineRateStrategy :=
  summary ← file_summary page_groups info;
  collect (fm_file_id (fi_meta info)) summary s.

(** ** The order *)

(** The derived [PartialOrd] of [FileScore], field by field. *)
Definition then_cmp (c : option comparison) (d : option comparison) : option comparison :=
  match c with Some Eq => d | _ => c end.
Definition score_partial_cmp (a b : FileScore) : option comparison :=
  then_cmp (f64_cmp (fs_score a) (fs_score b))
    (then_cmp (f64_cmp (fs_effective_rate a) (fs_effective_rate b))
      (then_cmp (f64_cmp (fs_write_amplify a) (fs_write_amplify b))
        (then_cmp (Some (fs_active_size a ?= fs_active_size b)) (Some (fs_file_id a ?= fs_file_id b))))).
Definition score_cmp (a b : FileScore) : comparison :=
  default (fs_file_id a ?= fs_file_id b) (score_partial_cmp a b).
Definition score_le (a b : FileScore) : Prop := score_cmp a b <> Gt.
#[global] Instance score_le_dec : RelDecision score_le.
Proof. intros a b. unfold score_le. solve_decision. Defined.

(** [apply]: sort once, then take the greatest, as long as there are two. *)
Definition strategy_apply (s : MinDeclineRateStrategy) : option (Z * Z) * MinDeclineRateStrategy :=
  let scores := if st_sorted s then st_scores s else merge_sort score_le (st_scores s) in
  if (length scores <? 2)%nat then (None, mkMinDeclineRateStrategy (st_now s) true scores)
  else match last scores with
       | None => (None, mkMinDeclineRateStrategy (st_now s) true scores)
       | Some f => (Some (fs_file_id f, fs_active_size f), mkMinDeclineRateStrategy (st_now s) true (take (length scores - 1) scores))
       end.

(** [build_strategy] of the reclaim job, for the files that are not cleaned already. *)
Fixpoint collect_files (page_groups : gmap Z PageGroup) (infos : list FileInfo) (s : MinDeclineRateStrategy) : res MinDeclineRateStrategy :=
  match infos with
  | [] => Ok s
  | info :: infos => s ← collect_file page_groups info s; collect_files page_groups infos s
  end.
Definition build_strategy (now : Z) (version : Version) (cleaned_files : gset Z) : res MinDeclineRateStrategy :=
  collect_files (v_page_groups version) ((map_to_list (base.filter (λ e, e.1 ∉ cleaned_files) (v_files version))).*2) (strategy_build now).
(** The files that the loop of the job gets, if it runs to the end. *)
Fixpoint picks (fuel : nat) (s : MinDeclineRateStrategy) : list (Z * Z) :=
  match fuel with
  | O => []
  | S fuel => match strategy_apply s with (Some f, s) => f :: picks fuel s | (None, _) => [] end
  end.

(** ** The order is total on numbers *)

(** Comparing lists of numbers, the first difference decides. *)
Fixpoint lex (l k : list Z) : comparison :=
  match l, k with
  | a :: l, b :: k => match a ?= b with Eq => lex l k | c => c end
  | [], [] => Eq
  | [], _ => Lt
  | _, [] => Gt
  end.
Lemma lex_opp l k : lex k l = CompOpp (lex l k).
Proof. revert k. induction l as [|a l IH]; intros [|b k]; try done. cbn [lex]. rewrite (Z.compare_antisym a b), IH. by destruct (a ?= b). Qed.
Lemma lex_trans l k m : lex l k <> Gt -> lex k m <> Gt -> lex l m <> Gt.
Proof.
  revert k m. induction l as [|a l IH]; intros [|b k] [|d m]; try done; cbn [lex].
  destruct (Z.compare_spec a b), (Z.compare_spec b d), (Z.compare_spec a d); try done; try lia. intros ? ?. by apply (IH k).
Qed.
Lemma lex_app l l' k k' : length l = length l' -> lex (l ++ k) (l' ++ k') = match lex l l' with Eq => lex k k' | c => c end.
Proof. revert l'. induction l as [|a l IH]; intros [|b l'] E; try done. cbn [app lex]. rewrite IH by (by injection E). by destruct (a ?= b). Qed.

(** A number as a list: its class, its exponent and its mantissa. *)
Definition f64_key (x : f64) : list Z :=
  match x with
  | S754_nan => [3; 0; 0]
  | S754_infinity s => [if s then -2 else 2; 0; 0]
  | S754_zero _ => [0; 0; 0]
  | S754_finite s m e => if s then [-1; - e; Z.neg m] else [1; e; Z.pos m]
  end.
Lemma f64_cmp_key x y : f64_is_nan x = false -> f64_is_nan y = false -> f64_cmp x y = Some (lex (f64_key x) (f64_key y)).
Proof.
  destruct x as [s|s| |s m e], y as [s'|s'| |s' m' e']; try done; intros _ _; unfold f64_cmp, SFcompare, f64_key; try (by destruct s); try (by destruct s'); try (by destruct s, s').
  destruct s, s'; cbn [lex]; try done.
  - change (Z.neg m ?= Z.neg m') with (CompOpp (Pos.compare m m')). assert ((- e ?= - e') = CompOpp (e ?= e')) as -> by (rewrite <- (Z.compare_opp e' e); apply Z.compare_antisym).
    destruct (e ?= e'); cbn [CompOpp]; try done. by destruct (Pos.compare m m') eqn:E; unfold Pos.compare in E; rewrite E.
  - change (Z.pos m ?= Z.pos m') with (Pos.compare m m'). destruct (e ?= e'); try done. by destruct (Pos.compare m m') eqn:E; unfold Pos.compare in E; rewrite E.
Qed.
Lemma length_f64_key x : length (f64_key x) = 3%nat.
Proof. by destruct x as [| | |[] ? ?]. Qed.

(** A score without fields that are not numbers. *)
Definition score_clean (a : FileScore) : bool :=
  negb (f64_is_nan (fs_score a)) && negb (f64_is_nan (fs_effective_rate a)) && negb (f64_is_nan (fs_write_amplify a)).
Definition score_key (a : FileScore) : list Z :=
  f64_key (fs_score a) ++ f64_key (fs_effective_rate a) ++ f64_key (fs_write_amplify a) ++ [fs_active_size a; fs_file_id a].
Lemma score_cmp_key a b : score_clean a = true -> score_clean b = true -> score_cmp a b = lex (score_key a) (score_key b).
Proof.
  unfold score_clean. rewrite !andb_true_iff, !negb_true_iff. intros [[A1 A2] A3] [[B1 B2] B3]. unfold score_cmp, score_partial_cmp, score_key.
  rewrite !f64_cmp_key by done. rewrite !lex_app by (by rewrite !length_f64_key). cbn [lex]. unfold then_cmp.
  destruct (lex (f64_key (fs_score a)) _); [|done..]. destruct (lex (f64_key (fs_effective_rate a)) _); [|done..]. destruct (lex (f64_key (fs_write_amplify a)) _); [|done..].
  cbn. destruct (fs_active_size a ?= fs_active_size b); [|done..]. by destruct (fs_file_id a ?= fs_file_id b).
Qed.
Lemma score_le_trans a b c : score_clean a = true -> score_clean b = true -> score_clean c = true -> score_le a b -> score_le b c -> score_le a c.
Proof. intros A B C. unfold score_le. rewrite !score_cmp_key by done. apply lex_trans. Qed.
Lemma f64_cmp_opp x y : f64_cmp y x = CompOpp <$> f64_cmp x y.
Proof.
  destruct (f64_is_nan x) eqn:Ex; [destruct x; try done; by destruct y|]. destruct (f64_is_nan y) eqn:Ey; [destruct y; try done; by destruct x|].
  rewrite !f64_cmp_key by done. cbn. by rewrite lex_opp.
Qed.
Lemma then_cmp_opp c d : then_cmp (CompOpp <$> c) (CompOpp <$> d) = CompOpp <$> then_cmp c d.
Proof. by destruct c as [[]|]. Qed.
Lemma score_cmp_opp a b : score_cmp b a = CompOpp (score_cmp a b).
Proof.
  unfold score_cmp, score_partial_cmp. rewrite (f64_cmp_opp (fs_score a)), (f64_cmp_opp (fs_effective_rate a)), (f64_cmp_opp (fs_write_amplify a)).
  rewrite (Z.compare_antisym (fs_active_size a)), (Z.compare_antisym (fs_file_id a)).
  change (Some (CompOpp ?x)) with (CompOpp <$> Some x). rewrite !then_cmp_opp. by destruct (then_cmp _ _).
Qed.
#[global] Instance score_le_total : Total score_le.
Proof. intros a b. unfold score_le. rewrite (score_cmp_opp a b). destruct (score_cmp a b); [by left|by left|by right]. Qed.

(** ** What is picked *)

Lemma sorted_strongly (l : list FileScore) : Forall (λ a, score_clean a = true) l -> Sorted score_le l -> StronglySorted score_le l.
Proof.
  induction l as [|a l IH]; intros Hc Hs; [constructor|]. apply Forall_cons in Hc as [Ha Hc]. apply Sorted_inv in Hs as [Hs Hd]. specialize (IH Hc Hs).
  constructor; [done|]. destruct Hd as [|b l Hab]; [constructor|]. constructor; [done|]. apply StronglySorted_inv in IH as [_ Hb]. apply Forall_cons in Hc as [Hcb Hc].
  rewrite !Forall_forall in *. intros x Hin. specialize (Hb x Hin). specialize (Hc x Hin). by apply (score_le_trans a b x).
Qed.

Definition pick_of (a : FileScore) : Z * Z := (fs_file_id a, fs_active_size a).
(** From the end of the sorted list, without the first of it. *)
Lemma picks_sorted now l fuel : (length l <= fuel)%nat -> picks fuel (mkMinDeclineRateStrategy now true l) = pick_of <$> reverse (tail l).
Proof.
  revert l. induction fuel as [|fuel IH]; intros l Hf; [by destruct l; [|cbn in Hf; lia]|]. cbn [picks]. unfold strategy_apply. cbn [st_sorted st_scores st_now].
  destruct l as [|b l]; [done|]. destruct l as [|x l _] using rev_ind; [done|]. rewrite (proj2 (Nat.ltb_ge _ _)) by (cbn [length]; rewrite length_app; cbn; lia).
  rewrite app_comm_cons, last_snoc. cbn [fst snd]. rewrite length_app. cbn [length]. replace (S (length l) + 1 - 1)%nat with (length (b :: l)) by (cbn; lia).
  rewrite take_app_length, IH by (cbn in *; rewrite length_app in Hf; cbn in Hf; lia). cbn [tail app]. by rewrite reverse_snoc.
Qed.

(** The strategy hands out the files from the greatest score on, and keeps the one
    with the least: after the files were collected, with numbers for scores, the files
    that the reclaim job gets until there are no more are all files but one, each once,
    in descending order, and the one that is left is not greater than any of them. *)
Theorem strategy_picks now scores fuel :
  Forall (λ a, score_clean a = true) scores -> (length scores <= fuel)%nat ->
  exists l, picks fuel (mkMinDeclineRateStrategy now false scores) = pick_of <$> reverse (tail l) /\
    Permutation l scores /\ StronglySorted score_le l /\ (length (picks fuel (mkMinDeclineRateStrategy now false scores)) = length scores - 1)%nat.
Proof.
  intros Hc Hf. set (l := merge_sort score_le scores). pose proof (merge_sort_Permutation score_le scores) as Hp. fold l in Hp. pose proof (Permutation_length Hp) as Hlen.
  assert (E : picks fuel (mkMinDeclineRateStrategy now false scores) = pick_of <$> reverse (tail l)).
  { rewrite <- (picks_sorted now l fuel) by lia. destruct fuel as [|fuel]; [done|]. done. }
  exists l. split; [done|]. split; [done|]. split.
  - apply sorted_strongly; [by rewrite Hp|]. apply Sorted_merge_sort, _.
  - rewrite E, length_fmap, length_reverse, <- Hlen. destruct l; cbn; lia.
Qed.

(** Three files: one without active pages, one with little and one with much to copy. *)
Definition sample_summary (active total size effective up2 : Z) : FileSummary :=
  mkFileSummary active size effective (f64_div (f64_of effective) (f64_of size)) (f64_sub (f64_of 1) (f64_div (f64_of active) (f64_of total))) up2.
Definition sample_strategy : res MinDeclineRateStrategy :=
  s ← collect 1 (sample_summary 90 100 1000 900 5) (strategy_build 20);
  s ← collect 2 (sample_summary 0 100 1000 0 5) s;
  collect 3 (sample_summary 50 100 1000 500 5) s.
Example sample_picks : (s ← sample_strategy; Ok (picks 3 s)) = Ok [(2, 0); (3, 500)].
Proof. vm_compute. reflexivity. Qed.
(** The machine's number for - (900 / 100)^2 / (90 * 15). *)
Example sample_decline_rate : decline_rate (sample_summary 90 100 1000 900 5) 20 = f64_div (f64_neg (f64_of 81)) (f64_of 1350).
Proof. vm_compute. reflexivity. Qed.

Definition sample_scores : list FileScore :=
  [mkFileScore (f64_of 2) (f64_of 0) (f64_of 1) 7 1; mkFileScore (f64_of 3) (f64_of 0) (f64_of 1) 8 2; mkFileScore (f64_of 2) (f64_of 0) (f64_of 1) 6 3].
Lemma strategy_picks_witness : exists l, picks 3 (mkMinDeclineRateStrategy 9 false sample_scores) = pick_of <$> reverse (tail l) /\ Permutation l sample_scores /\ StronglySorted score_le l.
Proof.
  destruct (strategy_picks 9 sample_scores 3) as (l & E & Hp & Hs & _); [repeat constructor|cbn; lia|]. exists l. split; [exact E|]. split; [exact Hp|exact Hs].
Defined.
