(* ===== verification/Flush.v ===== *)
(** * Flushing write buffers ([page_store/jobs/flush.rs])

    [build_page_file] writes the live pages of a sealed write buffer to a page file;
    [save_and_install_version] deactivates the pages the buffer deallocates, drops the
    files nothing needs any more, logs the edit and installs the next version. The
    iteration over a write buffer does not change it, so its records are collected
    first. Statistics that are only printed, the page cache and the wait for the next
    write buffer are left out. *)

From stdpp Require Import base numbers list sorting gmap.
From Stdlib Require Import ZArith Lia.
From S2P Require Import Prelude BasePage Iter BTree PageGroup Env FileBuilder MapFile Directory Manifest WriteBuffer Version.

(** ** Collecting *)

Record FlushPageStats := mkFlushPageStats {
  fs_data_size : Z;
  fs_num_records : Z;
  fs_num_tombstone_records : Z;
  fs_num_dealloc_pages : Z;
  fs_num_skip_pages : Z;
}.

(** The loop of [collect_dealloc_pages_and_stats]. *)
Fixpoint collect_loop (group_id : Z) (records : list (Z * RecordHeader * RecordRef)) (stats : FlushPageStats)
    (dealloc_pages : list Z) (skip_pages : gset Z) : FlushPageStats * list Z * gset Z :=
  match records with
  | [] => (stats, dealloc_pages, skip_pages)
  | (_, header, record_ref) :: records =>
      let stats := mkFlushPageStats (fs_data_size stats + rh_page_size header) (fs_num_records stats + 1)
        (if rh_is_tombstone header then fs_num_tombstone_records stats + 1 else fs_num_tombstone_records stats)
        (fs_num_dealloc_pages stats) (fs_num_skip_pages stats) in
      match record_ref with
      | RecDeallocPages pages =>
          collect_loop group_id records stats
            (dealloc_pages ++ base.filter (λ v, wrap32 (Z.shiftr v 32) <> group_id) pages)
            (skip_pages ∪ list_to_set (wrap32 <$> base.filter (λ v, wrap32 (Z.shiftr v 32) = group_id) pages))
      | RecPage _ => collect_loop group_id records stats dealloc_pages skip_pages
      end
  end.
Definition collect_dealloc_pages_and_stats (group_id : Z) (records : list (Z * RecordHeader * RecordRef)) :
    FlushPageStats * list Z * gset Z :=
  let '(stats, dealloc_pages, skip_pages) := collect_loop group_id records (mkFlushPageStats 0 0 0 0 0) [] ∅ in
  (mkFlushPageStats (fs_data_size stats) (fs_num_records stats) (fs_num_tombstone_records stats)
     (length dealloc_pages) (size skip_pages), dealloc_pages, skip_pages).

(** ** The page file *)

Section build.
Context `{PageCodecs} {W : Type} `{SequentialWriter W} (alloc : nat -> list Z) (io_fuel : nat).

(** The loop of [build_page_file] over the records. *)
Fixpoint add_records (records : list (Z * RecordHeader * RecordRef)) (skip_pages : gset Z)
    (g : PageGroupBuilder W) : res (PageGroupBuilder W) :=
  match records with
  | [] => Ok g
  | (page_addr, header, record_ref) :: records =>
      g ← match record_ref with
          | RecPage page =>
              if rh_is_tombstone header || bool_decide (wrap32 page_addr ∈ skip_pages) then Ok g
              else gb_add_page io_fuel (rh_page_id header) page_addr (page_info page) page g
          | RecDeallocPages _ => Ok g
          end;
      add_records records skip_pages g
  end.

(** [build_page_file] into a new file: also the file that was written. *)
Definition build_page_file (write_buffer : WriteBuffer) (file_id : Z) (file : W) (use_direct : bool) (compression checksum : Z) :
    res (list Z * PageGroup * FileInfo * W) :=
  _ ← rassert (wb_is_flushable write_buffer);
  '(records, _) ← drain (S (wb_buf_size write_buffer)) (wb_iter write_buffer);
  let group_id := wb_group_id write_buffer in
  let '(_, dealloc_pages, skip_pages) := collect_dealloc_pages_and_stats group_id records in
  builder ← file_builder_new alloc file_id file use_direct DEFAULT_BLOCK_SIZE compression checksum;
  group_builder ← add_records records skip_pages (add_page_group group_id builder);
  let group_builder := gb_add_dealloc_pages dealloc_pages group_builder in
  builder ← gb_finish io_fuel group_builder;
  '(page_groups, file_info, file) ← fb_finish io_fuel file_id builder;
  page_group ← expect (page_groups !! group_id);
  Ok (dealloc_pages, page_group, file_info, file).
End build.

(** ** The next version *)

(** The first loop of [apply_dealloc_pages]. *)
Fixpoint dealloc_loop (dealloc_pages : list Z) (page_groups : gmap Z PageGroup) (updated_files : gset Z) :
    res (gmap Z PageGroup * gset Z) :=
  match dealloc_pages with
  | [] => Ok (page_groups, updated_files)
  | page_addr :: rest =>
      let group_id := wrap32 (Z.shiftr page_addr 32) in
      match page_groups !! group_id with
      | Some page_group =>
          '(deactivated, page_group) ← deactivate_page page_addr page_group;
          let page_groups := <[group_id := page_group]> page_groups in
          dealloc_loop rest page_groups
            (if deactivated : bool then {[pgm_file_id (pg_meta page_group)]} ∪ updated_files else updated_files)
      | None => dealloc_loop rest page_groups updated_files
      end
  end.
Definition apply_dealloc_pages (version : Version) (now : Z) (dealloc_pages : list Z) :
    res (gmap Z PageGroup * gmap Z FileInfo) :=
  '(page_groups, updated_files) ← dealloc_loop dealloc_pages (v_page_groups version) ∅;
  Ok (page_groups, foldr (λ file_id infos, alter (on_update now) file_id infos) (v_files version) (elements updated_files)).

(** Whether a group of the file has a page, and whether the file references a group
    that exists. *)
Definition has_active_group (page_groups : gmap Z PageGroup) (info : FileInfo) : bool :=
  existsb (λ group_id, match page_groups !! group_id with Some g => negb (pg_is_empty g) | None => false end)
    (map_to_list (fm_page_groups (fi_meta info))).*1.
Definition references_existing (page_groups : gmap Z PageGroup) (info : FileInfo) : bool :=
  existsb (λ group_id, bool_decide (is_Some (page_groups !! group_id))) (elements (fm_referenced_groups (fi_meta info))).

Fixpoint drain_loop (page_groups : gmap Z PageGroup) (empty_files : list Z) (file_infos : gmap Z FileInfo) (obsoleted_files : gset Z) :
    res (gmap Z FileInfo * gset Z) :=
  match empty_files with
  | [] => Ok (file_infos, obsoleted_files)
  | file_id :: rest =>
      file_info ← expect (file_infos !! file_id);
      if references_existing page_groups file_info then drain_loop page_groups rest file_infos obsoleted_files
      else drain_loop page_groups rest (delete file_id file_infos) ({[file_id]} ∪ obsoleted_files)
  end.
Definition drain_obsoleted_files (page_groups : gmap Z PageGroup) (file_infos : gmap Z FileInfo) :
    res (gmap Z PageGroup * gmap Z FileInfo * gset Z) :=
  let page_groups := base.filter (λ e, pg_is_empty e.2 = false) page_groups in
  let empty_files := (map_to_list (base.filter (λ e, has_active_group page_groups e.2 = false) file_infos)).*1 in
  '(file_infos, obsoleted_files) ← drain_loop page_groups empty_files file_infos ∅;
  Ok (page_groups, file_infos, obsoleted_files).

Definition version_snapshot (version : Version) : VersionEdit :=
  mkVersionEdit (Some (mkStreamEdit ((λ e, new_file_from_info e.2) <$> map_to_list (v_files version))
    (elements (v_obsoleted_files version)))).
Definition make_flush_version_edit (file_id : Z) (obsoleted_files : gset Z) : VersionEdit :=
  mkVersionEdit (Some (mkStreamEdit [new_file_from_id file_id] (elements obsoleted_files))).

(** What [save_and_install_version] logs and installs. *)
Definition flush_delta (version : Version) (now : Z) (page_group : PageGroup) (file_info : FileInfo) (dealloc_pages : list Z) :
    res (VersionEdit * DeltaVersion) :=
  '(page_groups, file_infos) ← apply_dealloc_pages version now dealloc_pages;
  '(page_groups, file_infos, obsoleted_files) ← drain_obsoleted_files page_groups file_infos;
  let group_id := pgm_group_id (pg_meta page_group) in
  let file_id := fm_file_id (fi_meta file_info) in
  let page_groups := if pg_is_empty page_group then page_groups else <[group_id := page_group]> page_groups in
  let file_infos := <[file_id := file_info]> file_infos in
  Ok (make_flush_version_edit file_id obsoleted_files, mkDeltaVersion ReasonFlush page_groups file_infos obsoleted_files).

(** The versions and the manifest, which the jobs share. *)
Record JobState (D : Type) := mkJobState { js_manifest : MState D; js_versions : list Version }.
Arguments mkJobState {D} _ _.
Arguments js_manifest {D} _.
Arguments js_versions {D} _.

Section save.
Context `{EditCodec} {D : Type} `{Env D} (io_fuel : nat).

Definition on_manifest {A} (m : St (MState D) A) : St (JobState D) A := λ s,
  let '(r, ms) := m (js_manifest s) in (r, mkJobState ms (js_versions s)).
Definition install (delta : DeltaVersion) : St (JobState D) unit := λ s,
  match owner_install delta (js_versions s) with
  | Ok versions => (Ok tt, mkJobState (js_manifest s) versions)
  | Err e => (Err e, s)
  | Panic => (Panic, s)
  end.

Definition save_and_install_version (page_group : PageGroup) (file_info : FileInfo) (dealloc_pages : list Z) :
    St (JobState D) unit :=
  s ← gets id;
  version ← lift (owner_current (js_versions s));
  let now := manifest_now (ms_manifest (js_manifest s)) in
  '(edit, delta) ← lift (flush_delta version now page_group file_info dealloc_pages);
  _ ← on_manifest (record_version_edit io_fuel edit (version_snapshot version));
  install delta.
End save.
