(* ===== verification/FlushLaws.v ===== *)
(** * What a flush does to the version ([page_store/jobs/flush.rs])

    The page groups of a version are the map of their active pages ([groups_repr]).
    Deallocating removes pages from it; draining drops the groups without pages and
    exactly the files that have no page and deallocate no page of a group that
    still exists. *)

From stdpp Require Import base numbers list sorting gmap.
From Stdlib Require Import ZArith Lia.
From S2P Require Import Prelude BasePage Iter Bitmap BTree PageGroup Env FileBuilder MapFile Directory Manifest WriteBuffer Version Flush.

(** The active pages of each group. *)
Abbreviation Active := (gmap Z (gmap Z PageHandle)).

Definition group_repr (pg : PageGroup) (act : gmap Z PageHandle) : Prop := exists dead, pg_repr pg act dead.
Definition groups_repr (page_groups : gmap Z PageGroup) (A : Active) : Prop :=
  map_Forall2 (λ _, group_repr) page_groups A.

(** A page group represents one map. *)
Lemma group_repr_unique pg act act' : group_repr pg act -> group_repr pg act' -> act = act'.
Proof.
  intros [dead Hr] [dead' Hr']. rewrite (pr_active _ _ _ Hr), (pr_active _ _ _ Hr'). f_equal.
  destruct Hr as [_ Hb _ _ _], Hr' as [_ Hb' _ _ _]. apply set_eq. intros i. split; intros Hi.
  - pose proof (br_range _ _ Hb i Hi). apply (br_bits _ _ Hb'); [lia|]. by apply (br_bits _ _ Hb); [lia|].
  - pose proof (br_range _ _ Hb' i Hi). apply (br_bits _ _ Hb); [lia|]. by apply (br_bits _ _ Hb'); [lia|].
Qed.

Definition addr_group (page_addr : Z) : Z := wrap32 (Z.shiftr page_addr 32).
Definition kill_page (A : Active) (page_addr : Z) : Active := alter (delete (wrap32 page_addr)) (addr_group page_addr) A.
Definition kill_pages (A : Active) (page_addrs : list Z) : Active := foldl kill_page A page_addrs.

Lemma groups_repr_lookup G A g :
  groups_repr G A ->
  (exists pg act, G !! g = Some pg /\ A !! g = Some act /\ group_repr pg act) \/ (G !! g = None /\ A !! g = None).
Proof.
  intros Hr. specialize (Hr g). destruct Hr as [pg act Hrep|]; [left; eauto|by right].
Qed.
Lemma groups_repr_dom G A g : groups_repr G A -> is_Some (G !! g) <-> is_Some (A !! g).
Proof.
  intros Hr. destruct (groups_repr_lookup G A g Hr) as [(pg & act & -> & -> & _)|[-> ->]].
  - split; eauto.
  - split; intros [? ?]; done.
Qed.

(** The metadata of the groups. *)
Definition same_metas (G G' : gmap Z PageGroup) : Prop := (pg_meta <$> G') = (pg_meta <$> G).

Lemma dealloc_loop_ok pages G A updated :
  groups_repr G A ->
  exists G' updated', dealloc_loop pages G updated = Ok (G', updated') /\
    groups_repr G' (kill_pages A pages) /\ same_metas G G'.
Proof.
  revert G A updated. induction pages as [|addr pages IH]; intros G A updated Hr; [by exists G, updated|].
  cbn [dealloc_loop kill_pages foldl]. fold (addr_group addr). fold (kill_pages (kill_page A addr) pages).
  destruct (groups_repr_lookup G A (addr_group addr) Hr) as [(pg & act & Hg & Ha & dead & Hrep)|[Hg Ha]].
  - rewrite Hg. destruct (deactivate_page_ok pg act dead addr Hrep) as (pg' & dead' & Hd & Hrep' & Hm).
    rewrite Hd. cbn [mbind res_bind].
    edestruct (IH (<[addr_group addr := pg']> G) (kill_page A addr)) as (G' & up' & Hl & Hr' & Hs).
    { unfold kill_page. rewrite <- (insert_id A _ _ Ha), alter_insert_eq.
      apply map_Forall2_insert_2; [by exists dead'|done]. }
    exists G', up'. split; [exact Hl|]. split; [done|]. unfold same_metas in *. rewrite Hs, fmap_insert, Hm.
    apply insert_id. by rewrite lookup_fmap, Hg.
  - rewrite Hg. apply IH. unfold kill_page. intros i. rewrite lookup_alter. case_decide; [|apply Hr]. subst.
    rewrite Hg, Ha. constructor.
Qed.

Lemma updated_infos now (ids : list Z) (infos : gmap Z FileInfo) :
  fi_meta <$> foldr (λ file_id infos, alter (on_update now) file_id infos) infos ids = fi_meta <$> infos.
Proof.
  induction ids as [|i ids IH]; [done|]. cbn [foldr]. rewrite <- IH. apply map_eq. intros j.
  rewrite !lookup_fmap, lookup_alter. case_decide; [|done]. subst.
  destruct (foldr _ infos ids !! j) as [info|]; [|done]. cbn. f_equal. unfold on_update. by destruct (_ <? _).
Qed.

(** [apply_dealloc_pages] removes the pages and keeps all metadata. *)
Lemma apply_dealloc_pages_ok v now pages A :
  groups_repr (v_page_groups v) A ->
  exists G' F', apply_dealloc_pages v now pages = Ok (G', F') /\ groups_repr G' (kill_pages A pages) /\
    same_metas (v_page_groups v) G' /\ (fi_meta <$> F') = (fi_meta <$> v_files v).
Proof.
  intros Hr. destruct (dealloc_loop_ok pages _ A ∅ Hr) as (G' & up & Hl & Hr' & Hs).
  unfold apply_dealloc_pages. rewrite Hl. cbn [mbind res_bind]. eexists _, _. split; [done|].
  split; [done|]. split; [done|]. apply updated_infos.
Qed.

(** ** Draining *)

Definition nonempty (A : Active) : Active := base.filter (λ e, e.2 <> ∅) A.

(** A file is needed when one of its groups has a page, or it deallocates pages of a
    group that has one. *)
Definition file_needed (A : Active) (m : FileMeta) : Prop :=
  exists g act, A !! g = Some act /\ act <> ∅ /\ (is_Some (fm_page_groups m !! g) \/ g ∈ fm_referenced_groups m).

Lemma nonempty_lookup A g act : nonempty A !! g = Some act <-> A !! g = Some act /\ act <> ∅.
Proof. unfold nonempty. rewrite map_lookup_filter_Some. done. Qed.

Lemma group_empty pg act : group_repr pg act -> pg_is_empty pg = bool_decide (act = ∅).
Proof. intros [dead Hr]. by eapply pg_is_empty_ok. Qed.

Lemma retain_nonempty G A :
  groups_repr G A -> groups_repr (base.filter (λ e, pg_is_empty e.2 = false) G) (nonempty A).
Proof.
  intros Hr g. destruct (groups_repr_lookup G A g Hr) as [(pg & act & Hg & Ha & Hrep)|[Hg Ha]].
  - pose proof (group_empty pg act Hrep) as He. unfold nonempty. rewrite !map_lookup_filter, Hg, Ha. cbn.
    rewrite He. destruct (decide (act = ∅)) as [->|Hne].
    + rewrite option_guard_False, option_guard_False by (simpl; rewrite ?bool_decide_true by done; naive_solver). constructor.
    + rewrite option_guard_True, option_guard_True by (simpl; rewrite ?bool_decide_false by done; done). by constructor.
  - unfold nonempty. rewrite !map_lookup_filter, Hg, Ha. constructor.
Qed.

Section drain.
Context (G : gmap Z PageGroup) (A : Active) (Hr : groups_repr G A) (Hne : nonempty A = A).

Lemma has_active_group_ok info :
  has_active_group G info = true <-> exists g act, A !! g = Some act /\ is_Some (fm_page_groups (fi_meta info) !! g).
Proof using Hr Hne.
  unfold has_active_group. rewrite existsb_exists. split.
  - intros (g & Hin & Hg). destruct (groups_repr_lookup G A g Hr) as [(pg & act & Eg & Ea & Hrep)|[Eg _]]; rewrite Eg in Hg; [|done].
    exists g, act. split; [done|]. apply list_elem_of_In, list_elem_of_fmap in Hin as ([? m] & -> & Hm%elem_of_map_to_list). eauto.
  - intros (g & act & Ea & [m Hm]). exists g. split.
    + apply list_elem_of_In, list_elem_of_fmap. exists (g, m). split; [done|]. by apply elem_of_map_to_list.
    + destruct (groups_repr_lookup G A g Hr) as [(pg & act' & Eg & Ea' & Hrep)|[_ ?]]; [|congruence]. rewrite Eg.
      assert (act' = act) as -> by congruence. rewrite (group_empty _ _ Hrep), bool_decide_false; [done|].
      rewrite <- Hne in Ea. by apply nonempty_lookup in Ea as [_ ?].
Qed.
Lemma references_existing_ok info :
  references_existing G info = true <-> exists g act, A !! g = Some act /\ g ∈ fm_referenced_groups (fi_meta info).
Proof using Hr.
  unfold references_existing. rewrite existsb_exists. split.
  - intros (g & Hin & [act Hg]%bool_decide_eq_true_1%(groups_repr_dom G A g Hr)). exists g, act. split; [done|].
    by apply list_elem_of_In, elem_of_elements in Hin.
  - intros (g & act & Ea & Hin). exists g. split; [by apply list_elem_of_In, elem_of_elements|].
    apply bool_decide_eq_true, (groups_repr_dom G A g Hr). eauto.
Qed.

Definition dropped (info : FileInfo) : bool := negb (has_active_group G info) && negb (references_existing G info).

Lemma dropped_ok info : dropped info = true <-> ~ file_needed A (fi_meta info).
Proof using Hr Hne.
  unfold dropped. rewrite andb_true_iff, !negb_true_iff, <- !not_true_iff_false, has_active_group_ok, references_existing_ok.
  unfold file_needed. split.
  - intros [H1 H2] (g & act & Ha & _ & [Hg|Hg]); [apply H1|apply H2]; eauto.
  - intros Hn. assert (Hact : forall g act, A !! g = Some act -> act <> ∅).
    { intros g act Ha. rewrite <- Hne in Ha. by apply nonempty_lookup in Ha as [_ ?]. }
    split; intros (g & act & Ha & Hg); apply Hn; exists g, act; eauto.
Qed.

(** The loop removes the files of the list that are dropped. *)
Lemma drain_loop_ok ids F obs :
  NoDup ids -> (forall i, i ∈ ids -> is_Some (F !! i)) ->
  exists F' obs', drain_loop G ids F obs = Ok (F', obs') /\
    (forall i, F' !! i = info ← F !! i; if decide (i ∈ ids /\ references_existing G info = false) then None else Some info) /\
    (forall i, i ∈ obs' <-> i ∈ obs \/ (i ∈ ids /\ exists info, F !! i = Some info /\ references_existing G info = false)).
Proof using.
  clear A Hr Hne. intros Hnd. revert F obs. induction Hnd as [|i ids Hi _ IH]; intros F obs Hin.
  - exists F, obs. split; [done|]. split; [|set_solver]. intros i. destruct (F !! i); [|done]. cbn. by rewrite decide_False by set_solver.
  - destruct (Hin i) as [info Einfo]; [by left|]. cbn [drain_loop]. rewrite Einfo. cbn [expect mbind res_bind].
    destruct (references_existing G info) eqn:Eref.
    + destruct (IH F obs) as (F' & obs' & Hl & HF & Hobs); [intros; apply Hin; by right|].
      exists F', obs'. split; [exact Hl|]. split.
      * intros j. rewrite HF. destruct (F !! j) as [info'|] eqn:Ej; [|done]. cbn.
        destruct (decide (j = i)) as [->|]; [|by apply decide_ext; set_solver].
        assert (info' = info) as -> by congruence. by rewrite !decide_False by (rewrite Eref; naive_solver).
      * intros j. rewrite Hobs. split; [set_solver|]. intros [?|[[->|?]%elem_of_cons (info' & ? & ?)]]; [by left| |right; eauto].
        congruence.
    + destruct (IH (delete i F) ({[i]} ∪ obs)) as (F' & obs' & Hl & HF & Hobs).
      { intros j Hj. rewrite lookup_delete_ne by (by intros ->). apply Hin. by right. }
      exists F', obs'. split; [exact Hl|]. split.
      * intros j. rewrite HF. destruct (decide (j = i)) as [->|Hne'].
        -- rewrite lookup_delete_eq, Einfo. cbn. by rewrite decide_True by (split; [by left|done]).
        -- rewrite lookup_delete_ne by done. destruct (F !! j) as [info'|]; [|done]. cbn. apply decide_ext. set_solver.
      * intros j. rewrite Hobs. destruct (decide (j = i)) as [->|Hne'].
        -- split; [intros _|set_solver]. right. split; [by left|]. eauto.
        -- rewrite lookup_delete_ne by done. set_solver.
Qed.
End drain.

(** Draining keeps exactly the groups with pages and the files that are needed. *)
Lemma drain_obsoleted_files_ok G F A :
  groups_repr G A ->
  exists G' F' obs, drain_obsoleted_files G F = Ok (G', F', obs) /\ groups_repr G' (nonempty A) /\
    G' = base.filter (λ e, pg_is_empty e.2 = false) G /\
    (forall i info, F' !! i = Some info <-> F !! i = Some info /\ file_needed A (fi_meta info)) /\
    (forall i, i ∈ obs <-> exists info, F !! i = Some info /\ ~ file_needed A (fi_meta info)).
Proof.
  intros Hr. set (G' := base.filter (λ e, pg_is_empty e.2 = false) G). pose proof (retain_nonempty G A Hr) as Hr'. fold G' in Hr'.
  assert (Hne : nonempty (nonempty A) = nonempty A).
  { apply map_filter_id. intros g act Ha. by apply nonempty_lookup in Ha as [_ ?]. }
  assert (Hneed : forall m, file_needed (nonempty A) m <-> file_needed A m).
  { intros m. unfold file_needed. setoid_rewrite nonempty_lookup. naive_solver. }
  set (E := base.filter (λ e : Z * FileInfo, has_active_group G' e.2 = false) F).
  assert (HE : forall i, i ∈ (map_to_list E).*1 <-> exists info, F !! i = Some info /\ has_active_group G' info = false).
  { intros i. rewrite list_elem_of_fmap. split.
    - intros ([? info] & -> & Hi%elem_of_map_to_list). unfold E in Hi. apply map_lookup_filter_Some in Hi. eauto.
    - intros (info & Hi & Hh). exists (i, info). split; [done|]. apply elem_of_map_to_list, map_lookup_filter_Some. done. }
  destruct (drain_loop_ok G' (map_to_list E).*1 F ∅) as (F' & obs & Hl & HF & Hobs).
  { apply NoDup_fst_map_to_list. } { intros i (info & Hi & _)%HE. eauto. }
  assert (Hdrop : forall i info, F !! i = Some info ->
    (i ∈ (map_to_list E).*1 /\ references_existing G' info = false) <-> ~ file_needed A (fi_meta info)).
  { intros i info Hi. rewrite <- Hneed, <- (dropped_ok G' (nonempty A) Hr' Hne), HE. unfold dropped.
    rewrite andb_true_iff, !negb_true_iff. split; [|naive_solver]. intros [(info' & Hi' & ?) ?]. assert (info' = info) by congruence. by subst. }
  exists G', F', obs. unfold drain_obsoleted_files. fold G' E. rewrite Hl. cbn [mbind res_bind].
  split; [done|]. split; [done|]. split; [done|]. split.
  - intros i info. rewrite HF. destruct (F !! i) as [info'|] eqn:Hi; cbn; [|naive_solver].
    pose proof (Hdrop i info' Hi) as Hd. case_decide as Hc.
    + split; [done|]. intros [[= ->] Hn]. by apply Hd in Hc.
    + split; [|naive_solver]. intros [= ->]. split; [done|]. apply dec_stable. tauto.
  - intros i. rewrite Hobs. split.
    + intros [?|[Hin (info & Hi & Href)]]; [set_solver|]. exists info. split; [done|]. by apply (Hdrop i).
    + intros (info & Hi & Hn). right. apply (Hdrop i info Hi) in Hn as [Hin Href]. eauto.
Qed.

(** ** The flush as a whole *)

(** The active pages after a flush of the group [g] with the pages [act]. *)
Definition flush_active (A : Active) (dealloc_pages : list Z) (g : Z) (act : gmap Z PageHandle) : Active :=
  let A' := nonempty (kill_pages A dealloc_pages) in
  if decide (act = ∅) then A' else <[g := act]> A'.

Lemma flush_delta_ok v now page_group info dealloc_pages A act :
  groups_repr (v_page_groups v) A -> group_repr page_group act ->
  let A' := kill_pages A dealloc_pages in
  let g := pgm_group_id (pg_meta page_group) in
  let f := fm_file_id (fi_meta info) in
  exists G' F' obs, flush_delta v now page_group info dealloc_pages =
      Ok (make_flush_version_edit f obs, mkDeltaVersion ReasonFlush G' F' obs) /\
    groups_repr G' (flush_active A dealloc_pages g act) /\
    (forall i pg, G' !! i = Some pg -> (i = g /\ pg = page_group) \/
       ((i <> g \/ act = ∅) /\ exists pg0, v_page_groups v !! i = Some pg0 /\ pg_meta pg = pg_meta pg0)) /\
    (forall i m, (fi_meta <$> F') !! i = Some m <->
       (i = f /\ m = fi_meta info) \/ (i <> f /\ (fi_meta <$> v_files v) !! i = Some m /\ file_needed A' m)) /\
    (forall i, i ∈ obs <-> exists m, (fi_meta <$> v_files v) !! i = Some m /\ ~ file_needed A' m).
Proof.
  intros Hr Hg A' g f. destruct (apply_dealloc_pages_ok v now dealloc_pages A Hr) as (G1 & F1 & E1 & Hr1 & Hs1 & HF1).
  fold A' in Hr1. destruct (drain_obsoleted_files_ok G1 F1 A' Hr1) as (G2 & F2 & obs & E2 & Hr2 & EG2 & HF2 & Hobs).
  unfold flush_delta. rewrite E1. cbn [mbind res_bind]. rewrite E2. cbn [mbind res_bind]. fold g f.
  eexists _, _, obs. split; [done|]. split; [|split; [|split]].
  - unfold flush_active. fold A'. rewrite (group_empty _ _ Hg). destruct (decide (act = ∅)) as [->|Hne].
    + by rewrite bool_decide_true by done.
    + rewrite bool_decide_false by done. by apply map_Forall2_insert_2.
  - intros i pg Hi. assert (Hold : G2 !! i = Some pg -> exists pg0, v_page_groups v !! i = Some pg0 /\ pg_meta pg = pg_meta pg0).
    { intros Hi2. rewrite EG2 in Hi2. apply map_lookup_filter_Some in Hi2 as [Hi2 _].
      assert (Hm : (pg_meta <$> G1) !! i = Some (pg_meta pg)) by (by rewrite lookup_fmap, Hi2).
      rewrite Hs1, lookup_fmap, fmap_Some in Hm. destruct Hm as (pg0 & ? & ?). eauto. }
    rewrite (group_empty _ _ Hg) in Hi. case_bool_decide; [right; auto|].
    apply lookup_insert_Some in Hi as [[<- <-]|[? Hi]]; [by left|right; auto].
  - intros i m. rewrite fmap_insert, lookup_insert_Some. rewrite <- HF1, !lookup_fmap, !fmap_Some.
    split.
    + intros [[<- <-]|[Hne (info' & Hi & ->)]]; [by left|]. right. apply HF2 in Hi as [Hi Hn]. split; [done|]. split; [|done]. eauto.
    + intros [[-> ->]|(Hne & (info' & Hi & ->) & Hn)]; [by left|]. right. split; [done|]. exists info'. split; [|done]. by apply HF2.
  - intros i. rewrite Hobs, <- HF1. setoid_rewrite lookup_fmap. setoid_rewrite fmap_Some. naive_solver.
Qed.
