(* ===== verification/FlushFile.v ===== *)
(** * A flushed write buffer reads back ([build_page_file] of [page_store/jobs/flush.rs])

    The file that is built from a sealed write buffer holds exactly the pages of the
    buffer that are neither tombstones nor deallocated by the buffer itself, and the
    pages of other groups that the buffer deallocates. *)

From stdpp Require Import base numbers list sorting gmap.
From Stdlib Require Import ZArith Lia.
From S2P Require Import Prelude BasePage Iter Bitmap BTree PageGroup Env FileBuilder FileWriter MapFile FileReader FileRead FileBlocks FileRoundtrip.
From S2P Require Import Directory Manifest WriteBuffer Version Flush.

(** The pages of the records that are written. *)
Definition flush_page (skip_pages : gset Z) (rec : Z * RecordHeader * RecordRef) : option PageSpec :=
  match rec with
  | (addr, header, RecPage page) =>
      if rh_is_tombstone header || bool_decide (wrap32 addr ∈ skip_pages) then None
      else Some (mkPageSpec (rh_page_id header) addr (page_info page) page)
  | _ => None
  end.
Definition flush_pages (skip_pages : gset Z) (records : list (Z * RecordHeader * RecordRef)) : list PageSpec :=
  omap (flush_page skip_pages) records.

(** The addresses the records deallocate. *)
Definition dealloc_addrs (records : list (Z * RecordHeader * RecordRef)) : list Z :=
  concat ((λ rec, match rec.2 with RecDeallocPages pages => pages | RecPage _ => [] end) <$> records).
Definition other_group (g : Z) (addr : Z) : Prop := wrap32 (Z.shiftr addr 32) <> g.
Definition own_pages (g : Z) (records : list (Z * RecordHeader * RecordRef)) : gset Z :=
  list_to_set (wrap32 <$> base.filter (λ v, wrap32 (Z.shiftr v 32) = g) (dealloc_addrs records)).

Lemma collect_loop_ok g records stats dealloc skip :
  exists stats', collect_loop g records stats dealloc skip =
    (stats', dealloc ++ base.filter (λ v, wrap32 (Z.shiftr v 32) <> g) (dealloc_addrs records), skip ∪ own_pages g records).
Proof.
  revert stats dealloc skip. induction records as [|[[addr header] rec] records IH]; intros stats dealloc skip.
  - exists stats. unfold own_pages. cbn. by rewrite app_nil_r, (right_id_L ∅ _).
  - cbn [collect_loop]. unfold own_pages, dealloc_addrs in *. rewrite fmap_cons. cbn [concat]. destruct rec as [page|pages]; cbn [snd app].
    + apply IH.
    + edestruct IH as [stats' E]. exists stats'. rewrite E, !filter_app, fmap_app, list_to_set_app_L, (assoc_L (∪)), <- app_assoc. done.
Qed.

Lemma collect_ok g records :
  exists stats, collect_dealloc_pages_and_stats g records =
    (stats, base.filter (λ v, wrap32 (Z.shiftr v 32) <> g) (dealloc_addrs records), own_pages g records).
Proof.
  unfold collect_dealloc_pages_and_stats. destruct (collect_loop_ok g records (mkFlushPageStats 0 0 0 0 0) [] ∅) as [stats ->].
  rewrite app_nil_l, (left_id_L ∅ _). by eexists.
Qed.

(** ** Addresses of the records *)

Section live.
Context (g : Z) (Hg : fits 32 g).

Lemma live_bounds rs (off : nat) x :
  off + length (recs_bytes rs) < 2 ^ 32 -> x ∈ live_from g off rs ->
  exists o, x.1.1 = g * 2 ^ 32 + o /\ off + 16 <= o <= off + length (recs_bytes rs).
Proof using Hg.
  revert off. induction rs as [|r rs IH]; intros off Hle Hx; cbn [live_from] in Hx; [set_solver|].
  rewrite recs_bytes_cons, length_app in *. assert (Hr : (16 <= length (rec_bytes r))%nat).
  { unfold rec_bytes. rewrite length_app, length_rh_bytes. lia. }
  apply elem_of_app in Hx as [Hx|Hx].
  - destruct (rec_ref r); [|set_solver]. apply list_elem_of_singleton in Hx as ->. exists (off + 16). cbn [fst].
    unfold page_addr_of. rewrite lor_shiftl_add by lia. split; [done|lia].
  - destruct (IH (off + length (rec_bytes r))%nat) as (o & E & Ho); [lia|done|]. exists o. split; [done|lia].
Qed.

Lemma live_sorted rs (off : nat) :
  off + length (recs_bytes rs) < 2 ^ 32 -> StronglySorted Z.lt ((λ x, x.1.1) <$> live_from g off rs).
Proof using Hg.
  revert off. induction rs as [|r rs IH]; intros off Hle; cbn [live_from]; [constructor|].
  rewrite recs_bytes_cons, length_app in Hle.
  assert (Hr : (16 <= length (rec_bytes r))%nat) by (unfold rec_bytes; rewrite length_app, length_rh_bytes; lia).
  specialize (IH (off + length (rec_bytes r))%nat ltac:(lia)). destruct (rec_ref r) as [x|]; cbn [app]; [|done].
  rewrite fmap_cons. constructor; [done|]. apply Forall_forall. intros a (y & -> & Hy)%list_elem_of_fmap.
  apply live_bounds in Hy as (o & -> & Ho); [|lia]. cbn [fst]. unfold page_addr_of. rewrite lor_shiftl_add by lia. lia.
Qed.

(** A sublist of the records keeps the order. *)
Lemma flush_pages_addrs skip records : (sp_addr <$> flush_pages skip records) `sublist_of` ((λ x, x.1.1) <$> records).
Proof using.
  induction records as [|[[addr header] [page|pages]] records IH]; [done| |].
  - unfold flush_pages in *. cbn [omap list_omap]. cbn -[omap]. destruct (_ || _); cbn -[omap]; [by apply sublist_cons|by apply sublist_skip].
  - by apply sublist_cons.
Qed.
Lemma flush_group_addrs rs skip :
  length (recs_bytes rs) < 2 ^ 32 - 1 -> group_addrs g (sp_addr <$> flush_pages skip (live_from g 0 rs)).
Proof using Hg.
  intros Hle. split.
  - eapply sorted_sublist; [apply flush_pages_addrs|]. apply live_sorted. lia.
  - apply Forall_forall. intros a Ha. eapply elem_of_sublist in Ha; [|apply flush_pages_addrs].
    apply list_elem_of_fmap in Ha as (x & -> & Hx). apply live_bounds in Hx as (o & -> & Ho); [|lia].
    rewrite Z.add_comm, Z.div_add, Z.div_small by lia. lia.
Qed.
End live.

Lemma live_from_rec g off rs x : x ∈ live_from g off rs -> exists r, r ∈ rs /\ x.1.2 = rec_header r /\ rec_ref r = Some x.2.
Proof.
  revert off. induction rs as [|r rs IH]; intros off; cbn [live_from]; [set_solver|].
  intros [Hx|(r' & Hr & ?)%IH]%elem_of_app; [|exists r'; set_solver].
  destruct (rec_ref r) as [y|] eqn:E; [|set_solver]. apply list_elem_of_singleton in Hx as ->. exists r. split; [by left|done].
Qed.

Lemma read_num_fits p off : Forall byte_ok p -> fits 64 (read_num p off 8).
Proof.
  intros Hp. unfold read_num, fits. pose proof (le_num_bound (take 8 (drop off p)) ltac:(by apply Forall_take, Forall_drop)) as [H0' Hb].
  split; [done|]. eapply Z.lt_le_trans; [exact Hb|]. change (2 ^ 64) with (256 ^ 8). apply Z.pow_le_mono_r; [lia|].
  rewrite length_take. lia.
Qed.

Lemma u64s_fits n buf : Forall byte_ok buf -> Forall (fits 64) (u64s n buf).
Proof.
  revert buf. induction n as [|n IH]; intros buf Hb; cbn [u64s]; constructor; [|by apply IH, Forall_drop].
  apply (read_num_fits buf 0 Hb).
Qed.
(** ** The file *)

Section file.
Context `{PageCodecsLaws} {W : Type} `{SequentialWriterLaws W} {R : Type} `{PositionalReaderLaws R}.
Context (alloc : nat -> list Z) (io_fuel : nat).

Lemma add_records_pages records skip (g : PageGroupBuilder W) :
  add_records io_fuel records skip g = gb_add_pages io_fuel (flush_pages skip records) g.
Proof using.
  revert g. induction records as [|[[addr header] [page|pages]] records IH]; intros g; [done| |by apply IH].
  unfold flush_pages. cbn [add_records omap list_omap]. cbn -[omap gb_add_page].
  destruct (_ || _); cbn -[omap gb_add_page]; [apply IH|].
  destruct (gb_add_page _ _ _ _ _ _); cbn -[omap gb_add_page]; [apply IH|done|done].
Qed.

(** What is written for the records of a buffer. *)
Definition flush_group (g : Z) (rs : list Rec) : GroupSpec :=
  let records := live_from g 0 rs in
  mkGroupSpec g (flush_pages (own_pages g records) records)
    (base.filter (λ v, wrap32 (Z.shiftr v 32) <> g) (dealloc_addrs records)).

Lemma build_page_file_write w s rs file_id (file : W) use_direct compression checksum_type :
  wb_repr w s rs -> Forall rec_wf rs -> is_flushable s = true ->
  build_page_file alloc io_fuel w file_id file use_direct compression checksum_type =
    ('(pgs, info, f) ← write_file alloc io_fuel file_id file use_direct DEFAULT_BLOCK_SIZE compression checksum_type
       [flush_group (wb_group_id w) rs] file_id;
     pg ← expect (pgs !! wb_group_id w);
     Ok (gs_deallocs (flush_group (wb_group_id w) rs), pg, info, f)).
Proof using.
  intros Hw Hwf Hf. unfold build_page_file.
  assert (Hst : wb_buffer_state w = s).
  { unfold wb_buffer_state. exact (buf_ok_load _ _ _ (wr_state _ _ _ Hw) (wr_ok _ _ _ Hw)). }
  unfold wb_is_flushable. rewrite Hst, Hf. cbn [rassert mbind res_bind].
  destruct (record_drain_ok w s [] rs (S (wb_buf_size w)) Hw Hwf Hf) as [it' Hd].
  { assert (Hlive : forall off, (length (live_from (wb_group_id w) off rs) <= length rs)%nat).
    { clear. induction rs as [|r rs IH]; intros off; [done|]. simpl. rewrite length_app.
      specialize (IH (off + length (rec_bytes r))%nat). destruct (rec_ref r); simpl in *; lia. }
    specialize (Hlive (length (recs_bytes []))). pose proof (length_recs_le rs). pose proof (wr_alloc _ _ _ Hw).
    destruct (wr_ok _ _ _ Hw) as [_ ?]. lia. }
  change (mkRecordIterator w (length (recs_bytes []))) with (wb_iter w) in Hd. rewrite Hd. cbn [mbind res_bind].
  destruct (collect_ok (wb_group_id w) (live_from (wb_group_id w) (length (recs_bytes [])) rs)) as [stats Hc].
  change (length (recs_bytes [])) with 0%nat in *. rewrite Hc. unfold write_file.
  destruct (file_builder_new _ _ _ _ _ _ _) as [b|e|]; cbn [mbind res_bind]; try done.
  cbn [write_groups]. unfold write_group. cbn [flush_group gs_id gs_pages gs_deallocs]. rewrite add_records_pages.
  destruct (gb_add_pages _ _ _) as [g|e|]; cbn [mbind res_bind]; try done.
  destruct (gb_finish _ _) as [b'|e|]; cbn [mbind res_bind]; try done.
Qed.

(** What is asked of the buffer and the file. *)
Record flush_ok (w : WriteBuffer) (s : BufferState) (rs : list Rec) (file : W) (compression checksum_type : Z) : Prop := {
  fo_repr : wb_repr w s rs;
  fo_wf : Forall rec_wf rs;
  fo_flushable : is_flushable s = true;
  fo_bytes : Forall (λ r, Forall byte_ok (r_body r)) rs;
  fo_codec : codec_ok compression checksum_type;
  fo_empty : sw_content file = [];
  fo_fuel : IO_BUFFER_SIZE + DEFAULT_BLOCK_SIZE + sw_interrupts file <= io_fuel;
  fo_size : length (group_bytes compression checksum_type 0 (gs_pages (flush_group (wb_group_id w) rs))) < 2 ^ 32;
  fo_total : length (file_bytes compression checksum_type [flush_group (wb_group_id w) rs]
    (all_deallocs [flush_group (wb_group_id w) rs] [])) < 2 ^ 64;
}.

Lemma flush_file_ok w s rs (file : W) compression checksum_type :
  flush_ok w s rs file compression checksum_type ->
  file_ok io_fuel file DEFAULT_BLOCK_SIZE compression checksum_type [flush_group (wb_group_id w) rs].
Proof using.
  intros [Hw Hwf _ Hby Hc He Hf Hs Ht]. pose proof (wr_group _ _ _ Hw) as Hg. set (g := wb_group_id w) in *.
  assert (Hlen : length (recs_bytes rs) < 2 ^ 32 - 1).
  { pose proof (wr_alloc _ _ _ Hw). destruct (wr_ok _ _ _ Hw) as [_ ?]. pose proof (wr_size _ _ _ Hw). lia. }
  assert (Hrec : forall x, x ∈ live_from g 0 rs -> fits 64 x.1.1 /\ fits 64 (rh_page_id x.1.2) /\
    match x.2 with RecPage page => Forall byte_ok page | RecDeallocPages addrs => Forall (fits 64) addrs end).
  { intros x Hx. destruct (live_bounds g Hg rs 0 x ltac:(lia) Hx) as (o & Eo & Ho).
    destruct (live_from_rec g 0 rs x Hx) as (r & Hr & Eh & Er). rewrite Forall_forall in Hby, Hwf.
    specialize (Hby r Hr). destruct (Hwf r Hr) as [(Hd & _) _]. split; [unfold fits in *; lia|]. split; [by rewrite Eh|].
    unfold rec_ref in Er. destruct (r_flags r =? _); [injection Er as <-; done|].
    destruct (r_flags r =? _); [injection Er as <-|done]. by apply u64s_fits. }
  constructor; [done| | | |done|done|done|done].
  - split; [|done]. constructor; [by apply flush_group_addrs| |done|done|exact Hs].
    apply Forall_forall. intros p Hp. cbn [flush_group gs_pages] in Hp. unfold flush_pages in Hp.
    apply list_elem_of_omap in Hp as ([[addr header] rec] & Hx & Ep). destruct rec as [page|]; [|done]. cbn in Ep.
    destruct (_ || _); [done|]. injection Ep as <-. destruct (Hrec _ Hx) as (Ha & Hi & Hp). cbn in *.
    split; [done|]. split; [done|]. split; by apply read_num_fits.
  - apply NoDup_singleton.
  - apply Forall_forall. intros a Ha. unfold all_deallocs in Ha. cbn [foldl flush_group gs_deallocs] in Ha.
    apply bset_extend_elem in Ha as [Ha|Ha]; [|by apply not_elem_of_nil in Ha].
    apply list_elem_of_filter in Ha as [_ Ha]. unfold dealloc_addrs in Ha. apply list_elem_of_In, in_concat in Ha as (l & Hl%list_elem_of_In & Ha%list_elem_of_In).
    apply list_elem_of_fmap in Hl as (x & -> & Hx). destruct (Hrec x Hx) as (_ & _ & Hx2).
    destruct (x.2); [by apply not_elem_of_nil in Ha|]. rewrite Forall_forall in Hx2. auto.
Qed.

Context (Halloc : forall n, length (alloc n) = n).

(** Flushing keeps the live pages: from a sealed write buffer without writers a
    page file is built; every page record of the buffer that is not a tombstone and
    that the buffer does not deallocate itself can be read back through the new page
    group, with exactly its bytes; the group has no other pages; and the pages of
    other groups that the buffer deallocates are handed on, none lost and none
    added. *)
Theorem flush_writes_live_pages w s rs file_id (file : W) use_direct compression checksum_type :
  flush_ok w s rs file compression checksum_type ->
  let g := wb_group_id w in
  let records := live_from g 0 rs in
  exists deallocs group info f,
    build_page_file alloc io_fuel w file_id file use_direct compression checksum_type = Ok (deallocs, group, info, f) /\
    sw_content f = file_bytes compression checksum_type [flush_group g rs] (all_deallocs [flush_group g rs] []) /\
    deallocs = base.filter (λ v, wrap32 (Z.shiftr v 32) <> g) (dealloc_addrs records) /\
    total_pages (pg_meta group) = length (flush_pages (own_pages g records) records) /\
    fm_referenced_groups (fi_meta info) = list_to_set ((λ v, wrap32 (Z.shiftr v 32)) <$> deallocs) /\
    forall addr header page, (addr, header, RecPage page) ∈ records -> rh_is_tombstone header = false ->
      wrap32 addr ∉ own_pages g records ->
    exists handle, get_page_handle addr group = Ok (Some handle) /\
      forall r : FileReader R, fr_repr io_fuel r (sw_content f) ->
      exists r', read_file_page_from_reader alloc io_fuel (fi_meta info) handle r = (Ok page, r').
Proof using Halloc H0.
  intros Hok g records. pose proof (flush_file_ok w s rs file compression checksum_type Hok) as Hfile.
  destruct Hok as [Hw Hwf Hf _ _ _ _ _ _].
  destruct (write_file_ok alloc io_fuel Halloc file_id file use_direct DEFAULT_BLOCK_SIZE compression checksum_type _ file_id Hfile) as (f & E & Hc).
  set (spec := flush_group (wb_group_id w) rs) in *. set (pgs := groups_fold _ _ _ 0 [spec] ∅) in E.
  set (group := written_group compression checksum_type file_id 0 spec).
  assert (Hgr : pgs !! g = Some group) by (unfold pgs; cbn [groups_fold]; apply lookup_insert_eq).
  rewrite (build_page_file_write w s rs) by done. fold spec. rewrite E. cbn [mbind res_bind]. fold g. rewrite Hgr. cbn [expect mbind res_bind].
  eexists _, _, _, f. split; [done|]. split; [exact Hc|]. split; [done|]. split; [|split].
  - unfold group, written_group, page_group_new. cbn [pg_meta]. pose proof (fk_groups _ _ _ _ _ _ Hfile) as [Hp _].
    unfold total_pages, written_meta, group_meta. cbn [pgm_page_meta_map].
    rewrite (meta_map_size (gs_id spec)) by (rewrite page_entries_keys; apply Hp). apply length_page_entries.
  - cbn [fi_meta fm_referenced_groups]. unfold get_referenced_groups, split_page_addr. cbn [fst]. apply set_eq. intros x.
    rewrite !elem_of_list_to_set, !list_elem_of_fmap. unfold all_deallocs. cbn [foldl].
    split; intros (v & -> & Hv); exists v; (split; [done|]).
    + apply bset_extend_elem in Hv as [Hv|Hv]; [done|by apply not_elem_of_nil in Hv].
    + apply bset_extend_elem. by left.
  - intros addr header page Hin Ht Hskip.
    assert (Hp : mkPageSpec (rh_page_id header) addr (page_info page) page ∈ gs_pages spec).
    { cbn [spec flush_group gs_pages]. unfold flush_pages. apply list_elem_of_omap. exists (addr, header, RecPage page).
      split; [exact Hin|]. cbn. rewrite Ht, bool_decide_false by done. done. }
    edestruct (page_handle_reads (R := R) alloc io_fuel Halloc file_id file DEFAULT_BLOCK_SIZE compression checksum_type [spec] spec _
      (mkFileMeta file_id (length (file_bytes compression checksum_type [spec] (all_deallocs [spec] []))) DEFAULT_BLOCK_SIZE checksum_type compression
        (get_referenced_groups (all_deallocs [spec] [])) (pg_meta <$> pgs)) Hfile ltac:(by left) Hp) as (group' & handle & Hg' & _ & Hh & Hr); [|done|done|].
    { cbn [sp_content]. destruct (live_from_rec g 0 rs _ Hin) as (r & Hr & Eh & Er). rewrite Forall_forall in Hwf.
      destruct (Hwf r Hr) as [(_ & _ & Hb & _) _]. unfold rec_ref in Er. cbn [snd] in Er.
      destruct (r_flags r =? _); [injection Er as <-; lia|]. by destruct (r_flags r =? _). }
    change (gs_id spec) with g in Hg'. fold pgs in Hg'. assert (group' = group) as -> by congruence.
    exists handle. split; [exact Hh|]. intros r. rewrite Hc. apply Hr.
Qed.
End file.

(** A buffer with two pages, one of which it deallocates, together with a page of
    another group. *)
Definition sample_buffer_recs : list Rec :=
  [mkRec 1 FLAG_NORMAL_PAGE (replicate 16 1) []; mkRec 2 FLAG_NORMAL_PAGE (replicate 16 2) [];
   mkRec 0 FLAG_DELETED_PAGES (le_bytes 8 (page_addr_of 3 16) ++ le_bytes 8 (page_addr_of 2 16)) []].
Definition sample_buffer : WriteBuffer :=
  mkWriteBuffer 3 (recs_bytes sample_buffer_recs ++ replicate 32 0) 128 (pack (mkBufferState true 0 96)).
#[local] Existing Instance plain_codecs.
#[local] Existing Instance plain_codecs_laws.

Lemma sample_flush_ok :
  flush_ok (W := MemFile) sample_fuel sample_buffer (mkBufferState true 0 96) sample_buffer_recs (mkMemFile [] 7) COMPRESSION_SNAPPY CHECKSUM_CRC32.
Proof.
  constructor.
  - constructor; try done; try (by eexists). repeat constructor; vm_compute; congruence.
  - repeat (apply Forall_cons; split); [..|constructor]; (split; [repeat split; vm_compute; congruence|]).
    + left. split; [done|simpl; lia].
    + left. split; [done|simpl; lia].
    + by right; left.
  - done.
  - apply (bool_decide_eq_true_1 _). vm_compute. reflexivity.
  - split; [by right; left|by right].
  - done.
  - unfold sample_fuel. rewrite Z2Nat.id by lia. vm_compute. done.
  - vm_compute. done.
  - vm_compute. done.
Qed.

Lemma flush_writes_live_pages_witness :
  exists deallocs group info f handle r',
    build_page_file (λ n, replicate n 0) sample_fuel sample_buffer 5 (mkMemFile [] 7) false COMPRESSION_SNAPPY CHECKSUM_CRC32 =
      Ok (deallocs, group, info, f) /\
    deallocs = [page_addr_of 2 16] /\ total_pages (pg_meta group) = 1%nat /\
    read_file_page_from_reader (λ n, replicate n 0) sample_fuel (fi_meta info) handle (sample_reader (mf_data f)) = (Ok (replicate 16 2), r').
Proof.
  destruct (flush_writes_live_pages (R := MemFile) (λ n, replicate n 0) sample_fuel (λ n, length_replicate n 0) sample_buffer
    (mkBufferState true 0 96) sample_buffer_recs 5 (mkMemFile [] 7) false COMPRESSION_SNAPPY CHECKSUM_CRC32 sample_flush_ok)
    as (deallocs & group & info & f & E & Hcont & Hd & Ht & _ & Hr).
  destruct (Hr (page_addr_of 3 48) (mkRecordHeader 2 FLAG_NORMAL_PAGE 16) (replicate 16 2)) as (handle & _ & Hread).
  { vm_compute. right. left. } { done. } { apply (bool_decide_eq_true_1 _). vm_compute. reflexivity. }
  destruct (Hread (sample_reader (mf_data f))) as (r' & F).
  { apply sample_reader_repr. change (mf_data f) with (sw_content f). rewrite Hcont. vm_compute. done. }
  exists deallocs, group, info, f, handle, r'. split; [exact E|]. split; [exact Hd|]. split; [exact Ht|exact F].
Defined.
