(* ===== verification/Reclaim.v ===== *)
(** * Reclaiming space ([page_store/jobs/reclaim.rs], [jobs/cleanup.rs])

    A job picks files to compact until their live pages fill a file, writes the live
    pages and the deallocations that still matter to a new file, logs the edit and
    installs a version without the victims. The strategy that orders the files (its
    scores are floating point) is the list of files it picks; the page files are
    the functions that read the metadata of a file, open a reader and open a writer.
    The lock of the manifest is taken twice by [reclaim_files], so the version that is
    compacted and the version at the time of the installation may differ: the first is
    an argument, the second is part of the state. *)

From stdpp Require Import base numbers list sorting gmap.
From Stdlib Require Import ZArith Lia.
From S2P Require Import Prelude BasePage Iter BTree PageGroup Env FileBuilder MapFile FileReader Directory Manifest BufferSet Version Flush.

(** ** When to reclaim *)

(** The options the job reads. *)
Record ReclaimOptions := mkReclaimOptions {
  opt_max_space_amplification_percent : Z;
  opt_space_used_high : Z;
  opt_file_base_size : Z;
  opt_compression_on_cold_compact : Z;
  opt_page_checksum_type : Z;
}.

Record ReclaimProgress := mkReclaimProgress {
  rp_target_space_amp : Z;
  rp_space_used_high : Z;
  rp_file_base_size : Z;
  rp_used_space : Z;
  rp_base_size : Z;
  rp_additional_size : Z;
}.

Inductive ReclaimReason := ReasonNone | HighSpaceUsage | LargeSpaceAmp.

(** A sum of [usize]. *)
Definition sum_usize (l : list Z) : Z := foldr (λ x s, wrap64 (x + s)) 0 l.

Definition compute_base_size (page_files : gmap Z PageGroup) (cleaned_files : gset Z) : Z :=
  sum_usize (effective_size <$> base.filter (λ info, pg_is_empty info = false /\ pgm_file_id (pg_meta info) ∉ cleaned_files)
    (map_to_list page_files).*2).
Definition compute_used_space (file_infos : gmap Z FileInfo) (cleaned_files : gset Z) : Z :=
  sum_usize ((λ info, fm_file_size (fi_meta info)) <$> base.filter (λ info, fm_file_id (fi_meta info) ∉ cleaned_files)
    (map_to_list file_infos).*2).

Definition progress_new (option : ReclaimOptions) (version : Version) (cleaned_files : gset Z) : ReclaimProgress :=
  let used_space := compute_used_space (v_files version) cleaned_files in
  let base_size := compute_base_size (v_page_groups version) cleaned_files in
  mkReclaimProgress (opt_max_space_amplification_percent option) (opt_space_used_high option) (opt_file_base_size option)
    used_space base_size (sat_sub used_space base_size).

Definition track_file (file : FileInfo) (page_files : gmap Z PageGroup) (p : ReclaimProgress) : ReclaimProgress :=
  let used_space := sat_sub (rp_used_space p) (fm_file_size (fi_meta file)) in
  let effective := sum_usize ((λ id, match page_files !! id with Some g => effective_size g | None => 0 end) <$>
    (map_to_list (fm_page_groups (fi_meta file))).*1) in
  let base_size := sat_sub (rp_base_size p) effective in
  mkReclaimProgress (rp_target_space_amp p) (rp_space_used_high p) (rp_file_base_size p)
    used_space base_size (sat_sub used_space base_size).

Definition reclaim_reason (p : ReclaimProgress) : ReclaimReason :=
  if (rp_space_used_high p <? rp_used_space p) && (wrap64 (2 * rp_file_base_size p) <? rp_additional_size p) then HighSpaceUsage
  else if (0 <? rp_additional_size p) &&
    (wrap64 (rp_target_space_amp p * rp_base_size p) <=? wrap64 (rp_additional_size p * 100)) then LargeSpaceAmp
  else ReasonNone.
Definition is_reclaimable (p : ReclaimProgress) : bool :=
  match reclaim_reason p with HighSpaceUsage | LargeSpaceAmp => true | ReasonNone => false end.

(** ** What to compact *)

Record ReclaimJobBuilder := mkReclaimJobBuilder { jb_target_file_base : Z; jb_compact_files : gset Z; jb_compact_size : Z }.
Definition job_builder_new (target_file_base : Z) : ReclaimJobBuilder := mkReclaimJobBuilder target_file_base ∅ 0.
(** [add]: the job it returns is the set of files to compact. *)
Definition job_builder_add (file_id active_size : Z) (b : ReclaimJobBuilder) : option (gset Z) * ReclaimJobBuilder :=
  let compact_size := wrap64 (jb_compact_size b + active_size) in
  let compact_files := {[file_id]} ∪ jb_compact_files b in
  if jb_target_file_base b <=? compact_size
  then (Some compact_files, mkReclaimJobBuilder (jb_target_file_base b) ∅ 0)
  else (None, mkReclaimJobBuilder (jb_target_file_base b) compact_files compact_size).

(** ** Compacting *)

Record CompactStats := mkCompactStats {
  cs_num_active_pages : Z;
  cs_num_dealloc_pages : Z;
  cs_input_size : Z;
  cs_output_size : Z;
}.
Definition stats_default : CompactStats := mkCompactStats 0 0 0 0.
Definition stats_collect (page_group : PageGroup) (s : CompactStats) : res CompactStats :=
  active ← num_active_pages page_group;
  Ok (mkCompactStats (cs_num_active_pages s + active) (cs_num_dealloc_pages s)
    (cs_input_size s + total_page_size (pg_meta page_group)) (cs_output_size s + effective_size page_group)).

(** [page_tables.get(..)] and [page_table.get(..)]: the tables are ordered maps. *)
Definition table_lookup (page_addr : Z) (page_table : list (Z * Z)) : option Z :=
  (λ p, p.2.2) <$> list_find (λ e : Z * Z, e.1 = page_addr) page_table.

Section compact.
Context `{PageCodecs} {W R : Type} `{SequentialWriter W} `{PositionalReader R} (alloc : nat -> list Z) (io_fuel : nat).
Context (read_file_meta : Z -> res FileMetaHolder) (open_page_reader : Z -> Z -> res (FileReader R)).

(** The loop of [compact_page_group] over the active pages. *)
Fixpoint compact_pages (page_addrs : list Z) (file_info : FileInfo) (page_table : list (Z * Z)) (page_group : PageGroup)
    (reader : FileReader R) (builder : PageGroupBuilder W) : res (PageGroupBuilder W * FileReader R) :=
  match page_addrs with
  | [] => Ok (builder, reader)
  | page_addr :: page_addrs =>
      handle ← get_page_handle page_addr page_group;
      handle ← expect handle;
      let '(page, reader) := read_file_page_from_reader alloc io_fuel (fi_meta file_info) handle reader in
      page ← page;
      page_id ← expect (table_lookup page_addr page_table);
      builder ← gb_add_page io_fuel page_id page_addr (page_info page) page builder;
      compact_pages page_addrs file_info page_table page_group reader builder
  end.
Definition compact_page_group (file_info : FileInfo) (file_meta : FileMetaHolder) (page_group : PageGroup)
    (reader : FileReader R) (stats : CompactStats) (builder : PageGroupBuilder W) :
    res (PageGroupBuilder W * FileReader R * CompactStats) :=
  let group_id := pgm_group_id (pg_meta page_group) in
  stats ← stats_collect page_group stats;
  page_table ← expect (fh_page_tables file_meta !! group_id);
  iter ← pg_iter page_group;
  '(page_addrs, _) ← drain (S (length (pgi_active_pages iter))) iter;
  '(builder, reader) ← compact_pages page_addrs file_info page_table page_group reader builder;
  Ok (builder, reader, stats).

(** The loop of [compact_file] over the groups of the file. *)
Fixpoint compact_groups (target_groups : list Z) (file_info : FileInfo) (file_meta : FileMetaHolder)
    (page_groups : gmap Z PageGroup) (reader : FileReader R) (stats : CompactStats) (builder : FileBuilder W) :
    res (FileBuilder W * CompactStats) :=
  match target_groups with
  | [] => Ok (builder, stats)
  | id :: target_groups =>
      match page_groups !! id with
      | None => compact_groups target_groups file_info file_meta page_groups reader stats builder
      | Some page_group =>
          _ ← rassert (negb (pg_is_empty page_group));
          '(group_builder, reader, stats) ←
            compact_page_group file_info file_meta page_group reader stats (add_page_group id builder);
          builder ← gb_finish io_fuel group_builder;
          compact_groups target_groups file_info file_meta page_groups reader stats builder
      end
  end.

(** The deallocations of a file that still matter. *)
Definition existed_groups (page_groups : gmap Z PageGroup) (file_info : FileInfo) : gset Z :=
  base.filter (λ g, is_Some (page_groups !! g)) (fm_referenced_groups (fi_meta file_info)).
Definition retained_deallocs (page_groups : gmap Z PageGroup) (file_info : FileInfo) (dealloc_pages : list Z) : list Z :=
  base.filter (λ addr, wrap32 (Z.shiftr addr 32) ∈ existed_groups page_groups file_info) dealloc_pages.

Definition compact_file (file_info : FileInfo) (page_groups : gmap Z PageGroup) (stats : CompactStats) (builder : FileBuilder W) :
    res (FileBuilder W * CompactStats) :=
  let file_id := fm_file_id (fi_meta file_info) in
  file_meta ← read_file_meta file_id;
  let dealloc_pages := retained_deallocs page_groups file_info (fh_dealloc_pages file_meta) in
  let builder := fb_add_dealloc_pages dealloc_pages builder in
  let stats := mkCompactStats (cs_num_active_pages stats) (cs_num_dealloc_pages stats + length dealloc_pages)
    (cs_input_size stats) (cs_output_size stats) in
  reader ← open_page_reader file_id (fm_block_size (fi_meta file_info));
  let target_groups := merge_sort Z.le (map_to_list (fh_page_groups file_meta)).*1 in
  compact_groups target_groups file_info file_meta page_groups reader stats builder.

(** The loop of [compact_files]. The files that were read and the progress are fields
    the job keeps also when a victim fails. *)
Fixpoint compact_victims (victims : list Z) (file_infos : gmap Z FileInfo) (page_groups : gmap Z PageGroup)
    (builder : FileBuilder W) (stats : CompactStats) (up2_sum : Z) : St (gset Z * ReclaimProgress) (FileBuilder W * Z) :=
  match victims with
  | [] => mret (builder, up2_sum)
  | id :: victims =>
      info ← lift (expect (file_infos !! id));
      let up2_sum := wrap32 (up2_sum + fi_up2 info) in
      '(builder, stats) ← lift (compact_file info page_groups stats builder);
      _ ← modify (λ '(cleaned_files, progress), ({[id]} ∪ cleaned_files, track_file info page_groups progress));
      compact_victims victims file_infos page_groups builder stats up2_sum
  end.
Definition compact_files (options : ReclaimOptions) (new_file_id : Z) (file : W) (use_direct : bool)
    (file_infos : gmap Z FileInfo) (page_groups : gmap Z PageGroup) (victims : gset Z) :
    St (gset Z * ReclaimProgress) (gmap Z PageGroup * FileInfo * W) :=
  builder ← lift (file_builder_new alloc new_file_id file use_direct DEFAULT_BLOCK_SIZE
    (opt_compression_on_cold_compact options) (opt_page_checksum_type options));
  let victims := merge_sort Z.le (elements victims) in
  '(builder, up2_sum) ← compact_victims victims file_infos page_groups builder stats_default 0;
  _ ← lift (rassert (negb (wrap32 (length victims) =? 0)));
  let up2 := up2_sum / wrap32 (length victims) in
  lift (fb_finish io_fuel up2 builder).
End compact.

(** ** Installing *)

Definition make_compact_version_edit (file_info : FileInfo) (obsoleted_files : gset Z) : VersionEdit :=
  mkVersionEdit (Some (mkStreamEdit [new_file_from_info file_info] (elements obsoleted_files))).

(** The version [reclaim_files] installs on top of the current one. *)
Definition compact_delta (version : Version) (file_id : Z) (file_info : FileInfo) (page_groups : gmap Z PageGroup) (victims : gset Z) :
    DeltaVersion :=
  let delta := delta_from_version version in
  mkDeltaVersion ReasonCompact (page_groups ∪ dv_page_groups delta)
    (<[file_id := file_info]> (base.filter (λ e, e.1 ∉ victims) (dv_file_infos delta))) victims.

(** The state of the job: what it shares with the other jobs, the files it completed,
    its own fields. *)
Record ReclaimState (D W : Type) := mkReclaimState {
  rs_job : JobState D;
  rs_written : gmap Z W;
  rs_cleaned_files : gset Z;
  rs_progress : ReclaimProgress;
}.
Arguments mkReclaimState {D W} _ _ _ _.
Arguments rs_job {D W} _.
Arguments rs_written {D W} _.
Arguments rs_cleaned_files {D W} _.
Arguments rs_progress {D W} _.

Section reclaim.
Context `{PageCodecs} {W R : Type} `{SequentialWriter W} `{PositionalReader R} (alloc : nat -> list Z).
Context `{EditCodec} {D : Type} `{Env D} (io_fuel : nat).
Context (read_file_meta : Z -> res FileMetaHolder) (open_page_reader : Z -> Z -> res (FileReader R)).
Context (open_writer : Z -> res W) (use_direct : bool) (options : ReclaimOptions).

Definition on_job {A} (m : St (JobState D) A) : St (ReclaimState D W) A := λ s,
  let '(r, j) := m (rs_job s) in (r, mkReclaimState j (rs_written s) (rs_cleaned_files s) (rs_progress s)).
Definition on_progress {A} (m : St (gset Z * ReclaimProgress) A) : St (ReclaimState D W) A := λ s,
  let '(r, (c, p)) := m (rs_cleaned_files s, rs_progress s) in (r, mkReclaimState (rs_job s) (rs_written s) c p).
Definition take_file_id : St (MState D) Z := λ s,
  let '(id, m) := next_file_id (ms_manifest s) in (Ok id, mkMState m (ms_dir s)).

Definition reclaim_files (version : Version) (victims : gset Z) : St (ReclaimState D W) unit :=
  file_id ← on_job (on_manifest take_file_id);
  file ← lift (open_writer file_id);
  '(page_groups, file_info, file) ←
    on_progress (compact_files alloc io_fuel read_file_meta open_page_reader options file_id file use_direct
      (v_files version) (v_page_groups version) victims);
  _ ← modify (λ s, mkReclaimState (rs_job s) (<[file_id := file]> (rs_written s)) (rs_cleaned_files s) (rs_progress s));
  let edit := make_compact_version_edit file_info victims in
  current ← on_job (λ s, (owner_current (js_versions s), s));
  _ ← on_job (on_manifest (record_version_edit io_fuel edit (version_snapshot current)));
  on_job (install (compact_delta current file_id file_info page_groups victims)).

(** The loop of [reclaim_files_by_strategy] over the files the strategy picks;
    [terminated] answers [shutdown.is_terminated()] after each of them. *)
Fixpoint reclaim_loop (picks : list (Z * Z)) (terminated : nat -> bool) (i : nat) (version : Version) (builder : ReclaimJobBuilder) :
    St (ReclaimState D W) unit :=
  match picks with
  | [] => mret tt
  | (file, active_size) :: picks =>
      let '(job, builder) := job_builder_add file active_size builder in
      _ ← match job with Some victims => reclaim_files version victims | None => mret tt end;
      s ← gets id;
      if terminated (length picks) || has_next_version i (js_versions (rs_job s)) || negb (is_reclaimable (rs_progress s))
      then mret tt
      else reclaim_loop picks terminated i version builder
  end.
(** The files that are already cleaned are not offered to the strategy. *)
Definition cleaned_again (version : Version) (cleaned_files : gset Z) : gset Z :=
  base.filter (λ id, id ∈ cleaned_files) (dom (v_files version)).
Definition reclaim_files_by_strategy (strategy : list Z -> list (Z * Z)) (terminated : nat -> bool) (i : nat) (version : Version)
    (cleaned_files : gset Z) : St (ReclaimState D W) unit :=
  let candidates := (map_to_list (base.filter (λ e, e.1 ∉ cleaned_files) (v_files version))).*1 in
  _ ← modify (λ s, mkReclaimState (rs_job s) (rs_written s) (cleaned_again version cleaned_files ∪ rs_cleaned_files s) (rs_progress s));
  reclaim_loop (strategy candidates) terminated i version (job_builder_new (opt_file_base_size options)).
(** [reclaim] of the version at position [i]; an error is only logged. *)
Definition reclaim (strategy : list Z -> list (Z * Z)) (terminated : nat -> bool) (i : nat) (version : Version) : St (ReclaimState D W) unit :=
  s ← gets id;
  let cleaned_files := rs_cleaned_files s in
  let progress := progress_new options version cleaned_files in
  _ ← modify (λ s, mkReclaimState (rs_job s) (rs_written s) ∅ progress);
  if negb (is_reclaimable progress) then mret tt
  else
    _ ← attempt (reclaim_files_by_strategy strategy terminated i version cleaned_files);
    mret tt.
End reclaim.

(** ** Cleaning up ([CleanupCtx]) *)

(** [clean_obsoleted_files]: the files leave the disk; a visible file among them is a
    panic. *)
Definition clean_obsoleted_files {F} (version : Version) (obsoleted_files : gset Z) (disk : gmap Z F) : res (gmap Z F) :=
  _ ← rassert (bool_decide (Forall (λ id, v_files version !! id = None) (elements obsoleted_files)));
  Ok (base.filter (λ e, e.1 ∉ obsoleted_files) disk).
(** One round of [run], when all versions before this one are released. *)
Definition cleanup_round {F} (version : Version) (set : BufferSetVersion) (disk : gmap Z F) : res (BufferSetVersion * gmap Z F) :=
  set ← release_previous_buffers version set;
  disk ← clean_obsoleted_files version (v_obsoleted_files version) disk;
  Ok (set, disk).
