(* ===== verification/VersionLife.v ===== *)
(** * The life of versions ([page_store/{mod,version,buffer_set}.rs], [jobs/*.rs])

    The tasks around the chain of versions. Clients pin the current version, switch to a
    new write buffer when theirs is full, flush, or wait for the reclaiming; the flush
    job makes a version of every sealed buffer, the reclaim job one of every compaction,
    and the cleanup job follows behind: when nobody can see a version any more, it
    releases its write buffer and removes the files that the next one obsoletes. This
    file has the loops of the jobs and of the clients, as steps from one [await] to the
    next; [VersionSafe] shows that they are safe together.

    Whoever has a version has its position in the chain. A task that waits on a latch goes
    on when it is open ([Latch]), one that waits for a permit when its condition holds
    ([Stall]); a step of a task whose wait is not over does nothing. *)

From stdpp Require Import base numbers list gmap.
From Stdlib Require Import ZArith Lia.
From S2P Require Import Prelude PageGroup WriteBuffer BufferSet Version Reclaim Latch Shutdown.

(** ** The state *)

Inductive SwitchPc := SwTry | SwAcquire | SwInstall.
#[global] Instance switch_pc_eq_dec : EqDecision SwitchPc.
Proof. solve_decision. Defined.

(** The clients, each with the version it has. [Switching] is a task in [switch_buffer]
    that has sealed the buffer [g]; [next] is [None] for a transaction that goes on, and
    for a flush whether it waits for the buffer. *)
Inductive Client :=
  | Pinned (i : nat)
  | FlushPermits (i : nat) (g : Z) (wait : bool)
  | FlushSwitch (i : nat) (g : Z) (wait : bool)
  | Switching (i : nat) (g : Z) (r : ReleaseState) (pc : SwitchPc) (next : option bool)
  | FlushWait (i : nat) (g : Z)
  | ReclaimCheck (i : nat)
  | ReclaimWait (i : nat).

(** The flush job: at the top of its loop, waiting for the buffer [g] to be flushable,
    writing its file, and after the edit was recorded: releasing the permit, waiting until
    no writer is stalled, waiting for the successor of the buffer, and telling that it was
    flushed. [FlDown] are the buffers that are left to flush after a shutdown. *)
Inductive FlushPc :=
  | FlStart
  | FlWait (i : nat) (g : Z)
  | FlRelease (i : nat) (g : Z)
  | FlNoWaiter (i : nat) (g : Z)
  | FlSuccessor (i : nat) (g : Z)
  | FlFlushed (i : nat) (g : Z)
  | FlDown (ids : list Z)
  | FlDownFlushed (g : Z) (ids : list Z)
  | FlDone.

(** The cleanup job: waiting for the version after [i], waiting for the release of [i],
    and cleaning up after the version before [i]. *)
Inductive CleanupPc := CuWaitNext (i : nat) | CuWaitReleased (i : nat) | CuCleanup (i : nat) | CuDone (i : nat).
Inductive ReclaimPc := RcReclaim (i : nat) | RcWaitNext (i : nat) | RcDone.

(** The latches of a version are the lists at its position, that of a write buffer is
    under its id. *)
Record Life := mkLife {
  lf_versions : list Version;
  lf_new_version : list Latch;
  lf_reclaiming : list Latch;
  lf_buffers : BufferSetVersion;
  lf_permits : Z;
  lf_flushed : gmap Z Latch;
  lf_disk : gmap Z unit;
  lf_shutdown : ShutdownCore;
  lf_clients : gmap Z Client;
  lf_flush : FlushPc;
  lf_cleanup : CleanupPc;
  lf_reclaim : ReclaimPc;
}.

Definition with_chain (vs : list Version) (nv rc : list Latch) (s : Life) : Life :=
  mkLife vs nv rc (lf_buffers s) (lf_permits s) (lf_flushed s) (lf_disk s) (lf_shutdown s) (lf_clients s) (lf_flush s) (lf_cleanup s) (lf_reclaim s).
Definition with_buffers (b : BufferSetVersion) (s : Life) : Life :=
  mkLife (lf_versions s) (lf_new_version s) (lf_reclaiming s) b (lf_permits s) (lf_flushed s) (lf_disk s) (lf_shutdown s) (lf_clients s) (lf_flush s) (lf_cleanup s) (lf_reclaim s).
Definition with_permits (w : Z) (s : Life) : Life :=
  mkLife (lf_versions s) (lf_new_version s) (lf_reclaiming s) (lf_buffers s) w (lf_flushed s) (lf_disk s) (lf_shutdown s) (lf_clients s) (lf_flush s) (lf_cleanup s) (lf_reclaim s).
Definition with_flushed (m : gmap Z Latch) (s : Life) : Life :=
  mkLife (lf_versions s) (lf_new_version s) (lf_reclaiming s) (lf_buffers s) (lf_permits s) m (lf_disk s) (lf_shutdown s) (lf_clients s) (lf_flush s) (lf_cleanup s) (lf_reclaim s).
Definition with_disk (d : gmap Z unit) (s : Life) : Life :=
  mkLife (lf_versions s) (lf_new_version s) (lf_reclaiming s) (lf_buffers s) (lf_permits s) (lf_flushed s) d (lf_shutdown s) (lf_clients s) (lf_flush s) (lf_cleanup s) (lf_reclaim s).
Definition with_core (c : ShutdownCore) (s : Life) : Life :=
  mkLife (lf_versions s) (lf_new_version s) (lf_reclaiming s) (lf_buffers s) (lf_permits s) (lf_flushed s) (lf_disk s) c (lf_clients s) (lf_flush s) (lf_cleanup s) (lf_reclaim s).
Definition with_clients (m : gmap Z Client) (s : Life) : Life :=
  mkLife (lf_versions s) (lf_new_version s) (lf_reclaiming s) (lf_buffers s) (lf_permits s) (lf_flushed s) (lf_disk s) (lf_shutdown s) m (lf_flush s) (lf_cleanup s) (lf_reclaim s).
Definition with_flush (pc : FlushPc) (s : Life) : Life :=
  mkLife (lf_versions s) (lf_new_version s) (lf_reclaiming s) (lf_buffers s) (lf_permits s) (lf_flushed s) (lf_disk s) (lf_shutdown s) (lf_clients s) pc (lf_cleanup s) (lf_reclaim s).
Definition with_cleanup (pc : CleanupPc) (s : Life) : Life :=
  mkLife (lf_versions s) (lf_new_version s) (lf_reclaiming s) (lf_buffers s) (lf_permits s) (lf_flushed s) (lf_disk s) (lf_shutdown s) (lf_clients s) (lf_flush s) pc (lf_reclaim s).
Definition with_reclaim (pc : ReclaimPc) (s : Life) : Life :=
  mkLife (lf_versions s) (lf_new_version s) (lf_reclaiming s) (lf_buffers s) (lf_permits s) (lf_flushed s) (lf_disk s) (lf_shutdown s) (lf_clients s) (lf_flush s) (lf_cleanup s) pc.

Local Abbreviation M := (St Life).

(** ** Who has which version *)

Definition client_version (c : Client) : nat :=
  match c with
  | Pinned i | FlushPermits i _ _ | FlushSwitch i _ _ | Switching i _ _ _ _ | FlushWait i _ | ReclaimCheck i | ReclaimWait i => i
  end.
Definition flush_version (pc : FlushPc) : option nat :=
  match pc with
  | FlWait i _ | FlRelease i _ | FlNoWaiter i _ | FlSuccessor i _ | FlFlushed i _ => Some i
  | FlStart | FlDown _ | FlDownFlushed _ _ | FlDone => None
  end.
(** While it waits for the release of a version, the cleanup job has only the next one. *)
Definition cleanup_version (pc : CleanupPc) : option nat :=
  match pc with CuWaitNext i | CuCleanup i => Some i | CuWaitReleased i => Some (S i) | CuDone _ => None end.
Definition reclaim_version (pc : ReclaimPc) : option nat :=
  match pc with RcReclaim i | RcWaitNext i => Some i | RcDone => None end.
Definition holders (s : Life) : list nat :=
  (client_version <$> (map_to_list (lf_clients s)).*2) ++
  option_list (flush_version (lf_flush s)) ++ option_list (cleanup_version (lf_cleanup s)) ++ option_list (reclaim_version (lf_reclaim s)).

(** A version is kept by the owner when it is the current one, by whoever has it, and by
    the version before it, which points to it. *)
Fixpoint alive (held : list nat) (current i : nat) : bool :=
  bool_decide (i = current) || bool_decide (i ∈ held) || match i with O => false | S j => alive held current j end.
Definition version_alive (i : nat) (s : Life) : bool := alive (holders s) (length (lf_versions s) - 1) i.

(** ** Versions *)

(** A part of the state that may be missing. *)
Definition reads {A} (f : Life -> res A) : M A := λ s, (f s, s).
(** A change of the state that may fail. *)
Definition updates (f : Life -> res Life) : M unit := λ s,
  match f s with Ok s => (Ok tt, s) | Err e => (Err e, s) | Panic => (Panic, s) end.
Definition current_version : M nat := gets (λ s, (length (lf_versions s) - 1)%nat).
Definition version_at (i : nat) : M Version := reads (λ s, expect (lf_versions s !! i)).

(** [install] and [switch_version]. *)
Definition life_install (delta : DeltaVersion) : M unit := updates (λ s,
    versions ← owner_install delta (lf_versions s);
    let former := (length (lf_versions s) - 1)%nat in
    latch ← expect (lf_new_version s !! former);
    '(_, latch) ← count_down latch;
    Ok (with_chain versions (<[former := latch]> (lf_new_version s) ++ [latch_new 1]) (lf_reclaiming s ++ [latch_new 1]) s)).

Definition is_open (l : Latch) : bool := lc_count (la_core l) =? la_expect l.
(** [wait_next_version]: [None] while it waits. *)
Definition wait_next_version (i : nat) : M (option nat) :=
  latch ← reads (λ s, expect (lf_new_version s !! i));
  if is_open latch then next ← reads (λ s, expect (try_next i (lf_versions s))); mret (Some next.1) else mret None.
Definition wait_version_released (i : nat) : M (option unit) :=
  kept ← gets (version_alive i);
  mret (if kept : bool then None else Some tt).
(** [reclaimed] of the version at a position. *)
Definition version_reclaimed (i : nat) : M unit := updates (λ s,
  latch ← expect (lf_reclaiming s !! i);
  '(_, latch) ← count_down latch;
  Ok (with_chain (lf_versions s) (lf_new_version s) (<[i := latch]> (lf_reclaiming s)) s)).

(** [with_shutdown] of the job at the address [job]. *)
Definition unless_shutdown {A} (job : Z) (value : option A) : M (option (option A)) := λ s,
  let '(out, core) := with_shutdown_poll value job job (lf_shutdown s) in (Ok out, with_core core s).

(** ** The cleanup job *)

Definition cleanup_step : M unit :=
  pc ← gets lf_cleanup;
  match pc with
  | CuWaitNext i =>
      next ← wait_next_version i;
      out ← unless_shutdown 1 next;
      match out with
      | None => mret tt
      | Some None => modify (with_cleanup (CuDone i))
      | Some (Some _) => modify (with_cleanup (CuWaitReleased i))
      end
  | CuWaitReleased i =>
      released ← wait_version_released i;
      out ← unless_shutdown 1 released;
      match out with
      | None => mret tt
      | Some None => modify (with_cleanup (CuDone i))
      | Some (Some _) => modify (with_cleanup (CuCleanup (S i)))
      end
  | CuCleanup i =>
      version ← version_at i;
      '(buffers, disk) ← reads (λ s, cleanup_round version (lf_buffers s) (lf_disk s));
      _ ← modify (with_buffers buffers);
      _ ← modify (with_disk disk);
      modify (with_cleanup (CuWaitNext i))
  | CuDone _ => mret tt
  end.

(** ** The reclaim job and those who wait for it *)

Section reclaim.
Context (options : ReclaimOptions) (disable_space_reclaiming : bool).

(** The compactions of [reclaim] are events of their own. *)
Definition reclaim_step : M unit :=
  pc ← gets lf_reclaim;
  match pc with
  | RcReclaim i =>
      _ ← (if disable_space_reclaiming then mret tt else version_reclaimed i);
      modify (with_reclaim (RcWaitNext i))
  | RcWaitNext i =>
      next ← wait_next_version i;
      out ← unless_shutdown 2 next;
      match out with
      | None => mret tt
      | Some None => modify (with_reclaim RcDone)
      | Some (Some j) =>
          newer ← reads (λ s, refresh j (lf_versions s));
          modify (with_reclaim (RcReclaim (default j (fst <$> newer))))
      end
  | RcDone => mret tt
  end.

Definition set_client (id : Z) (c : Client) : M unit := modify (λ s, with_clients (<[id := c]> (lf_clients s)) s).
Definition end_client (id : Z) : M unit := modify (λ s, with_clients (delete id (lf_clients s)) s).

(** [wait_for_reclaiming], from one version to the next. *)
Definition reclaim_check (id : Z) (i : nat) : M unit :=
  version ← version_at i;
  if is_reclaimable (progress_new options version ∅) then set_client id (ReclaimWait i) else end_client id.
Definition reclaim_wait (id : Z) (i : nat) : M unit :=
  latch ← reads (λ s, expect (lf_reclaiming s !! i));
  if is_open latch then
    next ← gets (λ s, try_next i (lf_versions s));
    match next with Some (j, _) => set_client id (ReclaimCheck j) | None => end_client id end
  else mret tt.

(** ** Switching buffers *)

Definition seal_buffer (g : Z) : M (option ReleaseState) :=
  '(r, set) ← reads (λ s, bsv_seal_buffer g (lf_buffers s));
  _ ← modify (with_buffers set);
  mret r.
(** After [switch_buffer]: the transaction goes on, the flush waits for the buffer or
    returns. *)
Definition switched (id : Z) (i : nat) (g : Z) (next : option bool) : M unit :=
  match next with
  | None => set_client id (Pinned i)
  | Some true => set_client id (FlushWait i g)
  | Some false => end_client id
  end.
Definition switch_buffer (id : Z) (i : nat) (g : Z) (next : option bool) : M unit :=
  r ← seal_buffer g;
  match r with
  | None => switched id i g next
  | Some r => set_client id (Switching i g r SwTry next)
  end.

(** A permit: [try_acquire], or [acquire] until there is one. *)
Definition acquire_step (id : Z) (kind : AcquireKind) (got not_yet : Client) : M unit :=
  word ← gets lf_permits;
  let '(word, ok) := permits_acquire_fast kind word in
  _ ← modify (with_permits word);
  set_client id (if ok : bool then got else not_yet).
(** The successor of the buffer [g]; the flush job is woken by [FlWait]'s own steps. *)
Definition install_successor (capacity : nat) (mem : list Z) (g : Z) : M unit :=
  buf ← lift (wb_with_capacity (wrap32 (g + 1)) capacity mem);
  set ← reads (λ s, bsv_install buf (lf_buffers s));
  _ ← modify (with_buffers set);
  modify (λ s, with_flushed (<[wb_group_id buf := latch_new 1]> (lf_flushed s)) s).

(** A step of a client; [mem] is the memory of a new buffer. *)
Definition client_step (capacity : nat) (mem : list Z) (id : Z) : M unit :=
  c ← gets (λ s, lf_clients s !! id);
  match c with
  | None | Some (Pinned _) => mret tt
  | Some (FlushPermits i g wait) =>
      word ← gets lf_permits;
      if permits_wait_cond HasPermits word then set_client id (FlushSwitch i g wait) else mret tt
  | Some (FlushSwitch i g wait) => switch_buffer id i g (Some wait)
  | Some (Switching i g r SwTry next) => acquire_step id AcquireNone (Switching i g r SwInstall next) (Switching i g r SwAcquire next)
  | Some (Switching i g r SwAcquire next) => acquire_step id AddWaiter (Switching i g r SwInstall next) (Switching i g r SwAcquire next)
  | Some (Switching i g r SwInstall next) => _ ← install_successor capacity mem g; switched id i g next
  | Some (FlushWait i g) =>
      latch ← reads (λ s, expect (lf_flushed s !! g));
      if is_open latch then end_client id else mret tt
  | Some (ReclaimCheck i) => reclaim_check id i
  | Some (ReclaimWait i) => reclaim_wait id i
  end.

(** New clients: a transaction or any reader, [flush], [wait_for_reclaiming]. *)
Definition pin (id : Z) : M unit := i ← current_version; set_client id (Pinned i).
Definition flush_active_buffer (id : Z) (wait allow_write_stall : bool) : M unit :=
  i ← current_version;
  buffer ← gets (λ s, bsv_current (lf_buffers s));
  if wb_is_empty buffer then mret tt
  else if allow_write_stall then set_client id (FlushSwitch i (wb_group_id buffer) wait)
  else set_client id (FlushPermits i (wb_group_id buffer) wait).
Definition wait_for_reclaiming (id : Z) : M unit :=
  if disable_space_reclaiming then mret tt else i ← current_version; set_client id (ReclaimCheck i).
End reclaim.

(** ** The flush job *)

Definition min_buffer (i : nat) : M WriteBuffer := reads (λ s, v ← expect (lf_versions s !! i); min_write_buffer v (lf_buffers s)).
Definition buffer_at (g : Z) : M WriteBuffer := reads (λ s, b ← bsv_get g (lf_buffers s); expect b).
Definition on_flushed (g : Z) : M unit := updates (λ s,
  latch ← expect (lf_flushed s !! g);
  '(_, latch) ← count_down latch;
  Ok (with_flushed (<[g := latch]> (lf_flushed s)) s)).
Definition flush_delta_version (delta : DeltaVersion) : DeltaVersion :=
  mkDeltaVersion ReasonFlush (dv_page_groups delta) (dv_file_infos delta) (dv_obsoleted_files delta).
Definition compact_delta_version (delta : DeltaVersion) : DeltaVersion :=
  mkDeltaVersion ReasonCompact (dv_page_groups delta) (dv_file_infos delta) (dv_obsoleted_files delta).

(** The ids from [a] up to [b]. *)
Definition id_range (a b : Z) : list Z := (λ k : nat, a + k) <$> seq 0 (Z.to_nat (b - a)).

(** A step of the flush job; [notified] says whether [wait_flushable] is over, [delta] is
    the version that the flush makes. *)
Definition flush_step (avoid_flush_during_shutdown notified : bool) (delta : DeltaVersion) : M unit :=
  pc ← gets lf_flush;
  match pc with
  | FlStart =>
      i ← current_version;
      write_buffer ← min_buffer i;
      modify (with_flush (FlWait i (wb_group_id write_buffer)))
  | FlWait i g =>
      write_buffer ← buffer_at g;
      if wb_is_flushable write_buffer then modify (with_flush (FlRelease i g))
      else
        out ← unless_shutdown 3 (if notified then Some tt else None);
        match out with
        | None | Some (Some _) => mret tt
        | Some None =>
            if avoid_flush_during_shutdown then modify (with_flush FlDone)
            else
              j ← current_version;
              v ← version_at j;
              set ← gets lf_buffers;
              let '(first, last) := buffers_range v set in
              modify (with_flush (FlDown (id_range first last)))
        end
  | FlRelease i g =>
      word ← gets lf_permits;
      _ ← modify (with_permits (permits_release word).1);
      modify (with_flush (FlNoWaiter i g))
  | FlNoWaiter i g =>
      word ← gets lf_permits;
      if permits_wait_cond NoWaiter word then modify (with_flush (FlSuccessor i g)) else mret tt
  | FlSuccessor i g =>
      set ← gets lf_buffers;
      if g <? wb_group_id (bsv_current set) then
        _ ← life_install (flush_delta_version delta);
        modify (with_flush (FlFlushed i g))
      else mret tt
  | FlFlushed i g => _ ← on_flushed g; modify (with_flush FlStart)
  | FlDown [] => modify (with_flush FlDone)
  | FlDown (g :: ids) =>
      buffer ← buffer_at g;
      if negb (wb_is_sealed buffer) && wb_is_empty buffer then modify (with_flush FlDone)
      else
        _ ← (if wb_is_sealed buffer then mret tt else _ ← seal_buffer g; mret tt);
        buffer ← buffer_at g;
        _ ← lift (rassert (wb_is_flushable buffer));
        _ ← life_install (flush_delta_version delta);
        modify (with_flush (FlDownFlushed g ids))
  | FlDownFlushed g ids => _ ← on_flushed g; modify (with_flush (FlDown ids))
  | FlDone => mret tt
  end.

(** ** The store *)

(** The parts of [PageStore::open] after the recovery. *)
Definition life_open (capacity : nat) (mem : list Z) (next_group_id max_write_buffers : Z) (delta : DeltaVersion) : res Life :=
  '(set, version) ← version_new capacity mem next_group_id delta;
  Ok (mkLife (owner_new version) [latch_new 1] [latch_new 1] set (permits_new (max_write_buffers - 1)) {[next_group_id := latch_new 1]}
    ((λ _, tt) <$> dv_file_infos delta) shutdown_new ∅ FlStart (CuWaitNext 0) (RcReclaim 0)).

(** [EvBuffer] is a write, [EvFile] a file that a job has written, [EvCompact] the version
    of a compaction. *)
Inductive LifeEvent :=
  | EvPin (id : Z)
  | EvUnpin (id : Z)
  | EvSeal (id g : Z)
  | EvFlush (id : Z) (wait allow_write_stall : bool)
  | EvWaitReclaim (id : Z)
  | EvClient (id : Z) (mem : list Z)
  | EvBuffer (g : Z) (b : WriteBuffer)
  | EvFile (f : Z)
  | EvFlushJob (notified : bool) (delta : DeltaVersion)
  | EvCompact (delta : DeltaVersion)
  | EvReclaim
  | EvCleanup
  | EvTerminate.

Record LifeOptions := mkLifeOptions {
  lo_reclaim : ReclaimOptions;
  lo_capacity : nat;
  lo_disable_space_reclaiming : bool;
  lo_avoid_flush_during_shutdown : bool;
}.

Definition life_step (o : LifeOptions) (e : LifeEvent) : M unit :=
  match e with
  | EvPin id => pin id
  | EvUnpin id => end_client id
  | EvSeal id g => i ← reads (λ s, c ← expect (lf_clients s !! id); Ok (client_version c)); switch_buffer id i g None
  | EvFlush id wait stall => flush_active_buffer id wait stall
  | EvWaitReclaim id => wait_for_reclaiming (lo_disable_space_reclaiming o) id
  | EvClient id mem => client_step (lo_reclaim o) (lo_capacity o) mem id
  | EvBuffer g b => modify (λ s, with_buffers (bsv_update g b (lf_buffers s)) s)
  | EvFile f => modify (λ s, with_disk (<[f := tt]> (lf_disk s)) s)
  | EvFlushJob notified delta => flush_step (lo_avoid_flush_during_shutdown o) notified delta
  | EvCompact delta => life_install (compact_delta_version delta)
  | EvReclaim => reclaim_step (lo_disable_space_reclaiming o)
  | EvCleanup => cleanup_step
  | EvTerminate => modify (λ s, with_core (terminate (lf_shutdown s)).2 s)
  end.
