(* ===== verification/VersionChain.v ===== *)
(** * The chain of versions and its holders

    The first half of the invariant of [VersionLife]: who can see which version. The
    cleanup job follows the chain; nobody has a version before the one it has released
    last, and the files of the versions from there on are on the disk. *)

From stdpp Require Import base numbers list gmap.
From Stdlib Require Import ZArith Lia.
From S2P Require Import Prelude PageGroup WriteBuffer BufferSet Version Reclaim Latch Shutdown VersionLife.

(** ** Latches for one event *)

Definition latch1 (open : bool) : Latch := mkLatch 1 (mkLatchCore (if open then 1 else 0) 1 ∅).
Lemma latch1_open b : is_open (latch1 b) = b.
Proof. by destruct b. Qed.
Lemma latch1_down : count_down (latch1 false) = Ok ([], latch1 true).
Proof. reflexivity. Qed.

(** ** Who keeps a version *)

Lemma alive_false held current i :
  alive held current i = false <-> forall j, (j <= i)%nat -> j <> current /\ j ∉ held.
Proof.
  induction i as [|i IH]; cbn [alive].
  - rewrite !orb_false_iff, !bool_decide_eq_false. split.
    + intros [[? ?] _] j Hj. by replace j with 0%nat by lia.
    + intros Ha. split; [|done]. apply (Ha 0%nat). lia.
  - rewrite !orb_false_iff, !bool_decide_eq_false, IH. split.
    + intros [[? ?] Ha] j Hj. destruct (decide (j = S i)) as [->|]; [done|]. apply Ha. lia.
    + intros Ha. split; [apply (Ha (S i)); lia|]. intros j Hj. apply Ha. lia.
Qed.

(** ** Positions *)

(** Nobody has a version before [freed]; the cleanup after the versions up to [cleaned]
    is done. *)
Definition freed (pc : CleanupPc) : nat := match pc with CuWaitNext i | CuWaitReleased i | CuCleanup i | CuDone i => i end.
Definition cleaned (pc : CleanupPc) : nat := match pc with CuWaitNext i | CuWaitReleased i | CuDone i => i | CuCleanup i => (i - 1)%nat end.
(** The versions from here on are not reclaimed yet. *)
Definition unreclaimed (pc : ReclaimPc) : option nat := match pc with RcReclaim i => Some i | RcWaitNext i => Some (S i) | RcDone => None end.

Definition first_step (w : Version) : Z := match v_reason w with ReasonFlush => 1 | ReasonCompact => 0 end.

Record chain_inv (vs : list Version) (nv rc : list Latch) (disk : gmap Z unit) (held : list nat) (cu : CleanupPc) (rp : ReclaimPc) : Prop := {
  ci_length : (0 < length vs)%nat /\ length nv = length vs /\ length rc = length vs;
  ci_new : forall i, (i < length vs)%nat -> nv !! i = Some (latch1 (bool_decide (S i < length vs)%nat));
  ci_reclaiming : forall i, (i < length vs)%nat -> exists b, rc !! i = Some (latch1 b) /\
    forall p, unreclaimed rp = Some p -> (p <= i)%nat -> b = false;
  ci_held : forall p, p ∈ held -> (freed cu <= p < length vs)%nat;
  ci_cleanup : (freed cu < length vs)%nat /\ (forall i, cu = CuCleanup i -> (0 < i)%nat);
  ci_files : forall i v f, (cleaned cu <= i)%nat -> vs !! i = Some v -> is_Some (v_files v !! f) -> is_Some (disk !! f);
  ci_obsoleted : forall i j w v f, (i <= j)%nat -> vs !! i = Some w -> vs !! j = Some v -> f ∈ v_obsoleted_files w -> v_files v !! f = None;
  ci_first : forall i v w, vs !! i = Some v -> vs !! S i = Some w -> v_first_buffer_id w = v_first_buffer_id v + first_step w;
}.

Section chain.
Context {vs : list Version} {nv rc : list Latch} {disk : gmap Z unit} {held : list nat} {cu : CleanupPc} {rp : ReclaimPc}.
Context (Hc : chain_inv vs nv rc disk held cu rp).

Lemma cleaned_freed pc : (cleaned pc <= freed pc)%nat.
Proof. destruct pc; cbn; lia. Qed.

Lemma chain_held held' : (forall p, p ∈ held' -> p ∈ held \/ (freed cu <= p < length vs)%nat) -> chain_inv vs nv rc disk held' cu rp.
Proof using Hc.
  intros Hh. pose proof Hc as [L N R H C F O D]. split; [done|done|done| |done..].
  intros p [Hp|Hp]%Hh; [by apply H|done].
Qed.
Lemma chain_disk disk' : (forall f, is_Some (disk !! f) -> is_Some (disk' !! f)) -> chain_inv vs nv rc disk' held cu rp.
Proof using Hc. intros Hd. pose proof Hc as [L N R H C F O D]. split; [done..| |done|done]. intros i v f Hi Hv Hf. eapply Hd, F; done. Qed.

Lemma chain_current : exists v, last vs = Some v /\ vs !! (length vs - 1)%nat = Some v.
Proof using Hc.
  destruct (ci_length _ _ _ _ _ _ _ Hc) as [Hl _]. rewrite last_lookup. replace (pred (length vs)) with (length vs - 1)%nat by lia.
  destruct (lookup_lt_is_Some_2 vs (length vs - 1)%nat) as [v Hv]; [lia|]. rewrite Hv. eauto.
Qed.
Lemma chain_lookup p : p ∈ held -> exists v, vs !! p = Some v.
Proof using Hc. intros Hp%(ci_held _ _ _ _ _ _ _ Hc). apply lookup_lt_is_Some_2. lia. Qed.

(** The ids of the first buffers only grow. *)
Lemma chain_first_mono i j v w : (i <= j)%nat -> vs !! i = Some v -> vs !! j = Some w -> v_first_buffer_id v <= v_first_buffer_id w.
Proof using Hc.
  intros Hij Hv. revert w. induction Hij as [|j Hij IH]; intros w Hw; [assert (v = w) as -> by congruence; lia|].
  destruct (lookup_lt_is_Some_2 vs j) as [u Hu]; [apply lookup_lt_Some in Hw; lia|]. specialize (IH u Hu).
  rewrite (ci_first _ _ _ _ _ _ _ Hc j u w Hu Hw). unfold first_step. destruct (v_reason w); lia.
Qed.

(** Every file of a version that somebody has is on the disk. *)
Lemma chain_held_file p v f : p ∈ held -> vs !! p = Some v -> is_Some (v_files v !! f) -> is_Some (disk !! f).
Proof using Hc.
  intros Hp Hv. eapply (ci_files _ _ _ _ _ _ _ Hc); [|done]. apply (ci_held _ _ _ _ _ _ _ Hc) in Hp.
  pose proof (cleaned_freed cu). lia.
Qed.

(** A new version, after the current one [v]. *)
Lemma chain_install v w disk' held' :
  last vs = Some v -> v_first_buffer_id w = v_first_buffer_id v + first_step w ->
  (forall f, is_Some (disk !! f) -> is_Some (disk' !! f)) ->
  (forall f, is_Some (v_files w !! f) -> is_Some (disk' !! f)) ->
  (forall f u, u ∈ vs ++ [w] -> is_Some (v_files w !! f) -> f ∉ v_obsoleted_files u) ->
  (forall p, p ∈ held' -> p ∈ held) ->
  chain_inv (vs ++ [w]) (<[(length vs - 1)%nat := latch1 true]> nv ++ [latch1 false]) (rc ++ [latch1 false]) disk' held' cu rp.
Proof using Hc.
  intros Hv Hfirst Hdisk Hfiles Hobs Hh. pose proof Hc as [(L1 & L2 & L3) N R H [C1 C2] F O D].
  assert (Hvl : vs !! (length vs - 1)%nat = Some v) by (rewrite last_lookup in Hv; by replace (length vs - 1)%nat with (pred (length vs)) by lia).
  split.
  - rewrite !length_app, length_insert. cbn. lia.
  - intros i Hi. rewrite length_app in *. cbn in Hi |- *. destruct (decide (i = length vs)) as [->|Hne].
    + rewrite bool_decide_false by lia. rewrite list_lookup_middle; [done|]. by rewrite length_insert.
    + rewrite bool_decide_true by lia. rewrite lookup_app_l by (rewrite length_insert; lia).
      destruct (decide (i = (length vs - 1)%nat)) as [->|]; [by rewrite list_lookup_insert_eq by lia|].
      rewrite list_lookup_insert_ne by done. rewrite N by lia. by rewrite bool_decide_true by lia.
  - intros i Hi. rewrite length_app in Hi. cbn in Hi. destruct (decide (i = length vs)) as [->|Hne].
    + exists false. split; [by rewrite list_lookup_middle|done].
    + destruct (R i) as (b & Hb & Hp); [lia|]. exists b. by rewrite lookup_app_l by lia.
  - intros p Hp%Hh%H. rewrite length_app. cbn. lia.
  - rewrite length_app. cbn. split; [lia|done].
  - intros i u f Hi Hu Hf. apply lookup_app_Some in Hu as [Hu|[Hge Hu]]; [by eapply Hdisk, F|].
    apply list_lookup_singleton_Some in Hu as [_ <-]. by apply Hfiles.
  - intros i j w1 w2 f Hij Hi Hj Hf. apply lookup_app_Some in Hj as [Hj|[Hge Hj]].
    + eapply (O i j); [done| |done|done]. rewrite lookup_app_l in Hi; [done|]. apply lookup_lt_Some in Hj. lia.
    + apply list_lookup_singleton_Some in Hj as [_ <-]. apply eq_None_not_Some. intros Hs.
      apply (Hobs f w1); [by eapply list_elem_of_lookup_2|done|done].
  - intros i v1 w1 Hi Hi'. apply lookup_app_Some in Hi' as [Hi'|[Hge Hi']].
    + eapply D; [|done]. rewrite lookup_app_l in Hi; [done|]. apply lookup_lt_Some in Hi'. lia.
    + apply list_lookup_singleton_Some in Hi' as [He <-]. assert (i = (length vs - 1)%nat) as -> by lia.
      rewrite lookup_app_l in Hi by lia. assert (v1 = v) as -> by congruence. done.
Qed.

(** ** The jobs *)

Lemma chain_reclaim rc' rp' held' :
  (forall p, p ∈ held' -> p ∈ held \/ (freed cu <= p < length vs)%nat) ->
  length rc' = length rc ->
  (forall i, (i < length vs)%nat -> exists b, rc' !! i = Some (latch1 b) /\ forall p, unreclaimed rp' = Some p -> (p <= i)%nat -> b = false) ->
  chain_inv vs nv rc' disk held' cu rp'.
Proof using Hc.
  intros Hh Hl Hr. pose proof Hc as [(L1 & L2 & L3) N R H C F O D]. split; [lia|done|done| |done..].
  intros p [Hp|Hp]%Hh; [by apply H|done].
Qed.

Lemma chain_cleanup cu' held' :
  (forall p, p ∈ held' -> (freed cu' <= p < length vs)%nat) ->
  (freed cu' < length vs)%nat -> (forall i, cu' = CuCleanup i -> (0 < i)%nat) -> (cleaned cu <= cleaned cu')%nat ->
  chain_inv vs nv rc disk held' cu' rp.
Proof using Hc.
  intros Hh Hf Hi Hcl. pose proof Hc as [L N R H C F O D]. split; [done|done|done|done|done| |done|done].
  intros i v f Hle. apply F. lia.
Qed.

(** The files that the version at [i] obsoletes leave the disk. *)
Lemma chain_clean i v held' :
  cu = CuCleanup i -> vs !! i = Some v -> (forall p, p ∈ held' -> p ∈ held) ->
  Forall (λ f, v_files v !! f = None) (elements (v_obsoleted_files v)) /\
  chain_inv vs nv rc (base.filter (λ e, e.1 ∉ v_obsoleted_files v) disk) held' (CuWaitNext i) rp.
Proof using Hc.
  intros -> Hv Hh. pose proof Hc as [L N R H C F O D]. split.
  - apply Forall_forall. intros f Hf%elem_of_elements. by apply (O i i v v f).
  - split; [done|done|done| |split; [apply C|done]| |done|done]; cbn [freed cleaned] in *.
    + intros p Hp%Hh. by apply H.
    + intros j w f Hj Hw Hs. destruct (F j w f) as [u Hu]; [lia|done|done|]. exists u. apply map_lookup_filter_Some_2; [done|].
      cbn. intros Hin. rewrite (O i j v w f) in Hs by done. by destruct Hs.
Qed.
End chain.
