(* ===== verification/VersionBuffers.v ===== *)
(** * The write buffers of a running store

    The second half of the invariant of [VersionLife]: the write buffers are those from
    the first one of the version that was cleaned up after last; a buffer that is sealed
    has one task that installs its successor; and the permits, the buffers that are not
    flushed yet and the tasks between a permit and its buffer add up. *)

From stdpp Require Import base numbers list gmap.
From Stdlib Require Import ZArith Lia.
From S2P Require Import Prelude PageGroup WriteBuffer BufferSet Version Reclaim Latch Shutdown VersionLife VersionChain.

(** ** Buffers in a set *)

Lemma bsv_get_in set g : bsv_wf set -> bsv_start set <= g < bsv_end set ->
  exists b, bsv_get g set = Ok (Some b) /\ wb_group_id b = g /\ bsv_snapshot set !! Z.to_nat (g - bsv_start set) = Some b.
Proof.
  intros Hwf Hg. rewrite bsv_get_ok, decide_True by (done || lia). destruct Hwf as (H0 & He & Hl & Hid).
  destruct (lookup_lt_is_Some_2 (bsv_snapshot set) (Z.to_nat (g - bsv_start set))) as [b Hb]; [lia|].
  exists b. rewrite Hb. split_and!; [done| |done]. rewrite (Hid _ _ Hb). lia.
Qed.

Lemma bsv_current_lookup set : bsv_snapshot set !! length (bsv_sealed set) = Some (bsv_current set).
Proof. unfold bsv_snapshot. by rewrite list_lookup_middle. Qed.

Lemma bsv_current_id set : bsv_wf set -> wb_group_id (bsv_current set) = bsv_end set - 1 /\ bsv_start set < bsv_end set.
Proof.
  intros (H0 & He & Hl & Hid). rewrite (Hid _ _ (bsv_current_lookup set)). unfold bsv_snapshot in Hl. rewrite length_app in Hl. cbn in Hl. lia.
Qed.

(** Changing a buffer of the set. *)
Lemma bsv_update_ok set g b : bsv_wf set -> bsv_start set <= g < bsv_end set -> wb_group_id b = g ->
  let set' := bsv_update g b set in
  bsv_wf set' /\ bsv_start set' = bsv_start set /\ bsv_end set' = bsv_end set /\
  bsv_snapshot set' = <[Z.to_nat (g - bsv_start set) := b]> (bsv_snapshot set) /\
  bsv_current set' = (if decide (g = bsv_end set - 1) then b else bsv_current set).
Proof.
  intros Hwf Hg Hb set'. pose proof Hwf as (H0 & He & Hl & Hid).
  assert (Hl' : Z.of_nat (length (bsv_sealed set)) = bsv_end set - 1 - bsv_start set) by (unfold bsv_snapshot in Hl; rewrite length_app in Hl; cbn in Hl; lia).
  assert (Hs : bsv_snapshot set' = <[Z.to_nat (g - bsv_start set) := b]> (bsv_snapshot set) /\ bsv_start set' = bsv_start set /\
    bsv_end set' = bsv_end set /\ bsv_current set' = (if decide (g = bsv_end set - 1) then b else bsv_current set)).
  { subst set'. unfold bsv_update, bsv_snapshot. destruct (Nat.leb_spec (length (bsv_sealed set)) (Z.to_nat (g - bsv_start set))); cbn.
    - rewrite decide_True by lia. rewrite insert_app_r_alt by lia.
      by replace (Z.to_nat (g - bsv_start set) - length (bsv_sealed set))%nat with 0%nat by lia.
    - rewrite decide_False by lia. by rewrite insert_app_l by lia. }
  clearbody set'. destruct Hs as (Hs & Es & Ee & Ec).
  split_and!; [|done..]. split_and!; [by rewrite Es|by rewrite Ee|by rewrite Es, Ee, Hs, length_insert|].
  intros k x. rewrite Hs, Es. intros [(Ek & <- & ?)|[_ Hk]]%list_lookup_insert_Some; [lia|by apply Hid].
Qed.

Definition words_ok (set : BufferSetVersion) : Prop := Forall (λ b, 0 <= wb_state b) (bsv_snapshot set).

Lemma wb_seal_ok b : 0 <= wb_state b -> wb_is_sealed b = false ->
  exists r b', wb_seal b = Ok (r, b') /\ wb_group_id b' = wb_group_id b /\ 0 <= wb_state b' /\ wb_is_sealed b' = true /\
    has_writer (wb_buffer_state b') = has_writer (wb_buffer_state b).
Proof.
  intros Hb Hs. pose proof (state_load_ok _ Hb) as Hok. unfold wb_is_sealed, wb_buffer_state in Hs.
  assert (Hok' : state_ok (set_sealed (state_load (wb_state b)))) by done.
  unfold wb_seal. cbn [cas_loop]. unfold seal_attempt. rewrite Hs, state_apply_ok by done. cbn [mbind res_bind]. rewrite Z.eqb_refl. cbn [mbind res_bind].
  eexists _, _. split; [done|]. unfold wb_is_sealed, wb_buffer_state, with_state. cbn [wb_state wb_group_id].
  rewrite state_load_pack by done. split_and!; [done| |done|done].
  unfold pack. destruct Hok as [Hw Ha]. unfold fits in *. cbn [sealed num_writer allocated set_sealed]. lia.
Qed.

Lemma wb_seal_again b : wb_is_sealed b = true -> wb_seal b = Err Again.
Proof. intros Hs. unfold wb_seal. cbn [cas_loop]. unfold seal_attempt. unfold wb_is_sealed, wb_buffer_state in Hs. by rewrite Hs. Qed.

(** [seal_buffer] on a buffer of the set. *)
Lemma bsv_seal_ok set g : bsv_wf set -> words_ok set -> bsv_start set <= g < bsv_end set ->
  exists b, bsv_get g set = Ok (Some b) /\ wb_group_id b = g /\
    if wb_is_sealed b then bsv_seal_buffer g set = Ok (None, set)
    else exists r b', bsv_seal_buffer g set = Ok (Some r, bsv_update g b' set) /\ wb_group_id b' = g /\ 0 <= wb_state b' /\ wb_is_sealed b' = true /\
      has_writer (wb_buffer_state b') = has_writer (wb_buffer_state b).
Proof.
  intros Hwf Hw Hg. destruct (bsv_get_in set g Hwf Hg) as (b & Hb & Hid & Hl). exists b. split_and!; [done|done|].
  unfold bsv_seal_buffer. rewrite Hb. cbn [mbind res_bind expect]. destruct (wb_is_sealed b) eqn:Es.
  - by rewrite wb_seal_again.
  - unfold words_ok in Hw. rewrite Forall_lookup in Hw. destruct (wb_seal_ok b (Hw _ _ Hl) Es) as (r & b' & -> & Hid' & Hb' & Hs' & Hh).
    exists r, b'. split_and!; [done|congruence|done|done|done].
Qed.

Lemma words_update set g b : bsv_wf set -> bsv_start set <= g < bsv_end set -> wb_group_id b = g -> words_ok set -> 0 <= wb_state b -> words_ok (bsv_update g b set).
Proof.
  intros Hwf Hg Hid Hw Hb. unfold words_ok. destruct (bsv_update_ok set g b Hwf Hg Hid) as (_ & _ & _ & -> & _).
  by apply Forall_insert.
Qed.

(** ** The invariant *)

Definition down (pc : FlushPc) : bool := match pc with FlDown _ | FlDownFlushed _ _ | FlDone => true | _ => false end.
(** Between the release of a permit and the version. *)
Definition releasing (pc : FlushPc) : Z := match pc with FlNoWaiter _ _ | FlSuccessor _ _ => 1 | _ => 0 end.

Definition switching (clients : gmap Z Client) (id g : Z) (pc : SwitchPc) : Prop :=
  exists i r next, clients !! id = Some (Switching i g r pc next).
Definition first_at (vs : list Version) (i : nat) : option Z := v_first_buffer_id <$> vs !! i.
Definition current_first (vs : list Version) : Z := default 0 (v_first_buffer_id <$> last vs).

Definition client_ok (vs : list Version) (set : BufferSetVersion) (flushed : gmap Z Latch) (c : Client) : Prop :=
  match c with
  | FlushPermits i g _ | FlushSwitch i g _ => exists a, first_at vs i = Some a /\ a <= g < bsv_end set
  | Switching i g _ _ _ => g = bsv_end set - 1 /\ wb_is_sealed (bsv_current set) = true
  | FlushWait _ g => is_Some (flushed !! g)
  | Pinned _ | ReclaimCheck _ | ReclaimWait _ => True
  end.
Definition flush_ok (vs : list Version) (set : BufferSetVersion) (pc : FlushPc) : Prop :=
  let first := current_first vs in
  match pc with
  | FlWait i g | FlRelease i g | FlNoWaiter i g | FlSuccessor i g => g = first /\ first_at vs i = Some first
  | FlFlushed i g => first = g + 1
  | FlDown ids => ids = id_range first (bsv_end set)
  | FlDownFlushed g ids => first = g + 1 /\ ids = id_range first (bsv_end set)
  | FlStart | FlDone => True
  end.
(** The buffer that was flushed last, when its latch is not open yet. *)
Definition unannounced (pc : FlushPc) (g : Z) : Prop := match pc with FlFlushed _ g' | FlDownFlushed g' _ => g = g' | _ => False end.
Definition set_ok (set : BufferSetVersion) (pc : FlushPc) : Prop :=
  bsv_wf set \/ down pc = true /\ bsv_start set = bsv_end set /\ 0 <= bsv_start set <= u32_max /\ bsv_sealed set = [].

(** [c] is the position of the version that was cleaned up after last. *)
Record buf_inv (max : Z) (vs : list Version) (c : nat) (set : BufferSetVersion) (permits : Z) (flushed : gmap Z Latch)
    (clients : gmap Z Client) (pc : FlushPc) (closed : bool) : Prop := {
  bi_start : first_at vs c = Some (bsv_start set);
  bi_set : set_ok set pc;
  bi_last : current_first vs <= bsv_end set /\ (down pc = false -> current_first vs < bsv_end set);
  bi_words : words_ok set;
  bi_old : Forall (λ b, wb_is_sealed b = true) (bsv_sealed set);
  bi_flush : flush_ok vs set pc;
  bi_latch : forall g, g < bsv_end set -> current_first vs <= g \/ unannounced pc g -> flushed !! g = Some (latch1 false);
  bi_open : forall g l, flushed !! g = Some l -> exists b, l = latch1 b /\ g < bsv_end set /\ (b = true -> g < current_first vs);
  bi_clients : forall id cl, clients !! id = Some cl -> client_ok vs set flushed cl;
  bi_sealed : down pc = false -> wb_is_sealed (bsv_current set) = true -> exists id swpc, switching clients id (bsv_end set - 1) swpc;
  bi_unique : forall id id' g g' p p', switching clients id g p -> switching clients id' g' p' -> id = id';
  bi_closed : closed = true -> clients = ∅ /\ forall b, b ∈ bsv_snapshot set -> has_writer (wb_buffer_state b) = false;
  bi_down : down pc = true -> closed = true;
  bi_permits : 0 <= permits /\ (down pc = false -> exists sw, (sw = true <-> exists id g, switching clients id g SwInstall) /\
    available permits + (bsv_end set - 1 - current_first vs) + Z.b2z sw - releasing pc = max - 1);
  bi_known : forall g, bsv_start set <= g < bsv_end set -> is_Some (flushed !! g);
}.

(** ** More on sets of buffers *)

Lemma bsv_sealed_length set : bsv_wf set -> Z.of_nat (length (bsv_sealed set)) = bsv_end set - 1 - bsv_start set.
Proof. intros (_ & _ & Hl & _). unfold bsv_snapshot in Hl. rewrite length_app in Hl. cbn in Hl. lia. Qed.

Lemma bsv_update_sealed set g b : bsv_wf set -> bsv_start set <= g < bsv_end set ->
  bsv_sealed (bsv_update g b set) = if decide (g = bsv_end set - 1) then bsv_sealed set else <[Z.to_nat (g - bsv_start set) := b]> (bsv_sealed set).
Proof.
  intros Hwf Hg. pose proof (bsv_sealed_length set Hwf). unfold bsv_update. destruct (Nat.leb_spec (length (bsv_sealed set)) (Z.to_nat (g - bsv_start set))); cbn.
  - by rewrite decide_True by lia.
  - by rewrite decide_False by lia.
Qed.

(** A buffer that is not sealed is the current one. *)
Lemma unsealed_current set g b : bsv_wf set -> Forall (λ b, wb_is_sealed b = true) (bsv_sealed set) ->
  bsv_snapshot set !! Z.to_nat (g - bsv_start set) = Some b -> bsv_start set <= g < bsv_end set -> wb_is_sealed b = false ->
  g = bsv_end set - 1 /\ b = bsv_current set.
Proof.
  intros Hwf Ho Hb Hg Hs. pose proof (bsv_sealed_length set Hwf). unfold bsv_snapshot in Hb. apply lookup_app_Some in Hb as [Hb|[Hge Hb]].
  - rewrite Forall_lookup in Ho. rewrite (Ho _ _ Hb) in Hs. done.
  - apply list_lookup_singleton_Some in Hb as [? <-]. split; [lia|done].
Qed.

Lemma wb_new_eq g size mem : wb_with_capacity g size mem =
  if negb (bool_decide (size <= 8)%nat) && is_power_of_two size then Ok (mkWriteBuffer g mem size 0) else Panic.
Proof. unfold wb_with_capacity. destruct (negb _); [|done]. by destruct (is_power_of_two _). Qed.
Lemma wb_new_ok g size mem b : wb_with_capacity g size mem = Ok b -> wb_group_id b = g /\ wb_state b = 0 /\ wb_is_sealed b = false /\ has_writer (wb_buffer_state b) = false.
Proof. rewrite wb_new_eq. destruct (_ && _); [|done]. intros [= <-]. split_and!; reflexivity. Qed.
Lemma wb_new_again g g' size mem mem' b : wb_with_capacity g size mem = Ok b -> exists b', wb_with_capacity g' size mem' = Ok b'.
Proof. rewrite !wb_new_eq. destruct (_ && _); [|done]. intros _. by eexists. Qed.

Lemma id_range_cons a b : a < b -> id_range a b = a :: id_range (a + 1) b.
Proof.
  intros Hlt. unfold id_range. replace (Z.to_nat (b - a)) with (S (Z.to_nat (b - (a + 1)))) by lia. cbn [seq fmap list_fmap].
  f_equal; [lia|]. rewrite <- fmap_S_seq, <- list_fmap_compose. apply list_fmap_ext. intros k x _. cbn. lia.
Qed.
Lemma id_range_inv a b g ids : id_range a b = g :: ids -> g = a /\ a < b /\ ids = id_range (a + 1) b.
Proof.
  intros E. destruct (decide (a < b)) as [Hlt|Hge].
  - rewrite id_range_cons in E by done. injection E as <- <-. done.
  - unfold id_range in E. by replace (Z.to_nat (b - a)) with 0%nat in E by lia.
Qed.

Lemma current_first_snoc vs w : current_first (vs ++ [w]) = v_first_buffer_id w.
Proof. unfold current_first. by rewrite last_snoc. Qed.
Lemma first_at_app vs w i a : first_at vs i = Some a -> first_at (vs ++ [w]) i = Some a.
Proof. unfold first_at. intros (v & Hv & ->)%fmap_Some. by rewrite (lookup_app_l_Some _ _ _ _ Hv). Qed.

(** ** Clients *)

Section buffers.
Context {max : Z} {vs : list Version} {c : nat} {set : BufferSetVersion} {permits : Z} {flushed : gmap Z Latch}.
Context {clients : gmap Z Client} {pc : FlushPc} {closed : bool}.
Context (Hb : buf_inv max vs c set permits flushed clients pc closed).

(** The clients change, but for those that switch. *)
Lemma buf_clients clients' :
  (forall id cl, clients' !! id = Some cl -> client_ok vs set flushed cl) ->
  (forall id g p, switching clients' id g p <-> switching clients id g p) -> (closed = true -> clients' = ∅) ->
  buf_inv max vs c set permits flushed clients' pc closed.
Proof using Hb.
  intros Hc Hs He. destruct Hb as [S1 S2 S3 S4 S5 S6 S7 S8 S9 S10 S11 S12 S13 S14 S15]. split; try done.
  - intros Hd Hsl. destruct (S10 Hd Hsl) as (id & p & Hsw). exists id, p. by apply Hs.
  - intros id id' g g' p p'. rewrite !Hs. apply S11.
  - intros Hcl. split; [auto|]. by apply S12.
  - destruct S14 as [? Hp]. split; [done|]. intros Hd. destruct (Hp Hd) as (sw & Hsw & He'). exists sw. split; [|done].
    rewrite Hsw. by setoid_rewrite Hs.
Qed.

Definition is_switching (cl : Client) : bool := match cl with Switching _ _ _ _ _ => true | _ => false end.
Lemma switching_insert cl id0 id g p : is_switching cl = false -> (forall cl', clients !! id0 = Some cl' -> is_switching cl' = false) ->
  switching (<[id0 := cl]> clients) id g p <-> switching clients id g p.
Proof using.
  intros Hcl Hold. unfold switching. destruct (decide (id = id0)) as [->|Hne].
  - rewrite lookup_insert_eq. split; [intros (? & ? & ? & [= ->]); done|]. intros (i & r & next & Hid). by specialize (Hold _ Hid).
  - by rewrite lookup_insert_ne.
Qed.
Lemma switching_delete id0 id g p : (forall cl', clients !! id0 = Some cl' -> is_switching cl' = false) ->
  switching (delete id0 clients) id g p <-> switching clients id g p.
Proof using.
  intros Hold. unfold switching. destruct (decide (id = id0)) as [->|Hne].
  - rewrite lookup_delete_eq. split; [by intros (? & ? & ? & ?)|]. intros (i & r & next & Hid). by specialize (Hold _ Hid).
  - by rewrite lookup_delete_ne.
Qed.

Lemma buf_set_client id cl :
  client_ok vs set flushed cl -> is_switching cl = false -> (forall cl', clients !! id = Some cl' -> is_switching cl' = false) -> closed = false ->
  buf_inv max vs c set permits flushed (<[id := cl]> clients) pc closed.
Proof using Hb.
  intros Hok Hs Hold Hcl. apply buf_clients.
  - intros i x [[_ <-]|[_ Hx]]%lookup_insert_Some; [done|by eapply (bi_clients _ _ _ _ _ _ _ _ _ Hb)].
  - intros i g p. by apply switching_insert.
  - congruence.
Qed.
Lemma buf_end_client id :
  (forall cl', clients !! id = Some cl' -> is_switching cl' = false) -> buf_inv max vs c set permits flushed (delete id clients) pc closed.
Proof using Hb.
  intros Hold. apply buf_clients.
  - intros i x [_ Hx]%lookup_delete_Some. by eapply (bi_clients _ _ _ _ _ _ _ _ _ Hb).
  - intros i g p. by apply switching_delete.
  - intros Hc. destruct (bi_closed _ _ _ _ _ _ _ _ _ Hb Hc) as [-> _]. apply delete_empty.
Qed.

(** There are clients only before the shutdown. *)
Lemma buf_client_open id cl : clients !! id = Some cl -> closed = false /\ down pc = false /\ bsv_wf set.
Proof using Hb.
  intros Hid. assert (Hc : closed = false).
  { destruct closed eqn:E; [|done]. destruct (bi_closed _ _ _ _ _ _ _ _ _ Hb eq_refl) as [He _]. rewrite He in Hid. by apply lookup_empty_Some in Hid. }
  assert (Hd : down pc = false) by (destruct (down pc) eqn:E; [apply (bi_down _ _ _ _ _ _ _ _ _ Hb) in E; congruence|done]).
  split_and!; [done|done|]. destruct (bi_set _ _ _ _ _ _ _ _ _ Hb) as [?|[? _]]; [done|congruence].
Qed.

(** A client other than the one that switches cannot switch, and nothing else refers to
    the current buffer. *)
Lemma buf_switching id i g r p next : clients !! id = Some (Switching i g r p next) ->
  g = bsv_end set - 1 /\ wb_is_sealed (bsv_current set) = true /\ forall id' g' p', switching clients id' g' p' -> id' = id.
Proof using Hb.
  intros Hid. destruct (bi_clients _ _ _ _ _ _ _ _ _ Hb _ _ Hid) as [? ?]. split_and!; [done|done|].
  intros id' g' p' Hs. eapply (bi_unique _ _ _ _ _ _ _ _ _ Hb); [exact Hs|]. by exists i, r, next.
Qed.

(** The task that switches gets on: with a new word of the permits and a new counter. *)
Lemma buf_switch_step id i g r p p' next permits' :
  clients !! id = Some (Switching i g r p next) -> 0 <= permits' ->
  available permits' + Z.b2z (bool_decide (p' = SwInstall)) = available permits + Z.b2z (bool_decide (p = SwInstall)) ->
  buf_inv max vs c set permits' flushed (<[id := Switching i g r p' next]> clients) pc closed.
Proof using Hb.
  intros Hid Hp0 Hav. destruct (buf_switching _ _ _ _ _ _ Hid) as (Hg & Hsl & Hu). destruct (buf_client_open _ _ Hid) as (Hcl & Hd & Hwf).
  assert (Hsw : forall id' g' q, switching (<[id := Switching i g r p' next]> clients) id' g' q <-> id' = id /\ g' = g /\ q = p').
  { intros id' g' q. unfold switching. destruct (decide (id' = id)) as [->|Hne].
    - rewrite lookup_insert_eq. naive_solver.
    - rewrite lookup_insert_ne by done. split; [|naive_solver]. intros Hs. by apply Hu in Hs. }
  destruct Hb as [S1 S2 S3 S4 S5 S6 S7 S8 S9 S10 S11 S12 S13 S14 S15]. split; try done.
  - intros id' cl [[_ <-]|[_ Hx]]%lookup_insert_Some; [by split|by eapply S9].
  - intros _ _. exists id, p'. apply Hsw. by subst.
  - intros i1 i2 g1 g2 p1 p2 H1%Hsw H2%Hsw. destruct H1, H2. congruence.
  - congruence.
  - destruct S14 as [_ Hp]. split; [done|]. intros _. destruct (Hp Hd) as (sw & Hsw' & He). exists (bool_decide (p' = SwInstall)). split.
    + rewrite bool_decide_eq_true. setoid_rewrite Hsw. naive_solver.
    + assert (sw = bool_decide (p = SwInstall)) as ->; [|lia]. apply eq_true_iff_eq. rewrite Hsw', bool_decide_eq_true. split.
      * intros (id' & g' & Hs). pose proof (Hu _ _ _ Hs) as ->. destruct Hs as (? & ? & ? & Hs). congruence.
      * intros ->. exists id, g. by exists i, r, next.
Qed.

Lemma buf_acquire id i g r p next kind :
  clients !! id = Some (Switching i g r p next) -> p <> SwInstall ->
  let '(word, ok) := permits_acquire_fast kind permits in
  buf_inv max vs c set word flushed (<[id := Switching i g r (if ok then SwInstall else SwAcquire) next]> clients) pc closed.
Proof using Hb.
  intros Hid Hp. destruct (permits_acquire_fast kind permits) as [word ok] eqn:E. pose proof (proj1 (bi_permits _ _ _ _ _ _ _ _ _ Hb)) as Hp0.
  destruct (permit_step_available permits _ word Hp0 (permit_acquire _ _ _ _ E)) as [Hw Hav].
  eapply buf_switch_step; [exact Hid|done|]. rewrite (bool_decide_false (p = SwInstall)) by done. cbn [outstanding foldr] in Hav.
  destruct ok; [rewrite bool_decide_true by done|rewrite bool_decide_false by done]; cbn [Z.b2z] in *; lia.
Qed.

(** ** Sealing and installing buffers *)

Lemma buf_seal id i g r next b b' :
  down pc = false -> closed = false -> bsv_start set <= g < bsv_end set -> bsv_get g set = Ok (Some b) -> wb_is_sealed b = false ->
  wb_group_id b' = g -> 0 <= wb_state b' -> wb_is_sealed b' = true ->
  (forall cl, clients !! id = Some cl -> is_switching cl = false) ->
  buf_inv max vs c (bsv_update g b' set) permits flushed (<[id := Switching i g r SwTry next]> clients) pc closed.
Proof using Hb.
  intros Hd Hcl Hg Hget Hsl Hid Hw Hs' Hold. assert (Hwf : bsv_wf set) by (destruct (bi_set _ _ _ _ _ _ _ _ _ Hb) as [?|[? _]]; [done|congruence]).
  destruct (bsv_get_in set g Hwf Hg) as (b0 & Hb0 & _ & Hl). assert (b0 = b) as -> by congruence.
  destruct Hb as [S1 S2 S3 S4 S5 S6 S7 S8 S9 S10 S11 S12 S13 S14 S15]. destruct (unsealed_current set g b Hwf S5 Hl Hg Hsl) as [He ->].
  destruct (bsv_update_ok set g b' Hwf Hg Hid) as (U1 & U2 & U3 & U4 & U5). rewrite decide_True in U5 by done.
  assert (Hno : forall id' g' p', ~ switching clients id' g' p').
  { intros id' g' p' (i' & r' & next' & Hx). apply S9 in Hx as [_ ?]. congruence. }
  assert (Hsw : forall id' g' p', switching (<[id := Switching i g r SwTry next]> clients) id' g' p' <-> id' = id /\ g' = g /\ p' = SwTry).
  { intros id' g' p'. unfold switching. destruct (decide (id' = id)) as [->|Hne]; [rewrite lookup_insert_eq; naive_solver|].
    rewrite lookup_insert_ne by done. split; [|naive_solver]. intros Hx. by apply Hno in Hx. }
  split; rewrite ?U2, ?U3, ?U5; try done.
  - by left.
  - by apply words_update.
  - rewrite bsv_update_sealed, decide_True by done. done.
  - destruct pc; cbn in S6 |- *; rewrite ?U3; done.
  - intros id' cl [[_ <-]|[Hne Hx]]%lookup_insert_Some; [cbn; rewrite U3, U5; done|]. apply S9 in Hx. destruct cl; cbn in *; rewrite ?U3, ?U5; naive_solver.
  - intros _ _. exists id, SwTry. apply Hsw. by subst.
  - intros i1 i2 g1 g2 p1 p2 H1%Hsw H2%Hsw. destruct H1, H2. congruence.
  - congruence.
  - destruct S14 as [? Hp]. split; [done|]. intros _. destruct (Hp Hd) as (sw & Hsw' & E). exists false. split.
    + split; [done|]. intros (id' & g' & Hx). apply Hsw in Hx as (_ & _ & ?). done.
    + assert (sw = false) as ->; [|done]. destruct sw; [|done]. destruct (proj1 Hsw' eq_refl) as (id' & g' & Hx). by apply Hno in Hx.
Qed.

(** The client leaves [switch_buffer] with the new buffer [buf]. *)
Lemma buf_install id i g r next ocl buf :
  clients !! id = Some (Switching i g r SwInstall next) -> bsv_end set < u32_max -> wb_group_id buf = g + 1 -> wb_state buf = 0 -> wb_is_sealed buf = false ->
  match ocl with Some cl => is_switching cl = false /\ client_ok vs set flushed cl | None => True end ->
  exists set', bsv_install buf set = Ok set' /\
    buf_inv max vs c set' permits (<[g + 1 := latch1 false]> flushed) (partial_alter (λ _, ocl) id clients) pc closed.
Proof using Hb.
  intros Hid Hm Hg Hst Hus Hocl. destruct (buf_switching _ _ _ _ _ _ Hid) as (He & Hsl & Hu). destruct (buf_client_open _ _ Hid) as (Hcl & Hd & Hwf).
  destruct Hb as [S1 S2 S3 S4 S5 S6 S7 S8 S9 S10 S11 S12 S13 S14 S15].
  destruct (bsv_install_ok set buf Hwf) as (set' & Ei & Hwf' & Es & Esn & Ec); [lia|done|]. exists set'. split; [done|].
  assert (Ee : bsv_end set' = bsv_end set + 1).
  { destruct Hwf as (_ & _ & Hl & _), Hwf' as (_ & _ & Hl' & _). rewrite Hl', Es, Esn, length_app, Hl. cbn. lia. }
  assert (Esl : bsv_sealed set' = bsv_snapshot set) by (unfold bsv_snapshot in Esn; rewrite Ec in Esn; by apply app_inv_tail in Esn).
  assert (Hno : forall id' g' p', ~ switching (partial_alter (λ _, ocl) id clients) id' g' p').
  { intros id' g' p' Hx. destruct (decide (id' = id)) as [->|Hne].
    - destruct Hx as (i' & r' & n' & Hx). rewrite lookup_partial_alter_eq in Hx. subst ocl. by destruct Hocl.
    - apply Hne. apply (Hu id' g' p'). destruct Hx as (i' & r' & n' & Hx). rewrite lookup_partial_alter_ne in Hx by done. by exists i', r', n'. }
  assert (Hg1 : g + 1 = bsv_end set) by lia.
  split; rewrite ?Es, ?Ee, ?Ec; try done.
  - by left.
  - split; [lia|]. intros _. specialize (proj2 S3 Hd). lia.
  - unfold words_ok. rewrite Esn. apply Forall_app. split; [done|]. apply Forall_singleton. lia.
  - rewrite Esl. apply Forall_app. split; [done|]. by apply Forall_singleton.
  - destruct pc; cbn in S6 |- *; done.
  - intros x Hx Hor. destruct (decide (x = g + 1)) as [->|Hne]; [by rewrite lookup_insert_eq|]. rewrite lookup_insert_ne by done. apply S7; [lia|done].
  - intros x l [[<- <-]|[Hne Hx]]%lookup_insert_Some; [exists false; split_and!; [done|lia|done]|].
    destruct (S8 _ _ Hx) as (b & -> & ? & ?). exists b. split_and!; [done|lia|done].
  - intros id' cl Hx. destruct (decide (id' = id)) as [->|Hne].
    + rewrite lookup_partial_alter_eq in Hx. subst ocl. destruct Hocl as [Hs Hok]. destruct cl as [?|i0 g0 w0|i0 g0 w0|?|i0 g0|?|?]; cbn in *; [done| | |done| |done|done].
      1-2: (destruct Hok as (a & ? & ?); exists a; split; [done|lia]).
      apply lookup_insert_is_Some'. by right.
    + rewrite lookup_partial_alter_ne in Hx by done. pose proof (S9 _ _ Hx) as Hok.
      destruct cl as [?|i0 g0 w0|i0 g0 w0|i0 g0 r0 p0 n0|i0 g0|?|?]; cbn in *; [done| | | | |done|done].
      1-2: (destruct Hok as (a & ? & ?); exists a; split; [done|lia]).
      * destruct Hne. apply (Hu id' g0 p0). by exists i0, r0, n0.
      * apply lookup_insert_is_Some'. by right.
  - congruence.
  - intros i1 i2 g1 g2 p1 p2 H1. by apply Hno in H1.
  - congruence.
  - destruct S14 as [? Hp]. split; [done|]. intros _. destruct (Hp Hd) as (sw & Hsw' & E). exists false. split.
    + split; [done|]. intros (id' & g' & Hx). by apply Hno in Hx.
    + assert (sw = true) as ->; [apply Hsw'; exists id, g; by exists i, r, next|]. cbn [Z.b2z] in *. lia.
  - intros x Hx. destruct (decide (x = g + 1)) as [->|Hne]; [by rewrite lookup_insert_eq|]. rewrite lookup_insert_ne by done. apply S15. lia.
Qed.

(** ** Versions and the flush job *)

(** What the clients know of versions does not change with a new one. *)
Lemma client_ok_app w cl : client_ok vs set flushed cl -> client_ok (vs ++ [w]) set flushed cl.
Proof using. destruct cl; cbn; try done; intros (a & ? & ?); exists a; split; [by apply first_at_app|done|by apply first_at_app|done]. Qed.

(** The version of a compaction. *)
Lemma buf_compact w : v_first_buffer_id w = current_first vs ->
  buf_inv max (vs ++ [w]) c set permits flushed clients pc closed.
Proof using Hb.
  intros Hw. assert (Hcf : current_first (vs ++ [w]) = current_first vs) by (by rewrite current_first_snoc).
  destruct Hb as [S1 S2 S3 S4 S5 S6 S7 S8 S9 S10 S11 S12 S13 S14 S15]. split; rewrite ?Hcf; try done.
  - by apply first_at_app.
  - destruct pc; cbn in S6 |- *; rewrite ?Hcf; try done; destruct S6; (split; [done|by apply first_at_app]).
  - intros id cl Hx. by apply client_ok_app, (S9 id).
Qed.

(** The version of the buffer that the flush job has written. *)
Lemma buf_flush_install w i g : pc = FlSuccessor i g -> g < wb_group_id (bsv_current set) -> v_first_buffer_id w = current_first vs + 1 ->
  buf_inv max (vs ++ [w]) c set permits flushed clients (FlFlushed i g) closed.
Proof using Hb.
  intros -> Hg Hw. assert (Hcf : current_first (vs ++ [w]) = current_first vs + 1) by (by rewrite current_first_snoc).
  assert (Hwf : bsv_wf set) by (destruct (bi_set _ _ _ _ _ _ _ _ _ Hb) as [?|[? _]]; done).
  destruct (bsv_current_id set Hwf) as [Hid _]. rewrite Hid in Hg.
  destruct Hb as [S1 S2 S3 S4 S5 S6 S7 S8 S9 S10 S11 S12 S13 S14 S15]. destruct S6 as [Eg Hf]. split; rewrite ?Hcf; try done.
  - by apply first_at_app.
  - lia.
  - cbn. rewrite Hcf. lia.
  - intros x Hx [Hx'|Hx']; [apply S7; [done|left; lia]|]. cbn in Hx'. subst x. apply S7; [done|left; lia].
  - intros x l Hx. destruct (S8 _ _ Hx) as (b & -> & ? & Hbx). exists b. split_and!; [done|done|]. intros Hb'. specialize (Hbx Hb'). lia.
  - intros id cl Hx. by apply client_ok_app, (S9 id).
  - destruct S14 as [? Hp]. split; [done|]. intros _. destruct (Hp eq_refl) as (sw & ? & ?). exists sw. split; [done|]. cbn in *. lia.
Qed.

Lemma buf_down_install w g ids : pc = FlDown (g :: ids) -> v_first_buffer_id w = current_first vs + 1 ->
  buf_inv max (vs ++ [w]) c set permits flushed clients (FlDownFlushed g ids) closed.
Proof using Hb.
  intros -> Hw. assert (Hcf : current_first (vs ++ [w]) = current_first vs + 1) by (by rewrite current_first_snoc).
  destruct Hb as [S1 S2 S3 S4 S5 S6 S7 S8 S9 S10 S11 S12 S13 S14 S15]. cbn in S6. symmetry in S6. destruct (id_range_inv _ _ _ _ S6) as (-> & Hlt & ->).
  split; rewrite ?Hcf; try done.
  - by apply first_at_app.
  - split; [lia|done].
  - cbn. by rewrite Hcf.
  - intros x Hx [Hx'|Hx']; [apply S7; [done|left; lia]|]. cbn in Hx'. subst x. apply S7; [done|left; lia].
  - intros x l Hx. destruct (S8 _ _ Hx) as (b & -> & ? & Hbx). exists b. split_and!; [done|done|]. intros Hb'. specialize (Hbx Hb'). lia.
  - intros id cl Hx. by apply client_ok_app, (S9 id).
  - split; [by destruct S14|done].
Qed.

(** The flush job moves on. *)
Lemma buf_pc pc' : down pc' = down pc -> releasing pc' = releasing pc -> flush_ok vs set pc' -> (forall g, ~ unannounced pc g /\ ~ unannounced pc' g) ->
  buf_inv max vs c set permits flushed clients pc' closed.
Proof using Hb.
  intros Hd Hr Hf Hu. destruct Hb as [S1 S2 S3 S4 S5 S6 S7 S8 S9 S10 S11 S12 S13 S14 S15]. split; unfold set_ok; rewrite ?Hd, ?Hr; try done.
  intros g Hg [Hg'|Hg']; [apply S7; auto|]. by destruct (Hu g).
Qed.
Lemma buf_release i g : pc = FlRelease i g -> buf_inv max vs c set (permits_release permits).1 flushed clients (FlNoWaiter i g) closed.
Proof using Hb.
  intros ->. destruct (permits_release permits) as [w n] eqn:E. pose proof (proj1 (bi_permits _ _ _ _ _ _ _ _ _ Hb)) as Hp0.
  destruct (permit_step_available permits _ w Hp0 (permit_release _ _ _ E)) as [Hw Hav]. cbn [fst].
  destruct Hb as [S1 S2 S3 S4 S5 S6 S7 S8 S9 S10 S11 S12 S13 S14 S15]. split; try done.
  split; [done|]. intros _. destruct (proj2 S14 eq_refl) as (sw & ? & ?). exists sw. split; [done|].
  cbn [releasing] in *. change (outstanding [EvReleasePermit n]) with (-1) in Hav. lia.
Qed.

(** The flushed buffer is told to be. *)
Lemma buf_flushed g pc' : (exists i, pc = FlFlushed i g /\ pc' = FlStart) \/ (exists ids, pc = FlDownFlushed g ids /\ pc' = FlDown ids) ->
  flushed !! g = Some (latch1 false) /\ buf_inv max vs c set permits (<[g := latch1 true]> flushed) clients pc' closed.
Proof using Hb.
  intros Hpc. assert (Hu : unannounced pc g /\ current_first vs = g + 1 /\ down pc' = down pc /\ releasing pc' = releasing pc /\ flush_ok vs set pc' /\ forall x, ~ unannounced pc' x).
  { pose proof (bi_flush _ _ _ _ _ _ _ _ _ Hb) as Hf. destruct Hpc as [(i & -> & ->)|(ids & -> & ->)]; cbn in *; naive_solver. }
  destruct Hu as (Hu & Hcf & Hd & Hr & Hf & Hu'). destruct Hb as [S1 S2 S3 S4 S5 S6 S7 S8 S9 S10 S11 S12 S13 S14 S15].
  split; [apply S7; [lia|by right]|]. split; unfold set_ok; rewrite ?Hd, ?Hr; try done.
  - intros x Hx [Hx'|Hx']; [|by destruct (Hu' x)]. rewrite lookup_insert_ne by lia. apply S7; [done|by left].
  - intros x l [[<- <-]|[Hne Hx]]%lookup_insert_Some; [exists true; split_and!; [done|lia|lia]|by apply S8].
  - intros id cl Hx. specialize (S9 _ _ Hx). destruct cl; cbn in *; try done. apply lookup_insert_is_Some'. by right.
  - intros x Hx. apply lookup_insert_is_Some'. right. by apply S15.
Qed.

(** The shutdown: the buffers that are left are flushed, or not. *)
Lemma buf_down i g pc' : pc = FlWait i g -> closed = true -> pc' = FlDown (id_range (current_first vs) (bsv_end set)) \/ pc' = FlDone ->
  buf_inv max vs c set permits flushed clients pc' closed.
Proof using Hb.
  intros -> Hcl Hpc. assert (Hd : down pc' = true /\ (forall x, ~ unannounced pc' x) /\ flush_ok vs set pc') by (destruct Hpc as [-> | ->]; split_and!; cbn; try done; intros ?; naive_solver).
  destruct Hd as (Hd & Hu & Hf). destruct Hb as [S1 S2 S3 S4 S5 S6 S7 S8 S9 S10 S11 S12 S13 S14 S15]. split; rewrite ?Hd; try done.
  - destruct S2 as [?|[? _]]; [by left|done].
  - split; [lia|done].
  - intros x Hx [Hx'|Hx']; [apply S7; [done|by left]|by destruct (Hu x)].
  - split; [by destruct S14|done].
Qed.
Lemma buf_done : down pc = true -> (forall g, ~ unannounced pc g) -> buf_inv max vs c set permits flushed clients FlDone closed.
Proof using Hb. intros Hd Hu. apply buf_pc; [done|destruct pc; cbn in *; done|done|]. intros g; split; [done|intros []]. Qed.

(** A write to a buffer, and the seal of the flush job during the shutdown. *)
Lemma buf_update g b b' : bsv_wf set -> bsv_start set <= g < bsv_end set -> bsv_get g set = Ok (Some b) -> wb_group_id b' = g -> 0 <= wb_state b' ->
  (wb_is_sealed b = true -> wb_is_sealed b' = true) -> (down pc = false -> wb_is_sealed b' = wb_is_sealed b) ->
  (closed = true -> has_writer (wb_buffer_state b') = has_writer (wb_buffer_state b)) ->
  buf_inv max vs c (bsv_update g b' set) permits flushed clients pc closed.
Proof using Hb.
  intros Hwf Hg Hget Hid Hw Hs Hs' Hwr. destruct (bsv_get_in set g Hwf Hg) as (b0 & Hb0 & _ & Hl). assert (b0 = b) as -> by congruence.
  destruct (bsv_update_ok set g b' Hwf Hg Hid) as (U1 & U2 & U3 & U4 & U5).
  assert (Hcur : g = bsv_end set - 1 -> b = bsv_current set).
  { intros ->. pose proof (bsv_sealed_length set Hwf). replace (Z.to_nat (bsv_end set - 1 - bsv_start set)) with (length (bsv_sealed set)) in Hl by lia.
    rewrite bsv_current_lookup in Hl. congruence. }
  destruct Hb as [S1 S2 S3 S4 S5 S6 S7 S8 S9 S10 S11 S12 S13 S14 S15]. split; rewrite ?U2, ?U3; try done.
  - by left.
  - by apply words_update.
  - rewrite bsv_update_sealed by done. case_decide as Hd; [done|]. apply Forall_insert; [done|]. apply Hs.
    unfold bsv_snapshot in Hl. apply lookup_app_Some in Hl as [Hl|[Hge Hl]]; [by rewrite Forall_lookup in S5; eapply S5|].
    pose proof (bsv_sealed_length set Hwf). apply list_lookup_singleton_Some in Hl as [? _]. lia.
  - destruct pc; cbn in S6 |- *; rewrite ?U3; done.
  - intros id cl Hx. specialize (S9 _ _ Hx). destruct cl; cbn in *; rewrite ?U3; try done. destruct S9 as [? Hsl]. split; [done|].
    rewrite U5. case_decide as Hd; [|done]. apply Hs. by rewrite Hcur.
  - intros Hd. rewrite U5. case_decide as He; [|by apply S10]. rewrite (Hs' Hd), (Hcur He). by apply S10.
  - intros Hcl. destruct (S12 Hcl) as [? Hn]. split; [done|]. intros x. rewrite U4, list_elem_of_lookup.
    intros (k & [(_ & <- & ?)|[_ Hk]]%list_lookup_insert_Some); [rewrite Hwr by done; apply Hn; by eapply list_elem_of_lookup_2|].
    apply Hn. by eapply list_elem_of_lookup_2.
Qed.

(** ** The cleanup job *)

Lemma bsv_release_last : bsv_wf set -> bsv_sealed set = [] ->
  bsv_release_until (bsv_start set + 1) set = Ok (mkBufferSetVersion (bsv_start set + 1) (bsv_end set) [] (bsv_current set)).
Proof using.
  intros (H0 & He & Hl & _) Hs. unfold bsv_snapshot in Hl. rewrite Hs in Hl. cbn in Hl.
  unfold bsv_release_until, bsv_min_buffer_id. rewrite wrap_small by (unfold fits, u32_max in *; lia). by rewrite Z.eqb_refl, Hs.
Qed.

(** The release of the buffer before the version [w]. *)
Lemma buf_cleanup w : vs !! S c = Some w -> v_first_buffer_id w = bsv_start set + first_step w -> v_first_buffer_id w <= current_first vs ->
  exists set', release_previous_buffers w set = Ok set' /\ buf_inv max vs (S c) set' permits flushed clients pc closed.
Proof using Hb.
  intros Hw Hf Hle. unfold release_previous_buffers, first_step in *. destruct (v_reason w).
  - assert (Hwf : bsv_wf set) by (destruct (bi_set _ _ _ _ _ _ _ _ _ Hb) as [?|(_ & ? & _)]; [done|]; pose proof (bi_last _ _ _ _ _ _ _ _ _ Hb); lia).
    assert (Hrel : exists set', bsv_release_until (v_first_buffer_id w) set = Ok set' /\ set_ok set' pc /\ bsv_start set' = bsv_start set + 1 /\ bsv_end set' = bsv_end set /\
      bsv_current set' = bsv_current set /\ (forall b, b ∈ bsv_sealed set' -> b ∈ bsv_sealed set)).
    { rewrite Hf. pose proof (bi_last _ _ _ _ _ _ _ _ _ Hb) as [Hl Hd]. destruct (bsv_sealed set) as [|b0 l] eqn:Es.
      - rewrite bsv_release_last by done. eexists. split; [done|]. cbn. split_and!; try done. right. pose proof (bsv_sealed_length set Hwf) as Hlen.
        rewrite Es in Hlen. cbn in Hlen. destruct (down pc) eqn:Ed; [|specialize (Hd eq_refl); lia]. destruct Hwf as (? & ? & _). cbn. split_and!; try done; lia.
      - destruct (bsv_release_ok set Hwf) as (set' & E & Hwf' & Est & Esn); [by rewrite Es|]. exists set'. split; [done|].
        unfold bsv_release_until in E. destruct (negb _) in E; [done|]. injection E as <-. cbn in *. split_and!; try done; [by left|].
        intros b Hbb. apply list_elem_of_filter in Hbb as [_ ?]. by rewrite <- Es. }
    destruct Hrel as (set' & E & Hok & Est & Een & Ecu & Hsub). exists set'. split; [done|].
    assert (Hsn : forall b, b ∈ bsv_snapshot set' -> b ∈ bsv_snapshot set).
    { intros b. unfold bsv_snapshot. rewrite Ecu, !elem_of_app. intros [?|?]; [left; auto|by right]. }
    destruct Hb as [S1 S2 S3 S4 S5 S6 S7 S8 S9 S10 S11 S12 S13 S14 S15]. split; rewrite ?Een, ?Ecu; try done.
    + unfold first_at. rewrite Hw. cbn. f_equal. lia.
    + unfold words_ok in *. rewrite Forall_forall in S4 |- *. auto.
    + rewrite Forall_forall in S5 |- *. auto.
    + destruct pc; cbn in S6 |- *; rewrite ?Een; done.
    + intros id cl Hx. specialize (S9 _ _ Hx). destruct cl; cbn in *; rewrite ?Een, ?Ecu; done.
    + intros Hcl. destruct (S12 Hcl) as [? Hn]. split; [done|]. auto.
    + intros x Hx. apply S15. lia.
  - exists set. split; [done|]. destruct Hb as [S1 S2 S3 S4 S5 S6 S7 S8 S9 S10 S11 S12 S13 S14 S15]. split; try done.
    unfold first_at. rewrite Hw. cbn. f_equal. lia.
Qed.

Lemma buf_terminate : clients = ∅ -> (forall b, b ∈ bsv_snapshot set -> has_writer (wb_buffer_state b) = false) -> buf_inv max vs c set permits flushed clients pc true.
Proof using Hb. intros He Hn. destruct Hb as [S1 S2 S3 S4 S5 S6 S7 S8 S9 S10 S11 S12 S13 S14 S15]. by split. Qed.
End buffers.
