(* ===== verification/Recover.v ===== *)
(** * Recovery ([page_store/recover.rs])

    The edits of the manifest are replayed to the set of active files; the metadata of
    these files, read through [read_file_meta], gives the page groups, the file infos
    and the page table of the first version. The loops over hash maps run over the
    lists of their entries. *)

From stdpp Require Import base numbers list sorting gmap.
From Stdlib Require Import ZArith Lia.
From S2P Require Import Prelude BasePage Iter BTree PageGroup Env FileBuilder MapFile FileReader Directory Manifest PageTable WriteBuffer Version.

Record FilesSummary := mkFilesSummary {
  sm_active_files : gmap Z NewFile;
  sm_obsoleted_files : gset Z;
}.

(** One edit of [apply_version_edits]. *)
Definition apply_edit (s : FilesSummary) (edit : VersionEdit) : FilesSummary :=
  match ve_file_stream edit with
  | Some edit =>
      let active := foldl (λ m file, <[nf_id file := file]> m) (sm_active_files s) (se_new_files edit) in
      foldl (λ s file, mkFilesSummary (delete file (sm_active_files s)) ({[file]} ∪ sm_obsoleted_files s))
        (mkFilesSummary active (sm_obsoleted_files s)) (se_deleted_files edit)
  | None => s
  end.
Definition apply_version_edits (versions : list VersionEdit) : FilesSummary :=
  foldl apply_edit (mkFilesSummary ∅ ∅) versions.

Definition max_of (l : list Z) : Z := foldr Z.max 0 l.
Definition summary_next_file_id (s : FilesSummary) : Z :=
  wrap32 (Z.max (max_of (map_to_list (sm_active_files s)).*1) (max_of (elements (sm_obsoleted_files s))) + 1).

Definition filter_obsoleted_files (exist_files : list Z) (active_files : gmap Z NewFile) (obsoleted_files : gset Z) : list Z :=
  let exist_files : gset Z := list_to_set exist_files in
  let obsoleted_files := base.filter (λ fid, fid ∈ exist_files) obsoleted_files in
  elements (foldl (λ s file_id, if bool_decide (is_Some (active_files !! file_id)) then s else {[file_id]} ∪ s)
    obsoleted_files (elements exist_files)).

(** ** [FileInfoBuilder] *)

Record FileInfoBuilder := mkFileInfoBuilder {
  ib_virtual_files : gset Z;
  ib_page_groups : gmap Z PageGroup;
  ib_file_infos : gmap Z FileInfo;
  ib_page_table_builder : PageTableBuilder;
  ib_dealloc_pages : gmap Z (list Z);
}.
Definition info_builder_new : FileInfoBuilder := mkFileInfoBuilder ∅ ∅ ∅ ptb_default ∅.

(** The loop over the entries of a page table. *)
Fixpoint recover_table (table : list (Z * Z)) (b : PageTableBuilder) : res PageTableBuilder :=
  match table with
  | [] => Ok b
  | (page_addr, page_id) :: table =>
      old ← ptb_get page_id b;
      b ← (if old <? page_addr then ptb_set page_id page_addr b else Ok b);
      recover_table table b
  end.
Fixpoint recover_tables (tables : list (list (Z * Z))) (b : PageTableBuilder) : res PageTableBuilder :=
  match tables with
  | [] => Ok b
  | table :: tables => b ← recover_table table b; recover_tables tables b
  end.

Definition recover_group (b : FileInfoBuilder) (e : Z * PageGroupMeta) : FileInfoBuilder :=
  mkFileInfoBuilder ({[e.1]} ∪ ib_virtual_files b) (<[e.1 := page_group_new e.2]> (ib_page_groups b))
    (ib_file_infos b) (ib_page_table_builder b) (ib_dealloc_pages b).

(** [recover_file], with the metadata that was read. *)
Definition recover_file (file : NewFile) (meta_reader : FileMetaHolder) (b : FileInfoBuilder) : res FileInfoBuilder :=
  let b := foldl recover_group b (map_to_list (fh_page_groups meta_reader)) in
  let dealloc_pages :=
    if bool_decide (fh_dealloc_pages meta_reader = []) then ib_dealloc_pages b
    else <[nf_id file := fh_dealloc_pages meta_reader]> (ib_dealloc_pages b) in
  let file_infos := <[nf_id file := mkFileInfo (nf_up1 file) (nf_up2 file) (fh_file_meta meta_reader)]> (ib_file_infos b) in
  table ← recover_tables ((map_to_list (fh_page_tables meta_reader)).*2) (ib_page_table_builder b);
  Ok (mkFileInfoBuilder (ib_virtual_files b) (ib_page_groups b) file_infos table dealloc_pages).

(** The derived order of [NewFile]. *)
Definition nf_le (x y : NewFile) : Prop :=
  nf_id x < nf_id y \/ (nf_id x = nf_id y /\ (nf_up1 x < nf_up1 y \/ (nf_up1 x = nf_up1 y /\ nf_up2 x <= nf_up2 y))).
#[global] Instance nf_le_dec : RelDecision nf_le.
Proof. intros x y. unfold nf_le. solve_decision. Defined.

Section recover.
Context (read_file_meta : Z -> res FileMetaHolder).

Fixpoint recover_files (files : list NewFile) (b : FileInfoBuilder) : res FileInfoBuilder :=
  match files with
  | [] => Ok b
  | file :: files =>
      meta_reader ← read_file_meta (nf_id file);
      b ← recover_file file meta_reader b;
      recover_files files b
  end.
Definition recover_page_groups (active_files : gmap Z NewFile) (b : FileInfoBuilder) : res FileInfoBuilder :=
  recover_files (merge_sort nf_le (map_to_list active_files).*2) b.

(** The inner loop of [maintain_active_pages]. *)
Fixpoint deactivate_pages (updated_at : Z) (pages : list Z) (page_groups : gmap Z PageGroup) (file_infos : gmap Z FileInfo) :
    res (gmap Z PageGroup * gmap Z FileInfo) :=
  match pages with
  | [] => Ok (page_groups, file_infos)
  | page_addr :: pages =>
      let group_id := wrap32 (Z.shiftr page_addr 32) in
      match page_groups !! group_id with
      | Some info =>
          '(_, info) ← deactivate_page page_addr info;
          let physical_id := pgm_file_id (pg_meta info) in
          file ← expect (file_infos !! physical_id);
          deactivate_pages updated_at pages (<[group_id := info]> page_groups)
            (<[physical_id := on_update updated_at file]> file_infos)
      | None => deactivate_pages updated_at pages page_groups file_infos
      end
  end.
Fixpoint maintain_loop (updates : list Z) (dealloc_pages : gmap Z (list Z)) (page_groups : gmap Z PageGroup)
    (file_infos : gmap Z FileInfo) : res (gmap Z PageGroup * gmap Z FileInfo) :=
  match updates with
  | [] => Ok (page_groups, file_infos)
  | updated_at :: updates =>
      delete_pages ← expect (dealloc_pages !! updated_at);
      '(page_groups, file_infos) ← deactivate_pages updated_at delete_pages page_groups file_infos;
      maintain_loop updates dealloc_pages page_groups file_infos
  end.
Definition maintain_active_pages (b : FileInfoBuilder) : res (gmap Z PageGroup * gmap Z FileInfo) :=
  maintain_loop (merge_sort Z.le (map_to_list (ib_dealloc_pages b)).*1) (ib_dealloc_pages b) (ib_page_groups b) (ib_file_infos b).

Definition info_builder_build (b : FileInfoBuilder) : res (gmap Z PageGroup * gmap Z FileInfo * Inner) :=
  '(page_groups, file_infos) ← maintain_active_pages b;
  page_table ← ptb_build (ib_page_table_builder b);
  Ok (base.filter (λ e, pg_is_empty e.2 = false) page_groups, file_infos, page_table).

(** [recover] from the edits of the manifest and the files in the directory: the next
    file id, the page table, the first version and the files to delete. *)
Definition recover (versions : list VersionEdit) (exist_files : list Z) : res (Z * Inner * DeltaVersion * list Z) :=
  let summary := apply_version_edits versions in
  builder ← recover_page_groups (sm_active_files summary) info_builder_new;
  '(page_groups, file_infos, page_table) ← info_builder_build builder;
  let deleted_files := filter_obsoleted_files exist_files (sm_active_files summary) (sm_obsoleted_files summary) in
  Ok (summary_next_file_id summary, page_table, mkDeltaVersion ReasonFlush page_groups file_infos ∅, deleted_files).
End recover.
