(* ===== verification/RecoverLaws.v ===== *)
(** * What recovery rebuilds ([page_store/recover.rs])

    From the active files and their metadata: the page groups hold every page that no
    active file deallocates, the file infos carry the metadata of the files, and the
    page table maps each page id to its newest address. *)

From stdpp Require Import base numbers list sorting gmap.
From Stdlib Require Import ZArith Lia.
From S2P Require Import Prelude BasePage Iter Bitmap BTree PageGroup Env FileBuilder MapFile FileReader Directory Manifest PageTable WriteBuffer Version Flush.
From S2P Require Import FlushLaws Recover.

(** ** Active pages *)

Definition active_at (A : Active) (g a : Z) : option PageHandle := act ← A !! g; act !! a.
(** A list of addresses names the page [a] of the group [g]. *)
Definition names_page (l : list Z) (g a : Z) : Prop := Exists (λ addr, addr_group addr = g /\ wrap32 addr = a) l.
#[global] Instance names_page_dec l g a : Decision (names_page l g a).
Proof. apply Exists_dec. intros x. solve_decision. Defined.

Lemma active_kill A addr g a :
  active_at (kill_page A addr) g a = if decide (addr_group addr = g /\ wrap32 addr = a) then None else active_at A g a.
Proof.
  unfold active_at, kill_page. rewrite lookup_alter. destruct (decide (addr_group addr = g)) as [E|E].
  - rewrite E. destruct (A !! g) as [act|]; cbn; [|by destruct (decide _)]. rewrite lookup_delete.
    repeat case_decide; naive_solver.
  - by rewrite decide_False by tauto.
Qed.
Lemma active_kills A l g a : active_at (kill_pages A l) g a = if decide (names_page l g a) then None else active_at A g a.
Proof.
  revert A. induction l as [|addr l IH]; intros A.
  - by rewrite decide_False by (by intros ?%Exists_nil).
  - change (kill_pages A (addr :: l)) with (kill_pages (kill_page A addr) l). rewrite IH, active_kill.
    unfold names_page. repeat case_decide; rewrite ?Exists_cons in *; tauto.
Qed.
Lemma active_nonempty A g a : active_at (nonempty A) g a = active_at A g a.
Proof.
  unfold active_at, nonempty. rewrite map_lookup_filter. destruct (A !! g) as [act|]; [|done]. cbn.
  destruct (decide (act = ∅)) as [->|Hne]; [by rewrite option_guard_False by tauto|by rewrite option_guard_True by done].
Qed.
Lemma kill_dom A l g : is_Some (kill_pages A l !! g) <-> is_Some (A !! g).
Proof.
  revert A. induction l as [|addr l IH]; intros A; [done|].
  change (kill_pages A (addr :: l)) with (kill_pages (kill_page A addr) l). rewrite IH. unfold kill_page.
  rewrite lookup_alter_is_Some. done.
Qed.
(** A group has a page exactly when it is in the map without empty groups. *)
Lemma nonempty_page A g : is_Some (nonempty A !! g) <-> exists a, is_Some (active_at A g a).
Proof.
  unfold active_at. split.
  - intros [act [Ha Hne]%nonempty_lookup]. apply map_choose in Hne as (a & h & Hh). exists a. rewrite Ha. cbn. eauto.
  - intros (a & h & Hh). destruct (A !! g) as [act|] eqn:Ea; [|done]. cbn in Hh. exists act. apply nonempty_lookup.
    split; [done|]. intros ->. by rewrite lookup_empty in Hh.
Qed.

(** ** Groups of a file *)

Definition all_pages (G : gmap Z PageGroup) : Active := (λ pg, pm_handle <$> pgm_page_meta_map (pg_meta pg)) <$> G.

(** What the metadata of a file has to be. *)
Record group_meta_ok (f g : Z) (m : PageGroupMeta) : Prop := {
  gm_ok : meta_ok m;
  gm_file : pgm_file_id m = f;
  gm_group : pgm_group_id m = g;
  gm_size : total_pages m <> 0%nat -> total_page_size m = handles_size (pm_handle <$> pgm_page_meta_map m);
}.
Record holder_ok (f : Z) (h : FileMetaHolder) : Prop := {
  ho_groups : forall g m, fh_page_groups h !! g = Some m -> group_meta_ok f g m;
  ho_file : fm_file_id (fh_file_meta h) = f;
  ho_meta : fm_page_groups (fh_file_meta h) = fh_page_groups h;
  ho_refs : fm_referenced_groups (fh_file_meta h) = list_to_set (addr_group <$> fh_dealloc_pages h);
}.

Lemma new_group_repr f g m : group_meta_ok f g m -> group_repr (page_group_new m) (pm_handle <$> pgm_page_meta_map m).
Proof. intros [Hm _ _ Hs]. exists ∅. by apply page_group_new_repr. Qed.

(** ** Folding unions *)

Section unions.
Context {A B : Type} (f : A -> gmap Z B).

Definition unions (G : gmap Z B) (l : list A) : gmap Z B := foldl (λ G x, f x ∪ G) G l.

Lemma unions_some l G k v : unions G l !! k = Some v -> (exists x, x ∈ l /\ f x !! k = Some v) \/ G !! k = Some v.
Proof.
  revert G. induction l as [|x l IH]; intros G Hv; [by right|]. apply IH in Hv as [(y & Hy & Hv)|Hv].
  - left. exists y. split; [by right|done].
  - apply lookup_union_Some_raw in Hv as [Hv|[_ Hv]]; [left|by right]. exists x. split; [by left|done].
Qed.
Lemma unions_in l G k v x :
  (forall y w, y ∈ l -> f y !! k = Some w -> w = v) -> x ∈ l -> f x !! k = Some v -> unions G l !! k = Some v.
Proof.
  intros Hu Hx Hv. destruct (unions G l !! k) as [w|] eqn:E.
  - assert (Hl : forall l G, (exists y, y ∈ l /\ is_Some (f y !! k)) -> (forall y w, y ∈ l -> f y !! k = Some w -> w = v) ->
      unions G l !! k = Some v).
    { clear. induction l as [|y l IH]; intros G (z & Hz & Hs) Hu; [by apply not_elem_of_nil in Hz|].
      destruct (decide (Exists (λ z, is_Some (f z !! k)) l)) as [He|He].
      - apply IH; [by apply Exists_exists in He|]. intros z' w Hz'. apply Hu. by right.
      - assert (Hnone : forall l' G', (forall z, z ∈ l' -> f z !! k = None) -> unions G' l' !! k = G' !! k).
        { clear. induction l' as [|z l' IH]; intros G' Hn; [done|]. cbn [unions foldl]. fold (unions (f z ∪ G') l').
          rewrite IH; [|intros; apply Hn; by right]. apply lookup_union_r, Hn. by left. }
        change (unions G (y :: l)) with (unions (f y ∪ G) l). rewrite Hnone.
        + apply elem_of_cons in Hz as [->|Hz]; [|exfalso; apply He, Exists_exists; eauto].
          destruct Hs as [w Hw]. assert (w = v) as -> by (apply (Hu y); [by left|done]). by apply lookup_union_Some_l.
        + intros z' Hz'. apply eq_None_not_Some. intros ?. apply He, Exists_exists. eauto. }
    rewrite <- E. apply Hl; [|done]. exists x. split; [done|eauto].
  - exfalso. clear Hu. revert G E. induction l as [|y l IH]; intros G E; [by apply not_elem_of_nil in Hx|].
    assert (Hn : forall l' G', unions G' l' !! k = None -> G' !! k = None).
    { clear. induction l' as [|z l' IH]; intros G' E; [done|]. apply IH, lookup_union_None in E as [_ ?]. done. }
    change (unions G (y :: l)) with (unions (f y ∪ G) l) in E. apply elem_of_cons in Hx as [->|Hx]; [|by eapply IH].
    apply Hn, lookup_union_None in E as [? _]. congruence.
Qed.
End unions.

(** ** The page table *)

(** One entry of a page table: the newest address of each page wins. *)
Definition newest (m : gmap Z Z) (e : Z * Z) : gmap Z Z :=
  if default 0 (m !! e.2) <? e.1 then <[e.2 := e.1]> m else m.
Definition entry_ok (e : Z * Z) : Prop := MIN_ID <= e.2 < MAX_ID /\ 0 < e.1.

Lemma recover_table_ok table b (m : gmap Z Z) :
  ptb_holds b m -> Forall entry_ok table ->
  exists b', recover_table table b = Ok b' /\ ptb_holds b' (foldl newest m table).
Proof.
  intros Hb Ht. revert b m Hb. induction Ht as [|[addr id] table [Hid Ha] _ IH]; intros b m Hb; [by exists b|].
  cbn [recover_table foldl newest fst snd]. cbn [fst snd] in Hid, Ha.
  rewrite (ptb_get_ok id b m Hb) by (unfold id_ok, MAX_ID, MIN_ID in *; lia). cbn [mbind res_bind].
  unfold newest at 2. cbn [fst snd]. destruct (default 0 (m !! id) <? addr); [|by apply IH].
  destruct (ptb_set_ok id addr b m Hb Hid) as (b1 & E & Hb1); [lia|]. rewrite E. by apply IH.
Qed.
Lemma recover_tables_ok tables b (m : gmap Z Z) :
  ptb_holds b m -> Forall entry_ok (concat tables) ->
  exists b', recover_tables tables b = Ok b' /\ ptb_holds b' (foldl newest m (concat tables)).
Proof.
  revert b m. induction tables as [|t tables IH]; intros b m Hb Ht; [by exists b|]. cbn [concat] in *.
  apply Forall_app in Ht as [Ht Hts]. destruct (recover_table_ok t b m Hb Ht) as (b1 & E & Hb1).
  cbn [recover_tables]. rewrite E. cbn [mbind res_bind]. rewrite foldl_app. by apply IH.
Qed.

(** The greatest address of each id. *)
Lemma newest_spec l (m : gmap Z Z) id :
  let v := default 0 (foldl newest m l !! id) in
  (v = default 0 (m !! id) \/ (v, id) ∈ l) /\ default 0 (m !! id) <= v /\ (forall a, (a, id) ∈ l -> a <= v).
Proof.
  revert m. induction l as [|[addr i] l IH]; intros m; cbn [foldl].
  { split; [by left|]. split; [done|]. intros a Ha. by apply not_elem_of_nil in Ha. }
  destruct (IH (newest m (addr, i))) as (H1 & H2 & H3). set (v := default 0 (foldl newest (newest m (addr, i)) l !! id)) in *.
  assert (Hn : default 0 (newest m (addr, i) !! id) =
    if decide (i = id) then Z.max (default 0 (m !! id)) addr else default 0 (m !! id)).
  { unfold newest. cbn [fst snd]. destruct (decide (i = id)) as [->|Hne].
    - destruct (Z.ltb_spec (default 0 (m !! id)) addr); [rewrite lookup_insert_eq; simpl; lia|lia].
    - destruct (_ <? _); [by rewrite lookup_insert_ne|done]. }
  rewrite Hn in H1, H2. split; [|split].
  - destruct H1 as [H1|H1]; [|right; by right]. destruct (decide (i = id)) as [->|]; [|by left].
    destruct (Z.max_spec (default 0 (m !! id)) addr) as [[? E]|[? E]]; rewrite E in H1; [right; rewrite H1; by left|by left].
  - destruct (decide (i = id)); lia.
  - intros a [[= -> ->]|Ha]%elem_of_cons; [|by apply H3]. rewrite decide_True in H2 by done. lia.
Qed.
Lemma newest_dom l (m : gmap Z Z) id :
  Forall entry_ok l -> is_Some (foldl newest m l !! id) <-> is_Some (m !! id) \/ exists a, (a, id) ∈ l.
Proof.
  intros Hl. revert m. induction Hl as [|[addr i] l [Hi Ha] _ IH]; intros m; cbn [foldl].
  { split; [by left|]. intros [?|[a Ha]]; [done|by apply not_elem_of_nil in Ha]. }
  rewrite IH. unfold newest. cbn [fst snd] in *. destruct (Z.ltb_spec (default 0 (m !! i)) addr).
  - destruct (decide (i = id)) as [->|Hne].
    + rewrite lookup_insert_eq. split; [intros _; right; exists addr; by left|eauto].
    + rewrite lookup_insert_ne by done. split; [intros [?|[a ?]]; [by left|right; exists a; by right]|].
      intros [?|[a [[= -> ->]|?]%elem_of_cons]]; [by left|done|right; eauto].
  - split; [intros [?|[a ?]]; [by left|right; exists a; by right]|].
    intros [?|[a [[= -> ->]|?]%elem_of_cons]]; [by left| |right; eauto]. left. destruct (m !! i); [eauto|simpl in *; lia].
Qed.

(** ** The files *)

Section files.
Context (disk : gmap Z FileMetaHolder).

Definition read_meta_of (file_id : Z) : res FileMetaHolder :=
  match disk !! file_id with Some h => Ok h | None => Err (Io NotFound) end.

Definition file_groups (file : NewFile) : gmap Z PageGroup :=
  match disk !! nf_id file with Some h => page_group_new <$> fh_page_groups h | None => ∅ end.
Definition file_info_of (file : NewFile) : gmap Z FileInfo :=
  match disk !! nf_id file with
  | Some h => {[nf_id file := mkFileInfo (nf_up1 file) (nf_up2 file) (fh_file_meta h)]}
  | None => ∅
  end.
Definition file_deallocs (file : NewFile) : gmap Z (list Z) :=
  match disk !! nf_id file with
  | Some h => if bool_decide (fh_dealloc_pages h = []) then ∅ else {[nf_id file := fh_dealloc_pages h]}
  | None => ∅
  end.
Definition file_tables (file : NewFile) : list (Z * Z) :=
  match disk !! nf_id file with Some h => concat (map_to_list (fh_page_tables h)).*2 | None => [] end.

Lemma recover_groups_fold (l : list (Z * PageGroupMeta)) b :
  NoDup l.*1 ->
  foldl recover_group b l =
    mkFileInfoBuilder (list_to_set l.*1 ∪ ib_virtual_files b) ((page_group_new <$> list_to_map l) ∪ ib_page_groups b)
      (ib_file_infos b) (ib_page_table_builder b) (ib_dealloc_pages b).
Proof.
  revert b. induction l as [|[g m] l IH]; intros b Hnd.
  - destruct b. cbn. f_equal; [by rewrite (left_id_L ∅ _)|by rewrite fmap_empty, (left_id_L ∅ _)].
  - rewrite fmap_cons in Hnd. apply NoDup_cons in Hnd as [Hn Hnd]. cbn [foldl]. rewrite IH by done. cbn [recover_group fst snd ib_virtual_files
      ib_page_groups ib_file_infos ib_page_table_builder ib_dealloc_pages]. f_equal.
    + rewrite fmap_cons. cbn [list_to_set fst]. set_solver.
    + rewrite list_to_map_cons, fmap_insert. rewrite <- insert_union_l. rewrite insert_union_r; [done|].
      rewrite lookup_fmap. by rewrite not_elem_of_list_to_map_1.
Qed.

Lemma recover_file_ok file h b (m : gmap Z Z) :
  disk !! nf_id file = Some h -> ptb_holds (ib_page_table_builder b) m -> Forall entry_ok (file_tables file) ->
  exists vf t, recover_file file h b = Ok (mkFileInfoBuilder vf (file_groups file ∪ ib_page_groups b) (file_info_of file ∪ ib_file_infos b) t
      (file_deallocs file ∪ ib_dealloc_pages b)) /\
    ptb_holds t (foldl newest m (file_tables file)).
Proof.
  intros Hh Hb He. unfold file_tables, file_groups, file_info_of, file_deallocs in *. rewrite Hh in *. unfold recover_file.
  rewrite recover_groups_fold by apply NoDup_fst_map_to_list. rewrite list_to_map_to_list.
  cbn [ib_virtual_files ib_page_groups ib_file_infos ib_page_table_builder ib_dealloc_pages].
  destruct (recover_tables_ok _ _ m Hb He) as (t & E & Ht). rewrite E. cbn [mbind res_bind].
  eexists _, t. split; [|done]. do 2 f_equal; [by rewrite insert_union_singleton_l|].
  case_bool_decide; [by rewrite (left_id_L ∅ _)|by rewrite insert_union_singleton_l].
Qed.

Lemma recover_files_ok files b (m : gmap Z Z) :
  (forall file, file ∈ files -> is_Some (disk !! nf_id file) /\ Forall entry_ok (file_tables file)) ->
  ptb_holds (ib_page_table_builder b) m ->
  exists vf t, recover_files read_meta_of files b = Ok (mkFileInfoBuilder vf (unions file_groups (ib_page_groups b) files)
      (unions file_info_of (ib_file_infos b) files) t (unions file_deallocs (ib_dealloc_pages b) files)) /\
    ptb_holds t (foldl newest m (concat (file_tables <$> files))).
Proof.
  revert b m. induction files as [|file files IH]; intros b m Hf Hb; [exists (ib_virtual_files b), (ib_page_table_builder b); by destruct b|].
  destruct (Hf file) as [[h Hh] He]; [by left|]. cbn [recover_files].
  assert (Hrd : read_meta_of (nf_id file) = Ok h) by (unfold read_meta_of; by rewrite Hh). rewrite Hrd. cbn [mbind res_bind].
  destruct (recover_file_ok file h b m Hh Hb He) as (vf & t & E & Ht). rewrite E. cbn [mbind res_bind].
  rewrite fmap_cons. cbn [concat]. rewrite foldl_app.
  destruct (IH (mkFileInfoBuilder vf (file_groups file ∪ ib_page_groups b) (file_info_of file ∪ ib_file_infos b) t
      (file_deallocs file ∪ ib_dealloc_pages b)) _ ltac:(intros f Hin; apply Hf; by right) Ht) as (vf' & t' & E' & Ht').
  by exists vf', t'.
Qed.

(** ** Deactivating *)

Definition files_present (G : gmap Z PageGroup) (F : gmap Z FileInfo) : Prop :=
  forall g pg, G !! g = Some pg -> is_Some (F !! pgm_file_id (pg_meta pg)).

Lemma deactivate_pages_ok now pages G F A :
  groups_repr G A -> files_present G F ->
  exists G' F', deactivate_pages now pages G F = Ok (G', F') /\ groups_repr G' (kill_pages A pages) /\ same_metas G G' /\
    (fi_meta <$> F') = (fi_meta <$> F) /\ files_present G' F'.
Proof.
  revert G F A. induction pages as [|addr pages IH]; intros G F A Hr Hf; [by exists G, F|].
  cbn [deactivate_pages]. change (kill_pages A (addr :: pages)) with (kill_pages (kill_page A addr) pages). fold (addr_group addr).
  destruct (groups_repr_lookup G A (addr_group addr) Hr) as [(pg & act & Hg & Ha & dead & Hrep)|[Hg Ha]]; rewrite Hg.
  - destruct (deactivate_page_ok pg act dead addr Hrep) as (pg' & dead' & Hd & Hrep' & Hm). rewrite Hd. cbn [mbind res_bind].
    destruct (Hf _ _ Hg) as [info Hinfo]. rewrite Hm, Hinfo. cbn [expect mbind res_bind].
    edestruct (IH (<[addr_group addr := pg']> G) (<[pgm_file_id (pg_meta pg) := on_update now info]> F) (kill_page A addr))
      as (G' & F' & E & Hr' & Hs & HF & Hp).
    { unfold kill_page. rewrite <- (insert_id A _ _ Ha), alter_insert_eq. apply map_Forall2_insert_2; [by exists dead'|done]. }
    { intros g pg0 [[<- <-]|[_ Hg0]]%lookup_insert_Some; rewrite lookup_insert_is_Some'; [rewrite Hm; by left|right; by eapply Hf]. }
    exists G', F'. split; [exact E|]. split; [done|]. split; [|split; [|done]].
    + unfold same_metas in *. rewrite Hs, fmap_insert, Hm. apply insert_id. by rewrite lookup_fmap, Hg.
    + rewrite HF, fmap_insert. replace (fi_meta (on_update now info)) with (fi_meta info) by (unfold on_update; by destruct (_ <? _)).
      apply insert_id. by rewrite lookup_fmap, Hinfo.
  - apply IH; [|done]. unfold kill_page. intros i. rewrite lookup_alter. case_decide; [|apply Hr]. subst. rewrite Hg, Ha. constructor.
Qed.

Lemma maintain_loop_ok updates (dealloc : gmap Z (list Z)) G F A :
  groups_repr G A -> files_present G F -> (forall i, i ∈ updates -> is_Some (dealloc !! i)) ->
  exists G' F', maintain_loop updates dealloc G F = Ok (G', F') /\
    groups_repr G' (kill_pages A (concat ((λ i, default [] (dealloc !! i)) <$> updates))) /\ same_metas G G' /\
    (fi_meta <$> F') = (fi_meta <$> F).
Proof.
  revert G F A. induction updates as [|i updates IH]; intros G F A Hr Hf Hin; [by exists G, F|].
  destruct (Hin i) as [pages Hp]; [by left|]. cbn [maintain_loop]. rewrite Hp. cbn [expect mbind res_bind].
  destruct (deactivate_pages_ok i pages G F A Hr Hf) as (G1 & F1 & E1 & Hr1 & Hs1 & HF1 & Hf1). rewrite E1. cbn [mbind res_bind].
  destruct (IH G1 F1 _ Hr1 Hf1) as (G2 & F2 & E2 & Hr2 & Hs2 & HF2); [intros; apply Hin; by right|].
  exists G2, F2. split; [exact E2|]. rewrite fmap_cons. cbn [concat]. rewrite Hp. cbn [default].
  split; [unfold kill_pages in *; by rewrite foldl_app|]. unfold same_metas in *. split; congruence.
Qed.

(** ** Recovery as a whole *)

(** What the active files have to be: their metadata can be read and is well formed,
    and no two of them hold the same group. *)
Record active_files_ok (active : gmap Z NewFile) : Prop := {
  ao_file : forall i nf, active !! i = Some nf -> nf_id nf = i /\ exists h, disk !! i = Some h /\ holder_ok i h /\
    Forall entry_ok (concat (map_to_list (fh_page_tables h)).*2);
  ao_unique : forall i j hi hj g, is_Some (active !! i) -> is_Some (active !! j) -> disk !! i = Some hi -> disk !! j = Some hj ->
    is_Some (fh_page_groups hi !! g) -> is_Some (fh_page_groups hj !! g) -> i = j;
}.

(** The group [g] of an active file. *)
Definition holds_group (active : gmap Z NewFile) (g : Z) (m : PageGroupMeta) : Prop :=
  exists i h, is_Some (active !! i) /\ disk !! i = Some h /\ fh_page_groups h !! g = Some m.
(** An active file deallocates the page. *)
Definition deallocated (active : gmap Z NewFile) (g a : Z) : Prop :=
  exists i h, is_Some (active !! i) /\ disk !! i = Some h /\ names_page (fh_dealloc_pages h) g a.
(** An active file maps the page id to the address. *)
Definition maps_page (active : gmap Z NewFile) (id addr : Z) : Prop :=
  exists i h g t, is_Some (active !! i) /\ disk !! i = Some h /\ fh_page_tables h !! g = Some t /\ (addr, id) ∈ t.

Section summary.
Context (active : gmap Z NewFile) (Hactive : active_files_ok active).

Definition sorted_files : list NewFile := merge_sort nf_le (map_to_list active).*2.

Lemma sorted_files_elem file : file ∈ sorted_files <-> active !! nf_id file = Some file.
Proof using Hactive.
  unfold sorted_files. rewrite merge_sort_Permutation, list_elem_of_fmap. split.
  - intros ([i nf] & -> & Hi%elem_of_map_to_list). cbn. by destruct (ao_file _ Hactive i nf Hi) as [-> _].
  - intros Hi. exists (nf_id file, file). split; [done|]. by apply elem_of_map_to_list.
Qed.

Lemma recovered_groups g pg :
  unions file_groups ∅ sorted_files !! g = Some pg <-> exists m, holds_group active g m /\ pg = page_group_new m.
Proof using Hactive.
  split.
  - intros [(file & Hf%sorted_files_elem & Hg)|Hg]%unions_some; [|by rewrite lookup_empty in Hg]. unfold file_groups in Hg.
    destruct (disk !! nf_id file) as [h|] eqn:Eh; [|by rewrite lookup_empty in Hg].
    rewrite lookup_fmap, fmap_Some in Hg. destruct Hg as (m & Hm & ->). exists m. split; [|done]. exists (nf_id file), h. eauto.
  - intros (m & (i & h & [nf Hi] & Hh & Hm) & ->). destruct (ao_file _ Hactive i nf Hi) as [Enf _].
    apply (unions_in _ _ _ _ _ nf); [|apply sorted_files_elem; by rewrite Enf|unfold file_groups; rewrite Enf, Hh, lookup_fmap, Hm; done].
    intros file pg' Hf%sorted_files_elem Hg. unfold file_groups in Hg. destruct (disk !! nf_id file) as [h'|] eqn:Eh; [|by rewrite lookup_empty in Hg].
    rewrite lookup_fmap, fmap_Some in Hg. destruct Hg as (m' & Hm' & ->).
    assert (nf_id file = i) as E by (eapply (ao_unique _ Hactive); [eauto|eauto|exact Eh|exact Hh|eauto|eauto]).
    rewrite E in Eh. congruence.
Qed.

Lemma recovered_infos i info :
  unions file_info_of ∅ sorted_files !! i = Some info <->
    exists nf h, active !! i = Some nf /\ disk !! i = Some h /\ info = mkFileInfo (nf_up1 nf) (nf_up2 nf) (fh_file_meta h).
Proof using Hactive.
  assert (Hone : forall file info, file ∈ sorted_files -> file_info_of file !! i = Some info ->
    exists h, active !! i = Some file /\ disk !! i = Some h /\ info = mkFileInfo (nf_up1 file) (nf_up2 file) (fh_file_meta h)).
  { intros file info' Hf%sorted_files_elem Hi. unfold file_info_of in Hi. destruct (disk !! nf_id file) as [h|] eqn:Eh; [|by rewrite lookup_empty in Hi].
    apply lookup_singleton_Some in Hi as [E <-]. rewrite E in *. eauto. }
  split.
  - intros [(file & Hf & Hi)|Hi]%unions_some; [|by rewrite lookup_empty in Hi]. exists file. by apply Hone.
  - intros (nf & h & Hi & Hh & ->). destruct (ao_file _ Hactive i nf Hi) as [Enf _].
    apply (unions_in _ _ _ _ _ nf); [|apply sorted_files_elem; by rewrite Enf|].
    + intros file info' Hf Hinfo. destruct (Hone file info' Hf Hinfo) as (h' & Hi' & Hh' & ->). congruence.
    + unfold file_info_of. rewrite Enf, Hh. by apply lookup_singleton_eq.
Qed.

Lemma recovered_deallocs i l :
  unions file_deallocs ∅ sorted_files !! i = Some l <->
    exists h, is_Some (active !! i) /\ disk !! i = Some h /\ l = fh_dealloc_pages h /\ l <> [].
Proof using Hactive.
  assert (Hone : forall file l, file ∈ sorted_files -> file_deallocs file !! i = Some l ->
    exists h, is_Some (active !! i) /\ disk !! i = Some h /\ l = fh_dealloc_pages h /\ l <> []).
  { intros file l' Hf%sorted_files_elem Hi. unfold file_deallocs in Hi. destruct (disk !! nf_id file) as [h|] eqn:Eh; [|by rewrite lookup_empty in Hi].
    case_bool_decide; [by rewrite lookup_empty in Hi|]. apply lookup_singleton_Some in Hi as [E <-]. rewrite E in *. eauto 10. }
  split.
  - intros [(file & Hf & Hi)|Hi]%unions_some; [|by rewrite lookup_empty in Hi]. by eapply Hone.
  - intros (h & [nf Hi] & Hh & -> & Hne). destruct (ao_file _ Hactive i nf Hi) as [Enf _].
    apply (unions_in _ _ _ _ _ nf); [|apply sorted_files_elem; by rewrite Enf|].
    + intros file l' Hf Hl. destruct (Hone file l' Hf Hl) as (h' & _ & Hh' & -> & _). congruence.
    + unfold file_deallocs. rewrite Enf, Hh, bool_decide_false by done. by apply lookup_singleton_eq.
Qed.

Lemma recovered_tables addr id : (addr, id) ∈ concat (file_tables <$> sorted_files) <-> maps_page active id addr.
Proof using Hactive.
  assert (Hcat : forall {A} (x : A) ls, x ∈ concat ls <-> exists l, l ∈ ls /\ x ∈ l).
  { intros A x ls. rewrite list_elem_of_In, in_concat. setoid_rewrite list_elem_of_In. done. }
  rewrite Hcat. split.
  - intros (l & (file & -> & Hf%sorted_files_elem)%list_elem_of_fmap & Hin). unfold file_tables in Hin.
    destruct (disk !! nf_id file) as [h|] eqn:Eh; [|by apply not_elem_of_nil in Hin].
    apply Hcat in Hin as (t & ([g t'] & -> & Hg%elem_of_map_to_list)%list_elem_of_fmap & Hin). exists (nf_id file), h, g, t'. eauto.
  - intros (i & h & g & t & [nf Hi] & Hh & Hg & Hin). destruct (ao_file _ Hactive i nf Hi) as [Enf _].
    exists (file_tables nf). split; [apply list_elem_of_fmap; exists nf; split; [done|apply sorted_files_elem; by rewrite Enf]|].
    unfold file_tables. rewrite Enf, Hh. apply Hcat. exists t. split; [|done]. apply list_elem_of_fmap. exists (g, t).
    split; [done|]. by apply elem_of_map_to_list.
Qed.

(** The pages of the active files, as they are before the deallocations are replayed. *)
Lemma all_pages_repr : let G := unions file_groups ∅ sorted_files in groups_repr G (all_pages G).
Proof using Hactive.
  intros G g. unfold all_pages. rewrite lookup_fmap. destruct (G !! g) as [pg|] eqn:Eg; [|constructor]. constructor.
  apply recovered_groups in Eg as (m & (i & h & [nf Hi] & Hh & Hm) & ->).
  destruct (ao_file _ Hactive i nf Hi) as (_ & h' & Hh' & Hok & _). assert (h' = h) as -> by congruence.
  eapply new_group_repr, ho_groups; done.
Qed.
Lemma all_pages_at g a h :
  active_at (all_pages (unions file_groups ∅ sorted_files)) g a = Some h <->
    exists m pm, holds_group active g m /\ pgm_page_meta_map m !! a = Some pm /\ pm_handle pm = h.
Proof using Hactive.
  unfold active_at, all_pages. rewrite lookup_fmap. split.
  - destruct (unions file_groups ∅ sorted_files !! g) as [pg|] eqn:Eg; [|done].
    apply recovered_groups in Eg as (m & Hm & ->). cbn. rewrite lookup_fmap, fmap_Some.
    intros (pm & Hpm & ->). eauto.
  - intros (m & pm & Hm & Hpm & <-). assert (unions file_groups ∅ sorted_files !! g = Some (page_group_new m)) as ->.
    { apply recovered_groups. eauto. }
    cbn. rewrite lookup_fmap. cbn in Hpm. by rewrite Hpm.
Qed.

Lemma files_all_present : files_present (unions file_groups ∅ sorted_files) (unions file_info_of ∅ sorted_files).
Proof using Hactive.
  intros g pg (m & (i & h & [nf Hi] & Hh & Hm) & ->)%recovered_groups. cbn.
  destruct (ao_file _ Hactive i nf Hi) as (_ & h' & Hh' & Hok & _). assert (h' = h) as -> by congruence.
  rewrite (gm_file _ _ _ (ho_groups _ _ Hok _ _ Hm)). eexists. apply recovered_infos. eauto 10.
Qed.

Lemma entries_ok : Forall entry_ok (concat (file_tables <$> sorted_files)).
Proof using Hactive.
  apply Forall_forall. intros [addr id] (i & h & g & t & [nf Hi] & Hh & Ht & Hin)%recovered_tables.
  destruct (ao_file _ Hactive i nf Hi) as (_ & h' & Hh' & _ & He). assert (h' = h) as -> by congruence.
  rewrite Forall_forall in He. apply He. apply list_elem_of_In, in_concat. exists t. split; [|by apply list_elem_of_In].
  apply list_elem_of_In, list_elem_of_fmap. exists (g, t). split; [done|]. by apply elem_of_map_to_list.
Qed.

(** The deallocations that are replayed are those of the active files. *)
Lemma replayed_deallocs g a :
  names_page (concat ((λ i, default [] (unions file_deallocs ∅ sorted_files !! i)) <$>
    merge_sort Z.le (map_to_list (unions file_deallocs ∅ sorted_files)).*1)) g a <-> deallocated active g a.
Proof using Hactive.
  unfold names_page, deallocated. rewrite Exists_exists. split.
  - intros (addr & Hin & Ha). apply list_elem_of_In, in_concat in Hin as (? & (j & -> & Hi)%list_elem_of_In%list_elem_of_fmap & Hin%list_elem_of_In).
    rewrite merge_sort_Permutation in Hi. apply list_elem_of_fmap in Hi as ([? l] & -> & Hl%elem_of_map_to_list). cbn [fst] in *.
    rewrite Hl in Hin. cbn in Hin. apply recovered_deallocs in Hl as (h & Hi & Hh & -> & _). eexists _, h.
    split; [done|]. split; [done|]. apply Exists_exists. eauto.
  - intros (i & h & Hi & Hh & (addr & Hin & Ha)%Exists_exists). exists addr. split; [|done].
    assert (Hl : unions file_deallocs ∅ sorted_files !! i = Some (fh_dealloc_pages h)).
    { apply recovered_deallocs. exists h. split_and!; [done..|]. intros E. rewrite E in Hin. by apply not_elem_of_nil in Hin. }
    apply list_elem_of_In, in_concat. exists (fh_dealloc_pages h). split; [|by apply list_elem_of_In].
    apply list_elem_of_In, list_elem_of_fmap. exists i. split; [by rewrite Hl|]. rewrite merge_sort_Permutation.
    apply list_elem_of_fmap. exists (i, fh_dealloc_pages h). split; [done|]. by apply elem_of_map_to_list.
Qed.

(** The page groups, file infos and page table that are built. *)
Lemma info_builder_ok :
  exists b G F table l A, recover_page_groups read_meta_of active info_builder_new = Ok b /\ info_builder_build b = Ok (G, F, table) /\
    groups_repr G A /\ nonempty A = A /\
    (forall g a h, active_at A g a = Some h <->
       (exists m pm, holds_group active g m /\ pgm_page_meta_map m !! a = Some pm /\ pm_handle pm = h) /\ ~ deallocated active g a) /\
    (forall g pg, G !! g = Some pg -> holds_group active g (pg_meta pg)) /\
    (forall i fm, (fi_meta <$> F) !! i = Some fm <-> exists h, is_Some (active !! i) /\ disk !! i = Some h /\ fm = fh_file_meta h) /\
    table_inv table (dom (foldl newest ∅ (concat (file_tables <$> sorted_files)))) l /\ StronglySorted Z.lt l /\
    (forall id addr, foldl newest ∅ (concat (file_tables <$> sorted_files)) !! id = Some addr -> table_get id table = Ok addr).
Proof using Hactive.
  destruct (recover_files_ok sorted_files info_builder_new ∅) as (vf & t & Eb & Ht); [|exact ptb_default_holds|].
  { intros file Hf%sorted_files_elem. destruct (ao_file _ Hactive _ _ Hf) as (_ & h & Hh & _ & He). split; [eauto|].
    unfold file_tables. by rewrite Hh. }
  cbn [ib_page_groups ib_file_infos ib_dealloc_pages info_builder_new] in Eb.
  set (D := unions file_deallocs ∅ sorted_files) in Eb.
  destruct (maintain_loop_ok (merge_sort Z.le (map_to_list D).*1) D _ _ _ all_pages_repr files_all_present)
    as (G1 & F1 & E1 & Hr1 & Hs1 & HF1).
  { intros i Hi. rewrite merge_sort_Permutation in Hi. apply list_elem_of_fmap in Hi as ([? l] & -> & Hl%elem_of_map_to_list). eauto. }
  destruct (ptb_build_ok _ _ Ht) as (table & l & Et & Hinv & Hsort & Hget).
  set (A1 := kill_pages _ _) in Hr1.
  exists (mkFileInfoBuilder vf (unions file_groups ∅ sorted_files) (unions file_info_of ∅ sorted_files) t D),
    (base.filter (λ e, pg_is_empty e.2 = false) G1), F1, table, l, (nonempty A1).
  split; [exact Eb|]. split; [|split; [by apply retain_nonempty|split; [|split; [|split; [|split]]]]].
  - unfold info_builder_build, maintain_active_pages. cbn [ib_page_groups ib_file_infos ib_dealloc_pages ib_page_table_builder].
    rewrite E1. cbn [mbind res_bind]. rewrite Et. done.
  - apply map_filter_id. intros g act Ha. by apply nonempty_lookup in Ha as [_ ?].
  - intros g a h. rewrite active_nonempty. unfold A1. rewrite active_kills. unfold D. pose proof (replayed_deallocs g a) as Hrep.
    case_decide as Hc; [split; [done|]; intros [_ []]; by apply Hrep|]. rewrite all_pages_at. rewrite <- Hrep. tauto.
  - intros g pg [Hg _]%map_lookup_filter_Some. assert (Hm : (pg_meta <$> G1) !! g = Some (pg_meta pg)) by (by rewrite lookup_fmap, Hg).
    rewrite Hs1, lookup_fmap, fmap_Some in Hm. destruct Hm as (pg0 & (m & Hm & ->)%recovered_groups & ->). exact Hm.
  - intros i fm. rewrite HF1, lookup_fmap, fmap_Some. setoid_rewrite recovered_infos. split.
    + intros (info & (nf & h & Hi & Hh & ->) & ->). exists h. split; [eauto|done].
    + intros (h & [nf Hi] & Hh & ->). eexists. split; [by exists nf, h|done].
  - by split.
Qed.
End summary.

(** ** [recover] *)

Lemma filter_obsoleted_files_elem exist_files (active : gmap Z NewFile) (obsoleted : gset Z) i :
  i ∈ filter_obsoleted_files exist_files active obsoleted <-> i ∈ exist_files /\ (i ∈ obsoleted \/ active !! i = None).
Proof.
  unfold filter_obsoleted_files. set (ex := list_to_set exist_files : gset Z). rewrite elem_of_elements.
  assert (Hf : forall l (s : gset Z), i ∈ foldl (λ s file_id, if bool_decide (is_Some (active !! file_id)) then s else {[file_id]} ∪ s) s l <->
    i ∈ s \/ (i ∈ l /\ active !! i = None)).
  { induction l as [|x l IH]; intros s; cbn [foldl]; [set_solver|]. rewrite IH, elem_of_cons. case_bool_decide as Hx.
    - split; [naive_solver|]. intros [?|[[->|?] E]]; [by left|by rewrite E in Hx; destruct Hx|by right].
    - apply eq_None_not_Some in Hx. set_solver. }
  rewrite Hf, elem_of_filter, elem_of_elements. unfold ex. rewrite elem_of_list_to_set. tauto.
Qed.

Lemma recover_ok versions exist_files :
  let summary := apply_version_edits versions in
  let active := sm_active_files summary in
  active_files_ok active ->
  exists table G F del l A,
    recover read_meta_of versions exist_files = Ok (summary_next_file_id summary, table, mkDeltaVersion ReasonFlush G F ∅, del) /\
    groups_repr G A /\ nonempty A = A /\
    (forall g a h, active_at A g a = Some h <->
       (exists m pm, holds_group active g m /\ pgm_page_meta_map m !! a = Some pm /\ pm_handle pm = h) /\ ~ deallocated active g a) /\
    (forall g pg, G !! g = Some pg -> holds_group active g (pg_meta pg)) /\
    (forall i fm, (fi_meta <$> F) !! i = Some fm <-> exists h, is_Some (active !! i) /\ disk !! i = Some h /\ fm = fh_file_meta h) /\
    (forall i, i ∈ del <-> i ∈ exist_files /\ (i ∈ sm_obsoleted_files summary \/ active !! i = None)) /\
    table_inv table (dom (foldl newest ∅ (concat (file_tables <$> sorted_files active)))) l /\ StronglySorted Z.lt l /\
    (forall id addr, foldl newest ∅ (concat (file_tables <$> sorted_files active)) !! id = Some addr -> table_get id table = Ok addr).
Proof.
  intros summary active Hok. destruct (info_builder_ok active Hok) as (b & G & F & table & l & A & Eb & Ebuild & Hr & Hne & Hact & Hm & HF & Ht).
  exists table, G, F, (filter_obsoleted_files exist_files active (sm_obsoleted_files summary)), l, A.
  split; [|split_and!; [done..|apply filter_obsoleted_files_elem|apply Ht|apply Ht|apply Ht]].
  unfold recover. fold summary active. rewrite Eb. cbn [mbind res_bind]. by rewrite Ebuild.
Qed.

(** Recovery rebuilds the page groups: when the active files of the manifest can
    be read and no group is in two of them, recovery succeeds; a page is active in the
    version it builds exactly when a group of an active file holds it and no active
    file deallocates it, with the handle the file has for it; the version has the
    metadata of exactly the active files; and of the files in the directory exactly
    those are deleted that the manifest obsoletes or does not know as active. *)
Theorem recover_active_pages versions exist_files :
  let summary := apply_version_edits versions in
  let active := sm_active_files summary in
  active_files_ok active ->
  exists next table delta del A,
    recover read_meta_of versions exist_files = Ok (next, table, delta, del) /\ groups_repr (dv_page_groups delta) A /\ nonempty A = A /\
    (forall g a h, active_at A g a = Some h <->
       (exists m pm, holds_group active g m /\ pgm_page_meta_map m !! a = Some pm /\ pm_handle pm = h) /\ ~ deallocated active g a) /\
    (forall i fm, (fi_meta <$> dv_file_infos delta) !! i = Some fm <->
       exists h, is_Some (active !! i) /\ disk !! i = Some h /\ fm = fh_file_meta h) /\
    (forall i, i ∈ del <-> i ∈ exist_files /\ (i ∈ sm_obsoleted_files summary \/ active !! i = None)).
Proof.
  intros summary active Hok. destruct (recover_ok versions exist_files Hok) as (table & G & F & del & l & A & E & Hr & Hne & Hact & _ & HF & Hdel & _).
  eexists _, _, _, _, A. split; [exact E|]. by split_and!.
Qed.

(** Recovery rebuilds the page table: every page id that an active file maps is in
    use and has the greatest address any active file maps it to; every other id up to
    the largest one is on the free list, smallest first, and no other id is. *)
Theorem recover_newest_addresses versions exist_files :
  let active := sm_active_files (apply_version_edits versions) in
  active_files_ok active ->
  exists next table delta del used free_ids,
    recover read_meta_of versions exist_files = Ok (next, table, delta, del) /\
    table_inv table used free_ids /\ StronglySorted Z.lt free_ids /\
    (forall id, id ∈ used <-> exists addr, maps_page active id addr) /\
    (forall id, id ∈ used -> exists addr, table_get id table = Ok addr /\ maps_page active id addr /\
       forall addr', maps_page active id addr' -> addr' <= addr).
Proof.
  intros active Hok. destruct (recover_ok versions exist_files Hok) as (table & G & F & del & l & A & E & _ & _ & _ & _ & _ & _ & Hinv & Hs & Hget).
  fold active in Hinv, Hget. eexists _, _, _, _, _, l. split; [exact E|]. split; [exact Hinv|]. split; [done|].
  set (entries := concat (file_tables <$> sorted_files active)) in *. pose proof (entries_ok active Hok) as He. fold entries in He.
  assert (Hmap : forall id addr, maps_page active id addr <-> (addr, id) ∈ entries).
  { intros id addr. symmetry. by apply recovered_tables. }
  split.
  - intros id. rewrite elem_of_dom, newest_dom, lookup_empty by done. setoid_rewrite Hmap. split; [intros [[? ?]|?]; done|by right].
  - intros id [addr Haddr]%elem_of_dom. exists addr. split; [by apply Hget|].
    destruct (newest_spec entries ∅ id) as (H1 & H2 & H3). rewrite Haddr, lookup_empty in *. cbn [default] in *.
    setoid_rewrite Hmap. split; [|done]. destruct H1 as [H1|H1]; [|done]. exfalso.
    assert (Hd : is_Some (foldl newest ∅ entries !! id)) by eauto. apply newest_dom in Hd as [[? Hd]|[a Ha]]; [done| |done].
    rewrite Forall_forall in He. destruct (He _ Ha) as [_ Hpos]. specialize (H3 a Ha). cbn in Hpos. lia.
Qed.
End files.

(** ** Checking concrete files *)

(** [holder_ok] as a decidable condition. *)
Definition group_meta_check (f g : Z) (m : PageGroupMeta) : Prop :=
  let pages := pgm_page_meta_map m in
  map_Forall (λ a x, (0 <= pm_index x < total_pages m /\ 0 <= ph_size (pm_handle x)) /\
    map_Forall (λ b y, pm_index x = pm_index y -> a = b) pages) pages /\
  total_pages m < 2 ^ 32 /\ handles_size (pm_handle <$> pages) < 2 ^ 64 /\ pgm_file_id m = f /\ pgm_group_id m = g /\
  total_page_size m = handles_size (pm_handle <$> pages).
Definition holder_check (f : Z) (h : FileMetaHolder) : Prop :=
  map_Forall (group_meta_check f) (fh_page_groups h) /\ fm_file_id (fh_file_meta h) = f /\
  fm_page_groups (fh_file_meta h) = fh_page_groups h /\
  fm_referenced_groups (fh_file_meta h) = list_to_set (addr_group <$> fh_dealloc_pages h).
#[global] Instance group_meta_check_dec f g m : Decision (group_meta_check f g m).
Proof. unfold group_meta_check. solve_decision. Defined.
#[global] Instance holder_check_dec f h : Decision (holder_check f h).
Proof. unfold holder_check. solve_decision. Defined.
#[global] Instance entry_ok_dec e : Decision (entry_ok e).
Proof. unfold entry_ok. solve_decision. Defined.

Lemma holder_check_ok f h : holder_check f h -> holder_ok f h.
Proof.
  intros (Hg & Hf & Hm & Hr). split; [|done..]. intros g m Hgm. destruct (Hg g m Hgm) as (Hp & H32 & H64 & Ef & Eg & Es).
  split; [|done..]. split; [intros a x Ha; by apply (Hp a x Ha)| |intros a x Ha; by apply (Hp a x Ha)|done|done].
  intros a b x y Ha Hb Heq. destruct (Hp a x Ha) as [_ Hinj]. by apply (Hinj b y Hb).
Qed.

(** The metadata of a group with pages of 16 bytes. *)
Definition sample_pages (f g : Z) (pages : list Z) : PageGroupMeta :=
  mkPageGroupMeta g f 0 (16 * length pages) (16 * length pages + 64)
    (list_to_map (imap (λ i a, (a, mkPageMeta i (mkPageInfo 0 0 16) (mkPageHandle (16 * i) 16))) pages)).
Definition sample_file (f : Z) (groups : list (Z * list Z)) (tables : list (Z * list (Z * Z))) (dealloc : list Z) : FileMetaHolder :=
  let metas := list_to_map ((λ e, (e.1, sample_pages f e.1 e.2)) <$> groups) in
  mkFileMetaHolder (mkFileMeta f 4096 4096 CHECKSUM_NONE COMPRESSION_NONE (list_to_set (addr_group <$> dealloc)) metas) metas (list_to_map tables) dealloc.
Definition sample_addr (g off : Z) : Z := g * 2 ^ 32 + off.
(** Two files; the second has a newer address of the page 7 and deallocates the old one. *)
Definition sample_disk : gmap Z FileMetaHolder := list_to_map [
  (1, sample_file 1 [(1, [16; 64])] [(1, [(sample_addr 1 16, 7); (sample_addr 1 64, 9)])] []);
  (2, sample_file 2 [(2, [16])] [(2, [(sample_addr 2 16, 7)])] [sample_addr 1 16])].
Definition sample_edits : list VersionEdit := [
  mkVersionEdit (Some (mkStreamEdit [mkNewFile 1 1 1; mkNewFile 3 3 3] []));
  mkVersionEdit None;
  mkVersionEdit (Some (mkStreamEdit [mkNewFile 2 2 2] [3]))].

(** The active files can be read and share no group: decided for a concrete disk. *)
Definition active_files_check (disk : gmap Z FileMetaHolder) (active : gmap Z NewFile) : Prop :=
  map_Forall (λ i nf, nf_id nf = i /\ match disk !! i with
    | Some h => holder_check i h /\ Forall entry_ok (concat (map_to_list (fh_page_tables h)).*2) /\
        map_Forall (λ j _, match disk !! j with
          | Some h' => i = j \/ dom (fh_page_groups h) ## dom (fh_page_groups h')
          | None => True
          end) active
    | None => False
    end) active.
#[global] Instance active_files_check_dec disk active : Decision (active_files_check disk active).
Proof.
  unfold active_files_check. apply map_Forall_dec. intros i nf. apply and_dec; [solve_decision|].
  destruct (disk !! i) as [h|]; [|apply _]. do 2 (apply and_dec; [apply _|]). apply map_Forall_dec. intros j _.
  destruct (disk !! j); apply _.
Defined.
Lemma active_files_check_ok disk active : active_files_check disk active -> active_files_ok disk active.
Proof.
  intros Hc. split.
  - intros i nf Hi. destruct (Hc i nf Hi) as [E Hd]. destruct (disk !! i) as [h|]; [|done]. destruct Hd as (Hh & He & _).
    split; [done|]. exists h. split; [done|]. split; [by apply holder_check_ok|done].
  - intros i j hi hj g [nf Hi] [nf' Hj] Ehi Ehj [m Hm] [m' Hm']. destruct (Hc i nf Hi) as [_ Hd]. rewrite Ehi in Hd.
    destruct Hd as (_ & _ & Hd). specialize (Hd j nf' Hj). cbn in Hd. rewrite Ehj in Hd. destruct Hd as [?|Hd]; [done|].
    exfalso. apply (Hd g); apply elem_of_dom; eauto.
Qed.

Lemma not_deallocated_check (disk : gmap Z FileMetaHolder) active g a :
  map_Forall (λ _ h, ~ names_page (fh_dealloc_pages h) g a) disk -> ~ deallocated disk active g a.
Proof. intros Hd (i & h & _ & Hh & Hn). by apply (Hd i h Hh). Qed.

Lemma sample_files_ok : active_files_ok sample_disk (sm_active_files (apply_version_edits sample_edits)).
Proof. apply active_files_check_ok. apply (bool_decide_unpack _). by vm_compute. Qed.

(** The old address of page 7 is gone, page 9 is kept, the orphan file 5 and the
    obsoleted file 3 are deleted. *)
Lemma recover_active_pages_witness :
  exists next table delta del A,
    recover (read_meta_of sample_disk) sample_edits [1; 2; 3; 5] = Ok (next, table, delta, del) /\
    groups_repr (dv_page_groups delta) A /\
    active_at A 1 16 = None /\ active_at A 1 64 = Some (mkPageHandle 16 16) /\ 3 ∈ del /\ 5 ∈ del /\ 1 ∉ del.
Proof.
  destruct (recover_active_pages sample_disk sample_edits [1; 2; 3; 5] sample_files_ok) as (next & table & delta & del & A & E & Hr & _ & Hact & _ & Hdel).
  exists next, table, delta, del, A. split; [exact E|]. split; [exact Hr|]. clear E Hr. split_and!.
  - apply eq_None_not_Some. intros [h Hh]. apply Hact in Hh as [_ []]. exists 2, (sample_file 2 [(2, [16])] [(2, [(sample_addr 2 16, 7)])] [sample_addr 1 16]).
    split; [by eexists|]. split; [vm_compute; reflexivity|]. apply (bool_decide_unpack _). by vm_compute.
  - apply Hact. split.
    + exists (sample_pages 1 1 [16; 64]), (mkPageMeta 1 (mkPageInfo 0 0 16) (mkPageHandle 16 16)).
      split; [|split; vm_compute; reflexivity].
      exists 1, (sample_file 1 [(1, [16; 64])] [(1, [(sample_addr 1 16, 7); (sample_addr 1 64, 9)])] []).
      split; [by eexists|]. split; vm_compute; reflexivity.
    + apply not_deallocated_check. apply (bool_decide_unpack _). by vm_compute.
  - apply Hdel. split; [apply (bool_decide_unpack _); by vm_compute|]. left. apply (bool_decide_unpack _). by vm_compute.
  - apply Hdel. split; [apply (bool_decide_unpack _); by vm_compute|]. right. by vm_compute.
  - intros [_ [H1|H1]]%Hdel; [apply (bool_decide_pack _) in H1|]; by vm_compute in H1.
Defined.

(** Page 7 is at its newer address, 8 is free. *)
Lemma recover_newest_addresses_witness :
  exists next table delta del used free_ids,
    recover (read_meta_of sample_disk) sample_edits [1; 2; 3; 5] = Ok (next, table, delta, del) /\ table_inv table used free_ids /\
    table_get 7 table = Ok (sample_addr 2 16) /\ 8 ∉ used.
Proof.
  destruct (recover_newest_addresses sample_disk sample_edits [1; 2; 3; 5] sample_files_ok) as (next & table & delta & del & used & l & E & Hi & _ & Hu & Hn).
  set (active := sm_active_files _) in Hu, Hn. exists next, table, delta, del, used, l. split; [exact E|]. split; [exact Hi|].
  assert (Hm : forall id addr, maps_page sample_disk active id addr -> (addr, id) ∈ [(sample_addr 1 16, 7); (sample_addr 1 64, 9); (sample_addr 2 16, 7)]).
  { intros id addr (i & h & g & t & _ & Hh & Ht & Hin). unfold sample_disk in Hh.
    apply elem_of_list_to_map_2 in Hh. apply elem_of_cons in Hh as [[= -> ->]|Hh%list_elem_of_singleton].
    - apply elem_of_list_to_map_2, list_elem_of_singleton in Ht. injection Ht as -> ->.
      apply elem_of_cons in Hin as [->|Hin]; [by left|apply list_elem_of_singleton in Hin as ->; right; by left].
    - injection Hh as -> ->. apply elem_of_list_to_map_2, list_elem_of_singleton in Ht. injection Ht as -> ->.
      apply list_elem_of_singleton in Hin as ->. do 2 right. by left. }
  assert (H7 : maps_page sample_disk active 7 (sample_addr 2 16)).
  { exists 2, (sample_file 2 [(2, [16])] [(2, [(sample_addr 2 16, 7)])] [sample_addr 1 16]), 2, [(sample_addr 2 16, 7)].
    split; [by eexists|]. split; [done|]. split; [done|]. by left. }
  split.
  - destruct (Hn 7) as (addr & Hg & Ha & Hmax); [apply Hu; eauto|]. rewrite Hg. f_equal. specialize (Hmax _ H7).
    apply Hm in Ha. clear -Ha Hmax. repeat apply elem_of_cons in Ha as [[= ->]|Ha]; [..|by apply not_elem_of_nil in Ha]; [|done].
    exfalso. revert Hmax. by vm_compute.
  - intros (addr & Ha%Hm)%Hu. repeat apply elem_of_cons in Ha as [[=]|Ha]; by apply not_elem_of_nil in Ha.
Defined.
