(* ===== verification/StoreLog.v ===== *)
(** * The files of a running store

    The background jobs together: a store is the chain of versions, the log of the
    manifest, the files on the disk and a compaction that may be running. The steps are
    the jobs of [page_store/jobs] and a restart, built from [flush_delta],
    [compact_delta], [version_snapshot], [clean_obsoleted_files] and [recover]; flushes may
    happen while a compaction runs. This file has the steps, the abstract state, and
    the invariant of the files on the disk. *)

From stdpp Require Import base numbers list sorting gmap.
From Stdlib Require Import ZArith Lia.
From S2P Require Import Prelude BasePage Iter Bitmap BTree PageGroup Env FileBuilder MapFile FileReader Directory Manifest PageTable WriteBuffer Version Flush.
From S2P Require Import FlushLaws Reclaim Recover RecoverLaws.

(** ** The abstract state *)

(** The live pages, from address to page id, and the greatest address each page id was
    ever written at. *)
Record Pages := mkPages { pages_live : gmap Z Z; pages_newest : gmap Z Z }.

(** A flush removes the pages it deallocates and adds its own. *)
Definition flush_live (P : Pages) (dealloc_pages : list Z) (new : list (Z * Z)) : Pages :=
  mkPages (list_to_map new ∪ base.filter (λ e, e.1 ∉ dealloc_pages) (pages_live P)) (foldl newest (pages_newest P) new).

(** ** The store *)

Record Compaction := mkCompaction {
  cp_file : Z;
  cp_victims : gset Z;
  cp_groups : gmap Z PageGroup;
  cp_info : FileInfo;
}.
Record Store := mkStore {
  st_versions : list Version;
  st_log : list VersionEdit;
  st_disk : gmap Z FileMetaHolder;
  st_next_file_id : Z;
  st_compaction : option Compaction;
}.
Definition store_new : Store := mkStore [with_buffer_set 1 delta_default] [] ∅ 1 None.

Definition files_of (log : list VersionEdit) : gmap Z NewFile := sm_active_files (apply_version_edits log).

(** The metadata a version has in memory and the metadata that is read from the file
    agree on where the pages are, and on what the file holds and references. *)
Definition same_handles (m m' : PageGroupMeta) : Prop :=
  pm_handle <$> pgm_page_meta_map m = pm_handle <$> pgm_page_meta_map m'.
Definition meta_like (m m' : FileMeta) : Prop :=
  fm_file_id m = fm_file_id m' /\ fm_referenced_groups m = fm_referenced_groups m' /\ dom (fm_page_groups m) = dom (fm_page_groups m').

Lemma same_handles_page m m' a : same_handles m m' -> is_Some (pgm_page_meta_map m !! a) <-> is_Some (pgm_page_meta_map m' !! a).
Proof. intros E. rewrite <- (fmap_is_Some pm_handle (pgm_page_meta_map m !! a)), <- (fmap_is_Some pm_handle (pgm_page_meta_map m' !! a)), <- !lookup_fmap. by rewrite E. Qed.

(** The file of a flush: the group [g] with the pages [new], and the deallocations;
    [m] is the metadata in memory. *)
Record flushed (f g : Z) (dealloc_pages : list Z) (new : list (Z * Z)) (m : PageGroupMeta) (h : FileMetaHolder) : Prop := {
  fl_ok : holder_ok f h;
  fl_meta : group_meta_ok f g m;
  fl_groups : exists mh, fh_page_groups h = {[g := mh]} /\ same_handles m mh;
  fl_tables : fh_page_tables h = {[g := new]};
  fl_entries : Forall entry_ok new;
  fl_nodup : NoDup new.*1;
  fl_pages : forall addr id, (addr, id) ∈ new -> fits 64 addr /\ addr_group addr = g /\ is_Some (pgm_page_meta_map m !! wrap32 addr);
  fl_dealloc : forall x, x ∈ fh_dealloc_pages h <-> x ∈ dealloc_pages;
  fl_older : forall x, x ∈ dealloc_pages -> fits 64 x /\ addr_group x < g;
}.

(** The file of a compaction: the groups of the victims that exist in the version, with
    their active pages, and none but the deallocations of the victims; [groups] are the
    groups in memory. *)
Record compacted (v : Version) (disk : gmap Z FileMetaHolder) (victims : gset Z) (f : Z) (groups : gmap Z PageGroup) (h : FileMetaHolder) : Prop := {
  cf_ok : holder_ok f h;
  cf_entries : Forall entry_ok (concat (map_to_list (fh_page_tables h)).*2);
  cf_memory : forall g pg, groups !! g = Some pg -> exists m mh, pg = page_group_new m /\ group_meta_ok f g m /\
    fh_page_groups h !! g = Some mh /\ same_handles m mh;
  cf_dom : forall g, is_Some (fh_page_groups h !! g) -> is_Some (groups !! g);
  cf_groups : forall g, is_Some (fh_page_groups h !! g) <->
    is_Some (v_page_groups v !! g) /\ exists i hi, i ∈ victims /\ disk !! i = Some hi /\ is_Some (fh_page_groups hi !! g);
  cf_pages : forall g m pg act a, fh_page_groups h !! g = Some m -> v_page_groups v !! g = Some pg -> group_repr pg act ->
    is_Some (pgm_page_meta_map m !! a) <-> is_Some (act !! a);
  cf_tables : forall g t addr id, fh_page_tables h !! g = Some t -> (addr, id) ∈ t ->
    exists i hi ti, i ∈ victims /\ disk !! i = Some hi /\ fh_page_tables hi !! g = Some ti /\ (addr, id) ∈ ti;
  cf_entry : forall i hi g m ti addr id, i ∈ victims -> disk !! i = Some hi -> fh_page_tables hi !! g = Some ti -> (addr, id) ∈ ti ->
    addr_group addr = g -> fh_page_groups h !! g = Some m -> is_Some (pgm_page_meta_map m !! wrap32 addr) ->
    exists t, fh_page_tables h !! g = Some t /\ (addr, id) ∈ t;
  cf_dealloc : forall x, x ∈ fh_dealloc_pages h -> exists i hi, i ∈ victims /\ disk !! i = Some hi /\ x ∈ fh_dealloc_pages hi;
}.

Inductive store_step : Pages * Store -> Pages * Store -> Prop :=
  (** A flush writes its file, logs the edit and installs the next version. *)
  | step_flush P s versions v f now dealloc_pages new m h info edit delta :
      last (st_versions s) = Some v -> st_next_file_id s <= f -> f + 2 < 2 ^ 32 ->
      flushed f (v_first_buffer_id v) dealloc_pages new m h ->
      meta_like (fi_meta info) (fh_file_meta h) ->
      flush_delta v now (page_group_new m) info dealloc_pages = Ok (edit, delta) ->
      owner_install delta (st_versions s) = Ok versions ->
      store_step (P, s) (flush_live P dealloc_pages new,
        mkStore versions (st_log s ++ [edit]) (<[f := h]> (st_disk s)) (f + 1) (st_compaction s))
  (** A compaction of the current version writes its file. *)
  | step_compact P s v victims f h groups info :
      last (st_versions s) = Some v -> st_next_file_id s <= f -> f + 2 < 2 ^ 32 -> st_compaction s = None ->
      (forall i, i ∈ victims -> is_Some (v_files v !! i)) -> compacted v (st_disk s) victims f groups h ->
      meta_like (fi_meta info) (fh_file_meta h) ->
      store_step (P, s) (P, mkStore (st_versions s) (st_log s) (<[f := h]> (st_disk s)) (f + 1)
        (Some (mkCompaction f victims groups info)))
  (** It logs its edit and installs the next version, on top of the version that is
      current by then. *)
  | step_compacted P s v c versions :
      last (st_versions s) = Some v -> st_compaction s = Some c ->
      owner_install (compact_delta v (cp_file c) (cp_info c) (cp_groups c) (cp_victims c)) (st_versions s) = Ok versions ->
      store_step (P, s) (P, mkStore versions (st_log s ++ [make_compact_version_edit (cp_info c) (cp_victims c)]) (st_disk s)
        (st_next_file_id s) None)
  (** The manifest moves to a new file, which starts with a snapshot. *)
  | step_roll P s v :
      last (st_versions s) = Some v ->
      store_step (P, s) (P, mkStore (st_versions s) [version_snapshot v] (st_disk s) (st_next_file_id s) (st_compaction s))
  (** The files some version obsoletes are removed. *)
  | step_cleanup P s v disk :
      v ∈ st_versions s -> clean_obsoleted_files v (v_obsoleted_files v) (st_disk s) = Ok disk ->
      store_step (P, s) (P, mkStore (st_versions s) (st_log s) disk (st_next_file_id s) (st_compaction s))
  (** A crash and a restart. *)
  | step_restart P s exist_files next table delta del :
      recover (read_meta_of (st_disk s)) (st_log s) exist_files = Ok (next, table, delta, del) ->
      store_step (P, s) (P, mkStore [with_buffer_set next delta] (st_log s) (base.filter (λ e, e.1 ∉ del) (st_disk s)) next None).

Inductive reachable : Pages -> Store -> Prop :=
  | reachable_new : reachable (mkPages ∅ ∅) store_new
  | reachable_step P s P' s' : reachable P s -> store_step (P, s) (P', s') -> reachable P' s'.

(** ** The files on the disk *)

Lemma addr_eq x y : fits 64 x -> fits 64 y -> addr_group x = addr_group y -> wrap32 x = wrap32 y -> x = y.
Proof.
  unfold fits, addr_group, wrap32, wrap. rewrite !Z.shiftr_div_pow2 by lia. change (2 ^ 32) with 4294967296. change (2 ^ 64) with 18446744073709551616.
  intros Hx Hy. rewrite !(Z.mod_small (_ / _)) by (split; [apply Z.div_pos|apply Z.div_lt_upper_bound]; lia).
  intros E1 E2. rewrite (Z.div_mod x 4294967296), (Z.div_mod y 4294967296) by lia. congruence.
Qed.
Lemma names_addr l x : Forall (fits 64) l -> fits 64 x -> names_page l (addr_group x) (wrap32 x) -> x ∈ l.
Proof.
  intros Hl Hx (y & Hy & E1 & E2)%Exists_exists. rewrite Forall_forall in Hl. by rewrite (addr_eq x y) by auto.
Qed.

(** A file of [files] holds the page and maps it to the id. *)
Definition holds_page (disk : gmap Z FileMetaHolder) (files : gmap Z NewFile) (addr id : Z) : Prop :=
  exists i h m t, is_Some (files !! i) /\ disk !! i = Some h /\ fh_page_groups h !! addr_group addr = Some m /\
    is_Some (pgm_page_meta_map m !! wrap32 addr) /\ fh_page_tables h !! addr_group addr = Some t /\ (addr, id) ∈ t.

(** The files hold every live page and deallocate none; nothing is newer than what was
    written; all groups are older than [bound]. *)
Record disk_inv (P : Pages) (bound : Z) (disk : gmap Z FileMetaHolder) (files : gmap Z NewFile) : Prop := {
  di_ok : active_files_ok disk files;
  di_groups : forall i h g, is_Some (files !! i) -> disk !! i = Some h -> is_Some (fh_page_groups h !! g) -> g < bound /\ g <= i;
  di_deallocs : forall i h x, is_Some (files !! i) -> disk !! i = Some h -> x ∈ fh_dealloc_pages h ->
    fits 64 x /\ addr_group x < bound /\ addr_group x <= i;
  di_live : forall addr id, pages_live P !! addr = Some id -> fits 64 addr /\ holds_page disk files addr id;
  di_kept : forall addr id i h, pages_live P !! addr = Some id -> is_Some (files !! i) -> disk !! i = Some h -> addr ∉ fh_dealloc_pages h;
  di_newest : forall addr id, maps_page disk files id addr -> exists n, pages_newest P !! id = Some n /\ addr <= n;
}.

(** Only the names of the files matter. *)
Lemma disk_inv_ext P bound disk files files' :
  (forall i nf, files' !! i = Some nf -> nf_id nf = i) -> (forall i, is_Some (files' !! i) <-> is_Some (files !! i)) ->
  disk_inv P bound disk files -> disk_inv P bound disk files'.
Proof.
  intros Hid Hd [Hok Hg Hx Hl Hk Hn]. split.
  - split.
    + intros i nf Hi. split; [by apply Hid|]. destruct (Hd i) as [[nf' Hi'] _]; [eauto|]. by destruct (ao_file _ _ Hok i nf' Hi') as [_ ?].
    + intros i j hi hj g Hi Hj. apply (ao_unique _ _ Hok); by apply Hd.
  - intros i h g Hi. by apply Hg, Hd.
  - intros i h x Hi. by apply Hx, Hd.
  - intros addr id Ha. destruct (Hl _ _ Ha) as [Hf (i & h & m & t & Hi & Hrest)]. split; [done|]. exists i, h, m, t.
    split; [by apply Hd|done].
  - intros addr id i h Ha Hi. apply (Hk _ id); [done|by apply Hd].
  - intros addr id (i & h & g & t & Hi & Hrest). apply Hn. exists i, h, g, t. split; [by apply Hd|done].
Qed.
(** Files that are not in use may come and go. *)
Lemma disk_inv_disk P bound disk disk' files :
  (forall i, is_Some (files !! i) -> disk' !! i = disk !! i) -> disk_inv P bound disk files -> disk_inv P bound disk' files.
Proof.
  intros Hd [Hok Hg Hx Hl Hk Hn]. split.
  - split.
    + intros i nf Hi. rewrite Hd by eauto. by apply (ao_file _ _ Hok).
    + intros i j hi hj g Hi Hj. rewrite !Hd by done. by apply (ao_unique _ _ Hok).
  - intros i h g Hi. rewrite Hd by done. by apply Hg.
  - intros i h x Hi. rewrite Hd by done. by apply Hx.
  - intros addr id Ha. destruct (Hl _ _ Ha) as [Hf (i & h & m & t & Hi & Hrest)]. split; [done|]. exists i, h, m, t.
    rewrite Hd by done. done.
  - intros addr id i h Ha Hi. rewrite Hd by done. by apply (Hk _ id).
  - intros addr id (i & h & g & t & Hi & Hrest). apply Hn. exists i, h, g, t. rewrite <- Hd by done. done.
Qed.
Lemma disk_inv_bound P bound bound' disk files :
  (forall i, is_Some (files !! i) -> i < bound') -> disk_inv P bound disk files -> disk_inv P bound' disk files.
Proof.
  intros Hb [Hok Hg Hx Hl Hk Hn]. split; [done| | |done..].
  - intros i h g Hi Hh Hs. destruct (Hg i h g) as [_ ?]; [done..|]. specialize (Hb i Hi). lia.
  - intros i h x Hi Hh Hs. destruct (Hx i h x) as (? & _ & ?); [done..|]. specialize (Hb i Hi). split; [done|lia].
Qed.

(** ** A flush *)

Section flush.
Context (P : Pages) (bound : Z) (disk : gmap Z FileMetaHolder) (files files' : gmap Z NewFile).
Context (f : Z) (dealloc_pages : list Z) (new : list (Z * Z)) (m : PageGroupMeta) (h : FileMetaHolder) (nf : NewFile) (obsoleted : gset Z).
Context (Hinv : disk_inv P bound disk files) (Hnew : flushed f bound dealloc_pages new m h).
Context (Hf : files !! f = None) (Hbf : bound <= f) (Hid : nf_id nf = f).
Context (Hfiles : forall i, files' !! i = if decide (i = f) then Some nf else if decide (i ∈ obsoleted) then None else files !! i).
(** No obsoleted file has a group with a page that stays live. *)
Context (Hobs : forall i hi addr id, i ∈ obsoleted -> is_Some (files !! i) -> disk !! i = Some hi -> pages_live P !! addr = Some id ->
  addr ∉ dealloc_pages -> fh_page_groups hi !! addr_group addr = None).

Lemma flush_file i : is_Some (files' !! i) -> i = f \/ (i <> f /\ is_Some (files !! i) /\ (i ∉ obsoleted) /\ (<[f := h]> disk) !! i = disk !! i).
Proof using Hfiles.
  rewrite Hfiles. case_decide; [by left|]. case_decide; [by intros [??]|]. intros ?. right. by rewrite lookup_insert_ne.
Qed.
Lemma flush_file_new : is_Some (files' !! f) /\ (<[f := h]> disk) !! f = Some h.
Proof using Hfiles. rewrite Hfiles, decide_True, lookup_insert_eq by done. eauto. Qed.

Lemma flush_live_pages addr id : pages_live (flush_live P dealloc_pages new) !! addr = Some id ->
  (addr, id) ∈ new \/ (pages_live P !! addr = Some id /\ addr ∉ dealloc_pages).
Proof using.
  unfold flush_live. cbn [pages_live]. intros [Ha|[_ Ha]]%lookup_union_Some_raw.
  - left. by apply elem_of_list_to_map_2.
  - right. by apply map_lookup_filter_Some in Ha.
Qed.

Lemma disk_inv_flush : disk_inv (flush_live P dealloc_pages new) (bound + 1) (<[f := h]> disk) files'.
Proof using Hinv Hnew Hf Hbf Hid Hfiles Hobs.
  destruct flush_file_new as [Hfn Hdn]. destruct Hnew as [Hok _ (mh & Hgr & Hsh) Htb He Hnd Hpg Hdl Hold].
  assert (Hgs : forall g, is_Some (fh_page_groups h !! g) -> g = bound).
  { intros g [? Hg]. rewrite Hgr in Hg. by apply lookup_singleton_Some in Hg as [<- _]. }
  split; [split| | | | |].
  - intros i nf' Hi. destruct (flush_file i) as [->|(Hne & [nf0 Hi0] & Ho & Hd)]; [eauto| |].
    + rewrite Hfiles, decide_True in Hi by done. injection Hi as <-. split; [done|]. exists h. split_and!; [done..|].
      rewrite Htb, map_to_list_singleton. cbn. by rewrite app_nil_r.
    + rewrite Hd. rewrite Hfiles, !decide_False in Hi by done. by apply (ao_file _ _ (di_ok _ _ _ _ Hinv)).
  - intros i j hi hj g Hi Hj Ehi Ehj Hgi Hgj.
    destruct (flush_file i Hi) as [->|(Hne & Hi0 & Ho & Hd)], (flush_file j Hj) as [->|(Hne' & Hj0 & Ho' & Hd')]; [done|..].
    + rewrite Hd' in Ehj. assert (hi = h) as -> by congruence. apply Hgs in Hgi as ->. destruct (di_groups _ _ _ _ Hinv j hj bound) as [? _]; [done..|lia].
    + rewrite Hd in Ehi. assert (hj = h) as -> by congruence. apply Hgs in Hgj as ->. destruct (di_groups _ _ _ _ Hinv i hi bound) as [? _]; [done..|lia].
    + rewrite Hd in Ehi. rewrite Hd' in Ehj. by apply (ao_unique _ _ (di_ok _ _ _ _ Hinv) i j hi hj g).
  - intros i hi g Hi Ehi Hg. destruct (flush_file i Hi) as [->|(_ & Hi0 & _ & Hd)].
    + assert (hi = h) as -> by congruence. apply Hgs in Hg as ->. lia.
    + rewrite Hd in Ehi. destruct (di_groups _ _ _ _ Hinv i hi g) as [? ?]; [done..|lia].
  - intros i hi x Hi Ehi Hx. destruct (flush_file i Hi) as [->|(_ & Hi0 & _ & Hd)].
    + assert (hi = h) as -> by congruence. destruct (Hold x) as [? ?]; [by apply Hdl|]. split; [done|lia].
    + rewrite Hd in Ehi. destruct (di_deallocs _ _ _ _ Hinv i hi x) as (? & ? & ?); [done..|]. split; [done|lia].
  - intros addr id [Ha|[Ha Hna]]%flush_live_pages.
    + destruct (Hpg _ _ Ha) as (Hfit & Eg & Hp). split; [done|]. exists f, h, mh, new.
      rewrite Eg, Hgr, Htb, !lookup_singleton_eq. apply (same_handles_page m mh) in Hp; done.
    + destruct (di_live _ _ _ _ Hinv addr id Ha) as [Hfit (i & hi & mi & t & Hi & Ehi & Hg & Hrest)]. split; [done|]. exists i, hi, mi, t.
      assert (i <> f) by (intros ->; destruct Hi; congruence). assert (i ∉ obsoleted).
      { intros Hio. by rewrite (Hobs i hi addr id) in Hg. }
      rewrite Hfiles, !decide_False, lookup_insert_ne by done. done.
  - intros addr id i hi Hl Hi Ehi Hx. apply flush_live_pages in Hl as [Ha|[Ha Hna]].
    + destruct (Hpg _ _ Ha) as (Hfit & Eg & _). destruct (flush_file i Hi) as [->|(_ & Hi0 & _ & Hd)].
      * assert (hi = h) as -> by congruence. apply Hdl, Hold in Hx as [_ ?]. lia.
      * rewrite Hd in Ehi. destruct (di_deallocs _ _ _ _ Hinv i hi addr) as (_ & ? & _); [done..|]. lia.
    + destruct (flush_file i Hi) as [->|(_ & Hi0 & _ & Hd)].
      * assert (hi = h) as -> by congruence. by apply Hdl in Hx.
      * rewrite Hd in Ehi. by apply (di_kept _ _ _ _ Hinv addr id i hi).
  - intros addr id (i & hi & g & t & Hi & Ehi & Hg & Hin). cbn [flush_live pages_newest].
    destruct (newest_spec new (pages_newest P) id) as (_ & Hge & Hmax).
    assert (Hdom := proj2 (newest_dom new (pages_newest P) id He)).
    destruct (flush_file i Hi) as [->|(_ & Hi0 & _ & Hd)].
    + assert (hi = h) as -> by congruence. rewrite Htb in Hg. apply lookup_singleton_Some in Hg as [_ <-].
      destruct Hdom as [n Hn]; [right; eauto|]. exists n. split; [done|]. specialize (Hmax addr Hin). by rewrite Hn in Hmax.
    + rewrite Hd in Ehi. destruct (di_newest _ _ _ _ Hinv addr id) as (n0 & Hn0 & Hle); [exists i, hi, g, t; done|].
      destruct Hdom as [n Hn]; [left; eauto|]. exists n. split; [done|]. rewrite Hn, Hn0 in Hge. cbn in Hge. lia.
Qed.
End flush.

(** ** A compaction *)

(** The files once the compaction is installed. *)
Definition compacted_files (files : gmap Z NewFile) (victims : gset Z) (nf : NewFile) : gmap Z NewFile :=
  <[nf_id nf := nf]> (base.filter (λ e, e.1 ∉ victims) files).

Lemma compacted_files_lookup files victims nf i :
  compacted_files files victims nf !! i = if decide (i = nf_id nf) then Some nf else if decide (i ∈ victims) then None else files !! i.
Proof.
  unfold compacted_files. case_decide as E; [subst; by rewrite lookup_insert_eq|]. rewrite lookup_insert_ne by done.
  rewrite map_lookup_filter. destruct (files !! i) as [nf'|]; cbn; [|by case_decide].
  case_decide; [by rewrite option_guard_False by tauto|by rewrite option_guard_True].
Qed.

Section compact.
Context (P : Pages) (bound : Z) (disk : gmap Z FileMetaHolder) (files : gmap Z NewFile).
Context (v : Version) (A : Active) (victims : gset Z) (f : Z) (groups : gmap Z PageGroup) (h : FileMetaHolder) (nf : NewFile).
Context (Hinv : disk_inv P bound disk files) (Hc : compacted v disk victims f groups h) (Hid : nf_id nf = f) (Hf : files !! f = None) (Hbf : bound <= f).
Context (Hvictims : forall i, i ∈ victims -> is_Some (files !! i)).
Context (Hr : groups_repr (v_page_groups v) A).
Context (Hact : forall addr id, pages_live P !! addr = Some id -> is_Some (active_at A (addr_group addr) (wrap32 addr))).

Lemma compact_file_case i : is_Some (compacted_files files victims nf !! i) ->
  i = f \/ (i <> f /\ is_Some (files !! i) /\ (i ∉ victims) /\ (<[f := h]> disk) !! i = disk !! i).
Proof using Hid.
  rewrite compacted_files_lookup, Hid. case_decide; [by left|]. case_decide; [by intros [??]|]. intros ?. right. by rewrite lookup_insert_ne.
Qed.

(** A group of the new file was in a victim, so in no file that stays. *)
Lemma compact_unique i hi g : is_Some (files !! i) -> i ∉ victims -> disk !! i = Some hi -> is_Some (fh_page_groups hi !! g) ->
  is_Some (fh_page_groups h !! g) -> False.
Proof using Hinv Hc Hvictims.
  intros Hi Hni Ehi Hgi Hg. apply (cf_groups _ _ _ _ _ _ Hc) in Hg as (_ & j & hj & Hj & Ehj & Hgj).
  assert (i = j) as -> by (apply (ao_unique _ _ (di_ok _ _ _ _ Hinv) i j hi hj g); [done|by apply Hvictims|done..]). done.
Qed.

(** A live page of a victim is in the new file. *)
Lemma compact_moved addr id i hi mi t :
  pages_live P !! addr = Some id -> i ∈ victims -> disk !! i = Some hi -> fh_page_groups hi !! addr_group addr = Some mi ->
  fh_page_tables hi !! addr_group addr = Some t -> (addr, id) ∈ t ->
  exists m t', fh_page_groups h !! addr_group addr = Some m /\ is_Some (pgm_page_meta_map m !! wrap32 addr) /\
    fh_page_tables h !! addr_group addr = Some t' /\ (addr, id) ∈ t'.
Proof using Hc Hr Hact.
  intros Ha Hi Ehi Hg Ht Hin. destruct (Hact _ _ Ha) as [ph Hph]. unfold active_at in Hph.
  destruct (groups_repr_lookup _ _ (addr_group addr) Hr) as [(pg & act & Epg & Ea & Hrep)|[_ Ea]]; rewrite Ea in Hph; [|done]. cbn in Hph.
  destruct (proj2 (cf_groups _ _ _ _ _ _ Hc (addr_group addr))) as [m Hm]; [eauto 10|].
  assert (Hp : is_Some (pgm_page_meta_map m !! wrap32 addr)) by (eapply (cf_pages _ _ _ _ _ _ Hc); eauto).
  destruct (cf_entry _ _ _ _ _ _ Hc i hi _ m t addr id Hi Ehi Ht Hin eq_refl Hm Hp) as (t' & Ht' & Hin'). eauto 10.
Qed.

Lemma disk_inv_compact : disk_inv P bound (<[f := h]> disk) (compacted_files files victims nf).
Proof using Hinv Hc Hid Hf Hbf Hvictims Hr Hact.
  assert (Hdn : (<[f := h]> disk) !! f = Some h) by apply lookup_insert_eq.
  assert (Hfn : compacted_files files victims nf !! f = Some nf) by (rewrite compacted_files_lookup, Hid; by rewrite decide_True).
  split; [split| | | | |].
  - intros i nf' Hi. destruct (compact_file_case i) as [->|(Hne & _ & Ho & Hd)]; [eauto| |].
    + rewrite Hfn in Hi. injection Hi as <-. split; [done|]. exists h. split_and!; [done|apply Hc|apply Hc].
    + rewrite compacted_files_lookup, Hid, !decide_False in Hi by done. rewrite Hd. by apply (ao_file _ _ (di_ok _ _ _ _ Hinv)).
  - intros i j hi hj g Hi Hj Ehi Ehj Hgi Hgj.
    destruct (compact_file_case i Hi) as [->|(Hne & Hi0 & Ho & Hd)], (compact_file_case j Hj) as [->|(Hne' & Hj0 & Ho' & Hd')]; [done|..].
    + rewrite Hd' in Ehj. assert (hi = h) as -> by congruence. exfalso. by apply (compact_unique j hj g).
    + rewrite Hd in Ehi. assert (hj = h) as -> by congruence. exfalso. by apply (compact_unique i hi g).
    + rewrite Hd in Ehi. rewrite Hd' in Ehj. by apply (ao_unique _ _ (di_ok _ _ _ _ Hinv) i j hi hj g).
  - intros i hi g Hi Ehi Hg. destruct (compact_file_case i Hi) as [->|(_ & Hi0 & _ & Hd)].
    + assert (hi = h) as -> by congruence. apply (cf_groups _ _ _ _ _ _ Hc) in Hg as (_ & j & hj & Hj & Ehj & Hgj).
      destruct (di_groups _ _ _ _ Hinv j hj g) as [? _]; [by apply Hvictims|done..|]. lia.
    + rewrite Hd in Ehi. by apply (di_groups _ _ _ _ Hinv i hi g).
  - intros i hi x Hi Ehi Hx. destruct (compact_file_case i Hi) as [->|(_ & Hi0 & _ & Hd)].
    + assert (hi = h) as -> by congruence. apply (cf_dealloc _ _ _ _ _ _ Hc) in Hx as (j & hj & Hj & Ehj & Hx).
      destruct (di_deallocs _ _ _ _ Hinv j hj x) as (? & ? & _); [by apply Hvictims|done..|]. split; [done|lia].
    + rewrite Hd in Ehi. by apply (di_deallocs _ _ _ _ Hinv i hi x).
  - intros addr id Ha. destruct (di_live _ _ _ _ Hinv addr id Ha) as [Hfit (i & hi & mi & t & Hi & Ehi & Hg & Hp & Ht & Hin)]. split; [done|].
    destruct (decide (i ∈ victims)) as [Hv|Hv].
    + destruct (compact_moved addr id i hi mi t) as (m & t' & Hrest); [done..|]. exists f, h, m, t'. split; [eauto|]. split; [done|exact Hrest].
    + assert (i <> f) by (intros ->; destruct Hi; congruence). exists i, hi, mi, t.
      rewrite compacted_files_lookup, Hid, !decide_False, lookup_insert_ne by done. done.
  - intros addr id i hi Ha Hi Ehi Hx. destruct (compact_file_case i Hi) as [->|(_ & Hi0 & _ & Hd)].
    + assert (hi = h) as -> by congruence. apply (cf_dealloc _ _ _ _ _ _ Hc) in Hx as (j & hj & Hj & Ehj & Hx).
      by apply (di_kept _ _ _ _ Hinv addr id j hj Ha (Hvictims j Hj)) in Ehj.
    + rewrite Hd in Ehi. by apply (di_kept _ _ _ _ Hinv addr id i hi).
  - intros addr id (i & hi & g & t & Hi & Ehi & Hg & Hin). apply (di_newest _ _ _ _ Hinv).
    destruct (compact_file_case i Hi) as [->|(_ & Hi0 & _ & Hd)].
    + assert (hi = h) as -> by congruence. destruct (cf_tables _ _ _ _ _ _ Hc g t addr id Hg Hin) as (j & hj & tj & Hj & Ehj & Htj & Hinj).
      exists j, hj, g, tj. split; [by apply Hvictims|done].
    + rewrite Hd in Ehi. exists i, hi, g, t. done.
Qed.
End compact.
