(* ===== verification/StoreSafe.v ===== *)
(** * No live page is lost

    The invariant of a running store and that every step keeps it: whatever the order
    of flushes, compactions, rolls of the manifest, clean-ups and restarts, the current
    version has every live page active, and a restart at any moment finds all of them
    again. *)

From stdpp Require Import base numbers list sorting gmap.
From Stdlib Require Import ZArith Lia.
From S2P Require Import Prelude BasePage Iter Bitmap BTree PageGroup Env FileBuilder MapFile FileReader Directory Manifest PageTable WriteBuffer Version Flush.
From S2P Require Import FlushLaws Reclaim Recover RecoverLaws StoreLog.

(** ** Replaying an edit *)

Lemma foldl_delete (l : list Z) s i :
  let s' := foldl (λ s file, mkFilesSummary (delete file (sm_active_files s)) ({[file]} ∪ sm_obsoleted_files s)) s l in
  sm_active_files s' !! i = (if decide (i ∈ l) then None else sm_active_files s !! i) /\
  (i ∈ sm_obsoleted_files s' <-> i ∈ l \/ i ∈ sm_obsoleted_files s).
Proof.
  revert s. induction l as [|x l IH]; intros s; cbn [foldl].
  { rewrite decide_False by apply not_elem_of_nil. split; [done|]. set_solver. }
  destruct (IH (mkFilesSummary (delete x (sm_active_files s)) ({[x]} ∪ sm_obsoleted_files s))) as [H1 H2].
  cbn [sm_active_files sm_obsoleted_files] in *. split; [|set_solver]. rewrite H1.
  destruct (decide (i = x)) as [->|Hne].
  - rewrite lookup_delete_eq, (decide_True (P := x ∈ x :: l)) by (by left). by case_decide.
  - rewrite lookup_delete_ne by done. apply decide_ext. set_solver.
Qed.

Definition edit_of (nf : NewFile) (deleted : gset Z) : VersionEdit := mkVersionEdit (Some (mkStreamEdit [nf] (elements deleted))).

Lemma files_of_app log nf (deleted : gset Z) i :
  nf_id nf ∉ deleted ->
  files_of (log ++ [edit_of nf deleted]) !! i =
    if decide (i = nf_id nf) then Some nf else if decide (i ∈ deleted) then None else files_of log !! i.
Proof.
  intros Hn. unfold files_of, apply_version_edits. rewrite foldl_app. cbn [foldl]. unfold apply_edit at 1, edit_of. cbn [ve_file_stream se_new_files se_deleted_files foldl].
  destruct (foldl_delete (elements deleted) (mkFilesSummary (<[nf_id nf := nf]> (files_of log)) (sm_obsoleted_files (apply_version_edits log))) i) as [E _].
  etransitivity; [exact E|]. cbn [sm_active_files]. destruct (decide (i = nf_id nf)) as [->|Hne].
  - rewrite decide_False by (by rewrite elem_of_elements). apply lookup_insert_eq.
  - rewrite lookup_insert_ne by done. apply decide_ext. apply elem_of_elements.
Qed.
Lemma obsoleted_app log nf (deleted : gset Z) i :
  i ∈ sm_obsoleted_files (apply_version_edits (log ++ [edit_of nf deleted])) <-> i ∈ deleted \/ i ∈ sm_obsoleted_files (apply_version_edits log).
Proof.
  unfold apply_version_edits. rewrite foldl_app. cbn [foldl]. unfold apply_edit at 1, edit_of. cbn [ve_file_stream se_new_files se_deleted_files foldl].
  destruct (foldl_delete (elements deleted) (mkFilesSummary (<[nf_id nf := nf]> (files_of log)) (sm_obsoleted_files (apply_version_edits log))) i) as [_ E].
  etransitivity; [exact E|]. by rewrite elem_of_elements.
Qed.

Lemma foldl_insert_files l (s : gmap Z NewFile) i :
  is_Some (foldl (λ m file, <[nf_id file := file]> m) s l !! i) <-> i ∈ nf_id <$> l \/ is_Some (s !! i).
Proof.
  revert s. induction l as [|nf l IH]; intros s; cbn [foldl]; [set_solver|]. rewrite IH, lookup_insert_is_Some', fmap_cons, elem_of_cons.
  naive_solver.
Qed.
Lemma foldl_insert_id l (s : gmap Z NewFile) i nf :
  (forall i nf, s !! i = Some nf -> nf_id nf = i) -> foldl (λ m file, <[nf_id file := file]> m) s l !! i = Some nf -> nf_id nf = i.
Proof.
  revert s. induction l as [|x l IH]; intros s Hs; cbn [foldl]; [apply Hs|]. apply IH.
  intros j y [[<- <-]|[_ Hj]]%lookup_insert_Some; [done|by apply Hs].
Qed.

(** ** The greatest id *)

Lemma max_of_ge l x : x ∈ l -> x <= max_of l.
Proof. induction 1; cbn; [lia|]. fold (max_of l). lia. Qed.
Lemma max_of_lt l n : 0 < n -> (forall x, x ∈ l -> x < n) -> 0 <= max_of l < n.
Proof.
  intros Hn Hl. induction l as [|x l IH]; cbn; [lia|]. fold (max_of l).
  assert (x < n) by (apply Hl; by left). destruct IH as [? ?]; [intros; apply Hl; by right|]. lia.
Qed.

Lemma next_file_id_ok s n :
  0 < n < 2 ^ 32 -> (forall i, is_Some (sm_active_files s !! i) -> i < n) -> (forall i, i ∈ sm_obsoleted_files s -> i < n) ->
  let next := summary_next_file_id s in
  0 < next <= n /\ (forall i, is_Some (sm_active_files s !! i) -> i < next) /\ (forall i, i ∈ sm_obsoleted_files s -> i < next).
Proof.
  intros Hn Ha Ho next. unfold next, summary_next_file_id.
  set (x := max_of (map_to_list (sm_active_files s)).*1). set (y := max_of (elements (sm_obsoleted_files s))).
  assert (Hin : forall i, i ∈ (map_to_list (sm_active_files s)).*1 <-> is_Some (sm_active_files s !! i)).
  { intros i. rewrite list_elem_of_fmap. split.
    - intros ([? nf] & -> & Hi%elem_of_map_to_list). eauto.
    - intros [nf Hi]. exists (i, nf). split; [done|]. by apply elem_of_map_to_list. }
  assert (0 <= x < n) by (apply max_of_lt; [lia|]; intros i Hi; by apply Ha, Hin).
  assert (0 <= y < n) by (apply max_of_lt; [lia|]; intros i Hi; apply Ho; by rewrite <- elem_of_elements).
  rewrite (wrap_small 32 (Z.max x y + 1)) by (unfold fits; lia). split; [lia|]. split; intros i Hi.
  - apply Hin, max_of_ge in Hi. fold x in Hi. lia.
  - assert (i <= y) by (apply max_of_ge; by apply elem_of_elements). lia.
Qed.

(** ** The invariant *)

(** The file a group of a version is in has the pages of the group at the same place. *)
Definition group_home (disk : gmap Z FileMetaHolder) (files : gmap Z NewFile) (g : Z) (m : PageGroupMeta) : Prop :=
  is_Some (files !! pgm_file_id m) /\
  exists h mh, disk !! pgm_file_id m = Some h /\ fh_page_groups h !! g = Some mh /\ same_handles m mh.

(** The current version. *)
Record version_inv (P : Pages) (disk : gmap Z FileMetaHolder) (files : gmap Z NewFile) (v : Version) (A : Active) : Prop := {
  vi_disk : disk_inv P (v_first_buffer_id v) disk files;
  vi_groups : groups_repr (v_page_groups v) A;
  vi_nonempty : nonempty A = A;
  vi_live : forall addr id, pages_live P !! addr = Some id -> is_Some (active_at A (addr_group addr) (wrap32 addr));
  vi_files : forall i, is_Some (v_files v !! i) <-> is_Some (files !! i);
  vi_metas : forall i info h, v_files v !! i = Some info -> disk !! i = Some h -> meta_like (fi_meta info) (fh_file_meta h);
  vi_home : forall g pg, v_page_groups v !! g = Some pg -> group_home disk files g (pg_meta pg);
}.

(** A running compaction: with the files as it will leave them, the disk is fine too,
    and its groups have all their live pages. *)
Record compaction_inv (P : Pages) (s : Store) (v : Version) (c : Compaction) (h : FileMetaHolder) (C : Active) : Prop := {
  ci_file : st_disk s !! cp_file c = Some h;
  ci_info : meta_like (fi_meta (cp_info c)) (fh_file_meta h);
  ci_id : fm_file_id (fh_file_meta h) = cp_file c;
  ci_home : forall g pg, cp_groups c !! g = Some pg -> pgm_file_id (pg_meta pg) = cp_file c /\
    exists mh, fh_page_groups h !! g = Some mh /\ same_handles (pg_meta pg) mh;
  ci_covers : forall g pg, v_page_groups v !! g = Some pg -> pgm_file_id (pg_meta pg) ∈ cp_victims c -> is_Some (cp_groups c !! g);
  ci_fresh : files_of (st_log s) !! cp_file c = None;
  ci_next : cp_file c < st_next_file_id s;
  ci_self : cp_file c ∉ cp_victims c;
  ci_victims : forall i, i ∈ cp_victims c -> i < st_next_file_id s;
  ci_disk : disk_inv P (v_first_buffer_id v) (st_disk s)
    (compacted_files (files_of (st_log s)) (cp_victims c) (new_file_from_info (cp_info c)));
  ci_groups : groups_repr (cp_groups c) C;
  ci_nonempty : nonempty C = C;
  ci_older : forall g, is_Some (C !! g) -> g < v_first_buffer_id v;
  ci_live : forall addr id act, pages_live P !! addr = Some id -> C !! addr_group addr = Some act -> is_Some (act !! wrap32 addr);
}.

Record store_inv (P : Pages) (s : Store) (v : Version) (A : Active) : Prop := {
  si_last : last (st_versions s) = Some v;
  si_version : version_inv P (st_disk s) (files_of (st_log s)) v A;
  si_bounds : 1 <= v_first_buffer_id v <= st_next_file_id s /\ st_next_file_id s < 2 ^ 32 - 1;
  si_active : forall i, is_Some (files_of (st_log s) !! i) -> i < st_next_file_id s;
  si_obsoleted : forall i, i ∈ sm_obsoleted_files (apply_version_edits (st_log s)) ->
    i < st_next_file_id s /\ files_of (st_log s) !! i = None /\ (forall c, st_compaction s = Some c -> i <> cp_file c);
  si_chain : forall w i, w ∈ st_versions s -> i ∈ v_obsoleted_files w ->
    i < st_next_file_id s /\ v_files w !! i = None /\ files_of (st_log s) !! i = None /\
    (forall c, st_compaction s = Some c -> i <> cp_file c);
  si_compaction : forall c, st_compaction s = Some c -> exists h C, compaction_inv P s v c h C;
}.

Lemma version_id P disk files v A i info : version_inv P disk files v A -> v_files v !! i = Some info -> fm_file_id (fi_meta info) = i.
Proof.
  intros Hv Hi. destruct (proj1 (vi_files _ _ _ _ _ Hv i)) as [nf Hf]; [eauto|].
  destruct (ao_file _ _ (di_ok _ _ _ _ (vi_disk _ _ _ _ _ Hv)) i nf Hf) as (_ & h & Hh & Hok & _).
  destruct (vi_metas _ _ _ _ _ Hv i info h Hi Hh) as [-> _]. apply Hok.
Qed.
(** The metadata of a file, by its domain. *)
Lemma version_groups P disk files v A i info h g : version_inv P disk files v A -> v_files v !! i = Some info -> disk !! i = Some h ->
  is_Some (fm_page_groups (fi_meta info) !! g) <-> is_Some (fh_page_groups h !! g).
Proof.
  intros Hv Hi Hh. destruct (proj1 (vi_files _ _ _ _ _ Hv i)) as [nf Hf]; [eauto|].
  destruct (ao_file _ _ (di_ok _ _ _ _ (vi_disk _ _ _ _ _ Hv)) i nf Hf) as (_ & h' & Hh' & Hok & _). assert (h' = h) as -> by congruence.
  destruct (vi_metas _ _ _ _ _ Hv i info h Hi Hh) as (_ & _ & Ed). rewrite <- (ho_meta _ _ Hok), <- !elem_of_dom. by rewrite Ed.
Qed.

(** Files that are not in use may come and go. *)
Lemma version_inv_disk P disk disk' files v A :
  (forall i, is_Some (files !! i) -> disk' !! i = disk !! i) -> version_inv P disk files v A -> version_inv P disk' files v A.
Proof.
  intros Hd [Hdi Hr Hne Hl HF Hm Hh]. split; [by eapply disk_inv_disk|done..| |].
  - intros i info h Hi. rewrite Hd by (apply HF; eauto). by apply Hm.
  - intros g pg Hg. destruct (Hh g pg Hg) as [Hf Hx]. split; [done|]. by rewrite Hd.
Qed.

Lemma store_new_inv : store_inv (mkPages ∅ ∅) store_new (with_buffer_set 1 delta_default) ∅.
Proof.
  split; [done| |cbn; lia|..].
  - split; [| |done|done|..].
    + split; [split|..].
      * intros i nf Hi. by cbn in Hi.
      * intros i j hi hj g [? Hi]. by cbn in Hi.
      * intros i h g [? Hi]. by cbn in Hi.
      * intros i h x [? Hi]. by cbn in Hi.
      * intros addr id Ha. by cbn in Ha.
      * intros addr id i h Ha. by cbn in Ha.
      * intros addr id (i & h & g & t & [? Hi] & _). by cbn in Hi.
    + intros g. cbn. rewrite !lookup_empty. constructor.
    + intros i. cbn. split; intros [? Hi]; by cbn in Hi.
    + intros i info h Hi. by cbn in Hi.
    + intros g pg Hg. by cbn in Hg.
  - intros i [? Hi]. by cbn in Hi.
  - intros i Hi. by apply elem_of_empty in Hi.
  - intros w i ->%list_elem_of_singleton Hi. by apply elem_of_empty in Hi.
  - done.
Qed.

(** ** Flushing *)

Section flush.
Context (P : Pages) (s : Store) (v : Version) (A : Active) (Hinv : store_inv P s v A).
Context (f now : Z) (dealloc_pages : list Z) (new : list (Z * Z)) (m : PageGroupMeta) (h : FileMetaHolder) (info : FileInfo).
Context (Hf : st_next_file_id s <= f) (Hmax : f + 2 < 2 ^ 32) (Hnew : flushed f (v_first_buffer_id v) dealloc_pages new m h).
Context (Hinfo : meta_like (fi_meta info) (fh_file_meta h)).

Let g := v_first_buffer_id v.
Let P' := flush_live P dealloc_pages new.
Let A1 := kill_pages A dealloc_pages.

(** A page that stays live is active after the deallocations, in an older group. *)
Lemma flush_survives addr id : pages_live P !! addr = Some id -> addr ∉ dealloc_pages ->
  is_Some (active_at A1 (addr_group addr) (wrap32 addr)) /\ addr_group addr < g.
Proof using Hinv Hnew.
  intros Ha Hn. pose proof (si_version _ _ _ _ Hinv) as Hv. pose proof (vi_disk _ _ _ _ _ Hv) as Hd.
  destruct (di_live _ _ _ _ Hd addr id Ha) as [Hfit (i & hi & mi & t & Hi & Ehi & Hg & _)]. split.
  - unfold A1. rewrite active_kills, decide_False; [by eapply (vi_live _ _ _ _ _ Hv)|]. intros Hx. apply Hn. apply names_addr; [|done|done].
    apply Forall_forall. intros x Hin. by apply (fl_older _ _ _ _ _ _ Hnew).
  - apply (di_groups _ _ _ _ Hd i hi (addr_group addr)); eauto.
Qed.

(** The file of a group that keeps a page is needed. *)
Lemma flush_needed i info0 hi g0 : v_files v !! i = Some info0 -> st_disk s !! i = Some hi -> is_Some (fh_page_groups hi !! g0) ->
  is_Some (nonempty A1 !! g0) -> file_needed A1 (fi_meta info0).
Proof using Hinv.
  intros Hi Ehi Hg [act [Ha Hne]%nonempty_lookup]. exists g0, act. split; [done|]. split; [done|]. left.
  by eapply version_groups; [apply Hinv|..].
Qed.

(** The delta of a flush exists; what it obsoletes has no page that stays live. *)
Lemma flush_version :
  exists obs delta, flush_delta v now (page_group_new m) info dealloc_pages = Ok (edit_of (new_file_from_id f) obs, delta) /\
    dv_obsoleted_files delta = obs /\ dv_reason delta = ReasonFlush /\
    (forall i, i ∈ obs -> is_Some (files_of (st_log s) !! i)) /\
    (forall i hi g0, i ∈ obs -> st_disk s !! i = Some hi -> is_Some (nonempty A1 !! g0) -> fh_page_groups hi !! g0 = None) /\
    groups_repr (dv_page_groups delta) (flush_active A dealloc_pages g (pm_handle <$> pgm_page_meta_map m)) /\
    (forall i pg, dv_page_groups delta !! i = Some pg -> (i = g /\ pg_meta pg = m) \/
       (is_Some (nonempty A1 !! i) /\ exists pg0, v_page_groups v !! i = Some pg0 /\ pg_meta pg = pg_meta pg0)) /\
    (forall i fm, (fi_meta <$> dv_file_infos delta) !! i = Some fm <->
       (i = f /\ fm = fi_meta info) \/ (i <> f /\ (fi_meta <$> v_files v) !! i = Some fm /\ i ∉ obs)).
Proof using Hinv Hnew Hinfo.
  pose proof (fl_meta _ _ _ _ _ _ Hnew) as Hm. pose proof (si_version _ _ _ _ Hinv) as Hv.
  pose proof (new_group_repr _ _ _ Hm) as Hrep. set (act := pm_handle <$> pgm_page_meta_map m) in *.
  destruct (flush_delta_ok v now (page_group_new m) info dealloc_pages A act (vi_groups _ _ _ _ _ Hv) Hrep) as (G' & F' & obs & E & Hr' & Hmeta & HF' & Hobs).
  cbn [pg_meta page_group_new] in *. rewrite (gm_group _ _ _ Hm) in Hr', Hmeta.
  assert (Eid : fm_file_id (fi_meta info) = f) by (destruct Hinfo as [-> _]; apply Hnew). rewrite Eid in E, HF'. fold A1 in HF', Hobs.
  assert (Hobs' : forall i, i ∈ obs <-> exists info0, v_files v !! i = Some info0 /\ ~ file_needed A1 (fi_meta info0)).
  { intros i. rewrite Hobs. setoid_rewrite lookup_fmap. setoid_rewrite fmap_Some. split.
    - intros (fm & (info0 & Hi & ->) & Hnn). by exists info0.
    - intros (info0 & Hi & Hnn). eauto. }
  exists obs, (mkDeltaVersion ReasonFlush G' F' obs). cbn [dv_page_groups dv_file_infos]. split; [exact E|]. split; [done|]. split; [done|]. split; [|split; [|split; [done|split]]].
  - intros i (info0 & Hi & _)%Hobs'. apply (vi_files _ _ _ _ _ Hv). eauto.
  - intros i hi g0 (info0 & Hi & Hnn)%Hobs' Ehi Hg0. apply eq_None_not_Some. intros Hg. apply Hnn. by eapply flush_needed.
  - intros i pg Hi. assert (Ha : is_Some (flush_active A dealloc_pages g act !! i)) by (apply (groups_repr_dom _ _ i Hr'); eauto).
    destruct (Hmeta i pg Hi) as [[-> ->]|[Hc Hold]]; [by left|]. right. split; [|done].
    unfold flush_active in Ha. fold A1 in Ha. case_decide; [done|]. destruct Hc as [Hc|?]; [|done]. by rewrite lookup_insert_ne in Ha by done.
  - intros i fm. rewrite HF'. split.
    + intros [?|(Hi & Hm' & Hneed)]; [by left|]. right. split; [done|]. split; [done|]. intros (fm' & Hi' & Hnn)%Hobs. by assert (fm' = fm) as -> by congruence.
    + intros [?|(Hi & Hm' & Hno)]; [by left|]. right. split; [done|]. split; [done|]. apply dec_stable. intros Hnn. apply Hno, Hobs. eauto.
Qed.
End flush.

Lemma nonempty_idem A : nonempty (nonempty A) = nonempty A.
Proof. apply map_filter_id. intros i a Ha. by apply nonempty_lookup in Ha as [_ ?]. Qed.
Lemma nonempty_insert A g act : nonempty A = A -> act <> ∅ -> nonempty (<[g := act]> A) = <[g := act]> A.
Proof.
  intros Hne Ha. apply map_filter_id. intros i a [[<- <-]|[_ Hi]]%lookup_insert_Some; [done|]. rewrite <- Hne in Hi. by apply nonempty_lookup in Hi as [_ ?].
Qed.
Lemma fresh_file P s v A f : store_inv P s v A -> st_next_file_id s <= f -> files_of (st_log s) !! f = None.
Proof. intros Hinv Hf. apply eq_None_not_Some. intros Hi. apply (si_active _ _ _ _ Hinv) in Hi. lia. Qed.

(** The version a flush installs. *)
Section flush_install.
Context (P : Pages) (s : Store) (v : Version) (A : Active) (Hinv : store_inv P s v A).
Context (f now : Z) (dealloc_pages : list Z) (new : list (Z * Z)) (m : PageGroupMeta) (h : FileMetaHolder) (info : FileInfo).
Context (Hf : st_next_file_id s <= f) (Hmax : f + 2 < 2 ^ 32) (Hnew : flushed f (v_first_buffer_id v) dealloc_pages new m h).
Context (Hinfo : meta_like (fi_meta info) (fh_file_meta h)).
Context (obs : gset Z) (delta : DeltaVersion).
Context (E : flush_delta v now (page_group_new m) info dealloc_pages = Ok (edit_of (new_file_from_id f) obs, delta)).

Let files := files_of (st_log s).
Let files' := files_of (st_log s ++ [edit_of (new_file_from_id f) obs]).
Let P' := flush_live P dealloc_pages new.
Let disk' := <[f := h]> (st_disk s).
Let act := pm_handle <$> pgm_page_meta_map m.
Let A' := flush_active A dealloc_pages (v_first_buffer_id v) act.

Lemma flush_facts :
  dv_obsoleted_files delta = obs /\ dv_reason delta = ReasonFlush /\ (forall i, i ∈ obs -> is_Some (files !! i)) /\ (f ∉ obs) /\
  (forall i, files' !! i = if decide (i = f) then Some (new_file_from_id f) else if decide (i ∈ obs) then None else files !! i) /\
  v_first_buffer_id (next_version v delta) = v_first_buffer_id v + 1 /\
  (forall i, i ∈ obs -> forall c, st_compaction s = Some c -> i <> cp_file c).
Proof using Hinv Hf Hmax Hnew Hinfo E.
  destruct (flush_version P s v A Hinv f now dealloc_pages new m h info Hnew Hinfo) as (obs' & delta' & E' & Eo & Er & Hobs & _).
  rewrite E in E'. injection E' as Eel <-. assert (obs' = obs) as -> by (apply set_eq; intros i; by rewrite <- !elem_of_elements, Eel).
  assert (Hfo : f ∉ obs) by (intros Hx%Hobs%(si_active _ _ _ _ Hinv); lia). destruct (si_bounds _ _ _ _ Hinv) as [Hb Hn].
  split_and!; [done|done|exact Hobs|done|intros i; by apply files_of_app| |].
  - unfold next_version. rewrite Er. cbn. apply wrap_small. unfold fits. lia.
  - intros i Hi c Hc ->. destruct (si_compaction _ _ _ _ Hinv c Hc) as (hc & C & Hci). apply Hobs in Hi as [? Hi]. by rewrite (ci_fresh _ _ _ _ _ _ Hci) in Hi.
Qed.
(** A file that holds a page which stays live is not obsoleted. *)
Lemma flush_dead i hi addr id : i ∈ obs -> st_disk s !! i = Some hi -> pages_live P !! addr = Some id -> addr ∉ dealloc_pages ->
  fh_page_groups hi !! addr_group addr = None.
Proof using Hinv Hf Hmax Hnew Hinfo E.
  destruct (flush_version P s v A Hinv f now dealloc_pages new m h info Hnew Hinfo) as (obs' & delta' & E' & _ & _ & _ & Hdead & _).
  rewrite E in E'. injection E' as Eel _. assert (obs' = obs) as -> by (apply set_eq; intros j; by rewrite <- !elem_of_elements, Eel).
  intros Hi Ehi Ha Hna. apply (Hdead i hi (addr_group addr) Hi Ehi). apply nonempty_page.
  exists (wrap32 addr). by eapply (flush_survives P s v A Hinv).
Qed.
Lemma flush_files_disk i : is_Some (files !! i) -> disk' !! i = st_disk s !! i.
Proof using Hinv Hf. clear -Hinv Hf. intros Hi. apply lookup_insert_ne. intros ->. apply (si_active _ _ _ _ Hinv) in Hi. lia. Qed.

Lemma flush_version_inv : version_inv P' disk' files' (next_version v delta) A'.
Proof using Hinv Hf Hmax Hnew Hinfo E.
  destruct flush_facts as (Eo & Er & Hobs & Hfo & Hfiles & Efb & _). pose proof (si_version _ _ _ _ Hinv) as Hv.
  destruct (flush_version P s v A Hinv f now dealloc_pages new m h info Hnew Hinfo) as (obs' & delta' & E' & _ & _ & _ & Hdead & Hr & Hmeta & HF).
  rewrite E in E'. injection E' as Eel <-. assert (obs' = obs) as -> by (apply set_eq; intros i; by rewrite <- !elem_of_elements, Eel).
  split.
  - rewrite Efb. eapply (disk_inv_flush P _ _ files _ f _ _ m h (new_file_from_id f) obs); [apply Hv|exact Hnew|by eapply fresh_file|
      destruct (si_bounds _ _ _ _ Hinv); lia|done|exact Hfiles|]. intros i hi addr id Hi _. by apply flush_dead.
  - exact Hr.
  - unfold A', flush_active. case_decide; [apply nonempty_idem|]. apply nonempty_insert; [apply nonempty_idem|done].
  - intros addr id [Ha|[Ha Hna]]%flush_live_pages; unfold A', flush_active.
    + destruct (fl_pages _ _ _ _ _ _ Hnew addr id Ha) as (_ & Eg & [pm Hpm]).
      assert (Hact : act !! wrap32 addr = Some (pm_handle pm)) by (unfold act; by rewrite lookup_fmap, Hpm).
      rewrite decide_False by (intros E0; by rewrite E0, lookup_empty in Hact). unfold active_at. rewrite Eg, lookup_insert_eq. cbn. eauto.
    + destruct (flush_survives P s v A Hinv f dealloc_pages new m h Hnew addr id Ha Hna) as [Hs Hlt]. rewrite <- active_nonempty in Hs. case_decide; [done|].
      unfold active_at. rewrite lookup_insert_ne by lia. done.
  - intros i. change (v_files (next_version v delta)) with (dv_file_infos delta).
    rewrite <- (fmap_is_Some fi_meta), <- lookup_fmap, Hfiles. split.
    + intros [fm [[-> _]|(Hne & Hi & Ho)]%HF]; [by rewrite decide_True|]. rewrite !decide_False by done.
      rewrite lookup_fmap, fmap_Some in Hi. destruct Hi as (info0 & Hi & _). apply (vi_files _ _ _ _ _ Hv). eauto.
    + case_decide as Ei; [intros _; exists (fi_meta info); apply HF; by left|]. case_decide; [by intros [??]|].
      intros Hi%(vi_files _ _ _ _ _ Hv). destruct Hi as [info0 Hi]. exists (fi_meta info0). apply HF. right. by rewrite lookup_fmap, Hi.
  - intros i info0 hi Hi Ehi. assert (Hm0 : (fi_meta <$> dv_file_infos delta) !! i = Some (fi_meta info0)) by (rewrite lookup_fmap; by apply fmap_Some; eauto).
    apply HF in Hm0 as [[-> ->]|(Hne & Hm0 & _)].
    + unfold disk' in Ehi. rewrite lookup_insert_eq in Ehi. by injection Ehi as <-.
    + unfold disk' in Ehi. rewrite lookup_insert_ne in Ehi by done. rewrite lookup_fmap, fmap_Some in Hm0. destruct Hm0 as (info1 & Hi1 & ->).
      by apply (vi_metas _ _ _ _ _ Hv i).
  - intros g pg Hg. destruct (Hmeta g pg Hg) as [[-> ->]|(Hne & pg0 & Hpg0 & ->)]; unfold group_home; rewrite Hfiles.
    + rewrite (gm_file _ _ _ (fl_meta _ _ _ _ _ _ Hnew)), decide_True by done. split; [done|]. destruct (fl_groups _ _ _ _ _ _ Hnew) as (mh & Hgr & Hs).
      exists h, mh. unfold disk'. rewrite lookup_insert_eq, Hgr, lookup_singleton_eq. done.
    + destruct (vi_home _ _ _ _ _ Hv g pg0 Hpg0) as [Hfile (hi & mh & Ehi & Hmh & Hs)]. rewrite flush_files_disk by done.
      rewrite decide_False by (intros Ef; rewrite Ef in Hfile; apply (si_active _ _ _ _ Hinv) in Hfile; lia).
      rewrite decide_False; [split; [done|eauto]|]. intros Ho. by rewrite (Hdead _ hi g Ho Ehi Hne) in Hmh.
Qed.

(** A running compaction is not disturbed. *)
Lemma flush_compaction_inv c hc C versions :
  compaction_inv P s v c hc C -> st_compaction s = Some c ->
  compaction_inv P' (mkStore versions (st_log s ++ [edit_of (new_file_from_id f) obs]) disk' (f + 1) (Some c)) (next_version v delta) c hc C.
Proof using Hinv Hf Hmax Hnew Hinfo E.
  intros [Hcf Hcinfo Hcid Hch Hcc Hcfresh Hcn Hcs Hcv Hcd Hcg Hcne Hco Hcl] Hc. destruct flush_facts as (Eo & Er & Hobs & Hfo & Hfiles & Efb & Hobs_c).
  assert (Hcf' : cp_file c <> f) by lia. assert (Hco' : cp_file c ∉ obs) by (intros Ho; by apply (Hobs_c _ Ho c)).
  assert (Eid : nf_id (new_file_from_info (cp_info c)) = cp_file c) by (unfold new_file_from_info; cbn [nf_id]; destruct Hcinfo as [-> _]; done).
  split; cbn [st_versions st_log st_disk st_next_file_id st_compaction]; [unfold disk'; by rewrite lookup_insert_ne|done|done|done| | |lia|done| | |done|done| |].
  - intros g pg Hg Hvi. destruct (flush_version P s v A Hinv f now dealloc_pages new m h info Hnew Hinfo) as (obs' & delta' & E' & _ & _ & _ & _ & _ & Hmeta & _).
    rewrite E in E'. injection E' as _ <-. destruct (Hmeta g pg Hg) as [[-> Em]|(_ & pg0 & Hpg0 & Em)].
    + rewrite Em, (gm_file _ _ _ (fl_meta _ _ _ _ _ _ Hnew)) in Hvi. apply Hcv in Hvi. lia.
    + rewrite Em in Hvi. by eapply Hcc.
  - fold files'. rewrite Hfiles, decide_False by done. by case_decide.
  - intros i Hi. specialize (Hcv i Hi). lia.
  - rewrite Efb. eapply (disk_inv_flush P (v_first_buffer_id v) (st_disk s) (compacted_files files (cp_victims c) (new_file_from_info (cp_info c)))
      _ f _ _ m h (new_file_from_id f) obs); [exact Hcd|exact Hnew| |destruct (si_bounds _ _ _ _ Hinv); lia|done| |].
    + rewrite compacted_files_lookup, Eid, decide_False by done. case_decide; [done|]. by eapply fresh_file.
    + intros i. fold files'. rewrite !compacted_files_lookup, Eid, Hfiles. destruct (decide (i = f)) as [->|Hnf].
      * rewrite decide_False by done. rewrite decide_False; [done|]. intros Hi%Hcv. lia.
      * destruct (decide (i = cp_file c)) as [->|]; [by rewrite decide_False|]. repeat case_decide; done.
    + intros i hi addr id Hi _. by apply flush_dead.
  - intros j Hj. rewrite Efb. apply Hco in Hj. lia.
  - intros addr id act' Ha HC. apply flush_live_pages in Ha as [Ha|[Ha _]]; [|by eapply Hcl].
    destruct (fl_pages _ _ _ _ _ _ Hnew addr id Ha) as (_ & Eg & _). rewrite Eg in HC. assert (Hlt : is_Some (C !! v_first_buffer_id v)) by eauto.
    apply Hco in Hlt. lia.
Qed.

Lemma flush_inv versions :
  owner_install delta (st_versions s) = Ok versions ->
  store_inv P' (mkStore versions (st_log s ++ [edit_of (new_file_from_id f) obs]) disk' (f + 1) (st_compaction s)) (next_version v delta) A'.
Proof using Hinv Hf Hmax Hnew Hinfo E.
  intros Einst. rewrite (install_current _ v) in Einst by apply Hinv. injection Einst as <-.
  destruct flush_facts as (Eo & Er & Hobs & Hfo & Hfiles & Efb & Hobs_c). destruct (si_bounds _ _ _ _ Hinv) as [Hb Hn].
  assert (Hgone : forall i, i < st_next_file_id s -> i ∈ obs \/ files !! i = None -> files' !! i = None).
  { intros i Hlt Hi. rewrite Hfiles, decide_False by lia. case_decide; [done|]. by destruct Hi. }
  split; cbn [st_versions st_log st_disk st_next_file_id st_compaction]; fold files'.
  - by rewrite last_snoc.
  - apply flush_version_inv.
  - rewrite Efb. lia.
  - intros i Hi. rewrite Hfiles in Hi. case_decide; [lia|]. case_decide; [by destruct Hi|]. apply (si_active _ _ _ _ Hinv) in Hi. lia.
  - intros i [Hi|Hi]%obsoleted_app.
    + pose proof (si_active _ _ _ _ Hinv i (Hobs i Hi)). split_and!; [lia|apply Hgone; auto|by apply Hobs_c].
    + destruct (si_obsoleted _ _ _ _ Hinv i Hi) as (? & ? & ?). split_and!; [lia|apply Hgone; auto|done].
  - intros w i Hw Hi. apply elem_of_app in Hw as [Hw|Hw%list_elem_of_singleton].
    + destruct (si_chain _ _ _ _ Hinv w i Hw Hi) as (? & ? & En & ?). split_and!; [lia|done|apply Hgone; auto|done].
    + subst w. change (i ∈ dv_obsoleted_files delta) in Hi. rewrite Eo in Hi. pose proof (si_active _ _ _ _ Hinv i (Hobs i Hi)).
      split_and!; [lia| |apply Hgone; auto|by apply Hobs_c]. apply eq_None_not_Some. intros Hx%(vi_files _ _ _ _ _ flush_version_inv). rewrite Hgone in Hx by auto. by destruct Hx.
  - intros c Hc. rewrite Hc. destruct (si_compaction _ _ _ _ Hinv c Hc) as (hc & C & Hci). exists hc, C. by apply flush_compaction_inv.
Qed.
End flush_install.

(** ** Compacting *)

Section compact_start.
Context (P : Pages) (s : Store) (v : Version) (A : Active) (Hinv : store_inv P s v A).
Context (f : Z) (victims : gset Z) (groups : gmap Z PageGroup) (h : FileMetaHolder) (info : FileInfo).
Context (Hf : st_next_file_id s <= f) (Hmax : f + 2 < 2 ^ 32) (Hvic : forall i, i ∈ victims -> is_Some (v_files v !! i)).
Context (Hc : compacted v (st_disk s) victims f groups h) (Hinfo : meta_like (fi_meta info) (fh_file_meta h)).

Let C : Active := all_pages groups.

Lemma compact_groups_repr : groups_repr groups C.
Proof using Hc.
  intros g. unfold C, all_pages. rewrite lookup_fmap. destruct (groups !! g) as [pg|] eqn:Hg; constructor.
  destruct (cf_memory _ _ _ _ _ _ Hc g pg Hg) as (m & mh & -> & Hm & _). by eapply new_group_repr.
Qed.
(** The pages of a compacted group are the active pages of the group in the version. *)
Lemma compact_group_pages g act : C !! g = Some act ->
  exists pg act0, v_page_groups v !! g = Some pg /\ A !! g = Some act0 /\ is_Some (fh_page_groups h !! g) /\
    (forall a, is_Some (act !! a) <-> is_Some (act0 !! a)).
Proof using Hinv Hc.
  intros Hg. unfold C, all_pages in Hg. rewrite lookup_fmap, fmap_Some in Hg. destruct Hg as (pg & Hg & ->).
  destruct (cf_memory _ _ _ _ _ _ Hc g pg Hg) as (m & mh & -> & Hm & Hmh & Hs). destruct (proj1 (cf_groups _ _ _ _ _ _ Hc g)) as [[pg0 Hpg0] _]; [eauto|].
  destruct (groups_repr_lookup _ _ g (vi_groups _ _ _ _ _ (si_version _ _ _ _ Hinv))) as [(pg' & act0 & E & Ea & Hr0)|[E _]]; [|congruence].
  rewrite Hpg0 in E. injection E as <-. exists pg0, act0. split_and!; [done|done|eauto|]. intros a. cbn. rewrite lookup_fmap, fmap_is_Some.
  rewrite (same_handles_page m mh) by done. by eapply (cf_pages _ _ _ _ _ _ Hc).
Qed.

Lemma compact_start_compaction :
  compaction_inv P (mkStore (st_versions s) (st_log s) (<[f := h]> (st_disk s)) (f + 1) (Some (mkCompaction f victims groups info))) v
    (mkCompaction f victims groups info) h C.
Proof using Hinv Hf Hmax Hvic Hc Hinfo.
  pose proof (fresh_file _ _ _ _ f Hinv Hf) as Hff. pose proof (si_version _ _ _ _ Hinv) as Hv. destruct (si_bounds _ _ _ _ Hinv) as [Hb Hn].
  assert (Hvf : forall i, i ∈ victims -> is_Some (files_of (st_log s) !! i)) by (intros i Hi; by apply (vi_files _ _ _ _ _ Hv), Hvic).
  assert (Hid : fm_file_id (fh_file_meta h) = f) by apply (cf_ok _ _ _ _ _ _ Hc).
  split; cbn [st_versions st_log st_disk st_next_file_id st_compaction cp_file cp_victims cp_groups cp_info];
    [apply lookup_insert_eq|done|done| | |done|lia| | | |apply compact_groups_repr| | |].
  - intros g pg Hg. destruct (cf_memory _ _ _ _ _ _ Hc g pg Hg) as (m & mh & -> & Hm & Hmh & Hs). split; [apply Hm|eauto].
  - intros g pg Hg Hi. destruct (vi_home _ _ _ _ _ Hv g pg Hg) as [_ (hi & mh & Ehi & Hmh & _)].
    apply (cf_dom _ _ _ _ _ _ Hc), (cf_groups _ _ _ _ _ _ Hc). split; eauto 10.
  - intros [? Hi]%Hvf. congruence.
  - intros i Hi%Hvf%(si_active _ _ _ _ Hinv). lia.
  - eapply disk_inv_compact; [apply Hv|exact Hc| |exact Hff|lia|exact Hvf|apply Hv|apply Hv]. cbn. destruct Hinfo as [-> _]. done.
  - apply map_filter_id. intros g act Hg E. cbn in E. subst act. destruct (compact_group_pages g ∅ Hg) as (pg & act0 & _ & Ha & _ & Hp).
    rewrite <- (vi_nonempty _ _ _ _ _ Hv) in Ha. apply nonempty_lookup in Ha as [_ Hne]. apply map_choose in Hne as (a & ph & Hph).
    destruct (proj2 (Hp a)) as [? Hx]; [eauto|]. by rewrite lookup_empty in Hx.
  - intros g [act Hg]. destruct (compact_group_pages g act Hg) as (_ & _ & _ & _ & Hm & _). apply (cf_groups _ _ _ _ _ _ Hc) in Hm as (_ & i & hi & Hi & Ehi & Hgi).
    apply (di_groups _ _ _ _ (vi_disk _ _ _ _ _ Hv) i hi g); eauto.
  - intros addr id act Ha Hg. destruct (compact_group_pages _ act Hg) as (pg & act0 & _ & Ea & _ & Hp). apply Hp.
    pose proof (vi_live _ _ _ _ _ Hv addr id Ha) as Hlive. unfold active_at in Hlive. by rewrite Ea in Hlive.
Qed.

Lemma compact_inv :
  store_inv P (mkStore (st_versions s) (st_log s) (<[f := h]> (st_disk s)) (f + 1) (Some (mkCompaction f victims groups info))) v A.
Proof using Hinv Hf Hmax Hvic Hc Hinfo.
  pose proof (fresh_file _ _ _ _ f Hinv Hf) as Hff. destruct (si_bounds _ _ _ _ Hinv) as [Hb Hn].
  assert (Hd' : forall i, is_Some (files_of (st_log s) !! i) -> (<[f := h]> (st_disk s)) !! i = st_disk s !! i).
  { intros i [? Hi]. apply lookup_insert_ne. intros ->. congruence. }
  split; cbn [st_versions st_log st_disk st_next_file_id st_compaction]; [apply Hinv| |lia| | | |].
  - by eapply version_inv_disk; [exact Hd'|apply Hinv].
  - intros i Hi%(si_active _ _ _ _ Hinv). lia.
  - intros i (Hi & En & _)%(si_obsoleted _ _ _ _ Hinv). split_and!; [lia|done|]. intros c [= <-]. cbn. lia.
  - intros w i Hw Hi. destruct (si_chain _ _ _ _ Hinv w i Hw Hi) as (? & ? & ? & _). split_and!; [lia|done..|]. intros c [= <-]. cbn. lia.
  - intros c [= <-]. exists h, C. apply compact_start_compaction.
Qed.
End compact_start.

Section compact_end.
Context (P : Pages) (s : Store) (v : Version) (A : Active) (c : Compaction) (hc : FileMetaHolder) (C : Active).
Context (Hinv : store_inv P s v A) (Ec : st_compaction s = Some c) (Hci : compaction_inv P s v c hc C).

Let nf := new_file_from_info (cp_info c).
Let delta := compact_delta v (cp_file c) (cp_info c) (cp_groups c) (cp_victims c).
Let files := files_of (st_log s).
Let files' := files_of (st_log s ++ [make_compact_version_edit (cp_info c) (cp_victims c)]).

Lemma compact_end_id : nf_id nf = cp_file c.
Proof using Hci. unfold nf, new_file_from_info. cbn [nf_id]. destruct (ci_info _ _ _ _ _ _ Hci) as [-> _]. apply Hci. Qed.
Lemma compact_end_files : files' = compacted_files files (cp_victims c) nf.
Proof using Hci. apply map_eq. intros i. rewrite compacted_files_lookup. apply files_of_app. fold nf. rewrite compact_end_id. apply Hci. Qed.
Lemma compact_end_infos i : dv_file_infos delta !! i =
  if decide (i = cp_file c) then Some (cp_info c) else if decide (i ∈ cp_victims c) then None else v_files v !! i.
Proof using.
  cbn. case_decide as E; [subst; by rewrite lookup_insert_eq|]. rewrite lookup_insert_ne, map_lookup_filter by done.
  destruct (v_files v !! i); cbn; [|by case_decide]. case_decide; [by rewrite option_guard_False by tauto|by rewrite option_guard_True].
Qed.

Lemma compact_end_version : version_inv P (st_disk s) files' (next_version v delta) (C ∪ A).
Proof using Hinv Hci.
  pose proof (si_version _ _ _ _ Hinv) as Hv. rewrite compact_end_files. split.
  - apply Hci.
  - intros g. cbn. rewrite !lookup_union. pose proof (ci_groups _ _ _ _ _ _ Hci g) as HC. pose proof (vi_groups _ _ _ _ _ Hv g) as HA.
    destruct HC, HA; cbn; by constructor.
  - apply map_filter_id. intros g act [Hg|[_ Hg]]%lookup_union_Some_raw.
    + rewrite <- (ci_nonempty _ _ _ _ _ _ Hci) in Hg. by apply nonempty_lookup in Hg as [_ ?].
    + rewrite <- (vi_nonempty _ _ _ _ _ Hv) in Hg. by apply nonempty_lookup in Hg as [_ ?].
  - intros addr id Ha. unfold active_at. destruct (C !! addr_group addr) as [act|] eqn:Hg.
    + rewrite (lookup_union_Some_l _ _ _ _ Hg). cbn. by eapply (ci_live _ _ _ _ _ _ Hci).
    + rewrite lookup_union_r by done. by apply (vi_live _ _ _ _ _ Hv addr id).
  - intros i. change (v_files (next_version v delta)) with (dv_file_infos delta). rewrite compact_end_infos, compacted_files_lookup, compact_end_id.
    case_decide; [done|]. case_decide; [done|]. apply Hv.
  - intros i info h. change (v_files (next_version v delta)) with (dv_file_infos delta). rewrite compact_end_infos.
    case_decide as Ei; [|case_decide; [done|apply Hv]]. subst i. intros [= <-]. rewrite (ci_file _ _ _ _ _ _ Hci). intros [= <-]. apply Hci.
  - intros g pg [Hg|[Hg0 Hg]]%lookup_union_Some_raw; unfold group_home; rewrite compacted_files_lookup, compact_end_id.
    + destruct (ci_home _ _ _ _ _ _ Hci g pg Hg) as [-> (mh & Hmh & Hs)]. rewrite decide_True by done. split; [done|]. exists hc, mh. split; [apply Hci|done].
    + destruct (vi_home _ _ _ _ _ Hv g pg Hg) as [Hfile (h & mh & Hh & Hrest)]. case_decide as Ei.
      { rewrite Ei in Hfile. fold files in Hfile. unfold files in Hfile. rewrite (ci_fresh _ _ _ _ _ _ Hci) in Hfile. by destruct Hfile. }
      case_decide as Hvi; [|split; [done|eauto]]. apply (ci_covers _ _ _ _ _ _ Hci g pg Hg) in Hvi as [? ?]. cbn in Hg0. congruence.
Qed.

Lemma compacted_inv versions :
  owner_install delta (st_versions s) = Ok versions ->
  store_inv P (mkStore versions (st_log s ++ [make_compact_version_edit (cp_info c) (cp_victims c)]) (st_disk s)
    (st_next_file_id s) None) (next_version v delta) (C ∪ A).
Proof using Hinv Hci Ec.
  intros Einst. rewrite (install_current _ v) in Einst by apply Hinv. injection Einst as <-.
  assert (Hgone : forall i, i <> cp_file c -> i ∈ cp_victims c \/ files !! i = None -> files' !! i = None).
  { intros i Hne Hi. rewrite compact_end_files, compacted_files_lookup, compact_end_id, decide_False by done. case_decide; [done|]. by destruct Hi. }
  split; cbn [st_versions st_log st_disk st_next_file_id st_compaction]; fold files'.
  - by rewrite last_snoc.
  - apply compact_end_version.
  - apply (si_bounds _ _ _ _ Hinv).
  - intros i. rewrite compact_end_files, compacted_files_lookup, compact_end_id. case_decide; [subst; intros _; apply Hci|]. case_decide; [by intros [??]|]. apply Hinv.
  - intros i [Hi|Hi]%obsoleted_app.
    + split; [by apply Hci|]. split; [|done]. apply Hgone; [intros ->; by apply Hci in Hi|by left].
    + destruct (si_obsoleted _ _ _ _ Hinv i Hi) as (Hlt & En & Hne). split; [done|]. split; [|done]. apply Hgone; [by apply Hne|by right].
  - intros w i Hw Hi. apply elem_of_app in Hw as [Hw|Hw%list_elem_of_singleton].
    + destruct (si_chain _ _ _ _ Hinv w i Hw Hi) as (? & ? & En & Hne). split_and!; [done..| |done]. apply Hgone; [by apply Hne|by right].
    + subst w. change (i ∈ cp_victims c) in Hi. assert (i <> cp_file c) by (intros ->; by apply Hci in Hi).
      split_and!; [by apply Hci| |apply Hgone; auto|done]. change (dv_file_infos delta !! i = None). by rewrite compact_end_infos, decide_False, decide_True.
  - done.
Qed.
End compact_end.

(** ** Rolling the manifest *)

Lemma snapshot_files P s v A :
  store_inv P s v A ->
  (forall i nf, files_of [version_snapshot v] !! i = Some nf -> nf_id nf = i) /\
  (forall i, is_Some (files_of [version_snapshot v] !! i) <-> is_Some (files_of (st_log s) !! i)) /\
  (forall i, i ∈ sm_obsoleted_files (apply_version_edits [version_snapshot v]) <-> i ∈ v_obsoleted_files v).
Proof.
  intros Hinv. pose proof (si_version _ _ _ _ Hinv) as Hv. unfold files_of, apply_version_edits, version_snapshot. cbn [foldl].
  unfold apply_edit. cbn [ve_file_stream se_new_files se_deleted_files sm_active_files sm_obsoleted_files].
  set (m := foldl _ ∅ _). assert (Hin : forall i, i ∈ nf_id <$> ((λ e : Z * FileInfo, new_file_from_info e.2) <$> map_to_list (v_files v)) <-> is_Some (v_files v !! i)).
  { intros i. rewrite <- list_fmap_compose, list_elem_of_fmap.
    assert (Hid : forall j info, v_files v !! j = Some info -> fm_file_id (fi_meta info) = j) by (intros; by eapply version_id).
    split.
    - intros ([j info] & -> & Hj%elem_of_map_to_list). cbn. rewrite (Hid j info Hj). eauto.
    - intros [info Hi]. exists (i, info). split; [symmetry; by apply Hid|]. by apply elem_of_map_to_list. }
  assert (Hlast : v ∈ st_versions s) by (apply last_Some_elem_of, Hinv). split_and!; intros i.
  - intros nf. destruct (foldl_delete (elements (v_obsoleted_files v)) (mkFilesSummary m ∅) i) as [-> _]. case_decide; [done|]. cbn.
    apply foldl_insert_id. intros j y Hj. by rewrite lookup_empty in Hj.
  - destruct (foldl_delete (elements (v_obsoleted_files v)) (mkFilesSummary m ∅) i) as [-> _]. rewrite <- (vi_files _ _ _ _ _ Hv).
    case_decide as Ho; cbn.
    + apply elem_of_elements in Ho. destruct (si_chain _ _ _ _ Hinv v i Hlast Ho) as (_ & -> & _). by split; intros [??].
    + unfold m. rewrite foldl_insert_files, Hin, lookup_empty. split; [intros [?|[??]]; done|by left].
  - destruct (foldl_delete (elements (v_obsoleted_files v)) (mkFilesSummary m ∅) i) as [_ ->]. rewrite elem_of_elements. cbn. set_solver.
Qed.

Lemma compacted_files_dom files files' victims nf i :
  is_Some (files' !! i) <-> is_Some (files !! i) -> is_Some (compacted_files files' victims nf !! i) <-> is_Some (compacted_files files victims nf !! i).
Proof. intros Hd. rewrite !compacted_files_lookup. repeat case_decide; done. Qed.

Lemma roll_inv P s v A :
  store_inv P s v A -> store_inv P (mkStore (st_versions s) [version_snapshot v] (st_disk s) (st_next_file_id s) (st_compaction s)) v A.
Proof.
  intros Hinv. destruct (snapshot_files P s v A Hinv) as (Hid & Hd & Ho). pose proof (si_version _ _ _ _ Hinv) as Hv.
  assert (Hnone : forall i, files_of (st_log s) !! i = None -> files_of [version_snapshot v] !! i = None).
  { intros i. rewrite !eq_None_not_Some. by rewrite Hd. }
  assert (Hlast : v ∈ st_versions s) by (apply last_Some_elem_of, Hinv).
  split; cbn [st_versions st_log st_disk st_next_file_id st_compaction]; [apply Hinv| |apply Hinv|..].
  - destruct Hv as [Hdi Hr Hne Hl HF Hm Hh]. split; [by eapply disk_inv_ext|done..| |done|].
    + intros i. by rewrite HF, Hd.
    + intros g pg Hg. destruct (Hh g pg Hg) as [? ?]. split; [by apply Hd|done].
  - intros i Hi. apply (si_active _ _ _ _ Hinv). by apply Hd.
  - intros i Hi%Ho. destruct (si_chain _ _ _ _ Hinv v i Hlast Hi) as (? & _ & ? & ?). split_and!; auto.
  - intros w i Hw Hi. destruct (si_chain _ _ _ _ Hinv w i Hw Hi) as (? & ? & ? & ?). split_and!; auto.
  - intros c Hc. destruct (si_compaction _ _ _ _ Hinv c Hc) as (hc & C & [Hcf Hcinfo Hcid Hch Hcc Hcfresh Hcn Hcs Hcv Hcd Hcg Hcne Hco Hcl]).
    exists hc, C. split; cbn [st_versions st_log st_disk st_next_file_id st_compaction]; auto.
    eapply disk_inv_ext; [| |exact Hcd].
    + intros i nf. rewrite compacted_files_lookup. case_decide; [by intros [= <-]|]. case_decide; [done|]. apply Hid.
    + intros i. apply compacted_files_dom, Hd.
Qed.

(** ** Cleaning up *)

Lemma clean_disk_ok P s v A w : store_inv P s v A -> w ∈ st_versions s ->
  clean_obsoleted_files w (v_obsoleted_files w) (st_disk s) = Ok (base.filter (λ e, e.1 ∉ v_obsoleted_files w) (st_disk s)).
Proof.
  intros Hinv Hw. unfold clean_obsoleted_files. rewrite bool_decide_true; [done|]. apply Forall_forall.
  intros i Hi%elem_of_elements. by apply (si_chain _ _ _ _ Hinv w i).
Qed.

Lemma cleanup_inv P s v A w disk :
  store_inv P s v A -> w ∈ st_versions s -> clean_obsoleted_files w (v_obsoleted_files w) (st_disk s) = Ok disk ->
  store_inv P (mkStore (st_versions s) (st_log s) disk (st_next_file_id s) (st_compaction s)) v A.
Proof.
  intros Hinv Hw E. rewrite (clean_disk_ok P s v A w Hinv Hw) in E. injection E as <-. pose proof (si_version _ _ _ _ Hinv) as Hv.
  set (disk := base.filter _ _). assert (Hd : forall i, i ∉ v_obsoleted_files w -> disk !! i = st_disk s !! i).
  { intros i Hi. unfold disk. rewrite map_lookup_filter. destruct (st_disk s !! i); cbn; [by rewrite option_guard_True|done]. }
  assert (Hf : forall i, is_Some (files_of (st_log s) !! i) -> disk !! i = st_disk s !! i).
  { intros i [? Hi]. apply Hd. intros Ho. destruct (si_chain _ _ _ _ Hinv w i Hw Ho) as (_ & _ & ? & _). congruence. }
  split; cbn [st_versions st_log st_disk st_next_file_id st_compaction]; [apply Hinv| |apply Hinv..|].
  - by eapply version_inv_disk.
  - intros c Hc. destruct (si_compaction _ _ _ _ Hinv c Hc) as (hc & C & [Hcf Hcinfo Hcid Hch Hcc Hcfresh Hcn Hcs Hcv Hcd Hcg Hcne Hco Hcl]).
    assert (Hcp : disk !! cp_file c = st_disk s !! cp_file c).
    { apply Hd. intros Ho. destruct (si_chain _ _ _ _ Hinv w _ Hw Ho) as (_ & _ & _ & Hne). by apply (Hne c). }
    exists hc, C. split; cbn [st_versions st_log st_disk st_next_file_id st_compaction]; auto; [congruence|].
    eapply disk_inv_disk; [|exact Hcd]. intros i. rewrite compacted_files_lookup. case_decide as Ei.
    { intros _. rewrite Ei. unfold new_file_from_info. cbn [nf_id]. destruct Hcinfo as [-> _]. by rewrite Hcid. }
    case_decide; [by intros [??]|]. apply Hf.
Qed.

(** ** Restarting *)

Lemma restart_recovers P s v A exist_files :
  store_inv P s v A ->
  exists next table delta del A', recover (read_meta_of (st_disk s)) (st_log s) exist_files = Ok (next, table, delta, del) /\
    next = summary_next_file_id (apply_version_edits (st_log s)) /\ dv_obsoleted_files delta = ∅ /\
    groups_repr (dv_page_groups delta) A' /\ nonempty A' = A' /\
    (forall addr id, pages_live P !! addr = Some id -> is_Some (active_at A' (addr_group addr) (wrap32 addr))) /\
    (forall i m, (fi_meta <$> dv_file_infos delta) !! i = Some m <->
       exists h, is_Some (files_of (st_log s) !! i) /\ st_disk s !! i = Some h /\ m = fh_file_meta h) /\
    (forall g pg, dv_page_groups delta !! g = Some pg -> group_home (st_disk s) (files_of (st_log s)) g (pg_meta pg)) /\
    (forall i, i ∈ del -> files_of (st_log s) !! i = None) /\
    (forall addr id, pages_live P !! addr = Some id -> pages_newest P !! id = Some addr -> table_get id table = Ok addr).
Proof.
  intros Hinv. pose proof (vi_disk _ _ _ _ _ (si_version _ _ _ _ Hinv)) as Hd. pose proof (di_ok _ _ _ _ Hd) as Hok.
  destruct (recover_ok _ (st_log s) exist_files Hok) as (table & G & F & del & l & A' & E & Hr & Hne & Hact & Hmeta & HF & Hdel & _ & _ & Hget).
  fold (files_of (st_log s)) in Hact, HF, Hdel, Hget, Hmeta. eexists _, table, _, del, A'. split; [exact E|].
  split; [done|]. split; [done|]. split; [done|]. split; [done|]. split; [|split; [done|split; [|split]]].
  - intros addr id Ha. destruct (di_live _ _ _ _ Hd addr id Ha) as [Hfit (i & h & m & t & Hi & Hh & Hg & [pm Hpm] & _)].
    exists (pm_handle pm). apply Hact. split; [exists m, pm; split; [by exists i, h|done]|].
    intros (j & hj & Hj & Hhj & Hn). apply (di_kept _ _ _ _ Hd addr id j hj Ha Hj Hhj). apply names_addr; [|done|done].
    apply Forall_forall. intros x Hx. by apply (di_deallocs _ _ _ _ Hd j hj x).
  - intros g pg Hg. destruct (Hmeta g pg Hg) as (i & h & [nf Hi] & Hh & Hm). destruct (ao_file _ _ Hok i nf Hi) as (_ & h' & Hh' & Hho & _).
    assert (h' = h) as -> by congruence. pose proof (gm_file _ _ _ (ho_groups _ _ Hho g _ Hm)) as Ef. unfold group_home. rewrite Ef. split; [eauto|].
    exists h, (pg_meta pg). done.
  - intros i Hi. apply Hdel in Hi as [_ [Hi|Hi]]; [|done]. by apply (si_obsoleted _ _ _ _ Hinv).
  - intros addr id Ha Hn. destruct (di_live _ _ _ _ Hd addr id Ha) as [_ (i & h & m & t & Hi & Hh & _ & _ & Ht & Hin)].
    set (entries := concat (file_tables (st_disk s) <$> sorted_files (files_of (st_log s)))) in *.
    assert (Hmap : forall id addr, maps_page (st_disk s) (files_of (st_log s)) id addr <-> (addr, id) ∈ entries).
    { intros id' addr'. symmetry. by apply recovered_tables. }
    assert (Hm : maps_page (st_disk s) (files_of (st_log s)) id addr) by (exists i, h, (addr_group addr), t; done).
    apply Hget. destruct (proj2 (newest_dom entries ∅ id (entries_ok _ _ Hok))) as [n En]; [right; exists addr; by apply Hmap|]. rewrite En. f_equal.
    destruct (newest_spec entries ∅ id) as (H1 & _ & H3). rewrite En in H1, H3. cbn [default] in H1, H3.
    apply Hmap, H3 in Hm. destruct H1 as [H1|H1].
    + change (n = 0) in H1. pose proof (entries_ok _ _ Hok) as Hall. rewrite Forall_forall in Hall. destruct (Hall (addr, id)) as [_ ?]; [apply Hmap; exists i, h, (addr_group addr), t; done|]. cbn in *. lia.
    + apply Hmap in H1. destruct (di_newest _ _ _ _ Hd n id H1) as (n' & Hn' & Hle). rewrite Hn in Hn'. injection Hn' as <-. clear -Hm Hle.
      change (addr <= n) in Hm. lia.
Qed.

Lemma restart_inv P s v A exist_files next table delta del :
  store_inv P s v A -> recover (read_meta_of (st_disk s)) (st_log s) exist_files = Ok (next, table, delta, del) ->
  exists v' A', store_inv P (mkStore [with_buffer_set next delta] (st_log s) (base.filter (λ e, e.1 ∉ del) (st_disk s)) next None) v' A'.
Proof.
  intros Hinv E. destruct (restart_recovers P s v A exist_files Hinv) as (next' & table' & delta' & del' & A' & E' & En & Eo & Hr & Hne & Hl & HF & Hh & Hdel & _).
  rewrite E' in E. injection E as -> -> -> ->. destruct (si_bounds _ _ _ _ Hinv) as [Hb Hn].
  destruct (next_file_id_ok (apply_version_edits (st_log s)) (st_next_file_id s)) as (Hnext & Ha & Ho); [lia|apply Hinv|intros i Hi; by apply (si_obsoleted _ _ _ _ Hinv)|].
  rewrite <- En in *. set (disk := base.filter _ _).
  assert (Hd : forall i, is_Some (files_of (st_log s) !! i) -> disk !! i = st_disk s !! i).
  { intros i [? Hi]. unfold disk. rewrite map_lookup_filter. destruct (st_disk s !! i); cbn; [|done]. rewrite option_guard_True; [done|].
    intros Hx%Hdel. congruence. }
  exists (with_buffer_set next delta), A'. split; cbn [st_versions st_log st_disk st_next_file_id st_compaction with_buffer_set v_first_buffer_id]; [done| |lia|done| | |done].
  - eapply version_inv_disk; [exact Hd|]. pose proof (vi_disk _ _ _ _ _ (si_version _ _ _ _ Hinv)) as Hdi. split; [|done..| | |done].
    + by eapply disk_inv_bound.
    + intros i. cbn. rewrite <- (fmap_is_Some fi_meta), <- lookup_fmap. split; [intros [m (h & Hi & _)%HF]; done|]. intros [nf Hi].
      destruct (ao_file _ _ (di_ok _ _ _ _ Hdi) i nf Hi) as (_ & h & Hh' & _). exists (fh_file_meta h). apply HF. eauto.
    + intros i info h Hi Hh'. cbn in Hi. destruct (proj1 (HF i (fi_meta info))) as (h' & _ & ? & ->); [by rewrite lookup_fmap, Hi|].
      by assert (h' = h) as -> by congruence.
  - intros i Hi. split_and!; [by apply Ho|by apply (si_obsoleted _ _ _ _ Hinv)|done].
  - intros w i ->%list_elem_of_singleton Hi. cbn in Hi. rewrite Eo in Hi. by apply elem_of_empty in Hi.
Qed.

(** ** Every step *)

Lemma reachable_inv P s : reachable P s -> exists v A, store_inv P s v A.
Proof.
  induction 1 as [|P s P' s' _ (v & A & Hinv) Hs]; [eexists _, _; apply store_new_inv|]. pose proof (si_last _ _ _ _ Hinv) as Hl.
  inversion Hs; subst; try (assert (v0 = v) as -> by congruence).
  - destruct (flush_version P s v A Hinv f now dealloc_pages new m h info) as (obs & delta' & E & _); [done..|].
    assert (Ed : Ok (edit, delta) = Ok (edit_of (new_file_from_id f) obs, delta')) by congruence. injection Ed as -> ->.
    eexists _, _. by eapply flush_inv.
  - eexists _, _. by apply compact_inv.
  - destruct (si_compaction _ _ _ _ Hinv c) as (hc & C & Hci); [done|]. eexists _, _. by eapply compacted_inv.
  - eexists _, _. by apply roll_inv.
  - eexists _, _. by eapply cleanup_inv.
  - by eapply restart_inv.
Qed.

(** ** The store as a whole *)

(** The version finds the page through its group, in a file that is on the disk and
    that has the page there. *)
Definition page_found (disk : gmap Z FileMetaHolder) (page_groups : gmap Z PageGroup) (file_infos : gmap Z FileInfo) (addr : Z) : Prop :=
  exists pg ph h mh, page_groups !! addr_group addr = Some pg /\ get_page_handle addr pg = Ok (Some ph) /\
    is_Some (file_infos !! pgm_file_id (pg_meta pg)) /\ disk !! pgm_file_id (pg_meta pg) = Some h /\
    fh_page_groups h !! addr_group addr = Some mh /\ pm_handle <$> pgm_page_meta_map mh !! wrap32 addr = Some ph.

Lemma active_found disk files G F A addr :
  groups_repr G A -> (forall i, is_Some (F !! i) <-> is_Some (files !! i)) -> (forall g pg, G !! g = Some pg -> group_home disk files g (pg_meta pg)) ->
  is_Some (active_at A (addr_group addr) (wrap32 addr)) -> page_found disk G F addr.
Proof.
  intros Hr HF Hh [ph Hph]. unfold active_at in Hph.
  destruct (groups_repr_lookup _ _ (addr_group addr) Hr) as [(pg & act & Hg & Ha & dead & Hrep)|[_ Ha]]; rewrite Ha in Hph; [|done]. cbn in Hph.
  destruct (Hh _ _ Hg) as [Hf (h & mh & Hd & Hmh & Hs)]. exists pg, ph, h, mh.
  split_and!; [done| |by apply HF|done|done|].
  - rewrite (get_page_handle_ok pg act dead addr Hrep). by rewrite Hph.
  - rewrite <- lookup_fmap, <- Hs. apply (lookup_weaken act); [done|]. rewrite (pr_active _ _ _ Hrep). apply active_of_subseteq.
Qed.

(** [C2] No live page is lost: whatever flushes, compactions (also with flushes between
    their two halves), rolls of the manifest, clean-ups and restarts have happened, the
    current version finds every page that was flushed and not deallocated since, at the
    place where a file on the disk has it; and cleaning up after any version that is
    still in the chain never meets a file that version uses. *)
Theorem store_keeps_live_pages P s :
  reachable P s ->
  exists v, owner_current (st_versions s) = Ok v /\
    (forall addr id, pages_live P !! addr = Some id -> page_found (st_disk s) (v_page_groups v) (v_files v) addr) /\
    (forall w, w ∈ st_versions s -> exists disk, clean_obsoleted_files w (v_obsoleted_files w) (st_disk s) = Ok disk).
Proof.
  intros (v & A & Hinv)%reachable_inv. pose proof (si_version _ _ _ _ Hinv) as Hv. exists v. split_and!.
  - unfold owner_current. by rewrite (si_last _ _ _ _ Hinv).
  - intros addr id Ha. eapply active_found; [apply Hv|apply Hv|apply Hv|by eapply (vi_live _ _ _ _ _ Hv)].
  - intros w Hw. eexists. by apply (clean_disk_ok P s v A).
Qed.

(** [C3] A crash loses no live page: from every reachable state, recovery succeeds; the
    version it builds finds every live page in a file on the disk; the page table maps
    each page id to its newest address when the page there is live; and no file the
    version needs is deleted. *)
Theorem crash_recovers_live_pages P s exist_files :
  reachable P s ->
  exists next table delta del, recover (read_meta_of (st_disk s)) (st_log s) exist_files = Ok (next, table, delta, del) /\
    (forall addr id, pages_live P !! addr = Some id -> page_found (st_disk s) (dv_page_groups delta) (dv_file_infos delta) addr) /\
    (forall addr id, pages_live P !! addr = Some id -> pages_newest P !! id = Some addr -> table_get id table = Ok addr) /\
    (forall i, i ∈ del -> dv_file_infos delta !! i = None).
Proof.
  intros (v & A & Hinv)%reachable_inv.
  destruct (restart_recovers P s v A exist_files Hinv) as (next & table & delta & del & A' & E & _ & _ & Hr & _ & Hl & HF & Hh & Hdel & Ht).
  assert (HF' : forall i, is_Some (dv_file_infos delta !! i) <-> is_Some (files_of (st_log s) !! i)).
  { intros i. rewrite <- (fmap_is_Some fi_meta), <- lookup_fmap. split; [intros [m (h & Hi & _)%HF]; done|]. intros [nf Hi].
    destruct (ao_file _ _ (di_ok _ _ _ _ (vi_disk _ _ _ _ _ (si_version _ _ _ _ Hinv))) i nf Hi) as (_ & h & Hh' & _). exists (fh_file_meta h). apply HF. eauto. }
  exists next, table, delta, del. split_and!; [exact E| |exact Ht|].
  - intros addr id Ha. eapply active_found; [exact Hr|exact HF'|exact Hh|by eapply Hl].
  - intros i Hi. apply eq_None_not_Some. intros Hx%HF'. rewrite (Hdel i Hi) in Hx. by destruct Hx.
Qed.

(** [C38] A flush can always finish: in every reachable state, the version that follows
    from a well-formed page file is computed and installed without an error or a panic,
    and its edit names the file and none of the files the new version keeps. *)
Theorem flush_always_installs P s v f now dealloc_pages new m h info :
  reachable P s -> owner_current (st_versions s) = Ok v -> st_next_file_id s <= f ->
  flushed f (v_first_buffer_id v) dealloc_pages new m h -> meta_like (fi_meta info) (fh_file_meta h) ->
  exists obsoleted delta versions,
    flush_delta v now (page_group_new m) info dealloc_pages = Ok (make_flush_version_edit f obsoleted, delta) /\
    owner_install delta (st_versions s) = Ok versions /\
    is_Some (dv_file_infos delta !! f) /\ forall i, i ∈ obsoleted -> dv_file_infos delta !! i = None.
Proof.
  intros (v' & A & Hinv)%reachable_inv Hcur Hf Hnew Hinfo. pose proof (si_last _ _ _ _ Hinv) as Hl.
  unfold owner_current in Hcur. rewrite Hl in Hcur. injection Hcur as ->.
  destruct (flush_version P s v A Hinv f now dealloc_pages new m h info Hnew Hinfo) as (obs & delta & E & _ & _ & Hobs & _ & _ & _ & HF).
  exists obs, delta. eexists. split; [exact E|]. split; [by apply install_current|]. split.
  - rewrite <- (fmap_is_Some fi_meta), <- lookup_fmap. exists (fi_meta info). apply HF. by left.
  - intros i Hi. apply eq_None_not_Some. intros [info0 Hx]. assert (Hm : (fi_meta <$> dv_file_infos delta) !! i = Some (fi_meta info0)) by (by rewrite lookup_fmap, Hx).
    apply HF in Hm as [[-> _]|(_ & _ & ?)]; [|done]. apply Hobs, (si_active _ _ _ _ Hinv) in Hi. lia.
Qed.
