(* ===== verification/VersionSafe.v ===== *)
(** * Versions are safe

    The invariant of [VersionLife] as a whole, that every step keeps it, and what it
    says: nothing panics, and whoever has a version finds its files and its buffers. *)

From stdpp Require Import base numbers list gmap.
From Stdlib Require Import ZArith Lia.
From S2P Require Import Prelude PageGroup WriteBuffer BufferSet Version Reclaim Latch Shutdown VersionLife VersionChain VersionBuffers.

(** ** What the environment promises *)

(** A new version: its files were written, or are those of the current version, and no
    version has obsoleted them. *)
Definition delta_ok (delta : DeltaVersion) (s : Life) : Prop :=
  forall f, is_Some (dv_file_infos delta !! f) ->
    (is_Some (lf_disk s !! f) \/ (exists v, last (lf_versions s) = Some v /\ is_Some (v_files v !! f))) /\
    (f ∉ dv_obsoleted_files delta) /\ (forall u, u ∈ lf_versions s -> f ∉ v_obsoleted_files u).

(** Clients come with a new id and before the shutdown; a transaction seals a buffer that
    its version can see; fewer than 2^32 buffers are used; a write keeps the id of its
    buffer and does not seal it; a compaction is one of the reclaim job; and the store is
    shut down when it has no clients and no writers are left. *)
Definition life_ok (e : LifeEvent) (s : Life) : Prop :=
  match e with
  | EvPin id | EvFlush id _ _ | EvWaitReclaim id => lf_clients s !! id = None /\ sc_closed (lf_shutdown s) = false
  | EvUnpin id => exists i, lf_clients s !! id = Some (Pinned i)
  | EvSeal id g => exists i a, lf_clients s !! id = Some (Pinned i) /\ first_at (lf_versions s) i = Some a /\ a <= g < bsv_end (lf_buffers s)
  | EvClient _ _ => bsv_end (lf_buffers s) < u32_max
  | EvBuffer g b' => sc_closed (lf_shutdown s) = false /\ exists b, bsv_get g (lf_buffers s) = Ok (Some b) /\
      wb_group_id b' = g /\ 0 <= wb_state b' /\ wb_is_sealed b' = wb_is_sealed b
  | EvFile _ | EvReclaim | EvCleanup => True
  | EvFlushJob _ delta => delta_ok delta s
  | EvCompact delta => delta_ok delta s /\ exists i, lf_reclaim s = RcReclaim i
  | EvTerminate => lf_clients s = ∅ /\ forall b, b ∈ bsv_snapshot (lf_buffers s) -> has_writer (wb_buffer_state b) = false
  end.

(** ** The invariant *)

Record life_inv (o : LifeOptions) (max : Z) (s : Life) : Prop := {
  li_chain : chain_inv (lf_versions s) (lf_new_version s) (lf_reclaiming s) (lf_disk s) (holders s) (lf_cleanup s) (lf_reclaim s);
  li_buffers : buf_inv max (lf_versions s) (cleaned (lf_cleanup s)) (lf_buffers s) (lf_permits s) (lf_flushed s) (lf_clients s)
    (lf_flush s) (sc_closed (lf_shutdown s));
  li_capacity : exists g mem b, wb_with_capacity g (lo_capacity o) mem = Ok b;
}.

Lemma elem_of_holders p s : p ∈ holders s <->
  (exists id cl, lf_clients s !! id = Some cl /\ client_version cl = p) \/ flush_version (lf_flush s) = Some p \/
  cleanup_version (lf_cleanup s) = Some p \/ reclaim_version (lf_reclaim s) = Some p.
Proof.
  unfold holders. rewrite !elem_of_app. rewrite list_elem_of_fmap.
  assert (Ho : forall o : option nat, p ∈ option_list o <-> o = Some p).
  { intros [q|]; cbn; [rewrite list_elem_of_singleton|rewrite elem_of_nil]; naive_solver. }
  rewrite !Ho. split; (intros [H|H]; [left|right; done]).
  - destruct H as (cl & -> & ([id cl'] & -> & Hin)%list_elem_of_fmap). apply elem_of_map_to_list in Hin. by exists id, cl'.
  - destruct H as (id & cl & Hid & <-). exists cl. split; [done|]. apply list_elem_of_fmap. exists (id, cl). split; [done|]. by apply elem_of_map_to_list.
Qed.

Lemma holders_all (P : nat -> Prop) s :
  (forall id cl, lf_clients s !! id = Some cl -> P (client_version cl)) -> (forall p, flush_version (lf_flush s) = Some p -> P p) ->
  (forall p, cleanup_version (lf_cleanup s) = Some p -> P p) -> (forall p, reclaim_version (lf_reclaim s) = Some p -> P p) ->
  forall p, p ∈ holders s -> P p.
Proof. intros H1 H2 H3 H4 p [(id & cl & Hid & <-)|[?|[?|?]]]%elem_of_holders; eauto. Qed.
Lemma holds_client s id cl : lf_clients s !! id = Some cl -> client_version cl ∈ holders s.
Proof. intros Hid. apply elem_of_holders. left. eauto. Qed.
Lemma holds_flush s p : flush_version (lf_flush s) = Some p -> p ∈ holders s.
Proof. intros ?. apply elem_of_holders. auto. Qed.
Lemma holds_cleanup s p : cleanup_version (lf_cleanup s) = Some p -> p ∈ holders s.
Proof. intros ?. apply elem_of_holders. auto. Qed.
Lemma holds_reclaim s p : reclaim_version (lf_reclaim s) = Some p -> p ∈ holders s.
Proof. intros ?. apply elem_of_holders. auto. Qed.
#[local] Hint Resolve holds_client holds_flush holds_cleanup holds_reclaim : core.

Section inv.
Context {o : LifeOptions} {max : Z} {s : Life} (Hi : life_inv o max s).

Lemma holds_range p : p ∈ holders s -> (freed (lf_cleanup s) <= p < length (lf_versions s))%nat.
Proof using Hi. apply (ci_held _ _ _ _ _ _ _ (li_chain _ _ _ Hi)). Qed.

(** The clients change; those that are new have the current version or one between. *)
Lemma inv_clients m :
  (forall id cl, m !! id = Some cl -> client_version cl ∈ holders s \/ (freed (lf_cleanup s) <= client_version cl < length (lf_versions s))%nat) ->
  buf_inv max (lf_versions s) (cleaned (lf_cleanup s)) (lf_buffers s) (lf_permits s) (lf_flushed s) m (lf_flush s) (sc_closed (lf_shutdown s)) ->
  life_inv o max (with_clients m s).
Proof using Hi.
  intros Hm Hb. split; [|exact Hb|apply Hi]. eapply chain_held; [apply Hi|]. apply holders_all; cbn; eauto.
Qed.
Lemma inv_set_client id cl :
  client_version cl ∈ holders s \/ (freed (lf_cleanup s) <= client_version cl < length (lf_versions s))%nat ->
  client_ok (lf_versions s) (lf_buffers s) (lf_flushed s) cl -> is_switching cl = false ->
  (forall cl', lf_clients s !! id = Some cl' -> is_switching cl' = false) -> sc_closed (lf_shutdown s) = false ->
  life_inv o max (with_clients (<[id := cl]> (lf_clients s)) s).
Proof using Hi.
  intros Hv Hok Hs Hold Hc. apply inv_clients; [|by apply buf_set_client; [apply Hi|..]].
  intros id' cl' [[_ <-]|[_ Hid]]%lookup_insert_Some; [done|]. left. by eapply holds_client.
Qed.
Lemma inv_end_client id : (forall cl', lf_clients s !! id = Some cl' -> is_switching cl' = false) -> life_inv o max (with_clients (delete id (lf_clients s)) s).
Proof using Hi.
  intros Hold. apply inv_clients; [|by apply buf_end_client; [apply Hi|]].
  intros id' cl' [_ Hid]%lookup_delete_Some. left. by eapply holds_client.
Qed.

Lemma inv_current : (freed (lf_cleanup s) <= length (lf_versions s) - 1 < length (lf_versions s))%nat /\
  first_at (lf_versions s) (length (lf_versions s) - 1) = Some (current_first (lf_versions s)).
Proof using Hi.
  destruct (ci_cleanup _ _ _ _ _ _ _ (li_chain _ _ _ Hi)) as [Hf _]. split; [lia|].
  destruct (chain_current (li_chain _ _ _ Hi)) as (v & Hl & Hv). unfold first_at, current_first. by rewrite Hl, Hv.
Qed.

(** What a version at a position can see starts after what was released. *)
Lemma inv_first i a : (freed (lf_cleanup s) <= i)%nat -> first_at (lf_versions s) i = Some a ->
  bsv_start (lf_buffers s) <= a <= current_first (lf_versions s).
Proof using Hi.
  intros Hle Ha. pose proof (cleaned_freed (lf_cleanup s)) as Hcf. pose proof (bi_start _ _ _ _ _ _ _ _ _ (li_buffers _ _ _ Hi)) as Hs.
  destruct inv_current as [_ Hc]. unfold first_at in *. apply fmap_Some in Ha as (v & Hv & ->), Hs as (u & Hu & ->), Hc as (w & Hw & ->).
  pose proof (chain_first_mono (li_chain _ _ _ Hi) _ _ _ _ (ltac:(lia) : (cleaned (lf_cleanup s) <= i)%nat) Hu Hv).
  apply lookup_lt_Some in Hv as Hlt. pose proof (chain_first_mono (li_chain _ _ _ Hi) _ _ _ _ (ltac:(lia) : (i <= length (lf_versions s) - 1)%nat) Hv Hw). lia.
Qed.
End inv.

(** ** Installing versions *)

Definition installed (delta : DeltaVersion) (s s' : Life) (w : Version) : Prop :=
  (forall f, is_Some (v_files w !! f) <-> is_Some (dv_file_infos delta !! f)) /\
  s' = with_chain (lf_versions s ++ [w]) (<[(length (lf_versions s) - 1)%nat := latch1 true]> (lf_new_version s) ++ [latch1 false])
         (lf_reclaiming s ++ [latch1 false]) s.

Lemma install_ok o max s delta : life_inv o max s -> delta_ok delta s -> (dv_reason delta = ReasonFlush -> current_first (lf_versions s) + 1 < 2 ^ 32) ->
  exists s' w, life_install delta s = (Ok tt, s') /\ installed delta s s' w /\
    v_first_buffer_id w = current_first (lf_versions s) + (match dv_reason delta with ReasonFlush => 1 | ReasonCompact => 0 end) /\
    chain_inv (lf_versions s') (lf_new_version s') (lf_reclaiming s') (lf_disk s') (holders s') (lf_cleanup s') (lf_reclaim s').
Proof.
  intros Hi Hd Hm. pose proof (li_chain _ _ _ Hi) as Hc. destruct (chain_current Hc) as (v & Hl & Hv).
  pose proof (ci_new _ _ _ _ _ _ _ Hc (length (lf_versions s) - 1)%nat) as Hnv. destruct (inv_current Hi) as [Hcur Hfa].
  rewrite bool_decide_false in Hnv by lia. specialize (Hnv (proj2 Hcur)).
  assert (Hcf : current_first (lf_versions s) = v_first_buffer_id v) by (unfold current_first; by rewrite Hl).
  assert (Hr : 0 <= current_first (lf_versions s)).
  { pose proof (bi_set _ _ _ _ _ _ _ _ _ (li_buffers _ _ _ Hi)) as Hset. destruct (inv_first Hi _ _ (proj1 Hcur) Hfa) as [? _].
    destruct Hset as [(? & _)|(_ & _ & ? & _)]; lia. }
  unfold life_install, updates, owner_install, owner_current. rewrite Hl, Hnv. cbn [expect mbind res_bind]. rewrite latch1_down. cbn [mbind res_bind].
  set (w := next_version v delta). eexists _, w. split; [done|].
  assert (Hw : v_first_buffer_id w = current_first (lf_versions s) + (match dv_reason delta with ReasonFlush => 1 | ReasonCompact => 0 end)).
  { subst w. unfold next_version, with_buffer_set. cbn. rewrite Hcf in *. destruct (dv_reason delta); [|lia]. apply wrap_small. unfold fits. specialize (Hm eq_refl). lia. }
  split_and!; [split; [by intros f|done]|done|]. cbn [with_chain lf_versions lf_new_version lf_reclaiming lf_disk lf_cleanup lf_reclaim].
  eapply (chain_install Hc v w); [done| |done| | |done].
  - rewrite Hw, Hcf. unfold first_step, w, next_version, with_buffer_set. cbn. by destruct (dv_reason delta).
  - intros f Hf. destruct (Hd f Hf) as ([?|(v' & Hv' & Hs)] & _ & _); [done|]. assert (v' = v) as -> by congruence.
    eapply (ci_files _ _ _ _ _ _ _ Hc); [|exact Hv|done]. pose proof (cleaned_freed (lf_cleanup s)). lia.
  - intros f u [Hu| ->%list_elem_of_singleton]%elem_of_app Hf; destruct (Hd f Hf) as (_ & ? & ?); [by eauto|done].
Qed.

(** ** Clients *)

Ltac steps := repeat first [rewrite st_gets | rewrite st_modify | rewrite st_mret].

(** [switch_buffer] of a client that can see the buffer. *)
Lemma switch_ok o max s id cl i g next a :
  life_inv o max s -> lf_clients s !! id = Some cl -> is_switching cl = false -> client_version cl = i ->
  first_at (lf_versions s) i = Some a -> a <= g < bsv_end (lf_buffers s) ->
  exists s', switch_buffer id i g next s = (Ok tt, s') /\ life_inv o max s'.
Proof.
  intros Hi Hid Hns <- Ha Hg. pose proof (li_buffers _ _ _ Hi) as Hb. destruct (buf_client_open Hb _ _ Hid) as (Hcl & Hd & Hwf).
  pose proof (holds_client _ _ _ Hid) as Hh. pose proof (holds_range Hi _ Hh) as Hr. destruct (inv_first Hi _ _ (proj1 Hr) Ha) as [Hst Hcu].
  destruct (bsv_seal_ok (lf_buffers s) g Hwf (bi_words _ _ _ _ _ _ _ _ _ Hb)) as (b & Hget & _ & Hseal); [lia|].
  assert (Hold : forall cl', lf_clients s !! id = Some cl' -> is_switching cl' = false) by (intros cl'; congruence).
  unfold switch_buffer, seal_buffer. rewrite st_assoc. destruct (wb_is_sealed b) eqn:Es.
  - unfold reads. rewrite (st_bind_ok _ _ _ (None, lf_buffers s) s) by (by rewrite Hseal). cbn beta iota. rewrite st_assoc. steps.
    assert (E : with_buffers (lf_buffers s) s = s) by (by destruct s). rewrite E.
    destruct next as [[]|]; (eexists; split; [done|]); [apply inv_set_client|apply inv_end_client|apply inv_set_client]; try done; [by left| |by left].
    cbn. apply (bi_known _ _ _ _ _ _ _ _ _ Hb). lia.
  - destruct Hseal as (r & b' & Hseal & Hid' & Hw' & Hs' & Hwr). unfold reads.
    rewrite (st_bind_ok _ _ _ (Some r, bsv_update g b' (lf_buffers s)) s) by (by rewrite Hseal). cbn beta iota. rewrite st_assoc. steps.
    eexists. split; [done|]. split; [|eapply (buf_seal Hb); try done; lia|apply Hi].
    eapply chain_held; [apply Hi|]. apply holders_all; cbn; eauto. intros id' cl' [[_ <-]|[_ Hid2]]%lookup_insert_Some; left; eauto.
Qed.

Lemma reads_ok {A B} (f : Life -> res A) (k : A -> St Life B) s a : f s = Ok a -> mbind k (reads f) s = k a s.
Proof. intros E. unfold reads. by rewrite (st_bind_ok _ _ _ a s) by (by rewrite E). Qed.
Lemma updates_ok (f : Life -> res Life) s s' : f s = Ok s' -> updates f s = (Ok tt, s').
Proof. intros E. unfold updates. by rewrite E. Qed.
Lemma version_at_ok {B} i (k : Version -> St Life B) s v : lf_versions s !! i = Some v -> mbind k (version_at i) s = k v s.
Proof. intros E. apply reads_ok. by rewrite E. Qed.

(** The client leaves [switch_buffer] with the successor of its buffer. *)
Lemma install_step_ok o max s mem id i g r next :
  life_inv o max s -> lf_clients s !! id = Some (Switching i g r SwInstall next) -> bsv_end (lf_buffers s) < u32_max ->
  exists s', (_ ← install_successor (lo_capacity o) mem g; switched id i g next) s = (Ok tt, s') /\ life_inv o max s'.
Proof.
  intros Hi Hid Hm. pose proof (li_buffers _ _ _ Hi) as Hb. destruct (buf_switching Hb _ _ _ _ _ _ Hid) as (Hg & _ & _).
  destruct (buf_client_open Hb _ _ Hid) as (_ & _ & Hwf). pose proof (bsv_current_id _ Hwf) as [_ Hlt].
  destruct (li_capacity _ _ _ Hi) as (g0 & mem0 & b0 & Hcap). destruct (wb_new_again _ (wrap32 (g + 1)) _ _ mem _ Hcap) as [buf Hbuf].
  destruct (wb_new_ok _ _ _ _ Hbuf) as (Hbid & Hbst & Hbs & _).
  assert (Hg1 : wrap32 (g + 1) = g + 1) by (apply wrap_small; destruct Hwf as (? & ? & _); unfold fits, u32_max in *; lia). rewrite Hg1 in Hbid.
  set (ocl := match next with None => Some (Pinned i) | Some true => Some (FlushWait i g) | Some false => None end).
  destruct (buf_install Hb id i g r next ocl buf Hid Hm Hbid Hbst Hbs) as (set' & Ei & Hb').
  { subst ocl. destruct next as [[]|]; cbn; try done. split; [done|]. apply (bi_known _ _ _ _ _ _ _ _ _ Hb). lia. }
  unfold install_successor. rewrite st_assoc. rewrite (st_bind_ok (lift _) _ s buf s) by (unfold lift; by rewrite Hbuf).
  rewrite st_assoc. erewrite reads_ok by (by rewrite Ei). rewrite st_assoc. steps.
  assert (Hs' : forall s', lf_versions s' = lf_versions s -> lf_flush s' = lf_flush s -> lf_cleanup s' = lf_cleanup s -> lf_reclaim s' = lf_reclaim s ->
    lf_new_version s' = lf_new_version s -> lf_reclaiming s' = lf_reclaiming s -> lf_disk s' = lf_disk s ->
    lf_clients s' = partial_alter (λ _, ocl) id (lf_clients s) ->
    chain_inv (lf_versions s') (lf_new_version s') (lf_reclaiming s') (lf_disk s') (holders s') (lf_cleanup s') (lf_reclaim s')).
  { intros s' E1 E2 E3 E4 E5 E6 E7 E8. rewrite E1, E3, E4, E5, E6, E7. eapply chain_held; [apply Hi|].
    apply holders_all; rewrite ?E2, ?E3, ?E4, ?E8; eauto. intros id' cl' Hx. left. destruct (decide (id' = id)) as [->|Hne].
    - rewrite lookup_partial_alter_eq in Hx. apply holds_client in Hid. subst ocl. destruct next as [[]|]; by simplify_eq.
    - rewrite lookup_partial_alter_ne in Hx by done. eauto. }
  rewrite Hbid. unfold switched, set_client, end_client, modify.
  subst ocl. destruct next as [[]|]; (eexists; split; [done|]; split; [by apply Hs'|exact Hb'|apply Hi]).
Qed.

Lemma life_client_ok o max s mem id : life_inv o max s -> bsv_end (lf_buffers s) < u32_max ->
  exists s', client_step (lo_reclaim o) (lo_capacity o) mem id s = (Ok tt, s') /\ life_inv o max s'.
Proof.
  intros Hi Hm. pose proof (li_buffers _ _ _ Hi) as Hb. unfold client_step. steps. destruct (lf_clients s !! id) as [cl|] eqn:Hid; [|by exists s].
  destruct (buf_client_open Hb _ _ Hid) as (Hcl & Hd & Hwf). pose proof (holds_client _ _ _ Hid) as Hh. pose proof (holds_range Hi _ Hh) as Hr.
  pose proof (bi_clients _ _ _ _ _ _ _ _ _ Hb _ _ Hid) as Hok.
  assert (Hold : is_switching cl = false -> forall cl', lf_clients s !! id = Some cl' -> is_switching cl' = false) by (intros ? cl'; congruence).
  destruct cl as [i|i g wait|i g wait|i g r p next|i g|i|i]; cbn [client_version is_switching] in *.
  - by exists s.
  - steps. destruct (permits_wait_cond _ _); [|by exists s]. eexists. split; [done|]. apply inv_set_client; auto.
  - destruct Hok as (a & Ha & Hg). by eapply switch_ok.
  - assert (Hacq : forall kind, p <> SwInstall -> exists s', acquire_step id kind (Switching i g r SwInstall next) (Switching i g r SwAcquire next) s = (Ok tt, s') /\ life_inv o max s').
    { intros kind Hp. unfold acquire_step. steps. pose proof (buf_acquire Hb id i g r p next kind Hid Hp) as Ha.
      destruct (permits_acquire_fast kind (lf_permits s)) as [word ok]. steps. eexists. split; [done|]. split; [|destruct ok; exact Ha|apply Hi].
      eapply chain_held; [apply Hi|]. apply holders_all; cbn; eauto. intros id' cl' [[_ <-]|[_ Hx]]%lookup_insert_Some; left; [by destruct ok|eauto]. }
    destruct p; [by apply Hacq|by apply Hacq|by eapply install_step_ok].
  - destruct Hok as [l Hl]. erewrite reads_ok by (by rewrite Hl). destruct (is_open l); [|by exists s]. eexists. split; [done|]. apply inv_end_client; auto.
  - unfold reclaim_check. destruct (lookup_lt_is_Some_2 (lf_versions s) i) as [v Hv]; [lia|]. erewrite version_at_ok by done.
    destruct (is_reclaimable _); (eexists; split; [done|]); [apply inv_set_client|apply inv_end_client]; auto; done.
  - unfold reclaim_wait. destruct (ci_reclaiming _ _ _ _ _ _ _ (li_chain _ _ _ Hi) i) as (b & Hl & _); [lia|]. erewrite reads_ok by (by rewrite Hl).
    rewrite latch1_open. destruct b; [|by exists s]. steps. unfold try_next.
    destruct (lf_versions s !! S i) as [v|] eqn:Hv; cbn; (eexists; split; [done|]); [apply inv_set_client|apply inv_end_client]; auto; try done.
    right. cbn. apply lookup_lt_Some in Hv. lia.
Qed.

(** ** The jobs *)

Lemma unless_shutdown_ok {A B} job (value : option A) (k : option (option A) -> St Life B) s :
  exists core, sc_closed core = sc_closed (lf_shutdown s) /\
    mbind k (unless_shutdown job value) s =
      k (match value with Some v => Some (Some v) | None => if sc_closed (lf_shutdown s) then Some None else None end) (with_core core s).
Proof.
  unfold unless_shutdown, with_shutdown_poll, shutdown_poll, mbind, st_bind. destruct value as [v|]; [by eexists|].
  destruct (sc_closed (lf_shutdown s)) eqn:E; eexists; (split; [|done]); [done|done].
Qed.
Lemma inv_core o max s core : life_inv o max s -> sc_closed core = sc_closed (lf_shutdown s) -> life_inv o max (with_core core s).
Proof. intros [Hc Hb Hcap] E. split; [exact Hc|cbn; by rewrite E|done]. Qed.

Lemma wait_next_ok {B} o max s i (k : option nat -> St Life B) : life_inv o max s -> (i < length (lf_versions s))%nat ->
  mbind k (wait_next_version i) s = k (if decide (S i < length (lf_versions s))%nat then Some (S i) else None) s.
Proof.
  intros Hi Hl. pose proof (ci_new _ _ _ _ _ _ _ (li_chain _ _ _ Hi) i Hl) as Hn. unfold wait_next_version. rewrite st_assoc.
  erewrite reads_ok by (by rewrite Hn). rewrite latch1_open. case_decide as Hd.
  - rewrite bool_decide_true by done. rewrite st_assoc. destruct (lookup_lt_is_Some_2 (lf_versions s) (S i)) as [v Hv]; [done|].
    erewrite reads_ok by (unfold try_next; by rewrite Hv). done.
  - by rewrite bool_decide_false by done.
Qed.

(** The cleanup job moves on, with nothing to clean. *)
Lemma inv_cleanup_pc o max s pc : life_inv o max s -> cleaned pc = cleaned (lf_cleanup s) ->
  (forall p, p ∈ holders s -> (freed pc <= p)%nat) -> (forall p, cleanup_version pc = Some p -> (freed pc <= p < length (lf_versions s))%nat) ->
  (freed pc < length (lf_versions s))%nat -> (forall i, pc = CuCleanup i -> (0 < i)%nat) -> life_inv o max (with_cleanup pc s).
Proof.
  intros Hi Hcl Hh Hv Hf Hp. split; [|cbn; rewrite Hcl; apply Hi|apply Hi]. eapply chain_cleanup; [apply Hi| |done|done|cbn; lia].
  assert (Hr : forall p, p ∈ holders s -> (freed pc <= p < length (lf_versions s))%nat) by (intros p Hp'; specialize (Hh p Hp'); apply (holds_range Hi) in Hp'; lia).
  apply holders_all; cbn; eauto.
Qed.

Lemma cleanup_step_ok o max s : life_inv o max s -> exists s', cleanup_step s = (Ok tt, s') /\ life_inv o max s'.
Proof.
  intros Hi. destruct (ci_cleanup _ _ _ _ _ _ _ (li_chain _ _ _ Hi)) as [Hf Hpos]. unfold cleanup_step. steps.
  assert (Hr : forall p, p ∈ holders s -> (freed (lf_cleanup s) <= p)%nat) by (intros p Hp%(holds_range Hi); lia).
  destruct (lf_cleanup s) as [i|i|i|i] eqn:Epc; cbn [freed cleaned] in *.
  - erewrite wait_next_ok by done. destruct (unless_shutdown_ok 1 (if decide (S i < length (lf_versions s))%nat then Some (S i) else None)
      (λ out : option (option nat), match out with None => mret tt | Some None => modify (with_cleanup (CuDone i)) | Some (Some _) => modify (with_cleanup (CuWaitReleased i)) end) s) as (core & Ec & ->).
    pose proof (inv_core _ _ _ core Hi Ec) as Hi'. case_decide as Hd; [|destruct (sc_closed (lf_shutdown s))]; (eexists; split; [done|]); [| |done];
      (apply inv_cleanup_pc; [done|cbn; by rewrite Epc|exact Hr| |done|done]); [|done]. intros p [= <-]. cbn in *. lia.
  - unfold wait_version_released. rewrite st_assoc. steps. destruct (unless_shutdown_ok 1 (if version_alive i s then None else Some tt)
      (λ out : option (option unit), match out with None => mret tt | Some None => modify (with_cleanup (CuDone i)) | Some (Some _) => modify (with_cleanup (CuCleanup (S i))) end) s) as (core & Ec & ->).
    pose proof (inv_core _ _ _ core Hi Ec) as Hi'. assert (HS : (S i < length (lf_versions s))%nat).
    { destruct (holds_range Hi (S i)) as [_ ?]; [apply holds_cleanup; by rewrite Epc|done]. }
    destruct (version_alive i s) eqn:Ea; [destruct (sc_closed (lf_shutdown s))|]; (eexists; split; [done|]); [|done|];
      (apply inv_cleanup_pc; [done|cbn; rewrite Epc; cbn; lia| | |done|try done; intros ? [= <-]; lia]); [exact Hr|done| |intros p [= <-]; cbn; lia].
    intros p Hp. cbn. unfold version_alive in Ea. rewrite alive_false in Ea. destruct (decide (p <= i)%nat) as [Hle|]; [|lia]. by destruct (Ea p Hle).
  - specialize (Hpos i eq_refl). destruct (lookup_lt_is_Some_2 (lf_versions s) i) as [v Hv]; [lia|]. erewrite version_at_ok by done.
    destruct (lookup_lt_is_Some_2 (lf_versions s) (i - 1)%nat) as [u Hu]; [lia|].
    pose proof (li_chain _ _ _ Hi) as Hc. pose proof (li_buffers _ _ _ Hi) as Hb. rewrite Epc in Hc, Hb. cbn [cleaned] in Hb.
    pose proof (bi_start _ _ _ _ _ _ _ _ _ Hb) as Hst. unfold first_at in Hst. rewrite Hu in Hst. injection Hst as Hst.
    assert (HSi : S (i - 1) = i) by lia. pose proof (ci_first _ _ _ _ _ _ _ Hc (i - 1)%nat u v Hu) as Hfi. rewrite HSi in Hfi. specialize (Hfi Hv).
    destruct (buf_cleanup Hb v) as (set' & Er & Hb'); [by rewrite HSi|by rewrite <- Hst| |].
    { destruct (inv_first Hi i (v_first_buffer_id v)) as [_ ?]; [by rewrite Epc|unfold first_at; by rewrite Hv|done]. }
    rewrite HSi in Hb'. destruct (chain_clean Hc i v (holders (with_cleanup (CuWaitNext i) s)) eq_refl Hv) as [Hfa Hc'].
    { apply holders_all; cbn; eauto. intros p [= <-]. apply holds_cleanup. by rewrite Epc. }
    unfold cleanup_round. erewrite reads_ok by (rewrite Er; cbn [mbind res_bind]; unfold clean_obsoleted_files; rewrite bool_decide_true by done; cbn [rassert mbind res_bind]; done).
    steps. eexists. split; [done|]. split; [exact Hc'|exact Hb'|apply Hi].
  - by exists s.
Qed.

Lemma reclaim_step_ok o max s : life_inv o max s -> exists s', reclaim_step (lo_disable_space_reclaiming o) s = (Ok tt, s') /\ life_inv o max s'.
Proof.
  intros Hi. pose proof (li_chain _ _ _ Hi) as Hc. unfold reclaim_step. steps. destruct (lf_reclaim s) as [i|i|] eqn:Epc; [| |by exists s].
  - destruct (holds_range Hi i) as [Hlo Hhi]; [apply holds_reclaim; by rewrite Epc|].
    assert (Hpc : forall rc', length rc' = length (lf_reclaiming s) ->
      (forall k, (k < length (lf_versions s))%nat -> exists b, rc' !! k = Some (latch1 b) /\ forall p, Some (S i) = Some p -> (p <= k)%nat -> b = false) ->
      life_inv o max (with_reclaim (RcWaitNext i) (with_chain (lf_versions s) (lf_new_version s) rc' s))).
    { intros rc' Hl Hrc. split; [|apply Hi|apply Hi]. eapply chain_reclaim; [exact Hc| |done|exact Hrc]. apply holders_all; cbn; eauto.
      intros p [= <-]. right. done. }
    destruct (lo_disable_space_reclaiming o).
    + steps. eexists. split; [done|]. replace s with (with_chain (lf_versions s) (lf_new_version s) (lf_reclaiming s) s) at 1 by (by destruct s).
      apply Hpc; [done|]. intros k Hk. destruct (ci_reclaiming _ _ _ _ _ _ _ Hc k Hk) as (b & Hb & Hp). exists b. split; [done|].
      intros p [= <-] Hle. apply (Hp i); [by rewrite ?Epc|lia].
    + destruct (ci_reclaiming _ _ _ _ _ _ _ Hc i Hhi) as (b & Hb & Hp). rewrite (Hp i) in Hb by (by rewrite ?Epc).
      unfold version_reclaimed. erewrite st_bind_ok by (apply updates_ok; rewrite Hb; cbn [expect mbind res_bind]; rewrite latch1_down; cbn [mbind res_bind]; done).
      steps. eexists. split; [done|]. apply Hpc; [by rewrite length_insert|]. intros k Hk. destruct (decide (k = i)) as [->|Hne].
      * exists true. rewrite list_lookup_insert_eq; [|by rewrite (proj2 (proj2 (ci_length _ _ _ _ _ _ _ Hc)))]. split; [done|]. intros p [= <-]. lia.
      * destruct (ci_reclaiming _ _ _ _ _ _ _ Hc k Hk) as (b' & Hb' & Hp'). exists b'. rewrite list_lookup_insert_ne by done. split; [done|].
        intros p [= <-] Hle. apply (Hp' i); [by rewrite ?Epc|lia].
  - destruct (holds_range Hi i) as [Hlo Hhi]; [apply holds_reclaim; by rewrite Epc|]. erewrite wait_next_ok by done.
    match goal with |- context [mbind ?k (unless_shutdown ?j ?v)] => destruct (unless_shutdown_ok j v k s) as (core & Ec & ->) end.
    pose proof (inv_core _ _ _ core Hi Ec) as Hi'. case_decide as Hd.
    + erewrite reads_ok by (cbn; apply refresh_ok; done). set (n := default (S i) _).
      assert (Hn : (i < n < length (lf_versions s))%nat).
      { subst n. case_decide; cbn; [lia|]. destruct (chain_current Hc) as (v & -> & _). cbn. lia. }
      eexists. split; [done|]. split; [|apply Hi'|apply Hi']. eapply chain_reclaim; [apply Hi'| |done|].
      * apply holders_all; cbn; eauto. intros p [= <-]. right. lia.
      * intros k Hk. destruct (ci_reclaiming _ _ _ _ _ _ _ Hc k Hk) as (b & Hb & Hp). exists b. split; [done|]. intros p [= <-] Hle.
        apply (Hp (S i)); [by rewrite ?Epc|lia].
    + destruct (sc_closed (lf_shutdown s)); (eexists; split; [done|]); [|done]. split; [|apply Hi'|apply Hi']. eapply chain_reclaim; [apply Hi'| |done|].
      * apply holders_all; cbn; eauto. done.
      * intros k Hk. destruct (ci_reclaiming _ _ _ _ _ _ _ Hc k Hk) as (b & Hb & _). by exists b.
Qed.

(** The flush job: the versions it has. *)
Lemma chain_flush_pc o max s s' pc : life_inv o max s ->
  lf_versions s' = lf_versions s -> lf_new_version s' = lf_new_version s -> lf_reclaiming s' = lf_reclaiming s -> lf_disk s' = lf_disk s ->
  lf_clients s' = lf_clients s -> lf_cleanup s' = lf_cleanup s -> lf_reclaim s' = lf_reclaim s -> lf_flush s' = pc ->
  (forall p, flush_version pc = Some p -> p ∈ holders s \/ (freed (lf_cleanup s) <= p < length (lf_versions s))%nat) ->
  chain_inv (lf_versions s') (lf_new_version s') (lf_reclaiming s') (lf_disk s') (holders s') (lf_cleanup s') (lf_reclaim s').
Proof.
  intros Hi E1 E2 E3 E4 E5 E6 E7 E8 Hp. rewrite E1, E2, E3, E4, E6, E7. eapply chain_held; [apply Hi|]. apply holders_all; rewrite ?E5, ?E6, ?E7, ?E8; eauto.
Qed.
Lemma inv_flush_pc o max s pc : life_inv o max s ->
  (forall p, flush_version pc = Some p -> p ∈ holders s \/ (freed (lf_cleanup s) <= p < length (lf_versions s))%nat) ->
  buf_inv max (lf_versions s) (cleaned (lf_cleanup s)) (lf_buffers s) (lf_permits s) (lf_flushed s) (lf_clients s) pc (sc_closed (lf_shutdown s)) ->
  life_inv o max (with_flush pc s).
Proof. intros Hi Hp Hb. split; [by eapply chain_flush_pc|exact Hb|apply Hi]. Qed.

Lemma buffer_at_ok {B} g (k : WriteBuffer -> St Life B) s : bsv_wf (lf_buffers s) -> bsv_start (lf_buffers s) <= g < bsv_end (lf_buffers s) ->
  exists b, bsv_get g (lf_buffers s) = Ok (Some b) /\ b ∈ bsv_snapshot (lf_buffers s) /\ wb_group_id b = g /\ mbind k (buffer_at g) s = k b s.
Proof.
  intros Hwf Hg. destruct (bsv_get_in _ _ Hwf Hg) as (b & Hb & Hid & Hl). exists b. split_and!; [done|by eapply list_elem_of_lookup_2|done|].
  apply reads_ok. by rewrite Hb.
Qed.

(** The first buffer that is not flushed is there. *)
Lemma first_buffer o max s : life_inv o max s -> current_first (lf_versions s) < bsv_end (lf_buffers s) ->
  bsv_wf (lf_buffers s) /\ bsv_start (lf_buffers s) <= current_first (lf_versions s) < bsv_end (lf_buffers s).
Proof.
  intros Hi Hlt. destruct (inv_current Hi) as [Hc Hf]. destruct (inv_first Hi _ _ (proj1 Hc) Hf) as [Hs _].
  split; [|lia]. destruct (bi_set _ _ _ _ _ _ _ _ _ (li_buffers _ _ _ Hi)) as [?|(_ & ? & _)]; [done|lia].
Qed.

(** The flush of a sealed buffer, during the shutdown. *)
Lemma down_flush_ok o max s g ids delta b : life_inv o max s -> lf_flush s = FlDown (g :: ids) -> delta_ok delta s ->
  bsv_get g (lf_buffers s) = Ok (Some b) -> wb_is_sealed b = true ->
  exists s', (buffer ← buffer_at g; _ ← lift (rassert (wb_is_flushable buffer)); _ ← life_install (flush_delta_version delta);
      modify (with_flush (FlDownFlushed g ids))) s = (Ok tt, s') /\ life_inv o max s'.
Proof.
  intros Hi Hpc Hd Hget' Es. pose proof (li_buffers _ _ _ Hi) as Hb. pose proof (bi_flush _ _ _ _ _ _ _ _ _ Hb) as Hf. rewrite Hpc in Hf. cbn in Hf.
  symmetry in Hf. destruct (id_range_inv _ _ _ _ Hf) as (-> & Hlt & Hids). destruct (first_buffer o max s Hi Hlt) as [Hwf Hg].
  assert (Hcl : sc_closed (lf_shutdown s) = true) by (apply (bi_down _ _ _ _ _ _ _ _ _ Hb); by rewrite Hpc).
  destruct (bi_closed _ _ _ _ _ _ _ _ _ Hb Hcl) as [_ Hnw].
  match goal with |- context [mbind ?k (buffer_at ?g)] => destruct (buffer_at_ok g k s Hwf Hg) as (b0 & Hget & Hin & _ & ->) end.
  assert (b0 = b) as -> by congruence. specialize (Hnw b Hin).
  assert (Hfl : wb_is_flushable b = true) by (unfold wb_is_flushable, is_flushable; unfold wb_is_sealed in Es; by rewrite Es, Hnw).
  rewrite st_assert by done. destruct (install_ok o max s (flush_delta_version delta) Hi) as (s1 & w & E1 & [_ ->] & Hw & Hc1); [done| |].
  { intros _. destruct Hwf as (_ & ? & _). unfold u32_max in *. lia. }
  rewrite (st_bind_ok _ _ _ _ _ E1). cbn [dv_reason flush_delta_version] in Hw. eexists. split; [done|]. split; [|cbn; eapply buf_down_install; [apply Hi|done|done]|apply Hi].
  cbn in *. eapply chain_held; [exact Hc1|]. apply holders_all; cbn; try done; intros; left; first [by eapply (holds_client (with_chain _ _ _ s))|by eapply (holds_cleanup (with_chain _ _ _ s))|by eapply (holds_reclaim (with_chain _ _ _ s))].
Qed.

Lemma inv_update o max s g b b' : life_inv o max s -> bsv_wf (lf_buffers s) -> bsv_start (lf_buffers s) <= g < bsv_end (lf_buffers s) ->
  bsv_get g (lf_buffers s) = Ok (Some b) -> wb_group_id b' = g -> 0 <= wb_state b' ->
  (wb_is_sealed b = true -> wb_is_sealed b' = true) -> (down (lf_flush s) = false -> wb_is_sealed b' = wb_is_sealed b) ->
  (sc_closed (lf_shutdown s) = true -> has_writer (wb_buffer_state b') = has_writer (wb_buffer_state b)) ->
  life_inv o max (with_buffers (bsv_update g b' (lf_buffers s)) s).
Proof. intros Hi Hwf Hg Hget Hid Hw H1 H2 H3. split; [apply Hi| |apply Hi]. cbn. eapply buf_update; [apply Hi|done|done|exact Hget|done..]. Qed.

Lemma flush_down_ok o max s g ids delta notified : life_inv o max s -> lf_flush s = FlDown (g :: ids) -> delta_ok delta s ->
  exists s', flush_step (lo_avoid_flush_during_shutdown o) notified delta s = (Ok tt, s') /\ life_inv o max s'.
Proof.
  intros Hi Hpc Hd. pose proof (li_buffers _ _ _ Hi) as Hb. pose proof (bi_flush _ _ _ _ _ _ _ _ _ Hb) as Hf. rewrite Hpc in Hf. cbn in Hf.
  symmetry in Hf. destruct (id_range_inv _ _ _ _ Hf) as (-> & Hlt & Hids). destruct (first_buffer o max s Hi Hlt) as [Hwf Hg].
  unfold flush_step. steps. rewrite Hpc.
  match goal with |- context [mbind ?k (buffer_at ?g)] => destruct (buffer_at_ok g k s Hwf Hg) as (b & Hget & Hin & _ & ->) end.
  destruct (wb_is_sealed b) eqn:Es; cbn [negb andb].
  - steps. by eapply down_flush_ok.
  - destruct (wb_is_empty b).
    + eexists. split; [done|]. apply inv_flush_pc; [done|done|]. eapply buf_done; [apply Hi|by rewrite Hpc|]. rewrite Hpc. by intros ? [].
    + destruct (bsv_seal_ok _ _ Hwf (bi_words _ _ _ _ _ _ _ _ _ Hb) Hg) as (b0 & Hb0 & _ & Hseal). assert (b0 = b) as -> by congruence.
      rewrite Es in Hseal. destruct Hseal as (r & b' & Hseal & Hid' & Hw' & Hs' & Hwr).
      unfold seal_buffer. rewrite !st_assoc. erewrite reads_ok by (by rewrite Hseal). cbn beta iota. rewrite !st_assoc. steps.
      set (s1 := with_buffers _ s). assert (Hi1 : life_inv o max s1).
      { eapply inv_update; try done. by rewrite Hpc. }
      destruct (bsv_update_ok (lf_buffers s) _ b' Hwf Hg Hid') as (U1 & U2 & U3 & U4 & _).
      destruct (bsv_get_in (lf_buffers s1) (current_first (lf_versions s)) U1) as (b1 & Hb1 & _ & Hl1); [cbn; rewrite U2, U3; lia|].
      assert (b1 = b') as ->.
      { cbn in Hl1. rewrite U4, U2, list_lookup_insert_eq in Hl1; [congruence|]. destruct Hwf as (_ & _ & Hl & _). lia. }
      by eapply (down_flush_ok o max s1).
Qed.

Lemma flush_step_ok o max s notified delta : life_inv o max s -> delta_ok delta s ->
  exists s', flush_step (lo_avoid_flush_during_shutdown o) notified delta s = (Ok tt, s') /\ life_inv o max s'.
Proof.
  intros Hi Hd. pose proof (li_buffers _ _ _ Hi) as Hb. pose proof (bi_flush _ _ _ _ _ _ _ _ _ Hb) as Hf. pose proof (inv_current Hi) as [Hcur Hfirst].
  assert (Hnd : down (lf_flush s) = false -> bsv_wf (lf_buffers s) /\ bsv_start (lf_buffers s) <= current_first (lf_versions s) < bsv_end (lf_buffers s)).
  { intros Hd'. apply (first_buffer o max s Hi). by apply (bi_last _ _ _ _ _ _ _ _ _ Hb). }
  assert (Hh : forall p, flush_version (lf_flush s) = Some p -> p ∈ holders s) by eauto.
  unfold flush_step. steps. destruct (lf_flush s) as [|i g|i g|i g|i g|i g|ids|g ids|] eqn:Hpc; cbn [flush_ok down flush_version] in *.
  - destruct (Hnd eq_refl) as [Hwf Hg]. unfold current_version. steps. unfold min_buffer.
    destruct (chain_current (li_chain _ _ _ Hi)) as (v & Hl & Hv). assert (Hvf : v_first_buffer_id v = current_first (lf_versions s)) by (unfold current_first; by rewrite Hl).
    destruct (bsv_get_in _ _ Hwf Hg) as (b & Hget & Hid & _). erewrite reads_ok by (rewrite Hv; cbn [expect mbind res_bind]; unfold min_write_buffer; rewrite Hvf, Hget; cbn [expect mbind res_bind]; done).
    rewrite Hid. eexists. split; [done|]. apply inv_flush_pc; [done|intros p [= <-]; by right|]. eapply buf_pc; [apply Hi|rewrite ?Hpc..]; [done|done|done|]. intros x. split; intros [].
  - destruct Hf as [-> Hfi]. destruct (Hnd eq_refl) as [Hwf Hg].
    match goal with |- context [mbind ?k (buffer_at ?g)] => destruct (buffer_at_ok g k s Hwf Hg) as (b & Hget & Hin & _ & ->) end.
    destruct (wb_is_flushable b).
    + eexists. split; [done|]. apply inv_flush_pc; [done|intros p [= <-]; left; by apply Hh|]. eapply buf_pc; [apply Hi|rewrite ?Hpc..]; [done|done|done|]. intros x. split; intros [].
    + match goal with |- context [mbind ?k (unless_shutdown ?j ?v)] => destruct (unless_shutdown_ok j v k s) as (core & Ec & ->) end.
      pose proof (inv_core _ _ _ core Hi Ec) as Hi'. destruct notified; [by eexists|]. destruct (sc_closed (lf_shutdown s)) eqn:Hcl; [|by eexists].
      destruct (lo_avoid_flush_during_shutdown o).
      * eexists. split; [done|]. apply inv_flush_pc; [done|done|]. cbn. rewrite Ec. pose proof (li_buffers _ _ _ Hi) as Hb2. rewrite Hcl in Hb2. eapply (buf_down Hb2); [exact Hpc|done|by right].
      * unfold current_version. steps. destruct (chain_current (li_chain _ _ _ Hi)) as (v & Hl & Hv).
        assert (Hvf : v_first_buffer_id v = current_first (lf_versions s)) by (unfold current_first; by rewrite Hl).
        erewrite version_at_ok by (exact Hv). steps. unfold buffers_range. rewrite Hvf. eexists. split; [done|]. apply inv_flush_pc; [done|done|].
        cbn. rewrite Ec. pose proof (li_buffers _ _ _ Hi) as Hb2. rewrite Hcl in Hb2. eapply (buf_down Hb2); [exact Hpc|done|by left].
  - steps. eexists. split; [done|]. split; [|cbn; eapply buf_release; [apply Hi|exact Hpc]|apply Hi].
    eapply chain_flush_pc; [exact Hi|done..|]. intros p [= <-]. left. by apply Hh.
  - steps. destruct (permits_wait_cond _ _); [|by exists s]. eexists. split; [done|]. apply inv_flush_pc; [done|intros p [= <-]; left; by apply Hh|].
    eapply buf_pc; [apply Hi|rewrite ?Hpc..]; [done|done|done|]. intros x. split; intros [].
  - steps. destruct (g <? _) eqn:Eg; [|by exists s]. apply Z.ltb_lt in Eg. destruct (Hnd eq_refl) as [Hwf Hg].
    destruct (install_ok o max s (flush_delta_version delta) Hi) as (s1 & w & E1 & [_ ->] & Hw & Hc1); [done| |].
    { intros _. destruct Hwf as (_ & ? & _). unfold u32_max in *. lia. }
    rewrite (st_bind_ok _ _ _ _ _ E1). cbn [dv_reason flush_delta_version] in Hw. eexists. split; [done|].
    split; [|cbn; eapply buf_flush_install; [apply Hi|done|done|done]|apply Hi].
    cbn in *. eapply chain_held; [exact Hc1|]. apply holders_all; cbn; intros; left;
      first [by eapply (holds_client (with_chain _ _ _ s))|by eapply (holds_cleanup (with_chain _ _ _ s))|by eapply (holds_reclaim (with_chain _ _ _ s))|eapply (holds_flush (with_chain _ _ _ s)); cbn; by rewrite Hpc].
  - destruct (buf_flushed Hb g FlStart) as [Hl Hb']; [left; by exists i|]. unfold on_flushed.
    erewrite st_bind_ok by (apply updates_ok; rewrite Hl; cbn [expect mbind res_bind]; rewrite latch1_down; cbn [mbind res_bind]; done).
    steps. eexists. split; [done|]. split; [|exact Hb'|apply Hi]. eapply chain_flush_pc; [exact Hi|done..].
  - destruct ids as [|g ids].
    + eexists. split; [done|]. apply inv_flush_pc; [done|done|]. eapply buf_done; [apply Hi|by rewrite Hpc|]. rewrite Hpc. by intros ? [].
    + destruct (flush_down_ok o max s g ids delta notified Hi Hpc Hd) as (s' & E & Hi'). exists s'. split; [|done].
      unfold flush_step in E. rewrite st_gets, Hpc in E. done.
  - destruct (buf_flushed Hb g (FlDown ids)) as [Hl Hb']; [right; by exists ids|]. unfold on_flushed.
    erewrite st_bind_ok by (apply updates_ok; rewrite Hl; cbn [expect mbind res_bind]; rewrite latch1_down; cbn [mbind res_bind]; done).
    steps. eexists. split; [done|]. split; [|exact Hb'|apply Hi]. eapply chain_flush_pc; [exact Hi|done..].
  - by exists s.
Qed.

(** ** Every step *)

Lemma life_step_ok o max e s : life_inv o max s -> life_ok e s -> exists s', life_step o e s = (Ok tt, s') /\ life_inv o max s'.
Proof.
  intros Hi Hok. pose proof (li_buffers _ _ _ Hi) as Hb. destruct (inv_current Hi) as [Hcur Hfirst].
  assert (Hnone : forall id, lf_clients s !! id = None -> forall cl, lf_clients s !! id = Some cl -> is_switching cl = false) by (intros id E cl E'; congruence).
  assert (Hopen : sc_closed (lf_shutdown s) = false -> bsv_wf (lf_buffers s) /\ current_first (lf_versions s) < bsv_end (lf_buffers s)).
  { intros Hcl. assert (Hd : down (lf_flush s) = false) by (destruct (down (lf_flush s)) eqn:E; [apply (bi_down _ _ _ _ _ _ _ _ _ Hb) in E; congruence|done]).
    pose proof (proj2 (bi_last _ _ _ _ _ _ _ _ _ Hb) Hd) as Hlt. split; [|done]. by apply (first_buffer o max s). }
  destruct e as [id|id|id g|id wait stall|id|id mem|g b'|f|notified delta|delta| | |]; cbn [life_step life_ok] in *.
  - destruct Hok as [Hid Hcl]. eexists. split; [done|]. apply inv_set_client; [done|right; exact Hcur|done|done|by apply Hnone|done].
  - destruct Hok as [i Hid]. eexists. split; [done|]. apply inv_end_client; [done|]. intros cl. rewrite Hid. by intros [= <-].
  - destruct Hok as (i & a & Hid & Ha & Hg). erewrite reads_ok by (by rewrite Hid). by eapply switch_ok.
  - destruct Hok as [Hid Hcl]. destruct (Hopen Hcl) as [Hwf Hlt]. destruct (bsv_current_id _ Hwf) as [Hg _].
    unfold flush_active_buffer, current_version. steps. destruct (wb_is_empty _); [by exists s|].
    assert (Hc : client_ok (lf_versions s) (lf_buffers s) (lf_flushed s) (FlushSwitch (length (lf_versions s) - 1) (wb_group_id (bsv_current (lf_buffers s))) wait)).
    { exists (current_first (lf_versions s)). split; [done|lia]. }
    destruct stall; (eexists; split; [done|]; apply inv_set_client; [done|right; exact Hcur|exact Hc|done|by apply Hnone|done]).
  - destruct Hok as [Hid Hcl]. unfold wait_for_reclaiming. destruct (lo_disable_space_reclaiming o); [by exists s|].
    eexists. split; [done|]. apply inv_set_client; [done|right; exact Hcur|done|done|by apply Hnone|done].
  - by apply life_client_ok.
  - destruct Hok as (Hcl & b & Hget & Hid & Hw & Hs). destruct (Hopen Hcl) as [Hwf _]. eexists. split; [done|].
    assert (Hg : bsv_start (lf_buffers s) <= g < bsv_end (lf_buffers s)).
    { rewrite bsv_get_ok in Hget by done. case_decide; [|done]. injection Hget as Hget. apply lookup_lt_Some in Hget. destruct Hwf as (_ & _ & Hl & _). lia. }
    eapply inv_update; try done; congruence.
  - eexists. split; [done|]. split; [|exact Hb|apply Hi]. eapply chain_disk; [apply Hi|]. intros x Hx. apply lookup_insert_is_Some'. by right.
  - by apply flush_step_ok.
  - destruct Hok as [Hd _]. destruct (install_ok o max s (compact_delta_version delta) Hi) as (s1 & w & E1 & [_ ->] & Hw & Hc1); [done|done|].
    eexists. split; [done|]. split; [exact Hc1| |apply Hi]. cbn in Hw |- *. apply (buf_compact Hb). lia.
  - by apply reclaim_step_ok.
  - by apply cleanup_step_ok.
  - destruct Hok as [He Hn]. eexists. split; [done|]. split; [apply Hi|by eapply buf_terminate|apply Hi].
Qed.

(** Histories in which the environment keeps its promises. *)
Inductive life_run (o : LifeOptions) : Life -> list LifeEvent -> Life -> Prop :=
  | life_run_nil s : life_run o s [] s
  | life_run_cons s e s1 es s2 : life_ok e s -> life_step o e s = (Ok tt, s1) -> life_run o s1 es s2 -> life_run o s (e :: es) s2.

Lemma life_run_inv o max s es s' : life_inv o max s -> life_run o s es s' -> life_inv o max s'.
Proof.
  intros Hi Hr. induction Hr as [|s e s1 es s2 Hok E Hr IH]; [done|]. apply IH. destruct (life_step_ok o max e s Hi Hok) as (s' & E' & Hi').
  rewrite E in E'. by injection E' as <-.
Qed.

Lemma life_open_inv o mem g max delta s :
  life_open (lo_capacity o) mem g max delta = Ok s -> 0 <= g -> g + 1 <= u32_max -> 1 <= max ->
  (forall f, is_Some (dv_file_infos delta !! f) -> f ∉ dv_obsoleted_files delta) -> life_inv o max s.
Proof.
  intros E Hg Hm Hmax Hobs. unfold life_open, version_new, buffer_set_new in E.
  destruct (wb_with_capacity g (lo_capacity o) mem) as [buf| |] eqn:Ebuf; [|done|done]. cbn [mbind res_bind] in E.
  rewrite wrap_small in E by (unfold fits, u32_max in *; lia). injection E as <-. destruct (wb_new_ok _ _ _ _ Ebuf) as (Hid & Hst & Hsl & Hnw).
  set (v := with_buffer_set g delta). split.
  - split; cbn [lf_versions lf_new_version lf_reclaiming lf_disk lf_cleanup lf_reclaim owner_new length freed cleaned].
    + cbn. split_and!; lia.
    + intros i Hi. assert (i = 0%nat) as -> by lia. done.
    + intros i Hi. assert (i = 0%nat) as -> by lia. exists false. done.
    + apply holders_all; cbn; try done; intros p [= <-]; lia.
    + split; [lia|done].
    + intros i u f _ [-> <-]%list_lookup_singleton_Some Hf. cbn in Hf. by rewrite lookup_fmap, fmap_is_Some.
    + intros i j u u' f _ [-> <-]%list_lookup_singleton_Some [-> <-]%list_lookup_singleton_Some Hf. cbn in *.
      apply eq_None_not_Some. intros Hs. by apply (Hobs f).
    + intros i u w _ Hw. by destruct i.
  - split; cbn [lf_versions lf_buffers lf_permits lf_flushed lf_clients lf_flush lf_cleanup lf_shutdown owner_new cleaned down bsv_start bsv_end bsv_sealed bsv_current].
    + done.
    + left. split_and!; cbn; [done|done|lia|]. intros i b [-> <-]%list_lookup_singleton_Some. lia.
    + cbn. lia.
    + apply Forall_singleton. cbn. lia.
    + done.
    + done.
    + intros x Hx [Hx'|[]]. cbn in Hx'. assert (x = g) as -> by lia. by rewrite lookup_singleton_eq.
    + intros x l [<- <-]%lookup_singleton_Some. exists false. split_and!; [done|lia|done].
    + intros id cl Hx. by apply lookup_empty_Some in Hx.
    + intros _. by rewrite Hsl.
    + intros id id' x x' p p' (? & ? & ? & Hx). by apply lookup_empty_Some in Hx.
    + done.
    + done.
    + split; [unfold permits_new; lia|]. intros _. exists false. split; [split; [done|]|].
      * intros (? & ? & ? & ? & ? & Hx). by apply lookup_empty_Some in Hx.
      * unfold permits_new, available. cbn. lia.
    + intros x Hx. assert (x = g) as -> by lia. rewrite lookup_singleton_eq. eauto.
  - by exists g, mem, buf.
Qed.
