(* ===== verification/VersionLaws.v ===== *)
(** * What the tasks around the versions can rely on

    From a store that was just opened, whatever the jobs and the clients do: readers find
    the files and the buffers of their version, a flush that returns has its buffer in a
    version, and the unflushed buffers are bounded. And what a client that waits for the
    reclaiming cannot rely on. *)

From stdpp Require Import base numbers list gmap.
From Stdlib Require Import ZArith Lia.
From S2P Require Import Prelude BasePage PageGroup FileBuilder MapFile WriteBuffer BufferSet Version Flush Reclaim Latch Shutdown VersionLife VersionChain VersionBuffers VersionSafe.
From S2P Require Import RecoverLaws StoreLog StoreSafe.

(** A store that is opened with a version of what recovery has found. *)
Definition opened_life (o : LifeOptions) (max : Z) (s : Life) : Prop :=
  exists mem g delta, life_open (lo_capacity o) mem g max delta = Ok s /\ 0 <= g /\ g + 1 <= u32_max /\ 1 <= max /\
    forall f, is_Some (dv_file_infos delta !! f) -> f ∉ dv_obsoleted_files delta.

Lemma opened_inv o max s0 es s : opened_life o max s0 -> life_run o s0 es s -> life_inv o max s.
Proof. intros (mem & g & delta & E & ? & ? & ? & ?) Hr. eapply life_run_inv; [|done]. by eapply life_open_inv. Qed.

(** ** Code that keeps a property of the state *)

Definition preserves {A} (P : Life -> Prop) (m : St Life A) : Prop := forall s, P s -> P (m s).2.

Lemma preserves_bind {A B} P (m : St Life A) (k : A -> St Life B) : preserves P m -> (forall a, preserves P (k a)) -> preserves P (mbind k m).
Proof. intros Hm Hk s Hs. specialize (Hm s Hs). unfold mbind, st_bind. destruct (m s) as [[a|e|] s']; [by apply Hk|done|done]. Qed.
Lemma preserves_mret {A} P (a : A) : preserves P (mret a).
Proof. by intros s. Qed.
Lemma preserves_gets {A} P (f : Life -> A) : preserves P (gets f).
Proof. by intros s. Qed.
Lemma preserves_reads {A} P (f : Life -> res A) : preserves P (reads f).
Proof. by intros s. Qed.
Lemma preserves_lift {A} P (r : res A) : preserves P (lift r).
Proof. by intros s. Qed.
Lemma preserves_modify P (f : Life -> Life) : (forall s, P s -> P (f s)) -> preserves P (modify f).
Proof. intros Hf s. apply Hf. Qed.
Lemma preserves_updates P (f : Life -> res Life) : (forall s s', P s -> f s = Ok s' -> P s') -> preserves P (updates f).
Proof. intros Hf s Hs. unfold updates. destruct (f s) eqn:E; [by eapply Hf|done|done]. Qed.
(** ** A version that the reclaim job has skipped *)

Definition stuck (id : Z) (i : nat) (s : Life) : Prop :=
  lf_clients s !! id = Some (ReclaimWait i) /\ lf_reclaiming s !! i = Some (latch_new 1) /\
  forall p, unreclaimed (lf_reclaim s) = Some p -> (i < p)%nat.

(** Goes through the code and leaves the changes of the state. *)
Ltac preserve := repeat match goal with
  | |- preserves _ (mbind _ _) => apply preserves_bind; [|intros ?]
  | |- preserves _ (mret _) => apply preserves_mret
  | |- preserves _ (gets _) => apply preserves_gets
  | |- preserves _ (reads _) => apply preserves_reads
  | |- preserves _ (lift _) => apply preserves_lift
  | |- preserves _ (modify _) => apply preserves_modify
  | |- preserves _ (match ?x with _ => _ end) => destruct x
  end.

Section stuck.
Context (id : Z) (i : nat).

Lemma stuck_install delta : preserves (stuck id i) (life_install delta).
Proof.
  apply preserves_updates. intros s s' (H1 & H2 & H3) (vs & _ & (l & _ & ([w l'] & _ & [= <-])%bind_ok)%bind_ok)%bind_ok.
  split_and!; cbn; [done| |done]. by apply lookup_app_l_Some.
Qed.
Lemma stuck_unless_shutdown {A} job (v : option A) : preserves (stuck id i) (unless_shutdown job v).
Proof. intros s Hs. unfold unless_shutdown. by destruct (with_shutdown_poll _ _ _ _). Qed.
Lemma stuck_wait_next j : preserves (stuck id i) (wait_next_version j).
Proof. unfold wait_next_version. preserve. Qed.
Lemma stuck_on_flushed g : preserves (stuck id i) (on_flushed g).
Proof. apply preserves_updates. intros s s' Hs (l & _ & ([w l'] & _ & [= <-])%bind_ok)%bind_ok. exact Hs. Qed.
Lemma stuck_seal g : preserves (stuck id i) (seal_buffer g).
Proof. unfold seal_buffer. preserve. by intros s. Qed.
Lemma stuck_set_client id' c : id' <> id -> preserves (stuck id i) (set_client id' c).
Proof. intros Hne. apply preserves_modify. intros s (H1 & H2 & H3). split; cbn; [by rewrite lookup_insert_ne|done]. Qed.
Lemma stuck_end_client id' : id' <> id -> preserves (stuck id i) (end_client id').
Proof. intros Hne. apply preserves_modify. intros s (H1 & H2 & H3). split; cbn; [by rewrite lookup_delete_ne|done]. Qed.
Lemma stuck_switch id' j g next : id' <> id -> preserves (stuck id i) (switch_buffer id' j g next).
Proof.
  intros Hne. unfold switch_buffer, switched. apply preserves_bind; [apply stuck_seal|]. intros [r|]; [by apply stuck_set_client|].
  destruct next as [[]|]; [by apply stuck_set_client|by apply stuck_end_client|by apply stuck_set_client].
Qed.
Lemma stuck_cleanup : preserves (stuck id i) cleanup_step.
Proof.
  unfold cleanup_step, wait_version_released, version_at. preserve; first [apply stuck_wait_next|apply stuck_unless_shutdown|by intros s].
Qed.
Lemma stuck_flush avoid notified delta : preserves (stuck id i) (flush_step avoid notified delta).
Proof.
  unfold flush_step, current_version, min_buffer, buffer_at, version_at.
  preserve; first [apply stuck_install|apply stuck_unless_shutdown|apply stuck_on_flushed|apply stuck_seal|by intros s].
Qed.

Lemma refresh_ge j vs newer : refresh j vs = Ok newer -> (j <= default j (fst <$> newer))%nat.
Proof.
  destruct (decide (j < length vs)%nat) as [Hj|Hj].
  - rewrite refresh_ok by done. case_decide; intros [= <-]; [done|]. destruct (last vs); cbn; lia.
  - unfold refresh. cbn [refresh_loop]. unfold try_next at 1. rewrite (lookup_ge_None_2 vs (S j)) by lia. by intros [= <-].
Qed.
Lemma wait_next_value j s next : (wait_next_version j s).1 = Ok (Some next) -> next = S j.
Proof.
  unfold wait_next_version, reads, mbind, st_bind. destruct (expect (lf_new_version s !! j)) as [l|e|]; [|done|done]. destruct (is_open l); [|done].
  unfold try_next. destruct (lf_versions s !! S j); cbn; [|done]. by intros [= <-].
Qed.
Lemma unless_shutdown_value {A} job (v : option A) s a : (unless_shutdown job v s).1 = Ok (Some (Some a)) -> v = Some a.
Proof. unfold unless_shutdown, with_shutdown_poll. destruct v as [x|]; [cbn; congruence|]. destruct (shutdown_poll _ _ _) as [[] c]; cbn; congruence. Qed.

Lemma stuck_reclaimed j : (i < j)%nat -> preserves (stuck id i) (version_reclaimed j).
Proof.
  intros Hj. apply preserves_updates. intros s s' (H1 & H2 & H3) (l & _ & ([w l'] & _ & [= <-])%bind_ok)%bind_ok.
  split_and!; cbn; [done| |done]. rewrite list_lookup_insert_ne; [done|lia].
Qed.
Lemma stuck_reclaim disable : preserves (stuck id i) (reclaim_step disable).
Proof.
  intros s Hs. pose proof Hs as (_ & _ & Hp). unfold reclaim_step. rewrite st_gets.
  destruct (lf_reclaim s) as [j|j|]; [| |done]; specialize (Hp _ eq_refl).
  - revert s Hs. change (preserves (stuck id i) (_ ← (if disable then mret tt else version_reclaimed j); modify (with_reclaim (RcWaitNext j)))).
    preserve; [by apply stuck_reclaimed|]. intros s (H1 & H2 & _). split_and!; [done|done|]. intros p [= <-]. lia.
  - pose proof (wait_next_value j s) as Hn. pose proof (stuck_wait_next j s Hs) as Hs1. unfold mbind at 1, st_bind at 1.
    destruct (wait_next_version j s) as [[next|e|] s1]; [|done|done]. cbn [fst snd] in *.
    pose proof (@unless_shutdown_value nat 2 next s1) as Hu. pose proof (@stuck_unless_shutdown nat 2 next s1 Hs1) as Hs2. unfold mbind at 1, st_bind at 1.
    destruct (unless_shutdown 2 next s1) as [[[[j'|]|]|e|] s2]; cbn [fst snd] in *; [|by destruct Hs2 as (? & ? & _)|done..].
    specialize (Hu _ eq_refl) as ->. specialize (Hn _ eq_refl) as ->. unfold mbind, st_bind, reads.
    destruct (refresh (S j) (lf_versions s2)) as [newer|e|] eqn:Er; [|done|done]. apply refresh_ge in Er.
    destruct Hs2 as (H1 & H2 & _). split_and!; [done|done|]. intros p [= <-]. lia.
Qed.

Lemma stuck_client reclaim_options capacity mem id' : preserves (stuck id i) (client_step reclaim_options capacity mem id').
Proof.
  destruct (decide (id' = id)) as [->|Hne].
  - intros s Hs. pose proof Hs as (H1 & H2 & _). unfold client_step. rewrite st_gets, H1. unfold reclaim_wait, reads, mbind, st_bind. by rewrite H2.
  - unfold client_step, acquire_step, install_successor, switched, reclaim_check, reclaim_wait, version_at.
    preserve; first [by apply stuck_set_client|by apply stuck_end_client|by apply stuck_switch|by intros s].
Qed.

Lemma stuck_step o e s s' : stuck id i s -> life_ok e s -> life_step o e s = (Ok tt, s') -> stuck id i s'.
Proof.
  intros Hs Hok E. change s' with (Ok tt, s').2. rewrite <- E. pose proof Hs as (H1 & _).
  assert (Hnew : forall id' c, lf_clients s !! id' = c -> c <> Some (ReclaimWait i) -> id' <> id) by congruence.
  destruct e as [id'|id'|id' g|id' wait stall|id'|id' mem|g b|f|notified delta|delta| | |]; cbn [life_step life_ok] in *; revert Hs.
  - destruct Hok as [Hok _]. apply Hnew in Hok; [|done]. apply preserves_bind; [apply preserves_gets|]. intros j. by apply stuck_set_client.
  - destruct Hok as [j Hok]. apply Hnew in Hok; [|done]. by apply stuck_end_client.
  - destruct Hok as (j & a & Hok & _). apply Hnew in Hok; [|done]. apply preserves_bind; [apply preserves_reads|]. intros k. by apply stuck_switch.
  - destruct Hok as [Hok _]. apply Hnew in Hok; [|done]. revert s E H1 Hnew. intros s _ _ _. revert s.
    change (preserves (stuck id i) (flush_active_buffer id' wait stall)). unfold flush_active_buffer, current_version. preserve; by apply stuck_set_client.
  - destruct Hok as [Hok _]. apply Hnew in Hok; [|done]. unfold wait_for_reclaiming. destruct (lo_disable_space_reclaiming o); [done|].
    apply preserves_bind; [apply preserves_gets|]. intros j. by apply stuck_set_client.
  - apply stuck_client.
  - done.
  - done.
  - apply stuck_flush.
  - apply stuck_install.
  - apply stuck_reclaim.
  - apply stuck_cleanup.
  - destruct Hok as [Hok _]. by rewrite Hok in H1.
Qed.

Lemma stuck_run o s es s' : life_run o s es s' -> stuck id i s -> stuck id i s'.
Proof. induction 1; eauto using stuck_step. Qed.
End stuck.

(** ** Histories that can be run *)

Definition delta_okb (delta : DeltaVersion) (s : Life) : bool :=
  forallb (λ f, bool_decide (is_Some (lf_disk s !! f)) && bool_decide (f ∉ dv_obsoleted_files delta) &&
    forallb (λ u, bool_decide (f ∉ v_obsoleted_files u)) (lf_versions s)) (map_to_list (dv_file_infos delta)).*1.
Definition life_okb (e : LifeEvent) (s : Life) : bool :=
  let opened := negb (sc_closed (lf_shutdown s)) in
  match e with
  | EvPin id | EvFlush id _ _ | EvWaitReclaim id => opened && match lf_clients s !! id with None => true | Some _ => false end
  | EvUnpin id => match lf_clients s !! id with Some (Pinned _) => true | _ => false end
  | EvSeal id g =>
      match lf_clients s !! id with
      | Some (Pinned i) => match first_at (lf_versions s) i with Some a => (a <=? g) && (g <? bsv_end (lf_buffers s)) | None => false end
      | _ => false
      end
  | EvClient _ _ => bsv_end (lf_buffers s) <? u32_max
  | EvBuffer g b' =>
      opened && match bsv_get g (lf_buffers s) with
        | Ok (Some b) => (wb_group_id b' =? g) && (0 <=? wb_state b') && eqb (wb_is_sealed b') (wb_is_sealed b)
        | _ => false
        end
  | EvFile _ | EvReclaim | EvCleanup => true
  | EvFlushJob _ delta => delta_okb delta s
  | EvCompact delta => delta_okb delta s && match lf_reclaim s with RcReclaim _ => true | _ => false end
  | EvTerminate =>
      match (map_to_list (lf_clients s)) with [] => true | _ => false end && forallb (λ b, negb (has_writer (wb_buffer_state b))) (bsv_snapshot (lf_buffers s))
  end.
Fixpoint life_exec (o : LifeOptions) (es : list LifeEvent) (s : Life) : option Life :=
  match es with
  | [] => Some s
  | e :: es =>
      if life_okb e s then match life_step o e s with (Ok tt, s) => life_exec o es s | _ => None end else None
  end.

Lemma delta_okb_ok delta s : delta_okb delta s = true -> delta_ok delta s.
Proof.
  intros H f [info Hf]. unfold delta_okb in H. rewrite forallb_forall in H. specialize (H f).
  rewrite !andb_true_iff, !bool_decide_eq_true, forallb_forall in H. destruct H as [[? ?] Hu].
  - apply list_elem_of_In, list_elem_of_fmap. exists (f, info). split; [done|]. by apply elem_of_map_to_list.
  - split_and!; [by left|done|]. intros u Hu'%list_elem_of_In. by apply Hu, bool_decide_eq_true in Hu'.
Qed.
Lemma life_okb_ok e s : life_okb e s = true -> life_ok e s.
Proof.
  destruct e as [id|id|id g|id wait stall|id|id mem|g b'|f|notified delta|delta| | |]; cbn [life_okb life_ok]; rewrite ?andb_true_iff, ?negb_true_iff; try done.
  - intros [? H]. by destruct (lf_clients s !! id).
  - destruct (lf_clients s !! id) as [[]|]; naive_solver.
  - destruct (lf_clients s !! id) as [[i| | | | | |]|]; try done. destruct (first_at _ i) as [a|] eqn:Ea; [|done].
    rewrite andb_true_iff, Z.leb_le, Z.ltb_lt. intros ?. by exists i, a.
  - intros [? H]. by destruct (lf_clients s !! id).
  - intros [? H]. by destruct (lf_clients s !! id).
  - lia.
  - intros [? H]. split; [done|]. destruct (bsv_get g _) as [[b|]|e|]; [|done..]. rewrite !andb_true_iff, Z.eqb_eq, Z.leb_le, eqb_true_iff in H.
    exists b. split_and!; tauto.
  - apply delta_okb_ok.
  - intros [?%delta_okb_ok H]. split; [done|]. destruct (lf_reclaim s); [eauto|done..].
  - intros [H Hb]. split; [destruct (map_to_list _) eqn:E; [by apply map_to_list_empty_iff|done]|].
    rewrite forallb_forall in Hb. intros b Hin%list_elem_of_In%Hb. by apply negb_true_iff.
Qed.
Lemma life_exec_run o es s s' : life_exec o es s = Some s' -> life_run o s es s'.
Proof.
  revert s. induction es as [|e es IH]; intros s; cbn [life_exec]; [intros [= <-]; constructor|].
  destruct (life_okb e s) eqn:Hok; [|done]. destruct (life_step o e s) as [[[]|?|] s1] eqn:E; [|done..].
  intros H. econstructor; [by apply life_okb_ok|exact E|by apply IH].
Qed.

(** ** A store with a flush and a compaction *)

Definition life_options : LifeOptions := mkLifeOptions (mkReclaimOptions 0 0 0 COMPRESSION_SNAPPY CHECKSUM_CRC32) 16 false false.
Definition life_file (f : Z) : FileInfo := mkFileInfo 1 1 (mkFileMeta f 100 DEFAULT_BLOCK_SIZE CHECKSUM_CRC32 COMPRESSION_SNAPPY ∅ ∅).
Definition life_delta (files : list Z) (obsoleted : gset Z) : DeltaVersion :=
  mkDeltaVersion ReasonFlush ∅ (list_to_map ((λ f, (f, life_file f)) <$> files)) obsoleted.
Definition life_start : option Life :=
  match life_open (lo_capacity life_options) [] 1 2 (life_delta [1] ∅) with Ok s => Some s | _ => None end.

(** The reclaim job compacts the file 1 into 2, a client waits for the reclaiming of that
    version, and a flush installs another one before the job goes on. *)
Definition life_flush : list LifeEvent :=
  [EvPin 8; EvSeal 8 1; EvClient 8 []; EvClient 8 []; EvFile 3] ++ replicate 5 (EvFlushJob false (life_delta [2; 3] ∅)).
Definition life_events : list LifeEvent :=
  [EvFile 2; EvCompact (life_delta [2] {[1]}); EvWaitReclaim 7; EvClient 7 []] ++ life_flush ++ [EvReclaim; EvReclaim].

Lemma life_start_opened s : life_start = Some s -> opened_life life_options 2 s.
Proof.
  unfold life_start. destruct (life_open _ _ _ _ _) as [s0| |] eqn:E; [|done..]. intros [= <-]. exists [], 1, (life_delta [1] ∅).
  split_and!; [exact E|done..|]. intros f _. apply not_elem_of_empty.
Qed.

(** A store whose first buffer is flushed, with one page, into the file 3. *)
Definition life_group : PageGroup := page_group_new (mkPageGroupMeta 1 3 0 24 32 {[16 := mkPageMeta 0 (mkPageInfo 5 0 24) (mkPageHandle 0 24)]}).
Definition life_group_file : FileInfo :=
  mkFileInfo 1 1 (mkFileMeta 3 100 DEFAULT_BLOCK_SIZE CHECKSUM_CRC32 COMPRESSION_SNAPPY {[1]} {[1 := pg_meta life_group]}).
Definition life_version : Version := with_buffer_set 1 (life_delta [1] ∅).
Definition group_delta : DeltaVersion :=
  match flush_delta life_version 7 life_group life_group_file [] with Ok (_, delta) => delta | _ => life_delta [] ∅ end.
Definition group_events : list LifeEvent :=
  [EvPin 8; EvSeal 8 1; EvClient 8 []; EvClient 8 []; EvFile 3] ++ replicate 6 (EvFlushJob false group_delta).

Lemma group_events_delta notified delta : EvFlushJob notified delta ∈ group_events -> delta = group_delta.
Proof. unfold group_events. intros [Hin|[Heq _]%elem_of_replicate]%elem_of_app; [|congruence]. rewrite !elem_of_cons in Hin. destruct Hin as [?|[?|[?|[?|[?|[]%not_elem_of_nil]]]]]; congruence. Qed.

(** ** What a flush installs *)

Lemma flush_delta_has u now page_group info deallocs edit delta : flush_delta u now page_group info deallocs = Ok (edit, delta) ->
  dv_file_infos delta !! fm_file_id (fi_meta info) = Some info /\
  (pg_is_empty page_group = false -> dv_page_groups delta !! pgm_group_id (pg_meta page_group) = Some page_group).
Proof.
  unfold flush_delta. intros ([gs fs] & _ & ([[gs' fs'] obs] & _ & [= _ <-])%bind_ok)%bind_ok. cbn. split; [apply lookup_insert_eq|].
  intros ->. apply lookup_insert_eq.
Qed.


(** The flush job makes the version of the buffer [g]. *)
Definition flushing (g : Z) (s : Life) : Prop :=
  match lf_flush s with FlSuccessor _ g' => g = g' | FlDown (g' :: _) => g = g' | _ => False end.

Section pending.
Context (g : Z).

(** The buffer is not flushed: its latch is shut, and is not about to be opened. *)
Definition pending (s : Life) : Prop :=
  (forall l, lf_flushed s !! g = Some l -> is_open l = false) /\ ~ unannounced (lf_flush s) g.

Lemma pending_install delta : preserves pending (life_install delta).
Proof. apply preserves_updates. by intros s s' Hs (vs & _ & (l & _ & ([w l'] & _ & [= <-])%bind_ok)%bind_ok)%bind_ok. Qed.
Lemma pending_reclaimed i : preserves pending (version_reclaimed i).
Proof. apply preserves_updates. by intros s s' Hs (l & _ & ([w l'] & _ & [= <-])%bind_ok)%bind_ok. Qed.
Lemma pending_unless_shutdown {A} job (v : option A) : preserves pending (unless_shutdown job v).
Proof. intros s Hs. unfold unless_shutdown. by destruct (with_shutdown_poll _ _ _ _). Qed.
Lemma pending_seal g' : preserves pending (seal_buffer g').
Proof. unfold seal_buffer. preserve. by intros s. Qed.
Lemma pending_on_flushed g' : g <> g' -> preserves pending (on_flushed g').
Proof.
  intros Hne. apply preserves_updates. intros s s' [H1 H2] (l & _ & ([w l'] & _ & [= <-])%bind_ok)%bind_ok.
  split; cbn; [by rewrite lookup_insert_ne|done].
Qed.
Lemma pending_flush_pc pc : ~ unannounced pc g -> preserves pending (modify (with_flush pc)).
Proof. intros Hpc. apply preserves_modify. by intros s [H1 H2]. Qed.
Lemma pending_successor capacity mem g' : preserves pending (install_successor capacity mem g').
Proof.
  unfold install_successor. preserve; intros s [H1 H2]; [done|]. split; cbn; [|done]. intros l.
  destruct (decide (wb_group_id a = g)) as [->|Hne]; [rewrite lookup_insert_eq; by intros [= <-]|rewrite lookup_insert_ne by done; apply H1].
Qed.

Lemma pending_client options capacity mem id : preserves pending (client_step options capacity mem id).
Proof.
  unfold client_step, switch_buffer, switched, acquire_step, reclaim_check, reclaim_wait, set_client, end_client, version_at.
  preserve; first [apply pending_successor|apply pending_seal|by intros s].
Qed.
Lemma pending_others o e s s' : pending s -> (forall notified delta, e <> EvFlushJob notified delta) -> life_step o e s = (Ok tt, s') -> pending s'.
Proof.
  intros Hs He E. change s' with (Ok tt, s').2. rewrite <- E. clear E. revert s Hs.
  change (preserves pending (life_step o e)). destruct e as [id|id|id g'|id wait stall|id|id mem|g' b|f|notified delta|delta| | |]; cbn [life_step].
  9: by destruct (He notified delta).
  5: unfold wait_for_reclaiming. 4: unfold flush_active_buffer. 3: unfold switch_buffer, switched. 1: unfold pin.
  all: unfold reclaim_step, cleanup_step, wait_next_version, wait_version_released, version_at, current_version, set_client, end_client.
  all: preserve; first [apply pending_client|apply pending_install|apply pending_reclaimed|apply pending_unless_shutdown|apply pending_seal|by intros s].
Qed.

(** The flush job keeps it so, or makes the version. *)
Lemma install_made delta s s' : life_install delta s = (Ok tt, s') ->
  exists u, last (lf_versions s) = Some u /\ lf_versions s' = lf_versions s ++ [next_version u delta] /\ lf_flush s' = lf_flush s.
Proof.
  unfold life_install, updates. destruct (owner_install delta (lf_versions s)) as [vs|e|] eqn:Ei; [|done..]. cbn [mbind res_bind].
  destruct (lf_new_version s !! _) as [l|]; [|done]. cbn [expect mbind res_bind]. destruct (count_down l) as [[w l']|e|]; [|done..]. cbn. intros [= <-].
  unfold owner_install, owner_current in Ei. destruct (last (lf_versions s)) as [u|]; [|done]. cbn in Ei. injection Ei as <-. by exists u.
Qed.
Lemma pending_made (pc : FlushPc) (delta : DeltaVersion) s s' : unannounced pc g ->
  (_ ← life_install delta; modify (with_flush pc)) s = (Ok tt, s') ->
  unannounced (lf_flush s') g /\ exists u, last (lf_versions s) = Some u /\ lf_versions s' = lf_versions s ++ [next_version u delta].
Proof.
  intros Hpc ([] & s1 & E1 & [= <-])%st_bind_inv. destruct (install_made _ _ _ E1) as (u & Hu & Hvs & _). split; [exact Hpc|]. by exists u.
Qed.

Definition same_versions (vs : list Version) (s : Life) : Prop := lf_versions s = vs.
Lemma seal_versions vs g' : preserves (same_versions vs) (seal_buffer g').
Proof. unfold seal_buffer. preserve. by intros s. Qed.

Lemma pending_flush avoid notified delta s s' : pending s -> flush_step avoid notified delta s = (Ok tt, s') ->
  pending s' \/ flushing g s /\ unannounced (lf_flush s') g /\
    exists u, last (lf_versions s) = Some u /\ lf_versions s' = lf_versions s ++ [next_version u (flush_delta_version delta)].
Proof.
  intros Hs E. assert (Hpres : forall m : St Life unit, m s = (Ok tt, s') -> preserves pending m -> pending s') by (intros m Em Hm; change s' with (Ok tt, s').2; rewrite <- Em; by apply Hm).
  pose proof Hs as [_ Hu]. unfold flush_step in E. rewrite st_gets in E. unfold flushing. destruct (lf_flush s) as [|i g'|i g'|i g'|i g'|i g'|[|g' ids]|g' ids|]; cbn in Hu.
  5: { rewrite st_gets in E. destruct (g' <? _); [|left; by injection E as <-]. destruct (decide (g = g')) as [Heq|Hne].
    - right. split; [done|]. by apply (pending_made (FlFlushed i g') _ _ _ Heq E).
    - left. eapply Hpres; [exact E|]. apply preserves_bind; [apply pending_install|intros []; by apply pending_flush_pc]. }
  7: { destruct (decide (g = g')) as [Heq|Hne].
    - apply st_bind_inv in E as (b & s1 & E0 & E). assert (s1 = s) as -> by (unfold buffer_at, reads in E0; congruence).
      destruct (_ && _); [left; injection E as <-; split; [apply Hs|done]|]. right. split; [done|]. apply st_bind_inv in E as ([] & s1 & E1 & E).
      assert (Hv : same_versions (lf_versions s) s1).
      { change s1 with (Ok tt, s1).2. rewrite <- E1. assert (Hm : preserves (same_versions (lf_versions s)) (if wb_is_sealed b then mret tt else _ ← seal_buffer g'; mret tt)) by (preserve; apply seal_versions). by apply Hm. }
      apply st_bind_inv in E as (b1 & s2 & E2 & E). assert (s2 = s1) as -> by (unfold buffer_at, reads in E2; congruence).
      apply st_bind_inv in E as ([] & s2 & E3 & E). assert (s2 = s1) as -> by (unfold lift in E3; congruence).
      rewrite <- Hv. by apply (pending_made (FlDownFlushed g' ids) _ _ _ Heq E).
    - left. eapply Hpres; [exact E|]. unfold buffer_at. preserve; first [apply pending_install|apply pending_seal|by apply pending_flush_pc]. }
  all: left; eapply Hpres; [exact E|]; unfold current_version, min_buffer, buffer_at, version_at.
  all: preserve; first [apply pending_unless_shutdown|by apply pending_on_flushed|by intros x|intros x [Hx _]; split; [exact Hx|intros []]].
Qed.

End pending.

(** A version stays at its position. *)
Lemma kept_step o e p v : preserves (λ s, lf_versions s !! p = Some v) (life_step o e).
Proof.
  assert (Hi : forall delta, preserves (λ s, lf_versions s !! p = Some v) (life_install delta)).
  { intros delta. apply preserves_updates. intros s s' Hs (vs & Hvs & (l & _ & ([w l'] & _ & [= <-])%bind_ok)%bind_ok)%bind_ok. cbn.
    apply bind_ok in Hvs as (u & _ & [= <-]). by apply lookup_app_l_Some. }
  assert (Hu : forall A job (x : option A), preserves (λ s, lf_versions s !! p = Some v) (unless_shutdown job x)).
  { intros A job x s Hs. unfold unless_shutdown. by destruct (with_shutdown_poll _ _ _ _). }
  assert (Hf : forall g, preserves (λ s, lf_versions s !! p = Some v) (on_flushed g)).
  { intros g. apply preserves_updates. by intros s s' Hs (l & _ & ([w l'] & _ & [= <-])%bind_ok)%bind_ok. }
  assert (Hr : forall i, preserves (λ s, lf_versions s !! p = Some v) (version_reclaimed i)).
  { intros i. apply preserves_updates. by intros s s' Hs (l & _ & ([w l'] & _ & [= <-])%bind_ok)%bind_ok. }
  destruct e as [id|id|id g'|id wait stall|id|id mem|g' b|f|notified delta|delta| | |]; cbn [life_step].
  9: unfold flush_step. 5: unfold wait_for_reclaiming. 4: unfold flush_active_buffer. 1: unfold pin.
  all: unfold client_step, switch_buffer, switched, acquire_step, reclaim_check, reclaim_wait, install_successor, reclaim_step, cleanup_step, wait_next_version,
    wait_version_released, version_at, current_version, min_buffer, buffer_at, seal_buffer, set_client, end_client.
  all: preserve; first [apply Hi|apply Hu|apply Hf|apply Hr|by intros s].
Qed.
Lemma kept_run o s es s' p v : life_run o s es s' -> lf_versions s !! p = Some v -> lf_versions s' !! p = Some v.
Proof.
  induction 1 as [|s e s1 es s2 _ E _ IH]; [done|]. intros Hs. apply IH. change s1 with (Ok tt, s1).2. rewrite <- E. by apply kept_step.
Qed.

Lemma opened_pending o max g s0 : opened_life o max s0 -> pending g s0.
Proof.
  intros (mem & g0 & delta & E & _). unfold life_open in E. apply bind_ok in E as ([set v] & _ & [= <-]).
  split; [|intros []]. intros l. cbn. by intros [_ <-]%lookup_singleton_Some.
Qed.

(** In a run after which the buffer is flushed, the flush job has made its version. *)
Lemma flushed_by o max g s0 es s : life_inv o max s0 -> pending g s0 -> life_run o s0 es s -> ~ pending g s ->
  exists es1 notified delta es2 s1 v, es = es1 ++ EvFlushJob notified delta :: es2 /\ life_run o s0 es1 s1 /\ flushing g s1 /\
    lf_versions s !! length (lf_versions s1) = Some v /\ v_first_buffer_id v = g + 1 /\ v_page_groups v = dv_page_groups delta /\
    v_files v = dv_file_infos delta /\ v_obsoleted_files v = dv_obsoleted_files delta.
Proof.
  intros Hi Hp Hr. induction Hr as [|s e s1 es s2 Hok E Hr IH]; [done|]. intros Hn. destruct (life_step_ok o max e s Hi Hok) as (s1' & E' & Hi1).
  rewrite E in E'. injection E' as <-.
  assert (Hcase : pending g s1 \/ exists notified delta, e = EvFlushJob notified delta /\ flushing g s /\ unannounced (lf_flush s1) g /\
    exists u, last (lf_versions s) = Some u /\ lf_versions s1 = lf_versions s ++ [next_version u (flush_delta_version delta)]).
  { assert (He : (exists notified delta, e = EvFlushJob notified delta) \/ forall notified delta, e <> EvFlushJob notified delta)
      by (destruct e; try (by right); left; by do 2 eexists).
    destruct He as [(notified & delta & ->)|Hne]; [|left; by eapply pending_others].
    destruct (pending_flush g _ _ _ _ _ Hp E) as [?|?]; [by left|right]. by exists notified, delta. }
  destruct Hcase as [Hp1|(notified & delta & -> & Hg & Hu & u & Hlast & Hvs)].
  - destruct (IH Hi1 Hp1 Hn) as (es1 & notified & delta & es2 & s3 & v & -> & Hr1 & Hrest).
    exists (e :: es1), notified, delta, es2, s3, v. split; [done|]. split; [by eapply life_run_cons|done].
  - exists [], notified, delta, es, s, (next_version u (flush_delta_version delta)). split; [done|]. split; [constructor|]. split; [done|]. split; [|split; [|done]].
    + eapply kept_run; [exact Hr|]. rewrite Hvs. by apply list_lookup_middle.
    + pose proof (bi_flush _ _ _ _ _ _ _ _ _ (li_buffers _ _ _ Hi1)) as Hf. rewrite Hvs in Hf. unfold flush_ok in Hf. rewrite current_first_snoc in Hf.
      destruct (lf_flush s1); cbn [unannounced] in Hu; try done; subst; [exact Hf|by destruct Hf].
Qed.

(** ** What the tasks can rely on *)

(** [C12] Versions are safe to read. Whatever the clients and the jobs of an opened store
    have done, the next step of any of them succeeds: no assertion fails, no version,
    buffer or latch that a task expects is missing, no buffer is released out of order
    and no latch counts twice. And whoever has a version finds it in the chain with all
    its files on the disk, and with every write buffer from its first one on in the
    buffer set, under its id: the cleanup job removes files and releases buffers only
    behind all of them. *)
Theorem version_readers_safe o max s0 es s :
  opened_life o max s0 -> life_run o s0 es s ->
  (forall e, life_ok e s -> exists s', life_step o e s = (Ok tt, s')) /\
  (forall p, p ∈ holders s -> exists v, lf_versions s !! p = Some v /\
     (forall f, is_Some (v_files v !! f) -> is_Some (lf_disk s !! f)) /\
     (forall g, v_first_buffer_id v <= g < bsv_end (lf_buffers s) ->
        exists b, bsv_get g (lf_buffers s) = Ok (Some b) /\ wb_group_id b = g)).
Proof.
  intros Ho Hr. pose proof (opened_inv _ _ _ _ _ Ho Hr) as Hi. split.
  - intros e Hok. destruct (life_step_ok o max e s Hi Hok) as (s' & E & _). eauto.
  - intros p Hp. destruct (chain_lookup (li_chain _ _ _ Hi) p Hp) as [v Hv]. exists v. split_and!; [done| |].
    + intros f. by apply (chain_held_file (li_chain _ _ _ Hi) p v).
    + intros g Hg. destruct (inv_first Hi p (v_first_buffer_id v)) as [Hst _]; [apply (holds_range Hi p Hp)|unfold first_at; by rewrite Hv|].
      destruct (bi_set _ _ _ _ _ _ _ _ _ (li_buffers _ _ _ Hi)) as [Hwf|(_ & ? & _)]; [|lia].
      destruct (bsv_get_in _ g Hwf) as (b & ? & ? & _); [lia|eauto].
Qed.

Lemma version_readers_safe_witness : exists s, (exists s0, life_start = Some s0 /\ life_exec life_options life_events s0 = Some s) /\
  (7 ∈ dom (lf_clients s) /\ forall e, life_ok e s -> exists s', life_step life_options e s = (Ok tt, s')) /\
  (forall p, p ∈ holders s -> exists v, lf_versions s !! p = Some v /\
     (forall f, is_Some (v_files v !! f) -> is_Some (lf_disk s !! f)) /\
     (forall g, v_first_buffer_id v <= g < bsv_end (lf_buffers s) ->
        exists b, bsv_get g (lf_buffers s) = Ok (Some b) /\ wb_group_id b = g)).
Proof.
  destruct life_start as [s0|] eqn:E0; [|by vm_compute in E0]. destruct (life_exec life_options life_events s0) as [s|] eqn:E.
  - exists s. split; [by exists s0|]. destruct (version_readers_safe life_options 2 s0 life_events s) as [H1 H2];
      [by apply life_start_opened|by apply life_exec_run|]. split; [split; [|exact H1]|exact H2].
    revert E. vm_compute in E0. injection E0 as <-. vm_compute. intros [= <-]. done.
  - exfalso. vm_compute in E0. injection E0 as <-. by vm_compute in E.
Defined.

(** [C24] A flush that returns has been flushed. When the latch of a buffer is open, so that
    [wait_flushed] returns, the flush job has made the version of the buffer: in a step of
    its that came before, it was about to install it; the version is in the chain at the
    position that was free then, it starts right after the buffer, and its page groups,
    files and obsoleted files are exactly those of the delta that the job had at that step.
    When that is the [flush_delta] of the page group and the file the job has built of the
    buffer (C10), they are in the version: the file under its number, and the page group,
    unless it has no pages, under its id. The current version starts after the buffer. Until the shutdown, the buffers that are not
    flushed are at most one more than [max_write_buffers] (the flush job gives its permit
    back just before it installs its version), and with a permit left there are fewer. *)
Theorem flush_waits_for_version o max s0 es s :
  opened_life o max s0 -> life_run o s0 es s ->
  (forall g l, lf_flushed s !! g = Some l -> is_open l = true ->
     g < current_first (lf_versions s) /\
     exists es1 notified delta es2 s1 v, es = es1 ++ EvFlushJob notified delta :: es2 /\ life_run o s0 es1 s1 /\ flushing g s1 /\
       lf_versions s1 !! length (lf_versions s1) = None /\ lf_versions s !! length (lf_versions s1) = Some v /\ v_first_buffer_id v = g + 1 /\
       v_page_groups v = dv_page_groups delta /\ v_files v = dv_file_infos delta /\ v_obsoleted_files v = dv_obsoleted_files delta /\
       forall u now page_group info deallocs edit, flush_delta u now page_group info deallocs = Ok (edit, delta) ->
         v_files v !! fm_file_id (fi_meta info) = Some info /\
         (pg_is_empty page_group = false -> v_page_groups v !! pgm_group_id (pg_meta page_group) = Some page_group)) /\
  (sc_closed (lf_shutdown s) = false ->
     0 < bsv_end (lf_buffers s) - current_first (lf_versions s) <= max + 1 - available (lf_permits s)).
Proof.
  intros Ho Hr. pose proof (li_buffers _ _ _ (opened_inv _ _ _ _ _ Ho Hr)) as Hb. split.
  - intros g l Hl Hop. split.
    { destruct (bi_open _ _ _ _ _ _ _ _ _ Hb g l Hl) as (b & -> & _ & Hlt). rewrite latch1_open in Hop. auto. }
    destruct (flushed_by o max g s0 es s) as (es1 & notified & delta & es2 & s1 & v & Ees & Hr1 & Hg & Hv & Hrest).
    + eapply opened_inv; [done|constructor].
    + by eapply opened_pending.
    + done.
    + intros [Hp _]. specialize (Hp l Hl). congruence.
    + destruct Hrest as (Hf & Hpg & Hfi & Hob). exists es1, notified, delta, es2, s1, v. split_and!; try done; [by apply lookup_ge_None_2|].
      intros u now page_group info deallocs edit [H1 H2]%flush_delta_has. by rewrite Hfi, Hpg.
  - intros Hcl. assert (Hd : down (lf_flush s) = false) by (destruct (down (lf_flush s)) eqn:E; [apply (bi_down _ _ _ _ _ _ _ _ _ Hb) in E; congruence|done]).
    pose proof (proj2 (bi_last _ _ _ _ _ _ _ _ _ Hb) Hd). destruct (bi_permits _ _ _ _ _ _ _ _ _ Hb) as [_ Hp].
    destruct (Hp Hd) as (sw & _ & Hsum). assert (0 <= Z.b2z sw) by (destruct sw; cbn; lia).
    assert (releasing (lf_flush s) <= 1) by (destruct (lf_flush s); cbn; lia). lia.
Qed.

Lemma flush_waits_for_version_witness : exists s, (exists s0, life_start = Some s0 /\ life_exec life_options group_events s0 = Some s) /\
  (exists l, lf_flushed s !! 1 = Some l /\ is_open l = true) /\ 1 < current_first (lf_versions s) /\
  (exists p v, lf_versions s !! p = Some v /\ v_first_buffer_id v = 2 /\
     v_files v !! 3 = Some life_group_file /\ v_page_groups v !! 1 = Some life_group) /\
  0 < bsv_end (lf_buffers s) - current_first (lf_versions s) <= 3 - available (lf_permits s).
Proof.
  destruct life_start as [s0|] eqn:E0; [|by vm_compute in E0].
  destruct (life_exec life_options group_events s0) as [s|] eqn:E.
  - exists s. split; [by exists s0|]. destruct (flush_waits_for_version life_options 2 s0 group_events s) as [H1 H2];
      [by apply life_start_opened|by apply life_exec_run|].
    assert (Hs : (exists l, lf_flushed s !! 1 = Some l /\ is_open l = true) /\ sc_closed (lf_shutdown s) = false).
    { revert E. vm_compute in E0. injection E0 as <-. vm_compute. intros [= <-]. split; [|done]. eexists. split; reflexivity. }
    destruct Hs as [(l & Hl & Ho) Hcl]. split; [by exists l|]. destruct (H1 1 l Hl Ho) as (H3 & es1 & notified & delta & es2 & s1 & v & Ees & _ & _ & _ & Hv & Hf & _ & _ & _ & Hhas).
    split; [exact H3|]. split; [|exact (H2 Hcl)]. exists (length (lf_versions s1)), v. split; [exact Hv|]. split; [exact Hf|].
    assert (Hin : EvFlushJob notified delta ∈ group_events) by (rewrite Ees, elem_of_app; right; by left).
    apply group_events_delta in Hin as ->. destruct (Hhas life_version 7 life_group life_group_file [] (make_flush_version_edit 3 {[1]})) as [Hfile Hgroup];
      [vm_compute; reflexivity|]. split; [exact Hfile|by apply Hgroup].
  - exfalso. vm_compute in E0. injection E0 as <-. by vm_compute in E.
Defined.

(** [C26] The wait for the reclaiming can be lost. An opened store comes to a state in which
    the client 7 waits for the version 1, which is reclaimable, and the reclaim job has
    gone from the version 0 to the version 2: [refresh] skips the versions between, and
    [reclaimed] is never called for them. From such a state the client waits for ever,
    whatever the clients and the jobs do. *)
Theorem reclaiming_wait_lost :
  (exists o max s0 es s, opened_life o max s0 /\ life_run o s0 es s /\ stuck 7 1 s) /\
  (forall o s es s' id i, stuck id i s -> life_run o s es s' ->
     lf_clients s' !! id = Some (ReclaimWait i) /\ exists l, lf_reclaiming s' !! i = Some l /\ is_open l = false).
Proof.
  split.
  - destruct life_start as [s0|] eqn:E0; [|by vm_compute in E0]. destruct (life_exec life_options life_events s0) as [s|] eqn:E.
    + exists life_options, 2, s0, life_events, s. split; [by apply life_start_opened|]. split; [by apply life_exec_run|].
      revert E. vm_compute in E0. injection E0 as <-. vm_compute. intros [= <-]. split_and!; [done|done|]. intros p [= <-]. lia.
    + exfalso. vm_compute in E0. injection E0 as <-. by vm_compute in E.
  - intros o s es s' id i Hs Hr. destruct (stuck_run id i o s es s' Hr Hs) as (? & Hl & _). split; [done|]. eexists. split; [exact Hl|done].
Qed.

(** ** The versions of the store

    What [delta_ok] asks of a new version is what the flush and the compaction of
    [StoreLog] make: in every store that can be reached, the files of the current version
    are on the disk, and none of the versions in the chain obsoletes one of them. *)
Lemma store_versions_apart P s v :
  reachable P s -> last (st_versions s) = Some v ->
  forall f, is_Some (v_files v !! f) -> is_Some (st_disk s !! f) /\ forall w, w ∈ st_versions s -> f ∉ v_obsoleted_files w.
Proof.
  intros (v' & A & Hinv)%reachable_inv Hl f Hf. assert (v' = v) as -> by (pose proof (si_last _ _ _ _ Hinv); congruence).
  destruct (proj1 (vi_files _ _ _ _ _ (si_version _ _ _ _ Hinv) f) Hf) as [nf Hnf]. split.
  - destruct (ao_file _ _ (di_ok _ _ _ _ (vi_disk _ _ _ _ _ (si_version _ _ _ _ Hinv))) f nf Hnf) as (_ & h & Hh & _). eauto.
  - intros w Hw Hin. destruct (si_chain _ _ _ _ Hinv w f Hw Hin) as (_ & _ & Hn & _). congruence.
Qed.
