(* ===== verification/StoreRun.v ===== *)
(** * Runs of a store

    Concrete runs: the witnesses of the theorems of [StoreSafe.v], and two things that
    are not lost but kept too long. *)

From stdpp Require Import base numbers list sorting gmap.
From Stdlib Require Import ZArith Lia.
From S2P Require Import Prelude BasePage Iter Bitmap BTree PageGroup Env FileBuilder MapFile FileReader Directory Manifest PageTable WriteBuffer Version Flush.
From S2P Require Import FlushLaws Reclaim Recover RecoverLaws StoreLog StoreSafe.

(** A file with one group, and that it is what a flush writes. *)
Definition one_group (f g : Z) (pages : list (Z * Z)) (dealloc_pages : list Z) : FileMetaHolder :=
  sample_file f [(g, wrap32 <$> pages.*1)] [(g, pages)] dealloc_pages.
Definition one_group_check (f g : Z) (pages : list (Z * Z)) (dealloc_pages : list Z) : Prop :=
  let m := sample_pages f g (wrap32 <$> pages.*1) in
  holder_check f (one_group f g pages dealloc_pages) /\ group_meta_check f g m /\ Forall entry_ok pages /\ NoDup pages.*1 /\
  Forall (λ e, 0 <= e.1 < 2 ^ 64 /\ addr_group e.1 = g /\ is_Some (pgm_page_meta_map m !! wrap32 e.1)) pages /\
  Forall (λ x, 0 <= x < 2 ^ 64 /\ addr_group x < g) dealloc_pages.
#[global] Instance one_group_check_dec f g pages dealloc_pages : Decision (one_group_check f g pages dealloc_pages).
Proof. unfold one_group_check. solve_decision. Defined.

Lemma one_group_flushed f g pages dealloc_pages :
  one_group_check f g pages dealloc_pages ->
  flushed f g dealloc_pages pages (sample_pages f g (wrap32 <$> pages.*1)) (one_group f g pages dealloc_pages).
Proof.
  intros (Hh & Hm & He & Hnd & Hp & Hd). pose proof (holder_check_ok _ _ Hh) as Hok. split; [done| | |done|done|done| |done|].
  - apply (ho_groups _ _ Hok). cbn. apply lookup_insert_eq.
  - eexists. split; [cbn; apply insert_empty|done].
  - intros addr id Hin. rewrite Forall_forall in Hp. by apply (Hp (addr, id)).
  - intros x Hx. rewrite Forall_forall in Hd. by apply Hd.
Qed.

Definition info_of (h : FileMetaHolder) (up : Z) : FileInfo := mkFileInfo up up (fh_file_meta h).

(** What a flush of such a file makes of a store. *)
Definition run_flush (f : Z) (pages : list (Z * Z)) (dealloc_pages : list Z) (s : Store) : res Store :=
  v ← owner_current (st_versions s);
  let g := v_first_buffer_id v in
  let h := one_group f g pages dealloc_pages in
  '(edit, delta) ← flush_delta v f (page_group_new (sample_pages f g (wrap32 <$> pages.*1))) (info_of h f) dealloc_pages;
  versions ← owner_install delta (st_versions s);
  Ok (mkStore versions (st_log s ++ [edit]) (<[f := h]> (st_disk s)) (f + 1) (st_compaction s)).

Lemma run_flush_step P s f pages dealloc_pages s' v :
  owner_current (st_versions s) = Ok v -> st_next_file_id s <= f -> f + 2 < 2 ^ 32 ->
  one_group_check f (v_first_buffer_id v) pages dealloc_pages -> run_flush f pages dealloc_pages s = Ok s' ->
  store_step (P, s) (flush_live P dealloc_pages pages, s').
Proof.
  intros Hcur Hf Hmax Hc%one_group_flushed E. unfold run_flush in E. rewrite Hcur in E. cbn [mbind res_bind] in E.
  destruct (flush_delta v f _ _ dealloc_pages) as [[edit delta]| |] eqn:Ed; [|done..]. cbn [mbind res_bind] in E.
  destruct (owner_install delta (st_versions s)) as [versions| |] eqn:Ei; [|done..]. injection E as <-.
  eapply step_flush; [|done|done|exact Hc| |exact Ed|exact Ei]; [|done]. unfold owner_current in Hcur.
  destruct (last (st_versions s)); [by injection Hcur as ->|done].
Qed.

(** Two flushes: the second writes page 7 again and deallocates its old address. *)
Definition pages1 : list (Z * Z) := [(sample_addr 1 16, 7); (sample_addr 1 64, 9)].
Definition pages2 : list (Z * Z) := [(sample_addr 2 16, 7)].
Definition run1 : res Store := run_flush 1 pages1 [] store_new.
Definition run2 : res Store := s ← run1; run_flush 2 pages2 [sample_addr 1 16] s.
Definition live2 : Pages := flush_live (flush_live (mkPages ∅ ∅) [] pages1) [sample_addr 1 16] pages2.

Definition the_store (r : res Store) : Store := match r with Ok s => s | _ => store_new end.

Lemma run1_reachable : reachable (flush_live (mkPages ∅ ∅) [] pages1) (the_store run1).
Proof.
  eapply reachable_step; [apply reachable_new|]. eapply (run_flush_step _ _ 1); [done|done|done|apply (bool_decide_unpack _); by vm_compute|by vm_compute].
Qed.
Lemma run2_reachable : reachable live2 (the_store run2).
Proof.
  eapply reachable_step; [apply run1_reachable|].
  eapply (run_flush_step _ _ 2); [by vm_compute|done|done|apply (bool_decide_unpack _); by vm_compute|by vm_compute].
Qed.

Lemma store_keeps_live_pages_witness :
  exists v, owner_current (st_versions (the_store run2)) = Ok v /\ page_found (st_disk (the_store run2)) (v_page_groups v) (v_files v) (sample_addr 1 64).
Proof.
  destruct (store_keeps_live_pages live2 (the_store run2) run2_reachable) as (v & Hv & Hl & _). exists v. split; [exact Hv|].
  apply (Hl _ 9). by vm_compute.
Defined.

Lemma crash_recovers_live_pages_witness :
  exists next table delta del, recover (read_meta_of (st_disk (the_store run2))) (st_log (the_store run2)) [1; 2] = Ok (next, table, delta, del) /\
    page_found (st_disk (the_store run2)) (dv_page_groups delta) (dv_file_infos delta) (sample_addr 1 64) /\ table_get 7 table = Ok (sample_addr 2 16).
Proof.
  destruct (crash_recovers_live_pages live2 (the_store run2) [1; 2] run2_reachable) as (next & table & delta & del & E & Hl & Ht & _).
  exists next, table, delta, del. split; [exact E|]. split; [apply (Hl _ 9)|apply Ht]; by vm_compute.
Defined.

Lemma flush_always_installs_witness :
  exists obsoleted delta versions v, owner_current (st_versions (the_store run1)) = Ok v /\
    flush_delta v 2 (page_group_new (sample_pages 2 2 (wrap32 <$> pages2.*1))) (info_of (one_group 2 2 pages2 [sample_addr 1 16]) 2) [sample_addr 1 16] =
      Ok (make_flush_version_edit 2 obsoleted, delta) /\ owner_install delta (st_versions (the_store run1)) = Ok versions.
Proof.
  destruct (owner_current (st_versions (the_store run1))) as [v| |] eqn:Ev; [|by vm_compute in Ev..].
  assert (Eb : v_first_buffer_id v = 2) by (vm_compute in Ev; by injection Ev as <-).
  destruct (flush_always_installs _ (the_store run1) v 2 2 [sample_addr 1 16] pages2 (sample_pages 2 2 (wrap32 <$> pages2.*1))
    (one_group 2 2 pages2 [sample_addr 1 16]) (info_of (one_group 2 2 pages2 [sample_addr 1 16]) 2) run1_reachable Ev)
    as (obs & delta & versions & E & Ei & _); [done| |done|].
  { rewrite Eb. apply one_group_flushed. apply (bool_decide_unpack _). by vm_compute. }
  exists obs, delta, versions, v. split; [done|]. by split.
Defined.

(** ** Pages that are kept too long *)

Definition found_at (G : gmap Z PageGroup) (addr : Z) : bool :=
  match G !! addr_group addr with
  | Some pg => match get_page_handle addr pg with Ok (Some _) => true | _ => false end
  | None => false
  end.

(** File 2 writes page 8, file 3 deallocates it, and file 4 makes file 3 obsolete; file 2
    is still needed, since it deallocates a page of file 1. *)
Definition run_revive : res Store :=
  s ← run_flush 1 [(sample_addr 1 16, 7); (sample_addr 1 64, 9)] [] store_new;
  s ← run_flush 2 [(sample_addr 2 16, 8)] [sample_addr 1 16] s;
  s ← run_flush 3 [(sample_addr 3 16, 10)] [sample_addr 2 16] s;
  run_flush 4 [(sample_addr 4 16, 11)] [sample_addr 3 16] s.

(** A restart revives pages that were deallocated: the page 8 of file 2 is dead in the
    version, and active, with its page id in use, in the version that is recovered,
    because the file that deallocated it is gone and the file that holds it is not. *)
Example recovery_revives_dead_page :
  let s := the_store run_revive in
  match owner_current (st_versions s), recover (read_meta_of (st_disk s)) (st_log s) [1; 2; 3; 4] with
  | Ok v, Ok (_, table, delta, _) =>
      found_at (v_page_groups v) (sample_addr 2 16) = false /\ found_at (dv_page_groups delta) (sample_addr 2 16) = true /\
      table_get 8 table = Ok (sample_addr 2 16)
  | _, _ => False
  end.
Proof. vm_compute. by split_and!. Qed.

(** File 1 is compacted into file 2; before the result is installed, file 3 is flushed
    and deallocates a page of file 1. *)
Definition compact_groups1 : gmap Z PageGroup := {[1 := page_group_new (sample_pages 2 1 [16; 64])]}.
Definition compact_info1 : FileInfo := info_of (sample_file 2 [(1, [16; 64])] [(1, pages1)] []) 1.

(** The compaction makes the page active again: it adds the groups as they were when it
    started. *)
Example compaction_revives_dead_page :
  let s := the_store (s ← run1; run_flush 3 [(sample_addr 2 16, 7)] [sample_addr 1 16] s) in
  match owner_current (st_versions s) with
  | Ok v => found_at (v_page_groups v) (sample_addr 1 16) = false /\
      found_at (dv_page_groups (compact_delta v 2 compact_info1 compact_groups1 {[1]})) (sample_addr 1 16) = true
  | _ => False
  end.
Proof. vm_compute. by split. Qed.
