(* ===== verification/CompactFile.v ===== *)
(** * A compaction copies the live pages ([compact_files] of [page_store/jobs/reclaim.rs])

    The file that a compaction writes holds exactly the active pages of the groups of
    its victims, under their addresses and page ids and with their contents, and the
    deallocations of the victims that concern groups which still exist. *)

From stdpp Require Import base numbers list sorting gmap.
From Stdlib Require Import ZArith Lia.
From S2P Require Import Prelude BasePage Iter Bitmap BTree PageGroup Env FileBuilder FileWriter MapFile FileReader FileRead FileBlocks FileRoundtrip.
From S2P Require Import Directory Manifest PageTable WriteBuffer Version Flush FlushLaws Reclaim Recover RecoverLaws StoreLog FlushFile.

(** The addresses of the active pages of a group, as they are iterated. *)
Definition active_addrs (pg : PageGroup) : list Z :=
  match pg_iter pg with
  | Ok it => (λ e, Z.lor (Z.shiftl (pgi_file_id it) 32) e.1) <$> pgi_active_pages it
  | _ => []
  end.
Definition group_addr (g a : Z) : Z := Z.lor (Z.shiftl g 32) a.

Lemma active_addrs_ok pg act :
  group_repr pg act -> meta_sorted (pg_meta pg) ->
  exists l it it', pg_iter pg = Ok it /\ drain (S (length (pgi_active_pages it))) it = Ok (active_addrs pg, it') /\
    active_addrs pg = group_addr (pgm_group_id (pg_meta pg)) <$> l /\ StronglySorted Z.lt l /\ l ≡ₚ (map_to_list act).*1.
Proof.
  intros [dead Hr] Hs. destruct (pg_iter_ok pg act dead _ Hr Hs (Nat.lt_succ_diag_r _)) as (it & _ & _ & Eit & _).
  set (n := (S (total_pages (pg_meta pg)) + S (length (pgi_active_pages it)))%nat).
  destruct (pg_iter_ok pg act dead n Hr Hs) as (it1 & it2 & l & Eit1 & Hd & Hl & Hp); [lia|]. rewrite Eit in Eit1. injection Eit1 as <-.
  assert (Hi : pgi_index it = 0%nat /\ pgi_file_id it = pgm_group_id (pg_meta pg)).
  { unfold pg_iter in Eit. destruct (collect_active _ _); cbn in Eit; [by injection Eit as <-|done..]. }
  destruct Hi as [Hi0 Hif]. destruct (pg_iter_drain (S (length (pgi_active_pages it))) it) as (it3 & Hd3); [lia|].
  destruct (pg_iter_drain n it) as (it4 & Hd4); [lia|]. rewrite Hi0, drop_0 in Hd3, Hd4. exists l, it, it3. split; [done|].
  assert (Ea : active_addrs pg = (λ e, Z.lor (Z.shiftl (pgi_file_id it) 32) e.1) <$> pgi_active_pages it) by (unfold active_addrs; by rewrite Eit).
  rewrite Ea. split; [done|]. split; [|done]. rewrite Hd4, Hif in Hd. rewrite Hif. by injection Hd as -> _.
Qed.

Section compact.
Context `{PageCodecsLaws} {W : Type} `{SequentialWriterLaws W} {R : Type} `{PositionalReaderLaws R}.
Context (alloc : nat -> list Z) (io_fuel : nat) (Halloc : forall n, length (alloc n) = n).
Context (read_file_meta : Z -> res FileMetaHolder) (open_page_reader : Z -> Z -> res (FileReader R)).
Context (file_infos : gmap Z FileInfo) (page_groups : gmap Z PageGroup).
(** The contents and the page ids of the live pages. *)
Context (content : Z -> list Z) (id_of : Z -> Z).

(** ** What is copied *)

Definition page_spec (addr : Z) : PageSpec := mkPageSpec (id_of addr) addr (page_info (content addr)) (content addr).
Definition group_spec (g : Z) (pg : PageGroup) : GroupSpec := mkGroupSpec g (page_spec <$> active_addrs pg) [].
Definition file_specs (h : FileMetaHolder) : list GroupSpec :=
  omap (λ g, group_spec g <$> page_groups !! g) (merge_sort Z.le (map_to_list (fh_page_groups h)).*1).

(** A group whose active pages can be read from the bytes of its file, and have their
    ids in its page table. *)
Record readable_group (fm : FileMeta) (bytes : list Z) (h : FileMetaHolder) (g : Z) (pg : PageGroup) (act : gmap Z PageHandle) : Prop := {
  rg_repr : group_repr pg act;
  rg_nonempty : act <> ∅;
  rg_sorted : meta_sorted (pg_meta pg);
  rg_group : pgm_group_id (pg_meta pg) = g;
  rg_keys : forall a, is_Some (act !! a) -> fits 32 a;
  rg_table : exists t, fh_page_tables h !! g = Some t /\ forall a, is_Some (act !! a) -> table_lookup (group_addr g a) t = Some (id_of (group_addr g a));
  rg_read : forall a ph, act !! a = Some ph -> 0 <= ph_offset ph /\ 0 <= ph_size ph /\ ph_offset ph + ph_size ph <= length bytes /\
    decode_page fm (range_of bytes (ph_offset ph) (Z.to_nat (ph_size ph))) = Ok (content (group_addr g a));
}.
(** A victim: its metadata and its bytes can be read, and so can its groups. *)
Record readable_file (i : Z) (info : FileInfo) (h : FileMetaHolder) (bytes : list Z) : Prop := {
  rf_info : file_infos !! i = Some info;
  rf_id : fm_file_id (fi_meta info) = i;
  rf_meta : read_file_meta i = Ok h;
  rf_reader : exists r, open_page_reader i (fm_block_size (fi_meta info)) = Ok r /\ fr_repr io_fuel r bytes;
  rf_groups : forall g pg, is_Some (fh_page_groups h !! g) -> page_groups !! g = Some pg ->
    fits 32 g /\ exists act, readable_group (fi_meta info) bytes h g pg act;
}.

(** ** Reading the pages *)

Lemma wrap_group_addr g a : fits 32 g -> fits 32 a -> wrap32 (group_addr g a) = a /\ group_addr g a = g * 2 ^ 32 + a.
Proof using.
  intros Hg Ha. unfold group_addr, fits in *. rewrite lor_shiftl_add by lia. split; [|done].
  unfold wrap. rewrite Z.add_comm, Z.mod_add by lia. by apply Z.mod_small.
Qed.

Lemma compact_pages_ok info h g pg act bytes t addrs r (b : PageGroupBuilder W) :
  readable_group (fi_meta info) bytes h g pg act -> fits 32 g -> fh_page_tables h !! g = Some t ->
  (forall addr, addr ∈ addrs -> exists a, addr = group_addr g a /\ is_Some (act !! a)) -> fr_repr io_fuel r bytes ->
  exists r', fr_repr io_fuel r' bytes /\
    compact_pages alloc io_fuel addrs info t pg r b = (b ← gb_add_pages io_fuel (page_spec <$> addrs) b; Ok (b, r')).
Proof using Halloc.
  intros Hrg Hg Ht. revert r b. induction addrs as [|addr addrs IH]; intros r b Ha Hr; [by exists r|].
  destruct (Ha addr) as (a & -> & [ph Hph]); [by left|]. destruct (rg_repr _ _ _ _ _ _ Hrg) as [dead Hrep].
  destruct (wrap_group_addr g a Hg) as [Ew _]; [by eapply rg_keys; eauto|].
  destruct (rg_read _ _ _ _ _ _ Hrg a ph Hph) as (Ho & Hsz & Hle & Hdec).
  destruct (fr_read_ok alloc io_fuel Halloc r bytes (Z.to_nat (ph_size ph)) (ph_offset ph) Hr) as (r1 & Hrd & Hr1 & _); [done|lia|].
  assert (Hpage : read_file_page_from_reader alloc io_fuel (fi_meta info) ph r = (Ok (content (group_addr g a)), r1)).
  { unfold read_file_page_from_reader. st_step Hrd. unfold lift. by rewrite Hdec. }
  assert (Hid : table_lookup (group_addr g a) t = Some (id_of (group_addr g a))).
  { destruct (rg_table _ _ _ _ _ _ Hrg) as (t' & Ht' & Hid). assert (t' = t) as -> by congruence. apply Hid. eauto. }
  rewrite fmap_cons. cbn [compact_pages gb_add_pages page_spec sp_id sp_addr sp_info sp_content].
  rewrite (get_page_handle_ok pg act dead _ Hrep), Ew, Hph. cbn [mbind res_bind expect]. rewrite Hpage. cbn [mbind res_bind]. rewrite Hid. cbn [expect mbind res_bind].
  destruct (gb_add_page io_fuel _ _ _ _ b) as [b1|e|]; cbn [mbind res_bind]; [|by exists r1..].
  apply IH; [|done]. intros x Hx. apply Ha. by right.
Qed.

Lemma add_no_deallocs (g : PageGroupBuilder W) : gb_add_dealloc_pages [] g = g.
Proof using. by destruct g as [? ? [] ?]. Qed.

Lemma compact_groups_ok info h bytes targets r stats (b : FileBuilder W) :
  (forall g pg, g ∈ targets -> page_groups !! g = Some pg -> fits 32 g /\ exists act, readable_group (fi_meta info) bytes h g pg act) ->
  fr_repr io_fuel r bytes ->
  exists stats', compact_groups alloc io_fuel targets info h page_groups r stats b =
    (b ← write_groups io_fuel (omap (λ g, group_spec g <$> page_groups !! g) targets) b; Ok (b, stats')).
Proof using Halloc.
  revert r stats b. induction targets as [|g targets IH]; intros r stats b Hg Hr; [by exists stats|].
  cbn [compact_groups omap list_omap]. destruct (page_groups !! g) as [pg|] eqn:Epg; cbn [fmap option_fmap option_map].
  2: { apply IH; [|done]. intros g' pg' Hin. apply Hg. by right. }
  destruct (Hg g pg) as [Hfit (act & Hrg)]; [by left|done|]. destruct (rg_repr _ _ _ _ _ _ Hrg) as [dead Hrep].
  rewrite (pg_is_empty_ok pg act dead Hrep), bool_decide_false by apply Hrg. cbn [negb rassert mbind res_bind].
  destruct (active_addrs_ok pg act (rg_repr _ _ _ _ _ _ Hrg) (rg_sorted _ _ _ _ _ _ Hrg)) as (l & it & it' & Eit & Hd & Eaddrs & _ & Hperm).
  destruct (rg_table _ _ _ _ _ _ Hrg) as (t & Ht & _).
  destruct (compact_pages_ok info h g pg act bytes t (active_addrs pg) r (add_page_group g b) Hrg Hfit Ht) as (r1 & Hr1 & Ecp); [|done|].
  { rewrite Eaddrs, (rg_group _ _ _ _ _ _ Hrg). intros addr (a & -> & Ha)%list_elem_of_fmap. exists a. split; [done|].
    rewrite Hperm in Ha. apply list_elem_of_fmap in Ha as ([? ph] & -> & Hin%elem_of_map_to_list). eauto. }
  unfold compact_page_group, stats_collect. rewrite (rg_group _ _ _ _ _ _ Hrg), (num_active_pages_ok pg act dead Hrep). cbn [mbind res_bind].
  rewrite Ht. cbn [expect mbind res_bind]. rewrite Eit. cbn [mbind res_bind]. rewrite Hd. cbn [mbind res_bind]. rewrite Ecp.
  cbn [write_groups write_group group_spec gs_id gs_pages gs_deallocs].
  change (write_group io_fuel (group_spec g pg) b) with (gb ← gb_add_pages io_fuel (page_spec <$> active_addrs pg) (add_page_group g b);
    gb_finish io_fuel (gb_add_dealloc_pages [] gb)).
  destruct (gb_add_pages io_fuel (page_spec <$> active_addrs pg) (add_page_group g b)) as [gb|e|]; cbn [mbind res_bind]; [|by exists stats..].
  rewrite add_no_deallocs. destruct (gb_finish io_fuel gb) as [b1|e|]; cbn [mbind res_bind]; [|by exists stats..].
  apply IH; [|done]. intros g' pg' Hin. apply Hg. by right.
Qed.

(** ** Writing the file *)

Definition victim_specs (i : Z) : list GroupSpec := match read_file_meta i with Ok h => file_specs h | _ => [] end.
Definition victim_deallocs (i : Z) : list Z :=
  match file_infos !! i, read_file_meta i with
  | Some info, Ok h => retained_deallocs page_groups info (fh_dealloc_pages h)
  | _, _ => []
  end.
Definition compact_specs (victims : list Z) : list GroupSpec := concat (victim_specs <$> victims).
Definition compact_deallocs (victims : list Z) (s : list Z) : list Z := foldl (λ s i, bset_extend (victim_deallocs i) s) s victims.

Lemma all_deallocs_none groups s : Forall (λ g, gs_deallocs g = []) groups -> all_deallocs groups s = s.
Proof using. intros Hg. revert s. induction Hg as [|g groups E _ IH]; intros s; [done|]. unfold all_deallocs in *. cbn [foldl]. rewrite E. apply IH. Qed.
Lemma file_specs_none h : Forall (λ g, gs_deallocs g = []) (file_specs h).
Proof using.
  apply Forall_forall. intros s (g & _ & E)%list_elem_of_omap. destruct (page_groups !! g); [|done]. by injection E as <-.
Qed.

Section write.
Context (compression checksum_type : Z) (Hcodec : codec_ok compression checksum_type).

Lemma compact_file_ok i info h bytes stats (b : FileBuilder W) l :
  readable_file i info h bytes -> bw_repr io_fuel (fb_writer b) l -> fb_compression b = compression -> fb_checksum b = checksum_type ->
  groups_ok compression checksum_type (length l) (victim_specs i) ->
  exists stats' w o, compact_file alloc io_fuel read_file_meta open_page_reader info page_groups stats b =
      Ok (mkFileBuilder (fb_file_id b) w (bset_extend (victim_deallocs i) (fb_dealloc_pages b))
        (fb_page_index b ++ groups_index compression checksum_type (length l) (victim_specs i))
        (groups_fold compression checksum_type (written_group compression checksum_type (fb_file_id b)) (length l) (victim_specs i) (fb_page_groups b))
        (fb_block_size b) o (fb_compression b) (fb_checksum b), stats') /\
    bw_repr io_fuel w (l ++ groups_bytes compression checksum_type (length l) (victim_specs i)).
Proof using Halloc Hcodec H0 H2.
  intros [Hinfo Hid Hmeta (r & Hopen & Hr) Hgr] Hw Hc Hk Hok. unfold victim_specs, victim_deallocs in *. rewrite Hinfo, Hmeta in *.
  unfold compact_file. rewrite Hid, Hmeta. cbn [mbind res_bind]. rewrite Hopen. cbn [mbind res_bind].
  set (D := retained_deallocs page_groups info (fh_dealloc_pages h)). set (b1 := fb_add_dealloc_pages D b).
  destruct (compact_groups_ok info h bytes (merge_sort Z.le (map_to_list (fh_page_groups h)).*1) r
    (mkCompactStats (cs_num_active_pages stats) (cs_num_dealloc_pages stats + length D) (cs_input_size stats) (cs_output_size stats)) b1) as (stats' & E); [|done|].
  { intros g pg Hin Hpg. rewrite merge_sort_Permutation in Hin. apply list_elem_of_fmap in Hin as ([? m] & -> & Hm%elem_of_map_to_list). apply Hgr; eauto. }
  rewrite E. fold (file_specs h). destruct (write_groups_ok io_fuel compression checksum_type Hcodec (file_specs h) b1 l) as (w & o & Ew & Hw'); [done|done|done|done|].
  rewrite Ew. cbn [mbind res_bind]. exists stats', w, o. rewrite all_deallocs_none by apply file_specs_none. done.
Qed.

Lemma compact_victims_ok victims stats up2 cleaned progress (b : FileBuilder W) l :
  (forall i, i ∈ victims -> exists info h bytes, readable_file i info h bytes) ->
  bw_repr io_fuel (fb_writer b) l -> fb_compression b = compression -> fb_checksum b = checksum_type ->
  groups_ok compression checksum_type (length l) (compact_specs victims) ->
  exists w o up2' progress', compact_victims alloc io_fuel read_file_meta open_page_reader victims file_infos page_groups b stats up2 (cleaned, progress) =
      (Ok (mkFileBuilder (fb_file_id b) w (compact_deallocs victims (fb_dealloc_pages b))
        (fb_page_index b ++ groups_index compression checksum_type (length l) (compact_specs victims))
        (groups_fold compression checksum_type (written_group compression checksum_type (fb_file_id b)) (length l) (compact_specs victims) (fb_page_groups b))
        (fb_block_size b) o (fb_compression b) (fb_checksum b), up2'), (list_to_set victims ∪ cleaned, progress')) /\
    bw_repr io_fuel w (l ++ groups_bytes compression checksum_type (length l) (compact_specs victims)).
Proof using Halloc Hcodec H0 H2.
  revert stats up2 cleaned progress b l. induction victims as [|i victims IH]; intros stats up2 cleaned progress b l Hv Hw Hc Hk Hok.
  - exists (fb_writer b), (fb_file_offset b), up2, progress. cbn. rewrite !app_nil_r, (left_id_L ∅ _). split; [by destruct b|done].
  - destruct (Hv i) as (info & h & bytes & Hf); [by left|]. unfold compact_specs in *. rewrite fmap_cons in *. cbn [concat] in *.
    destruct (compact_file_ok i info h bytes stats b l Hf Hw Hc Hk) as (stats' & w & o & E & Hw'); [by eapply groups_ok_prefix|].
    apply groups_ok_app in Hok. rewrite <- Nat2Z.inj_add, <- length_app in Hok.
    cbn [compact_victims]. rewrite (rf_info _ _ _ _ Hf). cbn [expect]. unfold mbind, st_bind, lift, modify.
    cbv beta iota. rewrite E. cbv beta iota.
    set (b1 := mkFileBuilder _ _ _ _ _ _ _ _ _).
    destruct (IH stats' (wrap32 (up2 + fi_up2 info)) ({[i]} ∪ cleaned) (track_file info page_groups progress) b1 _ ltac:(intros; apply Hv; by right) Hw' Hc Hk Hok)
      as (w2 & o2 & up2' & progress' & E2 & Hw2).
    exists w2, o2, up2', progress'. rewrite E2. unfold b1.
    cbn [fb_file_id fb_dealloc_pages fb_page_index fb_page_groups fb_block_size fb_compression fb_checksum].
    rewrite groups_index_app, groups_fold_app, groups_bytes_app. rewrite length_app, Nat2Z.inj_add in *. rewrite <- !app_assoc in *.
    split; [|done]. unfold compact_deallocs. cbn [foldl].
    replace (list_to_set (i :: victims) ∪ cleaned) with (list_to_set victims ∪ ({[i]} ∪ cleaned) : gset Z) by set_solver. done.
Qed.
End write.

(** ** The groups of the file *)

(** The pages of one group, within the limits of the format. *)
Record spec_ok (compression checksum_type : Z) (s : GroupSpec) : Prop := {
  so_addrs : group_addrs (gs_id s) (sp_addr <$> gs_pages s);
  so_fits : Forall (λ p, fits 64 (sp_addr p) /\ fits 64 (sp_id p) /\ fits 64 (pi_meta (sp_info p)) /\ fits 64 (pi_next (sp_info p))) (gs_pages s);
  so_gid : fits 32 (gs_id s);
  so_bytes : gs_pages s <> [] -> pages_bytes compression checksum_type (gs_pages s) <> [];
}.
Lemma groups_ok_intro compression checksum_type base specs :
  Forall (spec_ok compression checksum_type) specs -> 0 <= base -> base + length (groups_bytes compression checksum_type base specs) < 2 ^ 32 ->
  groups_ok compression checksum_type base specs.
Proof using.
  intros Hs. revert base. induction Hs as [|s specs [Ha Hf Hg _] _ IH]; intros base Hb Hl; [done|]. cbn [groups_bytes] in Hl. rewrite length_app in Hl.
  split; [split; [done..|lia]|]. apply IH; lia.
Qed.

Lemma meta_map_keys (d : list (Z * (Z * PageInfo))) e a : is_Some (meta_map d e !! a) <-> a ∈ wrap32 <$> d.*1.
Proof using.
  unfold meta_map. rewrite <- (meta_entries_keys d 0 e). split.
  - intros [pm Hpm%elem_of_list_to_map_2]. apply list_elem_of_fmap. by exists (a, pm).
  - intros Ha. apply not_eq_None_Some. intros E. by apply (not_elem_of_list_to_map_2 (M := gmap Z)) in E.
Qed.

Lemma written_meta_ok compression checksum_type f base s :
  spec_ok compression checksum_type s -> pages_ok compression checksum_type (gs_id s) base (gs_pages s) ->
  group_meta_ok f (gs_id s) (written_meta compression checksum_type f base s) /\
  group_meta_ok f (gs_id s) (read_meta compression checksum_type f base s) /\
  same_handles (written_meta compression checksum_type f base s) (read_meta compression checksum_type f base s) /\
  (forall a, is_Some (pgm_page_meta_map (written_meta compression checksum_type f base s) !! a) <-> a ∈ wrap32 <$> (sp_addr <$> gs_pages s)).
Proof using.
  intros Hs Hp. destruct (pages_ok_bounds _ _ _ _ _ Hp) as (Ht & _ & Hl & Hti). pose proof (po_base _ _ _ _ _ Hp) as Hb.
  set (d := page_entries compression checksum_type base (gs_pages s)). set (e := table_offset compression checksum_type base (gs_pages s)) in *.
  assert (Hd : group_addrs (gs_id s) d.*1) by (unfold d; rewrite page_entries_keys; apply Hp).
  assert (Ho : offsets_ok d e) by (by apply page_entries_offsets).
  assert (Hld : length d < 2 ^ 32) by (unfold d; by rewrite length_page_entries).
  assert (Hfe : fits 32 e) by (unfold fits; lia).
  assert (Hkeys : forall a, is_Some (meta_map d e !! a) <-> a ∈ wrap32 <$> (sp_addr <$> gs_pages s)).
  { intros a. rewrite meta_map_keys. unfold d. by rewrite page_entries_keys. }
  assert (Hsz : forall d', d'.*1 = d.*1 -> next_offset d' e = next_offset d e -> offsets_ok d' e ->
    group_meta_ok f (gs_id s) (group_meta compression checksum_type (gs_id s) f base d' (gs_pages s))).
  { intros d' Ek En Ho'. assert (Hd' : group_addrs (gs_id s) d'.*1) by (by rewrite Ek).
    assert (Hld' : length d' < 2 ^ 32) by (rewrite <- (length_fmap fst), Ek, length_fmap; done).
    destruct (meta_map_ok (gs_id s) d' e Hd' Ho' Hld' Hfe (gs_id s) f base (index_offset compression checksum_type base (gs_pages s))) as [Hm _].
    split; [exact Hm|done|done|]. unfold total_pages, total_page_size, group_meta. cbn [pgm_page_meta_map pgm_page_table_offset pgm_base_offset]. fold e.
    intros Hn. rewrite (meta_map_total (gs_id s) d' e Hd'), En. rewrite (meta_map_size (gs_id s) d' e Hd') in Hn.
    assert (Hne : gs_pages s <> []). { intros E. apply Hn. rewrite <- (length_fmap fst), Ek. unfold d. by rewrite E. }
    assert (Enext : next_offset d e = base). { unfold d. destruct (gs_pages s); [done|]. by cbn. }
    rewrite Enext. unfold sat_sub. assert (e = base + length (pages_bytes compression checksum_type (gs_pages s))) by done.
    pose proof (so_bytes _ _ _ Hs Hne) as Hby. destruct (pages_bytes compression checksum_type (gs_pages s)); [done|]. cbn [length] in *.
    rewrite Z.max_r by lia. destruct (Z.eqb_spec (e - base) 0); lia. }
  split; [by apply (Hsz d)|]. split; [|split].
  - apply (Hsz (disk_entries d e)); [apply disk_entries_keys|apply disk_next|by apply disk_offsets_ok].
  - rewrite <- read_meta_as_read. unfold same_handles, meta_as_read. cbn [pgm_page_meta_map]. rewrite <- map_fmap_compose. by apply map_fmap_ext.
  - exact Hkeys.
Qed.

(** ** The compaction as a whole *)

(** What is asked of the victims, the codecs and the new file. *)
Record compact_ok (compression checksum_type : Z) (file : W) (victims : gset Z) : Prop := {
  ck_codec : codec_ok compression checksum_type;
  ck_victims : (0 < size victims)%nat /\ size victims < 2 ^ 32;
  ck_readable : forall i, i ∈ victims -> exists info h bytes, readable_file i info h bytes;
  ck_unique : forall i j hi hj g, i ∈ victims -> j ∈ victims -> read_file_meta i = Ok hi -> read_file_meta j = Ok hj ->
    is_Some (fh_page_groups hi !! g) -> is_Some (fh_page_groups hj !! g) -> i = j;
  ck_pages : forall g pg addr, page_groups !! g = Some pg -> addr ∈ active_addrs pg ->
    Forall byte_ok (content addr) /\ length (content addr) < 2 ^ 64 /\ MIN_ID <= id_of addr < MAX_ID /\ 0 < addr /\
    page_bytes compression checksum_type (content addr) <> [];
  ck_tables : forall i h g t addr id, i ∈ victims -> read_file_meta i = Ok h -> fh_page_tables h !! g = Some t -> (addr, id) ∈ t ->
    is_Some (fh_page_groups h !! g) /\ fits 64 addr /\ table_lookup addr t = Some id;
  ck_deallocs : forall i h x, i ∈ victims -> read_file_meta i = Ok h -> x ∈ fh_dealloc_pages h -> fits 64 x;
  ck_empty : sw_content file = [];
  ck_fuel : IO_BUFFER_SIZE + DEFAULT_BLOCK_SIZE + sw_interrupts file <= io_fuel;
  ck_groups_size : length (groups_bytes compression checksum_type 0 (compact_specs (merge_sort Z.le (elements victims)))) < 2 ^ 32;
  ck_size : length (file_bytes compression checksum_type (compact_specs (merge_sort Z.le (elements victims)))
    (compact_deallocs (merge_sort Z.le (elements victims)) [])) < 2 ^ 64;
}.

Section whole.
Context (compression checksum_type : Z) (file : W) (victims : gset Z) (Hok : compact_ok compression checksum_type file victims).

Let vs := merge_sort Z.le (elements victims).
Let specs := compact_specs vs.
Let deallocs := compact_deallocs vs [].

Lemma elem_vs i : i ∈ vs <-> i ∈ victims.
Proof using. unfold vs. by rewrite merge_sort_Permutation, elem_of_elements. Qed.

(** A group of the file is an existing group of a victim. *)
Lemma elem_specs s : s ∈ specs <-> exists i h g pg, i ∈ victims /\ read_file_meta i = Ok h /\ is_Some (fh_page_groups h !! g) /\
  page_groups !! g = Some pg /\ s = group_spec g pg.
Proof using Hok.
  unfold specs, compact_specs. rewrite list_elem_of_In, in_concat. split.
  - intros (l & (i & -> & Hi%elem_vs)%list_elem_of_In%list_elem_of_fmap & Hs%list_elem_of_In). unfold victim_specs in Hs.
    destruct (read_file_meta i) as [h| |] eqn:Eh; [|by apply not_elem_of_nil in Hs..]. unfold file_specs in Hs.
    apply list_elem_of_omap in Hs as (g & Hg & E). rewrite merge_sort_Permutation in Hg. apply list_elem_of_fmap in Hg as ([? m] & -> & Hm%elem_of_map_to_list).
    cbn [fst] in E. destruct (page_groups !! z) as [pg|] eqn:Epg; [|done]. injection E as <-. exists i, h, z, pg. split_and!; eauto.
  - intros (i & h & g & pg & Hi & Eh & [m Hm] & Hpg & ->). exists (victim_specs i). split.
    + apply list_elem_of_In, list_elem_of_fmap. exists i. split; [done|by apply elem_vs].
    + apply list_elem_of_In. unfold victim_specs. rewrite Eh. unfold file_specs. apply list_elem_of_omap. exists g. split; [|by rewrite Hpg].
      rewrite merge_sort_Permutation. apply list_elem_of_fmap. exists (g, m). split; [done|]. by apply elem_of_map_to_list.
Qed.
Lemma elem_deallocs l s x : x ∈ compact_deallocs l s <-> (exists i, i ∈ l /\ x ∈ victim_deallocs i) \/ x ∈ s.
Proof using.
  revert s. induction l as [|i l IH]; intros s.
  { split; [by right|]. intros [(i & Hi & _)|?]; [by apply not_elem_of_nil in Hi|done]. }
  change (compact_deallocs (i :: l) s) with (compact_deallocs l (bset_extend (victim_deallocs i) s)). rewrite IH, bset_extend_elem. split.
  - intros [(j & Hj & Hx)|[Hx|Hx]]; [left; exists j; split; [by right|done]|left; exists i; split; [by left|done]|by right].
  - intros [(j & [->|Hj]%elem_of_cons & Hx)|Hx]; [right; by left|left; by exists j|right; by right].
Qed.
Lemma victim_dealloc x : x ∈ deallocs -> exists i h, i ∈ victims /\ read_file_meta i = Ok h /\ x ∈ fh_dealloc_pages h.
Proof using Hok.
  intros [(i & Hi%elem_vs & Hx)|Hx]%elem_deallocs; [|by apply not_elem_of_nil in Hx]. unfold victim_deallocs in Hx.
  destruct (file_infos !! i) as [info|]; [|by apply not_elem_of_nil in Hx]. destruct (read_file_meta i) as [h| |] eqn:Eh; [|by apply not_elem_of_nil in Hx..].
  apply list_elem_of_filter in Hx as [_ Hx]. eauto.
Qed.

(** The addresses of an existing group of a victim. *)
Lemma victim_group i h g pg : i ∈ victims -> read_file_meta i = Ok h -> is_Some (fh_page_groups h !! g) -> page_groups !! g = Some pg ->
  fits 32 g /\ exists info bytes act l, file_infos !! i = Some info /\ readable_group (fi_meta info) bytes h g pg act /\
    active_addrs pg = group_addr g <$> l /\ StronglySorted Z.lt l /\ forall a, a ∈ l <-> is_Some (act !! a).
Proof using Hok.
  intros Hi Eh Hg Hpg. destruct (ck_readable _ _ _ _ Hok i Hi) as (info & h' & bytes & Hf). pose proof (rf_meta _ _ _ _ Hf) as Eh'.
  rewrite Eh in Eh'. injection Eh' as <-. destruct (rf_groups _ _ _ _ Hf g pg Hg Hpg) as [Hfit (act & Hrg)]. split; [done|].
  destruct (active_addrs_ok pg act (rg_repr _ _ _ _ _ _ Hrg) (rg_sorted _ _ _ _ _ _ Hrg)) as (l & _ & _ & _ & _ & Ea & Hl & Hperm).
  rewrite (rg_group _ _ _ _ _ _ Hrg) in Ea. exists info, bytes, act, l. split_and!; [by apply Hf|done..|].
  intros a. rewrite Hperm, list_elem_of_fmap. split.
  - intros ([? ph] & -> & Hin%elem_of_map_to_list). eauto.
  - intros [ph Hph]. exists (a, ph). split; [done|]. by apply elem_of_map_to_list.
Qed.

Lemma page_info_fits page : Forall byte_ok page -> fits 64 (pi_meta (page_info page)) /\ fits 64 (pi_next (page_info page)).
Proof using. intros Hb. split; by apply read_num_fits. Qed.

Lemma specs_ok : Forall (spec_ok compression checksum_type) specs.
Proof using Hok.
  apply Forall_forall. intros s (i & h & g & pg & Hi & Eh & Hg & Hpg & ->)%elem_specs.
  destruct (victim_group i h g pg Hi Eh Hg Hpg) as (Hfit & info & bytes & act & l & _ & Hrg & Ea & Hl & Hin).
  assert (Hk : forall a, a ∈ l -> fits 32 a) by (intros a Ha; eapply rg_keys; [exact Hrg|by apply Hin]).
  assert (Heq : forall a, a ∈ l -> group_addr g a = g * 2 ^ 32 + a) by (intros a Ha; apply wrap_group_addr; auto).
  assert (Haddrs : sp_addr <$> (page_spec <$> active_addrs pg) = group_addr g <$> l) by (rewrite <- list_fmap_compose, Ea, <- list_fmap_compose; done).
  split; cbn [gs_id gs_pages group_spec]; [| |done|].
  - rewrite Haddrs. split.
    + assert (Hmono : forall a b, a ∈ l -> b ∈ l -> a < b -> group_addr g a < group_addr g b).
      { intros a b Ha Hb Hlt. rewrite !Heq by done. lia. }
      clear -Hl Hmono. induction Hl as [|a l Hs IH Hall]; [constructor|]. rewrite fmap_cons. constructor.
      * apply IH. intros x y Hx Hy. apply Hmono; by right.
      * rewrite Forall_forall in *. intros y (b & -> & Hb)%list_elem_of_fmap. apply Hmono; [by left|by right|by apply Hall].
    + apply Forall_forall. intros x (a & -> & Ha)%list_elem_of_fmap. rewrite Heq by done. specialize (Hk a Ha). unfold fits in *.
      rewrite Z.add_comm, Z.div_add, Z.div_small by lia. lia.
  - apply Forall_forall. intros p (addr & -> & Haddr)%list_elem_of_fmap. cbn [page_spec sp_addr sp_id sp_info].
    destruct (ck_pages _ _ _ _ Hok g pg addr Hpg Haddr) as (Hb & _ & Hid & _). rewrite Ea in Haddr. apply list_elem_of_fmap in Haddr as (a & -> & Ha).
    specialize (Hk a Ha). split; [rewrite Heq by done; unfold fits in *; lia|].
    split; [unfold fits, MIN_ID in *; rewrite max_id_val in Hid; lia|]. by apply page_info_fits.
  - destruct (active_addrs pg) as [|addr addrs] eqn:Eaddrs; [done|]. intros _ E. rewrite fmap_cons in E. unfold pages_bytes in E. rewrite fmap_cons in E. cbn [concat] in E.
    apply app_eq_nil in E as [E _]. destruct (ck_pages _ _ _ _ Hok g pg addr Hpg) as (_ & _ & _ & _ & Hne); [rewrite Eaddrs; by left|]. done.
Qed.

Lemma specs_groups_ok : groups_ok compression checksum_type 0 specs.
Proof using Hok. apply groups_ok_intro; [apply specs_ok|done|]. rewrite Z.add_0_l. apply Hok. Qed.

Lemma specs_ids : NoDup (gs_id <$> specs).
Proof using Hok.
  assert (Hvs : NoDup vs) by (unfold vs; rewrite merge_sort_Permutation; apply NoDup_elements).
  assert (Hsub : forall i, i ∈ vs -> i ∈ victims) by (intros i; apply elem_vs). unfold specs, compact_specs. clear specs deallocs.
  assert (Hids : forall i g, g ∈ gs_id <$> victim_specs i -> exists h, read_file_meta i = Ok h /\ is_Some (fh_page_groups h !! g)).
  { intros i g (s & -> & Hs)%list_elem_of_fmap. unfold victim_specs in Hs. destruct (read_file_meta i) as [h| |]; [|by apply not_elem_of_nil in Hs..].
    apply list_elem_of_omap in Hs as (g & Hg & E). destruct (page_groups !! g); [|done]. injection E as <-. exists h. split; [done|]. cbn.
    rewrite merge_sort_Permutation in Hg. apply list_elem_of_fmap in Hg as ([? m] & -> & Hm%elem_of_map_to_list). eauto. }
  assert (Hone : forall i, NoDup (gs_id <$> victim_specs i)).
  { intros i. unfold victim_specs. destruct (read_file_meta i) as [h| |]; [|constructor..]. unfold file_specs.
    assert (Hk : NoDup (merge_sort Z.le (map_to_list (fh_page_groups h)).*1)) by (rewrite merge_sort_Permutation; apply NoDup_fst_map_to_list).
    induction Hk as [|g l Hn Hk IH]; [constructor|]. cbn [omap list_omap]. destruct (page_groups !! g) as [pg|]; [|exact IH]. cbn [fmap option_fmap option_map].
    rewrite fmap_cons. constructor; [|exact IH]. intros (s & E & (g' & Hg' & Es)%list_elem_of_omap)%list_elem_of_fmap. destruct (page_groups !! g'); [|done].
    injection Es as <-. cbn in E. by subst. }
  induction Hvs as [|i l Hi Hnd IH]; [constructor|]. rewrite fmap_cons. cbn [concat]. rewrite fmap_app. apply NoDup_app. split; [apply Hone|]. split; [|apply IH; intros; apply Hsub; by right].
  intros g (h & Eh & Hg)%Hids (s & -> & Hs)%list_elem_of_fmap. apply list_elem_of_In, in_concat in Hs as (ls & (j & -> & Hj)%list_elem_of_In%list_elem_of_fmap & Hs%list_elem_of_In).
  destruct (Hids j (gs_id s)) as (hj & Ehj & Hgj); [by apply list_elem_of_fmap_2|].
  assert (i = j) as ->; [|done]. apply (ck_unique _ _ _ _ Hok i j h hj (gs_id s)); try done; apply Hsub; [by left|by right].
Qed.

Lemma compact_files_ok options new_id use_direct cleaned progress :
  opt_compression_on_cold_compact options = compression -> opt_page_checksum_type options = checksum_type ->
  let pgs := groups_fold compression checksum_type (written_group compression checksum_type new_id) 0 specs ∅ in
  exists up2 f progress', compact_files alloc io_fuel read_file_meta open_page_reader options new_id file use_direct file_infos page_groups victims (cleaned, progress) =
      (Ok (pgs, mkFileInfo up2 up2 (mkFileMeta new_id (length (file_bytes compression checksum_type specs deallocs)) DEFAULT_BLOCK_SIZE checksum_type compression
        (get_referenced_groups deallocs) (pg_meta <$> pgs)), f), (victims ∪ cleaned, progress')) /\
    sw_content f = file_bytes compression checksum_type specs deallocs.
Proof using Hok Halloc H0 H2.
  intros Hoc Hos pgs. pose proof specs_groups_ok as Hg. destruct Hok as [Hcodec Hvic Hread _ _ _ _ He Hf _ Hs]. fold vs specs deallocs in Hs.
  destruct (bw_new_ok alloc io_fuel Halloc file IO_BUFFER_SIZE use_direct DEFAULT_BLOCK_SIZE) as (w & E & Hw); [done|done|done|done|done|].
  unfold compact_files, file_builder_new. rewrite Hoc, Hos, E. unfold mbind, st_bind, res_bind, lift. cbv beta iota. set (b := mkFileBuilder new_id w [] [] ∅ DEFAULT_BLOCK_SIZE 0 compression checksum_type).
  destruct (compact_victims_ok compression checksum_type Hcodec vs stats_default 0 cleaned progress b []) as (w1 & o & up2 & progress' & E1 & Hw1); [|done|done|done|done|].
  { intros i Hi%elem_vs. by apply Hread. }
  fold vs. cbv zeta. rewrite E1. cbv beta iota. assert (Hlen : length vs = size victims) by (unfold vs; by rewrite (Permutation_length (merge_sort_Permutation _ _))).
  rewrite Hlen, wrap_small by (unfold fits; lia). rewrite (proj2 (Z.eqb_neq _ _)) by lia. cbn [negb rassert].
  cbn [fb_file_id fb_dealloc_pages fb_page_index fb_page_groups fb_block_size fb_compression fb_checksum b app] in *. fold specs deallocs in E1, Hw1 |- *.
  change (Z.of_nat (length [])) with 0 in *. set (b1 := mkFileBuilder _ _ _ _ _ _ _ _ _).
  destruct (fb_finish_ok io_fuel compression checksum_type Hcodec (up2 / size victims) b1 _ Hw1) as (f & E2 & Hc); [done|done|done|].
  rewrite E2. exists (up2 / size victims), f, progress'. split; [|exact Hc]. fold pgs.
  replace (list_to_set vs ∪ cleaned) with (victims ∪ cleaned); [done|]. apply set_eq. intros i. rewrite !elem_of_union, elem_of_list_to_set. by rewrite elem_vs.
Qed.

(** A group of the file and where it starts. *)
Lemma spec_at k :
  (exists base s, s ∈ specs /\ gs_id s = k /\ pages_ok compression checksum_type (gs_id s) base (gs_pages s) /\
     forall A (fn : Z -> GroupSpec -> A), groups_fold compression checksum_type fn 0 specs ∅ !! k = Some (fn base s)) \/
  (~ k ∈ gs_id <$> specs /\ forall A (fn : Z -> GroupSpec -> A), groups_fold compression checksum_type fn 0 specs ∅ !! k = None).
Proof using Hok.
  destruct (decide (k ∈ gs_id <$> specs)) as [Hk|Hk]; [left|right].
  - apply list_elem_of_fmap in Hk as (s & -> & Hs). pose proof Hs as (pre & post & E)%list_elem_of_split.
    pose proof specs_ids as Hnd. rewrite E, fmap_app, fmap_cons in Hnd. apply NoDup_app in Hnd as (_ & _ & [Hn _]%NoDup_cons).
    exists (0 + length (groups_bytes compression checksum_type 0 pre)), s. split; [done|]. split; [done|]. split.
    + pose proof specs_groups_ok as Hg. rewrite E in Hg. by apply groups_ok_app in Hg as [Hp _].
    + intros A fn. rewrite E. by apply groups_fold_lookup.
  - split; [done|]. intros A fn. apply eq_None_not_Some. rewrite groups_fold_is_Some. intros [?|[? Hx]]; [done|]. by rewrite lookup_empty in Hx.
Qed.

(** What the metadata of the file is when it is read back. *)
Section read_back.
Context (v : Version) (disk : gmap Z FileMetaHolder) (new_id : Z) (block_size : Z).
Context (Hgroups : v_page_groups v = page_groups) (Hdisk : forall i, i ∈ victims -> read_file_meta i = read_meta_of disk i).

Let pgs := groups_fold compression checksum_type (written_group compression checksum_type new_id) 0 specs ∅.
Let metas := groups_fold compression checksum_type (read_meta compression checksum_type new_id) 0 specs ∅.
Let tables := groups_fold compression checksum_type (λ _ g, group_table (gs_pages g)) 0 specs ∅.
Let holder := mkFileMetaHolder (mkFileMeta new_id (length (file_bytes compression checksum_type specs deallocs)) block_size
  checksum_type compression (get_referenced_groups deallocs) metas) metas tables deallocs.

Lemma disk_meta i h : i ∈ victims -> disk !! i = Some h <-> read_file_meta i = Ok h.
Proof using Hdisk. intros Hi. rewrite Hdisk by done. unfold read_meta_of. destruct (disk !! i); naive_solver. Qed.

(** A group that is copied: where it comes from, and what is written and read back. *)
Record copied_group (k base i : Z) (h : FileMetaHolder) (pg : PageGroup) (l : list Z) (act : gmap Z PageHandle) : Prop := {
  cg_victim : i ∈ victims;
  cg_read : read_file_meta i = Ok h;
  cg_held : is_Some (fh_page_groups h !! k);
  cg_group : page_groups !! k = Some pg;
  cg_fits : fits 32 k;
  cg_repr : group_repr pg act;
  cg_addrs : active_addrs pg = group_addr k <$> l;
  cg_active : forall a, a ∈ l <-> is_Some (act !! a);
  cg_keys : forall a, a ∈ l -> fits 32 a;
  cg_table : exists t, fh_page_tables h !! k = Some t /\ forall a, a ∈ l -> table_lookup (group_addr k a) t = Some (id_of (group_addr k a));
  cg_pgs : pgs !! k = Some (written_group compression checksum_type new_id base (group_spec k pg));
  cg_metas : metas !! k = Some (read_meta compression checksum_type new_id base (group_spec k pg));
  cg_tables : tables !! k = Some (group_table (page_spec <$> active_addrs pg));
  cg_written : group_meta_ok new_id k (written_meta compression checksum_type new_id base (group_spec k pg));
  cg_meta : group_meta_ok new_id k (read_meta compression checksum_type new_id base (group_spec k pg));
  cg_same : same_handles (written_meta compression checksum_type new_id base (group_spec k pg)) (read_meta compression checksum_type new_id base (group_spec k pg));
  cg_pages : forall a, is_Some (pgm_page_meta_map (read_meta compression checksum_type new_id base (group_spec k pg)) !! a) <-> a ∈ l;
}.
Lemma spec_copied k : is_Some (metas !! k) -> exists base i h pg l act, copied_group k base i h pg l act.
Proof using Hok.
  intros Hk. destruct (spec_at k) as [(base & s & Hs & Ek & Hp & Hl)|[_ Hn]]; [|unfold metas in Hk; rewrite Hn in Hk; by destruct Hk].
  pose proof Hs as (i & h & g & pg & Hi & Eh & Hg & Hpg & ->)%elem_specs. cbn in Ek. subst g.
  destruct (victim_group i h k pg Hi Eh Hg Hpg) as (Hfit & info & bytes & act & l & _ & Hrg & Ea & _ & Hin).
  assert (Hfits : forall a, a ∈ l -> fits 32 a) by (intros a Ha; eapply rg_keys; [exact Hrg|by apply Hin]).
  pose proof specs_ok as Hso. rewrite Forall_forall in Hso. destruct (written_meta_ok compression checksum_type new_id base _ (Hso _ Hs) Hp) as (Hw & Hr & Hsame & Hkeys).
  exists base, i, h, pg, l, act. split; [done|done|done|done|done|apply Hrg|done|done|done| |apply Hl|apply Hl|apply Hl|done|done|done|].
  - destruct (rg_table _ _ _ _ _ _ Hrg) as (t & Ht & Hid). exists t. split; [done|]. intros a Ha. by apply Hid, Hin.
  - intros a. rewrite <- (same_handles_page _ _ a Hsame), Hkeys. cbn [gs_pages group_spec]. rewrite <- !list_fmap_compose, Ea, <- list_fmap_compose, list_elem_of_fmap. split.
    + intros (a' & -> & Ha'). cbn. by destruct (wrap_group_addr k a') as [-> _]; auto.
    + intros Ha. exists a. split; [|done]. cbn. by destruct (wrap_group_addr k a) as [-> _]; auto.
Qed.

(** All three maps have the same groups. *)
Lemma spec_dom k : (is_Some (pgs !! k) <-> is_Some (metas !! k)) /\ (is_Some (tables !! k) <-> is_Some (metas !! k)).
Proof using.
  assert (Hd : forall A (fn : Z -> GroupSpec -> A), is_Some (groups_fold compression checksum_type fn 0 specs ∅ !! k) <-> k ∈ gs_id <$> specs).
  { intros A fn. rewrite groups_fold_is_Some, lookup_empty. split; [intros [?|[??]]; done|by left]. }
  unfold pgs, metas, tables. by rewrite !Hd.
Qed.

Lemma spec_meta_group g : is_Some (metas !! g) <-> is_Some (page_groups !! g) /\ exists i hi, i ∈ victims /\ disk !! i = Some hi /\ is_Some (fh_page_groups hi !! g).
Proof using Hok Hdisk.
  split.
  - intros (base & i & h & pg & l & act & Hx)%spec_copied. split; [eexists; apply Hx|]. exists i, h. split; [apply Hx|]. split; [apply disk_meta; apply Hx|apply Hx].
  - intros [[pg Hpg] (i & h & Hi & Hh & Hg)]. apply (disk_meta i h Hi) in Hh. unfold metas. rewrite groups_fold_is_Some. left.
    apply list_elem_of_fmap. exists (group_spec g pg). split; [done|]. apply elem_specs. exists i, h, g, pg. done.
Qed.

Lemma copied_entry k base i h pg l act addr id : copied_group k base i h pg l act ->
  (addr, id) ∈ group_table (page_spec <$> active_addrs pg) <-> exists a, a ∈ l /\ addr = group_addr k a /\ id = id_of addr.
Proof using.
  intros Hc. unfold group_table. rewrite <- list_fmap_compose, list_elem_of_fmap, (cg_addrs _ _ _ _ _ _ _ Hc). split.
  - intros (? & [= -> ->] & (a & -> & Ha)%list_elem_of_fmap). eauto.
  - intros (a & Ha & -> & ->). exists (group_addr k a). split; [done|]. apply list_elem_of_fmap. eauto.
Qed.
Lemma table_lookup_elem addr t id : table_lookup addr t = Some id -> (addr, id) ∈ t.
Proof using.
  unfold table_lookup. destruct (list_find _ t) as [[j [x y]]|] eqn:E; [|done]. intros [= <-]. apply list_find_Some in E as (E & Ex & _). cbn in *. subst.
  by eapply list_elem_of_lookup_2.
Qed.

Lemma holder_compacted : compacted v disk victims new_id pgs holder.
Proof using Hok Hgroups Hdisk.
  assert (Hcg : forall k m, metas !! k = Some m -> exists base i h pg l act, copied_group k base i h pg l act /\ m = read_meta compression checksum_type new_id base (group_spec k pg)).
  { intros k m Hm. destruct (spec_copied k) as (base & i & h & pg & l & act & Hc); [eauto|]. exists base, i, h, pg, l, act. split; [done|].
    pose proof (cg_metas _ _ _ _ _ _ _ Hc). congruence. }
  assert (Htab : forall k t, tables !! k = Some t -> exists base i h pg l act, copied_group k base i h pg l act /\ t = group_table (page_spec <$> active_addrs pg)).
  { intros k t Ht. destruct (spec_copied k) as (base & i & h & pg & l & act & Hc); [by apply (proj2 (spec_dom k)); eauto|]. exists base, i, h, pg, l, act. split; [done|].
    pose proof (cg_tables _ _ _ _ _ _ _ Hc). congruence. }
  split.
  - split; [|done|done|done]. intros g m Hg. destruct (Hcg g m Hg) as (base & i & h & pg & l & act & Hc & ->). apply Hc.
  - apply Forall_forall. intros [addr id] Hin. apply list_elem_of_In, in_concat in Hin as (t & Ht%list_elem_of_In & Hin%list_elem_of_In).
    apply list_elem_of_fmap in Ht as ([g ?] & -> & Hg%elem_of_map_to_list). destruct (Htab g l Hg) as (base & i & h & pg & lx & act & Hc & ->).
    apply (copied_entry _ _ _ _ _ _ _ _ _ Hc) in Hin as (a & Ha & -> & ->). destruct (ck_pages _ _ _ _ Hok g pg (group_addr g a)) as (_ & _ & ? & ? & _);
      [apply Hc|rewrite (cg_addrs _ _ _ _ _ _ _ Hc); by apply list_elem_of_fmap_2|done].
  - intros g pg Hg. destruct (spec_copied g) as (base & i & h & pg0 & l & act & Hc); [by apply (proj1 (spec_dom g)); eauto|].
    exists (written_meta compression checksum_type new_id base (group_spec g pg0)), (read_meta compression checksum_type new_id base (group_spec g pg0)).
    split; [|split; [apply Hc|split; [apply Hc|apply Hc]]]. pose proof (cg_pgs _ _ _ _ _ _ _ Hc). unfold written_group in *. congruence.
  - intros g Hg. by apply (proj1 (spec_dom g)).
  - intros g. rewrite Hgroups. apply spec_meta_group.
  - intros g m pg act a Hm Hpg Hr. destruct (Hcg g m Hm) as (base & i & h & pg0 & l & act0 & Hc & ->). rewrite Hgroups, (cg_group _ _ _ _ _ _ _ Hc) in Hpg. injection Hpg as ->.
    rewrite (group_repr_unique pg act act0 Hr (cg_repr _ _ _ _ _ _ _ Hc)), (cg_pages _ _ _ _ _ _ _ Hc). apply Hc.
  - intros g t addr id Ht Hin. destruct (Htab g t Ht) as (base & i & h & pg & l & act & Hc & ->). apply (copied_entry _ _ _ _ _ _ _ _ _ Hc) in Hin as (a & Ha & -> & ->).
    destruct (cg_table _ _ _ _ _ _ _ Hc) as (ti & Hti & Hid). exists i, h, ti. split; [apply Hc|]. split; [apply disk_meta; apply Hc|]. split; [done|].
    by apply table_lookup_elem, Hid.
  - intros i hi g m ti addr id Hi Hh Hti Hin Eg Hm Hp. apply (disk_meta i hi Hi) in Hh. destruct (Hcg g m Hm) as (base & j & h & pg & l & act & Hc & ->).
    exists (group_table (page_spec <$> active_addrs pg)). split; [apply Hc|]. apply (copied_entry _ _ _ _ _ _ _ _ _ Hc). exists (wrap32 addr).
    apply (cg_pages _ _ _ _ _ _ _ Hc) in Hp. destruct (ck_tables _ _ _ _ Hok i hi g ti addr id Hi Hh Hti Hin) as (Hgi & Hfit & Hlook).
    destruct (wrap_group_addr g (wrap32 addr)) as [Ew Ega]; [apply Hc|by apply (cg_keys _ _ _ _ _ _ _ Hc)|].
    assert (Ea : addr = group_addr g (wrap32 addr)).
    { apply addr_eq; [done| | |done]; pose proof (cg_fits _ _ _ _ _ _ _ Hc); pose proof (cg_keys _ _ _ _ _ _ _ Hc _ Hp); unfold fits in *.
      - lia.
      - rewrite Eg. unfold addr_group. rewrite Ega, Z.shiftr_div_pow2, Z.add_comm, Z.div_add, Z.div_small by lia. symmetry. by apply Z.mod_small. }
    split; [done|]. split; [done|]. assert (i = j) as -> by (apply (ck_unique _ _ _ _ Hok i j hi h g); [done|apply Hc|done|apply Hc|done|apply Hc]).
    pose proof (cg_read _ _ _ _ _ _ _ Hc) as Eh. rewrite Hh in Eh. injection Eh as ->. destruct (cg_table _ _ _ _ _ _ _ Hc) as (t & Ht & Hid).
    assert (t = ti) as -> by congruence. specialize (Hid _ Hp). rewrite <- Ea in Hid. congruence.
  - intros x Hx. apply victim_dealloc in Hx as (i & h & Hi & Eh & Hx). exists i, h. split; [done|]. split; [by apply disk_meta|done].
Qed.
End read_back.

(** [C11] A compaction copies the live pages: when the victims can be read, and the groups
    of the new file stay below 4 GiB (the offsets of pages have 32 bits), the new file is
    written; every active page of an existing group of a victim is found through
    the new page group, and reading the new file there gives the same content; and the
    metadata that is read back from the file is that of a compaction of the victims:
    their existing groups with exactly the active pages and their page ids, and no
    deallocation that no victim had. *)
Theorem compaction_copies_live_pages v disk options new_id use_direct cleaned progress :
  opt_compression_on_cold_compact options = compression -> opt_page_checksum_type options = checksum_type ->
  v_page_groups v = page_groups -> (forall i, i ∈ victims -> read_file_meta i = read_meta_of disk i) ->
  exists groups info f progress',
    compact_files alloc io_fuel read_file_meta open_page_reader options new_id file use_direct file_infos page_groups victims (cleaned, progress) =
      (Ok (groups, info, f), (victims ∪ cleaned, progress')) /\
    sw_content f = file_bytes compression checksum_type (compact_specs (merge_sort Z.le (elements victims)))
      (compact_deallocs (merge_sort Z.le (elements victims)) []) /\
    (forall i h g pg addr, i ∈ victims -> read_file_meta i = Ok h -> is_Some (fh_page_groups h !! g) -> page_groups !! g = Some pg -> addr ∈ active_addrs pg ->
       exists group handle, groups !! g = Some group /\ get_page_handle addr group = Ok (Some handle) /\
         forall r : FileReader R, fr_repr io_fuel r (sw_content f) ->
         exists r', read_file_page_from_reader alloc io_fuel (fi_meta info) handle r = (Ok (content addr), r')) /\
    forall r : FileReader R, fr_repr io_fuel r (sw_content f) ->
    exists h r', file_meta_read alloc io_fuel new_id r = (Ok h, r') /\ compacted v disk victims new_id groups h /\
      meta_like (fi_meta info) (fh_file_meta h).
Proof using Hok Halloc H0 H2.
  intros Hoc Hos Hgroups Hdisk. destruct (compact_files_ok options new_id use_direct cleaned progress Hoc Hos) as (up2 & f & progress' & E & Hc).
  eexists _, _, f, progress'. split; [exact E|]. rewrite Hc. cbn [fi_meta]. split; [done|]. split.
  - intros i h g pg addr Hi Eh Hg Hpg Haddr. destruct (ck_pages _ _ _ _ Hok g pg addr Hpg Haddr) as (_ & H64 & _).
    destruct (group_page_reads (R := R) alloc io_fuel Halloc new_id compression checksum_type specs deallocs (group_spec g pg) (page_spec addr)
      (mkFileMeta new_id (length (file_bytes compression checksum_type specs deallocs)) DEFAULT_BLOCK_SIZE checksum_type compression (get_referenced_groups deallocs)
        (pg_meta <$> groups_fold compression checksum_type (written_group compression checksum_type new_id) 0 specs ∅)))
      as (group & handle & Hgr & _ & Hh & Hr); [apply Hok|apply specs_groups_ok|apply specs_ids| |by apply list_elem_of_fmap_2|done|done|done|].
    { apply elem_specs. by exists i, h, g, pg. }
    exists group, handle. split; [exact Hgr|]. split; [exact Hh|exact Hr].
  - intros r Hr. destruct (file_meta_read_ok alloc io_fuel compression checksum_type Halloc r specs deallocs new_id) as (r' & F & _); [apply Hok|apply specs_groups_ok| |done|].
    { apply Forall_forall. intros x (i & h & Hi & Eh & Hx)%victim_dealloc. by eapply (ck_deallocs _ _ _ _ Hok). }
    eexists _, r'. split; [exact F|]. split; [by apply holder_compacted|]. split; [done|]. split; [done|]. cbn. apply set_eq. intros k.
    rewrite dom_fmap, !elem_of_dom. apply (spec_dom new_id k).
Qed.
End whole.
End compact.

(** ** A compaction of one file *)

(** Page 16 of group 1 is dead, page 64 is live. *)
Definition victim_meta : PageGroupMeta := sample_pages 1 1 [16; 64].
Definition victim_pages : PageGroup :=
  match deactivate_page (sample_addr 1 16) (page_group_new victim_meta) with Ok (_, pg) => pg | _ => page_group_new victim_meta end.
Definition victim_file : FileMetaHolder := sample_file 1 [(1, [16; 64])] [(1, [(sample_addr 1 16, 7); (sample_addr 1 64, 9)])] [].
Definition victim_info : FileInfo := mkFileInfo 1 1 (fh_file_meta victim_file).
Definition victim_bytes : list Z := replicate 16 1 ++ replicate 16 2.
Definition victim_content (addr : Z) : list Z := if addr =? sample_addr 1 64 then replicate 16 2 else [].
Definition victim_id (addr : Z) : Z := if addr =? sample_addr 1 64 then 9 else 0.

Lemma victim_repr : group_repr victim_pages {[64 := mkPageHandle 16 16]}.
Proof.
  assert (Hm : group_meta_ok 1 1 victim_meta).
  { apply (ho_groups _ _ (holder_check_ok 1 victim_file ltac:(apply (bool_decide_unpack _); by vm_compute))). by vm_compute. }
  destruct (new_group_repr _ _ _ Hm) as [dead Hr]. destruct (deactivate_page_ok _ _ _ (sample_addr 1 16) Hr) as (pg & dead' & E & Hr' & _).
  unfold victim_pages. rewrite E. exists dead'. replace (delete _ _) with ({[64 := mkPageHandle 16 16]} : gmap Z PageHandle) in Hr' by (by vm_compute). exact Hr'.
Qed.
#[local] Existing Instance plain_codecs.
#[local] Existing Instance plain_codecs_laws.

Lemma victim_addrs : active_addrs victim_pages = [sample_addr 1 64].
Proof. by vm_compute. Qed.

Lemma victim_compact_ok :
  compact_ok (W := MemFile) (R := MemFile) sample_fuel (read_meta_of {[1 := victim_file]}) (λ _ _, Ok (sample_reader victim_bytes)) {[1 := victim_info]} {[1 := victim_pages]}
    victim_content victim_id COMPRESSION_SNAPPY CHECKSUM_CRC32 (mkMemFile [] 3) {[1]}.
Proof.
  pose proof victim_addrs as Haddr.
  assert (Hsorted : map_Forall (λ a x, map_Forall (λ b y, pm_index x <= pm_index y -> a <= b) (pgm_page_meta_map (pg_meta victim_pages)))
    (pgm_page_meta_map (pg_meta victim_pages))) by (apply (bool_decide_unpack _); by vm_compute).
  assert (Htables : map_Forall (λ g t, is_Some (fh_page_groups victim_file !! g) /\ Forall (λ e, 0 <= e.1 < 2 ^ 64 /\ table_lookup e.1 t = Some e.2) t)
    (fh_page_tables victim_file)) by (apply (bool_decide_unpack _); by vm_compute).
  assert (Hread : forall i h, i ∈ ({[1]} : gset Z) -> read_meta_of {[1 := victim_file]} i = Ok h -> i = 1 /\ h = victim_file).
  { intros i h ->%elem_of_singleton. unfold read_meta_of. rewrite lookup_singleton_eq. by intros [= <-]. }
  split.
  - split; [by right; left|by right].
  - rewrite size_singleton. lia.
  - intros i ->%elem_of_singleton. exists victim_info, victim_file, victim_bytes. split; [apply lookup_singleton_eq|done|by unfold read_meta_of; rewrite lookup_singleton_eq| |].
    + eexists. split; [done|]. apply sample_reader_repr. vm_compute. done.
    + intros g pg _ [<- <-]%lookup_singleton_Some. split; [done|]. exists {[64 := mkPageHandle 16 16]}.
      assert (Hkey : forall a, is_Some (({[64 := mkPageHandle 16 16]} : gmap Z PageHandle) !! a) -> a = 64) by (by intros a [? [? _]%lookup_singleton_Some]).
      split; [apply victim_repr|done| |done| | |].
      * intros a b x y Hx Hy Hle. exact (Hsorted a x Hx b y Hy Hle).
      * intros a ->%Hkey. done.
      * eexists. split; [by vm_compute|]. intros a ->%Hkey. by vm_compute.
      * intros a ph [<- <-]%lookup_singleton_Some. by vm_compute.
  - intros i j hi hj g ->%elem_of_singleton ->%elem_of_singleton. done.
  - intros g pg addr [<- <-]%lookup_singleton_Some. rewrite Haddr. intros ->%list_elem_of_singleton. 
    split; [repeat constructor; done|]. by vm_compute.
  - intros i h g t addr id Hi Eh. destruct (Hread i h Hi Eh) as [-> ->]. intros Ht Hin.
    destruct (Htables g t Ht) as [Hg Hall]. rewrite Forall_forall in Hall. split; [done|]. by apply (Hall (addr, id)).
  - intros i h x Hi Eh. destruct (Hread i h Hi Eh) as [-> ->]. intros Hx. by apply not_elem_of_nil in Hx.
  - done.
  - unfold sample_fuel. rewrite Z2Nat.id by lia. vm_compute. done.
  - vm_compute. done.
  - vm_compute. done.
Qed.

Lemma compaction_copies_live_pages_witness :
  exists groups info f progress' group handle r',
    compact_files (λ n, replicate n 0) sample_fuel (read_meta_of {[1 := victim_file]}) (λ _ _, Ok (sample_reader victim_bytes))
      (mkReclaimOptions 0 0 0 COMPRESSION_SNAPPY CHECKSUM_CRC32) 2 (mkMemFile [] 3) false {[1 := victim_info]} {[1 := victim_pages]} {[1]}
      (∅, mkReclaimProgress 0 0 0 0 0 0) = (Ok (groups, info, f), ({[1]}, progress')) /\
    groups !! 1 = Some group /\ get_page_handle (sample_addr 1 64) group = Ok (Some handle) /\
    read_file_page_from_reader (λ n, replicate n 0) sample_fuel (fi_meta info) handle (sample_reader (mf_data f)) = (Ok (replicate 16 2), r').
Proof.
  destruct (compaction_copies_live_pages (W := MemFile) (R := MemFile) (λ n, replicate n 0) sample_fuel (λ n, length_replicate n 0)
    (read_meta_of {[1 := victim_file]}) (λ _ _, Ok (sample_reader victim_bytes)) {[1 := victim_info]} {[1 := victim_pages]} victim_content victim_id
    COMPRESSION_SNAPPY CHECKSUM_CRC32 (mkMemFile [] 3) {[1]} victim_compact_ok (mkVersion ReasonFlush {[1 := victim_pages]} ∅ 2 ∅) {[1 := victim_file]}
    (mkReclaimOptions 0 0 0 COMPRESSION_SNAPPY CHECKSUM_CRC32) 2 false ∅ (mkReclaimProgress 0 0 0 0 0 0)) as (groups & info & f & progress' & E & Hc & Hp & _); [done|done|done|done|].
  rewrite (right_id_L ∅ (∪)) in E.
  destruct (Hp 1 victim_file 1 victim_pages (sample_addr 1 64)) as (group & handle & Hg & Hh & Hr);
    [by apply elem_of_singleton|reflexivity|by eexists|apply lookup_singleton_eq|rewrite victim_addrs; by left|].
  destruct (Hr (sample_reader (mf_data f))) as (r' & F).
  { apply sample_reader_repr. change (mf_data f) with (sw_content f). rewrite Hc. vm_compute. done. }
  exists groups, info, f, progress', group, handle, r'. split; [exact E|]. split; [exact Hg|]. split; [exact Hh|exact F].
Defined.
