(* ===== verification/FlushStep.v ===== *)
(** * A flush is a step of the store ([build_page_file] of [page_store/jobs/flush.rs])

    What [build_page_file] returns, and what is read back from the file it wrote, is
    what the flush step of [StoreLog.v] asks for. *)

From stdpp Require Import base numbers list sorting gmap.
From Stdlib Require Import ZArith Lia.
From S2P Require Import Prelude BasePage Iter Bitmap BTree PageGroup Env FileBuilder FileWriter MapFile FileReader FileRead FileBlocks FileRoundtrip.
From S2P Require Import Directory Manifest PageTable WriteBuffer Version Flush FlushLaws FlushFile Reclaim Recover RecoverLaws StoreLog CompactFile.

Section step.
Context `{PageCodecsLaws} {W : Type} `{SequentialWriterLaws W} {R : Type} `{PositionalReaderLaws R}.
Context (alloc : nat -> list Z) (io_fuel : nat) (Halloc : forall n, length (alloc n) = n).

(** What a buffer has to satisfy beyond [flush_ok]: page ids in range, deallocations of
    older groups only, and pages that take space. *)
Record buffer_pages_ok (g : Z) (rs : list Rec) (compression checksum_type : Z) : Prop := {
  bp_ids : forall p, p ∈ gs_pages (flush_group g rs) -> MIN_ID <= sp_id p < MAX_ID /\ page_bytes compression checksum_type (sp_content p) <> [];
  bp_older : forall x, x ∈ gs_deallocs (flush_group g rs) -> addr_group x < g;
}.

Lemma group_addr_of g addr : fits 64 addr -> addr / 2 ^ 32 = g -> addr_group addr = g.
Proof using.
  unfold fits, addr_group. intros Ha <-. rewrite Z.shiftr_div_pow2 by lia. apply Z.mod_small.
  split; [apply Z.div_pos; lia|]. apply Z.div_lt_upper_bound; lia.
Qed.

(** [C10] A flush job makes a step of the store: from a sealed write buffer the file is
    built, and the metadata that is read back from it, together with the page group and
    the file info in memory, is that of the flush step: the group of the buffer with
    its live pages and their ids, and the pages of older groups it deallocates. *)
Theorem flush_file_is_step w s rs file_id (file : W) use_direct compression checksum_type :
  flush_ok io_fuel w s rs file compression checksum_type -> buffer_pages_ok (wb_group_id w) rs compression checksum_type ->
  let g := wb_group_id w in
  exists deallocs group info f,
    build_page_file alloc io_fuel w file_id file use_direct compression checksum_type = Ok (deallocs, group, info, f) /\
    sw_content f = file_bytes compression checksum_type [flush_group g rs] (all_deallocs [flush_group g rs] []) /\
    group = page_group_new (pg_meta group) /\
    forall r : FileReader R, fr_repr io_fuel r (sw_content f) ->
    exists h r', file_meta_read alloc io_fuel file_id r = (Ok h, r') /\
      flushed file_id g deallocs (group_table (gs_pages (flush_group g rs))) (pg_meta group) h /\ meta_like (fi_meta info) (fh_file_meta h).
Proof using Halloc H0.
  intros Hok Hb g. pose proof (flush_file_ok io_fuel w s rs file compression checksum_type Hok) as Hfile.
  pose proof (wr_group _ _ _ (fo_repr _ _ _ _ _ _ _ Hok)) as Hg. pose proof (fo_wf _ _ _ _ _ _ _ Hok) as Hwf. pose proof (fo_flushable _ _ _ _ _ _ _ Hok) as Hfl.
  destruct (write_file_ok alloc io_fuel Halloc file_id file use_direct DEFAULT_BLOCK_SIZE compression checksum_type _ file_id Hfile) as (f & E & Hc).
  assert (Hlen : length (recs_bytes rs) < 2 ^ 32 - 1).
  { pose proof (fo_repr _ _ _ _ _ _ _ Hok) as Hrep. pose proof (wr_alloc _ _ _ Hrep). destruct (wr_ok _ _ _ Hrep) as [_ ?]. pose proof (wr_size _ _ _ Hrep). lia. }
  set (spec := flush_group (wb_group_id w) rs) in *. fold g in Hb.
  destruct Hfile as [Hcodec [Hp _] _ Hd _ _ _ _]. cbn [gs_id flush_group spec] in Hp. fold spec in Hp. fold g in Hp.
  pose proof (po_addrs _ _ _ _ _ Hp) as [Hsort Haddr]. pose proof (po_fits _ _ _ _ _ Hp) as Hfits. rewrite Forall_forall in Hfits.
  assert (Hspec : spec_ok compression checksum_type spec).
  { split; [apply Hp|apply Hp|exact Hg|]. intros Hne Hnil. destruct (gs_pages spec) as [|p ps] eqn:Eps; [done|].
    unfold pages_bytes in Hnil. rewrite fmap_cons in Hnil. cbn [concat] in Hnil. apply app_eq_nil in Hnil as [Hnil _].
    destruct (bp_ids _ _ _ _ Hb p) as [_ ?]; [change (flush_group g rs) with spec; rewrite Eps; by left|done]. }
  destruct (written_meta_ok compression checksum_type file_id 0 spec Hspec Hp) as (Hw & Hr & Hsame & Hkeys).
  rewrite (build_page_file_write (W := W) alloc io_fuel w s rs) by (done || apply Hok). fold spec. rewrite E. cbn [mbind res_bind groups_fold].
  change (gs_id spec) with (wb_group_id w). rewrite lookup_insert_eq. cbn [expect mbind res_bind]. eexists _, _, _, f. split; [done|]. split; [exact Hc|]. split; [done|].
  intros r Hrepr. rewrite Hc in Hrepr.
  destruct (file_meta_read_ok alloc io_fuel compression checksum_type Halloc r [spec] (all_deallocs [spec] []) file_id Hcodec) as (r' & F & _); [done|done|done|].
  eexists _, r'. split; [exact F|]. cbn [groups_fold]. split; [|split; [done|split; [done|]]].
  - split; cbn [fh_page_groups fh_page_tables fh_dealloc_pages].
    + split; [|done|done|done]. cbn [fh_page_groups]. intros k m Hk. rewrite insert_empty in Hk. apply lookup_singleton_Some in Hk as [<- <-]. exact Hr.
    + exact Hw.
    + eexists. split; [apply insert_empty|exact Hsame].
    + apply insert_empty.
    + apply Forall_forall. intros [addr id] (p & [= -> ->] & Hin)%list_elem_of_fmap. destruct (bp_ids _ _ _ _ Hb p Hin) as [Hid _]. split; [done|]. cbn.
      unfold spec, flush_pages in Hin. cbn [flush_group gs_pages] in Hin. unfold flush_pages in Hin. apply list_elem_of_omap in Hin as ([[addr header] rec] & Hx & Ep).
      destruct rec as [page|]; [|done]. cbn in Ep. destruct (_ || _); [done|]. injection Ep as <-.
      destruct (live_bounds g Hg rs 0 _ ltac:(lia) Hx) as (o & Eo & Ho). cbn in *. unfold fits in Hg. fold g in Hg. lia.
    + unfold group_table. rewrite <- list_fmap_compose. change (NoDup (sp_addr <$> gs_pages spec)). by apply sorted_lt_NoDup.
    + intros addr id (p & [= -> ->] & Hin)%list_elem_of_fmap. destruct (Hfits p Hin) as [Hfa _]. split; [done|].
      rewrite Forall_forall in Haddr. split; [apply group_addr_of; [done|]; apply Haddr; by apply list_elem_of_fmap_2|].
      apply Hkeys. by do 2 apply list_elem_of_fmap_2.
    + intros x. unfold all_deallocs. cbn [foldl]. rewrite bset_extend_elem. split; [intros [?|Hx]; [done|by apply not_elem_of_nil in Hx]|by left].
    + intros x Hx. split; [|by apply Hb]. rewrite Forall_forall in Hd. apply Hd. unfold all_deallocs. cbn [foldl]. apply bset_extend_elem. by left.
  - cbn. rewrite !insert_empty, map_fmap_singleton, !dom_singleton_L. done.
Qed.
End step.

#[local] Existing Instance plain_codecs.
#[local] Existing Instance plain_codecs_laws.

Lemma flush_file_is_step_witness :
  exists deallocs group info f h r',
    build_page_file (λ n, replicate n 0) sample_fuel sample_buffer 5 (mkMemFile [] 7) false COMPRESSION_SNAPPY CHECKSUM_CRC32 =
      Ok (deallocs, group, info, f) /\
    file_meta_read (λ n, replicate n 0) sample_fuel 5 (sample_reader (mf_data f)) = (Ok h, r') /\
    flushed 5 3 deallocs [(page_addr_of 3 48, 2)] (pg_meta group) h.
Proof.
  destruct (flush_file_is_step (R := MemFile) (λ n, replicate n 0) sample_fuel (λ n, length_replicate n 0) sample_buffer
    (mkBufferState true 0 96) sample_buffer_recs 5 (mkMemFile [] 7) false COMPRESSION_SNAPPY CHECKSUM_CRC32 sample_flush_ok) as (deallocs & group & info & f & E & Hc & _ & Hr).
  - assert (Ep : gs_pages (flush_group 3 sample_buffer_recs) = [mkPageSpec 2 (page_addr_of 3 48) (page_info (replicate 16 2)) (replicate 16 2)]) by (by vm_compute).
    assert (Ed : gs_deallocs (flush_group 3 sample_buffer_recs) = [page_addr_of 2 16]) by (by vm_compute).
    split; cbn [wb_group_id sample_buffer].
    + rewrite Ep. intros p ->%list_elem_of_singleton. split; [by vm_compute|]. by vm_compute.
    + rewrite Ed. intros x ->%list_elem_of_singleton. by vm_compute.
  - destruct (Hr (sample_reader (mf_data f))) as (h & r' & F & Hfl & _).
    { apply sample_reader_repr. change (mf_data f) with (sw_content f). rewrite Hc. vm_compute. done. }
    exists deallocs, group, info, f, h, r'. split; [exact E|]. split; [exact F|].
    replace [(page_addr_of 3 48, 2)] with (group_table (gs_pages (flush_group (wb_group_id sample_buffer) sample_buffer_recs))) by (by vm_compute). exact Hfl.
Defined.
