(* ===== verification/PageTxn.v ===== *)
(** * Page transactions ([page_store/page_txn.rs])

    A [Guard] reads pages: of the write buffers while they are in memory, of the
    files afterwards. A [PageTxn] allocates pages in the active write buffer,
    inserts and updates entries of the page table, and rolls all of it back when
    it is dropped without a commit. [Store] is what the guard and the transaction
    share: the page table, the buffer set and the pages that were flushed to files
    (the file reads themselves are I/O; [st_file_pages] and [st_file_infos] are
    what they return). *)

From stdpp Require Import base numbers list gmap.
From Stdlib Require Import ZArith Lia.
From S2P Require Import Prelude BasePage Iter PageTable WriteBuffer BufferSet.

Record Store := mkStore {
  st_table : Inner;
  st_set : BufferSetVersion;
  st_first_buffer_id : Z;
  st_file_pages : gmap Z (list Z);
  st_file_infos : gmap Z PageInfo;
  st_capacity : nat;
  st_flush_notified : nat;
}.

Definition with_table (t : Inner) (s : Store) : Store :=
  mkStore t (st_set s) (st_first_buffer_id s) (st_file_pages s) (st_file_infos s)
    (st_capacity s) (st_flush_notified s).
Definition with_set (v : BufferSetVersion) (s : Store) : Store :=
  mkStore (st_table s) v (st_first_buffer_id s) (st_file_pages s) (st_file_infos s)
    (st_capacity s) (st_flush_notified s).
Definition notify_flush (s : Store) : Store :=
  mkStore (st_table s) (st_set s) (st_first_buffer_id s) (st_file_pages s) (st_file_infos s)
    (st_capacity s) (S (st_flush_notified s)).

Record PageTxn := mkPageTxn {
  tx_buffer_id : Z;
  tx_hold_write_guard : bool;
  tx_records : list Z;
  tx_page_ids : list Z;
}.

(** The outcome of [update_page]: [Ok(())], [Err(None)] and [Err(Some((txn, addr)))]. *)
Inductive UpdateResult :=
  | Updated
  | UpdateRefused
  | UpdateConflict (txn : PageTxn) (addr : Z).

Section page_txn.
(** What the allocator returns for the memory of a new write buffer. *)
Context (fresh_mem : Z -> list Z).

(** ** [Guard] *)

(** [Version::get]. *)
Definition version_get (group_id : Z) (s : Store) : res (option WriteBuffer) :=
  if st_first_buffer_id s <=? group_id then bsv_get group_id (st_set s) else Ok None.

Definition guard_page_addr (id : Z) : St Store Z := λ s, (table_get id (st_table s), s).

Definition guard_read_page_info (addr : Z) : St Store PageInfo := λ s,
  (let logical_id := wrap32 (Z.shiftr addr 32) in
   buf ← version_get logical_id s;
   match buf with
   | Some buf => page ← wb_page addr buf; Ok (page_info page)
   | None => expect (st_file_infos s !! addr)
   end, s).

Definition guard_read_page (addr : Z) : St Store (list Z) := λ s,
  (let logical_id := wrap32 (Z.shiftr addr 32) in
   buf ← version_get logical_id s;
   match buf with
   | Some buf => wb_page addr buf
   | None => expect (st_file_pages s !! addr)
   end, s).

(** [Guard::begin]; a guard that finds the active buffer sealed waits for the
    successor, which [switch_buffer] below always installs. *)
Definition txn_begin : St Store PageTxn := λ s,
  (id ← expect (bsv_active (st_set s)); Ok (mkPageTxn id false [] []), s).

(** ** [PageTxn] *)

(** [buffer_set.switch_buffer(self.buffer_id)]. *)
Definition switch_buffer (group_id : Z) : St Store unit := λ s,
  match bsv_switch_buffer group_id (st_capacity s) (fresh_mem (wrap32 (group_id + 1))) (st_set s) with
  | Ok (notify, v) =>
      let s := with_set v s in
      (Ok tt, if notify then notify_flush s else s)
  | Err e => (Err e, s)
  | Panic => (Panic, s)
  end.

(** [with_write_guard]: runs [f] on the buffer of the transaction. *)
Definition with_write_guard {O} (f : WriteBuffer -> bool -> res (O * WriteBuffer)) (txn : PageTxn) :
    St Store (O * PageTxn) := λ s,
  let is_first_op := negb (tx_hold_write_guard txn) in
  match version_get (tx_buffer_id txn) s with
  | Ok (Some buf) =>
      match f buf is_first_op with
      | Ok (o, buf) =>
          (Ok (o, mkPageTxn (tx_buffer_id txn) true (tx_records txn) (tx_page_ids txn)),
           with_set (bsv_update (tx_buffer_id txn) buf (st_set s)) s)
      | Err TooLargeSize => (Err TooLargeSize, s)
      | Err Again =>
          match switch_buffer (tx_buffer_id txn) s with
          | (Ok _, s) => (Err Again, s)
          | (Err e, s) => (Err e, s)
          | (Panic, s) => (Panic, s)
          end
      | _ => (Panic, s)
      end
  | _ => (Panic, s)
  end.

Definition txn_alloc_page (size : nat) (txn : PageTxn) : St Store (Z * list Z * PageTxn) :=
  let page_size := wrap32 size in
  '((addr, buf), txn) ← with_write_guard (λ b first, wb_alloc_page NAN_ID page_size first b) txn;
  mret (addr, buf, mkPageTxn (tx_buffer_id txn) (tx_hold_write_guard txn)
                     (addr :: tx_records txn) (tx_page_ids txn)).

(** Writing through the [PageBuf] of an allocated page. *)
Definition txn_write_page (addr : Z) (page : list Z) (txn : PageTxn) : St Store unit := λ s,
  match version_get (tx_buffer_id txn) s with
  | Ok (Some buf) =>
      match wb_write_page addr page buf with
      | Ok buf => (Ok tt, with_set (bsv_update (tx_buffer_id txn) buf (st_set s)) s)
      | _ => (Panic, s)
      end
  | _ => (Panic, s)
  end.

(** Changing the header of a record of the transaction, given the address of its
    body. *)
Definition txn_map_header (f : RecordHeader -> RecordHeader) (addr : Z) (txn : PageTxn) :
    St Store unit := λ s,
  match version_get (tx_buffer_id txn) s with
  | Ok (Some buf) =>
      let offset := Z.land addr (Z.shiftl 1 32 - 1) - RECORD_HEADER_LEN in
      match (h ← wb_record offset buf; wb_set_record offset (f h) buf) with
      | Ok buf => (Ok tt, with_set (bsv_update (tx_buffer_id txn) buf (st_set s)) s)
      | _ => (Panic, s)
      end
  | _ => (Panic, s)
  end.

(** The header of a record of the transaction. *)
Definition txn_header (addr : Z) (txn : PageTxn) : St Store RecordHeader := λ s,
  (buf ← version_get (tx_buffer_id txn) s;
   buf ← expect buf;
   wb_record (Z.land addr (Z.shiftl 1 32 - 1) - RECORD_HEADER_LEN) buf, s).

Definition table_step {A} (f : Inner -> res (A * Inner)) : St Store A := λ s,
  match f (st_table s) with
  | Ok (a, t) => (Ok a, with_table t s)
  | Err e => (Err e, s)
  | Panic => (Panic, s)
  end.
Definition table_step_ (f : Inner -> res Inner) : St Store unit :=
  table_step (λ t, t ← f t; Ok (tt, t)).

Definition txn_insert_page (addr : Z) (txn : PageTxn) : St Store (Z * PageTxn) :=
  _ ← lift (rassert (bool_decide (addr ∈ tx_records txn)));
  header ← txn_header addr txn;
  _ ← lift (rassert (negb (rh_is_tombstone header)));
  page_id ← table_step table_alloc;
  page_id ← lift (expect page_id);
  _ ← table_step_ (table_set page_id addr);
  _ ← txn_map_header (rh_set_page_id page_id) addr txn;
  mret (page_id, mkPageTxn (tx_buffer_id txn) (tx_hold_write_guard txn) (tx_records txn)
                   (tx_page_ids txn ++ [page_id])).

(** [drop_writer_guard]. *)
Definition txn_drop_writer_guard (txn : PageTxn) : St Store unit := λ s,
  if negb (tx_hold_write_guard txn) then (Panic, s)
  else
    match version_get (tx_buffer_id txn) s with
    | Ok (Some buf) =>
        match wb_release_writer buf with
        | Ok (r, buf) =>
            let s := with_set (bsv_update (tx_buffer_id txn) buf (st_set s)) s in
            (Ok tt, match r with ReleaseFlush => notify_flush s | ReleaseNone => s end)
        | _ => (Panic, s)
        end
    | _ => (Panic, s)
    end.

(** [commit]; the [drop] that follows finds nothing to roll back. *)
Definition txn_commit (txn : PageTxn) : St Store unit :=
  if tx_hold_write_guard txn then txn_drop_writer_guard txn else mret tt.

Fixpoint txn_dealloc_ids (ids : list Z) : St Store unit :=
  match ids with
  | [] => mret tt
  | id :: ids => _ ← table_step_ (table_dealloc id); txn_dealloc_ids ids
  end.
Fixpoint txn_set_tombstones (addrs : list Z) (txn : PageTxn) : St Store unit :=
  match addrs with
  | [] => mret tt
  | addr :: addrs => _ ← txn_map_header rh_set_tombstone addr txn; txn_set_tombstones addrs txn
  end.

(** [Drop for PageTxn]: the abort of a transaction. *)
Definition txn_drop (txn : PageTxn) : St Store unit :=
  _ ← txn_dealloc_ids (tx_page_ids txn);
  if tx_hold_write_guard txn then
    _ ← txn_set_tombstones (tx_records txn) txn;
    txn_drop_writer_guard txn
  else mret tt.

Definition txn_update_page (id old_addr new_addr : Z) (txn : PageTxn) : St Store UpdateResult :=
  if new_addr <=? old_addr then _ ← txn_drop txn; mret UpdateRefused
  else
    r ← table_step (table_cas id old_addr new_addr);
    match r with
    | inr addr => mret (UpdateConflict txn addr)
    | inl _ =>
        _ ← lift (rassert (bool_decide (new_addr ∈ tx_records txn)));
        _ ← txn_map_header (rh_set_page_id id) new_addr txn;
        _ ← txn_commit txn;
        mret Updated
    end.

(** [replace_page]; the record of the deallocated pages is marked as a tombstone
    when the update fails. *)
Definition txn_replace_page (id old_addr new_addr : Z) (dealloc_addrs : list Z) (txn : PageTxn) :
    St Store unit :=
  if new_addr <=? old_addr then _ ← txn_drop txn; lift (Err Again)
  else
    '(offset, txn) ← on_err (with_write_guard (λ b first, wb_dealloc_pages dealloc_addrs first b) txn)
      (txn_drop txn);
    let dealloc_addr := page_addr_of (tx_buffer_id txn) (offset + RECORD_HEADER_LEN) in
    r ← txn_update_page id old_addr new_addr txn;
    match r with
    | Updated => mret tt
    | UpdateRefused => _ ← txn_map_header rh_set_tombstone dealloc_addr txn; lift (Err Again)
    | UpdateConflict txn _ =>
        _ ← txn_map_header rh_set_tombstone dealloc_addr txn;
        _ ← txn_drop txn;
        lift (Err Again)
    end.
End page_txn.

(** ** The buffer of a transaction *)

(** Buffer [g] of the store is [b], in state [sb], with the records [rs]. *)
Record store_buf (s : Store) (g : Z) (b : WriteBuffer) (sb : BufferState) (rs : list Rec) : Prop := {
  sbuf_wf : bsv_wf (st_set s);
  sbuf_first : st_first_buffer_id s <= g;
  sbuf_get : bsv_get g (st_set s) = Ok (Some b);
  sbuf_group : wb_group_id b = g;
  sbuf_repr : wb_repr b sb rs;
}.

Lemma store_buf_get s g b sb rs : store_buf s g b sb rs -> version_get g s = Ok (Some b).
Proof.
  intros [_ Hf Hg _ _]. unfold version_get. by rewrite (proj2 (Z.leb_le _ _)).
Qed.

Lemma bsv_snapshot_update g b v :
  bsv_wf v -> bsv_start v <= g < bsv_end v ->
  bsv_snapshot (bsv_update g b v) = <[Z.to_nat (g - bsv_start v) := b]> (bsv_snapshot v) /\
  bsv_start (bsv_update g b v) = bsv_start v /\ bsv_end (bsv_update g b v) = bsv_end v.
Proof.
  intros (H0 & He & Hlen & _) Hg. unfold bsv_update, bsv_snapshot in *.
  rewrite length_app in Hlen. simpl in Hlen.
  set (i := Z.to_nat (g - bsv_start v)).
  destruct (length (bsv_sealed v) <=? i)%nat eqn:E; simpl.
  - apply Nat.leb_le in E. split; [|done]. rewrite insert_app_r_alt by done.
    by replace (i - length (bsv_sealed v))%nat with 0%nat by lia.
  - apply Nat.leb_gt in E. split; [|done]. by rewrite insert_app_l.
Qed.

(** What a transaction on buffer [g] leaves alone: the files, the range of the
    buffers and the other buffers. *)
Record frame (g : Z) (s s' : Store) : Prop := {
  fr_first : st_first_buffer_id s' = st_first_buffer_id s;
  fr_pages : st_file_pages s' = st_file_pages s;
  fr_infos : st_file_infos s' = st_file_infos s;
  fr_end : bsv_end (st_set s') = bsv_end (st_set s);
  fr_get : forall g', g' <> g -> version_get g' s' = version_get g' s;
}.

#[global] Instance frame_refl g : Reflexive (frame g).
Proof. by intros s. Qed.
#[global] Instance frame_trans g : Transitive (frame g).
Proof.
  intros s1 s2 s3 [H1 H2 H3 H4 H5] [G1 G2 G3 G4 G5]. constructor; try congruence.
  intros g' Hg. by rewrite G5, H5.
Qed.
Lemma frame_table g t s : frame g s (with_table t s).
Proof. done. Qed.
Lemma frame_notify g s : frame g s (notify_flush s).
Proof. done. Qed.

(** Updating a buffer in place: it is the one found afterwards, the others stay. *)
Lemma store_buf_update s g b sb rs b' sb' rs' :
  store_buf s g b sb rs -> wb_repr b' sb' rs' -> wb_group_id b' = g ->
  let s' := with_set (bsv_update g b' (st_set s)) s in
  store_buf s' g b' sb' rs' /\ frame g s s'.
Proof.
  intros [Hwf Hf Hg Hid _] Hr' Hid' s'.
  pose proof Hwf as (H0 & He & Hlen & Hids).
  pose proof (bsv_get_ok _ g Hwf) as Hget. rewrite Hg in Hget.
  destruct (decide (bsv_start (st_set s) <= g)) as [Hs|]; [|done]. injection Hget as Hl.
  symmetry in Hl. apply lookup_lt_Some in Hl as Hlt.
  destruct (bsv_snapshot_update g b' (st_set s) Hwf) as (Hsn & Hst & Hen); [lia|].
  assert (Hwf' : bsv_wf (st_set s')).
  { split_and!; simpl; rewrite ?Hst, ?Hen, ?Hsn; [done|done|by rewrite length_insert|].
    intros i x Hi. apply list_lookup_insert_Some in Hi as [(<- & <- & _)|[_ Hi]]; [|by apply Hids].
    rewrite Hid'. lia. }
  split.
  - constructor; try done. simpl. rewrite bsv_get_ok by done. simpl. rewrite Hst, Hsn.
    rewrite decide_True by done. by rewrite list_lookup_insert_eq.
  - constructor; try done. intros g' Hne. unfold version_get. simpl.
    destruct (st_first_buffer_id s <=? g'); [|done]. rewrite !bsv_get_ok by done.
    simpl. rewrite Hst, Hsn. case_decide; [|done].
    rewrite list_lookup_insert_ne; [done|lia].
Qed.

(** The record at the address of a page of the buffer. *)
Definition at_rec (g : Z) (rs : list Rec) (addr : Z) (i : nat) (r : Rec) : Prop :=
  rs !! i = Some r /\ addr = rec_addr g rs i.

Lemma at_rec_offset s g b sb rs addr i r :
  store_buf s g b sb rs -> at_rec g rs addr i r ->
  Z.land addr (Z.shiftl 1 32 - 1) - RECORD_HEADER_LEN = rec_off rs i.
Proof.
  intros [_ _ _ _ Hr] [Hi ->].
  destruct (wb_repr_split b sb rs Hr i r Hi) as (Q & _ & _ & _ & Hlt).
  pose proof (wr_size _ _ _ Hr). unfold rec_addr, RECORD_HEADER_LEN.
  rewrite page_addr_offset by (unfold fits; lia). lia.
Qed.

(** Changing the header of a record, with its size kept. *)
Lemma txn_map_header_ok f s txn g b sb rs addr i r data flags :
  tx_buffer_id txn = g -> store_buf s g b sb rs -> at_rec g rs addr i r ->
  f (rec_header r) = mkRecordHeader data flags (length (r_body r)) ->
  fits 64 data -> fits 32 flags ->
  exists b', txn_map_header f addr txn s = (Ok tt, with_set (bsv_update g b' (st_set s)) s) /\
    wb_buf_size b' = wb_buf_size b /\
    store_buf (with_set (bsv_update g b' (st_set s)) s) g b' sb
      (<[i := mkRec data flags (r_body r) (r_pad r)]> rs) /\
    frame g s (with_set (bsv_update g b' (st_set s)) s).
Proof.
  intros Hid Hb Ha Hf Hd Hfl. unfold txn_map_header. rewrite Hid, (store_buf_get _ _ _ _ _ Hb).
  rewrite (at_rec_offset _ _ _ _ _ _ _ _ Hb Ha). destruct Ha as [Hi _].
  pose proof (sbuf_repr _ _ _ _ _ Hb) as Hr.
  destruct (wb_repr_split b sb rs Hr i r Hi) as (Q & Hbuf & Hok & Hm & _).
  assert (Hrd : wb_record (rec_off rs i) b = Ok (rec_header r)).
  { exact (wb_record_at b _ Q r Hbuf (wr_len _ _ _ Hr) Hm Hok). }
  rewrite Hrd. cbn [mbind res_bind]. rewrite Hf.
  destruct (wb_set_record_ok b sb rs Hr i r data flags Hi Hd Hfl) as (b' & -> & Hr' & Hg' & Hz').
  exists b'. split; [done|]. split; [done|]. apply (store_buf_update s g b sb rs); [done..|].
  by rewrite Hg', (sbuf_group _ _ _ _ _ Hb).
Qed.

(** ** Rolling back *)

Definition dead (r : Rec) : Rec := mkRec (r_data r) FLAG_TOMBSTONE (r_body r) (r_pad r).

(** The records with those at the given addresses marked as tombstones. *)
Definition kill (g : Z) (addrs : list Z) (rs : list Rec) : list Rec :=
  imap (λ i r, if decide (rec_addr g rs i ∈ addrs) then dead r else r) rs.

Lemma rec_off_lt rs i j : (i < j <= length rs)%nat -> (rec_off rs i < rec_off rs j)%nat.
Proof.
  intros Hij. unfold rec_off. rewrite <- (take_drop i (take j rs)), take_take, Nat.min_l by lia.
  rewrite recs_bytes_app, length_app.
  destruct (lookup_lt_is_Some_2 (drop i (take j rs)) 0) as [r Hr].
  { rewrite length_drop, length_take. lia. }
  destruct (drop i (take j rs)) as [|r' l]; [done|]. rewrite recs_bytes_cons, length_app.
  unfold rec_bytes. rewrite length_app, length_rh_bytes. lia.
Qed.

Lemma rec_addr_inj b sb rs g i j :
  wb_repr b sb rs -> (i < length rs)%nat -> (j < length rs)%nat ->
  rec_addr g rs i = rec_addr g rs j -> i = j.
Proof.
  intros Hr Hi Hj E.
  assert (Hoff : forall k, (k < length rs)%nat -> fits 32 (rec_off rs k + 16)).
  { intros k [r Hk]%lookup_lt_is_Some_2.
    destruct (wb_repr_split b sb rs Hr k r Hk) as (Q & _ & _ & _ & Hlt).
    pose proof (wr_size _ _ _ Hr). unfold fits. lia. }
  apply (f_equal (λ a, Z.land a (Z.shiftl 1 32 - 1))) in E. unfold rec_addr in E.
  rewrite !page_addr_offset in E by (by apply Hoff).
  destruct (Nat.lt_trichotomy i j) as [Hlt|[Heq|Hlt]]; [|done|].
  - pose proof (rec_off_lt rs i j ltac:(lia)). lia.
  - pose proof (rec_off_lt rs j i ltac:(lia)). lia.
Qed.

Lemma length_dead r : length (rec_bytes (dead r)) = length (rec_bytes r).
Proof. unfold rec_bytes. by rewrite !length_app, !length_rh_bytes. Qed.

Lemma rec_addr_insert g rs i r r' j :
  rs !! i = Some r -> length (rec_bytes r') = length (rec_bytes r) ->
  rec_addr g (<[i := r']> rs) j = rec_addr g rs j.
Proof. intros. unfold rec_addr. by rewrite (rec_off_insert rs i r). Qed.

Lemma kill_cons b sb rs g addr addrs i r :
  wb_repr b sb rs -> at_rec g rs addr i r ->
  kill g addrs (<[i := dead r]> rs) = kill g (addr :: addrs) rs.
Proof.
  intros Hr [Hi ->]. apply list_eq. intros j. unfold kill. rewrite !list_lookup_imap.
  rewrite (rec_addr_insert g rs i r) by (done || apply length_dead).
  destruct (decide (i = j)) as [<-|Hne].
  - rewrite list_lookup_insert_eq by (by eapply lookup_lt_Some). rewrite Hi. simpl.
    rewrite (decide_True (P := _ ∈ _ :: _)) by apply list_elem_of_here. f_equal. by case_decide.
  - rewrite list_lookup_insert_ne by done. destruct (rs !! j) as [rj|] eqn:Hj; [|done]. simpl.
    f_equal. apply decide_ext. rewrite elem_of_cons. split; [by right|].
    intros [E|?]; [|done]. exfalso. apply Hne.
    symmetry. eapply (rec_addr_inj b sb rs g); [done|by eapply lookup_lt_Some..|done].
Qed.

Lemma txn_set_tombstones_ok addrs s txn g b sb rs :
  tx_buffer_id txn = g -> store_buf s g b sb rs ->
  Forall (λ a, exists i r, at_rec g rs a i r) addrs ->
  exists s' b', txn_set_tombstones addrs txn s = (Ok tt, s') /\
    store_buf s' g b' sb (kill g addrs rs) /\ st_table s' = st_table s /\
    st_flush_notified s' = st_flush_notified s.
Proof.
  intros Hid. revert s b rs; induction addrs as [|a addrs IH]; intros s b rs Hb Ha.
  { exists s, b. split_and!; [done| |done|done].
    replace (kill g [] rs) with rs; [done|]. apply list_eq. intros i. unfold kill.
    rewrite list_lookup_imap. destruct (rs !! i); [|done].
    cbn [fmap option_fmap option_map]. rewrite decide_False; [done|]. apply not_elem_of_nil. }
  apply Forall_cons in Ha as [(i & r & Hat) Ha]. cbn [txn_set_tombstones].
  destruct (txn_map_header_ok rh_set_tombstone s txn g b sb rs a i r (r_data r) FLAG_TOMBSTONE)
    as (b1 & Hm & _ & Hb1 & _); [done..| |split; vm_compute; congruence|].
  { pose proof (wr_recs _ _ _ (sbuf_repr _ _ _ _ _ Hb)) as Hok.
    by apply (Forall_lookup_1 _ _ _ _ Hok (proj1 Hat)). }
  st_step Hm. fold (dead r) in Hb1.
  destruct (IH _ b1 _ Hb1) as (s' & b' & Ht & Hb' & Htab & Hfl).
  { eapply Forall_impl; [exact Ha|]. intros a' (j & rj & Hj & ->).
    destruct (decide (i = j)) as [<-|Hne].
    - exists i, (dead r). split; [apply list_lookup_insert_eq; by eapply lookup_lt_Some|].
      by rewrite (rec_addr_insert g rs i r) by (apply Hat || apply length_dead).
    - exists j, rj. split; [by rewrite list_lookup_insert_ne|].
      by rewrite (rec_addr_insert g rs i r) by (apply Hat || apply length_dead). }
  exists s', b'. rewrite Ht. split_and!; [done| |done|done].
  by rewrite <- (kill_cons b sb rs g a addrs i r) by (done || apply (sbuf_repr _ _ _ _ _ Hb)).
Qed.

Lemma txn_dealloc_ids_ok ids s used free :
  table_inv (st_table s) used free -> NoDup ids -> Forall (.∈ used) ids ->
  exists t free', txn_dealloc_ids ids s = (Ok tt, with_table t s) /\
    table_inv t (used ∖ list_to_set ids) free' /\
    forall id, id_ok id -> id ∉ ids -> val t id = val (st_table s) id.
Proof.
  revert s used free; induction ids as [|id ids IH]; intros s used free Hi Hnd Hin.
  { exists (st_table s), free. split_and!; [by destruct s| |done].
    by replace (used ∖ list_to_set []) with used by set_solver. }
  apply NoDup_cons in Hnd as [Hni Hnd]. apply Forall_cons in Hin as [Hid Hin].
  destruct (table_dealloc_ok (st_table s) used free id Hi Hid) as (t1 & Hd & Hi1 & Hv).
  cbn [txn_dealloc_ids].
  assert (Hs1 : table_step_ (table_dealloc id) s = (Ok tt, with_table t1 s))
    by (unfold table_step_, table_step; by rewrite Hd).
  st_step Hs1.
  destruct (IH (with_table t1 s) (used ∖ {[id]}) (id :: free)) as (t & free' & Hr & Hi' & Hv'); [done|done| |].
  { rewrite Forall_forall in Hin |- *. intros x Hx. specialize (Hin x Hx). set_solver. }
  exists t, free'. rewrite Hr. split_and!; [done| |].
  - by replace (used ∖ list_to_set (id :: ids)) with (used ∖ {[id]} ∖ list_to_set ids) by set_solver.
  - intros x Hx Hnx. apply not_elem_of_cons in Hnx as [? ?]. rewrite Hv' by done. by apply Hv.
Qed.

(** Releasing the writer. *)
Lemma txn_drop_writer_ok s txn g b sb rs :
  tx_buffer_id txn = g -> tx_hold_write_guard txn = true -> store_buf s g b sb rs ->
  1 <= num_writer sb ->
  exists s' b', txn_drop_writer_guard txn s = (Ok tt, s') /\
    store_buf s' g b' (sub_writer sb) rs /\ frame g s s' /\ wb_buf_size b' = wb_buf_size b /\
    st_table s' = st_table s /\
    st_flush_notified s' =
      ((if is_flushable (sub_writer sb) then 1 else 0) + st_flush_notified s)%nat.
Proof.
  intros Hid Hh Hb Hn. unfold txn_drop_writer_guard. rewrite Hid, Hh, (store_buf_get _ _ _ _ _ Hb).
  cbn [negb]. pose proof (sbuf_repr _ _ _ _ _ Hb) as Hr. pose proof Hr as [Hg Hst Hok Hsz Hlen Hrs Hbf Hal].
  unfold wb_release_writer. cbn [cas_loop]. rewrite Hst.
  rewrite (release_attempt_spec (wb_buf_size b)) by done.
  rewrite (proj2 (Z.eqb_neq (num_writer sb) 0)) by lia. cbn [mbind res_bind]. rewrite Z.eqb_refl. cbn [mbind res_bind].
  set (b' := with_state (pack (sub_writer sb)) b).
  assert (Hr' : wb_repr b' (sub_writer sb) rs).
  { constructor; try done. destruct Hok as [[Hw Ha] Hle]. split; [split|]; simpl; [|done|done].
    unfold fits in *. lia. }
  destruct (store_buf_update s g b sb rs b' (sub_writer sb) rs Hb Hr') as [Hb' Hfr];
    [exact (sbuf_group _ _ _ _ _ Hb)|].
  destruct (is_flushable (sub_writer sb)); eexists _, b'; (split_and!; [done| | |done..]); [| |done|done].
  - destruct Hb' as [? ? ? ? ?]. by constructor.
  - etrans; [exact Hfr|apply frame_notify].
Qed.

(** ** The invariant of a transaction in progress *)

(** A record of a live page. *)
Definition page_rec (r : Rec) : Prop := r_flags r = FLAG_NORMAL_PAGE /\ (16 <= length (r_body r))%nat.

Record txn_inv (s : Store) (txn : PageTxn) (b : WriteBuffer) (sb : BufferState) (rs : list Rec)
    (used : gset Z) (free : list Z) : Prop := {
  txi_buf : store_buf s (tx_buffer_id txn) b sb rs;
  txi_table : table_inv (st_table s) used free;
  txi_recs : Forall (λ a, exists i r, at_rec (tx_buffer_id txn) rs a i r /\ page_rec r) (tx_records txn);
  txi_hold : if tx_hold_write_guard txn then 1 <= num_writer sb else tx_records txn = [];
  txi_nodup : NoDup (tx_page_ids txn);
  txi_ids : Forall (.∈ used) (tx_page_ids txn);
}.

(** [begin] on a store whose current buffer is not sealed. *)
Lemma txn_begin_ok s g b sb rs used free :
  bsv_current (st_set s) = b -> store_buf s g b sb rs -> sealed sb = false ->
  table_inv (st_table s) used free ->
  exists txn, txn_begin s = (Ok txn, s) /\ txn_inv s txn b sb rs used free /\
    txn = mkPageTxn g false [] [].
Proof.
  intros Hc Hb Hs Ht. exists (mkPageTxn g false [] []). unfold txn_begin, bsv_active.
  assert (Hse : wb_is_sealed (bsv_current (st_set s)) = false).
  { rewrite Hc. unfold wb_is_sealed, wb_buffer_state. pose proof (sbuf_repr _ _ _ _ _ Hb) as Hr.
    by rewrite (buf_ok_load _ _ _ (wr_state _ _ _ Hr) (wr_ok _ _ _ Hr)). }
  rewrite Hse, Hc, (sbuf_group _ _ _ _ _ Hb). split_and!; [done| |done].
  constructor; simpl; try done; constructor.
Qed.

(** [alloc_page] when the record fits in the buffer. *)
Lemma txn_alloc_page_ok fm s txn b sb rs used free (size : nat) :
  txn_inv s txn b sb rs used free -> 16 <= size <= 2 ^ 32 - 24 -> sealed sb = false ->
  allocated sb + (16 + align8 size) <= wb_buf_size b ->
  (tx_hold_write_guard txn = false -> num_writer sb < 2 ^ 31 - 1) ->
  exists addr page pad txn' b' s' sb',
    txn_alloc_page fm size txn s = (Ok (addr, page, txn'), s') /\ length page = size /\
    tx_records txn' = addr :: tx_records txn /\ tx_page_ids txn' = tx_page_ids txn /\
    tx_buffer_id txn' = tx_buffer_id txn /\ tx_hold_write_guard txn' = true /\
    st_table s' = st_table s /\ frame (tx_buffer_id txn) s s' /\ wb_buf_size b' = wb_buf_size b /\
    addr = rec_addr (tx_buffer_id txn) (rs ++ [mkRec 0 FLAG_NORMAL_PAGE page pad]) (length rs) /\
    sb' = add_alloc (16 + align8 size) (negb (tx_hold_write_guard txn)) sb /\
    txn_inv s' txn' b' sb' (rs ++ [mkRec 0 FLAG_NORMAL_PAGE page pad]) used free.
Proof.
  intros [Hb Ht Hrec Hh Hnd Hids] Hsz Hse Hfit Hnw. pose proof (sbuf_repr _ _ _ _ _ Hb) as Hr.
  set (acq := negb (tx_hold_write_guard txn)).
  pose proof (wb_alloc_page_ok b sb rs Hr 0 size acq ltac:(unfold fits; lia) Hsz) as Ha.
  cbv zeta in Ha. rewrite Hse in Ha. pose proof (align8_bounds size) as [Hab _].
  destruct (wr_ok _ _ _ Hr) as [[Hw Hal] Hle]. unfold fits in *.
  rewrite (proj2 (Z.ltb_ge _ _)) in Ha by lia. rewrite (proj2 (Z.ltb_ge _ _)) in Ha by lia.
  assert (Hacq : (acq && (num_writer sb =? 2 ^ 31 - 1)) = false).
  { unfold acq. destruct (tx_hold_write_guard txn); [done|]. apply Z.eqb_neq. specialize (Hnw eq_refl). lia. }
  rewrite Hacq in Ha. destruct Ha as (page & pad & b' & Ha & Hl & Hg & Hz & Hr').
  set (rs' := rs ++ [mkRec 0 FLAG_NORMAL_PAGE page pad]) in *.
  pose proof (sbuf_group _ _ _ _ _ Hb) as Hgrp. rewrite Hgrp in Ha, Hg.
  destruct (store_buf_update s _ b sb rs b' _ rs' Hb Hr' Hg) as [Hb' Hfr].
  set (addr := rec_addr (tx_buffer_id txn) rs' (length rs)) in *.
  exists addr, page, pad, (mkPageTxn (tx_buffer_id txn) true (addr :: tx_records txn) (tx_page_ids txn)), b'.
  eexists _, _. split.
  - unfold txn_alloc_page. rewrite (wrap_small 32) by (unfold fits; lia).
    assert (Hg' : with_write_guard fm (λ b first, wb_alloc_page NAN_ID size first b) txn s
      = (Ok ((addr, page), mkPageTxn (tx_buffer_id txn) true (tx_records txn) (tx_page_ids txn)),
         with_set (bsv_update (tx_buffer_id txn) b' (st_set s)) s)).
    { unfold with_write_guard. rewrite (store_buf_get _ _ _ _ _ Hb). fold acq. unfold NAN_ID.
      by rewrite Ha. }
    st_step Hg'. done.
  - split_and!; try done. constructor; simpl; try done.
    + constructor.
      * exists (length rs), (mkRec 0 FLAG_NORMAL_PAGE page pad). split; [|split; [done|simpl; lia]].
        split; [by apply list_lookup_middle|done].
      * eapply Forall_impl; [exact Hrec|]. intros a (i & r & [Hi ->] & Hp).
        apply lookup_lt_Some in Hi as Hlt. exists i, r. split; [|done].
        split; [by apply lookup_app_l_Some|]. unfold rec_addr, rec_off. do 3 f_equal.
        by rewrite take_app_le by lia.
    + unfold acq. destruct (tx_hold_write_guard txn); simpl; lia.
Qed.

(** [C30] Aborting a transaction: dropping a transaction in progress gives back
    every page id it allocated and no other, marks exactly the page records it
    allocated as tombstones so that they are never flushed, keeps every other
    record and the address of every other page id, releases its writer once, and
    notifies the flush job exactly when this was the last writer of a sealed
    buffer. *)
Theorem page_txn_abort (s : Store) (txn : PageTxn) (b : WriteBuffer) (sb : BufferState)
    (rs : list Rec) (used : gset Z) (free : list Z) :
  txn_inv s txn b sb rs used free ->
  exists s' b' free', txn_drop txn s = (Ok tt, s') /\
    table_inv (st_table s') (used ∖ list_to_set (tx_page_ids txn)) free' /\
    (forall id, id_ok id -> id ∉ tx_page_ids txn -> table_get id (st_table s') = table_get id (st_table s)) /\
    store_buf s' (tx_buffer_id txn) b'
      (if tx_hold_write_guard txn then sub_writer sb else sb)
      (if tx_hold_write_guard txn then kill (tx_buffer_id txn) (tx_records txn) rs else rs) /\
    st_flush_notified s' =
      ((if tx_hold_write_guard txn && is_flushable (sub_writer sb) then 1 else 0) + st_flush_notified s)%nat.
Proof.
  intros [Hb Ht Hrec Hh Hnd Hids].
  destruct (txn_dealloc_ids_ok (tx_page_ids txn) s used free Ht Hnd Hids) as (t & free' & Hd & Hi & Hv).
  unfold txn_drop. st_step Hd.
  assert (Hget : forall id, id_ok id -> id ∉ tx_page_ids txn -> table_get id t = table_get id (st_table s)).
  { intros id Hok Hn. unfold table_get. rewrite !load_ok by done. by rewrite Hv. }
  destruct (tx_hold_write_guard txn) eqn:Eh.
  2: { exists (with_table t s), b, free'. split_and!; [done..| |done].
       destruct Hb as [? ? ? ? ?]. by constructor. }
  assert (Hb0 : store_buf (with_table t s) (tx_buffer_id txn) b sb rs)
    by (destruct Hb as [? ? ? ? ?]; by constructor).
  destruct (txn_set_tombstones_ok (tx_records txn) (with_table t s) txn _ b sb rs eq_refl Hb0)
    as (s1 & b1 & Hs1 & Hb1 & Ht1 & Hf1).
  { eapply Forall_impl; [exact Hrec|]. intros a (i & r & Ha & _). by exists i, r. }
  st_step Hs1.
  destruct (txn_drop_writer_ok s1 txn _ b1 sb _ eq_refl Eh Hb1 Hh) as (s2 & b2 & Hs2 & Hb2 & _ & _ & Ht2 & Hf2).
  exists s2, b2, free'. rewrite Ht2, Ht1. split_and!; [done|done|done|done|].
  by rewrite Hf2, Hf1.
Qed.

Lemma txn_update_ok (s : Store) (txn : PageTxn) (b : WriteBuffer) (sb : BufferState)
    (rs : list Rec) (used : gset Z) (free : list Z) (id old new : Z) (i : nat) (r : Rec) :
  txn_inv s txn b sb rs used free -> id ∈ used -> old < new ->
  new ∈ tx_records txn -> at_rec (tx_buffer_id txn) rs new i r -> tx_hold_write_guard txn = true ->
  (val (st_table s) id = old ->
    exists s' b', txn_update_page id old new txn s = (Ok Updated, s') /\
      table_get id (st_table s') = Ok new /\ table_inv (st_table s') used free /\
      (forall id', id_ok id' -> id' <> id -> table_get id' (st_table s') = table_get id' (st_table s)) /\
      store_buf s' (tx_buffer_id txn) b' (sub_writer sb)
        (<[i := mkRec id (r_flags r) (r_body r) (r_pad r)]> rs) /\
      frame (tx_buffer_id txn) s s' /\ wb_buf_size b' = wb_buf_size b) /\
  (val (st_table s) id <> old ->
    txn_update_page id old new txn s = (Ok (UpdateConflict txn (val (st_table s) id)), s)).
Proof.
  intros [Hb Ht Hrec Hh Hnd Hids] Hid Hlt Hin Hat Eh.
  destruct (ids_ok _ _ _ id Ht (or_introl Hid)) as [Hok _].
  unfold txn_update_page. rewrite (proj2 (Z.leb_gt _ _)) by lia.
  unfold table_step, table_cas. split; intros Hv.
  - erewrite st_bind_ok.
    2: { rewrite load_ok by done. cbn [mbind res_bind]. rewrite (proj2 (Z.eqb_eq _ _) Hv).
         rewrite store_ok by done. reflexivity. }
    cbn match. erewrite st_bind_ok by (unfold lift; by rewrite bool_decide_true by done).
    set (s1 := with_table _ s).
    assert (Hb1 : store_buf s1 (tx_buffer_id txn) b sb rs) by (destruct Hb as [? ? ? ? ?]; by constructor).
    pose proof (wr_recs _ _ _ (sbuf_repr _ _ _ _ _ Hb)) as Hrs.
    destruct (Forall_lookup_1 _ _ _ _ Hrs (proj1 Hat)) as (_ & Hfl & _).
    destruct (txn_map_header_ok (rh_set_page_id id) s1 txn _ b sb rs new i r id (r_flags r) eq_refl Hb1 Hat)
      as (b2 & Hm & Hz2 & Hb2 & Hfr2); [done| |done|].
    { unfold id_ok in Hok. assert (L2_FANOUT < 2 ^ 64) by done. unfold fits. lia. }
    st_step Hm.
    destruct (txn_drop_writer_ok _ txn _ b2 sb _ eq_refl Eh Hb2) as (s3 & b3 & Hs3 & Hb3 & Hfr3 & Hz3 & Ht3 & _);
      [by rewrite Eh in Hh|].
    assert (Hc : txn_commit txn (with_set (bsv_update (tx_buffer_id txn) b2 (st_set s1)) s1) = (Ok tt, s3)).
    { unfold txn_commit. by rewrite Eh. }
    st_step Hc. exists s3, b3. rewrite Ht3. cbn [st_table with_set s1 with_table].
    split_and!; [done| | | |done| |congruence].
    + unfold table_get. rewrite load_ok by done. by rewrite val_set_same.
    + by apply table_inv_set.
    + intros id' Hok' Hne. unfold table_get. rewrite !load_ok by done. by rewrite val_set_other by done.
    + etrans; [apply frame_table|]. etrans; [exact Hfr2|exact Hfr3].
  - erewrite st_bind_ok.
    2: { rewrite load_ok by done. cbn [mbind res_bind]. rewrite (proj2 (Z.eqb_neq _ _) Hv). reflexivity. }
    cbn match. unfold mret, st_ret. by destruct s.
Qed.

(** Updating a page entry: when the entry of the page still holds the
    address the transaction saw, the update swings it to the new page, records the
    page id in the header of the new page, changes no other entry and releases the
    writer; when the entry has changed, nothing is changed and the current address
    is returned with the transaction. *)
Theorem page_txn_update (s : Store) (txn : PageTxn) (b : WriteBuffer) (sb : BufferState)
    (rs : list Rec) (used : gset Z) (free : list Z) (id old new : Z) (i : nat) (r : Rec) :
  txn_inv s txn b sb rs used free -> id ∈ used -> old < new ->
  new ∈ tx_records txn -> at_rec (tx_buffer_id txn) rs new i r -> tx_hold_write_guard txn = true ->
  (val (st_table s) id = old ->
    exists s' b', txn_update_page id old new txn s = (Ok Updated, s') /\
      table_get id (st_table s') = Ok new /\ table_inv (st_table s') used free /\
      (forall id', id_ok id' -> id' <> id -> table_get id' (st_table s') = table_get id' (st_table s)) /\
      store_buf s' (tx_buffer_id txn) b' (sub_writer sb)
        (<[i := mkRec id (r_flags r) (r_body r) (r_pad r)]> rs)) /\
  (val (st_table s) id <> old ->
    txn_update_page id old new txn s = (Ok (UpdateConflict txn (val (st_table s) id)), s)).
Proof.
  intros Hi Hid Hlt Hin Hat Hh.
  destruct (txn_update_ok s txn b sb rs used free id old new i r Hi Hid Hlt Hin Hat Hh) as [Hu Hc].
  split; [|exact Hc]. intros Hv. destruct (Hu Hv) as (s' & b' & H1 & H2 & H3 & H4 & H5 & _).
  by exists s', b'.
Qed.

(** A transaction that has allocated one page in a store with the page id 1 in use. *)
Definition ex_rec : Rec := mkRec 0 FLAG_NORMAL_PAGE (replicate 16 0) [].
Definition ex_state : BufferState := mkBufferState false 1 32.
Definition ex_buffer : WriteBuffer :=
  mkWriteBuffer 7 (rec_bytes ex_rec ++ replicate 32 0) 64 (pack ex_state).
Definition ex_store : Store :=
  mkStore (mkInner ∅ 2 0) (mkBufferSetVersion 7 8 [] ex_buffer) 7 ∅ ∅ 64 0.
Definition ex_txn : PageTxn := mkPageTxn 7 true [rec_addr 7 [ex_rec] 0] [].

Lemma ex_rec_ok : rec_ok ex_rec.
Proof. repeat split; vm_compute; congruence. Qed.

Lemma ex_buffer_repr : wb_repr ex_buffer ex_state [ex_rec].
Proof.
  constructor.
  - split; vm_compute; congruence.
  - done.
  - split; [split; split|]; vm_compute; congruence.
  - vm_compute. done.
  - done.
  - constructor; [exact ex_rec_ok|constructor].
  - exists (replicate 32 0). by rewrite recs_bytes_one.
  - done.
Qed.

Lemma ex_txn_inv : txn_inv ex_store ex_txn ex_buffer ex_state [ex_rec] {[1]} [].
Proof.
  constructor; simpl; [| | |lia|constructor|constructor].
  - constructor; simpl; [|lia|done|done|exact ex_buffer_repr].
    split_and!; [done|vm_compute; congruence|done|]. simpl.
    intros i b' Hb'%list_lookup_singleton_Some. destruct Hb' as [-> <-]. done.
  - constructor; simpl; [constructor|constructor|set_solver|vm_compute; split; congruence|].
    intros id. rewrite elem_of_singleton, elem_of_nil. unfold MIN_ID. lia.
  - constructor; [|constructor]. exists 0%nat, ex_rec. split; [done|]. split; [done|simpl; lia].
Qed.

Lemma page_txn_abort_witness :
  exists s' b' free', txn_drop ex_txn ex_store = (Ok tt, s') /\
    table_inv (st_table s') ({[1]} ∖ list_to_set []) free' /\
    (forall id, id_ok id -> id ∉ [] -> table_get id (st_table s') = table_get id (mkInner ∅ 2 0)) /\
    store_buf s' 7 b' (sub_writer ex_state) (kill 7 [rec_addr 7 [ex_rec] 0] [ex_rec]) /\
    st_flush_notified s' = 0%nat.
Proof. exact (page_txn_abort ex_store ex_txn ex_buffer ex_state [ex_rec] {[1]} [] ex_txn_inv). Defined.

Lemma page_txn_update_witness :
  exists s' b', txn_update_page 1 0 (rec_addr 7 [ex_rec] 0) ex_txn ex_store = (Ok Updated, s') /\
    table_get 1 (st_table s') = Ok (rec_addr 7 [ex_rec] 0) /\
    store_buf s' 7 b' (sub_writer ex_state) [mkRec 1 FLAG_NORMAL_PAGE (replicate 16 0) []].
Proof.
  destruct (page_txn_update ex_store ex_txn ex_buffer ex_state [ex_rec] {[1]} [] 1 0
    (rec_addr 7 [ex_rec] 0) 0 ex_rec ex_txn_inv) as [Hu _].
  - set_solver.
  - vm_compute. reflexivity.
  - apply list_elem_of_here.
  - done.
  - done.
  - destruct Hu as (s' & b' & Hu & Hg & _ & _ & Hb); [done|]. by exists s', b'.
Defined.
