(* ===== verification/PageHeap.v ===== *)
(** * The page store as a heap of pages (refinement of [page_txn.rs])

    The contract the page store gives the tree: page ids map to addresses and
    addresses to pages. [heap_inv] relates a store to such a table and heap; each
    step of a transaction (allocating a page, writing it, swinging a page id to
    it) is shown to do exactly that to the abstract state, so the proofs about the
    tree work on finite maps and never look at buffers again. *)

From stdpp Require Import base numbers list gmap.
From Stdlib Require Import ZArith Lia.
From S2P Require Import Prelude BasePage PageTable WriteBuffer BufferSet PageTxn.

(** ** Pages of the heap *)

(** A page before the active buffer [g]: in a file or in an older buffer. *)
Definition old_page (s : Store) (g addr : Z) (page : list Z) : Prop :=
  0 < addr < Z.shiftl g 32 /\ guard_read_page addr s = (Ok page, s) /\
  guard_read_page_info addr s = (Ok (page_info page), s).

(** A page in a record of the active buffer. *)
Definition own_page (g : Z) (rs : list Rec) (addr : Z) (page : list Z) : Prop :=
  exists i r, at_rec g rs addr i r /\ page_rec r /\ r_body r = page.

Definition heap_pages (s : Store) (g : Z) (rs : list Rec) (m : gmap Z (list Z)) : Prop :=
  map_Forall (λ addr page, old_page s g addr page \/ own_page g rs addr page) m.

Lemma rec_addr_bounds b sb rs g i r :
  wb_repr b sb rs -> wb_group_id b = g -> rs !! i = Some r ->
  Z.shiftl g 32 < rec_addr g rs i < Z.shiftl (g + 1) 32 /\
  wrap32 (Z.shiftr (rec_addr g rs i) 32) = g /\ fits 64 (rec_addr g rs i).
Proof.
  intros Hr Hg Hi. pose proof (wr_group _ _ _ Hr) as Hg32. rewrite Hg in Hg32.
  destruct (wb_repr_split b sb rs Hr i r Hi) as (Q & _ & _ & _ & Hlt).
  pose proof (wr_size _ _ _ Hr). assert (Ho : fits 32 (rec_off rs i + 16)) by (unfold fits; lia).
  unfold rec_addr. split_and!; [| |by apply page_addr_file|]; unfold page_addr_of, fits in *;
    rewrite ?lor_shiftl_add by lia; rewrite ?Z.shiftl_mul_pow2 by lia; lia.
Qed.

(** Reading a page of the active buffer. *)
Lemma own_page_read s g b sb rs addr page :
  store_buf s g b sb rs -> own_page g rs addr page ->
  guard_read_page addr s = (Ok page, s) /\ guard_read_page_info addr s = (Ok (page_info page), s).
Proof.
  intros Hb (i & r & [Hi ->] & [Hf Hl] & <-).
  pose proof (sbuf_repr _ _ _ _ _ Hb) as Hr. pose proof (sbuf_group _ _ _ _ _ Hb) as Hg.
  destruct (rec_addr_bounds b sb rs g i r Hr Hg Hi) as (_ & Hgr & _).
  unfold guard_read_page, guard_read_page_info. rewrite Hgr, (store_buf_get _ _ _ _ _ Hb).
  cbn [mbind res_bind]. pose proof (wb_page_ok b sb rs Hr i r Hi Hf Hl) as Hp. rewrite Hg in Hp.
  by rewrite Hp.
Qed.

Lemma heap_read s g b sb rs m addr page :
  store_buf s g b sb rs -> heap_pages s g rs m -> m !! addr = Some page ->
  guard_read_page addr s = (Ok page, s) /\ guard_read_page_info addr s = (Ok (page_info page), s).
Proof.
  intros Hb Hm Ha. destruct (Hm _ _ Ha) as [[_ Hr]|Ho]; [done|by eapply own_page_read].
Qed.

(** The addresses of the heap lie below the end of the active buffer. *)
Lemma heap_addr_bounds s g b sb rs m addr page :
  store_buf s g b sb rs -> heap_pages s g rs m -> m !! addr = Some page ->
  0 < addr /\ fits 64 addr.
Proof.
  intros Hb Hm Ha. pose proof (sbuf_repr _ _ _ _ _ Hb) as Hr. pose proof (sbuf_group _ _ _ _ _ Hb) as Hg.
  pose proof (wr_group _ _ _ Hr) as Hg32. rewrite Hg in Hg32. unfold fits in *.
  destruct (Hm _ _ Ha) as [[Hb' _]|(i & r & [Hi ->] & _)].
  - rewrite Z.shiftl_mul_pow2 in Hb' by lia. lia.
  - destruct (rec_addr_bounds b sb rs g i r Hr Hg Hi) as (Hb' & _ & Hf). unfold fits in Hf.
    rewrite Z.shiftl_mul_pow2 in Hb' by lia. lia.
Qed.

(** A transaction on buffer [g] does not change the pages before it. *)
Lemma old_page_frame s s' g addr page :
  fits 32 g -> frame g s s' -> old_page s g addr page -> old_page s' g addr page.
Proof.
  intros Hg [H1 H2 H3 H4 H5] (Ha & Hr & Hi). split; [done|].
  assert (Hne : wrap32 (Z.shiftr addr 32) <> g).
  { unfold fits in Hg. rewrite Z.shiftl_mul_pow2 in Ha by lia.
    assert (addr / 2 ^ 32 < g) by (apply Z.div_lt_upper_bound; lia).
    assert (0 <= addr / 2 ^ 32) by (apply Z.div_pos; lia).
    rewrite Z.shiftr_div_pow2 by lia. rewrite wrap_small; [lia|unfold fits; lia]. }
  unfold guard_read_page, guard_read_page_info in *. rewrite H5, H2, H3 by done.
  apply (f_equal fst) in Hr, Hi. cbn [fst] in Hr, Hi. by rewrite Hr, Hi.
Qed.

(** Replacing record [i] by one of the same size changes the page at its address
    and no other. *)
Lemma heap_pages_insert s s' g b sb rs m i r r' :
  store_buf s g b sb rs -> frame g s s' -> heap_pages s g rs m -> rs !! i = Some r ->
  length (rec_bytes r') = length (rec_bytes r) -> page_rec r' ->
  heap_pages s' g (<[i := r']> rs) (<[rec_addr g rs i := r_body r']> m).
Proof.
  intros Hb Hfr Hm Hi Hl Hp a page Ha. pose proof (sbuf_repr _ _ _ _ _ Hb) as Hr.
  pose proof (wr_group _ _ _ Hr) as Hg. rewrite (sbuf_group _ _ _ _ _ Hb) in Hg.
  assert (Hlt : (i < length rs)%nat) by (by eapply lookup_lt_Some).
  destruct (decide (a = rec_addr g rs i)) as [->|Hne].
  - rewrite lookup_insert_eq in Ha. injection Ha as <-. right. exists i, r'.
    split; [|done]. split; [by rewrite list_lookup_insert_eq|].
    by rewrite (rec_addr_insert g rs i r).
  - rewrite lookup_insert_ne in Ha by done. destruct (Hm _ _ Ha) as [Ho|(j & rj & [Hj ->] & Ho)].
    + left. by eapply old_page_frame.
    + right. exists j, rj. split; [|done]. split; [|by rewrite (rec_addr_insert g rs i r)].
      rewrite list_lookup_insert_ne; [done|]. by intros ->.
Qed.

Lemma length_relabel r data :
  length (rec_bytes (mkRec data (r_flags r) (r_body r) (r_pad r))) = length (rec_bytes r).
Proof. unfold rec_bytes. by rewrite !length_app, !length_rh_bytes. Qed.

(** Changing the header of a page record changes no page. *)
Lemma heap_pages_relabel s s' g b sb rs m i r data :
  store_buf s g b sb rs -> frame g s s' -> heap_pages s g rs m -> rs !! i = Some r -> page_rec r ->
  heap_pages s' g (<[i := mkRec data (r_flags r) (r_body r) (r_pad r)]> rs) m.
Proof.
  intros Hb Hfr Hm Hi Hp. set (r' := mkRec data (r_flags r) (r_body r) (r_pad r)).
  assert (Hmi := heap_pages_insert s s' g b sb rs m i r r' Hb Hfr Hm Hi (length_relabel r data) Hp).
  cbn [r' r_body] in Hmi. destruct (m !! rec_addr g rs i) as [p|] eqn:Ep.
  - destruct (heap_read s g b sb rs m _ p Hb Hm Ep) as [Hrd _].
    destruct (own_page_read s g b sb rs (rec_addr g rs i) (r_body r) Hb) as [Hrd' _]; [by exists i, r|].
    rewrite Hrd in Hrd'. apply (f_equal fst) in Hrd'. cbn [fst] in Hrd'. injection Hrd' as ->.
    by rewrite insert_id in Hmi by done.
  - intros a pa Ha. apply Hmi. by rewrite lookup_insert_ne by congruence.
Qed.

Lemma at_rec_app g rs rs' addr i r : at_rec g rs addr i r -> at_rec g (rs ++ rs') addr i r.
Proof.
  intros [Hi ->]. apply lookup_lt_Some in Hi as Hlt. split; [by apply lookup_app_l_Some|].
  unfold rec_addr, rec_off. by rewrite take_app_le by lia.
Qed.

(** A new record changes no page. *)
Lemma heap_pages_app s s' g b sb rs m r :
  store_buf s g b sb rs -> frame g s s' -> heap_pages s g rs m -> heap_pages s' g (rs ++ [r]) m.
Proof.
  intros Hb Hfr Hm a page Ha. pose proof (sbuf_repr _ _ _ _ _ Hb) as Hr.
  pose proof (wr_group _ _ _ Hr) as Hg. rewrite (sbuf_group _ _ _ _ _ Hb) in Hg.
  destruct (Hm _ _ Ha) as [Ho|(j & rj & Hj & Ho)].
  - left. by eapply old_page_frame.
  - right. exists j, rj. split; [by apply at_rec_app|done].
Qed.

(** A new page record adds its page. *)
Lemma heap_pages_snoc s s' g b sb rs m r :
  store_buf s g b sb rs -> frame g s s' -> heap_pages s g rs m -> page_rec r ->
  heap_pages s' g (rs ++ [r]) (<[rec_addr g (rs ++ [r]) (length rs) := r_body r]> m).
Proof.
  intros Hb Hfr Hm Hp a page Ha.
  apply lookup_insert_Some in Ha as [[<- <-]|[Hne Ha]]; [|by eapply heap_pages_app].
  right. exists (length rs), r. split; [|done]. split; [by apply list_lookup_middle|done].
Qed.

(** ** Transactions *)

(** A transaction in progress on the last buffer, with the heap it works on. *)
Record txn_heap (s : Store) (txn : PageTxn) (b : WriteBuffer) (sb : BufferState) (rs : list Rec)
    (used : gset Z) (free : list Z) (m : gmap Z (list Z)) : Prop := {
  th_inv : txn_inv s txn b sb rs used free;
  th_last : bsv_end (st_set s) = tx_buffer_id txn + 1;
  th_pages : heap_pages s (tx_buffer_id txn) rs m;
}.

(** The records of a transaction stay when one is replaced by one of its size. *)
Lemma recs_at_insert g rs i r r' addrs :
  rs !! i = Some r -> length (rec_bytes r') = length (rec_bytes r) -> page_rec r' ->
  Forall (λ a, exists i r, at_rec g rs a i r /\ page_rec r) addrs ->
  Forall (λ a, exists j rj, at_rec g (<[i := r']> rs) a j rj /\ page_rec rj) addrs.
Proof.
  intros Hi Hl Hp Hrec. eapply Forall_impl; [exact Hrec|]. intros a (j & rj & [Hj ->] & Hpj).
  destruct (decide (i = j)) as [<-|Hne].
  - exists i, r'. split; [|done]. split; [apply list_lookup_insert_eq; by eapply lookup_lt_Some|].
    by rewrite (rec_addr_insert _ rs i r).
  - exists j, rj. split; [|done]. split; [by rewrite list_lookup_insert_ne|].
    by rewrite (rec_addr_insert _ rs i r).
Qed.

(** [alloc_page]: a new address above all others, with a page of the size. *)
Lemma heap_alloc fm s txn b sb rs used free m (size : nat) :
  txn_heap s txn b sb rs used free m -> 16 <= size <= 2 ^ 32 - 24 -> sealed sb = false ->
  allocated sb + (16 + align8 size) <= wb_buf_size b ->
  (tx_hold_write_guard txn = false -> num_writer sb < 2 ^ 31 - 1) ->
  exists addr page txn' b' s' rs',
    txn_alloc_page fm size txn s = (Ok (addr, page, txn'), s') /\ length page = size /\
    tx_records txn' = addr :: tx_records txn /\ tx_page_ids txn' = tx_page_ids txn /\
    tx_buffer_id txn' = tx_buffer_id txn /\ tx_hold_write_guard txn' = true /\
    st_table s' = st_table s /\ wb_buf_size b' = wb_buf_size b /\
    (forall a p, m !! a = Some p -> a < addr) /\ fits 64 addr /\ addr <> 0 /\
    txn_heap s' txn' b' (add_alloc (16 + align8 size) (negb (tx_hold_write_guard txn)) sb) rs' used free
      (<[addr := page]> m).
Proof.
  intros [Hi Hlast Hm] Hsz Hse Hfit Hnw.
  destruct (txn_alloc_page_ok fm s txn b sb rs used free size Hi Hsz Hse Hfit Hnw)
    as (addr & page & pad & txn' & b' & s' & sb' & Ha & Hl & Hrec & Hids & Hbid & Hh & Ht & Hfr & Hz & -> & -> & Hi').
  pose proof (txi_buf _ _ _ _ _ _ _ Hi) as Hb. pose proof (txi_buf _ _ _ _ _ _ _ Hi') as Hb'.
  rewrite Hbid in Hb'. set (r := mkRec 0 FLAG_NORMAL_PAGE page pad) in *.
  set (addr := rec_addr (tx_buffer_id txn) (rs ++ [r]) (length rs)) in *.
  pose proof (sbuf_repr _ _ _ _ _ Hb') as Hr'. pose proof (sbuf_group _ _ _ _ _ Hb') as Hg'.
  assert (Hlk : (rs ++ [r]) !! length rs = Some r) by (by apply list_lookup_middle).
  destruct (rec_addr_bounds b' _ _ _ _ r Hr' Hg' Hlk) as (Hbd & _ & Hf64). fold addr in Hbd, Hf64.
  pose proof (wr_group _ _ _ Hr') as Hg32. rewrite Hg' in Hg32. unfold fits in Hg32.
  eexists addr, page, txn', b', s', _. split_and!; try done.
  - intros a p Hp. destruct (Hm _ _ Hp) as [[Ho _]|(i & ri & [Hri ->] & _)]; [lia|].
    apply lookup_lt_Some in Hri as Hlt. unfold addr, rec_addr, page_addr_of.
    assert (Ho : forall k, (k <= length rs)%nat -> 0 <= rec_off (rs ++ [r]) k + 16 < 2 ^ 32).
    { intros k Hk. destruct (lookup_lt_is_Some_2 (rs ++ [r]) k) as [rk Hrk]; [rewrite length_app; simpl; lia|].
      destruct (wb_repr_split b' _ _ Hr' k rk Hrk) as (Q & _ & _ & _ & ?). pose proof (wr_size _ _ _ Hr'). lia. }
    assert (rec_off rs i = rec_off (rs ++ [r]) i) as -> by (unfold rec_off; by rewrite take_app_le by lia).
    pose proof (Ho i ltac:(lia)). pose proof (Ho (length rs) ltac:(lia)).
    pose proof (rec_off_lt (rs ++ [r]) i (length rs) ltac:(rewrite length_app; simpl; lia)).
    rewrite !lor_shiftl_add by lia. lia.
  - rewrite Z.shiftl_mul_pow2 in Hbd by lia. lia.
  - constructor; [exact Hi'|by rewrite Hbid, (fr_end _ _ _ Hfr)|]. rewrite Hbid.
    apply (heap_pages_snoc s s' _ b sb rs m r); try done. split; [done|simpl; lia].
Qed.

(** Writing a page of the transaction in place. *)
Lemma heap_write s txn b sb rs used free m addr old page :
  txn_heap s txn b sb rs used free m -> addr ∈ tx_records txn -> m !! addr = Some old ->
  length page = length old ->
  exists b' s' rs', txn_write_page addr page txn s = (Ok tt, s') /\
    st_table s' = st_table s /\ wb_buf_size b' = wb_buf_size b /\
    txn_heap s' txn b' sb rs' used free (<[addr := page]> m).
Proof.
  intros [[Hb Ht Hrec Hh Hnd Hids] Hlast Hm] Hin Hold Hl.
  rewrite Forall_forall in Hrec. destruct (Hrec _ Hin) as (i & r & [Hi ->] & Hp).
  pose proof (sbuf_repr _ _ _ _ _ Hb) as Hr. pose proof (sbuf_group _ _ _ _ _ Hb) as Hg.
  assert (Hbody : r_body r = old).
  { destruct (own_page_read s _ b sb rs (rec_addr (tx_buffer_id txn) rs i) (r_body r) Hb) as [Hrd _].
    { by exists i, r. }
    destruct (heap_read s _ b sb rs m _ old Hb Hm Hold) as [Hrd' _].
    rewrite Hrd in Hrd'. apply (f_equal fst) in Hrd'. cbn [fst] in Hrd'. by injection Hrd'. }
  subst old. destruct (wb_write_page_ok b sb rs Hr i r page Hi Hl) as (b' & Hw & Hr' & Hg' & Hz').
  rewrite Hg in Hw.
  destruct (store_buf_update s _ b sb rs b' sb _ Hb Hr') as [Hb' Hfr]; [congruence|].
  set (r' := mkRec (r_data r) (r_flags r) page (r_pad r)) in *.
  assert (Hlen : length (rec_bytes r') = length (rec_bytes r)).
  { unfold rec_bytes. rewrite !length_app, !length_rh_bytes. simpl. lia. }
  assert (Hp' : page_rec r') by (destruct Hp; split; [done|simpl; lia]).
  exists b', (with_set (bsv_update (tx_buffer_id txn) b' (st_set s)) s), (<[i := r']> rs). split_and!; [|done|done|].
  - unfold txn_write_page. by rewrite (store_buf_get _ _ _ _ _ Hb), Hw.
  - assert (Hpages := heap_pages_insert s _ _ b sb rs m i r r' Hb Hfr Hm Hi Hlen Hp').
    constructor; [|exact (eq_trans (fr_end _ _ _ Hfr) Hlast)|exact Hpages].
    constructor; try done. apply (recs_at_insert _ rs i r r'); try done. by apply Forall_forall.
Qed.

(** [update_page] when the entry is still the one the transaction saw. *)
Lemma heap_txn_update s txn b sb rs used free m id old new :
  txn_heap s txn b sb rs used free m -> id ∈ used -> val (st_table s) id = old -> old < new ->
  new ∈ tx_records txn -> tx_hold_write_guard txn = true ->
  exists s' b' rs', txn_update_page id old new txn s = (Ok Updated, s') /\
    wb_buf_size b' = wb_buf_size b /\ table_inv (st_table s') used free /\
    val (st_table s') id = new /\
    (forall id', id_ok id' -> id' <> id -> val (st_table s') id' = val (st_table s) id') /\
    bsv_end (st_set s') = tx_buffer_id txn + 1 /\
    store_buf s' (tx_buffer_id txn) b' (sub_writer sb) rs' /\
    heap_pages s' (tx_buffer_id txn) rs' m.
Proof.
  intros [Hi Hlast Hm] Hid Hv Hlt Hin Hh. pose proof (txi_recs _ _ _ _ _ _ _ Hi) as Hrec.
  rewrite Forall_forall in Hrec. destruct (Hrec _ Hin) as (i & r & Hat & Hp).
  destruct (txn_update_ok s txn b sb rs used free id old new i r Hi Hid Hlt Hin Hat Hh) as [Hu _].
  destruct (Hu Hv) as (s' & b' & Hup & Hg & Ht & Ho & Hb' & Hfr & Hz).
  pose proof (txi_buf _ _ _ _ _ _ _ Hi) as Hb. pose proof (txi_table _ _ _ _ _ _ _ Hi) as Htab.
  destruct (ids_ok _ _ _ id Htab (or_introl Hid)) as [Hok _].
  eexists s', b', _. split_and!; [done|done|done| | | |exact Hb'|].
  - unfold table_get in Hg. rewrite load_ok in Hg by done. by injection Hg.
  - intros id' Hok' Hne. specialize (Ho id' Hok' Hne). unfold table_get in Ho.
    rewrite !load_ok in Ho by done. by injection Ho.
  - by rewrite (fr_end _ _ _ Hfr).
  - destruct Hat as [Hri ->]. by eapply (heap_pages_relabel s s' _ b sb rs m i r).
Qed.

(** The space the record of [n] deallocated pages needs. *)
Definition dealloc_need (n : nat) : Z := 16 + align8 (n * 8)%nat.

(** The record of the deallocated pages. *)
Lemma heap_dealloc fm s txn b sb rs used free m addrs :
  txn_heap s txn b sb rs used free m -> tx_hold_write_guard txn = true -> sealed sb = false ->
  allocated sb + dealloc_need (length addrs) <= wb_buf_size b -> 1 <= (length addrs * 8)%nat <= 2 ^ 32 - 24 ->
  exists offset b' s' rs',
    with_write_guard fm (λ b first, wb_dealloc_pages addrs first b) txn s = (Ok (offset, txn), s') /\
    st_table s' = st_table s /\ wb_buf_size b' = wb_buf_size b /\
    txn_heap s' txn b' (add_alloc (dealloc_need (length addrs)) false sb) rs' used free m.
Proof.
  intros [[Hb Ht Hrec Hh Hnd Hids] Hlast Hm] Hhold Hse Hroom Hsz.
  pose proof (sbuf_repr _ _ _ _ _ Hb) as Hr.
  destruct (wb_dealloc_pages_ok b sb rs Hr addrs false Hse Hroom eq_refl Hsz) as (pad & b' & Hd & Hg' & Hz' & Hr').
  set (r := mkRec 0 FLAG_DELETED_PAGES _ pad) in *.
  destruct (store_buf_update s _ b sb rs b' _ _ Hb Hr') as [Hb' Hfr].
  { rewrite Hg'. exact (sbuf_group _ _ _ _ _ Hb). }
  exists (allocated sb), b', (with_set (bsv_update (tx_buffer_id txn) b' (st_set s)) s), (rs ++ [r]).
  split_and!; [|done|done|].
  - unfold with_write_guard. rewrite (store_buf_get _ _ _ _ _ Hb), Hhold. cbn [negb]. rewrite Hd.
    destruct txn; simpl in *. by subst.
  - constructor; [|exact (eq_trans (fr_end _ _ _ Hfr) Hlast)|by eapply heap_pages_app].
    constructor; try done.
    + eapply Forall_impl; [exact Hrec|]. intros a (i & ri & Ha & Hp). exists i, ri. split; [by apply at_rec_app|done].
    + rewrite Hhold in *. simpl. lia.
Qed.

(** [replace_page] when the entry is still the one the transaction saw. *)
Lemma heap_replace fm s txn b sb rs used free m id old new addrs :
  txn_heap s txn b sb rs used free m -> id ∈ used -> val (st_table s) id = old -> old < new ->
  new ∈ tx_records txn -> tx_hold_write_guard txn = true -> sealed sb = false ->
  allocated sb + dealloc_need (length addrs) <= wb_buf_size b -> 1 <= (length addrs * 8)%nat <= 2 ^ 32 - 24 ->
  exists s' b' rs', txn_replace_page fm id old new addrs txn s = (Ok tt, s') /\
    wb_buf_size b' = wb_buf_size b /\ table_inv (st_table s') used free /\
    val (st_table s') id = new /\
    (forall id', id_ok id' -> id' <> id -> val (st_table s') id' = val (st_table s) id') /\
    bsv_end (st_set s') = tx_buffer_id txn + 1 /\
    store_buf s' (tx_buffer_id txn) b' (sub_writer (add_alloc (dealloc_need (length addrs)) false sb)) rs' /\
    heap_pages s' (tx_buffer_id txn) rs' m.
Proof.
  intros Hth Hid Hv Hlt Hin Hh Hse Hroom Hsz.
  destruct (heap_dealloc fm s txn b sb rs used free m addrs Hth Hh Hse Hroom Hsz)
    as (offset & b1 & s1 & rs1 & Hd & Htab & Hz & Hth1).
  destruct (heap_txn_update s1 txn b1 _ rs1 used free m id old new Hth1 Hid ltac:(congruence) Hlt Hin Hh)
    as (s2 & b2 & rs2 & Hu & Hz2 & Ht2 & Hv2 & Ho2 & He2 & Hb2 & Hm2).
  exists s2, b2, rs2. rewrite Htab in Ho2. split_and!; [|congruence|done..].
  unfold txn_replace_page. rewrite (proj2 (Z.leb_gt _ _)) by lia.
  rewrite (st_bind_ok _ _ s (offset, txn) s1) by (unfold on_err; by rewrite Hd).
  by st_step Hu.
Qed.

(** [insert_page]: the page of the transaction gets a new page id. *)
Lemma heap_insert s txn b sb rs used free m addr :
  txn_heap s txn b sb rs used free m -> addr ∈ tx_records txn ->
  (free <> [] \/ nxt (st_table s) < MAX_ID) ->
  exists id free' b' s' rs',
    txn_insert_page addr txn s =
      (Ok (id, mkPageTxn (tx_buffer_id txn) (tx_hold_write_guard txn) (tx_records txn)
                 (tx_page_ids txn ++ [id])), s') /\
    id = default (nxt (st_table s)) (head free) /\ (id ∉ used) /\ id_ok id /\
    nxt (st_table s') <= nxt (st_table s) + 1 /\ wb_buf_size b' = wb_buf_size b /\ val (st_table s') id = addr /\
    (forall id', id_ok id' -> id' <> id -> val (st_table s') id' = val (st_table s) id') /\
    txn_heap s' (mkPageTxn (tx_buffer_id txn) (tx_hold_write_guard txn) (tx_records txn)
                   (tx_page_ids txn ++ [id])) b' sb rs' ({[id]} ∪ used) free' m.
Proof.
  intros [[Hb Ht Hrec Hh Hnd Hids] Hlast Hm] Hin Hfree.
  rewrite Forall_forall in Hrec. destruct (Hrec _ Hin) as (i & r & Hat & Hp).
  assert (Ha : exists t' free', table_alloc (st_table s) = Ok (Some (default (nxt (st_table s)) (head free)), t') /\
    cells t' = cells (st_table s) /\ nxt t' <= nxt (st_table s) + 1 /\ table_inv t' ({[default (nxt (st_table s)) (head free)]} ∪ used) free').
  { pose proof (table_alloc_ok _ _ _ Ht) as Ha. destruct free as [|id free']; cbn [head default].
    - destruct Hfree as [|Hlt]; [done|]. rewrite (proj2 (Z.ltb_lt _ _) Hlt) in Ha.
      destruct Ha as (t' & Ha & Hc & Hx & Hi). exists t', []. by rewrite Hx.
    - destruct Ha as (t' & Ha & Hc & Hx & Hi). exists t', free'. split_and!; [done|done|lia|done]. }
  set (id := default (nxt (st_table s)) (head free)) in *. destruct Ha as (t' & free' & Ha & Hc & Hx & Ht').
  assert (Hnu : id ∉ used).
  { destruct free as [|x free0]; cbn [head default] in id; subst id.
    - intros Hu. pose proof (proj2 (inv_cover _ _ _ Ht (nxt (st_table s))) (or_introl Hu)). lia.
    - intros Hu. apply (inv_disj _ _ _ Ht _ Hu), list_elem_of_here. }
  assert (Hidu : id ∈ {[id]} ∪ used) by set_solver.
  destruct (ids_ok _ _ _ id Ht' (or_introl Hidu)) as [Hok _].
  set (s1 := with_table t' s). set (s2 := with_table (set_val id addr t') s).
  assert (Hb2 : store_buf s2 (tx_buffer_id txn) b sb rs) by (destruct Hb as [? ? ? ? ?]; by constructor).
  pose proof (wr_recs _ _ _ (sbuf_repr _ _ _ _ _ Hb)) as Hrs.
  destruct (Forall_lookup_1 _ _ _ _ Hrs (proj1 Hat)) as (_ & Hfl & _).
  destruct (txn_map_header_ok (rh_set_page_id id) s2 txn _ b sb rs addr i r id (r_flags r) eq_refl Hb2 Hat)
    as (b3 & Hm3 & Hz3 & Hb3 & Hfr3); [done| |done|].
  { unfold id_ok in Hok. assert (L2_FANOUT < 2 ^ 64) by done. unfold fits. lia. }
  set (s3 := with_set (bsv_update (tx_buffer_id txn) b3 (st_set s2)) s2) in *.
  exists id, free', b3, s3, (<[i := mkRec id (r_flags r) (r_body r) (r_pad r)]> rs).
  split_and!; [|done|done|done|done|done| | |].
  - unfold txn_insert_page. rewrite (st_bind_ok _ _ s tt s) by (unfold lift; by rewrite bool_decide_true by done).
    rewrite (st_bind_ok _ _ s (rec_header r) s).
    2: { unfold txn_header. rewrite (store_buf_get _ _ _ _ _ Hb). cbn [mbind res_bind expect].
         rewrite (at_rec_offset _ _ _ _ _ _ _ _ Hb Hat). destruct Hat as [Hi _].
         pose proof (sbuf_repr _ _ _ _ _ Hb) as Hr. destruct (wb_repr_split b sb rs Hr i r Hi) as (Q & Hbuf & Hok' & Hmod & _).
         unfold rec_off in *. by rewrite (wb_record_at b _ Q r Hbuf (wr_len _ _ _ Hr) Hmod Hok'). }
    rewrite (st_bind_ok _ _ s tt s).
    2: { unfold lift, rh_is_tombstone. cbn [rec_header rh_flags]. destruct Hp as [-> _]. done. }
    rewrite (st_bind_ok _ _ s (Some id) s1) by (unfold table_step; by rewrite Ha).
    rewrite (st_bind_ok _ _ s1 id s1) by done.
    rewrite (st_bind_ok _ _ s1 tt s2).
    2: { unfold table_step_, table_step, table_set. cbn [s1 st_table with_table]. by rewrite store_ok. }
    by st_step Hm3.
  - cbn. by rewrite val_set_same.
  - intros id' Hok' Hne. cbn. rewrite val_set_other by done. unfold val. by rewrite Hc.
  - destruct Hat as [Hi ->]. constructor; [|exact (eq_trans (fr_end _ _ _ Hfr3) Hlast)|].
    2: { eapply (heap_pages_relabel s s3 _ b sb rs m i r); try done. transitivity s2; [apply frame_table|exact Hfr3]. }
    constructor; simpl; [exact Hb3|by apply table_inv_set| |done| |].
    + apply (recs_at_insert _ rs i r); [done|apply length_relabel|done|by apply Forall_forall].
    + apply NoDup_app. split_and!; [done| |apply NoDup_singleton]. intros x Hx' ->%list_elem_of_singleton.
      rewrite Forall_forall in Hids. by apply Hnu, Hids.
    + apply Forall_app. split; [|by repeat constructor].
      eapply Forall_impl; [exact Hids|]. set_solver.
Qed.

(** [commit]. *)
Lemma heap_commit s txn b sb rs used free m :
  txn_heap s txn b sb rs used free m -> tx_hold_write_guard txn = true ->
  exists s' b', txn_commit txn s = (Ok tt, s') /\ wb_buf_size b' = wb_buf_size b /\
    st_table s' = st_table s /\ bsv_end (st_set s') = tx_buffer_id txn + 1 /\
    store_buf s' (tx_buffer_id txn) b' (sub_writer sb) rs /\
    heap_pages s' (tx_buffer_id txn) rs m.
Proof.
  intros [[Hb Ht Hrec Hh Hnd Hids] Hlast Hm] Hhold. rewrite Hhold in Hh.
  destruct (txn_drop_writer_ok s txn _ b sb rs eq_refl Hhold Hb Hh) as (s' & b' & Hd & Hb' & Hfr & Hz & Htab & _).
  exists s', b'. unfold txn_commit. rewrite Hhold.
  split_and!; [done|done|done|by rewrite (fr_end _ _ _ Hfr)|done|].
  intros a p Ha. pose proof (wr_group _ _ _ (sbuf_repr _ _ _ _ _ Hb)) as Hg. rewrite (sbuf_group _ _ _ _ _ Hb) in Hg.
  destruct (Hm _ _ Ha) as [Ho|Ho]; [left; by eapply old_page_frame|by right].
Qed.

(** ** The quiescent store *)

(** A store between transactions: it maps the page ids of [t] to addresses and the
    addresses of [m] to pages, and its active buffer has [room] bytes left. *)
Definition heap_inv (s : Store) (t : gmap Z Z) (m : gmap Z (list Z)) (room : Z) : Prop :=
  exists b sb rs free,
    store_buf s (wb_group_id b) b sb rs /\ bsv_end (st_set s) = wb_group_id b + 1 /\
    table_inv (st_table s) (dom t) free /\ map_Forall (λ id addr, val (st_table s) id = addr) t /\
    heap_pages s (wb_group_id b) rs m /\ sealed sb = false /\ num_writer sb < 2 ^ 31 - 1 /\
    room = wb_buf_size b - allocated sb.

Lemma heap_inv_read s t m room addr page :
  heap_inv s t m room -> m !! addr = Some page ->
  guard_read_page addr s = (Ok page, s) /\ guard_read_page_info addr s = (Ok (page_info page), s).
Proof. intros (b & sb & rs & free & Hb & _ & _ & _ & Hm & _) Ha. by eapply heap_read. Qed.

Lemma heap_inv_addr s t m room id addr :
  heap_inv s t m room -> t !! id = Some addr -> guard_page_addr id s = (Ok addr, s).
Proof.
  intros (b & sb & rs & free & _ & _ & Ht & Hv & _) Hid. unfold guard_page_addr, table_get.
  assert (Hin : id ∈ dom t) by (by apply elem_of_dom_2 in Hid).
  destruct (ids_ok _ _ _ id Ht (or_introl Hin)) as [Hok _].
  rewrite load_ok by done. by rewrite (Hv _ _ Hid).
Qed.

(** After a transaction that moved one page id. *)
Lemma heap_inv_swing t0 s' t m g b sb rs free id new :
  store_buf s' g b sb rs -> bsv_end (st_set s') = g + 1 -> table_inv (st_table s') (dom t) free ->
  id ∈ dom t -> map_Forall (λ id addr, val t0 id = addr) t -> val (st_table s') id = new ->
  (forall id', id_ok id' -> id' <> id -> val (st_table s') id' = val t0 id') ->
  heap_pages s' g rs m -> sealed sb = false -> num_writer sb < 2 ^ 31 - 1 ->
  heap_inv s' (<[id := new]> t) m (wb_buf_size b - allocated sb).
Proof.
  intros Hb He Ht Hid Hv Hn Ho Hm Hse Hnw. pose proof (sbuf_group _ _ _ _ _ Hb) as Hg.
  exists b, sb, rs, free. rewrite Hg. split_and!; try done.
  - rewrite dom_insert_L. by replace ({[id]} ∪ dom t) with (dom t) by set_solver.
  - intros id' a Ha. apply lookup_insert_Some in Ha as [[<- <-]|[Hne Ha]]; [done|].
    apply elem_of_dom_2 in Ha as Hin. destruct (ids_ok _ _ _ id' Ht (or_introl Hin)) as [Hok _].
    rewrite Ho by (done || congruence). by apply Hv.
Qed.

Lemma store_buf_current s g b sb rs :
  store_buf s g b sb rs -> bsv_end (st_set s) = g + 1 -> bsv_current (st_set s) = b.
Proof.
  intros [Hwf _ Hg Hid _] He. rewrite bsv_get_ok in Hg by done.
  destruct Hwf as (H0 & _ & Hlen & _). case_decide; [|done]. injection Hg as Hg.
  unfold bsv_snapshot in *. rewrite length_app in Hlen. simpl in Hlen.
  replace (Z.to_nat (g - bsv_start (st_set s))) with (length (bsv_sealed (st_set s))) in Hg by lia.
  rewrite list_lookup_middle in Hg by done. by injection Hg.
Qed.

Lemma heap_begin s b sb rs t free m :
  store_buf s (wb_group_id b) b sb rs -> bsv_end (st_set s) = wb_group_id b + 1 ->
  table_inv (st_table s) t free -> heap_pages s (wb_group_id b) rs m -> sealed sb = false ->
  txn_begin s = (Ok (mkPageTxn (wb_group_id b) false [] []), s) /\
  txn_heap s (mkPageTxn (wb_group_id b) false [] []) b sb rs t free m.
Proof.
  intros Hb He Ht Hm Hs.
  destruct (txn_begin_ok s _ b sb rs t free (store_buf_current _ _ _ _ _ Hb He) Hb Hs Ht)
    as (txn & Hbg & Hi & ->). split; [done|]. by constructor.
Qed.
