(* ===== verification/TreePage.v ===== *)
(** * Iterators over page chains ([tree/page.rs])

    The iterators the tree builds over the pages of a chain: [MergingPageIter]
    merges the pages and stops at the split key, [PageIter] shows the entries
    visible to a read LSN, [MergingLeafPageIter] and [MergingInnerPageIter] drop
    what consolidation drops. Their [next] methods are [for] loops whose body
    skips ([continue]) or returns; a body is a function on the loop state and
    [for_find] is the loop, with the number of items left as fuel. *)

From stdpp Require Import base numbers list sorting.
From Stdlib Require Import ZArith Lia.
From S2P Require Import Prelude Data Codec BasePage Iter SortedPage PageTable.

Definition ROOT_ID : Z := MIN_ID.
Definition ROOT_RANGE : Range := range_full.
Definition ROOT_INDEX : Index := mkIndex MIN_ID 0.
Definition NULL_INDEX : Index := mkIndex NAN_ID 0.

Record PageView := mkPageView {
  pv_id : Z;
  pv_addr : Z;
  pv_page : PageInfo;
  pv_range : option Range;
}.

(** ** [for] loops over an iterator *)

Section for_loop.
Context {I T S U : Type} `{Iterator I T} (step : S -> T -> S * option U).

(** [for x in &mut it { .. }] where the body ends in [continue] ([None]) or in
    [return Some(u)]; after the loop, [None]. *)
Fixpoint for_find (fuel : nat) (s : S) (it : I) : res (option U * (S * I)) :=
  match fuel with
  | O => Panic
  | Datatypes.S fuel =>
      '(r, it) ← next it;
      match r with
      | None => Ok (None, (s, it))
      | Some x =>
          match step s x with
          | (s, Some u) => Ok (Some u, (s, it))
          | (s, None) => for_find fuel s it
          end
      end
  end.

(** What all calls of [next] return over the items left. *)
Fixpoint run (s : S) (l : list T) : list U :=
  match l with
  | [] => []
  | x :: l =>
      match step s x with
      | (s, Some u) => u :: run s l
      | (s, None) => run s l
      end
  end.
End for_loop.

(** ** [MergingPageIter] *)

Record MergingPageIter (K V : Type) := mkMergingPageIter {
  mp_iter : MergingIter (SortedPageIter K V) (K * V);
  mp_range_limit : option (list Z);
}.
Arguments mkMergingPageIter {K V} _ _.
Arguments mp_iter {K V} _.
Arguments mp_range_limit {K V} _.

Section merging_page_iter.
Context {K V : Type} `{SortedPageKey K} `{Codec V}.

#[global] Instance mp_iterator : Iterator (MergingPageIter K V) (K * V) := λ m,
  '(r, it) ← next (mp_iter m);
  let m := mkMergingPageIter it (mp_range_limit m) in
  match r with
  | None => Ok (None, m)
  | Some (k, v) =>
      match mp_range_limit m with
      | Some limit => if decide (kle limit (as_raw k)) then Ok (None, m) else Ok (Some (k, v), m)
      | None => Ok (Some (k, v), m)
      end
  end.
#[global] Instance mp_rewind : RewindableIterator (MergingPageIter K V) (K * V) := λ m,
  it ← rewind (mp_iter m);
  Ok (mkMergingPageIter it (mp_range_limit m)).
#[global] Instance mp_seek : SeekableIterator (MergingPageIter K V) (K * V) K := λ q m,
  '(found, it) ← seek q (mp_iter m);
  Ok (found, mkMergingPageIter it (mp_range_limit m)).

(** A bound on the number of items left: every page has at most [len] items, one
    of which may be buffered. *)
Definition mp_bound (m : MergingPageIter K V) : nat :=
  Datatypes.S (list_sum ((λ o, Datatypes.S (sp_len (spi_page (oi_iter o)))) <$> heap (mp_iter m))).
End merging_page_iter.

(** ** [PageIter] *)

Record PageIter := mkPageIter {
  pgi_iter : MergingPageIter Key Value;
  pgi_read_lsn : Z;
  pgi_last_raw : option (list Z);
}.

Definition page_iter_new (it : MergingPageIter Key Value) (read_lsn : Z) : PageIter :=
  mkPageIter it read_lsn None.

(** The body of the loop of [PageIter::next]. *)
Definition page_iter_step (read_lsn : Z) (last_raw : option (list Z)) (kv : Key * Value) :
    option (list Z) * option (list Z * list Z) :=
  let '(k, v) := kv in
  if read_lsn <? lsn k then (last_raw, None)
  else if bool_decide (last_raw = Some (raw k)) then (last_raw, None)
  else
    let last_raw := Some (raw k) in
    match v with
    | Put value => (last_raw, Some (raw k, value))
    | Delete => (last_raw, None)
    end.

#[global] Instance page_iter_next : Iterator PageIter (list Z * list Z) := λ it,
  '(r, (last, mit)) ← for_find (page_iter_step (pgi_read_lsn it)) (mp_bound (pgi_iter it))
    (pgi_last_raw it) (pgi_iter it);
  Ok (r, mkPageIter mit (pgi_read_lsn it) last).

Definition page_iter_seek (target : list Z) (it : PageIter) : res PageIter :=
  '(_, mit) ← seek (mkKey target (pgi_read_lsn it)) (pgi_iter it);
  Ok (mkPageIter mit (pgi_read_lsn it) None).

(** ** [MergingLeafPageIter] *)

Record MergingLeafPageIter := mkMergingLeafPageIter {
  ml_iter : MergingPageIter Key Value;
  ml_safe_lsn : Z;
  ml_last_raw : option (list Z);
  ml_skip_same_raw : bool;
}.

Definition merging_leaf_new (it : MergingPageIter Key Value) (safe_lsn : Z) : MergingLeafPageIter :=
  mkMergingLeafPageIter it safe_lsn None false.

(** The body of the loop of [MergingLeafPageIter::next]; its state is
    [(last_raw, skip_same_raw)]. *)
Definition leaf_step (safe_lsn : Z) (st : option (list Z) * bool) (kv : Key * Value) :
    (option (list Z) * bool) * option (Key * Value) :=
  let '(last_raw, skip_same_raw) := st in
  let '(k, v) := kv in
  if bool_decide (last_raw = Some (raw k)) then
    if skip_same_raw then (st, None)
    else if safe_lsn <? lsn k then (st, Some (k, v))
    else
      match v with
      | Put _ => ((last_raw, true), Some (k, v))
      | Delete => ((last_raw, true), None)
      end
  else
    let st := (Some (raw k), lsn k <=? safe_lsn) in
    match v with
    | Delete => if lsn k <=? safe_lsn then (st, None) else (st, Some (k, v))
    | _ => (st, Some (k, v))
    end.

#[global] Instance merging_leaf_next : Iterator MergingLeafPageIter (Key * Value) := λ it,
  '(r, ((last, skip), mit)) ← for_find (leaf_step (ml_safe_lsn it)) (mp_bound (ml_iter it))
    (ml_last_raw it, ml_skip_same_raw it) (ml_iter it);
  Ok (r, mkMergingLeafPageIter mit (ml_safe_lsn it) last skip).
#[global] Instance merging_leaf_rewind : RewindableIterator MergingLeafPageIter (Key * Value) := λ it,
  mit ← rewind (ml_iter it);
  Ok (mkMergingLeafPageIter mit (ml_safe_lsn it) None false).
#[global] Instance merging_leaf_seek : SeekableIterator MergingLeafPageIter (Key * Value) Key := λ q it,
  '(found, mit) ← seek q (ml_iter it);
  Ok (found, mkMergingLeafPageIter mit (ml_safe_lsn it) None false).

(** ** [MergingInnerPageIter] *)

Record MergingInnerPageIter := mkMergingInnerPageIter {
  mn_iter : MergingPageIter (list Z) Index;
  mn_last_raw : option (list Z);
}.

Definition merging_inner_new (it : MergingPageIter (list Z) Index) : MergingInnerPageIter :=
  mkMergingInnerPageIter it None.

(** The body of the loop of [MergingInnerPageIter::next]. *)
Definition inner_step (last_raw : option (list Z)) (kv : list Z * Index) :
    option (list Z) * option (list Z * Index) :=
  let '(start, index) := kv in
  if bool_decide (index = NULL_INDEX) then (last_raw, None)
  else if bool_decide (last_raw = Some start) then (last_raw, None)
  else (Some start, Some (start, index)).

#[global] Instance merging_inner_next : Iterator MergingInnerPageIter (list Z * Index) := λ it,
  '(r, (last, mit)) ← for_find inner_step (mp_bound (mn_iter it)) (mn_last_raw it) (mn_iter it);
  Ok (r, mkMergingInnerPageIter mit last).
#[global] Instance merging_inner_rewind : RewindableIterator MergingInnerPageIter (list Z * Index) := λ it,
  mit ← rewind (mn_iter it);
  Ok (mkMergingInnerPageIter mit None).
#[global] Instance merging_inner_seek :
    SeekableIterator MergingInnerPageIter (list Z * Index) (list Z) := λ q it,
  '(found, mit) ← seek q (mn_iter it);
  Ok (found, mkMergingInnerPageIter mit None).

(** ** Laws of the loops *)

Section for_laws.
Context {I T S U : Type} `{IterLaws I T} (step : S -> T -> S * option U).

Lemma for_find_ok fuel s it all l :
  denotes it all l -> (length l < fuel)%nat ->
  exists r s' it' l', for_find step fuel s it = Ok (r, (s', it')) /\
    denotes it' all l' /\ (length l' <= length l)%nat /\
    match r with
    | Some u => run step s l = u :: run step s' l'
    | None => run step s l = [] /\ l' = []
    end.
Proof.
  revert s it l; induction fuel as [|fuel IH]; intros s it l Hd Hf; [lia|]. cbn [for_find].
  destruct l as [|x l].
  - destruct (next_nil it all Hd) as (it' & -> & Hd'). simpl.
    by exists None, s, it', [].
  - destruct (next_cons it all x l Hd) as (it' & -> & Hd'). cbn [mbind res_bind run].
    destruct (step s x) as [s' [u|]] eqn:E; simpl in *.
    + exists (Some u), s', it', l. split_and!; [done..|lia|done].
    + destruct (IH s' it' l Hd') as (r & s'' & it'' & l' & Hff & Hd'' & Hl & Hr); [lia|].
      exists r, s'', it'', l'. split_and!; [done..|lia|done].
Qed.
End for_laws.

(** ** [MergingPageIter] meets the iterator contract *)

(** The raw part of a key is monotone. *)
Class RawKeyLaws (K : Type) `{SortedPageKey K} : Prop :=
  as_raw_mono : forall a b : K, kle a b -> kle (as_raw a) (as_raw b).

#[global] Instance bytes_raw_laws : RawKeyLaws (list Z).
Proof. by intros a b. Qed.
#[global] Instance key_raw_laws : RawKeyLaws Key.
Proof. exact key_le_raw. Qed.

Section merging_page_laws.
Context {K V : Type} `{OrdLaws K} `{!Codec K} `{!CodecLaws K} `{!PrefixCodec K}
  `{!Codec V} `{!CodecLaws V} `{!SortedPageKey K} `{!RawKeyLaws K}.
Local Abbreviation T := (K * V)%type.
Implicit Types (m : MergingPageIter K V) (all l : list T).

(** The items below the range limit. *)
Definition limited (limit : option (list Z)) l : list T :=
  match limit with
  | None => l
  | Some q => base.filter (λ x, klt (as_raw x.1) q) l
  end.

Definition mp_denotes m all l : Prop :=
  exists A L, mi_denotes (mp_iter m) A L /\ key_sorted A /\ key_sorted L /\
    all = limited (mp_range_limit m) A /\ l = limited (mp_range_limit m) L.

Lemma limited_cons limit (x : T) l :
  key_sorted (x :: l) ->
  limited limit (x :: l) =
    match limit with
    | None => x :: l
    | Some q => if decide (kle q (as_raw x.1)) then [] else x :: limited limit l
    end.
Proof.
  intros [Hx Hs]%key_sorted_cons. destruct limit as [q|]; [|done]. simpl.
  case_decide as Hq.
  - apply filter_none. constructor; [by rewrite not_klt|].
    eapply Forall_impl; [exact Hx|]. intros y Hy. rewrite not_klt.
    etrans; [exact Hq|]. by apply as_raw_mono.
  - rewrite filter_cons_True; [done|]. by apply not_kle.
Qed.

Lemma length_limited limit l : (length (limited limit l) <= length l)%nat.
Proof. destruct limit; simpl; [apply length_filter|done]. Qed.

Lemma mp_next_nil m all : mp_denotes m all [] ->
  exists m', next m = Ok (None, m') /\ mp_denotes m' all [].
Proof.
  destruct m as [it lim]. intros (A & L & Hd & HA & HL & -> & Hl); simpl in *.
  unfold next, mp_iterator; simpl. destruct L as [|x L].
  - destruct (mi_next_nil it A Hd) as (it' & Hn & Hd'). rewrite Hn. simpl.
    eexists. split; [done|]. by exists A, [].
  - destruct (mi_next_cons it A x L Hd) as (it' & Hn & Hd'). rewrite Hn. destruct x as [k v].
    cbn [mbind res_bind mp_range_limit]. rewrite limited_cons in Hl by done. destruct lim as [q|]; [|done].
    case_decide as Hq; [|done]. rewrite decide_True by done.
    eexists. split; [done|]. exists A, L. pose proof HL as [Hx HL']%key_sorted_cons.
    split_and!; [done..|]. simpl. rewrite filter_none; [done|].
    eapply Forall_impl; [exact Hx|]. intros y Hy. rewrite not_klt.
    etrans; [exact Hq|]. by apply as_raw_mono.
Qed.

Lemma mp_next_cons m all x l : mp_denotes m all (x :: l) ->
  exists m', next m = Ok (Some x, m') /\ mp_denotes m' all l.
Proof.
  destruct m as [it lim]. intros (A & L & Hd & HA & HL & -> & Hl); simpl in *.
  unfold next, mp_iterator; simpl. destruct L as [|y L]; [by destruct lim|].
  destruct (mi_next_cons it A y L Hd) as (it' & Hn & Hd'). rewrite Hn. destruct y as [k v].
  cbn [mbind res_bind mp_range_limit]. rewrite limited_cons in Hl by done. pose proof HL as [_ HL']%key_sorted_cons.
  destruct lim as [q|].
  - cbn [fst] in Hl. case_decide as Hq; [done|]. simplify_eq.
    eexists. split; [done|]. by exists A, L.
  - simplify_eq. eexists. split; [done|]. by exists A, L.
Qed.

Lemma mp_rewind_all m all l : mp_denotes m all l ->
  exists m', rewind m = Ok m' /\ mp_denotes m' all all.
Proof.
  destruct m as [it lim]. intros (A & L & Hd & HA & HL & -> & Hl); simpl in *.
  destruct (mi_rewind it A L Hd) as (it' & Hr & Hd').
  unfold rewind, mp_rewind; simpl. rewrite Hr. simpl. eexists. split; [done|].
  by exists A, A.
Qed.

#[global] Instance mp_laws : IterLaws (MergingPageIter K V) T := {|
  denotes := mp_denotes;
  next_nil := mp_next_nil;
  next_cons := mp_next_cons;
  rewind_all := mp_rewind_all;
|}.

(** The fuel of the loops is enough. *)
Lemma mp_bound_ok m all l : mp_denotes m all l -> (length l < mp_bound m)%nat.
Proof.
  destruct m as [[h] lim]. intros (A & L & (ps & Hd & _ & _ & HL) & _ & _ & _ & ->).
  unfold mp_bound. simpl in *. apply Nat.lt_succ_r. etrans; [apply length_limited|].
  rewrite HL, length_kmerge. clear -Hd. induction Hd as [|o p h ps Ho _ IH]; csimpl; [done|].
  rewrite length_app, <- Nat.add_succ_l. apply Nat.add_le_mono; [|exact IH].
  unfold oi_denotes in Ho.
  assert (forall l', denotes (oi_iter o) p.1 l' -> (length l' <= sp_len (spi_page (oi_iter o)))%nat) as Hb.
  { intros l' [Hr ->]. rewrite (sp_len_repr _ _ Hr), length_drop. lia. }
  destruct (oi_next o) as [x|].
  - destruct Ho as (l' & -> & Hd'). simpl. apply Hb in Hd'. lia.
  - destruct Ho as (-> & _). simpl. lia.
Qed.

(** The iterator over the pages of a chain, newest first, with the split key. *)
Lemma mp_new_denotes its (alls : list (list T)) limit :
  Forall2 (λ it a, spi_denotes it a a) its alls -> Forall key_sorted alls ->
  exists mit, merging_build its = Ok mit /\
    mp_denotes (mkMergingPageIter mit limit) (limited limit (kmerge alls))
      (limited limit (kmerge alls)).
Proof.
  intros Hd Hs. destruct (@merging_build_denotes _ K V _ _ _ spi_laws its alls Hd) as (mit & Hm & Hdm).
  exists mit. split; [done|]. exists (kmerge alls), (kmerge alls).
  by split_and!; try apply kmerge_sorted.
Qed.

(** A loop over a merging page iterator. *)
Lemma mp_for_find {S U} (step : S -> T -> S * option U) s m all l :
  mp_denotes m all l ->
  exists r s' m' l', for_find step (mp_bound m) s m = Ok (r, (s', m')) /\
    mp_denotes m' all l' /\
    match r with
    | Some u => run step s l = u :: run step s' l'
    | None => run step s l = [] /\ l' = []
    end.
Proof.
  intros Hd.
  destruct (@for_find_ok _ _ S U _ _ mp_laws step (mp_bound m) s m all l Hd (mp_bound_ok m all l Hd))
    as (r & s' & m' & l' & H1 & H2 & _ & H3).
  by exists r, s', m', l'.
Qed.
End merging_page_laws.

(** ** The leaf and inner iterators meet the contract *)

Definition ml_denotes (it : MergingLeafPageIter) (all l : list (Key * Value)) : Prop :=
  exists A L, mp_denotes (ml_iter it) A L /\
    all = run (leaf_step (ml_safe_lsn it)) (None, false) A /\
    l = run (leaf_step (ml_safe_lsn it)) (ml_last_raw it, ml_skip_same_raw it) L.

#[global] Program Instance ml_laws : IterLaws MergingLeafPageIter (Key * Value) := {|
  denotes := ml_denotes;
|}.
Next Obligation.
  intros [mit safe last skip] all (A & L & Hd & -> & Hl); simpl in *.
  destruct (mp_for_find (leaf_step safe) (last, skip) mit A L Hd)
    as (r & [last' skip'] & m' & L' & Hf & Hd' & Hr).
  unfold next, merging_leaf_next;
    cbn [ml_iter ml_safe_lsn ml_last_raw ml_skip_same_raw]. rewrite Hf. simpl.
  destruct r as [u|]; [by rewrite Hr in Hl|]. destruct Hr as [_ ->].
  eexists. split; [done|]. by exists A, [].
Qed.
Next Obligation.
  intros [mit safe last skip] all x l (A & L & Hd & -> & Hl); simpl in *.
  destruct (mp_for_find (leaf_step safe) (last, skip) mit A L Hd)
    as (r & [last' skip'] & m' & L' & Hf & Hd' & Hr).
  unfold next, merging_leaf_next;
    cbn [ml_iter ml_safe_lsn ml_last_raw ml_skip_same_raw]. rewrite Hf. simpl.
  destruct r as [u|]; [|destruct Hr as [Hr _]; by rewrite Hr in Hl].
  rewrite Hr in Hl. simplify_eq. eexists. split; [done|]. by exists A, L'.
Qed.
Next Obligation.
  intros [mit safe last skip] all l (A & L & Hd & -> & Hl); simpl in *.
  destruct (mp_rewind_all mit A L Hd) as (m' & Hr & Hd').
  unfold rewind, merging_leaf_rewind; simpl. rewrite Hr. simpl.
  eexists. split; [done|]. by exists A, A.
Qed.

Definition mn_denotes (it : MergingInnerPageIter) (all l : list (list Z * Index)) : Prop :=
  exists A L, mp_denotes (mn_iter it) A L /\
    all = run inner_step None A /\ l = run inner_step (mn_last_raw it) L.

#[global] Program Instance mn_laws : IterLaws MergingInnerPageIter (list Z * Index) := {|
  denotes := mn_denotes;
|}.
Next Obligation.
  intros [mit last] all (A & L & Hd & -> & Hl); simpl in *.
  destruct (mp_for_find inner_step last mit A L Hd) as (r & last' & m' & L' & Hf & Hd' & Hr).
  unfold next, merging_inner_next; cbn [mn_iter mn_last_raw]. rewrite Hf. simpl.
  destruct r as [u|]; [by rewrite Hr in Hl|]. destruct Hr as [_ ->].
  eexists. split; [done|]. by exists A, [].
Qed.
Next Obligation.
  intros [mit last] all x l (A & L & Hd & -> & Hl); simpl in *.
  destruct (mp_for_find inner_step last mit A L Hd) as (r & last' & m' & L' & Hf & Hd' & Hr).
  unfold next, merging_inner_next; cbn [mn_iter mn_last_raw]. rewrite Hf. simpl.
  destruct r as [u|]; [|destruct Hr as [Hr _]; by rewrite Hr in Hl].
  rewrite Hr in Hl. simplify_eq. eexists. split; [done|]. by exists A, L'.
Qed.
Next Obligation.
  intros [mit last] all l (A & L & Hd & -> & Hl); simpl in *.
  destruct (mp_rewind_all mit A L Hd) as (m' & Hr & Hd').
  unfold rewind, merging_inner_rewind; simpl. rewrite Hr. simpl.
  eexists. split; [done|]. by exists A, A.
Qed.

(** ** What a reader sees *)

(** The newest version of a raw key a reader at an LSN sees, in items ordered by
    key: the first with this raw key and no newer than the LSN. *)
Fixpoint version_at (q : Key) (l : list (Key * Value)) : option Value :=
  match l with
  | [] => None
  | (k, v) :: l =>
      if decide (raw k = raw q /\ lsn k <= lsn q) then Some v else version_at q l
  end.

Definition value_at (q : Key) (l : list (Key * Value)) : option (list Z) :=
  match version_at q l with Some (Put v) => Some v | _ => None end.

Lemma version_at_none q l :
  Forall (λ x, raw x.1 <> raw q) l -> version_at q l = None.
Proof.
  induction 1 as [|[k v] l Hx _ IH]; [done|]. simpl. rewrite decide_False; [done|].
  by intros [? _].
Qed.

Lemma value_at_cons q k v l :
  value_at q ((k, v) :: l) =
    if decide (raw k = raw q /\ lsn k <= lsn q)
    then match v with Put v => Some v | Delete => None end
    else value_at q l.
Proof. unfold value_at. simpl. by case_decide. Qed.

Lemma value_at_none q l : Forall (λ x, raw x.1 <> raw q) l -> value_at q l = None.
Proof. intros Hf. unfold value_at. by rewrite version_at_none. Qed.

(** The raw keys of sorted items that follow an item. *)
Lemma sorted_raw_tail (x : Key * Value) l :
  key_sorted (x :: l) -> Forall (λ y, kle (raw x.1) (raw y.1)) l /\ key_sorted l.
Proof.
  intros [Hx Hs]%key_sorted_cons. split; [|done]. eapply Forall_impl; [exact Hx|].
  intros y. apply key_le_raw.
Qed.

Lemma sorted_raw_other (x : Key * Value) l q :
  key_sorted (x :: l) -> klt (raw q) (raw x.1) -> Forall (λ y, raw y.1 <> raw q) (x :: l).
Proof.
  intros [Hx _]%sorted_raw_tail Hlt. constructor.
  - intros E. rewrite E in Hlt. by apply klt_irrefl in Hlt.
  - eapply Forall_impl; [exact Hx|]. intros y Hy E. simpl in *. rewrite <- E in Hlt.
    apply (klt_irrefl (raw y.1)). by eapply klt_le_trans.
Qed.

Lemma bool_decide_some (a b : list Z) :
  bool_decide (Some a = Some b) = bool_decide (a = b).
Proof. apply bool_decide_ext. split; congruence. Qed.

(** The loop of [MergingLeafPageIter] keeps what readers at or after the safe LSN
    see, except for the raw key whose visible version it has passed. *)
Lemma leaf_run_value safe q last skip l :
  safe <= lsn q -> key_sorted l ->
  (forall r, last = Some r -> Forall (λ x, kle r (raw x.1)) l) ->
  value_at q (run (leaf_step safe) (last, skip) l) =
    if bool_decide (last = Some (raw q)) && skip then None else value_at q l.
Proof.
  intros Hq. revert last skip; induction l as [|[k v] l IH]; intros last skip Hs Hlast.
  { simpl. by destruct (_ && _). }
  apply sorted_raw_tail in Hs as Hs'. simpl in Hs'. destruct Hs' as [Hk Hs'].
  assert (Hlast' : forall r, Some (raw k) = Some r -> Forall (λ x, kle r (raw x.1)) l)
    by (by intros r [= <-]).
  cbn [run leaf_step]. case_bool_decide as El.
  - subst last. destruct skip.
    { rewrite IH by done. case_bool_decide as E; [done|]. simpl.
      rewrite value_at_cons, decide_False; [done|]. intros [? _]; congruence. }
    destruct (safe <? lsn k) eqn:Es; boolify.
    { rewrite !value_at_cons, IH, andb_false_r by done. by destruct (decide _). }
    assert (Hv : value_at q (run (leaf_step safe) (Some (raw k), true) l)
      = if bool_decide (raw k = raw q) then None else value_at q l).
    { by rewrite IH, bool_decide_some, andb_true_r by done. }
    rewrite andb_false_r. destruct v; rewrite !value_at_cons, ?Hv.
    + destruct (decide (raw k = raw q /\ lsn k <= lsn q)) as [E|E]; [done|]. rewrite bool_decide_false; [done|]. intros ?. apply E.
      split; [done|lia].
    + destruct (decide (raw k = raw q /\ lsn k <= lsn q)) as [E|E]; destruct (bool_decide (raw k = raw q)) eqn:E'; boolify; try done;
        exfalso; naive_solver lia.
  - assert (Hrun : value_at q (run (leaf_step safe) (Some (raw k), lsn k <=? safe) l)
      = if bool_decide (raw k = raw q) && (lsn k <=? safe) then None else value_at q l).
    { by rewrite IH, bool_decide_some by done. }
    assert (Hgone : last = Some (raw q) -> value_at q ((k, v) :: l) = None).
    { intros ->. apply value_at_none, sorted_raw_other; [done|]. simpl.
      specialize (Hlast _ eq_refl). apply Forall_inv in Hlast. simpl in Hlast.
      apply kle_cases in Hlast as [?|E]; [done|congruence]. }
    transitivity (value_at q ((k, v) :: l)).
    2: { destruct (bool_decide (last = Some (raw q))) eqn:E; [|done]. boolify.
         simpl. rewrite (Hgone E). by destruct skip. }
    destruct v as [v|]; [|destruct (lsn k <=? safe) eqn:Es; boolify];
      rewrite !value_at_cons, ?Hrun.
    + destruct (decide (raw k = raw q /\ lsn k <= lsn q)) as [E|E]; [done|]. destruct (lsn k <=? safe) eqn:Es; boolify;
        destruct (bool_decide (raw k = raw q)) eqn:E'; boolify; simpl; try done.
      exfalso. apply E. split; [done|lia].
    + rewrite andb_true_r. destruct (decide (raw k = raw q /\ lsn k <= lsn q)) as [E|E]; destruct (bool_decide (raw k = raw q)) eqn:E'; boolify; try done;
        exfalso; naive_solver lia.
    + destruct (decide (raw k = raw q /\ lsn k <= lsn q)) as [E|E]; [done|]. by rewrite andb_false_r.
Qed.

(** What consolidation keeps is a part of what it was given, in order. *)
Lemma leaf_run_sublist safe st l : run (leaf_step safe) st l `sublist_of` l.
Proof.
  revert st; induction l as [|[k v] l IH]; intros [last skip]; [done|]. cbn [run].
  destruct (leaf_step safe (last, skip) (k, v)) as [st' [u|]] eqn:E.
  - assert (u = (k, v)) as ->.
    { simpl in E. repeat (case_match; simplify_eq); done. }
    by constructor.
  - by constructor.
Qed.

(** ** What consolidation drops *)

(** Per raw key, only the oldest version kept is at or below the safe LSN, and it
    is not a delete. *)
Definition gc_done (safe : Z) (l : list (Key * Value)) : Prop :=
  StronglySorted (λ x y, raw x.1 = raw y.1 -> safe < lsn x.1) l /\
  Forall (λ x, lsn x.1 <= safe -> x.2 <> Delete) l.

Lemma gc_done_cons safe x l :
  gc_done safe l -> (lsn x.1 <= safe -> x.2 <> Delete) ->
  (lsn x.1 <= safe -> Forall (λ y, raw y.1 <> raw x.1) l) -> gc_done safe (x :: l).
Proof.
  intros [Hs Hd] Hx Hl. split; constructor; try done.
  destruct (decide (lsn x.1 <= safe)) as [Hle|Hgt].
  - eapply Forall_impl; [by apply Hl|]. naive_solver.
  - apply Forall_forall. intros; lia.
Qed.

Lemma leaf_run_skip safe r l :
  key_sorted l -> Forall (λ x, kle r (raw x.1)) l ->
  Forall (λ x, raw x.1 <> r) (run (leaf_step safe) (Some r, true) l).
Proof.
  induction l as [|x l IH]; intros Hs Hr; [constructor|].
  destruct (decide (raw x.1 = r)) as [<-|Hne].
  - destruct x as [k v]. cbn [run leaf_step]. rewrite bool_decide_true by done.
    apply sorted_raw_tail in Hs as [Hk Hs]. by apply IH.
  - assert (Hall : Forall (λ y, raw y.1 <> raw (mkKey r 0)) (x :: l)).
    { apply sorted_raw_other; [done|]. apply Forall_inv in Hr.
      apply kle_cases in Hr as [?|E]; [done|by destruct Hne]. }
    rewrite Forall_forall in Hall |- *. intros y Hy. apply Hall.
    eapply elem_of_submseteq; [exact Hy|]. apply sublist_submseteq, leaf_run_sublist.
Qed.

Lemma leaf_run_gc safe last skip l :
  key_sorted l -> gc_done safe (run (leaf_step safe) (last, skip) l).
Proof.
  revert last skip; induction l as [|[k v] l IH]; intros last skip Hs; [by repeat constructor|].
  apply sorted_raw_tail in Hs as [Hk Hs]. simpl in Hk.
  pose proof (leaf_run_skip safe (raw k) l Hs Hk) as Hskip.
  cbn [run leaf_step]. case_bool_decide as El.
  - subst last. destruct skip; [by apply IH|]. destruct (safe <? lsn k) eqn:Es; boolify.
    + apply gc_done_cons; [by apply IH|simpl; lia..].
    + destruct v; [|by apply IH]. by apply gc_done_cons; [apply IH|..].
  - destruct v; destruct (lsn k <=? safe) eqn:Es; boolify; try by apply IH.
    + by apply gc_done_cons; [apply IH|..].
    + apply gc_done_cons; [by apply IH|simpl; lia..].
    + apply gc_done_cons; [by apply IH|simpl; lia..].
Qed.

(** Keys below the range limit are not affected by it. *)
Lemma value_at_limited q limit l :
  (forall e, limit = Some e -> klt (raw q) e) -> value_at q (limited limit l) = value_at q l.
Proof.
  destruct limit as [e|]; [|done]. intros Hq. specialize (Hq e eq_refl). simpl.
  induction l as [|[k v] l IH]; [done|]. rewrite filter_cons. cbn [fst as_raw key_page_key].
  destruct (decide (klt (raw k) e)) as [Hk|Hk]; rewrite !value_at_cons, IH; [done|].
  rewrite decide_False; [done|]. intros [E _]. apply Hk. by rewrite E.
Qed.

Lemma limited_sorted {K V} `{OrdLaws K} `{!Codec K} `{!SortedPageKey K} limit (l : list (K * V)) :
  key_sorted l -> key_sorted (limited limit l).
Proof.
  destruct limit; [|done]. apply sorted_sublist, sublist_filter.
Qed.

(** [C21] Consolidating the leaf pages of a chain: the iterator over the merged
    pages, cut at the split key, terminates; what it yields is sorted, gives
    every reader at or after the safe LSN exactly the value it saw in the chain,
    for every key below the split key, and keeps, per raw key, at most one
    version at or below the safe LSN, which is not a delete. *)
Theorem leaf_consolidation_reads (its : list (SortedPageIter Key Value))
    (alls : list (list (Key * Value))) (limit : option (list Z)) (safe : Z) :
  Forall2 (λ it a, spi_denotes it a a) its alls -> Forall key_sorted alls ->
  exists mit out it',
    merging_build its = Ok mit /\
    drain (S (length (concat alls))) (merging_leaf_new (mkMergingPageIter mit limit) safe)
      = Ok (out, it') /\
    key_sorted out /\ gc_done safe out /\
    forall q, safe <= lsn q -> (forall e, limit = Some e -> klt (raw q) e) ->
      value_at q out = value_at q (kmerge alls).
Proof.
  intros Hd Hs. destruct (mp_new_denotes its alls limit Hd Hs) as (mit & Hm & Hdm).
  set (A := limited limit (kmerge alls)) in *.
  set (out := run (leaf_step safe) (None, false) A).
  assert (HA : key_sorted A) by (by apply limited_sorted, kmerge_sorted).
  assert (Hml : ml_denotes (merging_leaf_new (mkMergingPageIter mit limit) safe) out out)
    by (by exists A, A).
  destruct (@drain_denotes _ _ _ _ ml_laws (S (length (concat alls))) _ _ _ Hml) as (it' & Hdr & _).
  { rewrite <- length_kmerge. apply Nat.lt_succ_r.
    etrans; [apply sublist_length, leaf_run_sublist|]. apply length_limited. }
  exists mit, out, it'. split_and!; [done..| | |].
  - eapply sorted_sublist; [apply leaf_run_sublist|done].
  - by apply leaf_run_gc.
  - intros q Hq Hlim. unfold out. rewrite leaf_run_value by done. simpl.
    by apply value_at_limited.
Qed.

Definition page_iter_of (l : list (Key * Value)) : SortedPageIter Key Value :=
  spi_new (mkSortedPageRef [] (content_of l) (offsets_from (length l * 4) l)).

Lemma leaf_consolidation_reads_witness :
  let l1 := [(mkKey [1] 5, Delete)] in
  let l2 := [(mkKey [1] 3, Put [3]); (mkKey [1] 2, Put [2]); (mkKey [7] 1, Put [1])] in
  exists mit out it',
    merging_build [page_iter_of l1; page_iter_of l2] = Ok mit /\
    drain 5 (merging_leaf_new (mkMergingPageIter mit (Some [6])) 3) = Ok (out, it') /\
    key_sorted out /\ gc_done 3 out /\
    forall q, 3 <= lsn q -> (forall e, Some [6] = Some e -> klt (raw q) e) ->
      value_at q out = value_at q (kmerge [l1; l2]).
Proof.
  intros l1 l2.
  apply (leaf_consolidation_reads [page_iter_of l1; page_iter_of l2] [l1; l2] (Some [6]) 3).
  - by repeat constructor.
  - by repeat constructor.
Defined.

(** ** Inner pages *)

(** The index an inner page maps a start key to: the first that is not a
    placeholder. *)
Fixpoint index_at (s : list Z) (l : list (list Z * Index)) : option Index :=
  match l with
  | [] => None
  | (k, i) :: l => if decide (k = s /\ i <> NULL_INDEX) then Some i else index_at s l
  end.

Lemma index_at_none s l : Forall (λ x, klt s x.1) l -> index_at s l = None.
Proof.
  induction 1 as [|[k i] l Hx _ IH]; [done|]. simpl in *. rewrite decide_False; [done|].
  intros [-> _]. by apply klt_irrefl in Hx.
Qed.

Lemma inner_run_index s last l :
  key_sorted l -> (forall r, last = Some r -> Forall (λ x, kle r x.1) l) ->
  index_at s (run inner_step last l) =
    if bool_decide (last = Some s) then None else index_at s l.
Proof.
  revert last; induction l as [|[k i] l IH]; intros last Hs Hlast; [by destruct (bool_decide _)|].
  pose proof Hs as [Hk Hs']%key_sorted_cons. simpl in Hk.
  assert (Hl' : forall r, last = Some r -> Forall (λ x, kle r x.1) l)
    by (intros r Hr; apply Hlast in Hr; by apply Forall_inv_tail in Hr).
  cbn [run inner_step index_at]. destruct (decide (i = NULL_INDEX)) as [Hi|Hi].
  { rewrite bool_decide_true by done. rewrite IH by done.
    rewrite (decide_False (P := k = s /\ i <> NULL_INDEX)) by naive_solver. done. }
  rewrite (bool_decide_false (i = NULL_INDEX)) by done.
  destruct (decide (last = Some k)) as [->|Hl].
  { rewrite bool_decide_true by done. rewrite IH by done. rewrite bool_decide_some.
    destruct (decide (k = s)) as [->|Hks]; [by rewrite bool_decide_true|].
    rewrite bool_decide_false by done. by rewrite decide_False by naive_solver. }
  rewrite (bool_decide_false (last = Some k)) by done. cbn [index_at].
  rewrite IH by (try done; by intros r [= <-]). rewrite bool_decide_some.
  destruct (decide (k = s)) as [->|Hks].
  - rewrite !decide_True by done. by rewrite (bool_decide_false (last = Some s)) by done.
  - rewrite !(decide_False (P := k = s /\ i <> NULL_INDEX)) by naive_solver.
    rewrite (bool_decide_false (k = s)) by done.
    destruct (bool_decide (last = Some s)) eqn:E; [|done]. boolify. subst last.
    specialize (Hlast s eq_refl). apply index_at_none. apply Forall_inv in Hlast as Hsk.
    simpl in Hsk. apply kle_cases in Hsk as [Hsk|]; [|congruence].
    eapply Forall_impl; [exact Hk|]. intros x Hx. by eapply klt_le_trans.
Qed.

Lemma inner_run_strict last l :
  key_sorted l -> (forall r, last = Some r -> Forall (λ x, kle r x.1) l) ->
  key_strict (run inner_step last l) /\
  Forall (λ x, x.2 <> NULL_INDEX /\ forall r, last = Some r -> klt r x.1) (run inner_step last l).
Proof.
  revert last; induction l as [|[k i] l IH]; intros last Hs Hlast; [by repeat constructor|].
  pose proof Hs as [Hk Hs']%key_sorted_cons. simpl in Hk.
  assert (Hl' : forall r, last = Some r -> Forall (λ x, kle r x.1) l)
    by (intros r Hr; apply Hlast in Hr; by apply Forall_inv_tail in Hr).
  cbn [run inner_step]. case_bool_decide as Hi; [by apply IH|].
  case_bool_decide as Hl; [by apply IH|].
  destruct (IH (Some k) Hs') as [Hstr Hall]; [by intros r [= <-]|].
  assert (Hr : forall r, last = Some r -> klt r k).
  { intros r Hr. apply Hlast in Hr as Hle. apply Forall_inv in Hle. simpl in Hle.
    apply kle_cases in Hle as [?|]; [done|congruence]. }
  split; constructor; try done.
  - eapply Forall_impl; [exact Hall|]. intros x [_ Hx]. by apply Hx.
  - eapply Forall_impl; [exact Hall|]. intros x [Hn Hx]. split; [done|].
    intros r Hr'. etrans; [by apply Hr|by apply Hx].
Qed.

Lemma length_inner_run last l : (length (run inner_step last l) <= length l)%nat.
Proof.
  revert last; induction l as [|[k i] l IH]; intros last; [done|]. cbn [run].
  destruct (inner_step last (k, i)) as [last' [u|]]; simpl; [apply le_n_S, IH|].
  etrans; [apply IH|lia].
Qed.

Lemma index_at_limited s limit l :
  (forall e, limit = Some e -> klt s e) -> index_at s (limited limit l) = index_at s l.
Proof.
  destruct limit as [e|]; [|done]. intros Hq. specialize (Hq e eq_refl). simpl.
  induction l as [|[k v] l IH]; [done|]. rewrite filter_cons. cbn [fst as_raw bytes_page_key].
  destruct (decide (klt k e)) as [Hk|Hk]; cbn [index_at]; rewrite IH; [done|].
  rewrite decide_False; [done|]. intros [E _]. apply Hk. by rewrite E.
Qed.

(** The index of a start key depends only on the items with this key, in order. *)
Lemma index_at_with_key s l : index_at s l = index_at s (with_key s l).
Proof.
  induction l as [|[k i] l IH]; [done|]. rewrite with_key_cons. cbn [index_at fst].
  destruct (decide (cmp k s = Eq)) as [E|E]; cbn [app index_at]; rewrite <- IH; [done|].
  rewrite decide_False; [done|]. intros [-> _]. apply E, cmp_refl.
Qed.

Lemma index_at_kmerge s ls : Forall key_sorted ls -> index_at s (kmerge ls) = index_at s (concat ls).
Proof. intros Hs. by rewrite index_at_with_key, kmerge_with_key, <- index_at_with_key. Qed.

(** Consolidating the inner pages of a chain: the iterator terminates; what
    it yields has strictly ascending start keys and no placeholder, and maps
    every start key below the split key to the index of the newest page of the
    chain that maps it to one. *)
Theorem inner_consolidation_index (its : list (SortedPageIter (list Z) Index))
    (alls : list (list (list Z * Index))) (limit : option (list Z)) :
  Forall2 (λ it a, spi_denotes it a a) its alls -> Forall key_sorted alls ->
  exists mit out it',
    merging_build its = Ok mit /\
    drain (S (length (concat alls))) (merging_inner_new (mkMergingPageIter mit limit))
      = Ok (out, it') /\
    key_strict out /\ Forall (λ x, x.2 <> NULL_INDEX) out /\
    forall s, (forall e, limit = Some e -> klt s e) ->
      index_at s out = index_at s (concat alls).
Proof.
  intros Hd Hs. destruct (mp_new_denotes its alls limit Hd Hs) as (mit & Hm & Hdm).
  set (A := limited limit (kmerge alls)) in *.
  set (out := run inner_step None A).
  assert (HA : key_sorted A) by (by apply limited_sorted, kmerge_sorted).
  assert (Hmn : mn_denotes (merging_inner_new (mkMergingPageIter mit limit)) out out)
    by (by exists A, A).
  destruct (@drain_denotes _ _ _ _ mn_laws (S (length (concat alls))) _ _ _ Hmn) as (it' & Hdr & _).
  { rewrite <- length_kmerge. apply Nat.lt_succ_r.
    etrans; [apply length_inner_run|]. apply length_limited. }
  destruct (inner_run_strict None A HA) as [Hstr Hall]; [done|].
  exists mit, out, it'. split_and!; [done..| |].
  - eapply Forall_impl; [exact Hall|]. by intros x [? _].
  - intros s Hlim. unfold out. rewrite inner_run_index by done. simpl.
    unfold A. rewrite index_at_limited by done. by apply index_at_kmerge.
Qed.

Lemma inner_consolidation_index_witness :
  let l1 := [([2], mkIndex 4 1); ([4], mkIndex 9 0); ([6], NULL_INDEX)] in
  let l2 := [([], mkIndex 3 0); ([2], mkIndex 4 0); ([6], mkIndex 5 0)] in
  let it l := spi_new (mkSortedPageRef [] (content_of l) (offsets_from (length l * 4) l)) in
  exists mit out it',
    merging_build [it l1; it l2] = Ok mit /\
    drain 7 (merging_inner_new (mkMergingPageIter mit None)) = Ok (out, it') /\
    key_strict out /\ Forall (λ x, x.2 <> NULL_INDEX) out /\
    forall s, (forall e, None = Some e -> klt s e) ->
      index_at s out = index_at s (concat [l1; l2]).
Proof.
  intros l1 l2 it. apply (inner_consolidation_index [it l1; it l2] [l1; l2] None).
  - by repeat constructor.
  - by repeat constructor.
Defined.

(** ** Reading a page at an LSN *)

Definition pgi_denotes (it : PageIter) (l : list (list Z * list Z)) : Prop :=
  exists A L, mp_denotes (pgi_iter it) A L /\
    l = run (page_iter_step (pgi_read_lsn it)) (pgi_last_raw it) L.

Lemma page_iter_next_ok it l : pgi_denotes it l ->
  exists it', next it = Ok (head l, it') /\ pgi_denotes it' (tail l).
Proof.
  destruct it as [mit rl last]. intros (A & L & Hd & ->); simpl in *.
  destruct (mp_for_find (page_iter_step rl) last mit A L Hd) as (r & last' & m' & L' & Hf & Hd' & Hr).
  unfold next, page_iter_next; cbn [pgi_iter pgi_read_lsn pgi_last_raw]. rewrite Hf. simpl.
  exists (mkPageIter m' rl last'). destruct r as [u|]; [|destruct Hr as [Hr ->]];
    rewrite Hr; (split; [done|]).
  - by exists A, L'.
  - by exists A, [].
Qed.

Lemma page_iter_drain fuel it l : pgi_denotes it l -> (length l < fuel)%nat ->
  exists it', drain fuel it = Ok (l, it') /\ pgi_denotes it' [].
Proof.
  revert it l; induction fuel as [|fuel IH]; intros it l Hd Hf; [lia|]. cbn [drain].
  destruct (page_iter_next_ok it l Hd) as (it' & -> & Hd'). simpl.
  destruct l as [|x l]; simpl in *; [by exists it'|].
  destruct (IH it' l Hd') as (it'' & -> & ?); [lia|]. by exists it''.
Qed.

(** The keys shown are strictly ascending and past the last one shown. *)
Lemma page_run_strict rl last l :
  key_sorted l -> (forall r, last = Some r -> Forall (λ x, kle r (raw x.1)) l) ->
  key_strict (run (page_iter_step rl) last l) /\
  Forall (λ x, forall r, last = Some r -> klt r x.1) (run (page_iter_step rl) last l).
Proof.
  revert last; induction l as [|[k v] l IH]; intros last Hs Hlast; [by repeat constructor|].
  apply sorted_raw_tail in Hs as [Hk Hs]. simpl in Hk.
  assert (Hl' : forall r, last = Some r -> Forall (λ x, kle r (raw x.1)) l)
    by (intros r Hr; apply Hlast in Hr; by apply Forall_inv_tail in Hr).
  cbn [run page_iter_step]. destruct (rl <? lsn k); [by apply IH|].
  case_bool_decide as Hl; [by apply IH|].
  destruct (IH (Some (raw k)) Hs) as [Hstr Hall]; [by intros r [= <-]|].
  assert (Hr : forall r, last = Some r -> klt r (raw k)).
  { intros r Hr. apply Hlast in Hr as Hle. apply Forall_inv in Hle. simpl in Hle.
    apply kle_cases in Hle as [?|]; [done|congruence]. }
  assert (Hall' : Forall (λ x, forall r, last = Some r -> klt r x.1)
    (run (page_iter_step rl) (Some (raw k)) l)).
  { eapply Forall_impl; [exact Hall|]. intros x Hx r Hr'. etrans; [by apply Hr|by apply Hx]. }
  destruct v; [|done]. split; constructor; try done.
  eapply Forall_impl; [exact Hall|]. intros x Hx. by apply Hx.
Qed.

Lemma page_run_elem rl last l r v :
  key_sorted l -> (forall r, last = Some r -> Forall (λ x, kle r (raw x.1)) l) ->
  (r, v) ∈ run (page_iter_step rl) last l <->
  last <> Some r /\ value_at (mkKey r rl) l = Some v.
Proof.
  revert last; induction l as [|[k v'] l IH]; intros last Hs Hlast.
  { cbn. rewrite elem_of_nil. naive_solver. }
  pose proof Hs as Hs0. apply sorted_raw_tail in Hs as [Hk Hs]. simpl in Hk.
  assert (Hl' : forall r, last = Some r -> Forall (λ x, kle r (raw x.1)) l)
    by (intros r' Hr; apply Hlast in Hr; by apply Forall_inv_tail in Hr).
  cbn [run page_iter_step]. rewrite value_at_cons. cbn [raw lsn].
  destruct (rl <? lsn k) eqn:Ev; boolify.
  { rewrite IH by done. rewrite decide_False by lia. done. }
  destruct (decide (last = Some (raw k))) as [->|Hl].
  { rewrite bool_decide_true by done. rewrite IH by done.
    destruct (decide (raw k = r)) as [->|Hne]; [naive_solver|].
    rewrite decide_False by naive_solver. done. }
  rewrite bool_decide_false by done.
  assert (IH' : (r, v) ∈ run (page_iter_step rl) (Some (raw k)) l <->
    raw k <> r /\ value_at (mkKey r rl) l = Some v).
  { rewrite IH by (try done; by intros r' [= <-]). naive_solver. }
  assert (Hlr : raw k <> r -> last = Some r -> value_at (mkKey r rl) l = None).
  { intros Hne ->. apply value_at_none. specialize (Hlast r eq_refl). apply Forall_inv in Hlast.
    apply (Forall_inv_tail (a := (k, v'))). apply sorted_raw_other; [done|]. simpl in *.
    apply kle_cases in Hlast as [?|]; [done|congruence]. }
  destruct (decide (raw k = r)) as [Hr|Hne].
  - rewrite decide_True by done. destruct v' as [w|]; [rewrite elem_of_cons|]; rewrite IH'.
    + split; [intros [[= _ ->]|[? _]]; [split; [congruence|done]|done]|].
      intros [_ [= ->]]. left. by rewrite Hr.
    + naive_solver.
  - rewrite decide_False by naive_solver.
    assert (Heq : raw k <> r /\ value_at (mkKey r rl) l = Some v <->
      last <> Some r /\ value_at (mkKey r rl) l = Some v).
    { split; [|naive_solver]. intros [_ Hv]. split; [|done]. intros Hlast'.
      rewrite Hlr in Hv by done. done. }
    destruct v' as [w|]; [rewrite elem_of_cons|]; rewrite IH'; [|done].
    split; [intros [[= ? ?]|?]; [congruence|by apply Heq]|]. intros ?. right. by apply Heq.
Qed.

Lemma length_page_run rl last l : (length (run (page_iter_step rl) last l) <= length l)%nat.
Proof.
  revert last; induction l as [|[k i] l IH]; intros last; [done|]. cbn [run].
  destruct (page_iter_step rl last (k, i)) as [last' [u|]]; simpl; [apply le_n_S, IH|].
  etrans; [apply IH|lia].
Qed.

(** Iterating over the entries of a page at a read LSN: the iterator
    terminates and yields, in strictly ascending key order, exactly the pairs of
    a key below the split key and the value a point read at that LSN finds:
    deleted keys and versions newer than the LSN do not show. *)
Theorem page_iter_entries (its : list (SortedPageIter Key Value))
    (alls : list (list (Key * Value))) (limit : option (list Z)) (read_lsn : Z) :
  Forall2 (λ it a, spi_denotes it a a) its alls -> Forall key_sorted alls ->
  exists mit out it',
    merging_build its = Ok mit /\
    drain (S (length (concat alls))) (page_iter_new (mkMergingPageIter mit limit) read_lsn)
      = Ok (out, it') /\
    key_strict out /\
    forall r v, (r, v) ∈ out <->
      value_at (mkKey r read_lsn) (limited limit (kmerge alls)) = Some v.
Proof.
  intros Hd Hs. destruct (mp_new_denotes its alls limit Hd Hs) as (mit & Hm & Hdm).
  set (A := limited limit (kmerge alls)) in *.
  set (out := run (page_iter_step read_lsn) None A).
  assert (HA : key_sorted A) by (by apply limited_sorted, kmerge_sorted).
  destruct (page_iter_drain (S (length (concat alls)))
    (page_iter_new (mkMergingPageIter mit limit) read_lsn) out) as (it' & Hdr & _).
  { by exists A, A. }
  { rewrite <- length_kmerge. apply Nat.lt_succ_r.
    etrans; [apply length_page_run|]. apply length_limited. }
  exists mit, out, it'. split_and!; [done..| |].
  - by apply page_run_strict.
  - intros r v. unfold out. rewrite page_run_elem by done. naive_solver.
Qed.

Lemma page_iter_entries_witness :
  let l1 := [(mkKey [1] 5, Delete); (mkKey [2] 4, Put [4])] in
  let l2 := [(mkKey [1] 3, Put [3]); (mkKey [1] 2, Put [2]); (mkKey [7] 1, Put [1])] in
  exists mit out it',
    merging_build [page_iter_of l1; page_iter_of l2] = Ok mit /\
    drain 6 (page_iter_new (mkMergingPageIter mit None) 4) = Ok (out, it') /\
    key_strict out /\
    forall r v, (r, v) ∈ out <-> value_at (mkKey r 4) (limited None (kmerge [l1; l2])) = Some v.
Proof.
  intros l1 l2.
  apply (page_iter_entries [page_iter_of l1; page_iter_of l2] [l1; l2] None 4).
  - by repeat constructor.
  - by repeat constructor.
Defined.
