(* ===== verification/Tree.v ===== *)
(** * The tree ([tree/mod.rs])

    The Bw-tree over the page store: a logical page is a chain of pages, newest
    first; a write prepends a delta page, a split prepends a split delta and bumps
    the page epoch, a consolidation replaces the chain. The operations run in the
    state monad over [Store]; [fuel] bounds the loops (chains, descents, retries)
    and [fresh_mem] is the memory of new write buffers. Statistics, logging and
    cache hints are left out. *)

From stdpp Require Import base numbers list sorting gmap.
From Stdlib Require Import ZArith Lia.
From S2P Require Import Prelude Data Codec BasePage Iter SortedPage PageTable WriteBuffer.
From S2P Require Import BufferSet PageTxn TreePage.

Record TreeOptions := mkTreeOptions { opt_page_size : nat; opt_page_chain_length : nat }.

(** [Tree::set_safe_lsn] as a thread: about to load the atomic, about to exchange
    the value it loaded, or returned. *)
Inductive SafeLsnCall :=
  | LsnLoad (lsn : Z)
  | LsnCas (lsn seen : Z)
  | LsnDone (lsn : Z).

(** One atomic access of the loop, and the value of the atomic after it. *)
Definition set_safe_lsn_step (safe_lsn : Z) (t : SafeLsnCall) : Z * SafeLsnCall :=
  match t with
  | LsnLoad lsn => (safe_lsn, if lsn <=? safe_lsn then LsnDone lsn else LsnCas lsn safe_lsn)
  | LsnCas lsn seen => if safe_lsn =? seen then (lsn, LsnDone lsn) else (safe_lsn, LsnLoad lsn)
  | LsnDone lsn => (safe_lsn, LsnDone lsn)
  end.

Definition sat_add_u8 (n : Z) : Z := Z.min 255 (n + 1).

(** [split_delta_from_page]. *)
Definition split_delta_from_page (page : list Z) : res (list Z * Index) :=
  r ← sp_new (K := list Z) (V := Index) page;
  item ← sp_get r 0;
  expect item.

(** What [collect_consolidation_info] returns. *)
Record ConsolidationInfo (K V : Type) := mkConsolidationInfo {
  ci_iter : MergingPageIter K V;
  ci_last_page : PageInfo;
  ci_page_addrs : list Z;
}.
Arguments mkConsolidationInfo {K V} _ _ _.
Arguments ci_iter {K V} _.
Arguments ci_last_page {K V} _.
Arguments ci_page_addrs {K V} _.

(** The state of the closure of [collect_consolidation_info]. *)
Record CollectState (K V : Type) := mkCollectState {
  cs_builder : MergingIterBuilder (SortedPageIter K V) (K * V);
  cs_page_size : nat;
  cs_last_page : PageInfo;
  cs_page_addrs : list Z;
  cs_range_limit : option (list Z);
}.
Arguments mkCollectState {K V} _ _ _ _ _.
Arguments cs_builder {K V} _.
Arguments cs_page_size {K V} _.
Arguments cs_last_page {K V} _.
Arguments cs_page_addrs {K V} _.
Arguments cs_range_limit {K V} _.

Section tree.
Context (fresh_mem : Z -> list Z) (opts : TreeOptions) (fuel : nat).

Definition is_ok {A B} (r : A + B) : bool := match r with inl _ => true | inr _ => false end.

(** [should_split_page] and [should_consolidate_page]. *)
Definition should_split_page (page : PageInfo) : res bool :=
  tier ← info_tier page;
  let max_size := opt_page_size opts in
  let max_size := if is_inner tier then (max_size / 2)%nat else max_size in
  Ok (bool_decide (max_size < info_size page)%nat && (info_chain_next page =? 0)).
Definition should_consolidate_page (page : PageInfo) : res bool :=
  tier ← info_tier page;
  let max_chain_len := opt_page_chain_length opts in
  let max_chain_len := if is_inner tier then (max_chain_len / 2)%nat else max_chain_len in
  Ok (Nat.max max_chain_len 1 <? info_chain_len page).

(** ** Reading *)

Definition page_view (id : Z) (range : option Range) : St Store PageView :=
  addr ← guard_page_addr id;
  page ← guard_read_page_info addr;
  mret (mkPageView id addr page range).

(** [walk_page]: the closure returns its state and whether to stop. *)
Fixpoint walk_page {A} (n : nat) (f : A -> Z -> list Z -> res (A * bool)) (a : A) (addr : Z) :
    St Store A :=
  match n with
  | O => lift Panic
  | S n =>
      if addr =? 0 then mret a
      else
        page ← guard_read_page addr;
        '(a, stop) ← lift (f a addr page);
        if stop : bool then mret a else walk_page n f a (page_chain_next page)
  end.

(** The closure of [iter_page]. *)
Definition iter_page_step {K V} `{SortedPageKey K} `{Codec V}
    (a : MergingIterBuilder (SortedPageIter K V) (K * V) * option (list Z))
    (addr : Z) (page : list Z) :
    res ((MergingIterBuilder (SortedPageIter K V) (K * V) * option (list Z)) * bool) :=
  let '(builder, range_limit) := a in
  kind ← page_kind page;
  match kind with
  | DataPage =>
      r ← sp_new page;
      Ok ((merging_builder_add (spi_new r) builder, range_limit), false)
  | SplitPage =>
      match range_limit with
      | None => '(split_key, _) ← split_delta_from_page page; Ok ((builder, Some split_key), false)
      | Some _ => Ok ((builder, range_limit), false)
      end
  end.
Definition iter_page {K V} `{SortedPageKey K} `{Codec V} (view : PageView) :
    St Store (MergingPageIter K V) :=
  '(builder, range_limit) ← walk_page fuel iter_page_step (merging_builder_new, None) (pv_addr view);
  it ← lift (merging_builder_build builder);
  mret (mkMergingPageIter it range_limit).

(** The closure of [find_value]. *)
Definition find_value_step (key : Key) (value : option (list Z)) (addr : Z) (page : list Z) :
    res (option (list Z) * bool) :=
  kind ← page_kind page;
  if is_data kind then
    page ← sp_new (K := Key) (V := Value) page;
    r ← sp_rank page key;
    let index := match r with inl i => i | inr i => i end in
    item ← sp_get page index;
    match item with
    | Some (k, v) =>
        if bool_decide (raw k = raw key) then
          Ok (match v with Put v => Some v | Delete => value end, true)
        else Ok (value, false)
    | None => Ok (value, false)
    end
  else Ok (value, false).
Definition find_value (key : Key) (view : PageView) : St Store (option (list Z)) :=
  walk_page fuel (find_value_step key) None (pv_addr view).

(** The closure of [find_child]. *)
Definition find_child_step (key : list Z) (child : option (Index * Range)) (addr : Z) (page : list Z) :
    res (option (Index * Range) * bool) :=
  kind ← page_kind page;
  if is_data kind then
    page ← sp_new (K := list Z) (V := Index) page;
    r ← sp_rank page key;
    '(lft, rgt) ←
      match r with
      | inl i => l ← sp_get page i; r ← sp_get page (i + 1); Ok (l, r)
      | inr i =>
          l ← match i with O => Ok None | S i' => sp_get page i' end;
          r ← sp_get page i;
          Ok (l, r)
      end;
    match lft with
    | Some (start, index) =>
        if negb (bool_decide (index = NULL_INDEX)) then
          Ok (Some (index, mkRange start (fst <$> rgt)), true)
        else Ok (child, false)
    | None => Ok (child, false)
    end
  else Ok (child, false).
Definition find_child (key : list Z) (view : PageView) : St Store (option (Index * Range)) :=
  walk_page fuel (find_child_step key) None (pv_addr view).

(** ** Building pages *)

(** Builds a page from the iterator in the transaction: its address, its bytes and
    the transaction. *)
Definition build_page {I K V} `{Codec K} `{Codec V} `{RewindableIterator I (K * V)}
    (tier : PageTier) (kind : PageKind) (it : I) (txn : PageTxn) : St Store (Z * list Z * PageTxn) :=
  builder ← lift (spb_with_iter (K := K) (V := V) fuel it (spb_new tier kind));
  '(addr, buf, txn) ← on_err (txn_alloc_page fresh_mem (spb_size builder) txn) (txn_drop txn);
  page ← lift (spb_build (K := K) (V := V) fuel builder buf);
  mret (addr, page, txn).

(** [set_epoch], [set_chain_len] and [set_chain_next], and the bytes in place. *)
Definition link_page (epoch len next addr : Z) (page : list Z) (txn : PageTxn) : St Store (list Z) :=
  page ← lift (set_epoch epoch page);
  let page := set_chain_next next (set_chain_len len page) in
  _ ← txn_write_page addr page txn;
  mret page.

(** [txn.update_page(..).map_err(|_| Error::Again)?]. *)
Definition update_or_again (id old new : Z) (txn : PageTxn) : St Store unit :=
  r ← txn_update_page id old new txn;
  match r with
  | Updated => mret tt
  | UpdateRefused => lift (Err Again)
  | UpdateConflict txn _ => _ ← txn_drop txn; lift (Err Again)
  end.

(** ** Splitting *)

Section split.
Context {K V : Type} `{SortedPageKey K} `{Codec V}.

Definition split_root_impl (view : PageView) : St Store unit :=
  tier ← lift (info_tier (pv_page view));
  _ ← lift (rassert (pv_id view =? ROOT_ID));
  _ ← lift (rassert (info_epoch (pv_page view) =? 0));
  _ ← lift (rassert (info_chain_len (pv_page view) =? 1));
  page ← guard_read_page (pv_addr view);
  page ← lift (sp_new (K := K) (V := V) page);
  split ← lift (sp_into_split_iter (K := K) (V := V) page);
  match split with
  | None => mret tt
  | Some (split_key, left_iter, right_iter) =>
      txn ← txn_begin;
      '(left_addr, left_page, txn) ← build_page (I := SortedPageRangeIter K V) (K := K) (V := V) tier DataPage left_iter txn;
      _ ← txn_write_page left_addr left_page txn;
      '(left_id, txn) ← txn_insert_page left_addr txn;
      '(right_addr, right_page, txn) ← build_page (I := SortedPageRangeIter K V) (K := K) (V := V) tier DataPage right_iter txn;
      _ ← txn_write_page right_addr right_page txn;
      '(right_id, txn) ← txn_insert_page right_addr txn;
      let delta := [([], mkIndex left_id 0); (as_raw split_key, mkIndex right_id 0)] in
      '(new_addr, new_page, txn) ← build_page (I := SliceIter (list Z * Index)) (K := list Z) (V := Index) BasePage.Inner DataPage (slice_iter_new delta) txn;
      _ ← txn_write_page new_addr new_page txn;
      r ← attempt (txn_replace_page fresh_mem (pv_id view) (pv_addr view) new_addr [pv_addr view] txn);
      match r with
      | inl _ => mret tt
      | inr _ => lift (Err Again)
      end
  end.

Definition split_page_impl (view : PageView) : St Store unit :=
  if pv_id view =? ROOT_ID then split_root_impl view
  else
    tier ← lift (info_tier (pv_page view));
    page ← guard_read_page (pv_addr view);
    page ← lift (sp_new (K := K) (V := V) page);
    split ← lift (sp_into_split_iter (K := K) (V := V) page);
    match split with
    | None => mret tt
    | Some (split_key, _, right_iter) =>
        txn ← txn_begin;
        '(right_addr, right_page, txn) ← build_page (I := SortedPageRangeIter K V) (K := K) (V := V) tier DataPage right_iter txn;
        _ ← txn_write_page right_addr right_page txn;
        '(right_id, txn) ← txn_insert_page right_addr txn;
        let delta := (as_raw split_key, mkIndex right_id 0) in
        '(new_addr, new_page, txn) ← build_page (I := ItemIter (list Z * Index)) (K := list Z) (V := Index) tier SplitPage (item_iter_new delta) txn;
        _ ← link_page (info_epoch (pv_page view) + 1) (sat_add_u8 (info_chain_len (pv_page view)))
              (pv_addr view) new_addr new_page txn;
        update_or_again (pv_id view) (pv_addr view) new_addr txn
    end.
End split.

(** [split_page]: only base data pages can be split. *)
Definition split_page (view : PageView) : St Store unit :=
  kind ← lift (info_kind (pv_page view));
  if negb (is_data kind) || negb (info_chain_next (pv_page view) =? 0) then lift (Err InvalidArgument)
  else
    tier ← lift (info_tier (pv_page view));
    match tier with
    | Leaf => split_page_impl (K := Key) (V := Value) view
    | BasePage.Inner => split_page_impl (K := list Z) (V := Index) view
    end.

(** ** Consolidating *)

Section consolidate.
Context {K V : Type} `{SortedPageKey K} `{Codec V}.

(** The test for a partial consolidation: stop before a large base. *)
Definition stop_collecting (c : CollectState K V) (page : list Z) : res bool :=
  tier ← page_tier page;
  if is_leaf tier && (2 <=? merging_builder_len (cs_builder c))
     && bool_decide (cs_page_size c < page_size page / 2)%nat
     && bool_decide (cs_range_limit c = None)
  then b ← should_consolidate_page (page_info page); Ok (negb b)
  else Ok false.

Definition collect_step (c : CollectState K V) (addr : Z) (page : list Z) :
    res (CollectState K V * bool) :=
  kind ← page_kind page;
  match kind with
  | DataPage =>
      stop ← stop_collecting c page;
      if stop : bool then Ok (c, true)
      else
        r ← sp_new page;
        Ok (mkCollectState (merging_builder_add (spi_new r) (cs_builder c))
              (cs_page_size c + page_size page) (page_info page) (cs_page_addrs c ++ [addr])
              (cs_range_limit c), false)
  | SplitPage =>
      range_limit ←
        match cs_range_limit c with
        | None => '(split_key, _) ← split_delta_from_page page; Ok (Some split_key)
        | Some q => Ok (Some q)
        end;
      Ok (mkCollectState (cs_builder c) (cs_page_size c) (page_info page)
            (cs_page_addrs c ++ [addr]) range_limit, false)
  end.

Definition collect_consolidation_info (view : PageView) : St Store (ConsolidationInfo K V) :=
  c ← walk_page fuel collect_step (mkCollectState merging_builder_new 0 (pv_page view) [] None) (pv_addr view);
  it ← lift (merging_builder_build (cs_builder c));
  mret (mkConsolidationInfo (mkMergingPageIter it (cs_range_limit c)) (cs_last_page c) (cs_page_addrs c)).

Definition consolidate_page_impl {I} `{RewindableIterator I (K * V)}
    (f : MergingPageIter K V -> I) (view : PageView) : St Store PageView :=
  info ← collect_consolidation_info view;
  tier ← lift (info_tier (pv_page view));
  txn ← txn_begin;
  '(new_addr, new_page, txn) ← build_page (I := I) (K := K) (V := V) tier DataPage (f (ci_iter info)) txn;
  new_page ← link_page (info_epoch (pv_page view)) (info_chain_len (ci_last_page info))
    (info_chain_next (ci_last_page info)) new_addr new_page txn;
  r ← attempt (txn_replace_page fresh_mem (pv_id view) (pv_addr view) new_addr (ci_page_addrs info) txn);
  match r with
  | inl _ => mret (mkPageView (pv_id view) new_addr (page_info new_page) (pv_range view))
  | inr _ => lift (Err Again)
  end.
End consolidate.

Section with_safe_lsn.
(** The safe LSN the tree holds. *)
Context (safe_lsn : Z).

Definition consolidate_page (view : PageView) : St Store PageView :=
  tier ← lift (info_tier (pv_page view));
  match tier with
  | Leaf => consolidate_page_impl (λ it, merging_leaf_new it safe_lsn) view
  | BasePage.Inner => consolidate_page_impl merging_inner_new view
  end.

Definition consolidate_and_restructure_page (view : PageView) : St Store unit :=
  view ← consolidate_page view;
  b ← lift (should_split_page (pv_page view));
  if b : bool then _ ← attempt (split_page view); mret tt else mret tt.

(** ** Reconciling a split with the parent *)

(** The delta for the parent: the two halves, and a placeholder where the range of
    the split page ends. *)
Definition reconcile_delta (left_key : list Z) (range_end : option (list Z)) (left_index : Index)
    (split_key : list Z) (split_index : Index) : res (list (list Z * Index)) :=
  match range_end with
  | Some range_end =>
      _ ← rassert (bool_decide (klt split_key range_end));
      Ok [(left_key, left_index); (split_key, split_index); (range_end, NULL_INDEX)]
  | None => Ok [(left_key, left_index); (split_key, split_index)]
  end.

Definition reconcile_split_page (view parent : PageView) : St Store unit :=
  match pv_range view with
  | None => lift (Err InvalidArgument)
  | Some range =>
      let left_key := range_start range in
      let left_index := mkIndex (pv_id view) (info_epoch (pv_page view)) in
      page ← guard_read_page (pv_addr view);
      '(split_key, split_index) ← lift (split_delta_from_page page);
      delta ← lift (reconcile_delta left_key (range_end range) left_index split_key split_index);
      txn ← txn_begin;
      '(new_addr, new_page, txn) ← build_page (I := SliceIter (list Z * Index)) (K := list Z) (V := Index) BasePage.Inner DataPage (slice_iter_new delta) txn;
      new_page ← link_page (info_epoch (pv_page parent)) (sat_add_u8 (info_chain_len (pv_page parent)))
        (pv_addr parent) new_addr new_page txn;
      _ ← update_or_again (pv_id parent) (pv_addr parent) new_addr txn;
      let parent := mkPageView (pv_id parent) new_addr (page_info new_page) (pv_range parent) in
      b ← lift (should_consolidate_page (pv_page parent));
      if b : bool then _ ← attempt (consolidate_and_restructure_page parent); mret tt else mret tt
  end.

Definition reconcile_page (view : PageView) (parent : option PageView) : St Store unit :=
  kind ← lift (info_kind (pv_page view));
  match kind with
  | DataPage => mret tt
  | SplitPage =>
      match parent with
      | Some parent => reconcile_split_page view parent
      | None => lift (Err InvalidArgument)
      end
  end.

(** ** Finding a leaf *)

(** The loop of [try_find_leaf]. *)
Fixpoint find_leaf_loop (n : nat) (key : list Z) (index : Index) (range : Range)
    (parent : option PageView) : St Store (PageView * option PageView) :=
  match n with
  | O => lift Panic
  | S n =>
      view ← page_view (idx_id index) (Some range);
      if negb (info_epoch (pv_page view) =? idx_epoch index) then
        _ ← attempt (reconcile_page view parent);
        lift (Err Again)
      else
        tier ← lift (info_tier (pv_page view));
        if is_leaf tier then mret (view, parent)
        else
          child ← find_child key view;
          '(child_index, child_range) ← lift (expect child);
          let range := mkRange (range_start child_range)
            (match range_end child_range with Some e => Some e | None => range_end range end) in
          find_leaf_loop n key child_index range (Some view)
  end.
Definition try_find_leaf (key : list Z) : St Store (PageView * option PageView) :=
  find_leaf_loop fuel key ROOT_INDEX ROOT_RANGE None.

(** [find_leaf]: retries while the outcome is [Again]. *)
Fixpoint find_leaf_retry (n : nat) (key : list Z) : St Store (PageView * option PageView) :=
  match n with
  | O => lift Panic
  | S n =>
      r ← attempt (try_find_leaf key);
      match r with
      | inl x => mret x
      | inr Again => find_leaf_retry n key
      | inr e => lift (Err e)
      end
  end.
Definition find_leaf (key : list Z) : St Store (PageView * option PageView) :=
  find_leaf_retry fuel key.

(** ** The operations of [TreeTxn] *)

Definition tree_init : St Store unit :=
  addr ← guard_page_addr ROOT_ID;
  if negb (addr =? 0) then mret tt
  else
    txn ← txn_begin;
    '(new_addr, new_page, txn) ←
      build_page (I := ItemIter (Key * Value)) (K := Key) (V := Value) Leaf DataPage (item_iter_from (None : option (Key * Value))) txn;
    _ ← txn_write_page new_addr new_page txn;
    '(root_id, txn) ← txn_insert_page new_addr txn;
    _ ← lift (rassert (root_id =? ROOT_ID));
    txn_commit txn.

Definition tree_get (key : Key) : St Store (option (list Z)) :=
  '(view, _) ← find_leaf (raw key);
  find_value key view.

(** The update loop of [try_write]: relinks the delta while the page epoch stays. *)
Fixpoint write_loop (n : nat) (view : PageView) (new_addr : Z) (new_page : list Z) (txn : PageTxn) :
    St Store PageView :=
  match n with
  | O => lift Panic
  | S n =>
      new_page ← link_page (info_epoch (pv_page view)) (sat_add_u8 (info_chain_len (pv_page view)))
        (pv_addr view) new_addr new_page txn;
      r ← txn_update_page (pv_id view) (pv_addr view) new_addr txn;
      match r with
      | Updated => mret (mkPageView (pv_id view) new_addr (page_info new_page) (pv_range view))
      | UpdateRefused => lift (Err Again)
      | UpdateConflict txn addr =>
          if negb (pv_id view =? ROOT_ID) then
            page ← on_err (guard_read_page_info addr) (txn_drop txn);
            if info_epoch page =? info_epoch (pv_page view) then
              write_loop n (mkPageView (pv_id view) addr page (pv_range view)) new_addr new_page txn
            else _ ← txn_drop txn; lift (Err Again)
          else _ ← txn_drop txn; lift (Err Again)
      end
  end.

Definition try_write (key : Key) (value : Value) : St Store unit :=
  '(view, _) ← find_leaf (raw key);
  b ← lift (should_split_page (pv_page view));
  split ← (if b : bool then r ← attempt (split_page view); mret (is_ok r) else mret false);
  if split : bool then lift (Err Again)
  else
    txn ← txn_begin;
    '(new_addr, new_page, txn) ←
      build_page (I := ItemIter (Key * Value)) (K := Key) (V := Value) Leaf DataPage (item_iter_new (key, value)) txn;
    view ← write_loop fuel view new_addr new_page txn;
    b ← lift (should_consolidate_page (pv_page view));
    if b : bool then _ ← attempt (consolidate_and_restructure_page view); mret tt else mret tt.

(** [write]: retries while the outcome is [Again]. *)
Fixpoint tree_write (n : nat) (key : Key) (value : Value) : St Store unit :=
  match n with
  | O => lift Panic
  | S n =>
      r ← attempt (try_write key value);
      match r with
      | inl _ => mret tt
      | inr Again => tree_write n key value
      | inr e => lift (Err e)
      end
  end.

(** ** [TreeIter] *)

Record TreeIter := mkTreeIter {
  ti_max_lsn : Z;
  ti_inner_iter : option MergingInnerPageIter;
  ti_inner_next : option (list Z);
}.

Definition tree_iter_new (max_lsn : Z) : TreeIter := mkTreeIter max_lsn None (Some []).

Definition tree_iter_seek (target : list Z) (it : TreeIter) : St Store (PageIter * TreeIter) :=
  '(view, parent) ← find_leaf target;
  mit ← iter_page view;
  leaf_iter ← lift (page_iter_seek target (page_iter_new mit (ti_max_lsn it)));
  match parent with
  | Some parent =>
      mit ← iter_page parent;
      '(found, iter) ← lift (seek target (merging_inner_new mit));
      iter ← (if found : bool then '(_, iter) ← lift (next iter); mret iter else mret iter);
      range ← lift (expect (pv_range parent));
      mret (leaf_iter, mkTreeIter (ti_max_lsn it) (Some iter) (range_end range))
  | None => mret (leaf_iter, mkTreeIter (ti_max_lsn it) None None)
  end.

Definition tree_iter_next_page (it : TreeIter) : St Store (option PageIter * TreeIter) :=
  let inner_next := ti_inner_next it in
  let restart (inner_iter : option MergingInnerPageIter) (inner_next : option (list Z)) :=
    let it := mkTreeIter (ti_max_lsn it) inner_iter None in
    match inner_next with
    | Some next => '(page, it) ← tree_iter_seek next it; mret (Some page, it)
    | None => mret (None, mkTreeIter (ti_max_lsn it) None None)
    end in
  match ti_inner_iter it with
  | Some inner_iter =>
      '(r, inner_iter) ← lift (next inner_iter);
      match r with
      | Some (start, index) =>
          view ← page_view (idx_id index) None;
          if info_epoch (pv_page view) =? idx_epoch index then
            mit ← iter_page view;
            mret (Some (page_iter_new mit (ti_max_lsn it)),
                  mkTreeIter (ti_max_lsn it) (Some inner_iter) inner_next)
          else restart (Some inner_iter) (Some start)
      | None => restart (Some inner_iter) inner_next
      end
  | None => restart None inner_next
  end.
End with_safe_lsn.
End tree.
