(* ===== verification/TreeLaws.v ===== *)
(** * Reading the tree ([tree/mod.rs], theorems)

    What the read path of the tree returns on a chain of pages: [find_value] and
    [find_child] against list-level references, the effect of a reconciliation
    delta on the routing of keys, the safe LSN, and a run of the tree in which a
    partial consolidation loses a delete. *)

From stdpp Require Import base numbers list sorting gmap.
From Stdlib Require Import ZArith Lia.
From S2P Require Import Prelude Data Codec BasePage Iter SortedPage PageTable WriteBuffer.
From S2P Require Import BufferSet PageTxn TreePage Tree.

(** ** Chains of pages *)

(** The pages of the chain at an address, newest first. *)
Inductive chain (s : Store) : Z -> list (Z * list Z) -> Prop :=
  | chain_nil : chain s 0 []
  | chain_cons addr page l :
      addr <> 0 -> guard_read_page addr s = (Ok page, s) -> chain s (page_chain_next page) l ->
      chain s addr ((addr, page) :: l).

(** A page of a chain of [K], [V] pages: a data page with its items, or a split
    delta. *)
Inductive ChainPage (K V : Type) :=
  | CData (items : list (K * V))
  | CSplit (split_key : list Z) (right : Index).
Arguments CData {K V} _.
Arguments CSplit {K V} _ _.

Definition chain_page {K V} `{Ord K} `{Codec K} `{!CodecLaws K} `{Codec V} `{!CodecLaws V}
    (p : list Z) (x : ChainPage K V) : Prop :=
  exists h, header_ok h /\
    match x with
    | CData l => h_kind h = DataPage /\ p = page_of h (content_of l) /\ items_ok l /\ key_strict l
    | CSplit k i =>
        h_kind h = SplitPage /\ p = page_of h (content_of [(k, i)]) /\ items_ok [(k, i)]
    end.

Definition data_of {K V} (x : ChainPage K V) : option (list (K * V)) :=
  match x with CData l => Some l | CSplit _ _ => None end.

Section chains.
Context {K V : Type} `{OrdLaws K} `{!Codec K} `{!CodecLaws K} `{!PrefixCodec K}
  `{!Codec V} `{!CodecLaws V} `{!SortedPageKey K}.

(** The chain at an address holds the pages [xs]. *)
Definition chain_holds (s : Store) (addr : Z) (xs : list (ChainPage K V)) : Prop :=
  exists l, chain s addr l /\ Forall2 (λ ap x, chain_page ap.2 x) l xs.

(** Walking a chain applies the closure to its pages in turn. *)
Fixpoint walk_list {A} (f : A -> Z -> list Z -> res (A * bool)) (a : A) (l : list (Z * list Z)) : res A :=
  match l with
  | [] => Ok a
  | (addr, page) :: l =>
      '(a, stop) ← f a addr page;
      if stop : bool then Ok a else walk_list f a l
  end.

Lemma walk_page_chain {A} (f : A -> Z -> list Z -> res (A * bool)) n a addr s l :
  chain s addr l -> (length l < n)%nat -> walk_page n f a addr s = (walk_list f a l, s).
Proof.
  intros Hc. revert n a; induction Hc as [|addr page l Hne Hr _ IH]; intros n a Hn.
  - destruct n; [lia|]. done.
  - destruct n as [|n]; [lia|]. cbn [walk_page walk_list].
    rewrite (proj2 (Z.eqb_neq _ _) Hne). st_step Hr.
    destruct (f a addr page) as [[a' stop]|e|] eqn:E.
    + rewrite (st_bind_ok _ _ s (a', stop) s) by (unfold lift; done).
      cbn [mbind res_bind]. destruct stop; [done|]. apply IH. simpl in Hn. lia.
    + by rewrite (st_bind_err _ _ s e s) by (unfold lift; done).
    + unfold mbind, st_bind, lift. done.
Qed.

(** The data page of a chain, opened. *)
Lemma chain_page_open p (l : list (K * V)) :
  chain_page p (CData l) ->
  page_kind p = Ok DataPage /\ key_strict l /\
  exists r, sp_new (K := K) (V := V) p = Ok r /\ sp_repr r l.
Proof.
  intros (h & Hh & Hk & -> & Hok & Hs). split; [rewrite page_of_kind, Hk; done|].
  split; [done|]. destruct (sp_new_repr (page_of h (content_of l)) l) as (r & Hn & Hr & _);
    [apply page_of_content|done|]. by exists r.
Qed.

Lemma chain_page_split p k i :
  chain_page p (CSplit k i : ChainPage K V) -> page_kind p = Ok SplitPage.
Proof. intros (h & Hh & Hk & -> & _). by rewrite page_of_kind, Hk. Qed.
End chains.

(** ** Point reads *)

(** The first version a reader finds, page by page. *)
Fixpoint chain_version (q : Key) (xs : list (ChainPage Key Value)) : option Value :=
  match xs with
  | [] => None
  | CData l :: xs => match version_at q l with Some v => Some v | None => chain_version q xs end
  | CSplit _ _ :: xs => chain_version q xs
  end.

(** On a strictly sorted page, the item at the rank of the key is the version. *)
Lemma version_at_seek q l :
  key_strict l ->
  version_at q l =
    match seek_from q l with
    | (k, v) :: _ => if decide (raw k = raw q) then Some v else None
    | [] => None
    end.
Proof.
  intros Hs. induction l as [|[k v] l IH]; [done|].
  pose proof Hs as [Hs' Hk]%StronglySorted_inv. cbn [version_at].
  unfold seek_from. rewrite filter_cons. cbn [fst].
  destruct (decide (kle q k)) as [Hle|Hgt].
  - apply key_le_iff in Hle. destruct (decide (raw k = raw q)) as [E|E].
    + rewrite decide_True; [done|]. split; [done|]. destruct Hle as [Hlt|[_ ?]]; [|done].
      rewrite E in Hlt. by apply klt_irrefl in Hlt.
    + rewrite decide_False by naive_solver. apply version_at_none.
      destruct Hle as [Hlt|[? _]]; [|congruence].
      rewrite Forall_forall in Hk |- *. intros x Hx E'. specialize (Hk x Hx). simpl in Hk.
      apply klt_kle, key_le_raw in Hk. rewrite E' in Hk. apply (klt_irrefl (raw q)).
      by eapply klt_le_trans.
  - apply not_kle, key_lt_iff in Hgt. rewrite decide_False; [by apply IH|].
    intros [E ?]. destruct Hgt as [Hlt|[_ ?]]; [|lia]. rewrite E in Hlt. by apply klt_irrefl in Hlt.
Qed.

Lemma find_value_step_data q value addr p l :
  chain_page p (CData l) ->
  find_value_step q value addr p =
    Ok (match version_at q l with
        | Some (Put v) => (Some v, true)
        | Some Delete => (value, true)
        | None => (value, false)
        end).
Proof.
  intros Hp. destruct (chain_page_open p l Hp) as (Hk & Hs & r & Hn & Hr).
  unfold find_value_step. rewrite Hk. cbn [mbind res_bind is_data].
  change (is_data DataPage) with true. cbn match. rewrite Hn. cbn [mbind res_bind].
  destruct (sp_rank_ok r l q Hr (strict_sorted _ Hs)) as (res & Hrk & Hspec).
  destruct (rank_seek_from l q res Hs Hspec) as (_ & Hd & _). rewrite Hrk. cbn [mbind res_bind].
  set (i := match res with inl i => i | inr i => i end) in *.
  rewrite (sp_get_repr r l i Hr). cbn [mbind res_bind]. rewrite version_at_seek, <- Hd by done.
  destruct (l !! i) as [[k v]|] eqn:E.
  - rewrite (drop_S _ _ _ E). destruct (decide (raw k = raw q)) as [Hq|Hq].
    + rewrite bool_decide_true by done. by destruct v.
    + by rewrite bool_decide_false.
  - rewrite drop_ge by (by apply lookup_ge_None). done.
Qed.

Lemma find_value_walk q l xs :
  Forall2 (λ ap x, chain_page ap.2 x) l xs ->
  walk_list (find_value_step q) None l =
    Ok (match chain_version q xs with Some (Put v) => Some v | _ => None end).
Proof.
  induction 1 as [|[addr p] x l xs Hp _ IH]; [done|]. cbn [walk_list]. simpl in Hp.
  destruct x as [items|k i]; cbn [chain_version].
  - rewrite (find_value_step_data q None addr p items Hp). cbn [mbind res_bind].
    destruct (version_at q items) as [[v|]|]; [done|done|]. exact IH.
  - unfold find_value_step. rewrite (chain_page_split p k i Hp). exact IH.
Qed.

(** Newer pages hold newer versions. *)
Definition newest_first (ls : list (list (Key * Value))) : Prop :=
  StronglySorted (λ l1 l2, forall x y, x ∈ l1 -> y ∈ l2 -> raw x.1 = raw y.1 -> lsn y.1 <= lsn x.1) ls.

Lemma version_at_merge2 q l1 l2 :
  key_sorted l1 -> key_sorted l2 ->
  (forall x y, x ∈ l1 -> y ∈ l2 -> raw x.1 = raw y.1 -> lsn y.1 <= lsn x.1) ->
  version_at q (merge2 l1 l2) =
    match version_at q l1 with Some v => Some v | None => version_at q l2 end.
Proof.
  revert l2; induction l1 as [|[k v] l1 IH1]; intros l2 S1 S2 Hnew; [by rewrite merge2_nil_l|].
  induction l2 as [|[k2 v2] l2 IH2].
  { rewrite merge2_nil_r. by destruct (version_at q ((k, v) :: l1)). }
  pose proof S1 as [F1 S1']%key_sorted_cons. pose proof S2 as [F2 S2']%key_sorted_cons.
  assert (Hx : version_at q ((k, v) :: merge2 l1 ((k2, v2) :: l2)) =
    match version_at q ((k, v) :: l1) with Some v => Some v | None => version_at q ((k2, v2) :: l2) end).
  { cbn [version_at]. destruct (decide (raw k = raw q /\ lsn k <= lsn q)); [done|].
    apply IH1; [done|done|]. intros x y Hx Hy. apply Hnew; [by apply list_elem_of_further|done]. }
  rewrite merge2_cons. cbn [fst]. destruct (cmp k k2) eqn:E; [exact Hx|exact Hx|].
  cbn [version_at]. rewrite IH2; [|done|intros x y Hx' Hy; apply Hnew; [done|by apply list_elem_of_further]].
  destruct (decide (raw k2 = raw q /\ lsn k2 <= lsn q)) as [[Eq Hle]|]; [|done].
  change (Some v2 = match version_at q ((k, v) :: l1) with Some v => Some v | None => Some v2 end).
  rewrite version_at_none; [done|]. apply cmp_gt_lt in E.
  assert (Hlt : klt (raw k2) (raw k)).
  { apply key_lt_iff in E as [?|[Er Hl]]; [done|exfalso].
    assert (lsn k2 <= lsn k); [|lia].
    apply (Hnew (k, v) (k2, v2)); [apply list_elem_of_here..|done]. }
  rewrite Eq in Hlt. by apply (sorted_raw_other (k, v) l1 q).
Qed.

Lemma version_at_elem q l v : version_at q l = Some v -> exists k, (k, v) ∈ l /\ raw k = raw q.
Proof.
  induction l as [|[k w] l IH]; [done|]. simpl. case_decide as E.
  - intros [= ->]. exists k. split; [apply list_elem_of_here|apply E].
  - intros (k' & Hin & Er)%IH. exists k'. split; [by apply list_elem_of_further|done].
Qed.

Lemma chain_version_merge q xs :
  let ls := omap data_of xs in
  Forall key_sorted ls -> newest_first ls -> chain_version q xs = version_at q (kmerge ls).
Proof.
  induction xs as [|[l|k i] xs IH]; intros ls Hs Hn; [done| |by apply IH].
  unfold ls in *. cbn [omap list_omap data_of chain_version] in *.
  apply Forall_cons in Hs as [Hl Hs]. apply StronglySorted_inv in Hn as [Hn Hf].
  rewrite kmerge_cons, version_at_merge2; [|done|by apply kmerge_sorted|].
  - by rewrite <- IH.
  - intros x y Hx Hy. rewrite kmerge_perm in Hy. apply list_elem_of_In, in_concat in Hy as (l' & Hl' & Hy).
    rewrite Forall_forall in Hf. apply (Hf l'); [by apply list_elem_of_In|done|by apply list_elem_of_In].
Qed.

Lemma chain_sorted s addr (xs : list (ChainPage Key Value)) :
  chain_holds s addr xs -> Forall key_sorted (omap data_of xs).
Proof.
  intros (l & _ & Hf). induction Hf as [|ap x l xs Hp _ IH]; [constructor|].
  destruct x as [items|k i]; cbn [omap list_omap data_of]; [|done]. constructor; [|done].
  apply strict_sorted. by apply (chain_page_open _ _ Hp).
Qed.

(** A point read of a leaf page: walking the chain of the page, with fuel for
    its length, returns the value a reader at the LSN of the key sees in the merge
    of all pages of the chain, and changes nothing, provided that newer pages hold
    newer versions. *)
Theorem find_value_correct (fuel : nat) (q : Key) (view : PageView) (s : Store)
    (xs : list (ChainPage Key Value)) :
  chain_holds s (pv_addr view) xs -> newest_first (omap data_of xs) -> (length xs < fuel)%nat ->
  find_value fuel q view s = (Ok (value_at q (kmerge (omap data_of xs))), s).
Proof.
  intros Hc Hn Hf. pose proof (chain_sorted _ _ _ Hc) as Hs. destruct Hc as (l & Hc & Hp).
  unfold find_value. rewrite (walk_page_chain _ _ _ _ _ l) by (try done; by rewrite (Forall2_length _ _ _ Hp)).
  rewrite (find_value_walk q l xs Hp). unfold value_at.
  by rewrite (chain_version_merge q xs Hs Hn).
Qed.

(** A store whose pages are all in files, and two chains in it. *)
Definition chain_store (pages : gmap Z (list Z)) : Store :=
  mkStore inner_default (mkBufferSetVersion 9 10 [] (fresh_buffer 9 [])) 9 pages ∅ 4096 0.

Definition leaf_delta : list (Key * Value) := [(mkKey [1] 5, Delete)].
Definition leaf_base : list (Key * Value) :=
  [(mkKey [1] 3, Put [3]); (mkKey [1] 2, Put [2]); (mkKey [7] 1, Put [1])].
Definition leaf_chain_store : Store :=
  chain_store
    (<[16 := page_of (mkHeader 0 Leaf DataPage 2 8) (content_of leaf_delta)]>
     (<[8 := page_of (mkHeader 0 Leaf DataPage 1 0) (content_of leaf_base)]> ∅)).

Definition inner_delta : list (list Z * Index) :=
  [([2], mkIndex 4 1); ([4], mkIndex 9 0); ([6], NULL_INDEX)].
Definition inner_base : list (list Z * Index) :=
  [([], mkIndex 3 0); ([2], mkIndex 4 0); ([6], mkIndex 5 0)].
Definition inner_chain_store : Store :=
  chain_store
    (<[16 := page_of (mkHeader 0 BasePage.Inner DataPage 2 8) (content_of inner_delta)]>
     (<[8 := page_of (mkHeader 0 BasePage.Inner DataPage 1 0) (content_of inner_base)]> ∅)).

Definition view_at (addr : Z) : PageView :=
  mkPageView 1 addr (page_info (page_of (mkHeader 0 Leaf DataPage 2 8) [])) None.

Lemma chain_page_data {K V} `{Ord K} `{Codec K} `{!CodecLaws K} `{Codec V} `{!CodecLaws V}
    h (l : list (K * V)) :
  header_ok h -> h_kind h = DataPage -> items_ok l -> key_strict l ->
  chain_page (page_of h (content_of l)) (CData l).
Proof. intros ????. by exists h. Qed.

(** Closes [chain_holds] of a concrete store once the pages are given. *)
Ltac solve_chain :=
  split;
  [ repeat (constructor; [done|by vm_compute|]); constructor
  | repeat constructor; simpl; (apply chain_page_data;
      [done|done|split; [by repeat constructor|vm_compute; congruence]|by repeat constructor]) ].

Lemma leaf_chain_holds : chain_holds leaf_chain_store 16 [CData leaf_delta; CData leaf_base].
Proof.
  exists [(16, page_of (mkHeader 0 Leaf DataPage 2 8) (content_of leaf_delta));
          (8, page_of (mkHeader 0 Leaf DataPage 1 0) (content_of leaf_base))].
  solve_chain.
Qed.

Lemma inner_chain_holds : chain_holds inner_chain_store 16 [CData inner_delta; CData inner_base].
Proof.
  exists [(16, page_of (mkHeader 0 BasePage.Inner DataPage 2 8) (content_of inner_delta));
          (8, page_of (mkHeader 0 BasePage.Inner DataPage 1 0) (content_of inner_base))].
  solve_chain.
Qed.

Lemma inner_base_holds : chain_holds inner_chain_store 8 [CData inner_base].
Proof.
  exists [(8, page_of (mkHeader 0 BasePage.Inner DataPage 1 0) (content_of inner_base))].
  solve_chain.
Qed.

Lemma find_value_correct_witness :
  find_value 3 (mkKey [1] 4) (view_at 16) leaf_chain_store =
    (Ok (value_at (mkKey [1] 4) (kmerge [leaf_delta; leaf_base])), leaf_chain_store) /\
  value_at (mkKey [1] 4) (kmerge [leaf_delta; leaf_base]) = Some [3] /\
  value_at (mkKey [1] 5) (kmerge [leaf_delta; leaf_base]) = None.
Proof.
  split; [|by vm_compute].
  apply (find_value_correct 3 (mkKey [1] 4) (view_at 16) leaf_chain_store
    [CData leaf_delta; CData leaf_base] leaf_chain_holds).
  - repeat constructor. intros x y Hx Hy _.
    apply list_elem_of_singleton in Hx as ->.
    unfold leaf_base in Hy. rewrite !elem_of_cons in Hy.
    destruct Hy as [->|[->|[->|[]%not_elem_of_nil]]]; simpl; lia.
  - simpl. lia.
Defined.

(** ** Routing a key to a child *)

(** The last entry at or before the key, with the start of the entry after it. *)
Fixpoint floor_at (key : list Z) (l : list (list Z * Index)) : option (list Z * Index * option (list Z)) :=
  match l with
  | [] => None
  | (s, i) :: l =>
      if decide (kle s key) then
        match floor_at key l with
        | Some r => Some r
        | None => Some (s, i, fst <$> head l)
        end
      else None
  end.

(** The child for a key: that of the newest page whose entry for the key is not a
    placeholder. *)
Fixpoint chain_child (key : list Z) (xs : list (ChainPage (list Z) Index)) : option (Index * Range) :=
  match xs with
  | [] => None
  | CData l :: xs =>
      match floor_at key l with
      | Some (s, i, e) => if decide (i = NULL_INDEX) then chain_child key xs else Some (i, mkRange s e)
      | None => chain_child key xs
      end
  | CSplit _ _ :: xs => chain_child key xs
  end.

Lemma floor_at_none key l : Forall (λ x, klt key x.1) l -> floor_at key l = None.
Proof.
  destruct 1 as [|[s i] l Hx]; [done|]. simpl in *. rewrite decide_False; [done|].
  by apply not_kle.
Qed.

(** With [n] entries at or before the key and the others after it. *)
Lemma floor_at_count key n l :
  (n <= length l)%nat ->
  Forall (λ x, kle x.1 key) (take n l) -> Forall (λ x, klt key x.1) (drop n l) ->
  floor_at key l =
    match n with
    | O => None
    | S m => (λ x, (x.1, x.2, fst <$> l !! n)) <$> l !! m
    end.
Proof.
  revert n; induction l as [|[s i] l IH]; intros n Hn Hle Hgt; [by destruct n|].
  destruct n as [|n]; [by apply floor_at_none|]. cbn [take drop length] in *.
  apply Forall_cons in Hle as [Hs Hle]. cbn [floor_at]. rewrite decide_True by done.
  rewrite (IH n) by (done || lia). destruct n as [|n].
  - cbn. by destruct l.
  - change (((s, i) :: l) !! S n) with (l !! n). change (((s, i) :: l) !! S (S n)) with (l !! S n).
    destruct (lookup_lt_is_Some_2 l n ltac:(lia)) as [x Hx]. by rewrite Hx.
Qed.

Lemma find_child_step_data key child addr p l :
  chain_page p (CData l) ->
  find_child_step key child addr p =
    Ok (match floor_at key l with
        | Some (s, i, e) => if decide (i = NULL_INDEX) then (child, false) else (Some (i, mkRange s e), true)
        | None => (child, false)
        end).
Proof.
  intros Hp. destruct (chain_page_open p l Hp) as (Hk & Hs & r & Hn & Hr).
  unfold find_child_step. rewrite Hk. cbn [mbind res_bind].
  change (is_data DataPage) with true. cbn match. rewrite Hn. cbn [mbind res_bind].
  destruct (sp_rank_ok r l key Hr (strict_sorted _ Hs)) as (res & Hrk & Hspec).
  destruct (rank_seek_from l key res Hs Hspec) as (Hi & _ & Hlt & Hge & _). rewrite Hrk. cbn [mbind res_bind].
  assert (Hfin : forall m e, floor_at key l = (λ x, (x.1, x.2, e)) <$> l !! m ->
    match l !! m with
    | Some (start, index) =>
        if negb (bool_decide (index = NULL_INDEX)) then Ok (Some (index, mkRange start e), true)
        else Ok (child, false)
    | None => Ok (child, false)
    end = Ok (match floor_at key l with
        | Some (s, i, e) => if decide (i = NULL_INDEX) then (child, false) else (Some (i, mkRange s e), true)
        | None => (child, false)
        end)).
  { intros m e ->. destruct (l !! m) as [[s i]|]; [|done]. cbn.
    destruct (decide (i = NULL_INDEX)) as [E|E].
    - by rewrite bool_decide_true.
    - by rewrite bool_decide_false. }
  destruct res as [i|i]; cbn match in *.
  - rewrite !(sp_get_repr r l _ Hr). cbn [mbind res_bind]. apply (Hfin i).
    destruct Hspec as [v Hv]. rewrite Nat.add_1_r. apply lookup_lt_Some in Hv as Hil.
    apply (floor_at_count key (S i)); [lia| |].
    + rewrite (take_S_r _ _ _ Hv). apply Forall_app. split.
      * eapply Forall_impl; [exact Hlt|]. auto with photon.
      * constructor; [apply kle_refl|constructor].
    + apply Forall_lookup. intros n x Hx. rewrite lookup_drop in Hx.
      apply (strict_lookup l i (S i + n) (key, v) x Hs Hv Hx). lia.
  - destruct Hspec as [_ Hbr].
    assert (Hgt : Forall (λ x, klt key x.1) (drop i l)).
    { apply Forall_lookup. intros n x Hx. rewrite lookup_drop in Hx. apply (Hbr _ x Hx). lia. }
    assert (Hle : Forall (λ x, kle x.1 key) (take i l)).
    { eapply Forall_impl; [exact Hlt|]. auto with photon. }
    pose proof (floor_at_count key i l Hi Hle Hgt) as Hfl. destruct i as [|i].
    + cbn [mbind res_bind]. rewrite (sp_get_repr r l _ Hr). cbn [mbind res_bind]. by rewrite Hfl.
    + rewrite !(sp_get_repr r l _ Hr). cbn [mbind res_bind]. by apply (Hfin i).
Qed.

Lemma find_child_walk key l xs :
  Forall2 (λ ap x, chain_page ap.2 x) l xs ->
  walk_list (find_child_step key) None l = Ok (chain_child key xs).
Proof.
  induction 1 as [|[addr p] x l xs Hp _ IH]; [done|]. cbn [walk_list]. simpl in Hp.
  destruct x as [items|k i]; cbn [chain_child].
  - rewrite (find_child_step_data key None addr p items Hp). cbn [mbind res_bind].
    destruct (floor_at key items) as [[[s i] e]|]; [|exact IH].
    destruct (decide (i = NULL_INDEX)); [exact IH|done].
  - unfold find_child_step. rewrite (chain_page_split p k i Hp). exact IH.
Qed.

(** Routing in an inner page: walking the chain, with fuel for its length,
    returns the entry of the newest page whose last entry at or before the key is
    not a placeholder, with the range from its start to the next entry of that
    page, and changes nothing. *)
Theorem find_child_correct (fuel : nat) (key : list Z) (view : PageView) (s : Store)
    (xs : list (ChainPage (list Z) Index)) :
  chain_holds s (pv_addr view) xs -> (length xs < fuel)%nat ->
  find_child fuel key view s = (Ok (chain_child key xs), s).
Proof.
  intros (l & Hc & Hp) Hf. unfold find_child.
  rewrite (walk_page_chain _ _ _ _ _ l) by (try done; by rewrite (Forall2_length _ _ _ Hp)).
  by rewrite (find_child_walk key l xs Hp).
Qed.

Lemma find_child_correct_witness :
  find_child 3 [7] (view_at 16) inner_chain_store =
    (Ok (chain_child [7] [CData inner_delta; CData inner_base]), inner_chain_store) /\
  chain_child [7] [CData inner_delta; CData inner_base] = Some (mkIndex 5 0, mkRange [6] None) /\
  chain_child [5] [CData inner_delta; CData inner_base] = Some (mkIndex 9 0, mkRange [4] (Some [6])).
Proof.
  split; [|by vm_compute].
  apply (find_child_correct 3 [7] (view_at 16) inner_chain_store
    [CData inner_delta; CData inner_base] inner_chain_holds).
  simpl. lia.
Defined.

Lemma reconcile_child key lk sk li si re delta xs :
  reconcile_delta lk re li sk si = Ok delta ->
  klt lk sk -> li <> NULL_INDEX -> si <> NULL_INDEX ->
  chain_child key (CData delta :: xs) =
    if decide (klt key lk) then chain_child key xs
    else if decide (klt key sk) then Some (li, mkRange lk (Some sk))
    else match re with
         | Some e => if decide (kle e key) then chain_child key xs else Some (si, mkRange sk re)
         | None => Some (si, mkRange sk re)
         end.
Proof.
  intros Hd Hls Hli Hsi.
  assert (Hd' : delta = [(lk, li); (sk, si)] ++ match re with Some e => [(e, NULL_INDEX)] | None => [] end).
  { unfold reconcile_delta in Hd. destruct re as [e|]; [|by injection Hd as <-].
    destruct (bool_decide (klt sk e)); [by injection Hd as <-|done]. }
  subst delta. cbn [chain_child app floor_at].
  destruct (decide (klt key lk)) as [Hk|Hk].
  { rewrite decide_False by (by apply not_kle). done. }
  rewrite (decide_True (P := kle lk key)) by (by apply not_klt).
  destruct (decide (klt key sk)) as [Hk2|Hk2].
  { rewrite (decide_False (P := kle sk key)) by (by apply not_kle). cbn. by rewrite decide_False. }
  rewrite (decide_True (P := kle sk key)) by (by apply not_klt).
  destruct re as [e|]; cbn [floor_at head fmap option_fmap option_map].
  - destruct (decide (kle e key)) as [He|He]; [done|].
    by rewrite (decide_False (P := si = NULL_INDEX)).
  - by rewrite (decide_False (P := si = NULL_INDEX)).
Qed.

(** Reconciling a split: when the delta that [reconcile_split_page] builds is
    in front of the chain of the parent, [find_child] sends the keys from the
    start of the split page up to the split key to the left page with its new
    epoch, the keys from the split key up to the end of the old range to the right
    page, each with exactly its half as range, and every other key where it sends
    it without the delta. *)
Theorem reconcile_routes (fuel : nat) (key lk sk : list Z) (li si : Index) (re : option (list Z))
    (delta : list (list Z * Index)) (old new : PageView) (s : Store)
    (xs : list (ChainPage (list Z) Index)) :
  reconcile_delta lk re li sk si = Ok delta ->
  chain_holds s (pv_addr old) xs -> chain_holds s (pv_addr new) (CData delta :: xs) ->
  (S (length xs) < fuel)%nat -> klt lk sk -> li <> NULL_INDEX -> si <> NULL_INDEX ->
  find_child fuel key new s =
    if decide (klt key lk) then find_child fuel key old s
    else if decide (klt key sk) then (Ok (Some (li, mkRange lk (Some sk))), s)
    else match re with
         | Some e => if decide (kle e key) then find_child fuel key old s
                     else (Ok (Some (si, mkRange sk re)), s)
         | None => (Ok (Some (si, mkRange sk re)), s)
         end.
Proof.
  intros Hd (l & Hc & Hp) (l' & Hc' & Hp') Hf Hls Hli Hsi.
  assert (Ho : find_child fuel key old s = (Ok (chain_child key xs), s)).
  { unfold find_child. rewrite (walk_page_chain _ _ _ _ _ l) by (try done; rewrite (Forall2_length _ _ _ Hp); lia).
    by rewrite (find_child_walk key l xs Hp). }
  unfold find_child at 1.
  rewrite (walk_page_chain _ _ _ _ _ l') by (try done; rewrite (Forall2_length _ _ _ Hp'); simpl; lia).
  rewrite (find_child_walk key l' _ Hp'), (reconcile_child _ _ _ _ _ _ _ _ Hd Hls Hli Hsi), Ho.
  repeat case_decide; try done. destruct re; [|done]. by case_decide.
Qed.

Lemma reconcile_routes_witness :
  find_child 4 [5] (view_at 16) inner_chain_store =
    (Ok (Some (mkIndex 9 0, mkRange [4] (Some [6]))), inner_chain_store).
Proof.
  rewrite (reconcile_routes 4 [5] [2] [4] (mkIndex 4 1) (mkIndex 9 0) (Some [6]) inner_delta
    (view_at 8) (view_at 16) inner_chain_store [CData inner_base]); [by vm_compute|..].
  - by vm_compute.
  - exact inner_base_holds.
  - exact inner_chain_holds.
  - simpl. lia.
  - done.
  - done.
  - done.
Defined.

(** ** The safe LSN *)

Lemma max_list_base m l : m <= foldr Z.max m l.
Proof. induction l; simpl; lia. Qed.

Lemma max_list_elem x m l : x ∈ l -> x <= foldr Z.max m l.
Proof.
  induction l as [|y l IH]; intros Hx; [by apply not_elem_of_nil in Hx|].
  apply elem_of_cons in Hx as [->|Hx]; simpl; [lia|]. specialize (IH Hx). lia.
Qed.

Lemma max_list_le m l b : m <= b -> (forall x, x ∈ l -> x <= b) -> foldr Z.max m l <= b.
Proof.
  intros Hm. induction l as [|y l IH]; intros Hl; simpl; [done|].
  apply Z.max_lub; [apply Hl, list_elem_of_here|]. apply IH. intros x Hx. by apply Hl, list_elem_of_further.
Qed.

(** Running the loops of concurrent calls to [set_safe_lsn] in any interleaving. *)
Inductive lsn_steps : Z * list SafeLsnCall -> Z * list SafeLsnCall -> Prop :=
  | lsn_steps_refl st : lsn_steps st st
  | lsn_steps_step mem ts i t st :
      ts !! i = Some t ->
      lsn_steps ((set_safe_lsn_step mem t).1, <[i := (set_safe_lsn_step mem t).2]> ts) st ->
      lsn_steps (mem, ts) st.

(** The argument of a call. *)
Definition call_lsn (t : SafeLsnCall) : Z :=
  match t with LsnLoad lsn | LsnCas lsn _ | LsnDone lsn => lsn end.

(** What holds of every call: a value it loaded is at most the atomic and below its
    argument, and its argument is at most the atomic once it is done. *)
Definition call_ok (mem : Z) (t : SafeLsnCall) : Prop :=
  match t with
  | LsnLoad _ => True
  | LsnCas lsn seen => seen <= mem /\ seen < lsn
  | LsnDone lsn => lsn <= mem
  end.

Lemma call_ok_mono mem mem' t : mem <= mem' -> call_ok mem t -> call_ok mem' t.
Proof. destruct t; simpl; lia. Qed.

Lemma set_safe_lsn_step_ok mem t :
  call_ok mem t ->
  forall mem' t', set_safe_lsn_step mem t = (mem', t') ->
  mem <= mem' /\ call_ok mem' t' /\ call_lsn t' = call_lsn t /\ (mem' = mem \/ mem' = call_lsn t).
Proof.
  destruct t as [lsn|lsn seen|lsn]; simpl; intros Hok mem' t'.
  - destruct (Z.leb_spec lsn mem); intros [= <- <-]; simpl; lia.
  - destruct (Z.eqb_spec mem seen); intros [= <- <-]; simpl; lia.
  - intros [= <- <-]; simpl; lia.
Qed.

(** Concurrent calls to [set_safe_lsn], interleaved in any way from the start:
    the safe LSN never decreases, it is always its old value or the argument of
    some call, and it is at least the argument of every call that has returned;
    so when all have returned it is the maximum of all of them. *)
Theorem set_safe_lsn_interleaving (mem : Z) (lsns : list Z) (mem' : Z) (ts : list SafeLsnCall) :
  lsn_steps (mem, LsnLoad <$> lsns) (mem', ts) ->
  mem <= mem' /\ (mem' = mem \/ mem' ∈ lsns) /\ call_lsn <$> ts = lsns /\
  (forall lsn, LsnDone lsn ∈ ts -> lsn <= mem') /\
  (Forall (λ t, exists lsn, t = LsnDone lsn) ts -> mem' = foldr Z.max mem lsns).
Proof.
  assert (Hgen : forall st st', lsn_steps st st' ->
    Forall (call_ok st.1) st.2 ->
    st.1 <= st'.1 /\ (st'.1 = st.1 \/ st'.1 ∈ call_lsn <$> st.2) /\
    call_lsn <$> st'.2 = call_lsn <$> st.2 /\ Forall (call_ok st'.1) st'.2).
  { induction 1 as [[m l]|m l i t st Hi Hs IH]; intros Hok; [simpl; auto with lia|].
    pose proof (Forall_lookup_1 _ _ _ _ Hok Hi) as Ht.
    pose proof (set_safe_lsn_step_ok m t Ht) as Hst. clear Hs. destruct (set_safe_lsn_step m t) as [m1 t1]. simpl in *.
    destruct (Hst _ _ eq_refl) as (Hle & Hok1 & Hl & Hv).
    assert (Hmap : call_lsn <$> <[i := t1]> l = call_lsn <$> l).
    { rewrite list_fmap_insert, Hl. apply list_insert_id. by rewrite list_lookup_fmap, Hi. }
    destruct IH as (IH1 & IH2 & IH3 & IH4).
    { apply Forall_insert; [|done]. eapply Forall_impl; [exact Hok|]. intros x. by apply call_ok_mono. }
    rewrite Hmap in *. split; [lia|]. split; [|done].
    destruct IH2 as [->|?]; [|by right]. destruct Hv as [->| ->]; [by left|right].
    apply list_elem_of_fmap. exists t. split; [done|]. by eapply list_elem_of_lookup_2. }
  intros Hs. apply Hgen in Hs; [|by apply Forall_fmap, Forall_true]. simpl in Hs.
  assert (Hid : call_lsn <$> (LsnLoad <$> lsns) = lsns) by (rewrite <- list_fmap_compose; apply list_fmap_id).
  rewrite Hid in Hs. destruct Hs as (Hle & Hin & Hl & Hok). rewrite Forall_forall in Hok.
  assert (Hdone : forall lsn, LsnDone lsn ∈ ts -> lsn <= mem') by (intros lsn; apply (Hok (LsnDone lsn))).
  do 4 (split; [done|]). intros Hall. subst lsns.
  assert (Hub : forall x, x ∈ call_lsn <$> ts -> x <= mem').
  { intros x (t & -> & Ht)%list_elem_of_fmap. rewrite Forall_forall in Hall.
    destruct (Hall t Ht) as [lsn ->]. by apply Hdone. }
  clear -Hle Hin Hub. apply Z.le_antisymm.
  - destruct Hin as [->|Hin]; [|by apply max_list_elem]. apply max_list_base.
  - by apply max_list_le.
Qed.

Lemma set_safe_lsn_interleaving_witness :
  lsn_steps (3, LsnLoad <$> [7; 5]) (7, [LsnDone 7; LsnDone 5]) /\ 7 = foldr Z.max 3 [7; 5].
Proof.
  assert (Hs : lsn_steps (3, LsnLoad <$> [7; 5]) (7, [LsnDone 7; LsnDone 5])).
  { (* both load 3, the second call loses the race and loads again *)
    apply (lsn_steps_step _ _ 0 (LsnLoad 7)); [done|].
    apply (lsn_steps_step _ _ 1 (LsnLoad 5)); [done|].
    apply (lsn_steps_step _ _ 0 (LsnCas 7 3)); [done|].
    apply (lsn_steps_step _ _ 1 (LsnCas 5 3)); [done|].
    apply (lsn_steps_step _ _ 1 (LsnLoad 5)); [done|]. apply lsn_steps_refl. }
  split; [exact Hs|].
  apply (set_safe_lsn_interleaving 3 [7; 5] 7 [LsnDone 7; LsnDone 5] Hs).
  repeat constructor; by eexists.
Defined.

(** ** Whole runs *)

(** An empty page store with one active buffer of 4 KiB. *)
Definition empty_store : Store :=
  mkStore inner_default (mkBufferSetVersion 1 2 [] (fresh_buffer 1 (replicate 4096 0))) 1 ∅ ∅ 4096 0.

Definition zero_mem (_ : Z) : list Z := replicate 4096 0.

(** What a client does: write at a safe LSN, or read. *)
Inductive TreeOp :=
  | OpWrite (safe_lsn : Z) (key : Key) (value : Value)
  | OpGet (key : Key).

Definition run_op (opts : TreeOptions) (op : TreeOp) : St Store (option (list Z)) :=
  match op with
  | OpWrite safe_lsn key value => _ ← tree_write zero_mem opts 20 safe_lsn 5 key value; mret None
  | OpGet key => tree_get zero_mem opts 20 0 key
  end.

Fixpoint run_ops (opts : TreeOptions) (ops : list TreeOp) : St Store (list (option (list Z))) :=
  match ops with
  | [] => mret []
  | op :: ops => r ← run_op opts op; rs ← run_ops opts ops; mret (r :: rs)
  end.

(** The results of a run of a fresh tree. *)
Definition run_tree (opts : TreeOptions) (ops : list TreeOp) : res (list (option (list Z))) :=
  ((_ ← tree_init zero_mem 20; run_ops opts ops) empty_store).1.

(** A delete can be undone by a consolidation ([partial_consolidation_reads] of
    [TreeConsolidate] says when): the key is written and deleted,
    and a reader above both LSNs sees no value; after two writes to another key
    the chain is consolidated up to, but not including, its large base page; the
    tombstone, which is below the safe LSN, is dropped although the base page
    still holds the older value, and the same reader sees that value again. *)
Example partial_consolidation_resurrects :
  let big := replicate 300 7 in
  run_tree (mkTreeOptions 4096 4)
    [OpWrite 0 (mkKey [1] 1) (Put big); OpWrite 0 (mkKey [2] 2) (Put [20]);
     OpWrite 0 (mkKey [3] 3) (Put [20]); OpWrite 0 (mkKey [4] 4) (Put [20]);
     OpWrite 8 (mkKey [1] 5) Delete; OpGet (mkKey [1] 9);
     OpWrite 8 (mkKey [2] 6) (Put [21]); OpWrite 8 (mkKey [2] 7) (Put [22]); OpGet (mkKey [1] 9)] =
  Ok [None; None; None; None; None; None; None; None; Some big].
Proof. vm_compute. reflexivity. Qed.
