(* ===== verification/TreeRefine.v ===== *)
(** * The tree as a multi-version map (refinement of [tree/mod.rs])

    An abstract view of the tree on the heap of pages of [PageHeap]: a key is
    routed from the root through inner pages to a leaf, and read at its LSN in the
    merged chain of the leaf. [tree_get] is shown to return that value, and
    [tree_write] to change it for the readers of the key at or after its LSN and
    for nobody else, on the path on which no page has to be split or
    consolidated and the active buffer has room. *)

From stdpp Require Import base numbers list sorting gmap.
From Stdlib Require Import ZArith Lia.
From S2P Require Import Prelude Data Codec BasePage Iter SortedPage PageTable WriteBuffer.
From S2P Require Import BufferSet PageTxn PageHeap TreePage Tree TreeLaws.

(** ** Building and linking pages *)

(** The bytes a page of the items takes in the buffer, with its record header. *)
Definition page_need {K V} `{CodecLaws K} `{CodecLaws V} (l : list (K * V)) : Z :=
  16 + align8 (builder_size (content_size l)).

Lemma page_need_pos {K V} `{CodecLaws K} `{CodecLaws V} (l : list (K * V)) : 0 <= page_need l.
Proof. unfold page_need. pose proof (align8_bounds (builder_size (content_size l))) as [? _]. lia. Qed.

Section build.
Context {I K V : Type} `{OrdLaws K} `{!Codec K} `{!CodecLaws K} `{!PrefixCodec K}
  `{!Codec V} `{!CodecLaws V} `{IterLaws I (K * V)}.

(** [build_page] on a transaction with room: a new address, whose page is written
    by [link_page]. *)
Lemma build_page_ok fm fuel tier kind (it : I) (l : list (K * V)) s txn b sb rs used free m :
  txn_heap s txn b sb rs used free m -> denotes it l l -> (length l < fuel)%nat ->
  builder_size (content_size l) <= 2 ^ 32 - 24 -> sealed sb = false ->
  allocated sb + page_need l <= wb_buf_size b ->
  (tx_hold_write_guard txn = false -> num_writer sb < 2 ^ 31 - 1) ->
  exists addr old txn' b' s' rs',
    build_page (K := K) (V := V) fm fuel tier kind it txn s =
      (Ok (addr, page_of (built_header (mkPageBuilder tier kind)) (content_of l), txn'), s') /\
    length old = builder_size (content_size l) /\
    tx_records txn' = addr :: tx_records txn /\ tx_page_ids txn' = tx_page_ids txn /\
    tx_buffer_id txn' = tx_buffer_id txn /\ tx_hold_write_guard txn' = true /\
    st_table s' = st_table s /\ wb_buf_size b' = wb_buf_size b /\
    (forall a p, m !! a = Some p -> a < addr) /\ fits 64 addr /\ addr <> 0 /\
    txn_heap s' txn' b' (add_alloc (page_need l) (negb (tx_hold_write_guard txn)) sb) rs' used free
      (<[addr := old]> m).
Proof.
  intros Ht Hd Hf Hsz Hse Hroom Hnw.
  assert (Hcs : content_size l <= u32_max) by (unfold builder_size, PAGE_HEADER_LEN, u32_max in *; lia).
  destruct (heap_alloc fm s txn b sb rs used free m (builder_size (content_size l)) Ht)
    as (addr & old & txn' & b' & s' & rs' & Ha & Hl & Hrest);
    [unfold builder_size, PAGE_HEADER_LEN in *; lia|done|done|done|].
  destruct (spb_build_ok fuel it l tier kind old Hd Hf Hcs Hl) as (bd & Hw & Hs & Hb).
  exists addr, old, txn', b', s', rs'. split; [|done]. unfold build_page.
  rewrite (st_bind_ok _ _ s bd s) by (unfold lift; by rewrite Hw). rewrite Hs, Hl.
  rewrite (st_bind_ok _ _ s (addr, old, txn') s') by (unfold on_err; by rewrite Ha).
  by rewrite (st_bind_ok _ _ s' _ s') by (unfold lift; by rewrite Hb).
Qed.

Lemma link_page_ok epoch len next addr tier kind (l : list (K * V)) old s txn b sb rs used free m :
  txn_heap s txn b sb rs used free m -> addr ∈ tx_records txn -> m !! addr = Some old ->
  length old = builder_size (content_size l) -> fits 48 epoch ->
  let page := page_of (mkHeader epoch tier kind len next) (content_of l) in
  exists b' s' rs',
    link_page epoch len next addr (page_of (built_header (mkPageBuilder tier kind)) (content_of l)) txn s
      = (Ok page, s') /\
    st_table s' = st_table s /\ wb_buf_size b' = wb_buf_size b /\
    txn_heap s' txn b' sb rs' used free (<[addr := page]> m).
Proof.
  intros Ht Hin Hm Hl He page.
  destruct (heap_write s txn b sb rs used free m addr old page Ht Hin Hm) as (b' & s' & rs' & Hw & Hrest).
  { unfold page. rewrite length_page_of, length_content, Hl. done. }
  exists b', s', rs'. split; [|done]. unfold link_page.
  rewrite (st_bind_ok _ _ s (page_of (with_epoch epoch (built_header (mkPageBuilder tier kind))) (content_of l)) s)
    by (unfold lift; by rewrite set_epoch_page_of).
  rewrite set_chain_len_page_of, set_chain_next_page_of.
  by rewrite (st_bind_ok _ _ s tt s') by exact Hw.
Qed.

(** Both: the page is built, linked in front of a chain and in the heap. *)
Lemma build_link_ok fm fuel tier kind (it : I) (l : list (K * V)) epoch len next s txn b sb rs used free m :
  txn_heap s txn b sb rs used free m -> denotes it l l -> (length l < fuel)%nat ->
  builder_size (content_size l) <= 2 ^ 32 - 24 -> sealed sb = false ->
  allocated sb + page_need l <= wb_buf_size b ->
  (tx_hold_write_guard txn = false -> num_writer sb < 2 ^ 31 - 1) -> fits 48 epoch ->
  let page := page_of (mkHeader epoch tier kind len next) (content_of l) in
  exists addr p0 txn' b' s1 s2 rs',
    build_page (K := K) (V := V) fm fuel tier kind it txn s = (Ok (addr, p0, txn'), s1) /\
    link_page epoch len next addr p0 txn' s1 = (Ok page, s2) /\
    addr ∈ tx_records txn' /\ tx_buffer_id txn' = tx_buffer_id txn /\ tx_hold_write_guard txn' = true /\
    st_table s2 = st_table s /\ wb_buf_size b' = wb_buf_size b /\
    (forall a p, m !! a = Some p -> a < addr) /\ m !! addr = None /\ addr <> 0 /\
    txn_heap s2 txn' b' (add_alloc (page_need l) (negb (tx_hold_write_guard txn)) sb) rs' used free
      (<[addr := page]> m).
Proof.
  intros Ht Hd Hf Hsz Hse Hroom Hnw He page.
  destruct (build_page_ok fm fuel tier kind it l s txn b sb rs used free m Ht Hd Hf Hsz Hse Hroom Hnw)
    as (addr & old & txn' & b1 & s1 & rs1 & Hbp & Hol & Hrec & _ & Hbid & Hhold & Htab & Hz & Hlt & H64 & Hne & Hth1).
  assert (Hin : addr ∈ tx_records txn') by (rewrite Hrec; auto with photon).
  destruct (link_page_ok epoch len next addr tier kind l old s1 txn' b1 _ rs1 used free _ Hth1 Hin
    (lookup_insert_eq _ _ _) Hol He) as (b2 & s2 & rs2 & Hlk & Htab2 & Hz2 & Hth2).
  rewrite insert_insert_eq in Hth2. eexists addr, _, txn', b2, s1, s2, rs2.
  split_and!; [exact Hbp|exact Hlk|done|done|done|congruence|congruence|done| |done|exact Hth2].
  apply eq_None_not_Some. intros [p Hp]. specialize (Hlt _ _ Hp). lia.
Qed.

(** A page built and written as it is. *)
Lemma build_write_ok fm fuel tier kind (it : I) (l : list (K * V)) s txn b sb rs used free m :
  txn_heap s txn b sb rs used free m -> denotes it l l -> (length l < fuel)%nat ->
  builder_size (content_size l) <= 2 ^ 32 - 24 -> sealed sb = false ->
  allocated sb + page_need l <= wb_buf_size b ->
  (tx_hold_write_guard txn = false -> num_writer sb < 2 ^ 31 - 1) ->
  let page := page_of (built_header (mkPageBuilder tier kind)) (content_of l) in
  exists addr txn' b' s1 s2 rs',
    build_page (K := K) (V := V) fm fuel tier kind it txn s = (Ok (addr, page, txn'), s1) /\
    txn_write_page addr page txn' s1 = (Ok tt, s2) /\
    addr ∈ tx_records txn' /\ tx_buffer_id txn' = tx_buffer_id txn /\ tx_hold_write_guard txn' = true /\
    st_table s2 = st_table s /\ wb_buf_size b' = wb_buf_size b /\
    (forall a p, m !! a = Some p -> a < addr) /\ m !! addr = None /\ addr <> 0 /\
    txn_heap s2 txn' b' (add_alloc (page_need l) (negb (tx_hold_write_guard txn)) sb) rs' used free
      (<[addr := page]> m).
Proof.
  intros Ht Hd Hf Hsz Hse Hroom Hnw page.
  destruct (build_page_ok fm fuel tier kind it l s txn b sb rs used free m Ht Hd Hf Hsz Hse Hroom Hnw)
    as (addr & old & txn' & b1 & s1 & rs1 & Hbp & Hol & Hrec & _ & Hbid & Hhold & Htab & Hz & Hlt & H64 & Hne & Hth1).
  assert (Hin : addr ∈ tx_records txn') by (rewrite Hrec; auto with photon).
  destruct (heap_write s1 txn' b1 _ rs1 used free _ addr old page Hth1 Hin (lookup_insert_eq _ _ _))
    as (b2 & s2 & rs2 & Hw & Htab2 & Hz2 & Hth2).
  { unfold page. by rewrite length_page_of, length_content, Hol. }
  rewrite insert_insert_eq in Hth2. exists addr, txn', b2, s1, s2, rs2.
  split_and!; [exact Hbp|exact Hw|done|done|done|congruence|congruence|done| |done|exact Hth2].
  apply eq_None_not_Some. intros [p Hp]. specialize (Hlt _ _ Hp). lia.
Qed.

(** A new page under a new page id. *)
Lemma new_page_ok fm fuel tier kind (it : I) (l : list (K * V)) s txn b sb rs used free m :
  txn_heap s txn b sb rs used free m -> denotes it l l -> (length l < fuel)%nat ->
  builder_size (content_size l) <= 2 ^ 32 - 24 -> sealed sb = false ->
  allocated sb + page_need l <= wb_buf_size b ->
  (tx_hold_write_guard txn = false -> num_writer sb < 2 ^ 31 - 1) ->
  nxt (st_table s) < MAX_ID ->
  let page := page_of (built_header (mkPageBuilder tier kind)) (content_of l) in
  exists addr id txn1 txn2 b' s1 s2 s3 rs' free',
    build_page (K := K) (V := V) fm fuel tier kind it txn s = (Ok (addr, page, txn1), s1) /\
    txn_write_page addr page txn1 s1 = (Ok tt, s2) /\
    txn_insert_page addr txn1 s2 = (Ok (id, txn2), s3) /\
    tx_buffer_id txn2 = tx_buffer_id txn /\ tx_hold_write_guard txn2 = true /\
    id = default (nxt (st_table s)) (head free) /\ (id ∉ used) /\ id_ok id /\
    val (st_table s3) id = addr /\
    (forall id', id_ok id' -> id' <> id -> val (st_table s3) id' = val (st_table s) id') /\
    nxt (st_table s3) <= nxt (st_table s) + 1 /\ wb_buf_size b' = wb_buf_size b /\
    (forall a p, m !! a = Some p -> a < addr) /\ m !! addr = None /\ addr <> 0 /\
    txn_heap s3 txn2 b' (add_alloc (page_need l) (negb (tx_hold_write_guard txn)) sb) rs'
      ({[id]} ∪ used) free' (<[addr := page]> m).
Proof.
  intros Ht Hd Hf Hsz Hse Hroom Hnw Hmax page.
  destruct (build_write_ok fm fuel tier kind it l s txn b sb rs used free m Ht Hd Hf Hsz Hse Hroom Hnw)
    as (addr & txn1 & b2 & s1 & s2 & rs2 & Hbp & Hw & Hin & Hbid & Hhold & Htab & Hz & Hlt & Hnone & Hne & Hth2).
  destruct (heap_insert s2 txn1 b2 _ rs2 used free _ addr Hth2 Hin)
    as (id & free' & b3 & s3 & rs3 & Hip & Hid & Hnu & Hok & Hx & Hz3 & Hv3 & Ho3 & Hth3).
  { right. by rewrite Htab. }
  rewrite Htab in Hid, Hx, Ho3. eexists addr, id, txn1, _, b3, s1, s2, s3, rs3, free'.
  split_and!; [exact Hbp|exact Hw|exact Hip|done..|congruence|done|done|done|exact Hth3].
Qed.
(** A transaction that puts one page in place of the page of an id. *)
Lemma publish_page fm fuel tier kind (it : I) (l : list (K * V)) epoch len next s t m room id addr old :
  heap_inv s t m room -> t !! id = Some addr -> m !! addr = Some old -> denotes it l l -> (length l < fuel)%nat ->
  builder_size (content_size l) <= 2 ^ 32 - 24 -> page_need l <= room -> fits 48 epoch ->
  let page := page_of (mkHeader epoch tier kind len next) (content_of l) in
  exists txn new p0 txn1 s1 s2 s3,
    txn_begin s = (Ok txn, s) /\
    build_page (K := K) (V := V) fm fuel tier kind it txn s = (Ok (new, p0, txn1), s1) /\
    link_page epoch len next new p0 txn1 s1 = (Ok page, s2) /\
    txn_update_page id addr new txn1 s2 = (Ok Updated, s3) /\
    m !! new = None /\ new <> 0 /\
    heap_inv s3 (<[id := new]> t) (<[new := page]> m) (room - page_need l).
Proof.
  intros (b & sb & rs & free & Hb & He & Ht & Hv & Hm & Hse & Hnw & ->) Hid Haddr Hd Hf Hsz Hroom Hep page.
  destruct (heap_begin s b sb rs _ free m Hb He Ht Hm Hse) as [Hbg Hth].
  set (txn := mkPageTxn (wb_group_id b) false [] []) in *.
  destruct (build_link_ok fm fuel tier kind it l epoch len next s txn b sb rs _ free m Hth Hd Hf Hsz Hse
    ltac:(lia) (λ _, Hnw) Hep)
    as (new & p0 & txn1 & b2 & s1 & s2 & rs2 & Hbp & Hlk & Hin & Hbid & Hhold & Htab & Hz & Hlt & Hnew & Hne & Hth2).
  assert (Hval : val (st_table s2) id = addr) by (rewrite Htab; by apply Hv).
  destruct (heap_txn_update s2 txn1 b2 _ rs2 _ free _ id addr new Hth2)
    as (s3 & b3 & rs3 & Hup & Hz3 & Ht3 & Hv3 & Ho3 & He3 & Hb3 & Hm3);
    [by apply elem_of_dom_2 in Hid|done|by eapply Hlt|done|done|].
  exists txn, new, p0, txn1, s1, s2, s3. split_and!; [done|exact Hbp|exact Hlk|exact Hup|done|done|].
  rewrite Hbid in Hb3, Hm3, He3. rewrite Htab in Ho3. apply elem_of_dom_2 in Hid.
  cbn [txn tx_buffer_id tx_hold_write_guard negb] in Hb3, Hm3, He3.
  pose proof (heap_inv_swing _ s3 t _ _ b3 _ rs3 free id new Hb3 He3 Ht3 Hid Hv Hv3 Ho3 Hm3) as Hsw.
  simpl in Hsw. replace (_ - _ - _) with (wb_buf_size b3 - (allocated sb + page_need l)) by lia.
  apply Hsw; [done|lia].
Qed.
End build.

(** ** Prepending a delta *)

(** What [try_write] does after it has found the leaf: the transaction with its
    page, and the update of the page id. *)
Lemma publish_delta fm fuel s t m room id addr h c range (key : Key) (value : Value) :
  let l := [(key, value)] in
  let view := mkPageView id addr (page_info (page_of h c)) range in
  heap_inv s t m room -> t !! id = Some addr -> m !! addr = Some (page_of h c) -> header_ok h ->
  builder_size (content_size l) <= 2 ^ 32 - 24 -> page_need l <= room -> (1 < fuel)%nat ->
  exists txn new p0 txn1 s1 s2,
    let page := page_of (mkHeader (h_epoch h) Leaf DataPage (sat_add_u8 (h_chain_len h)) addr) (content_of l) in
    txn_begin s = (Ok txn, s) /\
    build_page (I := ItemIter (Key * Value)) (K := Key) (V := Value) fm fuel Leaf DataPage
      (item_iter_new (key, value)) txn s = (Ok (new, p0, txn1), s1) /\
    write_loop fuel view new p0 txn1 s1 = (Ok (mkPageView id new (page_info page) range), s2) /\
    m !! new = None /\ new <> 0 /\
    heap_inv s2 (<[id := new]> t) (<[new := page]> m) (room - page_need l).
Proof.
  intros l view Hi Hid Haddr Hh Hsz Hroom Hfuel.
  assert (Hd : denotes (item_iter_new (key, value)) l l) by done.
  destruct (publish_page fm fuel Leaf DataPage (item_iter_new (key, value)) l (h_epoch h)
    (sat_add_u8 (h_chain_len h)) addr s t m room id addr _ Hi Hid Haddr Hd Hfuel Hsz Hroom (proj1 Hh))
    as (txn & new & p0 & txn1 & s1 & s2 & s3 & Hbg & Hbp & Hlk & Hup & Hnew & Hne & Hi').
  exists txn, new, p0, txn1, s1, s3. cbv zeta. split_and!; [done|exact Hbp| |done|done|exact Hi'].
  destruct fuel as [|fuel]; [lia|]. cbn [write_loop view pv_page pv_addr pv_id pv_range].
  rewrite page_of_info_epoch, page_of_info_chain_len by done. st_step Hlk.
  by st_step Hup.
Qed.

(** ** Chains of the heap *)

Inductive heap_chain (m : gmap Z (list Z)) : Z -> list (Z * list Z) -> Prop :=
  | heap_chain_nil : heap_chain m 0 []
  | heap_chain_cons addr page l :
      addr <> 0 -> m !! addr = Some page -> heap_chain m (page_chain_next page) l ->
      heap_chain m addr ((addr, page) :: l).

Lemma heap_chain_store s t m room addr l :
  heap_inv s t m room -> heap_chain m addr l -> chain s addr l.
Proof.
  intros Hi. induction 1 as [|addr page l Hne Ha _ IH]; [constructor|].
  constructor; [done| |done]. by apply (heap_inv_read _ _ _ _ _ _ Hi Ha).
Qed.

Lemma heap_chain_mono m m' addr l : m ⊆ m' -> heap_chain m addr l -> heap_chain m' addr l.
Proof.
  intros Hs. induction 1 as [|addr page l Hne Ha _ IH]; constructor; [done| |done].
  by eapply lookup_weaken.
Qed.

Lemma heap_chain_fun m addr l l' : heap_chain m addr l -> heap_chain m addr l' -> l = l'.
Proof.
  intros H1. revert l'; induction H1 as [|addr page l Hne Ha _ IH]; intros l' H2; inversion H2; simplify_eq; [done|].
  f_equal. by apply IH.
Qed.

Section chain_at.
Context {K V : Type} `{OrdLaws K} `{!Codec K} `{!CodecLaws K} `{!PrefixCodec K}
  `{!Codec V} `{!CodecLaws V} `{!SortedPageKey K}.

(** The chain at an address of the heap holds the pages [xs]. *)
Definition chain_at (m : gmap Z (list Z)) (addr : Z) (xs : list (ChainPage K V)) : Prop :=
  exists l, heap_chain m addr l /\ Forall2 (λ ap x, chain_page ap.2 x) l xs.

Lemma chain_at_holds s t m room addr xs :
  heap_inv s t m room -> chain_at m addr xs -> chain_holds s addr xs.
Proof. intros Hi (l & Hc & Hp). exists l. split; [by eapply heap_chain_store|done]. Qed.

Lemma chain_at_mono m m' addr xs : m ⊆ m' -> chain_at m addr xs -> chain_at m' addr xs.
Proof. intros Hs (l & Hc & Hp). exists l. split; [by eapply heap_chain_mono|done]. Qed.

(** The items of a page are determined by its bytes. *)
Lemma content_fun {K' V'} `{OrdLaws K'} `{!Codec K'} `{!CodecLaws K'} `{!PrefixCodec K'}
    `{!Codec V'} `{!CodecLaws V'} `{!SortedPageKey K'} (p : list Z) (l l' : list (K' * V')) :
  page_content p = content_of l -> items_ok l -> page_content p = content_of l' -> items_ok l' -> l = l'.
Proof.
  intros Hc Hok Hc' Hok'.
  destruct (sp_new_repr p l Hc Hok) as (r & Hn & Hr & _).
  destruct (sp_new_repr p l' Hc' Hok') as (r' & Hn' & Hr' & _).
  rewrite Hn in Hn'. injection Hn' as <-. apply list_eq. intros i.
  pose proof (sp_get_repr r l i Hr) as Hg. rewrite (sp_get_repr r l' i Hr') in Hg. by injection Hg.
Qed.

Lemma chain_page_fun p (x y : ChainPage K V) : chain_page p x -> chain_page p y -> x = y.
Proof.
  intros (h & Hh & Hx) (h' & Hh' & Hy).
  assert (Hk : forall hh c, p = page_of hh c -> page_kind p = Ok (h_kind hh) /\ page_content p = c).
  { intros hh c ->. by rewrite page_of_kind, page_of_content. }
  destruct x as [l|k i], y as [l'|k' i']; destruct Hx as (Kx & Px & Hx), Hy as (Ky & Py & Hy);
    destruct (Hk _ _ Px) as [K1 C1], (Hk _ _ Py) as [K2 C2]; rewrite K1, Kx, Ky in K2; try discriminate.
  - f_equal. apply (content_fun p); [done|apply Hx|done|apply Hy].
  - pose proof (content_fun p _ _ C1 Hx C2 Hy) as E. by injection E as -> ->.
Qed.

Lemma chain_at_fun m addr xs ys : chain_at m addr xs -> chain_at m addr ys -> xs = ys.
Proof.
  intros (l & Hc & Hp) (l' & Hc' & Hp'). pose proof (heap_chain_fun _ _ _ _ Hc Hc') as <-.
  clear Hc Hc'. revert ys Hp'; induction Hp as [|ap x l xs Hx _ IH]; intros ys Hp'; inversion Hp'; subst; [done|].
  f_equal; [by eapply chain_page_fun|by apply IH].
Qed.

(** The head of a chain. *)
Lemma chain_at_head m addr xs page :
  addr <> 0 -> m !! addr = Some page -> chain_at m addr xs ->
  exists h c, header_ok h /\ page = page_of h c.
Proof.
  intros Hne Ha (l & Hc & Hp). inversion Hc as [|? page' ? _ Ha' _]; subst; [done|].
  rewrite Ha in Ha'. injection Ha' as <-. inversion Hp as [|? x ? ? Hx]; subst. simpl in Hx.
  destruct Hx as (h & Hh & Hx). destruct x; destruct Hx as (_ & Hx & _); eauto.
Qed.

(** A page in front of a chain. *)
Lemma chain_at_cons m addr new h (l : list (K * V)) xs :
  new <> 0 -> m !! new = None -> header_ok h -> h_kind h = DataPage -> h_chain_next h = addr ->
  items_ok l -> key_strict l -> chain_at m addr xs ->
  chain_at (<[new := page_of h (content_of l)]> m) new (CData l :: xs).
Proof.
  intros Hne Hn Hh Hk Hnext Hok Hs (ps & Hc & Hp). exists ((new, page_of h (content_of l)) :: ps).
  split.
  - constructor; [done|apply lookup_insert_eq|]. rewrite page_of_chain_next by done. rewrite Hnext.
    eapply heap_chain_mono; [|done]. by apply insert_subseteq.
  - constructor; [|done]. by exists h.
Qed.
End chain_at.

(** ** Routing from the root *)

Definition child_range (parent child : Range) : Range :=
  mkRange (range_start child) (match range_end child with Some e => Some e | None => range_end parent end).

(** The path of a key through the tree, in at most [n] pages whose chains are
    shorter than [fuel]: the leaf and its parent. Every page has the epoch its
    parent expects. *)
Inductive route (fuel : nat) (t : gmap Z Z) (m : gmap Z (list Z)) (key : list Z) :
    nat -> Index -> Range -> option PageView -> PageView * option PageView -> Prop :=
  | route_leaf n idx rng par addr page :
      t !! idx_id idx = Some addr -> m !! addr = Some page ->
      info_epoch (page_info page) = idx_epoch idx -> info_tier (page_info page) = Ok Leaf ->
      route fuel t m key (S n) idx rng par
        (mkPageView (idx_id idx) addr (page_info page) (Some rng), par)
  | route_inner n idx rng par addr page xs child crng out :
      t !! idx_id idx = Some addr -> m !! addr = Some page ->
      info_epoch (page_info page) = idx_epoch idx -> info_tier (page_info page) = Ok BasePage.Inner ->
      chain_at (K := list Z) (V := Index) m addr xs -> (length xs < fuel)%nat ->
      chain_child key xs = Some (child, crng) ->
      route fuel t m key n child (child_range rng crng)
        (Some (mkPageView (idx_id idx) addr (page_info page) (Some rng))) out ->
      route fuel t m key (S n) idx rng par out.

Lemma route_mono fuel fuel' t m key n n' idx rng par out :
  (fuel <= fuel')%nat -> (n <= n')%nat ->
  route fuel t m key n idx rng par out -> route fuel' t m key n' idx rng par out.
Proof.
  intros Hf Hn Hr. revert n' Hn; induction Hr; intros n' Hn; (destruct n' as [|n']; [lia|]).
  - by constructor.
  - eapply route_inner; [done..|lia|done|]. apply IHHr. lia.
Qed.

Lemma route_fun fuel t m key n idx rng par out out' :
  route fuel t m key n idx rng par out -> route fuel t m key n idx rng par out' -> out = out'.
Proof.
  induction 1 as [n idx rng par addr page H1 H2 H3 H4|n idx rng par addr page xs child crng out H1 H2 H3 H4 H5 H6 H7 _ IH];
    inversion 1; simplify_eq; try done; try congruence.
  apply IH. assert (xs = xs0) as <- by (by eapply chain_at_fun). by simplify_eq.
Qed.

(** Loading a page of the heap. *)
Lemma page_view_ok s t m room id addr page range :
  heap_inv s t m room -> t !! id = Some addr -> m !! addr = Some page ->
  page_view id range s = (Ok (mkPageView id addr (page_info page) range), s).
Proof.
  intros Hi H1 H2. destruct (heap_inv_read _ _ _ _ _ _ Hi H2) as [_ Hri]. unfold page_view.
  st_step (heap_inv_addr _ _ _ _ _ _ Hi H1). by rewrite (st_bind_ok _ _ _ _ _ Hri).
Qed.

(** One step down from an inner page. *)
Lemma find_leaf_inner fm opts fuel safe s t m room key n idx rng par addr page xs child crng :
  heap_inv s t m room -> t !! idx_id idx = Some addr -> m !! addr = Some page ->
  info_epoch (page_info page) = idx_epoch idx -> info_tier (page_info page) = Ok BasePage.Inner ->
  chain_at (K := list Z) (V := Index) m addr xs -> (length xs < fuel)%nat ->
  chain_child key xs = Some (child, crng) ->
  find_leaf_loop fm opts fuel safe (S n) key idx rng par s =
    find_leaf_loop fm opts fuel safe n key child (child_range rng crng)
      (Some (mkPageView (idx_id idx) addr (page_info page) (Some rng))) s.
Proof.
  intros Hi H1 H2 H3 H4 H5 H6 H7. cbn [find_leaf_loop]. st_step (page_view_ok _ _ _ _ _ _ _ (Some rng) Hi H1 H2).
  cbn [pv_page]. rewrite H3, Z.eqb_refl. cbn [negb]. rewrite (st_bind_ok _ _ s _ s) by (unfold lift; by rewrite H4).
  change (is_leaf BasePage.Inner) with false. cbn match.
  assert (Hfc : find_child fuel key (mkPageView (idx_id idx) addr (page_info page) (Some rng)) s
    = (Ok (Some (child, crng)), s)).
  { destruct (chain_at_holds _ _ _ _ _ _ Hi H5) as (l & Hc & Hp). unfold find_child. cbn [pv_addr].
    rewrite (walk_page_chain _ _ _ _ _ l) by (try done; by rewrite (Forall2_length _ _ _ Hp)).
    by rewrite (find_child_walk key l xs Hp), H7. }
  st_step Hfc. by rewrite (st_bind_ok _ _ s (child, crng) s) by done.
Qed.

(** Descending the tree follows the path. *)
Lemma find_leaf_route fm opts fuel safe s t m room key n idx rng par out :
  heap_inv s t m room -> route fuel t m key n idx rng par out ->
  find_leaf_loop fm opts fuel safe n key idx rng par s = (Ok out, s).
Proof.
  intros Hi. induction 1 as [n idx rng par addr page H1 H2 H3 H4|n idx rng par addr page xs child crng out H1 H2 H3 H4 H5 H6 H7 _ IH].
  - cbn [find_leaf_loop]. st_step (page_view_ok _ _ _ _ _ _ _ (Some rng) Hi H1 H2). cbn [pv_page].
    rewrite H3, Z.eqb_refl. cbn [negb]. by rewrite (st_bind_ok _ _ s _ s) by (unfold lift; by rewrite H4).
  - by erewrite find_leaf_inner.
Qed.

Lemma find_leaf_ok fm opts fuel safe s t m room key out :
  heap_inv s t m room -> route fuel t m key fuel ROOT_INDEX ROOT_RANGE None out ->
  find_leaf fm opts fuel safe key s = (Ok out, s).
Proof.
  intros Hi Hr. unfold find_leaf. destruct fuel as [|fuel]; [by inversion Hr|]. cbn [find_leaf_retry].
  rewrite (st_bind_ok _ _ s (inl out) s); [done|]. unfold attempt, try_find_leaf.
  by rewrite (find_leaf_route _ _ _ _ _ _ _ _ _ _ _ _ _ _ Hi Hr).
Qed.

(** What a reader of a key at an LSN sees. *)
Definition tree_reads (fuel : nat) (t : gmap Z Z) (m : gmap Z (list Z)) (q : Key) (v : option (list Z)) : Prop :=
  exists view par xs,
    route fuel t m (raw q) fuel ROOT_INDEX ROOT_RANGE None (view, par) /\
    chain_at m (pv_addr view) xs /\ newest_first (omap data_of xs) /\ (length xs < fuel)%nat /\
    v = value_at q (kmerge (omap data_of xs)).

(** ** Point reads *)

Lemma find_value_at fuel s t m room q view xs :
  heap_inv s t m room -> chain_at m (pv_addr view) xs -> newest_first (omap data_of xs) -> (length xs < fuel)%nat ->
  find_value fuel q view s = (Ok (value_at q (kmerge (omap data_of xs))), s).
Proof.
  intros Hi Hc Hn Hf. pose proof (chain_at_holds _ _ _ _ _ _ Hi Hc) as Hh. pose proof (chain_sorted _ _ _ Hh) as Hs.
  destruct Hh as (l & Hch & Hp). unfold find_value.
  rewrite (walk_page_chain _ _ _ _ _ l) by (try done; by rewrite (Forall2_length _ _ _ Hp)).
  rewrite (find_value_walk q l xs Hp). unfold value_at. by rewrite (chain_version_merge q xs Hs Hn).
Qed.

(** [C5] Reading the tree: on a store that holds the table and the heap, [tree_get]
    returns the value the abstract tree gives the key at its LSN, following the
    path from the root to the leaf and the chain of the leaf, and leaves the store
    as it is. *)
Theorem tree_get_refines fm opts (fuel : nat) (safe : Z) (s : Store) (t : gmap Z Z)
    (m : gmap Z (list Z)) (room : Z) (q : Key) (v : option (list Z)) :
  heap_inv s t m room -> tree_reads fuel t m q v ->
  tree_get fm opts fuel safe q s = (Ok v, s).
Proof.
  intros Hi (view & par & xs & Hr & Hc & Hn & Hf & ->). unfold tree_get.
  st_step (find_leaf_ok fm opts _ safe _ _ _ _ _ _ Hi Hr). by eapply find_value_at.
Qed.

(** ** Writes *)

(** Prepending a page to the chain of a leaf: paths keep their pages, and the paths
    that end in this leaf end in the new page. *)
Lemma route_prepend fuel t m id addr old new page key n idx rng par view par' :
  t !! id = Some addr -> m !! addr = Some old -> info_tier (page_info old) = Ok Leaf ->
  m !! new = None -> info_epoch (page_info page) = info_epoch (page_info old) ->
  info_tier (page_info page) = Ok Leaf ->
  route fuel t m key n idx rng par (view, par') ->
  exists view', route fuel (<[id := new]> t) (<[new := page]> m) key n idx rng par (view', par') /\
    (pv_id view = id /\ pv_addr view = addr /\ view' = mkPageView id new (page_info page) (pv_range view) \/
     pv_id view <> id /\ pv_addr view' = pv_addr view).
Proof.
  intros Hid Ha Hl Hn He Hl' Hr. remember (view, par') as out eqn:Eo.
  assert (Hsub : m ⊆ <[new := page]> m) by (by apply insert_subseteq).
  induction Hr as [n idx rng par a pg H1 H2 H3 H4|n idx rng par a pg xs child crng out H1 H2 H3 H4 H5 H6 H7 _ IH].
  - injection Eo as <- <-. cbn [pv_id pv_addr]. destruct (decide (idx_id idx = id)) as [Ei|Ei].
    + subst id. simplify_eq. exists (mkPageView (idx_id idx) new (page_info page) (Some rng)).
      split; [|left; by split_and!].
      apply route_leaf; [apply lookup_insert_eq|apply lookup_insert_eq|congruence|done].
    + exists (mkPageView (idx_id idx) a (page_info pg) (Some rng)). split; [|by right].
      apply route_leaf; [by rewrite lookup_insert_ne|by eapply lookup_weaken|done|done].
  - destruct (IH Eo) as (view' & Hr' & Hv). exists view'. split; [|done].
    eapply route_inner; [|by eapply lookup_weaken|done|done|by eapply chain_at_mono|done|done|done].
    rewrite lookup_insert_ne; [done|]. intros Ei. subst id. simplify_eq. congruence.
Qed.

(** The value a write leaves for a reader. *)
Definition read_after (key : Key) (value : Value) (q : Key) (v : option (list Z)) : option (list Z) :=
  if decide (raw key = raw q /\ lsn key <= lsn q) then
    match value with Put v => Some v | Delete => None end
  else v.

Lemma reads_delta key value q xs :
  Forall key_sorted (omap data_of xs) -> newest_first (omap data_of xs) ->
  (forall l x, l ∈ omap data_of xs -> x ∈ l -> raw x.1 = raw key -> lsn x.1 <= lsn key) ->
  newest_first (omap data_of (CData [(key, value)] :: xs)) /\
  value_at q (kmerge (omap data_of (CData [(key, value)] :: xs))) =
    read_after key value q (value_at q (kmerge (omap data_of xs))).
Proof.
  intros Hs Hn Hnew.
  assert (Hn' : newest_first (omap data_of (CData [(key, value)] :: xs))).
  { cbn. constructor; [done|]. apply Forall_forall. intros l Hl x y Hx Hy Er.
    apply list_elem_of_singleton in Hx as ->. simpl in *. by apply (Hnew l). }
  split; [done|]. unfold value_at, read_after.
  rewrite <- (chain_version_merge q xs Hs Hn), <- (chain_version_merge q _); [|constructor; [repeat constructor|done]|done].
  cbn [chain_version version_at]. by case_decide.
Qed.

Lemma route_view fuel t m key n idx rng par view par' :
  route fuel t m key n idx rng par (view, par') ->
  exists page range, view = mkPageView (pv_id view) (pv_addr view) (page_info page) range /\
    t !! pv_id view = Some (pv_addr view) /\ m !! pv_addr view = Some page /\
    info_tier (page_info page) = Ok Leaf.
Proof.
  intros Hr. remember (view, par') as out eqn:Eo. induction Hr; [|by apply IHHr].
  injection Eo as <- <-. cbn [pv_id pv_addr]. eauto 10.
Qed.

(** The page a write prepends to the chain of a leaf whose page at [addr] has header [h]. *)
Definition delta_page (h : Header) (addr : Z) (key : Key) (value : Value) : list Z :=
  page_of (mkHeader (h_epoch h) Leaf DataPage (sat_add_u8 (h_chain_len h)) addr) (content_of [(key, value)]).

Lemma linked_header_ok h epoch tier kind addr :
  header_ok h -> fits 48 epoch -> fits 64 addr ->
  header_ok (mkHeader epoch tier kind (sat_add_u8 (h_chain_len h)) addr).
Proof. intros (_ & H2 & _) He Ha. split_and!; [exact He| |exact Ha]. unfold sat_add_u8, fits in *. simpl. lia. Qed.

Lemma delta_header_ok h addr :
  header_ok h -> fits 64 addr ->
  header_ok (mkHeader (h_epoch h) Leaf DataPage (sat_add_u8 (h_chain_len h)) addr).
Proof. intros Hh Ha. apply linked_header_ok; [done|apply Hh|done]. Qed.

Lemma page_of_info_tier h c : header_ok h -> info_tier (page_info (page_of h c)) = Ok (h_tier h).
Proof. intros Hh. unfold info_tier. by rewrite page_of_info_flags, flags_new_tier by done. Qed.

Lemma should_consolidate_leaf opts h c :
  header_ok h -> h_tier h = Leaf ->
  should_consolidate_page opts (page_info (page_of h c)) =
    Ok (Nat.max (opt_page_chain_length opts) 1 <? h_chain_len h).
Proof.
  intros Hh Ht. unfold should_consolidate_page. rewrite page_of_info_tier, Ht by done. cbn [mbind res_bind].
  by rewrite page_of_info_chain_len by done.
Qed.

(** [try_write] up to the point where the delta is in the tree; what is left is the
    decision to consolidate. *)
Lemma try_write_publish fm opts fuel safe s t m room key value view par xs :
  heap_inv s t m room -> route fuel t m (raw key) fuel ROOT_INDEX ROOT_RANGE None (view, par) ->
  chain_at (K := Key) (V := Value) m (pv_addr view) xs ->
  builder_size (content_size [(key, value)]) <= 2 ^ 32 - 24 ->
  page_need [(key, value)] <= room -> (1 < fuel)%nat ->
  should_split_page opts (pv_page view) = Ok false ->
  exists s' new h c,
    let page := delta_page h (pv_addr view) key value in
    let view' := mkPageView (pv_id view) new (page_info page) (pv_range view) in
    try_write fm opts fuel safe key value s =
      (b ← lift (should_consolidate_page opts (pv_page view'));
       if b : bool then _ ← attempt (consolidate_and_restructure_page fm opts fuel safe view'); mret tt
       else mret tt) s' /\
    pv_page view = page_info (page_of h c) /\
    m !! pv_addr view = Some (page_of h c) /\ header_ok h /\ h_tier h = Leaf /\
    m !! new = None /\ new <> 0 /\ 0 <> pv_addr view /\ fits 64 (pv_addr view) /\
    heap_inv s' (<[pv_id view := new]> t) (<[new := page]> m) (room - page_need [(key, value)]).
Proof.
  intros Hi Hr Hc Hsz Hroom Hfuel Hsp.
  destruct (route_view _ _ _ _ _ _ _ _ _ _ Hr) as (page & range & Hview & Hid & Ha & Htier).
  assert (Hb : 0 < pv_addr view /\ fits 64 (pv_addr view)).
  { destruct Hi as (b & sb & rs & free & Hb & _ & _ & _ & Hm & _). by eapply heap_addr_bounds. }
  destruct Hb as [Hpos H64].
  destruct (chain_at_head m (pv_addr view) xs page ltac:(lia) Ha Hc) as (h & c & Hh & ->).
  rewrite page_of_info_tier in Htier by done. injection Htier as Htier.
  destruct (publish_delta fm fuel s t m room (pv_id view) (pv_addr view) h c range key value
    Hi Hid Ha Hh Hsz Hroom Hfuel) as (txn & new & p0 & txn1 & s1 & s2 & Hbg & Hbp & Hwl & Hnew & Hne & Hi').
  exists s2, new, h, c. cbv zeta. split_and!; [|by rewrite Hview|done|done|done|done|done|lia|done|exact Hi'].
  unfold try_write. st_step (find_leaf_ok fm opts _ safe _ _ _ _ _ _ Hi Hr).
  rewrite (st_bind_ok _ _ s false s) by (unfold lift; by rewrite Hsp).
  cbn match. rewrite (st_bind_ok _ _ s false s) by done. cbn match.
  st_step Hbg. st_step Hbp.
  rewrite Hview in *. cbn [pv_id pv_addr pv_page pv_range] in *. by st_step Hwl.
Qed.

(** What readers see after the delta is in the tree. *)
Lemma delta_reads fuel s t m room key value view par xs h c new :
  heap_inv s t m room -> route fuel t m (raw key) fuel ROOT_INDEX ROOT_RANGE None (view, par) ->
  chain_at m (pv_addr view) xs ->
  (forall l x, l ∈ omap data_of xs -> x ∈ l -> raw x.1 = raw key -> lsn x.1 <= lsn key) ->
  items_ok [(key, value)] -> m !! pv_addr view = Some (page_of h c) -> header_ok h -> fits 64 (pv_addr view) ->
  m !! new = None -> new <> 0 ->
  let page := delta_page h (pv_addr view) key value in
  let t' := <[pv_id view := new]> t in
  let m' := <[new := page]> m in
  chain_at m' new (CData [(key, value)] :: xs) /\
  route fuel t' m' (raw key) fuel ROOT_INDEX ROOT_RANGE None
    (mkPageView (pv_id view) new (page_info page) (pv_range view), par) /\
  forall q v, tree_reads fuel t m q v -> tree_reads (S fuel) t' m' q (read_after key value q v).
Proof.
  intros Hi Hr Hc Hnew Hok Ha Hh H64 Hnone Hne page t' m'.
  pose proof (delta_header_ok h (pv_addr view) Hh H64) as Hh'.
  destruct (route_view _ _ _ _ _ _ _ _ _ _ Hr) as (page0 & range & _ & Hid & Ha' & Htier).
  rewrite Ha in Ha'. injection Ha' as <-.
  assert (Hprep : forall q vq pq, route fuel t m q fuel ROOT_INDEX ROOT_RANGE None (vq, pq) -> exists vq',
    route fuel t' m' q fuel ROOT_INDEX ROOT_RANGE None (vq', pq) /\
    (pv_id vq = pv_id view /\ pv_addr vq = pv_addr view /\ vq' = mkPageView (pv_id view) new (page_info page) (pv_range vq) \/
     pv_id vq <> pv_id view /\ pv_addr vq' = pv_addr vq)).
  { intros q vq pq Hq. eapply route_prepend; [done|exact Ha|done|done| | |exact Hq].
    - unfold page, delta_page. by rewrite !page_of_info_epoch.
    - unfold page, delta_page. by rewrite page_of_info_tier. }
  assert (Hcn : chain_at m' new (CData [(key, value)] :: xs)).
  { apply (chain_at_cons m (pv_addr view)); try done. by repeat constructor. }
  split_and!; [exact Hcn| |].
  { destruct (Hprep _ _ _ Hr) as (v' & Hr' & [(_ & _ & ->)|[]]); done. }
  intros q v (vq & pq & xq & Hrq & Hcq & Hnq & Hfq & ->).
  destruct (Hprep _ _ _ Hrq) as (vq' & Hrq' & Hvq').
  apply (route_mono _ (S fuel) _ _ _ _ (S fuel)) in Hrq'; [|lia..].
  pose proof (chain_sorted _ _ _ (chain_at_holds _ _ _ _ _ _ Hi Hcq)) as Hsq.
  destruct Hvq' as [(Hidq & Haq & Hvq')|[Hidq Hvq']].
  - rewrite Haq in Hcq. pose proof (chain_at_fun _ _ _ _ Hc Hcq) as <-.
    destruct (reads_delta key value q xs Hsq Hnq Hnew) as [Hn' Hv'].
    exists vq', pq, (CData [(key, value)] :: xs). rewrite Hvq' in *. split_and!; [done|done|done|simpl; lia|done].
  - exists vq', pq, xq. rewrite Hvq'. split_and!; [done| |done|lia|].
    + eapply chain_at_mono; [|done]. by apply insert_subseteq.
    + unfold read_after. rewrite decide_False; [done|]. intros [Er _]. apply Hidq.
      rewrite Er in Hr. pose proof (route_fun _ _ _ _ _ _ _ _ _ _ Hr Hrq) as E. by injection E as -> _.
Qed.

(** [C4] Writing the tree: when the key is routed to a leaf that need not be split,
    whose chain may grow by one and holds no newer version of the key, and the
    active buffer has room, [tree_write] succeeds at its first try; afterwards
    readers of the key at or after its LSN see the new value (or none after a
    delete), and every other reader, of this or of any other key, sees what it saw
    before. *)
Theorem tree_write_refines fm opts (fuel n : nat) (safe : Z) (s : Store) (t : gmap Z Z)
    (m : gmap Z (list Z)) (room : Z) (key : Key) (value : Value) (view : PageView)
    (par : option PageView) (xs : list (ChainPage Key Value)) :
  heap_inv s t m room -> route fuel t m (raw key) fuel ROOT_INDEX ROOT_RANGE None (view, par) ->
  chain_at m (pv_addr view) xs ->
  (forall l x, l ∈ omap data_of xs -> x ∈ l -> raw x.1 = raw key -> lsn x.1 <= lsn key) ->
  items_ok [(key, value)] -> builder_size (content_size [(key, value)]) <= 2 ^ 32 - 24 ->
  page_need [(key, value)] <= room -> (1 < fuel)%nat ->
  should_split_page opts (pv_page view) = Ok false ->
  sat_add_u8 (info_chain_len (pv_page view)) <= Nat.max (opt_page_chain_length opts) 1 ->
  exists s' t' m', tree_write fm opts fuel safe (S n) key value s = (Ok tt, s') /\
    heap_inv s' t' m' (room - page_need [(key, value)]) /\
    forall q v, tree_reads fuel t m q v -> tree_reads (S fuel) t' m' q (read_after key value q v).
Proof.
  intros Hi Hr Hc Hnew Hok Hsz Hroom Hfuel Hsp Hcl.
  destruct (try_write_publish fm opts fuel safe s t m room key value view par xs Hi Hr Hc Hsz Hroom Hfuel Hsp)
    as (s' & new & h & c & Hw & Hpg & Ha & Hh & Ht & Hnone & Hne & Hne0 & H64 & Hi').
  rewrite Hpg, page_of_info_chain_len in Hcl by done. eexists s', _, _. split_and!; [|exact Hi'|].
  - cbn [tree_write]. rewrite (st_bind_ok _ _ s (inl tt) s'); [done|]. unfold attempt. rewrite Hw. cbn [pv_page].
    unfold delta_page. rewrite should_consolidate_leaf by (done || by apply delta_header_ok).
    cbn [h_chain_len]. by rewrite (proj2 (Z.ltb_ge _ _) Hcl).
  - by eapply delta_reads.
Qed.

(** ** A new tree *)

Definition root_page : list Z :=
  page_of (built_header (mkPageBuilder Leaf DataPage)) (content_of ([] : list (Key * Value))).

Lemma root_reads fuel addr q :
  addr <> 0 -> (1 < fuel)%nat -> tree_reads fuel {[ROOT_ID := addr]} {[addr := root_page]} q None.
Proof.
  intros Hne Hf. destruct fuel as [|fuel]; [lia|].
  exists (mkPageView ROOT_ID addr (page_info root_page) (Some ROOT_RANGE)), None, [CData []].
  split_and!; [| | |simpl; lia|done].
  - apply route_leaf; [apply lookup_singleton_eq|apply lookup_singleton_eq|done|done].
  - exists [(addr, root_page)]. split.
    + constructor; [done|apply lookup_singleton_eq|]. change (page_chain_next root_page) with 0. constructor.
    + constructor; [|done]. eexists. split; [|split; [|split; [done|]]]; [done|done|].
      split; [split; [constructor|vm_compute; congruence]|constructor].
  - repeat constructor.
Qed.

(** Creating the tree: on an empty page store whose buffer has room for one
    empty page, [tree_init] puts an empty leaf under the root id, and every reader
    of every key sees no value. *)
Theorem tree_init_refines fm (fuel : nat) (s : Store) (room : Z) :
  heap_inv s ∅ ∅ room -> st_table s = inner_default ->
  page_need ([] : list (Key * Value)) <= room -> (0 < fuel)%nat ->
  exists s' addr, tree_init fm fuel s = (Ok tt, s') /\
    heap_inv s' {[ROOT_ID := addr]} {[addr := root_page]} (room - page_need ([] : list (Key * Value))) /\
    forall q, tree_reads (S fuel) {[ROOT_ID := addr]} {[addr := root_page]} q None.
Proof.
  intros (b & sb & rs & free & Hb & He & Ht & _ & Hm & Hse & Hnw & ->) Htab Hroom Hfuel.
  destruct (heap_begin s b sb rs _ free ∅ Hb He Ht Hm Hse) as [Hbg Hth].
  set (txn := mkPageTxn (wb_group_id b) false [] []) in *.
  set (l := [] : list (Key * Value)) in *.
  assert (Hd : denotes (item_iter_from (None : option (Key * Value))) l l) by done.
  assert (Hfree : free = []).
  { destruct free as [|x free]; [done|]. rewrite Htab in Ht.
    pose proof (proj2 (inv_cover _ _ _ Ht x) (or_intror (list_elem_of_here _ _))) as Hc. change (1 <= x < 1) in Hc. lia. }
  subst free.
  destruct (new_page_ok fm fuel Leaf DataPage (item_iter_from (None : option (Key * Value))) l s txn b sb rs _ [] ∅
    Hth Hd Hfuel ltac:(vm_compute; congruence) Hse ltac:(lia) (λ _, Hnw) ltac:(by rewrite Htab))
    as (new & id & txn1 & txn2 & b3 & s1 & s2 & s3 & rs3 & free' & Hbp & Hw & Hip & Hbid & Hhold & Hid & _ & _ &
        Hv3 & _ & _ & Hz & _ & _ & Hne & Hth3).
  rewrite Htab in Hid. change (id = ROOT_ID) in Hid. subst id. fold root_page in Hbp, Hw, Hth3.
  destruct (heap_commit s3 _ b3 _ rs3 _ free' _ Hth3 Hhold) as (s4 & b4 & Hcm & Hz4 & Htab4 & He4 & Hb4 & Hm4).
  exists s4, new. split_and!; [| |intros q; apply root_reads; [done|lia]].
  - unfold tree_init. rewrite (st_bind_ok _ _ s 0 s) by (unfold guard_page_addr; by rewrite Htab).
    cbn [Z.eqb negb]. st_step Hbg. st_step Hbp.
    st_step Hw. st_step Hip.
    by rewrite (st_bind_ok _ _ s3 tt s3) by done.
  - cbn [tx_buffer_id] in *. rewrite Hbid in *. unfold txn in *. cbn [tx_buffer_id tx_hold_write_guard] in *.
    pose proof (sbuf_group _ _ _ _ _ Hb4) as Hg4. exists b4, (sub_writer (add_alloc (page_need l) true sb)), rs3, free'.
    rewrite Hg4. split_and!; [exact Hb4|done| | |exact Hm4|done|simpl; lia|simpl; lia].
    + rewrite Htab4, dom_singleton_L.
      replace ({[ROOT_ID]} ∪ dom (∅ : gmap Z Z)) with ({[ROOT_ID]} : gset Z) in Hth3 by set_solver.
      exact (txi_table _ _ _ _ _ _ _ (th_inv _ _ _ _ _ _ _ _ Hth3)).
    + apply map_Forall_singleton. by rewrite Htab4.
Qed.

(** ** Witnesses *)

(** A store with one buffer and nothing in it. *)
Lemma empty_store_heap : heap_inv empty_store ∅ ∅ 4096.
Proof.
  exists (fresh_buffer 1 (replicate 4096 0)), state_default, [], []. split_and!; try done.
  - constructor; [|done|done|done|].
    + split_and!; [done|by vm_compute|done|].
      intros i x Hi%list_lookup_singleton_Some. destruct Hi as [-> <-]. done.
    + apply fresh_buffer_repr; [unfold fits; lia|rewrite length_replicate; lia].
  - replace (dom (∅ : gmap Z Z)) with (∅ : gset Z) by set_solver. apply table_inv_default.
Qed.

Lemma tree_init_refines_witness :
  exists s' addr, tree_init zero_mem 1 empty_store = (Ok tt, s') /\
    heap_inv s' {[ROOT_ID := addr]} {[addr := root_page]} 4064 /\
    forall q, tree_reads 2 {[ROOT_ID := addr]} {[addr := root_page]} q None.
Proof.
  exact (tree_init_refines zero_mem 1 empty_store 4096 empty_store_heap eq_refl
    ltac:(vm_compute; congruence) ltac:(lia)).
Defined.

(** A tree whose root is a leaf with a delta over a base page. *)
Definition leaf_pages : gmap Z (list Z) :=
  <[16 := page_of (mkHeader 0 Leaf DataPage 2 8) (content_of leaf_delta)]>
  {[8 := page_of (mkHeader 0 Leaf DataPage 1 0) (content_of leaf_base)]}.
Definition leaf_tree : Store :=
  mkStore (mkInner {[loc_of 1 := 16]} 2 0) (mkBufferSetVersion 9 10 [] (fresh_buffer 9 (replicate 256 0)))
    9 leaf_pages (page_info <$> leaf_pages) 256 0.

Lemma leaf_tree_heap : heap_inv leaf_tree {[1 := 16]} leaf_pages 256.
Proof.
  exists (fresh_buffer 9 (replicate 256 0)), state_default, [], []. split_and!; try done.
  - constructor; [|done|done|done|].
    + split_and!; [done|by vm_compute|done|].
      intros i x Hi%list_lookup_singleton_Some. destruct Hi as [-> <-]. done.
    + apply fresh_buffer_repr; [unfold fits; lia|rewrite length_replicate; lia].
  - rewrite dom_singleton_L. constructor; simpl; [constructor|constructor|set_solver|vm_compute; split; congruence|].
    intros id. unfold MIN_ID. set_unfold. lia.
  - by apply map_Forall_singleton.
  - apply map_Forall_insert_2; [|apply map_Forall_singleton]; left; split; try (vm_compute; split; done).
Qed.

Definition leaf_page_list : list (Z * list Z) :=
  [(16, page_of (mkHeader 0 Leaf DataPage 2 8) (content_of leaf_delta));
   (8, page_of (mkHeader 0 Leaf DataPage 1 0) (content_of leaf_base))].

Lemma leaf_tree_pages :
  heap_chain leaf_pages 16 leaf_page_list /\
  Forall2 (λ ap x, chain_page ap.2 x) leaf_page_list [CData leaf_delta; CData leaf_base].
Proof. solve_chain. Qed.

Lemma leaf_tree_chain : chain_at leaf_pages 16 [CData leaf_delta; CData leaf_base].
Proof. exists leaf_page_list. apply leaf_tree_pages. Qed.

Definition leaf_view : PageView :=
  mkPageView 1 16 (page_info (page_of (mkHeader 0 Leaf DataPage 2 8) (content_of leaf_delta))) (Some ROOT_RANGE).

Lemma leaf_tree_route key : route 3 {[1 := 16]} leaf_pages key 3 ROOT_INDEX ROOT_RANGE None (leaf_view, None).
Proof. by apply route_leaf. Qed.

Lemma leaf_tree_newest : newest_first (omap data_of [CData leaf_delta; CData leaf_base]).
Proof.
  repeat constructor. intros x y Hx Hy _. apply list_elem_of_singleton in Hx as ->.
  change (y ∈ leaf_base) in Hy. unfold leaf_base in Hy. rewrite !elem_of_cons in Hy.
  destruct Hy as [->|[->|[->|[]%not_elem_of_nil]]]; simpl; lia.
Qed.

Lemma tree_get_refines_witness :
  tree_get zero_mem (mkTreeOptions 4096 4) 3 0 (mkKey [1] 4) leaf_tree = (Ok (Some [3]), leaf_tree) /\
  tree_get zero_mem (mkTreeOptions 4096 4) 3 0 (mkKey [1] 6) leaf_tree = (Ok None, leaf_tree).
Proof.
  assert (Hr : forall q, tree_reads 3 {[1 := 16]} leaf_pages q (value_at q (kmerge [leaf_delta; leaf_base]))).
  { intros q. exists leaf_view, None, [CData leaf_delta; CData leaf_base].
    split_and!; [apply leaf_tree_route|apply leaf_tree_chain|apply leaf_tree_newest|simpl; lia|done]. }
  split; (eapply (tree_get_refines zero_mem (mkTreeOptions 4096 4) 3 0 leaf_tree {[1 := 16]} leaf_pages 256);
    [apply leaf_tree_heap|apply Hr]).
Defined.

Lemma tree_write_refines_witness :
  exists s' t' m',
    tree_write zero_mem (mkTreeOptions 4096 4) 3 0 1 (mkKey [7] 6) (Put [6]) leaf_tree = (Ok tt, s') /\
    heap_inv s' t' m' (256 - page_need [(mkKey [7] 6, Put [6])]) /\
    forall q v, tree_reads 3 {[1 := 16]} leaf_pages q v ->
      tree_reads 4 t' m' q (read_after (mkKey [7] 6) (Put [6]) q v).
Proof.
  eapply (tree_write_refines zero_mem (mkTreeOptions 4096 4) 3 0 0 leaf_tree {[1 := 16]} leaf_pages 256
    (mkKey [7] 6) (Put [6]) leaf_view None _ leaf_tree_heap (leaf_tree_route [7]) leaf_tree_chain).
  - intros l x Hl Hx Hr. change (l ∈ [leaf_delta; leaf_base]) in Hl. unfold leaf_delta, leaf_base in Hl.
    rewrite !elem_of_cons in Hl.
    destruct Hl as [->|[->|[]%not_elem_of_nil]]; rewrite !elem_of_cons in Hx.
    + destruct Hx as [->|[]%not_elem_of_nil]. done.
    + destruct Hx as [->|[->|[->|[]%not_elem_of_nil]]]; [done..|]. simpl. lia.
  - split; [by repeat constructor|vm_compute; congruence].
  - vm_compute; congruence.
  - vm_compute; congruence.
  - lia.
  - by vm_compute.
  - vm_compute; congruence.
Defined.
