(* ===== verification/TreeConsolidate.v ===== *)
(** * Consolidating a leaf ([consolidate_page] of [tree/mod.rs])

    A consolidation that takes in the whole chain of a leaf changes no value a
    reader at or after the safe LSN sees, anywhere in the tree. The condition that
    the whole chain is taken in is spelled out as [no_stop]; without it the
    statement is false: a consolidation that stops before a large base page drops the
    tombstones at or below the safe LSN among the pages it takes, although the versions
    they hide may be in the pages behind. [partial_consolidation_reads] says what readers
    see after any consolidation; without such tombstones it is what they saw before
    ([merged_version]). *)

From stdpp Require Import base numbers list sorting gmap.
From Stdlib Require Import ZArith Lia.
From S2P Require Import Prelude Data Codec BasePage Iter SortedPage PageTable WriteBuffer.
From S2P Require Import BufferSet PageTxn PageHeap TreePage Tree TreeLaws TreeRefine.

(** ** Collecting the pages of a chain *)

(** The walk over [pages] never stops early, after [n] data pages of [size] bytes. *)
Fixpoint no_stop (opts : TreeOptions) (n size : nat) (pages : list (list Z)) : Prop :=
  match pages with
  | [] => True
  | p :: pages =>
      ((n < 2)%nat \/ (page_size p / 2 <= size)%nat \/ should_consolidate_page opts (page_info p) = Ok true) /\
      no_stop opts (S n) (size + page_size p) pages
  end.

(** Whether the walk stops before the page [p], and how many pages it takes. *)
Definition stops (opts : TreeOptions) (n size : nat) (p : list Z) : bool :=
  match page_tier p, should_consolidate_page opts (page_info p) with
  | Ok tier, Ok b => is_leaf tier && (2 <=? n)%nat && bool_decide (size < page_size p / 2)%nat && negb b
  | _, _ => false
  end.
Fixpoint taken (opts : TreeOptions) (n size : nat) (pages : list (list Z)) : nat :=
  match pages with
  | [] => O
  | p :: pages => if stops opts n size p then O else S (taken opts (S n) (size + page_size p) pages)
  end.

Lemma taken_le opts n size pages : (taken opts n size pages <= length pages)%nat.
Proof. revert n size; induction pages as [|p pages IH]; intros n size; cbn; [done|]. destruct (stops _ _ _ _); [lia|]. specialize (IH (S n) (size + page_size p)%nat). lia. Qed.
Lemma taken_first opts size p pages : (0 < taken opts 0 size (p :: pages))%nat.
Proof.
  cbn [taken]. unfold stops. destruct (page_tier p) as [ti|e|]; [|lia..].
  destruct (should_consolidate_page _ _) as [b|e|]; [|lia..]. change (2 <=? 0)%nat with false. rewrite andb_false_r. cbn. lia.
Qed.
Lemma no_stop_taken opts n size pages : no_stop opts n size pages -> taken opts n size pages = length pages.
Proof.
  revert n size; induction pages as [|p pages IH]; intros n size; cbn [no_stop taken length]; [done|]. intros [Hs Hn].
  assert (stops opts n size p = false) as ->; [|by rewrite IH].
  unfold stops. destruct (page_tier p) as [ti|e|]; [|done..]. destruct Hs as [Hlt|[Hle|Hsc]].
  - destruct (should_consolidate_page _ _) as [b|e|]; [|done..]. rewrite (proj2 (Nat.leb_gt _ _)) by lia. by rewrite andb_false_r.
  - destruct (should_consolidate_page _ _) as [b|e|]; [|done..]. rewrite (bool_decide_false (_ < _)%nat) by lia. by rewrite andb_false_r.
  - rewrite Hsc. cbn. by rewrite andb_false_r.
Qed.

Section collect.
Context {K V : Type} `{OrdLaws K} `{!Codec K} `{!CodecLaws K} `{!PrefixCodec K}
  `{!Codec V} `{!CodecLaws V} `{!SortedPageKey K}.
Local Abbreviation T := (K * V)%type.

Lemma collect_walk opts (c : CollectState K V) (l : list (Z * list Z)) (ls : list (list T)) :
  Forall2 (λ ap x, chain_page ap.2 x) l (CData <$> ls) -> cs_range_limit c = None ->
  let k := taken opts (length (iters (cs_builder c))) (cs_page_size c) l.*2 in
  exists its size, Forall2 (λ it a, spi_denotes it a a) its (take k ls) /\
    walk_list (collect_step opts) c l =
      Ok (mkCollectState (foldl (λ b it, merging_builder_add it b) (cs_builder c) its) size
            (foldl (λ _ ap, page_info ap.2) (cs_last_page c) (take k l)) (cs_page_addrs c ++ (take k l).*1) None).
Proof.
  intros Hf. remember (CData <$> ls) as xs eqn:Ex. revert ls Ex c.
  induction Hf as [|[addr p] x l xs Hp _ IH]; intros [|items ls] Ex c Hlim; try done.
  { destruct c as [bd sz lp ad lim]. simpl in *. subst lim. exists [], sz. split; [constructor|].
    simpl. by rewrite app_nil_r. }
  injection Ex as -> Ex. simpl in Hp. destruct (chain_page_open p items Hp) as (Hk & Hs & r & Hn & Hr).
  cbn [fmap list_fmap snd taken].
  assert (Hst : stop_collecting opts c p = Ok (stops opts (length (iters (cs_builder c))) (cs_page_size c) p)).
  { unfold stop_collecting, stops. destruct Hp as (h & Hh & _ & -> & _). rewrite page_of_tier. cbn [mbind res_bind].
    unfold should_consolidate_page. rewrite page_of_info_tier by done. cbn [mbind res_bind].
    rewrite (bool_decide_true (cs_range_limit c = None)), andb_true_r by done. unfold merging_builder_len.
    replace (2 <=? Z.of_nat (length (iters (cs_builder c))))%Z with (2 <=? length (iters (cs_builder c)))%nat
      by (destruct (Nat.leb_spec 2 (length (iters (cs_builder c)))); symmetry; [apply Z.leb_le|apply Z.leb_gt]; lia).
    by destruct (_ && _ && _). }
  set (c' := mkCollectState (merging_builder_add (spi_new r) (cs_builder c)) (cs_page_size c + page_size p)%nat
    (page_info p) (cs_page_addrs c ++ [addr]) (cs_range_limit c)).
  assert (Hstep : collect_step opts c addr p =
    Ok (if stops opts (length (iters (cs_builder c))) (cs_page_size c) p then (c, true) else (c', false))).
  { unfold collect_step. rewrite Hk. cbn [mbind res_bind]. rewrite Hst. cbn [mbind res_bind].
    destruct (stops _ _ _ _); [done|]. by rewrite Hn. }
  cbn [walk_list]. rewrite Hstep. cbn [mbind res_bind]. destruct (stops _ _ _ _).
  { destruct c as [bd sz lp ad lim]. simpl in *. subst lim. exists [], sz. split; [constructor|]. by rewrite app_nil_r. }
  destruct (IH ls Ex c') as (its & size & Hits & Hw); [done|].
  assert (Hlen : length (iters (cs_builder c')) = S (length (iters (cs_builder c)))).
  { unfold c'. cbn [cs_builder merging_builder_add iters]. rewrite length_app. simpl. by rewrite Nat.add_1_r. }
  rewrite Hlen in Hits, Hw. exists (spi_new r :: its), size. split; [constructor; [by split|done]|].
  rewrite Hw. unfold c'. cbn [cs_builder cs_last_page cs_page_addrs foldl fmap list_fmap fst take]. by rewrite <- app_assoc.
Qed.
End collect.

(** The last of the first [k] pages of a chain, and the chain behind it. *)
Lemma heap_chain_last m addr l d k :
  heap_chain m addr l -> (0 < k <= length l)%nat ->
  exists ap, ap ∈ l /\ foldl (λ _ ap, page_info ap.2) d (take k l) = page_info ap.2 /\
    heap_chain m (page_chain_next ap.2) (drop k l).
Proof.
  intros Hc. revert d k; induction Hc as [|addr page l Hne Ha Hc IH]; intros d k Hk; [simpl in Hk; lia|].
  destruct k as [|[|k]]; [lia| |].
  - exists (addr, page). split_and!; [by left|done|exact Hc].
  - destruct (IH (page_info page) (S k)) as (ap & Hin & Hfo & Hd); [simpl in Hk; lia|]. exists ap. split_and!; [by right|done|done].
Qed.

(** What the pages of a leaf are consolidated to. *)
Definition consolidated (safe : Z) (ls : list (list (Key * Value))) : list (Key * Value) :=
  run (leaf_step safe) (None, false) (kmerge ls).

Lemma consolidated_value safe q ls :
  safe <= lsn q -> Forall key_sorted ls -> value_at q (consolidated safe ls) = value_at q (kmerge ls).
Proof.
  intros Hq Hs. unfold consolidated. rewrite leaf_run_value by (done || by apply kmerge_sorted). done.
Qed.

Lemma consolidated_ok safe (ls : list (list (Key * Value))) :
  key_strict (kmerge ls) -> Forall (Forall item_ok) ls ->
  content_size (consolidated safe ls) <= u32_max ->
  items_ok (consolidated safe ls) /\ key_strict (consolidated safe ls) /\
  (length (consolidated safe ls) <= length (concat ls))%nat.
Proof.
  intros Hs Hok Hsz. pose proof (leaf_run_sublist safe (None, false) (kmerge ls)) as Hsub.
  fold (consolidated safe ls) in Hsub. split_and!.
  - split; [|done]. apply Forall_forall. intros x Hx.
    assert (Hx' : x ∈ kmerge ls) by (eapply elem_of_submseteq; [exact Hx|by apply sublist_submseteq]).
    rewrite kmerge_perm in Hx'. apply list_elem_of_In, in_concat in Hx' as (l & Hl & Hxl).
    rewrite Forall_forall in Hok. specialize (Hok l). rewrite list_elem_of_In, Forall_forall in Hok.
    apply Hok; [done|by apply list_elem_of_In].
  - by eapply sorted_sublist.
  - rewrite <- length_kmerge. by apply sublist_length.
Qed.

(** ** The consolidation of a whole chain *)

Lemma omap_data_of (ls : list (list (Key * Value))) : omap data_of (CData <$> ls) = ls.
Proof. induction ls; [done|]. cbn. by f_equal. Qed.

(** [collect_consolidation_info] on a chain of data pages. *)
Lemma collect_info_taken opts fuel s t m room view (l : list (Z * list Z)) (ls : list (list (Key * Value))) :
  let k := taken opts 0 0 l.*2 in
  heap_inv s t m room -> heap_chain m (pv_addr view) l ->
  Forall2 (λ ap x, chain_page ap.2 x) l (CData <$> ls) -> ls <> [] -> (length ls < fuel)%nat ->
  exists mit lp, collect_consolidation_info (K := Key) (V := Value) opts fuel view s =
      (Ok (mkConsolidationInfo (mkMergingPageIter mit None) (page_info lp) (take k l).*1), s) /\
    mp_denotes (mkMergingPageIter mit None) (kmerge (take k ls)) (kmerge (take k ls)) /\
    heap_chain m (info_chain_next (page_info lp)) (drop k l) /\ fits 64 (info_chain_next (page_info lp)) /\
    fits 8 (info_chain_len (page_info lp)).
Proof.
  intros k Hi Hc Hp Hne Hf.
  assert (Hs : Forall key_sorted ls).
  { pose proof (chain_sorted s (pv_addr view) (CData <$> ls)) as Hs.
    rewrite omap_data_of in Hs. apply Hs. exists l. split; [by eapply heap_chain_store|done]. }
  assert (Hll : length l = length ls).
  { rewrite (Forall2_length _ _ _ Hp). apply length_fmap. }
  destruct (collect_walk opts (mkCollectState merging_builder_new 0 (pv_page view) [] None) l ls Hp eq_refl)
    as (its & size & Hits & Hw). change (taken _ _ _ _) with k in Hits, Hw.
  destruct (mp_new_denotes its (take k ls) None Hits) as (mit & Hm & Hd); [by apply Forall_take|].
  destruct (heap_chain_last m (pv_addr view) l (pv_page view) k Hc) as ([a lp] & Hin & Hfo & Hrest).
  { split; [|unfold k; rewrite <- (length_fmap snd l); apply taken_le]. destruct l; [destruct ls; done|]. apply taken_first. }
  assert (Hex : exists h c, header_ok h /\ lp = page_of h c).
  { apply list_elem_of_lookup_1 in Hin as [i Hi']. destruct (Forall2_lookup_l _ _ _ _ _ Hp Hi') as (x & _ & h & Hh & Hx).
    destruct x; destruct Hx as (_ & Hx & _); simpl in Hx; eauto. }
  destruct Hex as (h & c & Hh & ->). simpl in *.
  exists mit, (page_of h c). split_and!; [|done| | |].
  - unfold collect_consolidation_info.
    rewrite (st_bind_ok _ _ s _ s) by (rewrite (walk_page_chain _ _ _ _ _ l); [by rewrite Hw|by eapply heap_chain_store|lia]).
    cbn [cs_builder cs_range_limit cs_last_page cs_page_addrs].
    rewrite (st_bind_ok _ _ s mit s) by (unfold lift; f_equal; exact Hm). by rewrite Hfo.
  - exact Hrest.
  - change (fits 64 (page_chain_next (page_of h c))). rewrite page_of_chain_next by done. apply Hh.
  - rewrite page_of_info_chain_len by done. apply Hh.
Qed.

(** The page a consolidation writes in place of a chain whose newest page has header [h]. *)
Definition whole_page (h : Header) (n : Z) (out : list (Key * Value)) : list Z :=
  page_of (mkHeader (h_epoch h) Leaf DataPage n 0) (content_of out).

(** The same in front of the pages at [next]. *)
Definition merged_page (h : Header) (n next : Z) (out : list (Key * Value)) : list Z :=
  page_of (mkHeader (h_epoch h) Leaf DataPage n next) (content_of out).

Lemma merged_header_ok h n next : header_ok h -> fits 8 n -> fits 64 next -> header_ok (mkHeader (h_epoch h) Leaf DataPage n next).
Proof. intros (H1 & _) Hn Hx. split_and!; [exact H1|exact Hn|exact Hx]. Qed.
Lemma whole_header_ok h n : header_ok h -> fits 8 n -> header_ok (mkHeader (h_epoch h) Leaf DataPage n 0).
Proof. intros (H1 & _) Hn. split_and!; [exact H1|exact Hn|split; vm_compute; congruence]. Qed.

(** [consolidate_page] on a leaf: the page id moves to a page of what the first pages
    are consolidated to, in front of the rest of the chain. *)
Lemma consolidate_page_taken fm opts fuel safe s t m room view par key (l : list (Z * list Z))
    (ls : list (list (Key * Value))) :
  let k := taken opts 0 0 l.*2 in
  let out := consolidated safe (take k ls) in
  heap_inv s t m room -> route fuel t m key fuel ROOT_INDEX ROOT_RANGE None (view, par) ->
  heap_chain m (pv_addr view) l -> Forall2 (λ ap x, chain_page ap.2 x) l (CData <$> ls) ->
  (length ls < fuel)%nat -> (length out < fuel)%nat ->
  builder_size (content_size out) <= 2 ^ 32 - 24 -> (length ls * 8)%nat <= 2 ^ 32 - 24 ->
  page_need out + dealloc_need k <= room ->
  exists view' s' new h c n next,
    consolidate_page fm opts fuel safe view s = (Ok view', s') /\
    m !! pv_addr view = Some (page_of h c) /\ header_ok h /\ h_tier h = Leaf /\ fits 8 n /\ fits 64 next /\
    heap_chain m next (drop k l) /\ m !! new = None /\ new <> 0 /\
    view' = mkPageView (pv_id view) new (page_info (merged_page h n next out)) (pv_range view) /\
    heap_inv s' (<[pv_id view := new]> t) (<[new := merged_page h n next out]> m)
      (room - page_need out - dealloc_need k).
Proof.
  intros k out Hi Hr Hc Hp Hf Hfo Hsz Hsd Hroom.
  destruct (route_view _ _ _ _ _ _ _ _ _ _ Hr) as (page & range & Hview & Hid & Ha & Htier).
  pose proof Hi as (b & sb & rs & free & Hb & He & Ht & Hv & Hm & Hse & Hnw & ->).
  destruct (heap_addr_bounds _ _ _ _ _ _ _ _ Hb Hm Ha) as [Hpos _].
  destruct (chain_at_head m (pv_addr view) (CData <$> ls) page ltac:(lia) Ha ltac:(by exists l)) as (h & c & Hh & ->).
  assert (Hll : length l = length ls) by (rewrite (Forall2_length _ _ _ Hp); apply length_fmap).
  assert (Hls : ls <> []) by (intros ->; destruct l; [inversion Hc; lia|done]).
  assert (Hk : (0 < k <= length ls)%nat).
  { split; [|unfold k; rewrite <- Hll, <- (length_fmap snd l); apply taken_le]. destruct l; [destruct ls; done|]. apply taken_first. }
  assert (Hkl : length (take k l).*1 = k) by (rewrite length_fmap, length_take; lia).
  destruct (collect_info_taken opts fuel s t m _ view l ls Hi Hc Hp Hls Hf) as (mit & lp & Hci & Hd & Hnx & H64 & Hcl).
  fold k in Hci, Hd, Hnx.
  destruct (heap_begin s b sb rs _ free m Hb He Ht Hm Hse) as [Hbg Hth].
  set (txn := mkPageTxn (wb_group_id b) false [] []) in *.
  set (it := merging_leaf_new (mkMergingPageIter mit None) safe).
  assert (Hdi : denotes it out out) by (by exists (kmerge (take k ls)), (kmerge (take k ls))).
  pose proof (align8_bounds (k * 8)%nat) as [Hal _].
  set (n := info_chain_len (page_info lp)) in *. set (next := info_chain_next (page_info lp)) in *.
  destruct (build_link_ok fm fuel Leaf DataPage it out (h_epoch h) n next s txn b sb rs _ free m Hth Hdi Hfo Hsz Hse
    ltac:(unfold dealloc_need in *; lia) (λ _, Hnw) (proj1 Hh))
    as (new & p0 & txn1 & b2 & s1 & s2 & rs2 & Hbp & Hlk & Hin & Hbid & Hhold & Htab & Hz & Hlt & Hnew & Hne & Hth2).
  set (page := page_of (mkHeader (h_epoch h) Leaf DataPage n next) (content_of out)) in *.
  assert (Hval : val (st_table s2) (pv_id view) = pv_addr view) by (rewrite Htab; by apply Hv).
  destruct (heap_replace fm s2 txn1 b2 _ rs2 _ free _ (pv_id view) (pv_addr view) new (take k l).*1 Hth2)
    as (s3 & b3 & rs3 & Hup & Hz3 & Ht3 & Hv3 & Ho3 & He3 & Hb3 & Hm3); rewrite ?Hkl in *;
    [by apply elem_of_dom_2 in Hid|done|by eapply Hlt|done|done|done|simpl; lia|lia|].
  eexists (mkPageView (pv_id view) new (page_info page) (pv_range view)), s3, new, h, c, n, next.
  split_and!; [|done|done| |done|done|exact Hnx|done|done|done|].
  - unfold consolidate_page. rewrite Hview in Hci, Hup |- *. cbn [pv_page pv_id pv_addr pv_range] in *.
    rewrite (st_bind_ok _ _ s Leaf s) by (unfold lift; by rewrite Htier).
    unfold consolidate_page_impl. st_step Hci. cbn [pv_page pv_id pv_addr pv_range].
    rewrite (st_bind_ok _ _ s Leaf s) by (unfold lift; by rewrite Htier).
    st_step Hbg. cbn [ci_iter ci_last_page ci_page_addrs].
    st_step Hbp. rewrite page_of_info_epoch by done. fold n next.
    st_step Hlk.
    by rewrite (st_bind_ok _ _ s2 (inl tt) s3) by (unfold attempt; by rewrite Hup).
  - rewrite page_of_info_tier in Htier by done. by injection Htier.
  - rewrite Hbid in Hb3, Hm3, He3. rewrite Htab in Ho3. apply elem_of_dom_2 in Hid.
    cbn [txn tx_buffer_id tx_hold_write_guard negb] in Hb3, Hm3, He3.
    pose proof (heap_inv_swing _ s3 t _ _ b3 _ rs3 free _ new Hb3 He3 Ht3 Hid Hv Hv3 Ho3 Hm3) as Hsw.
    simpl in Hsw. replace (_ - _ - _ - _)
      with (wb_buf_size b3 - (allocated sb + page_need out + dealloc_need k)) by lia.
    apply Hsw; [done|lia].
Qed.

(** On a chain that is taken in whole the page is the end of its chain. *)
Lemma consolidate_page_ok fm opts fuel safe s t m room view par key (l : list (Z * list Z))
    (ls : list (list (Key * Value))) :
  let out := consolidated safe ls in
  heap_inv s t m room -> route fuel t m key fuel ROOT_INDEX ROOT_RANGE None (view, par) ->
  heap_chain m (pv_addr view) l -> Forall2 (λ ap x, chain_page ap.2 x) l (CData <$> ls) ->
  no_stop opts 0 0 l.*2 -> (length ls < fuel)%nat -> (length out < fuel)%nat ->
  builder_size (content_size out) <= 2 ^ 32 - 24 -> (length ls * 8)%nat <= 2 ^ 32 - 24 ->
  page_need out + dealloc_need (length ls) <= room ->
  exists view' s' new h c n,
    consolidate_page fm opts fuel safe view s = (Ok view', s') /\
    m !! pv_addr view = Some (page_of h c) /\ header_ok h /\ h_tier h = Leaf /\ fits 8 n /\
    m !! new = None /\ new <> 0 /\
    view' = mkPageView (pv_id view) new (page_info (whole_page h n out)) (pv_range view) /\
    heap_inv s' (<[pv_id view := new]> t) (<[new := whole_page h n out]> m)
      (room - page_need out - dealloc_need (length ls)).
Proof.
  intros out Hi Hr Hc Hp Hns Hf Hfo Hsz Hsd Hroom. pose proof (no_stop_taken _ _ _ _ Hns) as Hk.
  assert (Hll : length l = length ls) by (rewrite (Forall2_length _ _ _ Hp); apply length_fmap).
  rewrite length_fmap, Hll in Hk.
  pose proof (consolidate_page_taken fm opts fuel safe s t m room view par key l ls Hi Hr Hc Hp Hf) as Hct. cbv zeta in Hct.
  rewrite Hk, firstn_all, <- Hll, drop_all in Hct. rewrite Hll in Hct. fold out in Hct.
  destruct (Hct Hfo Hsz Hsd Hroom) as (view' & s' & new & h & c & n & next & H1 & H2 & H3 & H4 & H5 & _ & Hnil & H6).
  assert (next = 0) as -> by (by inversion Hnil). by exists view', s', new, h, c, n.
Qed.

Lemma chain_pages_ok (l : list (Z * list Z)) (ls : list (list (Key * Value))) :
  Forall2 (λ ap x, chain_page ap.2 x) l (CData <$> ls) -> Forall (Forall item_ok) ls.
Proof.
  intros Hp. remember (CData <$> ls) as xs eqn:Ex. revert ls Ex.
  induction Hp as [|ap x l xs Hx _ IH]; intros [|a ls] Ex; try done. injection Ex as -> Ex.
  constructor; [|by apply IH]. by destruct Hx as (h & _ & _ & _ & [Hok _] & _).
Qed.

(** What readers see once the chain is replaced by one page. *)
Lemma consolidate_reads safe fuel s t m room id addr ls h c n new :
  let out := consolidated safe ls in
  heap_inv s t m room -> t !! id = Some addr -> m !! addr = Some (page_of h c) -> header_ok h -> h_tier h = Leaf ->
  chain_at m addr (CData <$> ls) -> m !! new = None -> new <> 0 -> fits 8 n -> items_ok out -> key_strict out ->
  let t' := <[id := new]> t in
  let m' := <[new := whole_page h n out]> m in
  chain_at m' new [CData out] /\
  forall q v, safe <= lsn q -> tree_reads fuel t m q v -> tree_reads (S fuel) t' m' q v.
Proof.
  intros out Hi Hid Ha Hh Ht Hca Hnone Hne Hn Hok Hst t' m'. pose proof (whole_header_ok h n Hh Hn) as Hh'.
  pose proof (chain_sorted _ _ _ (chain_at_holds _ _ _ _ _ _ Hi Hca)) as Hs. rewrite omap_data_of in Hs.
  assert (Hcn : chain_at m' new [CData out]).
  { apply (chain_at_cons m 0); try done. exists []. split; constructor. }
  split; [exact Hcn|]. intros q v Hq (vq & pq & xq & Hrq & Hcq & Hnq & Hfq & ->).
  edestruct (route_prepend fuel t m id addr (page_of h c) new (whole_page h n out))
    as (vq' & Hrq' & Hvq'); [done|exact Ha|by rewrite page_of_info_tier, Ht|done| | |exact Hrq|].
  { unfold whole_page. by rewrite !page_of_info_epoch. }
  { unfold whole_page. by rewrite page_of_info_tier. }
  apply (route_mono _ (S fuel) _ _ _ _ (S fuel)) in Hrq'; [|lia..].
  destruct Hvq' as [(Hidq & Haq & Hvq')|[Hidq Hvq']].
  - rewrite Haq in Hcq. pose proof (chain_at_fun _ _ _ _ Hca Hcq) as <-.
    exists vq', pq, [CData out]. rewrite Hvq', omap_data_of in *.
    split_and!; [done|done|repeat constructor|simpl; lia|].
    change (omap data_of [CData out]) with [out]. rewrite kmerge_cons. change (kmerge []) with ([] : list (Key * Value)).
    rewrite merge2_nil_r. symmetry. by apply consolidated_value.
  - exists vq', pq, xq. rewrite Hvq'. split_and!; [done| |done|lia|done].
    eapply chain_at_mono; [|done]. by apply insert_subseteq.
Qed.

(** [C6] Consolidating a leaf: when the chain of the leaf a key is routed to holds
    only data pages, is taken in whole and has no key twice, and the buffer has
    room for the new page and the record of the old ones, [consolidate_page]
    succeeds; the leaf is then a single page, and every reader at or after the safe
    LSN, of any key of the tree, sees exactly what it saw before. *)
Theorem consolidate_page_refines fm opts (fuel : nat) (safe : Z) (s : Store) (t : gmap Z Z)
    (m : gmap Z (list Z)) (room : Z) (view : PageView) (par : option PageView) (key : list Z)
    (l : list (Z * list Z)) (ls : list (list (Key * Value))) :
  let out := consolidated safe ls in
  heap_inv s t m room -> route fuel t m key fuel ROOT_INDEX ROOT_RANGE None (view, par) ->
  heap_chain m (pv_addr view) l -> Forall2 (λ ap x, chain_page ap.2 x) l (CData <$> ls) ->
  no_stop opts 0 0 l.*2 -> key_strict (kmerge ls) ->
  (length ls < fuel)%nat -> (length (concat ls) < fuel)%nat ->
  builder_size (content_size out) <= 2 ^ 32 - 24 -> (length ls * 8)%nat <= 2 ^ 32 - 24 ->
  page_need out + dealloc_need (length ls) <= room ->
  exists view' s' t' m', consolidate_page fm opts fuel safe view s = (Ok view', s') /\
    heap_inv s' t' m' (room - page_need out - dealloc_need (length ls)) /\
    chain_at m' (pv_addr view') [CData out] /\
    forall q v, safe <= lsn q -> tree_reads fuel t m q v -> tree_reads (S fuel) t' m' q v.
Proof.
  intros out Hi Hr Hc Hp Hns Hks Hf Hfc Hsz Hsd Hroom.
  destruct (consolidated_ok safe ls Hks (chain_pages_ok l ls Hp)) as (Hok & Hst & Hlen).
  { unfold builder_size, PAGE_HEADER_LEN, u32_max, out in *. lia. }
  destruct (consolidate_page_ok fm opts fuel safe s t m room view par key l ls Hi Hr Hc Hp Hns Hf ltac:(lia) Hsz Hsd Hroom)
    as (view' & s' & new & h & c & n & Hcp & Ha & Hh & Ht & Hn & Hnone & Hne & Hv' & Hi').
  destruct (route_view _ _ _ _ _ _ _ _ _ _ Hr) as (page & range & _ & Hid & _).
  edestruct (consolidate_reads safe fuel s t m room (pv_id view) (pv_addr view) ls h c n new) as [Hcn Hrd]; try done.
  { by exists l. }
  eexists view', s', _, _. split_and!; [exact Hcp|exact Hi'|by rewrite Hv'|exact Hrd].
Qed.

Lemma consolidate_page_refines_witness :
  exists view' s' t' m',
    consolidate_page zero_mem (mkTreeOptions 4096 4) 5 3 leaf_view leaf_tree = (Ok view', s') /\
    heap_inv s' t' m' (256 - page_need (consolidated 3 [leaf_delta; leaf_base]) - dealloc_need 2) /\
    chain_at m' (pv_addr view') [CData (consolidated 3 [leaf_delta; leaf_base])] /\
    forall q v, 3 <= lsn q -> tree_reads 5 {[1 := 16]} leaf_pages q v -> tree_reads 6 t' m' q v.
Proof.
  destruct leaf_tree_chain as (l & Hc & Hp).
  apply (consolidate_page_refines zero_mem (mkTreeOptions 4096 4) 5 3 leaf_tree {[1 := 16]} leaf_pages 256
    leaf_view None [1] l [leaf_delta; leaf_base] leaf_tree_heap).
  - by apply route_leaf.
  - exact Hc.
  - exact Hp.
  - apply Forall2_length in Hp. destruct l as [|[a1 p1] [|[a2 p2] [|]]]; try discriminate Hp.
    simpl. split; [left; lia|]. split; [left; lia|done].
  - by repeat constructor.
  - simpl. lia.
  - simpl. lia.
  - vm_compute. congruence.
  - simpl. lia.
  - vm_compute. congruence.
Defined.

(** ** Partial consolidations *)

(** Every tombstone is above the safe LSN. *)
Definition tombstones_above (safe : Z) (l : list (Key * Value)) : Prop := forall k, (k, Delete) ∈ l -> safe < lsn k.

(** *** The versions a consolidation keeps *)

Lemma version_at_cons q k v l :
  version_at q ((k, v) :: l) = if decide (raw k = raw q /\ lsn k <= lsn q) then Some v else version_at q l.
Proof. done. Qed.

(** The newest version a reader sees, with its key; whether it is a tombstone at or below
    the safe LSN, which a consolidation drops. *)
Fixpoint newest_at (q : Key) (l : list (Key * Value)) : option (Key * Value) :=
  match l with
  | [] => None
  | (k, v) :: l => if decide (raw k = raw q /\ lsn k <= lsn q) then Some (k, v) else newest_at q l
  end.
Definition hidden (safe : Z) (q : Key) (l : list (Key * Value)) : bool :=
  match newest_at q l with Some (k, Delete) => lsn k <=? safe | _ => false end.

Lemma version_newest q l : version_at q l = snd <$> newest_at q l.
Proof. induction l as [|[k v] l IH]; [done|]. cbn [version_at newest_at]. by case_decide. Qed.
Lemma hidden_cons safe q k v l :
  hidden safe q ((k, v) :: l) = if decide (raw k = raw q /\ lsn k <= lsn q) then match v with Delete => lsn k <=? safe | _ => false end else hidden safe q l.
Proof. unfold hidden. cbn [newest_at]. by case_decide. Qed.
Lemma hidden_none safe q l : newest_at q l = None -> hidden safe q l = false.
Proof. unfold hidden. by intros ->. Qed.
Lemma hidden_delete safe q l : hidden safe q l = true -> version_at q l = Some Delete.
Proof. rewrite version_newest. unfold hidden. by destruct (newest_at q l) as [[k []]|]. Qed.
Lemma newest_elem q l x : newest_at q l = Some x -> x ∈ l.
Proof. induction l as [|[k v] l IH]; [done|]. cbn [newest_at]. case_decide; [intros [= <-]; by left|right; by apply IH]. Qed.
Lemma tombstones_above_hidden safe q l : tombstones_above safe l -> hidden safe q l = false.
Proof.
  intros Ht. unfold hidden. destruct (newest_at q l) as [[k []]|] eqn:E; [done| |done]. apply newest_elem, Ht in E. by apply Z.leb_gt.
Qed.

Lemma leaf_run_version safe q last skip l :
  safe <= lsn q -> key_sorted l -> (forall r, last = Some r -> Forall (λ x, kle r (raw x.1)) l) ->
  version_at q (run (leaf_step safe) (last, skip) l) =
    if (bool_decide (last = Some (raw q)) && skip) || hidden safe q l then None else version_at q l.
Proof.
  intros Hq. revert last skip; induction l as [|[k v] l IH]; intros last skip Hs Hlast; [simpl; by destruct (_ || _)|].
  apply sorted_raw_tail in Hs as Hs'. simpl in Hs'. destruct Hs' as [Hk Hs'].
  assert (Hlast' : forall r, Some (raw k) = Some r -> Forall (λ x, kle r (raw x.1)) l) by (by intros r [= <-]).
  assert (Hrun : forall b, version_at q (run (leaf_step safe) (Some (raw k), b) l) =
    if (bool_decide (raw k = raw q) && b) || hidden safe q l then None else version_at q l).
  { intros b. by rewrite IH, bool_decide_some. }
  (* The reader sees this version, another one of its key, or its key is another. *)
  assert (Hother : raw k <> raw q -> bool_decide (raw k = raw q) = false /\ forall X Y : bool, (if decide (raw k = raw q /\ lsn k <= lsn q) then X else Y) = Y).
  { intros Hne. split; [by apply bool_decide_false|]. intros X Y. rewrite decide_False; [done|]. by intros [? _]. }
  assert (Hgone : last = Some (raw q) -> raw k <> raw q -> newest_at q ((k, v) :: l) = None).
  { intros -> Hne. destruct (newest_at q ((k, v) :: l)) as [x|] eqn:E; [|done]. exfalso.
    assert (version_at q ((k, v) :: l) = Some x.2) as Ev by (by rewrite version_newest, E).
    rewrite version_at_none in Ev; [done|]. apply sorted_raw_other; [done|]. simpl.
    specialize (Hlast _ eq_refl). apply Forall_inv in Hlast. simpl in Hlast. by apply kle_cases in Hlast as [?|?]. }
  destruct (decide (raw k = raw q)) as [Ek|Ek].
  - clear Hgone Hother. rewrite hidden_cons, version_at_cons. cbn [run leaf_step].
    destruct (bool_decide (last = Some (raw k))) eqn:El; boolify.
    + subst last. rewrite Ek, bool_decide_some, (bool_decide_true (raw q = raw q)) by done. cbn [andb].
      rewrite Ek in Hrun. rewrite (bool_decide_true (raw q = raw q)) in Hrun by done. cbn [andb] in Hrun.
      destruct skip; [by rewrite Hrun|]. cbn [orb]. destruct (safe <? lsn k) eqn:Es; boolify.
      * rewrite version_at_cons, Hrun, Ek. cbn [orb]. destruct (decide (raw q = raw q /\ lsn k <= lsn q)) as [E|E]; [|done].
        rewrite (proj2 (Z.leb_gt _ _)) by done. by destruct v.
      * rewrite (proj2 (Z.leb_le _ _)) by done.
        destruct (decide (raw q = raw q /\ lsn k <= lsn q)) as [_|[]]; [|by split; [|lia]]. destruct v as [v|]; [|by rewrite Hrun].
        rewrite version_at_cons, Ek. by rewrite decide_True by (by split; [|lia]).
    + rewrite Ek in El. rewrite (bool_decide_false (last = Some (raw q))) by done. cbn [andb orb]. rewrite Ek.
      rewrite Ek in Hrun. rewrite (bool_decide_true (raw q = raw q)) in Hrun by done. cbn [andb] in Hrun.
      destruct (lsn k <=? safe) eqn:Es; boolify.
      * destruct (decide (raw q = raw q /\ lsn k <= lsn q)) as [_|[]]; [|by split; [|lia]]. destruct v as [v|]; [|by rewrite Hrun].
        rewrite version_at_cons, Ek. by rewrite decide_True by (by split; [|lia]).
      * assert (Hkeep : version_at q ((k, v) :: run (leaf_step safe) (Some (raw q), false) l) =
          if decide (raw q = raw q /\ lsn k <= lsn q) then Some v else if hidden safe q l then None else version_at q l).
        { rewrite version_at_cons, Hrun, Ek. by case_decide. }
        destruct v as [v|]; rewrite Hkeep; by case_decide.
  - destruct (Hother Ek) as [Eb Ed]. rewrite Eb in Hrun. cbn [andb orb] in Hrun.
    transitivity (if hidden safe q l then None else version_at q l).
    { assert (Hskip : forall b, version_at q ((k, v) :: run (leaf_step safe) (Some (raw k), b) l) = if hidden safe q l then None else version_at q l).
      { intros b. rewrite version_at_cons, Hrun. rewrite decide_False; [done|]. by intros [? _]. }
      cbn [run leaf_step]. destruct (bool_decide (last = Some (raw k))) eqn:El; boolify; [subst last; destruct skip|]; [done|destruct (safe <? lsn k); [done|destruct v; done]|].
      destruct v; [done|]. destruct (lsn k <=? safe); done. }
    rewrite hidden_cons, Ed, version_at_cons. rewrite (decide_False (P := raw k = raw q /\ lsn k <= lsn q)) by (by intros [? _]).
    destruct (bool_decide (last = Some (raw q))) eqn:El; [|done]. boolify. specialize (Hgone El Ek). cbn [newest_at] in Hgone.
    rewrite decide_False in Hgone by (by intros [? _]). rewrite (hidden_none _ _ _ Hgone), version_newest, Hgone. by destruct (_ || _).
Qed.

Lemma consolidated_hidden safe q ls :
  safe <= lsn q -> Forall key_sorted ls ->
  version_at q (consolidated safe ls) = if hidden safe q (kmerge ls) then None else version_at q (kmerge ls).
Proof.
  intros Hq Hs. unfold consolidated. rewrite leaf_run_version by (done || by apply kmerge_sorted).
  by rewrite andb_false_r.
Qed.

Lemma consolidated_sub safe ls : consolidated safe ls ⊆+ concat ls.
Proof. rewrite <- kmerge_perm. apply sublist_submseteq, leaf_run_sublist. Qed.

(** *** The chain afterwards *)

Lemma newest_first_merged safe k (ls : list (list (Key * Value))) :
  newest_first ls -> newest_first (consolidated safe (take k ls) :: drop k ls).
Proof.
  intros Hn. rewrite <- (take_drop k ls) in Hn at 1. apply StronglySorted_app in Hn as (Hx & _ & Hd). constructor; [done|].
  apply Forall_forall. intros l Hl x y Hin Hy Er.
  assert (Hc : x ∈ concat (take k ls)) by (eapply elem_of_submseteq; [exact Hin|apply consolidated_sub]).
  apply list_elem_of_In, in_concat in Hc as (l' & Hl' & Hx').
  apply (Hx l' l); [by apply list_elem_of_In|done|by apply list_elem_of_In|done|done].
Qed.

Lemma chain_version_data q (ls : list (list (Key * Value))) :
  Forall key_sorted ls -> newest_first ls -> chain_version q (CData <$> ls) = version_at q (kmerge ls).
Proof. intros Hs Hn. rewrite <- (omap_data_of ls) in Hs, Hn. by rewrite (chain_version_merge q (CData <$> ls)), omap_data_of. Qed.

Lemma version_at_app q (l1 l2 : list (list (Key * Value))) :
  Forall key_sorted (l1 ++ l2) -> newest_first (l1 ++ l2) ->
  version_at q (kmerge (l1 ++ l2)) = match version_at q (kmerge l1) with Some v => Some v | None => version_at q (kmerge l2) end.
Proof.
  intros Hs Hn. apply Forall_app in Hs as Hs'. destruct Hs' as [Hs1 Hs2]. rewrite <- !chain_version_data; try done.
  - rewrite fmap_app. clear. induction l1 as [|l l1 IH]; [done|]. cbn [app fmap list_fmap chain_version]. rewrite IH. by destruct (version_at q l).
  - by apply StronglySorted_app in Hn as (_ & _ & ?).
  - by apply StronglySorted_app in Hn as (_ & ? & _).
Qed.

(** What readers see in a chain whose first [k] pages were consolidated: the versions in
    the pages behind, when the newest one they saw in front was a tombstone that is gone. *)
Lemma merged_hidden safe q k (ls : list (list (Key * Value))) :
  safe <= lsn q -> Forall key_sorted ls -> newest_first ls ->
  version_at q (kmerge (consolidated safe (take k ls) :: drop k ls)) =
    if hidden safe q (kmerge (take k ls)) then version_at q (kmerge (drop k ls)) else version_at q (kmerge ls).
Proof.
  intros Hq Hs Hn. pose proof (newest_first_merged safe k ls Hn) as Hn'. pose proof Hs as Hs'. pose proof Hn as Hn2.
  rewrite <- (take_drop k ls) in Hs', Hn2. apply Forall_app in Hs' as [Hst Hsd].
  change (_ :: drop k ls) with ([consolidated safe (take k ls)] ++ drop k ls). rewrite version_at_app; [| |done].
  - rewrite kmerge_cons, kmerge_nil, merge2_nil_r, consolidated_hidden by done. destruct (hidden safe q (kmerge (take k ls))); [done|].
    transitivity (version_at q (kmerge (take k ls ++ drop k ls))); [|by rewrite take_drop]. by rewrite version_at_app by (by rewrite ?take_drop).
  - constructor; [|done]. eapply sorted_sublist; [apply leaf_run_sublist|]. by apply kmerge_sorted.
Qed.
Lemma merged_version safe q k (ls : list (list (Key * Value))) :
  safe <= lsn q -> Forall key_sorted ls -> newest_first ls -> tombstones_above safe (concat (take k ls)) ->
  version_at q (kmerge (consolidated safe (take k ls) :: drop k ls)) = version_at q (kmerge ls).
Proof.
  intros Hq Hs Hn Ht. rewrite merged_hidden by done. rewrite tombstones_above_hidden; [done|].
  intros key. rewrite kmerge_perm. apply Ht.
Qed.
(** A reader that is misled saw no value before. *)
Lemma hidden_value safe q k (ls : list (list (Key * Value))) :
  Forall key_sorted ls -> newest_first ls -> hidden safe q (kmerge (take k ls)) = true -> value_at q (kmerge ls) = None.
Proof.
  intros Hs Hn Hh%hidden_delete. unfold value_at. rewrite <- (take_drop k ls), version_at_app by (by rewrite take_drop). by rewrite Hh.
Qed.

(** The tree once the first [k] pages of the chain at [view] are replaced by one page. *)
Lemma merged_reads safe (fuel : nat) t m view par key l ls (k : nat) h c n next new :
  let out := consolidated safe (take k ls) in
  let t' := <[pv_id view := new]> t in
  let m' := <[new := merged_page h n next out]> m in
  route fuel t m key fuel ROOT_INDEX ROOT_RANGE None (view, par) -> heap_chain m (pv_addr view) l ->
  Forall2 (λ ap x, chain_page ap.2 x) l (CData <$> ls) -> Forall key_sorted ls -> newest_first ls -> (length ls < fuel)%nat ->
  m !! pv_addr view = Some (page_of h c) -> header_ok h -> h_tier h = Leaf -> fits 8 n -> fits 64 next ->
  heap_chain m next (drop k l) -> m !! new = None -> new <> 0 -> items_ok out -> key_strict out ->
  chain_at m' new (CData out :: (CData <$> drop k ls)) /\
  (forall q, raw q = key -> safe <= lsn q ->
     tree_reads (S fuel) t' m' q (if hidden safe q (kmerge (take k ls)) then value_at q (kmerge (drop k ls)) else value_at q (kmerge ls))) /\
  (forall q v, safe <= lsn q -> hidden safe q (kmerge (take k ls)) = false -> tree_reads fuel t m q v -> tree_reads (S fuel) t' m' q v).
Proof.
  intros out t' m' Hr Hc Hp Hs Hnf Hf Ha Hh Ht Hn H64 Hrest Hnone Hne Hok Hst. assert (Hca : chain_at m (pv_addr view) (CData <$> ls)) by (by exists l).
  destruct (route_view _ _ _ _ _ _ _ _ _ _ Hr) as (page & range & _ & Hid & _).
  assert (Hcn : chain_at m' new (CData out :: (CData <$> drop k ls))).
  { apply (chain_at_cons m next); [done|done|by apply merged_header_ok|done|done|done|done|]. exists (drop k l). split; [done|].
    rewrite fmap_drop. by apply Forall2_drop. }
  set (xs := CData (K := Key) (V := Value) out :: (CData <$> drop k ls)) in *.
  assert (Hdata : omap data_of xs = out :: drop k ls) by apply (omap_data_of (out :: drop k ls)).
  assert (Hll : (length xs < S fuel)%nat) by (unfold xs; cbn [length]; rewrite length_fmap, length_drop; lia).
  assert (Hroute : forall q vq pq, route fuel t m (raw q) fuel ROOT_INDEX ROOT_RANGE None (vq, pq) ->
    exists vq', route (S fuel) t' m' (raw q) (S fuel) ROOT_INDEX ROOT_RANGE None (vq', pq) /\
      (pv_addr vq = pv_addr view /\ pv_addr vq' = new \/ pv_addr vq' = pv_addr vq /\ pv_id vq <> pv_id view)).
  { intros q vq pq Hrq. edestruct (route_prepend fuel t m (pv_id view) (pv_addr view) (page_of h c) new (merged_page h n next out))
      as (vq' & Hrq' & Hvq'); [done|exact Ha|by rewrite page_of_info_tier, Ht|done| | |exact Hrq|].
    { unfold merged_page. rewrite !page_of_info_epoch; [done|done|by apply merged_header_ok]. }
    { unfold merged_page. rewrite page_of_info_tier; [done|by apply merged_header_ok]. }
    apply (route_mono _ (S fuel) _ _ _ _ (S fuel)) in Hrq'; [|lia..]. exists vq'. split; [done|]. destruct Hvq' as [(_ & -> & ->)|[? ->]]; auto. }
  assert (Hread : forall q vq' pq, route (S fuel) t' m' (raw q) (S fuel) ROOT_INDEX ROOT_RANGE None (vq', pq) -> pv_addr vq' = new -> safe <= lsn q ->
    tree_reads (S fuel) t' m' q (if hidden safe q (kmerge (take k ls)) then value_at q (kmerge (drop k ls)) else value_at q (kmerge ls))).
  { intros q vq' pq Hrq' Hv Hq. exists vq', pq, xs. rewrite Hdata, Hv. split_and!; [done|done|by apply newest_first_merged|done|].
    unfold value_at, out. rewrite merged_hidden by done. by destruct (hidden _ _ _). }
  split; [exact Hcn|]. split.
  - intros q <- Hq. destruct (Hroute q view par Hr) as (vq' & Hrq' & [[_ Hv]|[_ ?]]); [by eapply Hread|done].
  - intros q v Hq Hh0 (vq & pq & xq & Hrq & Hcq & Hnq & Hfq & ->). destruct (Hroute q vq pq Hrq) as (vq' & Hrq' & [[Haq Hv]|[Hv _]]).
    + rewrite Haq in Hcq. pose proof (chain_at_fun _ _ _ _ Hca Hcq) as <-. rewrite omap_data_of in *. specialize (Hread q vq' pq Hrq' Hv Hq). by rewrite Hh0 in Hread.
    + exists vq', pq, xq. rewrite Hv. split_and!; [done| |done|lia|done]. eapply chain_at_mono; [|done]. by apply insert_subseteq.
Qed.

(** [C36] What a partial consolidation does to readers. The chain of a leaf holds data
    pages, newer ones in front; [consolidate_page] takes the first [k] of them, as it does
    when it stops before a large page, and no key is twice in these. Then the leaf is the
    consolidated page in front of the rest of the chain, and what readers at or after the
    safe LSN see is exactly this: a reader of a key of the leaf whose newest version in the
    pages that were taken is a tombstone at or below the safe LSN, and who therefore saw no
    value, sees what the pages behind hold for it, so that a deleted value comes back; every
    other reader, of any key of the tree, sees what it saw before. *)
Theorem partial_consolidation_reads fm opts (fuel : nat) (safe : Z) (s : Store) (t : gmap Z Z)
    (m : gmap Z (list Z)) (room : Z) (view : PageView) (par : option PageView) (key : list Z)
    (l : list (Z * list Z)) (ls : list (list (Key * Value))) :
  let k := taken opts 0 0 l.*2 in
  let out := consolidated safe (take k ls) in
  heap_inv s t m room -> route fuel t m key fuel ROOT_INDEX ROOT_RANGE None (view, par) ->
  heap_chain m (pv_addr view) l -> Forall2 (λ ap x, chain_page ap.2 x) l (CData <$> ls) ->
  newest_first ls -> key_strict (kmerge (take k ls)) ->
  (length ls < fuel)%nat -> (length (concat ls) < fuel)%nat ->
  builder_size (content_size out) <= 2 ^ 32 - 24 -> (length ls * 8)%nat <= 2 ^ 32 - 24 ->
  page_need out + dealloc_need k <= room ->
  exists view' s' t' m', consolidate_page fm opts fuel safe view s = (Ok view', s') /\
    heap_inv s' t' m' (room - page_need out - dealloc_need k) /\
    chain_at m' (pv_addr view') (CData out :: (CData <$> drop k ls)) /\
    (forall q, raw q = key -> safe <= lsn q ->
       tree_reads fuel t m q (if hidden safe q (kmerge (take k ls)) then None else value_at q (kmerge ls)) /\
       tree_reads (S fuel) t' m' q (if hidden safe q (kmerge (take k ls)) then value_at q (kmerge (drop k ls)) else value_at q (kmerge ls))) /\
    (forall q v, safe <= lsn q -> hidden safe q (kmerge (take k ls)) = false -> tree_reads fuel t m q v -> tree_reads (S fuel) t' m' q v).
Proof.
  intros k out Hi Hr Hc Hp Hnf Hks Hf Hfc Hsz Hsd Hroom. assert (Hca : chain_at m (pv_addr view) (CData <$> ls)) by (by exists l).
  destruct (consolidated_ok safe (take k ls) Hks) as (Hok & Hst & Hlen).
  { apply Forall_take. by eapply chain_pages_ok. }
  { unfold builder_size, PAGE_HEADER_LEN, u32_max, out in *. lia. }
  assert (Hlen' : (length (concat (take k ls)) <= length (concat ls))%nat).
  { rewrite <- (take_drop k ls) at 2. rewrite concat_app, length_app. lia. }
  destruct (consolidate_page_taken fm opts fuel safe s t m room view par key l ls Hi Hr Hc Hp Hf)
    as (view' & s' & new & h & c & n & next & Hcp & Ha & Hh & Ht & Hn & H64 & Hrest & Hnone & Hne & -> & Hi');
    fold k; fold out; [unfold out; lia|done|done|done|]. fold k out in Hi', Hrest, Hcp.
  pose proof (chain_sorted _ _ _ (chain_at_holds _ _ _ _ _ _ Hi Hca)) as Hs. rewrite omap_data_of in Hs.
  destruct (merged_reads safe fuel t m view par key l ls k h c n next new Hr Hc Hp Hs Hnf Hf Ha Hh Ht Hn H64 Hrest Hnone Hne Hok Hst) as (Hcn & Hrd & Hrest').
  eexists _, s', _, _. split; [exact Hcp|]. split; [exact Hi'|]. split; [exact Hcn|]. split; [|exact Hrest'].
  intros q Hq Hsafe. split; [|by apply Hrd]. subst key. exists view, par, (CData <$> ls). rewrite omap_data_of. split_and!; [done|done|done|by rewrite length_fmap|].
  destruct (hidden safe q (kmerge (take k ls))) eqn:Eh; [|done]. symmetry. by eapply hidden_value.
Qed.

(** Two small pages over a large one; the tombstone in the first page is below the safe
    LSN, and the version it hides in the third. *)
Definition partial_front : list (list (Key * Value)) := [[(mkKey [1] 5, Delete)]; [(mkKey [2] 4, Put [8])]].
Definition partial_base : list (Key * Value) := [(mkKey [1] 3, Put (replicate 100 7)); (mkKey [2] 2, Put (replicate 100 9))].
Definition partial_list : list (Z * list Z) :=
  [(24, page_of (mkHeader 0 Leaf DataPage 3 16) (content_of [(mkKey [1] 5, Delete)]));
   (16, page_of (mkHeader 0 Leaf DataPage 2 8) (content_of [(mkKey [2] 4, Put [8])]));
   (8, page_of (mkHeader 0 Leaf DataPage 1 0) (content_of partial_base))].
Definition partial_pages : gmap Z (list Z) := list_to_map partial_list.
Definition partial_tree : Store :=
  mkStore (mkInner {[loc_of 1 := 24]} 2 0) (mkBufferSetVersion 9 10 [] (fresh_buffer 9 (replicate 512 0)))
    9 partial_pages (page_info <$> partial_pages) 512 0.
Definition partial_view : PageView :=
  mkPageView 1 24 (page_info (page_of (mkHeader 0 Leaf DataPage 3 16) (content_of [(mkKey [1] 5, Delete)]))) (Some ROOT_RANGE).

Lemma partial_tree_heap : heap_inv partial_tree {[1 := 24]} partial_pages 512.
Proof.
  exists (fresh_buffer 9 (replicate 512 0)), state_default, [], []. split_and!; try done.
  - constructor; [|done|done|done|].
    + split_and!; [done|by vm_compute|done|].
      intros i x Hi%list_lookup_singleton_Some. destruct Hi as [-> <-]. done.
    + apply fresh_buffer_repr; [unfold fits; lia|rewrite length_replicate; lia].
  - rewrite dom_singleton_L. constructor; simpl; [constructor|constructor|set_solver|vm_compute; split; congruence|].
    intros id. unfold MIN_ID. set_unfold. lia.
  - by apply map_Forall_singleton.
  - unfold partial_pages, partial_list. cbn [list_to_map foldr].
    repeat (apply map_Forall_insert_2); [..|apply map_Forall_empty]; left; split; try (vm_compute; split; done).
Qed.
Lemma partial_tree_pages : heap_chain partial_pages 24 partial_list /\ Forall2 (λ ap x, chain_page ap.2 x) partial_list (CData <$> (partial_front ++ [partial_base])).
Proof. solve_chain. Qed.
Lemma partial_newest : newest_first (partial_front ++ [partial_base]).
Proof.
  unfold partial_front, partial_base. cbn [app]. repeat apply SSorted_cons; [apply SSorted_nil|..]; repeat (apply Forall_cons; split); try apply Forall_nil_2.
  all: intros x y Hx Hy Er; repeat match goal with
    | H : _ ∈ _ :: _ |- _ => apply elem_of_cons in H as [->|H]
    | H : _ ∈ [] |- _ => by apply not_elem_of_nil in H
    end; simpl in *; first [done|congruence|lia].
Qed.

Lemma partial_consolidation_reads_witness :
  exists view' s' t' m', consolidate_page zero_mem (mkTreeOptions 4096 4) 5 6 partial_view partial_tree = (Ok view', s') /\
    chain_at m' (pv_addr view') (CData (consolidated 6 partial_front) :: [CData partial_base]) /\
    tree_reads 5 {[1 := 24]} partial_pages (mkKey [1] 9) None /\ tree_reads 6 t' m' (mkKey [1] 9) (Some (replicate 100 7)).
Proof.
  assert (Hk : taken (mkTreeOptions 4096 4) 0 0 partial_list.*2 = 2%nat) by (vm_compute; reflexivity).
  destruct (partial_consolidation_reads zero_mem (mkTreeOptions 4096 4) 5 6 partial_tree {[1 := 24]} partial_pages 512
    partial_view None [1] partial_list (partial_front ++ [partial_base]) partial_tree_heap) as (view' & s' & t' & m' & E & _ & Hc & Hr & _).
  - by apply route_leaf.
  - apply partial_tree_pages.
  - apply partial_tree_pages.
  - apply partial_newest.
  - rewrite Hk. by repeat constructor.
  - simpl. lia.
  - simpl. lia.
  - rewrite Hk. vm_compute. congruence.
  - simpl. lia.
  - rewrite Hk. vm_compute. congruence.
  - rewrite Hk in Hc, Hr. exists view', s', t', m'. split; [exact E|]. split; [exact Hc|]. apply (Hr (mkKey [1] 9)); [done|simpl; lia].
Defined.
