(* ===== verification/TreeWrite.v ===== *)
(** * Writes that consolidate ([try_write] with [consolidate_and_restructure_page])

    The whole path of a write that makes the chain of its leaf too long: the delta
    is put in front of the chain, and the chain is then replaced by a single page.
    The theorem composes the write of [TreeRefine] with the consolidation of
    [TreeConsolidate]. *)

From stdpp Require Import base numbers list sorting gmap.
From Stdlib Require Import ZArith Lia.
From S2P Require Import Prelude Data Codec BasePage Iter SortedPage PageTable WriteBuffer.
From S2P Require Import BufferSet PageTxn PageHeap TreePage Tree TreeLaws TreeRefine TreeConsolidate.

(** ** One more version in a chain without duplicates *)

Lemma merge2_single_strict {K V} `{OrdLaws K} (x : K * V) (l : list (K * V)) :
  key_strict l -> (forall y, y ∈ l -> x.1 <> y.1) -> key_strict (merge2 [x] l).
Proof.
  induction 1 as [|y l Hs IH Hy]; intros Hne; [rewrite merge2_nil_r; repeat constructor|].
  rewrite merge2_cons. assert (Hxy : x.1 <> y.1) by (apply Hne; by left).
  assert (Hlt : klt x.1 y.1 -> key_strict (x :: merge2 [] (y :: l))).
  { intros Hlt. rewrite merge2_nil_l. constructor; [by constructor|]. constructor; [done|].
    eapply Forall_impl; [exact Hy|]. intros z Hz. by etrans. }
  destruct (cmp x.1 y.1) eqn:E; [by apply cmp_eq_iff in E|by apply Hlt|].
  constructor; [apply IH; intros z Hz; apply Hne; by right|].
  rewrite merge2_perm. constructor; [|done]. unfold klt. rewrite (cmp_opp x.1 y.1), E. done.
Qed.

(** A version newer than all of its key's leaves the chain without duplicates. *)
Lemma newer_strict (key : Key) (value : Value) (ls : list (list (Key * Value))) :
  key_strict (kmerge ls) ->
  (forall y, y ∈ concat ls -> raw y.1 = raw key -> lsn y.1 < lsn key) ->
  key_strict (kmerge ([(key, value)] :: ls)).
Proof.
  intros Hs Hnew. rewrite kmerge_cons. apply merge2_single_strict; [done|].
  intros y Hy E. rewrite kmerge_perm in Hy. simpl in E. specialize (Hnew y Hy). rewrite <- E in Hnew.
  specialize (Hnew eq_refl). lia.
Qed.

Lemma dealloc_need_pos n : 0 < dealloc_need n.
Proof. unfold dealloc_need. pose proof (align8_bounds (n * 8)%nat). lia. Qed.

(** The pages of a chain with a delta in front. *)
Lemma delta_chain m new h addr key value l :
  heap_chain m addr l -> m !! new = None -> new <> 0 -> header_ok h -> fits 64 addr ->
  heap_chain (<[new := delta_page h addr key value]> m) new ((new, delta_page h addr key value) :: l).
Proof.
  intros Hc Hn Hne Hh Ha. constructor; [done|apply lookup_insert_eq|].
  unfold delta_page at 2. rewrite page_of_chain_next by (by apply delta_header_ok). cbn [h_chain_next].
  eapply heap_chain_mono; [|exact Hc]. by apply insert_subseteq.
Qed.

(** ** The decision to consolidate, taken *)

(** [consolidate_and_restructure_page] on a leaf whose consolidated page is not
    larger than a page may be: the split is not tried. *)
Lemma consolidate_no_split fm opts fuel safe view s h n out id new range s' :
  consolidate_page fm opts fuel safe view s = (Ok (mkPageView id new (page_info (whole_page h n out)) range), s') ->
  header_ok h -> fits 8 n -> (builder_size (content_size out) <= opt_page_size opts)%nat ->
  consolidate_and_restructure_page fm opts fuel safe view s = (Ok tt, s').
Proof.
  intros Hc Hh Hn Hsz. unfold consolidate_and_restructure_page. st_step Hc. cbn [pv_page].
  rewrite (st_bind_ok _ _ s' false s'); [done|]. unfold lift, should_split_page, whole_page.
  rewrite page_of_info_tier by (by apply whole_header_ok). cbn [mbind res_bind h_tier].
  change (is_inner Leaf) with false. cbn match. rewrite bool_decide_false; [done|].
  unfold info_size, page_info. cbn [pi_size]. rewrite length_page_of, length_content.
  unfold builder_size, PAGE_HEADER_LEN in Hsz. lia.
Qed.

(** [C8] A write that consolidates: when the delta makes the chain of the leaf longer
    than it may be, the chain holds only data pages without a key twice and is taken
    in whole, and the buffer has room for the delta, the new page and the record of
    the old ones, [tree_write] succeeds at its first try; the leaf the key is routed
    to is then one page with the consolidated items, and readers at or after the safe
    LSN see the new value if they read the key at or after its LSN, and otherwise
    what they saw before. *)
Theorem tree_write_consolidates fm opts (fuel n : nat) (safe : Z) (s : Store) (t : gmap Z Z)
    (m : gmap Z (list Z)) (room : Z) (key : Key) (value : Value) (view : PageView)
    (par : option PageView) (l : list (Z * list Z)) (ls : list (list (Key * Value))) :
  let delta := [(key, value)] in
  let out := consolidated safe (delta :: ls) in
  heap_inv s t m room -> route fuel t m (raw key) fuel ROOT_INDEX ROOT_RANGE None (view, par) ->
  heap_chain m (pv_addr view) l -> Forall2 (λ ap x, chain_page ap.2 x) l (CData <$> ls) ->
  no_stop opts 1 (builder_size (content_size delta)) l.*2 -> key_strict (kmerge ls) ->
  (forall y, y ∈ concat ls -> raw y.1 = raw key -> lsn y.1 < lsn key) -> items_ok delta ->
  should_split_page opts (pv_page view) = Ok false ->
  Nat.max (opt_page_chain_length opts) 1 < sat_add_u8 (info_chain_len (pv_page view)) ->
  (builder_size (content_size out) <= opt_page_size opts)%nat ->
  (1 < fuel)%nat -> (S (length ls) < fuel)%nat -> (S (length (concat ls)) < fuel)%nat ->
  builder_size (content_size delta) <= 2 ^ 32 - 24 ->
  builder_size (content_size out) <= 2 ^ 32 - 24 -> (S (length ls) * 8)%nat <= 2 ^ 32 - 24 ->
  page_need delta + page_need out + dealloc_need (S (length ls)) <= room ->
  exists s' t' m' addr, tree_write fm opts fuel safe (S n) key value s = (Ok tt, s') /\
    heap_inv s' t' m' (room - page_need delta - page_need out - dealloc_need (S (length ls))) /\
    t' !! pv_id view = Some addr /\ chain_at m' addr [CData out] /\
    forall q v, safe <= lsn q -> tree_reads fuel t m q v -> tree_reads (S (S fuel)) t' m' q (read_after key value q v).
Proof.
  intros delta out Hi Hr Hc Hp Hns Hks Hnew Hok Hsp Hcl Hps Hf1 Hf2 Hf3 Hs1 Hs2 Hs3 Hroom.
  assert (Hca : chain_at m (pv_addr view) (CData <$> ls)) by (by exists l).
  pose proof (page_need_pos out) as Hpos. pose proof (dealloc_need_pos (S (length ls))) as Hdpos.
  destruct (try_write_publish fm opts fuel safe s t m room key value view par _ Hi Hr Hca Hs1 ltac:(unfold delta in *; lia) Hf1 Hsp)
    as (s1 & new & h & c & Hw & Hpg & Ha & Hh & Ht & Hnone & Hne & Hne0 & H64 & Hi1).
  set (page := delta_page h (pv_addr view) key value) in *.
  destruct (delta_reads fuel s t m room key value view par _ h c new Hi Hr Hca) as (Hca1 & Hr1 & Hrd1); try done.
  { rewrite omap_data_of. intros a x Hl Hx Hraw. enough (lsn x.1 < lsn key) by lia. apply Hnew; [|done].
    apply list_elem_of_In, in_concat. exists a. by rewrite <- !list_elem_of_In. }
  fold page in Hca1, Hr1, Hrd1. set (view1 := mkPageView (pv_id view) new (page_info page) (pv_range view)) in *.
  destruct Hca1 as (l1 & Hc1 & Hp1).
  change (CData [(key, value)] :: (CData <$> ls)) with (CData (K := Key) (V := Value) <$> (delta :: ls)) in Hp1.
  pose proof (heap_chain_fun _ _ _ _ Hc1 (delta_chain m new h (pv_addr view) key value l Hc Hnone Hne Hh H64)) as ->.
  destruct (consolidated_ok safe (delta :: ls) (newer_strict key value ls Hks Hnew) (chain_pages_ok _ _ Hp1))
    as (Hok2 & Hst2 & Hlen).
  { unfold builder_size, PAGE_HEADER_LEN, u32_max, out in *. lia. }
  destruct (consolidate_page_ok fm opts fuel safe s1 _ _ _ view1 par (raw key) _ (delta :: ls) Hi1 Hr1 Hc1 Hp1)
    as (view2 & s2 & new2 & h2 & c2 & n2 & Hcp & Ha2 & Hh2 & Ht2 & Hn2 & Hnone2 & Hne2 & -> & Hi2);
    fold out; [| | |done|done|unfold delta in Hroom; simpl; lia|].
  { split; [left; lia|]. change (no_stop opts 1 (length (delta_page h (pv_addr view) key value)) l.*2).
    unfold delta_page. rewrite length_page_of, length_content. exact Hns. }
  { simpl; lia. }
  { change (length (concat (delta :: ls))) with (S (length (concat ls))) in Hlen. unfold out. lia. }
  edestruct (consolidate_reads safe (S fuel) s1 _ _ _ (pv_id view1) (pv_addr view1) (delta :: ls) h2 c2 n2 new2 Hi1)
    as [Hcn Hrd]; try done; [apply lookup_insert_eq|by eexists|].
  assert (Hsc : should_consolidate_page opts (page_info page) = Ok true).
  { unfold page, delta_page. rewrite should_consolidate_leaf by (done || by apply delta_header_ok).
    rewrite Hpg, page_of_info_chain_len in Hcl by done. cbn [h_chain_len]. by rewrite (proj2 (Z.ltb_lt _ _) Hcl). }
  eexists s2, _, _, new2. split_and!; [|exact Hi2|apply lookup_insert_eq|exact Hcn|].
  - cbn [tree_write]. rewrite (st_bind_ok _ _ s (inl tt) s2); [done|]. unfold attempt. rewrite Hw.
    rewrite (st_bind_ok _ _ s1 true s1) by (unfold lift, view1; cbn [pv_page]; by rewrite Hsc).
    by rewrite (st_bind_ok _ _ s1 (inl tt) s2) by (unfold attempt; by erewrite consolidate_no_split).
  - intros q v Hq Hv. apply Hrd; [done|]. by apply Hrd1.
Qed.

(** ** Witness *)

Lemma tree_write_consolidates_witness :
  let key := mkKey [7] 6 in
  let out := consolidated 3 [[(key, Put [6])]; leaf_delta; leaf_base] in
  exists s' t' m' addr,
    tree_write zero_mem (mkTreeOptions 4096 2) 7 3 1 key (Put [6]) leaf_tree = (Ok tt, s') /\
    heap_inv s' t' m' (256 - page_need [(key, Put [6])] - page_need out - dealloc_need 3) /\
    t' !! ROOT_ID = Some addr /\ chain_at m' addr [CData out] /\
    forall q v, 3 <= lsn q -> tree_reads 7 {[1 := 16]} leaf_pages q v -> tree_reads 9 t' m' q (read_after key (Put [6]) q v).
Proof.
  apply (tree_write_consolidates zero_mem (mkTreeOptions 4096 2) 7 0 3 leaf_tree {[1 := 16]} leaf_pages 256
    (mkKey [7] 6) (Put [6]) leaf_view None leaf_page_list [leaf_delta; leaf_base] leaf_tree_heap).
  - by apply route_leaf.
  - apply leaf_tree_pages.
  - apply leaf_tree_pages.
  - split; [left; lia|]. split; [right; left; vm_compute; lia|done].
  - by repeat constructor.
  - intros y Hy Hr. change (y ∈ leaf_delta ++ leaf_base) in Hy. unfold leaf_delta, leaf_base in Hy. cbn [app] in Hy.
    rewrite !elem_of_cons in Hy. destruct Hy as [->|[->|[->|[->|[]%not_elem_of_nil]]]]; simpl in *; try done; lia.
  - split; [by repeat constructor|vm_compute; congruence].
  - by vm_compute.
  - vm_compute; congruence.
  - vm_compute; lia.
  - lia.
  - simpl; lia.
  - simpl; lia.
  - vm_compute; congruence.
  - vm_compute; congruence.
  - simpl; lia.
  - vm_compute; congruence.
Defined.
