(* ===== verification/TreeSplit.v ===== *)
(** * Splitting the root ([split_root_impl] of [tree/mod.rs])

    The step with which the tree grows: the items of a root leaf move to two new
    leaves, and the root becomes an inner page over them. No reader sees a
    difference. The last part shows what happens to writers of a large leaf that
    cannot be split. *)

From stdpp Require Import base numbers list sorting gmap.
From Stdlib Require Import ZArith Lia.
From S2P Require Import Prelude Data Codec BasePage Iter SortedPage PageTable WriteBuffer.
From S2P Require Import BufferSet PageTxn PageHeap TreePage Tree TreeLaws TreeRefine.

(** ** The halves of a page *)

Lemma value_at_app q left right :
  value_at q (left ++ right) =
    match version_at q left with
    | Some _ => value_at q left
    | None => value_at q right
    end.
Proof.
  unfold value_at. induction left as [|[k v] left IH]; [done|]. cbn [app version_at]. case_decide; [done|exact IH].
Qed.

(** A reader finds its key on the side of the separator its raw key is on. *)
Lemma value_at_split q sep left right :
  Forall (λ x, klt (raw x.1) sep) left -> Forall (λ x, kle sep (raw x.1)) right ->
  value_at q (left ++ right) = value_at q (if decide (klt (raw q) sep) then left else right).
Proof.
  intros Hl Hr. rewrite value_at_app. case_decide as Hq.
  - destruct (version_at q left) eqn:E; [done|]. unfold value_at. rewrite E.
    rewrite version_at_none; [done|]. eapply Forall_impl; [exact Hr|]. intros x Hx Ex. simpl in Hx.
    rewrite Ex in Hx. apply (klt_irrefl sep). by eapply kle_lt_trans.
  - rewrite (version_at_none q left); [done|]. eapply Forall_impl; [exact Hl|]. intros x Hx Ex. simpl in Hx.
    rewrite Ex in Hx. done.
Qed.

(** What [into_split_iter] gives on a leaf whose first raw key is not the middle
    one. *)
Lemma leaf_split_ok (r : SortedPageRef Key Value) (l : list (Key * Value)) x mid :
  sp_repr r l -> key_strict l -> l !! 0%nat = Some x -> l !! (length l / 2)%nat = Some mid ->
  raw x.1 <> raw mid.1 ->
  exists left right li ri,
    sp_into_split_iter r = Ok (Some (mkKey (raw mid.1) u64_max, li, ri)) /\
    denotes li left left /\ denotes ri right right /\ l = left ++ right /\
    Forall (λ x, klt (raw x.1) (raw mid.1)) left /\ Forall (λ x, kle (raw mid.1) (raw x.1)) right /\
    klt (raw x.1) (raw mid.1).
Proof.
  intros Hr Hs Hx Hm Hne. pose proof (sp_split_ok r l Hr Hs) as Hsp. rewrite Hm in Hsp.
  destruct mid as [mk mv]. cbn [fst as_split_separator key_page_key] in *.
  assert (Hok : Forall item_ok l) by apply Hr.
  assert (Hside : forall y, y ∈ l -> klt y.1 (mkKey (raw mk) u64_max) -> klt (raw y.1) (raw mk)).
  { intros y Hy [?|[_ Hlt]]%key_lt_iff; [done|]. simpl in Hlt. rewrite Forall_forall in Hok.
    destruct (Hok y Hy) as [[_ Hl] _]. unfold fits, u64_max in *. lia. }
  assert (Hlt : klt (raw x.1) (raw mk)).
  { destruct (decide (length l / 2 = 0)%nat) as [E|E].
    - rewrite E, Hx in Hm. by injection Hm as ->.
    - pose proof (strict_lookup l 0 (length l / 2) x (mk, mv) Hs Hx Hm ltac:(lia)) as Hk. simpl in Hk.
      apply key_lt_iff in Hk as [?|[? _]]; done. }
  rewrite decide_False in Hsp.
  - destruct Hsp as (left & right & li & ri & Hsp & Hdl & Hdr & -> & _ & _ & Hl & Hrt).
    exists left, right, li, ri. split_and!; [done|done|done|done| | |done].
    + rewrite Forall_forall in Hl |- *. intros y Hy. apply Hside; [apply elem_of_app; by left|by apply Hl].
    + eapply Forall_impl; [exact Hrt|]. intros y Hy. by apply key_le_raw in Hy.
  - intros Hall. apply (Forall_lookup_1 _ _ _ _ Hall) in Hx. apply key_le_raw in Hx. simpl in Hx.
    apply (klt_irrefl (raw mk)). by eapply kle_lt_trans.
Qed.

(** ** The steps *)

(** The items of the new root. *)
Definition root_delta (sep : list Z) (left_id right_id : Z) : list (list Z * Index) :=
  [([], mkIndex left_id 0); (sep, mkIndex right_id 0)].

Lemma root_delta_size sep i j : content_size (root_delta sep i j) = content_size (root_delta sep 0 0).
Proof. unfold content_size, root_delta. by rewrite !items_bytes_cons, !length_app, !length_item_bytes. Qed.

Lemma half_need {K V} `{CodecLaws K} `{CodecLaws V} (l left right : list (K * V)) :
  l = left ++ right ->
  (content_size left <= content_size l)%nat /\ (content_size right <= content_size l)%nat /\
  page_need left <= page_need l /\ page_need right <= page_need l.
Proof.
  intros ->. assert (Hc : (content_size left <= content_size (left ++ right))%nat /\
    (content_size right <= content_size (left ++ right))%nat).
  { unfold content_size. rewrite items_bytes_app, !length_app. lia. }
  assert (Hm : forall a b, a <= b -> align8 a <= align8 b).
  { intros a b Hab. unfold align8. pose proof (Z.div_le_mono (a + 7) (b + 7) 8). lia. }
  split_and!; [lia|lia|..]; unfold page_need, builder_size; (apply Zplus_le_compat_l, Hm; lia).
Qed.

Lemma items_ok_half {K V} `{CodecLaws K} `{CodecLaws V} (l left right : list (K * V)) :
  l = left ++ right -> items_ok l -> items_ok left /\ items_ok right.
Proof.
  intros El [Hok Hsz]. destruct (half_need l left right El) as (Hc1 & Hc2 & _). subst l.
  apply Forall_app in Hok as [? ?]. split; (split; [done|lia]).
Qed.

(** Two new page ids in a table. *)
Lemma new_ids (t : gmap Z Z) (root lid rid la ra : Z) :
  root ∈ dom t -> (lid ∉ dom t) -> (rid ∉ {[lid]} ∪ dom t) ->
  root <> lid /\ root <> rid /\ lid <> rid /\ (rid ∉ dom t) /\
  {[rid]} ∪ ({[lid]} ∪ dom t) = dom (<[rid := ra]> (<[lid := la]> t)) /\
  root ∈ dom (<[rid := ra]> (<[lid := la]> t)) /\ lid ∈ dom (<[rid := ra]> (<[lid := la]> t)) /\
  rid ∈ dom (<[rid := ra]> (<[lid := la]> t)).
Proof. rewrite !dom_insert_L. set_solver. Qed.

Lemma new_ids_table (t0 t1 t2 : Inner) (t : gmap Z Z) (lid rid la ra : Z) :
  map_Forall (λ id addr, val t0 id = addr) t -> (forall id, id ∈ dom t -> id_ok id) -> id_ok lid ->
  lid <> rid -> val t1 lid = la -> (forall id, id_ok id -> id <> lid -> val t1 id = val t0 id) ->
  val t2 rid = ra -> (forall id, id_ok id -> id <> rid -> val t2 id = val t1 id) ->
  map_Forall (λ id addr, val t2 id = addr) (<[rid := ra]> (<[lid := la]> t)).
Proof.
  intros Hv Hok Hokl Hlr Hv1 Ho1 Hv2 Ho2 id a Hida.
  apply lookup_insert_Some in Hida as [[<- <-]|[Hn2 Hida]]; [done|].
  apply lookup_insert_Some in Hida as [[<- <-]|[Hn1 Hida]]; [by rewrite Ho2|].
  apply elem_of_dom_2 in Hida as Hin. rewrite Ho2, Ho1 by (auto || congruence). by apply Hv.
Qed.

(** [split_root_impl] on a root leaf that can be split. *)
Lemma split_root_ok fm fuel s t m room addr range (l : list (Key * Value)) x mid :
  let old := page_of (mkHeader 0 Leaf DataPage 1 0) (content_of l) in
  let leaf l' := page_of (built_header (mkPageBuilder Leaf DataPage)) (content_of (l' : list (Key * Value))) in
  let sep := raw mid.1 in
  heap_inv s t m room -> t !! ROOT_ID = Some addr -> m !! addr = Some old ->
  items_ok l -> key_strict l ->
  l !! 0%nat = Some x -> l !! (length l / 2)%nat = Some mid -> raw x.1 <> sep ->
  (length l < fuel)%nat -> (2 < fuel)%nat -> nxt (st_table s) + 1 < MAX_ID ->
  builder_size (content_size l) <= 2 ^ 32 - 24 ->
  builder_size (content_size (root_delta sep 0 0)) <= 2 ^ 32 - 24 ->
  2 * page_need l + page_need (root_delta sep 0 0) + dealloc_need 1 <= room ->
  exists s' room' left right la ra lid rid new,
    split_root_impl (K := Key) (V := Value) fm fuel (mkPageView ROOT_ID addr (page_info old) range) s = (Ok tt, s') /\
    l = left ++ right /\ klt (raw x.1) sep /\
    Forall (λ x, klt (raw x.1) sep) left /\ Forall (λ x, kle sep (raw x.1)) right /\
    (lid ∉ dom t) /\ (rid ∉ dom t) /\ lid <> rid /\ lid <> NAN_ID /\ rid <> NAN_ID /\
    fits 64 lid /\ fits 64 rid /\ la <> 0 /\ ra <> 0 /\ new <> 0 /\
    m !! la = None /\ (<[la := leaf left]> m) !! ra = None /\
    (<[ra := leaf right]> (<[la := leaf left]> m)) !! new = None /\
    heap_inv s' (<[ROOT_ID := new]> (<[rid := ra]> (<[lid := la]> t)))
      (<[new := page_of (built_header (mkPageBuilder BasePage.Inner DataPage)) (content_of (root_delta sep lid rid))]>
        (<[ra := leaf right]> (<[la := leaf left]> m))) room'.
Proof.
  intros old leaf sep Hi Hid Ha Hok Hs Hx Hm Hne Hf Hf2 Hmax Hsz Hszd Hroom.
  pose proof Hi as (b & sb & rs & free & Hb & He & Ht & Hv & Hmp & Hse & Hnw & ->).
  destruct (sp_new_repr old l) as (r & Hn & Hr & _); [apply page_of_content|done|].
  destruct (leaf_split_ok r l x mid Hr Hs Hx Hm Hne) as (left & right & li & ri & Hsp & Hdl & Hdr & El & Hl & Hrt & Hlt0).
  destruct (half_need l left right El) as (Hc1 & Hc2 & Hn1 & Hn2).
  assert (Hll : (length left <= length l)%nat /\ (length right <= length l)%nat) by (rewrite El, length_app; lia).
  destruct (heap_begin s b sb rs _ free m Hb He Ht Hmp Hse) as [Hbg Hth].
  set (txn := mkPageTxn (wb_group_id b) false [] []) in *.
  assert (Hpos : 0 <= page_need (root_delta sep 0 0) /\ 0 <= page_need l /\ 0 <= dealloc_need 1).
  { split_and!; [apply page_need_pos..|by vm_compute]. }
  unfold builder_size in Hsz.
  destruct (new_page_ok fm fuel Leaf DataPage li left s txn b sb rs _ free m Hth Hdl ltac:(lia)
    ltac:(unfold builder_size; lia) Hse ltac:(lia) (λ _, Hnw) ltac:(lia))
    as (la & lid & txn1 & txn1' & b1 & s1 & s1' & s1'' & rs1 & free1 & Hbp1 & Hw1 & Hip1 & Hbid1 & Hhold1 & _ &
        Hnu1 & Hok1 & Hv1 & Ho1 & Hx1 & Hz1 & Hlt1 & Hnone1 & Hne1 & Hth1).
  destruct (new_page_ok fm fuel Leaf DataPage ri right s1'' txn1' b1 _ rs1 _ free1 _ Hth1 Hdr ltac:(lia)
    ltac:(unfold builder_size; lia) Hse ltac:(simpl; lia) ltac:(by rewrite Hhold1) ltac:(lia))
    as (ra & rid & txn2 & txn2' & b2 & s2 & s2' & s2'' & rs2 & free2 & Hbp2 & Hw2 & Hip2 & Hbid2 & Hhold2 & _ &
        Hnu2 & Hok2 & Hv2 & Ho2 & Hx2 & Hz2 & Hlt2 & Hnone2 & Hne2 & Hth2).
  set (d := root_delta sep lid rid). assert (Hdd : denotes (slice_iter_new d) d d) by done.
  assert (Hcd : content_size d = content_size (root_delta sep 0 0)) by apply root_delta_size.
  assert (Hnd : page_need d = page_need (root_delta sep 0 0)) by (unfold page_need; by rewrite Hcd).
  assert (Hld : (length d < fuel)%nat) by exact Hf2. assert (Ed : d = root_delta sep lid rid) by done.
  rewrite <- Hcd in Hszd. rewrite <- Hnd in *. clearbody d.
  destruct (build_write_ok fm fuel BasePage.Inner DataPage (slice_iter_new d) d
    s2'' txn2' b2 _ rs2 _ free2 _ Hth2 Hdd Hld Hszd Hse ltac:(rewrite Hhold1; simpl; lia)
    ltac:(by rewrite Hhold2))
    as (new & txn3 & b3 & s3 & s3' & rs3 & Hbp3 & Hw3 & Hin3 & Hbid3 & Hhold3 & Htab3 & Hz3 & Hlt3 & Hnone3 & Hne3 & Hth3).
  assert (Hroot : ROOT_ID ∈ dom t) by (by apply elem_of_dom_2 in Hid).
  destruct (ids_ok _ _ _ _ Ht (or_introl Hroot)) as [Hrok _].
  destruct (new_ids t ROOT_ID lid rid la ra Hroot Hnu1 Hnu2) as (Hr1 & Hr2 & Hlr & Hrd' & Hdom & Hin0 & Hin1 & Hin2).
  rewrite Hdom in Hth3.
  assert (Hval : val (st_table s3') ROOT_ID = addr).
  { rewrite Htab3, Ho2, Ho1 by done. by apply Hv. }
  destruct (heap_replace fm s3' txn3 b3 _ rs3 _ free2 _ ROOT_ID addr new [addr] Hth3)
    as (s4 & b4 & rs4 & Hup & Hz4 & Ht4 & Hv4 & Ho4 & He4 & Hb4 & Hm4);
    [done|done| |done|done|done|rewrite Hhold2; simpl; lia|vm_compute; split; congruence|].
  { apply (Hlt3 addr old). rewrite !lookup_insert_ne; [done|intros <-; congruence|].
    intros <-. rewrite lookup_insert_ne in Hnone2; [congruence|]. intros <-. congruence. }
  subst d. rewrite Hhold1, Hhold2 in Hb4. cbn [negb txn tx_hold_write_guard] in Hb4.
  assert (Hbid : tx_buffer_id txn3 = wb_group_id b) by (by rewrite Hbid3, Hbid2, Hbid1).
  rewrite Hbid in Hb4, He4, Hm4. rewrite Htab3 in Ho4.
  assert (Hids : forall id, id ∈ dom t -> id_ok id) by (intros id Hin; by apply (ids_ok _ _ _ id Ht (or_introl Hin))).
  pose proof (new_ids_table _ _ _ t lid rid la ra Hv Hids Hok1 Hlr Hv1 Ho1 Hv2 Ho2) as Hv'.
  pose proof (heap_inv_swing _ s4 _ _ _ b4 _ rs4 free2 ROOT_ID new Hb4 He4 Ht4 Hin0 Hv' Hv4 Ho4 Hm4
    Hse ltac:(simpl; lia)) as Hi'.
  assert (Hfit : forall id, id_ok id -> fits 64 id).
  { intros id Hoki. unfold id_ok in Hoki. assert (L2_FANOUT < 2 ^ 64) by done. unfold fits. lia. }
  destruct (ids_ok _ _ _ lid Ht4 (or_introl Hin1)) as [_ Hln].
  destruct (ids_ok _ _ _ rid Ht4 (or_introl Hin2)) as [_ Hrn].
  eexists s4, _, left, right, la, ra, lid, rid, new. split_and!; try done; [|by apply Hfit|by apply Hfit].
  assert (Hh : header_ok (mkHeader 0 Leaf DataPage 1 0)) by (split_and!; split; vm_compute; congruence).
  destruct (heap_inv_read _ _ _ _ _ _ Hi Ha) as [Hrd _].
  unfold split_root_impl. cbn [pv_page pv_id pv_addr].
  rewrite (st_bind_ok _ _ s Leaf s) by (unfold lift, info_tier, old; by rewrite page_of_info_flags, flags_new_tier by done).
  rewrite (st_bind_ok _ _ s tt s) by done.
  rewrite (st_bind_ok _ _ s tt s) by (unfold lift, old; by rewrite page_of_info_epoch by done).
  rewrite (st_bind_ok _ _ s tt s) by (unfold lift, old; by rewrite page_of_info_chain_len by done).
  st_step Hrd. rewrite (st_bind_ok _ _ s r s) by (unfold lift; by rewrite Hn).
  rewrite (st_bind_ok _ _ s _ s) by (unfold lift; by rewrite Hsp). cbn match.
  st_step Hbg. st_step Hbp1. st_step Hw1. st_step Hip1. st_step Hbp2. st_step Hw2. st_step Hip2.
  st_step Hbp3. st_step Hw3.
  by rewrite (st_bind_ok _ _ s3' (inl tt) s4) by (unfold attempt; by rewrite Hup).
Qed.

(** ** No reader sees the split *)

(** A leaf without a chain, in a larger heap. *)
Lemma single_leaf_at m addr (l : list (Key * Value)) :
  addr <> 0 -> m !! addr = Some (page_of (built_header (mkPageBuilder Leaf DataPage)) (content_of l)) ->
  items_ok l -> key_strict l -> chain_at m addr [CData l].
Proof.
  intros Hne Ha Hok Hs. exists [(addr, page_of (built_header (mkPageBuilder Leaf DataPage)) (content_of l))]. split.
  - constructor; [done|done|]. rewrite page_of_chain_next by done. constructor.
  - constructor; [|done]. exists (built_header (mkPageBuilder Leaf DataPage)). by split_and!.
Qed.

(** The routing of the new root. *)
Lemma root_delta_child key sep lid rid :
  klt [] sep -> lid <> NAN_ID -> rid <> NAN_ID ->
  chain_child key [CData (root_delta sep lid rid)] =
    if decide (klt key sep) then Some (mkIndex lid 0, mkRange [] (Some sep))
    else Some (mkIndex rid 0, mkRange sep None).
Proof.
  intros Hsep Hl Hr.
  rewrite (reconcile_child key [] sep (mkIndex lid 0) (mkIndex rid 0) None (root_delta sep lid rid) []);
    [|done|done|unfold NULL_INDEX; congruence|unfold NULL_INDEX; congruence].
  rewrite decide_False; [done|]. by destruct key.
Qed.

(** Reading through a root with two leaves. *)
Lemma two_leaves_read fuel t m new lid rid la ra sep left right q :
  let leaf l' := page_of (built_header (mkPageBuilder Leaf DataPage)) (content_of (l' : list (Key * Value))) in
  t !! ROOT_ID = Some new ->
  m !! new = Some (page_of (built_header (mkPageBuilder BasePage.Inner DataPage)) (content_of (root_delta sep lid rid))) ->
  t !! lid = Some la -> m !! la = Some (leaf left) -> t !! rid = Some ra -> m !! ra = Some (leaf right) ->
  new <> 0 -> la <> 0 -> ra <> 0 -> lid <> NAN_ID -> rid <> NAN_ID ->
  items_ok (root_delta sep lid rid) -> klt [] sep ->
  items_ok left -> key_strict left -> items_ok right -> key_strict right ->
  tree_reads (S (S fuel)) t m q (value_at q (if decide (klt (raw q) sep) then left else right)).
Proof.
  intros leaf Ht Hm Htl Hml Htr Hmr Hn Hl Hr Hnl Hnr Hok Hsep Hokl Hsl Hokr Hsr.
  assert (Hc : chain_at (K := list Z) (V := Index) m new [CData (root_delta sep lid rid)]).
  { eexists [(new, _)]. split.
    - constructor; [done|exact Hm|]. rewrite page_of_chain_next by done. constructor.
    - constructor; [|done]. eexists. split; [|split; [|split; [done|]]]; [done|done|]. split; [done|by repeat constructor]. }
  pose proof (root_delta_child (raw q) sep lid rid Hsep Hnl Hnr) as Hch.
  destruct (decide (klt (raw q) sep)) as [Hq|Hq].
  - eexists (mkPageView lid la (page_info (leaf left)) _), _, [CData left].
    split_and!; [|by apply single_leaf_at|repeat constructor|simpl; lia|].
    + eapply route_inner; [exact Ht|exact Hm|done|done|exact Hc|simpl; lia|exact Hch|]. by apply (route_leaf _ _ _ _ _ (mkIndex lid 0)).
    + change (omap data_of [CData left]) with [left]. by rewrite kmerge_cons, kmerge_nil, merge2_nil_r.
  - eexists (mkPageView rid ra (page_info (leaf right)) _), _, [CData right].
    split_and!; [|by apply single_leaf_at|repeat constructor|simpl; lia|].
    + eapply route_inner; [exact Ht|exact Hm|done|done|exact Hc|simpl; lia|exact Hch|]. by apply (route_leaf _ _ _ _ _ (mkIndex rid 0)).
    + change (omap data_of [CData right]) with [right]. by rewrite kmerge_cons, kmerge_nil, merge2_nil_r.
Qed.

(** Readers of a tree that is one leaf page see its items. *)
Lemma root_leaf_reads s t m room addr (l : list (Key * Value)) xq vq pq fuel q :
  heap_inv s t m room -> t !! ROOT_ID = Some addr ->
  m !! addr = Some (page_of (mkHeader 0 Leaf DataPage 1 0) (content_of l)) -> items_ok l -> key_strict l ->
  route fuel t m (raw q) fuel ROOT_INDEX ROOT_RANGE None (vq, pq) -> chain_at m (pv_addr vq) xq ->
  value_at q (kmerge (omap data_of xq)) = value_at q l.
Proof.
  intros Hi Hid Ha Hok Hs Hrq Hcq.
  assert (Hh : header_ok (mkHeader 0 Leaf DataPage 1 0)) by (split_and!; split; vm_compute; congruence).
  assert (Hca : chain_at m addr [CData l]).
  { eexists [(addr, _)]. split; [constructor; [|exact Ha|]|constructor; [|done]].
    - intros ->. destruct Hi as (b & sb & rs & free & Hb & _ & _ & _ & Hmp & _).
      destruct (heap_addr_bounds _ _ _ _ _ _ _ _ Hb Hmp Ha). lia.
    - rewrite page_of_chain_next by done. constructor.
    - by eexists. }
  assert (Hv : pv_addr vq = addr).
  { inversion Hrq as [? ? ? ? a p Hta Hma He Hti|? ? ? ? a p ? ? ? ? Hta Hma He Hti]; subst; cbn [pv_addr];
      change (t !! ROOT_ID = Some a) in Hta; rewrite Hid in Hta; injection Hta as <-; [done|].
    rewrite Ha in Hma. injection Hma as <-. unfold info_tier in Hti.
    by rewrite page_of_info_flags, flags_new_tier in Hti by done. }
  rewrite Hv in Hcq. pose proof (chain_at_fun _ _ _ _ Hca Hcq) as <-.
  change (omap data_of [CData l]) with [l]. by rewrite kmerge_cons, kmerge_nil, merge2_nil_r.
Qed.

Lemma root_delta_ok sep lid rid :
  fits 32 (length sep) -> fits 64 lid -> fits 64 rid -> content_size (root_delta sep 0 0) <= u32_max ->
  items_ok (root_delta sep lid rid).
Proof.
  intros Hs Hl Hr Hsz. split; [|by rewrite root_delta_size].
  assert (H0 : forall w, 0 <= w -> fits w 0) by (intros w Hw; unfold fits; pose proof (Z.pow_pos_nonneg 2 w); lia).
  constructor; [|constructor; [|constructor]]; (split; [|split; [done|by apply H0]]); [by apply H0|exact Hs].
Qed.

(** [C7] Splitting the root: when the root is a leaf of one page whose first raw
    key is not its middle one, and there is room for the new pages and ids,
    [split_page] succeeds; the root is then an inner page, and every reader of
    every key sees exactly what it saw before. *)
Theorem split_root_refines fm (fuel : nat) (s : Store) (t : gmap Z Z) (m : gmap Z (list Z)) (room addr : Z)
    (range : option Range) (l : list (Key * Value)) (x mid : Key * Value) :
  let page := page_of (mkHeader 0 Leaf DataPage 1 0) (content_of l) in
  let sep := raw mid.1 in
  heap_inv s t m room -> t !! ROOT_ID = Some addr -> m !! addr = Some page ->
  items_ok l -> key_strict l ->
  l !! 0%nat = Some x -> l !! (length l / 2)%nat = Some mid -> raw x.1 <> sep ->
  (length l < fuel)%nat -> (2 < fuel)%nat -> nxt (st_table s) + 1 < MAX_ID ->
  builder_size (content_size l) <= 2 ^ 32 - 24 ->
  builder_size (content_size (root_delta sep 0 0)) <= 2 ^ 32 - 24 ->
  2 * page_need l + page_need (root_delta sep 0 0) + dealloc_need 1 <= room ->
  exists s' t' m' room',
    split_page fm fuel (mkPageView ROOT_ID addr (page_info page) range) s = (Ok tt, s') /\
    heap_inv s' t' m' room' /\
    (exists new root, t' !! ROOT_ID = Some new /\ m' !! new = Some root /\ page_tier root = Ok BasePage.Inner) /\
    forall q v, tree_reads fuel t m q v -> tree_reads (S (S fuel)) t' m' q v.
Proof.
  intros page sep Hi Hid Ha Hok Hs Hx Hm Hne Hf Hf2 Hmax Hsz Hszd Hroom.
  destruct (split_root_ok fm fuel s t m room addr range l x mid Hi Hid Ha Hok Hs Hx Hm Hne Hf Hf2 Hmax Hsz Hszd Hroom)
    as (s' & room' & left & right & la & ra & lid & rid & new & Hsp & El & Hlt & Hl & Hr & Hnl & Hnr & Hlr & Hl0 & Hr0 &
        Hfl & Hfr & Hla & Hra & Hnew & Hm1 & Hm2 & Hm3 & Hi').
  fold page sep in Hsp, Hlt, Hl, Hr, Hi'.
  assert (Hh : header_ok (mkHeader 0 Leaf DataPage 1 0)) by (split_and!; split; vm_compute; congruence).
  assert (Hroot : lid <> ROOT_ID /\ rid <> ROOT_ID).
  { apply elem_of_dom_2 in Hid. split; intros ->; done. }
  destruct (items_ok_half l left right El Hok) as [Hokl Hokr].
  assert (Hsl : key_strict left /\ key_strict right).
  { rewrite El in Hs. split; (eapply sorted_sublist; [|exact Hs]); [apply sublist_inserts_r|apply sublist_inserts_l]; done. }
  assert (Hokd : items_ok (root_delta sep lid rid)).
  { apply root_delta_ok; [|done|done|unfold builder_size, PAGE_HEADER_LEN, u32_max in *; lia].
    destruct Hok as [Hok _]. by destruct (Forall_lookup_1 _ _ _ _ Hok Hm) as [[Hks _] _]. }
  assert (Hsep : klt [] sep) by (destruct sep; [by destruct (raw x.1)|done]).
  eexists s', _, _, room'. split_and!; [|exact Hi'| |].
  - unfold split_page. cbn [pv_page]. unfold page.
    rewrite (st_bind_ok _ _ s DataPage s) by (unfold lift, info_kind; by rewrite page_of_info_flags, flags_new_kind by done).
    unfold info_chain_next, page_info at 1. cbn [pi_next]. rewrite page_of_chain_next by done. cbn [is_data].
    change (negb (is_data DataPage) || negb (h_chain_next (mkHeader 0 Leaf DataPage 1 0) =? 0)) with false. cbn match.
    rewrite (st_bind_ok _ _ s Leaf s) by (unfold lift, info_tier; by rewrite page_of_info_flags, flags_new_tier by done).
    exact Hsp.
  - eexists new, _. rewrite !lookup_insert_eq. split_and!; [done|done|]. by rewrite page_of_tier.
  - intros q v (vq & pq & xq & Hrq & Hcq & _ & _ & ->).
    rewrite (root_leaf_reads s t m room addr l xq vq pq fuel q Hi Hid Ha Hok Hs Hrq Hcq), El.
    rewrite (value_at_split q sep left right Hl Hr). destruct Hroot, Hsl.
    apply (two_leaves_read fuel _ _ new lid rid la ra sep left right q); try done.
    + apply lookup_insert_eq.
    + apply lookup_insert_eq.
    + by rewrite !lookup_insert_ne, lookup_insert_eq by done.
    + assert (Hal : ra <> la) by (intros ->; by rewrite lookup_insert_eq in Hm2).
      rewrite lookup_insert_ne; [by rewrite lookup_insert_ne, lookup_insert_eq by done|].
      intros ->. by rewrite lookup_insert_ne, lookup_insert_eq in Hm3 by done.
    + by rewrite lookup_insert_ne, lookup_insert_eq by done.
    + rewrite lookup_insert_ne; [by rewrite lookup_insert_eq|]. intros ->. by rewrite lookup_insert_eq in Hm3.
Qed.

(** A tree that is one leaf page of the items. *)
Definition one_page (l : list (Key * Value)) : gmap Z (list Z) :=
  {[8 := page_of (mkHeader 0 Leaf DataPage 1 0) (content_of l)]}.
Definition one_leaf_tree (l : list (Key * Value)) : Store :=
  mkStore (mkInner {[loc_of 1 := 8]} 2 0) (mkBufferSetVersion 9 10 [] (fresh_buffer 9 (replicate 1024 0)))
    9 (one_page l) (page_info <$> one_page l) 1024 0.

Lemma one_leaf_heap l : heap_inv (one_leaf_tree l) {[1 := 8]} (one_page l) 1024.
Proof.
  exists (fresh_buffer 9 (replicate 1024 0)), state_default, [], []. split_and!; try done.
  - constructor; [|done|done|done|].
    + split_and!; [done|by vm_compute|done|].
      intros i x Hi%list_lookup_singleton_Some. destruct Hi as [-> <-]. done.
    + apply fresh_buffer_repr; [unfold fits; lia|rewrite length_replicate; lia].
  - rewrite dom_singleton_L. constructor; simpl; [constructor|constructor|set_solver|vm_compute; split; congruence|].
    intros id. unfold MIN_ID. set_unfold. lia.
  - by apply map_Forall_singleton.
  - apply map_Forall_singleton. left. split; [vm_compute; split; done|]. split_and!; try done.
Qed.

Definition split_items : list (Key * Value) :=
  [(mkKey [1] 3, Put [3]); (mkKey [5] 4, Put [4]); (mkKey [5] 2, Delete)].

Lemma split_root_refines_witness :
  exists s' t' m' room',
    split_page zero_mem 4 (mkPageView ROOT_ID 8
      (page_info (page_of (mkHeader 0 Leaf DataPage 1 0) (content_of split_items))) None) (one_leaf_tree split_items) = (Ok tt, s') /\
    heap_inv s' t' m' room' /\
    (exists new root, t' !! ROOT_ID = Some new /\ m' !! new = Some root /\ page_tier root = Ok BasePage.Inner) /\
    forall q v, tree_reads 4 {[1 := 8]} (one_page split_items) q v -> tree_reads 6 t' m' q v.
Proof.
  apply (split_root_refines zero_mem 4 (one_leaf_tree split_items) {[1 := 8]} (one_page split_items) 1024 8 None split_items
    (mkKey [1] 3, Put [3]) (mkKey [5] 4, Put [4]) (one_leaf_heap split_items)).
  - done.
  - done.
  - split; [by repeat constructor|vm_compute; congruence].
  - by repeat constructor.
  - done.
  - done.
  - done.
  - simpl. lia.
  - lia.
  - by vm_compute.
  - vm_compute; congruence.
  - vm_compute; congruence.
  - vm_compute; congruence.
Defined.

(** ** Leaves that cannot be split *)

(** [into_split_iter] refuses a leaf whose first raw key is the middle one. *)
Lemma leaf_no_split (r : SortedPageRef Key Value) (l : list (Key * Value)) x mid :
  sp_repr r l -> key_strict l -> l !! 0%nat = Some x -> l !! (length l / 2)%nat = Some mid ->
  raw x.1 = raw mid.1 -> sp_into_split_iter r = Ok None.
Proof.
  intros Hr Hs Hx Hm He. pose proof (sp_split_ok r l Hr Hs) as Hsp. rewrite Hm in Hsp.
  destruct mid as [mk mv]. cbn [fst as_split_separator key_page_key] in *.
  assert (Hok : Forall item_ok l) by apply Hr. rewrite Forall_forall in Hok.
  rewrite decide_True in Hsp; [done|]. apply Forall_lookup. intros i y Hy.
  pose proof (list_elem_of_lookup_2 _ _ _ Hy) as Hin. destruct (Hok y Hin) as [[_ Hl] _].
  assert (Hle : kle (raw mk) (raw y.1)).
  { rewrite <- He. destruct i as [|i]; [simplify_eq; apply kle_refl|].
    apply key_le_raw, klt_kle, (strict_lookup l 0 (S i) x y); [done..|lia]. }
  apply key_le_iff. simpl. unfold fits, u64_max in *.
  apply kle_cases in Hle as [Hlt|Heq]; [by left|right; split; [done|lia]].
Qed.

(** [split_page] of such a leaf reports success and does nothing. *)
Lemma split_page_refused fm fuel s t m room id addr range h (l : list (Key * Value)) x mid :
  let page := page_of h (content_of l) in
  heap_inv s t m room -> m !! addr = Some page -> header_ok h ->
  h_tier h = Leaf -> h_kind h = DataPage -> h_chain_next h = 0 ->
  (id = ROOT_ID -> h_epoch h = 0 /\ h_chain_len h = 1) ->
  items_ok l -> key_strict l ->
  l !! 0%nat = Some x -> l !! (length l / 2)%nat = Some mid -> raw x.1 = raw mid.1 ->
  split_page fm fuel (mkPageView id addr (page_info page) range) s = (Ok tt, s).
Proof.
  intros page Hi Ha Hh Ht Hk Hc Hroot Hok Hs Hx Hm He.
  destruct (heap_inv_read _ _ _ _ _ _ Hi Ha) as [Hrd _].
  destruct (sp_new_repr page l) as (r & Hn & Hr & _); [apply page_of_content|done|].
  pose proof (leaf_no_split r l x mid Hr Hs Hx Hm He) as Hsp.
  assert (Htier : info_tier (page_info page) = Ok Leaf)
    by (unfold info_tier, page; by rewrite page_of_info_flags, Ht, flags_new_tier by done).
  assert (Hkind : info_kind (page_info page) = Ok DataPage)
    by (unfold info_kind, page; by rewrite page_of_info_flags, Hk, flags_new_kind by done).
  assert (Hnext : info_chain_next (page_info page) = 0)
    by (unfold info_chain_next, page, page_info; cbn [pi_next]; by rewrite page_of_chain_next).
  unfold split_page. cbn [pv_page]. rewrite (st_bind_ok _ _ s DataPage s) by (unfold lift; by rewrite Hkind).
  rewrite Hnext. change (negb (is_data DataPage) || negb (0 =? 0)) with false. cbn match.
  rewrite (st_bind_ok _ _ s Leaf s) by (unfold lift; by rewrite Htier). cbn match.
  unfold split_page_impl. cbn [pv_id pv_addr pv_page].
  destruct (id =? ROOT_ID) eqn:Eid.
  - apply Z.eqb_eq in Eid. destruct (Hroot Eid) as [He0 Hl1]. unfold split_root_impl. cbn [pv_id pv_addr pv_page].
    rewrite (st_bind_ok _ _ s Leaf s) by (unfold lift; by rewrite Htier).
    rewrite (st_bind_ok _ _ s tt s) by (unfold lift, rassert; by rewrite Eid).
    unfold page. rewrite page_of_info_epoch, page_of_info_chain_len, He0, Hl1 by done. fold page.
    rewrite !(st_bind_ok _ _ s tt s) by done. st_step Hrd.
    rewrite (st_bind_ok _ _ s r s) by (unfold lift; by rewrite Hn).
    by rewrite (st_bind_ok _ _ s None s) by (unfold lift; by rewrite Hsp).
  - rewrite (st_bind_ok _ _ s Leaf s) by (unfold lift; by rewrite Htier). st_step Hrd.
    rewrite (st_bind_ok _ _ s r s) by (unfold lift; by rewrite Hn).
    by rewrite (st_bind_ok _ _ s None s) by (unfold lift; by rewrite Hsp).
Qed.

(** [C35] A write can be retried for ever: when the leaf of the key is one page that
    is larger than the page size and whose first raw key is the middle one, so that
    it cannot be split, [split_page] reports success without having split it,
    [try_write] takes that as a reason to try again, with the store as it was, and
    no number of retries of [tree_write] is enough. *)
Theorem unsplittable_leaf_write_livelock fm opts (fuel : nat) (safe : Z) (s : Store) (t : gmap Z Z)
    (m : gmap Z (list Z)) (room : Z) (key : Key) (value : Value) (view : PageView)
    (par : option PageView) (h : Header) (l : list (Key * Value)) (x mid : Key * Value) :
  heap_inv s t m room -> route fuel t m (raw key) fuel ROOT_INDEX ROOT_RANGE None (view, par) ->
  m !! pv_addr view = Some (page_of h (content_of l)) -> header_ok h ->
  h_kind h = DataPage -> h_chain_next h = 0 ->
  (pv_id view = ROOT_ID -> h_epoch h = 0 /\ h_chain_len h = 1) ->
  items_ok l -> key_strict l ->
  l !! 0%nat = Some x -> l !! (length l / 2)%nat = Some mid -> raw x.1 = raw mid.1 ->
  (opt_page_size opts < length (page_of h (content_of l)))%nat ->
  try_write fm opts fuel safe key value s = (Err Again, s) /\
  forall n, tree_write fm opts fuel safe n key value s = (Panic, s).
Proof.
  intros Hi Hrt Ha Hh Hk Hc Hroot Hok Hs Hx Hm He Hsz.
  destruct (route_view _ _ _ _ _ _ _ _ _ _ Hrt) as (page & range & Hview & Hid & Ha' & Htier).
  rewrite Ha in Ha'. injection Ha' as <-.
  assert (Ht : h_tier h = Leaf).
  { unfold info_tier in Htier. rewrite page_of_info_flags, flags_new_tier in Htier by done. by injection Htier. }
  pose proof (split_page_refused fm fuel s t m room (pv_id view) (pv_addr view) range h l x mid
    Hi Ha Hh Ht Hk Hc Hroot Hok Hs Hx Hm He) as Hsp. rewrite <- Hview in Hsp.
  assert (Htw : try_write fm opts fuel safe key value s = (Err Again, s)).
  { unfold try_write. st_step (find_leaf_ok fm opts _ safe _ _ _ _ _ _ Hi Hrt).
    rewrite (st_bind_ok _ _ s true s).
    - cbn match. rewrite (st_bind_ok _ _ s true s); [done|].
      rewrite (st_bind_ok _ _ s (inl tt) s); [done|]. unfold attempt. by rewrite Hsp.
    - unfold lift, should_split_page. rewrite Hview. cbn [pv_page]. rewrite Htier. cbn [mbind res_bind].
      change (is_inner Leaf) with false. cbn match. rewrite bool_decide_true by exact Hsz.
      unfold info_chain_next, page_info. cbn [pi_next]. by rewrite page_of_chain_next, Hc by done. }
  split; [exact Htw|]. induction n as [|n IH]; [done|]. cbn [tree_write].
  rewrite (st_bind_ok _ _ s (inr Again) s); [exact IH|]. unfold attempt. by rewrite Htw.
Qed.

(** Two versions of one key in a page of more than 32 bytes. *)
Definition one_key_items : list (Key * Value) :=
  [(mkKey [1] 2, Put [2]); (mkKey [1] 1, Put [1])].

Lemma unsplittable_leaf_write_livelock_witness :
  let opts := mkTreeOptions 32 4 in
  let s := one_leaf_tree one_key_items in
  try_write zero_mem opts 4 0 (mkKey [1] 3) (Put [3]) s = (Err Again, s) /\
  forall n, tree_write zero_mem opts 4 0 n (mkKey [1] 3) (Put [3]) s = (Panic, s).
Proof.
  apply (unsplittable_leaf_write_livelock zero_mem (mkTreeOptions 32 4) 4 0 (one_leaf_tree one_key_items)
    {[1 := 8]} (one_page one_key_items) 1024 (mkKey [1] 3) (Put [3])
    (mkPageView ROOT_ID 8 (page_info (page_of (mkHeader 0 Leaf DataPage 1 0) (content_of one_key_items))) (Some ROOT_RANGE))
    None (mkHeader 0 Leaf DataPage 1 0) one_key_items (mkKey [1] 2, Put [2]) (mkKey [1] 1, Put [1])
    (one_leaf_heap one_key_items)); try done.
  - by apply route_leaf.
  - split; [by repeat constructor|vm_compute; congruence].
  - by repeat constructor.
  - vm_compute. lia.
Defined.

(** A fresh tree gets there with two writes to one key. *)
Example write_livelock_reached :
  let opts := mkTreeOptions 40 1 in
  let run := (_ ← tree_init zero_mem 20;
    run_ops opts [OpWrite 0 (mkKey [1] 1) (Put [1]); OpWrite 0 (mkKey [1] 2) (Put [2])]) empty_store in
  run.1 = Ok [None; None] /\ (try_write zero_mem opts 20 0 (mkKey [1] 3) (Put [3]) run.2).1 = Err Again.
Proof. split; vm_compute; reflexivity. Qed.
