(* ===== verification/TreeReconcile.v ===== *)
(** * Splitting a leaf below an inner page ([split_page_impl] and [reconcile_split_page])

    The split of a leaf is done in two steps that other operations can come between:
    the leaf gets a split delta and a new epoch, and the first operation that comes
    to it with the old epoch puts both halves into the parent. Here the steps are put
    together: the reader that finds the split completes it, and no reader sees a
    difference. *)

From stdpp Require Import base numbers list sorting gmap.
From Stdlib Require Import ZArith Lia.
From S2P Require Import Prelude Data Codec BasePage Iter SortedPage PageTable WriteBuffer.
From S2P Require Import BufferSet PageTxn PageHeap TreePage Tree TreeLaws TreeRefine TreeSplit.

(** ** The split of the leaf *)

(** The split delta in front of a leaf whose page at [addr] has header [h]. *)
Definition split_delta_page (h : Header) (addr : Z) (sep : list Z) (rid : Z) : list Z :=
  page_of (mkHeader (h_epoch h + 1) Leaf SplitPage (sat_add_u8 (h_chain_len h)) addr)
    (content_of [(sep, mkIndex rid 0)]).

Definition new_leaf (l : list (Key * Value)) : list Z :=
  page_of (built_header (mkPageBuilder Leaf DataPage)) (content_of l).

(** The sizes of the deltas do not depend on the page ids in them. *)
Lemma split_delta_size (sep : list Z) i j :
  content_size [(sep, mkIndex i j)] = content_size [(sep, mkIndex 0 0)].
Proof. unfold content_size. by rewrite !items_bytes_cons, !length_app, !length_item_bytes. Qed.

Lemma id_ok_fits id : id_ok id -> fits 64 id.
Proof. unfold id_ok. assert (L2_FANOUT < 2 ^ 64) by done. unfold fits. lia. Qed.

(** One new page id in a table. *)
Lemma new_id_table (t0 t1 : Inner) (t : gmap Z Z) (id a : Z) :
  map_Forall (λ id addr, val t0 id = addr) t -> (forall i, i ∈ dom t -> id_ok i) -> val t1 id = a ->
  (forall i, id_ok i -> i <> id -> val t1 i = val t0 i) ->
  map_Forall (λ id addr, val t1 id = addr) (<[id := a]> t).
Proof.
  intros Hv Hok Hn Ho i x Hx. apply lookup_insert_Some in Hx as [[<- <-]|[Hne Hx]]; [done|].
  apply elem_of_dom_2 in Hx as Hin. rewrite Ho by (auto || congruence). by apply Hv.
Qed.

(** [split_page] of a leaf page that is not the root, up to its transaction. *)
Lemma split_page_enter fm fuel s t m room id addr range h (l : list (Key * Value)) r (k : Key) li ri :
  let old := page_of h (content_of l) in
  heap_inv s t m room -> m !! addr = Some old -> id <> ROOT_ID -> header_ok h ->
  h_tier h = Leaf -> h_kind h = DataPage -> h_chain_next h = 0 ->
  sp_new old = Ok r -> sp_into_split_iter r = Ok (Some (k, li, ri)) ->
  split_page fm fuel (mkPageView id addr (page_info old) range) s =
    (txn ← txn_begin;
     '(right_addr, right_page, txn) ← build_page (K := Key) (V := Value) fm fuel Leaf DataPage ri txn;
     _ ← txn_write_page right_addr right_page txn;
     '(right_id, txn) ← txn_insert_page right_addr txn;
     '(new_addr, new_page, txn) ← build_page (I := ItemIter (list Z * Index)) (K := list Z) (V := Index)
        fm fuel Leaf SplitPage (item_iter_new (raw k, mkIndex right_id 0)) txn;
     _ ← link_page (h_epoch h + 1) (sat_add_u8 (h_chain_len h)) addr new_addr new_page txn;
     update_or_again id addr new_addr txn) s.
Proof.
  intros old Hi Ha Hnr Hh Htier Hkind Hnext Hn Hsp. destruct (heap_inv_read _ _ _ _ _ _ Hi Ha) as [Hrd _].
  assert (Hkd : lift (info_kind (page_info old)) s = (Ok DataPage, s)).
  { unfold lift, info_kind, old. by rewrite page_of_info_flags, Hkind, flags_new_kind by done. }
  unfold split_page. cbn [pv_page]. st_step Hkd.
  assert (Hnx : info_chain_next (page_info old) = 0).
  { unfold info_chain_next, old, page_info. cbn [pi_next]. by rewrite page_of_chain_next. }
  rewrite Hnx. change (negb (is_data DataPage) || negb (0 =? 0)) with false. cbn match.
  assert (Htr : lift (info_tier (page_info old)) s = (Ok Leaf, s)) by (unfold lift, old; by rewrite page_of_info_tier, Htier).
  st_step Htr. cbn match. unfold split_page_impl. cbn [pv_id pv_page pv_addr].
  rewrite (proj2 (Z.eqb_neq _ _) Hnr). st_step Htr. st_step Hrd.
  rewrite (st_bind_ok _ _ s r s) by (unfold lift; by rewrite Hn).
  rewrite (st_bind_ok _ _ s _ s) by (unfold lift; by rewrite Hsp). cbn match.
  unfold old. by rewrite page_of_info_epoch, page_of_info_chain_len.
Qed.

(** [split_page] on a leaf page that is not the root and can be split. *)
Lemma split_leaf_ok fm fuel s t m room id addr range h (l : list (Key * Value)) x mid :
  let old := page_of h (content_of l) in
  let sep := raw mid.1 in
  heap_inv s t m room -> t !! id = Some addr -> m !! addr = Some old -> id <> ROOT_ID ->
  header_ok h -> h_tier h = Leaf -> h_kind h = DataPage -> h_chain_next h = 0 -> fits 48 (h_epoch h + 1) ->
  items_ok l -> key_strict l ->
  l !! 0%nat = Some x -> l !! (length l / 2)%nat = Some mid -> raw x.1 <> sep ->
  (length l < fuel)%nat -> (1 < fuel)%nat -> nxt (st_table s) < MAX_ID ->
  builder_size (content_size l) <= 2 ^ 32 - 24 ->
  builder_size (content_size [(sep, mkIndex 0 0)]) <= 2 ^ 32 - 24 ->
  page_need l + page_need [(sep, mkIndex 0 0)] <= room ->
  exists s' room' left right ra rid new,
    split_page fm fuel (mkPageView id addr (page_info old) range) s = (Ok tt, s') /\
    l = left ++ right /\ klt (raw x.1) sep /\
    Forall (λ x, klt (raw x.1) sep) left /\ Forall (λ x, kle sep (raw x.1)) right /\
    (rid ∉ dom t) /\ rid <> NAN_ID /\ fits 64 rid /\ ra <> 0 /\ new <> 0 /\ fits 64 addr /\ 0 < addr /\
    m !! ra = None /\ (<[ra := new_leaf right]> m) !! new = None /\
    room - page_need l - page_need [(sep, mkIndex 0 0)] <= room' /\
    heap_inv s' (<[id := new]> (<[rid := ra]> t))
      (<[new := split_delta_page h addr sep rid]> (<[ra := new_leaf right]> m)) room'.
Proof.
  intros old sep Hi Hid Ha Hnr Hh Htier Hkind Hnext Hep Hok Hs Hx Hm Hne Hf Hf2 Hmax Hsz Hszd Hroom.
  pose proof Hi as (b & sb & rs & free & Hb & He & Ht & Hv & Hmp & Hse & Hnw & ->).
  destruct (heap_addr_bounds _ _ _ _ _ _ _ _ Hb Hmp Ha) as [Hpos H64].
  destruct (sp_new_repr old l) as (r & Hn & Hr & _); [apply page_of_content|done|].
  destruct (leaf_split_ok r l x mid Hr Hs Hx Hm Hne) as (left & right & li & ri & Hsp & Hdl & Hdr & El & Hl & Hrt & Hlt0).
  destruct (half_need l left right El) as (Hc1 & Hc2 & Hn1 & Hn2).
  assert (Hll : (length right <= length l)%nat) by (rewrite El, length_app; lia).
  destruct (heap_begin s b sb rs _ free m Hb He Ht Hmp Hse) as [Hbg Hth].
  set (txn := mkPageTxn (wb_group_id b) false [] []) in *.
  pose proof (page_need_pos [(sep, mkIndex 0 0)]) as Hp1. pose proof (page_need_pos l) as Hp2.
  unfold builder_size in Hsz.
  destruct (new_page_ok fm fuel Leaf DataPage ri right s txn b sb rs _ free m Hth Hdr ltac:(lia)
    ltac:(unfold builder_size; lia) Hse ltac:(lia) (λ _, Hnw) ltac:(lia))
    as (ra & rid & txn1 & txn1' & b1 & s1 & s1' & s1'' & rs1 & free1 & Hbp1 & Hw1 & Hip1 & Hbid1 & Hhold1 & _ &
        Hnu1 & Hok1 & Hv1 & Ho1 & Hx1 & Hz1 & Hlt1 & Hnone1 & Hne1 & Hth1).
  fold (new_leaf right) in Hw1, Hbp1, Hth1.
  set (d := [(sep, mkIndex rid 0)]). assert (Hdd : denotes (item_iter_new (sep, mkIndex rid 0)) d d) by done.
  assert (Hcd : content_size d = content_size [(sep, mkIndex 0 0)]) by apply split_delta_size.
  assert (Hnd : page_need d = page_need [(sep, mkIndex 0 0)]) by (unfold page_need; by rewrite Hcd).
  destruct (build_link_ok fm fuel Leaf SplitPage (item_iter_new (sep, mkIndex rid 0)) d (h_epoch h + 1)
    (sat_add_u8 (h_chain_len h)) addr s1'' txn1' b1 _ rs1 _ free1 _ Hth1 Hdd Hf2 ltac:(by rewrite Hcd) Hse
    ltac:(simpl; lia) ltac:(by rewrite Hhold1) Hep)
    as (new & p0 & txn2 & b2 & s2 & s3 & rs2 & Hbp2 & Hlk & Hin & Hbid2 & Hhold2 & Htab & Hz2 & Hlt2 & Hnone2 & Hne2 & Hth2).
  apply elem_of_dom_2 in Hid as Hdom.
  assert (Hrid : rid <> id) by (by intros ->). destruct (ids_ok _ _ _ _ Ht (or_introl Hdom)) as [Hidok _].
  assert (Hval : val (st_table s3) id = addr) by (rewrite Htab, Ho1 by done; by apply Hv).
  replace ({[rid]} ∪ dom t) with (dom (<[rid := ra]> t)) in Hth2 by apply dom_insert_L.
  assert (Hin' : id ∈ dom (<[rid := ra]> t)) by (rewrite dom_insert_L; set_solver).
  assert (Hra : ra <> addr) by (intros ->; congruence).
  destruct (heap_txn_update s3 txn2 b2 _ rs2 _ free1 _ id addr new Hth2)
    as (s4 & b4 & rs4 & Hup & Hz4 & Ht4 & Hv4 & Ho4 & He4 & Hb4 & Hm4); [done|done| |done|done|].
  { apply (Hlt2 addr old). by rewrite lookup_insert_ne. }
  rewrite Hbid2, Hbid1 in Hb4, He4, Hm4. rewrite Hhold1 in Hb4. rewrite Htab in Ho4.
  cbn [negb txn tx_buffer_id tx_hold_write_guard] in Hb4, He4, Hm4.
  assert (Hv' : map_Forall (λ id addr, val (st_table s1'') id = addr) (<[rid := ra]> t)).
  { apply (new_id_table (st_table s)); try done. intros i Hi'. by apply (ids_ok _ _ _ i Ht (or_introl Hi')). }
  pose proof (heap_inv_swing _ s4 _ _ _ b4 _ rs4 free1 id new Hb4 He4 Ht4 Hin' Hv' Hv4 Ho4 Hm4 Hse ltac:(simpl; lia)) as Hi'.
  assert (Hrin : rid ∈ dom (<[rid := ra]> t)) by (rewrite dom_insert_L; set_solver).
  destruct (ids_ok _ _ _ rid Ht4 (or_introl Hrin)) as [_ Hrn].
  exists s4, (wb_buf_size b4 - (allocated sb + page_need right + page_need d)), left, right, ra, rid, new.
  split_and!; try done; [|by apply id_ok_fits|lia].
  etrans; [by apply (split_page_enter fm fuel s t m _ id addr range h l r (mkKey sep u64_max) li ri Hi Ha)|].
  st_step Hbg. st_step Hbp1. st_step Hw1. st_step Hip1. st_step Hbp2.
  st_step Hlk. unfold update_or_again. by st_step Hup.
Qed.

(** ** Completing the split in the parent *)

Definition in_range (key : list Z) (range : Range) : Prop :=
  kle (range_start range) key /\ match range_end range with Some e => klt key e | None => True end.

#[global] Instance in_range_dec key range : Decision (in_range key range).
Proof. unfold in_range. destruct (range_end range); apply _. Defined.

(** The items of the delta for the parent. *)
Definition halves (range : Range) (li : Index) (sep : list Z) (si : Index) : list (list Z * Index) :=
  [(range_start range, li); (sep, si)] ++ match range_end range with Some e => [(e, NULL_INDEX)] | None => [] end.

Lemma halves_delta range li sep si :
  in_range sep range -> reconcile_delta (range_start range) (range_end range) li sep si = Ok (halves range li sep si).
Proof.
  intros [_ He]. unfold reconcile_delta, halves. destruct (range_end range) as [e|]; [|done].
  by rewrite bool_decide_true.
Qed.

Lemma halves_size range i j k l sep :
  content_size (halves range (mkIndex i j) sep (mkIndex k l)) =
    content_size (halves range (mkIndex 0 0) sep (mkIndex 0 0)).
Proof.
  unfold halves, content_size. rewrite !items_bytes_app, !length_app. f_equal. f_equal.
  by rewrite !items_bytes_cons, !length_app, !length_item_bytes.
Qed.

Lemma halves_length range li sep si : (length (halves range li sep si) <= 3)%nat.
Proof. unfold halves. destruct (range_end range); simpl; lia. Qed.

(** Keys of the range are routed to the halves, others as before. *)
Lemma halves_child key range li sep si xs :
  klt (range_start range) sep -> in_range sep range -> li <> NULL_INDEX -> si <> NULL_INDEX ->
  (in_range key range -> exists crng,
    chain_child key (CData (halves range li sep si) :: xs) = Some (if decide (klt key sep) then li else si, crng)) /\
  (~ in_range key range -> chain_child key (CData (halves range li sep si) :: xs) = chain_child key xs).
Proof.
  intros Hls Hsep Hli Hsi.
  pose proof (reconcile_child key _ _ _ _ _ _ xs (halves_delta range li sep si Hsep) Hls Hli Hsi) as Hc.
  rewrite Hc. clear Hc. unfold in_range. split.
  - intros [Hs He]. rewrite decide_False by (by apply not_klt). destruct (decide (klt key sep)); [by eexists|].
    destruct (range_end range) as [e|]; [|by eexists]. rewrite decide_False by (by apply not_kle). by eexists.
  - intros Hn. destruct (decide (klt key (range_start range))) as [|Hs]; [done|]. apply not_klt in Hs.
    destruct Hsep as [_ Hse]. destruct (range_end range) as [e|]; [|by destruct Hn].
    assert (He : kle e key) by (apply not_klt; intros He; by apply Hn).
    rewrite decide_False by (apply not_klt; apply klt_kle; by eapply klt_le_trans). by rewrite decide_True.
Qed.

(** [reconcile_page] on a leaf with a split delta. *)
Lemma reconcile_leaf_ok fm opts fuel safe s t m room id addr range h a0 sep rid pid paddr hp c prng :
  let page := split_delta_page h a0 sep rid in
  let delta := halves range (mkIndex id (h_epoch h + 1)) sep (mkIndex rid 0) in
  heap_inv s t m room -> m !! addr = Some page -> header_ok h -> fits 48 (h_epoch h + 1) -> fits 64 a0 ->
  items_ok [(sep, mkIndex rid 0)] -> in_range sep range ->
  t !! pid = Some paddr -> m !! paddr = Some (page_of hp c) -> header_ok hp ->
  builder_size (content_size delta) <= 2 ^ 32 - 24 -> page_need delta <= room -> (3 < fuel)%nat ->
  sat_add_u8 (h_chain_len hp) <= Nat.max (opt_page_chain_length opts / 2) 1 ->
  exists s' new,
    reconcile_page fm opts fuel safe (mkPageView id addr (page_info page) (Some range))
      (Some (mkPageView pid paddr (page_info (page_of hp c)) prng)) s = (Ok tt, s') /\
    m !! new = None /\ new <> 0 /\ fits 64 paddr /\
    heap_inv s' (<[pid := new]> t)
      (<[new := page_of (mkHeader (h_epoch hp) BasePage.Inner DataPage (sat_add_u8 (h_chain_len hp)) paddr) (content_of delta)]> m)
      (room - page_need delta).
Proof.
  intros page delta Hi Ha Hh Hep H64 Hok Hsep Hpid Hpa Hhp Hsz Hroom Hf Hcl.
  pose proof (linked_header_ok h (h_epoch h + 1) Leaf SplitPage a0 Hh Hep H64) as Hh'.
  assert (Hp64 : fits 64 paddr).
  { destruct Hi as (b & sb & rs & free & Hb & _ & _ & _ & Hm & _). by destruct (heap_addr_bounds _ _ _ _ _ _ _ _ Hb Hm Hpa). }
  pose proof (linked_header_ok hp (h_epoch hp) BasePage.Inner DataPage paddr Hhp (proj1 Hhp) Hp64) as Hh2.
  assert (Hd : denotes (slice_iter_new delta) delta delta) by done.
  assert (Hld : (length delta < fuel)%nat) by (pose proof (halves_length range (mkIndex id (h_epoch h + 1)) sep (mkIndex rid 0)); unfold delta; lia).
  destruct (publish_page fm fuel BasePage.Inner DataPage (slice_iter_new delta) delta (h_epoch hp)
    (sat_add_u8 (h_chain_len hp)) paddr s t m room pid paddr _ Hi Hpid Hpa Hd Hld Hsz Hroom (proj1 Hhp))
    as (txn & new & p0 & txn1 & s1 & s2 & s3 & Hbg & Hbp & Hlk & Hup & Hnew & Hne & Hi').
  exists s3, new. split_and!; [|done|done|done|exact Hi'].
  destruct (heap_inv_read _ _ _ _ _ _ Hi Ha) as [Hrd _].
  destruct (sp_new_repr page [(sep, mkIndex rid 0)]) as (r & Hn & Hr & _); [apply page_of_content|done|].
  assert (Hsd : split_delta_from_page page = Ok (sep, mkIndex rid 0)).
  { unfold split_delta_from_page. rewrite Hn. cbn [mbind res_bind]. by rewrite (sp_get_repr _ _ 0 Hr). }
  unfold reconcile_page. cbn [pv_page].
  rewrite (st_bind_ok _ _ s SplitPage s) by (unfold lift, info_kind, page, split_delta_page; by rewrite page_of_info_flags, flags_new_kind by done).
  cbn match. unfold reconcile_split_page. cbn [pv_range pv_id pv_page pv_addr].
  st_step Hrd. rewrite (st_bind_ok _ _ s _ s) by (unfold lift; by rewrite Hsd).
  assert (Hie : info_epoch (page_info page) = h_epoch h + 1) by (unfold page, split_delta_page; by rewrite page_of_info_epoch).
  rewrite Hie, (st_bind_ok _ _ s delta s) by (unfold lift; by rewrite halves_delta).
  st_step Hbg. st_step Hbp. rewrite page_of_info_epoch, page_of_info_chain_len by done. st_step Hlk.
  rewrite (st_bind_ok _ _ s2 tt s3) by (unfold update_or_again; by st_step Hup).
  cbn [pv_page]. rewrite (st_bind_ok _ _ s3 false s3); [done|]. unfold lift, should_consolidate_page.
  rewrite page_of_info_tier by done. cbn [mbind res_bind h_tier]. change (is_inner BasePage.Inner) with true. cbn match.
  rewrite page_of_info_chain_len by done. cbn [h_chain_len]. by rewrite (proj2 (Z.ltb_ge _ _) Hcl).
Qed.

(** ** Paths *)

(** A path that starts at its leaf. *)
Lemma route_at_leaf fuel t m key n idx rng par view par' :
  route fuel t m key n idx rng par (view, par') -> idx_id idx = pv_id view ->
  exists n' page, n = S n' /\ par' = par /\ view = mkPageView (idx_id idx) (pv_addr view) (page_info page) (Some rng) /\
    t !! idx_id idx = Some (pv_addr view) /\ m !! pv_addr view = Some page /\
    info_epoch (page_info page) = idx_epoch idx /\ info_tier (page_info page) = Ok Leaf.
Proof.
  intros Hr He. inversion Hr as [? ? ? ? a pg K1 K2 K3 K4|? ? ? ? a pg xs ch cr ? K1 K2 K3 K4 K5 K6 K7 K8]; subst.
  - eexists _, pg. by split_and!.
  - exfalso. destruct (route_view _ _ _ _ _ _ _ _ _ _ K8) as (pv & ? & _ & Q1 & Q2 & Q3).
    rewrite <- He, K1 in Q1. injection Q1 as Q1. rewrite <- Q1, K2 in Q2. injection Q2 as <-. congruence.
Qed.

Lemma route_from_leaf fuel t m key n idx rng par view par' addr page :
  t !! idx_id idx = Some addr -> m !! addr = Some page -> info_tier (page_info page) = Ok Leaf ->
  route fuel t m key n idx rng par (view, par') -> idx_id idx = pv_id view.
Proof. intros H1 H2 H3 Hr. inversion Hr; simplify_eq; [done|congruence]. Qed.

(** The parent at the end of a path. *)
Lemma route_parent fuel t m key n idx rng par view par' :
  route fuel t m key n idx rng par (view, par') -> idx_id idx <> pv_id view ->
  exists p page xs child crng prng,
    par' = Some p /\ p = mkPageView (pv_id p) (pv_addr p) (page_info page) (Some prng) /\
    t !! pv_id p = Some (pv_addr p) /\ m !! pv_addr p = Some page /\
    info_tier (page_info page) = Ok BasePage.Inner /\
    chain_at m (pv_addr p) xs /\ (length xs < fuel)%nat /\
    chain_child key xs = Some (child, crng) /\ idx_id child = pv_id view.
Proof.
  intros Hr. remember (view, par') as out eqn:Eo.
  induction Hr as [n idx rng par a pg H1 H2 H3 H4|n idx rng par a pg xs child crng out H1 H2 H3 H4 H5 H6 H7 Hr IH]; intros Hne.
  - by injection Eo as <- <-.
  - destruct (decide (idx_id child = pv_id view)) as [Ec|Ec]; [|by apply IH]. subst out.
    destruct (route_at_leaf _ _ _ _ _ _ _ _ _ _ Hr Ec) as (n' & pg' & -> & -> & _).
    eexists _, pg, xs, child, crng, rng. by split_and!.
Qed.

(** A path that stays away from a page id is a path of any table and heap that agree
    elsewhere; where it ends at the id with another epoch, the descent turns to
    [reconcile_page]. *)
Lemma find_leaf_stale fm opts fuel safe s t m t1 m1 room id new page key n idx rng par view p :
  heap_inv s t1 m1 room -> m ⊆ m1 ->
  (forall i a, t !! i = Some a -> i <> id -> t1 !! i = Some a) -> t1 !! id = Some new -> m1 !! new = Some page ->
  route fuel t m key n idx rng par (view, Some p) -> idx_id idx <> id -> pv_id view = id ->
  info_epoch (page_info page) <> info_epoch (pv_page view) ->
  find_leaf_loop fm opts fuel safe n key idx rng par s =
    (_ ← attempt (reconcile_page fm opts fuel safe (mkPageView id new (page_info page) (pv_range view)) (Some p));
     lift (Err Again)) s.
Proof.
  intros Hi Hsub Ht Hid Hnew Hr. remember (view, Some p) as out eqn:Eo. revert Eo.
  induction Hr as [n idx rng par a pg H1 H2 H3 H4|n idx rng par a pg xs child crng out H1 H2 H3 H4 H5 H6 H7 Hr IH];
    intros Eo Hne Hv Hep; [by injection Eo as <- <-|].
  erewrite find_leaf_inner; [|exact Hi|by apply Ht|by eapply lookup_weaken|done|done|by eapply chain_at_mono|done|done].
  destruct (decide (idx_id child = id)) as [Ec|Ec]; [|by apply IH]. subst out.
  destruct (route_at_leaf _ _ _ _ _ _ _ _ _ _ Hr (eq_trans Ec (eq_sym Hv))) as (n' & pg' & -> & [= ->] & Ev & _ & _ & Hec & _).
  rewrite Ev in Hep |- *. cbn [pv_page pv_range pv_id] in *. cbn [find_leaf_loop]. rewrite Ec.
  st_step (page_view_ok _ _ _ _ _ _ _ (Some (child_range rng crng)) Hi Hid Hnew). cbn [pv_page].
  rewrite (proj2 (Z.eqb_neq _ _)) by congruence. done.
Qed.

(** The paths once the parent knows both halves. The leaf [id] gets the page at
    [new], the right half is page [rid] at [ra], and the parent [pid] at [newp] has
    the delta in front of its chain. *)
Section paths.
Context (fuel : nat) (t t2 : gmap Z Z) (m m2 : gmap Z (list Z)).
Context (id pid rid paddr new ra newp : Z) (ppage spage rpage npage : list Z).
Context (range : Range) (sep : list Z) (xs : list (ChainPage (list Z) Index)).
Local Abbreviation epoch := (info_epoch (page_info spage)).
Local Abbreviation delta := (halves range (mkIndex id epoch) sep (mkIndex rid 0)).

Hypothesis Hsub : m ⊆ m2.
Hypothesis Htab : forall i a, t !! i = Some a -> i <> id -> i <> pid -> t2 !! i = Some a.
Hypothesis Hold : exists addr page, t !! id = Some addr /\ m !! addr = Some page /\ info_tier (page_info page) = Ok Leaf.
Hypothesis Hnew : t2 !! id = Some new /\ m2 !! new = Some spage /\ info_tier (page_info spage) = Ok Leaf.
Hypothesis Hright : t2 !! rid = Some ra /\ m2 !! ra = Some rpage /\ info_tier (page_info rpage) = Ok Leaf /\
  info_epoch (page_info rpage) = 0.
Hypothesis Hpar : t !! pid = Some paddr /\ m !! paddr = Some ppage /\ info_tier (page_info ppage) = Ok BasePage.Inner /\
  chain_at m paddr xs /\ (length xs < fuel)%nat.
Hypothesis Hnewp : t2 !! pid = Some newp /\ m2 !! newp = Some npage /\ info_tier (page_info npage) = Ok BasePage.Inner /\
  info_epoch (page_info npage) = info_epoch (page_info ppage) /\ chain_at m2 newp (CData delta :: xs).
Hypothesis Hids : id <> NAN_ID /\ rid <> NAN_ID.
Hypothesis Hsep : klt (range_start range) sep /\ in_range sep range.
(** The parent sends the keys of the range to the leaf. *)
Hypothesis Hown : forall key, in_range key range -> exists i r, chain_child key xs = Some (i, r) /\ idx_id i = id.

(** A path that goes on to the leaf ends there. *)
Lemma route_to_leaf key n child rng par view p :
  route fuel t m key n child rng par (view, p) -> idx_id child = id -> pv_id view = id /\ p = par /\ exists n', n = S n'.
Proof using Hold.
  intros Hr Ec. destruct Hold as (addr & page & O1 & O2 & O3). rewrite <- Ec in O1.
  pose proof (route_from_leaf _ _ _ _ _ _ _ _ _ _ _ _ O1 O2 O3 Hr) as Ev.
  destruct (route_at_leaf _ _ _ _ _ _ _ _ _ _ Hr Ev) as (n' & pg & -> & -> & _). split_and!; [congruence|done|by exists n'].
Qed.

(** The leaves for the keys of the range. *)
Lemma route_half key n crng par :
  exists view', route (S fuel) t2 m2 key (S n) (if decide (klt key sep) then mkIndex id epoch else mkIndex rid 0) crng par (view', par) /\
    pv_addr view' = (if decide (klt key sep) then new else ra).
Proof using Hnew Hright.
  destruct Hnew as (N1 & N2 & N3), Hright as (R1 & R2 & R3 & R4).
  case_decide; (eexists; split; [by apply route_leaf|done]).
Qed.

Lemma route_halves key n idx rng par par2 view p :
  route fuel t m key n idx rng par (view, p) -> idx_id idx <> id ->
  (pv_id view = id -> in_range key range /\ pv_id <$> p = Some pid) ->
  exists view' p', route (S fuel) t2 m2 key n idx rng par2 (view', p') /\
    (pv_id view = id /\ pv_addr view' = (if decide (klt key sep) then new else ra) \/
     pv_id view <> id /\ pv_addr view' = pv_addr view).
Proof using All.
  intros Hr. remember (view, p) as out eqn:Eo. revert Eo par2.
  induction Hr as [n idx rng par a pg H1 H2 H3 H4|n idx rng par a pg xs' child crng out H1 H2 H3 H4 H5 H6 H7 Hr IH];
    intros Eo par2 Hne Hin; destruct Hpar as (P1 & P2 & P0 & P3 & P4).
  { injection Eo as <- <-. cbn [pv_id pv_addr] in *. assert (Hp : idx_id idx <> pid) by (intros Ep; congruence).
    eexists _, par2. split; [apply route_leaf; [by apply Htab|by eapply lookup_weaken|done|done]|by right]. }
  destruct Hnewp as (N1 & N2 & N3 & N4 & N5). subst out.
  assert (Hchild : idx_id child = id -> in_range key range /\ idx_id idx = pid).
  { intros Ec. destruct (route_to_leaf _ _ _ _ _ _ _ Hr Ec) as (Hv & -> & _). destruct (Hin Hv) as [Hk Hp]. by injection Hp. }
  destruct (decide (idx_id idx = pid)) as [Ep|Ep].
  - assert (a = paddr) as -> by congruence. assert (pg = ppage) as -> by congruence.
    assert (xs' = xs) as -> by (by eapply chain_at_fun).
    destruct (halves_child key range (mkIndex id epoch) sep (mkIndex rid 0) xs) as [Hc1 Hc2];
      [apply Hsep|apply Hsep|unfold NULL_INDEX; naive_solver|unfold NULL_INDEX; naive_solver|].
    assert (Hstep : forall child' crng' view' p', chain_child key (CData delta :: xs) = Some (child', crng') ->
      route (S fuel) t2 m2 key n child' (child_range rng crng')
        (Some (mkPageView (idx_id idx) newp (page_info npage) (Some rng))) (view', p') ->
      route (S fuel) t2 m2 key (S n) idx rng par2 (view', p')).
    { intros child' crng' view' p' Hc Hr'. eapply route_inner; [by rewrite Ep|done|congruence|done|done|simpl; lia|done|done]. }
    destruct (decide (in_range key range)) as [Hk|Hk].
    + destruct (Hown key Hk) as (i & r & Hi & Ei). rewrite H7 in Hi. injection Hi as <- <-.
      destruct (route_to_leaf _ _ _ _ _ _ _ Hr Ei) as (Hv & _ & n' & ->). destruct (Hc1 Hk) as [crng' Hc].
      destruct (route_half key n' (child_range rng crng') (Some (mkPageView (idx_id idx) newp (page_info npage) (Some rng))))
        as (view' & Hr' & Ha'). eexists view', _. split; [by eapply Hstep|by left].
    + edestruct (IH eq_refl) as (view' & p' & Hr' & Hv'); [by intros [Hk' _]%Hchild|exact Hin|].
      exists view', p'. split; [|exact Hv']. eapply Hstep; [by rewrite (Hc2 Hk)|exact Hr'].
  - edestruct (IH eq_refl) as (view' & p' & Hr' & Hv'); [by intros [_ Ep']%Hchild|exact Hin|].
    exists view', p'. split; [|exact Hv'].
    eapply route_inner; [by apply Htab|by eapply lookup_weaken|done|done|by eapply chain_at_mono|lia|done|exact Hr'].
Qed.
End paths.

Lemma halves_ok range li sep si :
  codec_ok li -> codec_ok si -> content_size (halves range li sep si) <= u32_max ->
  klt (range_start range) sep -> in_range sep range ->
  items_ok (halves range li sep si) /\ key_strict (halves range li sep si).
Proof.
  intros Hli Hsi Hsz Hls [_ He]. assert (Hkey : forall k i, (k, i) ∈ halves range li sep si -> codec_ok k).
  { intros k i Hin. apply list_elem_of_split in Hin as (l1 & l2 & El). rewrite El in Hsz.
    unfold content_size in Hsz. rewrite items_bytes_app, items_bytes_cons, !length_app, length_item_bytes in Hsz.
    unfold item_size in Hsz. cbn in Hsz |- *. unfold u32_max in Hsz. unfold fits. lia. }
  unfold halves in *. split.
  - split; [|done]. apply Forall_forall. intros [k i] Hin. split; [by eapply Hkey|].
    destruct (range_end range); cbn [app] in Hin; rewrite !elem_of_cons in Hin;
      repeat destruct Hin as [[= -> ->]|Hin]; try done; by apply not_elem_of_nil in Hin.
  - destruct (range_end range) as [e|]; cbn [app]; repeat constructor; try done. simpl. by etrans.
Qed.

(** A split delta in front of a chain. *)
Lemma chain_at_split {K V} `{OrdLaws K} `{!Codec K} `{!CodecLaws K} `{!PrefixCodec K} `{!Codec V} `{!CodecLaws V}
    `{!SortedPageKey K} m addr new h sep i (xs : list (ChainPage K V)) :
  new <> 0 -> m !! new = Some (page_of h (content_of [(sep, i)])) -> header_ok h -> h_kind h = SplitPage ->
  h_chain_next h = addr -> items_ok [(sep, i)] -> chain_at m addr xs -> chain_at m new (CSplit sep i :: xs).
Proof.
  intros Hne Hn Hh Hk Hnext Hok (ps & Hc & Hp). exists ((new, page_of h (content_of [(sep, i)])) :: ps).
  split; [|constructor; [by exists h|done]]. constructor; [done|done|]. by rewrite page_of_chain_next, Hnext.
Qed.

(** ** The whole split *)

(** The leaf [id] with parent [pid], whose chain holds [xs], owns its range: the
    parent sends the keys of the range to it, and only these come to it, from this
    parent. *)
Definition owns_range (fuel : nat) (t : gmap Z Z) (m : gmap Z (list Z)) (id pid : Z) (range : Range)
    (xs : list (ChainPage (list Z) Index)) : Prop :=
  (forall key, in_range key range -> exists i r, chain_child key xs = Some (i, r) /\ idx_id i = id) /\
  (forall key view p, route fuel t m key fuel ROOT_INDEX ROOT_RANGE None (view, p) -> pv_id view = id ->
    in_range key range /\ pv_id <$> p = Some pid).

(** The table and the heap once both steps are done. *)
Section halves.
Context (fuel : nat) (t : gmap Z Z) (m : gmap Z (list Z)) (id pid rid addr new ra newp paddr : Z).
Context (h hp : Header) (c sep : list Z) (range : Range) (xs : list (ChainPage (list Z) Index)).
Context (l left right : list (Key * Value)).

Definition parent_delta : list (list Z * Index) := halves range (mkIndex id (h_epoch h + 1)) sep (mkIndex rid 0).
Definition parent_page : list Z :=
  page_of (mkHeader (h_epoch hp) BasePage.Inner DataPage (sat_add_u8 (h_chain_len hp)) paddr) (content_of parent_delta).
Definition split_table : gmap Z Z := <[id := new]> (<[rid := ra]> t).
Definition split_heap : gmap Z (list Z) := <[new := split_delta_page h addr sep rid]> (<[ra := new_leaf right]> m).

Hypothesis Hleaf : t !! id = Some addr /\ m !! addr = Some (page_of h (content_of l)) /\ header_ok h /\
  h_tier h = Leaf /\ h_kind h = DataPage /\ h_chain_next h = 0 /\ fits 48 (h_epoch h + 1).
Hypothesis Haddr : 0 < addr /\ fits 64 addr /\ fits 64 paddr.
Hypothesis Hids : id <> ROOT_ID /\ id <> NAN_ID /\ (rid ∉ dom t) /\ rid <> NAN_ID.
Hypothesis Hparent : t !! pid = Some paddr /\ m !! paddr = Some (page_of hp c) /\ header_ok hp /\
  h_tier hp = BasePage.Inner /\ chain_at m paddr xs /\ (length xs < fuel)%nat.
Hypothesis Hown : owns_range fuel t m id pid range xs.
Hypothesis Hitems : l = left ++ right /\ items_ok l /\ key_strict l /\
  Forall (λ x, klt (raw x.1) sep) left /\ Forall (λ x, kle sep (raw x.1)) right.
Hypothesis Hsep : klt (range_start range) sep /\ in_range sep range.
Hypothesis Hdelta : items_ok [(sep, mkIndex rid 0)] /\ items_ok parent_delta /\ key_strict parent_delta.
Hypothesis Hfresh : m !! ra = None /\ (<[ra := new_leaf right]> m) !! new = None /\ split_heap !! newp = None /\
  ra <> 0 /\ new <> 0 /\ newp <> 0.

Lemma halves_heap :
  m ⊆ split_heap /\ split_heap ⊆ <[newp := parent_page]> split_heap /\
  split_heap !! new = Some (split_delta_page h addr sep rid) /\ split_heap !! ra = Some (new_leaf right) /\
  id <> pid /\ rid <> id /\ rid <> pid.
Proof using All.
  destruct Hfresh as (F1 & F2 & F3 & _), Hleaf as (L1 & L2 & L3 & L4 & _), Hparent as (P1 & P2 & P3 & P4 & _).
  destruct Hids as (_ & _ & I1 & _). split_and!.
  - etrans; by apply insert_subseteq.
  - by apply insert_subseteq.
  - apply lookup_insert_eq.
  - unfold split_heap. rewrite lookup_insert_ne; [apply lookup_insert_eq|]. intros ->. by rewrite lookup_insert_eq in F2.
  - intros ->. rewrite L1 in P1. injection P1 as ->. 
    assert (E : page_of h (content_of l) = page_of hp c) by congruence.
    pose proof (page_of_tier h (content_of l)) as T1. rewrite E, page_of_tier in T1. congruence.
  - intros ->. by apply elem_of_dom_2 in L1.
  - intros ->. by apply elem_of_dom_2 in P1.
Qed.

Lemma halves_path key view p :
  route fuel t m key fuel ROOT_INDEX ROOT_RANGE None (view, p) ->
  exists view' p',
    route (S fuel) (<[pid := newp]> split_table) (<[newp := parent_page]> split_heap) key fuel ROOT_INDEX ROOT_RANGE None (view', p') /\
    (pv_id view = id /\ pv_addr view' = (if decide (klt key sep) then new else ra) \/
     pv_id view <> id /\ pv_addr view' = pv_addr view).
Proof using All.
  intros Hr. destruct halves_heap as (Hs1 & Hs2 & Hn1 & Hr1 & Hip & Hri & Hrp). destruct Hown as [Hown1 Hown2].
  destruct Hleaf as (L1 & L2 & L3 & L4 & L5 & L6 & L7), Hparent as (P1 & P2 & P3 & P4 & P5 & P6), Hfresh as (_ & _ & F3 & F4 & F5 & F6).
  destruct Haddr as (A1 & A2 & A3), Hids as (I1 & I2 & I3 & I4).
  pose proof (linked_header_ok h (h_epoch h + 1) Leaf SplitPage addr L3 L7 A2) as Hh1.
  pose proof (linked_header_ok hp (h_epoch hp) BasePage.Inner DataPage paddr P3 (proj1 P3) A3) as Hh2.
  assert (He : info_epoch (page_info (split_delta_page h addr sep rid)) = h_epoch h + 1)
    by (unfold split_delta_page; by rewrite page_of_info_epoch).
  apply (route_halves fuel t _ m _ id pid rid paddr new ra newp (page_of hp c) (split_delta_page h addr sep rid)
    (new_leaf right) parent_page range sep xs) with (par := None) (p := p); try done.
  - by etrans.
  - intros i a Hi H1 H2. assert (i <> rid) by (intros ->; by apply elem_of_dom_2 in Hi).
    unfold split_table. by rewrite !lookup_insert_ne.
  - exists addr, (page_of h (content_of l)). by rewrite page_of_info_tier, L4.
  - unfold split_table. rewrite lookup_insert_ne, lookup_insert_eq by done.
    split_and!; [done|by eapply lookup_weaken|]. unfold split_delta_page. by rewrite page_of_info_tier.
  - unfold split_table. rewrite !lookup_insert_ne, lookup_insert_eq by done. split_and!; [done|by eapply lookup_weaken|done|done].
  - split_and!; try done. by rewrite page_of_info_tier, P4.
  - rewrite !lookup_insert_eq, He. rewrite page_of_info_epoch by done. split_and!; [done|done| | |].
    { unfold parent_page. by rewrite page_of_info_tier. }
    { unfold parent_page. by rewrite page_of_info_epoch. }
    apply (chain_at_cons split_heap paddr); try done; [apply Hdelta..|by eapply chain_at_mono].
  - intros Hv. by apply (Hown2 key view p).
Qed.

Lemma halves_read q v :
  (1 < fuel)%nat -> tree_reads fuel t m q v ->
  tree_reads (S fuel) (<[pid := newp]> split_table) (<[newp := parent_page]> split_heap) q v.
Proof using All.
  intros Hf (vq & pq & xq & Hrq & Hcq & Hnq & Hfq & ->).
  destruct (halves_path _ _ _ Hrq) as (view' & p' & Hr' & Hv'). apply (route_mono _ (S fuel) _ _ _ _ (S fuel)) in Hr'; [|lia..].
  destruct halves_heap as (Hs1 & Hs2 & Hn1 & Hr1 & _). destruct Hleaf as (L1 & L2 & L3 & L4 & L5 & L6 & L7), Haddr as (A1 & A2 & _).
  destruct Hitems as (El & Hok & Hst & Hlf & Hrt), Hfresh as (_ & _ & _ & F4 & F5 & _).
  assert (Hsub : m ⊆ <[newp := parent_page]> split_heap) by (by etrans).
  destruct Hv' as [[Hid Ha]|[Hid Ha]].
  2: { exists view', p', xq. rewrite Ha. split_and!; [done|by eapply chain_at_mono|done|lia|done]. }
  assert (Hcl : chain_at m addr [CData l]).
  { eexists [(addr, _)]. split; [|constructor; [by exists h|done]]. constructor; [lia|exact L2|].
    rewrite page_of_chain_next, L6 by done. constructor. }
  destruct (route_view _ _ _ _ _ _ _ _ _ _ Hrq) as (pg & rg & _ & Q1 & _). rewrite Hid, L1 in Q1.
  injection Q1 as Q1. rewrite <- Q1 in Hcq.
  pose proof (chain_at_fun _ _ _ _ Hcl Hcq) as <-.
  assert (Hone : kmerge (omap data_of [CData l]) = l) by (cbn; by rewrite kmerge_cons, kmerge_nil, merge2_nil_r).
  destruct (items_ok_half l left right El Hok) as [_ Hokr].
  assert (Hsr : key_strict right) by (rewrite El in Hst; eapply sorted_sublist; [by apply sublist_inserts_l|exact Hst]).
  rewrite Hone, El, (value_at_split q sep left right Hlf Hrt). case_decide as Hq.
  - exists view', p', [CSplit sep (mkIndex rid 0); CData l]. rewrite Ha.
    split_and!; [done| |repeat constructor|simpl; lia|].
    + eapply (chain_at_split _ addr); [done|by eapply lookup_weaken|by apply linked_header_ok|done|done|apply Hdelta|].
      by eapply chain_at_mono.
    + change (omap data_of [CSplit sep (mkIndex rid 0); CData l]) with (omap data_of [CData l]).
      rewrite Hone, El, (value_at_split q sep left right Hlf Hrt). by rewrite decide_True.
  - exists view', p', [CData right]. rewrite Ha. split_and!; [done| |repeat constructor|simpl; lia|].
    + apply single_leaf_at; [done|by eapply lookup_weaken|done|done].
    + change (omap data_of [CData right]) with [right]. by rewrite kmerge_cons, kmerge_nil, merge2_nil_r.
Qed.
End halves.

Lemma heap_inv_id s t m room id addr : heap_inv s t m room -> t !! id = Some addr -> fits 64 id /\ id <> NAN_ID.
Proof.
  intros (b & sb & rs & free & _ & _ & Ht & _) Hid. apply elem_of_dom_2 in Hid.
  destruct (ids_ok _ _ _ id Ht (or_introl Hid)) as [Hok Hn]. split; [by apply id_ok_fits|done].
Qed.

Lemma index_ok id epoch : fits 64 id -> fits 48 epoch -> codec_ok (mkIndex id epoch).
Proof. intros Hi He. split; [exact Hi|]. unfold fits in *. simpl. lia. Qed.

(** The reader that found the split reads again. *)
Lemma tree_get_again fm opts fuel safe s1 s2 t m room q v :
  try_find_leaf fm opts fuel safe (raw q) s1 = (Err Again, s2) -> (1 < fuel)%nat ->
  heap_inv s2 t m room -> tree_reads fuel t m q v -> tree_get fm opts fuel safe q s1 = (Ok v, s2).
Proof.
  intros Ht Hf Hi (view & par & xs & Hr & Hc & Hn & Hl & ->). unfold tree_get.
  assert (Hfl : find_leaf fm opts fuel safe (raw q) s1 = (Ok (view, par), s2)).
  { unfold find_leaf. destruct fuel as [|[|fuel]]; [lia|lia|].
    change (find_leaf_retry fm opts (S (S fuel)) safe (S (S fuel)) (raw q) s1) with
      ((r ← attempt (try_find_leaf fm opts (S (S fuel)) safe (raw q));
        match r with
        | inl x => mret x
        | inr Again => find_leaf_retry fm opts (S (S fuel)) safe (S fuel) (raw q)
        | inr e => lift (Err e)
        end) s1).
    rewrite (st_bind_ok _ _ s1 (inr Again) s2) by (unfold attempt; by rewrite Ht).
    cbn [find_leaf_retry]. rewrite (st_bind_ok _ _ s2 (inl (view, par)) s2); [done|].
    unfold attempt, try_find_leaf. by rewrite (find_leaf_route _ _ _ _ _ _ _ _ _ _ _ _ _ _ Hi Hr). }
  st_step Hfl. by eapply find_value_at.
Qed.

Lemma leaf_parent_ne (t : gmap Z Z) (m : gmap Z (list Z)) (id pid rid addr paddr : Z) h c (l : list (Key * Value)) hp :
  t !! id = Some addr -> m !! addr = Some (page_of h (content_of l)) -> h_tier h = Leaf ->
  t !! pid = Some paddr -> m !! paddr = Some (page_of hp c) -> h_tier hp = BasePage.Inner -> (rid ∉ dom t) ->
  pid <> id /\ pid <> rid.
Proof.
  intros Hid Ha Ht Hpid Hpa Hpt Hr. split; [|intros ->; by apply elem_of_dom_2 in Hpid]. intros ->.
  rewrite Hid in Hpid. injection Hpid as <-. assert (E : page_of h (content_of l) = page_of hp c) by congruence.
  pose proof (page_of_tier h (content_of l)) as T. rewrite E, page_of_tier in T. congruence.
Qed.

(** The descent that finds the split of a leaf completes it. *)
Lemma stale_leaf_ok fm opts fuel safe s1 t m room1 key view pview range h l left right hp c sep rid ra new xs :
  let id := pv_id view in
  let delta := halves range (mkIndex id (h_epoch h + 1)) sep (mkIndex rid 0) in
  heap_inv s1 (split_table t id rid new ra) (split_heap m rid (pv_addr view) new ra h sep right) room1 ->
  route fuel t m key fuel ROOT_INDEX ROOT_RANGE None (view, Some pview) -> pv_range view = Some range ->
  t !! id = Some (pv_addr view) /\ m !! pv_addr view = Some (page_of h (content_of l)) /\ header_ok h /\
    h_tier h = Leaf /\ h_kind h = DataPage /\ h_chain_next h = 0 /\ fits 48 (h_epoch h + 1) ->
  0 < pv_addr view /\ fits 64 (pv_addr view) ->
  id <> ROOT_ID /\ id <> NAN_ID /\ (rid ∉ dom t) /\ rid <> NAN_ID ->
  t !! pv_id pview = Some (pv_addr pview) /\ m !! pv_addr pview = Some (page_of hp c) /\ header_ok hp /\
    h_tier hp = BasePage.Inner /\ chain_at m (pv_addr pview) xs /\ (length xs < fuel)%nat ->
  (exists prng, pview = mkPageView (pv_id pview) (pv_addr pview) (page_info (page_of hp c)) prng) ->
  owns_range fuel t m id (pv_id pview) range xs ->
  l = left ++ right /\ items_ok l /\ key_strict l /\
    Forall (λ x, klt (raw x.1) sep) left /\ Forall (λ x, kle sep (raw x.1)) right ->
  klt (range_start range) sep /\ in_range sep range ->
  items_ok [(sep, mkIndex rid 0)] /\ items_ok delta /\ key_strict delta ->
  m !! ra = None /\ (<[ra := new_leaf right]> m) !! new = None /\ ra <> 0 /\ new <> 0 ->
  sat_add_u8 (h_chain_len hp) <= Nat.max (opt_page_chain_length opts / 2) 1 -> (2 < fuel)%nat ->
  builder_size (content_size delta) <= 2 ^ 32 - 24 -> page_need delta <= room1 ->
  exists s2 t' m' room', try_find_leaf fm opts (S fuel) safe key s1 = (Err Again, s2) /\ heap_inv s2 t' m' room' /\
    (forall q v, tree_reads fuel t m q v -> tree_reads (S fuel) t' m' q v).
Proof.
  intros id delta Hi1 Hr Hrng Hleaf Haddr Hids Hpar [prng Hp] Hown Hitems Hsep Hdelta Hfresh Hcl Hf Hsz Hroom.
  pose proof Hleaf as (L1 & L2 & L3 & L4 & L5 & L6 & L7). pose proof Hpar as (P1 & P2 & P3 & P4 & P5 & P6).
  destruct Haddr as [A1 A2], Hfresh as (F1 & F2 & F3 & F4). pose proof Hids as (I1 & I2 & I3 & I4).
  destruct (leaf_parent_ne t m id (pv_id pview) rid _ _ h c l hp L1 L2 L4 P1 P2 P4 I3) as [Hpv Hpr].
  assert (Hsub : m ⊆ split_heap m rid (pv_addr view) new ra h sep right) by (etrans; by apply insert_subseteq).
  assert (Ht1 : forall i a, t !! i = Some a -> i <> id -> split_table t id rid new ra !! i = Some a).
  { intros i a Hi Hne. unfold split_table. rewrite !lookup_insert_ne; [done| |done].
    intros <-. by apply elem_of_dom_2 in Hi. }
  destruct (reconcile_leaf_ok fm opts (S fuel) safe s1 _ _ room1 id new range h (pv_addr view) sep rid (pv_id pview)
    (pv_addr pview) hp c prng Hi1) as (s2 & newp & Hrc & F5 & F6 & Hp64 & Hi2);
    try done; [apply lookup_insert_eq|apply Hdelta|apply Hsep|by apply Ht1|by eapply lookup_weaken|lia|].
  exists s2. eexists _, _, _. split_and!; [|exact Hi2|].
  - unfold try_find_leaf. apply (route_mono _ (S fuel) _ _ _ _ (S fuel)) in Hr; [|lia..].
    rewrite (find_leaf_stale fm opts (S fuel) safe s1 t m _ _ room1 id new _ key (S fuel) ROOT_INDEX ROOT_RANGE None view pview
      Hi1 Hsub Ht1 (lookup_insert_eq _ _ _) (lookup_insert_eq _ _ _) Hr); [|by intros E; apply I1|done|].
    + rewrite Hrng. rewrite <- Hp in Hrc. by rewrite (st_bind_ok _ _ s1 (inl tt) s2) by (unfold attempt; by rewrite Hrc).
    + destruct (route_view _ _ _ _ _ _ _ _ _ _ Hr) as (page & rg & -> & _ & Ha & _). cbn [pv_page pv_addr] in *.
      assert (page = page_of h (content_of l)) as -> by congruence.
      unfold split_delta_page. rewrite !page_of_info_epoch by (done || by apply linked_header_ok). cbn [h_epoch]. lia.
  - intros q v. eapply halves_read; try done; try lia; by split_and!.
Qed.

(** [C9] Splitting a leaf below an inner page: when the leaf of a key is one page that
    can be split, owns its range and holds only keys of it, and there is room for the
    right half and the deltas, [split_page] succeeds; the next descent for the key
    finds the new epoch, puts both halves into the parent and asks for a retry; after
    it every reader of every key sees what it saw before the split, and the reader of
    the key whose descent it was gets that value from its [tree_get]. *)
Theorem split_leaf_refines fm opts (fuel : nat) (safe : Z) (s : Store) (t : gmap Z Z) (m : gmap Z (list Z)) (room : Z)
    (key : list Z) (view pview : PageView) (range : Range) (h : Header) (l : list (Key * Value))
    (x mid : Key * Value) (xs : list (ChainPage (list Z) Index)) :
  let sep := raw mid.1 in
  let delta := halves range (mkIndex 0 0) sep (mkIndex 0 0) in
  heap_inv s t m room ->
  route fuel t m key fuel ROOT_INDEX ROOT_RANGE None (view, Some pview) -> pv_range view = Some range ->
  pv_id view <> ROOT_ID -> m !! pv_addr view = Some (page_of h (content_of l)) -> header_ok h ->
  h_kind h = DataPage -> h_chain_next h = 0 -> fits 48 (h_epoch h + 1) ->
  items_ok l -> key_strict l -> Forall (λ y, in_range (raw y.1) range) l ->
  l !! 0%nat = Some x -> l !! (length l / 2)%nat = Some mid -> raw x.1 <> sep ->
  chain_at m (pv_addr pview) xs -> owns_range fuel t m (pv_id view) (pv_id pview) range xs ->
  sat_add_u8 (info_chain_len (pv_page pview)) <= Nat.max (opt_page_chain_length opts / 2) 1 ->
  (length l < fuel)%nat -> (2 < fuel)%nat -> nxt (st_table s) < MAX_ID ->
  builder_size (content_size l) <= 2 ^ 32 - 24 ->
  builder_size (content_size delta) <= 2 ^ 32 - 24 ->
  builder_size (content_size [(sep, mkIndex 0 0)]) <= 2 ^ 32 - 24 ->
  page_need l + page_need [(sep, mkIndex 0 0)] + page_need delta <= room ->
  exists s1 s2 t' m' room',
    split_page fm fuel view s = (Ok tt, s1) /\
    try_find_leaf fm opts (S fuel) safe key s1 = (Err Again, s2) /\ heap_inv s2 t' m' room' /\
    (forall q v, tree_reads fuel t m q v -> tree_reads (S fuel) t' m' q v) /\
    (forall q v, raw q = key -> tree_reads fuel t m q v -> tree_get fm opts (S fuel) safe q s1 = (Ok v, s2)).
Proof.
  intros sep delta Hi Hr Hrng Hnr Ha Hh Hkind Hnext Hep Hok Hs Hin Hx Hm Hne Hxs Hown Hcl Hf Hf2 Hmax Hsz Hszd Hszs Hroom.
  destruct (route_view _ _ _ _ _ _ _ _ _ _ Hr) as (page & rg & Hview & Hid & Ha' & Htier).
  assert (page = page_of h (content_of l)) as -> by congruence.
  rewrite page_of_info_tier in Htier by done. injection Htier as Htier.
  destruct (route_parent _ _ _ _ _ _ _ _ _ _ Hr) as (p & ppage & xs' & child & crng & prng & [= <-] & Hp & Hpid & Hpa & Hpt & Hxs' & Hxl & _).
  { intros E. by apply Hnr. }
  assert (xs' = xs) as -> by (by eapply chain_at_fun).
  assert (Hpos : 0 < pv_addr pview).
  { destruct Hi as (b & sb & rs & free & Hb & _ & _ & _ & Hmp & _). by destruct (heap_addr_bounds _ _ _ _ _ _ _ _ Hb Hmp Hpa). }
  destruct (chain_at_head m (pv_addr pview) xs ppage ltac:(lia) Hpa Hxs) as (hp & c & Hhp & ->).
  rewrite page_of_info_tier in Hpt by done. injection Hpt as Hpt.
  pose proof (page_need_pos delta) as Hpd.
  destruct (split_leaf_ok fm fuel s t m room (pv_id view) (pv_addr view) rg h l x mid Hi Hid Ha Hnr Hh Htier Hkind Hnext Hep
    Hok Hs Hx Hm Hne Hf ltac:(lia) Hmax Hsz Hszs ltac:(fold sep; lia))
    as (s1 & room1 & left & right & ra & rid & new & Hsp & El & Hlt & Hlf & Hrt & Hrid & Hrn & Hr64 & Hra & Hnew & H64 & Hap &
        Hnone & Hnone2 & Hroom1 & Hi1). fold sep in Hsp, Hlt, Hlf, Hrt, Hroom1, Hi1.
  rewrite <- Hview in Hsp.
  assert (Hsep : klt (range_start range) sep /\ in_range sep range).
  { split; [|by apply (Forall_lookup_1 _ _ _ _ Hin Hm)]. eapply kle_lt_trans; [|exact Hlt].
    by apply (Forall_lookup_1 _ _ _ _ Hin Hx). }
  set (pdelta := halves range (mkIndex (pv_id view) (h_epoch h + 1)) sep (mkIndex rid 0)).
  assert (Hcd : content_size pdelta = content_size delta) by apply halves_size.
  assert (Hnd : page_need pdelta = page_need delta) by (unfold page_need; by rewrite Hcd).
  destruct (heap_inv_id _ _ _ _ _ _ Hi Hid) as [Hid64 Hidn].
  assert (Hdok : items_ok pdelta /\ key_strict pdelta).
  { apply halves_ok; try apply Hsep; [by apply index_ok|by apply index_ok|].
    fold pdelta. rewrite Hcd. unfold builder_size, PAGE_HEADER_LEN, u32_max in *. lia. }
  assert (Hsok : items_ok [(sep, mkIndex rid 0)]).
  { split; [|rewrite split_delta_size; unfold builder_size, PAGE_HEADER_LEN, u32_max in *; lia].
    constructor; [|constructor]. split; [|by apply index_ok]. destruct Hok as [Hok _].
    by destruct (Forall_lookup_1 _ _ _ _ Hok Hm) as [[Hks _] _]. }
  rewrite Hp in Hcl. cbn [pv_page] in Hcl. rewrite page_of_info_chain_len in Hcl by done.
  destruct (stale_leaf_ok fm opts fuel safe s1 t m room1 key view pview range h l left right hp c sep rid ra new xs Hi1 Hr Hrng)
    as (s2 & t' & m' & room' & Hst & Hi2 & Hreads); try (by split_and!); try done;
    [by eexists|fold pdelta; by rewrite Hcd|fold pdelta; lia|].
  exists s1, s2, t', m', room'. split_and!; [exact Hsp|exact Hst|exact Hi2|exact Hreads|].
  intros q v <- Hq. eapply tree_get_again; [exact Hst|lia|exact Hi2|by apply Hreads].
Qed.

(** ** Witness *)

(** A root with two leaves. *)
Definition left_items : list (Key * Value) := [(mkKey [1] 3, Put [3]); (mkKey [2] 4, Put [4])].
Definition right_items : list (Key * Value) := [(mkKey [5] 2, Put [2])].
Definition two_pages : gmap Z (list Z) :=
  <[24 := page_of (mkHeader 0 BasePage.Inner DataPage 1 0) (content_of (root_delta [4] 2 3))]>
  (<[16 := page_of (mkHeader 0 Leaf DataPage 1 0) (content_of right_items)]>
   {[8 := page_of (mkHeader 0 Leaf DataPage 1 0) (content_of left_items)]}).
Definition two_ids : gmap Z Z := <[1 := 24]> (<[2 := 8]> {[3 := 16]}).
Definition two_leaf_tree : Store :=
  mkStore (mkInner (<[loc_of 1 := 24]> (<[loc_of 2 := 8]> {[loc_of 3 := 16]})) 4 0)
    (mkBufferSetVersion 9 10 [] (fresh_buffer 9 (replicate 1024 0))) 9 two_pages (page_info <$> two_pages) 1024 0.

Lemma two_leaf_heap : heap_inv two_leaf_tree two_ids two_pages 1024.
Proof.
  exists (fresh_buffer 9 (replicate 1024 0)), state_default, [], []. split_and!; try done.
  - constructor; [|done|done|done|].
    + split_and!; [done|by vm_compute|done|].
      intros i x Hi%list_lookup_singleton_Some. destruct Hi as [-> <-]. done.
    + apply fresh_buffer_repr; [unfold fits; lia|rewrite length_replicate; lia].
  - unfold two_ids. rewrite !dom_insert_L, dom_singleton_L.
    constructor; simpl; [constructor|constructor|set_solver|vm_compute; split; congruence|].
    intros id. unfold MIN_ID. set_unfold. lia.
  - unfold two_ids. repeat apply map_Forall_insert_2; try done.
  - unfold two_pages. apply map_Forall_insert_2; [|apply map_Forall_insert_2; [|apply map_Forall_singleton]];
      (left; split; [vm_compute; split; done|split_and!; try done]).
Qed.

Lemma two_leaf_chain : chain_at two_pages 24 [CData (root_delta [4] 2 3)].
Proof.
  exists [(24, page_of (mkHeader 0 BasePage.Inner DataPage 1 0) (content_of (root_delta [4] 2 3)))]. solve_chain.
Qed.

Definition two_root_view : PageView :=
  mkPageView 1 24 (page_info (page_of (mkHeader 0 BasePage.Inner DataPage 1 0) (content_of (root_delta [4] 2 3)))) (Some ROOT_RANGE).
Definition two_left_view : PageView :=
  mkPageView 2 8 (page_info (page_of (mkHeader 0 Leaf DataPage 1 0) (content_of left_items))) (Some (mkRange [] (Some [4]))).

Lemma two_leaf_route : route 4 two_ids two_pages [1] 4 ROOT_INDEX ROOT_RANGE None (two_left_view, Some two_root_view).
Proof.
  eapply route_inner; [done|done|done|done|apply two_leaf_chain|simpl; lia|by vm_compute|].
  by apply (route_leaf _ _ _ _ _ (mkIndex 2 0)).
Qed.

Lemma two_leaf_owns : owns_range 4 two_ids two_pages 2 1 (mkRange [] (Some [4])) [CData (root_delta [4] 2 3)].
Proof.
  split.
  - intros key [_ Hk]. simpl in Hk. rewrite root_delta_child by done. rewrite decide_True by done. eauto.
  - intros key view p Hr Hv. inversion Hr as [? ? ? ? a pg K1 K2 K3 K4|? ? ? ? a pg xs ch cr ? K1 K2 K3 K4 K5 K6 K7 K8]; subst.
    + done.
    + vm_compute in K1. injection K1 as <-. pose proof (chain_at_fun _ _ _ _ two_leaf_chain K5) as <-.
      rewrite root_delta_child in K7 by done. case_decide as Hk; injection K7 as <- <-.
      * assert (Ev : idx_id (mkIndex 2 0) = pv_id view) by (by eapply route_from_leaf; [..|exact K8]).
        destruct (route_at_leaf _ _ _ _ _ _ _ _ _ _ K8 Ev) as (n' & pg' & _ & -> & _). split; [|done].
        split; [by destruct key|done].
      * assert (Ev : idx_id (mkIndex 3 0) = pv_id view) by (by eapply route_from_leaf; [..|exact K8]). simpl in Ev. lia.
Qed.

Lemma split_leaf_refines_witness :
  exists s1 s2 t' m' room',
    split_page zero_mem 4 two_left_view two_leaf_tree = (Ok tt, s1) /\
    try_find_leaf zero_mem (mkTreeOptions 4096 4) 5 0 [1] s1 = (Err Again, s2) /\ heap_inv s2 t' m' room' /\
    (forall q v, tree_reads 4 two_ids two_pages q v -> tree_reads 5 t' m' q v) /\
    (forall q v, raw q = [1] -> tree_reads 4 two_ids two_pages q v ->
      tree_get zero_mem (mkTreeOptions 4096 4) 5 0 q s1 = (Ok v, s2)).
Proof.
  apply (split_leaf_refines zero_mem (mkTreeOptions 4096 4) 4 0 two_leaf_tree two_ids two_pages 1024 [1] two_left_view
    two_root_view (mkRange [] (Some [4])) (mkHeader 0 Leaf DataPage 1 0) left_items
    (mkKey [1] 3, Put [3]) (mkKey [2] 4, Put [4]) [CData (root_delta [4] 2 3)] two_leaf_heap two_leaf_route).
  - done.
  - done.
  - done.
  - done.
  - done.
  - done.
  - done.
  - split; [by repeat constructor|vm_compute; congruence].
  - by repeat constructor.
  - by repeat constructor.
  - done.
  - done.
  - done.
  - apply two_leaf_chain.
  - apply two_leaf_owns.
  - vm_compute; congruence.
  - simpl; lia.
  - lia.
  - by vm_compute.
  - vm_compute; congruence.
  - vm_compute; congruence.
  - vm_compute; congruence.
  - vm_compute; congruence.
Defined.
