(* ===== verification/Table.v ===== *)
(** * The table ([raw/table.rs])

    What a user of the store calls: a table is the tree over the page store, with the
    safe LSN of the tree. The file has the operations and a multi-version map as their
    specification; [TableLaws] relates them. *)

From stdpp Require Import base numbers list sorting gmap.
From Stdlib Require Import ZArith Lia.
From S2P Require Import Prelude Data Codec BasePage Iter SortedPage PageTable WriteBuffer.
From S2P Require Import BufferSet PageTxn PageHeap TreePage Tree TreeLaws TreeRefine TreeConsolidate.

(** ** Operations *)

Record Table := mkTable { tb_safe_lsn : Z; tb_store : Store }.

Local Abbreviation M := (St Table).

(** One call of [Tree::set_safe_lsn], with no other thread: it loads, and exchanges at
    its first try. *)
Fixpoint set_safe_lsn_loop (n : nat) (safe_lsn : Z) (t : SafeLsnCall) : res Z :=
  match t, n with
  | LsnDone _, _ => Ok safe_lsn
  | _, O => Panic
  | _, S n => let '(safe_lsn, t) := set_safe_lsn_step safe_lsn t in set_safe_lsn_loop n safe_lsn t
  end.

Section operations.
Context (fresh_mem : Z -> list Z) (opts : TreeOptions) (fuel : nat).

Definition on_store {A} (m : Z -> St Store A) : M A := λ t,
  let '(r, s) := m (tb_safe_lsn t) (tb_store t) in (r, mkTable (tb_safe_lsn t) s).

(** [open] on the store that [PageStore::open] returns. *)
Definition tbl_open (store : Store) : res Table :=
  let '(r, store) := tree_init fresh_mem fuel store in
  _ ← r; Ok (mkTable 0 store).

Definition tbl_get (key : list Z) (lsn : Z) : M (option (list Z)) :=
  on_store (λ safe_lsn, tree_get fresh_mem opts fuel safe_lsn (mkKey key lsn)).
Definition tbl_put (key : list Z) (lsn : Z) (value : list Z) : M unit :=
  on_store (λ safe_lsn, tree_write fresh_mem opts fuel safe_lsn fuel (mkKey key lsn) (Put value)).
Definition tbl_delete (key : list Z) (lsn : Z) : M unit :=
  on_store (λ safe_lsn, tree_write fresh_mem opts fuel safe_lsn fuel (mkKey key lsn) Delete).
Definition tbl_safe_lsn : M Z := gets tb_safe_lsn.
Definition tbl_set_safe_lsn (lsn : Z) : M unit :=
  safe_lsn ← tbl_safe_lsn;
  safe_lsn ← lift (set_safe_lsn_loop 2 safe_lsn (LsnLoad lsn));
  modify (λ t, mkTable safe_lsn (tb_store t)).

Inductive TableOp :=
  | TGet (key : list Z) (lsn : Z)
  | TPut (key : list Z) (lsn : Z) (value : list Z)
  | TDelete (key : list Z) (lsn : Z)
  | TSafeLsn
  | TSetSafeLsn (lsn : Z).
Inductive TableOut := OValue (v : option (list Z)) | OUnit | OLsn (lsn : Z).

Definition tbl_step (op : TableOp) : M TableOut :=
  match op with
  | TGet key lsn => v ← tbl_get key lsn; mret (OValue v)
  | TPut key lsn value => _ ← tbl_put key lsn value; mret OUnit
  | TDelete key lsn => _ ← tbl_delete key lsn; mret OUnit
  | TSafeLsn => lsn ← tbl_safe_lsn; mret (OLsn lsn)
  | TSetSafeLsn lsn => _ ← tbl_set_safe_lsn lsn; mret OUnit
  end.
Fixpoint tbl_run (ops : list TableOp) : M (list TableOut) :=
  match ops with
  | [] => mret []
  | op :: ops => out ← tbl_step op; outs ← tbl_run ops; mret (out :: outs)
  end.
End operations.

(** ** The multi-version map *)

(** The newest write of the key at or before the LSN, in a history with the last write
    first. *)
Fixpoint history_value (q : Key) (hist : list (Key * Value)) : option (list Z) :=
  match hist with
  | [] => None
  | (key, value) :: hist => read_after key value q (history_value q hist)
  end.

Definition write_of (op : TableOp) : option (Key * Value) :=
  match op with
  | TPut key lsn value => Some (mkKey key lsn, Put value)
  | TDelete key lsn => Some (mkKey key lsn, Delete)
  | _ => None
  end.
Definition after (op : TableOp) (hist : list (Key * Value)) : list (Key * Value) := option_list (write_of op) ++ hist.
Definition safe_after (op : TableOp) (safe : Z) : Z := match op with TSetSafeLsn lsn => Z.max safe lsn | _ => safe end.

Definition spec_out (op : TableOp) (hist : list (Key * Value)) (safe : Z) : TableOut :=
  match op with
  | TGet key lsn => OValue (history_value (mkKey key lsn) hist)
  | TPut _ _ _ | TDelete _ _ | TSetSafeLsn _ => OUnit
  | TSafeLsn => OLsn safe
  end.
Fixpoint tbl_spec (ops : list TableOp) (hist : list (Key * Value)) (safe : Z) : list TableOut :=
  match ops with
  | [] => []
  | op :: ops => spec_out op hist safe :: tbl_spec ops (after op hist) (safe_after op safe)
  end.

(** What the table asks of its users: the LSNs of the writes of a key grow, nobody reads
    below the safe LSN, and all deletes stay above it. *)
Definition newer (key : Key) (hist : list (Key * Value)) : Prop := forall y, y ∈ hist -> raw y.1 = raw key -> lsn y.1 < lsn key.
Definition write_ok (w : Key * Value) (hist : list (Key * Value)) (safe : Z) : Prop :=
  item_ok w /\ newer w.1 hist /\ (w.2 = Delete -> safe < lsn w.1).
Definition tbl_op_ok (op : TableOp) (hist : list (Key * Value)) (safe : Z) : Prop :=
  match op with
  | TGet _ lsn => safe <= lsn
  | TSetSafeLsn lsn => tombstones_above lsn hist
  | _ => forall w, write_of op = Some w -> write_ok w hist safe
  end.
Fixpoint tbl_ops_ok (ops : list TableOp) (hist : list (Key * Value)) (safe : Z) : Prop :=
  match ops with
  | [] => True
  | op :: ops => tbl_op_ok op hist safe /\ tbl_ops_ok ops (after op hist) (safe_after op safe)
  end.
