(* ===== verification/TableLaws.v ===== *)
(** * A table is a multi-version map

    As long as the entries of a table fit into one page, the root is a leaf whose chain
    grows by a page with every write and is consolidated, in whole or in part, when it is
    too long. This file has the invariant, that every operation keeps it, and the theorem
    that puts creating, writing, consolidating and reading together. *)

From stdpp Require Import base numbers list sorting gmap.
From Stdlib Require Import ZArith Lia.
From S2P Require Import Prelude Data Codec BasePage Iter SortedPage PageTable WriteBuffer.
From S2P Require Import BufferSet PageTxn PageHeap TreePage Tree TreeLaws TreeRefine TreeConsolidate TreeWrite Table.

(** ** Sizes *)

Lemma content_size_cons (x : Key * Value) l : content_size (x :: l) = (4 + item_size x + content_size l)%nat.
Proof. unfold content_size. rewrite items_bytes_cons, length_app, length_item_bytes. simpl. lia. Qed.
Lemma content_size_sub (l l' : list (Key * Value)) : l ⊆+ l' -> (content_size l <= content_size l')%nat.
Proof. induction 1; rewrite ?content_size_cons; lia. Qed.

(** A page, and a write with the consolidation of at most [n] pages, need this much of
    the buffer. *)
Definition page_cost (opts : TreeOptions) : Z := 16 + align8 (opt_page_size opts).
Definition write_cost (opts : TreeOptions) (n : nat) : Z := 2 * page_cost opts + dealloc_need n.

Lemma align8_mono x y : x <= y -> align8 x <= align8 y.
Proof. intros Hxy. unfold align8. apply Z.mul_le_mono_nonneg_r; [lia|]. apply Z.div_le_mono; lia. Qed.
Lemma dealloc_need_mono k n : (k <= n)%nat -> dealloc_need k <= dealloc_need n.
Proof. intros Hk. unfold dealloc_need. pose proof (align8_mono (k * 8)%nat (n * 8)%nat). lia. Qed.
Lemma page_need_cost opts (l : list (Key * Value)) : (builder_size (content_size l) <= opt_page_size opts)%nat -> page_need l <= page_cost opts.
Proof. intros Hl. unfold page_need, page_cost. pose proof (align8_mono (builder_size (content_size l)) (opt_page_size opts)). lia. Qed.

(** ** Items without duplicates *)

Lemma sorted_nodup_strict (l : list (Key * Value)) : key_sorted l -> NoDup l.*1 -> key_strict l.
Proof.
  induction 1 as [|x l Hs IH Hx]; intros Hn; [constructor|]. apply NoDup_cons in Hn as [Hni Hn]. constructor; [by apply IH|].
  rewrite Forall_forall in Hx |- *. intros y Hy. specialize (Hx y Hy). simpl in Hx. apply kle_cases in Hx as [?|E]; [done|].
  exfalso. apply Hni. rewrite E. apply list_elem_of_fmap. by exists y.
Qed.
Lemma kmerge_strict (ls : list (list (Key * Value))) hist :
  Forall key_sorted ls -> concat ls ⊆+ hist -> NoDup hist.*1 -> key_strict (kmerge ls).
Proof.
  intros Hs Hsub Hn. apply sorted_nodup_strict; [by apply kmerge_sorted|]. rewrite kmerge_perm.
  apply submseteq_Permutation in Hsub as [k Hk]. rewrite Hk, fmap_app in Hn. by apply NoDup_app in Hn as (? & _).
Qed.
Lemma take_sub {A} k (ls : list (list A)) : concat (take k ls) ⊆+ concat ls.
Proof. rewrite <- (take_drop k ls) at 2. rewrite concat_app. by apply submseteq_inserts_r. Qed.
Lemma merged_sub safe k (ls : list (list (Key * Value))) : concat (consolidated safe (take k ls) :: drop k ls) ⊆+ concat ls.
Proof.
  cbn [concat]. rewrite <- (take_drop k ls) at 3. rewrite concat_app. apply submseteq_app; [apply consolidated_sub|done].
Qed.

(** ** The root is a leaf *)

(** The root is a chain of data pages whose entries are some of the history and enough of
    it for readers at or after the safe LSN, with at least [room] bytes left in the
    buffer. *)
Record root_leaf (s : Store) (hist : list (Key * Value)) (safe : Z) (n : nat) (room : Z) (t : gmap Z Z) (m : gmap Z (list Z))
    (addr : Z) (l : list (Z * list Z)) (ls : list (list (Key * Value))) (h : Header) (c : list Z) : Prop := {
  rl_heap : exists room', heap_inv s t m room' /\ room <= room';
  rl_root : t !! ROOT_ID = Some addr;
  rl_head : m !! addr = Some (page_of h c) /\ header_ok h /\ h_tier h = Leaf /\ h_epoch h = 0;
  rl_chain : heap_chain m addr l /\ Forall2 (λ ap x, chain_page ap.2 x) l (CData <$> ls);
  rl_newest : newest_first ls;
  rl_sub : concat ls ⊆+ hist;
  rl_len : (length ls <= n)%nat;
  rl_reads : forall q, safe <= lsn q -> value_at q (kmerge ls) = history_value q hist;
}.
Definition table_holds (t : Table) (hist : list (Key * Value)) (safe : Z) (n : nat) (room : Z) : Prop :=
  tb_safe_lsn t = safe /\ NoDup hist.*1 /\ tombstones_above safe hist /\ (length hist <= n)%nat /\
  exists tb m addr l ls h c, root_leaf (tb_store t) hist safe n room tb m addr l ls h c.

Lemma root_leaf_weaken s hist safe safe' n n' room room' t m addr l ls h c :
  safe <= safe' -> (n <= n')%nat -> room' <= room ->
  root_leaf s hist safe n room t m addr l ls h c -> root_leaf s hist safe' n' room' t m addr l ls h c.
Proof.
  intros Hs Hn Hroom [(r & G1 & Hr) G2 G3 G4 G5 G6 G7 G8]. split; [exists r; split; [done|lia]|done..|lia|].
  intros q Hq. apply G8. lia.
Qed.

Section root.
Context (fm : Z -> list Z) (opts : TreeOptions) (fuel : nat).
Context {s : Store} {hist : list (Key * Value)} {safe : Z} {n : nat} {room : Z} {t : gmap Z Z} {m : gmap Z (list Z)}
  {addr : Z} {l : list (Z * list Z)} {ls : list (list (Key * Value))} {h : Header} {c : list Z}.
Context (Hr : root_leaf s hist safe n room t m addr l ls h c).

Definition root_view : PageView := mkPageView ROOT_ID addr (page_info (page_of h c)) (Some ROOT_RANGE).

Lemma root_route key : (0 < fuel)%nat -> route fuel t m key fuel ROOT_INDEX ROOT_RANGE None (root_view, None).
Proof using Hr.
  intros Hf. destruct (rl_head _ _ _ _ _ _ _ _ _ _ _ _ Hr) as (Ha & Hh & Ht & He). destruct fuel as [|f]; [lia|].
  apply (route_leaf (S f) t m key f ROOT_INDEX ROOT_RANGE None addr (page_of h c)); [apply Hr|done|by rewrite page_of_info_epoch|].
  by rewrite page_of_info_tier, Ht.
Qed.

Lemma root_sorted : Forall key_sorted ls.
Proof using Hr.
  destruct (rl_heap _ _ _ _ _ _ _ _ _ _ _ _ Hr) as (room' & Hi & _), (rl_chain _ _ _ _ _ _ _ _ _ _ _ _ Hr) as [Hc Hp].
  pose proof (chain_sorted s addr (CData <$> ls)) as Hs. rewrite omap_data_of in Hs. apply Hs.
  exists l. split; [by eapply heap_chain_store|done].
Qed.

(** The first page of the chain. *)
Lemma root_first : addr <> 0 /\ exists a ls', ls = a :: ls' /\ (exists h', page_of h c = page_of h' (content_of a)) /\ l <> [].
Proof using Hr.
  destruct (rl_heap _ _ _ _ _ _ _ _ _ _ _ _ Hr) as (room' & Hi & _), (rl_chain _ _ _ _ _ _ _ _ _ _ _ _ Hr) as [Hc Hp].
  destruct (rl_head _ _ _ _ _ _ _ _ _ _ _ _ Hr) as (Ha & _).
  assert (Hne : addr <> 0).
  { destruct Hi as (b & sb & rs & free & Hb & _ & _ & _ & Hm & _). destruct (heap_addr_bounds _ _ _ _ _ _ _ _ Hb Hm Ha) as [? _]. lia. }
  split; [done|]. inversion Hc as [|? page l' _ Ha' _]; subst; [done|]. rewrite Ha in Ha'. injection Ha' as <-.
  destruct ls as [|a ls']; inversion Hp as [|? ? ? ? Hx]; subst. exists a, ls'. split; [done|]. split; [|done].
  destruct Hx as (h' & _ & _ & Hx & _). by exists h'.
Qed.

Lemma root_no_split : (builder_size (content_size hist) <= opt_page_size opts)%nat -> should_split_page opts (page_info (page_of h c)) = Ok false.
Proof using Hr.
  intros Hsz. destruct (rl_head _ _ _ _ _ _ _ _ _ _ _ _ Hr) as (_ & Hh & Ht & _). destruct root_first as (_ & a & ls' & -> & (h' & Hpg) & _).
  unfold should_split_page. rewrite page_of_info_tier, Ht by done. cbn [mbind res_bind]. change (is_inner Leaf) with false. cbn match.
  rewrite bool_decide_false; [done|]. unfold info_size, page_info. cbn [pi_size]. rewrite Hpg, length_page_of, length_content.
  pose proof (content_size_sub a hist) as Hs. unfold builder_size, PAGE_HEADER_LEN in *.
  enough (a ⊆+ hist) by (specialize (Hs H); lia). etrans; [|apply Hr]. cbn [concat]. by apply submseteq_inserts_r.
Qed.

(** Reading. *)
Lemma root_get q : safe <= lsn q -> (S n < fuel)%nat -> tree_get fm opts fuel safe q s = (Ok (history_value q hist), s).
Proof using Hr.
  intros Hq Hf. destruct (rl_heap _ _ _ _ _ _ _ _ _ _ _ _ Hr) as (room' & Hi & _), (rl_chain _ _ _ _ _ _ _ _ _ _ _ _ Hr) as [Hc Hp].
  unfold tree_get. st_step (find_leaf_ok fm opts fuel safe _ _ _ _ _ _ Hi (root_route (raw q) ltac:(lia))).
  pose proof (rl_newest _ _ _ _ _ _ _ _ _ _ _ _ Hr) as Hn. pose proof (rl_len _ _ _ _ _ _ _ _ _ _ _ _ Hr) as Hl. rewrite <- (omap_data_of ls) in Hn.
  rewrite (find_value_at fuel s t m _ q root_view (CData <$> ls) Hi); [|by exists l|done|rewrite length_fmap; lia].
  rewrite omap_data_of. by rewrite (rl_reads _ _ _ _ _ _ _ _ _ _ _ _ Hr).
Qed.

(** The chain after the first [k] pages were consolidated. *)
Lemma root_merged s' room' new h2 c2 n2 next k :
  let out := consolidated safe (take k ls) in
  m !! addr = Some (page_of h2 c2) -> header_ok h2 -> h_tier h2 = Leaf -> fits 8 n2 -> fits 64 next -> (0 < k <= length ls)%nat ->
  heap_chain m next (drop k l) -> m !! new = None -> new <> 0 -> items_ok out -> key_strict out -> tombstones_above safe hist ->
  heap_inv s' (<[ROOT_ID := new]> t) (<[new := merged_page h2 n2 next out]> m) room' ->
  root_leaf s' hist safe n room' (<[ROOT_ID := new]> t) (<[new := merged_page h2 n2 next out]> m) new
    ((new, merged_page h2 n2 next out) :: drop k l) (out :: drop k ls) (mkHeader (h_epoch h2) Leaf DataPage n2 next) (content_of out).
Proof using Hr.
  intros out Ha2 Hh2 Ht2 Hn2 H64 Hk Hrest Hnone Hne Hok Hst Htomb Hi'. destruct (rl_head _ _ _ _ _ _ _ _ _ _ _ _ Hr) as (Ha & Hh & Ht & He).
  destruct (rl_chain _ _ _ _ _ _ _ _ _ _ _ _ Hr) as [Hc Hp]. pose proof (merged_header_ok h2 n2 next Hh2 Hn2 H64) as Hmh.
  assert (He2 : h_epoch h2 = 0).
  { pose proof (page_of_info_epoch h2 c2 Hh2) as E1. pose proof (page_of_info_epoch h c Hh) as E2. assert (page_of h2 c2 = page_of h c) as E by congruence. rewrite E in E1. congruence. }
  assert (Hsub : tombstones_above safe (concat (take k ls))).
  { intros key Hkey. apply Htomb. eapply elem_of_submseteq; [exact Hkey|]. etrans; [apply take_sub|apply Hr]. }
  split.
  - by exists room'.
  - apply lookup_insert_eq.
  - split_and!; [apply lookup_insert_eq|exact Hmh|done|exact He2].
  - split.
    + constructor; [done|apply lookup_insert_eq|]. unfold merged_page at 2. rewrite page_of_chain_next by done. cbn [h_chain_next].
      eapply heap_chain_mono; [|exact Hrest]. by apply insert_subseteq.
    + constructor; [by eexists|]. change (Forall2 (λ (ap : Z * list Z) x, chain_page ap.2 x) (drop k l) (CData <$> drop k ls)).
      rewrite fmap_drop. by apply Forall2_drop.
  - by apply newest_first_merged, Hr.
  - etrans; [apply merged_sub|apply Hr].
  - pose proof (rl_len _ _ _ _ _ _ _ _ _ _ _ _ Hr). cbn [length]. rewrite length_drop. lia.
  - intros q Hq. rewrite <- (rl_reads _ _ _ _ _ _ _ _ _ _ _ _ Hr q Hq). unfold value_at, out.
    by rewrite merged_version by (done || apply root_sorted || apply Hr).
Qed.

End root.

(** Consolidating. *)
Lemma root_consolidate fm opts fuel s hist safe n room t m addr l ls h c :
  root_leaf s hist safe n room t m addr l ls h c -> NoDup hist.*1 -> tombstones_above safe hist ->
  (builder_size (content_size hist) <= opt_page_size opts)%nat -> opt_page_size opts <= 2 ^ 32 - 24 -> (n * 8)%nat <= 2 ^ 32 - 24 ->
  (n < fuel)%nat -> (length hist < fuel)%nat -> page_cost opts + dealloc_need n <= room ->
  exists s' t' m' addr' l' ls' h' c', consolidate_and_restructure_page fm opts fuel safe (root_view (addr := addr) (h := h) (c := c)) s = (Ok tt, s') /\
    root_leaf s' hist safe n (room - page_cost opts - dealloc_need n) t' m' addr' l' ls' h' c'.
Proof.
  intros Hr Hnd Htomb Hsz Hps Hn8 Hf Hfh Hroom. destruct (rl_heap _ _ _ _ _ _ _ _ _ _ _ _ Hr) as (room' & Hi & Hle).
  destruct (rl_chain _ _ _ _ _ _ _ _ _ _ _ _ Hr) as [Hc Hp]. pose proof (rl_len _ _ _ _ _ _ _ _ _ _ _ _ Hr) as Hlen.
  pose proof (rl_sub _ _ _ _ _ _ _ _ _ _ _ _ Hr) as Hsub. destruct (root_first Hr) as (_ & a & ls0 & Els & _ & Hl0).
  assert (Hll : length l = length ls) by (rewrite (Forall2_length _ _ _ Hp); apply length_fmap).
  set (k := taken opts 0 0 l.*2). assert (Hk : (0 < k <= length ls)%nat).
  { split; [|unfold k; rewrite <- Hll, <- (length_fmap snd l); apply taken_le]. destruct l; [done|]. apply taken_first. }
  set (out := consolidated safe (take k ls)).
  assert (Hout : out ⊆+ hist) by (etrans; [apply consolidated_sub|]; etrans; [apply take_sub|done]).
  pose proof (content_size_sub _ _ Hout) as Hosz. pose proof (submseteq_length _ _ Hout) as Holen.
  assert (Hob : (builder_size (content_size out) <= opt_page_size opts)%nat) by (unfold builder_size in *; lia).
  pose proof (page_need_cost opts out Hob) as Hneed. pose proof (dealloc_need_mono k n ltac:(lia)) as Hdn.
  destruct (consolidated_ok safe (take k ls)) as (Hok & Hst & _).
  { eapply kmerge_strict; [apply Forall_take, (root_sorted Hr)| |exact Hnd]. etrans; [apply take_sub|done]. }
  { apply Forall_take. by eapply chain_pages_ok. }
  { fold out. unfold builder_size, PAGE_HEADER_LEN, u32_max in *. lia. }
  destruct (consolidate_page_taken fm opts fuel safe s t m room' _ None [] l ls Hi (root_route fuel Hr [] ltac:(lia)) Hc Hp)
    as (view' & s' & new & h2 & c2 & n2 & next & Hcp & Ha2 & Hh2 & Ht2 & Hn2 & H64 & Hrest & Hnone & Hne & -> & Hi');
    fold k; fold out; [lia|lia|lia|lia|lia|].
  fold k out in Hi', Hrest. pose proof (root_merged Hr s' _ new h2 c2 n2 next k Ha2 Hh2 Ht2 Hn2 H64 Hk Hrest Hnone Hne Hok Hst Htomb Hi') as Hr'.
  eexists s', _, _, _, _, _, _, _. split.
  - unfold consolidate_and_restructure_page. st_step Hcp. cbn [pv_page].
    by rewrite (st_bind_ok _ _ s' false s') by (unfold lift; f_equal; exact (root_no_split opts Hr' Hsz)).
  - eapply root_leaf_weaken; [| | |exact Hr']; lia.
Qed.

(** The chain with a write in front of it. *)
Lemma root_pushed s hist safe n room t m addr l ls h c s' room' new h2 c2 key value :
  root_leaf s hist safe n room t m addr l ls h c -> write_ok (key, value) hist safe -> items_ok [(key, value)] ->
  m !! addr = Some (page_of h2 c2) -> header_ok h2 -> fits 64 addr -> m !! new = None -> new <> 0 ->
  heap_inv s' (<[ROOT_ID := new]> t) (<[new := delta_page h2 addr key value]> m) room' ->
  root_leaf s' ((key, value) :: hist) safe (S n) room' (<[ROOT_ID := new]> t) (<[new := delta_page h2 addr key value]> m) new
    ((new, delta_page h2 addr key value) :: l) ([(key, value)] :: ls)
    (mkHeader (h_epoch h2) Leaf DataPage (sat_add_u8 (h_chain_len h2)) addr) (content_of [(key, value)]).
Proof.
  intros Hr (_ & Hnew & _) Hok Ha2 Hh2 H64 Hnone Hne Hi'. destruct (rl_head _ _ _ _ _ _ _ _ _ _ _ _ Hr) as (Ha & Hh & Ht & He).
  destruct (rl_chain _ _ _ _ _ _ _ _ _ _ _ _ Hr) as [Hc Hp]. pose proof (delta_header_ok h2 addr Hh2 H64) as Hdh.
  pose proof (rl_sub _ _ _ _ _ _ _ _ _ _ _ _ Hr) as Hsub. simpl in Hnew.
  assert (He2 : h_epoch h2 = 0).
  { pose proof (page_of_info_epoch h2 c2 Hh2) as E1. pose proof (page_of_info_epoch h c Hh) as E2.
    assert (page_of h2 c2 = page_of h c) as E by congruence. rewrite E in E1. congruence. }
  assert (Hin : forall a x, a ∈ ls -> x ∈ a -> x ∈ hist).
  { intros a x Ha' Hx. eapply elem_of_submseteq; [|exact Hsub]. apply list_elem_of_In, in_concat. exists a. by rewrite <- !list_elem_of_In. }
  assert (Hs : Forall key_sorted ls) by exact (root_sorted Hr).
  assert (Hrd : forall q, newest_first ([(key, value)] :: ls) /\
    value_at q (kmerge ([(key, value)] :: ls)) = read_after key value q (value_at q (kmerge ls))).
  { intros q. rewrite <- (omap_data_of ls) at 3. rewrite <- (omap_data_of ([(key, value)] :: ls)).
    change (CData <$> ([(key, value)] :: ls)) with (CData (K := Key) (V := Value) [(key, value)] :: (CData <$> ls)).
    apply (reads_delta key value q (CData <$> ls)).
    - by rewrite omap_data_of.
    - rewrite omap_data_of. apply Hr.
    - rewrite omap_data_of. intros a x Ha' Hx Er. specialize (Hnew x (Hin a x Ha' Hx) Er). lia. }
  split.
  - by exists room'.
  - apply lookup_insert_eq.
  - split_and!; [apply lookup_insert_eq|exact Hdh|done|exact He2].
  - split; [apply delta_chain; try done|].
    constructor; [eexists; split; [exact Hdh|]|exact Hp]. split_and!; [done|done|done|by repeat constructor].
  - apply (Hrd key).
  - cbn [concat app]. by apply submseteq_skip.
  - pose proof (rl_len _ _ _ _ _ _ _ _ _ _ _ _ Hr). simpl. lia.
  - intros q Hq. rewrite (proj2 (Hrd q)). cbn [history_value]. by rewrite (rl_reads _ _ _ _ _ _ _ _ _ _ _ _ Hr q Hq).
Qed.

Lemma after_nodup key value (hist : list (Key * Value)) : newer key hist -> NoDup hist.*1 -> NoDup ((key, value) :: hist).*1.
Proof.
  intros Hnew Hn. apply NoDup_cons. split; [|done]. intros (y & E & Hy)%list_elem_of_fmap. simpl in E. subst key. specialize (Hnew y Hy eq_refl). lia.
Qed.

(** Writing. *)
Lemma root_write fm opts fuel s hist safe n room t m addr l ls h c key value :
  let hist' := (key, value) :: hist in
  root_leaf s hist safe n room t m addr l ls h c -> write_ok (key, value) hist safe -> NoDup hist.*1 -> tombstones_above safe hist ->
  (builder_size (content_size hist') <= opt_page_size opts)%nat -> opt_page_size opts <= 2 ^ 32 - 24 -> (S n * 8)%nat <= 2 ^ 32 - 24 ->
  (S n < fuel)%nat -> (length hist' < fuel)%nat -> write_cost opts (S n) <= room ->
  exists s' t' m' addr' l' ls' h' c', tree_write fm opts fuel safe fuel key value s = (Ok tt, s') /\
    root_leaf s' hist' safe (S n) (room - write_cost opts (S n)) t' m' addr' l' ls' h' c'.
Proof.
  intros hist' Hr Hw Hnd Htomb Hsz Hps Hn8 Hf Hfh Hroom. destruct (rl_heap _ _ _ _ _ _ _ _ _ _ _ _ Hr) as (room' & Hi & Hle).
  pose proof (rl_chain _ _ _ _ _ _ _ _ _ _ _ _ Hr) as [Hc Hp]. pose proof Hw as (Hitem & Hnew & Hdel).
  pose proof (content_size_sub [(key, value)] hist' (submseteq_skip _ _ _ (submseteq_nil_l _))) as Hdsz.
  assert (Hdb : (builder_size (content_size [(key, value)]) <= opt_page_size opts)%nat) by (unfold builder_size in *; lia).
  pose proof (page_need_cost opts _ Hdb) as Hneed. pose proof (dealloc_need_pos (S n)) as Hdp. pose proof (page_need_pos [(key, value)]) as Hpp.
  assert (Hpc : 0 <= page_cost opts) by lia. unfold write_cost in *.
  assert (Hok : items_ok [(key, value)]).
  { split; [by apply Forall_singleton|]. unfold builder_size, PAGE_HEADER_LEN, u32_max in *. lia. }
  destruct (try_write_publish fm opts fuel safe s t m room' key value _ None (CData <$> ls) Hi (root_route fuel Hr (raw key) ltac:(lia)))
    as (s1 & new & h2 & c2 & Htw & Hpg & Ha2 & Hh2 & Ht2 & Hnone & Hne & _ & H64 & Hi1); [by exists l|lia|lia|lia| |].
  { apply (root_no_split opts Hr). pose proof (content_size_sub hist hist' ltac:(by apply submseteq_cons)). unfold builder_size in *. lia. }
  cbn [root_view pv_addr pv_id pv_range] in *.
  pose proof (root_pushed s hist safe n room t m addr l ls h c s1 _ new h2 c2 key value Hr Hw Hok Ha2 Hh2 H64 Hnone Hne Hi1) as Hr1.
  assert (Hfin : forall s', try_write fm opts fuel safe key value s = (Ok tt, s') -> tree_write fm opts fuel safe fuel key value s = (Ok tt, s')).
  { intros s' E. destruct fuel as [|f]; [lia|]. cbn [tree_write]. by rewrite (st_bind_ok _ _ s (inl tt) s') by (unfold attempt; by rewrite E). }
  unfold delta_page in Htw. cbn [pv_page] in Htw. rewrite should_consolidate_leaf in Htw by (done || by apply delta_header_ok).
  rewrite (st_bind_ok (lift _) _ s1 _ s1 eq_refl) in Htw. destruct (Nat.max _ _ <? _).
  - destruct (root_consolidate fm opts fuel s1 hist' safe (S n) _ _ _ _ _ _ _ _ Hr1)
      as (s' & t' & m' & addr' & l' & ls' & h' & c' & Hcp & Hr'); [by apply after_nodup| |done|done|lia|lia|lia|lia|].
    { intros k [[= -> <-]|Hk]%elem_of_cons; [by apply Hdel|by apply Htomb]. }
    exists s', t', m', addr', l', ls', h', c'. split.
    + apply Hfin. rewrite Htw. unfold root_view in Hcp.
      by rewrite (st_bind_ok _ _ s1 (inl tt) s') by (unfold attempt; by rewrite Hcp).
    + eapply root_leaf_weaken; [| | |exact Hr']; lia.
  - eexists s1, _, _, _, _, _, _, _. split; [by apply Hfin|]. eapply root_leaf_weaken; [| | |exact Hr1]; lia.
Qed.

(** ** Operations *)

Definition history_after (ops : list TableOp) (hist : list (Key * Value)) : list (Key * Value) := foldl (λ hist op, after op hist) hist ops.

Lemma after_sub op hist : hist ⊆+ after op hist.
Proof. apply submseteq_inserts_l. done. Qed.
Lemma history_sub ops hist : hist ⊆+ history_after ops hist.
Proof. revert hist; induction ops as [|op ops IH]; intros hist; [done|]. cbn. etrans; [apply after_sub|apply IH]. Qed.

Lemma set_safe_lsn_loop_ok safe lsn : set_safe_lsn_loop 2 safe (LsnLoad lsn) = Ok (Z.max safe lsn).
Proof.
  cbn. destruct (Z.leb_spec lsn safe) as [|]; cbn; [by rewrite Z.max_l by lia|]. rewrite Z.eqb_refl. cbn. by rewrite Z.max_r by lia.
Qed.

Lemma dealloc_cost opts n N room : (S n <= N)%nat -> write_cost opts N <= room -> write_cost opts (S n) <= room.
Proof. intros Hn Hr. unfold write_cost in *. pose proof (dealloc_need_mono (S n) N Hn). lia. Qed.

Lemma write_cost_pos opts N : 0 <= write_cost opts N.
Proof. unfold write_cost, page_cost. pose proof (dealloc_need_pos N). pose proof (align8_bounds (opt_page_size opts)). lia. Qed.

Section table.
Context (fm : Z -> list Z) (opts : TreeOptions) (fuel N : nat).
Context (Hps : opt_page_size opts <= 2 ^ 32 - 24) (HN : (N * 8)%nat <= 2 ^ 32 - 24) (Hfuel : (S N < fuel)%nat).

Lemma tbl_write_ok t hist safe n room key value :
  table_holds t hist safe n room -> write_ok (key, value) hist safe -> (S n <= N)%nat -> write_cost opts N <= room ->
  (builder_size (content_size ((key, value) :: hist)) <= opt_page_size opts)%nat ->
  exists t', on_store (λ safe_lsn, tree_write fm opts fuel safe_lsn fuel key value) t = (Ok tt, t') /\
    table_holds t' ((key, value) :: hist) safe (S n) (room - write_cost opts N).
Proof using Hps HN Hfuel.
  intros (Hsafe & Hnd & Ht & Hlen & tb & m & addr & l & ls & h & c & Hr) Hw Hn Hroom Hsz. pose proof Hw as (_ & Hnew & Hdel).
  destruct (root_write fm opts fuel _ _ _ _ _ _ _ _ _ _ _ _ key value Hr Hw Hnd Ht Hsz Hps ltac:(lia) ltac:(lia) ltac:(simpl; lia))
    as (s' & tb' & m' & addr' & l' & ls' & h' & c' & E & Hr'); [by eapply dealloc_cost|].
  exists (mkTable (tb_safe_lsn t) s'). split; [unfold on_store; by rewrite Hsafe, E|]. split_and!; [done|by apply after_nodup| |simpl; lia|].
  - intros k [[= -> <-]|Hk]%elem_of_cons; [by apply Hdel|by apply Ht].
  - exists tb', m', addr', l', ls', h', c'. eapply root_leaf_weaken; [| | |exact Hr']; [lia|lia|].
    unfold write_cost. pose proof (dealloc_need_mono (S n) N Hn). lia.
Qed.

Lemma tbl_step_ok t hist safe n room op :
  table_holds t hist safe n room -> tbl_op_ok op hist safe -> (S n <= N)%nat -> write_cost opts N <= room ->
  (builder_size (content_size (after op hist)) <= opt_page_size opts)%nat ->
  exists t', tbl_step fm opts fuel op t = (Ok (spec_out op hist safe), t') /\
    table_holds t' (after op hist) (safe_after op safe) (S n) (room - write_cost opts N).
Proof using Hps HN Hfuel.
  intros Ht Hop Hn Hroom Hsz. pose proof (write_cost_pos opts N) as Hpos.
  assert (Hkeep : forall t' safe', tb_store t' = tb_store t -> tb_safe_lsn t' = safe' -> safe <= safe' -> tombstones_above safe' hist ->
    table_holds t' hist safe' (S n) (room - write_cost opts N)).
  { intros t' safe' Es E1 Hle Htomb. destruct Ht as (_ & Hnd & _ & Hlen & tb & m & addr & l & ls & h & c & Hr).
    split_and!; [done|done|done|lia|]. exists tb, m, addr, l, ls, h, c. rewrite Es. eapply root_leaf_weaken; [| | |exact Hr]; lia. }
  destruct op as [key lsn|key lsn value|key lsn| |lsn]; cbn [tbl_step spec_out safe_after after write_of option_list app tbl_op_ok] in *.
  - destruct Ht as (Hsafe & Hnd & Htomb & Hlen & tb & m & addr & l & ls & h & c & Hr).
    unfold tbl_get. rewrite (st_bind_ok (on_store _) _ t (history_value (mkKey key lsn) hist) t).
    { exists t. split; [done|]. apply Hkeep; [done|done|lia|done]. }
    unfold on_store. rewrite Hsafe, (root_get fm opts fuel Hr) by (simpl; lia). destruct t; cbn in *. by rewrite Hsafe.
  - destruct (tbl_write_ok t hist safe n room (mkKey key lsn) (Put value)) as (t' & E & Ht'); [done|by apply Hop|done..|].
    exists t'. split; [|done]. unfold tbl_put. by rewrite (st_bind_ok _ _ _ _ _ E).
  - destruct (tbl_write_ok t hist safe n room (mkKey key lsn) Delete) as (t' & E & Ht'); [done|by apply Hop|done..|].
    exists t'. split; [|done]. unfold tbl_delete. by rewrite (st_bind_ok _ _ _ _ _ E).
  - unfold tbl_safe_lsn. rewrite st_gets. destruct Ht as (Hsafe & Hnd & Htomb & Ht). rewrite Hsafe. exists t. split; [done|].
    apply Hkeep; [done|done|lia|done].
  - destruct Ht as (Hsafe & Hnd & Htomb & Ht). unfold tbl_set_safe_lsn, tbl_safe_lsn. rewrite !st_assoc, st_gets, Hsafe, st_assoc.
    rewrite (st_bind_ok (lift _) _ t (Z.max safe lsn) t) by (unfold lift; by rewrite set_safe_lsn_loop_ok). rewrite st_modify.
    eexists. split; [done|]. apply Hkeep; [done|done|lia|].
    intros k Hk. specialize (Hop k Hk). specialize (Htomb k Hk). lia.
Qed.

Lemma tbl_run_ok ops t hist safe n room :
  table_holds t hist safe n room -> tbl_ops_ok ops hist safe -> (n + length ops <= N)%nat -> length ops * write_cost opts N <= room ->
  (builder_size (content_size (history_after ops hist)) <= opt_page_size opts)%nat ->
  exists t', tbl_run fm opts fuel ops t = (Ok (tbl_spec ops hist safe), t').
Proof using Hps HN Hfuel.
  revert t hist safe n room. induction ops as [|op ops IH]; intros t hist safe n room Ht Hok Hn Hroom Hsz; [by exists t|].
  destruct Hok as [Hop Hok]. cbn [length] in *. pose proof (write_cost_pos opts N) as Hpos.
  pose proof (content_size_sub _ _ (history_sub ops (after op hist))) as Hsub. change (history_after (op :: ops) hist) with (history_after ops (after op hist)) in Hsz.
  destruct (tbl_step_ok t hist safe n room op) as (t1 & E & Ht1); [done|done|lia|lia|unfold builder_size in *; lia|].
  destruct (IH t1 _ _ _ _ Ht1 Hok) as (t2 & E2); [lia|lia|done|].
  exists t2. cbn [tbl_run tbl_spec]. rewrite (st_bind_ok _ _ _ _ _ E). by rewrite (st_bind_ok _ _ _ _ _ E2).
Qed.
End table.

(** [C1] A table is a multi-version map. On an empty store whose buffer has room for the
    work, [open] creates the tree, and every sequence of reads, writes, deletes and
    moves of the safe LSN gives what the map gives: a read returns the newest write of
    its key at or before its LSN. The writes may consolidate the page in whole or in
    part. What is asked for: the entries fit into one page, the LSNs of the writes of a
    key grow, nobody reads below the safe LSN and no delete is at or below it. *)
Theorem table_refines fm opts (fuel : nat) (s : Store) (room : Z) (ops : list TableOp) :
  let N := S (length ops) in
  heap_inv s ∅ ∅ room -> st_table s = inner_default -> tbl_ops_ok ops [] 0 ->
  (builder_size (content_size (history_after ops [])) <= opt_page_size opts)%nat -> opt_page_size opts <= 2 ^ 32 - 24 ->
  (N * 8)%nat <= 2 ^ 32 - 24 -> (S N < fuel)%nat -> page_cost opts + length ops * write_cost opts N <= room ->
  exists t t', tbl_open fm fuel s = Ok t /\ tbl_run fm opts fuel ops t = (Ok (tbl_spec ops [] 0), t').
Proof.
  intros N Hi Htab Hok Hsz Hps HN Hf Hroom. pose proof (content_size_sub _ _ (history_sub ops [])) as Hsub.
  pose proof (page_need_cost opts [] ltac:(unfold builder_size in *; lia)) as Hneed. pose proof (write_cost_pos opts N) as Hpos.
  assert (Hall : 0 <= length ops * write_cost opts N) by (apply Z.mul_nonneg_nonneg; lia).
  destruct (tree_init_refines fm fuel s room Hi Htab) as (s' & addr & E & Hi' & Hrd); [lia|lia|].
  assert (Hb : addr <> 0).
  { destruct (Hrd (mkKey [] 0)) as (view & par & xs & Hr & _). inversion Hr as [? ? ? ? a p H1 H2|? ? ? ? a p ? ? ? ? H1 H2]; subst;
      apply lookup_singleton_Some in H1 as [_ <-]; destruct Hi' as (b & sb & rs & free & Hbuf & _ & _ & _ & Hm & _);
      destruct (heap_addr_bounds _ _ _ _ _ _ _ _ Hbuf Hm H2); lia. }
  unfold tbl_open. rewrite E. cbn [mbind res_bind]. eexists.
  destruct (tbl_run_ok fm opts fuel N Hps HN ltac:(lia) ops (mkTable 0 s') [] 0 1 (room - page_cost opts)) as (t' & Er); [|done|unfold N; lia|lia|done|by exists t'].
  split_and!; [done|constructor|by intros k ?%not_elem_of_nil|simpl; lia|].
  eexists _, _, addr, [(addr, root_page)], [[]], (built_header (mkPageBuilder Leaf DataPage)), (content_of ([] : list (Key * Value))). split.
  - eexists. split; [exact Hi'|cbn in *; lia].
  - apply lookup_singleton_eq.
  - split_and!; [apply lookup_singleton_eq|done|done|done].
  - split.
    + constructor; [done|apply lookup_singleton_eq|]. change (page_chain_next root_page) with 0. constructor.
    + constructor; [|done]. eexists. split; [|split; [|split; [done|]]]; [done|done|].
      split; [split; [constructor|vm_compute; congruence]|constructor].
  - repeat constructor.
  - done.
  - simpl. lia.
  - done.
Qed.

(** Two keys, a delete, a consolidation behind the safe LSN, and reads of the past. *)
Definition tbl_ops : list TableOp :=
  [TPut [1] 1 [10]; TPut [2] 2 [20]; TPut [1] 3 [30]; TDelete [2] 5; TSetSafeLsn 3; TPut [3] 6 [40]; TGet [1] 3; TGet [2] 4; TGet [2] 5].

Lemma tbl_ops_legal : tbl_ops_ok tbl_ops [] 0.
Proof.
  cbn [tbl_ops_ok tbl_ops]. split_and!; try done; cbn [tbl_op_ok after write_of option_list app safe_after];
    try (intros w [= <-]; split_and!; [repeat split; vm_compute; congruence| |]); cbn [fst snd]; try done;
    intros y Hy; unfold after in Hy; simpl in Hy; repeat (apply elem_of_cons in Hy as [E|Hy]; [simplify_eq/=; first [done|lia]|]); by apply not_elem_of_nil in Hy.
Qed.

Lemma table_refines_witness : exists t t',
  tbl_open zero_mem 20 empty_store = Ok t /\
  tbl_run zero_mem (mkTreeOptions 144 2) 20 tbl_ops t =
    (Ok [OUnit; OUnit; OUnit; OUnit; OUnit; OUnit; OValue (Some [30]); OValue (Some [20]); OValue None], t').
Proof.
  apply (table_refines zero_mem (mkTreeOptions 144 2) 20 empty_store 4096 tbl_ops empty_store_heap eq_refl tbl_ops_legal).
  - apply Nat.leb_le. by vm_compute.
  - by vm_compute.
  - by vm_compute.
  - simpl. lia.
  - by vm_compute.
Defined.
